(* ===== verification/_CoqProject ===== *)
-Q . S2P
Prelude.v
Endian.v
Intset.v
Adlist.v
Util.v
Sds.v
Request.v
Object.v
Zskiplist.v
ZskiplistFacts.v
Glob.v
Dict.v
DictScan.v
Lzf.v
Crc.v
Rio.v
Aof.v
AofLoad.v
Rdb.v
Ziplist.v
ZiplistFacts.v
Reply.v
ReplyFacts.v
Replication.v
ReplicationFacts.v
Pqsort.v
Server.v
Watch.v
Db.v
Strings.v
Multi.v
KeySpec.v
SpecFacts.v
ServerFacts.v
DbFacts.v
StringFacts.v
KeyFacts.v
WatchFacts.v
MultiFacts.v
ExecFacts.v
SafetyFacts.v
