(* ===== verification/Prelude.v ===== *)
(** * Verification of the Redis server sources bundled with AppFit

    AppFit is a service that profiles applications to size their machines; the C
    program of the repository is the Redis server that it bundles as a sample
    application, src/sampleapps/redis-stable.  This library models the part of the
    server that computes on data (the containers, the strings and numbers, the
    protocol, the persistence formats) and proves it correct.  File names below are
    relative to src/sampleapps/redis-stable/src.

    ** How the models are made

    Every C function is a definition of the same name, executable, on explicit
    state: a block of memory is a list of bytes with offsets for pointers (sds,
    intset, ziplist, lzf, the query buffer), linked structures live in a finite map
    from addresses to nodes (adlist, skip lists, objects), so that aliasing and
    dangling pointers are seen.  Reading or writing out of a block, using a freed
    object, signed overflow, a failed assertion and redisPanic give [None]; so a
    theorem that a function gives [Some] is also one of memory safety.  Machine
    integers are [Z] with their wrap-around written out ([u8] ... [u64], [s8] ...
    [s64]).  The errors that the code reports are values of the results.  What is
    outside of the sources is a parameter: the contents of fresh memory ([junk]),
    the byte order of the host ([HostEndian]), random numbers, clocks, the results
    of read(2) and write(2), the locale.  The allocator never fails: zmalloc aborts
    the server.

    Loops that are not structural take fuel, computed from their input by the
    definition itself (the length of the block, the number of nodes or bytes, the
    size of a table), or given to it in the case of the loops on whole connections;
    the theorems prove that it is enough, as they give the result and not only what
    it would be.

    ** The parts

    Prelude.v (this file) has the tactics, hints and lemmas on bytes, blocks and
    machine integers that the other files share.
    - Endian.v: endianconv.c, endianconv.h.  Used by the two packed containers and
      by the files, which are verified for hosts of both byte orders.
    - Intset.v: intset.c.  A set of integers in a sorted block whose elements widen.
    - Adlist.v: adlist.c.  Doubly linked lists in a heap that several lists share.
    - Util.v, Glob.v: util.c, the conversions of integers and the patterns.
    - Sds.v: sds.c, sds.h.  Dynamic strings, their escapes and their splitting.
    - Request.v: networking.c, from [readQueryFromClient] to [processCommand]; the
      commands are behind the interface [CommandProc].
    - Object.v: object.c for strings; a store of reference counted objects.
    - Zskiplist.v, ZskiplistFacts.v: the skip lists of t_zset.c; their elements are
      objects behind the interface [StringObject], which Object.v satisfies.
    - Dict.v, DictScan.v: dict.c; the types of dictionary of redis.c are instances
      of the interface [DictType], whose laws the theorems use.
    - Lzf.v: lzf_c.c, lzf_d.c.  Crc.v: crc16.c, crc64.c, [keyHashSlot] of cluster.c.
    - Rio.v: rio.c, rio.h; targets are behind the interface [Backend], with the
      memory buffer as an instance.
    - Aof.v, AofLoad.v: aof.c, the feeding of the append only file and of the
      rewrite in the format of Request.v, and its loading.
    - Rdb.v: strings in rdb.c, over Rio.v, Lzf.v and Object.v; the payloads of DUMP
      in cluster.c, over Crc.v.
    - Ziplist.v, ZiplistFacts.v: ziplist.c.
    - Reply.v, ReplyFacts.v: networking.c, the output buffers of the clients, over the
      objects of Object.v, and how they are sent.
    - Replication.v, ReplicationFacts.v: replication.c, the backlog, the feeding of the
      slaves and PSYNC, over Reply.v and Request.v.
    - Pqsort.v: pqsort.c, the partial quicksort of SORT.

    ** What the theorems show

    - Refinement: the containers do what the mathematical object does, for any
      sequence of operations, and keep their representation invariant: dict_run_refines
      (finite maps, during incremental rehashing too), zsl_run_refines (sorted lists),
      ziplist_run_refines (lists of strings, with the cascades of lengths),
      intset_run_refines (finite sets), sds_run_refines (byte strings),
      adlist_step_refines (sequences of nodes, other lists of the heap untouched),
      aof_run_refines (the log of the commands).
    - Observers and algorithms: ziplist_observe, zsl_ranks, zsl_ranges,
      dictNext_iterates, dictGetRandomKey_valid; dictScan_guarantee states what SCAN
      promises while the table grows, dictScan_misses_shrinking that the promise
      fails when it shrinks, dictScan_terminates and dictRehash_completes that the
      work ends; stringmatch_correct, keyHashSlot_tag, crc_reference (the tables
      against the polynomials), compareStringObjects_order, pqsort_places.
    - The protocol: requests_executed (any segmentation of the input gives the same
      commands), readQuery_invariant (any input at all is handled within the
      buffers), rio_write_request, rio_buffer_roundtrip;
      replies_appended and deferred_length (what the replies add to the output buffers,
      which share objects), copied_replies (two clients that share a buffer do not see
      each other's replies), replies_sent (all that is pending is sent, in order);
      replication_stream (one stream of requests for the backlog and all slaves),
      psync_resumes (a slave resumes it without a gap).
    - Round trips: lzf_roundtrip, rdb_string_roundtrip, dump_restore,
      sdssplitargs_repr, string2ll_iff, load_recovers (the commands of a log that a
      crash cut anywhere).  Safety on hostile input: lzf_decompress_safe,
      dump_change_detected.  Bounds: ll2string_correct.
    - Errors: theorems that state what happens where the code does not do what it
      means to: ziplist_insert_corrupts, processInlineBuffer_line,
      paused_client_lost, getLongLongFromObject_iff, stringmatch_pitfalls,
      open_transaction_applied.

    ** Bounds

    Strings are shorter than the 512 MB that the commands enforce where the code
    needs it; the counters of elements, the reference counts and the offsets stay in
    their types by hypotheses of the theorems (a packed list has less than 4
    gigabytes), which the witnesses show can hold.

    ** Not modelled

    - What is system calls, threads or processes: the event loop (ae*.c, anet.c),
      bio.c, the children of rdb.c and aof.c and their fsync policies, zmalloc.c,
      sentinel.c, the cluster bus.
    - Conversions of doubles by the C library (strtod, snprintf), sdscatvprintf.
    - Third party code: deps/ (jemalloc, lua, hiredis, linenoise), sha1.c.
    - Not yet modelled, in the order of the plan: the transactions of multi.c, the
      key space (db.c) and the commands on values (t_*.c) over the containers that
      are, the other values of rdb.c, hyperloglog.c, bitops.c, zipmap.c. *)

From Stdlib Require Import ZArith Lia Ascii String.
From stdpp Require Import base numbers list gmap sorting.

Open Scope Z_scope.

(** ** Tactics and hint databases shared by the development *)

Create HintDb cmem discriminated.
Create Rewrite HintDb zlen.

(** Case analysis on every [match] or [if] scrutinee of the goal. *)
Ltac case_all := repeat (case_match; simplify_eq/=).

(** Turns the boolean comparisons on [Z] of the hypotheses into
    propositions. *)
Ltac zbool :=
  repeat match goal with
  | H : (_ && _) = true |- _ => apply andb_true_iff in H; destruct H
  | H : (_ || _) = false |- _ => apply orb_false_iff in H; destruct H
  | H : (_ && _) = false |- _ => apply andb_false_iff in H
  | H : (_ || _) = true |- _ => apply orb_true_iff in H
  | H : negb _ = true |- _ => apply negb_true_iff in H
  | H : negb _ = false |- _ => apply negb_false_iff in H
  | H : (_ >? _) = _ |- _ => rewrite Z.gtb_ltb in H
  | H : (_ >=? _) = _ |- _ => rewrite Z.geb_leb in H
  | H : (_ <=? _) = true |- _ => apply Z.leb_le in H
  | H : (_ <=? _) = false |- _ => apply Z.leb_gt in H
  | H : (_ <? _) = true |- _ => apply Z.ltb_lt in H
  | H : (_ <? _) = false |- _ => apply Z.ltb_ge in H
  | H : (_ =? _) = true |- _ => apply Z.eqb_eq in H
  | H : (_ =? _) = false |- _ => apply Z.eqb_neq in H
  end.

(** [lia] with quotients and remainders. *)
Ltac dlia := Z.to_euclidean_division_equations; lia.

(** Reduces the binds of the option monad and nothing else. *)
Ltac sbind := cbn [mbind option_bind fmap option_fmap option_map mret option_ret].

(** Computes the boolean comparisons between closed integers. *)
Ltac eval_tests :=
  repeat match goal with
  | |- context [Z.eqb ?a ?b] =>
      let r := eval vm_compute in (Z.eqb a b) in
      match r with true => idtac | false => idtac end;
      change (Z.eqb a b) with r
  | |- context [Z.leb ?a ?b] =>
      let r := eval vm_compute in (Z.leb a b) in
      match r with true => idtac | false => idtac end;
      change (Z.leb a b) with r
  | |- context [Z.ltb ?a ?b] =>
      let r := eval vm_compute in (Z.ltb a b) in
      match r with true => idtac | false => idtac end;
      change (Z.ltb a b) with r
  end; cbv iota.

(** Inverts [x ← e; k = Some r] hypotheses. *)
Ltac inv_bind :=
  repeat match goal with
  | H : (_ ← _; _) = Some _ |- _ =>
      apply bind_Some in H; destruct H as (? & ? & ?); simplify_eq/=
  end.

(** ** Machine integers

    A [w]-bit unsigned integer is a [Z] in [0, 2^w); a signed one a [Z] in
    [-2^(w-1), 2^(w-1)).  Conversions wrap around. *)

Definition uwrap (w z : Z) : Z := z mod 2 ^ w.
Definition swrap (w z : Z) : Z := (z + 2 ^ (w - 1)) mod 2 ^ w - 2 ^ (w - 1).

Abbreviation u8 := (uwrap 8).
Abbreviation u16 := (uwrap 16).
Abbreviation u32 := (uwrap 32).
Abbreviation u64 := (uwrap 64).
Abbreviation s8 := (swrap 8).
Abbreviation s16 := (swrap 16).
Abbreviation s32 := (swrap 32).
Abbreviation s64 := (swrap 64).

Definition INT32_MIN : Z := -2147483648.
Definition INT32_MAX : Z := 2147483647.
Definition INT16_MIN : Z := -32768.
Definition INT16_MAX : Z := 32767.
Definition LLONG_MIN : Z := -9223372036854775808.
Definition LLONG_MAX : Z := 9223372036854775807.
Definition ULLONG_MAX : Z := 18446744073709551615.

Lemma uwrap_small w z : 0 <= z < 2 ^ w -> uwrap w z = z.
Proof. apply Z.mod_small. Qed.

Lemma uwrap_range w z : 0 <= w -> 0 <= uwrap w z < 2 ^ w.
Proof. intros. apply Z.mod_pos_bound. lia. Qed.

Lemma swrap_small w z :
  0 < w -> - 2 ^ (w - 1) <= z < 2 ^ (w - 1) -> swrap w z = z.
Proof.
  intros Hw Hz. unfold swrap.
  assert (2 ^ w = 2 * 2 ^ (w - 1)) as Hp.
  { rewrite <- Z.pow_succ_r by lia. f_equal. lia. }
  rewrite Z.mod_small; lia.
Qed.

Lemma swrap_range w z : 0 < w -> - 2 ^ (w - 1) <= swrap w z < 2 ^ (w - 1).
Proof.
  intros Hw. unfold swrap.
  assert (2 ^ w = 2 * 2 ^ (w - 1)) as Hp.
  { rewrite <- Z.pow_succ_r by lia. f_equal. lia. }
  pose proof (Z.mod_pos_bound (z + 2 ^ (w - 1)) (2 ^ w)). lia.
Qed.

(** Reading an unsigned image back as a signed integer. *)
Lemma swrap_uwrap w z : 0 < w -> swrap w (uwrap w z) = swrap w z.
Proof.
  intros Hw. unfold swrap, uwrap. rewrite Zplus_mod_idemp_l. done.
Qed.

(** Narrowing twice. *)
Lemma uwrap_uwrap k w z : 0 <= k <= w -> uwrap k (uwrap w z) = uwrap k z.
Proof.
  intros Hk. unfold uwrap. apply Z.mod_mod_divide.
  exists (2 ^ (w - k)). rewrite <- Z.pow_add_r by lia. f_equal. lia.
Qed.

Lemma swrap_uwrap_le k w z : 0 < k <= w -> swrap k (uwrap w z) = swrap k z.
Proof.
  intros Hk. rewrite <- (swrap_uwrap k (uwrap w z)), uwrap_uwrap by lia.
  apply swrap_uwrap. lia.
Qed.

Lemma pow2_pos k : 0 <= k -> 0 < 2 ^ k.
Proof. intros. apply Z.pow_pos_nonneg; lia. Qed.

Lemma u32_small z : 0 <= z < 4294967296 -> u32 z = z.
Proof. intros. apply uwrap_small. lia. Qed.
Lemma u64_small z : 0 <= z < 18446744073709551616 -> u64 z = z.
Proof. intros. apply uwrap_small. lia. Qed.
Lemma u8_small z : 0 <= z < 256 -> u8 z = z.
Proof. intros. apply uwrap_small. lia. Qed.
Lemma s32_small z : -2147483648 <= z < 2147483648 -> s32 z = z.
Proof. intros. apply swrap_small; lia. Qed.
Lemma s64_small z :
  -9223372036854775808 <= z < 9223372036854775808 -> s64 z = z.
Proof. intros. apply swrap_small; lia. Qed.

(** ** Bytes and memory blocks

    A block of memory is the list of its bytes.  An access outside of the
    block is undefined behaviour and gives [None]. *)

Definition is_byte (b : Z) : Prop := 0 <= b < 256.
Definition bytes_ok (bs : list Z) : Prop := Forall is_byte bs.

#[export] Instance is_byte_dec b : Decision (is_byte b).
Proof. unfold is_byte. apply _. Defined.

(** Length of a list as an integer. *)
Definition zlen {A} (l : list A) : Z := Z.of_nat (length l).

(** [n] bytes of [buf] starting at offset [off]. *)
Definition load {A} (buf : list A) (off n : Z) : option (list A) :=
  if (0 <=? off) && (0 <=? n) && (off + n <=? zlen buf)
  then Some (take (Z.to_nat n) (drop (Z.to_nat off) buf)) else None.

(** [memcpy(buf + off, bs, len(bs))]. *)
Definition store {A} (buf : list A) (off : Z) (bs : list A) : option (list A) :=
  if (0 <=? off) && (off + zlen bs <=? zlen buf)
  then Some (take (Z.to_nat off) buf ++ bs ++
             drop (Z.to_nat off + length bs) buf) else None.

(** [buf\[i\]] and [buf\[i\] = b]. *)
Definition getb {A} (buf : list A) (i : Z) : option A :=
  if 0 <=? i then buf !! Z.to_nat i else None.
Definition setb {A} (buf : list A) (i : Z) (b : A) : option (list A) :=
  if (0 <=? i) && (i <? zlen buf) then Some (<[Z.to_nat i := b]> buf) else None.

(** [memmove(buf + dst, buf + src, n)]. *)
Definition memmove {A} (buf : list A) (dst src n : Z) : option (list A) :=
  bs ← load buf src n; store buf dst bs.

(** [realloc(buf, n)]: the common prefix is kept, the bytes gained are
    indeterminate; [junk] supplies them. *)
Definition realloc {A} (junk : nat -> A) (buf : list A) (n : Z) : list A :=
  take (Z.to_nat n) buf ++ (junk <$> seq (length buf) (Z.to_nat n - length buf)).

Lemma zlen_nil {A} : zlen (@nil A) = 0.
Proof. done. Qed.
Lemma zlen_cons {A} (x : A) l : zlen (x :: l) = 1 + zlen l.
Proof. unfold zlen. simpl. lia. Qed.
Lemma zlen_app {A} (l k : list A) : zlen (l ++ k) = zlen l + zlen k.
Proof. unfold zlen. rewrite length_app. lia. Qed.
Lemma zlen_nonneg {A} (l : list A) : 0 <= zlen l.
Proof. unfold zlen. lia. Qed.
Lemma zlen_insert {A} (l : list A) i x : zlen (<[i := x]> l) = zlen l.
Proof. unfold zlen. by rewrite length_insert. Qed.
Lemma zlen_take {A} (l : list A) n :
  zlen (take n l) = Z.min (Z.of_nat n) (zlen l).
Proof. unfold zlen. rewrite length_take. lia. Qed.
Lemma zlen_drop {A} (l : list A) n :
  zlen (drop n l) = Z.max 0 (zlen l - Z.of_nat n).
Proof. unfold zlen. rewrite length_drop. lia. Qed.
Lemma zlen_replicate {A} (x : A) n : zlen (replicate n x) = Z.of_nat n.
Proof. unfold zlen. by rewrite length_replicate. Qed.
Lemma zlen_fmap {A B} (f : A -> B) l : zlen (f <$> l) = zlen l.
Proof. unfold zlen. by rewrite length_fmap. Qed.
Lemma zlen_reverse {A} (l : list A) : zlen (reverse l) = zlen l.
Proof. unfold zlen. by rewrite length_reverse. Qed.
Lemma zlen_perm {A} (l k : list A) : l ≡ₚ k -> zlen l = zlen k.
Proof. intros Hp. unfold zlen. by rewrite (Permutation_length Hp). Qed.

#[export] Hint Rewrite @zlen_nil @zlen_cons @zlen_app @zlen_insert @zlen_take
  @zlen_drop @zlen_replicate @zlen_fmap @zlen_reverse : zlen.

(** Simplifies lengths everywhere and calls [lia]. *)
Ltac zlia := autorewrite with zlen in *; unfold zlen in *; lia.

Lemma load_mid {A} (a b c : list A) off n :
  off = zlen a -> n = zlen b -> load (a ++ b ++ c) off n = Some b.
Proof.
  intros -> ->. unfold load. rewrite !zlen_app.
  pose proof (zlen_nonneg a); pose proof (zlen_nonneg b); pose proof (zlen_nonneg c).
  rewrite !(proj2 (Z.leb_le _ _)) by lia. simpl.
  unfold zlen. rewrite !Nat2Z.id, drop_app_length, take_app_length. done.
Qed.

Lemma store_mid {A} (a b c bs : list A) off :
  off = zlen a -> zlen bs = zlen b ->
  store (a ++ b ++ c) off bs = Some (a ++ bs ++ c).
Proof.
  intros -> Hl. unfold store. rewrite !zlen_app, Hl.
  pose proof (zlen_nonneg a); pose proof (zlen_nonneg b); pose proof (zlen_nonneg c).
  rewrite !(proj2 (Z.leb_le _ _)) by lia. simpl.
  unfold zlen in *. rewrite Nat2Z.id.
  rewrite take_app_length. do 3 f_equal.
  replace (length bs) with (length b) by lia.
  rewrite <- drop_drop, drop_app_length, drop_app_length. done.
Qed.

Lemma load_Some {A} (buf : list A) off n bs :
  load buf off n = Some bs ->
  exists a c, buf = a ++ bs ++ c /\ zlen a = off /\ zlen bs = n.
Proof.
  unfold load. intros H. case_match eqn:E; [|done]. simplify_eq. zbool.
  exists (take (Z.to_nat off) buf),
    (drop (Z.to_nat n) (drop (Z.to_nat off) buf)).
  rewrite take_drop, take_drop. split_and!; [done|zlia..].
Qed.

Lemma load_is_Some {A} (buf : list A) off n :
  0 <= off -> 0 <= n -> off + n <= zlen buf -> is_Some (load buf off n).
Proof.
  intros. unfold load. rewrite !(proj2 (Z.leb_le _ _)) by lia. eauto.
Qed.

Lemma getb_app_r {A} (a b : list A) i :
  zlen a <= i -> getb (a ++ b) i = getb b (i - zlen a).
Proof.
  intros. unfold getb. pose proof (zlen_nonneg a).
  rewrite !(proj2 (Z.leb_le _ _)) by lia.
  rewrite lookup_app_r by zlia. f_equal. zlia.
Qed.

Lemma getb_app_l {A} (a b : list A) i :
  i < zlen a -> getb (a ++ b) i = getb a i.
Proof.
  intros. unfold getb. case_match; [|done]. zbool.
  rewrite lookup_app_l by zlia. done.
Qed.

Lemma getb_mid {A} (a b : list A) x i : i = zlen a -> getb (a ++ x :: b) i = Some x.
Proof.
  intros ->. rewrite getb_app_r by lia.
  replace (zlen a - zlen a) with 0 by lia. done.
Qed.

Lemma getb_lookup {A} (buf : list A) (i : nat) : getb buf (Z.of_nat i) = buf !! i.
Proof. unfold getb. rewrite (proj2 (Z.leb_le _ _)) by lia. by rewrite Nat2Z.id. Qed.

Lemma getb_is_Some {A} (buf : list A) i :
  0 <= i < zlen buf -> is_Some (getb buf i).
Proof.
  intros. unfold getb. rewrite (proj2 (Z.leb_le _ _)) by lia.
  apply lookup_lt_is_Some. zlia.
Qed.

Lemma getb_Some_range {A} (buf : list A) i x :
  getb buf i = Some x -> 0 <= i < zlen buf.
Proof.
  unfold getb. intros H. case_match; [|done]. zbool.
  apply lookup_lt_Some in H. zlia.
Qed.

Lemma setb_mid {A} (a b : list A) x y i :
  i = zlen a -> setb (a ++ x :: b) i y = Some (a ++ y :: b).
Proof.
  intros ->. unfold setb. rewrite zlen_app, zlen_cons.
  pose proof (zlen_nonneg a); pose proof (zlen_nonneg b).
  rewrite (proj2 (Z.leb_le _ _)), (proj2 (Z.ltb_lt _ _)) by lia. simpl.
  unfold zlen. rewrite Nat2Z.id.
  rewrite insert_app_r_alt by lia. by rewrite Nat.sub_diag.
Qed.

Lemma mapM_app_Some {A B} (f : A -> option B) l k a b :
  mapM f l = Some a -> mapM f k = Some b -> mapM f (l ++ k) = Some (a ++ b).
Proof. rewrite !mapM_Some. apply Forall2_app. Qed.

(** ** [realloc] and [memmove] *)

Lemma realloc_grow {A} (junk : nat -> A) buf n :
  zlen buf <= n ->
  exists m, realloc junk buf n = buf ++ m /\ zlen m = n - zlen buf.
Proof.
  intros Hn. unfold realloc. eexists. rewrite take_ge by zlia.
  split; [done|]. unfold zlen in *. rewrite length_fmap, length_seq. lia.
Qed.

Lemma realloc_shrink {A} (junk : nat -> A) a b n :
  n = zlen a -> realloc junk (a ++ b) n = a.
Proof.
  intros ->. unfold realloc, zlen. rewrite Nat2Z.id, take_app_length.
  rewrite length_app. replace (length a - (length a + length b))%nat with 0%nat by lia.
  simpl. by rewrite app_nil_r.
Qed.

(** Opening a gap of the size of [m] in front of [b]. *)
Lemma memmove_up {A} (a b m : list A) dst src n :
  dst = zlen a + zlen m -> src = zlen a -> n = zlen b ->
  exists m', memmove (a ++ b ++ m) dst src n = Some (a ++ m' ++ b) /\ zlen m' = zlen m.
Proof.
  intros -> -> ->. unfold memmove. rewrite load_mid by done. sbind.
  exists (take (length m) (b ++ m)). split.
  - rewrite <- (take_drop (length m) (b ++ m)) at 1.
    rewrite <- (app_nil_r (drop _ _)), app_assoc.
    rewrite store_mid by zlia. by rewrite app_nil_r, <- app_assoc.
  - zlia.
Qed.

(** Closing the gap [m] in front of [b]. *)
Lemma memmove_down {A} (a b m : list A) dst src n :
  dst = zlen a -> src = zlen a + zlen m -> n = zlen b ->
  exists m', memmove (a ++ m ++ b) dst src n = Some (a ++ b ++ m') /\ zlen m' = zlen m.
Proof.
  intros -> -> ->. unfold memmove.
  rewrite (app_assoc a m b). rewrite <- (app_nil_r ((a ++ m) ++ b)), <- app_assoc.
  rewrite load_mid by zlia. sbind.
  exists (drop (length b) (m ++ b)). split; [|zlia].
  rewrite app_nil_r, <- app_assoc.
  rewrite <- (take_drop (length b) (m ++ b)) at 1.
  by rewrite store_mid by zlia.
Qed.

(** Overwriting the end of the middle part of a block. *)
Lemma store_mid_end {A} (a m bs c : list A) off :
  zlen a <= off -> off + zlen bs = zlen a + zlen m ->
  store (a ++ m ++ c) off bs
  = Some (a ++ take (Z.to_nat (off - zlen a)) m ++ bs ++ c).
Proof.
  intros H1 H2. set (k := Z.to_nat (off - zlen a)).
  rewrite <- (take_drop k m) at 1.
  rewrite <- (app_assoc _ _ c), (app_assoc a).
  rewrite store_mid by (subst k; zlia). by rewrite <- app_assoc.
Qed.

Lemma to_nat_zlen {A} (l : list A) : Z.to_nat (zlen l) = length l.
Proof. unfold zlen. lia. Qed.

Lemma zlen_pos {A} (l : list A) : l <> [] -> 0 < zlen l.
Proof. destruct l; [done|]. intros _. rewrite zlen_cons. pose proof (zlen_nonneg l). lia. Qed.

Lemma zlen_0 {A} (l : list A) : zlen l = 0 -> l = [].
Proof. destruct l; [done|]. rewrite zlen_cons. pose proof (zlen_nonneg l). lia. Qed.

Lemma load_prefix {A} (a b : list A) n : n = zlen a -> load (a ++ b) 0 n = Some a.
Proof. intros ->. change (a ++ b) with ([] ++ a ++ b). by apply load_mid. Qed.

Lemma load_self {A} (a : list A) : load a 0 (zlen a) = Some a.
Proof. rewrite <- (app_nil_r a) at 1. by apply load_prefix. Qed.

Lemma load_suffix (a b : list Z) off n :
  off = zlen a -> n = zlen b -> load (a ++ b) off n = Some b.
Proof. intros. rewrite <- (app_nil_r b) at 1. by apply load_mid. Qed.

Lemma list_cons_snoc {A} (l k : list A) x : l ++ x :: k = (l ++ [x]) ++ k.
Proof. by rewrite <- app_assoc. Qed.

(** Writing at the boundary of two parts of a block. *)
Lemma put_at {A} (l r bs : list A) :
  zlen bs <= zlen r -> store (l ++ r) (zlen l) bs = Some (l ++ bs ++ drop (length bs) r).
Proof.
  intros Hb. rewrite <- (take_drop (length bs) r) at 1.
  apply store_mid; [done|]. rewrite zlen_take. zlia.
Qed.

Lemma split_slice {A} (l : list A) i k :
  l = take i l ++ take k (drop i l) ++ drop k (drop i l).
Proof. by rewrite !take_drop. Qed.

(** ** Little-endian images of integers *)

Fixpoint le_enc (n : nat) (z : Z) : list Z :=
  match n with
  | O => []
  | S n => z mod 256 :: le_enc n (z / 256)
  end.

Fixpoint le_dec (bs : list Z) : Z :=
  match bs with
  | [] => 0
  | b :: bs => b + 256 * le_dec bs
  end.

Lemma length_le_enc n z : length (le_enc n z) = n.
Proof. revert z. induction n; intros; simpl; [done|by rewrite IHn]. Qed.

Lemma zlen_le_enc n z : zlen (le_enc n z) = Z.of_nat n.
Proof. unfold zlen. by rewrite length_le_enc. Qed.
#[export] Hint Rewrite zlen_le_enc : zlen.

Lemma le_enc_bytes n z : bytes_ok (le_enc n z).
Proof.
  revert z. induction n; intros; simpl; constructor; [|apply IHn].
  apply Z.mod_pos_bound. lia.
Qed.

Lemma le_dec_enc n z : le_dec (le_enc n z) = z mod 256 ^ Z.of_nat n.
Proof.
  revert z. induction n as [|n IH]; intros z; simpl.
  { by rewrite Z.mod_1_r. }
  rewrite IH. replace (Z.of_nat (S n)) with (1 + Z.of_nat n) by lia.
  rewrite Z.pow_add_r, Z.pow_1_r by lia.
  rewrite Z.rem_mul_r by lia. done.
Qed.

Lemma le_dec_range bs : bytes_ok bs -> 0 <= le_dec bs < 256 ^ zlen bs.
Proof.
  induction 1 as [|b bs Hb _ IH]; [by simpl|].
  rewrite zlen_cons. cbn [le_dec].
  rewrite Z.pow_add_r, Z.pow_1_r by (pose proof (zlen_nonneg bs); lia).
  unfold is_byte in Hb. lia.
Qed.

Lemma le_enc_dec bs : bytes_ok bs -> le_enc (length bs) (le_dec bs) = bs.
Proof.
  induction 1 as [|b bs Hb _ IH]; [done|]. unfold is_byte in Hb. simpl.
  replace ((b + 256 * le_dec bs) mod 256) with b.
  2:{ rewrite Z.mul_comm, Z.mod_add by lia. rewrite Z.mod_small; lia. }
  replace ((b + 256 * le_dec bs) / 256) with (le_dec bs).
  2:{ rewrite Z.mul_comm, Z.div_add by lia. rewrite Z.div_small; lia. }
  by rewrite IH.
Qed.

(** Only the value modulo the width matters. *)
Lemma le_enc_mod n z : le_enc n (z mod 256 ^ Z.of_nat n) = le_enc n z.
Proof.
  rewrite <- le_dec_enc. rewrite <- (length_le_enc n z) at 1.
  apply le_enc_dec, le_enc_bytes.
Qed.

(** ** Indexing and sortedness *)

(** ** Bits and bytes *)

Lemma bytes_ok_app (a b : list Z) : bytes_ok (a ++ b) -> bytes_ok a /\ bytes_ok b.
Proof. apply Forall_app. Qed.

Lemma lor_shiftl a b k : 0 <= k -> 0 <= b < 2 ^ k -> Z.lor (Z.shiftl a k) b = a * 2 ^ k + b.
Proof.
  intros Hk Hb. rewrite <- Z.shiftl_mul_pow2 by done.
  assert (Z.land (Z.shiftl a k) b = 0) as Hl.
  { apply Z.bits_inj'. intros i Hi. rewrite Z.land_spec, Z.bits_0.
    destruct (decide (i < k)).
    - by rewrite Z.shiftl_spec_low by lia.
    - rewrite <- (Z.mod_small b (2 ^ k)) by done. rewrite Z.mod_pow2_bits_high by lia. apply andb_false_r. }
  by rewrite Z.add_nocarry_lxor, Z.lxor_lor by done.
Qed.

Lemma lor_shiftl_r a b k : 0 <= k -> 0 <= b < 2 ^ k -> Z.lor b (Z.shiftl a k) = b + a * 2 ^ k.
Proof. intros. rewrite Z.lor_comm, lor_shiftl by done. lia. Qed.

Lemma land_255 v : Z.land v 255 = v mod 256.
Proof. change 255 with (Z.ones 8). by rewrite Z.land_ones. Qed.
Lemma land_63 v : Z.land v 63 = v mod 64.
Proof. change 63 with (Z.ones 6). by rewrite Z.land_ones. Qed.

(** What can be checked for every byte. *)
Lemma byte_forall (f : Z -> bool) :
  forallb (fun n => f (Z.of_nat n)) (seq 0 256) = true -> forall b, 0 <= b < 256 -> f b = true.
Proof.
  intros Hall b Hb. rewrite forallb_forall in Hall. specialize (Hall (Z.to_nat b)).
  rewrite Z2Nat.id in Hall by lia. apply Hall, in_seq. lia.
Qed.

(** The two upper bits of a byte. *)
Lemma byte_type b : 0 <= b < 256 -> Z.shiftr (Z.land b 192) 6 = b / 64.
Proof.
  intros Hb. rewrite Z.shiftr_land. change (Z.shiftr 192 6) with (Z.ones 2).
  rewrite Z.land_ones, Z.shiftr_div_pow2 by lia. change (2 ^ 6) with 64. change (2 ^ 2) with 4. dlia.
Qed.

Lemma land_192 b : 0 <= b < 256 -> Z.land b 192 = b / 64 * 64.
Proof.
  intros Hb. apply Z.eqb_eq. revert b Hb.
  apply (byte_forall (fun b => Z.land b 192 =? b / 64 * 64)). by vm_compute.
Qed.

Lemma elem_getb {A} (vs : list A) v : v ∈ vs <-> exists i, getb vs i = Some v.
Proof.
  rewrite list_elem_of_lookup. split.
  - intros [i Hi]. exists (Z.of_nat i). by rewrite getb_lookup.
  - intros [i Hi]. unfold getb in Hi. case_match; [|done]. eauto.
Qed.

Lemma getb_take_drop {A} (vs : list A) i x :
  getb vs i = Some x ->
  vs = take (Z.to_nat i) vs ++ x :: drop (S (Z.to_nat i)) vs /\
  zlen (take (Z.to_nat i) vs) = i.
Proof.
  intros Hi. pose proof (getb_Some_range _ _ _ Hi) as Hr.
  unfold getb in Hi. rewrite (proj2 (Z.leb_le _ _)) in Hi by lia.
  split; [by rewrite take_drop_middle|]. zlia.
Qed.

Lemma getb_split {A} (vs : list A) i x :
  getb vs i = Some x -> exists a c, vs = a ++ x :: c /\ zlen a = i.
Proof. intros Hi. destruct (getb_take_drop _ _ _ Hi). eauto. Qed.

Lemma StronglySorted_getb {A} (R : relation A) vs i j x y :
  StronglySorted R vs -> getb vs i = Some x -> getb vs j = Some y ->
  i < j -> R x y.
Proof.
  intros Hs Hi Hj Hij.
  destruct (getb_take_drop _ _ _ Hi) as [Heq Hl].
  rewrite Heq in Hs, Hj. apply StronglySorted_app in Hs as (_ & _ & Hs).
  apply StronglySorted_cons in Hs as [Hs _].
  rewrite getb_app_r in Hj by lia. rewrite Hl in Hj.
  eapply Forall_forall; [exact Hs|]. apply elem_getb.
  exists (j - i - 1). unfold getb in *. case_match; [|done]. zbool.
  rewrite (proj2 (Z.leb_le _ _)) by lia.
  by replace (Z.to_nat (j - i)) with (S (Z.to_nat (j - i - 1))) in Hj by lia.
Qed.

(** ** C strings *)

(** The bytes of a string literal, without the terminator. *)
Definition bytes_of_string (s : string) : list Z :=
  (fun c => Z.of_N (N_of_ascii c)) <$> list_ascii_of_string s.

(** [tolower] and [isdigit] in the C locale. *)
Definition tolower (c : Z) : Z := if (65 <=? c) && (c <=? 90) then c + 32 else c.
Definition isdigit (c : Z) : bool := (48 <=? c) && (c <=? 57).

(** ** memcmp and the lexicographic order of byte strings

    The standard fixes the sign of the result of [memcmp] only; the model
    returns -1, 0 or 1.  A byte read outside of its string gives [None]. *)

Fixpoint memcmp (a b : list Z) (n : nat) : option Z :=
  match n with
  | O => Some 0
  | S n =>
      match a, b with
      | x :: a, y :: b =>
          if x =? y then memcmp a b n else Some (if x <? y then -1 else 1)
      | _, _ => None
      end
  end.

Fixpoint lex (a b : list Z) : comparison :=
  match a, b with
  | [], [] => Eq
  | [], _ => Lt
  | _, [] => Gt
  | x :: a, y :: b => match x ?= y with Eq => lex a b | c => c end
  end.

Lemma lex_refl a : lex a a = Eq.
Proof. induction a as [|x a IH]; [done|]. simpl. by rewrite Z.compare_refl. Qed.

Lemma lex_eq a b : lex a b = Eq <-> a = b.
Proof.
  split; [|intros ->; apply lex_refl].
  revert b. induction a as [|x a IH]; intros [|y b]; simpl; try done.
  destruct (Z.compare_spec x y) as [->| |]; [|done..]. intros H. by rewrite (IH b).
Qed.

Lemma lex_antisym a b : lex b a = CompOpp (lex a b).
Proof.
  revert b. induction a as [|x a IH]; intros [|y b]; simpl; try done.
  rewrite (Z.compare_antisym x y). destruct (x ?= y); simpl; [apply IH|done..].
Qed.

Lemma lex_trans a b c : lex a b = Lt -> lex b c = Lt -> lex a c = Lt.
Proof.
  revert b c. induction a as [|x a IH]; intros [|y b] [|z c]; simpl; try done.
  destruct (Z.compare_spec x y) as [->|Hxy|]; [| |done].
  - destruct (y ?= z); [apply IH|done..].
  - destruct (Z.compare_spec y z) as [->|Hyz|]; intros _ ?; [| |done];
      by rewrite (proj2 (Z.compare_lt_iff x z)) by lia.
Qed.

(** [memcmp] over the common length followed by the comparison of the lengths is
    the lexicographic order. *)
Lemma memcmp_lex a b :
  exists r, memcmp a b (length a `min` length b) = Some r /\
    match lex a b with
    | Lt => r = -1 \/ r = 0 /\ zlen a < zlen b
    | Eq => r = 0 /\ zlen a = zlen b
    | Gt => r = 1 \/ r = 0 /\ zlen b < zlen a
    end.
Proof.
  revert b. induction a as [|x a IH]; intros [|y b]; simpl.
  - by eauto.
  - exists 0. split; [done|]. right. zlia.
  - exists 0. split; [done|]. right. zlia.
  - destruct (IH b) as (r & Hr & Hl). destruct (Z.eqb_spec x y) as [->|Hne].
    + exists r. rewrite Z.compare_refl, !zlen_cons. split; [done|].
      destruct (lex a b); lia.
    + destruct (Z.compare_spec x y); [done|..]; eexists; (split; [done|]); left.
      * by rewrite (proj2 (Z.ltb_lt _ _)).
      * rewrite (proj2 (Z.ltb_ge _ _)) by lia. done.
Qed.

(** ** Sums over a list *)

Fixpoint lsum {A} (f : A -> Z) (l : list A) : Z := match l with [] => 0 | x :: l => f x + lsum f l end.

Lemma lsum_app {A} (f : A -> Z) l l' : lsum f (l ++ l') = lsum f l + lsum f l'.
Proof. induction l as [|x l IH]; cbn; lia. Qed.

Lemma lsum_nonneg {A} (f : A -> Z) l : (forall x, 0 <= f x) -> 0 <= lsum f l.
Proof. intros Hf. induction l as [|x l IH]; cbn; [lia|]. specialize (Hf x). lia. Qed.

Lemma lsum_update {A} (f : A -> Z) l i x y : l !! i = Some x -> lsum f (<[i := y]> l) = lsum f l - f x + f y.
Proof.
  revert i. induction l as [|z l IH]; intros [|i] Hi; cbn in *; simplify_eq; [lia|]. rewrite IH by done. lia.
Qed.

Lemma lsum_ge {A} (f : A -> Z) l x : (forall x, 0 <= f x) -> x ∈ l -> f x <= lsum f l.
Proof.
  intros Hf. induction l as [|y l IH]; [by intros ?%not_elem_of_nil|].
  pose proof (lsum_nonneg f l Hf). pose proof (Hf y). intros [->|Hx]%elem_of_cons; cbn; [lia|]. specialize (IH Hx). lia.
Qed.

Lemma lsum_perm {A} (f : A -> Z) l l' : l ≡ₚ l' -> lsum f l = lsum f l'.
Proof. induction 1; cbn; lia. Qed.

(** ** Sums over the values of a map *)

Definition msum `{Countable K} {A} (f : A -> Z) (m : gmap K A) : Z := lsum (fun x => f x.2) (map_to_list m).

Section Msum.
Context `{Countable K} {A : Type}.
Implicit Types (f : A -> Z) (m : gmap K A).

Lemma msum_empty f : msum f (∅ : gmap K A) = 0.
Proof. unfold msum. by rewrite map_to_list_empty. Qed.

Lemma msum_insert f m k x : m !! k = None -> msum f (<[k := x]> m) = f x + msum f m.
Proof. intros Hk. unfold msum. by rewrite (lsum_perm _ _ _ (map_to_list_insert m k x Hk)). Qed.

Lemma msum_delete f m k x : m !! k = Some x -> msum f m = f x + msum f (delete k m).
Proof. intros Hk. rewrite <- (insert_delete_id m k x Hk) at 1. apply msum_insert, lookup_delete_eq. Qed.

Lemma msum_update f m k x y : m !! k = Some x -> msum f (<[k := y]> m) = msum f m - f x + f y.
Proof.
  intros Hk. rewrite (msum_delete f m k x Hk), <- insert_delete_eq, msum_insert; [lia|apply lookup_delete_eq].
Qed.

Lemma msum_nonneg f m : (forall x, 0 <= f x) -> 0 <= msum f m.
Proof. intros Hf. by apply lsum_nonneg. Qed.

Lemma msum_ge f m k x : (forall x, 0 <= f x) -> m !! k = Some x -> f x <= msum f m.
Proof. intros Hf Hk. rewrite (msum_delete f m k x Hk). pose proof (msum_nonneg f (delete k m) Hf). lia. Qed.

Lemma msum_zero f m : (forall k x, m !! k = Some x -> f x = 0) -> msum f m = 0.
Proof.
  induction m as [|k x m Hk IH] using map_ind; intros Hf; [apply msum_empty|]. rewrite msum_insert by done.
  rewrite (Hf k x) by apply lookup_insert_eq. rewrite IH; [done|]. intros k' y Hy. apply (Hf k').
  rewrite lookup_insert_ne; [done|]. by intros ->; rewrite Hk in Hy.
Qed.

Lemma msum_pos f m : (forall x, 0 <= f x) -> 0 < msum f m -> exists k x, m !! k = Some x /\ 0 < f x.
Proof.
  intros Hf. induction m as [|k x m Hk IH] using map_ind; [rewrite msum_empty; lia|]. rewrite msum_insert by done.
  intros Hpos. destruct (decide (0 < f x)) as [Hx|Hx].
  - exists k, x. by rewrite lookup_insert_eq.
  - destruct IH as (k' & y & Hy & Hyp); [specialize (Hf x); lia|]. exists k', y. split; [|done].
    rewrite lookup_insert_ne; [done|]. by intros ->; rewrite Hk in Hy.
Qed.

End Msum.
