(* ===== verification/Endian.v ===== *)
(** * endianconv.c: byte order conversion

    The byte order of the host is a parameter ([HostEndian]); the components
    that store integers in portable memory images (intset, ziplist, RDB) are
    verified for both orders. *)

From Stdlib Require Import ZArith Lia.
From stdpp Require Import base numbers list.
From S2P Require Import Prelude.

Open Scope Z_scope.

(** [true] on a big endian host. *)
Class HostEndian := host_be : bool.

(** The object representation of an [n]-byte unsigned integer on the host. *)
Definition host_enc `{HostEndian} (n : nat) (v : Z) : list Z :=
  if host_be then reverse (le_enc n v) else le_enc n v.

Definition host_dec `{HostEndian} (bs : list Z) : Z :=
  if host_be then le_dec (reverse bs) else le_dec bs.

(** [t = x\[i\]; x\[i\] = x\[j\]; x\[j\] = t;] *)
Definition swap_bytes (x : list Z) (i j : Z) : option (list Z) :=
  t ← getb x i;
  u ← getb x j;
  x ← setb x i u;
  setb x j t.

Definition memrev16 (x : list Z) : option (list Z) := swap_bytes x 0 1.

Definition memrev32 (x : list Z) : option (list Z) :=
  x ← swap_bytes x 0 3;
  swap_bytes x 1 2.

Definition memrev64 (x : list Z) : option (list Z) :=
  x ← swap_bytes x 0 7;
  x ← swap_bytes x 1 6;
  x ← swap_bytes x 2 5;
  swap_bytes x 3 4.

Section Host.
Context `{HostEndian}.

Definition intrev16 (v : Z) : Z :=
  from_option host_dec 0 (memrev16 (host_enc 2 v)).
Definition intrev32 (v : Z) : Z :=
  from_option host_dec 0 (memrev32 (host_enc 4 v)).
Definition intrev64 (v : Z) : Z :=
  from_option host_dec 0 (memrev64 (host_enc 8 v)).

Definition memrev16ifbe (x : list Z) : option (list Z) :=
  if host_be then memrev16 x else Some x.
Definition memrev32ifbe (x : list Z) : option (list Z) :=
  if host_be then memrev32 x else Some x.
Definition memrev64ifbe (x : list Z) : option (list Z) :=
  if host_be then memrev64 x else Some x.

Definition intrev16ifbe (v : Z) : Z := if host_be then intrev16 v else v.
Definition intrev32ifbe (v : Z) : Z := if host_be then intrev32 v else v.
Definition intrev64ifbe (v : Z) : Z := if host_be then intrev64 v else v.

Definition htonu64 (v : Z) : Z := if host_be then v else intrev64 v.
Definition ntohu64 (v : Z) : Z := if host_be then v else intrev64 v.
End Host.

(** ** Byte reversal *)

Lemma memrev16_reverse (x : list Z) : length x = 2%nat -> memrev16 x = Some (reverse x).
Proof. intros. do 3 (destruct x as [|? x]; try done). Qed.
Lemma memrev32_reverse (x : list Z) : length x = 4%nat -> memrev32 x = Some (reverse x).
Proof. intros. do 5 (destruct x as [|? x]; try done). Qed.
Lemma memrev64_reverse (x : list Z) : length x = 8%nat -> memrev64 x = Some (reverse x).
Proof. intros. do 9 (destruct x as [|? x]; try done). Qed.

Lemma length_host_enc `{HostEndian} n v : length (host_enc n v) = n.
Proof. unfold host_enc. case_match; by rewrite ?length_reverse, length_le_enc. Qed.

Lemma host_dec_enc `{HostEndian} n v :
  host_dec (host_enc n v) = v mod 256 ^ Z.of_nat n.
Proof.
  unfold host_dec, host_enc. destruct host_be;
    rewrite ?reverse_involutive; apply le_dec_enc.
Qed.

(** The big endian image. *)
Definition be_enc (n : nat) (v : Z) : list Z := reverse (le_enc n v).
Definition be_dec (bs : list Z) : Z := le_dec (reverse bs).

Lemma be_dec_enc n v : be_dec (be_enc n v) = v mod 256 ^ Z.of_nat n.
Proof. unfold be_dec, be_enc. rewrite reverse_involutive. apply le_dec_enc. Qed.

Lemma be_enc_dec bs : bytes_ok bs -> be_enc (length bs) (be_dec bs) = bs.
Proof.
  intros Hb. unfold be_dec, be_enc.
  rewrite <- (length_reverse bs), le_enc_dec, reverse_involutive; [done|].
  by apply Forall_reverse.
Qed.

Lemma length_be_enc n v : length (be_enc n v) = n.
Proof. unfold be_enc. by rewrite length_reverse, length_le_enc. Qed.

Lemma be_enc_bytes n v : bytes_ok (be_enc n v).
Proof. apply Forall_reverse, le_enc_bytes. Qed.

Section HostFacts.
Context `{HostEndian}.

Lemma memrev16ifbe_host v : memrev16ifbe (host_enc 2 v) = Some (le_enc 2 v).
Proof.
  unfold memrev16ifbe, host_enc. destruct host_be; [|done].
  by rewrite memrev16_reverse, reverse_involutive by (by rewrite length_reverse, length_le_enc).
Qed.
Lemma memrev32ifbe_host v : memrev32ifbe (host_enc 4 v) = Some (le_enc 4 v).
Proof.
  unfold memrev32ifbe, host_enc. destruct host_be; [|done].
  by rewrite memrev32_reverse, reverse_involutive by (by rewrite length_reverse, length_le_enc).
Qed.
Lemma memrev64ifbe_host v : memrev64ifbe (host_enc 8 v) = Some (le_enc 8 v).
Proof.
  unfold memrev64ifbe, host_enc. destruct host_be; [|done].
  by rewrite memrev64_reverse, reverse_involutive by (by rewrite length_reverse, length_le_enc).
Qed.

(** Loading a portable image back into a host integer. *)
Lemma memrev16ifbe_le v : memrev16ifbe (le_enc 2 v) = Some (host_enc 2 v).
Proof.
  unfold memrev16ifbe, host_enc. destruct host_be; [|done].
  by rewrite memrev16_reverse by (by rewrite length_le_enc).
Qed.
Lemma memrev32ifbe_le v : memrev32ifbe (le_enc 4 v) = Some (host_enc 4 v).
Proof.
  unfold memrev32ifbe, host_enc. destruct host_be; [|done].
  by rewrite memrev32_reverse by (by rewrite length_le_enc).
Qed.
Lemma memrev64ifbe_le v : memrev64ifbe (le_enc 8 v) = Some (host_enc 8 v).
Proof.
  unfold memrev64ifbe, host_enc. destruct host_be; [|done].
  by rewrite memrev64_reverse by (by rewrite length_le_enc).
Qed.

Lemma host_enc_bytes n v : bytes_ok (host_enc n v).
Proof.
  unfold host_enc. destruct host_be; [apply Forall_reverse|]; apply le_enc_bytes.
Qed.

Lemma host_enc_dec bs : bytes_ok bs -> host_enc (length bs) (host_dec bs) = bs.
Proof.
  intros Hb. unfold host_enc, host_dec.
  destruct host_be; [by apply be_enc_dec|by apply le_enc_dec].
Qed.

(** Reversing the object representation twice gives the value back. *)
Lemma host_rev_rev n v :
  host_dec (reverse (host_enc n (host_dec (reverse (host_enc n v)))))
  = v mod 256 ^ Z.of_nat n.
Proof.
  rewrite <- (length_host_enc n v) at 1.
  rewrite <- (length_reverse (host_enc n v)).
  rewrite host_enc_dec, reverse_involutive.
  - apply host_dec_enc.
  - apply Forall_reverse, host_enc_bytes.
Qed.

Lemma intrev16_involutive v : 0 <= v < 65536 -> intrev16 (intrev16 v) = v.
Proof.
  intros Hv. unfold intrev16.
  rewrite !memrev16_reverse by apply length_host_enc. simpl.
  rewrite host_rev_rev. apply Z.mod_small. lia.
Qed.
Lemma intrev32_involutive v : 0 <= v < 4294967296 -> intrev32 (intrev32 v) = v.
Proof.
  intros Hv. unfold intrev32.
  rewrite !memrev32_reverse by apply length_host_enc. simpl.
  rewrite host_rev_rev. apply Z.mod_small. lia.
Qed.
Lemma intrev64_involutive v :
  0 <= v < 18446744073709551616 -> intrev64 (intrev64 v) = v.
Proof.
  intros Hv. unfold intrev64.
  rewrite !memrev64_reverse by apply length_host_enc. simpl.
  rewrite host_rev_rev. apply Z.mod_small. lia.
Qed.

Lemma intrev32ifbe_involutive v :
  0 <= v < 4294967296 -> intrev32ifbe (intrev32ifbe v) = v.
Proof.
  intros. unfold intrev32ifbe. destruct host_be; [|done].
  by apply intrev32_involutive.
Qed.
End HostFacts.
