(* ===== verification/Intset.v ===== *)
(** * intset.c: sorted sets of integers in one memory block

    The block is modelled byte by byte: [contents] holds the elements as
    [encoding]-byte little endian integers.  Reading or writing outside of the
    block gives [None]; the bytes gained by [zrealloc] are an arbitrary
    [junk]. *)

From Stdlib Require Import ZArith Lia.
From stdpp Require Import base numbers list gmap sorting.
From S2P Require Import Prelude Endian.

Open Scope Z_scope.

Definition INTSET_ENC_INT16 : Z := 2.
Definition INTSET_ENC_INT32 : Z := 4.
Definition INTSET_ENC_INT64 : Z := 8.

(** The header fields hold the values as stored, i.e. in little endian byte
    order whatever the host. *)
Record intset := mk_intset {
  encoding : Z;
  length_ : Z;
  contents : list Z;
}.

Definition set_contents (ist : intset) (buf : list Z) : intset :=
  mk_intset (encoding ist) (length_ ist) buf.
Definition set_length (ist : intset) (len : Z) : intset :=
  mk_intset (encoding ist) len (contents ist).
Definition set_encoding (ist : intset) (enc : Z) : intset :=
  mk_intset enc (length_ ist) (contents ist).

Section Intset.
Context `{HostEndian} (junk : nat -> Z).

Definition _intsetValueEncoding (v : Z) : Z :=
  if (v <? INT32_MIN) || (v >? INT32_MAX) then INTSET_ENC_INT64
  else if (v <? INT16_MIN) || (v >? INT16_MAX) then INTSET_ENC_INT32
  else INTSET_ENC_INT16.

Definition _intsetGetEncoded (ist : intset) (pos enc : Z) : option Z :=
  if enc =? INTSET_ENC_INT64 then
    v64 ← load (contents ist) (pos * 8) 8;
    v64 ← memrev64ifbe v64;
    Some (s64 (host_dec v64))
  else if enc =? INTSET_ENC_INT32 then
    v32 ← load (contents ist) (pos * 4) 4;
    v32 ← memrev32ifbe v32;
    Some (s32 (host_dec v32))
  else
    v16 ← load (contents ist) (pos * 2) 2;
    v16 ← memrev16ifbe v16;
    Some (s16 (host_dec v16)).

Definition _intsetGet (ist : intset) (pos : Z) : option Z :=
  _intsetGetEncoded ist pos (u8 (intrev32ifbe (encoding ist))).

Definition _intsetSet (ist : intset) (pos value : Z) : option intset :=
  let enc := intrev32ifbe (encoding ist) in
  if enc =? INTSET_ENC_INT64 then
    buf ← store (contents ist) (pos * 8) (host_enc 8 value);
    v ← load buf (pos * 8) 8;
    v ← memrev64ifbe v;
    buf ← store buf (pos * 8) v;
    Some (set_contents ist buf)
  else if enc =? INTSET_ENC_INT32 then
    buf ← store (contents ist) (pos * 4) (host_enc 4 value);
    v ← load buf (pos * 4) 4;
    v ← memrev32ifbe v;
    buf ← store buf (pos * 4) v;
    Some (set_contents ist buf)
  else
    buf ← store (contents ist) (pos * 2) (host_enc 2 value);
    v ← load buf (pos * 2) 2;
    v ← memrev16ifbe v;
    buf ← store buf (pos * 2) v;
    Some (set_contents ist buf).

Definition intsetNew : intset :=
  mk_intset (intrev32ifbe INTSET_ENC_INT16) 0 [].

Definition intsetResize (ist : intset) (len : Z) : intset :=
  let size := u32 (len * intrev32ifbe (encoding ist)) in
  set_contents ist (realloc junk (contents ist) size).

(** The binary search loop; one unit of [fuel] per iteration. *)
Fixpoint search_loop (fuel : nat) (ist : intset) (value min max mid cur : Z)
  : option (Z * Z * Z) :=
  if max >=? min then
    match fuel with
    | O => None
    | S fuel =>
        let mid := s32 (Z.shiftr (u32 (u32 min + u32 max)) 1) in
        cur ← _intsetGet ist mid;
        if value >? cur then search_loop fuel ist value (s32 (mid + 1)) max mid cur
        else if value <? cur then search_loop fuel ist value min (s32 (mid - 1)) mid cur
        else Some (min, mid, cur)
    end
  else Some (min, mid, cur).

Definition intsetSearch (ist : intset) (value : Z) : option (bool * Z) :=
  let len := intrev32ifbe (length_ ist) in
  if len =? 0 then Some (false, 0)
  else
    last ← _intsetGet ist (s32 (u32 (len - 1)));
    if value >? last then Some (false, len)
    else
      first ← _intsetGet ist 0;
      if value <? first then Some (false, 0)
      else
        r ← search_loop (S (Z.to_nat len)) ist value 0 (s32 (u32 (len - 1))) (-1) (-1);
        let '(min, mid, cur) := r in
        if value =? cur then Some (true, u32 mid) else Some (false, u32 min).

(** [while(length--) _intsetSet(is,length+prepend,
     _intsetGetEncoded(is,length,curenc));] *)
Fixpoint upgrade_loop (length : nat) (ist : intset) (prepend curenc : Z)
  : option intset :=
  match length with
  | O => Some ist
  | S length =>
      v ← _intsetGetEncoded ist (Z.of_nat length) curenc;
      ist ← _intsetSet ist (Z.of_nat length + prepend) v;
      upgrade_loop length ist prepend curenc
  end.

Definition intsetUpgradeAndAdd (ist : intset) (value : Z) : option intset :=
  let curenc := u8 (intrev32ifbe (encoding ist)) in
  let newenc := _intsetValueEncoding value in
  let length := s32 (intrev32ifbe (length_ ist)) in
  let prepend := if value <? 0 then 1 else 0 in
  let ist := set_encoding ist (intrev32ifbe newenc) in
  let ist := intsetResize ist (u32 (intrev32ifbe (length_ ist) + 1)) in
  ist ← upgrade_loop (Z.to_nat length) ist prepend curenc;
  ist ← (if value <? 0 then _intsetSet ist 0 value
        else _intsetSet ist (s32 (intrev32ifbe (length_ ist))) value);
  Some (set_length ist (intrev32ifbe (u32 (intrev32ifbe (length_ ist) + 1)))).

Definition intsetMoveTail (ist : intset) (from to : Z) : option intset :=
  let bytes := u32 (intrev32ifbe (length_ ist) - from) in
  let enc := intrev32ifbe (encoding ist) in
  let w := if enc =? INTSET_ENC_INT64 then 8
           else if enc =? INTSET_ENC_INT32 then 4 else 2 in
  buf ← memmove (contents ist) (to * w) (from * w) (u32 (bytes * w));
  Some (set_contents ist buf).

Definition intsetAdd (ist : intset) (value : Z) : option (intset * bool) :=
  let valenc := _intsetValueEncoding value in
  if valenc >? intrev32ifbe (encoding ist) then
    ist ← intsetUpgradeAndAdd ist value;
    Some (ist, true)
  else
    r ← intsetSearch ist value;
    let '(found, pos) := r in
    if (found : bool) then Some (ist, false)
    else
      let ist := intsetResize ist (u32 (intrev32ifbe (length_ ist) + 1)) in
      ist ← (if pos <? intrev32ifbe (length_ ist)
            then intsetMoveTail ist pos (u32 (pos + 1)) else Some ist);
      ist ← _intsetSet ist (s32 pos) value;
      Some (set_length ist (intrev32ifbe (u32 (intrev32ifbe (length_ ist) + 1))), true).

Definition intsetRemove (ist : intset) (value : Z) : option (intset * bool) :=
  let valenc := _intsetValueEncoding value in
  if valenc <=? intrev32ifbe (encoding ist) then
    r ← intsetSearch ist value;
    let '(found, pos) := r in
    if (found : bool) then
      let len := intrev32ifbe (length_ ist) in
      ist ← (if pos <? u32 (len - 1)
            then intsetMoveTail ist (u32 (pos + 1)) pos else Some ist);
      let ist := intsetResize ist (u32 (len - 1)) in
      Some (set_length ist (intrev32ifbe (u32 (len - 1))), true)
    else Some (ist, false)
  else Some (ist, false).

Definition intsetFind (ist : intset) (value : Z) : option bool :=
  let valenc := _intsetValueEncoding value in
  if valenc <=? intrev32ifbe (encoding ist)
  then fst <$> intsetSearch ist value else Some false.

Definition intsetGet (ist : intset) (pos : Z) : option (option Z) :=
  if pos <? intrev32ifbe (length_ ist)
  then v ← _intsetGet ist (s32 pos); Some (Some v)
  else Some None.

(** [rnd] is the result of [rand()]. *)
Definition intsetRandom (ist : intset) (rnd : Z) : option Z :=
  if intrev32ifbe (length_ ist) =? 0 then None
  else _intsetGet ist (s32 (u32 rnd mod intrev32ifbe (length_ ist))).

Definition intsetLen (ist : intset) : Z := intrev32ifbe (length_ ist).

Definition intsetBlobLen (ist : intset) : Z :=
  u64 (8 + u32 (intrev32ifbe (length_ ist) * intrev32ifbe (encoding ist))).
End Intset.

(** ** Representation *)

(** The three element widths, in bytes. *)
Definition width_ok (e : nat) : Prop := e = 2%nat \/ e = 4%nat \/ e = 8%nat.

(** [v] fits in [e] bytes. *)
Definition in_width (e : nat) (v : Z) : Prop :=
  - 2 ^ (8 * Z.of_nat e - 1) <= v < 2 ^ (8 * Z.of_nat e - 1).

Definition chunk (e : nat) (vs : list Z) : list Z := concat (le_enc e <$> vs).

Lemma chunk_app e vs ws : chunk e (vs ++ ws) = chunk e vs ++ chunk e ws.
Proof. unfold chunk. by rewrite fmap_app, concat_app. Qed.
Lemma chunk_cons e v vs : chunk e (v :: vs) = le_enc e v ++ chunk e vs.
Proof. done. Qed.

Lemma zlen_chunk e vs : zlen (chunk e vs) = zlen vs * Z.of_nat e.
Proof.
  induction vs as [|v vs IH]; [done|].
  rewrite chunk_cons, zlen_app, IH, zlen_cons, zlen_le_enc. lia.
Qed.
#[export] Hint Rewrite zlen_chunk : zlen.

Lemma in_width_mono e e' v : (1 <= e <= e')%nat -> in_width e v -> in_width e' v.
Proof.
  unfold in_width. intros He Hv.
  assert (2 ^ (8 * Z.of_nat e - 1) <= 2 ^ (8 * Z.of_nat e' - 1)).
  { apply Z.pow_le_mono_r; lia. }
  lia.
Qed.

Section Facts.
Context `{HostEndian} (junk : nat -> Z).

Lemma get_encoded_at ist e pos v a c :
  width_ok e -> in_width e v ->
  contents ist = a ++ le_enc e v ++ c -> zlen a = pos * Z.of_nat e ->
  _intsetGetEncoded ist pos (Z.of_nat e) = Some v.
Proof.
  intros He Hv Hc Ha. unfold _intsetGetEncoded. rewrite Hc.
  destruct He as [->|[->| ->]]; eval_tests; cbn -[load le_enc Z.mul];
    (rewrite load_mid by zlia); cbn -[load le_enc Z.mul];
    rewrite ?memrev16ifbe_le, ?memrev32ifbe_le, ?memrev64ifbe_le;
    cbn -[host_dec host_enc swrap Z.mul]; rewrite host_dec_enc; f_equal.
  - change (v mod 256 ^ Z.of_nat 2) with (uwrap 16 v).
    rewrite swrap_uwrap, swrap_small by (unfold in_width in Hv; lia). done.
  - change (v mod 256 ^ Z.of_nat 4) with (uwrap 32 v).
    rewrite swrap_uwrap, swrap_small by (unfold in_width in Hv; lia). done.
  - change (v mod 256 ^ Z.of_nat 8) with (uwrap 64 v).
    rewrite swrap_uwrap, swrap_small by (unfold in_width in Hv; lia). done.
Qed.

Lemma set_at ist e pos v a m c :
  width_ok e -> intrev32ifbe (encoding ist) = Z.of_nat e ->
  contents ist = a ++ m ++ c -> zlen a = pos * Z.of_nat e -> zlen m = Z.of_nat e ->
  _intsetSet ist pos v = Some (set_contents ist (a ++ le_enc e v ++ c)).
Proof.
  intros He Henc Hc Ha Hm. unfold _intsetSet. rewrite Henc, Hc.
  assert (Hh : forall n, zlen (host_enc n v) = Z.of_nat n)
    by (intros; unfold zlen; by rewrite length_host_enc).
  destruct He as [->|[->| ->]]; eval_tests; cbn -[load store host_enc le_enc Z.mul];
    (rewrite store_mid by (rewrite ?Hh; lia));
    cbn -[load store host_enc le_enc Z.mul];
    (rewrite load_mid by (rewrite ?Hh; lia));
    cbn -[load store host_enc le_enc Z.mul];
    rewrite ?memrev16ifbe_host, ?memrev32ifbe_host, ?memrev64ifbe_host;
    cbn -[load store host_enc le_enc Z.mul];
    (rewrite store_mid by (rewrite ?Hh; zlia)); done.
Qed.
(** The invariant: the block is the image of a strictly increasing list of
    integers, all of which fit the current width. *)
Record intset_ok (ist : intset) (e : nat) (vs : list Z) : Prop := {
  ok_width : width_ok e;
  ok_encoding : encoding ist = intrev32ifbe (Z.of_nat e);
  ok_length : length_ ist = intrev32ifbe (zlen vs);
  ok_contents : contents ist = chunk e vs;
  ok_range : Forall (in_width e) vs;
  ok_sorted : StronglySorted Z.lt vs;
  ok_bound : zlen vs < 2 ^ 29;
}.

Lemma ok_enc_val ist e vs :
  intset_ok ist e vs -> intrev32ifbe (encoding ist) = Z.of_nat e.
Proof.
  intros [Hw He]. rewrite He. apply intrev32ifbe_involutive.
  unfold width_ok in Hw. lia.
Qed.

Lemma ok_len_val ist e vs :
  intset_ok ist e vs -> intrev32ifbe (length_ ist) = zlen vs.
Proof.
  intros []. rewrite ok_length0. apply intrev32ifbe_involutive.
  pose proof (zlen_nonneg vs). lia.
Qed.

Lemma ok_get ist e vs pos v :
  intset_ok ist e vs -> getb vs pos = Some v -> _intsetGet ist pos = Some v.
Proof.
  intros Hok Hv. pose proof (ok_enc_val _ _ _ Hok) as He.
  destruct Hok. unfold _intsetGet. rewrite He.
  rewrite u8_small by (unfold width_ok in *; lia).
  pose proof (getb_Some_range _ _ _ Hv) as Hr.
  unfold getb in Hv. rewrite (proj2 (Z.leb_le _ _)) in Hv by lia.
  rewrite <- (take_drop_middle _ _ _ Hv), chunk_app, chunk_cons in ok_contents0.
  eapply get_encoded_at; [done| |exact ok_contents0|zlia].
  by eapply Forall_lookup_1.
Qed.

(** [pos] splits the sorted list around [v]. *)
Definition splits (vs : list Z) (v pos : Z) : Prop :=
  0 <= pos <= zlen vs /\
  (forall i x, getb vs i = Some x -> i < pos -> x < v) /\
  (forall i x, getb vs i = Some x -> pos <= i -> v < x).

Lemma search_loop_spec ist e vs v fuel min max mid cur :
  intset_ok ist e vs ->
  0 <= min <= max + 1 -> max < zlen vs -> max - min + 1 < Z.of_nat fuel ->
  (forall i x, getb vs i = Some x -> i < min -> x < v) ->
  (forall i x, getb vs i = Some x -> max < i -> v < x) ->
  (max < min -> cur <> v) ->
  exists min' mid' cur',
    search_loop fuel ist v min max mid cur = Some (min', mid', cur') /\
    (cur' = v /\ getb vs mid' = Some v \/
     cur' <> v /\ splits vs v min').
Proof.
  intros Hok. pose proof (ok_bound _ _ _ Hok) as Hb.
  revert min max mid cur.
  induction fuel as [|fuel IH]; intros min max mid cur Hmin Hmax Hf Hlo Hhi Hcur;
    simpl; rewrite Z.geb_leb; case_match eqn:E; zbool; [lia| | |].
  - exists min, mid, cur. split; [done|]. right. split; [by apply Hcur; lia|].
    split_and!; [lia..|done|]. intros i x Hi ?. eapply Hhi; [done|lia].
  - rewrite (u32_small min), (u32_small max) by lia.
    rewrite (u32_small (min + max)), Z.shiftr_div_pow2, Z.pow_1_r by lia.
    rewrite (s32_small ((min + max) / 2)) by dlia.
    set (m := (min + max) / 2) in *.
    assert (min <= m <= max) by (subst m; dlia).
    destruct (getb_is_Some vs m) as [c Hc]; [lia|].
    rewrite (ok_get _ _ _ _ _ Hok Hc). simpl.
    rewrite Z.gtb_ltb. destruct (Z.ltb_spec c v).
    { rewrite s32_small by lia. apply IH; [lia..| | |].
      - intros i x Hi ?. destruct (decide (i = m)) as [->|]; [by simplify_eq|].
        assert (x < c) by (eapply (StronglySorted_getb Z.lt); [apply Hok|exact Hi|exact Hc|lia]). lia.
      - intros i x Hi ?. by eapply Hhi.
      - lia. }
    destruct (Z.ltb_spec v c).
    { rewrite s32_small by lia. apply IH; [lia..| | |].
      - intros i x Hi ?. by eapply Hlo.
      - intros i x Hi ?. destruct (decide (i = m)) as [->|]; [by simplify_eq|].
        assert (c < x) by (eapply (StronglySorted_getb Z.lt); [apply Hok|exact Hc|exact Hi|lia]). lia.
      - lia. }
    assert (c = v) as -> by lia. eexists _, _, _. split; [done|]. by left.
  - exists min, mid, cur. split; [done|]. right. split; [by apply Hcur; lia|].
    split_and!; [lia..|done|]. intros i x Hi ?. eapply Hhi; [done|lia].
Qed.

Lemma splits_not_in vs v pos : splits vs v pos -> v ∉ vs.
Proof.
  intros (Hp & Hlo & Hhi) [i Hi]%elem_getb.
  destruct (Z.lt_ge_cases i pos).
  - specialize (Hlo _ _ Hi). lia.
  - specialize (Hhi _ _ Hi). lia.
Qed.

(** [intsetSearch] never leaves the block and finds the element or the place
    where it belongs. *)
Lemma search_spec ist e vs v :
  intset_ok ist e vs ->
  exists found pos, intsetSearch ist v = Some (found, pos) /\
    found = bool_decide (v ∈ vs) /\
    (if found then getb vs pos = Some v else splits vs v pos).
Proof.
  intros Hok. unfold intsetSearch. rewrite (ok_len_val _ _ _ Hok).
  pose proof (ok_bound _ _ _ Hok) as Hb.
  destruct (Z.eqb_spec (zlen vs) 0) as [Hz|Hz].
  { destruct vs as [|w vs]; [|rewrite zlen_cons in Hz; pose proof (zlen_nonneg vs); lia].
    exists false, 0. split_and!; [done|by rewrite bool_decide_eq_false_2 by apply not_elem_of_nil|].
    split_and!; [done|done|..]; intros i x Hi%getb_Some_range; unfold zlen in Hi; simpl in Hi; lia. }
  pose proof (zlen_nonneg vs).
  rewrite u32_small, s32_small by lia.
  destruct (getb_is_Some vs (zlen vs - 1)) as [l Hl]; [lia|].
  destruct (getb_is_Some vs 0) as [f Hf]; [lia|].
  rewrite (ok_get _ _ _ _ _ Hok Hl), (ok_get _ _ _ _ _ Hok Hf). sbind.
  rewrite Z.gtb_ltb. destruct (Z.ltb_spec l v).
  { assert (splits vs v (zlen vs)) as Hsp.
    { split_and!; [lia..| |]; intros i x Hi; pose proof (getb_Some_range _ _ _ Hi); [|lia].
      intros _. destruct (decide (i = zlen vs - 1)) as [->|]; [by simplify_eq|].
      assert (x < l) by (eapply (StronglySorted_getb Z.lt); [apply Hok|exact Hi|exact Hl|lia]). lia. }
    exists false, (zlen vs). split_and!; [done| |done].
    rewrite bool_decide_eq_false_2; [done|by eapply splits_not_in]. }
  destruct (Z.ltb_spec v f).
  { assert (splits vs v 0) as Hsp.
    { split_and!; [lia..| |]; intros i x Hi; pose proof (getb_Some_range _ _ _ Hi); [lia|].
      intros _. destruct (decide (i = 0)) as [->|]; [by simplify_eq|].
      assert (f < x) by (eapply (StronglySorted_getb Z.lt); [apply Hok|exact Hf|exact Hi|lia]). lia. }
    exists false, 0. split_and!; [done| |done].
    rewrite bool_decide_eq_false_2; [done|by eapply splits_not_in]. }
  destruct (search_loop_spec ist e vs v (S (Z.to_nat (zlen vs))) 0 (zlen vs - 1) (-1) (-1))
    as (mi & md & c & Heq & Hc); [done|lia..| | |lia|].
  { intros i x Hi. apply getb_Some_range in Hi. lia. }
  { intros i x Hi. apply getb_Some_range in Hi. lia. }
  rewrite Heq. sbind. destruct Hc as [[-> Hc]|[Hne Hc]].
  - rewrite Z.eqb_refl. apply getb_Some_range in Hc as Hr.
    rewrite u32_small by lia. eexists true, _. split_and!; [done| |done].
    rewrite bool_decide_eq_true_2; [done|]. apply elem_getb. eauto.
  - rewrite (proj2 (Z.eqb_neq _ _)) by done.
    destruct Hc as [Hr Hc]. rewrite u32_small by lia.
    eexists false, _. split_and!; [done| |done].
    rewrite bool_decide_eq_false_2; [done|]. by eapply splits_not_in.
Qed.

(** The width chosen for a value is the least one it fits in. *)
Lemma value_encoding_spec v :
  in_width 8 v ->
  exists e, _intsetValueEncoding v = Z.of_nat e /\ width_ok e /\
    forall e', width_ok e' -> (in_width e' v <-> (e <= e')%nat).
Proof.
  unfold in_width. intros Hv. unfold _intsetValueEncoding, INT32_MIN, INT32_MAX,
    INT16_MIN, INT16_MAX.
  destruct ((v <? _) || _) eqn:E1;
    [|destruct ((v <? -32768) || _) eqn:E2]; zbool.
  - exists 8%nat. split_and!; [done|by right; right|].
    intros e' [->|[->| ->]]; lia.
  - exists 4%nat. split_and!; [done|by right; left|].
    intros e' [->|[->| ->]]; lia.
  - exists 2%nat. split_and!; [done|by left|].
    intros e' [->|[->| ->]]; lia.
Qed.

(** Inserting at the position found by the search keeps the order. *)
Lemma splits_insert vs v pos :
  StronglySorted Z.lt vs -> splits vs v pos ->
  StronglySorted Z.lt (take (Z.to_nat pos) vs ++ v :: drop (Z.to_nat pos) vs).
Proof.
  intros Hs (Hp & Hlo & Hhi).
  assert (Hl : forall x, x ∈ take (Z.to_nat pos) vs -> x < v).
  { intros x (i & Hi & ?)%elem_of_take. apply (Hlo (Z.of_nat i)); [|lia].
    by rewrite getb_lookup. }
  assert (Hr : forall x, x ∈ drop (Z.to_nat pos) vs -> v < x).
  { intros x (i & Hi)%list_elem_of_lookup. rewrite lookup_drop in Hi.
    apply (Hhi (Z.of_nat (Z.to_nat pos + i))); [|lia]. by rewrite getb_lookup. }
  rewrite <- (take_drop (Z.to_nat pos) vs) in Hs.
  apply StronglySorted_app in Hs as (Hlr & Hsl & Hsr).
  apply StronglySorted_app. split_and!; [|done|].
  - intros x y Hx [->|Hy]%elem_of_cons; [by apply Hl|by apply Hlr].
  - apply StronglySorted_cons. split; [|done]. by apply Forall_forall.
Qed.

(** Storing a value in a one-element gap re-establishes the invariant. *)
Lemma fill_gap ist e a m c v pos :
  pos = zlen a -> width_ok e -> intrev32ifbe (encoding ist) = Z.of_nat e ->
  contents ist = chunk e a ++ m ++ chunk e c -> zlen m = Z.of_nat e ->
  _intsetSet ist pos v = Some (set_contents ist (chunk e (a ++ v :: c))).
Proof.
  intros ->. intros. erewrite set_at; [|done..|zlia|done].
  by rewrite chunk_app, chunk_cons.
Qed.

Lemma resize_grow ist e n :
  intrev32ifbe (encoding ist) = Z.of_nat e ->
  zlen (contents ist) <= n * Z.of_nat e < 2 ^ 32 ->
  exists m, intsetResize junk ist n = set_contents ist (contents ist ++ m) /\
    zlen m = n * Z.of_nat e - zlen (contents ist).
Proof.
  intros He Hn. unfold intsetResize. rewrite He.
  rewrite u32_small by (pose proof (zlen_nonneg (contents ist)); lia).
  destruct (realloc_grow junk (contents ist) (n * Z.of_nat e)) as (m & -> & ?); [lia|].
  eauto.
Qed.

Lemma move_tail_up ist e vs pos m :
  width_ok e -> intrev32ifbe (encoding ist) = Z.of_nat e ->
  intrev32ifbe (length_ ist) = zlen vs -> zlen vs < 2 ^ 29 ->
  0 <= pos <= zlen vs ->
  contents ist = chunk e vs ++ m -> zlen m = Z.of_nat e ->
  exists m', zlen m' = Z.of_nat e /\
    intsetMoveTail ist pos (u32 (pos + 1)) = Some (set_contents ist
      (chunk e (take (Z.to_nat pos) vs) ++ m' ++ chunk e (drop (Z.to_nat pos) vs))).
Proof.
  intros Hw He Hl Hb Hp Hc Hm. unfold intsetMoveTail. rewrite He, Hl.
  assert ((if Z.of_nat e =? INTSET_ENC_INT64 then 8
           else if Z.of_nat e =? INTSET_ENC_INT32 then 4 else 2) = Z.of_nat e) as ->.
  { by destruct Hw as [->|[->| ->]]. }
  assert (Z.of_nat e <= 8) by (unfold width_ok in Hw; lia).
  rewrite !u32_small by (rewrite ?u32_small; lia || nia).
  rewrite Hc, <- (take_drop (Z.to_nat pos) vs), chunk_app, <- app_assoc.
  destruct (memmove_up (chunk e (take (Z.to_nat pos) vs))
    (chunk e (drop (Z.to_nat pos) vs)) m
    ((pos + 1) * Z.of_nat e) (pos * Z.of_nat e) ((zlen vs - pos) * Z.of_nat e))
    as (m' & Heq & Hm'); [rewrite ?zlen_chunk, ?zlen_take, ?zlen_drop; nia..|].
  rewrite take_drop, Heq. sbind. exists m'. split; [lia|done].
Qed.

Lemma move_tail_down ist e a x c :
  width_ok e -> intset_ok ist e (a ++ x :: c) ->
  exists m', zlen m' = Z.of_nat e /\
    intsetMoveTail ist (u32 (zlen a + 1)) (zlen a) = Some (set_contents ist
      (chunk e (a ++ c) ++ m')).
Proof.
  intros Hw Hok. unfold intsetMoveTail.
  rewrite (ok_enc_val _ _ _ Hok), (ok_len_val _ _ _ Hok).
  pose proof (ok_bound _ _ _ Hok) as Hb. rewrite zlen_app, zlen_cons in Hb |- *.
  pose proof (zlen_nonneg a). pose proof (zlen_nonneg c).
  assert ((if Z.of_nat e =? INTSET_ENC_INT64 then 8
           else if Z.of_nat e =? INTSET_ENC_INT32 then 4 else 2) = Z.of_nat e) as ->.
  { by destruct Hw as [->|[->| ->]]. }
  assert (Z.of_nat e <= 8) by (unfold width_ok in Hw; lia).
  rewrite (u32_small (zlen a + 1)) by lia.
  rewrite !u32_small by (rewrite ?u32_small; lia || nia).
  rewrite (ok_contents _ _ _ Hok), chunk_app, chunk_cons.
  destruct (memmove_down (chunk e a) (chunk e c) (le_enc e x)
    (zlen a * Z.of_nat e) ((zlen a + 1) * Z.of_nat e)
    ((zlen a + (1 + zlen c) - (zlen a + 1)) * Z.of_nat e))
    as (m' & Heq & Hm'); [rewrite ?zlen_chunk, ?zlen_le_enc; nia..|].
  rewrite Heq. sbind. exists m'. rewrite chunk_app, <- app_assoc.
  split; [by rewrite Hm', zlen_le_enc|done].
Qed.

(** The back-to-front copy never overwrites an element it has still to
    read. *)
Lemma upgrade_loop_spec cure newe p vs : forall ist mid tl,
  width_ok cure -> width_ok newe -> (cure <= newe)%nat -> 0 <= p ->
  intrev32ifbe (encoding ist) = Z.of_nat newe ->
  Forall (in_width cure) vs ->
  contents ist = chunk cure vs ++ mid ++ tl ->
  zlen (chunk cure vs ++ mid) = (zlen vs + p) * Z.of_nat newe ->
  exists mid', zlen mid' = p * Z.of_nat newe /\
    upgrade_loop (length vs) ist p (Z.of_nat cure)
    = Some (set_contents ist (mid' ++ chunk newe vs ++ tl)).
Proof.
  induction vs as [|v vs IH] using rev_ind;
    intros ist mid tl Hc Hn Hle Hp Henc Hr Hcont Hlen.
  { exists mid. rewrite zlen_app, zlen_chunk in Hlen. change (zlen (@nil Z)) with 0 in Hlen.
    split; [lia|]. simpl in *. destruct ist; simpl in *. by subst. }
  apply Forall_app in Hr as [Hr Hv]. rewrite Forall_singleton in Hv.
  rewrite length_app, Nat.add_1_r. cbn [upgrade_loop].
  rewrite chunk_app, chunk_cons, <- !app_assoc in Hcont. cbn [chunk app concat fmap list_fmap] in Hcont.
  rewrite (get_encoded_at ist cure _ v (chunk cure vs) (mid ++ tl));
    [sbind|done..|by rewrite zlen_chunk].
  set (k := Z.to_nat ((zlen vs + p) * Z.of_nat newe)).
  set (X := chunk cure vs ++ le_enc cure v ++ mid).
  autorewrite with zlen in Hlen.
  assert (1 <= Z.of_nat cure) by (unfold width_ok in Hc; lia).
  assert (Hk : Z.of_nat k = (zlen vs + p) * Z.of_nat newe)
    by (pose proof (zlen_nonneg vs); subst k; nia).
  assert (HX : zlen X = Z.of_nat k + Z.of_nat newe)
    by (subst X; autorewrite with zlen; rewrite Hk; lia).
  rewrite (set_at ist newe (Z.of_nat (length vs) + p) v (take k X) (drop k X) tl);
    [sbind|done|done|by rewrite app_assoc, take_drop; subst X; rewrite Hcont, <- !app_assoc
    |rewrite zlen_take, HX, Hk; unfold zlen; lia|rewrite zlen_drop, HX; lia].
  assert (exists mid2, take k X = chunk cure vs ++ mid2) as [mid2 Hmid2].
  { subst X. rewrite take_app, (take_ge (chunk cure vs)); [by eexists|].
    apply Nat2Z.inj_le. change (zlen (chunk cure vs) <= Z.of_nat k).
    rewrite zlen_chunk, Hk. pose proof (zlen_nonneg vs). nia. }
  destruct (IH (set_contents ist (take k X ++ le_enc newe v ++ tl))
    mid2 (le_enc newe v ++ tl)) as (mid' & Hm & Heq); [done..| | |].
  - cbn [contents set_contents]. by rewrite Hmid2, <- app_assoc.
  - rewrite <- Hmid2, zlen_take, HX. lia.
  - exists mid'. split; [done|]. rewrite Heq. cbn [set_contents encoding length_].
    by rewrite chunk_app, chunk_cons, <- !app_assoc.
Qed.

(** A value that does not fit lies beyond all the elements, on the side of
    its sign. *)
Lemma out_of_width_beyond e v vs :
  width_ok e -> ~ in_width e v -> Forall (in_width e) vs ->
  Forall (fun x => if v <? 0 then v < x else x < v) vs.
Proof.
  intros Hw Hv Hvs. eapply Forall_impl; [exact Hvs|]. intros x Hx. unfold in_width in *.
  assert (0 < 2 ^ (8 * Z.of_nat e - 1)) by (destruct Hw as [->|[->| ->]]; lia).
  case_match; zbool; lia.
Qed.

Definition extend (v : Z) (vs : list Z) : list Z :=
  if v <? 0 then v :: vs else vs ++ [v].

Lemma elem_of_extend v vs x : x ∈ extend v vs <-> x = v \/ x ∈ vs.
Proof.
  unfold extend. case_match; [apply elem_of_cons|].
  rewrite elem_of_app, list_elem_of_singleton. tauto.
Qed.

Lemma extend_sorted v vs :
  StronglySorted Z.lt vs ->
  Forall (fun x => if v <? 0 then v < x else x < v) vs ->
  StronglySorted Z.lt (extend v vs).
Proof.
  intros Hs Hb. unfold extend. destruct (v <? 0).
  - apply StronglySorted_cons. done.
  - apply StronglySorted_app. split_and!; [|done|by repeat constructor].
    intros x y Hx ->%list_elem_of_singleton. rewrite Forall_forall in Hb. by apply Hb.
Qed.

(** Resizing to the new width and copying leaves a gap of one element on the
    side of the new value. *)
Lemma grow_and_copy ist e e' vs p :
  intset_ok ist e vs -> width_ok e' -> (e < e')%nat -> zlen vs + 1 < 2 ^ 29 ->
  0 <= p <= 1 ->
  exists mid tl,
    zlen mid = p * Z.of_nat e' /\ zlen tl = (1 - p) * Z.of_nat e' /\
    upgrade_loop (length vs)
      (intsetResize junk (set_encoding ist (intrev32ifbe (Z.of_nat e'))) (zlen vs + 1))
      p (Z.of_nat e)
    = Some (mk_intset (intrev32ifbe (Z.of_nat e')) (length_ ist)
              (mid ++ chunk e' vs ++ tl)).
Proof.
  intros Hok Hw' Hlt Hb Hp. pose proof (ok_width _ _ _ Hok) as Hw.
  assert (1 <= Z.of_nat e /\ Z.of_nat e' <= 8) as [] by (unfold width_ok in *; lia).
  assert (intrev32ifbe (intrev32ifbe (Z.of_nat e')) = Z.of_nat e') as Hinv
    by (apply intrev32ifbe_involutive; lia).
  pose proof (zlen_nonneg vs).
  destruct (resize_grow (set_encoding ist (intrev32ifbe (Z.of_nat e'))) e' (zlen vs + 1))
    as (m & -> & Hm); [done|cbn [contents set_encoding];
    rewrite (ok_contents _ _ _ Hok), zlen_chunk; nia|].
  cbn [contents set_encoding set_contents encoding length_] in *.
  rewrite (ok_contents _ _ _ Hok), ?zlen_chunk in *.
  set (q := Z.to_nat ((zlen vs + p) * Z.of_nat e' - zlen vs * Z.of_nat e)).
  assert (Hq : Z.of_nat q = (zlen vs + p) * Z.of_nat e' - zlen vs * Z.of_nat e)
    by (subst q; nia).
  edestruct (upgrade_loop_spec e e' p vs) as (mid & Hmid & Heq);
    [exact Hw|exact Hw'|lia|lia| |apply Hok| | |exists mid, (drop q m); split_and!; [done| |exact Heq]].
  - done.
  - cbn [contents]. by rewrite take_drop.
  - autorewrite with zlen. rewrite Hq. nia.
  - rewrite zlen_drop, Hq. nia.
Qed.

Lemma extended_ok ist e e' vs v :
  intset_ok ist e vs -> width_ok e' -> (e < e')%nat -> zlen vs + 1 < 2 ^ 29 ->
  in_width e' v -> ~ in_width e v ->
  intset_ok (mk_intset (intrev32ifbe (Z.of_nat e')) (intrev32ifbe (zlen vs + 1))
               (chunk e' (extend v vs))) e' (extend v vs).
Proof.
  intros Hok Hw' Hlt Hb Hv Hnv. pose proof (ok_width _ _ _ Hok) as Hw.
  assert (zlen (extend v vs) = zlen vs + 1) as Hl
    by (unfold extend; case_match; rewrite ?zlen_app, ?zlen_cons; zlia).
  split; [done|done|by rewrite Hl|done| | |by rewrite Hl].
  - assert (Forall (in_width e') vs).
    { eapply Forall_impl; [apply Hok|]. intros x. apply in_width_mono.
      unfold width_ok in Hw. lia. }
    unfold extend. case_match; [by constructor|].
    apply Forall_app. split; [done|]. by apply Forall_singleton.
  - apply extend_sorted; [apply Hok|]. eapply out_of_width_beyond; [exact Hw|done|apply Hok].
Qed.

Lemma upgrade_and_add_spec ist e vs v :
  intset_ok ist e vs -> in_width 8 v -> ~ in_width e v -> zlen vs + 1 < 2 ^ 29 ->
  exists ist' e', intsetUpgradeAndAdd junk ist v = Some ist' /\
    intset_ok ist' e' (extend v vs).
Proof.
  intros Hok Hv Hnv Hb.
  destruct (value_encoding_spec v Hv) as (e' & He' & Hw' & Hleast).
  pose proof (ok_width _ _ _ Hok) as Hw.
  assert (e < e')%nat as Hlt by (rewrite (Hleast e Hw) in Hnv; lia).
  assert (in_width e' v) as Hv' by (by apply Hleast).
  pose proof (extended_ok _ _ e' _ v Hok Hw' Hlt Hb Hv' Hnv) as Hfin.
  assert (intrev32ifbe (intrev32ifbe (Z.of_nat e')) = Z.of_nat e') as Hinv
    by (apply intrev32ifbe_involutive; unfold width_ok in *; lia).
  pose proof (zlen_nonneg vs). unfold intsetUpgradeAndAdd.
  rewrite (ok_enc_val _ _ _ Hok), He'. cbn [length_ set_encoding].
  rewrite (ok_len_val _ _ _ Hok).
  rewrite u8_small, s32_small, u32_small by (unfold width_ok in *; lia).
  replace (Z.to_nat (zlen vs)) with (length vs) by (unfold zlen; lia).
  destruct (grow_and_copy ist e e' vs (if v <? 0 then 1 else 0))
    as (mid & tl & Hm & Ht & ->); [done..|case_match; lia|]. sbind.
  unfold extend in *. cbn [length_]. rewrite (ok_len_val _ _ _ Hok), s32_small by lia.
  destruct (v <? 0).
  - rewrite (set_at _ e' 0 v [] mid (chunk e' vs ++ tl)); [sbind|done|done|done|done|lia].
    rewrite (nil_length_inv tl), app_nil_r by (unfold zlen in Ht; lia).
    eexists _, e'. split; [done|]. cbn [length_ set_length set_contents encoding contents].
    rewrite (ok_len_val _ _ _ Hok), u32_small by lia. exact Hfin.
  - rewrite (nil_length_inv mid) by (unfold zlen in Hm; lia).
    rewrite (set_at _ e' (zlen vs) v (chunk e' vs) tl []);
      [sbind|done|done|by rewrite app_nil_r|by rewrite zlen_chunk|lia].
    eexists _, e'. split; [done|]. cbn [length_ set_length set_contents encoding contents].
    rewrite (ok_len_val _ _ _ Hok), u32_small by lia.
    rewrite chunk_app in Hfin. exact Hfin.
Qed.

Lemma add_in_place ist e vs v pos :
  intset_ok ist e vs -> in_width e v -> zlen vs + 1 < 2 ^ 29 -> splits vs v pos ->
  intsetSearch ist v = Some (false, pos) ->
  (_intsetValueEncoding v >? intrev32ifbe (encoding ist)) = false ->
  exists ist', intsetAdd junk ist v = Some (ist', true) /\
    intset_ok ist' e (take (Z.to_nat pos) vs ++ v :: drop (Z.to_nat pos) vs).
Proof.
  intros Hok Hv Hb Hsp Hs Henc. unfold intsetAdd. rewrite Henc, Hs. sbind.
  pose proof (ok_width _ _ _ Hok) as Hw. pose proof (zlen_nonneg vs).
  assert (0 <= pos <= zlen vs) as Hp by apply Hsp.
  assert (1 <= Z.of_nat e <= 8) by (unfold width_ok in Hw; lia).
  rewrite (ok_len_val _ _ _ Hok), u32_small by lia.
  destruct (resize_grow ist e (zlen vs + 1)) as (m & -> & Hm);
    [by eapply ok_enc_val|rewrite (ok_contents _ _ _ Hok), zlen_chunk; nia|].
  rewrite (ok_contents _ _ _ Hok), zlen_chunk in *. cbn [length_ set_contents].
  rewrite (ok_len_val _ _ _ Hok).
  assert (exists m', zlen m' = Z.of_nat e /\
    (if pos <? zlen vs
     then intsetMoveTail (set_contents ist (chunk e vs ++ m)) pos (u32 (pos + 1))
     else Some (set_contents ist (chunk e vs ++ m)))
    = Some (set_contents ist (chunk e (take (Z.to_nat pos) vs) ++ m' ++
              chunk e (drop (Z.to_nat pos) vs)))) as (m' & Hm' & ->).
  { destruct (Z.ltb_spec pos (zlen vs)).
    - destruct (move_tail_up (set_contents ist (chunk e vs ++ m)) e vs pos m)
        as (m' & ? & ->); [done|by apply (ok_enc_val _ _ _ Hok)
        |by apply (ok_len_val _ _ _ Hok)|lia..|done|lia|]. by exists m'.
    - exists m. split; [lia|].
      rewrite take_ge, drop_ge, app_nil_r by zlia. done. }
  sbind. rewrite s32_small by lia.
  erewrite (fill_gap _ e (take (Z.to_nat pos) vs) m');
    [sbind|zlia|done|by apply (ok_enc_val _ _ _ Hok)|done|done].
  eexists. split; [done|]. cbn [length_ set_contents set_length encoding contents].
  rewrite (ok_len_val _ _ _ Hok), u32_small by lia.
  assert (zlen (take (Z.to_nat pos) vs ++ v :: drop (Z.to_nat pos) vs) = zlen vs + 1) as Hl
    by zlia.
  split; [done|by apply (ok_encoding _ _ _ Hok)|by rewrite Hl|done| | |by rewrite Hl].
  - pose proof (ok_range _ _ _ Hok) as Hr.
    apply Forall_app. split; [by apply Forall_take|].
    constructor; [done|by apply Forall_drop].
  - apply splits_insert; [apply Hok|done].
Qed.

(** [intsetAdd] inserts the value unless it is there. *)
Lemma add_spec ist e vs v :
  intset_ok ist e vs -> in_width 8 v -> zlen vs + 1 < 2 ^ 29 ->
  exists ist' e' vs',
    intsetAdd junk ist v = Some (ist', bool_decide (v ∉ vs)) /\
    intset_ok ist' e' vs' /\ (forall x, x ∈ vs' <-> x = v \/ x ∈ vs).
Proof.
  intros Hok Hv Hb. destruct (value_encoding_spec v Hv) as (ev & Hev & _ & Hleast).
  pose proof (ok_width _ _ _ Hok) as Hw.
  destruct (_intsetValueEncoding v >? intrev32ifbe (encoding ist)) eqn:Henc.
  - assert (~ in_width e v) as Hnv.
    { rewrite (Hleast e Hw). rewrite Hev, (ok_enc_val _ _ _ Hok) in Henc. lia. }
    destruct (upgrade_and_add_spec _ _ _ _ Hok Hv Hnv Hb) as (ist' & e' & Heq & Hok').
    exists ist', e', (extend v vs). unfold intsetAdd. rewrite Henc, Heq. sbind.
    split_and!; [|done|apply elem_of_extend].
    rewrite bool_decide_eq_true_2; [done|]. intros Hin.
    pose proof (ok_range _ _ _ Hok) as Hr. rewrite Forall_forall in Hr. by apply Hnv, Hr.
  - destruct (search_spec _ _ _ v Hok) as (found & pos & Hs & -> & Hpos).
    case_bool_decide as Hin.
    + exists ist, e, vs. unfold intsetAdd. rewrite Henc, Hs. sbind.
      rewrite bool_decide_eq_false_2 by tauto. split_and!; [done..|].
      intros x. split; [by right|by intros [->|]].
    + destruct (add_in_place ist e vs v pos) as (ist' & Heq & Hok'); [done| |done..|].
      { apply Hleast; [done|]. rewrite Hev, (ok_enc_val _ _ _ Hok) in Henc. lia. }
      eexists _, _, _. rewrite bool_decide_eq_true_2 by done.
      split_and!; [done..|]. intros x. rewrite elem_of_app, elem_of_cons.
      rewrite <- (take_drop (Z.to_nat pos) vs) at 3. rewrite elem_of_app. tauto.
Qed.

(** Deleting an element keeps the list sorted and removes just that value. *)
Lemma sorted_delete a v c :
  StronglySorted Z.lt (a ++ v :: c) ->
  StronglySorted Z.lt (a ++ c) /\
  forall x, x ∈ a ++ c <-> x <> v /\ x ∈ a ++ v :: c.
Proof.
  intros (Hac & Hsa & [Hvc Hsc]%StronglySorted_cons)%StronglySorted_app.
  rewrite Forall_forall in Hvc. split.
  - apply StronglySorted_app. split_and!; [|done..].
    intros x y Hx Hy. apply Hac; [done|by apply elem_of_cons; right].
  - intros x. rewrite !elem_of_app, elem_of_cons. split; [|tauto].
    intros Hx. split; [|tauto]. intros ->. destruct Hx as [Hx|Hx].
    + specialize (Hac v v Hx (list_elem_of_here _ _)). lia.
    + specialize (Hvc v Hx). lia.
Qed.

Lemma not_in_wider ist e vs v :
  intset_ok ist e vs -> in_width 8 v ->
  (_intsetValueEncoding v <=? intrev32ifbe (encoding ist)) = false -> v ∉ vs.
Proof.
  intros Hok Hv Henc Hin. destruct (value_encoding_spec v Hv) as (ev & Hev & _ & Hleast).
  pose proof (ok_range _ _ _ Hok) as Hr. rewrite Forall_forall in Hr.
  apply Hr, (Hleast e (ok_width _ _ _ Hok)) in Hin.
  rewrite Hev, (ok_enc_val _ _ _ Hok) in Henc. lia.
Qed.

Lemma delete_at ist e a v c :
  intset_ok ist e (a ++ v :: c) ->
  exists ist',
    (ist ← (if zlen a <? zlen a + zlen c
            then intsetMoveTail ist (u32 (zlen a + 1)) (zlen a) else Some ist);
     Some (set_length (intsetResize junk ist (zlen a + zlen c))
             (intrev32ifbe (zlen a + zlen c)))) = Some ist' /\
    intset_ok ist' e (a ++ c).
Proof.
  intros Hok. pose proof (ok_width _ _ _ Hok) as Hw.
  pose proof (ok_bound _ _ _ Hok) as Hb. rewrite zlen_app, zlen_cons in Hb.
  pose proof (zlen_nonneg a). pose proof (zlen_nonneg c).
  assert (1 <= Z.of_nat e <= 8) by (unfold width_ok in Hw; lia).
  assert (exists m', (if zlen a <? zlen a + zlen c
      then intsetMoveTail ist (u32 (zlen a + 1)) (zlen a) else Some ist)
    = Some (set_contents ist (chunk e (a ++ c) ++ m'))) as (m' & ->).
  { destruct (Z.ltb_spec (zlen a) (zlen a + zlen c)).
    - destruct (move_tail_down ist e a v c) as (m' & _ & ->); [done..|]. by exists m'.
    - exists (le_enc e v). rewrite (nil_length_inv c) in Hok |- * by zlia.
      pose proof (ok_contents _ _ _ Hok) as Hc. rewrite chunk_app, chunk_cons in Hc.
      rewrite !app_nil_r in *. by destruct ist; simpl in *; subst. }
  sbind. eexists. split; [done|]. unfold intsetResize.
  cbn [encoding set_contents contents set_length].
  rewrite (ok_enc_val _ _ _ Hok), u32_small by nia.
  rewrite realloc_shrink by (autorewrite with zlen; lia).
  pose proof (ok_range _ _ _ Hok) as [Hra [_ Hrc]%Forall_cons]%Forall_app.
  split; cbn [set_length set_contents contents encoding length_];
    [done|apply Hok|f_equal; zlia|done|by apply Forall_app| |zlia].
  by eapply sorted_delete, Hok.
Qed.

(** [intsetRemove] deletes the value if it is there. *)
Lemma remove_spec ist e vs v :
  intset_ok ist e vs -> in_width 8 v ->
  exists ist' vs',
    intsetRemove junk ist v = Some (ist', bool_decide (v ∈ vs)) /\
    intset_ok ist' e vs' /\ (forall x, x ∈ vs' <-> x <> v /\ x ∈ vs).
Proof.
  intros Hok Hv. unfold intsetRemove.
  assert (v ∉ vs -> exists ist' vs', Some (ist, false) = Some (ist', bool_decide (v ∈ vs)) /\
    intset_ok ist' e vs' /\ (forall x, x ∈ vs' <-> x <> v /\ x ∈ vs)) as Hno.
  { intros Hn. exists ist, vs. rewrite bool_decide_eq_false_2 by done.
    split_and!; [done..|]. intros x. split; [intros Hx; split; [by intros ->|done]|by intros []]. }
  destruct (_intsetValueEncoding v <=? intrev32ifbe (encoding ist)) eqn:Henc;
    [|by eapply Hno, not_in_wider].
  destruct (search_spec _ _ _ v Hok) as (found & pos & -> & -> & Hpos). sbind.
  case_bool_decide as Hin; [|by apply Hno]. clear Hno.
  destruct (getb_split _ _ _ Hpos) as (a & c & -> & <-).
  pose proof (ok_bound _ _ _ Hok) as Hb.
  pose proof (zlen_nonneg a). pose proof (zlen_nonneg c).
  rewrite (ok_len_val _ _ _ Hok). rewrite zlen_app, zlen_cons in Hb |- *.
  replace (zlen a + (1 + zlen c) - 1) with (zlen a + zlen c) by lia.
  rewrite (u32_small (zlen a + zlen c)) by lia.
  destruct (delete_at _ _ _ _ _ Hok) as (ist' & Heq & Hok').
  apply bind_Some in Heq as (ist1 & -> & Heq). simplify_eq. sbind.
  eexists _, _. split_and!; [done|exact Hok'|]. apply sorted_delete, Hok.
Qed.

Lemma find_spec ist e vs v :
  intset_ok ist e vs -> in_width 8 v ->
  intsetFind ist v = Some (bool_decide (v ∈ vs)).
Proof.
  intros Hok Hv. unfold intsetFind. case_match eqn:Henc.
  - destruct (search_spec _ _ _ v Hok) as (found & pos & -> & -> & _). done.
  - rewrite bool_decide_eq_false_2; [done|by eapply not_in_wider].
Qed.

Lemma new_ok : intset_ok intsetNew 2 [].
Proof.
  split; [by left|done| |done|constructor|constructor|done].
  unfold intsetNew, intrev32ifbe. cbn [length_]. destruct host_be; [|done].
  unfold intrev32. rewrite memrev32_reverse by apply length_host_enc.
  unfold host_enc, host_dec. by destruct host_be.
Qed.
End Facts.

(** ** The abstract set

    What the component promises: an [intset] is a finite set of 64-bit
    integers, and every sequence of operations behaves as on that set. *)

Inductive intset_op :=
  | OpAdd (v : Z)
  | OpRemove (v : Z)
  | OpFind (v : Z).

Definition op_arg (op : intset_op) : Z :=
  match op with OpAdd v | OpRemove v | OpFind v => v end.

Definition set_step (X : gset Z) (op : intset_op) : gset Z * bool :=
  match op with
  | OpAdd v => ({[v]} ∪ X, bool_decide (v ∉ X))
  | OpRemove v => (X ∖ {[v]}, bool_decide (v ∈ X))
  | OpFind v => (X, bool_decide (v ∈ X))
  end.

Fixpoint set_run (X : gset Z) (ops : list intset_op) : gset Z * list bool :=
  match ops with
  | [] => (X, [])
  | op :: ops =>
      let '(X, b) := set_step X op in
      let '(X, bs) := set_run X ops in (X, b :: bs)
  end.

Section Refinement.
Context `{HostEndian} (junk : nat -> Z).

Definition intset_step (ist : intset) (op : intset_op) : option (intset * bool) :=
  match op with
  | OpAdd v => intsetAdd junk ist v
  | OpRemove v => intsetRemove junk ist v
  | OpFind v => b ← intsetFind ist v; Some (ist, b)
  end.

Fixpoint intset_run (ist : intset) (ops : list intset_op) : option (intset * list bool) :=
  match ops with
  | [] => Some (ist, [])
  | op :: ops =>
      r ← intset_step ist op;
      let '(ist, b) := r in
      r ← intset_run ist ops;
      let '(ist, bs) := r in Some (ist, b :: bs)
  end.

(** [ist] holds exactly the elements of [X]. *)
Definition intset_rep (ist : intset) (X : gset Z) : Prop :=
  exists e vs, intset_ok ist e vs /\ X = list_to_set vs.

Lemma rep_size ist e vs (X : gset Z) :
  intset_ok ist e vs -> X = list_to_set vs -> Z.of_nat (size X) = zlen vs.
Proof.
  intros Hok ->. unfold zlen. f_equal. apply size_list_to_set.
  pose proof (ok_sorted _ _ _ Hok) as Hs. clear Hok. induction Hs as [|v vs Hs IH Hv].
  - constructor.
  - constructor; [|exact IH]. rewrite Forall_forall in Hv.
    intros Hin. specialize (Hv _ Hin). lia.
Qed.

Lemma step_refines ist X op :
  intset_rep ist X -> in_width 8 (op_arg op) -> Z.of_nat (size X) + 1 < 2 ^ 29 ->
  exists ist', intset_step ist op = Some (ist', (set_step X op).2) /\
    intset_rep ist' (set_step X op).1.
Proof.
  intros (e & vs & Hok & ->) Hv Hb. rewrite (rep_size _ _ _ _ Hok eq_refl) in Hb.
  assert (Hin : forall v, bool_decide (v ∈ (list_to_set vs : gset Z)) = bool_decide (v ∈ vs))
    by (intros; apply bool_decide_ext, elem_of_list_to_set).
  assert (Hnin : forall v, bool_decide (v ∉ (list_to_set vs : gset Z)) = bool_decide (v ∉ vs))
    by (intros; apply bool_decide_ext; by rewrite elem_of_list_to_set).
  destruct op as [v|v|v]; simpl in *; rewrite ?Hin, ?Hnin.
  - destruct (add_spec junk _ _ _ v Hok Hv Hb) as (ist' & e' & vs' & -> & Hok' & Hel).
    exists ist'. split; [done|]. exists e', vs'. split; [done|].
    apply set_eq. intros x. rewrite elem_of_list_to_set, Hel.
    rewrite ?elem_of_union, ?elem_of_difference, elem_of_singleton, elem_of_list_to_set. tauto.
  - destruct (remove_spec junk _ _ _ v Hok Hv) as (ist' & vs' & -> & Hok' & Hel).
    exists ist'. split; [done|]. exists e, vs'. split; [done|].
    apply set_eq. intros x. rewrite elem_of_list_to_set, Hel.
    rewrite ?elem_of_union, ?elem_of_difference, elem_of_singleton, elem_of_list_to_set. tauto.
  - erewrite find_spec by done. simpl. exists ist. split; [done|]. by exists e, vs.
Qed.

Lemma set_step_size X op : (size (set_step X op).1 <= S (size X))%nat.
Proof.
  destruct op as [v|v|v]; simpl.
  - destruct (decide (v ∈ X)).
    + replace ({[v]} ∪ X) with X by set_solver. lia.
    + rewrite size_union by set_solver. rewrite size_singleton. lia.
  - assert (size (X ∖ {[v]}) <= size X)%nat by (apply subseteq_size; set_solver). lia.
  - lia.
Qed.

Lemma run_refines ops : forall ist X,
  intset_rep ist X -> Forall (fun op => in_width 8 (op_arg op)) ops ->
  Z.of_nat (size X) + zlen ops < 2 ^ 29 ->
  exists ist', intset_run ist ops = Some (ist', (set_run X ops).2) /\
    intset_rep ist' (set_run X ops).1.
Proof.
  induction ops as [|op ops IH]; intros ist X Hrep Hops Hb; [by exists ist|].
  apply Forall_cons in Hops as [Hop Hops]. rewrite zlen_cons in Hb.
  pose proof (zlen_nonneg ops). simpl.
  destruct (step_refines ist X op) as (ist1 & -> & Hrep1); [done|done|lia|]. sbind.
  pose proof (set_step_size X op).
  destruct (set_step X op) as [X1 b]. simpl in *.
  destruct (IH ist1 X1) as (ist' & -> & Hrep'); [done|done|lia|]. sbind.
  destruct (set_run X1 ops) as [X' bs]. by exists ist'.
Qed.
End Refinement.

(** ** Properties *)

(** C15 (refinement): any sequence of [intsetAdd], [intsetRemove] and
    [intsetFind] calls with 64-bit arguments, started on a new intset, stays
    inside the memory block, returns what the same operations on a finite set
    return, and ends with an intset that holds that set; whatever the byte order
    of the host and the bytes [zrealloc] leaves in the grown block. *)
Theorem intset_run_refines `{HostEndian} (junk : nat -> Z) (ops : list intset_op) :
  Forall (fun op => in_width 8 (op_arg op)) ops -> zlen ops < 2 ^ 29 ->
  exists ist, intset_run junk intsetNew ops = Some (ist, (set_run ∅ ops).2) /\
    intset_rep ist (set_run ∅ ops).1.
Proof.
  intros Hops Hb. apply run_refines; [|done|].
  - exists 2%nat, []. split; [apply new_ok|done].
  - rewrite size_empty. lia.
Qed.

Lemma intset_run_refines_witness :
  exists ist, @intset_run true (fun _ => 170) (@intsetNew true)
      [OpAdd 5; OpAdd 70000; OpAdd (-3); OpFind 70000; OpRemove 5; OpFind 5; OpAdd (2 ^ 40)]
    = Some (ist, (set_run ∅ [OpAdd 5; OpAdd 70000; OpAdd (-3); OpFind 70000; OpRemove 5;
                  OpFind 5; OpAdd (2 ^ 40)]).2) /\
    @intset_rep true ist (set_run ∅ [OpAdd 5; OpAdd 70000; OpAdd (-3); OpFind 70000;
                  OpRemove 5; OpFind 5; OpAdd (2 ^ 40)]).1.
Proof.
  apply (@intset_run_refines true).
  - repeat constructor; vm_compute; done.
  - vm_compute. done.
Defined.

(** On an intset that holds the set [X], [intsetLen] is the
    number of elements, [intsetGet] returns the elements in increasing order by
    rank and reports a position out of range, [intsetRandom] returns a member,
    and the length of the blob is the header plus the width times the number of
    elements. *)
Theorem intset_observers `{HostEndian} (ist : intset) (X : gset Z) :
  intset_rep ist X ->
  exists vs e, X = list_to_set vs /\ StronglySorted Z.lt vs /\ width_ok e /\
    intsetLen ist = zlen vs /\ zlen vs = Z.of_nat (size X) /\
    (forall pos, 0 <= pos -> intsetGet ist pos = Some (getb vs pos)) /\
    (forall rnd, vs <> [] -> exists v, intsetRandom ist rnd = Some v /\ v ∈ X) /\
    intsetBlobLen ist = 8 + zlen (contents ist) /\
    contents ist = concat (le_enc e <$> vs).
Proof.
  intros (e & vs & Hok & ->). exists vs, e.
  pose proof (ok_bound _ _ _ Hok) as Hb. pose proof (zlen_nonneg vs).
  pose proof (ok_width _ _ _ Hok) as Hw.
  assert (1 <= Z.of_nat e <= 8) by (unfold width_ok in Hw; lia).
  unfold intsetLen, intsetGet, intsetRandom, intsetBlobLen.
  rewrite (ok_len_val _ _ _ Hok), (ok_enc_val _ _ _ Hok), (ok_contents _ _ _ Hok), zlen_chunk.
  split_and!; [done|apply Hok|done|done|by erewrite rep_size| | | |done].
  - intros pos Hp. destruct (Z.ltb_spec pos (zlen vs)).
    + destruct (getb_is_Some vs pos) as [x Hx]; [lia|].
      rewrite s32_small by lia. by rewrite (ok_get _ _ _ _ _ Hok Hx), Hx.
    + unfold getb. rewrite (proj2 (Z.leb_le _ _)) by lia.
      rewrite (proj2 (lookup_ge_None _ _)) by zlia. done.
  - intros rnd Hne. destruct (Z.eqb_spec (zlen vs) 0) as [Hz|Hz].
    { by destruct vs. }
    pose proof (Z.mod_pos_bound (u32 rnd) (zlen vs)).
    destruct (getb_is_Some vs (u32 rnd mod zlen vs)) as [x Hx]; [lia|].
    exists x. rewrite s32_small, (ok_get _ _ _ _ _ Hok Hx) by lia. split; [done|].
    apply elem_of_list_to_set, elem_getb. eauto.
  - rewrite u32_small, u64_small by nia. done.
Qed.

Lemma intset_observers_witness :
  let ist := @mk_intset 4 2 [255; 255; 255; 255; 112; 17; 1; 0] in
  exists vs e, list_to_set [-1; 70000] = (list_to_set vs : gset Z) /\
    StronglySorted Z.lt vs /\ width_ok e /\
    @intsetLen false ist = zlen vs /\
    zlen vs = Z.of_nat (size (list_to_set [-1; 70000] : gset Z)) /\
    (forall pos, 0 <= pos -> @intsetGet false ist pos = Some (getb vs pos)) /\
    (forall rnd, vs <> [] -> exists v, @intsetRandom false ist rnd = Some v /\
       v ∈ (list_to_set [-1; 70000] : gset Z)) /\
    @intsetBlobLen false ist = 8 + zlen (contents ist) /\
    contents ist = concat (le_enc e <$> vs).
Proof.
  apply (@intset_observers false). exists 4%nat, [-1; 70000]. split; [|done].
  split; [by right; left|done|done|done| | |done].
  - repeat constructor; vm_compute; done.
  - repeat constructor; vm_compute; done.
Defined.
