(* ===== verification/Adlist.v ===== *)
(** * adlist.c: the generic doubly linked list

    Nodes live in a heap, a finite map from addresses to [listNode]s that
    several lists may share.  Following a NULL or dangling pointer gives [None].
    [zmalloc] never returns NULL (it aborts the server when memory is
    exhausted), so the NULL branches of the allocation calls are not
    modelled. *)

From Stdlib Require Import ZArith Lia.
From stdpp Require Import base numbers list gmap.
From S2P Require Import Prelude.

Open Scope Z_scope.

Definition loc : Type := positive.

Inductive direction := AL_START_HEAD | AL_START_TAIL.

Section Adlist.
Context {V : Type} `{EqDecision V}.

Record listNode := mk_node {
  prev : option loc;
  next : option loc;
  value : V;
}.

(** The callbacks [dup] and [match] are pure functions of the values ([dup]
    fails by returning NULL); of [free] only its presence matters, the values
    it is called on are recorded in the memory. *)
Record alist := mk_list {
  head : option loc;
  tail : option loc;
  len : Z;
  dup : option (V -> option V);
  free : bool;
  match_ : option (V -> V -> bool);
}.

Record listIter := mk_iter { iter_next : option loc; iter_dir : direction }.

Record memory := mk_mem { nodes : gmap loc listNode; freed : list V }.

Definition set_prev (h : gmap loc listNode) (p : loc) (x : option loc)
  : option (gmap loc listNode) :=
  n ← h !! p; Some (<[p := mk_node x (next n) (value n)]> h).
Definition set_next (h : gmap loc listNode) (p : loc) (x : option loc)
  : option (gmap loc listNode) :=
  n ← h !! p; Some (<[p := mk_node (prev n) x (value n)]> h).

(** [zmalloc(sizeof( *node))]: an address that is not in use. *)
Definition node_alloc (h : gmap loc listNode) : loc := fresh (dom h).

(** [list->free(value)] if the method is set, then [zfree(node)]. *)
Definition node_free (l : alist) (m : memory) (p : loc) (v : V) : memory :=
  mk_mem (delete p (nodes m)) (if free l then freed m ++ [v] else freed m).

Definition set_ends (l : alist) (hd tl : option loc) (n : Z) : alist :=
  mk_list hd tl n (dup l) (free l) (match_ l).

Definition listCreate : alist := mk_list None None 0 None false None.

(** [while(len--)] of [listRelease]. *)
Fixpoint release_loop (fuel : nat) (l : alist) (m : memory) (current : option loc)
  : option memory :=
  match fuel with
  | O => Some m
  | S fuel =>
      p ← current;
      n ← nodes m !! p;
      release_loop fuel l (node_free l m p (value n)) (next n)
  end.

Definition listRelease (l : alist) (m : memory) : option memory :=
  release_loop (Z.to_nat (len l)) l m (head l).

Definition listAddNodeHead (l : alist) (m : memory) (v : V) : option (alist * memory) :=
  let node := node_alloc (nodes m) in
  if len l =? 0 then
    Some (set_ends l (Some node) (Some node) (u64 (len l + 1)),
          mk_mem (<[node := mk_node None None v]> (nodes m)) (freed m))
  else
    let h := <[node := mk_node None (head l) v]> (nodes m) in
    hd ← head l;
    h ← set_prev h hd (Some node);
    Some (set_ends l (Some node) (tail l) (u64 (len l + 1)), mk_mem h (freed m)).

Definition listAddNodeTail (l : alist) (m : memory) (v : V) : option (alist * memory) :=
  let node := node_alloc (nodes m) in
  if len l =? 0 then
    Some (set_ends l (Some node) (Some node) (u64 (len l + 1)),
          mk_mem (<[node := mk_node None None v]> (nodes m)) (freed m))
  else
    let h := <[node := mk_node (tail l) None v]> (nodes m) in
    tl ← tail l;
    h ← set_next h tl (Some node);
    Some (set_ends l (head l) (Some node) (u64 (len l + 1)), mk_mem h (freed m)).

Definition listInsertNode (l : alist) (m : memory) (old_node : loc) (v : V)
    (after : bool) : option (alist * memory) :=
  let node := node_alloc (nodes m) in
  old ← nodes m !! old_node;
  let n := if after then mk_node (Some old_node) (next old) v
           else mk_node (prev old) (Some old_node) v in
  let tl := if after && bool_decide (tail l = Some old_node) then Some node else tail l in
  let hd := if negb after && bool_decide (head l = Some old_node)
            then Some node else head l in
  let h := <[node := n]> (nodes m) in
  h ← match prev n with Some p => set_next h p (Some node) | None => Some h end;
  h ← match next n with Some q => set_prev h q (Some node) | None => Some h end;
  Some (set_ends l hd tl (u64 (len l + 1)), mk_mem h (freed m)).

Definition listDelNode (l : alist) (m : memory) (node : loc) : option (alist * memory) :=
  n ← nodes m !! node;
  r ← match prev n with
      | Some p => h ← set_next (nodes m) p (next n); Some (h, head l)
      | None => Some (nodes m, next n)
      end;
  let '(h, hd) := (r : gmap loc listNode * option loc) in
  n ← h !! node;
  r ← match next n with
      | Some q => h ← set_prev h q (prev n); Some (h, tail l)
      | None => Some (h, prev n)
      end;
  let '(h, tl) := (r : gmap loc listNode * option loc) in
  n ← h !! node;
  Some (set_ends l hd tl (u64 (len l - 1)),
        node_free l (mk_mem h (freed m)) node (value n)).

Definition listGetIterator (l : alist) (d : direction) : listIter :=
  match d with
  | AL_START_HEAD => mk_iter (head l) d
  | AL_START_TAIL => mk_iter (tail l) d
  end.
Definition listRewind (l : alist) : listIter := mk_iter (head l) AL_START_HEAD.
Definition listRewindTail (l : alist) : listIter := mk_iter (tail l) AL_START_TAIL.

(** The returned node (NULL at the end) and the advanced iterator. *)
Definition listNext (m : memory) (it : listIter) : option (option loc * listIter) :=
  match iter_next it with
  | None => Some (None, it)
  | Some p =>
      n ← nodes m !! p;
      Some (Some p, mk_iter (match iter_dir it with
                             | AL_START_HEAD => next n
                             | AL_START_TAIL => prev n
                             end) (iter_dir it))
  end.

(** [while((node = listNext(iter)) != NULL)] of [listDup]; one unit of fuel
    per node.  [None] of the inner option is the NULL result. *)
Fixpoint dup_loop (fuel : nat) (m : memory) (it : listIter) (copy : alist)
  : option (option alist * memory) :=
  match fuel with
  | O => None
  | S fuel =>
      r ← listNext m it;
      match r : option loc * listIter with
      | (None, _) => Some (Some copy, m)
      | (Some p, it) =>
          n ← nodes m !! p;
          match match dup copy with Some f => f (value n) | None => Some (value n) end with
          | None => m ← listRelease copy m; Some (None, m)
          | Some v =>
              r ← listAddNodeTail copy m v;
              let '(copy, m) := (r : alist * memory) in
              dup_loop fuel m it copy
          end
      end
  end.

Definition listDup (orig : alist) (m : memory) : option (option alist * memory) :=
  let copy := mk_list None None 0 (dup orig) (free orig) (match_ orig) in
  dup_loop (S (Z.to_nat (len orig))) m (listGetIterator orig AL_START_HEAD) copy.

Fixpoint search_key_loop (fuel : nat) (m : memory) (l : alist) (it : listIter) (key : V)
  : option (option loc) :=
  match fuel with
  | O => None
  | S fuel =>
      r ← listNext m it;
      match r : option loc * listIter with
      | (None, _) => Some None
      | (Some p, it) =>
          n ← nodes m !! p;
          if match match_ l with
             | Some f => f (value n) key
             | None => bool_decide (key = value n)
             end
          then Some (Some p) else search_key_loop fuel m l it key
      end
  end.

Definition listSearchKey (l : alist) (m : memory) (key : V) : option (option loc) :=
  search_key_loop (S (Z.to_nat (len l))) m l (listGetIterator l AL_START_HEAD) key.

(** [while(index-- && n) n = n->next;] *)
Fixpoint index_loop (index : nat) (m : memory) (d : direction) (n : option loc)
  : option (option loc) :=
  match index, n with
  | S index, Some p =>
      x ← nodes m !! p;
      index_loop index m d (match d with
                            | AL_START_HEAD => next x
                            | AL_START_TAIL => prev x
                            end)
  | _, _ => Some n
  end.

Definition listIndex (l : alist) (m : memory) (index : Z) : option (option loc) :=
  if index <? 0
  then index_loop (Z.to_nat (- index - 1)) m AL_START_TAIL (tail l)
  else index_loop (Z.to_nat index) m AL_START_HEAD (head l).

Definition listRotate (l : alist) (m : memory) : option (alist * memory) :=
  if len l <=? 1 then Some (l, m)
  else
    t ← tail l;
    tn ← nodes m !! t;
    new_tail ← prev tn;
    h ← set_next (nodes m) new_tail None;
    hd ← head l;
    h ← set_prev h hd (Some t);
    h ← set_prev h t None;
    h ← set_next h t (Some hd);
    Some (set_ends l (Some t) (Some new_tail) (len l), mk_mem h (freed m)).
End Adlist.

Arguments listNode : clear implicits.
Arguments alist : clear implicits.
Arguments memory : clear implicits.

(** ** Segments of doubly linked nodes *)

Section Segments.
Context {V : Type}.
Implicit Types (h : gmap loc (listNode V)) (ps : list (loc * V)).

(** Address of the first and of the last node, with a default. *)
Definition first_of ps (nx : option loc) : option loc :=
  match ps with [] => nx | (p, _) :: _ => Some p end.
Definition last_of (pv : option loc) ps : option loc :=
  match last ps with None => pv | Some (p, _) => Some p end.

(** The nodes [ps], in this order, between the neighbours [pv] and [nx]. *)
Fixpoint seg h (pv : option loc) ps (nx : option loc) : Prop :=
  match ps with
  | [] => True
  | (p, v) :: ps =>
      h !! p = Some (mk_node pv (first_of ps nx) v) /\ seg h (Some p) ps nx
  end.

Lemma first_of_app ps qs nx : first_of (ps ++ qs) nx = first_of ps (first_of qs nx).
Proof. by destruct ps as [|[]]. Qed.
Lemma last_of_snoc pv ps p v : last_of pv (ps ++ [(p, v)]) = Some p.
Proof. unfold last_of. by rewrite last_snoc. Qed.
Lemma last_of_cons pv p v ps : last_of pv ((p, v) :: ps) = last_of (Some p) ps.
Proof.
  unfold last_of. destruct ps as [|[q w] ps] using rev_ind; [done|].
  by rewrite app_comm_cons, !last_snoc.
Qed.
Lemma last_of_app pv ps qs : last_of pv (ps ++ qs) = last_of (last_of pv ps) qs.
Proof.
  destruct qs as [|[q w] qs] using rev_ind; [by rewrite app_nil_r|].
  by rewrite app_assoc, !last_of_snoc.
Qed.

Lemma seg_app h pv ps qs nx :
  seg h pv (ps ++ qs) nx <->
  seg h pv ps (first_of qs nx) /\ seg h (last_of pv ps) qs nx.
Proof.
  revert pv. induction ps as [|[p v] ps IH]; intros pv; simpl; [tauto|].
  rewrite IH, first_of_app, last_of_cons. tauto.
Qed.

Lemma seg_insert h pv ps nx p n :
  p ∉ ps.*1 -> seg h pv ps nx -> seg (<[p := n]> h) pv ps nx.
Proof.
  revert pv. induction ps as [|[q v] ps IH]; intros pv Hp; simpl; [done|].
  apply not_elem_of_cons in Hp as [Hne Hp]. intros [Hq Hs].
  rewrite lookup_insert_ne by done. by split; [|apply IH].
Qed.

Lemma seg_delete h pv ps nx p :
  p ∉ ps.*1 -> seg h pv ps nx -> seg (delete p h) pv ps nx.
Proof.
  revert pv. induction ps as [|[q v] ps IH]; intros pv Hp; simpl; [done|].
  apply not_elem_of_cons in Hp as [Hne Hp]. intros [Hq Hs].
  rewrite lookup_delete_ne by done. by split; [|apply IH].
Qed.

Lemma seg_lookup h pv ps nx p v qs :
  seg h pv (ps ++ (p, v) :: qs) nx ->
  h !! p = Some (mk_node (last_of pv ps) (first_of qs nx) v).
Proof. rewrite seg_app. simpl. tauto. Qed.

Lemma seg_in_dom h pv ps nx p : seg h pv ps nx -> p ∈ ps.*1 -> is_Some (h !! p).
Proof.
  intros Hs ([q v] & -> & Hin)%list_elem_of_fmap.
  apply list_elem_of_split in Hin as (a & b & ->).
  apply seg_lookup in Hs. simpl. eauto.
Qed.

(** Redirecting the last node's [next], or the first node's [prev]. *)
Lemma seg_relink_next h pv ps nx nx' p v h' :
  NoDup (ps ++ [(p, v)]).*1 -> seg h pv (ps ++ [(p, v)]) nx ->
  set_next h p nx' = Some h' ->
  h' = <[p := mk_node (last_of pv ps) nx' v]> h /\ seg h' pv (ps ++ [(p, v)]) nx'.
Proof.
  rewrite fmap_app, NoDup_app. intros (_ & Hnd & _) Hs Hset.
  unfold set_next in Hset. rewrite (seg_lookup _ _ _ _ _ _ _ Hs) in Hset.
  simplify_eq/=. split; [done|]. apply seg_app in Hs as [Hs _].
  apply seg_app. simpl. rewrite lookup_insert_eq. split_and!; [|done|done].
  apply seg_insert; [|done]. intros Hp. apply (Hnd _ Hp). by apply list_elem_of_singleton.
Qed.

Lemma seg_relink_prev h pv pv' ps nx p v h' :
  NoDup ((p, v) :: ps).*1 -> seg h pv ((p, v) :: ps) nx ->
  set_prev h p pv' = Some h' ->
  h' = <[p := mk_node pv' (first_of ps nx) v]> h /\ seg h' pv' ((p, v) :: ps) nx.
Proof.
  rewrite fmap_cons, NoDup_cons. intros [Hnin _] [Hp Hs] Hset.
  unfold set_prev in Hset. rewrite Hp in Hset. simplify_eq/=.
  rewrite lookup_insert_eq. split_and!; [done|done|]. by apply seg_insert.
Qed.
End Segments.

(** ** Lists in memory *)

Section Lists.
Context {V : Type}.
Implicit Types (h : gmap loc (listNode V)) (ps : list (loc * V)) (m : memory V).

(** [l] is the doubly linked list of the addresses and values [ps]. *)
Record dll m (l : alist V) ps : Prop := {
  dll_seg : seg (nodes m) None ps None;
  dll_head : head l = first_of ps None;
  dll_tail : tail l = last_of None ps;
  dll_len : len l = zlen ps;
  dll_nodup : NoDup ps.*1;
  dll_bound : zlen ps < 2 ^ 64;
}.

(** Same callbacks. *)
Definition same_methods (l l' : alist V) : Prop :=
  dup l' = dup l /\ free l' = free l /\ match_ l' = match_ l.

(** The nodes outside of [X] are untouched. *)
Definition frame (X : list loc) m m' : Prop :=
  forall q, q ∉ X -> nodes m' !! q = nodes m !! q.

Definition link h (p : loc) (n : listNode V) : option (gmap loc (listNode V)) :=
  h ← match prev n with
      | Some o => set_next (<[p := n]> h) o (Some p)
      | None => Some (<[p := n]> h)
      end;
  match next n with Some q => set_prev h q (Some p) | None => Some h end.

Definition unlink h (pv nx : option loc) : option (gmap loc (listNode V)) :=
  h ← match pv with Some o => set_next h o nx | None => Some h end;
  match nx with Some q => set_prev h q pv | None => Some h end.

(** Redirecting the neighbours of a gap: what is common to insertion and
    removal.  [pn]/[nn] are the new neighbours seen from either side. *)
Lemma relink_spec h a b pn nn nxa pvb :
  NoDup (a ++ b).*1 ->
  seg h None a nxa -> seg h pvb b None ->
  exists h',
    (h1 ← match last_of None a with Some o => set_next h o nn | None => Some h end;
     match first_of b None with Some q => set_prev h1 q pn | None => Some h1 end) = Some h' /\
    seg h' None a nn /\ seg h' pn b None /\
    (forall q, q ∉ (a ++ b).*1 -> h' !! q = h !! q).
Proof.
  intros Hnd Ha Hb. rewrite fmap_app in Hnd. apply NoDup_app in Hnd as (Hnda & Hdis & Hndb).
  assert (exists h1, match last_of None a with Some o => set_next h o nn | None => Some h end
      = Some h1 /\ seg h1 None a nn /\ seg h1 pvb b None /\
      forall q, q ∉ a.*1 -> h1 !! q = h !! q) as (h1 & -> & Ha1 & Hb1 & Hf1).
  { destruct a as [|[o w] a _] using rev_ind; [by exists h|]. rewrite last_of_snoc.
    assert (is_Some (set_next h o nn)) as [h1 Hh1].
    { unfold set_next. rewrite (seg_lookup _ _ _ _ _ _ _ Ha). by eexists. }
    destruct (seg_relink_next _ _ _ _ _ _ _ _ Hnda Ha Hh1) as [-> Hs].
    exists (<[o:=mk_node (last_of None a) nn w]> h). split_and!; [done|done| |].
    - apply seg_insert; [|done]. apply Hdis. rewrite fmap_app. set_solver.
    - intros q Hq. rewrite lookup_insert_ne; [done|]. rewrite fmap_app in Hq. set_solver. }
  sbind. destruct b as [|[q w] b]; simpl first_of.
  { exists h1. split_and!; [done..|]. intros q Hq. apply Hf1. by rewrite app_nil_r in Hq. }
  assert (is_Some (set_prev h1 q pn)) as [h2 Hh2].
  { unfold set_prev. destruct Hb1 as [-> _]. by eexists. }
  destruct (seg_relink_prev _ _ _ _ _ _ _ _ Hndb Hb1 Hh2) as [-> Hs].
  eexists. split_and!; [done| |done|].
  - apply seg_insert; [|done]. intros Hin. apply (Hdis _ Hin). by left.
  - intros q' Hq'. rewrite fmap_app in Hq'. rewrite lookup_insert_ne by set_solver.
    apply Hf1. set_solver.
Qed.

Lemma link_spec h a b p v :
  NoDup (a ++ b).*1 -> p ∉ (a ++ b).*1 -> seg h None (a ++ b) None ->
  exists h', link h p (mk_node (last_of None a) (first_of b None) v) = Some h' /\
    seg h' None (a ++ (p, v) :: b) None /\
    (forall q, q ∉ p :: (a ++ b).*1 -> h' !! q = h !! q).
Proof.
  intros Hnd Hp Hs. apply seg_app in Hs as [Ha Hb].
  rewrite fmap_app in Hp. apply not_elem_of_app in Hp as [Hpa Hpb].
  set (n := mk_node (last_of None a) (first_of b None) v).
  destruct (relink_spec (<[p:=n]> h) a b (Some p) (Some p) (first_of b None) (last_of None a))
    as (h' & Heq & Ha' & Hb' & Hf); [done|by apply seg_insert..|].
  exists h'. split_and!; [exact Heq| |].
  - apply seg_app. simpl. split_and!; [done| |done].
    rewrite Hf by (rewrite fmap_app; set_solver). by rewrite lookup_insert_eq.
  - intros q Hq. rewrite Hf by set_solver. rewrite lookup_insert_ne by set_solver. done.
Qed.

Lemma unlink_spec h a b p v :
  NoDup (a ++ (p, v) :: b).*1 -> seg h None (a ++ (p, v) :: b) None ->
  exists h', unlink h (last_of None a) (first_of b None) = Some h' /\
    h' !! p = Some (mk_node (last_of None a) (first_of b None) v) /\
    seg (delete p h') None (a ++ b) None /\
    (forall q, q ∉ (a ++ (p, v) :: b).*1 -> h' !! q = h !! q).
Proof.
  intros Hnd Hs. pose proof (seg_lookup _ _ _ _ _ _ _ Hs) as Hp.
  apply seg_app in Hs as [Ha [_ Hb]].
  assert (NoDup (p :: (a ++ b).*1)) as [Hpn Hnd']%NoDup_cons.
  { rewrite fmap_app in *. simpl in Hnd. by rewrite Permutation_middle. }
  rewrite fmap_app in Hpn. apply not_elem_of_app in Hpn as [Hpa Hpb].
  destruct (relink_spec h a b (last_of None a) (first_of b None) _ _ Hnd' Ha Hb)
    as (h' & Heq & Ha' & Hb' & Hf).
  exists h'. split_and!; [exact Heq| | |].
  - rewrite Hf; [done|]. rewrite fmap_app. set_solver.
  - apply seg_app. split; by apply seg_delete.
  - intros q Hq. apply Hf. rewrite !fmap_app in *. simpl in Hq. set_solver.
Qed.

Lemma fresh_node h ps : seg h None ps None -> node_alloc h ∉ ps.*1.
Proof.
  intros Hs Hin. destruct (seg_in_dom _ _ _ _ _ Hs Hin) as [n Hn].
  apply elem_of_dom_2 in Hn. by eapply is_fresh in Hn.
Qed.

(** The list with [(p, v)] put between [a] and [b]. *)
Lemma dll_inserted m h' l a b p v :
  dll m l (a ++ b) -> zlen (a ++ b) + 1 < 2 ^ 64 -> p ∉ (a ++ b).*1 ->
  seg h' None (a ++ (p, v) :: b) None ->
  dll (mk_mem h' (freed m))
    (set_ends l (first_of a (Some p)) (last_of (Some p) b) (u64 (len l + 1)))
    (a ++ (p, v) :: b).
Proof.
  intros [] Hb Hp Hs. pose proof (zlen_nonneg (a ++ b)).
  assert (zlen (a ++ (p, v) :: b) = zlen (a ++ b) + 1) as Hl by zlia.
  split; cbn [nodes head tail len set_ends]; [done| | | | |lia].
  - by rewrite first_of_app.
  - by rewrite last_of_app, last_of_cons.
  - rewrite dll_len0, u64_small by lia. lia.
  - rewrite fmap_app in *. simpl. rewrite <- Permutation_middle. by constructor.
Qed.

Lemma first_of_none ps : first_of ps None = None -> ps = [].
Proof. by destruct ps as [|[]]. Qed.

Lemma len_zero m l ps : dll m l ps -> (len l =? 0) = bool_decide (ps = []).
Proof.
  intros []. rewrite dll_len0. case_bool_decide; subst; [done|].
  destruct ps; [done|]. rewrite zlen_cons. pose proof (zlen_nonneg ps).
  apply Z.eqb_neq. lia.
Qed.

Lemma add_head_spec m l ps v :
  dll m l ps -> zlen ps + 1 < 2 ^ 64 ->
  exists l' m' p, listAddNodeHead l m v = Some (l', m') /\
    dll m' l' ((p, v) :: ps) /\ nodes m !! p = None /\ same_methods l l' /\
    freed m' = freed m /\ frame (p :: ps.*1) m m'.
Proof.
  intros Hl Hb. set (p := node_alloc (nodes m)).
  pose proof (fresh_node _ _ (dll_seg _ _ _ Hl)) as Hp.
  destruct (link_spec (nodes m) [] ps p v) as (h' & Hlink & Hs & Hf);
    [apply Hl|done|apply Hl|].
  exists (set_ends l (Some p) (last_of (Some p) ps) (u64 (len l + 1))), (mk_mem h' (freed m)), p.
  split_and!; [|by apply (dll_inserted m h' l [] ps)|apply not_elem_of_dom, is_fresh|done|done|done].
  unfold listAddNodeHead. rewrite (len_zero _ _ _ Hl). fold p.
  case_bool_decide as He; [subst ps|].
  - unfold link in Hlink. simpl in Hlink. by simplify_eq/=.
  - rewrite (dll_head _ _ _ Hl), (dll_tail _ _ _ Hl).
    destruct ps as [|[q w] ps]; [done|]. unfold link in Hlink.
    change (last_of None []) with (@None loc) in Hlink. simpl in *.
    rewrite Hlink. simpl. by rewrite !last_of_cons.
Qed.

Lemma add_tail_spec m l ps v :
  dll m l ps -> zlen ps + 1 < 2 ^ 64 ->
  exists l' m' p, listAddNodeTail l m v = Some (l', m') /\
    dll m' l' (ps ++ [(p, v)]) /\ nodes m !! p = None /\ same_methods l l' /\
    freed m' = freed m /\ frame (p :: ps.*1) m m'.
Proof.
  intros Hl Hb. set (p := node_alloc (nodes m)).
  pose proof (fresh_node _ _ (dll_seg _ _ _ Hl)) as Hp.
  rewrite <- (app_nil_r ps) in Hl, Hp.
  destruct (link_spec (nodes m) ps [] p v) as (h' & Hlink & Hs & Hf);
    [apply Hl|done|apply Hl|].
  exists (set_ends l (first_of ps (Some p)) (Some p) (u64 (len l + 1))), (mk_mem h' (freed m)), p.
  split_and!; [|apply (dll_inserted m h' l ps []); [done|by rewrite app_nil_r|done|done]
    |apply not_elem_of_dom, is_fresh|done|done|by rewrite app_nil_r in Hf].
  rewrite app_nil_r in Hl. unfold listAddNodeTail. rewrite (len_zero _ _ _ Hl). fold p.
  case_bool_decide as He; [subst ps|].
  - unfold link in Hlink. simpl in Hlink. by simplify_eq/=.
  - rewrite (dll_head _ _ _ Hl), (dll_tail _ _ _ Hl).
    destruct ps as [|[q w] ps _] using rev_ind; [done|].
    rewrite last_of_snoc, !first_of_app in *. unfold link in Hlink.
    cbn [prev next first_of] in Hlink. apply bind_Some in Hlink as (h1 & Hh1 & [= ->]).
    sbind. rewrite Hh1. sbind. by destruct ps as [|[]].
Qed.

Lemma insert_node_spec m l a o w b v after :
  dll m l (a ++ (o, w) :: b) -> zlen (a ++ (o, w) :: b) + 1 < 2 ^ 64 ->
  exists l' m' p, listInsertNode l m o v after = Some (l', m') /\
    dll m' l' (if after : bool then a ++ (o, w) :: (p, v) :: b
               else a ++ (p, v) :: (o, w) :: b) /\
    nodes m !! p = None /\ same_methods l l' /\
    freed m' = freed m /\ frame (p :: (a ++ (o, w) :: b).*1) m m'.
Proof.
  intros Hl Hb. set (p := node_alloc (nodes m)).
  pose proof (fresh_node _ _ (dll_seg _ _ _ Hl)) as Hp. fold p in Hp.
  pose proof (seg_lookup _ _ _ _ _ _ _ (dll_seg _ _ _ Hl)) as Ho.
  pose proof (dll_nodup _ _ _ Hl) as Hnd.
  unfold listInsertNode. rewrite Ho. sbind. fold p. cbn [prev next].
  rewrite (dll_head _ _ _ Hl), (dll_tail _ _ _ Hl), last_of_app, last_of_cons, first_of_app.
  assert (Hdis : (o ∉ a.*1) /\ (o ∉ b.*1)).
  { rewrite fmap_app in Hnd. apply NoDup_app in Hnd as (_ & Hd & Hnd).
    apply NoDup_cons in Hnd as [Hob _]. split; [|done].
    intros Hoa. apply (Hd _ Hoa). by left. }
  destruct after.
  - replace (a ++ (o, w) :: b) with ((a ++ [(o, w)]) ++ b) in * by (by rewrite <- app_assoc).
    destruct (link_spec (nodes m) (a ++ [(o, w)]) b p v) as (h' & Hlink & Hs & Hf);
      [apply Hl|done|apply Hl|].
    rewrite last_of_snoc in Hlink. unfold link in Hlink. cbn [prev next] in Hlink |- *.
    apply bind_Some in Hlink as (h1 & -> & Hlink). sbind. rewrite Hlink. sbind.
    eexists _, _, p. split_and!; [done| |apply not_elem_of_dom, is_fresh|done|done|done].
    pose proof (dll_inserted m h' l _ b p v Hl Hb Hp Hs) as Hd.
    rewrite <- app_assoc in Hd. simpl in Hd. rewrite first_of_app in Hd. simpl in Hd.
    replace (if true && bool_decide (last_of (Some o) b = Some o) then Some p
             else last_of (Some o) b) with (last_of (Some p) b); [by simpl|].
    destruct b as [|[q x] b _] using rev_ind; [by rewrite bool_decide_eq_true_2|].
    rewrite !last_of_snoc, bool_decide_eq_false_2; [done|]. intros [= ->].
    apply (proj2 Hdis). rewrite fmap_app. set_solver.
  - destruct (link_spec (nodes m) a ((o, w) :: b) p v) as (h' & Hlink & Hs & Hf);
      [apply Hl|done|apply Hl|].
    unfold link in Hlink. cbn [prev next first_of] in Hlink |- *.
    apply bind_Some in Hlink as (h1 & -> & Hlink). sbind. rewrite Hlink. sbind.
    eexists _, _, p. split_and!; [done| |apply not_elem_of_dom, is_fresh|done|done|done].
    pose proof (dll_inserted m h' l a _ p v Hl Hb Hp Hs) as Hd.
    rewrite last_of_cons in Hd.
    replace (if negb false && bool_decide (first_of a (Some o) = Some o) then Some p
             else first_of a (Some o)) with (first_of a (Some p)); [by simpl|].
    destruct a as [|[q x] a]; simpl; [by rewrite bool_decide_eq_true_2|].
    rewrite bool_decide_eq_false_2; [done|]. intros [= ->].
    apply (proj1 Hdis). simpl. set_solver.
Qed.

Lemma del_node_spec m l a p v b :
  dll m l (a ++ (p, v) :: b) ->
  exists l' m', listDelNode l m p = Some (l', m') /\
    dll m' l' (a ++ b) /\ same_methods l l' /\
    freed m' = (if free l then freed m ++ [v] else freed m) /\
    nodes m' !! p = None /\ frame (a ++ (p, v) :: b).*1 m m'.
Proof.
  intros Hl. pose proof (dll_nodup _ _ _ Hl) as Hnd.
  pose proof (seg_lookup _ _ _ _ _ _ _ (dll_seg _ _ _ Hl)) as Hp.
  destruct (unlink_spec _ _ _ _ _ Hnd (dll_seg _ _ _ Hl)) as (h' & Hun & Hp' & Hs & Hf).
  assert ((p ∉ a.*1) /\ (p ∉ b.*1)) as [Hpa Hpb].
  { rewrite fmap_app in Hnd. apply NoDup_app in Hnd as (_ & Hd & Hnd).
    apply NoDup_cons in Hnd as [Hob _]. split; [|done].
    intros Hoa. apply (Hd _ Hoa). by left. }
  exists (set_ends l (first_of (a ++ b) None) (last_of None (a ++ b)) (u64 (len l - 1))),
    (node_free l (mk_mem h' (freed m)) p v).
  split_and!.
  - unfold listDelNode, unlink in *. rewrite Hp. sbind. cbn [prev next].
    rewrite (dll_head _ _ _ Hl), (dll_tail _ _ _ Hl), !last_of_app, last_of_cons, !first_of_app.
    assert (Hpv : forall h1 q x, set_next (nodes m) q x = Some h1 -> q <> p ->
      h1 !! p = nodes m !! p).
    { intros h1 q x Hset Hq. apply bind_Some in Hset as (n & _ & [= <-]).
      by rewrite lookup_insert_ne. }
    destruct a as [|[o w] a _] using rev_ind; [|rewrite last_of_snoc in *].
    + change (last_of None []) with (@None loc) in *. sbind. rewrite Hp. sbind. cbn [next prev].
      apply bind_Some in Hun as (h1 & [= ->] & Hun).
      destruct b as [|[q x] b]; cbn [first_of] in *; [simplify_eq|rewrite Hun];
        sbind; rewrite Hp'; by rewrite ?last_of_cons.
    + apply bind_Some in Hun as (h1 & Hh1 & Hun). rewrite Hh1. sbind.
      rewrite (Hpv _ _ _ Hh1), Hp by (rewrite fmap_app in Hpa; set_solver).
      sbind. cbn [next prev]. rewrite first_of_app.
      destruct b as [|[q x] b]; cbn [first_of] in *; [simplify_eq|rewrite Hun];
        sbind; rewrite Hp'; rewrite ?last_of_cons; by destruct a as [|[]].
  - pose proof (dll_bound _ _ _ Hl) as Hb. pose proof (zlen_nonneg (a ++ b)).
    assert (zlen (a ++ (p, v) :: b) = zlen (a ++ b) + 1) as Hlen by zlia.
    split; cbn [nodes head tail len set_ends node_free]; [done..| | |lia].
    + rewrite (dll_len _ _ _ Hl), u64_small by lia. lia.
    + rewrite fmap_app in *. simpl in Hnd. rewrite <- Permutation_middle in Hnd.
      by apply NoDup_cons in Hnd as [].
  - done.
  - unfold node_free. simpl. by case_match.
  - simpl. apply lookup_delete_eq.
  - intros q Hq. simpl. rewrite lookup_delete_ne; [by apply Hf|].
    intros ->. apply Hq. rewrite fmap_app. set_solver.
Qed.

(** ** Walking the list *)

(** An iterator at position [ps] of the list [a ++ ps] (from the head) or of
    [ps ++ b] (from the tail). *)
Lemma next_head m a p v b nx :
  seg (nodes m) None (a ++ (p, v) :: b) nx ->
  listNext m (mk_iter (Some p) AL_START_HEAD)
  = Some (Some p, mk_iter (first_of b nx) AL_START_HEAD).
Proof. intros Hs. unfold listNext. simpl. by rewrite (seg_lookup _ _ _ _ _ _ _ Hs). Qed.

Lemma next_tail m a p v b nx :
  seg (nodes m) None (a ++ (p, v) :: b) nx ->
  listNext m (mk_iter (Some p) AL_START_TAIL)
  = Some (Some p, mk_iter (last_of None a) AL_START_TAIL).
Proof. intros Hs. unfold listNext. simpl. by rewrite (seg_lookup _ _ _ _ _ _ _ Hs). Qed.

(** Calling [listNext] until it returns NULL. *)
Fixpoint collect (fuel : nat) m (it : listIter) : option (list loc) :=
  match fuel with
  | O => None
  | S fuel =>
      r ← listNext m it;
      match r : option loc * listIter with
      | (None, _) => Some []
      | (Some p, it) => ps ← collect fuel m it; Some (p :: ps)
      end
  end.

Lemma collect_S fuel m it :
  collect (S fuel) m it
  = (r ← listNext m it;
     match r : option loc * listIter with
     | (None, _) => Some []
     | (Some p, it) => ps ← collect fuel m it; Some (p :: ps)
     end).
Proof. done. Qed.

Lemma dup_loop_S fuel m it copy :
  dup_loop (S fuel) m it copy
  = (r ← listNext m it;
     match r : option loc * listIter with
     | (None, _) => Some (Some copy, m)
     | (Some p, it) =>
         n ← nodes m !! p;
         match match dup copy with Some f => f (value n) | None => Some (value n) end with
         | None => m ← listRelease copy m; Some (None, m)
         | Some v =>
             r ← listAddNodeTail copy m v;
             let '(copy, m) := (r : alist V * memory V) in
             dup_loop fuel m it copy
         end
     end).
Proof. done. Qed.

Lemma collect_head m b : forall a,
  seg (nodes m) None (a ++ b) None ->
  collect (S (length b)) m (mk_iter (first_of b None) AL_START_HEAD) = Some b.*1.
Proof.
  induction b as [|[p v] b IH]; intros a Hs; [done|].
  rewrite collect_S. cbn [length first_of]. rewrite (next_head _ _ _ _ _ _ Hs). sbind.
  rewrite (IH (a ++ [(p, v)])); [done|]. by rewrite <- app_assoc.
Qed.

Lemma collect_tail m a : forall b,
  seg (nodes m) None (a ++ b) None ->
  collect (S (length a)) m (mk_iter (last_of None a) AL_START_TAIL) = Some (reverse a.*1).
Proof.
  induction a as [|[p v] a IH] using rev_ind; intros b Hs; [done|].
  rewrite <- app_assoc in Hs. rewrite length_app, Nat.add_1_r, last_of_snoc.
  rewrite collect_S, (next_tail _ _ _ _ _ _ Hs). sbind.
  rewrite (IH ((p, v) :: b)) by done. sbind. by rewrite fmap_app, reverse_app.
Qed.

Lemma search_key_loop_S `{EqDecision V} fuel m l it key :
  search_key_loop (S fuel) m l it key
  = (r ← listNext m it;
     match r : option loc * listIter with
     | (None, _) => Some None
     | (Some p, it) =>
         n ← nodes m !! p;
         if match match_ l with
            | Some f => f (value n) key
            | None => bool_decide (key = value n)
            end
         then Some (Some p) else search_key_loop fuel m l it key
     end).
Proof. done. Qed.

Lemma search_key_loop_spec `{EqDecision V} m l key ps : forall a,
  seg (nodes m) None (a ++ ps) None ->
  search_key_loop (S (length ps)) m l (mk_iter (first_of ps None) AL_START_HEAD) key
  = Some (fst <$> find (fun pv => match match_ l with
                                  | Some f => f pv.2 key
                                  | None => bool_decide (key = pv.2)
                                  end) ps).
Proof.
  induction ps as [|[p v] ps IH]; intros a Hs; [done|].
  rewrite search_key_loop_S. cbn [length first_of].
  rewrite (next_head _ _ _ _ _ _ Hs). sbind. rewrite (seg_lookup _ _ _ _ _ _ _ Hs). sbind. cbn [value find].
  destruct (match_ l); simpl snd;
    match goal with |- (if ?c then _ else _) = _ => destruct c end; try done;
    rewrite (IH (a ++ [(p, v)])) by (by rewrite <- app_assoc); done.
Qed.

Lemma index_loop_head m i b : forall a,
  seg (nodes m) None (a ++ b) None ->
  index_loop i m AL_START_HEAD (first_of b None) = Some (first_of (drop i b) None).
Proof.
  revert b. induction i as [|i IH]; intros b a Hs; [by destruct b as [|[]]|].
  destruct b as [|[p v] b]; [done|]. cbn [index_loop first_of drop].
  rewrite (seg_lookup _ _ _ _ _ _ _ Hs). sbind. cbn [next].
  apply (IH _ (a ++ [(p, v)])). by rewrite <- app_assoc.
Qed.

Lemma index_loop_tail m i a : forall b,
  seg (nodes m) None (a ++ b) None ->
  index_loop i m AL_START_TAIL (last_of None a)
  = Some (last_of None (take (length a - i) a)).
Proof.
  revert a. induction i as [|i IH]; intros a b Hs.
  { rewrite Nat.sub_0_r, firstn_all. destruct a as [|[p v] a _] using rev_ind; [done|].
    by rewrite last_of_snoc. }
  destruct a as [|[p v] a _] using rev_ind; [done|].
  rewrite <- app_assoc in Hs. rewrite last_of_snoc. cbn [index_loop].
  rewrite (seg_lookup _ _ _ _ _ _ _ Hs). sbind. cbn [prev].
  rewrite (IH _ _ Hs), length_app, take_app_le by (simpl; lia).
  simpl. by replace (length a + 1 - S i)%nat with (length a - i)%nat by lia.
Qed.


Lemma seg_frame h h' pv ps nx :
  (forall q, q ∈ ps.*1 -> h' !! q = h !! q) -> seg h pv ps nx -> seg h' pv ps nx.
Proof.
  revert pv. induction ps as [|[p v] ps IH]; intros pv Hf; [done|].
  intros [Hp Hs]. split.
  - rewrite Hf; [done|]. by left.
  - apply IH; [|done]. intros q Hq. apply Hf. by right.
Qed.

Lemma dll_frame m m' l ps X :
  dll m l ps -> frame X m m' -> (forall q, q ∈ ps.*1 -> q ∉ X) -> dll m' l ps.
Proof.
  intros [] Hf Hd. split; try done.
  eapply seg_frame; [|done]. intros q Hq. by apply Hf, Hd.
Qed.

(** ** Rotation, release, duplication *)

Lemma set_prev_Some h p n x :
  h !! p = Some n -> set_prev h p x = Some (<[p := mk_node x (next n) (value n)]> h).
Proof. intros Hn. unfold set_prev. by rewrite Hn. Qed.
Lemma set_next_Some h p n x :
  h !! p = Some n -> set_next h p x = Some (<[p := mk_node (prev n) x (value n)]> h).
Proof. intros Hn. unfold set_next. by rewrite Hn. Qed.

(** Moving the last node [t] in front of the others. *)
Lemma rotate_links h (a : list (loc * V)) t v n x p0 w a' a'' :
  NoDup a.*1 -> t ∉ a.*1 -> a = (p0, w) :: a' -> a = a'' ++ [(n, x)] ->
  seg h None (a ++ [(t, v)]) None ->
  exists h',
    (h ← set_next h n None; h ← set_prev h p0 (Some t);
     h ← set_prev h t None; set_next h t (Some p0)) = Some h' /\
    seg h' None ((t, v) :: a) None /\
    forall q, q ∉ (a ++ [(t, v)]).*1 -> h' !! q = h !! q.
Proof.
  intros Hnd Hta Ea Ea' Hs. apply seg_app in Hs as [Ha [Htn _]]. simpl in Ha.
  assert (p0 ∈ a.*1 /\ n ∈ a.*1) as [Hp0 Hn]
    by (split; [rewrite Ea|rewrite Ea', fmap_app]; set_solver).
  destruct (set_next h n None) as [h1|] eqn:Hh1.
  2:{ unfold set_next in Hh1. rewrite Ea' in Ha.
      by rewrite (seg_lookup _ _ _ _ _ _ _ Ha) in Hh1. }
  assert (seg h1 None a None /\ h1 !! t = h !! t /\ forall q, q ∉ a.*1 -> h1 !! q = h !! q)
    as (Ha1 & Ht1 & Hf1).
  { rewrite Ea' in Hnd, Ha.
    destruct (seg_relink_next _ _ _ _ _ _ _ _ Hnd Ha Hh1) as [-> Hs]. rewrite <- Ea' in Hs.
    split_and!; [done|rewrite lookup_insert_ne by (intros ->; done); done|].
    intros q Hq. by rewrite lookup_insert_ne by (intros ->; done). }
  sbind. rewrite Ea in Ha1, Hnd.
  rewrite (set_prev_Some h1 p0 _ _ (proj1 Ha1)). sbind.
  destruct (seg_relink_prev _ _ _ _ _ _ _ _ Hnd Ha1
    (set_prev_Some h1 p0 _ (Some t) (proj1 Ha1))) as [_ Ha2].
  cbn [next value] in *.
  set (h2 := <[p0:=mk_node (Some t) (first_of a' None) w]> h1) in *.
  assert (h2 !! t = Some (mk_node (last_of None a) None v)) as Ht2.
  { subst h2. rewrite lookup_insert_ne by (intros ->; done). by rewrite Ht1. }
  rewrite (set_prev_Some _ _ _ _ Ht2). sbind. cbn [next value].
  erewrite set_next_Some by apply lookup_insert_eq. cbn [prev value].
  rewrite insert_insert_eq. eexists. split_and!; [done| |].
  - rewrite Ea. simpl. rewrite lookup_insert_eq. split; [done|].
    apply (seg_insert _ _ ((p0, w) :: a')); [by rewrite Ea in Hta|done].
  - intros q Hq. rewrite fmap_app in Hq. apply not_elem_of_app in Hq as [Hqa Hqt].
    rewrite lookup_insert_ne by (intros ->; apply Hqt; by left). subst h2.
    rewrite lookup_insert_ne by (intros ->; done). by apply Hf1.
Qed.

Lemma rotate_spec m l ps :
  dll m l ps ->
  exists l' m', listRotate l m = Some (l', m') /\
    dll m' l' (match last ps with Some t => t :: removelast ps | None => [] end) /\
    same_methods l l' /\ freed m' = freed m /\ frame (ps.*1) m m'.
Proof.
  intros Hl. unfold listRotate. rewrite (dll_len _ _ _ Hl).
  destruct ps as [|[t v] a _] using rev_ind; [by exists l, m|].
  rewrite last_snoc, removelast_last.
  destruct (Z.leb_spec (zlen (a ++ [(t, v)])) 1) as [Hle|Hgt].
  { assert (length a = 0%nat) as ->%nil_length_inv by zlia. by exists l, m. }
  destruct Hl as [Hs Hh Ht Hn Hnd Hb].
  assert (Hnd' := Hnd). rewrite fmap_app in Hnd'. apply NoDup_app in Hnd' as (Hnda & Hd & _).
  assert (t ∉ a.*1) as Hta by (intros Hin; apply (Hd _ Hin); by left).
  destruct a as [|[p0 w] a'] eqn:Ea; [unfold zlen in Hgt; simpl in Hgt; lia|].
  destruct (exists_last (l := (p0, w) :: a')) as (a'' & [n x] & Ea'); [done|].
  destruct (rotate_links (nodes m) ((p0, w) :: a') t v n x p0 w a' a'')
    as (h' & Heq & Hs' & Hf); [done..|].
  rewrite Ht, last_of_snoc. sbind. rewrite (seg_lookup _ _ _ _ _ _ _ Hs). sbind. cbn [prev].
  rewrite Ea', last_of_snoc, <- Ea'. sbind. rewrite Hh, first_of_app. cbn [first_of].
  apply bind_Some in Heq as (h1 & -> & Heq). sbind.
  apply bind_Some in Heq as (h2 & -> & Heq). sbind.
  apply bind_Some in Heq as (h3 & -> & Heq). sbind. rewrite Heq. sbind.
  eexists _, _. split_and!; [done| |done..|done].
  split; cbn [nodes head tail len set_ends]; [done|done| | | |].
  - rewrite last_of_cons, Ea'. by rewrite last_of_snoc.
  - zlia.
  - rewrite fmap_cons. apply NoDup_cons. done.
  - zlia.
Qed.

Lemma release_loop_spec l ps : forall m pv,
  NoDup ps.*1 -> seg (nodes m) pv ps None ->
  exists m', release_loop (length ps) l m (first_of ps None) = Some m' /\
    freed m' = freed m ++ (if free l then ps.*2 else []) /\
    (forall q, nodes m' !! q = if decide (q ∈ ps.*1) then None else nodes m !! q).
Proof.
  induction ps as [|[p v] ps IH]; intros m pv Hnd Hs.
  { exists m. simpl. split_and!; [done|by destruct (free l); rewrite app_nil_r|done]. }
  destruct Hs as [Hp Hs]. cbn [length release_loop first_of]. sbind. rewrite Hp. sbind.
  cbn [value next]. rewrite fmap_cons in Hnd. apply NoDup_cons in Hnd as [Hpn Hnd].
  destruct (IH (node_free l m p v) (Some p)) as (m' & -> & Hfr & Hno);
    [done|by apply seg_delete|].
  exists m'. split_and!; [done| |].
  - rewrite Hfr. unfold node_free. simpl. destruct (free l); [|done].
    by rewrite <- app_assoc.
  - intros q. rewrite Hno. simpl. destruct (decide (q = p)) as [->|Hne].
    + rewrite lookup_delete_eq. repeat case_decide; set_solver.
    + rewrite lookup_delete_ne by done. repeat case_decide; set_solver.
Qed.

Lemma release_spec m l ps :
  dll m l ps ->
  exists m', listRelease l m = Some m' /\
    freed m' = freed m ++ (if free l then ps.*2 else []) /\
    (forall q, nodes m' !! q = if decide (q ∈ ps.*1) then None else nodes m !! q).
Proof.
  intros []. unfold listRelease. rewrite dll_len0, dll_head0. unfold zlen.
  rewrite Nat2Z.id. by eapply release_loop_spec.
Qed.

(** The copy loop at the nodes [b] of the original. *)
Lemma dup_loop_spec l ps b : forall a m copy qs,
  a ++ b = ps -> dll m l ps -> dll m copy qs -> zlen ps + 1 < 2 ^ 64 ->
  zlen qs = zlen a -> (forall q, q ∈ ps.*1 -> q ∉ qs.*1) ->
  match mapM (match dup copy with Some f => f | None => Some end) b.*2 with
  | Some ws => exists copy' m' new,
      dup_loop (S (length b)) m (mk_iter (first_of b None) AL_START_HEAD) copy
      = Some (Some copy', m') /\
      dll m' copy' (qs ++ new) /\ new.*2 = ws /\ same_methods copy copy' /\
      freed m' = freed m /\
      (forall q, q ∉ (qs ++ new).*1 -> nodes m' !! q = nodes m !! q) /\
      (forall q, q ∈ new.*1 -> nodes m !! q = None)
  | None => exists m',
      dup_loop (S (length b)) m (mk_iter (first_of b None) AL_START_HEAD) copy
      = Some (None, m') /\
      (forall q, nodes m' !! q = if decide (q ∈ qs.*1) then None else nodes m !! q)
  end.
Proof.
  induction b as [|[p v] b IH]; intros a m copy qs Heq Hl Hc Hb Hlen Hdis.
  { simpl. exists copy, m, []. rewrite app_nil_r. split_and!; try done.
    intros q Hq. by apply not_elem_of_nil in Hq. }
  pose proof (dll_seg _ _ _ Hl) as Hs. rewrite <- Heq in Hs.
  rewrite dup_loop_S. cbn [length first_of]. rewrite (next_head _ _ _ _ _ _ Hs). sbind.
  rewrite (seg_lookup _ _ _ _ _ _ _ Hs). sbind. rewrite fmap_cons. cbn [value mapM snd].
  set (f := match dup copy with Some f => f | None => Some end).
  replace (match dup copy with Some f => f v | None => Some v end) with (f v)
    by (subst f; by destruct (dup copy)).
  destruct (f v) as [w|] eqn:Hf; sbind.
  2:{ destruct (release_spec _ _ _ Hc) as (m' & -> & _ & Hn). sbind. by exists m'. }
  assert (zlen qs + 1 < 2 ^ 64) as Hb'.
  { rewrite Hlen. rewrite <- Heq in Hb. rewrite zlen_app, zlen_cons in Hb.
    pose proof (zlen_nonneg b). lia. }
  destruct (add_tail_spec m copy qs w Hc Hb')
    as (copy1 & m1 & q1 & -> & Hc1 & Hq1 & Hsm & Hfr & Hframe). sbind.
  assert (forall q, q ∉ qs.*1 -> q <> q1 -> nodes m1 !! q = nodes m !! q) as Hm1.
  { intros q Hq Hne. apply Hframe. by apply not_elem_of_cons. }
  assert (Hsnoc : forall q, q ∈ (qs ++ [(q1, w)]).*1 <-> q ∈ qs.*1 \/ q = q1)
    by (intros q; rewrite fmap_app, elem_of_app; cbn; by rewrite list_elem_of_singleton).
  assert (forall q, q ∈ ps.*1 -> q ∉ (qs ++ [(q1, w)]).*1) as Hdis1.
  { intros q Hq [Hin| ->]%Hsnoc; [by eapply Hdis|].
    destruct (seg_in_dom _ _ _ _ _ (dll_seg _ _ _ Hl) Hq). congruence. }
  assert (dll m1 l ps) as Hl1.
  { eapply dll_frame; [done|done|]. intros q Hq Hin. apply (Hdis1 _ Hq), Hsnoc.
    apply elem_of_cons in Hin. tauto. }
  specialize (IH (a ++ [(p, v)]) m1 copy1 (qs ++ [(q1, w)])).
  rewrite (proj1 Hsm : dup copy1 = dup copy) in IH. fold f in IH.
  revert IH. destruct (mapM f b.*2) as [ws|]; intros IH; sbind.
  - destruct IH as (copy' & m' & new & -> & Hc' & Hqs & Hsm' & Hfr' & Hf1 & Hf2);
      [by rewrite <- app_assoc|done..|zlia|done|].
    exists copy', m', ((q1, w) :: new). rewrite <- app_assoc in Hc', Hf1.
    split_and!; [done|done|by rewrite fmap_cons, Hqs| |congruence| |].
    + destruct Hsm as (? & ? & ?), Hsm' as (? & ? & ?). split_and!; congruence.
    + intros q Hq. rewrite Hf1 by done. apply Hm1.
      * intros Hin. apply Hq. rewrite fmap_app, elem_of_app. by left.
      * intros ->. apply Hq. rewrite fmap_app, elem_of_app. right. by left.
    + intros q [->|Hq]%elem_of_cons; [done|]. rewrite <- (Hf2 q Hq).
      pose proof (dll_nodup _ _ _ Hc') as Hnd. rewrite fmap_app in Hnd.
      apply NoDup_app in Hnd as (_ & Hd & [Hn1 _]%NoDup_cons).
      symmetry. apply Hm1; [|by intros ->].
      intros Hin. apply (Hd _ Hin). by right.
  - destruct IH as (m' & -> & Hn); [by rewrite <- app_assoc|done..|zlia|done|].
    exists m'. split; [done|]. intros q. rewrite Hn. destruct (decide (q = q1)) as [->|Hne].
    + rewrite decide_True by (apply Hsnoc; tauto). by case_decide.
    + destruct (decide (q ∈ qs.*1)) as [Hin|Hin].
      * by rewrite decide_True by (apply Hsnoc; tauto).
      * rewrite decide_False by (intros [|]%Hsnoc; tauto). by apply Hm1.
Qed.

Lemma dup_spec m l ps :
  dll m l ps -> zlen ps + 1 < 2 ^ 64 ->
  match mapM (match dup l with Some f => f | None => Some end) ps.*2 with
  | Some ws => exists copy m' qs,
      listDup l m = Some (Some copy, m') /\
      dll m' copy qs /\ qs.*2 = ws /\ same_methods l copy /\ dll m' l ps /\
      freed m' = freed m /\ frame (qs.*1) m m' /\
      (forall q, q ∈ qs.*1 -> nodes m !! q = None)
  | None => exists m', listDup l m = Some (None, m') /\ nodes m' = nodes m
  end.
Proof.
  intros Hl Hb. set (copy := mk_list None None 0 (dup l) (free l) (match_ l)).
  assert (dll m copy []) as Hc by (split; [done..|constructor|done]).
  pose proof (dup_loop_spec l ps ps [] m copy [] eq_refl Hl Hc Hb eq_refl) as H.
  unfold listDup, listGetIterator. fold copy.
  rewrite (dll_len _ _ _ Hl), (dll_head _ _ _ Hl). unfold zlen. rewrite Nat2Z.id.
  cbn [dup copy] in H.
  specialize (H (fun q _ => not_elem_of_nil q)).
  destruct (mapM _ ps.*2) as [ws|].
  - destruct H as (copy' & m' & new & -> & Hc' & Hws & Hsm & Hfr & Hf & Hnew).
    exists copy', m', new. split_and!; try done.
    eapply dll_frame; [done|exact Hf|]. intros q Hq Hin.
    destruct (seg_in_dom _ _ _ _ _ (dll_seg _ _ _ Hl) Hq) as [? Hd].
    rewrite Hnew in Hd by done. done.
  - destruct H as (m' & -> & Hn). exists m'. split; [done|].
    apply map_eq. intros q. rewrite Hn. rewrite decide_False; [done|]. apply not_elem_of_nil.
Qed.
End Lists.

(** ** The abstract list

    What the component promises: each mutator acts on the sequence of nodes as
    the corresponding operation on sequences, and no other list of the heap is
    affected. *)

Inductive list_op (V : Type) :=
  | AddHead (v : V)
  | AddTail (v : V)
  | Insert (old : loc) (v : V) (after : bool)
  | Del (node : loc)
  | Rotate.
Arguments AddHead {V}. Arguments AddTail {V}. Arguments Insert {V}.
Arguments Del {V}. Arguments Rotate {V}.

Inductive seq_step {V : Type} : list (loc * V) -> list_op V -> list (loc * V) -> Prop :=
  | seq_head ps p v : seq_step ps (AddHead v) ((p, v) :: ps)
  | seq_tail ps p v : seq_step ps (AddTail v) (ps ++ [(p, v)])
  | seq_after a o w b p v :
      seq_step (a ++ (o, w) :: b) (Insert o v true) (a ++ (o, w) :: (p, v) :: b)
  | seq_before a o w b p v :
      seq_step (a ++ (o, w) :: b) (Insert o v false) (a ++ (p, v) :: (o, w) :: b)
  | seq_del a p v b : seq_step (a ++ (p, v) :: b) (Del p) (a ++ b)
  | seq_rotate a t : seq_step (a ++ [t]) Rotate (t :: a)
  | seq_rotate_nil : seq_step [] Rotate [].

(** The node argument belongs to the list. *)
Definition op_enabled {V} (ps : list (loc * V)) (op : list_op V) : Prop :=
  match op with
  | Insert p _ _ | Del p => p ∈ ps.*1
  | _ => True
  end.

Section Steps.
Context {V : Type}.

Definition list_step (m : memory V) (l : alist V) (op : list_op V)
  : option (alist V * memory V) :=
  match op with
  | AddHead v => listAddNodeHead l m v
  | AddTail v => listAddNodeTail l m v
  | Insert p v after => listInsertNode l m p v after
  | Del p => listDelNode l m p
  | Rotate => listRotate l m
  end.

(** Lists that share no node with [ps] survive. *)
Definition others_kept (m m' : memory V) (ps : list (loc * V)) : Prop :=
  forall l2 ps2, dll m l2 ps2 -> (forall q, q ∈ ps2.*1 -> q ∉ ps.*1) -> dll m' l2 ps2.

Lemma frame_others m m' (ps : list (loc * V)) p :
  nodes m !! p = None -> frame (p :: ps.*1) m m' -> others_kept m m' ps.
Proof.
  intros Hp Hf l2 ps2 H2 Hd. eapply dll_frame; [done|done|].
  intros q Hq [->|Hin]%elem_of_cons; [|by eapply Hd].
  destruct (seg_in_dom _ _ _ _ _ (dll_seg _ _ _ H2) Hq). congruence.
Qed.

Lemma frame_others_same m m' (ps : list (loc * V)) :
  frame (ps.*1) m m' -> others_kept m m' ps.
Proof. intros Hf l2 ps2 H2 Hd. by eapply dll_frame. Qed.

Lemma elem_of_locs (ps : list (loc * V)) p :
  p ∈ ps.*1 -> exists a v b, ps = a ++ (p, v) :: b.
Proof.
  intros ([q v] & -> & Hin)%list_elem_of_fmap.
  apply list_elem_of_split in Hin as (a & b & ->). by exists a, v, b.
Qed.

(** C20 (refinement): on a well-formed doubly linked list every mutator
    ([listAddNodeHead], [listAddNodeTail], [listInsertNode], [listDelNode],
    [listRotate]) runs without following a NULL or dangling pointer, changes
    the sequence of nodes as specified by [seq_step], leaves a well-formed list
    with the same callbacks, and does not affect any other list of the heap. *)
Theorem adlist_step_refines (m : memory V) (l : alist V) ps op :
  dll m l ps -> op_enabled ps op -> zlen ps + 1 < 2 ^ 64 ->
  exists l' m' ps', list_step m l op = Some (l', m') /\
    seq_step ps op ps' /\ dll m' l' ps' /\ same_methods l l' /\
    others_kept m m' ps.
Proof.
  intros Hl Hen Hb. destruct op as [v|v|o v after|p|]; simpl in *.
  - destruct (add_head_spec m l ps v) as (l' & m' & p & -> & ? & ? & ? & ? & ?); [done..|].
    eexists _, _, _. split_and!; [done|constructor|done|done|by eapply frame_others].
  - destruct (add_tail_spec m l ps v) as (l' & m' & p & -> & ? & ? & ? & ? & ?); [done..|].
    eexists _, _, _. split_and!; [done|constructor|done|done|by eapply frame_others].
  - destruct (elem_of_locs _ _ Hen) as (a & w & b & ->).
    destruct (insert_node_spec m l a o w b v after)
      as (l' & m' & p & -> & ? & ? & ? & ? & ?); [done..|].
    destruct after; eexists _, _, _;
      (split_and!; [done|constructor|done|done|by eapply frame_others]).
  - destruct (elem_of_locs _ _ Hen) as (a & w & b & ->).
    destruct (del_node_spec m l a p w b) as (l' & m' & -> & ? & ? & ? & ? & ?); [done..|].
    eexists _, _, _. split_and!; [done|constructor|done|done|by apply frame_others_same].
  - destruct (rotate_spec m l ps) as (l' & m' & -> & ? & ? & ? & ?); [done..|].
    eexists _, _, _. split_and!; [done| |done|done|by apply frame_others_same].
    destruct ps as [|t a _] using rev_ind; [constructor|].
    rewrite last_snoc, removelast_last. constructor.
Qed.

(** On a well-formed list, iterating with [listNext] from
    [listRewind] (or [listRewindTail]) until NULL visits every node once, in
    order (or in reverse order); [listSearchKey] returns the first node that
    matches; [listIndex] counts from the head for an index >= 0 and from the
    tail for a negative one, and returns NULL out of range. *)
Theorem adlist_traversal `{EqDecision V} (m : memory V) (l : alist V) ps :
  dll m l ps ->
  collect (S (length ps)) m (listRewind l) = Some ps.*1 /\
  collect (S (length ps)) m (listRewindTail l) = Some (reverse ps.*1) /\
  (forall key, listSearchKey l m key
    = Some (fst <$> find (fun pv => match match_ l with
                                    | Some f => f pv.2 key
                                    | None => bool_decide (key = pv.2)
                                    end) ps)) /\
  (forall i, listIndex l m i
    = Some (fst <$> (if i <? 0 then getb ps (zlen ps + i) else getb ps i))).
Proof.
  intros [Hs Hh Ht Hn Hnd Hb]. unfold listRewind, listRewindTail. rewrite Hh, Ht.
  split_and!.
  - by apply (collect_head m ps []).
  - apply (collect_tail m ps []). by rewrite app_nil_r.
  - intros key. unfold listSearchKey, listGetIterator. rewrite Hn, Hh.
    unfold zlen. rewrite Nat2Z.id. by apply (search_key_loop_spec m l key ps []).
  - intros i. unfold listIndex. rewrite Hh, Ht. destruct (Z.ltb_spec i 0).
    + rewrite (index_loop_tail m _ ps []) by (by rewrite app_nil_r). f_equal.
      unfold getb. destruct (Z.leb_spec 0 (zlen ps + i)).
      * replace (length ps - Z.to_nat (- i - 1))%nat with (S (Z.to_nat (zlen ps + i))) by zlia.
        destruct (lookup_lt_is_Some_2 ps (Z.to_nat (zlen ps + i))) as [[p v] Hp]; [zlia|].
        by rewrite (take_S_r _ _ _ Hp), last_of_snoc, Hp.
      * replace (length ps - Z.to_nat (- i - 1))%nat with 0%nat by zlia. done.
    + rewrite (index_loop_head m _ ps []) by done. f_equal.
      unfold getb. rewrite (proj2 (Z.leb_le _ _)) by lia.
      rewrite <- (Nat.add_0_r (Z.to_nat i)) at 2. rewrite <- lookup_drop.
      by destruct (drop _ ps) as [|[]].
Qed.

(** [listDup] builds a list of new nodes with the duplicated
    values in the same order and leaves the original alone; when a [dup] call
    fails it returns NULL and the heap is as before, nothing leaks.
    [listRelease] frees the nodes of the list and no other, and calls the
    [free] method once on every value, in order. *)
Theorem adlist_dup_release (m : memory V) (l : alist V) ps :
  dll m l ps -> zlen ps + 1 < 2 ^ 64 ->
  match mapM (match dup l with Some f => f | None => Some end) ps.*2 with
  | Some ws => exists copy m' qs,
      listDup l m = Some (Some copy, m') /\
      dll m' copy qs /\ qs.*2 = ws /\ same_methods l copy /\ dll m' l ps /\
      freed m' = freed m /\ frame (qs.*1) m m' /\
      (forall q, q ∈ qs.*1 -> nodes m !! q = None)
  | None => exists m', listDup l m = Some (None, m') /\ nodes m' = nodes m
  end /\
  exists m', listRelease l m = Some m' /\
    freed m' = freed m ++ (if free l then ps.*2 else []) /\
    (forall q, nodes m' !! q = if decide (q ∈ ps.*1) then None else nodes m !! q).
Proof. intros Hl Hb. split; [by apply dup_spec|by apply release_spec]. Qed.
End Steps.

(** A two-element list, as [listCreate] and [listAddNodeTail] build it. *)
Definition sample_mem : memory Z :=
  mk_mem {[ 1%positive := mk_node None (Some 2%positive) 10;
            2%positive := mk_node (Some 1%positive) None 20 ]} [].
Definition sample_list : alist Z :=
  mk_list (Some 1%positive) (Some 2%positive) 2
    (Some (fun v => if v =? 20 then None else Some v)) true None.
Definition sample_seq : list (loc * Z) := [(1%positive, 10); (2%positive, 20)].

Lemma sample_dll : dll sample_mem sample_list sample_seq.
Proof.
  split; [vm_compute; by repeat split|done|done|done|vm_compute|vm_compute; done].
  repeat constructor; by apply (bool_decide_unpack _).
Qed.

Lemma adlist_step_refines_witness :
  exists l' m' ps', list_step sample_mem sample_list (Del 1%positive) = Some (l', m') /\
    seq_step sample_seq (Del 1%positive) ps' /\ dll m' l' ps' /\
    same_methods sample_list l' /\ others_kept sample_mem m' sample_seq.
Proof.
  apply adlist_step_refines; [apply sample_dll|simpl; left|vm_compute; done].
Defined.

Lemma adlist_traversal_witness :
  collect 3 sample_mem (listRewind sample_list) = Some [1%positive; 2%positive] /\
  listIndex sample_list sample_mem (-1) = Some (Some 2%positive) /\
  listSearchKey sample_list sample_mem 20 = Some (Some 2%positive).
Proof.
  destruct (adlist_traversal sample_mem sample_list sample_seq sample_dll)
    as (H1 & _ & H2 & H3).
  split; [exact H1|split; [exact (H3 (-1))|exact (H2 20)]].
Defined.

Lemma adlist_dup_release_witness :
  (exists m', listDup sample_list sample_mem = Some (None, m') /\
     nodes m' = nodes sample_mem) /\
  exists m', listRelease sample_list sample_mem = Some m' /\ freed m' = [10; 20].
Proof.
  destruct (adlist_dup_release sample_mem sample_list sample_seq) as [H1 (m' & H2 & H3 & _)];
    [apply sample_dll|vm_compute; done|].
  split; [exact H1|]. exists m'. split; [exact H2|exact H3].
Defined.
