(* ===== verification/Util.v ===== *)
(** * util.c: numbers in decimal

    Strings are lists of bytes.  A read outside of a buffer gives [None]. *)

From Stdlib Require Import ZArith Lia String.
From stdpp Require Import base numbers list.
From S2P Require Import Prelude.

Open Scope Z_scope.

(** ** digits10, ll2string *)

(** One unit of fuel per nested call; a 64-bit value needs two. *)
Fixpoint digits10_rec (fuel : nat) (v : Z) : option Z :=
  match fuel with
  | O => None
  | S fuel =>
      if v <? 10 then Some 1
      else if v <? 100 then Some 2
      else if v <? 1000 then Some 3
      else if v <? 1000000000000 then
        if v <? 100000000 then
          if v <? 1000000 then
            if v <? 10000 then Some 4
            else Some (5 + Z.b2z (v >=? 100000))
          else Some (7 + Z.b2z (v >=? 10000000))
        else if v <? 10000000000 then Some (9 + Z.b2z (v >=? 1000000000))
        else Some (11 + Z.b2z (v >=? 100000000000))
      else
        n ← digits10_rec fuel (v / 1000000000000);
        Some (12 + n)
  end.

Definition digits10 (v : Z) : option Z := digits10_rec 2 v.

(** The static table of the two-digit numbers. *)
Definition digits : list Z := bytes_of_string
  ("0001020304050607080910111213141516171819" ++
   "2021222324252627282930313233343536373839" ++
   "4041424344454647484950515253545556575859" ++
   "6061626364656667686970717273747576777879" ++
   "8081828384858687888990919293949596979899")%string.

(** [while (value >= 100)]; returns [dst], [next] and [value]. *)
Fixpoint ll2string_loop (fuel : nat) (dst : list Z) (next value : Z)
  : option (list Z * Z * Z) :=
  if value >=? 100 then
    match fuel with
    | O => None
    | S fuel =>
        let i := (value mod 100) * 2 in
        let value := value / 100 in
        d1 ← getb digits (i + 1);
        dst ← setb dst next d1;
        d0 ← getb digits i;
        dst ← setb dst (u32 (next - 1)) d0;
        ll2string_loop fuel dst (u32 (next - 2)) value
    end
  else Some (dst, next, value).

(** Returns the number of characters and the buffer. *)
Definition ll2string (dst : list Z) (dstlen svalue : Z) : option (Z * list Z) :=
  let negative := if svalue <? 0 then 1 else 0 in
  let value :=
    if svalue <? 0 then
      if negb (svalue =? LLONG_MIN) then u64 (- svalue) else u64 (LLONG_MAX + 1)
    else svalue in
  n ← digits10 value;
  let length := u32 (n + negative) in
  if length >=? dstlen then Some (0, dst)
  else
    dst ← setb dst length 0;
    r ← ll2string_loop 20 dst (u32 (length - 1)) value;
    let '(dst, next, value) := r in
    dst ← (if value <? 10 then setb dst next (48 + value)
           else
             let i := value * 2 in
             d1 ← getb digits (i + 1);
             dst ← setb dst next d1;
             d0 ← getb digits i;
             setb dst (u32 (next - 1)) d0);
    dst ← (if svalue <? 0 then setb dst 0 45 else Some dst);
    Some (length, dst).

(** ** string2ll *)

(** The loop over the digits that follow the first one; [p] is what is left of
    the string.  [None] is the overflow return. *)
Fixpoint string2ll_loop (p : list Z) (v : Z) : option (list Z * Z) :=
  match p with
  | [] => Some ([], v)
  | c :: p' =>
      if (48 <=? c) && (c <=? 57) then
        if v >? ULLONG_MAX / 10 then None
        else
          let v := u64 (v * 10) in
          if v >? ULLONG_MAX - (c - 48) then None
          else string2ll_loop p' (u64 (v + (c - 48)))
      else Some (p, v)
  end.

(** [None] when the function returns 0, the parsed value otherwise. *)
Definition string2ll (s : list Z) : option Z :=
  if zlen s =? 0 then None
  else if (zlen s =? 1) && bool_decide (getb s 0 = Some 48) then Some 0
  else
    let negative := bool_decide (getb s 0 = Some 45) in
    let p := if negative then drop 1 s else s in
    match p with
    | [] => None
    | c :: p =>
        if (49 <=? c) && (c <=? 57) then
          r ← string2ll_loop p (c - 48);
          let '(rest, v) := r in
          if zlen rest >? 0 then None
          else if negative then
            if v >? u64 (- (LLONG_MIN + 1)) + 1 then None else Some (s64 (u64 (- v)))
          else if v >? LLONG_MAX then None else Some (s64 v)
        else if (c =? 48) && (zlen s =? 1) then Some 0
        else None
    end.

Definition LONG_MIN : Z := LLONG_MIN.
Definition LONG_MAX : Z := LLONG_MAX.

Definition string2l (s : list Z) : option Z :=
  llval ← string2ll s;
  if (llval <? LONG_MIN) || (llval >? LONG_MAX) then None else Some llval.

(** ** memtoll *)

(** [strtoll(s, &endptr, 10)] of the standard library: the value, clamped on
    overflow, and what is left of [s]; the whole of [s] when there are no digits
    ([EINVAL] is only about the base). *)
Definition isspace (c : Z) : bool := (c =? 32) || ((9 <=? c) && (c <=? 13)).

Fixpoint span (f : Z -> bool) (s : list Z) : list Z * list Z :=
  match s with
  | [] => ([], [])
  | c :: t => if f c then let '(a, b) := span f t in (c :: a, b) else ([], s)
  end.

Definition clamp_ll (v : Z) : Z := Z.max LLONG_MIN (Z.min LLONG_MAX v).

(** The unbounded value and the rest; the value is then clamped. *)
Definition strtoll_raw (s : list Z) : Z * list Z :=
  let '(_, t) := span isspace s in
  let '(neg, t) :=
    match t with
    | c :: t' => if c =? 45 then (true, t') else if c =? 43 then (false, t') else (false, t)
    | [] => (false, t)
    end in
  let '(ds, rest) := span isdigit t in
  match ds with
  | [] => (0, s)
  | _ => let v := foldl (fun v c => v * 10 + (c - 48)) 0 ds in
         (if neg : bool then - v else v, rest)
  end.

Definition strtoll (s : list Z) : Z * list Z :=
  let '(v, rest) := strtoll_raw s in (clamp_ll v, rest).

Definition strcasecmp_eq (a b : list Z) : bool :=
  bool_decide (tolower <$> a = tolower <$> b).

(** The multiplier of a unit. *)
Definition memtoll_unit (u : list Z) : option Z :=
  if bool_decide (u = []) || strcasecmp_eq u (bytes_of_string "b") then Some 1
  else if strcasecmp_eq u (bytes_of_string "k") then Some 1000
  else if strcasecmp_eq u (bytes_of_string "kb") then Some 1024
  else if strcasecmp_eq u (bytes_of_string "m") then Some (1000 * 1000)
  else if strcasecmp_eq u (bytes_of_string "mb") then Some (1024 * 1024)
  else if strcasecmp_eq u (bytes_of_string "g") then Some (1000 * 1000 * 1000)
  else if strcasecmp_eq u (bytes_of_string "gb") then Some (1024 * 1024 * 1024)
  else None.

(** The value and [*err]; [None] when the product overflows, which is
    undefined.  [p] is the string without its terminator. *)
Definition memtoll (p : list Z) : option (Z * Z) :=
  let '(sign, q) :=
    match p with
    | c :: q => if c =? 45 then ([c], q) else ([], p)
    | [] => ([], p)
    end in
  let '(ds, u) := span isdigit q in
  match memtoll_unit u with
  | None => Some (0, 1)
  | Some mul =>
      let buf := sign ++ ds in
      if zlen buf >=? 128 then Some (0, 1)
      else
        let '(val, endptr) := strtoll buf in
        if negb (bool_decide (endptr = [])) then Some (0, 1)
        else
          let r := val * mul in
          if (LLONG_MIN <=? r) && (r <=? LLONG_MAX) then Some (r, 0) else None
  end.

(** ** Reference: the decimal numeral of a number *)

(** The [n] low decimal digits of [v]. *)
Fixpoint dec_n (n : nat) (v : Z) : list Z :=
  match n with
  | O => []
  | S n => dec_n n (v / 10) ++ [48 + v mod 10]
  end.

Fixpoint ndigits_rec (fuel : nat) (v : Z) : nat :=
  match fuel with
  | O => 1
  | S fuel => if v <? 10 then 1 else S (ndigits_rec fuel (v / 10))
  end.
Definition ndigits (v : Z) : nat := ndigits_rec (Z.to_nat (Z.log2 v)) v.

(** No leading zeros; a minus sign in front of negative numbers. *)
Definition decimal (v : Z) : list Z := dec_n (ndigits v) v.
Definition ll_repr (v : Z) : list Z := if v <? 0 then 45 :: decimal (- v) else decimal v.

Definition in_ll (v : Z) : Prop := LLONG_MIN <= v <= LLONG_MAX.

(** [v >= 0] has [n] digits. *)
Definition has_digits (n : nat) (v : Z) : Prop :=
  (1 <= n)%nat /\ 0 <= v < 10 ^ Z.of_nat n /\ (n = 1%nat \/ 10 ^ (Z.of_nat n - 1) <= v).

Lemma has_digits_unique n k v : has_digits n v -> has_digits k v -> n = k.
Proof.
  assert (forall n k v, has_digits n v -> has_digits k v -> (n <= k)%nat) as Hle.
  { clear. intros n k v (Hn1 & Hn & Hn') (Hk1 & Hk & Hk').
    destruct (decide (n <= k)%nat) as [|Hgt]; [done|exfalso].
    destruct Hn' as [->|Hn']; [lia|].
    assert (10 ^ Z.of_nat k <= 10 ^ (Z.of_nat n - 1)) by (apply Z.pow_le_mono_r; lia). lia. }
  intros Hn Hk. pose proof (Hle _ _ _ Hn Hk). pose proof (Hle _ _ _ Hk Hn). lia.
Qed.

Lemma has_digits_div10 n v : has_digits n (v / 10) -> 10 <= v -> has_digits (S n) v.
Proof.
  intros (H1 & H2 & H3) Hv. split_and!; [lia|lia| |].
  - replace (Z.of_nat (S n)) with (1 + Z.of_nat n) by lia.
    rewrite Z.pow_add_r, Z.pow_1_r by lia. dlia.
  - right. replace (Z.of_nat (S n) - 1) with (Z.of_nat n) by lia.
    destruct H3 as [->|H3]; [lia|].
    replace (Z.of_nat n) with (1 + (Z.of_nat n - 1)) by lia.
    rewrite Z.pow_add_r, Z.pow_1_r by lia. dlia.
Qed.

Lemma ndigits_rec_spec fuel v :
  0 <= v < 10 * 2 ^ Z.of_nat fuel -> has_digits (ndigits_rec fuel v) v.
Proof.
  revert v. induction fuel as [|fuel IH]; intros v Hv; simpl.
  { change (2 ^ Z.of_nat 0) with 1 in Hv. split_and!; [lia|lia|simpl; lia|by left]. }
  destruct (Z.ltb_spec v 10).
  { split_and!; [lia|lia|simpl; lia|by left]. }
  apply has_digits_div10; [|done]. apply IH.
  replace (Z.of_nat (S fuel)) with (1 + Z.of_nat fuel) in Hv by lia.
  rewrite Z.pow_add_r, Z.pow_1_r in Hv by lia. dlia.
Qed.

Lemma ndigits_spec v : 0 <= v -> has_digits (ndigits v) v.
Proof.
  intros Hv. apply ndigits_rec_spec. split; [done|].
  destruct (decide (v = 0)) as [->|]; [by simpl|].
  pose proof (Z.log2_spec v). pose proof (Z.log2_nonneg v).
  rewrite Z2Nat.id by lia. rewrite Z.pow_succ_r in H by lia. lia.
Qed.

Lemma decimal_has_digits n v : has_digits n v -> decimal v = dec_n n v.
Proof.
  intros Hn. unfold decimal.
  rewrite (has_digits_unique (ndigits v) n v); [done|apply ndigits_spec|done].
  destruct Hn as (_ & ? & _). lia.
Qed.

Lemma length_dec_n n v : length (dec_n n v) = n.
Proof. revert v. induction n; intros v; simpl; [done|]. rewrite length_app, IHn. simpl. lia. Qed.

(** ** ll2string *)

Lemma digits_table k :
  0 <= k < 100 ->
  getb digits (k * 2) = Some (48 + k / 10) /\ getb digits (k * 2 + 1) = Some (48 + k mod 10).
Proof.
  intros Hk.
  assert (forallb (fun i => let k := Z.of_nat i in
    bool_decide (getb digits (k * 2) = Some (48 + k / 10)) &&
    bool_decide (getb digits (k * 2 + 1) = Some (48 + k mod 10))) (seq 0 100) = true) as H
    by (vm_compute; done).
  rewrite forallb_forall in H. specialize (H (Z.to_nat k)).
  rewrite Z2Nat.id in H by lia.
  apply andb_true_iff in H as [H1%bool_decide_eq_true H2%bool_decide_eq_true]; [done|].
  apply in_seq. lia.
Qed.

(** [has_digits] facts over the constants of [digits10]. *)
Lemma digits10_spec v :
  0 <= v < 1000000000000000000000000 -> exists n, digits10 v = Some (Z.of_nat n) /\ has_digits n v.
Proof.
  intros Hv.
  assert (forall f w, 0 <= w < 1000000000000 ->
    exists n, digits10_rec (S f) w = Some (Z.of_nat n) /\ has_digits n w) as Hsmall.
  { clear. intros f w Hw. cbn [digits10_rec].
    assert (forall n, (1 <= n)%nat -> w < 10 ^ Z.of_nat n -> n = 1%nat \/ 10 ^ (Z.of_nat n - 1) <= w ->
      exists n', Some (Z.of_nat n) = Some (Z.of_nat n') /\ has_digits n' w) as Hn.
    { intros n ???. exists n. split; [done|]. split_and!; [lia|lia|lia|done]. }
    destruct (Z.ltb_spec w 10); [apply (Hn 1%nat); simpl; lia|].
    destruct (Z.ltb_spec w 100); [apply (Hn 2%nat); simpl; lia|].
    destruct (Z.ltb_spec w 1000); [apply (Hn 3%nat); simpl; lia|].
    rewrite (proj2 (Z.ltb_lt _ _)) by lia.
    rewrite !Z.geb_leb.
    destruct (Z.ltb_spec w 100000000); [destruct (Z.ltb_spec w 1000000);
      [destruct (Z.ltb_spec w 10000); [apply (Hn 4%nat); simpl; lia|
         destruct (Z.leb_spec 100000 w); [apply (Hn 6%nat)|apply (Hn 5%nat)]; simpl; lia]
      |destruct (Z.leb_spec 10000000 w); [apply (Hn 8%nat)|apply (Hn 7%nat)]; simpl; lia]|].
    destruct (Z.ltb_spec w 10000000000).
    - destruct (Z.leb_spec 1000000000 w); [apply (Hn 10%nat)|apply (Hn 9%nat)]; simpl; lia.
    - destruct (Z.leb_spec 100000000000 w); [apply (Hn 12%nat)|apply (Hn 11%nat)]; simpl; lia. }
  destruct (Z.lt_ge_cases v 1000000000000) as [Hlt|Hge]; [apply (Hsmall 1%nat); lia|].
  destruct (Hsmall 0%nat (v / 1000000000000)) as (n & Hn & H1 & H2 & H3); [dlia|].
  exists (12 + n)%nat. split.
  - unfold digits10. change (digits10_rec 2 v) with
      (if v <? 10 then Some 1 else if v <? 100 then Some 2 else if v <? 1000 then Some 3
       else if v <? 1000000000000 then
         if v <? 100000000 then if v <? 1000000 then
             if v <? 10000 then Some 4 else Some (5 + Z.b2z (v >=? 100000))
           else Some (7 + Z.b2z (v >=? 10000000))
         else if v <? 10000000000 then Some (9 + Z.b2z (v >=? 1000000000))
         else Some (11 + Z.b2z (v >=? 100000000000))
       else n ← digits10_rec 1 (v / 1000000000000); Some (12 + n)).
    rewrite !(proj2 (Z.ltb_ge v _)) by lia. rewrite Hn. sbind. f_equal. lia.
  - unfold has_digits. replace (Z.of_nat (12 + n)) with (12 + Z.of_nat n) by lia.
    split_and!; [lia|lia|rewrite Z.pow_add_r by lia; change (10 ^ 12) with 1000000000000; dlia|].
    right. replace (12 + Z.of_nat n - 1) with (12 + (Z.of_nat n - 1)) by lia.
    rewrite Z.pow_add_r by lia. change (10 ^ 12) with 1000000000000.
    destruct H3 as [->|H3]; [simpl; lia|dlia].
Qed.

Lemma dec_n_SS n v :
  0 <= v ->
  dec_n (S (S n)) v = dec_n n (v / 100) ++ [48 + (v mod 100) / 10; 48 + (v mod 100) mod 10].
Proof.
  intros Hv. simpl. rewrite <- app_assoc. simpl.
  replace (v / 10 / 10) with (v / 100) by dlia.
  replace ((v / 10) mod 10) with ((v mod 100) / 10) by dlia.
  replace (v mod 10) with ((v mod 100) mod 10) by dlia. done.
Qed.

Lemma dec_n_1 v : 0 <= v < 10 -> dec_n 1 v = [48 + v].
Proof. intros. simpl. by rewrite Z.mod_small. Qed.

(** Writing two digits at the end of the gap [m]. *)
Lemma write_pair dst (a m c : list Z) next k n :
  0 <= k < 100 -> dst = a ++ m ++ c -> length m = S (S n) ->
  next = zlen a + Z.of_nat n + 1 -> next < 2 ^ 32 ->
  exists m', length m' = n /\
    (d1 ← getb digits (k * 2 + 1); dst ← setb dst next d1;
     d0 ← getb digits (k * 2); setb dst (u32 (next - 1)) d0)
    = Some (a ++ m' ++ (48 + k / 10) :: (48 + k mod 10) :: c).
Proof.
  intros Hk -> Hm -> Hb. destruct (digits_table k Hk) as [-> ->]. sbind.
  destruct (exists_last (l := m)) as (m1 & y & ->); [by intros ->|].
  rewrite length_app in Hm. simpl in Hm.
  destruct (exists_last (l := m1)) as (m2 & x & ->); [intros ->; simpl in Hm; lia|].
  rewrite length_app in Hm. simpl in Hm. pose proof (zlen_nonneg a).
  exists m2. split; [lia|].
  replace (a ++ ((m2 ++ [x]) ++ [y]) ++ c) with (((a ++ m2) ++ [x]) ++ y :: c)
    by (by rewrite <- !app_assoc).
  rewrite setb_mid by zlia. sbind. rewrite u32_small by lia.
  rewrite <- app_assoc. simpl. rewrite setb_mid by zlia. by rewrite <- app_assoc.
Qed.

Lemma ll2string_loop_spec fuel : forall n (a m c : list Z) value,
  has_digits n value -> length m = n -> (n <= 2 * fuel + 2)%nat ->
  zlen a + Z.of_nat n < 2 ^ 32 ->
  exists k m' v, ll2string_loop fuel (a ++ m ++ c) (zlen a + Z.of_nat n - 1) value
    = Some (a ++ m' ++ drop k (dec_n n value) ++ c, zlen a + Z.of_nat k - 1, v) /\
    has_digits k v /\ v < 100 /\ length m' = k /\ dec_n n value = dec_n k v ++ drop k (dec_n n value).
Proof.
  induction fuel as [|fuel IH]; intros n a m c value Hd Hm Hf Hb.
  - assert (value < 100) as Hlt.
    { destruct Hd as (H1 & H2 & _).
      assert (10 ^ Z.of_nat n <= 10 ^ 2) by (apply Z.pow_le_mono_r; lia). lia. }
    exists n, m, value. simpl. rewrite Z.geb_leb, (proj2 (Z.leb_gt _ _)) by lia.
    rewrite drop_ge by (rewrite length_dec_n; lia). by rewrite app_nil_r.
  - cbn [ll2string_loop]. rewrite Z.geb_leb. destruct (Z.leb_spec 100 value) as [Hge|Hlt].
    2:{ exists n, m, value. rewrite drop_ge by (rewrite length_dec_n; lia). by rewrite app_nil_r. }
    destruct Hd as (H1 & H2 & H3).
    assert (exists n', n = S (S n') /\ (1 <= n')%nat) as (n' & -> & Hn').
    { destruct n as [|[|[|n']]]; [lia|simpl in H2; lia|simpl in H2; lia|eauto with lia]. }
    assert (has_digits n' (value / 100)) as Hd'.
    { replace (Z.of_nat (S (S n'))) with (2 + Z.of_nat n') in * by lia.
      rewrite Z.pow_add_r in H2 by lia. change (10 ^ 2) with 100 in H2.
      split_and!; [done|dlia|dlia|]. destruct H3 as [|H3]; [lia|].
      destruct (decide (n' = 1%nat)) as [|]; [by left|right].
      replace (2 + Z.of_nat n' - 1) with (2 + (Z.of_nat n' - 1)) in H3 by lia.
      rewrite Z.pow_add_r in H3 by lia. change (10 ^ 2) with 100 in H3. dlia. }
    destruct (write_pair (a ++ m ++ c) a m c (zlen a + Z.of_nat (S (S n')) - 1) (value mod 100) n')
      as (m1 & Hm1 & Heq); [dlia|done|done|lia|lia|].
    apply bind_Some in Heq as (d1 & -> & Heq). sbind.
    apply bind_Some in Heq as (dst1 & -> & Heq). sbind.
    apply bind_Some in Heq as (d0 & -> & Heq). sbind. rewrite Heq. sbind.
    pose proof (zlen_nonneg a). rewrite u32_small by lia.
    replace (zlen a + Z.of_nat (S (S n')) - 1 - 2) with (zlen a + Z.of_nat n' - 1) by lia.
    destruct (IH n' a m1 (48 + value mod 100 / 10 :: 48 + (value mod 100) mod 10 :: c)
      (value / 100)) as (k & m' & v & -> & Hk & Hv & Hm' & Hdec); [done|done|lia|lia|].
    exists k, m', v. rewrite dec_n_SS by lia.
    assert (k <= n')%nat as Hkn.
    { apply (f_equal length) in Hdec. rewrite length_app, !length_dec_n in Hdec. lia. }
    rewrite drop_app_le by (by rewrite length_dec_n). rewrite <- app_assoc. simpl.
    split_and!; [done|done|done|done|]. by rewrite Hdec at 1; rewrite <- app_assoc.
Qed.

(** The digits written after the terminator. *)
Lemma ll2string_digits (a m c : list Z) n value :
  has_digits n value -> length m = n -> (n <= 40)%nat -> zlen a + Z.of_nat n < 2 ^ 32 ->
  (r ← ll2string_loop 20 (a ++ m ++ c) (zlen a + Z.of_nat n - 1) value;
   let '(dst, next, value) := r in
   if value <? 10 then setb dst next (48 + value)
   else
     let i := value * 2 in
     d1 ← getb digits (i + 1);
     dst ← setb dst next d1;
     d0 ← getb digits i;
     setb dst (u32 (next - 1)) d0) = Some (a ++ dec_n n value ++ c).
Proof.
  intros Hd Hm Hn Hb.
  destruct (ll2string_loop_spec 20 n a m c value) as (k & m' & v & -> & Hk & Hv & Hm' & Hdec);
    [done|done|lia|done|].
  sbind. rewrite Hdec at 2. rewrite <- app_assoc.
  set (c' := drop k (dec_n n value) ++ c). destruct Hk as (H1 & H2 & H3).
  assert (Z.of_nat k <= Z.of_nat n) as Hkn.
  { apply (f_equal length) in Hdec. rewrite length_app, !length_dec_n in Hdec. lia. }
  destruct (Z.ltb_spec v 10).
  - assert (k = 1%nat) as ->.
    { destruct H3 as [->|H3]; [done|]. destruct (decide (k = 1%nat)); [done|].
      assert (10 ^ 1 <= 10 ^ (Z.of_nat k - 1)) by (apply Z.pow_le_mono_r; lia). lia. }
    destruct m' as [|x [|]]; [done| |done]. rewrite dec_n_1 by lia. simpl.
    rewrite setb_mid by lia. done.
  - assert (k = 2%nat) as ->.
    { destruct k as [|[|[|k]]]; [lia|simpl in H2; lia|done|].
      destruct H3 as [|H3]; [lia|].
      assert (10 ^ 2 <= 10 ^ (Z.of_nat (S (S (S k))) - 1)) by (apply Z.pow_le_mono_r; lia). lia. }
    destruct (write_pair (a ++ m' ++ c') a m' c' (zlen a + Z.of_nat 2 - 1) v 0)
      as (m1 & Hm1 & ->); [lia|done|done|lia|lia|].
    rewrite (nil_length_inv m1) by done. rewrite dec_n_SS by lia. simpl.
    by rewrite (Z.mod_small v 100) by lia.
Qed.

Lemma has_digits_le n v b : has_digits n v -> v < 10 ^ Z.of_nat b -> (1 <= b)%nat -> (n <= b)%nat.
Proof.
  intros (H1 & H2 & H3) Hb ?. destruct H3 as [->|H3]; [done|].
  destruct (decide (n <= b)%nat); [done|exfalso].
  assert (10 ^ Z.of_nat b <= 10 ^ (Z.of_nat n - 1)) by (apply Z.pow_le_mono_r; lia). lia.
Qed.

(** Splitting the buffer around the written numeral. *)
Lemma ll2string_spec dst dstlen v :
  in_ll v -> zlen dst = dstlen ->
  ll2string dst dstlen v
  = Some (if zlen (ll_repr v) >=? dstlen then (0, dst)
          else (zlen (ll_repr v),
                ll_repr v ++ 0 :: drop (S (length (ll_repr v))) dst)).
Proof.
  intros Hv <-. unfold in_ll, LLONG_MIN, LLONG_MAX in Hv. unfold ll2string.
  set (value := if v <? 0 then _ else v).
  assert (value = Z.abs v) as Hval.
  { subst value. unfold LLONG_MIN, LLONG_MAX. destruct (Z.ltb_spec v 0); [|lia].
    destruct (Z.eqb_spec v (-9223372036854775808)) as [->|]; [done|].
    simpl. rewrite u64_small by lia. lia. }
  clearbody value. subst value.
  destruct (digits10_spec (Z.abs v)) as (n & -> & Hn); [lia|]. sbind.
  pose proof (has_digits_le n _ 20 Hn ltac:(lia) ltac:(lia)) as Hn20.
  set (neg := if v <? 0 then 1 else 0).
  assert (exists a, ll_repr v = a ++ dec_n n (Z.abs v) /\ zlen a = neg /\
    (a = if v <? 0 then [45] else [])) as (a & Hr & Ha & Ha').
  { unfold ll_repr, neg. destruct (Z.ltb_spec v 0).
    - exists [45]. split; [|done]. rewrite Z.abs_neq in * by lia.
      by rewrite (decimal_has_digits n).
    - exists []. split; [|done]. rewrite Z.abs_eq in * by lia.
      by rewrite (decimal_has_digits n). }
  rewrite Hr. pose proof (length_dec_n n (Z.abs v)) as Hlen.
  assert (zlen (a ++ dec_n n (Z.abs v)) = Z.of_nat n + neg) as Hz
    by (rewrite zlen_app, Ha; unfold zlen; lia).
  assert (0 <= neg <= 1) as Hneg by (unfold neg; case_match; lia).
  rewrite u32_small, Hz by lia. rewrite !Z.geb_leb.
  destruct (Z.leb_spec (zlen dst) (Z.of_nat n + neg)) as [|Hlt]; [done|].
  destruct (getb_is_Some dst (Z.of_nat n + neg)) as [x Hx]; [lia|].
  destruct (getb_split _ _ _ Hx) as (d & c & -> & Hd).
  rewrite setb_mid by done. sbind. rewrite u32_small by (destruct Hn; lia).
  assert (exists a0 m, d = a0 ++ m /\ length a0 = length a /\ length m = n) as (a0 & m & -> & Ha0 & Hm).
  { exists (take (length a) d), (drop (length a) d). rewrite take_drop, length_take, length_drop.
    unfold zlen in *. split_and!; [done|lia|lia]. }
  replace (Z.of_nat n + neg - 1) with (zlen a0 + Z.of_nat n - 1) by (unfold zlen in *; lia).
  pose proof (ll2string_digits a0 m (0 :: c) n (Z.abs v) Hn Hm ltac:(lia) ltac:(unfold zlen in *; lia)) as Hdig.
  rewrite <- app_assoc.
  apply bind_Some in Hdig as ([[dst1 nx] w] & -> & Hdig). sbind. cbv zeta in Hdig. rewrite Hdig. sbind.
  assert (drop (S (length (a ++ dec_n n (Z.abs v)))) ((a0 ++ m) ++ x :: c) = c) as ->.
  { replace (S (length (a ++ dec_n n (Z.abs v)))) with (length ((a0 ++ m) ++ [x]))
      by (rewrite !length_app; simpl; lia).
    replace ((a0 ++ m) ++ x :: c) with (((a0 ++ m) ++ [x]) ++ c) by (by rewrite <- app_assoc).
    apply drop_app_length. }
  rewrite <- app_assoc. simpl. destruct (v <? 0); subst a.
  - destruct a0 as [|y [|]]; [done| |done]. simpl. done.
  - destruct a0; [|done]. done.
Qed.

(** ** string2ll *)

(** The value of a string of digits read after [v]. *)
Definition val (v : Z) (p : list Z) : Z := foldl (fun v c => v * 10 + (c - 48)) v p.
Definition is_digit (c : Z) : Prop := 48 <= c <= 57.

Lemma val_ge v p : 0 <= v -> Forall is_digit p -> v <= val v p.
Proof.
  intros Hv Hp. revert v Hv. induction Hp as [|c p Hc _ IH]; intros v Hv; simpl; [lia|].
  unfold is_digit in Hc. specialize (IH (v * 10 + (c - 48))). lia.
Qed.

Lemma string2ll_loop_digits p v :
  0 <= v -> Forall is_digit p -> val v p <= ULLONG_MAX ->
  string2ll_loop p v = Some ([], val v p).
Proof.
  intros Hv Hp. revert v Hv. induction Hp as [|c p Hc Hp IH]; intros v Hv Hm; simpl; [done|].
  unfold is_digit in Hc. unfold ULLONG_MAX in *. simpl in Hm.
  pose proof (val_ge (v * 10 + (c - 48)) p ltac:(lia) Hp).
  rewrite !(proj2 (Z.leb_le _ _)) by lia. simpl. rewrite !Z.gtb_ltb.
  rewrite (proj2 (Z.ltb_ge _ _)) by dlia. rewrite u64_small by lia.
  rewrite (proj2 (Z.ltb_ge _ _)) by lia. rewrite u64_small by lia. apply IH; lia.
Qed.

Lemma string2ll_loop_inv p : forall v w,
  0 <= v <= ULLONG_MAX -> string2ll_loop p v = Some ([], w) ->
  Forall is_digit p /\ w = val v p /\ w <= ULLONG_MAX.
Proof.
  unfold ULLONG_MAX.
  induction p as [|c p IH]; intros v w Hv H; simpl in H; [simplify_eq; split_and!; [done|done|lia]|].
  destruct ((48 <=? c) && (c <=? 57)) eqn:Hc; [|done]. zbool.
  unfold ULLONG_MAX in *. rewrite !Z.gtb_ltb in H.
  destruct (Z.ltb_spec (18446744073709551615 / 10) v); [done|].
  rewrite u64_small in H by dlia.
  destruct (Z.ltb_spec (18446744073709551615 - (c - 48)) (v * 10)); [done|].
  rewrite u64_small in H by lia. apply IH in H as (Hd1 & Hd2 & Hd3); [|lia].
  split_and!; [by constructor|done|lia].
Qed.

Lemma dec_n_val p : forall n v,
  Forall is_digit p -> 0 <= v -> dec_n (n + length p) (val v p) = dec_n n v ++ p.
Proof.
  induction p as [|c p IH] using rev_ind; intros n v Hp Hv.
  { simpl. by rewrite Nat.add_0_r, app_nil_r. }
  apply Forall_app in Hp as [Hp Hc]. rewrite Forall_singleton in Hc. unfold is_digit in Hc.
  rewrite length_app. simpl. replace (n + (length p + 1))%nat with (S (n + length p)) by lia.
  unfold val. rewrite foldl_app. simpl. fold (val v p).
  replace ((val v p * 10 + (c - 48)) / 10) with (val v p) by dlia.
  replace ((val v p * 10 + (c - 48)) mod 10) with (c - 48) by dlia.
  rewrite IH by done. rewrite <- app_assoc. do 3 f_equal. lia.
Qed.

Lemma val_bounds p v :
  Forall is_digit p -> 0 <= v ->
  v * 10 ^ zlen p <= val v p < (v + 1) * 10 ^ zlen p.
Proof.
  intros Hp. revert v. induction Hp as [|c p Hc _ IH]; intros v Hv; simpl; [unfold zlen; simpl; lia|].
  unfold is_digit in Hc. rewrite zlen_cons, Z.pow_add_r, Z.pow_1_r by (pose proof (zlen_nonneg p); lia).
  specialize (IH (v * 10 + (c - 48)) ltac:(lia)).
  assert (0 < 10 ^ zlen p) by (pose proof (zlen_nonneg p); lia). nia.
Qed.

(** A nonzero leading digit makes the string the numeral of its value. *)
Lemma decimal_val c p :
  49 <= c <= 57 -> Forall is_digit p -> decimal (val (c - 48) p) = c :: p.
Proof.
  intros Hc Hp. pose proof (val_bounds p (c - 48) Hp ltac:(lia)) as Hb.
  pose proof (zlen_nonneg p).
  rewrite (decimal_has_digits (S (length p))).
  - rewrite (dec_n_val p 1) by (done || lia). rewrite dec_n_1 by lia. simpl. f_equal. lia.
  - assert (0 < 10 ^ zlen p) by lia. unfold zlen, has_digits in *.
    replace (Z.of_nat (S (length p))) with (1 + Z.of_nat (length p)) by lia.
    split_and!; [lia|nia|rewrite Z.pow_add_r, Z.pow_1_r by lia; nia|].
    right. replace (1 + Z.of_nat (length p) - 1) with (Z.of_nat (length p)) by lia. nia.
Qed.

(** The numeral of a positive number starts with a nonzero digit. *)
Lemma decimal_shape v :
  0 < v -> exists c p, decimal v = c :: p /\ 49 <= c <= 57 /\ Forall is_digit p /\
    val (c - 48) p = v.
Proof.
  intros Hv. pose proof (ndigits_spec v ltac:(lia)) as Hd. unfold decimal.
  set (n := ndigits v) in *. clearbody n. destruct n as [|n]; [destruct Hd; lia|].
  revert v Hv Hd. induction n as [|n IH]; intros v Hv Hd.
  - destruct Hd as (_ & Hb & _). simpl in Hb. rewrite dec_n_1 by lia.
    exists (48 + v), []. split_and!; [done|lia|lia|done|simpl; lia].
  - destruct Hd as (_ & Hb & [|Hb']); [lia|].
    replace (Z.of_nat (S (S n)) - 1) with (1 + Z.of_nat n) in Hb' by lia.
    replace (Z.of_nat (S (S n))) with (1 + (1 + Z.of_nat n)) in Hb by lia.
    rewrite !Z.pow_add_r, !Z.pow_1_r in * by lia.
    assert (0 < 10 ^ Z.of_nat n) by lia.
    destruct (IH (v / 10)) as (c & p & Heq & Hc & Hp & Hval).
    + dlia.
    + replace (Z.of_nat (S n)) with (1 + Z.of_nat n) by lia.
      split_and!; [lia|dlia|..].
      all: replace (Z.of_nat (S n)) with (1 + Z.of_nat n) by lia.
      * rewrite Z.pow_add_r, Z.pow_1_r by lia. dlia.
      * right. replace (1 + Z.of_nat n - 1) with (Z.of_nat n) by lia. dlia.
    + exists c, (p ++ [48 + v mod 10]). change (dec_n (S (S n)) v)
        with (dec_n (S n) (v / 10) ++ [48 + v mod 10]). rewrite Heq.
      split_and!; [done|lia|lia| |].
      * apply Forall_app. split; [done|]. apply Forall_singleton. unfold is_digit. dlia.
      * unfold val. rewrite foldl_app. simpl. fold (val (c - 48) p). rewrite Hval. dlia.
Qed.

Lemma ll_repr_0 : ll_repr 0 = [48].
Proof. done. Qed.

Lemma negative_limit : u64 (- (LLONG_MIN + 1)) + 1 = 9223372036854775808.
Proof. done. Qed.

(** What the function accepts after the sign. *)
Lemma string2ll_complete v : in_ll v -> string2ll (ll_repr v) = Some v.
Proof.
  unfold in_ll, LLONG_MIN, LLONG_MAX. intros Hv.
  destruct (decide (v = 0)) as [->|Hne]; [done|].
  destruct (decimal_shape (Z.abs v)) as (c & p & Hd & Hc & Hp & Hval); [lia|].
  pose proof (zlen_nonneg p).
  assert (string2ll_loop p (c - 48) = Some ([], Z.abs v)) as Hloop.
  { rewrite string2ll_loop_digits; [by rewrite Hval|lia|done|]. rewrite Hval.
    unfold ULLONG_MAX. lia. }
  unfold ll_repr, string2ll. destruct (Z.ltb_spec v 0).
  - rewrite Z.abs_neq in * by lia. rewrite Hd.
    rewrite !zlen_cons, !(proj2 (Z.eqb_neq _ _)) by lia. simpl.
    rewrite !(proj2 (Z.leb_le _ _)) by lia. simpl. rewrite Hloop. simpl.
    rewrite negative_limit, Z.gtb_ltb, (proj2 (Z.ltb_ge _ _)) by lia.
    f_equal. rewrite Z.opp_involutive. rewrite swrap_uwrap by lia. apply s64_small. lia.
  - rewrite Z.abs_eq in * by lia. rewrite Hd.
    rewrite (bool_decide_eq_false_2 (getb (c :: p) 0 = Some 48)) by (intros [=]; lia).
    rewrite (bool_decide_eq_false_2 (getb (c :: p) 0 = Some 45)) by (intros [=]; lia).
    rewrite andb_false_r, zlen_cons, (proj2 (Z.eqb_neq _ _)) by lia. simpl.
    rewrite !(proj2 (Z.leb_le _ _)) by lia. simpl. rewrite Hloop. simpl.
    rewrite Z.gtb_ltb. unfold LLONG_MAX. rewrite (proj2 (Z.ltb_ge _ _)) by lia.
    f_equal. apply s64_small. lia.
Qed.

(** The tail of the function, from the first digit on. *)
Lemma string2ll_digits c p rest w :
  49 <= c <= 57 -> string2ll_loop p (c - 48) = Some (rest, w) -> zlen rest <= 0 ->
  decimal w = c :: p /\ 1 <= w <= ULLONG_MAX.
Proof.
  intros Hc Hl Hr. destruct rest; [|rewrite zlen_cons in Hr; pose proof (zlen_nonneg rest); lia].
  apply string2ll_loop_inv in Hl as (Hp & -> & Hm); [|unfold ULLONG_MAX; lia].
  rewrite decimal_val by done. pose proof (val_ge (c - 48) p ltac:(lia) Hp).
  split; [done|lia].
Qed.

Lemma string2ll_sound s v : string2ll s = Some v -> s = ll_repr v /\ in_ll v.
Proof.
  unfold string2ll, in_ll, LLONG_MIN, LLONG_MAX. intros H.
  destruct s as [|c s]; [done|].
  destruct (Z.eqb_spec (zlen (c :: s)) 0) as [|Hlen]; [done|].
  change (getb (c :: s) 0) with (Some c) in H.
  destruct ((zlen (c :: s) =? 1) && bool_decide (Some c = Some 48)) eqn:E0.
  { apply andb_true_iff in E0 as [H1%Z.eqb_eq H0%bool_decide_eq_true]. simplify_eq.
    split; [|lia]. rewrite zlen_cons in H1.
    by rewrite (nil_length_inv s) by (unfold zlen in H1; lia). }
  case_bool_decide as Hneg; cbv zeta iota in H;
    rewrite ?skipn_cons, ?skipn_O in H.
  - simplify_eq. destruct s as [|c p]; [done|].
    destruct ((49 <=? c) && (c <=? 57)) eqn:Hc; zbool.
    2:{ rewrite (proj2 (Z.eqb_neq (zlen _) 1)) in H
          by (rewrite !zlen_cons; pose proof (zlen_nonneg p); lia).
        rewrite andb_false_r in H. done. }
    apply bind_Some in H as ([rest w] & Hl & H). rewrite Z.gtb_ltb in H.
    destruct (Z.ltb_spec 0 (zlen rest)); [done|].
    destruct (string2ll_digits c p rest w) as [Hd Hw]; [lia|done|lia|].
    fold LLONG_MIN in H. rewrite negative_limit, Z.gtb_ltb in H.
    destruct (Z.ltb_spec 9223372036854775808 w); [done|]. simplify_eq.
    rewrite swrap_uwrap, s64_small by lia. unfold ll_repr.
    rewrite (proj2 (Z.ltb_lt _ _)), Z.opp_involutive, Hd by lia. split; [done|lia].
  - destruct ((49 <=? c) && (c <=? 57)) eqn:Hc; zbool.
    2:{ destruct (Z.eqb_spec c 48) as [->|]; [|done]. exfalso.
        destruct E0 as [E0|E0]; [|by apply bool_decide_eq_false in E0].
        rewrite (proj2 (Z.eqb_neq (zlen _) 1)) in H; [done|].
        by apply Z.eqb_neq. }
    apply bind_Some in H as ([rest w] & Hl & H). rewrite Z.gtb_ltb in H.
    destruct (Z.ltb_spec 0 (zlen rest)); [done|].
    destruct (string2ll_digits c s rest w) as [Hd Hw]; [lia|done|lia|].
    unfold LLONG_MAX in H. rewrite Z.gtb_ltb in H.
    destruct (Z.ltb_spec 9223372036854775807 w); [done|]. simplify_eq.
    rewrite s64_small by lia. unfold ll_repr.
    rewrite (proj2 (Z.ltb_ge _ _)), Hd by lia. split; [done|lia].
Qed.

(** ** memtoll *)

Lemma span_app f ds u :
  Forall (fun c => f c = true) ds -> (forall c u', u = c :: u' -> f c = false) ->
  span f (ds ++ u) = (ds, u).
Proof.
  intros Hds Hu. induction Hds as [|c ds Hc _ IH]; simpl.
  - destruct u as [|c u]; [done|]. simpl. by rewrite (Hu c u).
  - by rewrite Hc, IH.
Qed.

Lemma isdigit_iff c : isdigit c = true <-> is_digit c.
Proof. unfold isdigit, is_digit. rewrite andb_true_iff. lia. Qed.

Lemma isdigit_false c : ~ is_digit c -> isdigit c = false.
Proof. rewrite <- isdigit_iff. by destruct (isdigit c). Qed.

(** A numeral is a sign and at most twenty digits. *)
Lemma ll_repr_shape v :
  in_ll v ->
  exists sign ds, ll_repr v = sign ++ ds /\ Forall (fun c => isdigit c = true) ds /\
    ds <> [] /\ zlen (sign ++ ds) <= 20 /\
    (sign = [] /\ val 0 ds = v \/ sign = [45] /\ val 0 ds = - v).
Proof.
  unfold in_ll, LLONG_MIN, LLONG_MAX. intros Hv.
  destruct (decide (v = 0)) as [->|Hne].
  { exists [], [48]. split_and!; [done|by repeat constructor|done|done|by left]. }
  destruct (decimal_shape (Z.abs v)) as (c & p & Hd & Hc & Hp & Hval); [lia|].
  assert (zlen (c :: p) <= 19).
  { rewrite <- Hd. pose proof (ndigits_spec (Z.abs v) ltac:(lia)) as Hn.
    rewrite (decimal_has_digits _ _ Hn). unfold zlen. rewrite length_dec_n.
    pose proof (has_digits_le _ _ 19 Hn) as Hle. change (10 ^ Z.of_nat 19) with 10000000000000000000 in Hle. lia. }
  assert (val 0 (c :: p) = Z.abs v) as Hv0 by (by rewrite <- Hval).
  assert (Forall (fun c => isdigit c = true) (c :: p)).
  { constructor; [apply isdigit_iff; unfold is_digit; lia|].
    eapply Forall_impl; [exact Hp|]. intros. by apply isdigit_iff. }
  unfold ll_repr. destruct (Z.ltb_spec v 0).
  - exists [45], (c :: p). rewrite Z.abs_neq in * by lia. rewrite Hd.
    split_and!; [done|done|done|rewrite zlen_app; simpl in *; zlia|by right].
  - exists [], (c :: p). rewrite Z.abs_eq in * by lia. rewrite Hd.
    split_and!; [done|done|done|simpl in *; zlia|by left].
Qed.

Lemma ll_repr_len v : in_ll v -> zlen (ll_repr v) <= 20.
Proof. intros Hv. destruct (ll_repr_shape v Hv) as (sg & ds & -> & _ & _ & Hl & _). done. Qed.

Lemma ll_repr_pos v : in_ll v -> 0 < zlen (ll_repr v).
Proof.
  intros Hv. apply zlen_pos. intros Hn. pose proof (string2ll_complete v Hv) as Hs. by rewrite Hn in Hs.
Qed.

Lemma strtoll_raw_digits sign ds rest v :
  Forall (fun c => isdigit c = true) ds -> ds <> [] ->
  (forall c t, rest = c :: t -> isdigit c = false) ->
  sign = [] /\ val 0 ds = v \/ sign = [43] /\ val 0 ds = v \/ sign = [45] /\ val 0 ds = - v ->
  strtoll_raw (sign ++ ds ++ rest) = (v, rest).
Proof.
  intros Hds Hne Hrest Hs. unfold strtoll_raw.
  assert (span isdigit (ds ++ rest) = (ds, rest)) as Hspan by (by apply span_app).
  destruct ds as [|c ds]; [done|]. apply Forall_cons in Hds as [Hc Hds].
  pose proof Hc as Hc'. apply isdigit_iff in Hc'. unfold is_digit in Hc'.
  assert (isspace c = false) as Hsp.
  { unfold isspace. destruct (Z.eqb_spec c 32); [lia|].
    destruct (Z.leb_spec c 13); [lia|]. by rewrite andb_false_r. }
  destruct Hs as [[-> Hval]|[[-> Hval]|[-> Hval]]]; cbn [app span].
  - rewrite Hsp. rewrite !(proj2 (Z.eqb_neq c _)) by lia.
    cbn [app] in Hspan. rewrite Hspan.
    fold (val 0 (c :: ds)). by rewrite Hval.
  - change (isspace 43) with false. cbv iota. change (43 =? 45) with false.
    change (43 =? 43) with true. cbv iota.
    cbn [app] in Hspan. rewrite Hspan. fold (val 0 (c :: ds)). by rewrite Hval.
  - change (isspace 45) with false. cbv iota. change (45 =? 45) with true. cbv iota.
    cbn [app] in Hspan. rewrite Hspan. fold (val 0 (c :: ds)).
    by rewrite Hval, Z.opp_involutive.
Qed.

Lemma strtoll_ll v : in_ll (strtoll v).1.
Proof.
  unfold strtoll. destruct (strtoll_raw v) as [w r]. cbn.
  unfold in_ll, clamp_ll, LLONG_MIN, LLONG_MAX. lia.
Qed.

Lemma strtoll_digits sign ds v :
  in_ll v -> Forall (fun c => isdigit c = true) ds -> ds <> [] ->
  sign = [] /\ val 0 ds = v \/ sign = [45] /\ val 0 ds = - v ->
  strtoll (sign ++ ds) = (v, []).
Proof.
  intros Hv Hds Hne Hs. unfold strtoll, in_ll in *.
  rewrite <- (app_nil_r ds), (strtoll_raw_digits sign ds [] v); try done; [|by intuition].
  f_equal. unfold clamp_ll. lia.
Qed.

Lemma string2l_string2ll s : string2l s = string2ll s.
Proof.
  unfold string2l. destruct (string2ll s) as [w|] eqn:E; [|done]. sbind.
  apply string2ll_sound in E as [_ Hw]. unfold in_ll, LONG_MIN, LONG_MAX in *.
  rewrite (proj2 (Z.ltb_ge _ _)), Z.gtb_ltb, (proj2 (Z.ltb_ge _ _)) by lia. done.
Qed.

(** ** Properties of the number conversions *)

(** C35 (functional, bounds): for every 64-bit integer [ll2string] returns the
    length of its decimal numeral and writes it, null terminated, at the start of
    the buffer, leaving the rest of the buffer alone; when the numeral and its
    terminator do not fit it returns 0 and does not touch the buffer.  No byte is
    written or read out of bounds. *)
Theorem ll2string_correct (dst : list Z) (v : Z) :
  in_ll v ->
  ll2string dst (zlen dst) v
  = Some (if zlen (ll_repr v) >=? zlen dst then (0, dst)
          else (zlen (ll_repr v),
                ll_repr v ++ 0 :: drop (S (length (ll_repr v))) dst)).
Proof. intros Hv. by apply ll2string_spec. Qed.

Lemma ll2string_correct_witness :
  ll2string (repeat 7 10) 10 (-120) = Some (4, [45; 49; 50; 48; 0; 7; 7; 7; 7; 7]).
Proof.
  change 10 with (zlen (repeat 7 10)). rewrite (ll2string_correct (repeat 7 10) (-120)).
  - vm_compute. reflexivity.
  - vm_compute. split; discriminate.
Defined.

(** [string2ll] accepts a byte string if and only if it is the
    canonical decimal numeral of a 64-bit signed integer (no leading zeros, no
    [-0], no blanks, no overflow), and then returns that integer; so it inverts
    [ll2string], and [string2l] (64-bit [long]) accepts the same strings. *)
Theorem string2ll_iff (s : list Z) (v : Z) :
  (string2ll s = Some v <-> s = ll_repr v /\ in_ll v) /\ string2l s = string2ll s.
Proof.
  split.
  - split; [apply string2ll_sound|]. intros [-> Hv]. by apply string2ll_complete.
  - apply string2l_string2ll.
Qed.

(** [digits10] is total on 64-bit values (two nested calls are
    enough) and counts the decimal digits. *)
Theorem digits10_correct (v : Z) :
  0 <= v <= ULLONG_MAX -> digits10 v = Some (zlen (decimal v)).
Proof.
  unfold ULLONG_MAX. intros Hv. destruct (digits10_spec v) as (n & -> & Hn); [lia|].
  rewrite (decimal_has_digits n v Hn). unfold zlen. by rewrite length_dec_n.
Qed.

Lemma digits10_correct_witness : digits10 18446744073709551615 = Some 20.
Proof. rewrite (digits10_correct 18446744073709551615); [reflexivity|vm_compute; split; discriminate]. Defined.

(** [memtoll] on the decimal numeral of a 64-bit integer
    followed by any text that does not start with a digit: an unknown unit is an
    error; a known one (whatever its case) multiplies the value, exactly when the
    product is a 64-bit integer; otherwise the C multiplication overflows. *)
Theorem memtoll_correct (v : Z) (u : list Z) :
  in_ll v -> (forall c u', u = c :: u' -> ~ is_digit c) ->
  memtoll (ll_repr v ++ u)
  = match memtoll_unit u with
    | None => Some (0, 1)
    | Some mul =>
        if bool_decide (in_ll (v * mul)) then Some (v * mul, 0) else None
    end.
Proof.
  intros Hv Hu. destruct (ll_repr_shape v) as (sign & ds & Hr & Hds & Hne & Hlen & Hval).
  { done. }
  assert (span isdigit (ds ++ u) = (ds, u)) as Hspan.
  { apply span_app; [done|]. intros c u' ->. apply isdigit_false. by eapply Hu. }
  assert (strtoll (sign ++ ds) = (v, [])) as Hs by (by apply strtoll_digits).
  unfold memtoll. rewrite Hr.
  assert (match sign ++ ds ++ u with
    | c :: q => if c =? 45 then ([c], q) else ([], sign ++ ds ++ u)
    | [] => ([], sign ++ ds ++ u) end = (sign, ds ++ u)) as Hsign.
  { destruct Hval as [[-> _]|[-> _]]; [|done].
    destruct ds as [|c ds]; [done|]. apply Forall_cons in Hds as [Hc _].
    unfold isdigit in Hc. simpl. destruct (Z.eqb_spec c 45) as [->|]; done. }
  rewrite <- app_assoc, Hsign, Hspan. destruct (memtoll_unit u) as [mul|]; [|done].
  rewrite Z.geb_leb, (proj2 (Z.leb_gt _ _)) by lia. rewrite Hs. simpl negb.
  case_bool_decide as Hb; unfold in_ll in Hb.
  - by rewrite !(proj2 (Z.leb_le _ _)) by lia.
  - destruct (LLONG_MIN <=? v * mul) eqn:E1, (v * mul <=? LLONG_MAX) eqn:E2; zbool; try done.
    exfalso. lia.
Qed.

Lemma memtoll_correct_witness :
  memtoll (ll_repr (-3) ++ bytes_of_string "Gb") = Some (-3221225472, 0).
Proof.
  rewrite (memtoll_correct (-3) (bytes_of_string "Gb")); [vm_compute; reflexivity| |].
  - vm_compute. split; discriminate.
  - intros c u' [= <- _]. unfold is_digit. lia.
Defined.
