(* ===== verification/Sds.v ===== *)
(** * sds.c: dynamic strings

    A string is the header ([len], [free]) with the bytes of its allocation; the
    pointer that the code passes around is the address of [buf], so the address [s + i]
    is the index [i].  Allocation does not fail ([zmalloc] aborts the server instead)
    and gives indeterminate bytes, [junk].  C strings are blocks that hold their
    terminator. *)

From Stdlib Require Import ZArith Lia String.
From stdpp Require Import base numbers list.
From S2P Require Import Prelude Util.

Open Scope Z_scope.

Record sdshdr := mk_sds { len : Z; free : Z; buf : list Z }.

Definition SDS_MAX_PREALLOC : Z := 1048576.
Definition SDS_LLSTR_SIZE : Z := 21.

(** ** The functions of the standard library on C strings *)

Fixpoint strlen (p : list Z) : option Z :=
  match p with
  | [] => None
  | c :: p => if c =? 0 then Some 0 else n ← strlen p; Some (1 + n)
  end.

(** [None] when the read leaves the block, [Some None] for a null result; the
    terminator is part of the string. *)
Fixpoint strchr (p : list Z) (c : Z) : option (option Z) :=
  match p with
  | [] => None
  | x :: p =>
      if x =? c then Some (Some 0)
      else if x =? 0 then Some None
      else r ← strchr p c; Some (option_map Z.succ r)
  end.

(** The C locale. *)
Definition toupper (c : Z) : Z := if (97 <=? c) && (c <=? 122) then c - 32 else c.
Definition isprint (c : Z) : bool := (32 <=? c) && (c <=? 126).

(** ** Conversions of integers *)

(** The digits, from the last one, at [s + p]; [fuel] bounds their number. *)
Fixpoint put_digits (fuel : nat) (s : list Z) (p v : Z) : option (list Z * Z) :=
  match fuel with
  | O => None
  | S fuel =>
      s ← setb s p (48 + v mod 10);
      if v / 10 =? 0 then Some (s, p + 1) else put_digits fuel s (p + 1) (v / 10)
  end.

(** [while(s < p)]: reverses the bytes from [i] to [j]. *)
Fixpoint reverse_loop (fuel : nat) (s : list Z) (i j : Z) : option (list Z) :=
  match fuel with
  | O => None
  | S fuel =>
      if i <? j then
        x ← getb s i; y ← getb s j;
        s ← setb s i y; s ← setb s j x;
        reverse_loop fuel s (i + 1) (j - 1)
      else Some s
  end.

(** [-value] overflows on the smallest [long long]. *)
Definition sdsll2str (s : list Z) (value : Z) : option (list Z * Z) :=
  v ← (if value <? 0 then if value =? LLONG_MIN then None else Some (- value) else Some value);
  '(s, p) ← put_digits 21 s 0 v;
  '(s, p) ← (if value <? 0 then s ← setb s p 45; Some (s, p + 1) else Some (s, p));
  s ← setb s p 0;
  s ← reverse_loop 21 s 0 (p - 1);
  Some (s, p).

Definition sdsull2str (s : list Z) (v : Z) : option (list Z * Z) :=
  '(s, p) ← put_digits 21 s 0 v;
  s ← setb s p 0;
  s ← reverse_loop 21 s 0 (p - 1);
  Some (s, p).

(** ** Escapes *)

Definition is_hex_digit (c : Z) : bool :=
  ((48 <=? c) && (c <=? 57)) || ((97 <=? c) && (c <=? 102)) || ((65 <=? c) && (c <=? 70)).

Definition hex_digit_to_int (c : Z) : Z :=
  if (48 <=? c) && (c <=? 57) then c - 48
  else if (97 <=? c) && (c <=? 102) then c - 97 + 10
  else if (65 <=? c) && (c <=? 70) then c - 65 + 10
  else 0.

(** [%02x]. *)
Definition hex_char (d : Z) : Z := if d <? 10 then 48 + d else 97 + (d - 10).

(** What [sdscatrepr] appends for the byte [c]. *)
Definition repr_char (c : Z) : list Z :=
  if (c =? 92) || (c =? 34) then [92; c]
  else if c =? 10 then [92; 110]
  else if c =? 13 then [92; 114]
  else if c =? 9 then [92; 116]
  else if c =? 7 then [92; 97]
  else if c =? 8 then [92; 98]
  else if isprint c then [c]
  else [92; 120; hex_char (c / 16); hex_char (c mod 16)].

(** The character after a backslash, in double quotes. *)
Definition unescape (c : Z) : Z :=
  if c =? 110 then 10 else if c =? 114 then 13 else if c =? 116 then 9
  else if c =? 98 then 8 else if c =? 97 then 7 else c.

(** One token of [sdssplitargs], from [p] with the contents [current] so far:
    [while(!done)].  [None] is [goto err].  The end of the list is the terminator. *)
Definition eos (p : list Z) : bool := default 0 (head p) =? 0.

Fixpoint get_token (inq insq : bool) (current p : list Z) : option (list Z * list Z) :=
  match p with
  | [] => if inq || insq then None else Some (current, [])
  | c :: p1 =>
      if inq then
        let next :=
          match p1 with
          | d :: p2 =>
              if (c =? 92) && negb (d =? 0) then get_token inq insq (current ++ [unescape d]) p2
              else if c =? 34 then if negb (d =? 0) && negb (isspace d) then None else Some (current, p1)
              else if c =? 0 then None
              else get_token inq insq (current ++ [c]) p1
          | [] =>
              if c =? 34 then Some (current, p1)
              else if c =? 0 then None
              else get_token inq insq (current ++ [c]) p1
          end in
        match p1 with
        | x :: h :: l :: p4 =>
            if (c =? 92) && (x =? 120) && is_hex_digit h && is_hex_digit l
            then get_token inq insq (current ++ [hex_digit_to_int h * 16 + hex_digit_to_int l]) p4
            else next
        | _ => next
        end
      else if insq then
        match p1 with
        | d :: p2 =>
            if (c =? 92) && (d =? 39) then get_token inq insq (current ++ [39]) p2
            else if c =? 39 then if negb (d =? 0) && negb (isspace d) then None else Some (current, p1)
            else if c =? 0 then None
            else get_token inq insq (current ++ [c]) p1
        | [] =>
            if c =? 39 then Some (current, p1)
            else if c =? 0 then None
            else get_token inq insq (current ++ [c]) p1
        end
      else if (c =? 32) || (c =? 10) || (c =? 13) || (c =? 9) then Some (current, p1)
      else if c =? 0 then Some (current, p)
      else if c =? 34 then get_token true insq current p1
      else if c =? 39 then get_token inq true current p1
      else get_token inq insq (current ++ [c]) p1
  end.

(** [while( *p && isspace( *p)) p++]. *)
Fixpoint skip_blanks (p : list Z) : list Z :=
  match p with
  | c :: p1 => if isspace c then skip_blanks p1 else p
  | [] => []
  end.

(** The outer loop of [sdssplitargs]; [vector] holds the tokens read, last one
    first.  The result is [Some None] for [NULL]; [None] when the fuel runs out. *)
Fixpoint splitargs_loop (fuel : nat) (vector : list (list Z)) (p : list Z)
    : option (option (list (list Z))) :=
  match fuel with
  | O => None
  | S fuel =>
      let p := skip_blanks p in
      if eos p then Some (Some (reverse vector))
      else
        match get_token false false [] p with
        | None => Some None
        | Some (current, p) => splitargs_loop fuel (current :: vector) p
        end
  end.

Definition sdssplitargs (line : list Z) : option (option (list (list Z))) :=
  splitargs_loop (S (length line)) [] line.

(** ** Strings *)

Inductive fmt_arg :=
  | ArgStr (p : list Z)      (* char pointer *)
  | ArgSds (s : sdshdr)      (* sds *)
  | ArgInt (v : Z)           (* int *)
  | ArgLongLong (v : Z)      (* long long *)
  | ArgUint (v : Z)          (* unsigned int *)
  | ArgUlongLong (v : Z).    (* unsigned long long *)

Section Sds.
Variable junk : nat -> Z.

Definition sdsnewlen (init : option (list Z)) (initlen : Z) : option sdshdr :=
  b ← match init with
      | Some p =>
          let b := junk <$> seq 0 (Z.to_nat (initlen + 1)) in
          if initlen =? 0 then Some b else bs ← load p 0 initlen; store b 0 bs
      | None => Some (replicate (Z.to_nat (initlen + 1)) 0)
      end;
  b ← setb b initlen 0;
  Some (mk_sds (u32 initlen) 0 b).

Definition sdsempty : option sdshdr := sdsnewlen (Some [0]) 0.

Definition sdsnew (init : option (list Z)) : option sdshdr :=
  initlen ← match init with None => Some 0 | Some p => strlen p end;
  sdsnewlen init initlen.

Definition sdsdup (s : sdshdr) : option sdshdr := sdsnewlen (Some (buf s)) (len s).

Definition sdsupdatelen (s : sdshdr) : option sdshdr :=
  n ← strlen (buf s);
  let reallen := s32 n in
  Some (mk_sds (u32 reallen) (u32 (free s + (len s - reallen))) (buf s)).

Definition sdsclear (s : sdshdr) : option sdshdr :=
  b ← setb (buf s) 0 0;
  Some (mk_sds 0 (u32 (free s + len s)) b).

Definition sdsMakeRoomFor (s : sdshdr) (addlen : Z) : sdshdr :=
  if free s >=? addlen then s
  else
    let newlen := u64 (len s + addlen) in
    let newlen := if newlen <? SDS_MAX_PREALLOC then newlen * 2 else newlen + SDS_MAX_PREALLOC in
    mk_sds (len s) (u32 (newlen - len s)) (realloc junk (buf s) (newlen + 1)).

Definition sdsRemoveFreeSpace (s : sdshdr) : sdshdr :=
  mk_sds (len s) 0 (realloc junk (buf s) (len s + 1)).

Definition sdsAllocSize (s : sdshdr) : Z := 8 + len s + free s + 1.

(** A failed assertion stops the server: [None]. *)
Definition sdsIncrLen (s : sdshdr) (incr : Z) : option sdshdr :=
  if (if incr >=? 0 then free s >=? u32 incr else len s >=? u32 (- incr)) then
    let l := u32 (len s + incr) in
    b ← setb (buf s) l 0;
    Some (mk_sds l (u32 (free s - incr)) b)
  else None.

Definition sdsgrowzero (s : sdshdr) (n : Z) : option sdshdr :=
  let curlen := len s in
  if n <=? curlen then Some s
  else
    let s := sdsMakeRoomFor s (n - curlen) in
    b ← store (buf s) curlen (replicate (Z.to_nat (n - curlen + 1)) 0);
    let totlen := u32 (len s + free s) in
    Some (mk_sds (u32 n) (u32 (totlen - n)) b).

Definition sdscatlen (s : sdshdr) (t : list Z) (n : Z) : option sdshdr :=
  let curlen := len s in
  let s := sdsMakeRoomFor s n in
  bs ← load t 0 n;
  b ← store (buf s) curlen bs;
  b ← setb b (curlen + n) 0;
  Some (mk_sds (u32 (curlen + n)) (u32 (free s - n)) b).

Definition sdscat (s : sdshdr) (t : list Z) : option sdshdr :=
  n ← strlen t; sdscatlen s t n.

Definition sdscatsds (s t : sdshdr) : option sdshdr := sdscatlen s (buf t) (len t).

Definition sdscpylen (s : sdshdr) (t : list Z) (n : Z) : option sdshdr :=
  let totlen := u32 (free s + len s) in
  let '(s, totlen) :=
    if totlen <? n then
      let s := sdsMakeRoomFor s (n - len s) in (s, u32 (free s + len s))
    else (s, totlen) in
  bs ← load t 0 n;
  b ← store (buf s) 0 bs;
  b ← setb b n 0;
  Some (mk_sds (u32 n) (u32 (totlen - n)) b).

Definition sdscpy (s : sdshdr) (t : list Z) : option sdshdr :=
  n ← strlen t; sdscpylen s t n.

Definition sdsfromlonglong (value : Z) : option sdshdr :=
  '(b, n) ← sdsll2str (junk <$> seq 0 (Z.to_nat SDS_LLSTR_SIZE)) value;
  sdsnewlen (Some b) n.

(** [memcpy(s+i,str,l)] with room made for it, in [sdscatfmt]. *)
Definition fmt_put (s : sdshdr) (i : Z) (str : list Z) (l : Z) : option (sdshdr * Z) :=
  let s := if free s <? l then sdsMakeRoomFor s l else s in
  bs ← load str 0 l;
  b ← store (buf s) i bs;
  Some (mk_sds (u32 (len s + l)) (u32 (free s - l)) b, i + l).

(** [s\[i++\] = c]. *)
Definition fmt_putc (s : sdshdr) (i c : Z) : option (sdshdr * Z) :=
  b ← setb (buf s) i c;
  Some (mk_sds (u32 (len s + 1)) (u32 (free s - 1)) b, i + 1).

(** [va_arg]: [None] when the argument has another type.  An [int] keeps its value as
    a [long long], an [unsigned int] as an [unsigned long long]. *)
Definition va_int (next : Z) (a : fmt_arg) : option Z :=
  match a with
  | ArgInt v => if next =? 105 then Some v else None
  | ArgLongLong v => if next =? 105 then None else Some v
  | _ => None
  end.

Definition va_uint (next : Z) (a : fmt_arg) : option Z :=
  match a with
  | ArgUint v => if next =? 117 then Some v else None
  | ArgUlongLong v => if next =? 117 then None else Some v
  | _ => None
  end.

(** The directive [next] of [sdscatfmt]; the arguments that are left. *)
Definition fmt_directive (s : sdshdr) (i next : Z) (ap : list fmt_arg)
    : option (sdshdr * Z * list fmt_arg) :=
  let numbuf := junk <$> seq 0 (Z.to_nat SDS_LLSTR_SIZE) in
  if next =? 115 then
    match ap with
    | ArgStr str :: ap => l ← strlen str; '(s, i) ← fmt_put s i str l; Some (s, i, ap)
    | _ => None
    end
  else if next =? 83 then
    match ap with
    | ArgSds str :: ap => '(s, i) ← fmt_put s i (buf str) (len str); Some (s, i, ap)
    | _ => None
    end
  else if (next =? 105) || (next =? 73) then
    match ap with
    | a :: ap =>
        num ← va_int next a;
        '(b, l) ← sdsll2str numbuf num; '(s, i) ← fmt_put s i b l; Some (s, i, ap)
    | _ => None
    end
  else if (next =? 117) || (next =? 85) then
    match ap with
    | a :: ap =>
        unum ← va_uint next a;
        '(b, l) ← sdsull2str numbuf unum; '(s, i) ← fmt_put s i b l; Some (s, i, ap)
    | _ => None
    end
  else '(s, i) ← fmt_putc s i next; Some (s, i, ap).

Fixpoint catfmt_loop (f : list Z) (ap : list fmt_arg) (s : sdshdr) (i : Z)
    : option (sdshdr * Z) :=
  match f with
  | [] => None
  | c :: f1 =>
      if c =? 0 then Some (s, i)
      else
        let s := if free s =? 0 then sdsMakeRoomFor s 1 else s in
        if c =? 37 then
          match f1 with
          | [] => None
          | next :: f2 => '(s, i, ap) ← fmt_directive s i next ap; catfmt_loop f2 ap s i
          end
        else '(s, i) ← fmt_putc s i c; catfmt_loop f1 ap s i
  end.

Definition sdscatfmt (s : sdshdr) (fmt : list Z) (ap : list fmt_arg) : option sdshdr :=
  '(s, i) ← catfmt_loop fmt ap s (len s);
  b ← setb (buf s) i 0;
  Some (mk_sds (len s) (free s) b).

(** [while(sp <= end && strchr(cset, *sp)) sp++]. *)
Fixpoint trim_left (fuel : nat) (b cset : list Z) (sp last : Z) : option Z :=
  match fuel with
  | O => None
  | S fuel =>
      if sp <=? last then
        c ← getb b sp; r ← strchr cset c;
        match r with Some _ => trim_left fuel b cset (sp + 1) last | None => Some sp end
      else Some sp
  end.

(** [while(ep > start && strchr(cset, *ep)) ep--]. *)
Fixpoint trim_right (fuel : nat) (b cset : list Z) (ep : Z) : option Z :=
  match fuel with
  | O => None
  | S fuel =>
      if ep >? 0 then
        c ← getb b ep; r ← strchr cset c;
        match r with Some _ => trim_right fuel b cset (ep - 1) | None => Some ep end
      else Some ep
  end.

Definition sdstrim (s : sdshdr) (cset : list Z) : option sdshdr :=
  let last := len s - 1 in
  sp ← trim_left (S (Z.to_nat (len s))) (buf s) cset 0 last;
  ep ← trim_right (S (Z.to_nat (len s))) (buf s) cset last;
  let n := if sp >? ep then 0 else ep - sp + 1 in
  b ← (if sp =? 0 then Some (buf s) else memmove (buf s) 0 sp n);
  b ← setb b n 0;
  Some (mk_sds (u32 n) (u32 (free s + (len s - n))) b).

Definition sdsrange (s : sdshdr) (start last : Z) : option sdshdr :=
  if len s =? 0 then Some s
  else
    let start := if start <? 0 then Z.max 0 (s32 (len s + start)) else start in
    let last := if last <? 0 then Z.max 0 (s32 (len s + last)) else last in
    let newlen := if start >? last then 0 else last - start + 1 in
    let '(start, last, newlen) :=
      if negb (newlen =? 0) then
        if start >=? s32 (len s) then (start, last, 0)
        else if last >=? s32 (len s) then
          let last := s32 (len s - 1) in
          (start, last, if start >? last then 0 else last - start + 1)
        else (start, last, newlen)
      else (0, last, newlen) in
    b ← (if negb (start =? 0) && negb (newlen =? 0) then memmove (buf s) 0 start newlen
         else Some (buf s));
    b ← setb b newlen 0;
    Some (mk_sds (u32 newlen) (u32 (free s + (len s - newlen))) b).

Definition sdstolower (s : sdshdr) : sdshdr :=
  mk_sds (len s) (free s)
    ((tolower <$> take (Z.to_nat (len s)) (buf s)) ++ drop (Z.to_nat (len s)) (buf s)).

Definition sdstoupper (s : sdshdr) : sdshdr :=
  mk_sds (len s) (free s)
    ((toupper <$> take (Z.to_nat (len s)) (buf s)) ++ drop (Z.to_nat (len s)) (buf s)).

Definition sdscmp (s1 s2 : sdshdr) : option Z :=
  let l1 := len s1 in
  let l2 := len s2 in
  let minlen := if l1 <? l2 then l1 else l2 in
  cmp ← memcmp (buf s1) (buf s2) (Z.to_nat minlen);
  Some (if cmp =? 0 then s32 (u64 (l1 - l2)) else cmp).

(** The loop of [sdssplitlen] from [j]: the tokens read (last one first), the
    size [slots] of their array and the start of the next token. *)
Fixpoint split_loop (fuel : nat) (s : list Z) (n : Z) (sep : list Z) (seplen : Z)
    (tokens : list (list Z)) (slots start j : Z) : option (list (list Z) * Z * Z) :=
  match fuel with
  | O => None
  | S fuel =>
      if j <? n - (seplen - 1) then
        let slots := if slots <? zlen tokens + 2 then slots * 2 else slots in
        x ← getb s j; y ← getb sep 0;
        found ← (if (seplen =? 1) && (x =? y) then Some true
                 else c ← memcmp (drop (Z.to_nat j) s) sep (Z.to_nat seplen); Some (c =? 0));
        if (found : bool) then
          if zlen tokens <? slots then
            tok ← load s start (j - start);
            split_loop fuel s n sep seplen (tok :: tokens) slots (j + seplen) (j + seplen - 1 + 1)
          else None
        else split_loop fuel s n sep seplen tokens slots start (j + 1)
      else Some (tokens, slots, start)
  end.

(** [Some None] for [NULL]; the tokens by their contents. *)
Definition sdssplitlen (s : list Z) (n : Z) (sep : list Z) (seplen : Z)
    : option (option (list (list Z))) :=
  if (seplen <? 1) || (n <? 0) then Some None
  else if n =? 0 then Some (Some [])
  else
    '(tokens, slots, start) ← split_loop (S (Z.to_nat n)) s n sep seplen [] 5 0 0;
    if zlen tokens <? slots then
      tok ← load s start (n - start);
      Some (Some (reverse (tok :: tokens)))
    else None.

Fixpoint catrepr_loop (s : sdshdr) (p : list Z) (n : nat) {struct n} : option sdshdr :=
  match n with
  | O => Some s
  | S n =>
      match p with
      | [] => None
      | c :: p =>
          s ← sdscatlen s (repr_char c) (zlen (repr_char c));
          catrepr_loop s p n
      end
  end.

Definition sdscatrepr (s : sdshdr) (p : list Z) (n : Z) : option sdshdr :=
  s ← sdscatlen s [34] 1;
  s ← catrepr_loop s p (Z.to_nat n);
  sdscatlen s [34] 1.

(** The inner loop of [sdsmapchars] for the character [c]. *)
Fixpoint mapchar (from to : list Z) (setlen : nat) (c : Z) {struct setlen} : option Z :=
  match setlen with
  | O => Some c
  | S setlen =>
      match from with
      | x :: from => if c =? x then head to else mapchar from (tail to) setlen c
      | [] => None
      end
  end.

Definition sdsmapchars (s : sdshdr) (from to : list Z) (setlen : Z) : option sdshdr :=
  l ← mapM (mapchar from to (Z.to_nat setlen)) (take (Z.to_nat (len s)) (buf s));
  Some (mk_sds (len s) (free s) (l ++ drop (Z.to_nat (len s)) (buf s))).

Fixpoint join_loop (join : sdshdr) (argv : list (list Z)) (sep : list Z) : option sdshdr :=
  match argv with
  | [] => Some join
  | [a] => sdscat join a
  | a :: argv =>
      join ← sdscat join a; join ← sdscat join sep; join_loop join argv sep
  end.

Definition sdsjoin (argv : list (list Z)) (sep : list Z) : option sdshdr :=
  join ← sdsempty; join_loop join argv sep.

End Sds.

(** ** Specification: the contents of the strings *)

(** Redis strings are limited to 512 MB; the bounds are what the code needs. *)
Definition SDS_LIMIT : Z := 2147483648 + 2097152.

(** [s] holds the bytes [l]: they are followed by a terminator and the free
    space. *)
Definition sds_ok (s : sdshdr) (l : list Z) : Prop :=
  exists rest, s = mk_sds (zlen l) (zlen rest) (l ++ 0 :: rest) /\
    zlen l <= INT32_MAX /\ zlen l + zlen rest <= SDS_LIMIT.

(** The contents of a C string. *)
Definition no_nul (t : list Z) : Prop := Forall (fun c => c <> 0) t.
Definition cstr (p t : list Z) : Prop := no_nul t /\ exists r, p = t ++ 0 :: r.

Fixpoint drop_while (f : Z -> bool) (l : list Z) : list Z :=
  match l with
  | [] => []
  | c :: l' => if f c then drop_while f l' else l
  end.

Definition trim_spec (cset l : list Z) : list Z :=
  let f c := (c =? 0) || existsb (Z.eqb c) cset in
  reverse (drop_while f (reverse (drop_while f l))).

(** The inclusive range, negative indexes counting from the end. *)
Definition range_spec (start last : Z) (l : list Z) : list Z :=
  let index i := if i <? 0 then Z.max 0 (zlen l + i) else i in
  let last := Z.min (zlen l - 1) (index last) in
  take (Z.to_nat (last - index start + 1)) (drop (Z.to_nat (index start)) l).

Definition growzero_spec (n : Z) (l : list Z) : list Z :=
  l ++ replicate (Z.to_nat (n - zlen l)) 0.

Fixpoint until_nul (l : list Z) : list Z :=
  match l with
  | [] => []
  | c :: l => if c =? 0 then [] else c :: until_nul l
  end.

Definition mapchar_spec (from to : list Z) (c : Z) : Z :=
  match list_find (fun x => c = x) from with
  | Some (i, _) => default 0 (to !! i)
  | None => c
  end.

Definition repr_spec (p : list Z) : list Z := [34] ++ concat (repr_char <$> p) ++ [34].

(** What [sdscatfmt] appends. *)
Definition arg_ok (a : fmt_arg) (d : Z) (t : list Z) : Prop :=
  match a with
  | ArgStr p => d = 115 /\ cstr p t
  | ArgSds s => d = 83 /\ sds_ok s t
  | ArgInt v => d = 105 /\ INT32_MIN <= v <= INT32_MAX /\ t = ll_repr v
  | ArgLongLong v => d = 73 /\ LLONG_MIN < v <= LLONG_MAX /\ t = ll_repr v
  | ArgUint v => d = 117 /\ 0 <= v < 2 ^ 32 /\ t = decimal v
  | ArgUlongLong v => d = 85 /\ 0 <= v <= ULLONG_MAX /\ t = decimal v
  end.

Inductive fmt_ok : list Z -> list fmt_arg -> list Z -> Prop :=
  | fmt_end ap : fmt_ok [] ap []
  | fmt_char c f ap out : c <> 37 -> c <> 0 -> fmt_ok f ap out -> fmt_ok (c :: f) ap (c :: out)
  | fmt_arg_ok d a t f ap out :
      arg_ok a d t -> fmt_ok f ap out -> fmt_ok (37 :: d :: f) (a :: ap) (t ++ out)
  | fmt_other d f ap out :
      d ∉ [115; 83; 105; 73; 117; 85; 0] -> fmt_ok f ap out ->
      fmt_ok (37 :: d :: f) ap (d :: out).

(** ** Lemmas: numerals *)

Lemma put_digits_spec n : forall fuel (a m c : list Z) v,
  has_digits n v -> (n <= fuel)%nat -> length m = n ->
  put_digits fuel (a ++ m ++ c) (zlen a) v
  = Some (a ++ reverse (dec_n n v) ++ c, zlen a + Z.of_nat n).
Proof.
  induction n as [|n IH]; intros fuel a m c v Hd Hf Hm.
  { destruct Hd. lia. }
  destruct fuel as [|fuel]; [lia|]. destruct m as [|x m]; [done|]. simpl in Hm.
  cbn [put_digits dec_n]. cbn [app]. rewrite setb_mid by done. sbind.
  rewrite reverse_app. cbn [reverse rev_append app].
  destruct Hd as (_ & Hv & Hv').
  destruct (Z.eqb_spec (v / 10) 0) as [Hz|Hz].
  - assert (n = 0%nat) as ->.
    { destruct Hv' as [|Hv']; [lia|]. destruct n as [|n]; [done|].
      replace (Z.of_nat (S (S n)) - 1) with (1 + Z.of_nat n) in Hv' by lia.
      rewrite Z.pow_add_r, Z.pow_1_r in Hv' by lia. assert (0 < 10 ^ Z.of_nat n) by lia.
      assert (v < 10) by dlia. nia. }
    destruct m; [|done]. done.
  - assert (has_digits n (v / 10)) as Hd.
    { destruct Hv' as [Hn|Hv'].
      - assert (n = 0%nat) as -> by lia. simpl in Hv. exfalso. apply Hz. dlia.
      - destruct n as [|n]; [simpl in Hv; exfalso; apply Hz; dlia|].
        replace (Z.of_nat (S (S n)) - 1) with (1 + Z.of_nat n) in Hv' by lia.
        replace (Z.of_nat (S (S n))) with (1 + (1 + Z.of_nat n)) in Hv by lia.
        rewrite !Z.pow_add_r, !Z.pow_1_r in * by lia.
        assert (0 < 10 ^ Z.of_nat n) by lia.
        split_and!; [lia|dlia|..]; replace (Z.of_nat (S n)) with (1 + Z.of_nat n) by lia.
        + rewrite Z.pow_add_r, Z.pow_1_r by lia. dlia.
        + right. replace (1 + Z.of_nat n - 1) with (Z.of_nat n) by lia. dlia. }
    replace (a ++ 48 + v mod 10 :: m ++ c) with ((a ++ [48 + v mod 10]) ++ m ++ c)
      by (by rewrite <- app_assoc).
    replace (zlen a + 1) with (zlen (a ++ [48 + v mod 10])) by zlia.
    rewrite IH by (done || lia). rewrite <- app_assoc. simpl.
    do 2 f_equal. zlia.
Qed.

Lemma reverse_loop_spec fuel : forall (a m c : list Z) i j,
  (length m < 2 * fuel)%nat -> i = zlen a -> j = zlen a + zlen m - 1 ->
  reverse_loop fuel (a ++ m ++ c) i j = Some (a ++ reverse m ++ c).
Proof.
  induction fuel as [|fuel IH]; intros a m c i j Hf -> ->; [lia|]. cbn [reverse_loop].
  destruct m as [|x m]; [|destruct m as [|y m _] using rev_ind].
  - rewrite zlen_nil. destruct (Z.ltb_spec (zlen a) (zlen a + 0 - 1)); [lia|]. done.
  - rewrite zlen_cons, zlen_nil. destruct (Z.ltb_spec (zlen a) (zlen a + (1 + 0) - 1)); [lia|]. done.
  - rewrite zlen_cons, zlen_app, zlen_cons, zlen_nil.
    pose proof (zlen_nonneg m).
    destruct (Z.ltb_spec (zlen a) (zlen a + (1 + (zlen m + (1 + 0))) - 1)); [|lia].
    cbn [app]. rewrite (getb_mid a _ x (zlen a)) by done. sbind.
    replace (a ++ x :: (m ++ [y]) ++ c) with ((a ++ x :: m) ++ y :: c)
      by (by rewrite <- !app_assoc).
    rewrite (getb_mid (a ++ x :: m)) by zlia. sbind.
    rewrite <- app_assoc. cbn [app]. rewrite (setb_mid a) by done. sbind.
    replace (a ++ y :: m ++ y :: c) with ((a ++ y :: m) ++ y :: c) by (by rewrite <- app_assoc).
    rewrite (setb_mid (a ++ y :: m)) by zlia. sbind.
    replace ((a ++ y :: m) ++ x :: c) with ((a ++ [y]) ++ m ++ (x :: c))
      by (by rewrite <- !app_assoc).
    rewrite IH; [|simpl in Hf; rewrite length_app in Hf; simpl in Hf; lia|zlia|zlia].
    rewrite reverse_cons, reverse_app, <- !app_assoc. done.
Qed.

(** The common end of the conversions: the terminator, then the reversal. *)
Lemma finish_digits (l b : list Z) p :
  p = zlen l -> (length l < 42)%nat -> b <> [] ->
  (s ← setb (reverse l ++ b) p 0; s ← reverse_loop 21 s 0 (p - 1); Some (s, p))
  = Some (l ++ 0 :: tail b, p).
Proof.
  intros -> Hl Hb. destruct b as [|x b]; [done|].
  rewrite setb_mid by (by rewrite zlen_reverse). sbind.
  change (reverse l ++ 0 :: b) with ([] ++ reverse l ++ 0 :: b).
  rewrite reverse_loop_spec; [|rewrite length_reverse; lia|done|rewrite zlen_reverse, zlen_nil; lia].
  by rewrite reverse_involutive.
Qed.

Lemma tail_of_drop {A} n (l : list A) : tail (drop n l) = drop (S n) l.
Proof. revert l. induction n as [|n IH]; intros [|x l]; simpl; auto. Qed.

Lemma digits20 v n : has_digits n v -> v < 10 ^ 20 -> (n <= 20)%nat.
Proof. intros Hn Hv. eapply has_digits_le; [done|done|lia]. Qed.

Lemma sdsull2str_spec s v :
  0 <= v <= ULLONG_MAX -> zlen s = SDS_LLSTR_SIZE ->
  sdsull2str s v = Some (decimal v ++ 0 :: drop (S (length (decimal v))) s, zlen (decimal v)) /\
  zlen (decimal v) <= 20.
Proof.
  unfold ULLONG_MAX. intros Hv Hs. pose proof (ndigits_spec v ltac:(lia)) as Hd.
  rewrite (decimal_has_digits _ _ Hd). set (n := ndigits v) in *. clearbody n.
  pose proof (digits20 _ _ Hd ltac:(lia)) as Hn. pose proof (length_dec_n n v) as Hl.
  split; [|zlia]. unfold sdsull2str.
  rewrite <- (take_drop n s) at 1.
  change (take n s ++ drop n s) with ([] ++ take n s ++ drop n s).
  assert (length s = 21%nat) as Hs' by (unfold zlen, SDS_LLSTR_SIZE in Hs; lia).
  change 0 with (zlen (@nil Z)) at 1.
  rewrite (put_digits_spec n) by (done || lia || (rewrite length_take; lia)). sbind.
  cbn [app]. rewrite (finish_digits (dec_n n v)).
  - rewrite tail_of_drop, Hl. do 2 f_equal. zlia.
  - zlia.
  - lia.
  - intros Hb. apply (f_equal length) in Hb. rewrite length_drop in Hb. simpl in Hb. lia.
Qed.

Lemma sdsll2str_spec s v :
  LLONG_MIN < v <= LLONG_MAX -> zlen s = SDS_LLSTR_SIZE ->
  sdsll2str s v = Some (ll_repr v ++ 0 :: drop (S (length (ll_repr v))) s, zlen (ll_repr v)) /\
  zlen (ll_repr v) <= 20.
Proof.
  unfold LLONG_MIN, LLONG_MAX. intros Hv Hs.
  destruct (Z.ltb_spec v 0) as [Hneg|Hpos].
  2: { unfold sdsll2str, ll_repr. rewrite (proj2 (Z.ltb_ge v 0)) by lia. sbind.
       pose proof (sdsull2str_spec s v) as H. unfold sdsull2str in H.
       destruct (put_digits 21 s 0 v) as [[? ?]|]; apply H; unfold ULLONG_MAX; lia. }
  pose proof (ndigits_spec (- v) ltac:(lia)) as Hd.
  unfold ll_repr. rewrite (proj2 (Z.ltb_lt v 0)) by lia.
  rewrite (decimal_has_digits _ _ Hd). set (n := ndigits (- v)) in *. clearbody n.
  pose proof (has_digits_le _ _ 19 Hd ltac:(lia) ltac:(lia)) as Hn.
  pose proof (length_dec_n n (- v)) as Hl.
  split; [|zlia]. unfold sdsll2str. rewrite (proj2 (Z.ltb_lt v 0)) by lia.
  rewrite (proj2 (Z.eqb_neq v LLONG_MIN)) by (unfold LLONG_MIN; lia). sbind.
  assert (length s = 21%nat) as Hs' by (unfold zlen, SDS_LLSTR_SIZE in Hs; lia).
  rewrite <- (take_drop n s) at 1.
  change (take n s ++ drop n s) with ([] ++ take n s ++ drop n s).
  change 0 with (zlen (@nil Z)) at 1.
  rewrite (put_digits_spec n) by (done || lia || (rewrite length_take; lia)). sbind.
  cbn [app]. destruct (drop n s) as [|x b] eqn:Hb.
  { apply (f_equal length) in Hb. rewrite length_drop in Hb. simpl in Hb. lia. }
  rewrite setb_mid by (rewrite zlen_reverse, zlen_nil; zlia). sbind.
  replace (reverse (dec_n n (- v)) ++ 45 :: b) with (reverse (45 :: dec_n n (- v)) ++ b)
    by (by rewrite reverse_cons, <- app_assoc).
  rewrite (finish_digits (45 :: dec_n n (- v))).
  - cbn [length]. rewrite Hl, <- tail_of_drop, <- tail_of_drop, Hb. simpl.
    do 2 f_equal. zlia.
  - rewrite zlen_nil, zlen_cons. zlia.
  - simpl. lia.
  - intros ->. apply (f_equal length) in Hb. rewrite length_drop in Hb. simpl in Hb. lia.
Qed.

(** The smallest integer has no opposite. *)
Lemma sdsll2str_min s : sdsll2str s LLONG_MIN = None.
Proof. done. Qed.

(** ** Lemmas: C strings *)

Lemma strlen_spec t r : no_nul t -> strlen (t ++ 0 :: r) = Some (zlen t).
Proof.
  induction 1 as [|c t Hc _ IH]; [done|]. simpl.
  rewrite (proj2 (Z.eqb_neq _ _)) by done. rewrite IH. sbind. by rewrite zlen_cons.
Qed.

Lemma strlen_until l r : strlen (l ++ 0 :: r) = Some (zlen (until_nul l)).
Proof.
  induction l as [|c l IH]; [done|]. simpl. destruct (c =? 0); [done|].
  rewrite IH. sbind. by rewrite zlen_cons.
Qed.

Lemma until_nul_prefix l : exists r, l = until_nul l ++ r /\ (r = [] \/ exists r', r = 0 :: r').
Proof.
  induction l as [|c l (r & Hl & Hr)]; [exists []; auto|]. simpl.
  destruct (Z.eqb_spec c 0) as [->|].
  - exists (0 :: l). eauto.
  - exists r. rewrite Hl at 1. eauto.
Qed.

Lemma strchr_set cset r c :
  no_nul cset ->
  exists o, strchr (cset ++ 0 :: r) c = Some o /\
    (match o with Some _ => true | None => false end) = ((c =? 0) || existsb (Z.eqb c) cset).
Proof.
  induction 1 as [|x cset Hx _ IH].
  - destruct (Z.eqb_spec c 0) as [->|Hc]; [by exists (Some 0)|].
    exists None. cbn [app strchr]. by rewrite (proj2 (Z.eqb_neq 0 c)) by congruence.
  - simpl. rewrite (Z.eqb_sym c x). destruct (Z.eqb_spec x c) as [->|].
    + exists (Some 0). by rewrite orb_true_r.
    + rewrite (proj2 (Z.eqb_neq x 0)) by done. destruct IH as (o & -> & Ho). sbind.
      exists (option_map Z.succ o). split; [done|]. cbn [orb]. rewrite <- Ho. by destruct o.
Qed.

(** ** Lemmas: the operations *)

Section SdsFacts.
Variable junk : nat -> Z.

Lemma sds_limit_u32 z : 0 <= z <= SDS_LIMIT -> u32 z = z.
Proof. unfold SDS_LIMIT. intros. apply u32_small. lia. Qed.

(** Closing a block with a terminator after [m]. *)
Lemma close (m r : list Z) x l f :
  l = zlen m -> f = zlen r -> zlen m <= INT32_MAX -> zlen m + zlen r <= SDS_LIMIT ->
  exists b, setb (m ++ x :: r) l 0 = Some b /\ sds_ok (mk_sds (u32 l) (u32 f) b) m.
Proof.
  intros -> -> Hm Hr. pose proof (zlen_nonneg m). pose proof (zlen_nonneg r).
  exists (m ++ 0 :: r). rewrite setb_mid by done. split; [done|].
  exists r. rewrite !sds_limit_u32 by lia. done.
Qed.

(** The same when the block is given by its length. *)
Lemma close_at (m r : list Z) l f :
  l = zlen m -> f = zlen r - 1 -> r <> [] -> zlen m <= INT32_MAX ->
  zlen m + zlen r - 1 <= SDS_LIMIT ->
  exists b, setb (m ++ r) l 0 = Some b /\ sds_ok (mk_sds (u32 l) (u32 f) b) m.
Proof.
  intros -> -> Hr Hm Hl. destruct r as [|x r]; [done|]. rewrite zlen_cons in Hl.
  apply close; rewrite ?zlen_cons; lia.
Qed.

Lemma newlen_spec p l n :
  load p 0 n = Some l -> zlen l <= INT32_MAX ->
  exists s, sdsnewlen junk (Some p) n = Some s /\ sds_ok s l.
Proof.
  intros Hl Hmax. pose proof (load_Some _ _ _ _ Hl) as (_ & _ & _ & _ & Hn).
  pose proof (zlen_nonneg l). unfold sdsnewlen.
  set (b := junk <$> seq 0 (Z.to_nat (n + 1))).
  assert (zlen b = n + 1) as Hb by (subst b; unfold zlen; rewrite length_fmap, length_seq; lia).
  assert (exists x, (if n =? 0 then Some b else bs ← load p 0 n; store b 0 bs) = Some (l ++ [x])) as [x ->].
  { clearbody b. destruct b as [|y b _] using rev_ind; [rewrite zlen_nil in Hb; lia|].
    rewrite zlen_app, zlen_cons, zlen_nil in Hb. exists y.
    destruct (Z.eqb_spec n 0) as [Hz|Hz].
    - destruct l; [|rewrite zlen_cons in Hn; pose proof (zlen_nonneg l); lia].
      destruct b; [done|]. rewrite zlen_cons in Hb. pose proof (zlen_nonneg b). lia.
    - rewrite Hl. sbind. change (b ++ [y]) with ([] ++ b ++ [y]).
      rewrite store_mid by (done || lia). done. }
  sbind. destruct (close l [] x n 0) as (b' & -> & Hok); [done|done|done|..].
  { rewrite zlen_nil. unfold INT32_MAX, SDS_LIMIT in *. lia. }
  exists (mk_sds (u32 n) 0 b'). done.
Qed.

(** Room is made without touching the contents nor what follows them. *)
Lemma makeroom_spec l x rest n :
  zlen l <= INT32_MAX -> zlen l + zlen rest <= SDS_LIMIT -> 0 <= n ->
  zlen l + n <= INT32_MAX ->
  exists rest', sdsMakeRoomFor junk (mk_sds (zlen l) (zlen rest) (l ++ x :: rest)) n
    = mk_sds (zlen l) (zlen rest') (l ++ x :: rest') /\
    n <= zlen rest' /\ zlen l + zlen rest' <= SDS_LIMIT.
Proof.
  intros Hl Hr Hn Hln. pose proof (zlen_nonneg l). pose proof (zlen_nonneg rest).
  unfold sdsMakeRoomFor. cbn [free len buf].
  rewrite Z.geb_leb. destruct (Z.leb_spec n (zlen rest)); [by exists rest|].
  unfold INT32_MAX in *. rewrite u64_small by lia.
  set (newlen := if _ <? _ then _ else _).
  assert (zlen l + n <= newlen <= SDS_LIMIT) as Hnew.
  { subst newlen. unfold SDS_MAX_PREALLOC, SDS_LIMIT.
    destruct (Z.ltb_spec (zlen l + n) 1048576); lia. }
  clearbody newlen.
  destruct (realloc_grow junk (l ++ x :: rest) (newlen + 1)) as (m & -> & Hm).
  { rewrite zlen_app, zlen_cons. lia. }
  rewrite zlen_app, zlen_cons in Hm.
  exists (rest ++ m). rewrite zlen_app.
  rewrite sds_limit_u32 by lia. split; [|lia]. rewrite <- app_assoc. f_equal. lia.
Qed.

(** Writing [bs] in the room after [l]. *)
Lemma put_spec (l : list Z) x rest bs :
  zlen bs <= zlen rest ->
  exists y rest', store (l ++ x :: rest) (zlen l) bs = Some (l ++ bs ++ y :: rest') /\
    zlen rest' = zlen rest - zlen bs.
Proof.
  intros Hb. pose proof (zlen_nonneg bs).
  destruct (drop (length bs) (x :: rest)) as [|y rest'] eqn:Hd.
  { apply (f_equal length) in Hd. rewrite length_drop in Hd. simpl in Hd. zlia. }
  exists y, rest'. rewrite put_at, Hd by zlia. split; [done|].
  apply (f_equal length) in Hd. rewrite length_drop in Hd. simpl in Hd. zlia.
Qed.

Lemma catlen_spec s l t n bs :
  sds_ok s l -> load t 0 n = Some bs -> zlen l + zlen bs <= INT32_MAX ->
  exists s', sdscatlen junk s t n = Some s' /\ sds_ok s' (l ++ bs).
Proof.
  intros (rest & -> & Hl & Hr) Ht Hmax. pose proof (zlen_nonneg bs).
  pose proof (load_Some _ _ _ _ Ht) as (_ & _ & _ & _ & Hn). unfold sdscatlen.
  destruct (makeroom_spec l 0 rest n) as (rest' & -> & Hfree & Hlim); [done|done|lia|lia|].
  cbn [len free buf]. rewrite Ht. sbind.
  destruct (put_spec l 0 rest' bs) as (y & r & -> & Hr'); [lia|]. sbind.
  rewrite app_assoc.
  destruct (close (l ++ bs) r y (zlen l + n) (zlen rest' - n)) as (b & -> & Hok);
    rewrite ?zlen_app; [lia..|]. sbind. eauto.
Qed.

Lemma cat_spec s l t p :
  sds_ok s l -> cstr p t -> zlen l + zlen t <= INT32_MAX ->
  exists s', sdscat junk s p = Some s' /\ sds_ok s' (l ++ t).
Proof.
  intros Hs [Ht [r ->]] Hmax. unfold sdscat. rewrite strlen_spec by done. sbind.
  apply catlen_spec; [done|by apply load_prefix|done].
Qed.

Lemma cpylen_spec s l t n bs :
  sds_ok s l -> load t 0 n = Some bs -> zlen bs <= INT32_MAX ->
  exists s', sdscpylen junk s t n = Some s' /\ sds_ok s' bs.
Proof.
  intros (rest & -> & Hl & Hr) Ht Hmax. pose proof (zlen_nonneg bs). pose proof (zlen_nonneg l).
  pose proof (zlen_nonneg rest).
  pose proof (load_Some _ _ _ _ Ht) as (_ & _ & _ & _ & Hn). unfold sdscpylen. cbn [len free buf].
  rewrite sds_limit_u32 by lia.
  assert (exists l' rest', (if zlen rest + zlen l <? n
     then (sdsMakeRoomFor junk (mk_sds (zlen l) (zlen rest) (l ++ 0 :: rest)) (n - zlen l),
           u32 (free (sdsMakeRoomFor junk (mk_sds (zlen l) (zlen rest) (l ++ 0 :: rest)) (n - zlen l)) +
                len (sdsMakeRoomFor junk (mk_sds (zlen l) (zlen rest) (l ++ 0 :: rest)) (n - zlen l))))
     else (mk_sds (zlen l) (zlen rest) (l ++ 0 :: rest), zlen rest + zlen l))
     = (mk_sds (zlen l') (zlen rest') (l' ++ 0 :: rest'), zlen l' + zlen rest') /\
     zlen l' + zlen rest' <= SDS_LIMIT /\ n <= zlen l' + zlen rest') as (l' & rest' & -> & Hlim & Hfit).
  { destruct (Z.ltb_spec (zlen rest + zlen l) n).
    - destruct (makeroom_spec l 0 rest (n - zlen l)) as (rest' & -> & Hf & Hlim); [lia..|].
      exists l, rest'. cbn [len free]. pose proof (zlen_nonneg rest'). rewrite sds_limit_u32 by lia.
      split; [f_equal; lia|lia].
    - exists l, rest. split; [f_equal; lia|lia]. }
  rewrite Ht. sbind. cbn [buf].
  set (blk := l' ++ 0 :: rest').
  assert (zlen blk = zlen l' + zlen rest' + 1) as Hblk by (subst blk; rewrite zlen_app, zlen_cons; lia).
  clearbody blk.
  assert (store blk 0 bs = Some (bs ++ drop (length bs) blk)) as ->
    by (apply (put_at [] blk bs); lia).
  sbind. destruct (close_at bs (drop (length bs) blk) n (zlen l' + zlen rest' - n)) as (b & -> & Hok).
  - lia.
  - rewrite zlen_drop. zlia.
  - intros Hd. apply (f_equal length) in Hd. rewrite length_drop in Hd. simpl in Hd. zlia.
  - done.
  - rewrite zlen_drop. zlia.
  - sbind. eauto.
Qed.

Lemma growzero_ok s l n :
  sds_ok s l -> n <= INT32_MAX ->
  exists s', sdsgrowzero junk s n = Some s' /\ sds_ok s' (growzero_spec n l).
Proof.
  intros Hs Hn. pose proof Hs as (rest & -> & Hl & Hr). pose proof (zlen_nonneg l).
  unfold sdsgrowzero, growzero_spec. cbn [len].
  destruct (Z.leb_spec n (zlen l)).
  { replace (Z.to_nat (n - zlen l)) with 0%nat by lia. simpl. rewrite app_nil_r. eauto. }
  destruct (makeroom_spec l 0 rest (n - zlen l)) as (rest' & -> & Hf & Hlim); [lia..|].
  cbn [len free buf].
  set (k := Z.to_nat (n - zlen l)). replace (Z.to_nat (n - zlen l + 1)) with (S k) by lia.
  rewrite put_at by (rewrite zlen_replicate, zlen_cons; lia). sbind.
  rewrite length_replicate, skipn_cons, replicate_S_end, <- app_assoc. cbn [app].
  pose proof (zlen_nonneg rest'). rewrite (sds_limit_u32 (zlen l + zlen rest')) by lia.
  eexists. split; [done|]. exists (drop k rest').
  rewrite !zlen_app, zlen_replicate, zlen_drop.
  rewrite !sds_limit_u32 by (unfold INT32_MAX, SDS_LIMIT in *; lia).
  rewrite <- app_assoc. split; [f_equal; lia|lia].
Qed.

(** Keeping the middle part [m] of the contents. *)
Lemma keep_spec (a m c rest : list Z) :
  zlen (a ++ m ++ c) <= INT32_MAX -> zlen (a ++ m ++ c) + zlen rest <= SDS_LIMIT ->
  exists b b',
    memmove ((a ++ m ++ c) ++ 0 :: rest) 0 (zlen a) (zlen m) = Some b /\
    setb b (zlen m) 0 = Some b' /\
    sds_ok (mk_sds (u32 (zlen m)) (u32 (zlen rest + (zlen (a ++ m ++ c) - zlen m))) b') m.
Proof.
  intros Hl Hr. set (blk := (a ++ m ++ c) ++ 0 :: rest).
  assert (zlen blk = zlen (a ++ m ++ c) + 1 + zlen rest) as Hb
    by (subst blk; rewrite zlen_app, zlen_cons; lia).
  assert (memmove blk 0 (zlen a) (zlen m) = Some (m ++ drop (length m) blk)) as ->.
  { unfold memmove. subst blk. rewrite <- !app_assoc. rewrite load_mid by done. sbind.
    refine (put_at [] (a ++ m ++ c ++ 0 :: rest) m _).
    rewrite !zlen_app. pose proof (zlen_nonneg a). pose proof (zlen_nonneg c).
    pose proof (zlen_nonneg (0 :: rest)). lia. }
  clearbody blk. eexists. rewrite !zlen_app in *.
  pose proof (zlen_nonneg a). pose proof (zlen_nonneg c). pose proof (zlen_nonneg rest).
  destruct (close_at m (drop (length m) blk) (zlen m)
    (zlen rest + (zlen a + (zlen m + zlen c) - zlen m))) as (b & Hset & Hok).
  - done.
  - rewrite zlen_drop. zlia.
  - intros Hd. apply (f_equal length) in Hd. rewrite length_drop in Hd. simpl in Hd. zlia.
  - lia.
  - rewrite zlen_drop. zlia.
  - by exists b.
Qed.

(** Nothing to move when the part kept is at the front. *)
Lemma cut_spec (m c rest : list Z) :
  zlen (m ++ c) <= INT32_MAX -> zlen (m ++ c) + zlen rest <= SDS_LIMIT ->
  exists b, setb ((m ++ c) ++ 0 :: rest) (zlen m) 0 = Some b /\
    sds_ok (mk_sds (u32 (zlen m)) (u32 (zlen rest + (zlen (m ++ c) - zlen m))) b) m.
Proof.
  intros Hl Hr. rewrite zlen_app in *. rewrite <- app_assoc.
  pose proof (zlen_nonneg c). pose proof (zlen_nonneg rest).
  apply close_at; rewrite ?zlen_app, ?zlen_cons; try lia. by destruct c.
Qed.

(** The ends that [sdsrange] computes: the length is that of the slice, and the
    start is too unless the slice is empty. *)
Lemma range_ends (n i j : Z) :
  0 < n <= INT32_MAX -> 0 <= i <= INT32_MAX -> 0 <= j <= INT32_MAX ->
  let newlen := if i >? j then 0 else j - i + 1 in
  let k := Z.max 0 (Z.min (n - 1) j - i + 1) in
  exists i' j',
    (if negb (newlen =? 0) then
        if i >=? s32 n then (i, j, 0)
        else if j >=? s32 n then
          let last := s32 (n - 1) in (i, last, if i >? last then 0 else last - i + 1)
        else (i, j, newlen)
      else (0, j, newlen)) = (i', j', k) /\ (0 < k -> i' = i) /\ 0 <= i'.
Proof.
  intros Hn Hi Hj newlen k. subst newlen. unfold INT32_MAX in *. rewrite !s32_small by lia.
  destruct (Z.gtb_spec i j).
  - exists 0, j. subst k. split; [simpl; f_equal; lia|lia].
  - rewrite (proj2 (Z.eqb_neq _ 0)) by lia. cbn [negb]. rewrite !Z.geb_leb.
    destruct (Z.leb_spec n i).
    { exists i, j. subst k. split; [f_equal; lia|lia]. }
    destruct (Z.leb_spec n j).
    + exists i, (n - 1). cbv zeta. subst k.
      rewrite Z.gtb_ltb, (proj2 (Z.ltb_ge _ _)) by lia. split; [f_equal; lia|lia].
    + exists i, j. subst k. split; [f_equal; lia|lia].
Qed.

Lemma range_index n i :
  0 <= n <= INT32_MAX -> INT32_MIN <= i <= INT32_MAX ->
  exists j, (if i <? 0 then Z.max 0 (s32 (n + i)) else i) = j /\
    (if i <? 0 then Z.max 0 (n + i) else i) = j /\ 0 <= j <= INT32_MAX.
Proof.
  unfold INT32_MIN, INT32_MAX. intros Hn Hi. destruct (Z.ltb_spec i 0).
  - rewrite s32_small by lia. eexists. split; [done|]. split; [done|]. lia.
  - exists i. split; [done|]. split; [done|]. lia.
Qed.

Lemma range_ok s l start last :
  sds_ok s l -> INT32_MIN <= start <= INT32_MAX -> INT32_MIN <= last <= INT32_MAX ->
  exists s', sdsrange s start last = Some s' /\ sds_ok s' (range_spec start last l).
Proof.
  intros Hs Hst Hla. pose proof Hs as (rest & -> & Hl & Hr). pose proof (zlen_nonneg l).
  unfold sdsrange, range_spec. cbn [len buf free].
  destruct (Z.eqb_spec (zlen l) 0) as [Hz|Hz].
  { eexists. split; [done|]. destruct l; [|rewrite zlen_cons in Hz; pose proof (zlen_nonneg l); lia].
    by rewrite drop_nil, take_nil. }
  destruct (range_index (zlen l) start) as (i & -> & -> & Hi); [done..|].
  destruct (range_index (zlen l) last) as (j & -> & -> & Hj); [done..|].
  pose proof (range_ends (zlen l) i j ltac:(lia) Hi Hj) as Hends. cbv zeta in Hends |- *.
  destruct Hends as (i' & j' & -> & Hi' & Hi'0).
  set (k := Z.min (zlen l - 1) j - i + 1) in *.
  pose proof (split_slice l (Z.to_nat i) (Z.to_nat k)) as Hspl.
  assert (zlen (take (Z.to_nat k) (drop (Z.to_nat i) l)) = Z.max 0 k) as Hm
    by (rewrite zlen_take, zlen_drop; lia).
  assert (0 < k -> zlen (take (Z.to_nat i) l) = i) as Ha by (rewrite zlen_take; lia).
  destruct (decide (0 < k)) as [Hk|Hk].
  - rewrite Hi' by lia. destruct (Z.eqb_spec i 0) as [->|Hi0].
    + rewrite take_0 in Hspl. cbn [app negb andb].
      destruct (cut_spec (take (Z.to_nat k) l) (drop (Z.to_nat k) l) rest) as (b & Hb & Hok);
        rewrite take_drop in *; [done..|]. rewrite drop_0 in *. sbind. rewrite Hm in *.
      rewrite Hb. sbind. eauto.
    + rewrite (proj2 (Z.eqb_neq (Z.max 0 k) 0)) by lia. cbn [negb andb].
      destruct (keep_spec (take (Z.to_nat i) l) (take (Z.to_nat k) (drop (Z.to_nat i) l))
        (drop (Z.to_nat k) (drop (Z.to_nat i) l)) rest) as (b & b' & Hmv & Hb & Hok);
        rewrite <- Hspl in *; [done..|].
      rewrite Ha, Hm in * by done. rewrite Hmv. sbind. rewrite Hb. sbind. eauto.
  - destruct (cut_spec [] l rest) as (b & Hb & Hok); [done..|]. cbn [app] in *.
    rewrite Z.max_l in * by lia. rewrite andb_false_r. sbind.
    rewrite (@zlen_nil Z) in *. rewrite Hb. sbind.
    replace (Z.to_nat k) with 0%nat by lia. rewrite take_0. eauto.
Qed.

(** ** Lemmas: sdstrim *)

Lemma drop_while_split f l :
  exists p, l = p ++ drop_while f l /\
    (drop_while f l = [] \/ exists x d, drop_while f l = x :: d /\ f x = false).
Proof.
  induction l as [|c l (p & Hp & Hd)]; [exists []; auto|]. simpl.
  destruct (f c) eqn:Hc.
  - exists (c :: p). simpl. by rewrite <- Hp.
  - exists []. split; [done|]. right. by exists c, l.
Qed.

Lemma drop_while_app f d x e :
  f x = false -> drop_while f ((d ++ [x]) ++ e) = drop_while f (d ++ [x]) ++ e.
Proof.
  intros Hx. induction d as [|c d IH]; simpl; [by rewrite Hx|]. destruct (f c); [done|].
  simpl. by rewrite <- app_assoc.
Qed.

Lemma drop_while_stop f d x : f x = false -> drop_while f (d ++ [x]) <> [].
Proof.
  intros Hx. induction d as [|c d IH]; simpl; [by rewrite Hx|]. by destruct (f c).
Qed.

(** The parts removed on the left and on the right. *)
Lemma trim_parts f l :
  let m := reverse (drop_while f (reverse (drop_while f l))) in
  drop_while f l = [] \/
  exists p c, l = p ++ m ++ c /\ drop_while f l = m ++ c /\ m <> [] /\
    drop_while f (reverse l) = reverse m ++ reverse p.
Proof.
  cbv zeta. destruct (drop_while_split f l) as (p & Hp & [Hd|(x & d & Hd & Hx)]); [by left|].
  right. rewrite Hd in *. set (m := reverse (drop_while f (reverse (x :: d)))).
  destruct (drop_while_split f (reverse (x :: d))) as (q & Hq & _).
  assert (x :: d = m ++ reverse q) as Hxd.
  { apply (f_equal reverse) in Hq. by rewrite reverse_involutive, reverse_app in Hq. }
  exists p, (reverse q). rewrite <- Hxd. split; [done|]. split; [done|]. split.
  - intros Hm. apply (f_equal reverse) in Hm. subst m.
    rewrite reverse_involutive, reverse_cons in Hm. by apply drop_while_stop in Hm.
  - rewrite Hp, reverse_app, reverse_cons, drop_while_app by done. subst m.
    by rewrite reverse_involutive, reverse_cons.
Qed.

Lemma drop_while_le f l : zlen (drop_while f l) <= zlen l.
Proof.
  destruct (drop_while_split f l) as (q & Hq & _). rewrite Hq at 2. rewrite zlen_app.
  pose proof (zlen_nonneg q). lia.
Qed.

Section Trim.
Context (cset : list Z) (Hcset : no_nul cset) (rcs : list Z).
Let f c := (c =? 0) || existsb (Z.eqb c) cset.

Lemma trim_left_spec rest d : forall a fuel,
  (length d < fuel)%nat ->
  trim_left fuel ((a ++ d) ++ rest) (cset ++ 0 :: rcs) (zlen a) (zlen (a ++ d) - 1)
  = Some (zlen (a ++ d) - zlen (drop_while f d)).
Proof.
  induction d as [|x d IH]; intros a [|fuel] Hf; simpl in Hf; try lia; cbn [trim_left].
  - rewrite app_nil_r. rewrite (proj2 (Z.leb_gt _ _)) by lia. f_equal. simpl. zlia.
  - rewrite zlen_app, zlen_cons. pose proof (zlen_nonneg d).
    rewrite (proj2 (Z.leb_le _ _)) by lia.
    rewrite <- app_assoc. cbn [app]. rewrite getb_mid by done. sbind.
    destruct (strchr_set cset rcs x Hcset) as (o & -> & Ho). sbind. cbn [drop_while].
    fold (f x) in Ho. destruct o; rewrite <- Ho.
    + specialize (IH (a ++ [x]) fuel ltac:(lia)).
      rewrite <- !app_assoc, !zlen_app, !zlen_cons, (@zlen_nil Z) in IH. cbn [app] in IH.
      rewrite Z.add_0_r in IH. rewrite <- IH. do 2 f_equal; lia.
    + rewrite zlen_cons. f_equal. lia.
Qed.

Lemma trim_right_spec l : forall rest fuel,
  l <> [] -> (length l < fuel)%nat ->
  trim_right fuel (l ++ rest) (cset ++ 0 :: rcs) (zlen l - 1)
  = Some (Z.max 0 (zlen (drop_while f (reverse l)) - 1)).
Proof.
  induction l as [|y l IH] using rev_ind; intros rest [|fuel] Hl Hf; try (done || lia).
  cbn [trim_right]. rewrite length_app in Hf. simpl in Hf.
  rewrite zlen_app, zlen_cons, zlen_nil, reverse_app. cbn [reverse rev_append app].
  rewrite <- app_assoc. cbn [app drop_while].
  destruct (Z.gtb_spec (zlen l + (1 + 0) - 1) 0).
  - rewrite getb_mid by lia. sbind.
    destruct (strchr_set cset rcs y Hcset) as (o & -> & Ho). sbind.
    fold (f y) in Ho. destruct o; rewrite <- Ho.
    + replace (zlen l + (1 + 0) - 1 - 1) with (zlen l - 1) by lia.
      apply IH; [|lia]. intros ->. rewrite (@zlen_nil Z) in *. lia.
    + rewrite zlen_cons, zlen_reverse. f_equal. lia.
  - destruct l as [|z l]; [|rewrite zlen_cons in *; pose proof (zlen_nonneg l); lia].
    f_equal. simpl. case_match; simpl; zlia.
Qed.

Lemma trim_ok s l :
  sds_ok s l -> exists s', sdstrim s (cset ++ 0 :: rcs) = Some s' /\ sds_ok s' (trim_spec cset l).
Proof.
  intros (rest & -> & Hl & Hr). unfold sdstrim, trim_spec. cbn [len buf free]. fold f.
  pose proof (trim_left_spec (0 :: rest) l [] (S (Z.to_nat (zlen l))) ltac:(unfold zlen; lia)) as Hleft.
  cbn [app] in Hleft. rewrite (@zlen_nil Z) in Hleft. rewrite Hleft. sbind. clear Hleft.
  destruct (decide (l = [])) as [->|Hne].
  { simpl. rewrite (@zlen_nil Z). cbn [Z.sub]. eexists. split; [done|].
    exists rest. rewrite (@zlen_nil Z) in *. pose proof (zlen_nonneg rest).
    rewrite Z.sub_0_r, Z.add_0_r, !sds_limit_u32 by lia. cbn [reverse rev_append app].
    rewrite (@zlen_nil Z). split; [reflexivity|]. by split. }
  rewrite trim_right_spec by (done || (unfold zlen; lia)). sbind.
  pose proof (zlen_pos l Hne) as Hpos.
  destruct (trim_parts f l) as [Hd|(p & c & Hp & Hd & Hm & Hrl)]; cbv zeta in *.
  - rewrite Hd. pose proof (drop_while_le f (reverse l)) as Hle. rewrite zlen_reverse in Hle.
    rewrite (@zlen_nil Z), Z.sub_0_r. rewrite Z.gtb_ltb, (proj2 (Z.ltb_lt _ _)) by lia.
    rewrite (proj2 (Z.eqb_neq _ _)) by lia.
    destruct (keep_spec l [] [] rest) as (b & b' & Hmv & Hb & Hok); [by rewrite app_nil_r..|].
    rewrite !app_nil_r in *. rewrite (@zlen_nil Z) in *. rewrite Hmv. sbind. rewrite Hb. sbind. eauto.
  - rewrite Hrl. set (m := reverse _) in *. clearbody m. clear Hrl.
    rewrite Hd, !zlen_app, !zlen_reverse. pose proof (zlen_pos m Hm). pose proof (zlen_nonneg p).
    replace (zlen l - (zlen m + zlen c)) with (zlen p) by (rewrite Hp, !zlen_app; lia).
    rewrite Z.max_r by lia. rewrite Z.gtb_ltb, (proj2 (Z.ltb_ge _ _)) by lia.
    replace (zlen m + zlen p - 1 - zlen p + 1) with (zlen m) by lia. clear Hne Hd. subst l.
    destruct (Z.eqb_spec (zlen p) 0) as [Hp0|Hp0].
    + apply zlen_0 in Hp0. subst p. cbn [app] in *.
      destruct (cut_spec m c rest) as (b & Hb & Hok); [done..|]. sbind. rewrite Hb. sbind. eauto.
    + destruct (keep_spec p m c rest) as (b & b' & Hmv & Hb & Hok); [done..|].
      rewrite Hmv. sbind. rewrite Hb. sbind. eauto.
Qed.

End Trim.

(** ** Lemmas: the other operations *)

Lemma clear_ok s l : sds_ok s l -> exists s', sdsclear s = Some s' /\ sds_ok s' [].
Proof.
  intros (rest & -> & Hl & Hr). unfold sdsclear. cbn [len buf free].
  destruct (cut_spec [] l rest) as (b & Hb & Hok); [done..|].
  rewrite (@zlen_nil Z) in *. cbn [app] in *. rewrite Hb. sbind. rewrite Z.sub_0_r in Hok. eauto.
Qed.

Lemma updatelen_ok s l :
  sds_ok s l -> exists s', sdsupdatelen s = Some s' /\ sds_ok s' (until_nul l).
Proof.
  intros (rest & -> & Hl & Hr). unfold sdsupdatelen. cbn [len buf free].
  rewrite strlen_until. sbind. cbv zeta.
  destruct (until_nul_prefix l) as (r & Hlr & Hr').
  pose proof (zlen_nonneg (until_nul l)). pose proof (zlen_nonneg r). pose proof (zlen_nonneg rest).
  assert (zlen l = zlen (until_nul l) + zlen r) as Hz by (rewrite Hlr at 1; apply zlen_app).
  unfold INT32_MAX in *. rewrite s32_small by lia. rewrite !sds_limit_u32 by lia.
  eexists. split; [done|]. rewrite Hz.
  replace (zlen rest + (zlen (until_nul l) + zlen r - zlen (until_nul l))) with (zlen rest + zlen r) by lia.
  destruct Hr' as [->|[r' ->]].
  - rewrite app_nil_r in Hlr. rewrite <- Hlr. exists rest.
    rewrite (@zlen_nil Z), Z.add_0_r. done.
  - rewrite zlen_cons in *. exists (r' ++ 0 :: rest). rewrite zlen_app, zlen_cons.
    split; [|unfold INT32_MAX; lia]. f_equal; [lia|]. rewrite Hlr at 1. by rewrite <- app_assoc.
Qed.

Lemma removefree_ok s l : sds_ok s l -> sds_ok (sdsRemoveFreeSpace junk s) l.
Proof.
  intros (rest & -> & Hl & Hr). unfold sdsRemoveFreeSpace. cbn [len buf free].
  replace (l ++ 0 :: rest) with ((l ++ [0]) ++ rest) by (by rewrite <- app_assoc).
  rewrite realloc_shrink by (rewrite zlen_app; done).
  exists []. rewrite (@zlen_nil Z). pose proof (zlen_nonneg rest). split; [done|]. split; [done|lia].
Qed.

Lemma makeroom_ok s l n :
  sds_ok s l -> 0 <= n -> zlen l + n <= INT32_MAX -> sds_ok (sdsMakeRoomFor junk s n) l.
Proof.
  intros (rest & -> & Hl & Hr) Hn Hmax.
  destruct (makeroom_spec l 0 rest n) as (r & -> & _ & ?); [done..|]. by exists r.
Qed.

(** Shortening from the right with a negative increment. *)
Lemma incrlen_neg s l n :
  sds_ok s l -> 0 < n <= zlen l ->
  exists s', sdsIncrLen s (- n) = Some s' /\ sds_ok s' (take (Z.to_nat (zlen l - n)) l).
Proof.
  intros (rest & -> & Hl & Hr) Hn. unfold sdsIncrLen. cbn [len buf free].
  pose proof (zlen_nonneg rest). unfold INT32_MAX in *.
  rewrite !Z.geb_leb, (proj2 (Z.leb_gt 0 (- n))) by lia.
  rewrite Z.opp_involutive, (u32_small n), (proj2 (Z.leb_le n (zlen l))) by lia.
  set (m := take (Z.to_nat (zlen l - n)) l).
  assert (zlen m = zlen l - n) as Hm by (subst m; rewrite zlen_take; lia).
  destruct (cut_spec m (drop (Z.to_nat (zlen l - n)) l) rest) as (b & Hb & Hok).
  1,2: subst m; by rewrite take_drop.
  subst m. rewrite take_drop, Hm in *. rewrite !u32_small in Hok by (unfold SDS_LIMIT in *; lia).
  rewrite !u32_small by (unfold SDS_LIMIT in *; lia).
  replace (zlen l + - n) with (zlen l - n) by lia. rewrite Hb. sbind. eexists. split; [done|].
  by replace (zlen rest - - n) with (zlen rest + (zlen l - (zlen l - n))) by lia.
Qed.

(** The schema of the comment of [sdsIncrLen]: room is made, a read writes [bs]
    after the contents, and the length is fixed. *)
Definition append_read (s : sdshdr) (n : Z) (bs : list Z) : option sdshdr :=
  let s := sdsMakeRoomFor junk s n in
  b ← store (buf s) (len s) bs;
  sdsIncrLen (mk_sds (len s) (free s) b) (zlen bs).

Lemma append_read_ok s l n bs :
  sds_ok s l -> zlen bs <= n -> zlen l + n <= INT32_MAX ->
  exists s', append_read s n bs = Some s' /\ sds_ok s' (l ++ bs).
Proof.
  intros (rest & -> & Hl & Hr) Hn Hmax. pose proof (zlen_nonneg bs). pose proof (zlen_nonneg l).
  unfold append_read.
  destruct (makeroom_spec l 0 rest n) as (r & -> & Hf & Hlim); [lia..|].
  cbn [buf len free]. destruct (put_spec l 0 r bs) as (y & r' & -> & Hr'); [lia|]. sbind.
  unfold sdsIncrLen. cbn [len buf free]. unfold INT32_MAX in *.
  rewrite !Z.geb_leb, (proj2 (Z.leb_le 0 (zlen bs))) by lia.
  rewrite (u32_small (zlen bs)), (proj2 (Z.leb_le _ _)) by lia.
  rewrite (u32_small (zlen l + zlen bs)) by lia. rewrite app_assoc.
  destruct (close (l ++ bs) r' y (zlen l + zlen bs) (zlen r - zlen bs)) as (b & Hb & Hok);
    rewrite ?zlen_app; unfold INT32_MAX; [lia..|].
  rewrite Hb. sbind. rewrite (u32_small (zlen l + zlen bs)) in Hok by lia. eauto.
Qed.

Lemma map_prefix_ok (g : Z -> Z) l rest :
  zlen l <= INT32_MAX -> zlen l + zlen rest <= SDS_LIMIT ->
  sds_ok (mk_sds (zlen l) (zlen rest)
    ((g <$> take (Z.to_nat (zlen l)) (l ++ 0 :: rest)) ++ drop (Z.to_nat (zlen l)) (l ++ 0 :: rest)))
    (g <$> l).
Proof.
  intros Hl Hr. exists rest. rewrite zlen_fmap, to_nat_zlen.
  rewrite take_app_length, drop_app_length. done.
Qed.

Lemma tolower_ok s l : sds_ok s l -> sds_ok (sdstolower s) (tolower <$> l).
Proof. intros (rest & -> & Hl & Hr). by apply map_prefix_ok. Qed.
Lemma toupper_ok s l : sds_ok s l -> sds_ok (sdstoupper s) (toupper <$> l).
Proof. intros (rest & -> & Hl & Hr). by apply map_prefix_ok. Qed.

Lemma dup_ok s l : sds_ok s l -> exists s', sdsdup junk s = Some s' /\ sds_ok s' l.
Proof.
  intros (rest & -> & Hl & Hr). apply newlen_spec; [|done]. cbn [buf len]. by apply load_prefix.
Qed.

Lemma mapchar_ok from : forall to c,
  (length from <= length to)%nat -> mapchar from to (length from) c = Some (mapchar_spec from to c).
Proof.
  induction from as [|x from IH]; intros [|y to] c Hl; simpl in Hl; try done; [lia|].
  cbn [mapchar length]. unfold mapchar_spec. cbn [list_find].
  destruct (Z.eqb_spec c x) as [->|Hne].
  - rewrite decide_True by done. done.
  - rewrite decide_False by done. cbn [tail]. rewrite IH by lia. unfold mapchar_spec.
    by destruct (list_find _ from) as [[? ?]|].
Qed.

Lemma mapchars_ok s l from to :
  sds_ok s l -> (length from <= length to)%nat ->
  exists s', sdsmapchars s from to (zlen from) = Some s' /\ sds_ok s' (mapchar_spec from to <$> l).
Proof.
  intros (rest & -> & Hl & Hr) Hlen. unfold sdsmapchars. cbn [buf len free].
  rewrite !to_nat_zlen, take_app_length, drop_app_length.
  assert (mapM (mapchar from to (length from)) l = Some (mapchar_spec from to <$> l)) as ->.
  { apply mapM_Some. apply Forall2_fmap_r, Forall_Forall2_diag, Forall_true.
    intros c. by apply mapchar_ok. }
  sbind. eexists. split; [done|]. exists rest. by rewrite zlen_fmap.
Qed.

Lemma catrepr_loop_ok p : forall s l r,
  sds_ok s l -> zlen l + zlen (concat (repr_char <$> p)) <= INT32_MAX ->
  exists s', catrepr_loop junk s (p ++ r) (length p) = Some s' /\
    sds_ok s' (l ++ concat (repr_char <$> p)).
Proof.
  induction p as [|c p IH]; intros s l r Hs Hmax.
  { exists s. split; [done|]. simpl. by rewrite app_nil_r. }
  cbn [length catrepr_loop app fmap list_fmap concat] in *. rewrite zlen_app in Hmax.
  pose proof (zlen_nonneg (concat (repr_char <$> p))).
  destruct (catlen_spec s l (repr_char c) _ (repr_char c) Hs (load_self _)) as (s' & -> & Hs'); [lia|].
  sbind. destruct (IH s' (l ++ repr_char c) r Hs') as (s'' & -> & Hs''); [rewrite zlen_app; lia|].
  rewrite app_assoc. eauto.
Qed.

Lemma catrepr_ok s l p r :
  sds_ok s l -> zlen l + zlen (repr_spec p) <= INT32_MAX ->
  exists s', sdscatrepr junk s (p ++ r) (zlen p) = Some s' /\ sds_ok s' (l ++ repr_spec p).
Proof.
  intros Hs Hmax. unfold repr_spec in *. rewrite !zlen_app in Hmax. change (zlen [34]) with 1 in Hmax.
  pose proof (zlen_nonneg (concat (repr_char <$> p))). unfold sdscatrepr.
  destruct (catlen_spec s l [34] 1 [34] Hs) as (s1 & -> & H1); [done|change (zlen [34]) with 1; lia|]. sbind.
  rewrite to_nat_zlen. destruct (catrepr_loop_ok p s1 (l ++ [34]) r H1) as (s2 & -> & H2);
    [rewrite zlen_app; change (zlen [34]) with 1; lia|]. sbind.
  destruct (catlen_spec s2 _ [34] 1 [34] H2) as (s3 & -> & H3);
    [done|rewrite !zlen_app; change (zlen [34]) with 1; lia|].
  exists s3. split; [done|]. by rewrite <- !app_assoc in *.
Qed.

(** ** Lemmas: sdscatfmt

    While it runs the contents are not terminated. *)

Definition sds_open (s : sdshdr) (l : list Z) : Prop :=
  exists x rest, s = mk_sds (zlen l) (zlen rest) (l ++ x :: rest) /\
    zlen l <= INT32_MAX /\ zlen l + zlen rest <= SDS_LIMIT.

(** A string with at least [n] free bytes. *)
Definition sds_room (s : sdshdr) (l : list Z) (n : Z) : Prop := sds_open s l /\ n <= free s.

Lemma open_room s l n :
  sds_open s l -> 0 <= n -> zlen l + n <= INT32_MAX ->
  sds_room (if free s <? n then sdsMakeRoomFor junk s n else s) l n.
Proof.
  intros (x & rest & -> & Hl & Hr) Hn Hmax. cbn [free].
  destruct (Z.ltb_spec (zlen rest) n).
  - destruct (makeroom_spec l x rest n) as (rest' & -> & Hf & Hlim); [lia..|].
    split; [|done]. by exists x, rest'.
  - split; [|cbn [free]; lia]. by exists x, rest.
Qed.

Lemma fmt_put_spec s l str n bs :
  sds_open s l -> load str 0 n = Some bs -> zlen l + zlen bs <= INT32_MAX ->
  exists s', fmt_put junk s (zlen l) str n = Some (s', zlen (l ++ bs)) /\ sds_open s' (l ++ bs).
Proof.
  intros Hs Hload Hmax. pose proof (load_Some _ _ _ _ Hload) as (_ & _ & _ & _ & Hn).
  pose proof (zlen_nonneg bs). pose proof (zlen_nonneg l). unfold fmt_put.
  destruct (open_room s l n Hs) as [(x & rest & -> & Hl & Hr) Hf]; [lia..|].
  cbn [free len buf] in *. rewrite Hload. sbind.
  destruct (put_spec l x rest bs) as (y & r & -> & Hr'); [lia|]. sbind.
  rewrite !sds_limit_u32 by (unfold INT32_MAX, SDS_LIMIT in *; lia).
  rewrite zlen_app. eexists. split; [by rewrite Hn|]. exists y, r. rewrite zlen_app, <- app_assoc.
  split; [f_equal; lia|]. lia.
Qed.

Lemma fmt_putc_spec s l c :
  sds_room s l 1 -> zlen l + 1 <= INT32_MAX ->
  exists s', fmt_putc s (zlen l) c = Some (s', zlen (l ++ [c])) /\ sds_open s' (l ++ [c]).
Proof.
  intros [(x & rest & -> & Hl & Hr) Hf] Hmax. unfold fmt_putc. cbn [free len buf] in *.
  destruct rest as [|y rest]; [done|]. rewrite zlen_cons in *. pose proof (zlen_nonneg rest).
  pose proof (zlen_nonneg l).
  rewrite setb_mid by done. sbind. rewrite !sds_limit_u32 by (unfold INT32_MAX, SDS_LIMIT in *; lia).
  rewrite zlen_app, zlen_cons, (@zlen_nil Z), Z.add_0_r. eexists. split; [done|].
  exists y, rest. rewrite zlen_app, zlen_cons, (@zlen_nil Z), <- app_assoc.
  split; [cbn [app]; f_equal; lia|]. lia.
Qed.

Lemma fmt_directive_spec s l d a t ap :
  sds_open s l -> arg_ok a d t -> zlen l + zlen t <= INT32_MAX ->
  exists s', fmt_directive junk s (zlen l) d (a :: ap) = Some (s', zlen (l ++ t), ap) /\
    sds_open s' (l ++ t).
Proof.
  intros Hs Ha Hmax.
  assert (zlen (junk <$> seq 0 (Z.to_nat SDS_LLSTR_SIZE)) = SDS_LLSTR_SIZE) as Hnb.
  { rewrite zlen_fmap. unfold zlen. by rewrite length_seq. }
  unfold fmt_directive. set (numbuf := junk <$> seq 0 (Z.to_nat SDS_LLSTR_SIZE)) in *.
  clearbody numbuf.
  assert (forall v d a, LLONG_MIN < v <= LLONG_MAX -> va_int d a = Some v -> zlen l + zlen (ll_repr v) <= INT32_MAX ->
    exists s', (num ← va_int d a; '(b, n) ← sdsll2str numbuf num; '(s', i) ← fmt_put junk s (zlen l) b n; Some (s', i, ap))
      = Some (s', zlen (l ++ ll_repr v), ap) /\ sds_open s' (l ++ ll_repr v)) as Hint.
  { intros v d0 a0 Hv -> Hm. sbind. destruct (sdsll2str_spec numbuf v Hv Hnb) as [-> _]. sbind.
    destruct (fmt_put_spec s l (ll_repr v ++ 0 :: drop (S (length (ll_repr v))) numbuf)
      (zlen (ll_repr v)) (ll_repr v) Hs) as (s' & -> & Hs'); [by apply load_prefix|done|]. sbind. eauto. }
  assert (forall v d a, 0 <= v <= ULLONG_MAX -> va_uint d a = Some v -> zlen l + zlen (decimal v) <= INT32_MAX ->
    exists s', (unum ← va_uint d a; '(b, n) ← sdsull2str numbuf unum; '(s', i) ← fmt_put junk s (zlen l) b n; Some (s', i, ap))
      = Some (s', zlen (l ++ decimal v), ap) /\ sds_open s' (l ++ decimal v)) as Huint.
  { intros v d0 a0 Hv -> Hm. sbind. destruct (sdsull2str_spec numbuf v Hv Hnb) as [-> _]. sbind.
    destruct (fmt_put_spec s l (decimal v ++ 0 :: drop (S (length (decimal v))) numbuf)
      (zlen (decimal v)) (decimal v) Hs) as (s' & -> & Hs'); [by apply load_prefix|done|]. sbind. eauto. }
  destruct a as [p|s0|v|v|v|v]; simpl in Ha.
  - destruct Ha as [-> [Ht [r ->]]]. eval_tests. rewrite strlen_spec by done. sbind.
    destruct (fmt_put_spec s l (t ++ 0 :: r) (zlen t) t Hs) as (s' & -> & Hs'); [by apply load_prefix|done|].
    sbind. eauto.
  - destruct Ha as [-> (r & -> & _ & _)]. eval_tests. cbn [buf len].
    destruct (fmt_put_spec s l (t ++ 0 :: r) (zlen t) t Hs) as (s' & -> & Hs'); [by apply load_prefix|done|].
    sbind. eauto.
  - destruct Ha as (-> & Hv & ->). apply (Hint v 105 (ArgInt v)); [unfold INT32_MIN, INT32_MAX, LLONG_MIN, LLONG_MAX in *; lia|done|done].
  - destruct Ha as (-> & Hv & ->). by apply (Hint v 73 (ArgLongLong v)).
  - destruct Ha as (-> & Hv & ->). apply (Huint v 117 (ArgUint v)); [unfold ULLONG_MAX in *; lia|done|done].
  - destruct Ha as (-> & Hv & ->). by apply (Huint v 85 (ArgUlongLong v)).
Qed.

Lemma fmt_other_spec s i d ap :
  d ∉ [115; 83; 105; 73; 117; 85; 0] ->
  fmt_directive junk s i d ap = ('(s, i) ← fmt_putc s i d; Some (s, i, ap)).
Proof.
  rewrite !not_elem_of_cons. intros (H1 & H2 & H3 & H4 & H5 & H6 & _). unfold fmt_directive.
  by rewrite (proj2 (Z.eqb_neq d 115)), (proj2 (Z.eqb_neq d 83)), (proj2 (Z.eqb_neq d 105)),
    (proj2 (Z.eqb_neq d 73)), (proj2 (Z.eqb_neq d 117)), (proj2 (Z.eqb_neq d 85)) by done.
Qed.

Lemma catfmt_loop_spec r f ap out :
  fmt_ok f ap out -> forall s l,
  sds_open s l -> zlen l + zlen out < INT32_MAX ->
  exists s', catfmt_loop junk (f ++ 0 :: r) ap s (zlen l) = Some (s', zlen (l ++ out)) /\
    sds_open s' (l ++ out).
Proof.
  assert (forall s l, sds_open s l -> zlen l < INT32_MAX ->
    sds_room (if free s =? 0 then sdsMakeRoomFor junk s 1 else s) l 1) as Hroom.
  { intros s l Hs Hl. pose proof (open_room s l 1 Hs ltac:(lia) ltac:(lia)) as Hr.
    destruct Hs as (x & rest & -> & _). cbn [free] in *. pose proof (zlen_nonneg rest).
    replace (zlen rest =? 0) with (zlen rest <? 1); [done|].
    destruct (Z.ltb_spec (zlen rest) 1), (Z.eqb_spec (zlen rest) 0); lia. }
  induction 1 as [ap|c f ap out Hc Hc0 _ IH|d a t f ap out Ha _ IH|d f ap out Hd _ IH];
    intros s l Hs Hmax; cbn [app catfmt_loop].
  - exists s. rewrite app_nil_r. done.
  - rewrite (proj2 (Z.eqb_neq c 0)), (proj2 (Z.eqb_neq c 37)) by done.
    rewrite zlen_cons in Hmax. pose proof (zlen_nonneg out).
    destruct (fmt_putc_spec _ l c (Hroom s l Hs ltac:(lia))) as (s1 & -> & H1); [lia|]. sbind.
    destruct (IH s1 _ H1) as (s2 & -> & H2); [rewrite zlen_app, zlen_cons, (@zlen_nil Z); lia|].
    exists s2. by rewrite <- app_assoc in *.
  - change (37 =? 0) with false. change (37 =? 37) with true. cbv iota.
    rewrite zlen_app in Hmax. pose proof (zlen_nonneg out). pose proof (zlen_nonneg t).
    destruct (Hroom s l Hs ltac:(lia)) as [Hs0 _].
    destruct (fmt_directive_spec _ l d a t ap Hs0 Ha ltac:(lia)) as (s1 & -> & H1). sbind.
    destruct (IH s1 _ H1) as (s2 & -> & H2); [rewrite zlen_app; lia|].
    exists s2. by rewrite <- app_assoc in *.
  - change (37 =? 0) with false. change (37 =? 37) with true. cbv iota.
    rewrite zlen_cons in Hmax. pose proof (zlen_nonneg out).
    rewrite fmt_other_spec by done.
    destruct (fmt_putc_spec _ l d (Hroom s l Hs ltac:(lia))) as (s1 & -> & H1); [lia|]. sbind.
    destruct (IH s1 _ H1) as (s2 & -> & H2); [rewrite zlen_app, zlen_cons, (@zlen_nil Z); lia|].
    exists s2. by rewrite <- app_assoc in *.
Qed.

Lemma catfmt_ok s l f ap out r :
  sds_ok s l -> fmt_ok f ap out -> zlen l + zlen out < INT32_MAX ->
  exists s', sdscatfmt junk s (f ++ 0 :: r) ap = Some s' /\ sds_ok s' (l ++ out).
Proof.
  intros (rest & -> & Hl & Hr) Hf Hmax. unfold sdscatfmt. cbn [len].
  destruct (catfmt_loop_spec r f ap out Hf (mk_sds (zlen l) (zlen rest) (l ++ 0 :: rest)) l)
    as (s' & -> & x & rest' & -> & Hl' & Hr'); [by exists 0, rest|done|].
  sbind. cbn [buf len free]. rewrite setb_mid by done. sbind. eexists. split; [done|]. by exists rest'.
Qed.

End SdsFacts.

(** ** Refinement: sequences of operations *)

Inductive sds_op :=
  | OCatlen (t : list Z) | OCat (t : list Z) | OCatsds (t : sdshdr)
  | OCpylen (t : list Z) | OCpy (t : list Z)
  | OGrowzero (n : Z) | OMakeRoom (n : Z) | ORemoveFree | OClear | OUpdatelen | ODup
  | ORead (n : Z) (bs : list Z) | OShorten (n : Z)
  | ORange (start last : Z) | OTrim (cset : list Z)
  | OTolower | OToupper | OMapchars (from to : list Z)
  | OCatrepr (p : list Z)
  | OCatfmt (fmt : list Z) (ap : list fmt_arg) (out : list Z).

Definition contents (s : sdshdr) : list Z := take (Z.to_nat (len s)) (buf s).

(** The operation on the representation, C strings given with their terminator. *)
Definition run_op (junk : nat -> Z) (s : sdshdr) (op : sds_op) : option sdshdr :=
  match op with
  | OCatlen t => sdscatlen junk s t (zlen t)
  | OCat t => sdscat junk s (t ++ [0])
  | OCatsds t => sdscatsds junk s t
  | OCpylen t => sdscpylen junk s t (zlen t)
  | OCpy t => sdscpy junk s (t ++ [0])
  | OGrowzero n => sdsgrowzero junk s n
  | OMakeRoom n => Some (sdsMakeRoomFor junk s n)
  | ORemoveFree => Some (sdsRemoveFreeSpace junk s)
  | OClear => sdsclear s
  | OUpdatelen => sdsupdatelen s
  | ODup => sdsdup junk s
  | ORead n bs => append_read junk s n bs
  | OShorten n => sdsIncrLen s (- n)
  | ORange start last => sdsrange s start last
  | OTrim cset => sdstrim s (cset ++ [0])
  | OTolower => Some (sdstolower s)
  | OToupper => Some (sdstoupper s)
  | OMapchars from to => sdsmapchars s from to (zlen from)
  | OCatrepr p => sdscatrepr junk s p (zlen p)
  | OCatfmt fmt ap _ => sdscatfmt junk s (fmt ++ [0]) ap
  end.

(** The operation on the contents. *)
Definition spec_op (l : list Z) (op : sds_op) : list Z :=
  match op with
  | OCatlen t | OCat t => l ++ t
  | OCatsds t => l ++ contents t
  | OCpylen t | OCpy t => t
  | OGrowzero n => growzero_spec n l
  | OMakeRoom _ | ORemoveFree | ODup => l
  | OClear => []
  | OUpdatelen => until_nul l
  | ORead _ bs => l ++ bs
  | OShorten n => take (Z.to_nat (zlen l - n)) l
  | ORange start last => range_spec start last l
  | OTrim cset => trim_spec cset l
  | OTolower => tolower <$> l
  | OToupper => toupper <$> l
  | OMapchars from to => mapchar_spec from to <$> l
  | OCatrepr p => l ++ repr_spec p
  | OCatfmt _ _ out => l ++ out
  end.

(** The arguments are what the operation asks for, and the result is at most 2 GB. *)
Definition op_ok (l : list Z) (op : sds_op) : Prop :=
  match op with
  | OCat t | OCpy t => no_nul t
  | OCatsds t => exists l, sds_ok t l
  | OMakeRoom n => 0 <= n /\ zlen l + n <= INT32_MAX
  | ORead n bs => zlen bs <= n /\ zlen l + n <= INT32_MAX
  | OShorten n => 0 < n <= zlen l
  | OGrowzero n => n <= INT32_MAX
  | ORange start last => INT32_MIN <= start <= INT32_MAX /\ INT32_MIN <= last <= INT32_MAX
  | OTrim cset => no_nul cset
  | OMapchars from to => (length from <= length to)%nat
  | OCatfmt fmt ap out => fmt_ok fmt ap out /\ zlen l + zlen out < INT32_MAX
  | _ => True
  end /\ zlen (spec_op l op) <= INT32_MAX.

Fixpoint ops_ok (l : list Z) (ops : list sds_op) : Prop :=
  match ops with
  | [] => True
  | op :: ops => op_ok l op /\ ops_ok (spec_op l op) ops
  end.

Fixpoint run_ops (junk : nat -> Z) (s : sdshdr) (ops : list sds_op) : option sdshdr :=
  match ops with
  | [] => Some s
  | op :: ops => s ← run_op junk s op; run_ops junk s ops
  end.

Lemma contents_ok s l : sds_ok s l -> contents s = l.
Proof.
  intros (rest & -> & _). unfold contents. cbn [len buf].
  by rewrite to_nat_zlen, take_app_length.
Qed.

Lemma cstr_end t : no_nul t -> cstr (t ++ [0]) t.
Proof. intros Ht. split; [done|]. by exists []. Qed.

Lemma run_op_spec junk s l op :
  sds_ok s l -> op_ok l op -> exists s', run_op junk s op = Some s' /\ sds_ok s' (spec_op l op).
Proof.
  intros Hs [Hop Hmax]. destruct op; cbn [run_op spec_op] in *; rewrite ?zlen_app in Hmax.
  - apply catlen_spec; [done|apply load_self|done].
  - apply cat_spec; [done|by apply cstr_end|done].
  - destruct Hop as [t' Ht]. rewrite (contents_ok t t' Ht) in *. destruct Ht as (r & -> & _).
    apply catlen_spec; [done| |done]. by apply load_prefix.
  - apply cpylen_spec with l; [done|apply load_self|done].
  - unfold sdscpy. rewrite strlen_spec by done. sbind.
    apply cpylen_spec with l; [done|by apply load_prefix|done].
  - by apply growzero_ok.
  - destruct Hop. eexists. split; [done|]. by apply makeroom_ok.
  - eexists. split; [done|]. by apply removefree_ok.
  - by apply clear_ok with l.
  - by apply updatelen_ok.
  - by apply dup_ok.
  - destruct Hop. by apply append_read_ok.
  - by apply incrlen_neg.
  - destruct Hop. by apply range_ok.
  - by apply (trim_ok cset Hop []).
  - eexists. split; [done|]. by apply tolower_ok.
  - eexists. split; [done|]. by apply toupper_ok.
  - by apply mapchars_ok.
  - pose proof (catrepr_ok junk s l p [] Hs Hmax) as H. by rewrite app_nil_r in H.
  - destruct Hop. by apply (catfmt_ok junk s l fmt ap out []).
Qed.

(** C8 (refinement): the dynamic strings refine byte sequences.  From a string
    made by [sdsnewlen], any sequence of operations with valid arguments and
    results of at most 2 GB stays within its allocation, leaves a terminator
    after the contents and a header that agrees with them, and gives what the
    operation means on sequences: concatenation, ranges with negative
    indexes, trimming, escaping, formatting (numerals included). *)
Theorem sds_run_refines (junk : nat -> Z) (p l : list Z) (n : Z) (ops : list sds_op) :
  load p 0 n = Some l -> zlen l <= INT32_MAX -> ops_ok l ops ->
  exists s s', sdsnewlen junk (Some p) n = Some s /\ run_ops junk s ops = Some s' /\
    sds_ok s' (foldl spec_op l ops) /\ contents s' = foldl spec_op l ops.
Proof.
  intros Hp Hl Hops. destruct (newlen_spec junk p l n Hp Hl) as (s & Hs & Hok).
  exists s. assert (exists s', run_ops junk s ops = Some s' /\ sds_ok s' (foldl spec_op l ops))
    as (s' & Hr & Hok').
  { clear Hp Hl Hs. revert s l Hok Hops. induction ops as [|op ops IH]; intros s l Hok Hops.
    { by exists s. }
    destruct Hops as [Hop Hops]. cbn [run_ops foldl].
    destruct (run_op_spec junk s l op Hok Hop) as (s1 & -> & H1). sbind. by apply IH. }
  exists s'. split; [done|]. split; [done|]. split; [done|]. by apply contents_ok.
Qed.

Lemma sds_run_refines_witness :
  let ops := [OCat (bytes_of_string "  x=%d "); OTrim (bytes_of_string " "); OToupper;
              OCatfmt (bytes_of_string "=%i%%") [ArgInt (-42)] (bytes_of_string "=-42%");
              ORange 1 (-3); OCatrepr [0; 10]] in
  exists s s', sdsnewlen (fun _ => 7) (Some [32; 65]) 2 = Some s /\
    run_ops (fun _ => 7) s ops = Some s' /\
    contents s' = bytes_of_string "  X=%D=-4" ++ [34; 92; 120; 48; 48; 92; 110; 34].
Proof.
  intros ops.
  destruct (sds_run_refines (fun _ => 7) [32; 65] [32; 65] 2 ops) as (s & s' & Hs & Hr & _ & Hc);
    [reflexivity|vm_compute; discriminate| |].
  - assert (fmt_ok (bytes_of_string "=%i%%") [ArgInt (-42)] (bytes_of_string "=-42%")) as Hf.
    { change (fmt_ok [61; 37; 105; 37; 37] [ArgInt (-42)] [61; 45; 52; 50; 37]).
      apply fmt_char; [discriminate..|].
      apply (fmt_arg_ok 105 (ArgInt (-42)) [45; 52; 50] [37; 37] [] [37]).
      - split; [reflexivity|]. split; [vm_compute; split; discriminate|reflexivity].
      - apply fmt_other; [|apply fmt_end]. rewrite !not_elem_of_cons.
        repeat split; try discriminate. apply not_elem_of_nil. }
    split; [split; [repeat constructor; discriminate|vm_compute; discriminate]|].
    split; [split; [repeat constructor; discriminate|vm_compute; discriminate]|].
    split; [split; [exact I|vm_compute; discriminate]|].
    split; [split; [split; [exact Hf|vm_compute; reflexivity]|vm_compute; discriminate]|].
    split; [split; [vm_compute; repeat split; discriminate|vm_compute; discriminate]|].
    split; [split; [exact I|vm_compute; discriminate]|]. exact I.
  - exists s, s'. split; [exact Hs|]. split; [exact Hr|]. rewrite Hc. vm_compute. reflexivity.
Defined.

(** ** Arguments in quotes *)

Lemma hex_char_digit d :
  0 <= d < 16 -> is_hex_digit (hex_char d) = true /\ hex_digit_to_int (hex_char d) = d.
Proof.
  intros Hd. unfold hex_char. destruct (Z.ltb_spec d 10); unfold is_hex_digit, hex_digit_to_int.
  - rewrite (proj2 (Z.leb_le 48 _)), (proj2 (Z.leb_le _ 57)) by lia. simpl. split; [done|lia].
  - rewrite (proj2 (Z.leb_gt (97 + (d - 10)) 57)) by lia.
    rewrite (proj2 (Z.leb_le 97 _)), (proj2 (Z.leb_le _ 102)) by lia.
    rewrite andb_false_r. simpl. split; [done|lia].
Qed.

(** A character that needs no escape. *)
Lemma get_token_plain c current p :
  c <> 92 -> c <> 34 -> c <> 0 -> p <> [] ->
  get_token true false current (c :: p) = get_token true false (current ++ [c]) p.
Proof.
  intros H1 H2 H3 Hp. cbn [get_token].
  rewrite (proj2 (Z.eqb_neq c 92)), (proj2 (Z.eqb_neq c 34)), (proj2 (Z.eqb_neq c 0)) by done.
  cbn [andb]. destruct p as [|d [|h [|l p]]]; done.
Qed.

(** A backslash and a letter other than [x]. *)
Lemma get_token_escape d current p :
  d <> 120 -> d <> 0 ->
  get_token true false current (92 :: d :: p) = get_token true false (current ++ [unescape d]) p.
Proof.
  intros H1 H2. cbn [get_token]. change (92 =? 92) with true.
  rewrite (proj2 (Z.eqb_neq d 120)), (proj2 (Z.eqb_neq d 0)) by done. cbn [andb negb].
  by destruct p as [|h [|l p]].
Qed.

Lemma get_token_hex h l current p :
  is_hex_digit h = true -> is_hex_digit l = true ->
  get_token true false current (92 :: 120 :: h :: l :: p)
  = get_token true false (current ++ [hex_digit_to_int h * 16 + hex_digit_to_int l]) p.
Proof. intros Hh Hl. cbn [get_token]. rewrite Hh, Hl. done. Qed.

Lemma get_token_repr c current p :
  is_byte c -> p <> [] ->
  get_token true false current (repr_char c ++ p) = get_token true false (current ++ [c]) p.
Proof.
  unfold is_byte. intros Hc Hp. unfold repr_char.
  destruct (Z.eqb_spec c 92) as [->|H92]; [by apply get_token_escape|].
  destruct (Z.eqb_spec c 34) as [->|H34]; [by apply get_token_escape|]. cbn [orb].
  destruct (Z.eqb_spec c 10) as [->|]; [by apply get_token_escape|].
  destruct (Z.eqb_spec c 13) as [->|]; [by apply get_token_escape|].
  destruct (Z.eqb_spec c 9) as [->|]; [by apply get_token_escape|].
  destruct (Z.eqb_spec c 7) as [->|]; [by apply get_token_escape|].
  destruct (Z.eqb_spec c 8) as [->|]; [by apply get_token_escape|].
  destruct (isprint c) eqn:Hpr.
  - apply get_token_plain; [done|done| |done]. unfold isprint in Hpr. zbool. lia.
  - destruct (hex_char_digit (c / 16)) as [Hh Hhv]; [dlia|].
    destruct (hex_char_digit (c mod 16)) as [Hl Hlv]; [dlia|].
    cbn [app]. rewrite get_token_hex by done. rewrite Hhv, Hlv.
    by replace (c / 16 * 16 + c mod 16) with c by dlia.
Qed.

Lemma get_token_quoted a : forall current rest,
  bytes_ok a -> rest = [] \/ (exists r, rest = 32 :: r) ->
  get_token true false current (concat (repr_char <$> a) ++ 34 :: rest) = Some (current ++ a, rest).
Proof.
  induction a as [|c a IH]; intros current rest Ha Hr; cbn [fmap list_fmap concat].
  - rewrite app_nil_r. cbn [app]. destruct Hr as [->|[r ->]]; [done|].
    cbn [get_token]. by destruct r as [|h [|l r]].
  - apply Forall_cons in Ha as [Hc Ha]. rewrite <- app_assoc.
    rewrite get_token_repr; [|done|by destruct (concat _)].
    rewrite IH by done. by rewrite <- app_assoc.
Qed.

(** The arguments as [sdscatrepr] writes them, separated by spaces. *)
Definition quote_args (args : list (list Z)) : list Z :=
  concat ((fun a => repr_spec a ++ [32]) <$> args).

Lemma splitargs_quoted args : forall fuel vector,
  Forall bytes_ok args -> (length args < fuel)%nat ->
  splitargs_loop fuel vector (quote_args args) = Some (Some (reverse vector ++ args)).
Proof.
  induction args as [|a args IH]; intros [|fuel] vector Ha Hf; simpl in Hf; try lia.
  { by rewrite app_nil_r. }
  apply Forall_cons in Ha as [Ha Hargs].
  change (quote_args (a :: args)) with ((repr_spec a ++ [32]) ++ quote_args args).
  unfold repr_spec. rewrite <- !app_assoc. cbn [app splitargs_loop skip_blanks eos head default].
  change (isspace 34) with false. cbv iota. cbn [eos head default]. change (34 =? 0) with false. cbv iota.
  change (get_token false false [] (34 :: ?t)) with (get_token true false [] t).
  rewrite get_token_quoted; [|done|right; by eexists].
  cbn [app].
  destruct fuel as [|fuel]; [lia|].
  assert (splitargs_loop (S fuel) (a :: vector) (32 :: quote_args args)
    = splitargs_loop (S fuel) (a :: vector) (quote_args args)) as -> by done.
  rewrite IH by (done || lia). by rewrite reverse_cons, <- app_assoc.
Qed.

Lemma get_token_len n : forall inq insq current p t rest,
  (length p <= n)%nat -> get_token inq insq current p = Some (t, rest) ->
  (length rest <= length p)%nat.
Proof.
  induction n as [|n IH]; intros inq insq current [|c p] t rest Hn Hg; cbn [get_token length] in *;
    try lia; try (destruct (inq || insq); by simplify_eq).
  assert (forall inq insq cur q, (length q <= length p)%nat ->
    get_token inq insq cur q = Some (t, rest) -> (length rest <= S (length p))%nat) as Hrec.
  { intros i j cur q Hq Hgq. apply IH in Hgq; lia. }
  repeat (case_match; simplify_eq; cbn [length] in *; try lia);
    (eapply Hrec; [|eassumption]; cbn [length]; lia).
Qed.

Lemma skip_blanks_len p : (length (skip_blanks p) <= length p)%nat.
Proof. induction p as [|c p IH]; simpl; [done|]. destruct (isspace c); simpl; lia. Qed.

Lemma skip_blanks_head p c r : skip_blanks p = c :: r -> isspace c = false.
Proof.
  induction p as [|x p IH]; simpl; [done|]. destruct (isspace x) eqn:Hx; [done|]. by intros [= <- _].
Qed.

Lemma splitargs_total fuel : forall vector p,
  (length p < fuel)%nat -> is_Some (splitargs_loop fuel vector p).
Proof.
  induction fuel as [|fuel IH]; intros vector p Hf; [lia|]. cbn [splitargs_loop].
  pose proof (skip_blanks_len p) as Hl. destruct (skip_blanks p) as [|c q] eqn:Hs; [by eexists|].
  apply skip_blanks_head in Hs. unfold eos. cbn [head default]. unfold id.
  destruct (Z.eqb_spec c 0) as [|Hc0]; [by eexists|].
  destruct (get_token false false [] (c :: q)) as [[t rest]|] eqn:Hg; [|by eexists].
  apply IH. cbn [get_token length] in *.
  assert (forall d, isspace d = true -> c <> d) as Hd by (intros d ? ->; congruence).
  rewrite (proj2 (Z.eqb_neq c 32)), (proj2 (Z.eqb_neq c 10)), (proj2 (Z.eqb_neq c 13)),
    (proj2 (Z.eqb_neq c 9)), (proj2 (Z.eqb_neq c 0)) in Hg by (done || by apply Hd).
  cbn [orb] in Hg. repeat case_match; apply (get_token_len (length q)) in Hg; lia.
Qed.

Lemma get_token_unclosed t current :
  34 ∉ t -> 92 ∉ t -> get_token true false current t = None.
Proof.
  revert current. induction t as [|c t IH]; intros current H1 H2; [done|].
  apply not_elem_of_cons in H1 as [H1 H1'], H2 as [H2 H2'].
  destruct (decide (c = 0)) as [->|Hc].
  { cbn [get_token]. by destruct t as [|? [|? [|? ?]]]. }
  destruct t as [|d t].
  - cbn [get_token]. by rewrite (proj2 (Z.eqb_neq c 34)), (proj2 (Z.eqb_neq c 0)) by done.
  - rewrite get_token_plain by done. by apply IH.
Qed.

Lemma quote_args_len args : (length args <= length (quote_args args))%nat.
Proof.
  unfold quote_args. induction args as [|a args IH]; [done|]. cbn [fmap list_fmap concat length].
  rewrite !length_app. cbn [length]. lia.
Qed.

(** C27 (roundtrip): [sdssplitargs] terminates on every line, reads back the
    arguments that [sdscatrepr] has escaped, whatever their bytes, and refuses
    a quote that is not closed. *)
Theorem sdssplitargs_repr (junk : nat -> Z) (args : list (list Z)) (line : list Z) :
  Forall bytes_ok args ->
  sdssplitargs (quote_args args) = Some (Some args) /\
  is_Some (sdssplitargs line) /\
  (34 ∉ line -> 92 ∉ line -> sdssplitargs (34 :: line) = Some None) /\
  (forall a, zlen (repr_spec a) <= INT32_MAX -> exists s s',
     sdsempty junk = Some s /\ sdscatrepr junk s a (zlen a) = Some s' /\ contents s' = repr_spec a).
Proof.
  intros Hargs. split; [|split; [|split]].
  - pose proof (quote_args_len args). unfold sdssplitargs.
    rewrite (splitargs_quoted args) by (done || lia). done.
  - apply splitargs_total. lia.
  - intros H1 H2. unfold sdssplitargs. cbn [splitargs_loop skip_blanks length].
    change (isspace 34) with false. cbv iota. unfold eos. cbn [head default].
    change (34 =? 0) with false. cbv iota.
    change (get_token false false [] (34 :: line)) with (get_token true false [] line).
    by rewrite get_token_unclosed.
  - intros a Ha. destruct (newlen_spec junk [0] [] 0) as (s & Hs & Hok); [done|done|].
    destruct (catrepr_ok junk s [] a [] Hok) as (s' & Hr & Hok'); [done|].
    rewrite app_nil_r in Hr. exists s, s'. split; [done|]. split; [done|].
    by rewrite (contents_ok s' _ Hok').
Qed.

Lemma sdssplitargs_repr_witness :
  sdssplitargs (quote_args [bytes_of_string "SET"; [0; 34; 92; 255]; []])
    = Some (Some [bytes_of_string "SET"; [0; 34; 92; 255]; []]).
Proof.
  destruct (sdssplitargs_repr (fun _ => 7) [bytes_of_string "SET"; [0; 34; 92; 255]; []] [])
    as [H _]; [|exact H].
  unfold bytes_ok. apply (bool_decide_unpack _). vm_compute. exact I.
Defined.

(** ** Splitting and joining *)

(** Leftmost occurrences of the separator that do not overlap; [skip] characters
    of the last one are still to pass, [cur] is the token being read. *)
Fixpoint split_spec (sep : list Z) (skip : nat) (cur s : list Z) : list (list Z) :=
  match s with
  | [] => [cur]
  | c :: s' =>
      match skip with
      | S skip => split_spec sep skip cur s'
      | O =>
          if bool_decide (take (length sep) s = sep)
          then cur :: split_spec sep (length sep - 1) [] s'
          else split_spec sep 0 (cur ++ [c]) s'
      end
  end.

Fixpoint join_spec (sep : list Z) (argv : list (list Z)) : list Z :=
  match argv with
  | [] => []
  | [a] => a
  | a :: argv => a ++ sep ++ join_spec sep argv
  end.

Lemma split_skip sep a cur s : split_spec sep (length a) cur (a ++ s) = split_spec sep 0 cur s.
Proof. induction a as [|c a IH]; [done|]. simpl. by rewrite IH. Qed.

Lemma split_short sep s : forall cur,
  (length s < length sep)%nat -> split_spec sep 0 cur s = [cur ++ s].
Proof.
  induction s as [|c s IH]; intros cur Hl; cbn [split_spec]; [by rewrite app_nil_r|].
  simpl in Hl. case_bool_decide as Ht.
  - apply (f_equal length) in Ht. rewrite length_take in Ht. simpl in Ht. lia.
  - rewrite IH by lia. by rewrite <- app_assoc.
Qed.

Lemma split_nonempty sep s : forall skip cur, split_spec sep skip cur s <> [].
Proof.
  induction s as [|c s IH]; intros skip cur; [done|]. cbn [split_spec].
  destruct skip; [|done]. by case_bool_decide.
Qed.

(** An occurrence of the separator. *)
Lemma split_found sep s cur :
  sep <> [] -> take (length sep) s = sep ->
  split_spec sep 0 cur s = cur :: split_spec sep 0 [] (drop (length sep) s).
Proof.
  intros Hsep Ht. destruct s as [|c s].
  { rewrite take_nil in Ht. by subst sep. }
  cbn [split_spec]. rewrite bool_decide_true by done. f_equal.
  destruct sep as [|x sep]; [done|]. cbn [length take drop] in *.
  replace (S (length sep) - 1)%nat with (length sep) by lia.
  injection Ht as -> Ht. rewrite <- (take_drop (length sep) s) at 1. rewrite Ht. apply split_skip.
Qed.

Lemma split_join sep n : forall s cur,
  sep <> [] -> (length s <= n)%nat -> join_spec sep (split_spec sep 0 cur s) = cur ++ s.
Proof.
  induction n as [|n IH]; intros s cur Hsep Hn.
  { destruct s; [|simpl in Hn; lia]. simpl. by rewrite app_nil_r. }
  destruct (decide (take (length sep) s = sep)) as [Ht|Ht].
  - rewrite split_found by done.
    pose proof (split_nonempty sep (drop (length sep) s) 0 []) as Hne.
    destruct (split_spec sep 0 [] (drop (length sep) s)) as [|b l] eqn:Hs; [done|].
    change (join_spec sep (cur :: b :: l)) with (cur ++ sep ++ join_spec sep (b :: l)).
    rewrite <- Hs, IH; [|done|].
    + simpl. rewrite <- Ht at 1. by rewrite take_drop.
    + rewrite length_drop. destruct sep; [done|]. simpl. lia.
  - destruct s as [|c s]; [simpl; by rewrite app_nil_r|]. cbn [split_spec].
    rewrite bool_decide_false by done. rewrite IH by (done || (simpl in Hn; lia)).
    by rewrite <- app_assoc.
Qed.

Lemma memcmp_take s sep :
  (length sep <= length s)%nat ->
  exists c, memcmp s sep (length sep) = Some c /\ (c =? 0) = bool_decide (take (length sep) s = sep).
Proof.
  revert s. induction sep as [|y sep IH]; intros [|x s] Hl; simpl in Hl; try lia.
  - by exists 0.
  - by exists 0.
  - cbn [memcmp length take]. destruct (Z.eqb_spec x y) as [->|Hne].
    + destruct (IH s) as (c & Hc & Hz); [lia|]. exists c. split; [done|]. rewrite Hz.
      apply bool_decide_ext. split; [by intros ->|by intros [=]].
    + eexists. split; [done|]. rewrite bool_decide_false by congruence. by destruct (x <? y).
Qed.

Lemma memcmp_app_r sep rs s c :
  memcmp s sep (length sep) = Some c -> memcmp s (sep ++ rs) (length sep) = Some c.
Proof.
  revert s. induction sep as [|y sep IH]; intros [|x s]; cbn [memcmp app length]; try done.
  destruct (x =? y); [apply IH|done].
Qed.

Section Split.
Context (sep l r rs : list Z) (Hsep : sep <> []).

(** The separator at [j], as the code tests it. *)
Lemma found_spec j :
  0 <= j -> j + zlen sep <= zlen l ->
  exists x y, getb (l ++ r) j = Some x /\ getb (sep ++ rs) 0 = Some y /\
    (if (zlen sep =? 1) && (x =? y) then Some true
     else c ← memcmp (drop (Z.to_nat j) (l ++ r)) (sep ++ rs) (Z.to_nat (zlen sep)); Some (c =? 0))
    = Some (bool_decide (take (length sep) (drop (Z.to_nat j) l) = sep)).
Proof.
  intros Hj Hjl. pose proof (zlen_pos sep Hsep) as Hs.
  set (d := drop (Z.to_nat j) l).
  assert (length sep <= length d)%nat as Hd by (subst d; rewrite length_drop; unfold zlen in *; lia).
  assert (drop (Z.to_nat j) (l ++ r) = d ++ r) as Hdr by (apply drop_app_le; unfold zlen in *; lia).
  destruct (memcmp_take (d ++ r) (sep ++ [])) as (c & Hc & Hc0);
    [rewrite app_nil_r, length_app; lia|]. rewrite app_nil_r in *.
  rewrite take_app_le in Hc0 by done.
  assert (memcmp (d ++ r) (sep ++ rs) (length sep) = Some c) as Hc'.
  { by apply memcmp_app_r. }
  destruct d as [|x d0] eqn:Hdd; [destruct sep; [done|simpl in Hd; lia]|].
  destruct sep as [|y t] eqn:Ht; [done|].
  exists x, y. split; [|split; [done|]].
  - unfold getb. rewrite (proj2 (Z.leb_le _ _)) by done. rewrite lookup_app_l by (unfold zlen in *; lia).
    rewrite <- (Nat.add_0_r (Z.to_nat j)), <- lookup_drop. fold d. by rewrite Hdd.
  - rewrite to_nat_zlen, Hdr, Hc'. sbind. rewrite Hc0.
    destruct (Z.eqb_spec (zlen (y :: t)) 1) as [H1|]; [|done].
    destruct (Z.eqb_spec x y) as [->|]; [|done]. cbn [andb].
    assert (t = []) as -> by (apply zlen_0; rewrite zlen_cons in H1; lia).
    by rewrite bool_decide_true.
Qed.

Lemma load_range start j :
  0 <= start <= j -> j <= zlen l ->
  load (l ++ r) start (j - start) = Some (take (Z.to_nat (j - start)) (drop (Z.to_nat start) l)).
Proof.
  intros Hs Hj. unfold load. rewrite !(proj2 (Z.leb_le _ _)) by (rewrite ?zlen_app; pose proof (zlen_nonneg r); lia).
  cbn [andb]. rewrite drop_app_le by (unfold zlen in *; lia).
  rewrite take_app_le by (rewrite length_drop; unfold zlen in *; lia). done.
Qed.

Lemma split_loop_spec fuel : forall tokens slots start j,
  zlen l - j < Z.of_nat fuel -> 0 <= start <= j -> j <= zlen l -> zlen tokens < slots -> 1 <= slots ->
  exists tokens' slots' start',
    split_loop fuel (l ++ r) (zlen l) (sep ++ rs) (zlen sep) tokens slots start j
      = Some (tokens', slots', start') /\ zlen tokens' < slots' /\ 0 <= start' <= zlen l /\
    reverse (drop (Z.to_nat start') l :: tokens')
    = reverse tokens ++ split_spec sep 0 (take (Z.to_nat (j - start)) (drop (Z.to_nat start) l))
                          (drop (Z.to_nat j) l).
Proof.
  induction fuel as [|fuel IH]; intros tokens slots start j Hf Hst Hj Hslots H1; [lia|].
  pose proof (zlen_pos sep Hsep) as Hsp. pose proof (zlen_nonneg tokens).
  cbn [split_loop]. destruct (Z.ltb_spec j (zlen l - (zlen sep - 1))) as [Hlt|Hge].
  - destruct (found_spec j) as (x & y & -> & -> & Hfound); [lia..|]. sbind. rewrite Hfound. sbind.
    clear Hfound. set (slots1 := if slots <? _ then _ else _).
    assert (zlen tokens + 2 <= slots1) as Hs1 by (subst slots1; destruct (Z.ltb_spec slots (zlen tokens + 2)); lia).
    clearbody slots1. set (cur := take (Z.to_nat (j - start)) (drop (Z.to_nat start) l)).
    case_bool_decide as Ht.
    + rewrite (proj2 (Z.ltb_lt _ _)) by lia. rewrite load_range by lia. sbind. fold cur.
      replace (j + zlen sep - 1 + 1) with (j + zlen sep) by lia.
      destruct (IH (cur :: tokens) slots1 (j + zlen sep) (j + zlen sep)) as (t' & s' & st' & -> & Hs' & Hst' & Heq);
        [lia|lia|lia|rewrite zlen_cons; lia|lia|].
      exists t', s', st'. split; [done|]. split; [done|]. split; [done|]. rewrite Heq.
      rewrite (split_found sep (drop (Z.to_nat j) l) cur) by done. rewrite Z.sub_diag, take_0, reverse_cons, <- app_assoc, drop_drop.
      cbn [app]. replace (Z.to_nat j + length sep)%nat with (Z.to_nat (j + zlen sep)) by (unfold zlen; lia).
      done.
    + destruct (IH tokens slots1 start (j + 1)) as (t' & s' & st' & -> & Hs' & Hst' & Heq); [lia..|].
      exists t', s', st'. split; [done|]. split; [done|]. split; [done|]. rewrite Heq. f_equal.
      destruct (drop (Z.to_nat j) l) as [|c d] eqn:Hd.
      { apply (f_equal length) in Hd. rewrite length_drop in Hd. simpl in Hd. unfold zlen in *. lia. }
      cbn [split_spec]. rewrite bool_decide_false by done.
      replace (Z.to_nat (j + 1)) with (S (Z.to_nat j)) by lia. rewrite <- tail_of_drop, Hd. cbn [tail].
      f_equal. subst cur. replace (Z.to_nat (j + 1 - start)) with (S (Z.to_nat (j - start))) by lia.
      apply take_S_r. rewrite lookup_drop. replace (Z.to_nat start + Z.to_nat (j - start))%nat with (Z.to_nat j + 0)%nat by lia.
      by rewrite <- lookup_drop, Hd.
  - exists tokens, slots, start. split; [done|]. split; [done|]. split; [lia|].
    rewrite split_short by (rewrite length_drop; unfold zlen in *; lia).
    rewrite reverse_cons. do 2 f_equal.
    replace (Z.to_nat j) with (Z.to_nat start + Z.to_nat (j - start))%nat by lia.
    by rewrite <- drop_drop, take_drop.
Qed.

End Split.

Lemma join_loop_ok junk sep argv : forall s l,
  sds_ok s l -> no_nul sep -> Forall no_nul argv -> zlen l + zlen (join_spec sep argv) <= INT32_MAX ->
  exists s', join_loop junk s ((fun a => a ++ [0]) <$> argv) (sep ++ [0]) = Some s' /\
    sds_ok s' (l ++ join_spec sep argv).
Proof.
  induction argv as [|a argv IH]; intros s l Hs Hsep Ha Hmax.
  { exists s. cbn [join_spec]. by rewrite app_nil_r. }
  apply Forall_cons in Ha as [Ha Hargs]. destruct argv as [|b argv].
  { apply cat_spec; [done|by apply cstr_end|done]. }
  change (join_spec sep (a :: b :: argv)) with (a ++ sep ++ join_spec sep (b :: argv)) in *.
  rewrite !zlen_app in Hmax.
  pose proof (zlen_nonneg (join_spec sep (b :: argv))). pose proof (zlen_nonneg sep).
  destruct (cat_spec junk s l a (a ++ [0]) Hs) as (s1 & H1 & Hs1); [by apply cstr_end|lia|].
  destruct (cat_spec junk s1 (l ++ a) sep (sep ++ [0]) Hs1) as (s2 & H2 & Hs2);
    [by apply cstr_end|rewrite zlen_app; lia|].
  destruct (IH s2 ((l ++ a) ++ sep) Hs2 Hsep Hargs) as (s3 & H3 & Hs3); [rewrite !zlen_app; lia|].
  exists s3. split; [|by rewrite <- !app_assoc in Hs3].
  change (join_loop junk s ((fun a => a ++ [0]) <$> a :: b :: argv) (sep ++ [0]))
    with (j ← sdscat junk s (a ++ [0]); j ← sdscat junk j (sep ++ [0]);
          join_loop junk j ((fun a => a ++ [0]) <$> b :: argv) (sep ++ [0])).
  rewrite H1. sbind. rewrite H2. sbind. done.
Qed.

Lemma split_join_tokens c argv : forall cur a,
  Forall (fun a => c ∉ a) (a :: argv) ->
  split_spec [c] 0 cur (join_spec [c] (a :: argv)) = (cur ++ a) :: argv.
Proof.
  induction argv as [|b argv IH]; intros cur a Ha; apply Forall_cons in Ha as [Ha Hargs].
  - cbn [join_spec]. revert cur. induction a as [|x a IHa]; intros cur; [by rewrite app_nil_r|].
    apply not_elem_of_cons in Ha as [Hx Ha]. cbn [split_spec length take].
    rewrite bool_decide_false by congruence. rewrite IHa by done. by rewrite <- app_assoc.
  - change (join_spec [c] (a :: b :: argv)) with (a ++ [c] ++ join_spec [c] (b :: argv)).
    revert cur. induction a as [|x a IHa]; intros cur.
    + rewrite app_nil_r. cbn [app split_spec length take]. rewrite bool_decide_true by done.
      cbn [Nat.sub]. by rewrite IH.
    + apply not_elem_of_cons in Ha as [Hx Ha]. cbn [app split_spec length take].
      rewrite bool_decide_false by congruence. cbn [app] in IHa. rewrite IHa by done. by rewrite <- app_assoc.
Qed.

(** [sdssplitlen] finds the leftmost separators that do not overlap
    and stays within its array of tokens; joining the tokens gives the string
    back.  What [sdsjoin] joins with one character is split into the same
    tokens, except that the empty string has none. *)
Theorem sdssplitlen_correct (junk : nat -> Z) (sep l r rs : list Z) (c : Z) (a : list Z)
    (argv : list (list Z)) :
  sep <> [] -> l <> [] -> no_nul [c] -> Forall no_nul (a :: argv) ->
  Forall (fun a => c ∉ a) (a :: argv) ->
  0 < zlen (join_spec [c] (a :: argv)) <= INT32_MAX ->
  (exists tokens, sdssplitlen (l ++ r) (zlen l) (sep ++ rs) (zlen sep) = Some (Some tokens) /\
     tokens = split_spec sep 0 [] l /\ join_spec sep tokens = l) /\
  sdssplitlen r 0 (sep ++ rs) (zlen sep) = Some (Some []) /\
  sdssplitlen (l ++ r) (zlen l) (sep ++ rs) 0 = Some None /\
  (exists s, sdsjoin junk ((fun a => a ++ [0]) <$> a :: argv) ([c] ++ [0]) = Some s /\
     sdssplitlen (buf s) (len s) ([c] ++ [0]) 1 = Some (Some (a :: argv))).
Proof.
  assert (forall sep l r rs, sep <> [] -> l <> [] ->
    sdssplitlen (l ++ r) (zlen l) (sep ++ rs) (zlen sep) = Some (Some (split_spec sep 0 [] l))) as Hsplit.
  { clear. intros sep l r rs Hsep Hl. pose proof (zlen_pos sep Hsep). pose proof (zlen_pos l Hl).
    unfold sdssplitlen. rewrite (proj2 (Z.ltb_ge _ _)), (proj2 (Z.ltb_ge _ _)), (proj2 (Z.eqb_neq _ _)) by lia.
    cbn [orb]. destruct (split_loop_spec sep l r rs Hsep (S (Z.to_nat (zlen l))) [] 5 0 0)
      as (t & sl & st & -> & Hslots & Hst & Heq); [lia..|done|lia|].
    sbind. rewrite (proj2 (Z.ltb_lt _ _)) by done.
    rewrite load_range by lia. sbind. rewrite take_ge by (rewrite length_drop; unfold zlen; lia).
    by rewrite Heq. }
  intros Hsep Hl Hc Hnul Hargs Hlen. split; [|split; [|split]].
  - eexists. split; [by apply Hsplit|]. split; [done|]. by rewrite (split_join sep (length l)).
  - unfold sdssplitlen. pose proof (zlen_pos sep Hsep). by rewrite (proj2 (Z.ltb_ge _ _)) by lia.
  - done.
  - destruct (newlen_spec junk [0] [] 0) as (s0 & Hs0 & Hok); [done|done|].
    destruct (join_loop_ok junk [c] (a :: argv) s0 [] Hok Hc Hnul) as (s & Hj & Hs);
      [rewrite (@zlen_nil Z); lia|].
    exists s. unfold sdsjoin, sdsempty. rewrite Hs0. sbind. split; [done|].
    destruct Hs as (rest & -> & _). cbn [app buf len]. set (j := join_spec [c] (a :: argv)) in *.
    assert (j <> []) as Hj0 by (intros E; rewrite E in Hlen; destruct Hlen; done).
    refine (eq_trans (Hsplit [c] j (0 :: rest) [0] _ _) _); [done|done|].
    subst j. by rewrite split_join_tokens.
Qed.

Lemma sdssplitlen_correct_witness :
  sdssplitlen (bytes_of_string "a_-_b_-_") 8 (bytes_of_string "_-_") 3
  = Some (Some [[97]; [98]; []]).
Proof.
  destruct (sdssplitlen_correct (fun _ => 7) (bytes_of_string "_-_") (bytes_of_string "a_-_b_-_") [] []
    44 [97] [[98]]) as [(t & Ht & Hs & _) _].
  - discriminate.
  - discriminate.
  - repeat constructor. discriminate.
  - repeat constructor; discriminate.
  - apply Forall_cons. split; [|apply Forall_cons; split; [|apply Forall_nil; exact I]];
      (apply not_elem_of_cons; split; [discriminate|apply not_elem_of_nil]).
  - vm_compute. split; [reflexivity|discriminate].
  - rewrite !app_nil_r in Ht. refine (eq_trans Ht _). subst t. vm_compute. reflexivity.
Defined.
