(* ===== verification/Request.v ===== *)
(** * networking.c: reading requests

    The query buffer of a client and the parser of the two request formats (inline
    and multi bulk).  The buffer is a dynamic string of sds.c; the arguments are
    string objects, given by their contents ([Object.createStringObject]).  The rest
    of the server (its clock, the pause of the clients, the execution of a
    command) is a parameter: the parser is verified for any server that keeps the
    contract [CommandProc].  A failed assertion or an access outside of a
    buffer or of the argument vector gives [None]. *)

From Stdlib Require Import ZArith Lia String.
From stdpp Require Import base numbers list relations.
From S2P Require Import Prelude Util Sds.

Open Scope Z_scope.

Definition REDIS_INLINE_MAX_SIZE : Z := 65536.
Definition REDIS_MBULK_BIG_ARG : Z := 32768.
Definition REDIS_IOBUF_LEN : Z := 16384.
Definition REDIS_MAX_QUERYBUF_LEN : Z := 1073741824.
Definition REDIS_REQ_INLINE : Z := 1.
Definition REDIS_REQ_MULTIBULK : Z := 2.

Definition REDIS_SLAVE : Z := 0.
Definition REDIS_MASTER : Z := 1.
Definition REDIS_MULTI : Z := 3.
Definition REDIS_BLOCKED : Z := 4.
Definition REDIS_CLOSE_AFTER_REPLY : Z := 6.
Definition REDIS_ASKING : Z := 9.

(** The flags are given by the numbers of their bits. *)
Definition has (flags bit : Z) : bool := Z.testbit flags bit.
Definition set_flag (flags bit : Z) : Z := Z.lor flags (Z.shiftl 1 bit).
Definition clear_flag (flags bit : Z) : Z := Z.land flags (Z.lnot (Z.shiftl 1 bit)).

(** The fields of a client that the reading of requests uses; [argv] holds
    [argc] objects in a vector of [argv_size] slots, [cmd] the function of the
    command found, [replies] the errors sent. *)
Record redisClient := mk_client {
  flags : Z;
  querybuf : sdshdr;
  querybuf_peak : Z;
  argv : list (list Z);
  argv_size : Z;
  cmd : option Z;
  reqtype : Z;
  multibulklen : Z;
  bulklen : Z;
  lastinteraction : Z;
  reploff : Z;
  repl_ack_time : Z;
  replies : list (list Z)
}.

Definition set_flags f c := mk_client f (querybuf c) (querybuf_peak c) (argv c) (argv_size c)
  (cmd c) (reqtype c) (multibulklen c) (bulklen c) (lastinteraction c) (reploff c)
  (repl_ack_time c) (replies c).
Definition set_querybuf q c := mk_client (flags c) q (querybuf_peak c) (argv c) (argv_size c)
  (cmd c) (reqtype c) (multibulklen c) (bulklen c) (lastinteraction c) (reploff c)
  (repl_ack_time c) (replies c).
Definition set_argv a c := mk_client (flags c) (querybuf c) (querybuf_peak c) a (argv_size c)
  (cmd c) (reqtype c) (multibulklen c) (bulklen c) (lastinteraction c) (reploff c)
  (repl_ack_time c) (replies c).
Definition set_argv_size n c := mk_client (flags c) (querybuf c) (querybuf_peak c) (argv c) n
  (cmd c) (reqtype c) (multibulklen c) (bulklen c) (lastinteraction c) (reploff c)
  (repl_ack_time c) (replies c).
Definition set_cmd p c := mk_client (flags c) (querybuf c) (querybuf_peak c) (argv c) (argv_size c)
  p (reqtype c) (multibulklen c) (bulklen c) (lastinteraction c) (reploff c)
  (repl_ack_time c) (replies c).
Definition set_parse r m b c := mk_client (flags c) (querybuf c) (querybuf_peak c) (argv c)
  (argv_size c) (cmd c) r m b (lastinteraction c) (reploff c) (repl_ack_time c) (replies c).
Definition set_ack_time t c := mk_client (flags c) (querybuf c) (querybuf_peak c) (argv c)
  (argv_size c) (cmd c) (reqtype c) (multibulklen c) (bulklen c) (lastinteraction c) (reploff c)
  t (replies c).
Definition set_net p t r c := mk_client (flags c) (querybuf c) p (argv c)
  (argv_size c) (cmd c) (reqtype c) (multibulklen c) (bulklen c) t r
  (repl_ack_time c) (replies c).
Definition add_reply r c := mk_client (flags c) (querybuf c) (querybuf_peak c) (argv c)
  (argv_size c) (cmd c) (reqtype c) (multibulklen c) (bulklen c) (lastinteraction c) (reploff c)
  (repl_ack_time c) (replies c ++ [r]).

(** ** Replies *)

Definition addReplyErrorLength (c : redisClient) (s : list Z) : redisClient :=
  add_reply (bytes_of_string "-ERR " ++ s ++ [13; 10]) c.

Definition addReplyError (c : redisClient) (err : string) : redisClient :=
  addReplyErrorLength c (bytes_of_string err).

(** [addReplyErrorFormat] on a formatted string: [sdscatvprintf] stops at the
    first NUL, and line ends are replaced. *)
Definition addReplyErrorFormat (c : redisClient) (formatted : list Z) : redisClient :=
  addReplyErrorLength c
    ((fun b => if (b =? 13) || (b =? 10) then 32 else b) <$> until_nul formatted).

(** ** The parser *)

(** The first [ch] of the buffer at or after [pos], as an index. *)
Definition strchr_from (s : sdshdr) (pos ch : Z) : option (option Z) :=
  r ← strchr (drop (Z.to_nat pos) (buf s)) ch; Some (option_map (Z.add pos) r).

Definition setProtocolError (c : redisClient) (pos : Z) : option redisClient :=
  let c := set_flags (set_flag (flags c) REDIS_CLOSE_AFTER_REPLY) c in
  q ← sdsrange (querybuf c) pos (-1);
  Some (set_querybuf q c).

(** [argv\[argc++\] = o]. *)
Definition push_arg (o : list Z) (c : redisClient) : option redisClient :=
  if zlen (argv c) <? argv_size c then Some (set_argv (argv c ++ [o]) c) else None.

Inductive outcome := Continue | Break | Error.

Section Parser.
Variable junk : nat -> Z.

(** Reading the length of a bulk, when it is unknown. *)
Definition read_bulklen (c : redisClient) (pos : Z) : option (redisClient * Z * outcome) :=
  newline ← strchr_from (querybuf c) pos 13;
  match newline with
  | None =>
      if len (querybuf c) >? REDIS_INLINE_MAX_SIZE then
        c ← setProtocolError (addReplyError c "Protocol error: too big bulk count string") 0;
        Some (c, pos, Error)
      else Some (c, pos, Break)
  | Some nl =>
      if nl >? s32 (len (querybuf c)) - 2 then Some (c, pos, Break)
      else
        ch ← getb (buf (querybuf c)) pos;
        if negb (ch =? 36) then
          c ← setProtocolError (addReplyErrorFormat c
                 (bytes_of_string "Protocol error: expected '$', got '" ++ [ch; 39])) pos;
          Some (c, pos, Error)
        else
          digits ← load (buf (querybuf c)) (pos + 1) (nl - (pos + 1));
          match string2ll digits with
          | Some ll =>
              if (ll <? 0) || (ll >? 512 * 1024 * 1024) then
                c ← setProtocolError (addReplyError c "Protocol error: invalid bulk length") pos;
                Some (c, pos, Error)
              else
                let pos := s32 (pos + (nl - pos + 2)) in
                if ll >=? REDIS_MBULK_BIG_ARG then
                  q ← sdsrange (querybuf c) pos (-1);
                  let qblen := len q in
                  let q := if qblen <? ll + 2 then sdsMakeRoomFor junk q (ll + 2 - qblen) else q in
                  Some (set_parse (reqtype c) (multibulklen c) ll (set_querybuf q c), 0, Continue)
                else Some (set_parse (reqtype c) (multibulklen c) ll c, pos, Continue)
          | None =>
              c ← setProtocolError (addReplyError c "Protocol error: invalid bulk length") pos;
              Some (c, pos, Error)
          end
  end.

(** Reading the bulk itself. *)
Definition read_bulk (c : redisClient) (pos : Z) : option (redisClient * Z * outcome) :=
  if u64 (len (querybuf c) - pos) <? u32 (bulklen c + 2) then Some (c, pos, Break)
  else
    '(c, pos) ←
      (if (pos =? 0) && (bulklen c >=? REDIS_MBULK_BIG_ARG) &&
          (s32 (len (querybuf c)) =? bulklen c + 2) then
         q ← sdsIncrLen (querybuf c) (-2);
         c ← push_arg (contents q) c;
         q ← sdsempty junk;
         Some (set_querybuf (sdsMakeRoomFor junk q (bulklen c + 2)) c, 0)
       else
         o ← load (buf (querybuf c)) pos (bulklen c);
         c ← push_arg o c;
         Some (c, s32 (pos + (bulklen c + 2))));
    Some (set_parse (reqtype c) (multibulklen c - 1) (-1) c, pos, Continue).

(** [while(c->multibulklen)]; the boolean says that an error has been reported. *)
Fixpoint mbulk_loop (fuel : nat) (c : redisClient) (pos : Z) : option (redisClient * Z * bool) :=
  match fuel with
  | O => None
  | S fuel =>
      if multibulklen c =? 0 then Some (c, pos, false)
      else
        '(c, pos, o) ← (if bulklen c =? -1 then read_bulklen c pos else Some (c, pos, Continue));
        match o with
        | Error => Some (c, pos, true)
        | Break => Some (c, pos, false)
        | Continue =>
            '(c, pos, o) ← read_bulk c pos;
            match o with
            | Continue => mbulk_loop fuel c pos
            | _ => Some (c, pos, false)
            end
        end
  end.

(** The loop, the trimming of what has been parsed, and the result: whether the
    request is complete ([REDIS_OK]). *)
Definition mbulk_args (c : redisClient) (pos : Z) : option (redisClient * bool) :=
  if multibulklen c >? 0 then
    '(c, pos, err) ← mbulk_loop (S (Z.to_nat (multibulklen c))) c pos;
    if (err : bool) then Some (c, false)
    else
      q ← (if negb (pos =? 0) then sdsrange (querybuf c) pos (-1) else Some (querybuf c));
      Some (set_querybuf q c, multibulklen c =? 0)
  else None.

Definition processMultibulkBuffer (c : redisClient) : option (redisClient * bool) :=
  if multibulklen c =? 0 then
    if negb (zlen (argv c) =? 0) then None
    else
      newline ← strchr_from (querybuf c) 0 13;
      match newline with
      | None =>
          if len (querybuf c) >? REDIS_INLINE_MAX_SIZE then
            c ← setProtocolError (addReplyError c "Protocol error: too big mbulk count string") 0;
            Some (c, false)
          else Some (c, false)
      | Some nl =>
          if nl >? s32 (len (querybuf c)) - 2 then Some (c, false)
          else
            ch ← getb (buf (querybuf c)) 0;
            if negb (ch =? 42) then None
            else
              digits ← load (buf (querybuf c)) 1 (nl - 1);
              match string2ll digits with
              | Some ll =>
                  if ll >? 1024 * 1024 then
                    c ← setProtocolError (addReplyError c "Protocol error: invalid multibulk length") 0;
                    Some (c, false)
                  else
                    let pos := s32 (nl + 2) in
                    if ll <=? 0 then
                      q ← sdsrange (querybuf c) pos (-1);
                      Some (set_querybuf q c, true)
                    else
                      mbulk_args (set_argv_size ll (set_parse (reqtype c) ll (bulklen c) c)) pos
              | None =>
                  c ← setProtocolError (addReplyError c "Protocol error: invalid multibulk length") 0;
                  Some (c, false)
              end
      end
  else mbulk_args c 0.

End Parser.

(** The rest of the server. *)
Class Server (St : Type) := {
  unixtime : St -> Z;
  clientsArePaused : St -> bool * St;
  net_input : Z -> St -> St;
  processCommand : St -> redisClient -> St * redisClient * bool;
  askingCommand : Z
}.

Section Requests.
Context {St : Type} `{Server St}.
Variable junk : nat -> Z.

Definition resetClient (c : redisClient) : redisClient :=
  let prevcmd := cmd c in
  let c := set_cmd None (set_argv [] c) in
  let c := set_parse 0 0 (-1) c in
  if negb (has (flags c) REDIS_MULTI) && negb (bool_decide (prevcmd = Some askingCommand))
  then set_flags (clear_flag (flags c) REDIS_ASKING) c else c.

(** Creates the objects of the arguments that are not empty. *)
Fixpoint inline_args (args : list (list Z)) (c : redisClient) : option redisClient :=
  match args with
  | [] => Some c
  | a :: args =>
      if negb (zlen a =? 0) then c ← push_arg a c; inline_args args c else inline_args args c
  end.

Definition processInlineBuffer (st : St) (c : redisClient) : option (redisClient * bool) :=
  newline ← strchr_from (querybuf c) 0 10;
  match newline with
  | None =>
      if len (querybuf c) >? REDIS_INLINE_MAX_SIZE then
        c ← setProtocolError (addReplyError c "Protocol error: too big inline request") 0;
        Some (c, false)
      else Some (c, false)
  | Some nl =>
      nl ← (if nl =? 0 then Some nl
            else b ← getb (buf (querybuf c)) (nl - 1);
                 Some (if b =? 13 then nl - 1 else nl));
      let querylen := nl in
      aux ← load (buf (querybuf c)) 0 querylen;
      args ← sdssplitargs aux;
      match args with
      | None =>
          c ← setProtocolError (addReplyError c "Protocol error: unbalanced quotes in request") 0;
          Some (c, false)
      | Some args =>
          let c := if (querylen =? 0) && has (flags c) REDIS_SLAVE
                   then set_ack_time (unixtime st) c else c in
          q ← sdsrange (querybuf c) (s32 (querylen + 2)) (-1);
          let c := set_querybuf q c in
          let c := if zlen args =? 0 then c else set_argv_size (zlen args) c in
          c ← inline_args args (set_argv [] c);
          Some (c, true)
      end
  end.

(** One turn of the loop of [processInputBuffer]; the boolean asks for another
    one. *)
Definition input_step (st : St) (c : redisClient) : option (St * redisClient * bool) :=
  let '(paused, st) := if has (flags c) REDIS_SLAVE then (false, st) else clientsArePaused st in
  if paused then Some (st, c, false)
  else if has (flags c) REDIS_BLOCKED then Some (st, c, false)
  else if has (flags c) REDIS_CLOSE_AFTER_REPLY then Some (st, c, false)
  else
    c ← (if reqtype c =? 0 then
           ch ← getb (buf (querybuf c)) 0;
           Some (set_parse (if ch =? 42 then REDIS_REQ_MULTIBULK else REDIS_REQ_INLINE)
                   (multibulklen c) (bulklen c) c)
         else Some c);
    '(c, ok) ← (if reqtype c =? REDIS_REQ_INLINE then processInlineBuffer st c
                else if reqtype c =? REDIS_REQ_MULTIBULK then processMultibulkBuffer junk c
                else None);
    if negb ok then Some (st, c, false)
    else if zlen (argv c) =? 0 then Some (st, resetClient c, true)
    else
      let '(st, c, ok) := processCommand st c in
      Some (st, if (ok : bool) then resetClient c else c, true).

(** [while(sdslen(c->querybuf))]. *)
Fixpoint input_loop (fuel : nat) (st : St) (c : redisClient) : option (St * redisClient) :=
  match fuel with
  | O => None
  | S fuel =>
      if len (querybuf c) =? 0 then Some (st, c)
      else
        '(st, c, again) ← input_step st c;
        if (again : bool) then input_loop fuel st c else Some (st, c)
  end.

(** Every turn that asks for another one has consumed a byte, except the last
    one before the client is closed. *)
Definition processInputBuffer (st : St) (c : redisClient) : option (St * redisClient) :=
  input_loop (S (S (Z.to_nat (len (querybuf c))))) st c.

(** How much [readQueryFromClient] asks for. *)
Definition read_length (c : redisClient) : Z :=
  if (reqtype c =? REDIS_REQ_MULTIBULK) && negb (multibulklen c =? 0) &&
     negb (bulklen c =? -1) && (bulklen c >=? REDIS_MBULK_BIG_ARG) then
    let remaining := s32 (u64 (u32 (bulklen c + 2) - len (querybuf c))) in
    if remaining <? REDIS_IOBUF_LEN then remaining else REDIS_IOBUF_LEN
  else REDIS_IOBUF_LEN.

(** The result of [read]: some bytes (none at the end of the stream or when none
    are asked for), no data yet, or an error. *)
Inductive read_result := RData (bs : list Z) | REagain | RError.

(** [None] for the client when it is freed. *)
Definition readQueryFromClient (st : St) (c : redisClient) (r : read_result)
    : option (St * option redisClient) :=
  let readlen := read_length c in
  let qblen := len (querybuf c) in
  let peak := if querybuf_peak c <? qblen then qblen else querybuf_peak c in
  match r with
  | RError => Some (st, None)
  | REagain => Some (st, Some (set_querybuf (sdsMakeRoomFor junk (querybuf c) readlen)
                       (set_net peak (lastinteraction c) (reploff c) c)))
  | RData bs =>
      if zlen bs =? 0 then Some (st, None)
      else
        q ← append_read junk (querybuf c) readlen bs;
        let c := set_querybuf q (set_net peak (unixtime st)
                   (if has (flags c) REDIS_MASTER then reploff c + zlen bs else reploff c) c) in
        let st := net_input (zlen bs) st in
        if len q >? REDIS_MAX_QUERYBUF_LEN then Some (st, None)
        else '(st, c) ← processInputBuffer st c; Some (st, Some c)
  end.

End Requests.

(** ** Specification: the encoding of the requests *)

Definition crlf : list Z := [13; 10].
Definition enc_bulk (a : list Z) : list Z := 36 :: ll_repr (zlen a) ++ crlf ++ a ++ crlf.
Definition enc_args (args : list (list Z)) : list Z := concat (enc_bulk <$> args).
Definition enc_request (args : list (list Z)) : list Z :=
  42 :: ll_repr (zlen args) ++ crlf ++ enc_args args.
Definition enc_all (reqs : list (list (list Z))) : list Z := concat (enc_request <$> reqs).

(** The limits of the protocol. *)
Definition arg_fits (a : list Z) : Prop := zlen a <= 512 * 1024 * 1024.
Definition valid_request (args : list (list Z)) : Prop :=
  args <> [] /\ zlen args <= 1024 * 1024 /\ Forall arg_fits args.

(** ** Lemmas: lines *)

Lemma strchr_absent d ch r :
  ch <> 0 -> ch ∉ d -> no_nul d -> strchr (d ++ 0 :: r) ch = Some None.
Proof.
  intros Hch Hd Hn. induction Hn as [|c d Hc Hn IH]; cbn [app strchr].
  - by rewrite (proj2 (Z.eqb_neq 0 ch)) by congruence.
  - apply not_elem_of_cons in Hd as [Hcd Hd].
    rewrite (proj2 (Z.eqb_neq c ch)), (proj2 (Z.eqb_neq c 0)) by congruence.
    by rewrite IH.
Qed.

Lemma strchr_present h ch X :
  ch ∉ h -> no_nul h -> strchr (h ++ ch :: X) ch = Some (Some (zlen h)).
Proof.
  intros Hh Hn. induction Hn as [|c h Hc Hn IH]; cbn [app strchr].
  - by rewrite Z.eqb_refl.
  - apply not_elem_of_cons in Hh as [Hch Hh].
    rewrite (proj2 (Z.eqb_neq c ch)), (proj2 (Z.eqb_neq c 0)) by congruence.
    rewrite IH by done. sbind. cbn [option_map]. rewrite zlen_cons. do 2 f_equal. lia.
Qed.

(** What has been received of a line [h] and of what follows it. *)
Lemma line_cases (d rest h X : list Z) :
  d ++ rest = h ++ crlf ++ X ->
  (exists h2, h = d ++ h2 /\ rest = h2 ++ crlf ++ X) \/
  (d = h ++ [13] /\ rest = 10 :: X) \/
  (exists d2, d = h ++ crlf ++ d2 /\ d2 ++ rest = X).
Proof.
  intros Heq. apply app_eq_inv in Heq as [(k & -> & Hk)|(k & -> & Hk)]; [|left; eauto].
  unfold crlf in *. destruct k as [|x [|y k]]; cbn [app] in Hk.
  - left. exists []. rewrite !app_nil_r. auto.
  - injection Hk as <- <-. auto.
  - injection Hk as <- <- ->. right. right. by exists k.
Qed.

Lemma header_chars c n :
  in_ll n -> c <> 13 -> c <> 0 -> c <> 10 ->
  (13 ∉ c :: ll_repr n) /\ no_nul (c :: ll_repr n) /\ zlen (c :: ll_repr n) <= 21.
Proof.
  intros Hn H13 H0 H10. destruct (ll_repr_shape n Hn) as (sg & ds & -> & Hds & _ & Hl & Hsg).
  assert (Forall (fun x => x <> 13 /\ x <> 0) (sg ++ ds)) as Hf.
  { apply Forall_app. split.
    - destruct Hsg as [[-> _]|[-> _]]; repeat constructor; discriminate.
    - eapply Forall_impl; [exact Hds|]. intros x Hx. cbv beta in Hx. apply isdigit_iff in Hx.
      unfold is_digit in Hx. lia. }
  split; [|split].
  - apply not_elem_of_cons. split; [congruence|]. intros Hin.
    apply (proj1 (Forall_forall _ _) Hf) in Hin. by destruct Hin.
  - constructor; [done|]. eapply Forall_impl; [exact Hf|]. by intros ? [_ ?].
  - rewrite zlen_cons. lia.
Qed.

Lemma no_nul_app_l a b : no_nul (a ++ b) -> no_nul a.
Proof. intros H. by apply Forall_app in H as [? _]. Qed.

(** The search for the end of the line [h] in the buffer, from [pos]. *)
Lemma find_line q l pos (d rest h X : list Z) :
  sds_ok q l -> 0 <= pos <= zlen l -> d = drop (Z.to_nat pos) l -> d ++ rest = h ++ crlf ++ X ->
  13 ∉ h -> no_nul h ->
  (strchr_from q pos 13 = Some None /\ (exists h2, h = d ++ h2 /\ rest = h2 ++ crlf ++ X)) \/
  (strchr_from q pos 13 = Some (Some (pos + zlen h)) /\ d = h ++ [13] /\ rest = 10 :: X) \/
  (strchr_from q pos 13 = Some (Some (pos + zlen h)) /\ exists d2, d = h ++ crlf ++ d2 /\ d2 ++ rest = X).
Proof.
  intros (r & -> & _ & _) Hpos Hd Heq Hh Hn. unfold strchr_from. cbn [buf].
  rewrite drop_app_le by (unfold zlen in *; lia). rewrite <- Hd.
  apply line_cases in Heq as [(h2 & -> & ->)|[[-> ->]|(d2 & -> & Hd2)]].
  - left. split; [|by exists h2]. rewrite strchr_absent; [done|done| |by eapply no_nul_app_l].
    intros Hin. apply Hh, elem_of_app. by left.
  - right. left. rewrite <- app_assoc. cbn [app]. by rewrite strchr_present.
  - right. right. unfold crlf. rewrite <- app_assoc. cbn [app]. rewrite strchr_present by done.
    split; [done|]. by exists d2.
Qed.

Lemma drop_pos {A} (l : list A) pos h t :
  0 <= pos -> drop (Z.to_nat pos) l = h ++ t ->
  drop (Z.to_nat (pos + zlen h)) l = t /\ pos + zlen h + zlen t = Z.max pos (zlen l).
Proof.
  intros Hpos Hd. split.
  - replace (Z.to_nat (pos + zlen h)) with (Z.to_nat pos + length h)%nat by (unfold zlen; lia).
    by rewrite <- drop_drop, Hd, drop_app_length.
  - apply (f_equal zlen) in Hd. rewrite zlen_drop, zlen_app in Hd.
    pose proof (zlen_nonneg h). pose proof (zlen_nonneg t). lia.
Qed.

(** Bytes of the buffer after [pos]. *)
Lemma buf_at l r pos (h t : list Z) :
  0 <= pos <= zlen l -> drop (Z.to_nat pos) l = h ++ t ->
  exists a, l = a ++ h ++ t /\ zlen a = pos /\ l ++ 0 :: r = a ++ h ++ (t ++ 0 :: r).
Proof.
  intros Hpos Hd. exists (take (Z.to_nat pos) l).
  assert (l = take (Z.to_nat pos) l ++ h ++ t) as Hl by (by rewrite <- Hd, take_drop).
  split; [done|]. split; [rewrite zlen_take; lia|].
  rewrite Hl at 1. by rewrite <- !app_assoc.
Qed.

(** ** Lemmas: one bulk *)

(** What the reading of the arguments leaves alone. *)
Definition frame (c c' : redisClient) : Prop :=
  flags c' = flags c /\ reqtype c' = reqtype c /\ argv_size c' = argv_size c /\ cmd c' = cmd c.

Lemma frame_refl c : frame c c.
Proof. done. Qed.
Lemma frame_trans a b c : frame a b -> frame b c -> frame a c.
Proof. unfold frame. intros (-> & -> & -> & ->). done. Qed.

Lemma range_tail s l pos :
  sds_ok s l -> 0 <= pos <= zlen l -> exists s', sdsrange s pos (-1) = Some s' /\
    sds_ok s' (drop (Z.to_nat pos) l).
Proof.
  intros Hs Hpos. pose proof Hs as (_ & _ & Hl & _). unfold INT32_MAX in *.
  destruct (range_ok s l pos (-1) Hs) as (s' & Hr & Hok); unfold INT32_MIN, INT32_MAX; [lia..|].
  exists s'. split; [done|].
  replace (drop (Z.to_nat pos) l) with (range_spec pos (-1) l); [done|].
  unfold range_spec. rewrite (proj2 (Z.ltb_ge pos 0)) by lia. cbn [Z.ltb Z.compare].
  apply take_ge. rewrite length_drop. unfold zlen in *. lia.
Qed.

Lemma sds_len s l : sds_ok s l -> len s = zlen l /\ zlen l <= INT32_MAX.
Proof. by intros (r & -> & ? & _). Qed.

Lemma ll_arg a : arg_fits a -> in_ll (zlen a).
Proof.
  unfold arg_fits, in_ll, LLONG_MIN, LLONG_MAX. pose proof (zlen_nonneg a). lia.
Qed.

Section Bulk.
Variable junk : nat -> Z.

Lemma room_keeps s l n :
  sds_ok s l -> zlen l + n <= INT32_MAX ->
  sds_ok (if len s <? n then sdsMakeRoomFor junk s (n - len s) else s) l.
Proof.
  intros Hs Hn. pose proof (sds_len s l Hs) as [Hl _]. pose proof (zlen_nonneg l). rewrite Hl.
  destruct (Z.ltb_spec (zlen l) n); [|done]. apply makeroom_ok; [done|lia|lia].
Qed.

Lemma bulklen_complete c l pos a rest X (d2 : list Z) :
  sds_ok (querybuf c) l -> 0 <= pos <= zlen l -> zlen l <= REDIS_INLINE_MAX_SIZE -> arg_fits a ->
  drop (Z.to_nat pos) l = (36 :: ll_repr (zlen a)) ++ crlf ++ d2 -> d2 ++ rest = X ->
  strchr_from (querybuf c) pos 13 = Some (Some (pos + zlen (36 :: ll_repr (zlen a)))) ->
  exists q l' pos',
    read_bulklen junk c pos
      = Some (set_parse (reqtype c) (multibulklen c) (zlen a) (set_querybuf q c), pos', Continue) /\
    sds_ok q l' /\ 0 <= pos' <= zlen l' /\ drop (Z.to_nat pos') l' ++ rest = X /\
    zlen l' <= REDIS_INLINE_MAX_SIZE /\ zlen l' - pos' < zlen l - pos.
Proof.
  intros Hq Hpos Hsize Ha Hd HX Hnl. pose proof (sds_len _ _ Hq) as [Hlen Hmax].
  pose proof (ll_arg a Ha) as Hll. pose proof (zlen_nonneg a). unfold arg_fits in Ha.
  unfold read_bulklen. rewrite Hnl. sbind. set (h := 36 :: ll_repr (zlen a)) in *.
  destruct (drop_pos l pos h _ (proj1 Hpos) Hd) as [Hd1 Hz1]. pose proof (zlen_nonneg d2).
  unfold crlf in Hz1. rewrite zlen_app in Hz1. change (zlen [13; 10]) with 2 in Hz1.
  destruct (drop_pos l (pos + zlen h) crlf d2) as [Hd2 _]; [pose proof (zlen_nonneg h); lia|done|].
  change (zlen crlf) with 2 in Hd2. assert (1 <= zlen h) as Hh1 by (subst h; rewrite zlen_cons;
    pose proof (zlen_nonneg (ll_repr (zlen a))); lia).
  unfold INT32_MAX, REDIS_INLINE_MAX_SIZE in *. rewrite Hlen, s32_small by lia.
  rewrite Z.gtb_ltb, (proj2 (Z.ltb_ge _ _)) by lia.
  destruct Hq as (r & Hq & Hq1 & Hq2). assert (sds_ok (querybuf c) l) as Hok by (by exists r).
  assert (buf (querybuf c) = l ++ 0 :: r) as Hbuf by (by rewrite Hq).
  destruct (buf_at l r pos h _ Hpos Hd) as (b & _ & Hb & Hbl). rewrite Hbuf, Hbl.
  subst h. cbn [app]. rewrite getb_mid by done. sbind. change (36 =? 36) with true. cbn [negb].
  replace (b ++ 36 :: ll_repr (zlen a) ++ (crlf ++ d2) ++ 0 :: r)
    with ((b ++ [36]) ++ ll_repr (zlen a) ++ (crlf ++ d2) ++ 0 :: r) by (by rewrite <- app_assoc).
  rewrite load_mid; [|rewrite zlen_app; change (zlen [36]) with 1; lia|rewrite zlen_cons; lia]. sbind.
  rewrite string2ll_complete by done. rewrite Z.gtb_ltb, (proj2 (Z.ltb_ge (zlen a) 0)) by lia.
  rewrite (proj2 (Z.ltb_ge (512 * 1024 * 1024) _)) by lia. cbn [orb].
  rewrite s32_small by lia.
  replace (pos + (pos + zlen (36 :: ll_repr (zlen a)) - pos + 2))
    with (pos + zlen (36 :: ll_repr (zlen a)) + 2) by lia.
  rewrite Z.geb_leb. unfold REDIS_MBULK_BIG_ARG. destruct (Z.leb_spec 32768 (zlen a)).
  - destruct (range_tail (querybuf c) l (pos + zlen (36 :: ll_repr (zlen a)) + 2) Hok)
      as (q & -> & Hq'); [lia|]. sbind. rewrite Hd2 in Hq'.
    eexists _, d2, 0. split; [done|]. split.
    { apply room_keeps; [done|]. unfold INT32_MAX. lia. }
    rewrite drop_0. split; [lia|]. split; [done|]. lia.
  - exists (querybuf c), l, (pos + zlen (36 :: ll_repr (zlen a)) + 2).
    split; [by destruct c|]. split; [done|]. split; [lia|]. rewrite Hd2. split; [done|]. lia.
Qed.

Lemma read_bulklen_spec c l pos a rest X :
  sds_ok (querybuf c) l -> 0 <= pos <= zlen l -> zlen l <= REDIS_INLINE_MAX_SIZE -> arg_fits a ->
  drop (Z.to_nat pos) l ++ rest = enc_bulk a ++ X ->
  (read_bulklen junk c pos = Some (c, pos, Break) /\ zlen l - pos <= 22 /\ zlen X < zlen rest) \/
  (exists q l' pos',
    read_bulklen junk c pos
      = Some (set_parse (reqtype c) (multibulklen c) (zlen a) (set_querybuf q c), pos', Continue) /\
    sds_ok q l' /\ 0 <= pos' <= zlen l' /\ drop (Z.to_nat pos') l' ++ rest = a ++ crlf ++ X /\
    zlen l' <= REDIS_INLINE_MAX_SIZE /\ zlen l' - pos' < zlen l - pos).
Proof.
  intros Hq Hpos Hsize Ha Heq. pose proof (sds_len _ _ Hq) as [Hlen Hmax].
  destruct (header_chars 36 (zlen a) (ll_arg a Ha)) as (H13 & Hn & Hh); [done..|].
  change (enc_bulk a ++ X) with (((36 :: ll_repr (zlen a)) ++ crlf ++ a ++ crlf) ++ X) in Heq.
  rewrite <- !app_assoc in Heq. set (d := drop (Z.to_nat pos) l) in *.
  assert (zlen d = zlen l - pos) as Hd by (subst d; rewrite zlen_drop; lia).
  assert (zlen X < zlen (a ++ crlf ++ X)) as HX.
  { rewrite !zlen_app. change (zlen crlf) with 2. pose proof (zlen_nonneg a). lia. }
  destruct (find_line _ l pos d rest _ _ Hq Hpos eq_refl Heq H13 Hn)
    as [(Hs & h2 & Hh2 & Hr)|[(Hs & Hd2 & Hr)|(Hs & d2 & Hd2 & Hr)]].
  - left. unfold read_bulklen. rewrite Hs. sbind.
    rewrite Hlen, Z.gtb_ltb, (proj2 (Z.ltb_ge _ _)) by lia. split; [done|].
    apply (f_equal zlen) in Hh2, Hr. rewrite zlen_app in Hh2. rewrite !zlen_app in Hr.
    rewrite zlen_app in HX. rewrite zlen_app in HX.
    change (zlen crlf) with 2 in *. pose proof (zlen_nonneg h2). pose proof (zlen_nonneg a). lia.
  - left. unfold read_bulklen. rewrite Hs. sbind.
    apply (f_equal zlen) in Hd2, Hr. rewrite zlen_app in Hd2. rewrite zlen_cons in Hr.
    change (zlen [13]) with 1 in Hd2. unfold INT32_MAX in *. rewrite Hlen, s32_small by lia.
    rewrite Z.gtb_ltb, (proj2 (Z.ltb_lt _ _)) by lia. split; [done|]. lia.
  - right. eapply bulklen_complete; eauto.
Qed.

End Bulk.

Section BulkRead.
Variable junk : nat -> Z.

(** The buffer is small, or it holds at most the big argument that is being
    read. *)
Definition buffer_bound (l : list Z) (blen : Z) : Prop :=
  zlen l <= REDIS_INLINE_MAX_SIZE \/
  (REDIS_MBULK_BIG_ARG <= blen /\ zlen l <= blen + 2).

Definition after_bulk (c : redisClient) (q : sdshdr) (a : list Z) : redisClient :=
  set_parse (reqtype c) (multibulklen c - 1) (-1) (set_querybuf q (set_argv (argv c ++ [a]) c)).

Lemma empty_room n :
  0 <= n <= INT32_MAX ->
  exists q, sdsempty junk = Some q /\ sds_ok (sdsMakeRoomFor junk q n) [].
Proof.
  intros Hn. destruct (newlen_spec junk [0] [] 0) as (q & Hq & Hok); [done|done|].
  exists q. split; [done|]. apply makeroom_ok; [done|lia|rewrite (@zlen_nil Z); lia].
Qed.

Lemma bulk_complete c l pos a d2 :
  sds_ok (querybuf c) l -> 0 <= pos <= zlen l -> bulklen c = zlen a -> arg_fits a ->
  drop (Z.to_nat pos) l = a ++ crlf ++ d2 -> zlen (argv c) < argv_size c ->
  zlen l <= REDIS_INLINE_MAX_SIZE \/ (REDIS_MBULK_BIG_ARG <= zlen a /\ zlen l <= zlen a + 2) ->
  exists q l' pos', read_bulk junk c pos = Some (after_bulk c q a, pos', Continue) /\
    sds_ok q l' /\ 0 <= pos' <= zlen l' /\ drop (Z.to_nat pos') l' = d2 /\
    zlen l' <= REDIS_INLINE_MAX_SIZE /\ zlen l' - pos' < zlen l - pos.
Proof.
  intros Hq Hpos Hb Ha Hd Hslot Hbound. pose proof (sds_len _ _ Hq) as [Hlen Hmax].
  pose proof (zlen_nonneg a). pose proof (zlen_nonneg d2). unfold arg_fits in Ha.
  destruct (drop_pos l pos a _ (proj1 Hpos) Hd) as [Hd1 Hz1].
  rewrite zlen_app in Hz1. change (zlen crlf) with 2 in Hz1.
  destruct (drop_pos l (pos + zlen a) crlf d2) as [Hd2 _]; [lia|done|]. change (zlen crlf) with 2 in Hd2.
  unfold read_bulk. rewrite Hlen, Hb. unfold INT32_MAX in *.
  rewrite u64_small, u32_small, s32_small by lia. rewrite (proj2 (Z.ltb_ge _ _)) by lia.
  unfold push_arg. change (argv_size (set_querybuf _ c)) with (argv_size c).
  rewrite (proj2 (Z.ltb_lt _ _)) by done.
  destruct (Z.eqb_spec pos 0) as [Hp0|Hp0]; [destruct (Z.geb_spec (zlen a) REDIS_MBULK_BIG_ARG) as [Hbig|Hbig];
    [destruct (Z.eqb_spec (zlen l) (zlen a + 2)) as [Heq|Hne]|]|]; cbn [andb].
  1: { destruct (incrlen_neg (querybuf c) l 2 Hq) as (q & Hi & Hq'); [lia|].
    change (- (2)) with (-2) in Hi. rewrite Hi. sbind.
    subst pos. rewrite drop_0 in Hd. rewrite Heq in Hq'.
    replace (Z.to_nat (zlen a + 2 - 2)) with (length a) in Hq' by (unfold zlen; lia).
    rewrite Hd, take_app_length in Hq'. rewrite (contents_ok _ _ Hq').
    destruct (empty_room (zlen a + 2)) as (q1 & -> & Hq1); [unfold INT32_MAX; lia|]. sbind.
    assert (d2 = []) as -> by (apply zlen_0; lia).
    eexists _, [], 0. split; [by destruct c; simpl in *; subst|]. split; [exact Hq1|].
    rewrite (@zlen_nil Z). unfold REDIS_INLINE_MAX_SIZE in *. split; [lia|]. split; [done|]. lia. }
  all: destruct Hq as (r & Hq & Hr1 & Hr2);
    assert (buf (querybuf c) = l ++ 0 :: r) as Hbuf by (by rewrite Hq);
    destruct (buf_at l r pos a _ Hpos Hd) as (b & _ & Hzb & Hbl); rewrite Hbuf, Hbl;
    rewrite load_mid by done; sbind;
    change (bulklen (set_argv _ c)) with (bulklen c); rewrite Hb, s32_small by lia;
    exists (querybuf c), l, (pos + (zlen a + 2));
    (split; [by destruct c; simpl in *; subst|]); (split; [by exists r|]); (split; [lia|]);
    replace (pos + (zlen a + 2)) with (pos + zlen a + 2) by lia; (split; [done|]);
    unfold REDIS_INLINE_MAX_SIZE, REDIS_MBULK_BIG_ARG in *; lia.
Qed.

Lemma bulk_split (a d rest X : list Z) :
  d ++ rest = a ++ crlf ++ X ->
  (zlen d < zlen a + 2 /\ zlen X < zlen rest) \/ (exists d2, d = a ++ crlf ++ d2 /\ d2 ++ rest = X).
Proof.
  intros Heq. destruct (line_cases d rest a X Heq) as [(h2 & -> & ->)|[[-> ->]|Hc]]; [left..|by right].
  - rewrite !zlen_app. change (zlen crlf) with 2. pose proof (zlen_nonneg h2). lia.
  - rewrite zlen_app. change (zlen [13]) with 1. rewrite zlen_cons. lia.
Qed.

Lemma read_bulk_spec c l pos a rest X :
  sds_ok (querybuf c) l -> 0 <= pos <= zlen l -> bulklen c = zlen a -> arg_fits a ->
  drop (Z.to_nat pos) l ++ rest = a ++ crlf ++ X -> zlen (argv c) < argv_size c ->
  zlen l <= REDIS_INLINE_MAX_SIZE \/ (REDIS_MBULK_BIG_ARG <= zlen a /\ zlen l <= zlen a + 2) ->
  (read_bulk junk c pos = Some (c, pos, Break) /\ zlen l - pos < zlen a + 2 /\ zlen X < zlen rest) \/
  (exists q l' pos', read_bulk junk c pos = Some (after_bulk c q a, pos', Continue) /\
    sds_ok q l' /\ 0 <= pos' <= zlen l' /\ drop (Z.to_nat pos') l' ++ rest = X /\
    zlen l' <= REDIS_INLINE_MAX_SIZE /\ zlen l' - pos' < zlen l - pos).
Proof.
  intros Hq Hpos Hb Ha Heq Hslot Hbound.
  destruct (bulk_split _ _ _ _ Heq) as [[Hd HX]|(d2 & Hd & HX)].
  - left. pose proof (sds_len _ _ Hq) as [Hlen Hmax]. pose proof (zlen_nonneg a).
    rewrite zlen_drop in Hd. unfold read_bulk. rewrite Hlen, Hb. unfold arg_fits, INT32_MAX in *.
    rewrite u64_small, u32_small by lia. rewrite (proj2 (Z.ltb_lt _ _)) by lia. split; [done|lia].
  - right. destruct (bulk_complete c l pos a d2 Hq Hpos Hb Ha Hd Hslot Hbound)
      as (q & l' & pos' & -> & Hq' & Hpos' & Hd' & Hl').
    exists q, l', pos'. rewrite Hd'. done.
Qed.

(** Where the parser stops in the arguments [todo], when [d] is left of the
    buffer: inside of them only if some byte of them has not arrived. *)
Definition stopped (c : redisClient) (d rest X : list Z) (todo : list (list Z)) : Prop :=
  match todo with
  | [] => bulklen c = -1 /\ d ++ rest = X
  | a :: todo' =>
      zlen X < zlen rest /\
      (bulklen c = -1 /\ d ++ rest = enc_args todo ++ X /\ zlen d <= 22 \/
       bulklen c = zlen a /\ d ++ rest = a ++ crlf ++ enc_args todo' ++ X /\ zlen d < zlen a + 2)
  end.

(** Where it starts. *)
Definition started (c : redisClient) (l d rest X : list Z) (args : list (list Z)) : Prop :=
  bulklen c = -1 /\ d ++ rest = enc_args args ++ X /\ zlen l <= REDIS_INLINE_MAX_SIZE \/
  exists a args', args = a :: args' /\ bulklen c = zlen a /\
    d ++ rest = a ++ crlf ++ enc_args args' ++ X /\
    (zlen l <= REDIS_INLINE_MAX_SIZE \/ (REDIS_MBULK_BIG_ARG <= zlen a /\ zlen l <= zlen a + 2)).

Lemma zlen_tail_lt (todo : list (list Z)) (X rest : list Z) :
  zlen (enc_args todo ++ X) < zlen rest -> zlen X < zlen rest.
Proof. rewrite zlen_app. pose proof (zlen_nonneg (enc_args todo)). lia. Qed.

(** What the loop gives for the arguments [args]. *)
Definition loop_ok (rest X : list Z) (args : list (list Z)) (c : redisClient) (left : Z)
    (r : option (redisClient * Z * bool)) : Prop :=
  exists c' pos' l' done todo,
    r = Some (c', pos', false) /\ frame c c' /\
    sds_ok (querybuf c') l' /\ 0 <= pos' <= zlen l' /\ args = done ++ todo /\
    argv c' = argv c ++ done /\ multibulklen c' = zlen todo /\
    stopped c' (drop (Z.to_nat pos') l') rest X todo /\
    zlen l' - pos' <= left /\ (args <> [] -> todo = [] -> zlen l' - pos' < left) /\
    (bulklen c' = -1 -> zlen l' <= REDIS_INLINE_MAX_SIZE).

(** The loop can be called on [args] with their lengths to be read. *)
Definition callable (c : redisClient) (l : list Z) (pos : Z) (args : list (list Z)) : Prop :=
  sds_ok (querybuf c) l /\ 0 <= pos <= zlen l /\ multibulklen c = zlen args /\
  Forall arg_fits args /\ zlen (argv c) + zlen args <= argv_size c.

Lemma stop_here rest X a args c l pos :
  callable c l pos (a :: args) -> zlen (enc_args args ++ X) < zlen rest ->
  stopped c (drop (Z.to_nat pos) l) rest X (a :: args) ->
  (bulklen c = -1 -> zlen l <= REDIS_INLINE_MAX_SIZE) ->
  loop_ok rest X (a :: args) c (zlen l - pos) (Some (c, pos, false)).
Proof.
  intros (Hq & Hpos & Hm & _) HX Hst Hbl.
  exists c, pos, l, [], (a :: args). rewrite app_nil_r.
  do 8 (split; [done|]). split; [lia|]. split; [by intros _ [=]|done].
Qed.

(** The turn of the loop from where the length of the bulk is known. *)
Lemma bulk_turn rest X a args fuel c l pos :
  (forall c l pos, callable c l pos args ->
     bulklen c = -1 -> drop (Z.to_nat pos) l ++ rest = enc_args args ++ X ->
     zlen l <= REDIS_INLINE_MAX_SIZE ->
     loop_ok rest X args c (zlen l - pos) (mbulk_loop junk fuel c pos)) ->
  callable c l pos (a :: args) -> bulklen c = zlen a ->
  drop (Z.to_nat pos) l ++ rest = a ++ crlf ++ enc_args args ++ X ->
  zlen l <= REDIS_INLINE_MAX_SIZE \/ (REDIS_MBULK_BIG_ARG <= zlen a /\ zlen l <= zlen a + 2) ->
  loop_ok rest X (a :: args) c (zlen l - pos)
    ('(c, pos, o) ← read_bulk junk c pos;
     match o with Continue => mbulk_loop junk fuel c pos | _ => Some (c, pos, false) end).
Proof.
  intros IH Hcall Hb Heq Hbd. pose proof Hcall as (Hq & Hpos & Hm & [Ha Hargs]%Forall_cons & Hslot).
  rewrite zlen_cons in *. pose proof (zlen_nonneg args).
  destruct (read_bulk_spec c l pos a rest (enc_args args ++ X) Hq Hpos Hb Ha Heq)
    as [(-> & Hd & HX)|(q & l1 & pos1 & -> & Hq1 & Hpos1 & Heq1 & Hl1 & Hlt)]; [lia|done|..]; sbind.
  - apply stop_here; [done|done| |pose proof (zlen_nonneg a); lia].
    split; [by eapply zlen_tail_lt|]. right. rewrite zlen_drop. split; [done|]. split; [done|]. lia.
  - destruct (IH (after_bulk c q a) l1 pos1) as (c' & pos' & l' & dn & todo & -> & Hfr & Hq' & Hpos' & -> &
      Hav & Hm' & Hst & Hle & _ & Hbl); [|done..|].
    { split; [done|]. split; [done|]. unfold after_bulk. cbn. rewrite zlen_app.
      change (zlen [a]) with 1. split; [lia|]. split; [done|lia]. }
    exists c', pos', l', (a :: dn), todo. split; [done|]. split; [by eapply frame_trans; [|exact Hfr]|].
    split; [done|]. split; [done|]. split; [done|].
    split; [rewrite Hav; unfold after_bulk; cbn; by rewrite <- app_assoc|].
    split; [done|]. split; [done|]. split; [lia|]. split; [lia|done].
Qed.

Lemma loop_ok_frame rest X args c c1 left left1 r :
  loop_ok rest X args c1 left1 r -> frame c c1 -> argv c1 = argv c -> left1 <= left ->
  loop_ok rest X args c left r.
Proof.
  intros (c' & pos' & l' & dn & todo & -> & Hfr & Hq & Hpos & -> & Hav & Hm & Hst & Hle & Hlt & Hbl) Hf Ha Hl.
  exists c', pos', l', dn, todo. rewrite <- Ha. split; [done|]. split; [by eapply frame_trans|].
  do 6 (split; [done|]). split; [lia|]. split; [|done]. intros H1 H2. specialize (Hlt H1 H2). lia.
Qed.

Lemma mbulk_loop_spec rest X args : forall c l pos fuel,
  callable c l pos args -> started c l (drop (Z.to_nat pos) l) rest X args ->
  (length args < fuel)%nat ->
  loop_ok rest X args c (zlen l - pos) (mbulk_loop junk fuel c pos).
Proof.
  induction args as [|a args IH]; intros c l pos [|fuel] Hcall Hst Hf; try (simpl in Hf; lia);
    cbn [mbulk_loop]; pose proof Hcall as (Hq & Hpos & Hm & Ha & Hslot); rewrite Hm.
  - exists c, pos, l, [], []. change (zlen [] =? 0) with true. cbv iota. rewrite (app_nil_r (argv c)).
    destruct Hst as [(Hb & Hd & Hl)|(? & ? & ? & _)]; [|done].
    do 7 (split; [done|]). split; [split; [exact Hb|exact Hd]|]. split; [lia|done].
  - apply Forall_cons in Ha as [Ha Hargs]. rewrite zlen_cons in *. pose proof (zlen_nonneg args).
    rewrite (proj2 (Z.eqb_neq _ 0)) by lia. simpl in Hf.
    assert (forall c l pos, callable c l pos args ->
       bulklen c = -1 -> drop (Z.to_nat pos) l ++ rest = enc_args args ++ X ->
       zlen l <= REDIS_INLINE_MAX_SIZE ->
       loop_ok rest X args c (zlen l - pos) (mbulk_loop junk fuel c pos)) as IH'.
    { intros c0 l0 pos0 Hc0 Hb0 Hd0 Hl0. apply IH; [done|by left|lia]. }
    destruct Hst as [(Hb & Heq & Hsz)|(a' & args' & [= <- <-] & Hb & Heq & Hbd)].
    + rewrite Hb. change (-1 =? -1) with true. cbv iota.
      change (enc_args (a :: args)) with (enc_bulk a ++ enc_args args) in Heq.
      rewrite <- app_assoc in Heq.
      destruct (read_bulklen_spec junk c l pos a rest (enc_args args ++ X) Hq Hpos Hsz Ha Heq)
        as [(-> & Hd & HX)|(q & l1 & pos1 & -> & Hq1 & Hpos1 & Heq1 & Hl1 & Hlt)]; sbind.
      * apply stop_here; [done|done| |done]. split; [by eapply zlen_tail_lt|]. left. rewrite zlen_drop.
        split; [done|]. split; [by rewrite Heq, app_assoc|lia].
      * eapply loop_ok_frame; [apply (bulk_turn _ _ _ _ _ _ l1); [done| |done|done|by left]|done|done|lia].
        split; [done|]. split; [done|]. cbn. rewrite zlen_cons. split; [lia|]. split; [by constructor|lia].
    + rewrite Hb. pose proof (zlen_nonneg a). rewrite (proj2 (Z.eqb_neq _ (-1))) by lia. sbind.
      by apply bulk_turn.
Qed.

End BulkRead.

(** ** Lemmas: one call *)

(** The parser is about to run: the client holds [l], the bytes of [rest] have not
    been read, and together they hold the requests that are left. *)
Inductive parsing (c : redisClient) (l rest : list Z) (reqs : list (list (list Z))) : Prop :=
  | P_start :
      reqtype c = 0 \/ reqtype c = REDIS_REQ_MULTIBULK ->
      multibulklen c = 0 -> bulklen c = -1 -> argv c = [] ->
      l ++ rest = enc_all reqs -> zlen l <= REDIS_INLINE_MAX_SIZE -> parsing c l rest reqs
  | P_args r reqs' todo :
      reqs = r :: reqs' -> reqtype c = REDIS_REQ_MULTIBULK -> argv c ++ todo = r -> todo <> [] ->
      callable c l 0 todo -> started c l l rest (enc_all reqs') todo -> parsing c l rest reqs.

(** The parser waits: some byte of the next request has not been read. *)
Inductive waiting (c : redisClient) (l rest : list Z) (reqs : list (list (list Z))) : Prop :=
  | W_start :
      reqtype c = 0 /\ l = [] \/ reqtype c = REDIS_REQ_MULTIBULK ->
      multibulklen c = 0 -> bulklen c = -1 -> argv c = [] ->
      l ++ rest = enc_all reqs -> zlen l <= 22 ->
      (reqs <> [] -> zlen (enc_all (tail reqs)) < zlen rest) -> waiting c l rest reqs
  | W_args r reqs' todo :
      reqs = r :: reqs' -> reqtype c = REDIS_REQ_MULTIBULK -> argv c ++ todo = r -> todo <> [] ->
      multibulklen c = zlen todo -> Forall arg_fits todo ->
      zlen (argv c) + zlen todo <= argv_size c ->
      stopped c l rest (enc_all reqs') todo -> waiting c l rest reqs.

Section Call.
Variable junk : nat -> Z.

Lemma trim_spec_pos s l pos :
  sds_ok s l -> 0 <= pos <= zlen l ->
  exists s', (if negb (pos =? 0) then sdsrange s pos (-1) else Some s) = Some s' /\
    sds_ok s' (drop (Z.to_nat pos) l).
Proof.
  intros Hs Hpos. destruct (Z.eqb_spec pos 0) as [->|]; [by exists s|]. by apply range_tail.
Qed.

(** The result of a call that parses the request [r]: it is complete, or it waits. *)
Definition call_ok (c : redisClient) (l rest : list Z) (r : list (list Z))
    (reqs : list (list (list Z))) (res : option (redisClient * bool)) : Prop :=
  exists c' l', flags c' = flags c /\ sds_ok (querybuf c') l' /\
    (res = Some (c', false) /\ waiting c' l' rest (r :: reqs) \/
     res = Some (c', true) /\ argv c' = r /\ l' ++ rest = enc_all reqs /\ zlen l' < zlen l /\
       zlen l' <= REDIS_INLINE_MAX_SIZE).

Lemma mbulk_args_spec c l pos rest r reqs todo :
  callable c l pos todo -> todo <> [] -> argv c ++ todo = r -> reqtype c = REDIS_REQ_MULTIBULK ->
  started c l (drop (Z.to_nat pos) l) rest (enc_all reqs) todo ->
  call_ok c l rest r reqs (mbulk_args junk c pos).
Proof.
  intros Hcall Htodo Hr Hrt Hst. pose proof Hcall as (_ & Hpos & Hm & Hfits & Hslot).
  pose proof (zlen_pos todo Htodo). unfold mbulk_args.
  rewrite Z.gtb_ltb, (proj2 (Z.ltb_lt _ _)) by lia.
  destruct (mbulk_loop_spec junk rest (enc_all reqs) todo c l pos (S (Z.to_nat (multibulklen c))) Hcall Hst)
    as (c' & pos' & l' & dn & todo' & -> & (Hf1 & Hf2 & Hf3 & _) & Hq' & Hpos' & Hdn & Hav & Hm' & Hst' & _ & Hlt & Hbl);
    [unfold zlen in Hm; lia|]. sbind.
  destruct (trim_spec_pos _ l' pos' Hq' Hpos') as (q & -> & Hq). sbind.
  exists (set_querybuf q c'), (drop (Z.to_nat pos') l'). split; [done|]. split; [done|].
  change (multibulklen (set_querybuf q c')) with (multibulklen c'). rewrite Hm'.
  destruct todo' as [|a todo'].
  - right. destruct Hst' as [Hb Hd]. specialize (Hlt Htodo eq_refl). specialize (Hbl Hb).
    split; [done|]. rewrite app_nil_r in Hdn. subst dn. cbn. rewrite Hav.
    split; [done|]. split; [done|]. rewrite zlen_drop. split; [lia|].
    unfold REDIS_INLINE_MAX_SIZE in *. lia.
  - left. rewrite zlen_cons in *. pose proof (zlen_nonneg todo').
    rewrite (proj2 (Z.eqb_neq _ 0)) by lia. split; [done|].
    eapply (W_args _ _ _ _ r reqs (a :: todo')); cbn; rewrite ?Hav, ?Hf2, ?Hf3; try done.
    + by rewrite <- app_assoc, <- Hdn.
    + by rewrite Hm', zlen_cons.
    + rewrite Hdn in Hfits. by apply Forall_app in Hfits as [_ ?].
    + rewrite Hdn, zlen_app, zlen_cons in Hslot. rewrite zlen_app, zlen_cons. lia.
Qed.

Lemma enc_request_pos r : 0 < zlen (enc_request r).
Proof. unfold enc_request. rewrite zlen_cons. pose proof (zlen_nonneg (ll_repr (zlen r) ++ crlf ++ enc_args r)). lia. Qed.

(** The header of a request. *)
Lemma start_spec c l rest r reqs :
  sds_ok (querybuf c) l -> l <> [] -> zlen l <= REDIS_INLINE_MAX_SIZE ->
  reqtype c = REDIS_REQ_MULTIBULK -> multibulklen c = 0 -> bulklen c = -1 -> argv c = [] ->
  valid_request r -> l ++ rest = enc_all (r :: reqs) ->
  call_ok c l rest r reqs (processMultibulkBuffer junk c).
Proof.
  intros Hq Hl Hsize Hrt Hm Hb Hav (Hr0 & Hr1 & Hfits) Heq.
  pose proof (sds_len _ _ Hq) as [Hlen Hmax]. pose proof (zlen_nonneg r).
  assert (in_ll (zlen r)) as Hll by (unfold in_ll, LLONG_MIN, LLONG_MAX; lia).
  destruct (header_chars 42 (zlen r) Hll) as (H13 & Hn & Hh); [done..|].
  change (enc_all (r :: reqs)) with (((42 :: ll_repr (zlen r)) ++ crlf ++ enc_args r) ++ enc_all reqs) in Heq.
  rewrite <- !app_assoc in Heq. unfold processMultibulkBuffer. rewrite Hm, Hav.
  change (0 =? 0) with true. change (negb (zlen [] =? 0)) with false. cbv iota.
  assert (zlen (enc_all reqs) <= zlen (enc_args r ++ enc_all reqs)) as HX
    by (rewrite zlen_app; pose proof (zlen_nonneg (enc_args r)); lia).
  assert (0 <= 0 <= zlen l) as H0 by (pose proof (zlen_nonneg l); lia).
  assert (forall h2 : list Z, zlen (enc_all reqs) < zlen (h2 ++ crlf ++ enc_args r ++ enc_all reqs)) as Hrest.
  { intros h2. rewrite (zlen_app h2), (zlen_app crlf). change (zlen crlf) with 2.
    pose proof (zlen_nonneg h2). lia. }
  destruct (find_line _ l 0 l rest _ _ Hq H0 eq_refl Heq H13 Hn)
    as [(Hs & h2 & Hh2 & Hr)|[(Hs & Hd2 & Hr)|(Hs & d2 & Hd2 & Hr)]]; rewrite Hs; sbind.
  - rewrite Hlen, Z.gtb_ltb, (proj2 (Z.ltb_ge _ _)) by lia.
    exists c, l. split; [done|]. split; [done|]. left. split; [done|].
    apply W_start; [by right|done|done|done| | |].
    + change (enc_all (r :: reqs)) with (((42 :: ll_repr (zlen r)) ++ crlf ++ enc_args r) ++ enc_all reqs).
      by rewrite <- !app_assoc.
    + apply (f_equal zlen) in Hh2. rewrite zlen_app in Hh2. pose proof (zlen_nonneg h2). lia.
    + intros _. cbn [tail]. rewrite Hr. apply Hrest.
  - pose proof Hd2 as Hz. apply (f_equal zlen) in Hz. rewrite zlen_app in Hz. change (zlen [13]) with 1 in Hz.
    unfold REDIS_INLINE_MAX_SIZE in *. rewrite Hlen, s32_small by lia.
    rewrite Z.gtb_ltb, (proj2 (Z.ltb_lt _ _)) by lia.
    exists c, l. split; [done|]. split; [done|]. left. split; [done|].
    apply W_start; [by right|done|done|done| |lia|].
    + change (enc_all (r :: reqs)) with (((42 :: ll_repr (zlen r)) ++ crlf ++ enc_args r) ++ enc_all reqs).
      by rewrite <- !app_assoc.
    + intros _. cbn [tail]. rewrite Hr, zlen_cons. lia.
  - pose proof Hd2 as Hz. apply (f_equal zlen) in Hz. rewrite !zlen_app in Hz. change (zlen crlf) with 2 in Hz.
    pose proof (zlen_nonneg d2). pose proof (zlen_nonneg (42 :: ll_repr (zlen r))).
    unfold REDIS_INLINE_MAX_SIZE in *.
    rewrite Hlen, !s32_small by (rewrite ?s32_small; lia). rewrite Z.gtb_ltb, (proj2 (Z.ltb_ge _ _)) by lia.
    pose proof Hq as (x & Hqe & _). assert (buf (querybuf c) = l ++ 0 :: x) as Hbuf by (by rewrite Hqe).
    rewrite Hbuf. replace (l ++ 0 :: x) with ([] ++ 42 :: ll_repr (zlen r) ++ (crlf ++ d2) ++ 0 :: x)
      by (rewrite Hd2; by rewrite <- !app_assoc).
    rewrite getb_mid by done. sbind. change (42 =? 42) with true. cbn [negb].
    change ([] ++ 42 :: ?t) with ([42] ++ t).
    rewrite load_mid by (done || (rewrite zlen_cons; lia)). sbind.
    rewrite string2ll_complete by done. rewrite Z.gtb_ltb, (proj2 (Z.ltb_ge _ _)) by lia.
    pose proof (zlen_pos r Hr0). rewrite (proj2 (Z.leb_gt _ _)) by lia.
    set (c1 := set_argv_size _ _). rewrite Z.add_0_l.
    destruct (mbulk_args_spec c1 l (zlen (42 :: ll_repr (zlen r)) + 2) rest r reqs r) as (c' & l' & Hok).
    + subst c1. split; [exact Hq|]. split; [lia|]. cbn. rewrite Hav. change (zlen []) with 0.
      split; [done|]. split; [done|lia].
    + done.
    + subst c1. cbn. by rewrite Hav.
    + subst c1. cbn. done.
    + left. split; [done|]. split; [|done].
      destruct (drop_pos l 0 ((42 :: ll_repr (zlen r)) ++ crlf) d2) as [Hd _]; [lia|by rewrite <- app_assoc|].
      rewrite zlen_app in Hd. change (zlen crlf) with 2 in Hd. rewrite Z.add_0_l in Hd. by rewrite Hd.
    + by exists c', l'.
Qed.

Lemma processMultibulk_spec c l rest r reqs :
  sds_ok (querybuf c) l -> l <> [] -> reqtype c = REDIS_REQ_MULTIBULK ->
  Forall valid_request (r :: reqs) -> parsing c l rest (r :: reqs) ->
  call_ok c l rest r reqs (processMultibulkBuffer junk c).
Proof.
  intros Hq Hl Hrt [Hv _]%Forall_cons Hp.
  destruct Hp as [_ Hm Hb Hav Heq Hsize|r' reqs' todo [= <- <-] _ Hr Htodo Hcall Hst].
  - by apply start_spec.
  - unfold processMultibulkBuffer. pose proof Hcall as (_ & _ & Hm & _). pose proof (zlen_pos todo Htodo).
    rewrite Hm, (proj2 (Z.eqb_neq _ 0)) by lia. by eapply mbulk_args_spec.
Qed.

End Call.

(** ** Lemmas: the loop and the reads *)

(** The contract of the rest of the server: [log] is the list of the requests it
    has executed, with their arguments.  Commands that block the client or ask
    for its end are outside of it. *)
Class CommandProc (St : Type) `{Server St} (log : St -> list (list (list Z))) := {
  never_paused st : exists st', clientsArePaused st = (false, st') /\ log st' = log st;
  net_input_log n st : log (net_input n st) = log st;
  process_ok st c :
    argv c <> [] ->
    exists st' c', processCommand st c = (st', c', true) /\ log st' = log st ++ [argv c] /\
      querybuf c' = querybuf c /\ has (flags c') REDIS_BLOCKED = false /\
      has (flags c') REDIS_CLOSE_AFTER_REPLY = false
}.

(** Neither blocked nor about to be closed. *)
Definition ready (c : redisClient) : Prop :=
  has (flags c) REDIS_BLOCKED = false /\ has (flags c) REDIS_CLOSE_AFTER_REPLY = false.

Lemma testbit_1 n : n <> 0 -> Z.testbit 1 n = false.
Proof.
  intros Hn. destruct (decide (n < 0)); [by apply Z.testbit_neg_r|].
  apply Z.bits_above_log2; simpl; lia.
Qed.

Lemma has_clear f b b' : 0 <= b -> b <> b' -> has (clear_flag f b') b = has f b.
Proof.
  intros Hb Hne. unfold has, clear_flag.
  rewrite Z.land_spec, Z.lnot_spec, Z.shiftl_spec, testbit_1 by lia. apply andb_true_r.
Qed.

Section Loop.
Context {St : Type} `{Server St}.
Variable junk : nat -> Z.
Context (log : St -> list (list (list Z))) `{!CommandProc St log}.

Lemma resetClient_spec c :
  querybuf (resetClient c) = querybuf c /\ argv (resetClient c) = [] /\
  reqtype (resetClient c) = 0 /\ multibulklen (resetClient c) = 0 /\ bulklen (resetClient c) = -1 /\
  (ready c -> ready (resetClient c)).
Proof.
  unfold resetClient. case_match; do 5 (split; [done|]); [|done].
  intros [H1 H2].
  change (has (clear_flag (flags c) REDIS_ASKING) REDIS_BLOCKED = false /\
    has (clear_flag (flags c) REDIS_ASKING) REDIS_CLOSE_AFTER_REPLY = false).
  by rewrite !has_clear.
Qed.

(** The client after a complete request. *)
Lemma reset_parsing c l rest reqs :
  l ++ rest = enc_all reqs -> zlen l <= REDIS_INLINE_MAX_SIZE -> parsing (resetClient c) l rest reqs.
Proof.
  intros Heq Hl. destruct (resetClient_spec c) as (_ & Ha & Hr & Hm & Hb & _).
  apply P_start; auto.
Qed.

Lemma input_step_spec st c l rest r reqs :
  sds_ok (querybuf c) l -> l <> [] -> ready c -> Forall valid_request (r :: reqs) ->
  parsing c l rest (r :: reqs) ->
  exists st' c' l', sds_ok (querybuf c') l' /\ ready c' /\
    (input_step junk st c = Some (st', c', false) /\ log st' = log st /\ waiting c' l' rest (r :: reqs) \/
     input_step junk st c = Some (st', c', true) /\ log st' = log st ++ [r] /\
       parsing c' l' rest reqs /\ reqtype c' = 0 /\ zlen l' < zlen l).
Proof.
  intros Hq Hl [Hb Hcl] Hv Hp. unfold input_step.
  assert (exists st1, (if has (flags c) REDIS_SLAVE then (false, st) else clientsArePaused st) = (false, st1) /\
    log st1 = log st) as (st1 & -> & Hlog).
  { case_match; [by exists st|]. apply never_paused. }
  rewrite Hb, Hcl.
  assert (exists c1, (if reqtype c =? 0 then
           ch ← getb (buf (querybuf c)) 0;
           Some (set_parse (if ch =? 42 then REDIS_REQ_MULTIBULK else REDIS_REQ_INLINE)
                   (multibulklen c) (bulklen c) c)
         else Some c) = Some c1 /\ querybuf c1 = querybuf c /\ flags c1 = flags c /\
    reqtype c1 = REDIS_REQ_MULTIBULK /\ parsing c1 l rest (r :: reqs)) as (c1 & -> & Hq1 & Hf1 & Hr1 & Hp1).
  { destruct (Z.eqb_spec (reqtype c) 0) as [Hz|Hz].
    - destruct Hp as [_ Hm Hbl Hav Heq Hs|? ? ? _ Hr _ _ _ _]; [|by rewrite Hr in Hz].
      destruct l as [|x l]; [done|]. injection Heq as -> Heq.
      destruct Hq as (rr & Hq & _).
      assert (buf (querybuf c) = 42 :: l ++ 0 :: rr) as -> by (by rewrite Hq). sbind.
      eexists. split; [done|]. do 3 (split; [done|]). apply P_start; auto. cbn. by rewrite Heq.
    - exists c. repeat (split; [done|]). split; [|done].
      destruct Hp as [[|]|]; done. }
  sbind. rewrite Hr1. change (REDIS_REQ_MULTIBULK =? REDIS_REQ_INLINE) with false.
  rewrite Z.eqb_refl. cbv iota. rewrite <- Hq1 in Hq.
  destruct (processMultibulk_spec junk c1 l rest r reqs Hq Hl Hr1 Hv Hp1)
    as (c' & l' & Hf & Hq' & [[-> Hw]|(-> & Hav & Heq & Hlt & Hsz)]); sbind; cbn [negb].
  - exists st1, c', l'. split; [done|]. split; [unfold ready; by rewrite Hf, Hf1|]. left. done.
  - apply Forall_cons in Hv as [(Hr0 & _) _]. rewrite Hav.
    rewrite (proj2 (Z.eqb_neq _ 0)) by (pose proof (zlen_pos r Hr0); lia).
    destruct (process_ok st1 c') as (st2 & c2 & -> & Hlog2 & Hq2 & Hb2 & Hcl2); [by rewrite Hav|].
    destruct (resetClient_spec c2) as (Hqr & _ & Hrr & _ & _ & Hrd).
    exists st2, (resetClient c2), l'. rewrite Hqr, Hq2. split; [done|]. split; [by apply Hrd|]. right.
    split; [done|]. split; [by rewrite Hlog2, Hav, Hlog|]. split; [by apply reset_parsing|done].
Qed.

Lemma enc_all_nil reqs : enc_all reqs = [] -> reqs = [].
Proof.
  destruct reqs as [|r reqs]; [done|]. intros Heq. apply (f_equal zlen) in Heq.
  change (enc_all (r :: reqs)) with (enc_request r ++ enc_all reqs) in Heq.
  rewrite zlen_app in Heq. pose proof (enc_request_pos r). pose proof (zlen_nonneg (enc_all reqs)).
  change (zlen []) with 0 in Heq. lia.
Qed.

Lemma input_loop_spec fuel : forall st c l rest reqs,
  sds_ok (querybuf c) l -> ready c -> Forall valid_request reqs -> parsing c l rest reqs ->
  (l = [] -> reqtype c = 0) -> (length l < fuel)%nat ->
  exists st' c' l' dn todo, input_loop junk fuel st c = Some (st', c') /\
    reqs = dn ++ todo /\ log st' = log st ++ dn /\
    sds_ok (querybuf c') l' /\ ready c' /\ waiting c' l' rest todo.
Proof.
  induction fuel as [|fuel IH]; intros st c l rest reqs Hq Hrd Hv Hp Hl0 Hf; [lia|].
  cbn [input_loop]. pose proof (sds_len _ _ Hq) as [Hlen _]. rewrite Hlen.
  destruct (Z.eqb_spec (zlen l) 0) as [Hz|Hz].
  - apply zlen_0 in Hz. subst l. specialize (Hl0 eq_refl).
    exists st, c, [], [], reqs. rewrite app_nil_r. split; [done|]. split; [done|]. split; [done|].
    split; [done|]. split; [done|].
    destruct Hp as [_ Hm Hb Hav Heq _|? ? ? _ Hr _ _ _ _]; [|by rewrite Hr in Hl0].
    apply W_start; auto; [by vm_compute|]. intros Hne. cbn [app] in Heq. subst rest.
    destruct reqs as [|r reqs]; [done|]. cbn [tail].
    change (enc_all (r :: reqs)) with (enc_request r ++ enc_all reqs). rewrite zlen_app.
    pose proof (enc_request_pos r). lia.
  - assert (l <> []) as Hne by (by intros ->). destruct reqs as [|r reqs].
    { destruct Hp as [_ _ _ _ Heq _|? ? ? [=] _ _ _ _ _]. by destruct l. }
    destruct (input_step_spec st c l rest r reqs Hq Hne Hrd Hv Hp)
      as (st' & c' & l' & Hq' & Hrd' & [(-> & Hlog & Hw)|(-> & Hlog & Hp' & Hr' & Hlt)]); sbind.
    + exists st', c', l', [], (r :: reqs). rewrite app_nil_r. done.
    + apply Forall_cons in Hv as [_ Hv].
      destruct (IH st' c' l' rest reqs Hq' Hrd' Hv Hp' ltac:(done) ltac:(unfold zlen in Hlt; lia))
        as (st2 & c2 & l2 & dn & todo & -> & -> & Hlog2 & Hq2 & Hrd2 & Hw2).
      exists st2, c2, l2, (r :: dn), todo. rewrite Hlog2, Hlog, <- app_assoc. done.
Qed.

Lemma read_length_max c : read_length c <= REDIS_IOBUF_LEN.
Proof.
  unfold read_length. case_match; [|done]. cbv zeta.
  set (n := s32 _). destruct (Z.ltb_spec n REDIS_IOBUF_LEN); lia.
Qed.

Lemma read_length_big c (l a : list Z) :
  len (querybuf c) = zlen l -> reqtype c = REDIS_REQ_MULTIBULK -> 0 < multibulklen c ->
  bulklen c = zlen a -> arg_fits a -> REDIS_MBULK_BIG_ARG <= zlen a -> zlen l < zlen a + 2 ->
  read_length c = Z.min REDIS_IOBUF_LEN (zlen a + 2 - zlen l).
Proof.
  unfold arg_fits. intros Hl Hr Hm Hb Ha Hbig Hlt. unfold read_length.
  pose proof (zlen_nonneg l). unfold REDIS_MBULK_BIG_ARG, REDIS_IOBUF_LEN in *.
  rewrite Hr, Hb, Hl, Z.eqb_refl. rewrite (proj2 (Z.eqb_neq (multibulklen c) 0)), (proj2 (Z.eqb_neq _ (-1))) by lia.
  rewrite Z.geb_leb, (proj2 (Z.leb_le _ _)) by lia. cbn [andb negb].
  rewrite u32_small, u64_small, s32_small by lia.
  destruct (Z.ltb_spec (zlen a + 2 - zlen l) 16384); lia.
Qed.

Lemma read_length_small c :
  reqtype c = 0 \/ bulklen c < REDIS_MBULK_BIG_ARG -> read_length c = REDIS_IOBUF_LEN.
Proof.
  intros Hc. unfold read_length. rewrite Z.geb_leb.
  destruct Hc as [->|Hc]; [done|]. rewrite (proj2 (Z.leb_gt _ _)) by done. by rewrite andb_false_r.
Qed.

(** What a waiting client reads, it can parse. *)
Lemma waiting_read c l rest reqs chunk rest' q p t o :
  waiting c l rest reqs -> sds_ok (querybuf c) l -> rest = chunk ++ rest' ->
  zlen chunk <= read_length c -> sds_ok q (l ++ chunk) ->
  parsing (set_querybuf q (set_net p t o c)) (l ++ chunk) rest' reqs /\
  zlen (l ++ chunk) <= 512 * 1024 * 1024 + 2.
Proof.
  intros Hw Hq -> Hch Hqc. pose proof (sds_len _ _ Hq) as [Hlen _].
  pose proof (read_length_max c) as Hmax. pose proof (zlen_nonneg chunk).
  unfold REDIS_IOBUF_LEN in Hmax.
  destruct Hw as [Hr Hm Hb Hav Heq Hs _|r reqs' todo -> Hr Hav Htodo Hm Hfit Hslot Hst].
  - split; [|rewrite zlen_app; lia]. apply P_start; cbn; auto; [by destruct Hr as [[]|]; auto| |].
    + by rewrite <- app_assoc.
    + rewrite zlen_app. unfold REDIS_INLINE_MAX_SIZE. lia.
  - destruct todo as [|a todo]; [done|]. destruct Hst as [_ Hst]. pose proof (zlen_pos _ Htodo).
    assert (callable (set_querybuf q (set_net p t o c)) (l ++ chunk) 0 (a :: todo)) as Hcall.
    { split; [done|]. split; [pose proof (zlen_nonneg (l ++ chunk)); lia|]. done. }
    destruct Hst as [(Hb & Heq & Hl)|(Hb & Heq & Hl)].
    + split; [|rewrite zlen_app; lia]. eapply P_args; [done|done|done|done|done|].
      left. cbn. rewrite <- app_assoc. split; [done|]. split; [done|]. rewrite zlen_app.
      unfold REDIS_INLINE_MAX_SIZE. lia.
    + apply Forall_cons in Hfit as [Hfa _]. pose proof Hfa as Hfa'. unfold arg_fits in Hfa'.
      assert (zlen (l ++ chunk) <= REDIS_INLINE_MAX_SIZE \/
        (REDIS_MBULK_BIG_ARG <= zlen a /\ zlen (l ++ chunk) <= zlen a + 2)) as Hbd.
      { rewrite zlen_app. destruct (decide (REDIS_MBULK_BIG_ARG <= zlen a)) as [Hbig|Hsmall].
        - right. split; [done|]. rewrite (read_length_big c l a) in Hch by (done || lia). lia.
        - left. unfold REDIS_MBULK_BIG_ARG, REDIS_INLINE_MAX_SIZE in *. lia. }
      split; [|unfold REDIS_INLINE_MAX_SIZE in Hbd; lia].
      eapply P_args; [done|done|done|done|done|].
      right. exists a, todo. cbn. rewrite <- app_assoc. done.
Qed.

Lemma read_length_pos c l rest reqs :
  waiting c l rest reqs -> sds_ok (querybuf c) l -> 0 < read_length c.
Proof.
  intros Hw Hq. pose proof (sds_len _ _ Hq) as [Hlen _].
  destruct Hw as [_ _ Hb _ _ _ _|r reqs' todo -> Hr Hav Htodo Hm Hfit Hslot Hst].
  - rewrite read_length_small; [done|]. rewrite Hb. by right.
  - destruct todo as [|a todo]; [done|]. pose proof (zlen_pos _ Htodo).
    destruct Hst as [_ [(Hb & _)|(Hb & _ & Hl)]].
    + rewrite read_length_small; [done|]. rewrite Hb. by right.
    + apply Forall_cons in Hfit as [Hfa _].
      destruct (decide (REDIS_MBULK_BIG_ARG <= zlen a)).
      * rewrite (read_length_big c l a) by (done || lia). unfold REDIS_IOBUF_LEN. lia.
      * rewrite read_length_small; [done|]. right. lia.
Qed.

Lemma read_spec st c l chunk rest' reqs :
  waiting c l (chunk ++ rest') reqs -> sds_ok (querybuf c) l -> ready c ->
  Forall valid_request reqs -> chunk <> [] -> zlen chunk <= read_length c ->
  exists st' c' l' dn todo, readQueryFromClient junk st c (RData chunk) = Some (st', Some c') /\
    reqs = dn ++ todo /\ log st' = log st ++ dn /\
    sds_ok (querybuf c') l' /\ ready c' /\ waiting c' l' rest' todo.
Proof.
  intros Hw Hq Hrd Hv Hne Hch. pose proof (zlen_pos chunk Hne). unfold readQueryFromClient.
  rewrite (proj2 (Z.eqb_neq (zlen chunk) 0)) by lia.
  assert (zlen l <= 512 * 1024 * 1024 + 2) as Hl.
  { destruct Hw as [_ _ _ _ _ Hs _|r reqs' [|a todo] -> _ _ Htodo _ Hfit _ Hst]; [lia|done|].
    destruct Hst as [_ [(_ & _ & Hs)|(_ & _ & Hs)]]; [lia|].
    apply Forall_cons in Hfit as [Hfa _]. unfold arg_fits in Hfa. lia. }
  pose proof (read_length_max c) as Hmax. unfold REDIS_IOBUF_LEN in Hmax.
  destruct (append_read_ok junk (querybuf c) l (read_length c) chunk Hq Hch) as (q & -> & Hq');
    [unfold INT32_MAX; lia|]. sbind.
  set (c1 := set_querybuf q _).
  destruct (waiting_read c l _ reqs chunk rest' q (if querybuf_peak c <? len (querybuf c) then len (querybuf c) else querybuf_peak c)
    (unixtime st) (if has (flags c) REDIS_MASTER then reploff c + zlen chunk else reploff c) Hw Hq eq_refl Hch Hq')
    as [Hp Hsz]. fold c1 in Hp.
  pose proof (sds_len _ _ Hq') as [Hlen _]. rewrite Hlen, Z.gtb_ltb, (proj2 (Z.ltb_ge _ _))
    by (unfold REDIS_MAX_QUERYBUF_LEN; lia).
  destruct (input_loop_spec (S (S (Z.to_nat (len (querybuf c1))))) (net_input (zlen chunk) st) c1 (l ++ chunk) rest' reqs)
    as (st' & c' & l' & dn & todo & Hloop & Hdn & Hlog & Hq2 & Hrd2 & Hw2); try done.
  - intros Hnil. by destruct l, chunk.
  - subst c1. cbn [querybuf set_querybuf]. rewrite Hlen, to_nat_zlen. lia.
  - unfold processInputBuffer. rewrite Hloop. sbind. exists st', c', l', dn, todo.
    split; [done|]. split; [done|]. by rewrite Hlog, net_input_log.
Qed.

End Loop.

(** ** Lemmas: any input *)

Section Safety.
Variable junk : nat -> Z.

(** The client is to be closed, or can be in the middle of a request; [pos] bytes of
    the buffer have been parsed. *)
Definition closing (c : redisClient) : Prop :=
  has (flags c) REDIS_CLOSE_AFTER_REPLY = true /\ bulklen c = -1.

Definition in_args (c : redisClient) (l : list Z) (pos : Z) : Prop :=
  sds_ok (querybuf c) l /\ 0 <= pos <= zlen l /\ zlen l <= REDIS_MAX_QUERYBUF_LEN /\
  0 <= multibulklen c /\ zlen (argv c) + multibulklen c <= argv_size c /\
  (bulklen c = -1 \/ 0 <= bulklen c <= 512 * 1024 * 1024 /\
     (REDIS_MBULK_BIG_ARG <= bulklen c -> pos = 0)).

Lemma has_set f b b' : 0 <= b -> 0 <= b' -> has (set_flag f b') b = has f b || (b =? b').
Proof.
  intros Hb Hb'. unfold has, set_flag. rewrite Z.lor_spec, Z.shiftl_spec by done. f_equal.
  destruct (Z.eqb_spec b b') as [->|]; [by rewrite Z.sub_diag|]. apply testbit_1. lia.
Qed.

(** Changes of the flags keep the others. *)
Lemma protocol_error c l pos :
  sds_ok (querybuf c) l -> 0 <= pos <= zlen l -> bulklen c = -1 ->
  exists c' l', setProtocolError c pos = Some c' /\ closing c' /\ reqtype c' = reqtype c /\
    sds_ok (querybuf c') l' /\ zlen l' <= zlen l.
Proof.
  intros Hq Hpos Hb. unfold setProtocolError.
  destruct (range_tail (querybuf c) l pos Hq Hpos) as (q & Hr & Hq').
  change (querybuf (set_flags _ c)) with (querybuf c). rewrite Hr. sbind.
  eexists _, _. split; [done|].
  split; [split; [cbn [flags set_querybuf set_flags]; by rewrite has_set, orb_true_r|done]|]. split; [done|]. split; [done|]. rewrite zlen_drop. lia.
Qed.

Lemma strchr_bound p ch r :
  ch <> 0 -> exists o, strchr (p ++ 0 :: r) ch = Some o /\
    (forall i, o = Some i -> 0 <= i < zlen p /\ p !! Z.to_nat i = Some ch).
Proof.
  intros Hch. induction p as [|x p IH]; cbn [app strchr].
  - exists None. by rewrite (proj2 (Z.eqb_neq 0 ch)) by congruence.
  - destruct (Z.eqb_spec x ch) as [->|].
    { exists (Some 0). split; [done|]. intros i [= <-]. rewrite zlen_cons.
      pose proof (zlen_nonneg p). split; [lia|done]. }
    destruct (x =? 0); [by exists None|]. destruct IH as (o & -> & Ho). sbind.
    eexists. split; [done|]. intros i Hi. destruct o as [j|]; [|done]. injection Hi as <-.
    destruct (Ho j eq_refl) as [Hj Hlk]. rewrite zlen_cons. split; [lia|].
    by replace (Z.to_nat (Z.succ j)) with (S (Z.to_nat j)) by lia.
Qed.

Lemma strchr_from_bound s l pos ch :
  sds_ok s l -> 0 <= pos <= zlen l -> ch <> 0 ->
  exists o, strchr_from s pos ch = Some o /\
    (forall nl, o = Some nl -> pos <= nl < zlen l /\ l !! Z.to_nat nl = Some ch).
Proof.
  intros (r & -> & _) Hpos Hch. unfold strchr_from. cbn [buf].
  rewrite drop_app_le by (unfold zlen in *; lia).
  destruct (strchr_bound (drop (Z.to_nat pos) l) ch r Hch) as (o & -> & Ho). sbind.
  eexists. split; [done|]. intros nl Hnl. destruct o as [i|]; [|done]. injection Hnl as <-.
  destruct (Ho i eq_refl) as [Hi Hlk]. rewrite zlen_drop in Hi. split; [lia|].
  rewrite lookup_drop in Hlk. by replace (Z.to_nat (pos + i)) with (Z.to_nat pos + Z.to_nat i)%nat by lia.
Qed.

Lemma buf_getb s l i : sds_ok s l -> 0 <= i <= zlen l -> exists x, getb (buf s) i = Some x.
Proof.
  intros (r & -> & _) Hi. cbn [buf]. apply getb_is_Some. rewrite zlen_app, zlen_cons.
  pose proof (zlen_nonneg r). lia.
Qed.

Lemma buf_load s l i n :
  sds_ok s l -> 0 <= i -> 0 <= n -> i + n <= zlen l -> exists x, load (buf s) i n = Some x.
Proof.
  intros (r & -> & _) Hi Hn Hin. cbn [buf]. apply load_is_Some; [done..|].
  rewrite zlen_app, zlen_cons. pose proof (zlen_nonneg r). lia.
Qed.

(** What an error leaves. *)
Definition failed (c : redisClient) (l : list Z) (c' : redisClient) : Prop :=
  closing c' /\ exists l', sds_ok (querybuf c') l' /\ zlen l' <= zlen l.

Lemma read_bulklen_safe c l pos :
  in_args c l pos -> bulklen c = -1 -> 0 < multibulklen c ->
  exists c' pos' o, read_bulklen junk c pos = Some (c', pos', o) /\
    match o with
    | Break => c' = c /\ pos' = pos
    | Error => failed c l c'
    | Continue => frame c c' /\ multibulklen c' = multibulklen c /\ 0 <= bulklen c' /\
        exists l', in_args c' l' pos' /\ zlen l' <= zlen l /\ zlen l' - pos' < zlen l - pos
    end.
Proof.
  intros (Hq & Hpos & Hmax & Hm & Hslot & _) Hb Hm0. pose proof (sds_len _ _ Hq) as [Hlen _].
  unfold read_bulklen. unfold REDIS_MAX_QUERYBUF_LEN in *.
  assert (forall m p, 0 <= p <= zlen l -> exists c' pos' o,
    (c ← setProtocolError (add_reply m c) p; Some (c, pos, Error)) = Some (c', pos', o) /\
    match o with Break => c' = c /\ pos' = pos | Error => failed c l c'
    | Continue => frame c c' /\ multibulklen c' = multibulklen c /\ 0 <= bulklen c' /\
        exists l', in_args c' l' pos' /\ zlen l' <= zlen l /\ zlen l' - pos' < zlen l - pos end) as Herr.
  { intros m p Hp. destruct (protocol_error (add_reply m c) l p Hq Hp Hb) as (c' & l' & -> & Hc & _ & Hq' & Hl').
    sbind. eexists _, _, _. split; [done|]. split; [done|]. by exists l'. }
  assert (0 <= 0 <= zlen l) as H0 by lia.
  destruct (strchr_from_bound (querybuf c) l pos 13 Hq Hpos) as (o & -> & Ho); [done|]. sbind.
  destruct o as [nl|].
  2: { rewrite Z.gtb_ltb. case_match; [by apply Herr|]. by exists c, pos, Break. }
  destruct (Ho nl eq_refl) as [Hnl Hlk]. rewrite Hlen, s32_small by lia.
  rewrite Z.gtb_ltb. destruct (Z.ltb_spec (zlen l - 2) nl) as [|Hnl2]; [by exists c, pos, Break|].
  destruct (buf_getb (querybuf c) l pos Hq) as [ch Hgetb]; [lia|]. rewrite Hgetb. sbind.
  destruct (Z.eqb_spec ch 36) as [->|Hne]; cbn [negb]; [|by apply Herr].
  assert (nl <> pos) as Hnp.
  { intros ->. pose proof Hq as (r & Hqe & _). rewrite Hqe in Hgetb. cbn [buf] in Hgetb.
    rewrite getb_app_l in Hgetb by lia. unfold getb in Hgetb.
    rewrite (proj2 (Z.leb_le _ _)) in Hgetb by lia. congruence. }
  destruct (buf_load (querybuf c) l (pos + 1) (nl - (pos + 1)) Hq) as [ds ->]; [lia..|]. sbind.
  destruct (string2ll ds) as [ll|]; [|by apply Herr].
  rewrite Z.gtb_ltb. destruct (Z.ltb_spec ll 0); cbn [orb]; [by apply Herr|].
  destruct (Z.ltb_spec (512 * 1024 * 1024) ll); [by apply Herr|].
  rewrite s32_small by lia. replace (pos + (nl - pos + 2)) with (nl + 2) by lia.
  rewrite Z.geb_leb. destruct (Z.leb_spec REDIS_MBULK_BIG_ARG ll) as [Hbig|Hbig].
  - destruct (range_tail (querybuf c) l (nl + 2) Hq) as (q & -> & Hq'); [lia|]. sbind.
    eexists _, _, _. split; [done|]. split; [done|]. split; [done|]. split; [done|].
    exists (drop (Z.to_nat (nl + 2)) l). rewrite zlen_drop. split; [|lia].
    split; [apply room_keeps; [done|]; rewrite zlen_drop; unfold INT32_MAX; lia|].
    rewrite zlen_drop. split; [lia|]. unfold REDIS_MAX_QUERYBUF_LEN. cbn.
    do 3 (split; [lia|]). right. split; [lia|done].
  - eexists _, _, _. split; [done|]. split; [done|]. split; [done|]. split; [done|].
    exists l. split; [|lia]. split; [done|]. split; [lia|]. unfold REDIS_MAX_QUERYBUF_LEN. cbn.
    do 3 (split; [lia|]). right. split; [lia|]. lia.
Qed.

Lemma read_bulk_safe c l pos :
  in_args c l pos -> 0 <= bulklen c -> 0 < multibulklen c ->
  exists c' pos' o, read_bulk junk c pos = Some (c', pos', o) /\
    match o with
    | Break => c' = c /\ pos' = pos /\ zlen l - pos < bulklen c + 2
    | Error => False
    | Continue => frame c c' /\ multibulklen c' = multibulklen c - 1 /\ bulklen c' = -1 /\
        exists l', in_args c' l' pos' /\ zlen l' <= zlen l /\ zlen l' - pos' < zlen l - pos
    end.
Proof.
  intros (Hq & Hpos & Hmax & Hm & Hslot & Hb) Hb0 Hm0. pose proof (sds_len _ _ Hq) as [Hlen _].
  destruct Hb as [Hb|[Hb _]]; [lia|]. unfold REDIS_MAX_QUERYBUF_LEN in *.
  unfold read_bulk. rewrite Hlen, u64_small, u32_small, s32_small by lia.
  destruct (Z.ltb_spec (zlen l - pos) (bulklen c + 2)); [by exists c, pos, Break|].
  unfold push_arg. change (argv_size (set_querybuf _ c)) with (argv_size c).
  rewrite (proj2 (Z.ltb_lt (zlen (argv c)) _)) by lia.
  case_match eqn:E.
  - zbool. destruct (incrlen_neg (querybuf c) l 2 Hq) as (q & Hi & Hq'); [lia|].
    change (- (2)) with (-2) in Hi. rewrite Hi. sbind.
    change (bulklen (set_argv _ c)) with (bulklen c).
    destruct (empty_room junk (bulklen c + 2)) as (q1 & -> & Hq1); [unfold INT32_MAX; lia|]. sbind.
    eexists _, _, _. split; [done|]. do 3 (split; [done|]). exists [].
    change (zlen []) with 0. split; [|lia]. split; [exact Hq1|]. change (zlen []) with 0.
    split; [lia|]. unfold REDIS_MAX_QUERYBUF_LEN. cbn. rewrite zlen_app. change (zlen [contents q]) with 1.
    do 3 (split; [lia|]). by left.
  - destruct (buf_load (querybuf c) l pos (bulklen c) Hq) as [o ->]; [lia..|]. sbind.
    change (bulklen (set_argv _ c)) with (bulklen c). rewrite s32_small by lia.
    eexists _, _, _. split; [done|]. do 3 (split; [done|]). exists l. split; [|lia].
    split; [done|]. split; [lia|]. unfold REDIS_MAX_QUERYBUF_LEN. cbn. rewrite zlen_app.
    change (zlen [o]) with 1. do 3 (split; [lia|]). by left.
Qed.

Lemma mbulk_loop_safe fuel : forall c l pos,
  in_args c l pos -> multibulklen c < Z.of_nat fuel -> (multibulklen c = 0 -> bulklen c = -1) ->
  exists c' pos' err, mbulk_loop junk fuel c pos = Some (c', pos', err) /\
    if (err : bool) then failed c l c'
    else frame c c' /\ exists l', in_args c' l' pos' /\ zlen l' <= zlen l /\
      zlen l' - pos' <= zlen l - pos /\
      (0 < multibulklen c -> multibulklen c' = 0 -> zlen l' - pos' < zlen l - pos) /\
      (multibulklen c' = 0 -> bulklen c' = -1) /\
      (REDIS_MBULK_BIG_ARG <= bulklen c' -> zlen l' - pos' < bulklen c' + 2).
Proof.
  induction fuel as [|fuel IH]; intros c l pos Hin Hf Hz; [destruct Hin as (_ & _ & _ & ? & _); lia|].
  cbn [mbulk_loop]. destruct (Z.eqb_spec (multibulklen c) 0) as [Hm0|Hm0].
  { exists c, pos, false. split; [done|]. split; [done|]. exists l. split; [done|]. split; [lia|].
    split; [lia|]. split; [lia|]. split; [done|]. rewrite (Hz Hm0). unfold REDIS_MBULK_BIG_ARG. lia. }
  assert (0 < multibulklen c) as Hm by (destruct Hin as (_ & _ & _ & ? & _); lia).
  assert (forall c0 l0 pos0, frame c c0 -> multibulklen c0 = multibulklen c -> 0 <= bulklen c0 ->
    in_args c0 l0 pos0 -> zlen l0 <= zlen l -> zlen l0 - pos0 <= zlen l - pos ->
    exists c' pos' err,
      ('(c, pos, o) ← read_bulk junk c0 pos0;
       match o with Continue => mbulk_loop junk fuel c pos | _ => Some (c, pos, false) end)
        = Some (c', pos', err) /\
      if (err : bool) then failed c l c'
      else frame c c' /\ exists l', in_args c' l' pos' /\ zlen l' <= zlen l /\
        zlen l' - pos' <= zlen l - pos /\
        (0 < multibulklen c -> multibulklen c' = 0 -> zlen l' - pos' < zlen l - pos) /\
        (multibulklen c' = 0 -> bulklen c' = -1) /\
        (REDIS_MBULK_BIG_ARG <= bulklen c' -> zlen l' - pos' < bulklen c' + 2)) as Hbulk.
  { intros c0 l0 pos0 Hfr Hm1 Hb1 Hin0 Hl0 Hp0.
    destruct (read_bulk_safe c0 l0 pos0 Hin0 Hb1) as (c1 & pos1 & o & -> & Ho); [lia|]. sbind.
    destruct o; [|destruct Ho as (-> & -> & Hlt)|done].
    - destruct Ho as (Hfr1 & Hm2 & Hb2 & l1 & Hin1 & Hl1 & Hp1).
      destruct (IH c1 l1 pos1 Hin1) as (c' & pos' & err & -> & Hres); [lia|done|].
      exists c', pos', err. split; [done|]. destruct err.
      + destruct Hres as (Hc & l' & Hq' & Hl'). split; [done|]. exists l'. split; [done|lia].
      + destruct Hres as (Hfr2 & l' & Hin' & Hl' & Hp' & _ & Hrest). split; [eapply frame_trans; [exact Hfr|];
          by eapply frame_trans|]. exists l'. split; [done|]. split; [lia|]. split; [lia|]. split; [lia|done].
    - exists c0, pos0, false. split; [done|]. split; [done|]. exists l0. split; [done|]. split; [done|].
      split; [done|]. split; [lia|]. split; [lia|done]. }
  destruct (Z.eqb_spec (bulklen c) (-1)) as [Hb|Hb].
  - destruct (read_bulklen_safe c l pos Hin Hb Hm) as (c1 & pos1 & o & -> & Ho). sbind. destruct o.
    + destruct Ho as (Hfr & Hm1 & Hb1 & l1 & Hin1 & Hl1 & Hp1). apply (Hbulk c1 l1); try done. lia.
    + destruct Ho as [-> ->]. exists c, pos, false. split; [done|]. split; [done|]. exists l.
      split; [done|]. split; [lia|]. split; [lia|]. split; [lia|]. split; [done|]. rewrite Hb. unfold REDIS_MBULK_BIG_ARG. lia.
    + by exists c1, pos1, true.
  - sbind. apply (Hbulk c l pos); try done. destruct Hin as (_ & _ & _ & _ & _ & [|[]]); lia.
Qed.

End Safety.

(** ** The invariant of a client *)

(** Between two calls the parser is before a request (whose format may be known)
    or in the arguments of one; a big argument is never read past its end. *)
Definition parse_wf (c : redisClient) (l : list Z) : Prop :=
  (multibulklen c = 0 /\ bulklen c = -1 /\ argv c = [] /\
     (reqtype c = 0 \/ reqtype c = REDIS_REQ_INLINE \/
      reqtype c = REDIS_REQ_MULTIBULK /\ head l = Some 42)) \/
  (reqtype c = REDIS_REQ_MULTIBULK /\ 0 < multibulklen c /\
     zlen (argv c) + multibulklen c <= argv_size c /\
     (bulklen c = -1 \/ 0 <= bulklen c <= 512 * 1024 * 1024) /\
     (REDIS_MBULK_BIG_ARG <= bulklen c -> zlen l <= bulklen c + 2)).

Definition client_wf (c : redisClient) : Prop :=
  exists l, sds_ok (querybuf c) l /\ zlen l <= REDIS_MAX_QUERYBUF_LEN /\
    (closing c \/ parse_wf c l).

(** The contract that the safety of the parser asks of the other parts: a
    command leaves the query buffer alone, and asks for the end of the client if it
    is not to be reset. *)
Class SafeProc (St : Type) `{Server St} := {
  process_safe st c :
    argv c <> [] ->
    let '(st', c', ok) := processCommand st c in
    querybuf c' = querybuf c /\ bulklen c' = bulklen c /\
    (ok = false -> has (flags c') REDIS_CLOSE_AFTER_REPLY = true)
}.

Section Invariant.
Variable junk : nat -> Z.

(** A failed call, one that waits, or a complete request. *)
Definition call_safe (c : redisClient) (l : list Z) (res : option (redisClient * bool)) : Prop :=
  exists c' l' ok, res = Some (c', ok) /\ sds_ok (querybuf c') l' /\ zlen l' <= zlen l /\
    (ok = false -> closing c' \/ flags c' = flags c /\ parse_wf c' l') /\
    (ok = true -> flags c' = flags c /\ zlen l' < zlen l /\ bulklen c' = -1).

Lemma call_failed c l c0 :
  failed c l c0 -> call_safe c l (Some (c0, false)).
Proof.
  intros (Hc & l' & Hq & Hl). exists c0, l', false. do 3 (split; [done|]). split; [by left|done].
Qed.

Lemma error_safe c l m :
  sds_ok (querybuf c) l -> bulklen c = -1 ->
  call_safe c l (c ← setProtocolError (add_reply m c) 0; Some (c, false)).
Proof.
  intros Hq Hb. pose proof (zlen_nonneg l).
  destruct (protocol_error (add_reply m c) l 0 Hq) as (c' & l' & -> & Hc & _ & Hq' & Hl'); [lia|done|].
  sbind. apply call_failed. split; [done|]. by exists l'.
Qed.

Lemma mbulk_args_safe c l pos :
  in_args c l pos -> 0 < multibulklen c -> reqtype c = REDIS_REQ_MULTIBULK ->
  call_safe c l (mbulk_args junk c pos).
Proof.
  intros Hin Hm Hr. unfold mbulk_args. rewrite Z.gtb_ltb, (proj2 (Z.ltb_lt _ _)) by done.
  destruct (mbulk_loop_safe junk (S (Z.to_nat (multibulklen c))) c l pos Hin) as (c' & pos' & err & -> & Hres);
    [lia|lia|]. sbind. destruct err; [by apply call_failed|].
  destruct Hres as ((Hf & Hrt & _) & l' & (Hq' & Hpos' & Hmx & Hm' & Hslot & Hb) & Hl' & Hle & Hlt & Hz & Hbig).
  destruct (trim_spec_pos _ l' pos' Hq' Hpos') as (q & -> & Hq). sbind.
  destruct Hin as (_ & Hpos & _).
  exists (set_querybuf q c'), (drop (Z.to_nat pos') l'), (multibulklen (set_querybuf q c') =? 0).
  split; [done|]. split; [done|]. rewrite zlen_drop. split; [lia|]. split.
  - intros Hne. apply Z.eqb_neq in Hne. cbn in Hne. right. split; [done|]. right. cbn. rewrite zlen_drop.
    split; [congruence|]. split; [lia|]. split; [done|].
    split; [destruct Hb as [|[]]; auto|]. intros Hbg. specialize (Hbig Hbg). lia.
  - intros Heq. apply Z.eqb_eq in Heq. cbn in Heq. split; [done|]. specialize (Hlt Hm Heq).
    split; [lia|]. by apply Hz.
Qed.

Lemma processMultibulk_safe c l :
  sds_ok (querybuf c) l -> zlen l <= REDIS_MAX_QUERYBUF_LEN -> l <> [] ->
  reqtype c = REDIS_REQ_MULTIBULK -> parse_wf c l ->
  call_safe c l (processMultibulkBuffer junk c).
Proof.
  intros Hq Hmax Hl Hr Hp. pose proof (sds_len _ _ Hq) as [Hlen _]. pose proof (zlen_pos l Hl).
  unfold processMultibulkBuffer, REDIS_MAX_QUERYBUF_LEN in *.
  destruct Hp as [(Hm & Hb & Hav & Hrt)|(_ & Hm & Hslot & Hb & Hbig)].
  2: { rewrite (proj2 (Z.eqb_neq _ 0)) by lia. apply mbulk_args_safe; [|done|done].
       split; [done|]. split; [lia|]. split; [done|]. split; [lia|]. split; [done|].
       destruct Hb; [by left|right; lia]. }
  assert (head l = Some 42) as Hhd by (destruct Hrt as [|[|[]]]; [by rewrite Hr in *..|done]).
  rewrite Hm, Hav. change (0 =? 0) with true. change (negb (zlen [] =? 0)) with false. cbv iota.
  assert (call_safe c l (Some (c, false))) as Hwait.
  { exists c, l, false. do 2 (split; [done|]). split; [lia|]. split; [|done]. intros _. right. split; [done|].
    left. do 3 (split; [done|]). right. by right. }
  assert (0 <= 0 <= zlen l) as Hz0 by lia.
  destruct (strchr_from_bound (querybuf c) l 0 13 Hq Hz0) as (o & -> & Ho); [done|]. sbind.
  destruct o as [nl|].
  2: { rewrite Z.gtb_ltb. case_match; [by apply error_safe|done]. }
  destruct (Ho nl eq_refl) as [Hnl Hlk]. rewrite Hlen, s32_small by lia.
  rewrite Z.gtb_ltb. destruct (Z.ltb_spec (zlen l - 2) nl) as [|Hnl2]; [done|].
  destruct l as [|x l]; [done|]. injection Hhd as ->. pose proof Hq as (rr & Hqe & _).
  assert (getb (buf (querybuf c)) 0 = Some 42) as -> by (by rewrite Hqe). sbind.
  change (42 =? 42) with true. cbn [negb].
  assert (nl <> 0) as Hn0 by (intros ->; discriminate).
  destruct (buf_load (querybuf c) (42 :: l) 1 (nl - 1) Hq) as [ds ->]; [lia..|]. sbind.
  destruct (string2ll ds) as [ll|]; [|by apply error_safe].
  rewrite Z.gtb_ltb. destruct (Z.ltb_spec (1024 * 1024) ll); [by apply error_safe|].
  rewrite s32_small by lia. destruct (Z.leb_spec ll 0).
  - destruct (range_tail (querybuf c) (42 :: l) (nl + 2) Hq) as (q & -> & Hq'); [lia|]. sbind.
    eexists _, _, true. split; [done|]. split; [done|]. rewrite zlen_drop. split; [lia|]. split; [done|].
    intros _. split; [done|]. split; [lia|done].
  - apply (mbulk_args_safe (set_argv_size ll (set_parse (reqtype c) ll (bulklen c) c))); [|done|done].
    split; [done|]. unfold REDIS_MAX_QUERYBUF_LEN. cbn. rewrite Hav. change (zlen []) with 0.
    split; [lia|]. do 3 (split; [lia|]). by left.
Qed.

Lemma inline_args_safe args : forall c,
  zlen (argv c) + zlen args <= argv_size c ->
  exists c', inline_args args c = Some c' /\ querybuf c' = querybuf c /\ flags c' = flags c /\ bulklen c' = bulklen c /\
    argv c' = argv c ++ filter (fun a => a <> []) args.
Proof.
  induction args as [|a args IH]; intros c Hc; cbn [inline_args].
  { exists c. by rewrite app_nil_r. }
  rewrite zlen_cons in Hc. pose proof (zlen_nonneg args). destruct (Z.eqb_spec (zlen a) 0) as [Hz|Hz]; cbn [negb].
  - apply zlen_0 in Hz. subst a. rewrite filter_cons_False by (intros Hne; by apply Hne).
    apply IH. lia.
  - unfold push_arg. rewrite (proj2 (Z.ltb_lt _ _)) by lia. sbind.
    destruct (IH (set_argv (argv c ++ [a]) c)) as (c' & Hi & H1 & H2 & Hbl & H3).
    { cbn. rewrite zlen_app. change (zlen [a]) with 1. lia. }
    exists c'. rewrite filter_cons_True by (intros ->; by apply Hz). rewrite Hi, H3. cbn.
    by rewrite <- app_assoc.
Qed.

(** The line of an inline request: without its end, CR LF or LF. *)
Lemma inline_line q l nl :
  sds_ok q l -> 0 <= nl < zlen l ->
  exists n, (if nl =? 0 then Some nl
             else b ← getb (buf q) (nl - 1); Some (if b =? 13 then nl - 1 else nl)) = Some n /\
    0 <= n <= nl /\ nl - 1 <= n.
Proof.
  intros Hq Hnl. destruct (Z.eqb_spec nl 0) as [->|]; [exists 0; split; [done|lia]|].
  destruct (buf_getb q l (nl - 1) Hq) as [b ->]; [lia|]. sbind. eexists. split; [done|].
  case_match; lia.
Qed.

Lemma drop_shorter {A} (l : list A) n : l <> [] -> 0 < n -> zlen (drop (Z.to_nat n) l) < zlen l.
Proof. intros Hl Hn. rewrite zlen_drop. pose proof (zlen_pos l Hl). lia. Qed.

Lemma range_from s l pos :
  sds_ok s l -> 0 <= pos <= INT32_MAX -> exists s', sdsrange s pos (-1) = Some s' /\
    sds_ok s' (drop (Z.to_nat pos) l).
Proof.
  intros Hs Hpos. unfold INT32_MAX in *.
  destruct (range_ok s l pos (-1) Hs) as (s' & Hr & Hok); unfold INT32_MIN, INT32_MAX; [lia..|].
  exists s'. split; [done|].
  replace (drop (Z.to_nat pos) l) with (range_spec pos (-1) l); [done|].
  unfold range_spec. rewrite (proj2 (Z.ltb_ge pos 0)) by lia. cbn [Z.ltb Z.compare].
  apply take_ge. rewrite length_drop. pose proof (zlen_nonneg l). unfold zlen in *. lia.
Qed.

Lemma processInline_safe {St} `{Server St} (st : St) c l :
  sds_ok (querybuf c) l -> zlen l <= REDIS_MAX_QUERYBUF_LEN -> l <> [] ->
  parse_wf c l -> reqtype c = REDIS_REQ_INLINE ->
  call_safe c l (processInlineBuffer st c).
Proof.
  intros Hq Hmax Hl Hp Hr. pose proof (sds_len _ _ Hq) as [Hlen _]. pose proof (zlen_pos l Hl).
  destruct Hp as [(Hm & Hb & Hav & _)|(Hr2 & _)]; [|by rewrite Hr in Hr2].
  unfold processInlineBuffer, REDIS_MAX_QUERYBUF_LEN in *.
  assert (0 <= 0 <= zlen l) as Hz0 by lia.
  destruct (strchr_from_bound (querybuf c) l 0 10 Hq Hz0) as (o & -> & Ho); [done|]. sbind.
  destruct o as [nl|].
  2: { rewrite Z.gtb_ltb. case_match; [by apply error_safe|].
       exists c, l, false. do 2 (split; [done|]). split; [lia|]. split; [|done]. intros _. right. split; [done|].
       left. do 3 (split; [done|]). auto. }
  destruct (Ho nl eq_refl) as [Hnl _]. destruct (inline_line _ _ nl Hq Hnl) as (n & -> & Hn & _). sbind. cbv zeta.
  destruct (buf_load (querybuf c) l 0 n Hq) as [line ->]; [lia..|]. sbind.
  destruct (splitargs_total (S (length line)) [] line) as [args Hargs]; [lia|].
  unfold sdssplitargs. rewrite Hargs. sbind. destruct args as [args|]; [|by apply error_safe].
  set (c1 := if (n =? 0) && has (flags c) REDIS_SLAVE then _ else c).
  assert (querybuf c1 = querybuf c /\ flags c1 = flags c /\ bulklen c1 = bulklen c) as (Hq1 & Hf1 & Hb1) by (subst c1; by case_match).
  rewrite Hq1, s32_small by lia.
  destruct (range_from (querybuf c) l (n + 2) Hq) as (q & -> & Hq'); [unfold INT32_MAX; lia|]. sbind.
  set (c2 := set_argv [] _).
  assert (exists c', inline_args args c2 = Some c' /\ querybuf c' = q /\ flags c' = flags c /\
    bulklen c' = bulklen c) as (c' & -> & Hqc & Hfc & Hbc).
  { destruct (decide (args = [])) as [->|Hne].
    - subst c2. exists (set_argv [] (set_querybuf q c1)). by repeat (split; [done|]).
    - pose proof (zlen_pos args Hne).
      destruct (inline_args_safe args c2) as (c' & Hi & Hi1 & Hi2 & Hbl & _).
      + subst c2. rewrite (proj2 (Z.eqb_neq (zlen args) 0)) by lia. cbn. rewrite (@zlen_nil (list Z)). lia.
      + exists c'. split; [done|]. rewrite Hi1, Hi2, Hbl. subst c2. by case_match. }
  sbind. exists c', (drop (Z.to_nat (n + 2)) l), true. split; [done|]. rewrite Hqc. split; [done|].
  rewrite zlen_drop. split; [lia|]. split; [done|]. intros _.
  split; [done|]. split; [lia|]. by rewrite Hbc.
Qed.

End Invariant.

Section SafeLoop.
Context {St : Type} `{Server St} `{!SafeProc St}.
Variable junk : nat -> Z.

Lemma reset_wf c l :
  sds_ok (querybuf c) l -> zlen l <= REDIS_MAX_QUERYBUF_LEN -> client_wf (resetClient c).
Proof.
  intros Hq Hl. destruct (resetClient_spec c) as (Hqr & Ha & Hr & Hm & Hb & _).
  exists l. rewrite Hqr. split; [done|]. split; [done|]. right. left. auto.
Qed.

(** One turn: it stops with a well formed client, or has consumed some byte, or
    has closed the client. *)
Lemma input_step_safe st c :
  client_wf c -> 0 < len (querybuf c) ->
  exists st' c' again, input_step junk st c = Some (st', c', again) /\ client_wf c' /\
    len (querybuf c') <= len (querybuf c) /\
    (again = true -> len (querybuf c') < len (querybuf c)).
Proof.
  intros (l & Hq & Hmax & Hw) Hlen0. pose proof (sds_len _ _ Hq) as [Hlen _]. rewrite Hlen in *.
  assert (l <> []) as Hl by (intros ->; by apply Z.lt_irrefl in Hlen0).
  unfold input_step. destruct (if has (flags c) REDIS_SLAVE then _ else _) as [paused st1].
  assert (exists st' c' again, Some (st1, c, false) = Some (st', c', again) /\ client_wf c' /\
    len (querybuf c') <= zlen l /\ (again = true -> len (querybuf c') < zlen l)) as Hstop.
  { exists st1, c, false. split; [done|]. split; [by exists l|]. rewrite Hlen. split; [lia|done]. }
  destruct paused; [done|]. destruct (has (flags c) REDIS_BLOCKED); [done|].
  destruct (has (flags c) REDIS_CLOSE_AFTER_REPLY) eqn:Hcl; [done|].
  destruct Hw as [[Hw _]|Hw]; [by rewrite Hw in Hcl|].
  assert (exists c1, (if reqtype c =? 0 then
           ch ← getb (buf (querybuf c)) 0;
           Some (set_parse (if ch =? 42 then REDIS_REQ_MULTIBULK else REDIS_REQ_INLINE)
                   (multibulklen c) (bulklen c) c)
         else Some c) = Some c1 /\ querybuf c1 = querybuf c /\ flags c1 = flags c /\
    (reqtype c1 = REDIS_REQ_INLINE \/ reqtype c1 = REDIS_REQ_MULTIBULK) /\ parse_wf c1 l)
    as (c1 & -> & Hq1 & Hf1 & Hr1 & Hp1).
  { destruct (Z.eqb_spec (reqtype c) 0) as [Hz|Hz].
    - destruct Hw as [(Hm & Hb & Ha & _)|(Hr & _)]; [|by rewrite Hr in Hz].
      destruct l as [|x l]; [done|]. destruct Hq as (rr & Hqe & _).
      assert (buf (querybuf c) = x :: l ++ 0 :: rr) as -> by (by rewrite Hqe). sbind.
      destruct (Z.eqb_spec x 42) as [->|Hx]; (eexists; split; [done|]; do 2 (split; [done|]);
        split; [|left; do 3 (split; [done|])]); rewrite ?(proj2 (Z.eqb_neq x 42)) by done;
        cbn; auto.
    - exists c. do 3 (split; [done|]). split; [|done].
      destruct Hw as [(_ & _ & _ & [?|[?|[? _]]])|(? & _)]; auto. done. }
  sbind. rewrite <- Hq1 in Hq.
  assert (call_safe c1 l (if reqtype c1 =? REDIS_REQ_INLINE then processInlineBuffer st1 c1
                else if reqtype c1 =? REDIS_REQ_MULTIBULK then processMultibulkBuffer junk c1
                else None)) as (c2 & l2 & ok & -> & Hq2 & Hl2 & Hfail & Hok).
  { destruct Hr1 as [Hr1|Hr1]; rewrite Hr1.
    - by apply processInline_safe.
    - by apply processMultibulk_safe. }
  sbind. pose proof (sds_len _ _ Hq2) as [Hlen2 _]. destruct ok; cbn [negb].
  - destruct (Hok eq_refl) as (Hf2 & Hlt & Hbl2). destruct (Z.eqb_spec (zlen (argv c2)) 0) as [Hz|Hz].
    + exists st1, (resetClient c2), true. split; [done|].
      split; [apply (reset_wf c2 l2); [done|lia]|].
      destruct (resetClient_spec c2) as (-> & _). rewrite Hlen2. lia.
    + pose proof (process_safe st1 c2) as Hs.
      destruct (processCommand st1 c2) as [[st3 c3] ok3]. cbn in Hs.
      destruct Hs as (Hq3 & Hb3 & Hc3); [intros Ha; by rewrite Ha in Hz|].
      exists st3, (if ok3 then resetClient c3 else c3), true. split; [done|]. destruct ok3.
      * destruct (resetClient_spec c3) as (Hqr & _). rewrite Hqr, Hq3, Hlen2.
        split; [apply (reset_wf c3 l2); [by rewrite Hq3|lia]|lia].
      * rewrite Hq3, Hlen2. split; [|lia]. exists l2. rewrite Hq3. split; [done|]. split; [lia|].
        left. split; [by apply Hc3|congruence].
  - exists st1, c2, false. split; [done|]. rewrite Hlen2. split; [|split; [lia|done]].
    exists l2. split; [done|]. split; [lia|]. destruct (Hfail eq_refl) as [Hc|[_ Hp]]; auto.
Qed.

Lemma input_loop_safe fuel : forall st c,
  client_wf c -> len (querybuf c) < Z.of_nat fuel ->
  exists st' c', input_loop junk fuel st c = Some (st', c') /\ client_wf c'.
Proof.
  induction fuel as [|fuel IH]; intros st c Hw Hf; pose proof Hw as (l & Hq & _);
    pose proof (sds_len _ _ Hq) as [Hlen _]; pose proof (zlen_nonneg l); [lia|].
  cbn [input_loop]. destruct (Z.eqb_spec (len (querybuf c)) 0); [by exists st, c|].
  destruct (input_step_safe st c Hw) as (st' & c' & again & -> & Hw' & Hle & Hlt); [lia|]. sbind.
  destruct again; [|by exists st', c']. apply IH; [done|]. specialize (Hlt eq_refl). lia.
Qed.

(** The amount asked for: never past the end of a big argument. *)
Lemma read_length_bound c l :
  sds_ok (querybuf c) l -> zlen l <= REDIS_MAX_QUERYBUF_LEN -> closing c \/ parse_wf c l ->
  0 <= read_length c <= REDIS_IOBUF_LEN /\
  (REDIS_MBULK_BIG_ARG <= bulklen c -> zlen l + read_length c <= bulklen c + 2).
Proof.
  intros Hq Hmax Hw. pose proof (sds_len _ _ Hq) as [Hlen _]. pose proof (zlen_nonneg l).
  unfold REDIS_MAX_QUERYBUF_LEN in *.
  destruct (decide (bulklen c < REDIS_MBULK_BIG_ARG)) as [Hs|Hbig].
  { rewrite read_length_small by auto. unfold REDIS_IOBUF_LEN. lia. }
  unfold REDIS_MBULK_BIG_ARG in *.
  destruct Hw as [[_ Hb]|[(_ & Hb & _)|(Hr & Hm & _ & Hb & Hle)]]; [lia..|].
  unfold REDIS_MBULK_BIG_ARG in Hle. destruct Hb as [|Hb]; [lia|]. specialize (Hle ltac:(lia)).
  unfold read_length, REDIS_IOBUF_LEN, REDIS_MBULK_BIG_ARG. rewrite Hr, Hlen, Z.eqb_refl, Z.geb_leb.
  rewrite (proj2 (Z.eqb_neq (multibulklen c) 0)), (proj2 (Z.eqb_neq _ (-1))) by lia.
  rewrite (proj2 (Z.leb_le _ _)) by lia. cbn [andb negb].
  rewrite u32_small, u64_small, s32_small by lia.
  destruct (Z.ltb_spec (bulklen c + 2 - zlen l) 16384); lia.
Qed.

End SafeLoop.

(** ** Properties *)

(** A reading step: the state of the server, the client and the bytes that the
    peer has sent and that have not been read. *)
Inductive rd_step {St} `{Server St} (junk : nat -> Z) :
    relation (St * redisClient * list Z) :=
  | rd_data st c chunk rest st' c' :
      chunk <> [] -> zlen chunk <= read_length c ->
      readQueryFromClient junk st c (RData chunk) = Some (st', Some c') ->
      rd_step junk (st, c, chunk ++ rest) (st', c', rest)
  | rd_again st c rest st' c' :
      readQueryFromClient junk st c REagain = Some (st', Some c') ->
      rd_step junk (st, c, rest) (st', c', rest).

Section Steps.
Context {St : Type} `{Server St}.
Variable junk : nat -> Z.
Context (log : St -> list (list (list Z))) `{!CommandProc St log}.

Definition executed (st0 : St) (reqs : list (list (list Z))) (s : St * redisClient * list Z) : Prop :=
  let '(st, c, rest) := s in
  exists dn todo l, reqs = dn ++ todo /\ log st = log st0 ++ dn /\
    sds_ok (querybuf c) l /\ ready c /\ waiting c l rest todo.

Lemma again_spec st c l rest reqs :
  sds_ok (querybuf c) l -> ready c -> zlen l <= REDIS_MAX_QUERYBUF_LEN -> 0 <= read_length c ->
  waiting c l rest reqs ->
  exists c', readQueryFromClient junk st c REagain = Some (st, Some c') /\
    sds_ok (querybuf c') l /\ ready c' /\ waiting c' l rest reqs.
Proof.
  intros Hq Hrd Hl H0 Hw. pose proof (read_length_max c). unfold REDIS_MAX_QUERYBUF_LEN, REDIS_IOBUF_LEN in *.
  eexists. split; [done|]. split.
  { apply makeroom_ok; [done|done|]. unfold INT32_MAX. lia. }
  split; [done|]. destruct Hw; [by apply W_start|by eapply W_args].
Qed.

Lemma waiting_small c l rest reqs :
  Forall valid_request reqs -> waiting c l rest reqs -> zlen l <= 512 * 1024 * 1024 + 2.
Proof.
  intros _ [_ _ _ _ _ Hs _|r reqs' [|a todo] -> _ _ Htodo _ Hfit _ Hst]; [lia|done|].
  destruct Hst as [_ [(_ & _ & Hs)|(_ & _ & Hs)]]; [lia|].
  apply Forall_cons in Hfit as [Hfa _]. unfold arg_fits in Hfa. lia.
Qed.

Lemma rd_step_executed st0 reqs s s' :
  Forall valid_request reqs -> executed st0 reqs s -> rd_step junk s s' -> executed st0 reqs s'.
Proof.
  intros Hv Hex Hstep. destruct Hstep as [st c chunk rest st' c' Hne Hch Hr|st c rest st' c' Hr];
    destruct Hex as (dn & todo & l & -> & Hlog & Hq & Hrd & Hw); apply Forall_app in Hv as [_ Hv].
  - destruct (read_spec junk log st c l chunk rest todo Hw Hq Hrd Hv Hne Hch)
      as (st2 & c2 & l2 & dn2 & todo2 & Hr2 & -> & Hlog2 & Hq2 & Hrd2 & Hw2).
    rewrite Hr in Hr2. injection Hr2 as <- <-. exists (dn ++ dn2), todo2, l2.
    rewrite Hlog2, Hlog, !app_assoc. done.
  - destruct (again_spec st c l rest todo Hq Hrd) as (c2 & Hr2 & Hq2 & Hrd2 & Hw2); [..|done|].
    + pose proof (waiting_small _ _ _ _ Hv Hw). unfold REDIS_MAX_QUERYBUF_LEN. lia.
    + pose proof (read_length_pos _ _ _ _ Hw Hq). lia.
    + rewrite Hr in Hr2. injection Hr2 as -> ->. exists dn, todo, l. done.
Qed.

Lemma waiting_prompt c l rest todo :
  waiting c l rest todo -> todo <> [] -> zlen (enc_all (tail todo)) < zlen rest.
Proof.
  intros [_ _ _ _ _ _ Hp|r reqs' [|a todo'] -> _ _ Htodo _ _ _ Hst] Hne; [by apply Hp|done|].
  by destruct Hst.
Qed.

(** C5 (liveness): whatever the sizes of the reads and the pauses between them,
    the requests that a peer sends in the multi bulk format are executed, each
    with its arguments byte for byte, in order, and as soon as its last byte has
    been read; as long as bytes are left, a read of any size between 1 and
    [read_length] succeeds. *)
Theorem requests_executed (st0 st : St) (c0 c : redisClient) (rest : list Z)
    (reqs : list (list (list Z))) :
  sds_ok (querybuf c0) [] -> ready c0 -> reqtype c0 = 0 -> multibulklen c0 = 0 ->
  bulklen c0 = -1 -> argv c0 = [] -> Forall valid_request reqs ->
  rtc (rd_step junk) (st0, c0, enc_all reqs) (st, c, rest) ->
  (exists dn todo, reqs = dn ++ todo /\ log st = log st0 ++ dn /\
     (todo <> [] -> zlen (enc_all (tail todo)) < zlen rest)) /\
  (rest = [] -> log st = log st0 ++ reqs /\ contents (querybuf c) = []) /\
  (rest <> [] -> 0 < read_length c /\ forall chunk rest', rest = chunk ++ rest' ->
     chunk <> [] -> zlen chunk <= read_length c ->
     exists st' c', rd_step junk (st, c, rest) (st', c', rest')).
Proof.
  intros Hq0 Hrd0 Hr0 Hm0 Hb0 Ha0 Hv Hsteps.
  assert (executed st0 reqs (st, c, rest)) as (dn & todo & l & Hreqs & Hlog & Hq & Hrd & Hw).
  { assert (executed st0 reqs (st0, c0, enc_all reqs)) as Hinit.
    { exists [], reqs, []. rewrite app_nil_r. split; [done|]. split; [done|]. split; [done|]. split; [done|].
      apply W_start; auto; [by vm_compute|]. intros Hne. destruct reqs as [|r reqs]; [done|].
      change (enc_all (r :: reqs)) with (enc_request r ++ enc_all reqs). rewrite zlen_app.
      pose proof (enc_request_pos r). cbn [tail]. lia. }
    clear - Hv Hsteps Hinit CommandProc0.
    remember (st0, c0, enc_all reqs) as s eqn:Es. remember (st, c, rest) as s' eqn:Es'.
    clear Es Es'. induction Hsteps; [done|]. by eauto using rd_step_executed. }
  split; [|split].
  - exists dn, todo. split; [done|]. split; [done|]. by apply (waiting_prompt c l).
  - intros ->. destruct todo as [|r todo].
    + rewrite app_nil_r in Hreqs. subst dn. split; [done|]. rewrite (contents_ok _ _ Hq).
      destruct Hw as [_ _ _ _ Heq _ _|? ? ? [=] _ _ _ _ _ _ _]. by rewrite app_nil_r in Heq.
    + pose proof (waiting_prompt _ _ _ _ Hw ltac:(done)) as Hp. change (zlen []) with 0 in Hp.
      pose proof (zlen_nonneg (enc_all (tail (r :: todo)))). lia.
  - intros _. split; [by eapply read_length_pos|]. intros chunk rest' -> Hne Hch.
    rewrite Hreqs in Hv. apply Forall_app in Hv as [_ Hv].
    destruct (read_spec junk log st c l chunk rest' todo Hw Hq Hrd Hv Hne Hch)
      as (st2 & c2 & _ & _ & _ & Hr2 & _).
    exists st2, c2. by apply rd_data.
Qed.

End Steps.

(** A server that records the requests; for the witnesses. *)
Definition recorder : Server (list (list (list Z))) := {|
  unixtime _ := 0;
  clientsArePaused st := (false, st);
  net_input _ st := st;
  processCommand st c := (st ++ [argv c], set_flags 0 c, true);
  askingCommand := 0
|}.

Definition new_client : redisClient :=
  mk_client 0 (mk_sds 0 0 [0]) 0 [] 0 None 0 0 (-1) 0 0 0 [].

Lemma recorder_proc : @CommandProc (list (list (list Z))) recorder (fun st => st).
Proof.
  split; [by intros st; exists st|done|]. intros st c Hc. exists (st ++ [argv c]), (set_flags 0 c).
  repeat (split; [done|]). done.
Qed.

Lemma requests_executed_witness :
  let ping := bytes_of_string "PING" in
  let reqs := [[ping]; [ping; [13; 10; 0]]] in
  exists c, rtc (@rd_step _ recorder (fun _ => 7)) ([], new_client, enc_all reqs) (reqs, c, []) /\
    contents (querybuf c) = [].
Proof.
  intros ping reqs.
  assert (Forall valid_request reqs) as Hv.
  { repeat constructor; try discriminate; vm_compute; discriminate. }
  assert (sds_ok (querybuf new_client) []) as Hq by (exists []; by vm_compute).
  pose proof (@requests_executed _ recorder (fun _ => 7) (fun st => st) recorder_proc) as Hex.
  destruct (Hex [] [] new_client new_client (enc_all reqs) reqs) as (_ & _ & Hgo);
    [exact Hq|by split|reflexivity|reflexivity|reflexivity|reflexivity|exact Hv|apply rtc_refl|].
  destruct Hgo as [_ Hgo]; [discriminate|].
  destruct (Hgo (enc_all reqs) []) as (st & c & Hstep);
    [by rewrite app_nil_r|discriminate|vm_compute; discriminate|].
  destruct (Hex [] st new_client c [] reqs) as (_ & Hend & _);
    [exact Hq|by split|reflexivity|reflexivity|reflexivity|reflexivity|exact Hv|by apply rtc_once|].
  destruct (Hend eq_refl) as [Hst Hc]. cbn in Hst. subst st.
  exists c. split; [by apply rtc_once|exact Hc].
Defined.

(** C7 (invariant): on any bytes, the assertions of the parser hold, it stays
    within the query buffer and the vector of arguments, it terminates, and it
    leaves a client in a state from which it can go on or that is to be closed; a
    read never asks for more than the rest of a big argument. *)
Theorem readQuery_invariant {St : Type} `{Server St} `{!SafeProc St} (junk : nat -> Z)
    (st : St) (c : redisClient) (r : read_result) :
  client_wf c -> match r with RData bs => zlen bs <= read_length c | _ => True end ->
  0 <= read_length c <= REDIS_IOBUF_LEN /\
  (exists st' o, readQueryFromClient junk st c r = Some (st', o) /\
     match o with Some c' => client_wf c' | None => True end) /\
  (exists st' c', processInputBuffer junk st c = Some (st', c') /\ client_wf c').
Proof.
  intros Hwf Hr. pose proof Hwf as (l & Hq & Hmax & Hw).
  destruct (read_length_bound c l Hq Hmax Hw) as [Hrl Hbig]. split; [done|].
  pose proof (sds_len _ _ Hq) as [Hlen _]. pose proof (zlen_nonneg l).
  unfold REDIS_MAX_QUERYBUF_LEN, REDIS_IOBUF_LEN in *. split.
  - unfold readQueryFromClient. destruct r as [bs| |].
    + destruct (Z.eqb_spec (zlen bs) 0); [by exists st, None|].
      destruct (append_read_ok junk (querybuf c) l (read_length c) bs Hq Hr) as (q & -> & Hq');
        [unfold INT32_MAX; lia|]. sbind.
      pose proof (sds_len _ _ Hq') as [Hlen' _]. rewrite Hlen', Z.gtb_ltb.
      destruct (Z.ltb_spec REDIS_MAX_QUERYBUF_LEN (zlen (l ++ bs))); [by eexists _, None|].
      set (c1 := set_querybuf q _).
      assert (client_wf c1) as Hwf1.
      { exists (l ++ bs). split; [done|]. split; [done|]. subst c1.
        destruct Hw as [Hw|[(Hm & Hb & Ha & Ht)|(Ht & Hm & Hs & Hb & Hbg)]]; [left; exact Hw|right; left|right; right].
        - do 3 (split; [done|]). destruct Ht as [?|[?|[? Hh]]]; auto. right. right. split; [done|].
          by destruct l.
        - do 4 (split; [done|]). intros Hge. rewrite zlen_app. specialize (Hbig Hge). cbn in *. lia. }
      destruct (input_loop_safe junk (S (S (Z.to_nat (len (querybuf c1))))) (net_input (zlen bs) st) c1 Hwf1)
        as (st' & c' & Hl & Hwf'); [lia|].
      unfold processInputBuffer. rewrite Hl. sbind. by exists st', (Some c').
    + eexists st, (Some _). split; [done|]. exists l. split; [|split; [done|exact Hw]].
      apply makeroom_ok; [done|lia|unfold INT32_MAX; lia].
    + by exists st, None.
  - apply input_loop_safe; [done|]. lia.
Qed.

Lemma recorder_safe : @SafeProc (list (list (list Z))) recorder.
Proof. split. intros st c Hc. by cbn. Qed.

Lemma readQuery_invariant_witness :
  exists st' o, @readQueryFromClient _ recorder (fun _ => 7) [] new_client
    (RData (bytes_of_string "*1" ++ [13; 10] ++ bytes_of_string "+")) = Some (st', o) /\
    match o with Some c' => client_wf c' | None => True end.
Proof.
  destruct (@readQuery_invariant _ recorder recorder_safe (fun _ => 7) [] new_client
    (RData (bytes_of_string "*1" ++ [13; 10] ++ bytes_of_string "+"))) as (_ & He & _).
  - exists []. split; [exists []; by vm_compute|]. split; [vm_compute; discriminate|].
    right. left. do 3 (split; [reflexivity|]). by left.
  - vm_compute. discriminate.
  - exact He.
Defined.

(** ** Inline requests, and reading while the clients are paused *)

Lemma load_line q l (line t : list Z) :
  sds_ok q l -> l = line ++ t -> load (buf q) 0 (zlen line) = Some line.
Proof.
  intros (r & -> & _) ->. cbn [buf]. rewrite <- app_assoc. by apply load_prefix.
Qed.

(** The position of the end of the line [line] and its length. *)
Lemma inline_find q l line eol t :
  sds_ok q l -> l = line ++ eol ++ t -> eol = [10] \/ eol = [13; 10] ->
  10 ∉ line -> 13 ∉ line -> no_nul line ->
  strchr_from q 0 10 = Some (Some (zlen line + zlen eol - 1)) /\
  (let nl := zlen line + zlen eol - 1 in
   if nl =? 0 then Some nl
   else b ← getb (buf q) (nl - 1); Some (if b =? 13 then nl - 1 else nl)) = Some (zlen line).
Proof.
  intros (r & -> & _) -> Heol H10 H13 Hn. cbv zeta. unfold strchr_from. cbn [buf]. rewrite drop_0.
  destruct Heol as [-> | ->].
  - change (zlen [10]) with 1. rewrite <- app_assoc. cbn [app]. rewrite strchr_present by done. sbind.
    cbn [option_map]. split; [do 2 f_equal; lia|].
    replace (zlen line + 1 - 1) with (zlen line) by lia.
    destruct (Z.eqb_spec (zlen line) 0) as [Hz|Hz]; [done|].
    destruct line as [|x line _] using rev_ind; [done|]. rewrite zlen_app. change (zlen [x]) with 1.
    rewrite <- app_assoc. cbn [app]. rewrite getb_mid by lia. sbind.
    rewrite (proj2 (Z.eqb_neq x 13)); [done|]. intros ->. apply H13, elem_of_app. right. by left.
  - change (zlen [13; 10]) with 2.
    replace ((line ++ [13; 10] ++ t) ++ 0 :: r) with ((line ++ [13]) ++ 10 :: t ++ 0 :: r)
      by (by rewrite <- !app_assoc).
    rewrite strchr_present.
    + sbind. cbn [option_map]. rewrite zlen_app. change (zlen [13]) with 1.
      split; [do 2 f_equal; lia|].
      replace (zlen line + 2 - 1) with (zlen line + 1) by lia. pose proof (zlen_nonneg line).
      rewrite (proj2 (Z.eqb_neq _ 0)) by lia. rewrite <- app_assoc. cbn [app].
      rewrite getb_mid by lia. sbind. rewrite Z.eqb_refl. f_equal. lia.
    + intros [Hin|Hin]%elem_of_app; [done|]. by apply list_elem_of_singleton in Hin.
    + apply Forall_app. split; [done|]. by repeat constructor.
Qed.

(** An inline request ended by CR LF gives the arguments of its line,
    without the empty ones, and leaves what follows; ended by a single LF it also
    drops the byte that follows.  A line that does not split (an open quote)
    gives an error and closes the client. *)
Theorem processInlineBuffer_line {St : Type} `{Server St} (st : St) (c : redisClient)
    (line eol t : list Z) :
  sds_ok (querybuf c) (line ++ eol ++ t) -> zlen (line ++ eol ++ t) <= REDIS_MAX_QUERYBUF_LEN ->
  eol = [10] \/ eol = [13; 10] -> 10 ∉ line -> 13 ∉ line -> no_nul line ->
  match sdssplitargs line with
  | Some (Some args) =>
      exists c', processInlineBuffer st c = Some (c', true) /\
        argv c' = filter (fun a => a <> []) args /\
        contents (querybuf c') = if bool_decide (eol = [10]) then tail t else t
  | Some None =>
      exists c', processInlineBuffer st c = Some (c', false) /\
        has (flags c') REDIS_CLOSE_AFTER_REPLY = true /\
        replies c' = replies c ++
          [bytes_of_string "-ERR Protocol error: unbalanced quotes in request" ++ [13; 10]]
  | None => False
  end.
Proof.
  intros Hq Hmax Heol H10 H13 Hn. unfold processInlineBuffer, REDIS_MAX_QUERYBUF_LEN in *.
  destruct (inline_find _ _ line eol t Hq eq_refl Heol H10 H13 Hn) as [-> Hnl]. sbind.
  cbv zeta in Hnl. rewrite Hnl. sbind. cbv zeta. rewrite (load_line _ _ _ _ Hq eq_refl). sbind.
  destruct (splitargs_total (S (length line)) [] line) as [args Hargs]; [lia|].
  unfold sdssplitargs. rewrite Hargs. sbind. pose proof (zlen_nonneg line). pose proof (zlen_nonneg t).
  rewrite !zlen_app in Hmax. destruct args as [args|].
  2: { destruct (range_from (querybuf c) _ 0 Hq) as (q & Hr & _); [by vm_compute|].
       unfold setProtocolError. change (querybuf (set_flags _ _)) with (querybuf c). rewrite Hr. sbind.
       eexists. split; [done|]. split; [|done]. cbn [flags set_querybuf set_flags].
       by rewrite has_set, orb_true_r. }
  assert (zlen line + 2 <= 1073741824 + 2) by (pose proof (zlen_nonneg eol); lia).
  set (c1 := if _ && _ then _ else c).
  assert (querybuf c1 = querybuf c) as Hqc by (subst c1; by destruct (_ && _)).
  rewrite Hqc. rewrite s32_small by lia.
  destruct (range_from (querybuf c) _ (zlen line + 2) Hq) as (q & -> & Hq'); [unfold INT32_MAX; lia|]. sbind.
  assert (drop (Z.to_nat (zlen line + 2)) (line ++ eol ++ t) = if bool_decide (eol = [10]) then tail t else t) as Hd.
  { replace (Z.to_nat (zlen line + 2)) with (length line + 2)%nat by (unfold zlen; lia).
    rewrite <- drop_drop, drop_app_length. destruct Heol as [-> | ->]; by destruct t. }
  rewrite Hd in Hq'. destruct (decide (args = [])) as [->|Hne].
  - eexists. split; [done|]. split; [done|]. cbn. apply (contents_ok _ _ Hq').
  - pose proof (zlen_pos args Hne). rewrite (proj2 (Z.eqb_neq (zlen args) 0)) by lia.
    destruct (inline_args_safe args (set_argv [] (set_argv_size (zlen args) (set_querybuf q c1))))
      as (c' & -> & Hi1 & _ & _ & Hi3); [cbn; rewrite (@zlen_nil (list Z)); lia|]. sbind.
    exists c'. split; [done|]. split; [done|]. rewrite Hi1. apply (contents_ok _ _ Hq').
Qed.

Lemma processInlineBuffer_line_witness :
  let input := bytes_of_string "PING" ++ [10] ++ bytes_of_string "PING" ++ [10] in
  let c := mk_client 0 (mk_sds 10 0 (input ++ [0])) 0 [] 0 None 1 0 (-1) 0 0 0 [] in
  exists c', @processInlineBuffer _ recorder [] c = Some (c', true) /\
    argv c' = [bytes_of_string "PING"] /\ contents (querybuf c') = bytes_of_string "ING" ++ [10].
Proof.
  intros input c.
  pose proof (@processInlineBuffer_line _ recorder [] c (bytes_of_string "PING") [10]
    (bytes_of_string "PING" ++ [10])) as Hl.
  assert (sdssplitargs (bytes_of_string "PING") = Some (Some [bytes_of_string "PING"])) as E
    by (vm_compute; reflexivity).
  rewrite E in Hl. destruct Hl as (c' & Hc & Ha & Hb).
  - exists []. vm_compute. repeat split; discriminate.
  - vm_compute. discriminate.
  - by left.
  - apply (bool_decide_unpack _). vm_compute. exact I.
  - apply (bool_decide_unpack _). vm_compute. exact I.
  - unfold no_nul. apply (bool_decide_unpack _). vm_compute. exact I.
  - exists c'. split; [exact Hc|]. split; [rewrite Ha; reflexivity|exact Hb].
Defined.

(** C36 (error): a client that completes a big argument while the clients are
    paused is lost.  The argument stays in the buffer, nothing is left to ask
    for, and the next time the socket is readable [read] is called for no bytes:
    its result is taken for the end of the connection. *)
Theorem paused_client_lost {St : Type} `{Server St} (junk : nat -> Z) (st : St) (c : redisClient)
    (l chunk : list Z) :
  sds_ok (querybuf c) l -> reqtype c = REDIS_REQ_MULTIBULK -> 0 < multibulklen c ->
  REDIS_MBULK_BIG_ARG <= bulklen c <= 512 * 1024 * 1024 -> has (flags c) REDIS_SLAVE = false ->
  (forall st, fst (clientsArePaused st) = true) ->
  chunk <> [] -> zlen chunk <= read_length c -> zlen l + zlen chunk = bulklen c + 2 ->
  exists st' c', readQueryFromClient junk st c (RData chunk) = Some (st', Some c') /\
    contents (querybuf c') = l ++ chunk /\ read_length c' = 0 /\
    forall st bs, zlen bs <= read_length c' -> readQueryFromClient junk st c' (RData bs) = Some (st, None).
Proof.
  intros Hq Hr Hm Hb Hs Hp Hne Hch Hlen. pose proof (zlen_pos chunk Hne).
  pose proof (read_length_max c) as Hmax. unfold REDIS_IOBUF_LEN, REDIS_MBULK_BIG_ARG in *.
  pose proof (sds_len _ _ Hq) as [Hl _].
  destruct (append_read_ok junk (querybuf c) l (read_length c) chunk Hq Hch) as (q & Happ & Hq');
    [unfold INT32_MAX; lia|].
  pose proof (sds_len _ _ Hq') as [Hl' _]. rewrite zlen_app in Hl'.
  unfold readQueryFromClient at 1. rewrite (proj2 (Z.eqb_neq (zlen chunk) 0)) by lia. rewrite Happ. sbind.
  rewrite Hl', Hlen, Z.gtb_ltb, (proj2 (Z.ltb_ge _ _)) by (unfold REDIS_MAX_QUERYBUF_LEN; lia).
  set (c1 := set_querybuf q _). set (st1 := net_input (zlen chunk) st).
  assert (exists st2, processInputBuffer junk st1 c1 = Some (st2, c1)) as [st2 ->].
  { unfold processInputBuffer. cbn [input_loop]. subst c1. cbn [querybuf set_querybuf].
    rewrite Hl', Hlen, (proj2 (Z.eqb_neq _ 0)) by lia. unfold input_step. cbn [flags set_querybuf set_net].
    rewrite Hs. specialize (Hp st1). destruct (clientsArePaused st1) as [b st2]. cbn in Hp. subst b.
    by exists st2. }
  sbind. exists st2, c1. split; [done|]. split; [apply (contents_ok _ _ Hq')|].
  assert (read_length c1 = 0) as Hrl0.
  { unfold read_length, REDIS_MBULK_BIG_ARG, REDIS_IOBUF_LEN. subst c1.
    cbn [reqtype multibulklen bulklen querybuf set_querybuf set_net].
    rewrite Hr, Z.eqb_refl, Hl', Hlen, Z.geb_leb.
    rewrite (proj2 (Z.eqb_neq (multibulklen c) 0)), (proj2 (Z.eqb_neq _ (-1))), (proj2 (Z.leb_le _ _)) by lia.
    cbn [andb negb]. by rewrite u32_small, Z.sub_diag by lia. }
  split; [done|]. intros st3 bs Hbs. rewrite Hrl0 in Hbs. pose proof (zlen_nonneg bs).
  unfold readQueryFromClient. by rewrite (proj2 (Z.eqb_eq (zlen bs) 0)) by lia.
Qed.

(** A server whose clients are paused. *)
Definition paused_server : Server unit := {|
  unixtime _ := 0;
  clientsArePaused st := (true, st);
  net_input _ st := st;
  processCommand st c := (st, c, true);
  askingCommand := 0
|}.

Lemma paused_client_lost_witness :
  let l := replicate (Z.to_nat 32760) 65 in
  let c := mk_client 0 (mk_sds (zlen l) (zlen (@nil Z)) (l ++ [0])) 0 [] 1 None 2 1 32768 0 0 0 [] in
  exists st' c', @readQueryFromClient _ paused_server (fun _ => 7) tt c (RData (replicate 10 66)) = Some (st', Some c') /\
    read_length c' = 0.
Proof.
  intros l c.
  assert (zlen l = 32760) as Hl by (unfold l; rewrite zlen_replicate; apply Z2Nat.id; discriminate).
  assert (sds_ok (querybuf c) l) as Hq.
  { exists []. split; [reflexivity|]. rewrite Hl, (@zlen_nil Z). split; discriminate. }
  destruct (@paused_client_lost _ paused_server (fun _ => 7) tt c l (replicate 10 66)) as (st' & c' & Hrd & _ & H0 & _).
  - exact Hq.
  - reflexivity.
  - reflexivity.
  - split; discriminate.
  - reflexivity.
  - reflexivity.
  - discriminate.
  - unfold read_length, c. cbn [reqtype multibulklen bulklen querybuf len]. rewrite Hl. vm_compute. discriminate.
  - rewrite Hl. reflexivity.
  - exists st', c'. split; [exact Hrd|exact H0].
Defined.
