(* ===== verification/Object.v ===== *)
(** * object.c: string objects

    The objects live in a store, a finite map from addresses to [robj]s with
    their reference counts.  A freed object leaves the store, so using it again
    gives [None], as do the calls of redisPanic, a failed assertion and the
    overflow of a reference count.  [type] is always REDIS_STRING here and the
    [lru] field, read only by the eviction code, is left out. *)

From Stdlib Require Import ZArith Lia String.
From stdpp Require Import base numbers list gmap.
From S2P Require Import Prelude Util.

Open Scope Z_scope.

(** ** Data *)

Definition loc : Type := positive.

(** [encoding] and [ptr]: an sds string with [free] spare bytes
    (REDIS_ENCODING_RAW), one embedded in the object (REDIS_ENCODING_EMBSTR), or
    a [long] (REDIS_ENCODING_INT). *)
Inductive strval :=
  | RAW (s : list Z) (free : Z)
  | EMBSTR (s : list Z)
  | INT (v : Z).

#[export] Instance strval_eq_dec : EqDecision strval.
Proof. solve_decision. Defined.

Record robj := mk_robj { refcount : Z; val : strval }.

#[export] Instance robj_eq_dec : EqDecision robj.
Proof. solve_decision. Defined.

(** [integers] is [shared.integers]; [maxmemory_lru] says that a memory limit
    with one of the two LRU policies is configured. *)
Record store := mk_store {
  heap : gmap loc robj;
  integers : list loc;
  maxmemory_lru : bool;
}.

Definition REDIS_SHARED_INTEGERS : Z := 10000.
Definition REDIS_ENCODING_EMBSTR_SIZE_LIMIT : Z := 39.

Definition set_heap (st : store) (h : gmap loc robj) : store :=
  mk_store h (integers st) (maxmemory_lru st).

Definition sdsEncodedObject (v : strval) : bool :=
  match v with RAW _ _ | EMBSTR _ => true | INT _ => false end.

(** ** Creation and reference counts *)

(** [zmalloc] returns an address that is not in use. *)
Definition createObject (st : store) (v : strval) : loc * store :=
  let p := fresh (dom (heap st)) in
  (p, set_heap st (<[p := mk_robj 1 v]> (heap st))).

(** [sdsnewlen] makes a string without spare space. *)
Definition createRawStringObject (st : store) (s : list Z) : loc * store :=
  createObject st (RAW s 0).

Definition createEmbeddedStringObject (st : store) (s : list Z) : loc * store :=
  createObject st (EMBSTR s).

Definition createStringObject (st : store) (s : list Z) : loc * store :=
  if zlen s <=? REDIS_ENCODING_EMBSTR_SIZE_LIMIT
  then createEmbeddedStringObject st s else createRawStringObject st s.

Definition incrRefCount (st : store) (p : loc) : option store :=
  o ← heap st !! p;
  if refcount o =? INT32_MAX then None
  else Some (set_heap st (<[p := mk_robj (refcount o + 1) (val o)]> (heap st))).

Definition decrRefCount (st : store) (p : loc) : option store :=
  o ← heap st !! p;
  if refcount o <=? 0 then None
  else if refcount o =? 1 then Some (set_heap st (delete p (heap st)))
  else Some (set_heap st (<[p := mk_robj (refcount o - 1) (val o)]> (heap st))).

Definition createStringObjectFromLongLong (st : store) (value : Z) : option (loc * store) :=
  if (value >=? 0) && (value <? REDIS_SHARED_INTEGERS) then
    p ← getb (integers st) value;
    st ← incrRefCount st p;
    Some (p, st)
  else if (value >=? LONG_MIN) && (value <=? LONG_MAX) then
    Some (createObject st (INT value))
  else (* for a [long] narrower than [long long] *) None.

Definition dupStringObject (st : store) (p : loc) : option (loc * store) :=
  o ← heap st !! p;
  Some (match val o with
        | RAW s _ => createRawStringObject st s
        | EMBSTR s => createEmbeddedStringObject st s
        | INT v => createObject st (INT v)
        end).

(** ** Encoding *)

(** The first [len] bytes of the local buffer that [ll2string(buf,n,v)] fills;
    what the buffer holds before does not matter. *)
Definition ll_buf (n : nat) (v : Z) : option (list Z) :=
  r ← ll2string (replicate n 170) (Z.of_nat n) v;
  let '(len, buf) := r in
  load buf 0 len.

(** What [astr] and [alen] are for an object. *)
Definition str_of (v : strval) : option (list Z) :=
  match v with RAW s _ | EMBSTR s => Some s | INT v => ll_buf 128 v end.

Definition isObjectRepresentableAsLongLong (st : store) (p : loc) : option (option Z) :=
  o ← heap st !! p;
  Some (match val o with
        | INT v => Some v
        | RAW s _ | EMBSTR s => string2ll s
        end).

(** The string of an encoded object. *)
Definition sds_ptr (v : strval) : list Z :=
  match v with RAW s _ | EMBSTR s => s | INT _ => [] end.

Definition tryObjectEncoding (st : store) (p : loc) : option (loc * store) :=
  o ← heap st !! p;
  if negb (sdsEncodedObject (val o)) then Some (p, st)
  else if refcount o >? 1 then Some (p, st)
  else
    let s := sds_ptr (val o) in
    let len := zlen s in
    match (if len <=? 21 then string2l s else None) with
    | Some value =>
        if negb (maxmemory_lru st) && (value >=? 0) && (value <? REDIS_SHARED_INTEGERS) then
          st ← decrRefCount st p;
          q ← getb (integers st) value;
          st ← incrRefCount st q;
          Some (q, st)
        else
          Some (p, set_heap st (<[p := mk_robj (refcount o) (INT value)]> (heap st)))
    | None =>
        if len <=? REDIS_ENCODING_EMBSTR_SIZE_LIMIT then
          match val o with
          | EMBSTR _ => Some (p, st)
          | _ =>
              let '(emb, st) := createEmbeddedStringObject st s in
              st ← decrRefCount st p;
              Some (emb, st)
          end
        else
          match val o with
          | RAW s free =>
              if free >? len / 10 then
                Some (p, set_heap st (<[p := mk_robj (refcount o) (RAW s 0)]> (heap st)))
              else Some (p, st)
          | _ => Some (p, st)
          end
    end.

Definition getDecodedObject (st : store) (p : loc) : option (loc * store) :=
  o ← heap st !! p;
  match val o with
  | RAW _ _ | EMBSTR _ => st ← incrRefCount st p; Some (p, st)
  | INT v =>
      r ← ll2string (replicate 32 170) 32 v;
      let '(_, buf) := r in
      (* strlen(buf) *)
      if bool_decide (0 ∈ buf)
      then Some (createStringObject st (span (fun c => negb (c =? 0)) buf).1)
      else None
  end.

Definition stringObjectLen (st : store) (p : loc) : option Z :=
  o ← heap st !! p;
  match val o with
  | RAW s _ | EMBSTR s => Some (zlen s)
  | INT v => r ← ll2string (replicate 32 170) 32 v; Some r.1
  end.

(** ** Comparison *)

(** The order of the locale. *)
Section Compare.
Context (strcoll : list Z -> list Z -> Z).

(** [compareStringObjectsWithFlags] after the test [a == b]; [coll] is the flag
    REDIS_COMPARE_COLL.  The difference of the lengths is a [size_t] that is
    converted to [int]. *)
Definition compare_values (a b : strval) (coll : bool) : option Z :=
  astr ← str_of a;
  bstr ← str_of b;
  if coll then Some (strcoll astr bstr)
  else
    cmp ← memcmp astr bstr (Z.to_nat (if zlen astr <? zlen bstr then zlen astr else zlen bstr));
    Some (if cmp =? 0 then s32 (u64 (zlen astr - zlen bstr)) else cmp).

Definition compareStringObjectsWithFlags (st : store) (a b : loc) (coll : bool) : option Z :=
  oa ← heap st !! a;
  ob ← heap st !! b;
  if bool_decide (a = b) then Some 0 else compare_values (val oa) (val ob) coll.

Definition compareStringObjects (st : store) (a b : loc) : option Z :=
  compareStringObjectsWithFlags st a b false.

Definition collateStringObjects (st : store) (a b : loc) : option Z :=
  compareStringObjectsWithFlags st a b true.

Definition equalStringObjects (st : store) (a b : loc) : option bool :=
  oa ← heap st !! a;
  ob ← heap st !! b;
  match val oa, val ob with
  | INT v, INT w => Some (v =? w)
  | _, _ => r ← compareStringObjects st a b; Some (r =? 0)
  end.

End Compare.

(** ** Conversion to integers *)

(** [None] is REDIS_ERR.  [strtoll] sets ERANGE when it clamps, and [eptr[0]] is
    the terminator at the end of the string. *)
Definition getLongLongFromObject (o : option strval) : option Z :=
  match o with
  | None => Some 0
  | Some (INT v) => Some v
  | Some v =>
      let s := sds_ptr v in
      let '(value, eptr) := strtoll_raw s in
      if isspace (default 0 (head s)) || negb (default 0 (head eptr) =? 0)
         || negb (clamp_ll value =? value)
      then None else Some (clamp_ll value)
  end.

(** [inr] is the error message that is replied, with [msg] that of the caller. *)
Definition getLongLongFromObjectOrReply (o : option strval) (msg : option string) : Z + string :=
  match getLongLongFromObject o with
  | None => inr (default "value is not an integer or out of range"%string msg)
  | Some value => inl value
  end.

Definition getLongFromObjectOrReply (o : option strval) (msg : option string) : Z + string :=
  match getLongLongFromObjectOrReply o msg with
  | inr e => inr e
  | inl value =>
      if (value <? LONG_MIN) || (value >? LONG_MAX)
      then inr (default "value is out of range"%string msg)
      else inl value
  end.

(** ** Specification *)

(** The string that an object stands for. *)
Definition value (v : strval) : list Z :=
  match v with RAW s _ | EMBSTR s => s | INT v => ll_repr v end.

(** A [long] is in range, an embedded string is short, and no string is longer
    than the limit of 512 MB that the commands enforce. *)
Definition wf_val (v : strval) : Prop :=
  match v with
  | RAW s free => zlen s <= 536870912 /\ 0 <= free
  | EMBSTR s => zlen s <= REDIS_ENCODING_EMBSTR_SIZE_LIMIT
  | INT v => in_ll v
  end.

(** Objects are well formed and referenced; the shared integers are there. *)
Record store_ok (st : store) : Prop := {
  ok_obj p o : heap st !! p = Some o -> wf_val (val o) /\ 1 <= refcount o <= INT32_MAX;
  ok_int i : 0 <= i < REDIS_SHARED_INTEGERS ->
    exists p o, getb (integers st) i = Some p /\ heap st !! p = Some o /\ val o = INT i;
}.

(** No reference count is about to overflow. *)
Definition room (st : store) : Prop :=
  forall p o, heap st !! p = Some o -> refcount o < INT32_MAX.

Definition refs (st : store) (p : loc) : Z :=
  match heap st !! p with Some o => refcount o | None => 0 end.

Definition count (x : option loc) (p : loc) : Z := if decide (x = Some p) then 1 else 0.

(** From [st] to [st'] one reference to [drop] is given up and one to [add] is
    gained, and the strings of the objects do not change. *)
Definition moves (st st' : store) (drop add : option loc) : Prop :=
  (forall x, refs st' x = refs st x - count drop x + count add x) /\
  (forall x o o', heap st !! x = Some o -> heap st' !! x = Some o' ->
     value (val o') = value (val o)).

(** ** Lemmas *)

Lemma count_same p : count (Some p) p = 1.
Proof. unfold count. by rewrite decide_True. Qed.
Lemma count_other p x : p <> x -> count (Some p) x = 0.
Proof. intros. unfold count. rewrite decide_False; congruence. Qed.
Lemma count_none x : count None x = 0.
Proof. unfold count. by rewrite decide_False. Qed.

(** Evaluates the counts, with [x] the cell that is looked at. *)
Ltac counts :=
  rewrite ?count_none, ?count_same; repeat (rewrite count_other by congruence).

Lemma ll_repr_inj v w : in_ll v -> in_ll w -> ll_repr v = ll_repr w -> v = w.
Proof.
  intros Hv Hw Heq. apply string2ll_complete in Hv. apply string2ll_complete in Hw.
  rewrite Heq in Hv. congruence.
Qed.

Lemma ll2string_local (n : nat) v :
  in_ll v -> (20 < n)%nat ->
  ll2string (replicate n 170) (Z.of_nat n) v
  = Some (zlen (ll_repr v),
          ll_repr v ++ 0 :: drop (S (length (ll_repr v))) (replicate n 170)).
Proof.
  intros Hv Hn. pose proof (ll_repr_len v Hv).
  rewrite <- (zlen_replicate 170 n) at 1. rewrite ll2string_spec by done.
  rewrite zlen_replicate, Z.geb_leb, (proj2 (Z.leb_gt _ _)) by lia. done.
Qed.

Lemma ll_buf_spec (n : nat) v : in_ll v -> (20 < n)%nat -> ll_buf n v = Some (ll_repr v).
Proof.
  intros Hv Hn. unfold ll_buf. rewrite ll2string_local by done. sbind.
  by apply (load_mid [] (ll_repr v)).
Qed.

Lemma str_of_spec v : wf_val v -> str_of v = Some (value v).
Proof. destruct v; simpl; [done..|]. intros. apply ll_buf_spec; [done|lia]. Qed.

Lemma value_len v : wf_val v -> 0 <= zlen (value v) <= 536870912.
Proof.
  pose proof (zlen_nonneg (value v)) as H0. split; [done|].
  destruct v; simpl in *; unfold REDIS_ENCODING_EMBSTR_SIZE_LIMIT in *; [lia..|].
  pose proof (ll_repr_len _ H). lia.
Qed.

Lemma compare_values_spec strcoll a b :
  wf_val a -> wf_val b ->
  exists c, compare_values strcoll a b false = Some c /\ (c ?= 0) = lex (value a) (value b).
Proof.
  intros Ha Hb. unfold compare_values. rewrite !str_of_spec by done. sbind.
  pose proof (value_len a Ha). pose proof (value_len b Hb).
  destruct (memcmp_lex (value a) (value b)) as (r & Hr & Hl).
  assert (Z.to_nat (if zlen (value a) <? zlen (value b) then zlen (value a) else zlen (value b))
          = (length (value a) `min` length (value b))%nat) as ->.
  { unfold zlen. destruct (Z.ltb_spec (Z.of_nat (length (value a))) (Z.of_nat (length (value b)))); lia. }
  rewrite Hr. sbind. eexists. split; [done|].
  assert (s32 (u64 (zlen (value a) - zlen (value b))) = zlen (value a) - zlen (value b)) as Hs.
  { rewrite swrap_uwrap_le by lia. apply s32_small. lia. }
  rewrite Hs. destruct (lex _ _) eqn:E; destruct (Z.eqb_spec r 0); subst;
    [apply Z.compare_eq_iff|apply Z.compare_eq_iff|apply Z.compare_lt_iff
    |apply Z.compare_lt_iff|apply Z.compare_gt_iff|apply Z.compare_gt_iff]; lia.
Qed.

Lemma refs_insert st p o x :
  refs (set_heap st (<[p := o]> (heap st))) x = if decide (p = x) then refcount o else refs st x.
Proof.
  unfold refs. simpl. destruct (decide (p = x)) as [->|Hne].
  - by rewrite lookup_insert_eq.
  - by rewrite lookup_insert_ne.
Qed.

Lemma refs_lookup st p o : heap st !! p = Some o -> refs st p = refcount o.
Proof. unfold refs. by intros ->. Qed.

(** An update of one cell that keeps the string of the object in it. *)
Lemma store_ok_insert st p o :
  store_ok st -> wf_val (val o) -> 1 <= refcount o <= INT32_MAX ->
  (forall i q o', heap st !! q = Some o' -> val o' = INT i -> p = q -> val o = INT i) ->
  store_ok (set_heap st (<[p := o]> (heap st))).
Proof.
  intros [Hobj Hint] Hv Hr Hk. split; simpl.
  - intros q o' [[<- <-]|[_ Hq]]%lookup_insert_Some; [done|by apply (Hobj q)].
  - intros i Hi. destruct (Hint i Hi) as (q & o' & Hg & Hq & Ho'). exists q.
    destruct (decide (p = q)) as [->|Hne].
    + exists o. rewrite lookup_insert_eq. eauto 6.
    + exists o'. by rewrite lookup_insert_ne.
Qed.

Lemma createObject_spec st v p st' :
  createObject st v = (p, st') -> store_ok st -> wf_val v ->
  heap st !! p = None /\ st' = set_heap st (<[p := mk_robj 1 v]> (heap st)) /\
  store_ok st' /\ moves st st' None (Some p).
Proof.
  intros [= <- <-] Hst Hv. set (p := fresh (dom (heap st))).
  assert (heap st !! p = None) as Hp by (apply not_elem_of_dom, is_fresh).
  split; [done|]. split; [done|]. split.
  - apply store_ok_insert; simpl; [done..|unfold INT32_MAX; lia|].
    intros i q o' Hq _ <-. congruence.
  - split; [intros x|intros x o o' Hx].
    + rewrite refs_insert. destruct (decide (p = x)) as [->|Hne].
      * counts. unfold refs. rewrite Hp. simpl. lia.
      * counts. lia.
    + simpl. rewrite lookup_insert_ne by congruence. congruence.
Qed.

Lemma incrRefCount_spec st p o :
  store_ok st -> heap st !! p = Some o -> refcount o < INT32_MAX ->
  exists st', incrRefCount st p = Some st' /\
    st' = set_heap st (<[p := mk_robj (refcount o + 1) (val o)]> (heap st)) /\
    store_ok st' /\ moves st st' None (Some p).
Proof.
  intros Hst Hp Hr. unfold incrRefCount. rewrite Hp. sbind.
  rewrite (proj2 (Z.eqb_neq _ _)) by lia. eexists. split; [done|]. split; [done|].
  destruct (ok_obj st Hst p o Hp) as [Hv Hc]. split.
  - apply store_ok_insert; simpl; [done..|lia|]. intros i q o' Hq Ho' <-. congruence.
  - split; [intros x|intros x a a' Hx].
    + rewrite refs_insert. destruct (decide (p = x)) as [<-|Hne].
      * counts. rewrite (refs_lookup _ _ _ Hp). simpl. lia.
      * counts. lia.
    + simpl. intros [[<- <-]|[_ ?]]%lookup_insert_Some; [|congruence].
      simpl. congruence.
Qed.

(** The last reference to a shared integer is the server's own. *)
Lemma decrRefCount_gen st p o :
  store_ok st -> heap st !! p = Some o ->
  (refcount o = 1 -> forall i, 0 <= i < REDIS_SHARED_INTEGERS -> val o <> INT i) ->
  exists st', decrRefCount st p = Some st' /\ store_ok st' /\ moves st st' (Some p) None /\
    integers st' = integers st /\ maxmemory_lru st' = maxmemory_lru st /\
    (refcount o = 1 -> heap st' = delete p (heap st)) /\
    (forall x, x <> p -> heap st' !! x = heap st !! x).
Proof.
  intros Hst Hp Hlast. unfold decrRefCount. rewrite Hp. sbind.
  destruct (ok_obj st Hst p o Hp) as [Hv Hc].
  rewrite (proj2 (Z.leb_gt _ _)) by lia.
  destruct (Z.eqb_spec (refcount o) 1) as [Hone|Hone]; eexists; (split; [done|]).
  - split_and!; try done.
    + destruct Hst as [Hobj Hint]. split; simpl.
      * intros q o' [_ Hq]%lookup_delete_Some. by apply (Hobj q).
      * intros i Hi. destruct (Hint i Hi) as (q & o' & Hg & Hq & Ho').
        exists q, o'. rewrite lookup_delete_ne; [done|]. intros ->.
        assert (o' = o) as -> by congruence. by apply (Hlast Hone i).
    + split; [intros x|simpl; intros x a a' Hx [_ Hx']%lookup_delete_Some; congruence].
      unfold refs. simpl. destruct (decide (p = x)) as [<-|Hne]; counts.
      * rewrite lookup_delete_eq, Hp. lia.
      * rewrite lookup_delete_ne by done. lia.
    + intros x Hx. simpl. by rewrite lookup_delete_ne.
  - split_and!; try done.
    + apply store_ok_insert; simpl; [done..|lia|]. intros i q o' Hq Ho' <-. congruence.
    + split; [intros x|intros x a a' Hx].
      * rewrite refs_insert. destruct (decide (p = x)) as [<-|Hne]; counts; [|lia].
        rewrite (refs_lookup _ _ _ Hp). simpl. lia.
      * simpl. intros [[<- <-]|[_ ?]]%lookup_insert_Some; [|congruence].
        simpl. congruence.
    + intros x Hx. simpl. by rewrite lookup_insert_ne.
Qed.

Lemma decrRefCount_spec st p o :
  store_ok st -> heap st !! p = Some o ->
  (refcount o = 1 -> sdsEncodedObject (val o) = true) ->
  exists st', decrRefCount st p = Some st' /\ store_ok st' /\ moves st st' (Some p) None /\
    integers st' = integers st /\ maxmemory_lru st' = maxmemory_lru st /\
    (refcount o = 1 -> heap st' = delete p (heap st)) /\
    (forall x, x <> p -> heap st' !! x = heap st !! x).
Proof.
  intros Hst Hp Hlast. apply decrRefCount_gen; [done..|].
  intros Hone i _ Hi. specialize (Hlast Hone). by rewrite Hi in Hlast.
Qed.

(** Replacing the representation of an object by one of the same string. *)
Lemma reencode_spec st p o v :
  store_ok st -> heap st !! p = Some o -> sdsEncodedObject (val o) = true ->
  wf_val v -> value v = value (val o) ->
  let st' := set_heap st (<[p := mk_robj (refcount o) v]> (heap st)) in
  store_ok st' /\ moves st st' (Some p) (Some p).
Proof.
  intros Hst Hp Henc Hv Heq st'. destruct (ok_obj st Hst p o Hp) as [_ Hc]. split.
  - apply store_ok_insert; simpl; [done..|]. intros i q o' Hq Ho' <-.
    assert (o' = o) as -> by congruence. by rewrite Ho' in Henc.
  - split; [intros x|intros x a a' Hx].
    + unfold st'. rewrite refs_insert. destruct (decide (p = x)) as [<-|Hne]; counts; [|lia].
      rewrite (refs_lookup _ _ _ Hp). simpl. lia.
    + unfold st'. simpl. intros [[<- <-]|[_ ?]]%lookup_insert_Some; [|congruence].
      simpl. congruence.
Qed.

Lemma moves_refl st p : moves st st (Some p) (Some p).
Proof. split; [intros x; lia|congruence]. Qed.

Lemma moves_trans st1 st2 st3 a c :
  moves st1 st2 a None -> moves st2 st3 None c ->
  (forall x o o', heap st1 !! x = Some o -> heap st3 !! x = Some o' -> is_Some (heap st2 !! x)) ->
  moves st1 st3 a c.
Proof.
  intros [Hr1 Hv1] [Hr2 Hv2] Hmid. split.
  - intros x. rewrite Hr2, Hr1. counts. lia.
  - intros x o o' H1 H3. destruct (Hmid x o o' H1 H3) as [o2 H2].
    rewrite (Hv2 x o2 o' H2 H3). by apply (Hv1 x).
Qed.

(** A string that is not the numeral of a [long] does not become an integer. *)
Lemma small_numeral s v :
  (if zlen s <=? 21 then string2l s else None) = Some v <-> s = ll_repr v /\ in_ll v.
Proof.
  rewrite string2l_string2ll. split.
  - destruct (zlen s <=? 21); [by intros ?%string2ll_sound|done].
  - intros [-> Hv]. pose proof (ll_repr_len v Hv).
    rewrite (proj2 (Z.leb_le _ _)) by lia. by apply string2ll_complete.
Qed.

Lemma tryObjectEncoding_int st p o v :
  store_ok st -> room st -> heap st !! p = Some o -> refcount o = 1 ->
  sdsEncodedObject (val o) = true -> sds_ptr (val o) = ll_repr v -> in_ll v ->
  exists q st' o', tryObjectEncoding st p = Some (q, st') /\ store_ok st' /\
    heap st' !! q = Some o' /\ val o' = INT v /\ moves st st' (Some p) (Some q).
Proof.
  intros Hst Hroom Hp Hone Henc Hs Hv. unfold tryObjectEncoding. rewrite Hp. sbind.
  rewrite Henc, Hone. simpl. rewrite (proj2 (small_numeral _ v)) by done.
  assert (value (val o) = ll_repr v) as Hval by (by destruct (val o)).
  case_match eqn:Ht; zbool.
  - destruct (decrRefCount_spec st p o Hst Hp) as (st1 & -> & Hst1 & Hm1 & Hi1 & _ & Hdel & Hoth);
      [by intros|]. sbind.
    destruct (ok_int _ Hst v) as (q & oq & Hg & Hq & Hoq); [lia|]. rewrite Hi1, Hg. sbind.
    assert (q <> p) as Hne. { intros ->. assert (oq = o) as -> by congruence. by rewrite Hoq in Henc. }
    assert (heap st1 !! q = Some oq) as Hq1 by (by rewrite Hoth).
    destruct (incrRefCount_spec st1 q oq Hst1 Hq1) as (st2 & -> & Heq2 & Hst2 & Hm2).
    { by apply (Hroom q). } sbind.
    eexists q, st2, _. split; [done|]. split; [done|]. rewrite Heq2. simpl.
    rewrite lookup_insert_eq. split; [done|]. split; [done|]. rewrite <- Heq2.
    apply (moves_trans _ _ _ _ _ Hm1 Hm2). intros x a b Hx. rewrite Heq2. simpl.
    intros [[<- _]|[_ ?]]%lookup_insert_Some; by eauto.
  - destruct (reencode_spec st p o (INT v)) as [Hok Hm]; [done..|].
    rewrite Hone in Hok, Hm. eexists p, _, _. split; [done|]. split; [done|].
    simpl. rewrite lookup_insert_eq. done.
Qed.

Lemma tryObjectEncoding_string st p o :
  store_ok st -> room st -> heap st !! p = Some o -> refcount o = 1 ->
  sdsEncodedObject (val o) = true -> (forall v, sds_ptr (val o) = ll_repr v -> ~ in_ll v) ->
  exists q st' o', tryObjectEncoding st p = Some (q, st') /\ store_ok st' /\
    heap st' !! q = Some o' /\ sdsEncodedObject (val o') = true /\
    value (val o') = value (val o) /\ moves st st' (Some p) (Some q).
Proof.
  intros Hst Hroom Hp Hone Henc Hno. unfold tryObjectEncoding. rewrite Hp. sbind.
  rewrite Henc, Hone. cbn [negb]. change (1 >? 1) with false. cbv iota.
  destruct (if zlen (sds_ptr (val o)) <=? 21 then string2l (sds_ptr (val o)) else None) as [v|] eqn:E.
  { apply small_numeral in E as [E Hv]. by destruct (Hno v E). }
  destruct (ok_obj st Hst p o Hp) as [Hwf _]. clear E.
  assert (exists q st' o', Some (p, st) = Some (q, st') /\ store_ok st' /\
    heap st' !! q = Some o' /\ sdsEncodedObject (val o') = true /\
    value (val o') = value (val o) /\ moves st st' (Some p) (Some q)) as Hsame.
  { exists p, st, o. split_and!; try done. apply moves_refl. }
  destruct (Z.leb_spec (zlen (sds_ptr (val o))) REDIS_ENCODING_EMBSTR_SIZE_LIMIT) as [Hle|Hgt].
  - destruct (val o) as [s free|s|v] eqn:Hv; [|done|done]. simpl in Hle.
    destruct (createEmbeddedStringObject st s) as [e st1] eqn:Hcr.
    pose proof Hcr as Hcr'. apply createObject_spec in Hcr as (Hfresh & Hst1e & Hst1 & Hm1); [|done|done].
    assert (e <> p) as Hne by congruence.
    assert (heap st1 !! p = Some o) as Hp1 by (subst st1; simpl; by rewrite lookup_insert_ne).
    destruct (decrRefCount_spec st1 p o Hst1 Hp1) as (st2 & Hd & Hst2 & Hm2 & _ & _ & Hdel & Hoth).
    { intros _. by rewrite Hv. }
    cbn [sds_ptr]. rewrite Hcr', Hd. sbind.
    exists e, st2, (mk_robj 1 (EMBSTR s)).
    assert (heap st2 !! e = Some (mk_robj 1 (EMBSTR s))) as He.
    { rewrite Hoth by done. subst st1. simpl. by rewrite lookup_insert_eq. }
    split_and!; try done. destruct Hm1 as [Hr1 Hv1], Hm2 as [Hr2 Hv2]. split.
    + intros x. rewrite Hr2, Hr1. counts. lia.
    + intros x a b Ha Hb. assert (x <> e) by congruence. apply (Hv2 x a b); [|done].
      subst st1. simpl. by rewrite lookup_insert_ne by done.
  - destruct (val o) as [s free|s|v] eqn:Hv; [|done|done].
    destruct (free >? _); [|done]. simpl in Hwf.
    destruct (reencode_spec st p o (RAW s 0)) as [Hok Hm]; rewrite ?Hv; try done.
    { simpl. lia. }
    rewrite Hone in Hok, Hm. eexists p, _, _. split; [done|]. split; [done|].
    simpl. rewrite lookup_insert_eq. done.
Qed.

Lemma tryObjectEncoding_shared st p o :
  heap st !! p = Some o -> sdsEncodedObject (val o) = false \/ 1 < refcount o ->
  tryObjectEncoding st p = Some (p, st).
Proof.
  intros Hp Hc. unfold tryObjectEncoding. rewrite Hp. sbind.
  destruct (sdsEncodedObject (val o)); [|done]. destruct Hc as [|Hc]; [done|].
  simpl. rewrite Z.gtb_ltb, (proj2 (Z.ltb_lt _ _)) by lia. done.
Qed.

Lemma getDecodedObject_int st p o v :
  heap st !! p = Some o -> val o = INT v -> in_ll v ->
  getDecodedObject st p = Some (createObject st (EMBSTR (ll_repr v))).
Proof.
  intros Hp Hv Hwf. unfold getDecodedObject. rewrite Hp. sbind. rewrite Hv.
  rewrite (ll2string_local 32) by (done || lia). sbind.
  rewrite bool_decide_eq_true_2 by set_solver.
  destruct (ll_repr_shape v Hwf) as (sg & ds & Hr & Hds & _ & Hlen & Hsg).
  assert (Forall (fun c => negb (c =? 0) = true) (ll_repr v)) as Hnz.
  { rewrite Hr. apply Forall_app. split.
    - destruct Hsg as [[-> _]|[-> _]]; by repeat constructor.
    - eapply Forall_impl; [exact Hds|]. intros c Hd. simpl in Hd.
      apply isdigit_iff in Hd. unfold is_digit in Hd.
      by rewrite (proj2 (Z.eqb_neq c 0)) by lia. }
  rewrite span_app; [|done|by intros c u [= <- _]]. cbn [fst].
  assert (zlen (ll_repr v) <= 20) by (by rewrite Hr).
  unfold createStringObject, REDIS_ENCODING_EMBSTR_SIZE_LIMIT.
  by rewrite (proj2 (Z.leb_le _ _)) by lia.
Qed.

Lemma getDecodedObject_spec st p o :
  store_ok st -> room st -> heap st !! p = Some o ->
  exists q st' o', getDecodedObject st p = Some (q, st') /\ store_ok st' /\
    heap st' !! q = Some o' /\ sdsEncodedObject (val o') = true /\
    value (val o') = value (val o) /\ moves st st' None (Some q).
Proof.
  intros Hst Hroom Hp. destruct (ok_obj st Hst p o Hp) as [Hwf Hc].
  assert (forall v, val o = v -> sdsEncodedObject v = true ->
    exists q st' o', (st' ← incrRefCount st p; Some (p, st')) = Some (q, st') /\ store_ok st' /\
      heap st' !! q = Some o' /\ sdsEncodedObject (val o') = true /\
      value (val o') = value v /\ moves st st' None (Some q)) as Hinc.
  { intros v Hv Henc.
    destruct (incrRefCount_spec st p o Hst Hp) as (st' & -> & Hst' & Hok & Hm); [by apply (Hroom p)|].
    sbind. eexists p, st', _. split; [done|]. split; [done|]. rewrite Hst'. simpl.
    rewrite lookup_insert_eq. split; [done|]. rewrite <- Hst'. simpl. by rewrite Hv. }
  destruct (val o) as [s free|s|v] eqn:Hv; [unfold getDecodedObject; rewrite Hp; sbind; rewrite Hv; by apply Hinc..|].
  rewrite (getDecodedObject_int st p o v) by done. simpl in Hwf. pose proof (ll_repr_len v Hwf).
  destruct (createObject st (EMBSTR (ll_repr v))) as [q st'] eqn:Hcr.
  apply createObject_spec in Hcr as (_ & Hst' & Hok & Hm); [|done|].
  2: { simpl. unfold REDIS_ENCODING_EMBSTR_SIZE_LIMIT. lia. }
  exists q, st', (mk_robj 1 (EMBSTR (ll_repr v))).
  split; [done|]. split; [done|]. split; [|done]. rewrite Hst'. simpl. by rewrite lookup_insert_eq.
Qed.

(** *** Stores with the same references *)

(** No reference count is within [k] of its limit. *)
Definition margin (k : Z) (st : store) : Prop :=
  forall p o, heap st !! p = Some o -> refcount o + k <= INT32_MAX.

(** The object at [p] stands for the string [s]. *)
Definition holds (st : store) (p : loc) (s : list Z) : Prop :=
  exists o, heap st !! p = Some o /\ value (val o) = s.

Lemma margin_room k st : 0 < k -> margin k st -> room st.
Proof. intros Hk Hm p o Hp. specialize (Hm p o Hp). lia. Qed.

Lemma refs_exists st p : 0 < refs st p -> is_Some (heap st !! p).
Proof. unfold refs. destruct (heap st !! p); [by eexists|lia]. Qed.

Lemma refs_pos st p o : store_ok st -> heap st !! p = Some o -> 1 <= refs st p.
Proof. intros Hst Hp. rewrite (refs_lookup st p o Hp). by apply (ok_obj st Hst p o). Qed.

Lemma count_range x p : 0 <= count x p <= 1.
Proof. unfold count. case_decide; lia. Qed.

Lemma moves_holds st st' d a p s :
  moves st st' d a -> store_ok st -> (1 < refs st p \/ d <> Some p) -> holds st p s -> holds st' p s.
Proof.
  intros [Hr Hv] Hst Hd (o & Hp & Hs). pose proof (refs_pos st p o Hst Hp) as Hpos.
  destruct (refs_exists st' p) as [o' Ho'].
  { rewrite Hr. pose proof (count_range a p). destruct (decide (d = Some p)) as [->|Hne].
    - rewrite count_same. destruct Hd; [lia|done].
    - assert (count d p = 0) as -> by (unfold count; by rewrite decide_False). lia. }
  exists o'. split; [done|]. rewrite (Hv p o o' Hp Ho'). done.
Qed.

Lemma holds_kept st st' a p s : store_ok st -> moves st st' None a -> holds st p s -> holds st' p s.
Proof. intros Hst Hm. eapply moves_holds; [done..|]. by right. Qed.

(** A reference gained and given up. *)
Lemma moves_undo st st1 st2 p :
  store_ok st -> moves st st1 None (Some p) -> moves st1 st2 (Some p) None -> moves st st2 None None.
Proof.
  intros Hst [Hr1 Hv1] [Hr2 Hv2]. split.
  - intros x. rewrite Hr2, Hr1, !count_none. lia.
  - intros x o o2 Ho Ho2. destruct (refs_exists st1 x) as [o1 Ho1].
    { rewrite Hr1. pose proof (refs_pos st x o Hst Ho). pose proof (count_range (Some p) x).
      rewrite count_none. lia. }
    by rewrite (Hv2 x o1 o2), (Hv1 x o o1).
Qed.

Lemma moves_comp st st1 st2 a :
  store_ok st -> moves st st1 None None -> moves st1 st2 None a -> moves st st2 None a.
Proof.
  intros Hst [Hr1 Hv1] [Hr2 Hv2]. split.
  - intros x. rewrite Hr2, Hr1, !count_none. lia.
  - intros x o o2 Ho Ho2. destruct (refs_exists st1 x) as [o1 Ho1].
    { rewrite Hr1. pose proof (refs_pos st x o Hst Ho). rewrite count_none. lia. }
    by rewrite (Hv2 x o1 o2), (Hv1 x o o1).
Qed.

(** Two references gained, then given up. *)
Lemma moves_close st st1 st2 st3 st4 st5 a b :
  store_ok st -> moves st st1 None a -> moves st1 st2 None b -> moves st2 st3 None None ->
  moves st3 st4 a None -> moves st4 st5 b None -> moves st st5 None None.
Proof.
  intros Hst [R1 V1] [R2 V2] [R3 V3] [R4 V4] [R5 V5]. split.
  - intros x. rewrite R5, R4, R3, R2, R1, !count_none. lia.
  - intros x o o5 Ho Ho5. pose proof (refs_pos st x o Hst Ho).
    pose proof (count_range a x). pose proof (count_range b x). pose proof (count_none x).
    specialize (R1 x). specialize (R2 x). specialize (R3 x). specialize (R4 x).
    destruct (refs_exists st1 x) as [o1 Ho1]; [lia|].
    destruct (refs_exists st2 x) as [o2 Ho2]; [lia|].
    destruct (refs_exists st3 x) as [o3 Ho3]; [lia|].
    destruct (refs_exists st4 x) as [o4 Ho4]; [lia|].
    by rewrite (V5 x o4 o5), (V4 x o3 o4), (V3 x o2 o3), (V2 x o1 o2), (V1 x o o1).
Qed.

Lemma moves_none st : moves st st None None.
Proof. split; [intros x; rewrite count_none; lia|congruence]. Qed.

Lemma moves_margin k st st' a :
  moves st st' None a -> 0 <= k < INT32_MAX -> margin (k + 1) st -> margin k st'.
Proof.
  intros [Hr _] Hk Hm p o' Hp'. pose proof (Hr p) as Hrp.
  rewrite (refs_lookup st' p o' Hp') in Hrp. rewrite count_none in Hrp.
  pose proof (count_range a p). unfold refs in Hrp. destruct (heap st !! p) as [o|] eqn:Hp.
  - specialize (Hm p o Hp). lia.
  - lia.
Qed.

Lemma moves_margin_same k st st' :
  store_ok st' -> moves st st' None None -> margin k st -> margin k st'.
Proof.
  intros Hst' [Hr _] Hm p o' Hp'. pose proof (Hr p) as Hrp. rewrite count_none in Hrp.
  pose proof (refs_pos st' p o' Hst' Hp').
  destruct (refs_exists st p) as [o Hp]; [lia|].
  rewrite (refs_lookup st' p o' Hp'), (refs_lookup st p o Hp) in Hrp.
  specialize (Hm p o Hp). lia.
Qed.

(** Giving up a reference to an object that is not one of the shared integers, or
    not the last one. *)
Lemma decr_holds st p s :
  store_ok st -> holds st p s ->
  (refs st p = 1 -> forall i, 0 <= i < REDIS_SHARED_INTEGERS -> s <> ll_repr i) ->
  exists st', decrRefCount st p = Some st' /\ store_ok st' /\ moves st st' (Some p) None.
Proof.
  intros Hst (o & Hp & <-) Hc.
  destruct (decrRefCount_gen st p o Hst Hp) as (st' & Hd & Hst' & Hm & _); [|by exists st'].
  intros Hone i Hi Hval. apply (Hc (eq_trans (refs_lookup st p o Hp) Hone) i Hi). by rewrite Hval.
Qed.

Lemma not_numeral s i : string2ll s = None -> 0 <= i < REDIS_SHARED_INTEGERS -> s <> ll_repr i.
Proof.
  intros Hs Hi ->. rewrite string2ll_complete in Hs; [done|].
  unfold in_ll, LLONG_MIN, LLONG_MAX, REDIS_SHARED_INTEGERS in *. lia.
Qed.

Lemma createStringObject_spec st s p st' :
  createStringObject st s = (p, st') -> store_ok st -> zlen s <= 536870912 ->
  heap st !! p = None /\ store_ok st' /\ moves st st' None (Some p) /\ holds st' p s /\
  exists v, st' = set_heap st (<[p := mk_robj 1 v]> (heap st)) /\ sdsEncodedObject v = true.
Proof.
  intros Hc Hst Hs. unfold createStringObject in Hc.
  destruct (Z.leb_spec (zlen s) REDIS_ENCODING_EMBSTR_SIZE_LIMIT);
    apply createObject_spec in Hc as (Hp & Hst' & Hok & Hm); simpl; try done.
  all: split; [done|]; split; [done|]; split; [done|]; split; [|by eexists].
  all: rewrite Hst'; eexists; simpl; rewrite lookup_insert_eq; split; [done|reflexivity].
Qed.

Lemma createStringObjectFromLongLong_spec st v :
  store_ok st -> room st -> in_ll v ->
  exists p st', createStringObjectFromLongLong st v = Some (p, st') /\ store_ok st' /\
    moves st st' None (Some p) /\ holds st' p (ll_repr v) /\
    (1 < refs st' p \/ ~ 0 <= v < REDIS_SHARED_INTEGERS).
Proof.
  intros Hst Hroom Hv. unfold createStringObjectFromLongLong.
  destruct ((v >=? 0) && (v <? REDIS_SHARED_INTEGERS)) eqn:Hsh.
  - zbool. destruct (ok_int st Hst v) as (p & o & Hg & Hp & Ho); [lia|]. rewrite Hg. sbind.
    destruct (incrRefCount_spec st p o Hst Hp) as (st' & -> & Hst' & Hok & Hm); [by apply (Hroom p)|].
    sbind. exists p, st'. split; [done|]. split; [done|]. split; [done|]. split.
    + rewrite Hst'. eexists. simpl. rewrite lookup_insert_eq. split; [done|]. cbn. by rewrite Ho.
    + left. destruct Hm as [Hr _]. rewrite Hr, count_none, count_same.
      pose proof (refs_pos st p o Hst Hp). lia.
  - assert ((v >=? LONG_MIN) && (v <=? LONG_MAX) = true) as ->.
    { unfold LONG_MIN, LONG_MAX. unfold in_ll, LLONG_MIN, LLONG_MAX in *.
      apply andb_true_iff. rewrite Z.geb_leb, !Z.leb_le. lia. }
    destruct (createObject st (INT v)) as [p st'] eqn:Hc.
    pose proof Hc as Hc'. apply createObject_spec in Hc as (Hp & Hst' & Hok & Hm); [|done|done].
    exists p, st'. split; [done|]. split; [done|]. split; [done|]. split.
    + rewrite Hst'. eexists. simpl. rewrite lookup_insert_eq. split; reflexivity.
    + right. intros Hr. apply andb_false_iff in Hsh as [?|?]; zbool; lia.
Qed.

(** A store with the shared integers, and the strings "1234" and "99" at the
    addresses [10001] and [10002]; for the witnesses. *)
Definition shared_integers : list (loc * robj) :=
  (fun i => (Z.to_pos (i + 1), mk_robj 1 (INT i))) <$> seqZ 0 REDIS_SHARED_INTEGERS.
Definition sample_store : store :=
  mk_store (<[10001%positive := mk_robj 1 (RAW (bytes_of_string "1234") 10)]>
              (<[10002%positive := mk_robj 2 (EMBSTR (bytes_of_string "99"))]>
                 (list_to_map shared_integers)))
    shared_integers.*1 false.

Lemma shared_integers_elem p o :
  (p, o) ∈ shared_integers <->
  exists i, 0 <= i < REDIS_SHARED_INTEGERS /\ p = Z.to_pos (i + 1) /\ o = mk_robj 1 (INT i).
Proof.
  unfold shared_integers. rewrite list_elem_of_fmap. setoid_rewrite elem_of_seqZ.
  split; intros (i & H); exists i; naive_solver lia.
Qed.

Lemma shared_integers_nodup : NoDup shared_integers.*1.
Proof.
  unfold shared_integers. rewrite <- list_fmap_compose.
  apply NoDup_fmap_2_strong; [|apply NoDup_seqZ].
  intros i j Hi%elem_of_seqZ Hj%elem_of_seqZ. simpl. lia.
Qed.

Lemma sample_lookup p o :
  heap sample_store !! p = Some o <->
  p = 10001%positive /\ o = mk_robj 1 (RAW (bytes_of_string "1234") 10) \/
  p = 10002%positive /\ o = mk_robj 2 (EMBSTR (bytes_of_string "99")) \/
  exists i, 0 <= i < REDIS_SHARED_INTEGERS /\ p = Z.to_pos (i + 1) /\ o = mk_robj 1 (INT i).
Proof.
  rewrite <- shared_integers_elem. unfold sample_store. cbn [heap].
  rewrite lookup_insert_Some, lookup_insert_Some.
  rewrite <- (elem_of_list_to_map (M := gmap loc)) by apply shared_integers_nodup.
  split; [naive_solver|]. intros [[-> ->]|[[-> ->]|Hp]]; [by left| |].
  - right. split; [done|]. by left.
  - right. assert (p <> 10001%positive /\ p <> 10002%positive) as [H1 H2]; [|naive_solver].
    apply shared_integers_elem in Hp as (i & Hi & -> & _).
    unfold REDIS_SHARED_INTEGERS in Hi. split; lia.
Qed.

Lemma sample_store_ok : store_ok sample_store /\ room sample_store.
Proof.
  split; [split|].
  - intros p o [[-> ->]|[[-> ->]|(i & Hi & -> & ->)]]%sample_lookup.
    + vm_compute. repeat split; discriminate.
    + vm_compute. repeat split; discriminate.
    + unfold REDIS_SHARED_INTEGERS in Hi. unfold wf_val, in_ll, LLONG_MIN, LLONG_MAX, INT32_MAX.
      cbn [val refcount]. lia.
  - intros i Hi. exists (Z.to_pos (i + 1)), (mk_robj 1 (INT i)). split; [|split; [|done]].
    + unfold sample_store, shared_integers. cbn [integers]. unfold getb.
      rewrite (proj2 (Z.leb_le _ _)) by lia.
      rewrite <- list_fmap_compose, list_lookup_fmap, lookup_seqZ_lt by lia. simpl.
      do 2 f_equal. lia.
    + apply sample_lookup. right. right. by exists i.
  - intros p o [[-> ->]|[[-> ->]|(i & Hi & -> & ->)]]%sample_lookup; by vm_compute.
Qed.

(** ** strtoll *)

(** An optional sign, digits, and the value. *)
Definition signed (sg ds : list Z) (v : Z) : Prop :=
  sg = [] /\ Util.val 0 ds = v \/ sg = [43] /\ Util.val 0 ds = v \/ sg = [45] /\ Util.val 0 ds = - v.

Lemma span_isdigit t :
  exists ds rest, span isdigit t = (ds, rest) /\ t = ds ++ rest /\
    Forall (fun c => isdigit c = true) ds /\ (forall c u, rest = c :: u -> isdigit c = false).
Proof.
  induction t as [|c t IH]; [by exists [], []|]. simpl. destruct (isdigit c) eqn:Hc.
  - destruct IH as (ds & rest & -> & -> & Hf & Hr). exists (c :: ds), rest.
    split_and!; [done..|by constructor|done].
  - exists [], (c :: t). split_and!; [done..|]. by intros ? ? [= <- _].
Qed.

Lemma strtoll_raw_cases s :
  isspace (default 0 (head s)) = false ->
  (exists sg ds rest v, s = sg ++ ds ++ rest /\ ds <> [] /\ Forall (fun c => isdigit c = true) ds /\
     signed sg ds v /\ strtoll_raw s = (v, rest)) \/ strtoll_raw s = (0, s).
Proof.
  intros Hsp.
  assert (span isspace s = ([], s)) as Hs.
  { destruct s as [|c s]; [done|]. simpl in *. by rewrite Hsp. }
  assert (forall sg t, s = sg ++ t -> sg = [] \/ sg = [43] \/ sg = [45] ->
    (exists ds rest, span isdigit t = (ds, rest) /\ ds <> []) ->
    exists sg ds rest v, s = sg ++ ds ++ rest /\ ds <> [] /\ Forall (fun c => isdigit c = true) ds /\
     signed sg ds v /\ strtoll_raw s = (v, rest)) as Hd.
  { intros sg t -> Hsg (ds & rest & Hspan & Hne).
    destruct (span_isdigit t) as (ds' & rest' & Hspan' & -> & Hf & Hr).
    assert (ds' = ds /\ rest' = rest) as [-> ->] by (rewrite Hspan in Hspan'; by simplify_eq).
    exists sg, ds, rest, (if decide (sg = [45]) then - Util.val 0 ds else Util.val 0 ds).
    assert (signed sg ds (if decide (sg = [45]) then - Util.val 0 ds else Util.val 0 ds)) as Hsd.
    { unfold signed. destruct Hsg as [->|[->| ->]]; [auto..|]. right. right.
      rewrite decide_True by done. by rewrite Z.opp_involutive. }
    split_and!; [done..|]. apply strtoll_raw_digits; done. }
  destruct s as [|c s]; [by right|].
  destruct (span_isdigit (if (c =? 45) || (c =? 43) then s else c :: s)) as (ds & rest & Hspan & Heq & _).
  destruct ds as [|d ds].
  - right. unfold strtoll_raw. rewrite Hs.
    destruct (c =? 45); simpl in Hspan; [by rewrite Hspan|].
    destruct (c =? 43); by rewrite Hspan.
  - left. destruct (Z.eqb_spec c 45) as [->|]; simpl in Hspan.
    { apply (Hd [45] s); eauto 6. }
    destruct (Z.eqb_spec c 43) as [->|]; simpl in Hspan.
    { apply (Hd [43] s); eauto 6. }
    apply (Hd [] (c :: s)); eauto 6.
Qed.

(** What is read as the integer [n]: a sign and digits up to the end or a NUL
    byte; or nothing before the end or a NUL byte, which is read as 0. *)
Definition long_input (s : list Z) (n : Z) : Prop :=
  (exists sg ds rest, s = sg ++ ds ++ rest /\ ds <> [] /\
     Forall (fun c => isdigit c = true) ds /\ signed sg ds n /\ default 0 (head rest) = 0)
  \/ n = 0 /\ default 0 (head s) = 0.

Lemma getLongLong_string s n :
  (let '(value, eptr) := strtoll_raw s in
   if isspace (default 0 (head s)) || negb (default 0 (head eptr) =? 0)
      || negb (clamp_ll value =? value)
   then None else Some (clamp_ll value)) = Some n <-> long_input s n /\ in_ll n.
Proof.
  assert (forall v, clamp_ll v = v <-> in_ll v) as Hcl.
  { intros v. unfold clamp_ll, in_ll, LLONG_MIN, LLONG_MAX. lia. }
  split.
  - destruct (isspace (default 0 (head s))) eqn:Hsp; [by destruct (strtoll_raw s)|].
    destruct (strtoll_raw_cases s Hsp) as [(sg & ds & rest & v & Hs & Hne & Hds & Hsd & Hraw)|Hraw];
      rewrite Hraw; cbn [orb].
    + destruct (Z.eqb_spec (default 0 (head rest)) 0) as [Hr|]; [|done]. cbn [negb orb].
      destruct (Z.eqb_spec (clamp_ll v) v) as [Hv|]; [|done]. cbn [negb]. intros [= <-].
      rewrite Hv. split; [|by apply Hcl]. left. by exists sg, ds, rest.
    + destruct (Z.eqb_spec (default 0 (head s)) 0) as [Hr|]; [|done]. intros [= <-].
      split; [by right|]. vm_compute. split; discriminate.
  - intros [[(sg & ds & rest & -> & Hne & Hds & Hsd & Hr)|[-> Hs]] Hn].
    + rewrite (strtoll_raw_digits sg ds rest n); [|done|done| |done].
      2: { intros c t ->. simpl in Hr. by subst c. }
      assert (isspace (default 0 (head (sg ++ ds ++ rest))) = false) as ->.
      { destruct Hsd as [[-> _]|[[-> _]|[-> _]]]; [|done..].
        destruct ds as [|d ds]; [done|]. apply Forall_cons in Hds as [Hd _].
        apply isdigit_iff in Hd. unfold is_digit in Hd. simpl. unfold isspace.
        destruct (Z.eqb_spec d 32); [lia|]. destruct (Z.leb_spec d 13); [lia|].
        by rewrite andb_false_r. }
      rewrite Hr. apply Hcl in Hn. by rewrite Hn, !Z.eqb_refl.
    + assert (strtoll_raw s = (0, s)) as ->.
      { destruct s as [|c s]; [done|]. simpl in Hs. by subst c. }
      by rewrite Hs.
Qed.

(** ** Properties *)

(** C21 (functional, type): for every object [p] of a well-formed store,
    [tryObjectEncoding] returns an object with the same string, trading the
    caller's reference to [p] for one to the result: every reference count is
    accounted for, objects that lose their last reference are freed, and the store
    stays well formed.  An unshared object becomes an integer exactly when its
    string is the canonical numeral of a [long]; a shared one is left alone.
    [getDecodedObject] gives a reference to a string-encoded object with the same
    string. *)
Theorem tryObjectEncoding_correct (st : store) (p : loc) (o : robj) :
  store_ok st -> room st -> heap st !! p = Some o ->
  (exists q st' o', tryObjectEncoding st p = Some (q, st') /\ store_ok st' /\
     heap st' !! q = Some o' /\ value (val o') = value (val o) /\
     moves st st' (Some p) (Some q) /\
     (refcount o = 1 ->
      (sdsEncodedObject (val o') = false <-> exists v, in_ll v /\ value (val o) = ll_repr v)) /\
     (1 < refcount o -> q = p /\ st' = st)) /\
  (exists q st' o', getDecodedObject st p = Some (q, st') /\ store_ok st' /\
     heap st' !! q = Some o' /\ sdsEncodedObject (val o') = true /\
     value (val o') = value (val o) /\ moves st st' None (Some q)).
Proof.
  intros Hst Hroom Hp. split; [|by apply getDecodedObject_spec].
  destruct (ok_obj st Hst p o Hp) as [Hwf Hc].
  destruct (sdsEncodedObject (val o)) eqn:Henc.
  2: { exists p, st, o. rewrite (tryObjectEncoding_shared st p o) by auto.
       split_and!; try done; [apply moves_refl|]. intros _. split; [|done]. intros _.
       destruct (val o) as [| |v]; [done..|]. by exists v. }
  destruct (decide (refcount o = 1)) as [Hone|Hmany].
  2: { exists p, st, o. rewrite (tryObjectEncoding_shared st p o) by (auto || (right; lia)).
       split_and!; try done. apply moves_refl. }
  assert (value (val o) = sds_ptr (val o)) as Hs by (by destruct (val o)).
  destruct (string2ll (sds_ptr (val o))) as [v|] eqn:Hnum.
  - apply string2ll_sound in Hnum as [Hr Hv].
    destruct (tryObjectEncoding_int st p o v) as (q & st' & o' & Ht & Hok & Hq & Ho' & Hm); [done..|].
    exists q, st', o'. rewrite Ho', Hs, Hr. split_and!; try done; [|lia]. intros _.
    split; [by exists v|done].
  - assert (forall v, sds_ptr (val o) = ll_repr v -> ~ in_ll v) as Hno.
    { intros v Hr Hv. apply string2ll_complete in Hv. rewrite Hr in Hnum. congruence. }
    destruct (tryObjectEncoding_string st p o) as (q & st' & o' & Ht & Hok & Hq & He & Ho' & Hm); [done..|].
    exists q, st', o'. split_and!; try done; [|lia]. intros _. rewrite He. split; [done|].
    intros (v & Hv & Hr). destruct (Hno v); [congruence|done].
Qed.

Lemma tryObjectEncoding_correct_witness :
  exists q st' o', tryObjectEncoding sample_store 10001%positive = Some (q, st') /\
    heap st' !! q = Some o' /\ value (val o') = bytes_of_string "1234" /\
    sdsEncodedObject (val o') = false.
Proof.
  destruct sample_store_ok as [Hok Hroom].
  destruct (tryObjectEncoding_correct sample_store 10001%positive (mk_robj 1 (RAW (bytes_of_string "1234") 10)))
    as [(q & st' & o' & Ht & _ & Hq & Hv & Hm & He & _) _];
    [exact Hok|exact Hroom|apply sample_lookup; by left|].
  exists q, st', o'. split; [exact Ht|]. split; [exact Hq|]. split; [exact Hv|].
  apply He; [reflexivity|]. exists 1234. split; [vm_compute; split; discriminate|reflexivity].
Defined.

Lemma compareStringObjects_spec (strcoll : list Z -> list Z -> Z) (st : store) (a b : loc) (oa ob : robj) :
  store_ok st -> heap st !! a = Some oa -> heap st !! b = Some ob ->
  exists c, compareStringObjects strcoll st a b = Some c /\ (c ?= 0) = lex (value (val oa)) (value (val ob)).
Proof.
  intros Hst Ha Hb. destruct (ok_obj st Hst a oa Ha) as [Hwa _]. destruct (ok_obj st Hst b ob Hb) as [Hwb _].
  unfold compareStringObjects, compareStringObjectsWithFlags. rewrite Ha, Hb. sbind.
  case_bool_decide as Hab.
  - subst b. assert (ob = oa) as -> by congruence. exists 0. by rewrite lex_refl.
  - by apply compare_values_spec.
Qed.

Lemma equalStringObjects_spec (strcoll : list Z -> list Z -> Z) (st : store) (a b : loc) (oa ob : robj) :
  store_ok st -> heap st !! a = Some oa -> heap st !! b = Some ob ->
  equalStringObjects strcoll st a b = Some (bool_decide (value (val oa) = value (val ob))).
Proof.
  intros Hst Ha Hb. destruct (ok_obj st Hst a oa Ha) as [Hwa _]. destruct (ok_obj st Hst b ob Hb) as [Hwb _].
  destruct (compareStringObjects_spec strcoll st a b oa ob Hst Ha Hb) as (c & Hc & Hl).
  assert ((c =? 0) = bool_decide (value (val oa) = value (val ob))) as Heq.
  { apply eq_bool_prop_intro. rewrite Is_true_true, Z.eqb_eq, bool_decide_spec.
    rewrite <- lex_eq, <- Hl. symmetry. apply Z.compare_eq_iff. }
  unfold equalStringObjects. rewrite Ha, Hb. sbind. rewrite Hc. sbind. rewrite Heq.
  destruct (val oa) as [| |v] eqn:Hva, (val ob) as [| |w] eqn:Hvb; try done.
  simpl in *. f_equal. apply eq_bool_prop_intro. rewrite Is_true_true, Z.eqb_eq, bool_decide_spec.
  split; [by intros ->|]. by apply ll_repr_inj.
Qed.

(** C34 (equivalence): comparing two objects of a well-formed store compares their
    strings byte by byte whatever their encodings (a total order), and the short
    cut of [equalStringObjects] for integers agrees with it. *)
Theorem compareStringObjects_order (strcoll : list Z -> list Z -> Z) (st : store) (a b : loc)
    (oa ob : robj) :
  store_ok st -> heap st !! a = Some oa -> heap st !! b = Some ob ->
  (exists c, compareStringObjects strcoll st a b = Some c /\
     (c ?= 0) = lex (value (val oa)) (value (val ob))) /\
  equalStringObjects strcoll st a b = Some (bool_decide (value (val oa) = value (val ob))).
Proof. intros Hst Ha Hb. split; [by eapply compareStringObjects_spec|by eapply equalStringObjects_spec]. Qed.

Lemma compareStringObjects_order_witness :
  equalStringObjects (fun _ _ => 0) sample_store 10001%positive 1235%positive = Some true /\
  equalStringObjects (fun _ _ => 0) sample_store 10001%positive 10002%positive = Some false.
Proof.
  destruct sample_store_ok as [Hok _]. split.
  - destruct (compareStringObjects_order (fun _ _ => 0) sample_store 10001%positive 1235%positive
      (mk_robj 1 (RAW (bytes_of_string "1234") 10)) (mk_robj 1 (INT 1234))) as [_ ->];
      [exact Hok|apply sample_lookup; by left| |].
    { apply sample_lookup. right. right. exists 1234. split; [by vm_compute|done]. }
    vm_compute. reflexivity.
  - destruct (compareStringObjects_order (fun _ _ => 0) sample_store 10001%positive 10002%positive
      (mk_robj 1 (RAW (bytes_of_string "1234") 10)) (mk_robj 2 (EMBSTR (bytes_of_string "99"))))
      as [_ ->]; [exact Hok|apply sample_lookup; by left|apply sample_lookup; right; by left|].
    vm_compute. reflexivity.
Defined.

(** Which objects the commands accept as integers.  An
    integer-encoded object is; a string is exactly when it is a 64-bit integer
    in decimal, with any sign and leading zeros, up to the end of the string or
    to its first NUL byte.  So what [tryObjectEncoding] encodes is accepted with
    the same value; but so are the empty string (0) and binary strings that
    continue after a NUL. *)
Theorem getLongLongFromObject_iff (v : strval) (n : Z) :
  (getLongLongFromObject (Some v) = Some n <->
   match v with INT w => n = w | _ => long_input (value v) n /\ in_ll n end) /\
  (forall w, in_ll w -> value v = ll_repr w -> wf_val v ->
     getLongLongFromObject (Some v) = Some w /\ getLongFromObjectOrReply (Some v) None = inl w) /\
  getLongLongFromObject (Some (EMBSTR [])) = Some 0 /\
  getLongLongFromObject (Some (EMBSTR [49; 50; 0; 120])) = Some 12.
Proof.
  assert (forall u k, getLongLongFromObject (Some u) = Some k <->
    match u with INT w => k = w | _ => long_input (value u) k /\ in_ll k end) as Hiff.
  { intros [s free|s|w] k; simpl; [apply getLongLong_string..|]. split; congruence. }
  split; [apply Hiff|]. split; [|by vm_compute].
  intros w Hw Hv Hwf.
  assert (getLongLongFromObject (Some v) = Some w) as Hg.
  { apply Hiff. destruct (ll_repr_shape w Hw) as (sg & ds & Hr & Hds & Hne & _ & Hsg).
    assert (long_input (ll_repr w) w) as Hin.
    { left. exists sg, ds, []. rewrite app_nil_r. split; [done|]. split; [done|]. split; [done|].
      split; [|done]. unfold signed. intuition. }
    destruct v as [s free|s|u]; simpl in *; [by rewrite Hv..|].
    symmetry. by apply ll_repr_inj. }
  split; [done|]. unfold getLongFromObjectOrReply, getLongLongFromObjectOrReply. rewrite Hg.
  unfold in_ll, LONG_MIN, LONG_MAX in *.
  rewrite (proj2 (Z.ltb_ge _ _)), Z.gtb_ltb, (proj2 (Z.ltb_ge _ _)) by lia. done.
Qed.
