(* ===== verification/Zskiplist.v ===== *)
(** * t_zset.c: skip lists

    The nodes of one skip list live in a memory, a finite map from addresses to
    [zskiplistNode]s.  Following a NULL or dangling pointer, or reading a level
    that a node does not have, gives [None], as does a failed assertion.  Spans
    are [unsigned int]s and the length an [unsigned long].  Scores are IEEE
    doubles, compared as the language does; the elements are string objects seen
    through the interface [StringObject]. *)

From Stdlib Require Import ZArith Lia Floats.SpecFloat.
From stdpp Require Import base numbers list gmap sorting.
From S2P Require Import Prelude Object.

Open Scope Z_scope.

Definition double : Type := spec_float.
Definition isnan (d : double) : bool := match d with S754_nan => true | _ => false end.

(** What the sorted sets use of string objects: their comparison is the order of
    the strings they stand for, the equality test agrees with it. *)
Class StringObject (O : Type) := {
  ostr : O -> list Z;
  ovalid : O -> Prop;
  ocompare : O -> O -> option Z;
  oequal : O -> O -> option bool;
  ocompare_spec a b : ovalid a -> ovalid b ->
    exists c, ocompare a b = Some c /\ (c ?= 0) = lex (ostr a) (ostr b);
  oequal_spec a b : ovalid a -> ovalid b ->
    oequal a b = Some (bool_decide (ostr a = ostr b));
}.

(** ** Data *)

Definition ZSKIPLIST_MAXLEVEL : Z := 32.

Record zrangespec := mk_range { min : double; max : double; minex : bool; maxex : bool }.

Section Zskiplist.
Context {O : Type} `{StringObject O}.

Record zskiplistNode := mk_node {
  obj : option O;
  score : double;
  backward : option loc;
  level : list (option loc * Z);   (** forward, span *)
}.

Record zskiplist := mk_zsl {
  header : loc;
  tail : option loc;
  length : Z;
  zlevel : Z;
}.

(** [released] collects the objects that [decrRefCount] is called on. *)
Record memory := mk_mem { nodes : gmap loc zskiplistNode; released : list O }.

Definition set_nodes (m : memory) (h : gmap loc zskiplistNode) : memory :=
  mk_mem h (released m).

Definition node_alloc (m : memory) : loc := fresh (dom (nodes m)).

(** [p->level[i]] and its assignment. *)
Definition get_level (h : gmap loc zskiplistNode) (p : loc) (i : Z) : option (option loc * Z) :=
  n ← h !! p; getb (level n) i.
Definition set_level (h : gmap loc zskiplistNode) (p : loc) (i : Z) (l : option loc * Z)
  : option (gmap loc zskiplistNode) :=
  n ← h !! p;
  ls ← setb (level n) i l;
  Some (<[p := mk_node (obj n) (score n) (backward n) ls]> h).
Definition set_backward (h : gmap loc zskiplistNode) (p : loc) (b : option loc)
  : option (gmap loc zskiplistNode) :=
  n ← h !! p;
  Some (<[p := mk_node (obj n) (score n) b (level n)]> h).

(** ** Creation *)

(** The levels are not initialized. *)
Definition zslCreateNode (h : gmap loc zskiplistNode) (x : loc) (lv : Z) (sc : double)
    (o : option O) : gmap loc zskiplistNode :=
  <[x := mk_node o sc None (replicate (Z.to_nat lv) (None, 7))]> h.

(** [for (i = ..; ..; i++)], [n] times. *)
Fixpoint for_levels {A} (body : Z -> A -> option A) (n : nat) (i : Z) (a : A) : option A :=
  match n with
  | Datatypes.O => Some a
  | S n => a ← body i a; for_levels body n (i + 1) a
  end.

Definition zslCreate : option (zskiplist * memory) :=
  let h := 1%positive in
  let ns := zslCreateNode ∅ h ZSKIPLIST_MAXLEVEL (S754_zero false) None in
  ns ← for_levels (fun i ns => set_level ns h i (None, 0)) (Z.to_nat ZSKIPLIST_MAXLEVEL) 0 ns;
  ns ← set_backward ns h None;
  Some (mk_zsl h None 0 1, mk_mem ns []).

Definition zslFreeNode (m : memory) (p : loc) : option memory :=
  n ← nodes m !! p;
  o ← obj n;
  Some (mk_mem (delete p (nodes m)) (released m ++ [o])).

Fixpoint free_loop (fuel : nat) (m : memory) (node : option loc) : option memory :=
  match node with
  | None => Some m
  | Some p =>
      match fuel with
      | Datatypes.O => None
      | S fuel =>
          next ← get_level (nodes m) p 0;
          m ← zslFreeNode m p;
          free_loop fuel m next.1
      end
  end.

Definition zslFree (z : zskiplist) (m : memory) : option memory :=
  node ← get_level (nodes m) (header z) 0;
  free_loop (size (nodes m)) (set_nodes m (delete (header z) (nodes m))) node.1.

(** The values of [random()] are the argument. *)
Fixpoint random_level_loop (rnd : list Z) (lv : Z) : option Z :=
  match rnd with
  | [] => None
  | r :: rnd => if 4 * Z.land r 65535 <? 65535 then random_level_loop rnd (lv + 1) else Some lv
  end.

Definition zslRandomLevel (rnd : list Z) : option Z :=
  lv ← random_level_loop rnd 1;
  Some (if lv <? ZSKIPLIST_MAXLEVEL then lv else ZSKIPLIST_MAXLEVEL).

(** ** Walking down the levels *)

(** The inner loop: go forward on level [i] from [x] while [go] holds of the
    rank and the contents of the next node; [wrap] is the width of the rank. *)
Fixpoint walk (fuel : nat) (wrap : Z -> Z) (go : Z -> zskiplistNode -> option bool)
    (h : gmap loc zskiplistNode) (i : Z) (x : loc) (rank : Z) : option (loc * Z) :=
  l ← get_level h x i;
  match l.1 with
  | None => Some (x, rank)
  | Some f =>
      n ← h !! f;
      b ← go (wrap (rank + l.2)) n;
      if b : bool then
        match fuel with
        | Datatypes.O => None
        | S fuel => walk fuel wrap go h i f (wrap (rank + l.2))
        end
      else Some (x, rank)
  end.

(** The outer loop from level [n - 1] down to 0; [update[i]] and the rank of it
    are the elements of the result. *)
Fixpoint descend (wrap : Z -> Z) (go : Z -> zskiplistNode -> option bool)
    (h : gmap loc zskiplistNode) (n : nat) (x : loc) (rank : Z) : option (list (loc * Z)) :=
  match n with
  | Datatypes.O => Some []
  | S n =>
      r ← walk (size h) wrap go h (Z.of_nat n) x rank;
      rest ← descend wrap go h n r.1 r.2;
      Some (rest ++ [r])
  end.

Definition descend_all (wrap : Z -> Z) (go : Z -> zskiplistNode -> option bool)
    (z : zskiplist) (h : gmap loc zskiplistNode) : option (list (loc * Z)) :=
  descend wrap go h (Z.to_nat (zlevel z)) (header z) 0.

(** The node comes before the element [(sc, o)]; [le]: or is it. *)
Definition node_before (le : bool) (sc : double) (o : O) (n : zskiplistNode) : option bool :=
  if SFltb (score n) sc then Some true
  else if SFeqb (score n) sc then
    o' ← obj n;
    c ← ocompare o' o;
    Some (if le then c <=? 0 else c <? 0)
  else Some false.

(** ** Insertion *)

(** The first loop after the choice of the level: the new levels of the header. *)
Definition raise_level (z : zskiplist) (h : gmap loc zskiplistNode) (us : list (loc * Z))
    (lv : Z) : option (gmap loc zskiplistNode * list (loc * Z) * Z) :=
  if lv >? zlevel z then
    h ← for_levels (fun i h =>
          l ← get_level h (header z) i;
          set_level h (header z) i (l.1, u32 (length z)))
        (Z.to_nat (lv - zlevel z)) (zlevel z) h;
    Some (h, us ++ replicate (Z.to_nat (lv - zlevel z)) (header z, 0), lv)
  else Some (h, us, zlevel z).

Definition link_level (us : list (loc * Z)) (rank0 : Z) (x : loc) (i : Z)
    (h : gmap loc zskiplistNode) : option (gmap loc zskiplistNode) :=
  u ← getb us i;
  ul ← get_level h u.1 i;
  h ← set_level h x i (ul.1, u32 (ul.2 - u32 (rank0 - u.2)));
  set_level h u.1 i (Some x, u32 (u32 (rank0 - u.2) + 1)).

Definition incr_span (us : list (loc * Z)) (i : Z) (h : gmap loc zskiplistNode)
  : option (gmap loc zskiplistNode) :=
  u ← getb us i;
  ul ← get_level h u.1 i;
  set_level h u.1 i (ul.1, u32 (ul.2 + 1)).

(** The address of the new node, the skip list and the memory. *)
Definition zslInsert (rnd : list Z) (z : zskiplist) (m : memory) (sc : double) (o : O)
  : option (loc * zskiplist * memory) :=
  if isnan sc then None
  else
    us ← descend_all u32 (fun _ n => node_before false sc o n) z (nodes m);
    lv ← zslRandomLevel rnd;
    r ← raise_level z (nodes m) us lv;
    let '(h, us, zlv) := r in
    let x := node_alloc (set_nodes m h) in
    let h := zslCreateNode h x lv sc (Some o) in
    u0 ← getb us 0;
    h ← for_levels (link_level us u0.2 x) (Z.to_nat lv) 0 h;
    h ← for_levels (incr_span us) (Z.to_nat (zlv - lv)) lv h;
    h ← set_backward h x (if bool_decide (u0.1 = header z) then None else Some u0.1);
    x0 ← get_level h x 0;
    r ← match x0.1 with
        | Some f => h ← set_backward h f (Some x); Some (h, tail z)
        | None => Some (h, Some x)
        end;
    let '(h, tl) := (r : gmap loc zskiplistNode * option loc) in
    Some (x, mk_zsl (header z) tl (u64 (length z + 1)) zlv, set_nodes m h).

(** ** Deletion *)

Definition unlink_level (us : list (loc * Z)) (x : loc) (i : Z)
    (h : gmap loc zskiplistNode) : option (gmap loc zskiplistNode) :=
  u ← getb us i;
  ul ← get_level h u.1 i;
  if bool_decide (ul.1 = Some x) then
    xl ← get_level h x i;
    set_level h u.1 i (xl.1, u32 (ul.2 + u32 (xl.2 - 1)))
  else set_level h u.1 i (ul.1, u32 (ul.2 - 1)).

(** [while(zsl->level > 1 && ...)]. *)
Fixpoint lower_level (n : nat) (h : gmap loc zskiplistNode) (hd : loc) : option Z :=
  match n with
  | S (S _ as k) =>
      l ← get_level h hd (Z.of_nat k);
      match l.1 with
      | None => lower_level k h hd
      | Some _ => Some (Z.of_nat n)
      end
  | _ => Some (Z.of_nat n)
  end.

Definition zslDeleteNode (z : zskiplist) (m : memory) (x : loc) (us : list (loc * Z))
  : option (zskiplist * memory) :=
  h ← for_levels (unlink_level us x) (Z.to_nat (zlevel z)) 0 (nodes m);
  nx ← h !! x;
  x0 ← get_level h x 0;
  r ← match x0.1 with
      | Some f => h ← set_backward h f (backward nx); Some (h, tail z)
      | None => Some (h, backward nx)
      end;
  let '(h, tl) := (r : gmap loc zskiplistNode * option loc) in
  zlv ← lower_level (Z.to_nat (zlevel z)) h (header z);
  Some (mk_zsl (header z) tl (u64 (length z - 1)) zlv, set_nodes m h).

(** [x->level[0].forward] where [x] is the last node of the walk. *)
Definition after_walk (z : zskiplist) (h : gmap loc zskiplistNode) (us : list (loc * Z))
  : option (option loc) :=
  l ← get_level h (from_option fst (header z) (head us)) 0; Some l.1.

Definition zslDelete (z : zskiplist) (m : memory) (sc : double) (o : O)
  : option (bool * zskiplist * memory) :=
  us ← descend_all id (fun _ n => node_before false sc o n) z (nodes m);
  x ← after_walk z (nodes m) us;
  match x with
  | None => Some (false, z, m)
  | Some x =>
      n ← nodes m !! x;
      o' ← obj n;
      e ← (if SFeqb sc (score n) then oequal o' o else Some false);
      if e : bool then
        r ← zslDeleteNode z m x us;
        m ← zslFreeNode r.2 x;
        Some (true, r.1, m)
      else Some (false, z, m)
  end.

(** ** Ranges of scores *)

Definition zslValueGteMin (value : double) (spec : zrangespec) : bool :=
  if minex spec then SFltb (min spec) value else SFleb (min spec) value.

Definition zslValueLteMax (value : double) (spec : zrangespec) : bool :=
  if maxex spec then SFltb value (max spec) else SFleb value (max spec).

Definition zslIsInRange (z : zskiplist) (m : memory) (range : zrangespec) : option bool :=
  if SFltb (max range) (min range)
     || (SFeqb (min range) (max range) && (minex range || maxex range))
  then Some false
  else
    match tail z with
    | None => Some false
    | Some x =>
        n ← nodes m !! x;
        if negb (zslValueGteMin (score n) range) then Some false
        else
          l ← get_level (nodes m) (header z) 0;
          match l.1 with
          | None => Some false
          | Some x => n ← nodes m !! x; Some (zslValueLteMax (score n) range)
          end
    end.

(** The node found, or NULL. *)
Definition zslFirstInRange (z : zskiplist) (m : memory) (range : zrangespec)
  : option (option loc) :=
  b ← zslIsInRange z m range;
  if negb b then Some None
  else
    us ← descend_all id (fun _ n => Some (negb (zslValueGteMin (score n) range))) z (nodes m);
    x ← after_walk z (nodes m) us;
    x ← x; (* redisAssert(x != NULL) *)
    n ← nodes m !! x;
    Some (if zslValueLteMax (score n) range then Some x else None).

Definition zslLastInRange (z : zskiplist) (m : memory) (range : zrangespec)
  : option (option loc) :=
  b ← zslIsInRange z m range;
  if negb b then Some None
  else
    us ← descend_all id (fun _ n => Some (zslValueLteMax (score n) range)) z (nodes m);
    let x := from_option fst (header z) (head us) in
    n ← nodes m !! x;
    Some (if zslValueGteMin (score n) range then Some x else None).

(** ** Deletion of ranges

    [dictDelete] removes an element from the hash table of the sorted set. *)

Section DeleteRange.
Context {D : Type} (dictDelete : D -> O -> option D).

(** The second loop of the three functions: delete while [go] holds of the
    number of elements deleted so far and of the node. *)
Fixpoint delete_while (fuel : nat) (go : Z -> zskiplistNode -> bool) (us : list (loc * Z))
    (removed : Z) (x : option loc) (z : zskiplist) (m : memory) (d : D)
  : option (Z * zskiplist * memory * D) :=
  match x with
  | None => Some (removed, z, m, d)
  | Some p =>
      n ← nodes m !! p;
      if go removed n then
        match fuel with
        | Datatypes.O => None
        | S fuel =>
            next ← get_level (nodes m) p 0;
            r ← zslDeleteNode z m p us;
            o ← obj n;
            d ← dictDelete d o;
            m ← zslFreeNode r.2 p;
            delete_while fuel go us (u64 (removed + 1)) next.1 r.1 m d
        end
      else Some (removed, z, m, d)
  end.

Definition zslDeleteRangeByScore (z : zskiplist) (m : memory) (range : zrangespec) (d : D)
  : option (Z * zskiplist * memory * D) :=
  us ← descend_all id (fun _ n => Some (if minex range then SFleb (score n) (min range)
                                        else SFltb (score n) (min range))) z (nodes m);
  x ← after_walk z (nodes m) us;
  delete_while (size (nodes m))
    (fun _ n => if maxex range then SFltb (score n) (max range) else SFleb (score n) (max range))
    us 0 x z m d.

(** [traversed] is the rank reached by the walk, plus one, plus the number of
    elements deleted. *)
Definition zslDeleteRangeByRank (z : zskiplist) (m : memory) (start end_ : Z) (d : D)
  : option (Z * zskiplist * memory * D) :=
  us ← descend_all u64 (fun traversed _ => Some (traversed <? start)) z (nodes m);
  x ← after_walk z (nodes m) us;
  let traversed := u64 (from_option snd 0 (head us) + 1) in
  delete_while (size (nodes m)) (fun removed _ => u64 (traversed + removed) <=? end_) us 0 x z m d.
End DeleteRange.

(** ** Ranks *)

(** [None] in the inner option when no level returns. *)
Fixpoint rank_loop (h : gmap loc zskiplistNode) (sc : double) (o : O) (n : nat) (x : loc)
    (rank : Z) : option Z :=
  match n with
  | Datatypes.O => Some 0
  | S n =>
      r ← walk (size h) u64 (fun _ n => node_before true sc o n) h (Z.of_nat n) x rank;
      nx ← h !! r.1;
      e ← match obj nx with Some o' => oequal o' o | None => Some false end;
      if e : bool then Some r.2 else rank_loop h sc o n r.1 r.2
  end.

Definition zslGetRank (z : zskiplist) (m : memory) (sc : double) (o : O) : option Z :=
  rank_loop (nodes m) sc o (Z.to_nat (zlevel z)) (header z) 0.

Fixpoint by_rank_loop (h : gmap loc zskiplistNode) (rank : Z) (n : nat) (x : loc)
    (traversed : Z) : option (option loc) :=
  match n with
  | Datatypes.O => Some None
  | S n =>
      r ← walk (size h) u64 (fun traversed _ => Some (traversed <=? rank)) h (Z.of_nat n) x traversed;
      if r.2 =? rank then Some (Some r.1) else by_rank_loop h rank n r.1 r.2
  end.

Definition zslGetElementByRank (z : zskiplist) (m : memory) (rank : Z) : option (option loc) :=
  by_rank_loop (nodes m) rank (Z.to_nat (zlevel z)) (header z) 0.

End Zskiplist.
