(* ===== verification/ZskiplistFacts.v ===== *)
(** * t_zset.c: the skip lists implement sorted sequences

    The representation invariant of a skip list, the effect of every operation
    on it, and the properties of the module. *)

From Stdlib Require Import ZArith Lia String Floats.SpecFloat.
From stdpp Require Import base numbers list gmap sorting.
From S2P Require Import Prelude Util Object Zskiplist.

Open Scope Z_scope.

(** ** The order of the scores *)

(** A triple whose lexicographic order is the order of the doubles. *)
Definition dkey (d : double) : list Z :=
  match d with
  | S754_zero _ => [0; 0; 0]
  | S754_infinity s => [if s : bool then -2 else 2; 0; 0]
  | S754_finite true m e => [-1; - e; - Zpos m]
  | S754_finite false m e => [1; e; Zpos m]
  | S754_nan => [3; 0; 0]
  end.

Lemma SFcompare_key a b :
  isnan a = false -> isnan b = false -> SFcompare a b = Some (lex (dkey a) (dkey b)).
Proof.
  assert (forall e1 e2 m1 m2, lex [e1; Zpos m1] [e2; Zpos m2]
    = match e1 ?= e2 with Eq => Pos.compare m1 m2 | c => c end) as Hpos.
  { intros. simpl. destruct (e1 ?= e2); [|done..]. change (Zpos m1 ?= Zpos m2) with (Pos.compare m1 m2).
    by destruct (Pos.compare m1 m2). }
  destruct a as [sa|[]| |[] ma ea], b as [sb|[]| |[] mb eb]; try done; intros _ _; cbn [SFcompare].
  - change (dkey (S754_finite true ma ea)) with [-1; - ea; - Zpos ma].
    change (dkey (S754_finite true mb eb)) with [-1; - eb; - Zpos mb].
    f_equal. simpl. rewrite Z.compare_opp, (Z.compare_antisym ea eb).
    destruct (ea ?= eb); simpl; try done.
    change (PosDef.Pos.compare_cont Eq ma mb) with (Pos.compare ma mb).
    by destruct (Pos.compare ma mb).
  - change (dkey (S754_finite false ma ea)) with [1; ea; Zpos ma].
    change (dkey (S754_finite false mb eb)) with [1; eb; Zpos mb].
    f_equal. change (lex [1; ea; Zpos ma] [1; eb; Zpos mb]) with (lex [ea; Zpos ma] [eb; Zpos mb]).
    by rewrite Hpos.
Qed.

Lemma SFltb_key a b : isnan a = false -> isnan b = false ->
  SFltb a b = match lex (dkey a) (dkey b) with Lt => true | _ => false end.
Proof. intros. unfold SFltb. rewrite SFcompare_key by done. by destruct (lex _ _). Qed.

Lemma SFeqb_key a b : isnan a = false -> isnan b = false ->
  SFeqb a b = match lex (dkey a) (dkey b) with Eq => true | _ => false end.
Proof. intros. unfold SFeqb. rewrite SFcompare_key by done. by destruct (lex _ _). Qed.

Lemma SFleb_key a b : isnan a = false -> isnan b = false ->
  SFleb a b = match lex (dkey a) (dkey b) with Gt => false | _ => true end.
Proof. intros. unfold SFleb. rewrite SFcompare_key by done. by destruct (lex _ _). Qed.

Lemma length_dkey d : Datatypes.length (dkey d) = 3%nat.
Proof. by destruct d as [| | |[]]. Qed.

Lemma lex_app a b c d : Datatypes.length a = Datatypes.length b ->
  lex (a ++ c) (b ++ d) = match lex a b with Eq => lex c d | x => x end.
Proof.
  revert b. induction a as [|x a IH]; intros [|y b]; try done. intros [= Hl]. simpl.
  rewrite (IH b Hl). by destruct (x ?= y).
Qed.

(** Two ways to single out an element of a list. *)
Lemma split_cmp {A} (a a' b b' : list A) d d' :
  a ++ d :: b = a' ++ d' :: b' -> (a = a' /\ d = d' /\ b = b') \/ d' ∈ b \/ d ∈ b'.
Proof.
  revert a'. induction a as [|x a IH]; intros [|x' a']; simpl; intros Heq; simplify_eq.
  - by left.
  - right. left. set_solver.
  - right. right. set_solver.
  - destruct (IH a' ltac:(done)) as [(-> & -> & ->)|Hr]; [by left|by right].
Qed.

Section Facts.
Context {O : Type} `{StringObject O}.

(** ** Representation *)

(** An element of the sequence: address, score, object, height. *)
Record nd := mk_nd { na : loc; ns : double; no : O; nh : nat }.

Definition ekey (sc : double) (o : O) : list Z := dkey sc ++ ostr o.
Definition elt (a b : nd) : Prop := lex (ekey (ns a) (no a)) (ekey (ns b) (no b)) = Lt.

Definition tall (i : nat) (d : nd) : bool := (i <? nh d)%nat.
Definition short (i : nat) (t : list nd) : Prop := Forall (fun d => tall i d = false) t.

(** Forward pointer and span on level [i] of a node that [s] follows. *)
Fixpoint fwd_from (i : nat) (k : Z) (s : list nd) : option loc * Z :=
  match s with
  | [] => (None, k)
  | d :: s => if tall i d then (Some (na d), k + 1) else fwd_from i (k + 1) s
  end.
Definition fwd (i : nat) (s : list nd) : option loc * Z := fwd_from i 0 s.

Definition tower (h : nat) (s : list nd) : list (option loc * Z) :=
  (fun i => fwd i s) <$> seq 0 h.

Definition node_of (d : nd) (bw : option loc) (s : list nd) : zskiplistNode (O:=O) :=
  mk_node (Some (no d)) (ns d) bw (tower (nh d) s).

Abbreviation zl z := (Z.to_nat (zlevel z)).

(** The nodes, links and spans of the skip list [z] are those of [s]. *)
Record links (m : memory (O:=O)) (z : zskiplist) (s : list nd) : Prop := {
  rep_hdr : exists hn, nodes m !! header z = Some hn /\ obj hn = None /\
    Datatypes.length (level hn) = 32%nat /\
    (forall i, (i < zl z)%nat -> level hn !! i = Some (fwd i s)) /\
    (forall i, (zl z <= i < 32)%nat -> exists k, level hn !! i = Some (None, k));
  rep_node s1 d s2 : s = s1 ++ d :: s2 ->
    nodes m !! na d = Some (node_of d (na <$> last s1) s2);
  rep_dom : dom (nodes m) = list_to_set (header z :: (na <$> s));
  rep_nodup : NoDup (header z :: (na <$> s));
  rep_tail : tail z = na <$> last s;
  rep_len : length z = zlen s;
  rep_small : zlen s < 4294967296;
  rep_zl : 1 <= zlevel z <= 32;
  rep_heights : Forall (fun d => (1 <= nh d <= zl z)%nat) s;
}.

(** The highest level in use is not empty. *)
Definition exact_level (z : zskiplist) (s : list nd) : Prop :=
  zlevel z = 1 \/ Exists (fun d => nh d = zl z) s.

Definition good (s : list nd) : Prop :=
  Forall (fun d => isnan (ns d) = false /\ ovalid (no d)) s /\ StronglySorted elt s.

Definition zsl_ok (m : memory (O:=O)) (z : zskiplist) (s : list nd) : Prop :=
  links m z s /\ exact_level z s /\ good s.

(** ** Forward links *)

Lemma fwd_from_shift i k s : fwd_from i k s = ((fwd i s).1, k + (fwd i s).2).
Proof.
  unfold fwd. revert k. induction s as [|d s IH]; intros k; cbn [fwd_from]; [simpl; f_equal; lia|].
  destruct (tall i d); [simpl; f_equal; lia|]. rewrite (IH (k + 1)), (IH (0 + 1)). simpl. f_equal. lia.
Qed.

Lemma fwd_short i t s : short i t -> fwd i (t ++ s) = ((fwd i s).1, zlen t + (fwd i s).2).
Proof.
  unfold fwd at 1. intros Ht. rewrite <- (Z.add_0_l (zlen t)). generalize 0 as k.
  induction Ht as [|d t Hd _ IH]; intros k; simpl.
  - rewrite fwd_from_shift, zlen_nil. f_equal. lia.
  - rewrite Hd, IH, zlen_cons. f_equal. lia.
Qed.

Lemma fwd_tall i t d s : short i t -> tall i d = true -> fwd i (t ++ d :: s) = (Some (na d), zlen t + 1).
Proof. intros Ht Hd. rewrite fwd_short by done. unfold fwd. simpl. rewrite Hd. f_equal. Qed.

Lemma fwd_nil i t : short i t -> fwd i t = (None, zlen t).
Proof. intros Ht. rewrite <- (app_nil_r t) at 1. rewrite fwd_short by done. simpl. f_equal. lia. Qed.

(** A list has no tall element, or a first one. *)
Lemma short_dec i t :
  short i t \/ exists a d b, t = a ++ d :: b /\ short i a /\ tall i d = true.
Proof.
  induction t as [|d t IH]; [by left; constructor|]. destruct (tall i d) eqn:Hd.
  - right. exists [], d, t. by repeat constructor.
  - destruct IH as [Ht|(a & e & b & -> & Ha & He)]; [left; by constructor|].
    right. exists (d :: a), e, b. by repeat constructor.
Qed.

(** ... or a last one. *)
Lemma short_dec_last i t :
  short i t \/ exists a d b, t = a ++ d :: b /\ tall i d = true /\ short i b.
Proof.
  induction t as [|d t IH]; [by left; constructor|].
  destruct IH as [Ht|(a & e & b & -> & He & Hb)].
  - destruct (tall i d) eqn:Hd; [right; by exists [], d, t|left; by constructor].
  - right. by exists (d :: a), e, b.
Qed.

Lemma lookup_tower h s i : (i < h)%nat -> tower h s !! i = Some (fwd i s).
Proof. intros. unfold tower. rewrite list_lookup_fmap, lookup_seq_lt by done. done. Qed.

Lemma length_tower h s : Datatypes.length (tower h s) = h.
Proof. unfold tower. by rewrite length_fmap, length_seq. Qed.

(** ** Positions

    [x] is the node after the elements [p] (the header when there are none) and
    has level [i]. *)
Definition at_pos (z : zskiplist) (i : nat) (p : list nd) (x : loc) : Prop :=
  (p = [] /\ x = header z /\ (i < zl z)%nat) \/
  exists p' d, p = p' ++ [d] /\ x = na d /\ (i < nh d)%nat.

(** The last position of [s1] that has level [i], with its rank. *)
Definition is_upd (z : zskiplist) (i : nat) (s1 : list nd) (u : loc * Z) : Prop :=
  exists p t, s1 = p ++ t /\ u.2 = zlen p /\ at_pos z i p u.1 /\ short i t.

Lemma at_pos_level m z s i p x t :
  links m z s -> at_pos z i p x -> s = p ++ t ->
  get_level (nodes m) x (Z.of_nat i) = Some (fwd i t).
Proof.
  intros Hl [(-> & -> & Hi)|(p' & d & -> & -> & Hi)] ->; unfold get_level.
  - destruct (rep_hdr _ _ _ Hl) as (hn & -> & _ & _ & Hlv & _). sbind.
    rewrite getb_lookup. by apply Hlv.
  - rewrite (rep_node _ _ _ Hl p' d t) by (by rewrite <- app_assoc). sbind. simpl.
    rewrite getb_lookup. by apply lookup_tower.
Qed.

Lemma at_pos_le z i j p x : (j <= i)%nat -> at_pos z i p x -> at_pos z j p x.
Proof.
  intros Hj [(-> & -> & Hi)|(p' & d & -> & -> & Hi)]; [left|right].
  - split_and!; [done..|lia].
  - exists p', d. split_and!; [done..|lia].
Qed.

(** What the walks are asked to decide: [go] holds of the elements of [s1], with
    their ranks, and not of those of [s2]. *)
Definition splits (h : gmap loc zskiplistNode) (go : Z -> zskiplistNode (O:=O) -> option bool)
    (s1 s2 : list nd) : Prop :=
  (forall a d b n, s1 = a ++ d :: b -> h !! na d = Some n -> go (zlen a + 1) n = Some true) /\
  (forall a d b n, s2 = a ++ d :: b -> h !! na d = Some n ->
     go (zlen s1 + zlen a + 1) n = Some false).

Lemma walk_spec m z s1 s2 i go wrap :
  links m z (s1 ++ s2) -> splits (nodes m) go s1 s2 ->
  (forall k, 0 <= k < 4294967296 -> wrap k = k) ->
  forall fuel p t x, s1 = p ++ t -> at_pos z i p x -> (Datatypes.length t <= fuel)%nat ->
  exists u, walk fuel wrap go (nodes m) (Z.of_nat i) x (zlen p) = Some u /\ is_upd z i s1 u.
Proof.
  intros Hl [Hgo1 Hgo2] Hwrap. pose proof (rep_small _ _ _ Hl) as Hsmall.
  induction fuel as [|fuel IH]; intros p t x Hs Hat Hf;
    (destruct (short_dec i t) as [Ht|(a & d & b & -> & Ha & Hd)];
     [exists (x, zlen p); split; [|by exists p, t]|]);
    pose proof Hs as Hs'; subst s1; rewrite <- ?app_assoc in Hl; cbn [walk].
  1,3: rewrite (at_pos_level _ _ _ _ _ _ _ Hl Hat eq_refl); sbind;
    rewrite fwd_short by done;
    destruct (short_dec i s2) as [H2|(a2 & d2 & b2 & -> & Ha2 & Hd2)];
    [by rewrite fwd_nil|];
    rewrite fwd_tall by done; cbn [fst snd];
    rewrite (rep_node _ _ _ Hl (p ++ t ++ a2) d2 b2) by (by rewrite <- !app_assoc); sbind;
    rewrite Hwrap by zlia;
    replace (zlen p + (zlen t + (zlen a2 + 1))) with (zlen (p ++ t) + zlen a2 + 1) by zlia;
    erewrite Hgo2; [done|done|];
    rewrite (rep_node _ _ _ Hl (p ++ t ++ a2) d2 b2) by (by rewrite <- !app_assoc); done.
  - rewrite length_app in Hf. simpl in Hf. lia.
  - rewrite (at_pos_level _ _ _ _ _ _ _ Hl Hat eq_refl); sbind.
    cbn [app]. rewrite fwd_tall by done. cbn [fst snd].
    assert (nodes m !! na d = Some (node_of d (na <$> last (p ++ a)) (b ++ s2))) as Hn.
    { apply (rep_node _ _ _ Hl). by rewrite <- !app_assoc. }
    rewrite Hn. sbind. rewrite Hwrap by zlia.
    replace (zlen p + (zlen a + 1)) with (zlen (p ++ a) + 1) by zlia.
    erewrite Hgo1; [|by rewrite app_assoc|done]. sbind.
    replace (zlen (p ++ a) + 1) with (zlen (p ++ a ++ [d])) by zlia.
    apply (IH (p ++ a ++ [d]) b (na d)).
    + by rewrite <- !app_assoc.
    + right. exists (p ++ a), d. rewrite <- app_assoc. split_and!; [done..|].
      by apply Nat.ltb_lt.
    + rewrite length_app in Hf. simpl in Hf. lia.
Qed.

Lemma is_upd_at z i s1 u : is_upd z i s1 u -> exists p t, s1 = p ++ t /\ u.2 = zlen p /\
  at_pos z i p u.1.
Proof. intros (p & t & ? & ? & ? & _). eauto. Qed.

Lemma links_size m z s : links m z s -> (Datatypes.length s < size (nodes m))%nat.
Proof.
  intros Hl. rewrite <- size_dom, (rep_dom _ _ _ Hl), size_list_to_set by apply (rep_nodup _ _ _ Hl).
  simpl. rewrite length_fmap. lia.
Qed.

Lemma descend_spec m z s1 s2 go wrap :
  links m z (s1 ++ s2) -> splits (nodes m) go s1 s2 ->
  (forall k, 0 <= k < 4294967296 -> wrap k = k) ->
  forall n p t x, s1 = p ++ t -> at_pos z (pred n) p x ->
  exists us, descend wrap go (nodes m) n x (zlen p) = Some us /\ Datatypes.length us = n /\
    forall i, (i < n)%nat -> exists u, us !! i = Some u /\ is_upd z i s1 u.
Proof.
  intros Hl Hgo Hwrap. pose proof (links_size _ _ _ Hl) as Hsz. rewrite length_app in Hsz.
  induction n as [|n IH]; intros p t x Hs Hat; cbn [descend].
  { exists []. split_and!; [done..|]. intros; lia. }
  destruct (walk_spec m z s1 s2 n go wrap Hl Hgo Hwrap (size (nodes m)) p t x) as (u & -> & Hu).
  { done. } { done. } { subst s1. rewrite length_app in Hsz. lia. }
  sbind. destruct (is_upd_at _ _ _ _ Hu) as (p' & t' & Hs' & -> & Hat').
  destruct (IH p' t' u.1 Hs') as (us & -> & Hlen & Hus).
  { apply (at_pos_le z n); [lia|done]. }
  sbind. exists (us ++ [u]). split; [done|]. split; [rewrite length_app; simpl; lia|].
  intros i Hi. destruct (decide (i = n)) as [->|Hne].
  - exists u. split; [|done]. rewrite <- Hlen. by apply list_lookup_middle.
  - destruct (Hus i) as (v & Hv & Hv'); [lia|]. exists v. split; [|done].
    by apply lookup_app_l_Some.
Qed.

Lemma descend_all_spec m z s1 s2 go wrap :
  links m z (s1 ++ s2) -> splits (nodes m) go s1 s2 ->
  (forall k, 0 <= k < 4294967296 -> wrap k = k) ->
  exists us, descend_all wrap go z (nodes m) = Some us /\ Datatypes.length us = zl z /\
    forall i, (i < zl z)%nat -> exists u, us !! i = Some u /\ is_upd z i s1 u.
Proof.
  intros Hl Hgo Hwrap. pose proof (rep_zl _ _ _ Hl).
  apply (descend_spec m z s1 s2 go wrap Hl Hgo Hwrap (zl z) [] s1 (header z) eq_refl).
  left. split_and!; [done..|lia].
Qed.

(** On level 0 there is no short element. *)
Lemma short_0 m z p s t : links m z s -> s = p ++ t -> forall a b, t = a ++ b -> short 0 a -> a = [].
Proof.
  intros Hl -> a b -> Ha. destruct a as [|d a]; [done|]. exfalso.
  pose proof (rep_heights _ _ _ Hl) as Hh. rewrite !Forall_app in Hh.
  destruct Hh as (_ & Hh & _). apply Forall_cons in Hh as [Hh _]. apply Forall_cons in Ha as [Ha _].
  unfold tall in Ha. apply Nat.ltb_ge in Ha. lia.
Qed.

Lemma is_upd_0 m z s1 s2 u :
  links m z (s1 ++ s2) -> is_upd z 0 s1 u -> u.2 = zlen s1 /\ at_pos z 0 s1 u.1.
Proof.
  intros Hl (p & t & -> & Hr & Hat & Ht).
  assert (t = []) as ->.
  { apply (short_0 m z p _ (t ++ s2) Hl) with (b := s2); [by rewrite <- app_assoc|done..]. }
  by rewrite app_nil_r.
Qed.

(** The last position is unique: the header when all of [s1] is short, the node
    of [d] when all is short after [d]. *)
Lemma is_upd_hdr z i s1 u :
  NoDup (header z :: (na <$> s1)) -> is_upd z i s1 u -> (u.1 = header z <-> short i s1) /\
  (short i s1 -> u.2 = 0).
Proof.
  intros Hnd (p & t & -> & -> & [(-> & -> & Hi)|(p' & d & -> & -> & Hi)] & Ht); [done|].
  apply NoDup_cons in Hnd as [Hnin _]. split.
  - split.
    + intros Heq. exfalso. apply Hnin. rewrite <- Heq. rewrite !fmap_app. set_solver.
    + intros [[_ Hd%Forall_cons]%Forall_app _]%Forall_app. destruct Hd as [Hd _].
      unfold tall in Hd. apply Nat.ltb_ge in Hd. lia.
  - intros [[_ Hd%Forall_cons]%Forall_app _]%Forall_app. destruct Hd as [Hd _].
    unfold tall in Hd. apply Nat.ltb_ge in Hd. lia.
Qed.

Lemma is_upd_node z i p d t u :
  NoDup (header z :: (na <$> p ++ d :: t)) -> tall i d = true ->
  is_upd z i (p ++ d :: t) u ->
  (u.1 = na d <-> short i t) /\ (short i t -> u.2 = zlen p + 1).
Proof.
  intros Hnd Hd (q & r & Heq & -> & Hat & Hr).
  destruct Hat as [(-> & -> & _)|(q' & e & -> & -> & He)].
  { exfalso. simpl in Heq. subst r. apply Forall_app in Hr as [_ [Hr _]%Forall_cons]. congruence. }
  apply NoDup_cons in Hnd as [_ Hnd]. rewrite fmap_app, fmap_cons in Hnd.
  apply NoDup_app in Hnd as (_ & _ & [Hnin _]%NoDup_cons).
  assert (tall i e = true) as He' by (by apply Nat.ltb_lt).
  rewrite <- app_assoc in Heq. destruct (split_cmp _ _ _ _ _ _ Heq) as [(-> & -> & ->)|[Het|Hdr]].
  - split; [done|]. intros _. zlia.
  - assert (~ short i t) as Hns.
    { intros Ht. by rewrite (proj1 (Forall_forall _ _) Ht e Het) in He'. }
    split; [|done]. split; [|done]. intros Hna. exfalso. apply Hnin. rewrite <- Hna.
    by apply list_elem_of_fmap_2.
  - exfalso. by rewrite (proj1 (Forall_forall _ _) Hr d Hdr) in Hd.
Qed.

(** The last position on level [i] is the node [x] after [p] exactly when all is
    short in between. *)
Lemma is_upd_unique z i p t x u :
  NoDup (header z :: (na <$> p ++ t)) -> at_pos z i p x -> is_upd z i (p ++ t) u ->
  (u.1 = x <-> short i t) /\ (short i t -> u.2 = zlen p).
Proof.
  intros Hnd [(-> & -> & Hi)|(p' & d & -> & -> & Hi)] Hu.
  - by apply is_upd_hdr.
  - rewrite <- app_assoc in Hnd, Hu. replace (zlen (p' ++ [d])) with (zlen p' + 1) by zlia.
    apply (is_upd_node z i p' d t); [done| |done]. by apply Nat.ltb_lt.
Qed.

(** The address of a position is not that of a later element. *)
Lemma at_pos_fresh z i p x s :
  NoDup (header z :: (na <$> p ++ s)) -> at_pos z i p x -> x ∉ na <$> s.
Proof.
  intros [Hnin Hnd]%NoDup_cons. rewrite fmap_app in Hnd, Hnin. apply NoDup_app in Hnd as (_ & Hdisj & _).
  intros [(-> & -> & _)|(p' & d & -> & -> & _)]; [set_solver|].
  apply Hdisj. rewrite fmap_app. set_solver.
Qed.

(** ** Loops over the levels *)

Definition lv_node (f : nat -> option loc * Z -> option loc * Z) (n : zskiplistNode (O:=O))
  : zskiplistNode (O:=O) :=
  mk_node (obj n) (score n) (backward n) (imap f (level n)).

Definition lvl_map (f : loc -> nat -> option loc * Z -> option loc * Z)
    (h : gmap loc (zskiplistNode (O:=O))) : gmap loc (zskiplistNode (O:=O)) :=
  map_imap (fun p n => Some (lv_node (f p) n)) h.

Lemma lookup_lvl_map f h p : lvl_map f h !! p = lv_node (f p) <$> h !! p.
Proof. unfold lvl_map. rewrite map_lookup_imap. by destruct (h !! p). Qed.

Lemma dom_lvl_map f h : dom (lvl_map f h) = dom h.
Proof.
  apply set_eq. intros p. rewrite !elem_of_dom, lookup_lvl_map. by rewrite fmap_is_Some.
Qed.

Lemma lvl_map_ext f g h : (forall p i l, f p i l = g p i l) -> lvl_map f h = lvl_map g h.
Proof.
  intros Hfg. apply map_eq. intros p. rewrite !lookup_lvl_map. destruct (h !! p) as [n|]; [|done].
  simpl. unfold lv_node. do 2 f_equal. apply imap_ext. intros. apply Hfg.
Qed.

Lemma lvl_map_id h : lvl_map (fun _ _ l => l) h = h.
Proof.
  apply map_eq. intros p. rewrite lookup_lvl_map. destruct (h !! p) as [n|]; [|done].
  simpl. unfold lv_node. destruct n as [o sc b ls]. simpl. do 2 f_equal.
  apply list_eq. intros i. rewrite list_lookup_imap. by destruct (ls !! i).
Qed.

Lemma get_level_lvl_map f h p i :
  get_level (lvl_map f h) p (Z.of_nat i) = f p i <$> get_level h p (Z.of_nat i).
Proof.
  unfold get_level. rewrite lookup_lvl_map. destruct (h !! p) as [n|]; [|done]. sbind.
  rewrite !getb_lookup. simpl. by rewrite list_lookup_imap.
Qed.

Lemma set_level_lvl_map f h p i l l0 :
  get_level h p (Z.of_nat i) = Some l0 ->
  set_level (lvl_map f h) p (Z.of_nat i) l
  = Some (lvl_map (fun q j l' => if decide (q = p /\ j = i) then l else f q j l') h).
Proof.
  unfold get_level, set_level. rewrite lookup_lvl_map.
  destruct (h !! p) as [n|] eqn:Hp; [|done]. sbind. rewrite getb_lookup. intros Hi.
  pose proof (lookup_lt_Some _ _ _ Hi) as Hlt.
  unfold setb. rewrite (proj2 (Z.leb_le _ _)) by lia. simpl.
  rewrite (proj2 (Z.ltb_lt _ _)) by (unfold zlen; rewrite length_imap; lia). simpl.
  rewrite Nat2Z.id. f_equal. apply map_eq. intros q. rewrite lookup_lvl_map.
  destruct (decide (q = p)) as [->|Hne].
  - rewrite lookup_insert_eq, Hp. simpl. f_equal. unfold lv_node. f_equal.
    apply list_eq. intros j. rewrite list_lookup_imap. destruct (decide (j = i)) as [->|Hj].
    + rewrite list_lookup_insert_eq by (by rewrite length_imap). rewrite Hi. simpl.
      by rewrite decide_True.
    + rewrite list_lookup_insert_ne, list_lookup_imap by done.
      destruct (level n !! j); [|done]. simpl. rewrite decide_False by naive_solver. done.
  - rewrite lookup_insert_ne, lookup_lvl_map by done. destruct (h !! q) as [n'|]; [|done].
    simpl. f_equal. unfold lv_node. f_equal. apply imap_ext. intros j l' _.
    rewrite decide_False by naive_solver. done.
Qed.

(** A loop whose body at [i] changes only level [i], by [F i]. *)
Lemma for_levels_spec body (F : nat -> loc -> option loc * Z -> option loc * Z) h n :
  forall a f0,
  (forall i f, (a <= i < a + n)%nat -> (forall p l, f p i l = l) ->
     body (Z.of_nat i) (lvl_map f h)
     = Some (lvl_map (fun p j l => if decide (j = i) then F i p l else f p j l) h)) ->
  (forall p j l, (a <= j < a + n)%nat -> f0 p j l = l) ->
  for_levels body n (Z.of_nat a) (lvl_map f0 h)
  = Some (lvl_map (fun p j l => if decide (a <= j < a + n)%nat then F j p l else f0 p j l) h).
Proof.
  induction n as [|n IH]; intros a f0 Hbody Hf0; simpl.
  - f_equal. apply lvl_map_ext. intros p j l. rewrite decide_False by lia. done.
  - rewrite (Hbody a f0) by (lia || (intros; apply Hf0; lia)). sbind.
    replace (Z.of_nat a + 1) with (Z.of_nat (S a)) by lia. rewrite IH.
    + f_equal. apply lvl_map_ext. intros p j l.
      destruct (decide (j = a)) as [->|Hj].
      * rewrite decide_False by lia. by rewrite decide_True by lia.
      * destruct (decide (S a <= j < S a + n)%nat); [by rewrite decide_True by lia|].
        by rewrite decide_False by lia.
    + intros i f Hi Hf. apply Hbody; [lia|done].
    + intros p j l Hj. rewrite decide_False by lia. apply Hf0. lia.
Qed.

Lemma for_levels_spec0 body (F : nat -> loc -> option loc * Z -> option loc * Z) h n a :
  (forall i f, (a <= i < a + n)%nat -> (forall p l, f p i l = l) ->
     body (Z.of_nat i) (lvl_map f h)
     = Some (lvl_map (fun p j l => if decide (j = i) then F i p l else f p j l) h)) ->
  for_levels body n (Z.of_nat a) h
  = Some (lvl_map (fun p j l => if decide (a <= j < a + n)%nat then F j p l else l) h).
Proof.
  intros Hbody. rewrite <- (lvl_map_id h) at 1. by apply for_levels_spec.
Qed.

(** The update of a single level of a single node. *)
Lemma set_one f h q i l l0 F :
  get_level h q (Z.of_nat i) = Some l0 -> (forall p l, f p i l = l) ->
  (forall p l', F p l' = if decide (p = q) then l else l') ->
  set_level (lvl_map f h) q (Z.of_nat i) l
  = Some (lvl_map (fun p j l' => if decide (j = i) then F p l' else f p j l') h).
Proof.
  intros Hl Hf HF. rewrite (set_level_lvl_map _ _ _ _ _ l0) by done. f_equal.
  apply lvl_map_ext. intros p j l'. destruct (decide (j = i)) as [->|].
  - rewrite HF, Hf. destruct (decide (p = q)); [by rewrite decide_True|].
    by rewrite decide_False by naive_solver.
  - by rewrite decide_False by naive_solver.
Qed.

(** ** Insertion *)

(** What the walk leaves in [update] and [rank]. *)
Definition updates (z : zskiplist) (s1 : list nd) (us : list (loc * Z)) : Prop :=
  Datatypes.length us = zl z /\
  forall i, (i < zl z)%nat -> exists u, us !! i = Some u /\ is_upd z i s1 u.

Lemma fwd_span i s : 0 <= (fwd i s).2 <= zlen s.
Proof.
  destruct (short_dec i s) as [Hs|(a & d & b & -> & Ha & Hd)].
  - rewrite fwd_nil by done. simpl. zlia.
  - rewrite fwd_tall by done. simpl. zlia.
Qed.

Lemma short_ge m z s : links m z s -> forall i, (zl z <= i)%nat -> short i s.
Proof.
  intros Hl i Hi. eapply Forall_impl; [apply (rep_heights _ _ _ Hl)|].
  intros d Hd. apply Nat.ltb_ge. simpl in *. lia.
Qed.

Lemma short_app i a b : short i (a ++ b) <-> short i a /\ short i b.
Proof. apply Forall_app. Qed.

Definition with_zlevel (z : zskiplist) (lv : Z) : zskiplist :=
  mk_zsl (header z) (tail z) (length z) lv.

Lemma at_pos_raise z lv i p x : zlevel z <= lv -> at_pos z i p x -> at_pos (with_zlevel z lv) i p x.
Proof.
  intros Hlv [(-> & -> & Hi)|?]; [left|by right]. split_and!; [done..|]. simpl. lia.
Qed.

Lemma raise_level_spec m z s1 s2 us lv :
  links m z (s1 ++ s2) -> updates z s1 us -> 1 <= lv <= 32 ->
  exists h us' zlv, raise_level z (nodes m) us lv = Some (h, us', zlv) /\
    zlv = Z.max lv (zlevel z) /\ (us' !! 0%nat = us !! 0%nat) /\
    links (set_nodes m h) (with_zlevel z zlv) (s1 ++ s2) /\
    updates (with_zlevel z zlv) s1 us' /\ dom h = dom (nodes m).
Proof.
  intros Hl [Hlen Hus] Hlv. pose proof (rep_zl _ _ _ Hl) as Hzl. unfold raise_level.
  destruct (Z.gtb_spec lv (zlevel z)) as [Hgt|Hle].
  2: { exists (nodes m), us, (zlevel z). split; [done|]. split; [lia|]. split; [done|].
       destruct m, z. by split. }
  destruct (rep_hdr _ _ _ Hl) as (hn & Hhn & Hobj & Hln & Hlv1 & Hlv2).
  set (F := fun (i : nat) p (l : option loc * Z) =>
    if decide (p = header z) then (None : option loc, u32 (length z)) else l).
  pose proof (for_levels_spec0 (fun i h => l ← get_level h (header z) i;
    set_level h (header z) i (l.1, u32 (length z))) F (nodes m) (Z.to_nat (lv - zlevel z)) (zl z)) as Hloop.
  rewrite Z2Nat.id in Hloop by lia. rewrite Hloop; clear Hloop.
  2: { intros i f Hi Hf. destruct (Hlv2 i) as [k Hk]; [lia|].
       assert (get_level (nodes m) (header z) (Z.of_nat i) = Some (None, k)) as Hg.
       { unfold get_level. rewrite Hhn. sbind. by rewrite getb_lookup. }
       rewrite get_level_lvl_map, Hg. sbind. rewrite Hf. cbn [fst].
       by apply (set_one _ _ _ _ _ (None, k)). }
  sbind. eexists _, _, _. split; [done|]. split; [lia|].
  split. { rewrite lookup_app_l; [done|lia]. }
  assert (forall p n, nodes m !! p = Some n -> p <> header z ->
    lv_node (fun j l => if decide (zl z <= j < zl z + Z.to_nat (lv - zlevel z))%nat then F j p l else l) n = n) as Hid.
  { intros p n Hp Hne. destruct n as [o sc b ls]. unfold lv_node. simpl. f_equal.
    apply list_eq. intros j. rewrite list_lookup_imap. destruct (ls !! j); [|done]. simpl.
    unfold F. rewrite (decide_False (P := p = header z)) by done. by case_decide. }
  split; [|split].
  - pose proof Hl as Hl'. destruct Hl as [_ Hnode Hdom Hnd Htl Hlength Hsm _ Hh]. split; simpl; try done.
    + exists (lv_node (fun j l => if decide (zl z <= j < zl z + Z.to_nat (lv - zlevel z))%nat then F j (header z) l else l) hn).
      rewrite lookup_lvl_map, Hhn. split; [done|]. split; [done|].
      split; [simpl; by rewrite length_imap|]. simpl. split.
      * intros i Hi. rewrite list_lookup_imap. destruct (decide (i < zl z)%nat) as [Hlt|Hge].
        -- rewrite Hlv1 by done. simpl. by rewrite decide_False by lia.
        -- destruct (Hlv2 i) as [k ->]; [lia|]. simpl. rewrite decide_True by lia. unfold F.
           rewrite decide_True by done. rewrite fwd_nil by (apply (short_ge _ _ _ Hl'); lia).
           rewrite Hlength, u32_small; [done|]. pose proof (zlen_nonneg (s1 ++ s2)). lia.
      * intros i Hi. rewrite list_lookup_imap. destruct (Hlv2 i) as [k ->]; [lia|].
        exists k. simpl. by rewrite decide_False by lia.
    + intros a d b Hs. rewrite lookup_lvl_map, (Hnode a d b Hs). simpl. f_equal.
      apply (Hid (na d)); [by apply Hnode|]. intros Heq.
      apply NoDup_cons in Hnd as [Hnin _]. apply Hnin. rewrite <- Heq, Hs, fmap_app. set_solver.
    + by rewrite dom_lvl_map.
    + eapply Forall_impl; [exact Hh|]. simpl. intros d Hd. lia.
  - split.
    + rewrite length_app, length_replicate, Hlen. simpl. lia.
    + simpl. intros i Hi. destruct (decide (i < zl z)%nat) as [Hlt|Hge].
      * destruct (Hus i Hlt) as (u & Hu & (p & t & Hs & Hr & Hat & Ht)). exists u.
        split; [by apply lookup_app_l_Some|]. exists p, t. split_and!; try done.
        apply at_pos_raise; [lia|done].
      * exists (header z, 0). split.
        { rewrite lookup_app_r by lia. apply lookup_replicate. split; [done|lia]. }
        exists [], s1. split_and!; [done..| |].
        -- left. split_and!; [done..|simpl; lia].
        -- by destruct (proj1 (short_app i s1 s2) (short_ge _ _ _ Hl i ltac:(lia))).
  - apply dom_lvl_map.
Qed.

Lemma get_level_dom (h : gmap loc (zskiplistNode (O:=O))) p i l : get_level h p i = Some l -> is_Some (h !! p).
Proof. unfold get_level. destruct (h !! p); [by eauto|done]. Qed.

(** The levels that the two loops of [zslInsert] write. *)
Definition link_F (us : list (loc * Z)) (rank0 : Z) (x : loc) (s2 : list nd) (i : nat) (p : loc)
    (l : option loc * Z) : option loc * Z :=
  match us !! i with
  | Some u =>
      if decide (p = x) then fwd i s2
      else if decide (p = u.1) then (Some x, rank0 - u.2 + 1) else l
  | None => l
  end.

Definition incr_F (h : gmap loc (zskiplistNode (O:=O))) (us : list (loc * Z)) (i : nat) (p : loc)
    (l : option loc * Z) : option loc * Z :=
  match us !! i with
  | Some u =>
      match get_level h u.1 (Z.of_nat i) with
      | Some l0 => if decide (p = u.1) then (l0.1, l0.2 + 1) else l
      | None => l
      end
  | None => l
  end.

Definition insert_F h us rank0 x s2 (lv : nat) (p : loc) (i : nat) (l : option loc * Z)
  : option loc * Z :=
  if decide (i < lv)%nat then link_F us rank0 x s2 i p l
  else if decide (i < Datatypes.length us)%nat then incr_F h us i p l else l.

Lemma update_level m z s1 s2 us i :
  links m z (s1 ++ s2) -> updates z s1 us -> (i < zl z)%nat ->
  exists u p t, us !! i = Some u /\ s1 = p ++ t /\ u.2 = zlen p /\ at_pos z i p u.1 /\ short i t /\
    get_level (nodes m) u.1 (Z.of_nat i) = Some ((fwd i s2).1, zlen t + (fwd i s2).2).
Proof.
  intros Hl [_ Hus] Hi. destruct (Hus i Hi) as (u & Hu & (p & t & -> & Hr & Hat & Ht)).
  exists u, p, t. split_and!; try done. rewrite <- app_assoc in Hl.
  rewrite (at_pos_level _ _ _ _ _ _ _ Hl Hat eq_refl). by rewrite fwd_short.
Qed.

Lemma insert_loops m z s1 s2 us lv x sc o u0 :
  links m z (s1 ++ s2) -> updates z s1 us -> 1 <= lv <= zlevel z -> nodes m !! x = None ->
  zlen (s1 ++ s2) + 1 < 4294967296 -> us !! 0%nat = Some u0 ->
  let hB := zslCreateNode (nodes m) x lv sc (Some o) in
  (h ← for_levels (link_level us u0.2 x) (Z.to_nat lv) 0 hB;
   for_levels (incr_span us) (Z.to_nat (zlevel z - lv)) lv h)
  = Some (lvl_map (insert_F (nodes m) us u0.2 x s2 (Z.to_nat lv)) hB).
Proof.
  intros Hl Hus Hlv Hx Hsm Hu0 hB. pose proof (rep_zl _ _ _ Hl) as Hzl.
  assert (u0.2 = zlen s1) as Hr0.
  { destruct Hus as [_ Hus]. destruct (Hus 0%nat) as (u & Hu & Hup); [lia|].
    assert (u = u0) as -> by congruence. by apply (is_upd_0 m z s1 s2 u0 Hl). }
  assert (forall p i, p <> x -> get_level hB p i = get_level (nodes m) p i) as HB.
  { intros p i Hne. unfold get_level, hB, zslCreateNode. by rewrite lookup_insert_ne. }
  assert (forall i, (i < Z.to_nat lv)%nat -> get_level hB x (Z.of_nat i) = Some (None, 7)) as HBx.
  { intros i Hi. unfold get_level, hB, zslCreateNode. rewrite lookup_insert_eq. sbind.
    rewrite getb_lookup. simpl. by apply lookup_replicate. }
  change 0 with (Z.of_nat 0). rewrite (for_levels_spec0 _ (link_F us u0.2 x s2)).
  2: { intros i f Hi Hf. unfold link_level. rewrite getb_lookup.
       destruct (update_level _ _ _ _ _ i Hl Hus) as (u & p & t & Hu & Hs1 & Hr & Hat & Ht & Hg); [lia|].
       assert (u.1 <> x) as Hne.
       { intros Heq. rewrite Heq in Hg. apply get_level_dom in Hg. rewrite Hx in Hg. by destruct Hg. }
       rewrite Hu. sbind. rewrite get_level_lvl_map, HB, Hg by done. sbind. rewrite Hf.
       cbn [fst snd]. rewrite (set_level_lvl_map _ _ _ _ _ _ (HBx i ltac:(lia))). sbind.
       rewrite (set_level_lvl_map _ _ _ _ _ ((fwd i s2).1, zlen t + (fwd i s2).2));
         [|by rewrite HB].
       f_equal. apply lvl_map_ext. intros q j l. unfold link_F.
       destruct (decide (j = i)) as [->|Hj]; [|by rewrite !decide_False by naive_solver].
       pose proof (fwd_span i s2). rewrite Hu, Hf, Hr0, Hr. subst s1.
       rewrite !(u32_small (zlen (p ++ t) - zlen p)) by zlia.
       destruct (decide (q = x)) as [->|Hqx].
       + rewrite (decide_False (P := x = u.1 /\ i = i)) by naive_solver.
         rewrite decide_True by done. rewrite u32_small by zlia.
         destruct (fwd i s2) as [f2 k2]. simpl. f_equal. zlia.
       + destruct (decide (q = u.1)) as [->|Hqu].
         * rewrite decide_True by done. rewrite u32_small by zlia. done.
         * by rewrite !decide_False by naive_solver. }
  sbind. replace (Z.of_nat 0) with 0 by done.
  match goal with |- for_levels ?b ?n _ ?h = _ =>
    replace (for_levels b n lv h) with (for_levels b n (Z.of_nat (Z.to_nat lv)) h)
      by (f_equal; lia) end.
  rewrite (for_levels_spec _ (incr_F (nodes m) us)); [| |intros; by rewrite decide_False by lia].
  2: { intros i f Hi Hf. unfold incr_span. rewrite getb_lookup.
       destruct (update_level _ _ _ _ _ i Hl Hus) as (u & p & t & Hu & Hs1 & Hr & Hat & Ht & Hg); [lia|].
       assert (u.1 <> x) as Hne.
       { intros Heq. rewrite Heq in Hg. apply get_level_dom in Hg. rewrite Hx in Hg. by destruct Hg. }
       rewrite Hu. sbind. rewrite get_level_lvl_map, HB, Hg by done. sbind. rewrite Hf.
       cbn [fst snd]. pose proof (fwd_span i s2). subst s1. rewrite u32_small by zlia.
       apply (set_one _ _ _ _ _ ((fwd i s2).1, zlen t + (fwd i s2).2)); [by rewrite HB|done|].
       intros q l'. unfold incr_F. rewrite Hu, Hg. done. }
  f_equal. apply lvl_map_ext. intros q j l. unfold insert_F. destruct Hus as [Hlen _].
  destruct (decide (j < Z.to_nat lv)%nat).
  - rewrite decide_False by lia. by rewrite decide_True by lia.
  - rewrite (decide_False (P := (0 <= j < 0 + Z.to_nat lv)%nat)) by lia.
    destruct (decide (j < Datatypes.length us)%nat).
    + by rewrite decide_True by lia.
    + by rewrite decide_False by lia.
Qed.

Lemma NoDup_prefix (hd : loc) (a b : list nd) :
  NoDup (hd :: (na <$> a ++ b)) -> NoDup (hd :: (na <$> a)).
Proof.
  rewrite fmap_app, app_comm_cons. intros Hnd. by apply NoDup_app in Hnd as [? _].
Qed.

Lemma insert_F_at m z s1 s2 us i p t a xd :
  links m z (s1 ++ s2) -> updates z s1 us -> s1 = p ++ t -> at_pos z i p a -> (i < zl z)%nat ->
  a <> na xd ->
  insert_F (nodes m) us (zlen s1) (na xd) s2 (nh xd) a i (fwd i (t ++ s2)) = fwd i (t ++ xd :: s2).
Proof.
  intros Hl Hus Hs1 Hat Hi Hax.
  destruct (update_level _ _ _ _ _ i Hl Hus Hi) as (u & p' & t' & Hu & Hs1' & Hr & Hat' & Ht' & Hg).
  pose proof (NoDup_prefix _ _ _ (rep_nodup _ _ _ Hl)) as Hnd.
  assert (is_upd z i (p ++ t) u) as Hup by (exists p', t'; by rewrite <- Hs1).
  rewrite Hs1 in Hnd. destruct (is_upd_unique z i p t a u Hnd Hat Hup) as [Hiff Hrank].
  assert (zlen t = zlen s1 - zlen p) as Hlt by (rewrite Hs1; zlia).
  assert (zlen t' = zlen s1 - zlen p') as Hlt1 by (rewrite Hs1'; zlia).
  unfold insert_F, link_F, incr_F. rewrite Hu, Hg. destruct Hus as [Hlen _].
  destruct (short_dec i t) as [Ht|(c & d & b & -> & Hc & Hd)].
  - rewrite (Hrank Ht), !(decide_True (P := a = u.1)) by (symmetry; by apply Hiff).
    assert (zlen t' = zlen t) as Hlt' by (rewrite (Hrank Ht) in Hr; lia).
    destruct (decide (i < nh xd)%nat) as [Hlt2|Hge].
    + rewrite decide_False by done. rewrite fwd_tall; [|done|by apply Nat.ltb_lt]. f_equal. lia.
    + rewrite decide_True by lia. replace (t ++ xd :: s2) with ((t ++ [xd]) ++ s2) by (by rewrite <- app_assoc).
      rewrite (fwd_short i (t ++ [xd])); [cbn [fst snd]; f_equal; rewrite zlen_app, Hlt'; change (zlen [xd]) with 1; lia|].
      apply short_app. split; [done|]. constructor; [|constructor]. apply Nat.ltb_ge. lia.
  - assert (u.1 <> a) as Hne.
    { intros Heq. apply Hiff in Heq. apply short_app in Heq as [_ [Hd' _]%Forall_cons]. congruence. }
    rewrite <- !app_assoc. cbn [app]. rewrite !fwd_tall by done.
    repeat case_decide; congruence.
Qed.

Lemma insert_F_after m z s1 s2 us i d r0 x lv l :
  links m z (s1 ++ s2) -> updates z s1 us -> d ∈ s2 -> na d <> x ->
  insert_F (nodes m) us r0 x s2 lv (na d) i l = l.
Proof.
  intros Hl Hus Hd Hdx. unfold insert_F, link_F, incr_F.
  assert (forall u, us !! i = Some u -> na d <> u.1) as Hne.
  { intros u Hu Heq. destruct Hus as [Hlen Hus].
    pose proof (lookup_lt_Some _ _ _ Hu) as Hi. rewrite Hlen in Hi.
    destruct (Hus i Hi) as (u' & Hu' & (p & t & -> & Hr & Hat & Ht)).
    assert (u' = u) as -> by congruence.
    pose proof (rep_nodup _ _ _ Hl) as Hnd. rewrite <- app_assoc in Hnd.
    apply (at_pos_fresh _ _ _ _ _ Hnd Hat). rewrite <- Heq, fmap_app. set_solver. }
  destruct (us !! i) as [u|] eqn:Hu; [|by repeat case_decide].
  rewrite ?(decide_False (P := na d = x)) by done.
  specialize (Hne u eq_refl). rewrite !(decide_False (P := na d = u.1)) by done.
  destruct (get_level _ _ _); by repeat case_decide.
Qed.

Lemma insert_F_above m z s1 us i p r0 x s2 lv l :
  updates z s1 us -> (zl z <= i)%nat -> (lv <= zl z)%nat ->
  insert_F (nodes m) us r0 x s2 lv p i l = l.
Proof. intros [Hlen _] Hi Hlv. unfold insert_F. by rewrite !decide_False by lia. Qed.

Lemma imap_tower f h s s' :
  (forall i, (i < h)%nat -> f i (fwd i s) = fwd i s') -> imap f (tower h s) = tower h s'.
Proof.
  intros Hf. apply list_eq. intros i. rewrite list_lookup_imap.
  destruct (decide (i < h)%nat) as [Hi|Hi].
  - rewrite !lookup_tower by done. simpl. by rewrite Hf.
  - by rewrite !lookup_ge_None_2 by (rewrite length_tower; lia).
Qed.

(** Where an element of a list with [x] in the middle can be. *)
Lemma split3 {A} (s1 s2 a b : list A) x d :
  s1 ++ x :: s2 = a ++ d :: b ->
  (exists t, s1 = a ++ d :: t /\ b = t ++ x :: s2) \/ (a = s1 /\ d = x /\ b = s2) \/
  (exists c, s2 = c ++ d :: b /\ a = s1 ++ x :: c).
Proof.
  revert a. induction s1 as [|y s1 IH]; intros [|y' a]; simpl; intros Heq; simplify_eq.
  - by right; left.
  - right; right. by exists a.
  - left. by exists s1.
  - destruct (IH a ltac:(done)) as [(t & -> & ->)|[(-> & -> & ->)|(c & -> & ->)]]; eauto 10.
Qed.

Definition with_backward (n : zskiplistNode (O:=O)) (b : option loc) : zskiplistNode (O:=O) :=
  mk_node (obj n) (score n) b (level n).

Lemma set_backward_Some h p n b :
  h !! p = Some n -> set_backward h p b = Some (<[p := with_backward n b]> h).
Proof. unfold set_backward. intros ->. done. Qed.

Lemma last_snoc_fmap (s : list nd) d : na <$> last (s ++ [d]) = Some (na d).
Proof. by rewrite last_snoc. Qed.

(** The address of a node before the new one. *)
Lemma node_ne m z s1 s2 x a d t :
  links m z (s1 ++ s2) -> nodes m !! x = None -> s1 ++ s2 = a ++ d :: t -> na d <> x.
Proof.
  intros Hl Hx Hs Heq. pose proof (rep_node _ _ _ Hl a d t Hs) as Hn. congruence.
Qed.

Section InsertLinks.
Context (m : memory (O:=O)) (z : zskiplist) (s1 s2 : list nd) (us : list (loc * Z)) (xd : nd).
Hypothesis Hl : links m z (s1 ++ s2).
Hypothesis Hus : updates z s1 us.
Hypothesis Hx : nodes m !! na xd = None.
Hypothesis Hh : (1 <= nh xd <= zl z)%nat.
Hypothesis Hsm : zlen (s1 ++ s2) + 1 < 4294967296.

(** The memory after the loops over the levels, and after the pointers backward. *)
Definition heap_linked : gmap loc (zskiplistNode (O:=O)) :=
  lvl_map (insert_F (nodes m) us (zlen s1) (na xd) s2 (nh xd))
    (zslCreateNode (nodes m) (na xd) (Z.of_nat (nh xd)) (ns xd) (Some (no xd))).

Definition heap_final : gmap loc (zskiplistNode (O:=O)) :=
  let h := <[na xd := node_of xd (na <$> last s1) s2]> heap_linked in
  match s2 with
  | [] => h
  | d :: _ => alter (fun n => with_backward n (Some (na xd))) (na d) h
  end.

Lemma heap_linked_new : heap_linked !! na xd = Some (node_of xd None s2).
Proof.
  unfold heap_linked, zslCreateNode. rewrite lookup_lvl_map, lookup_insert_eq. simpl.
  unfold lv_node, node_of. simpl. do 2 f_equal. rewrite Nat2Z.id. apply list_eq. intros i.
  rewrite list_lookup_imap. destruct (decide (i < nh xd)%nat) as [Hi|Hi].
  - rewrite lookup_replicate_2, lookup_tower by done. simpl. unfold insert_F, link_F.
    rewrite (decide_True (P := (i < nh xd)%nat)) by done.
    destruct Hus as [_ Hus']. destruct (Hus' i) as (u & -> & _); [lia|].
    by rewrite decide_True.
  - rewrite !lookup_ge_None_2; [done|rewrite length_tower; lia|rewrite length_replicate; lia].
Qed.

Lemma heap_linked_old p : p <> na xd ->
  heap_linked !! p
  = lv_node (insert_F (nodes m) us (zlen s1) (na xd) s2 (nh xd) p) <$> nodes m !! p.
Proof.
  intros Hne. unfold heap_linked, zslCreateNode. rewrite lookup_lvl_map.
  by rewrite lookup_insert_ne.
Qed.

Lemma heap_final_other p : p <> na xd -> (forall d t, s2 = d :: t -> p <> na d) ->
  heap_final !! p = heap_linked !! p.
Proof.
  intros Hne Hd. unfold heap_final. destruct s2 as [|d t].
  - by rewrite lookup_insert_ne.
  - rewrite lookup_alter_ne by (by apply not_eq_sym, (Hd d t)). by rewrite lookup_insert_ne.
Qed.

Lemma heap_final_node a d b : s1 ++ xd :: s2 = a ++ d :: b ->
  heap_final !! na d = Some (node_of d (na <$> last a) b).
Proof.
  intros Hs. pose proof (rep_nodup _ _ _ Hl) as Hnd. apply NoDup_cons in Hnd as [Hnin Hnd].
  destruct (split3 _ _ _ _ _ _ Hs) as [(t & Hs1 & ->)|[(-> & -> & ->)|(c & Hs2 & ->)]].
  - assert (s1 ++ s2 = a ++ d :: t ++ s2) as Hs' by (by rewrite Hs1, <- app_assoc).
    assert (na d <> na xd) as Hne by (eapply node_ne; eauto).
    rewrite heap_final_other; [|done|].
    2: { intros d2 t2 -> Heq. rewrite Hs', !fmap_app in Hnd. simpl in Hnd.
         apply NoDup_app in Hnd as (_ & _ & Hnd). apply NoDup_cons in Hnd as [Hnd _].
         apply Hnd. rewrite Heq, fmap_app. set_solver. }
    rewrite heap_linked_old, (rep_node _ _ _ Hl a d (t ++ s2)) by done. simpl. f_equal.
    unfold lv_node, node_of. simpl. f_equal. apply imap_tower. intros i Hi.
    apply (insert_F_at m z s1 s2 us i (a ++ [d]) t); try done.
    + by rewrite <- app_assoc.
    + right. by exists a, d.
    + pose proof (rep_heights _ _ _ Hl) as Hhs. rewrite Hs' in Hhs.
      apply Forall_app in Hhs as [_ [Hd _]%Forall_cons]. simpl in Hd. lia.
  - unfold heap_final. destruct s2 as [|d2 t2]; [by rewrite lookup_insert_eq|].
    rewrite lookup_alter_ne; [by rewrite lookup_insert_eq|].
    eapply (node_ne m z s1 (d2 :: t2)); eauto.
  - assert (s1 ++ s2 = (s1 ++ c) ++ d :: b) as Hs' by (by rewrite Hs2, <- app_assoc).
    assert (na d <> na xd) as Hne by (eapply node_ne; eauto).
    assert (heap_linked !! na d = Some (node_of d (na <$> last (s1 ++ c)) b)) as Hlk.
    { rewrite heap_linked_old, (rep_node _ _ _ Hl _ _ _ Hs') by done. simpl. f_equal.
      unfold lv_node, node_of. simpl. f_equal. apply imap_tower. intros i Hi.
      apply (insert_F_after m z s1 s2 us); try done. rewrite Hs2. set_solver. }
    destruct c as [|d2 c].
    + unfold heap_final. rewrite Hs2. simpl. rewrite lookup_alter_eq, lookup_insert_ne by done.
      rewrite Hlk. simpl. by rewrite last_snoc_fmap.
    + rewrite heap_final_other; [|done|].
      2: { intros d' t' Hs2' Heq. rewrite Hs2 in Hs2'. simplify_list_eq.
           rewrite Hs2 in Hnd. apply NoDup_app in Hnd as (_ & _ & Hnd).
           simpl in Hnd. apply NoDup_cons in Hnd as [Hnd _]. apply Hnd.
           rewrite <- Heq, fmap_app. set_solver. }
      rewrite Hlk. do 2 f_equal.
      replace (s1 ++ xd :: d2 :: c) with ((s1 ++ [xd]) ++ d2 :: c) by (by rewrite <- app_assoc).
      by rewrite !last_app_cons.
Qed.
Lemma heap_final_hdr : heap_final !! header z
  = lv_node (insert_F (nodes m) us (zlen s1) (na xd) s2 (nh xd) (header z)) <$> nodes m !! header z.
Proof.
  destruct (rep_hdr _ _ _ Hl) as (hn & Hhn & _).
  pose proof (rep_nodup _ _ _ Hl) as Hnd. apply NoDup_cons in Hnd as [Hnin _].
  assert (header z <> na xd) by congruence.
  rewrite heap_final_other; [by apply heap_linked_old|done|].
  intros d t -> Heq. apply Hnin. rewrite Heq, fmap_app. set_solver.
Qed.

Lemma dom_heap_final : dom heap_final = {[na xd]} ∪ dom (nodes m).
Proof.
  unfold heap_final, heap_linked, zslCreateNode.
  destruct s2; rewrite ?dom_alter_L, dom_insert_L, dom_lvl_map, dom_insert_L; set_solver.
Qed.

Lemma links_insert rel :
  links (mk_mem heap_final rel)
    (mk_zsl (header z) (na <$> last (s1 ++ xd :: s2)) (length z + 1) (zlevel z)) (s1 ++ xd :: s2).
Proof.
  pose proof (rep_zl _ _ _ Hl) as Hzl. pose proof (rep_nodup _ _ _ Hl) as Hnd.
  split; cbn [nodes header tail length zlevel].
  - destruct (rep_hdr _ _ _ Hl) as (hn & Hhn & Hobj & Hln & Hlv1 & Hlv2).
    exists (lv_node (insert_F (nodes m) us (zlen s1) (na xd) s2 (nh xd) (header z)) hn).
    rewrite heap_final_hdr, Hhn. split; [done|]. split; [done|].
    split; [simpl; by rewrite length_imap|]. cbn [level lv_node]. split.
    + intros i Hi. rewrite list_lookup_imap, Hlv1 by done. cbn [fmap option_fmap option_map].
      f_equal. apply (insert_F_at m z s1 s2 us i [] s1); try done; [by left|]. congruence.
    + intros i Hi. destruct (Hlv2 i Hi) as [k Hk]. exists k.
      rewrite list_lookup_imap, Hk. cbn [fmap option_fmap option_map]. f_equal.
      apply (insert_F_above m z s1); [done|lia..].
  - intros a d b Hs. by apply heap_final_node.
  - rewrite dom_heap_final, (rep_dom _ _ _ Hl), !fmap_app, fmap_cons.
    rewrite !list_to_set_cons, !list_to_set_app_L, list_to_set_cons. set_solver.
  - rewrite fmap_app, fmap_cons. rewrite fmap_app in Hnd.
    assert (na xd ∉ header z :: (na <$> s1) ++ (na <$> s2)) as Hfresh.
    { intros Hin. apply not_elem_of_dom in Hx. apply Hx. rewrite (rep_dom _ _ _ Hl).
      apply elem_of_list_to_set. by rewrite fmap_app. }
    rewrite <- Permutation_middle, Permutation_swap. by constructor.
  - done.
  - rewrite (rep_len _ _ _ Hl). zlia.
  - zlia.
  - done.
  - pose proof (rep_heights _ _ _ Hl) as Hhs. apply Forall_app in Hhs as [? ?].
    apply Forall_app. split; [done|]. by constructor.
Qed.
End InsertLinks.

Lemma random_level_range rnd lv : zslRandomLevel rnd = Some lv -> 1 <= lv <= 32.
Proof.
  assert (forall rnd k, 1 <= k -> forall lv, random_level_loop rnd k = Some lv -> 1 <= lv) as Hloop.
  { clear. induction rnd as [|r rnd IH]; intros k Hk lv; simpl; [done|].
    case_match; [apply IH; lia|]. intros [= <-]. done. }
  unfold zslRandomLevel, ZSKIPLIST_MAXLEVEL. destruct (random_level_loop rnd 1) as [k|] eqn:E; [|done].
  apply Hloop in E; [|lia]. sbind. intros [= <-]. destruct (Z.ltb_spec k 32); lia.
Qed.

(** The pointers backward of [zslInsert]. *)
Lemma set_backward_links m z s1 s2 us xd :
  links m z (s1 ++ s2) -> updates z s1 us -> nodes m !! na xd = None -> (1 <= nh xd <= zl z)%nat ->
  exists h1 x0, set_backward (heap_linked m s1 s2 us xd) (na xd) (na <$> last s1) = Some h1 /\
    get_level h1 (na xd) 0 = Some x0 /\
    match x0.1 with
    | Some f => h ← set_backward h1 f (Some (na xd)); Some (h, tail z)
    | None => Some (h1, Some (na xd))
    end = Some (heap_final m s1 s2 us xd, na <$> last (s1 ++ xd :: s2)).
Proof.
  intros Hl Hus Hx Hh. unfold set_backward at 1.
  rewrite (heap_linked_new m z s1 s2 us xd) by done. sbind.
  eexists _, (fwd 0 s2). split; [done|]. split.
  { unfold get_level. rewrite lookup_insert_eq. sbind. cbn [level node_of].
    change 0 with (Z.of_nat 0). rewrite getb_lookup. apply lookup_tower. lia. }
  unfold heap_final, node_of. cbn [obj score level].
  destruct s2 as [|d t] eqn:Hs2; [by rewrite last_snoc_fmap|].
  assert (fwd 0 (d :: t) = (Some (na d), 1)) as ->.
  { pose proof (rep_heights _ _ _ Hl) as Hhs. apply Forall_app in Hhs as [_ [Hd _]%Forall_cons].
    apply (fwd_tall 0 [] d t); [constructor|]. apply Nat.ltb_lt. lia. }
  cbn [fst]. assert (na d <> na xd) as Hne by (eapply (node_ne m z s1 (d :: t)); eauto).
  unfold set_backward. rewrite lookup_insert_ne by done.
  rewrite (heap_linked_old m), (rep_node _ _ _ Hl s1 d t) by done. sbind. f_equal. f_equal.
  - apply map_eq. intros q. destruct (decide (q = na d)) as [->|Hq].
    + rewrite lookup_insert_eq, lookup_alter_eq, lookup_insert_ne by done.
      rewrite (heap_linked_old m), (rep_node _ _ _ Hl s1 d t) by done. done.
    + by rewrite lookup_insert_ne, lookup_alter_ne by done.
  - rewrite (rep_tail _ _ _ Hl). by rewrite !last_app_cons, last_cons_cons.
Qed.

Lemma at_pos_0_last m z s1 s2 x :
  links m z (s1 ++ s2) -> at_pos z 0 s1 x ->
  (if bool_decide (x = header z) then None else Some x) = na <$> last s1 /\
  (s1 = [] -> x = header z).
Proof.
  intros Hl [(-> & -> & _)|(p & d & -> & -> & _)].
  - by rewrite bool_decide_eq_true_2.
  - rewrite last_snoc_fmap. split; [|by destruct p].
    rewrite bool_decide_eq_false_2; [done|]. intros Heq.
    pose proof (rep_nodup _ _ _ Hl) as [Hnin _]%NoDup_cons. apply Hnin.
    rewrite <- Heq, !fmap_app. set_solver.
Qed.

Lemma exact_raise m z s lv xd :
  links m z s -> exact_level z s -> Z.of_nat (nh xd) = lv ->
  forall s1 s2 ln tl, s = s1 ++ s2 ->
  exact_level (mk_zsl (header z) tl ln (Z.max lv (zlevel z))) (s1 ++ xd :: s2).
Proof.
  intros Hl Hex Hlv s1 s2 ln tl ->. pose proof (rep_zl _ _ _ Hl). unfold exact_level in *.
  cbn [zlevel]. destruct (decide (zlevel z <= lv)).
  - right. apply Exists_app. right. left. lia.
  - destruct Hex as [Hone|Hex].
    + left. destruct (decide (nh xd = 0)%nat); lia.
    + right. rewrite Z.max_r by lia. apply Exists_app in Hex.
      apply Exists_app. destruct Hex; [by left|right; by right].
Qed.

Lemma zslInsert_links rnd m z s1 s2 sc o lv :
  links m z (s1 ++ s2) -> exact_level z (s1 ++ s2) ->
  splits (nodes m) (fun _ n => node_before false sc o n) s1 s2 ->
  isnan sc = false -> zslRandomLevel rnd = Some lv -> zlen (s1 ++ s2) + 1 < 4294967296 ->
  exists xd z' m', zslInsert rnd z m sc o = Some (na xd, z', m') /\
    ns xd = sc /\ no xd = o /\ nh xd = Z.to_nat lv /\ released m' = released m /\
    links m' z' (s1 ++ xd :: s2) /\ exact_level z' (s1 ++ xd :: s2).
Proof.
  intros Hl Hex Hgo Hnan Hrnd Hsm. pose proof (random_level_range _ _ Hrnd) as Hlv.
  unfold zslInsert. rewrite Hnan.
  destruct (descend_all_spec m z s1 s2 _ u32 Hl Hgo) as (us & -> & Hus).
  { intros k Hk. by apply u32_small. }
  sbind. rewrite Hrnd. sbind.
  destruct (raise_level_spec m z s1 s2 us lv Hl Hus Hlv)
    as (h & us' & zlv & -> & Hzlv & _ & Hl' & Hus' & Hdom). sbind.
  set (x := node_alloc (set_nodes m h)).
  assert (h !! x = None) as Hx by (apply not_elem_of_dom, is_fresh).
  pose (xd := mk_nd x sc o (Z.to_nat lv)). pose proof (rep_zl _ _ _ Hl) as Hzl.
  destruct Hus' as [Hlen' Hus'']. destruct (Hus'' 0%nat) as (u0 & Hu0 & Hup0); [simpl; lia|].
  assert (updates (with_zlevel z zlv) s1 us') as Hus' by done.
  replace (getb us' 0) with (us' !! 0%nat) by (symmetry; apply (getb_lookup us' 0)).
  rewrite Hu0. sbind.
  destruct (is_upd_0 _ _ _ _ _ Hl' Hup0) as [Hr0 Hat0].
  match goal with |- context [for_levels (link_level us' u0.2 x) ?n ?i ?h] =>
    destruct (for_levels (link_level us' u0.2 x) n i h) as [h1|] eqn:Hloop1 end;
    pose proof (insert_loops _ _ _ _ _ lv x sc o u0 Hl' Hus') as Hloops;
    cbn [zlevel with_zlevel nodes set_nodes] in Hloops;
    (lapply Hloops; [clear Hloops; intros Hloops|lia]);
    specialize (Hloops Hx ltac:(lia) Hu0); rewrite Hloop1 in Hloops; [|done].
  sbind. cbn [mbind option_bind] in Hloops. rewrite Hloops. sbind. rewrite Hr0.
  destruct (at_pos_0_last _ _ _ _ _ Hl' Hat0) as [Hbw _]. cbn [header with_zlevel] in Hbw.
  rewrite Hbw.
  destruct (set_backward_links (set_nodes m h) (with_zlevel z zlv) s1 s2 us' xd Hl' Hus' Hx)
    as (h2 & x0 & Hb1 & Hx0 & Hb2). { simpl. lia. }
  unfold heap_linked in Hb1. cbn [na ns no nh xd] in Hb1. rewrite Z2Nat.id in Hb1 by lia.
  cbn [nodes set_nodes] in Hb1. rewrite Hb1. sbind.
  cbn [na xd] in Hx0, Hb2. rewrite Hx0. sbind. cbn [tail with_zlevel] in Hb2. rewrite Hb2. sbind.
  pose proof (links_insert (set_nodes m h) (with_zlevel z zlv) s1 s2 us' xd Hl' Hus' Hx
    ltac:(simpl; lia) Hsm (released m)) as Hfin.
  cbn [header length zlevel with_zlevel] in Hfin.
  exists xd. eexists _, _. split; [done|]. split_and!; try done.
  - rewrite u64_small; [exact Hfin|]. pose proof (zlen_nonneg (s1 ++ s2)).
    rewrite (rep_len _ _ _ Hl). lia.
  - rewrite Hzlv. apply (exact_raise m z (s1 ++ s2)); try done. simpl. lia.
Qed.

(** ** Deletion *)

(** The part of [updates] that the deletions use; it survives them. *)
Definition updates_on (z : zskiplist) (s1 : list nd) (us : list (loc * Z)) : Prop :=
  forall i, (i < zl z)%nat -> exists u, us !! i = Some u /\ is_upd z i s1 u.

Section DeleteLinks.
Context (m : memory (O:=O)) (z : zskiplist) (s1 s2 : list nd) (us : list (loc * Z)) (xd : nd).
Hypothesis Hl : links m z (s1 ++ xd :: s2).
Hypothesis Hus : updates_on z s1 us.

Definition unlink_F (i : nat) (p : loc) (l : option loc * Z) : option loc * Z :=
  match us !! i with
  | Some u =>
      if decide (p = u.1) then
        match get_level (nodes m) u.1 (Z.of_nat i) with
        | Some l0 => if decide (i < nh xd)%nat then ((fwd i s2).1, l0.2 - 1 + (fwd i s2).2)
                     else (l0.1, l0.2 - 1)
        | None => l
        end
      else l
  | None => l
  end.

Definition unlink_G (p : loc) (i : nat) (l : option loc * Z) : option loc * Z :=
  if decide (i < zl z)%nat then unlink_F i p l else l.

Definition heap_unlinked : gmap loc (zskiplistNode (O:=O)) := lvl_map unlink_G (nodes m).

Definition heap_deleted : gmap loc (zskiplistNode (O:=O)) :=
  match s2 with
  | [] => heap_unlinked
  | d :: _ => alter (fun n => with_backward n (na <$> last s1)) (na d) heap_unlinked
  end.

Lemma delete_level i : (i < zl z)%nat ->
  exists u p t, us !! i = Some u /\ s1 = p ++ t /\ u.2 = zlen p /\ at_pos z i p u.1 /\ short i t /\
    (u.1 ∉ na <$> (xd :: s2)) /\
    get_level (nodes m) u.1 (Z.of_nat i) = Some (fwd i (t ++ xd :: s2)).
Proof.
  intros Hi. destruct (Hus i Hi) as (u & Hu & (p & t & -> & Hr & Hat & Ht)).
  pose proof Hl as Hl'. rewrite <- app_assoc in Hl'. pose proof (rep_nodup _ _ _ Hl') as Hnd.
  exists u, p, t. split_and!; try done.
  - intros Hin. apply (at_pos_fresh _ _ _ _ _ Hnd Hat). rewrite fmap_app. set_solver.
  - apply (at_pos_level _ _ _ _ _ _ _ Hl' Hat eq_refl).
Qed.

Lemma fwd_unlink i t : short i t ->
  fwd i (t ++ s2)
  = (if decide (i < nh xd)%nat then ((fwd i s2).1, (fwd i (t ++ xd :: s2)).2 - 1 + (fwd i s2).2)
     else ((fwd i (t ++ xd :: s2)).1, (fwd i (t ++ xd :: s2)).2 - 1)).
Proof.
  intros Ht. rewrite (fwd_short i t s2) by done. destruct (decide (i < nh xd)%nat) as [Hi|Hi].
  - rewrite fwd_tall; [|done|by apply Nat.ltb_lt]. cbn [snd]. f_equal. lia.
  - replace (t ++ xd :: s2) with ((t ++ [xd]) ++ s2) by (by rewrite <- app_assoc).
    rewrite (fwd_short i (t ++ [xd])).
    + cbn [fst snd]. rewrite zlen_app. change (zlen [xd]) with 1. f_equal. lia.
    + apply short_app. split; [done|]. constructor; [|constructor]. apply Nat.ltb_ge. lia.
Qed.

Lemma unlink_loop :
  for_levels (unlink_level us (na xd)) (zl z) 0 (nodes m) = Some heap_unlinked.
Proof.
  change 0 with (Z.of_nat 0). rewrite (for_levels_spec0 _ unlink_F).
  - unfold heap_unlinked. f_equal. apply lvl_map_ext. intros p j l. unfold unlink_G.
    destruct (decide (j < zl z)%nat).
    + by rewrite decide_True by lia.
    + by rewrite decide_False by lia.
  - intros i f Hi Hf. unfold unlink_level. rewrite getb_lookup.
    destruct (delete_level i) as (u & p & t & Hu & Hs & Hr & Hat & Ht & Hnin & Hg); [lia|].
    rewrite Hu. sbind. rewrite (get_level_lvl_map f (nodes m) u.1), Hg. sbind. rewrite Hf.
    pose proof (rep_small _ _ _ Hl) as Hsm. pose proof (fwd_span i s2) as Hsp.
    assert (zlen t + 1 + zlen s2 < 4294967296) as Hsm' by (clear -Hsm Hs; subst s1; zlia).
    pose proof (fwd_unlink i t Ht) as Hfu.
    assert (get_level (nodes m) (na xd) (Z.of_nat i) = if decide (i < nh xd)%nat
            then Some (fwd i s2) else None) as Hx.
    { unfold get_level. rewrite (rep_node _ _ _ Hl s1 xd s2 eq_refl). sbind. rewrite getb_lookup.
      cbn [level node_of]. destruct (decide (i < nh xd)%nat); [by apply lookup_tower|].
      apply lookup_ge_None_2. rewrite length_tower. lia. }
    assert (forall q l', unlink_F i q l' = if decide (q = u.1) then fwd i (t ++ s2) else l') as HF.
    { intros q l'. unfold unlink_F. rewrite Hu, Hg. destruct (decide (q = u.1)); [|done].
      rewrite Hfu. by case_decide. }
    pose proof (zlen_nonneg t). pose proof (fwd_span i (t ++ s2)) as Hsp2. rewrite zlen_app in Hsp2.
    destruct (decide (i < nh xd)%nat) as [Hix|Hix].
    + rewrite fwd_tall in * by (done || by apply Nat.ltb_lt). cbn [fst snd] in *.
      rewrite bool_decide_eq_true_2 by done. rewrite get_level_lvl_map, Hx. sbind. rewrite Hf.
      rewrite (fwd_short i t s2) in HF, Hsp2 by done.
      assert (u32 (zlen t + 1 + u32 ((fwd i s2).2 - 1)) = zlen t + (fwd i s2).2) as ->.
      { unfold uwrap. rewrite Z.add_mod_idemp_r by done.
        replace (zlen t + 1 + ((fwd i s2).2 - 1)) with (zlen t + (fwd i s2).2) by lia.
        apply Z.mod_small. cbn [snd] in Hsp2. lia. }
      by apply (set_one _ _ _ _ _ _ _ Hg).
    + assert (tall i xd = false) as Hxs by (apply Nat.ltb_ge; lia).
      assert ((fwd i (t ++ xd :: s2)).1 <> Some (na xd)) as Hne.
      { intros Heq. destruct (short_dec i s2) as [Hs2|(c & d & b & Hs2 & Hc & Hd)].
        - rewrite fwd_nil in Heq; [done|]. apply short_app. split; [done|]. by constructor.
        - rewrite Hs2 in Heq. replace (t ++ xd :: c ++ d :: b) with ((t ++ xd :: c) ++ d :: b) in Heq
            by (by rewrite <- app_assoc).
          rewrite fwd_tall in Heq; [|apply short_app; split; [done|by constructor]|done].
          pose proof (rep_nodup _ _ _ Hl) as [_ Hnd]%NoDup_cons.
          rewrite fmap_app, fmap_cons in Hnd.
          apply NoDup_app in Hnd as (_ & _ & [Hnin' _]%NoDup_cons). apply Hnin'.
          injection Heq as <-. rewrite Hs2, fmap_app. set_solver. }
      rewrite bool_decide_eq_false_2 by done. rewrite u32_small.
      2: { rewrite Hfu in Hsp2. cbn [snd] in Hsp2. lia. }
      rewrite <- Hfu. by apply (set_one _ _ _ _ _ _ _ Hg).
Qed.
Lemma unlink_at i p t a : s1 = p ++ t -> at_pos z i p a -> (i < zl z)%nat ->
  unlink_G a i (fwd i (t ++ xd :: s2)) = fwd i (t ++ s2).
Proof.
  intros Hs1 Hat Hi. unfold unlink_G, unlink_F. rewrite decide_True by done.
  destruct (delete_level i Hi) as (u & p' & t' & Hu & Hs1' & Hr & Hat' & Ht' & Hnin & Hg).
  pose proof (NoDup_prefix _ _ _ (rep_nodup _ _ _ Hl)) as Hnd.
  assert (is_upd z i (p ++ t) u) as Hup by (exists p', t'; by rewrite <- Hs1).
  rewrite Hs1 in Hnd. destruct (is_upd_unique z i p t a u Hnd Hat Hup) as [Hiff Hrank].
  rewrite Hu, Hg. destruct (short_dec i t) as [Ht|(c & d & b & -> & Hc & Hd)].
  - assert (t' = t) as ->.
    { assert (zlen t' = zlen t) as Hlen.
      { pose proof (f_equal zlen Hs1) as E1. pose proof (f_equal zlen Hs1') as E2.
        rewrite (Hrank Ht) in Hr. rewrite zlen_app in E1, E2. lia. }
      rewrite Hs1 in Hs1'. apply app_inj_2 in Hs1' as [_ ?]; [done|].
      unfold zlen in Hlen. lia. }
    rewrite decide_True by (symmetry; by apply Hiff). rewrite (fwd_unlink i t Ht).
    by destruct (decide (i < nh xd)%nat).
  - rewrite decide_False.
    2: { intros Heq. symmetry in Heq. apply Hiff in Heq.
         apply short_app in Heq as [_ [Hd' _]%Forall_cons]. congruence. }
    rewrite <- !app_assoc. cbn [app]. by rewrite !fwd_tall.
Qed.

Lemma unlink_after i d l : d ∈ xd :: s2 -> unlink_G (na d) i l = l.
Proof.
  intros Hd. unfold unlink_G, unlink_F. destruct (decide (i < zl z)%nat) as [Hi|]; [|done].
  destruct (delete_level i Hi) as (u & p' & t' & -> & _ & _ & _ & _ & Hnin & _).
  rewrite decide_False; [done|]. intros Heq. apply Hnin. rewrite <- Heq.
  by apply list_elem_of_fmap_2.
Qed.

Lemma heap_unlinked_lookup p n : nodes m !! p = Some n ->
  heap_unlinked !! p = Some (lv_node (unlink_G p) n).
Proof. unfold heap_unlinked. rewrite lookup_lvl_map. by intros ->. Qed.

Lemma heap_unlinked_after a d b : d ∈ xd :: s2 -> s1 ++ xd :: s2 = a ++ d :: b ->
  heap_unlinked !! na d = Some (node_of d (na <$> last a) b).
Proof.
  intros Hd Hs. rewrite (heap_unlinked_lookup _ _ (rep_node _ _ _ Hl a d b Hs)). f_equal.
  unfold lv_node, node_of. simpl. f_equal. apply imap_tower. intros i Hi. by apply unlink_after.
Qed.

Lemma heap_deleted_other p : (forall d t, s2 = d :: t -> p <> na d) ->
  heap_deleted !! p = heap_unlinked !! p.
Proof.
  intros Hd. unfold heap_deleted. destruct s2 as [|d t]; [done|].
  by rewrite lookup_alter_ne by (by apply not_eq_sym, (Hd d t)).
Qed.

(** An element is not at the address of a later one. *)
Lemma not_later a d b c e t : s1 ++ xd :: s2 = a ++ d :: b -> b = c ++ e :: t -> na d <> na e.
Proof.
  intros Hs Hb Heq. pose proof (rep_nodup _ _ _ Hl) as [_ Hnd]%NoDup_cons.
  rewrite Hs, fmap_app, fmap_cons in Hnd.
  apply NoDup_app in Hnd as (_ & _ & [Hnin _]%NoDup_cons). apply Hnin.
  rewrite Heq, Hb, fmap_app, fmap_cons. set_solver.
Qed.

Lemma heap_deleted_x : heap_deleted !! na xd = Some (node_of xd (na <$> last s1) s2).
Proof.
  rewrite heap_deleted_other.
  - apply heap_unlinked_after; [left|done].
  - intros d t Hs. by apply (not_later s1 xd s2 [] d t).
Qed.

Lemma heap_deleted_node a d b : s1 ++ s2 = a ++ d :: b ->
  heap_deleted !! na d = Some (node_of d (na <$> last a) b).
Proof.
  intros Hs. destruct (app_eq_inv _ _ _ _ Hs) as [(l & Hs1 & Hb)|(l & -> & Hs2)].
  1: destruct l as [|d' l].
  - (* at the border *)
    rewrite app_nil_r in Hs1. simpl in Hb. subst a. unfold heap_deleted. rewrite <- Hb.
    rewrite lookup_alter_eq.
    rewrite (heap_unlinked_after (s1 ++ [xd]) d b);
      [done|rewrite <- Hb; set_solver|by rewrite <- Hb, <- app_assoc].
  - simpl in Hb. injection Hb as <- ->.
    assert (s1 ++ xd :: s2 = a ++ d :: l ++ xd :: s2) as Hs' by (by rewrite Hs1, <- app_assoc).
    rewrite heap_deleted_other.
    2: { intros e t He. apply (not_later a d (l ++ xd :: s2) (l ++ [xd]) e t Hs').
         by rewrite He, <- app_assoc. }
    rewrite (heap_unlinked_lookup _ _ (rep_node _ _ _ Hl a d (l ++ xd :: s2) Hs')). f_equal.
    unfold lv_node, node_of. simpl. f_equal. apply imap_tower. intros i Hi.
    apply (unlink_at i (a ++ [d])).
    + by rewrite <- app_assoc.
    + right. by exists a, d.
    + pose proof (rep_heights _ _ _ Hl) as Hhs. rewrite Hs' in Hhs.
      apply Forall_app in Hhs as [_ [Hd _]%Forall_cons]. simpl in Hd. lia.
  - assert (s1 ++ xd :: s2 = (s1 ++ xd :: l) ++ d :: b) as Hs' by (by rewrite Hs2, <- app_assoc).
    destruct l as [|e l].
    + unfold heap_deleted. simpl in Hs2. rewrite Hs2. rewrite lookup_alter_eq.
      rewrite (heap_unlinked_after (s1 ++ [xd]) d b); [|rewrite Hs2; set_solver|done].
      by rewrite app_nil_r.
    + rewrite heap_deleted_other.
      2: { intros e' t He. rewrite Hs2 in He. injection He as <- _. apply not_eq_sym.
           apply (not_later (s1 ++ [xd]) e (l ++ d :: b) l d b); [|done].
           by rewrite Hs2, <- app_assoc. }
      rewrite (heap_unlinked_after _ d b ltac:(rewrite Hs2; set_solver) Hs'). do 2 f_equal.
      replace (s1 ++ xd :: e :: l) with ((s1 ++ [xd]) ++ e :: l) by (by rewrite <- app_assoc).
      by rewrite !last_app_cons.
Qed.
Lemma heap_deleted_hdr hn : nodes m !! header z = Some hn ->
  heap_deleted !! header z = Some (lv_node (unlink_G (header z)) hn).
Proof.
  intros Hhn. rewrite heap_deleted_other; [by apply heap_unlinked_lookup|].
  intros d t Hs Heq. pose proof (rep_nodup _ _ _ Hl) as [Hnin _]%NoDup_cons.
  apply Hnin. rewrite Heq, Hs, fmap_app. set_solver.
Qed.

Lemma heap_deleted_levels i : (i < zl z)%nat ->
  get_level heap_deleted (header z) (Z.of_nat i) = Some (fwd i (s1 ++ s2)).
Proof.
  intros Hi. destruct (rep_hdr _ _ _ Hl) as (hn & Hhn & _ & _ & Hlv & _).
  unfold get_level. rewrite (heap_deleted_hdr hn Hhn). sbind. rewrite getb_lookup.
  cbn [level lv_node]. rewrite list_lookup_imap, Hlv by done. cbn [fmap option_fmap option_map].
  f_equal. apply (unlink_at i [] s1); [done|by left|done].
Qed.

Lemma dom_heap_deleted : dom heap_deleted = dom (nodes m).
Proof. unfold heap_deleted, heap_unlinked. destruct s2; by rewrite ?dom_alter_L, dom_lvl_map. Qed.

Lemma links_delete rel k :
  1 <= k <= zlevel z -> (forall i, (Z.to_nat k <= i < zl z)%nat -> short i (s1 ++ s2)) ->
  links (mk_mem (delete (na xd) heap_deleted) rel)
    (mk_zsl (header z) (na <$> last (s1 ++ s2)) (length z - 1) k) (s1 ++ s2).
Proof.
  intros Hk Hshort. pose proof (rep_zl _ _ _ Hl) as Hzl. pose proof (rep_nodup _ _ _ Hl) as Hnd.
  assert (header z :: (na <$> s1 ++ xd :: s2) ≡ₚ na xd :: header z :: (na <$> s1 ++ s2)) as Hperm.
  { rewrite !fmap_app, fmap_cons. etrans; [|apply perm_swap]. constructor.
    symmetry. apply Permutation_middle. }
  pose proof Hnd as Hnd'. rewrite Hperm in Hnd'.
  apply NoDup_cons in Hnd' as [Hxd Hnd'].
  pose proof (rep_heights _ _ _ Hl) as Hhs. apply Forall_app in Hhs as [Hh1 [_ Hh2]%Forall_cons].
  assert (Forall (fun d => (1 <= nh d <= zl z)%nat) (s1 ++ s2)) as Hhs by (by apply Forall_app).
  split; cbn [nodes header tail length zlevel].
  - destruct (rep_hdr _ _ _ Hl) as (hn & Hhn & Hobj & Hln & Hlv1 & Hlv2).
    exists (lv_node (unlink_G (header z)) hn).
    rewrite lookup_delete_ne, (heap_deleted_hdr hn) by set_solver. split; [done|]. split; [done|].
    split; [simpl; by rewrite length_imap|].
    assert (forall i, (i < zl z)%nat -> level (lv_node (unlink_G (header z)) hn) !! i
              = Some (fwd i (s1 ++ s2))) as Hlv.
    { intros i Hi. cbn [level lv_node]. rewrite list_lookup_imap, Hlv1 by done.
      cbn [fmap option_fmap option_map]. f_equal. apply (unlink_at i [] s1); [done|by left|done]. }
    split; intros i Hi; [apply Hlv; lia|].
    destruct (decide (i < zl z)%nat) as [Hlt|Hge].
    + exists (zlen (s1 ++ s2)). rewrite Hlv by done. rewrite fwd_nil by (apply Hshort; lia). done.
    + destruct (Hlv2 i) as [k' Hk']; [lia|]. exists k'. cbn [level lv_node].
      rewrite list_lookup_imap, Hk'. cbn [fmap option_fmap option_map]. f_equal. unfold unlink_G.
      by rewrite decide_False.
  - intros a d b Hs. rewrite lookup_delete_ne; [by apply heap_deleted_node|].
    rewrite Hs, fmap_app, fmap_cons in Hxd. set_solver.
  - rewrite dom_delete_L, dom_heap_deleted, (rep_dom _ _ _ Hl).
    rewrite (list_to_set_perm_L _ _ Hperm), list_to_set_cons.
    rewrite difference_union_distr_l_L, difference_diag_L, (left_id_L ∅ (∪)).
    apply difference_disjoint_L, disjoint_singleton_r. by rewrite elem_of_list_to_set.
  - done.
  - done.
  - rewrite (rep_len _ _ _ Hl). zlia.
  - pose proof (rep_small _ _ _ Hl). zlia.
  - lia.
  - apply Forall_forall. intros d Hd. pose proof (proj1 (Forall_forall _ _) Hhs d Hd) as Hdh.
    simpl in Hdh. destruct (decide (nh d <= Z.to_nat k)%nat) as [|Hgt]; [lia|]. exfalso.
    pose proof (proj1 (Forall_forall _ _) (Hshort (Z.to_nat k) ltac:(lia)) d Hd) as Hs.
    apply Nat.ltb_ge in Hs. lia.
Qed.
End DeleteLinks.

Lemma fwd_None i s : (fwd i s).1 = None <-> short i s.
Proof.
  destruct (short_dec i s) as [Hs|(a & d & b & -> & Ha & Hd)].
  - by rewrite fwd_nil.
  - rewrite fwd_tall by done. split; [done|].
    intros [_ [Hd' _]%Forall_cons]%short_app. congruence.
Qed.

Lemma lower_level_spec h hd s n :
  (1 <= n)%nat -> (forall i, (i < n)%nat -> get_level h hd (Z.of_nat i) = Some (fwd i s)) ->
  exists k, lower_level (O:=O) n h hd = Some (Z.of_nat k) /\ (1 <= k <= n)%nat /\
    (forall i, (k <= i < n)%nat -> short i s) /\ (k = 1%nat \/ ~ short (pred k) s).
Proof.
  intros Hn Hlv. induction n as [|[|n] IH]; [lia| |].
  - exists 1%nat. split_and!; [done|lia..| |by left]. intros; lia.
  - change (lower_level (S (S n)) h hd) with (l ← get_level h hd (Z.of_nat (S n));
      match l.1 with None => lower_level (S n) h hd | Some _ => Some (Z.of_nat (S (S n))) end).
    rewrite (Hlv (S n)) by lia. sbind. destruct (fwd (S n) s).1 as [f|] eqn:Hf.
    + exists (S (S n)). split_and!; [done|lia..| |].
      * intros; lia.
      * right. intros Hs. apply fwd_None in Hs. cbn [pred] in Hs. congruence.
    + apply fwd_None in Hf. destruct IH as (k & Hk & Hkn & Hs & Hlast); [lia|intros; apply Hlv; lia|].
      exists k. split_and!; [done|lia..| |done]. intros i Hi.
      destruct (decide (i = S n)) as [->|]; [done|]. apply Hs. lia.
Qed.

(** A skip list of the elements [s] with the node of [xd] still allocated. *)
Lemma zslDeleteNode_spec m z s1 s2 us xd :
  links m z (s1 ++ xd :: s2) -> updates_on z s1 us ->
  exists z' h, zslDeleteNode z m (na xd) us = Some (z', set_nodes m h) /\
    h !! na xd = Some (node_of xd (na <$> last s1) s2) /\ header z' = header z /\
    zlevel z' <= zlevel z /\ exact_level z' (s1 ++ s2) /\
    forall rel, links (mk_mem (delete (na xd) h) rel) z' (s1 ++ s2).
Proof.
  intros Hl Hus. unfold zslDeleteNode. pose proof (rep_zl _ _ _ Hl) as Hzl.
  rewrite (unlink_loop m z s1 s2 us xd Hl Hus). sbind.
  rewrite (heap_unlinked_after m z s1 s2 us xd Hl Hus s1 xd s2) by (done || set_solver). sbind.
  pose proof (rep_heights _ _ _ Hl) as Hhs.
  apply Forall_app in Hhs as [Hh1 [Hhx Hh2]%Forall_cons].
  assert (get_level (heap_unlinked m z s2 us xd) (na xd) 0 = Some (fwd 0 s2)) as ->.
  { unfold get_level.
    rewrite (heap_unlinked_after m z s1 s2 us xd Hl Hus s1 xd s2) by (done || set_solver).
    sbind. cbn [level node_of]. change 0 with (Z.of_nat 0). rewrite getb_lookup.
    apply lookup_tower. lia. }
  sbind. cbn [backward node_of].
  assert (match (fwd 0 s2).1 with
     | Some f => h ← set_backward (heap_unlinked m z s2 us xd) f (na <$> last s1); Some (h, tail z)
     | None => Some (heap_unlinked m z s2 us xd, na <$> last s1)
     end = Some (heap_deleted m z s1 s2 us xd, na <$> last (s1 ++ s2))) as ->.
  { unfold heap_deleted. destruct s2 as [|d t] eqn:Hs2; [by rewrite app_nil_r|].
    assert (fwd 0 (d :: t) = (Some (na d), 1)) as ->.
    { apply Forall_cons in Hh2 as [Hd _]. apply (fwd_tall 0 [] d t); [constructor|].
      apply Nat.ltb_lt. lia. }
    cbn [fst]. rewrite (set_backward_Some _ _ (node_of d (na <$> last (s1 ++ [xd])) t)).
    - sbind. f_equal. f_equal.
      + apply map_eq. intros q. destruct (decide (q = na d)) as [->|Hq].
        * rewrite lookup_insert_eq, lookup_alter_eq.
          rewrite (heap_unlinked_after m z s1 (d :: t) us xd Hl Hus (s1 ++ [xd]) d t);
            [done|set_solver|by rewrite <- app_assoc].
        * by rewrite lookup_insert_ne, lookup_alter_ne by done.
      + rewrite (rep_tail _ _ _ Hl). by rewrite !last_app_cons, last_cons_cons.
    - apply (heap_unlinked_after m z s1 (d :: t) us xd Hl Hus (s1 ++ [xd]) d t);
        [set_solver|by rewrite <- app_assoc]. }
  sbind.
  destruct (lower_level_spec (heap_deleted m z s1 s2 us xd) (header z) (s1 ++ s2) (zl z))
    as (k & -> & Hk & Hshort & Hlast); [lia|by apply heap_deleted_levels|]. sbind.
  eexists _, _. split; [done|]. split; [by apply heap_deleted_x|].
  cbn [header zlevel]. split; [done|]. split; [lia|]. split.
  - destruct Hlast as [->|Hns]; [by left|]. right. cbn [zlevel].
    destruct (short_dec (pred k) (s1 ++ s2)) as [|(a & d & b & Hs & _ & Hd)]; [done|].
    apply Exists_exists. exists d. split; [rewrite Hs; set_solver|]. rewrite Nat2Z.id.
    apply Nat.ltb_lt in Hd.
    assert (d ∈ s1 ++ s2) as Hin by (rewrite Hs; set_solver).
    assert (nh d <= zl z)%nat as Hdz.
    { assert (Forall (fun d => (1 <= nh d <= zl z)%nat) (s1 ++ s2)) as Hhs by (by apply Forall_app).
      rewrite Forall_forall in Hhs. by apply Hhs. }
    destruct (decide (nh d = k)) as [|Hne]; [done|].
    pose proof (proj1 (Forall_forall _ _) (Hshort k ltac:(lia)) d Hin) as Hs'.
    apply Nat.ltb_ge in Hs'. lia.
  - intros rel. pose proof (zlen_nonneg (s1 ++ s2)).
    rewrite u64_small by (rewrite (rep_len _ _ _ Hl); pose proof (rep_small _ _ _ Hl); zlia).
    apply links_delete; try done; [lia|]. intros i Hi. apply Hshort. lia.
Qed.

Lemma zslFreeNode_spec (m : memory (O:=O)) h p n o :
  h !! p = Some n -> obj n = Some o ->
  zslFreeNode (set_nodes m h) p = Some (mk_mem (delete p h) (released m ++ [o])).
Proof. intros Hp Ho. unfold zslFreeNode. simpl. rewrite Hp. sbind. by rewrite Ho. Qed.

(** ** Sorted sequences *)

(** A predicate that holds of a prefix only: [elt a b] and [P b] give [P a]. *)
Definition prefixed (P : nd -> bool) (s : list nd) : Prop :=
  forall a b, a ∈ s -> b ∈ s -> elt a b -> P b = true -> P a = true.

Definition holds (P : nd -> bool) (s : list nd) : Prop := Forall (fun d => P d = true) s.
Definition fails (P : nd -> bool) (s : list nd) : Prop := Forall (fun d => P d = false) s.

Lemma sorted_split P s :
  StronglySorted elt s -> prefixed P s -> exists s1 s2, s = s1 ++ s2 /\ holds P s1 /\ fails P s2.
Proof.
  intros Hs. induction Hs as [|d s Hs IH Hd]; intros HP.
  { exists [], []. split_and!; [done|constructor..]. }
  destruct (P d) eqn:Hpd.
  - destruct IH as (s1 & s2 & -> & H1 & H2).
    { intros a b Ha Hb. apply HP; by right. }
    exists (d :: s1), s2. split_and!; [done|by constructor|done].
  - exists [], (d :: s). split_and!; [done|constructor|]. constructor; [done|].
    apply Forall_forall. intros b Hb. destruct (P b) eqn:Hpb; [|done].
    rewrite <- Hpd. symmetry. apply (HP d b); [left|by right| |done].
    by apply (proj1 (Forall_forall _ _) Hd).
Qed.

Lemma filter_split (P : nd -> bool) s1 s2 : holds P s1 -> fails P s2 ->
  filter (fun d => P d = true) (s1 ++ s2) = s1 /\ filter (fun d => P d = false) (s1 ++ s2) = s2.
Proof.
  intros H1 H2. rewrite !filter_app. split.
  - assert (filter (fun d => P d = true) s1 = s1) as ->.
    { induction H1 as [|d s1 Hd _ IH]; [done|]. by rewrite filter_cons_True, IH. }
    assert (filter (fun d => P d = true) s2 = []) as ->; [|by rewrite app_nil_r].
    induction H2 as [|d s2 Hd _ IH]; [done|]. by rewrite filter_cons_False, IH by congruence.
  - assert (filter (fun d => P d = false) s2 = s2) as ->.
    { induction H2 as [|d s2 Hd _ IH]; [done|]. by rewrite filter_cons_True, IH. }
    assert (filter (fun d => P d = false) s1 = []) as ->; [|done].
    induction H1 as [|d s1 Hd _ IH]; [done|]. by rewrite filter_cons_False, IH by congruence.
Qed.

(** A walk that goes on while [P] holds of the elements. *)
Lemma splits_P m z s1 s2 (P : nd -> bool) (g : zskiplistNode (O:=O) -> option bool) :
  links m z (s1 ++ s2) -> holds P s1 -> fails P s2 ->
  (forall d n, d ∈ s1 ++ s2 -> score n = ns d -> obj n = Some (no d) -> g n = Some (P d)) ->
  splits (nodes m) (fun _ n => g n) s1 s2.
Proof.
  intros Hl H1 H2 Hg. unfold holds, fails in *. rewrite Forall_forall in H1, H2. split.
  - intros a d b n Hs Hn. rewrite <- (H1 d) by (rewrite Hs; set_solver).
    apply Hg; [rewrite Hs; set_solver|..];
      rewrite (rep_node _ _ _ Hl a d (b ++ s2)) in Hn by (by rewrite Hs, <- app_assoc); by simplify_eq.
  - intros a d b n Hs Hn. rewrite <- (H2 d) by (rewrite Hs; set_solver).
    apply Hg; [rewrite Hs; set_solver|..];
      rewrite (rep_node _ _ _ Hl (s1 ++ a) d b) in Hn by (by rewrite Hs, <- app_assoc); by simplify_eq.
Qed.

(** Before the element of key [k], or at it when [le]. *)
Definition key (d : nd) : list Z := ekey (ns d) (no d).
Definition before (le : bool) (k : list Z) (d : nd) : bool :=
  match lex (key d) k with Lt => true | Eq => le | Gt => false end.

Definition valid (d : nd) : Prop := isnan (ns d) = false /\ ovalid (no d).

Lemma node_before_spec le sc o d n :
  valid d -> isnan sc = false -> ovalid o -> score n = ns d -> obj n = Some (no d) ->
  node_before le sc o n = Some (before le (ekey sc o) d).
Proof.
  intros [Hnan Hv] Hsc Ho Hn Hobj. unfold node_before, before, key, ekey.
  rewrite Hn, SFltb_key, SFeqb_key, Hobj by done. sbind.
  rewrite lex_app by (by rewrite !length_dkey). destruct (lex (dkey (ns d)) (dkey sc)); [|done..].
  destruct (ocompare_spec _ _ Hv Ho) as (c & -> & Hc). sbind. rewrite <- Hc.
  destruct (Z.compare_spec c 0), le; f_equal; try (apply Z.ltb_lt || apply Z.ltb_ge); lia
    || (apply Z.leb_le; lia) || (apply Z.leb_gt; lia).
Qed.

Lemma before_prefixed le k s : prefixed (before le k) s.
Proof.
  intros a b _ _ Hab. unfold before, elt in *. fold (key a) (key b) in Hab.
  destruct (lex (key b) k) eqn:Hb; [|intros _|done].
  - apply lex_eq in Hb as <-. by rewrite Hab.
  - by rewrite (lex_trans _ _ _ Hab Hb).
Qed.

Lemma good_app s1 s2 : good (s1 ++ s2) -> good s1 /\ good s2.
Proof.
  intros [Hv Hs]. apply Forall_app in Hv as [? ?].
  split; split; [done|by apply StronglySorted_app_1_l in Hs|done|by apply StronglySorted_app_1_r in Hs].
Qed.

Lemma good_delete s1 d s2 : good (s1 ++ d :: s2) -> good (s1 ++ s2).
Proof.
  intros [Hv Hs]. apply Forall_app in Hv as [Hv1 [_ Hv2]%Forall_cons].
  apply StronglySorted_app in Hs as (Hlt & H1 & H2). apply StronglySorted_inv in H2 as [H2 _].
  split; [by apply Forall_app|]. apply StronglySorted_app. split_and!; [|done..].
  intros a b Ha Hb. apply Hlt; [done|by right].
Qed.

Lemma good_insert s1 d s2 :
  good (s1 ++ s2) -> valid d -> holds (before false (key d)) s1 -> fails (before false (key d)) s2 ->
  Forall (fun e => key e <> key d) s2 -> good (s1 ++ d :: s2).
Proof.
  intros [Hv Hs] Hd H1 H2 Hne. apply Forall_app in Hv as [Hv1 Hv2].
  apply StronglySorted_app in Hs as (Hlt & Hs1 & Hs2). unfold holds, fails in *.
  rewrite Forall_forall in H1, H2, Hne.
  split; [apply Forall_app; split; [done|by constructor]|].
  assert (forall a, a ∈ s1 -> elt a d) as Had.
  { intros a Ha. specialize (H1 a Ha). unfold before in H1. unfold elt. fold (key a) (key d).
    by destruct (lex (key a) (key d)). }
  assert (forall b, b ∈ s2 -> elt d b) as Hdb.
  { intros b Hb. specialize (H2 b Hb). specialize (Hne b Hb). unfold before in H2. unfold elt.
    fold (key b) (key d). rewrite lex_antisym. destruct (lex (key b) (key d)) eqn:E; [|done|done].
    by apply lex_eq in E. }
  apply StronglySorted_app. split_and!; [|done|].
  - intros a b Ha [->|Hb]%elem_of_cons; [by apply Had|]. by apply Hlt.
  - constructor; [done|]. by apply Forall_forall.
Qed.

(** ** The operations *)

Lemma after_walk_spec m z s1 s2 us :
  links m z (s1 ++ s2) -> updates z s1 us ->
  after_walk z (nodes m) us = Some (na <$> head s2) /\
  exists u0, head us = Some u0 /\ u0.2 = zlen s1 /\ at_pos z 0 s1 u0.1.
Proof.
  intros Hl [Hlen Hus]. pose proof (rep_zl _ _ _ Hl) as Hzl.
  destruct (Hus 0%nat) as (u0 & Hu0 & Hup); [lia|].
  destruct (is_upd_0 _ _ _ _ _ Hl Hup) as [Hr Hat].
  assert (head us = Some u0) as Hh by (by destruct us).
  split; [|by exists u0]. unfold after_walk. rewrite Hh. cbn [from_option].
  pose proof (at_pos_level _ _ _ 0 _ _ _ Hl Hat eq_refl) as Hlev. change (Z.of_nat 0) with 0 in Hlev.
  rewrite Hlev. sbind. f_equal.
  destruct s2 as [|d t]; [done|].
  pose proof (rep_heights _ _ _ Hl) as Hhs. apply Forall_app in Hhs as [_ [Hd _]%Forall_cons].
  assert (fwd 0 (d :: t) = (Some (na d), 1)) as ->; [|done].
  apply (fwd_tall 0 [] d t); [constructor|]. apply Nat.ltb_lt. lia.
Qed.

(** The walk of an operation whose test is the predicate [P]. *)
Lemma walk_P m z s (P : nd -> bool) (g : zskiplistNode (O:=O) -> option bool) wrap :
  links m z s -> StronglySorted elt s -> prefixed P s ->
  (forall d n, d ∈ s -> score n = ns d -> obj n = Some (no d) -> g n = Some (P d)) ->
  (forall k, 0 <= k < 4294967296 -> wrap k = k) ->
  exists s1 s2 us, s = s1 ++ s2 /\ holds P s1 /\ fails P s2 /\
    descend_all wrap (fun _ n => g n) z (nodes m) = Some us /\ updates z s1 us /\
    splits (nodes m) (fun _ n => g n) s1 s2.
Proof.
  intros Hl Hs HP Hg Hwrap. destruct (sorted_split P s Hs HP) as (s1 & s2 & -> & H1 & H2).
  pose proof (splits_P m z s1 s2 P g Hl H1 H2 Hg) as Hsp.
  destruct (descend_all_spec m z s1 s2 _ wrap Hl Hsp Hwrap) as (us & Hd & Hus).
  exists s1, s2, us. by split_and!.
Qed.

Lemma id_small k : 0 <= k < 4294967296 -> id k = k.
Proof. done. Qed.
Lemma u64_rank k : 0 <= k < 4294967296 -> u64 k = k.
Proof. intros. apply u64_small. lia. Qed.

Lemma zslInsert_ok rnd lv m z s sc o :
  zsl_ok m z s -> isnan sc = false -> ovalid o -> Forall (fun d => key d <> ekey sc o) s ->
  zslRandomLevel rnd = Some lv -> zlen s + 1 < 4294967296 ->
  exists xd z' m' s1 s2, s = s1 ++ s2 /\ zslInsert rnd z m sc o = Some (na xd, z', m') /\
    ns xd = sc /\ no xd = o /\ nh xd = Z.to_nat lv /\ released m' = released m /\
    holds (before false (ekey sc o)) s1 /\ fails (before false (ekey sc o)) s2 /\
    zsl_ok m' z' (s1 ++ xd :: s2).
Proof.
  intros (Hl & Hex & Hg) Hsc Ho Hne Hrnd Hsm. pose proof Hg as [Hv Hs].
  destruct (walk_P m z s (before false (ekey sc o)) (node_before false sc o) u32 Hl Hs)
    as (s1 & s2 & us & -> & H1 & H2 & Hd & Hus & Hsp).
  { apply before_prefixed. }
  { intros d n Hd. apply node_before_spec; try done. by apply (proj1 (Forall_forall _ _) Hv). }
  { intros k Hk. by apply u32_small. }
  destruct (zslInsert_links rnd m z s1 s2 sc o lv Hl Hex Hsp Hsc Hrnd Hsm)
    as (xd & z' & m' & Hins & Hns & Hno & Hnh & Hrel & Hl' & Hex').
  exists xd, z', m', s1, s2. split_and!; try done. split; [done|]. split; [done|].
  apply Forall_app in Hne as [_ Hne].
  assert (key xd = ekey sc o) as Hk by (unfold key; by rewrite Hns, Hno).
  apply good_insert; rewrite ?Hk; try done. unfold valid. by rewrite Hns, Hno.
Qed.

Lemma zslDeleteFree m z s1 s2 us xd :
  links m z (s1 ++ xd :: s2) -> updates_on z s1 us ->
  exists z' m0 m', zslDeleteNode z m (na xd) us = Some (z', m0) /\
    zslFreeNode m0 (na xd) = Some m' /\ released m' = released m ++ [no xd] /\
    header z' = header z /\ zlevel z' <= zlevel z /\ links m' z' (s1 ++ s2) /\
    exact_level z' (s1 ++ s2).
Proof.
  intros Hl Hus. destruct (zslDeleteNode_spec m z s1 s2 us xd Hl Hus)
    as (z' & h & Hdel & Hx & Hh & Hzl & Hex & Hlinks).
  eexists z', _, _. split; [done|]. split; [by apply (zslFreeNode_spec m h _ _ (no xd) Hx)|].
  split_and!; try done.
Qed.

Lemma updates_to z s1 us : updates z s1 us -> updates_on z s1 us.
Proof. by intros [_ Hus]. Qed.

Lemma zslDelete_ok m z s sc o :
  zsl_ok m z s -> isnan sc = false -> ovalid o ->
  (exists s1 d s2 z' m', s = s1 ++ d :: s2 /\ key d = ekey sc o /\
     zslDelete z m sc o = Some (true, z', m') /\ released m' = released m ++ [no d] /\
     zsl_ok m' z' (s1 ++ s2)) \/
  (Forall (fun d => key d <> ekey sc o) s /\ zslDelete z m sc o = Some (false, z, m)).
Proof.
  intros (Hl & Hex & Hg) Hsc Ho. pose proof Hg as [Hv Hs].
  destruct (walk_P m z s (before false (ekey sc o)) (node_before false sc o) id Hl Hs)
    as (s1 & s2 & us & -> & H1 & H2 & Hd & Hus & Hsp).
  { apply before_prefixed. }
  { intros d n Hd. apply node_before_spec; try done. by apply (proj1 (Forall_forall _ _) Hv). }
  { apply id_small. }
  unfold zslDelete. rewrite Hd. sbind.
  destruct (after_walk_spec _ _ _ _ _ Hl Hus) as [-> _]. sbind.
  assert (Forall (fun d => key d <> ekey sc o) s1) as Hn1.
  { eapply Forall_impl; [exact H1|]. intros d Hb Heq. unfold before in Hb. simpl in Hb.
    by rewrite Heq, lex_refl in Hb. }
  destruct s2 as [|d t].
  { right. split; [by rewrite app_nil_r|done]. }
  apply Forall_app in Hv as [_ [[Hnan Hvd] _]%Forall_cons].
  cbn [fmap option_fmap option_map head].
  rewrite (rep_node _ _ _ Hl s1 d t eq_refl). sbind. cbn [obj score node_of].
  assert (Forall (fun e => key e <> ekey sc o) t) as Hnt.
  { apply Forall_forall. intros e He Heq. destruct Hg as [_ Hg].
    apply StronglySorted_app_1_r, StronglySorted_inv in Hg as [_ Hlt].
    pose proof (proj1 (Forall_forall _ _) Hlt e He) as Hde. unfold elt in Hde.
    fold (key d) (key e) in Hde. rewrite Heq in Hde.
    apply Forall_cons in H2 as [H2 _]. unfold before in H2. by rewrite Hde in H2. }
  assert ((if SFeqb sc (ns d) then oequal (no d) o else Some false)
          = Some (bool_decide (key d = ekey sc o))) as He.
  { rewrite SFeqb_key by done. unfold key, ekey. destruct (lex (dkey sc) (dkey (ns d))) eqn:E.
    - apply lex_eq in E. rewrite oequal_spec by done. f_equal.
      apply bool_decide_ext. rewrite E. split; [by intros ->|]. by intros ?%app_inv_head.
    - f_equal. symmetry. apply bool_decide_eq_false_2. intros Heq.
      apply app_inj_1 in Heq as [Heq _]; [|by rewrite !length_dkey].
      rewrite Heq, lex_refl in E. done.
    - f_equal. symmetry. apply bool_decide_eq_false_2. intros Heq.
      apply app_inj_1 in Heq as [Heq _]; [|by rewrite !length_dkey].
      rewrite Heq, lex_refl in E. done. }
  sbind. rewrite He. sbind.
  case_bool_decide as Hk.
  - left. destruct (zslDeleteFree m z s1 t us d Hl (updates_to _ _ _ Hus))
      as (z' & m0 & m' & -> & Hfr & Hrel & _ & _ & Hl' & Hex').
    sbind. cbn [snd fst]. rewrite Hfr. sbind. exists s1, d, t, z', m'. split_and!; try done.
    split; [done|]. split; [done|]. by apply good_delete in Hg.
  - right. split; [|done]. apply Forall_app. split; [done|]. by constructor.
Qed.

Lemma fwd_0_head m z a s : links m z (a ++ s) -> (fwd 0 s).1 = na <$> head s.
Proof.
  intros Hl. destruct s as [|d t]; [done|].
  pose proof (rep_heights _ _ _ Hl) as Hhs. apply Forall_app in Hhs as [_ [Hd _]%Forall_cons].
  assert (fwd 0 (d :: t) = (Some (na d), 1)) as ->; [|done].
  apply (fwd_tall 0 [] d t); [constructor|]. apply Nat.ltb_lt. lia.
Qed.

Lemma updates_on_mono z z' s1 us :
  header z' = header z -> zlevel z' <= zlevel z -> updates_on z s1 us -> updates_on z' s1 us.
Proof.
  intros Hh Hzl Hus i Hi. destruct (Hus i) as (u & Hu & (p & t & Hs & Hr & Hat & Ht)); [lia|].
  exists u. split; [done|]. exists p, t. split_and!; try done.
  destruct Hat as [(-> & -> & _)|?]; [left|by right]. by rewrite Hh.
Qed.

Section Ranges.
Context {D : Type} (del : D -> O -> option D).

(** The hash table after the deletion of a list of elements. *)
Fixpoint del_all (d : D) (l : list O) : option D :=
  match l with [] => Some d | o :: l => d ← del d o; del_all d l end.

Lemma delete_while_spec s1 s2 us go mid : forall fuel r m z d d',
  links m z (s1 ++ mid ++ s2) -> exact_level z (s1 ++ mid ++ s2) -> updates_on z s1 us ->
  (forall a x b n, mid = a ++ x :: b -> obj n = Some (no x) -> score n = ns x ->
     go (r + zlen a) n = true) ->
  (forall x t n, s2 = x :: t -> obj n = Some (no x) -> score n = ns x ->
     go (r + zlen mid) n = false) ->
  0 <= r -> r + zlen mid < 4294967296 -> (Datatypes.length mid <= fuel)%nat ->
  del_all d (no <$> mid) = Some d' ->
  exists z' m', delete_while del fuel go us r (na <$> head (mid ++ s2)) z m d
      = Some (r + zlen mid, z', m', d') /\
    links m' z' (s1 ++ s2) /\ exact_level z' (s1 ++ s2) /\ released m' = released m ++ (no <$> mid).
Proof.
  induction mid as [|x mid IH]; intros fuel r m z d d' Hl Hex Hus Hgo Hstop Hr Hrm Hf Hd.
  - cbn [app] in *. injection Hd as <-. exists z, m. rewrite zlen_nil, Z.add_0_r in *.
    split_and!; try done; [|by rewrite app_nil_r].
    destruct s2 as [|y t]; [by destruct fuel|].
    cbn [head fmap option_fmap option_map]. destruct fuel; cbn [delete_while];
      rewrite (rep_node _ _ _ Hl s1 y t eq_refl); sbind; by rewrite (Hstop y t).
  - cbn [app head fmap option_fmap option_map] in *. destruct fuel as [|fuel]; [simpl in Hf; lia|].
    cbn [delete_while].
    rewrite (rep_node _ _ _ Hl s1 x (mid ++ s2) eq_refl). sbind.
    rewrite zlen_cons in Hrm. pose proof (zlen_nonneg mid).
    assert (go r (node_of x (na <$> last s1) (mid ++ s2)) = true) as ->.
    { rewrite <- (Z.add_0_r r). by apply (Hgo [] x mid). }
    pose proof (rep_heights _ _ _ Hl) as Hhs. apply Forall_app in Hhs as [_ [Hhx _]%Forall_cons].
    assert (get_level (nodes m) (na x) 0 = Some (fwd 0 (mid ++ s2))) as ->.
    { unfold get_level. rewrite (rep_node _ _ _ Hl s1 x (mid ++ s2) eq_refl). sbind.
      cbn [level node_of]. change 0 with (Z.of_nat 0). rewrite getb_lookup.
      apply lookup_tower. lia. }
    sbind. destruct (zslDeleteFree m z s1 (mid ++ s2) us x Hl Hus)
      as (z' & m0 & m' & -> & Hfr & Hrel & Hh & Hzl & Hl' & Hex').
    sbind. cbn [snd fst obj node_of]. sbind. cbn [del_all fmap list_fmap] in Hd.
    destruct (del d (no x)) as [d1|]; [|done]. cbn [mbind option_bind] in Hd. sbind.
    rewrite Hfr. sbind. rewrite (fwd_0_head m' z' s1 (mid ++ s2)) by done.
    rewrite u64_small by lia.
    destruct (IH fuel (r + 1) m' z' d1 d') as (z2 & m2 & -> & Hl2 & Hex2 & Hrel2).
    { done. } { done. } { by apply (updates_on_mono z). }
    { intros a y b n Hs. rewrite <- Z.add_assoc, (Z.add_comm 1), Z.add_comm.
      replace (zlen a + 1 + r) with (r + zlen (x :: a)) by zlia. apply (Hgo (x :: a) y b). by rewrite Hs. }
    { intros y t n Hs. replace (r + 1 + zlen mid) with (r + zlen (x :: mid)) by zlia. by apply (Hstop y t). }
    { lia. } { lia. } { simpl in Hf. lia. } { done. }
    exists z2, m2. split_and!; try done.
    + do 3 f_equal. f_equal. zlia.
    + rewrite Hrel2, Hrel, <- app_assoc. done.
Qed.

(** Deleting the elements between two prefixes of a sorted sequence. *)
Lemma good_middle s1 mid s2 : good (s1 ++ mid ++ s2) -> good (s1 ++ s2).
Proof.
  induction mid as [|x mid IH]; intros Hg; [done|]. apply IH. by apply good_delete in Hg.
Qed.

End Ranges.

(** ** Ranges of scores *)

Definition range_ok (range : zrangespec) : Prop :=
  isnan (min range) = false /\ isnan (max range) = false.

Definition in_range (range : zrangespec) (d : nd) : bool :=
  zslValueGteMin (ns d) range && zslValueLteMax (ns d) range.

Lemma elt_score a b : elt a b -> lex (dkey (ns a)) (dkey (ns b)) <> Gt.
Proof.
  unfold elt, ekey. rewrite lex_app by (by rewrite !length_dkey).
  by destruct (lex (dkey (ns a)) (dkey (ns b))).
Qed.

Lemma lex_le_lt a b c : lex a b <> Gt -> lex b c = Lt -> lex a c = Lt.
Proof.
  intros Hab Hbc. destruct (lex a b) eqn:E; [|by eapply lex_trans|done].
  by apply lex_eq in E as ->.
Qed.

Lemma lex_le_trans a b c : lex a b <> Gt -> lex b c <> Gt -> lex a c <> Gt.
Proof.
  intros Hab Hbc. destruct (lex b c) eqn:E; [|by rewrite (lex_le_lt a b c)|done].
  apply lex_eq in E as <-. done.
Qed.

Lemma gte_min_iff v range : isnan v = false -> range_ok range ->
  zslValueGteMin v range = negb (if minex range then SFleb v (min range) else SFltb v (min range)).
Proof.
  intros Hv [Hmin _]. unfold zslValueGteMin. rewrite !SFleb_key, !SFltb_key by done.
  rewrite (lex_antisym (dkey v) (dkey (min range))).
  by destruct (minex range), (lex (dkey v) (dkey (min range))).
Qed.

Lemma below_min_prefixed range s : range_ok range -> Forall valid s ->
  prefixed (fun d => negb (zslValueGteMin (ns d) range)) s.
Proof.
  intros Hr Hv a b Ha Hb Hab. rewrite Forall_forall in Hv.
  destruct (Hv a Ha) as [Hna _]. destruct (Hv b Hb) as [Hnb _].
  rewrite !gte_min_iff, !negb_involutive by done. apply elt_score in Hab. destruct Hr as [Hmin _].
  rewrite !SFleb_key, !SFltb_key by done. destruct (minex range).
  - intros Hbm. assert (lex (dkey (ns a)) (dkey (min range)) <> Gt) as Ham.
    { apply (lex_le_trans _ _ _ Hab). by destruct (lex (dkey (ns b)) (dkey (min range))). }
    by destruct (lex (dkey (ns a)) (dkey (min range))).
  - intros Hbm. rewrite (lex_le_lt _ _ _ Hab); [done|].
    by destruct (lex (dkey (ns b)) (dkey (min range))).
Qed.

Lemma below_max_prefixed range s : range_ok range -> Forall valid s ->
  prefixed (fun d => zslValueLteMax (ns d) range) s.
Proof.
  intros [_ Hmax] Hv a b Ha Hb Hab. rewrite Forall_forall in Hv.
  destruct (Hv a Ha) as [Hna _]. destruct (Hv b Hb) as [Hnb _]. apply elt_score in Hab.
  unfold zslValueLteMax. rewrite !SFleb_key, !SFltb_key by done. destruct (maxex range).
  - intros Hbm. rewrite (lex_le_lt _ _ _ Hab); [done|].
    by destruct (lex (dkey (ns b)) (dkey (max range))).
  - intros Hbm. assert (lex (dkey (ns a)) (dkey (max range)) <> Gt) as Ham.
    { apply (lex_le_trans _ _ _ Hab). by destruct (lex (dkey (ns b)) (dkey (max range))). }
    by destruct (lex (dkey (ns a)) (dkey (max range))).
Qed.

Abbreviation filter_b P s := (filter (fun d => P d = true) s).

Lemma filter_none (P : nd -> bool) s : fails P s -> filter_b P s = [].
Proof. induction 1 as [|d s Hd _ IH]; [done|]. by rewrite filter_cons_False, IH by congruence. Qed.

Lemma filter_all (P : nd -> bool) s : holds P s -> filter_b P s = s.
Proof. induction 1 as [|d s Hd _ IH]; [done|]. by rewrite filter_cons_True, IH. Qed.

Lemma fails_impl (P Q : nd -> bool) s :
  (forall d, d ∈ s -> P d = false -> Q d = false) -> fails P s -> fails Q s.
Proof.
  unfold fails. rewrite !Forall_forall. intros Himp Hs d Hd. apply Himp; [done|by apply Hs].
Qed.

(** A sorted sequence is in three parts: below, in and above the range. *)
Lemma range_split range s : range_ok range -> good s ->
  exists s1 mid s2, s = s1 ++ mid ++ s2 /\
    holds (fun d => negb (zslValueGteMin (ns d) range)) s1 /\
    fails (fun d => negb (zslValueGteMin (ns d) range)) (mid ++ s2) /\
    holds (fun d => zslValueLteMax (ns d) range) mid /\
    fails (fun d => zslValueLteMax (ns d) range) s2 /\
    filter_b (in_range range) s = mid /\
    filter_b (fun d => negb (in_range range d)) s = s1 ++ s2.
Proof.
  intros Hr [Hv Hs]. destruct (sorted_split _ s Hs (below_min_prefixed range s Hr Hv)) as (s1 & r & -> & H1 & Hr1).
  apply Forall_app in Hv as [_ Hv]. apply StronglySorted_app_1_r in Hs.
  destruct (sorted_split _ r Hs (below_max_prefixed range r Hr Hv)) as (mid & s2 & -> & H2 & H3).
  exists s1, mid, s2. split_and!; try done;
    pose proof Hr1 as [Hm Hm2]%Forall_app; rewrite !filter_app.
  - rewrite (filter_none _ s1), (filter_all _ mid), (filter_none _ s2), app_nil_r; [done|..].
    + eapply fails_impl; [|exact H3]. intros d _ Hd. unfold in_range. by rewrite Hd, andb_false_r.
    + unfold holds in *. rewrite Forall_forall in *. intros d Hd. specialize (Hm d Hd).
      apply negb_false_iff in Hm. unfold in_range. by rewrite Hm, (H2 d Hd).
    + unfold holds, fails in *. rewrite Forall_forall in *. intros d Hd. specialize (H1 d Hd).
      apply negb_true_iff in H1. unfold in_range. by rewrite H1.
  - rewrite (filter_all _ s1), (filter_none _ mid), (filter_all _ s2); [done|..];
      unfold holds, fails in *; rewrite Forall_forall in *; intros d Hd.
    + unfold in_range. by rewrite (H3 d Hd), andb_false_r.
    + specialize (Hm d Hd). apply negb_false_iff in Hm. unfold in_range. by rewrite Hm, (H2 d Hd).
    + specialize (H1 d Hd). apply negb_true_iff in H1. unfold in_range. by rewrite H1.
Qed.

Lemma parts_known m z s1 s2 (g : Z -> zskiplistNode (O:=O) -> option bool) wrap :
  links m z (s1 ++ s2) -> splits (nodes m) g s1 s2 ->
  (forall k, 0 <= k < 4294967296 -> wrap k = k) ->
  exists us u0, descend_all wrap g z (nodes m) = Some us /\ updates z s1 us /\
    after_walk z (nodes m) us = Some (na <$> head s2) /\
    head us = Some u0 /\ u0.2 = zlen s1 /\ at_pos z 0 s1 u0.1.
Proof.
  intros Hl Hsp Hwrap. destruct (descend_all_spec m z s1 s2 g wrap Hl Hsp Hwrap) as (us & Hd & Hus).
  destruct (after_walk_spec _ _ _ _ _ Hl Hus) as [Ha (u0 & Hh & Hr & Hat)].
  by exists us, u0.
Qed.

Lemma zslDeleteRangeByScore_ok {D} (del : D -> O -> option D) m z s range d d' :
  zsl_ok m z s -> range_ok range ->
  del_all del d (no <$> filter_b (in_range range) s) = Some d' ->
  exists z' m', zslDeleteRangeByScore del z m range d
      = Some (zlen (filter_b (in_range range) s), z', m', d') /\
    zsl_ok m' z' (filter_b (fun d => negb (in_range range d)) s) /\
    released m' = released m ++ (no <$> filter_b (in_range range) s).
Proof.
  intros (Hl & Hex & Hg) Hr. pose proof Hg as [Hv Hs].
  destruct (range_split range s Hr Hg) as (s1 & mid & s2 & -> & H1 & Hr1 & H2 & H3 & -> & ->).
  intros Hd.
  pose proof (splits_P m z s1 (mid ++ s2) _ (fun n => Some (if minex range then SFleb (score n) (min range)
      else SFltb (score n) (min range))) Hl H1 Hr1) as Hsp.
  assert (forall (d : nd) n, d ∈ s1 ++ mid ++ s2 -> score n = ns d -> obj n = Some (no d) ->
      Some (if minex range then SFleb (score n) (min range) else SFltb (score n) (min range))
      = Some (negb (zslValueGteMin (ns d) range))) as Hgo.
  { intros e n He Hn _. rewrite Hn, gte_min_iff, negb_involutive; [done| |done].
    by apply (proj1 (Forall_forall _ _) Hv). }
  specialize (Hsp Hgo). clear Hgo.
  destruct (parts_known m z s1 (mid ++ s2) _ id Hl Hsp id_small)
    as (us & u0 & Hda & Hus & Ha & _ & _ & _).
  unfold zslDeleteRangeByScore. rewrite Hda. sbind. rewrite Ha. sbind.
  pose proof (links_size _ _ _ Hl) as Hsz. rewrite !length_app in Hsz.
  pose proof (rep_small _ _ _ Hl) as Hsm. rewrite !zlen_app in Hsm.
  pose proof (zlen_nonneg s1). pose proof (zlen_nonneg s2).
  unfold holds, fails in H2, H3. rewrite Forall_forall in H2, H3.
  destruct (delete_while_spec del s1 s2 us (fun _ n => if maxex range then SFltb (score n) (max range)
       else SFleb (score n) (max range)) mid (size (nodes m)) 0 m z d d')
    as (z' & m' & -> & Hl' & Hex' & Hrel); try done.
  { by apply updates_to. }
  { intros a x b n Hm _ Hn. rewrite Hn. apply (H2 x). rewrite Hm. set_solver. }
  { intros x t n Hm _ Hn. rewrite Hn. apply (H3 x). rewrite Hm. set_solver. }
  { lia. } { lia. }
  exists z', m'. rewrite Z.add_0_l. split; [done|]. split; [|done]. split; [done|].
  split; [done|]. by apply good_middle in Hg.
Qed.

Lemma splits_rank m z s (k : nat) (c : Z -> bool) :
  links m z s -> (forall r, 1 <= r -> c r = (r <=? Z.of_nat k)) ->
  splits (nodes m) (fun r _ => Some (c r)) (take k s) (drop k s).
Proof.
  intros Hl Hc. split.
  - intros a d b n Hs _. f_equal. pose proof (zlen_nonneg a). rewrite Hc by lia. apply Z.leb_le.
    pose proof (f_equal Datatypes.length Hs) as Hlen. rewrite length_take, length_app in Hlen.
    simpl in Hlen. unfold zlen. lia.
  - intros a d b n Hs _. f_equal. pose proof (zlen_nonneg a). pose proof (zlen_nonneg (take k s)).
    rewrite Hc by lia. apply Z.leb_gt.
    pose proof (f_equal Datatypes.length Hs) as Hlen. rewrite length_drop, length_app in Hlen.
    simpl in Hlen. unfold zlen in *. rewrite length_take. lia.
Qed.

Lemma zslDeleteRangeByRank_ok {D} (del : D -> O -> option D) m z s start end_ d d' :
  zsl_ok m z s -> 1 <= start < 4294967296 -> 0 <= end_ < 4294967296 ->
  let a := Z.to_nat (start - 1) in let n := (Z.to_nat end_ - a)%nat in
  del_all del d (no <$> take n (drop a s)) = Some d' ->
  exists z' m', zslDeleteRangeByRank del z m start end_ d
      = Some (zlen (take n (drop a s)), z', m', d') /\
    zsl_ok m' z' (take a s ++ drop n (drop a s)) /\
    released m' = released m ++ (no <$> take n (drop a s)).
Proof.
  intros (Hl & Hex & Hg) Hst Hend a n Hd.
  pose proof (splits_rank m z s a (fun r => r <? start) Hl) as Hsp.
  assert (forall r, 1 <= r -> (r <? start) = (r <=? Z.of_nat a)) as Hc.
  { intros r Hr. unfold a. destruct (Z.ltb_spec r start); symmetry; [apply Z.leb_le|apply Z.leb_gt]; lia. }
  specialize (Hsp Hc). pose proof Hl as Hl0. rewrite <- (take_drop a s) in Hl.
  destruct (parts_known m z (take a s) (drop a s) _ u64 Hl Hsp u64_rank)
    as (us & u0 & Hda & Hus & Ha & Hh & Hr0 & _).
  unfold zslDeleteRangeByRank. rewrite Hda. sbind. rewrite Ha. sbind. rewrite Hh. cbn [from_option].
  pose proof (links_size _ _ _ Hl0) as Hsz. pose proof (rep_small _ _ _ Hl0) as Hsm.
  assert (zlen (take a s) + zlen (take n (drop a s)) <= zlen s) as Hlen.
  { unfold zlen. rewrite !length_take, length_drop. lia. }
  assert (take a s ++ take n (drop a s) ++ drop n (drop a s) = s) as Hparts by (by rewrite !take_drop).
  pose proof (zlen_nonneg (take a s)). pose proof (zlen_nonneg (take n (drop a s))).
  assert (head (drop a s) = head (take n (drop a s) ++ drop n (drop a s))) as ->
    by (by rewrite take_drop).
  destruct (delete_while_spec del (take a s) (drop n (drop a s)) us
      (fun removed _ => u64 (u64 (u0.2 + 1) + removed) <=? end_) (take n (drop a s))
      (size (nodes m)) 0 m z d d') as (z' & m' & -> & Hl' & Hex' & Hrel).
  { by rewrite Hparts. } { by rewrite Hparts. } { by apply updates_to. }
  { intros b x c nn Hm _ _. rewrite Hr0. apply Z.leb_le.
    pose proof (f_equal Datatypes.length Hm) as Hlm.
    rewrite length_take, length_drop, length_app in Hlm. simpl in Hlm.
    assert (zlen b < zlen (take n (drop a s))) by (rewrite Hm; zlia).
    pose proof (zlen_nonneg b).
    rewrite (u64_small (zlen (take a s) + 1)), u64_small by lia. unfold zlen in *. rewrite length_take in *. unfold n, a in *. lia. }
  { intros x t nn Hm _ _. rewrite Hr0. apply Z.leb_gt.
    pose proof (f_equal Datatypes.length Hm) as Hlm.
    rewrite length_drop, length_drop in Hlm. simpl in Hlm.
    rewrite (u64_small (zlen (take a s) + 1)), u64_small by lia. unfold zlen in *. rewrite !length_take, ?length_drop in *.
    unfold n, a in *. lia. }
  { lia. } { lia. } { rewrite length_take, length_drop. lia. } { done. }
  exists z', m'. rewrite Z.add_0_l. split; [done|]. split; [|done]. split; [done|].
  split; [done|]. apply (good_middle (take a s) (take n (drop a s))). by rewrite Hparts.
Qed.

Lemma hdr_next m z s : links m z s -> get_level (nodes m) (header z) 0 = Some (fwd 0 s).
Proof.
  intros Hl. pose proof (rep_zl _ _ _ Hl). apply (at_pos_level m z s 0 [] (header z) s Hl); [|done].
  left. split_and!; [done..|lia].
Qed.

Lemma tail_node m z s d : links m z (s ++ [d]) ->
  tail z = Some (na d) /\ nodes m !! na d = Some (node_of d (na <$> last s) []).
Proof.
  intros Hl. split; [rewrite (rep_tail _ _ _ Hl); by rewrite last_snoc|]. by apply (rep_node _ _ _ Hl).
Qed.

Lemma lex_lt_le a b c : lex a b = Lt -> lex b c <> Gt -> lex a c = Lt.
Proof.
  intros Hab Hbc. destruct (lex b c) eqn:E; [|by eapply lex_trans|done].
  by apply lex_eq in E as <-.
Qed.

(** An element in range shows that the bounds are in order. *)
Lemma in_range_bounds range d : range_ok range -> isnan (ns d) = false -> in_range range d = true ->
  lex (dkey (min range)) (dkey (max range)) <> Gt /\
  ((minex range || maxex range) = true -> lex (dkey (min range)) (dkey (max range)) = Lt).
Proof.
  intros [Hmin Hmax] Hd. unfold in_range, zslValueGteMin, zslValueLteMax.
  rewrite !SFleb_key, !SFltb_key by done. rewrite andb_true_iff.
  set (a := dkey (min range)). set (b := dkey (ns d)). set (c := dkey (max range)). intros [H1 H2].
  assert (lex a b <> Gt) as Hab by (by destruct (minex range), (lex a b)).
  assert (lex b c <> Gt) as Hbc by (by destruct (maxex range), (lex b c)).
  split; [by apply (lex_le_trans _ b)|]. destruct (minex range).
  - intros _. apply (lex_lt_le _ b); [by destruct (lex a b)|done].
  - destruct (maxex range); [|done]. intros _. apply (lex_le_lt _ b); [done|by destruct (lex b c)].
Qed.

Lemma empty_range range s : range_ok range -> good s ->
  SFltb (max range) (min range) || SFeqb (min range) (max range) && (minex range || maxex range) = true ->
  filter_b (in_range range) s = [].
Proof.
  intros Hr [Hv _] Hemp. apply filter_none, Forall_forall. intros d Hd.
  destruct (in_range range d) eqn:Hin; [|done]. exfalso.
  destruct (in_range_bounds range d Hr) as [Hle Hlt]; [|done|].
  { by apply (proj1 (Forall_forall _ _) Hv). }
  destruct Hr as [Hmin Hmax]. rewrite SFltb_key, SFeqb_key, lex_antisym in Hemp by done.
  destruct (lex (dkey (min range)) (dkey (max range))); [|done|done].
  destruct (minex range || maxex range); [|done]. by specialize (Hlt eq_refl).
Qed.

(** Elements that come after (before) an element above (below) the range. *)
Lemma holds_all (P : nd -> bool) s d : StronglySorted elt (s ++ [d]) -> prefixed P (s ++ [d]) ->
  P d = true -> holds P (s ++ [d]).
Proof.
  intros Hs HP Hd. apply Forall_app. split; [|by constructor]. apply Forall_forall. intros e He.
  apply (HP e d); [set_solver..| |done]. apply StronglySorted_app in Hs as [Hs _]. apply Hs; set_solver.
Qed.

Lemma fails_all (P : nd -> bool) d s : StronglySorted elt (d :: s) -> prefixed P (d :: s) ->
  P d = false -> fails P (d :: s).
Proof.
  intros Hs HP Hd. constructor; [done|]. apply Forall_forall. intros e He.
  destruct (P e) eqn:Hpe; [|done]. rewrite <- Hd. symmetry. apply (HP d e); [set_solver..| |done].
  apply StronglySorted_inv in Hs as [_ Hs]. by apply (proj1 (Forall_forall _ _) Hs).
Qed.

(** [zslIsInRange] is [false] only when no element is in range, [true] only when
    the first element is not above the range and the last one not below. *)
Lemma zslIsInRange_ok m z s range :
  zsl_ok m z s -> range_ok range ->
  exists b, zslIsInRange z m range = Some b /\
    (b = false -> filter_b (in_range range) s = []) /\
    (b = true -> (exists d s', s = d :: s' /\ zslValueLteMax (ns d) range = true) /\
       exists d s', s = s' ++ [d] /\ zslValueGteMin (ns d) range = true).
Proof.
  intros (Hl & _ & Hg) Hr. pose proof Hg as [Hv Hs]. unfold zslIsInRange.
  destruct (SFltb (max range) (min range) || _) eqn:Hemp.
  { exists false. split; [done|]. split; [|done]. intros _. by apply empty_range. }
  clear Hemp. destruct s as [|d0 s0] using rev_ind.
  { rewrite (rep_tail _ _ _ Hl). by exists false. }
  clear IHs0. destruct (tail_node m z s0 d0 Hl) as [-> ->]. sbind. cbn [score node_of].
  destruct (zslValueGteMin (ns d0) range) eqn:Hge; cbn [negb].
  2: { exists false. split; [done|]. split; [|done]. intros _. apply filter_none.
       apply (fails_impl (fun d => zslValueGteMin (ns d) range)).
       { intros d _ Hd. unfold in_range. by rewrite Hd. }
       pose proof (holds_all (fun d => negb (zslValueGteMin (ns d) range)) s0 d0 Hs) as Hall.
       eapply Forall_impl; [apply Hall; [by apply below_min_prefixed|by rewrite Hge]|].
       intros d Hd. by apply negb_true_iff in Hd. }
  rewrite (hdr_next _ _ _ Hl). sbind. rewrite (fwd_0_head m z [] (s0 ++ [d0])) by done.
  destruct (s0 ++ [d0]) as [|d1 s1] eqn:Hs1; [by destruct s0|].
  cbn [head fmap option_fmap option_map]. rewrite (rep_node _ _ _ Hl [] d1 s1 eq_refl). sbind.
  cbn [score node_of]. exists (zslValueLteMax (ns d1) range). split; [done|]. split.
  - intros Hle. apply filter_none.
    apply (fails_impl (fun d => zslValueLteMax (ns d) range)).
    { intros d _ Hd. unfold in_range. by rewrite Hd, andb_false_r. }
    apply fails_all; [done|by apply below_max_prefixed|done].
  - intros Hle. split; [by exists d1, s1|]. by exists d0, s0.
Qed.

Lemma zslFirstInRange_ok m z s range :
  zsl_ok m z s -> range_ok range ->
  zslFirstInRange z m range = Some (na <$> head (filter_b (in_range range) s)).
Proof.
  intros Hok Hr. destruct (zslIsInRange_ok m z s range Hok Hr) as (b & Hb & Hf & Ht).
  pose proof Hok as (Hl & _ & Hg). pose proof Hg as [Hv Hs].
  unfold zslFirstInRange. rewrite Hb. sbind. destruct b; cbn [negb]; [|by rewrite Hf].
  destruct (Ht eq_refl) as [_ (dl & sl & Hlast & Hge)]. clear Ht Hf.
  destruct (range_split range s Hr Hg) as (s1 & mid & s2 & -> & H1 & Hr1 & H2 & H3 & Hfil & _).
  pose proof (splits_P m z s1 (mid ++ s2) _
    (fun n => Some (negb (zslValueGteMin (score n) range))) Hl H1 Hr1) as Hsp.
  specialize (Hsp ltac:(intros e n _ Hn _; cbv beta; by rewrite Hn)).
  destruct (parts_known m z s1 (mid ++ s2) _ id Hl Hsp id_small)
    as (us & u0 & Hda & Hus & Ha & _ & _ & _).
  rewrite Hda. sbind. rewrite Ha. sbind. rewrite Hfil.
  destruct mid as [|d mid].
  - destruct s2 as [|d s2].
    + exfalso. rewrite !app_nil_r in Hlast. subst s1. apply Forall_app in H1 as [_ [H1 _]%Forall_cons].
      by rewrite Hge in H1.
    + cbn [app head fmap option_fmap option_map]. sbind.
      rewrite (rep_node _ _ _ Hl s1 d s2 eq_refl). sbind. cbn [score node_of].
      apply Forall_cons in H3 as [-> _]. done.
  - cbn [app head fmap option_fmap option_map]. sbind.
    rewrite (rep_node _ _ _ Hl s1 d (mid ++ s2) eq_refl). sbind. cbn [score node_of].
    apply Forall_cons in H2 as [-> _]. done.
Qed.

Lemma last_of_walk m z s1 s2 d u :
  links m z ((s1 ++ [d]) ++ s2) -> at_pos z 0 (s1 ++ [d]) u -> u = na d.
Proof.
  intros Hl [(Habs & _ & _)|(p & e & Heq & -> & _)]; [by destruct s1|].
  apply app_inj_2 in Heq as [_ [= <-]]; done.
Qed.

Lemma zslLastInRange_ok m z s range :
  zsl_ok m z s -> range_ok range ->
  zslLastInRange z m range = Some (na <$> last (filter_b (in_range range) s)).
Proof.
  intros Hok Hr. destruct (zslIsInRange_ok m z s range Hok Hr) as (b & Hb & Hf & Ht).
  pose proof Hok as (Hl & _ & Hg). pose proof Hg as [Hv Hs].
  unfold zslLastInRange. rewrite Hb. sbind. destruct b; cbn [negb]; [|by rewrite Hf].
  destruct (Ht eq_refl) as [(d0 & s0 & Hfirst & Hle) _]. clear Ht Hf.
  destruct (sorted_split (fun d => zslValueLteMax (ns d) range) s Hs) as (p & q & -> & Hp & Hq).
  { by apply below_max_prefixed. }
  pose proof (splits_P m z p q _ (fun n => Some (zslValueLteMax (score n) range)) Hl Hp Hq) as Hsp.
  specialize (Hsp ltac:(intros e n _ Hn _; cbv beta; by rewrite Hn)).
  destruct (parts_known m z p q _ id Hl Hsp id_small)
    as (us & u0 & Hda & Hus & _ & Hh & _ & Hat).
  rewrite Hda. sbind. rewrite Hh. cbn [from_option].
  assert (filter_b (in_range range) q = []) as Hfq.
  { apply filter_none. eapply fails_impl; [|exact Hq]. intros e _ He. unfold in_range.
    by rewrite He, andb_false_r. }
  rewrite filter_app, Hfq, app_nil_r. clear Hfq.
  destruct p as [|d p] using rev_ind.
  { exfalso. simpl in Hfirst. subst q. apply Forall_cons in Hq as [Hq _]. congruence. }
  clear IHp. rewrite (last_of_walk m z p q d u0.1 Hl Hat).
  rewrite (rep_node _ _ _ Hl p d q) by (by rewrite <- app_assoc). sbind. cbn [score node_of].
  apply Forall_app in Hp as [_ [Hd _]%Forall_cons]. apply Forall_app in Hv as [Hv _].
  apply StronglySorted_app_1_l in Hs. destruct (zslValueGteMin (ns d) range) eqn:Hge.
  - rewrite filter_app, filter_cons_True, filter_nil, last_snoc; [done|]. unfold in_range. by rewrite Hge, Hd.
  - rewrite filter_none; [done|].
    apply (fails_impl (fun d => zslValueGteMin (ns d) range)).
    { intros e _ He. unfold in_range. by rewrite He. }
    pose proof (holds_all (fun d => negb (zslValueGteMin (ns d) range)) p d Hs) as Hall.
    eapply Forall_impl; [apply Hall; [by apply below_min_prefixed|by rewrite Hge]|].
    intros e He. by apply negb_true_iff in He.
Qed.

(** ** Ranks *)

Section Ranks.
Context (m : memory (O:=O)) (z : zskiplist) (s1 s2 : list nd).
Hypothesis Hl : links m z (s1 ++ s2).

(** A step of the two search loops. *)
Lemma walk_rank g i p t x :
  splits (nodes m) g s1 s2 -> s1 = p ++ t -> at_pos z i p x ->
  exists p' t' u, walk (size (nodes m)) u64 g (nodes m) (Z.of_nat i) x (zlen p) = Some u /\
    s1 = p' ++ t' /\ u.2 = zlen p' /\ at_pos z i p' u.1 /\ short i t'.
Proof.
  intros Hsp Hs Hat. pose proof (links_size _ _ _ Hl) as Hsz. rewrite length_app in Hsz.
  destruct (walk_spec m z s1 s2 i g u64 Hl Hsp u64_rank (size (nodes m)) p t x Hs Hat)
    as (u & Hw & (p' & t' & Hs' & Hr & Hat' & Ht')).
  { rewrite Hs, length_app in Hsz. lia. }
  by exists p', t', u.
Qed.

Lemma by_rank_loop_spec rank : 1 <= rank -> splits (nodes m) (fun r _ => Some (r <=? rank)) s1 s2 ->
  forall n p t x, s1 = p ++ t -> at_pos z (pred n) p x -> (n = 0%nat -> t = []) -> p <> s1 \/ (0 < n)%nat ->
  (zlen s1 < rank -> by_rank_loop (nodes m) rank n x (zlen p) = Some None) /\
  (zlen s1 = rank -> by_rank_loop (nodes m) rank n x (zlen p) = Some (na <$> last s1)).
Proof.
  intros Hrank Hsp. induction n as [|n IH]; intros p t x Hs Hat Ht Hn.
  { exfalso. rewrite (Ht eq_refl), app_nil_r in Hs. destruct Hn as [Hn|Hn]; [by apply Hn|lia]. }
  cbn [by_rank_loop]. destruct (walk_rank _ n p t x Hsp Hs Hat) as (p' & t' & u & -> & Hs' & Hr & Hat' & Ht').
  sbind. rewrite Hr. pose proof (zlen_nonneg t') as Hnn.
  assert (zlen s1 = zlen p' + zlen t') as Hlen by (rewrite Hs'; zlia).
  destruct (Z.eqb_spec (zlen p') rank) as [Heq|Hne].
  - split; intros Hsr; [lia|]. assert (t' = []) as -> by (destruct t'; [done|]; revert Hlen; zlia).
    rewrite app_nil_r in Hs'. subst p'. f_equal.
    destruct Hat' as [(Habs & _ & _)|(q & e & -> & -> & _)].
    + rewrite Habs, zlen_nil in Heq. lia.
    + by rewrite last_snoc.
  - destruct n as [|n].
    + assert (t' = []) as ->.
      { apply (short_0 m z p' (s1 ++ s2) (t' ++ s2) Hl) with (b := s2); try done.
        by rewrite Hs', <- app_assoc. }
      rewrite zlen_nil in Hlen. split; intros Hsr; [done|lia].
    + apply (IH p' t' u.1 Hs'); [by apply (at_pos_le z (S n)); [simpl; lia|]|done|right; lia].
Qed.
End Ranks.

Lemma zslGetElementByRank_ok m z s rank :
  zsl_ok m z s -> 1 <= rank < 18446744073709551616 ->
  zslGetElementByRank z m rank = Some (na <$> s !! Z.to_nat (rank - 1)).
Proof.
  intros (Hl & _ & _) Hr. pose proof (splits_rank m z s (Z.to_nat rank) (fun r => r <=? rank) Hl) as Hsp.
  specialize (Hsp ltac:(intros r _; cbv beta; by rewrite Z2Nat.id by lia)). pose proof (rep_zl _ _ _ Hl) as Hzl.
  rewrite <- (take_drop (Z.to_nat rank) s) in Hl.
  destruct (by_rank_loop_spec m z _ _ Hl rank ltac:(lia) Hsp (zl z) [] (take (Z.to_nat rank) s) (header z) eq_refl)
    as [H1 H2]; [left; split_and!; [done..|lia]|lia|right; lia|].
  unfold zslGetElementByRank. rewrite zlen_nil in H1, H2.
  destruct (decide (Z.to_nat rank <= Datatypes.length s)%nat) as [Hle|Hgt].
  - rewrite H2 by (unfold zlen; rewrite length_take; lia). do 2 f_equal.
    rewrite last_lookup, length_take, lookup_take_lt by lia. f_equal. lia.
  - rewrite H1 by (unfold zlen; rewrite length_take; lia).
    rewrite lookup_ge_None_2 by lia. done.
Qed.

Section GetRank.
Context (m : memory (O:=O)) (z : zskiplist) (s1 s2 : list nd) (sc : double) (o : O).
Hypothesis Hl : links m z (s1 ++ s2).
Hypothesis Hsp : splits (nodes m) (fun _ n => node_before true sc o n) s1 s2.
Hypothesis Hv : Forall valid (s1 ++ s2).
Hypothesis Ho : ovalid o.

(** The test of the object at the end of the walk on a level. *)
Lemma rank_test p t u i : s1 = p ++ t -> at_pos z i p u ->
  exists nx, nodes m !! u = Some nx /\
    match obj nx with Some o' => oequal o' o | None => Some false end
    = Some (match last p with Some d => bool_decide (ostr (no d) = ostr o) | None => false end).
Proof.
  intros Hs [(-> & -> & _)|(q & d & -> & -> & _)].
  - destruct (rep_hdr _ _ _ Hl) as (hn & Hhn & Hobj & _). exists hn. by rewrite Hobj.
  - eexists. split.
    { apply (rep_node _ _ _ Hl q d (t ++ s2)). by rewrite Hs, <- !app_assoc. }
    cbn [obj node_of]. rewrite last_snoc. apply oequal_spec; [|done].
    assert (d ∈ s1 ++ s2) as Hd by (rewrite Hs; set_solver).
    by destruct (proj1 (Forall_forall _ _) Hv d Hd).
Qed.

Lemma rank_loop_absent : Forall (fun d => ostr (no d) <> ostr o) s1 ->
  forall n p t x, s1 = p ++ t -> at_pos z (pred n) p x ->
  rank_loop (nodes m) sc o n x (zlen p) = Some 0.
Proof.
  intros Hno. induction n as [|n IH]; intros p t x Hs Hat; [done|]. cbn [rank_loop].
  destruct (walk_rank m z s1 s2 Hl _ n p t x Hsp Hs Hat)
    as (p' & t' & u & -> & Hs' & Hr & Hat' & Ht').
  sbind. destruct (rank_test p' t' u.1 n Hs' Hat') as (nx & -> & Ht). sbind. rewrite Ht. sbind.
  destruct (last p') as [d|] eqn:Hlast.
  - rewrite bool_decide_eq_false_2.
    2: { rewrite Forall_forall in Hno. apply Hno. rewrite Hs'. apply last_Some_elem_of in Hlast. set_solver. }
    rewrite Hr. apply (IH p' t' u.1 Hs'). apply (at_pos_le z n); [lia|done].
  - rewrite Hr. apply (IH p' t' u.1 Hs'). apply (at_pos_le z n); [lia|done].
Qed.

Lemma rank_loop_found d q : s1 = q ++ [d] -> ostr (no d) = ostr o ->
  Forall (fun e => ostr (no e) <> ostr o) q ->
  forall n p t x, s1 = p ++ t -> at_pos z (pred n) p x -> (0 < n)%nat ->
  rank_loop (nodes m) sc o n x (zlen p) = Some (zlen s1).
Proof.
  intros Hq Hd Hno. induction n as [|n IH]; intros p t x Hs Hat Hn; [lia|]. cbn [rank_loop].
  destruct (walk_rank m z s1 s2 Hl _ n p t x Hsp Hs Hat)
    as (p' & t' & u & -> & Hs' & Hr & Hat' & Ht').
  sbind. destruct (rank_test p' t' u.1 n Hs' Hat') as (nx & -> & Ht). sbind. rewrite Ht. sbind.
  destruct t' as [|e t'] using rev_ind.
  - rewrite app_nil_r in Hs'. rewrite <- Hs', Hq, last_snoc, bool_decide_eq_true_2 by done.
    rewrite Hr, <- Hs', Hq. done.
  - clear IHt'. assert (q = p' ++ t') as Hqp.
    { rewrite Hq, app_assoc in Hs'. by apply app_inj_2 in Hs' as [? _]. }
    destruct n as [|n].
    { assert (t' ++ [e] = []) as Habs.
      { apply (short_0 m z p' (s1 ++ s2) ((t' ++ [e]) ++ s2) Hl) with (b := s2); try done.
        by rewrite Hs', <- app_assoc. }
      by destruct t'. }
    destruct (last p') as [c|] eqn:Hlast.
    + rewrite bool_decide_eq_false_2.
      2: { rewrite Forall_forall in Hno. apply Hno. rewrite Hqp. apply last_Some_elem_of in Hlast. set_solver. }
      rewrite Hr. apply (IH p' (t' ++ [e]) u.1 Hs'); [by apply (at_pos_le z (S n)); [simpl; lia|]|lia].
    + rewrite Hr. apply (IH p' (t' ++ [e]) u.1 Hs'); [by apply (at_pos_le z (S n)); [simpl; lia|]|lia].
Qed.
End GetRank.

(** The elements up to a key are those before it and itself. *)
Lemma upto_split a d b : good (a ++ d :: b) ->
  holds (before true (key d)) (a ++ [d]) /\ fails (before true (key d)) b.
Proof.
  intros [_ Hs]. apply StronglySorted_app in Hs as (Hlt & _ & Hs).
  apply StronglySorted_inv in Hs as [_ Hs]. rewrite Forall_forall in Hs. unfold holds, fails. split.
  - apply Forall_app. split.
    + apply Forall_forall. intros e He. specialize (Hlt e d He ltac:(left)). unfold elt in Hlt.
      unfold before. fold (key e) (key d) in Hlt. by rewrite Hlt.
    + constructor; [|constructor]. unfold before. by rewrite lex_refl.
  - apply Forall_forall. intros e He. specialize (Hs e He). unfold elt in Hs.
    fold (key d) (key e) in Hs. unfold before. by rewrite lex_antisym, Hs.
Qed.

Lemma rank_walk m z s1 s2 sc o :
  links m z (s1 ++ s2) -> Forall valid (s1 ++ s2) -> isnan sc = false -> ovalid o ->
  holds (before true (ekey sc o)) s1 -> fails (before true (ekey sc o)) s2 ->
  splits (nodes m) (fun _ n => node_before true sc o n) s1 s2.
Proof.
  intros Hl Hv Hsc Ho H1 H2. apply (splits_P m z s1 s2 _ (node_before true sc o) Hl H1 H2).
  intros d n Hd. apply node_before_spec; try done. by apply (proj1 (Forall_forall _ _) Hv).
Qed.

Lemma zslGetRank_found m z a d b :
  zsl_ok m z (a ++ d :: b) -> Forall (fun e => ostr (no e) <> ostr (no d)) a ->
  zslGetRank z m (ns d) (no d) = Some (zlen a + 1).
Proof.
  intros (Hl & _ & Hg) Hno. pose proof Hg as [Hv _]. destruct (upto_split a d b Hg) as [H1 H2].
  assert (a ++ d :: b = (a ++ [d]) ++ b) as Heq by (by rewrite <- app_assoc).
  rewrite Heq in Hl, Hv. pose proof (rep_zl _ _ _ Hl).
  assert (valid d) as [Hnan Hvd] by (rewrite Forall_forall in Hv; apply Hv; set_solver).
  pose proof (rank_walk m z (a ++ [d]) b (ns d) (no d) Hl Hv Hnan Hvd H1 H2) as Hsp.
  unfold zslGetRank. rewrite <- (zlen_nil (A:=nd)).
  rewrite (rank_loop_found m z (a ++ [d]) b (ns d) (no d) Hl Hsp Hv Hvd d a eq_refl eq_refl Hno
    (zl z) [] (a ++ [d]) (header z) eq_refl); [f_equal; zlia|left; split_and!; [done..|lia]|lia].
Qed.

Lemma zslGetRank_absent m z s sc o :
  zsl_ok m z s -> isnan sc = false -> ovalid o -> Forall (fun e => ostr (no e) <> ostr o) s ->
  zslGetRank z m sc o = Some 0.
Proof.
  intros (Hl & _ & Hg) Hsc Ho Hno. pose proof Hg as [Hv Hs].
  destruct (sorted_split (before true (ekey sc o)) s Hs (before_prefixed _ _ _)) as (s1 & s2 & -> & H1 & H2).
  pose proof (rank_walk m z s1 s2 sc o Hl Hv Hsc Ho H1 H2) as Hsp. pose proof (rep_zl _ _ _ Hl).
  unfold zslGetRank. rewrite <- (zlen_nil (A:=nd)) at 1. apply Forall_app in Hno as [Hno _].
  apply (rank_loop_absent m z s1 s2 sc o Hl Hsp Hv Ho Hno (zl z) [] s1 (header z) eq_refl).
  left. split_and!; [done..|lia].
Qed.

(** ** zslFree, zslCreate *)

Lemma free_loop_spec (s : list nd) : forall fuel (m : memory (O:=O)) a,
  (forall b d c, s = b ++ d :: c -> nodes m !! na d = Some (node_of d (na <$> last (a ++ b)) c)) ->
  NoDup (na <$> s) -> Forall (fun d => (1 <= nh d)%nat) s -> dom (nodes m) = list_to_set (na <$> s) ->
  (Datatypes.length s <= fuel)%nat ->
  free_loop fuel m (na <$> head s) = Some (mk_mem ∅ (released m ++ (no <$> s))).
Proof.
  induction s as [|d s IH]; intros fuel m a Hn Hnd Hh Hdom Hf.
  - destruct fuel; cbn [free_loop head fmap option_fmap option_map]; f_equal; destruct m as [h r];
      simpl in *; rewrite app_nil_r; f_equal; by apply dom_empty_inv_L.
  - cbn [head fmap option_fmap option_map]. destruct fuel as [|fuel]; [simpl in Hf; lia|].
    cbn [free_loop]. pose proof (Hn [] d s eq_refl) as Hd. rewrite app_nil_r in Hd.
    apply Forall_cons in Hh as [Hhd Hh]. unfold get_level. rewrite Hd. sbind. cbn [level node_of].
    change 0 with (Z.of_nat 0). rewrite getb_lookup, lookup_tower by lia. sbind.
    unfold zslFreeNode. rewrite Hd. sbind. cbn [obj node_of]. sbind.
    assert ((fwd 0 s).1 = na <$> head s) as ->.
    { destruct s as [|e s]; [done|]. apply Forall_cons in Hh as [He _].
      assert (fwd 0 (e :: s) = (Some (na e), 1)) as ->; [|done].
      apply (fwd_tall 0 [] e s); [constructor|]. apply Nat.ltb_lt. lia. }
    rewrite fmap_cons in Hnd. apply NoDup_cons in Hnd as [Hnin Hnd].
    rewrite (IH fuel _ (a ++ [d])); [|..].
    + simpl. by rewrite <- app_assoc.
    + intros b e c Hs. simpl. rewrite lookup_delete_ne.
      * rewrite <- app_assoc. apply (Hn (d :: b) e c). by rewrite Hs.
      * intros Heq. apply Hnin. rewrite Heq, Hs, fmap_app. set_solver.
    + done.
    + done.
    + simpl. rewrite dom_delete_L, Hdom, fmap_cons, list_to_set_cons.
      rewrite difference_union_distr_l_L, difference_diag_L, (left_id_L ∅ (∪)).
      apply difference_disjoint_L, disjoint_singleton_r. by rewrite elem_of_list_to_set.
    + simpl in Hf. lia.
Qed.

Lemma zslFree_ok m z s : links m z s ->
  zslFree z m = Some (mk_mem ∅ (released m ++ (no <$> s))).
Proof.
  intros Hl. unfold zslFree. rewrite (hdr_next _ _ _ Hl). sbind. rewrite (fwd_0_head m z [] s) by done.
  pose proof (rep_nodup _ _ _ Hl) as [Hnin Hnd]%NoDup_cons. pose proof (links_size _ _ _ Hl).
  rewrite (free_loop_spec s _ _ []); [done|..].
  - intros b d c Hs. simpl. rewrite lookup_delete_ne; [by apply (rep_node _ _ _ Hl)|].
    intros Heq. apply Hnin. rewrite Heq, Hs, fmap_app. set_solver.
  - done.
  - eapply Forall_impl; [apply (rep_heights _ _ _ Hl)|]. intros d Hd. simpl in Hd. lia.
  - simpl. rewrite dom_delete_L, (rep_dom _ _ _ Hl), list_to_set_cons.
    rewrite difference_union_distr_l_L, difference_diag_L, (left_id_L ∅ (∪)).
    apply difference_disjoint_L, disjoint_singleton_r. by rewrite elem_of_list_to_set.
  - lia.
Qed.

Lemma zslCreate_ok : exists z m, zslCreate = Some (z, m) /\ zsl_ok m z [] /\ released m = [].
Proof.
  eexists _, _. split; [vm_compute; reflexivity|]. split; [|done]. split; [|split].
  - split; cbn [nodes header tail length zlevel].
    + eexists. split; [by vm_compute|]. split; [done|]. split; [done|]. split.
      * intros i Hi. simpl in Hi. assert (i = 0%nat) as -> by lia. done.
      * simpl. intros i Hi. do 32 (destruct i as [|i]; [lia || (eexists; done)|]). lia.
    + intros a d b Hs. by destruct a.
    + by vm_compute.
    + apply NoDup_singleton.
    + done.
    + done.
    + vm_compute. done.
    + simpl. lia.
    + constructor.
  - by left.
  - split; constructor.
Qed.

(** ** Sequences of operations

    The abstract state is the list of the scores and objects in order, with the
    hash table that the deletions of ranges update. *)

Definition view (s : list nd) : list (double * O) := (fun d => (ns d, no d)) <$> s.
Definition pkey (e : double * O) : list Z := ekey e.1 e.2.

Definition p_before (k : list Z) (e : double * O) : bool :=
  match lex (pkey e) k with Lt => true | _ => false end.
Definition p_in_range (range : zrangespec) (e : double * O) : bool :=
  zslValueGteMin e.1 range && zslValueLteMax e.1 range.

Inductive zop :=
  | ZInsert (rnd : list Z) (sc : double) (o : O)
  | ZDelete (sc : double) (o : O)
  | ZDeleteByScore (range : zrangespec)
  | ZDeleteByRank (start end_ : Z).

Definition op_ok (op : zop) : Prop :=
  match op with
  | ZInsert _ sc o | ZDelete sc o => isnan sc = false /\ ovalid o
  | ZDeleteByScore range => range_ok range
  | ZDeleteByRank start end_ => 1 <= start < 4294967296 /\ 0 <= end_ < 4294967296
  end.

Section Run.
Context {D : Type} (del : D -> O -> option D).

(** What the operations promise.  An insertion is only made of an absent
    element, the deletion of a range fails when the hash table does. *)
Definition spec_step (op : zop) (st : list (double * O) * D) : option (Z * (list (double * O) * D)) :=
  let '(v, d) := st in
  match op with
  | ZInsert rnd sc o =>
      let k := ekey sc o in
      lv ← zslRandomLevel rnd;
      if bool_decide (Forall (fun e => pkey e <> k) v) && (zlen v + 1 <? 4294967296)
      then Some (0, (filter (fun e => p_before k e = true) v ++ (sc, o) ::
                     filter (fun e => p_before k e = false) v, d))
      else None
  | ZDelete sc o =>
      let k := ekey sc o in
      Some (if bool_decide (Forall (fun e => pkey e <> k) v) then 0 else 1,
            (filter (fun e => pkey e <> k) v, d))
  | ZDeleteByScore range =>
      let gone := filter (fun e => p_in_range range e = true) v in
      d ← del_all del d (gone.*2);
      Some (zlen gone, (filter (fun e => negb (p_in_range range e) = true) v, d))
  | ZDeleteByRank start end_ =>
      let a := Z.to_nat (start - 1) in
      let n := (Z.to_nat end_ - a)%nat in
      let gone := take n (drop a v) in
      d ← del_all del d (gone.*2);
      Some (zlen gone, (take a v ++ drop n (drop a v), d))
  end.

Definition zsl_step (op : zop) (st : zskiplist * memory (O:=O) * D)
  : option (Z * (zskiplist * memory (O:=O) * D)) :=
  let '(z, m, d) := st in
  match op with
  | ZInsert rnd sc o => r ← zslInsert rnd z m sc o; Some (0, (r.1.2, r.2, d))
  | ZDelete sc o => r ← zslDelete z m sc o; Some (Z.b2z r.1.1, (r.1.2, r.2, d))
  | ZDeleteByScore range => r ← zslDeleteRangeByScore del z m range d; Some (r.1.1.1, (r.1.1.2, r.1.2, r.2))
  | ZDeleteByRank start end_ =>
      r ← zslDeleteRangeByRank del z m start end_ d; Some (r.1.1.1, (r.1.1.2, r.1.2, r.2))
  end.

Fixpoint run {S} (step : zop -> S -> option (Z * S)) (ops : list zop) (st : S)
  : option (list Z * S) :=
  match ops with
  | [] => Some ([], st)
  | op :: ops =>
      r ← step op st;
      rs ← run step ops r.2;
      Some (r.1 :: rs.1, rs.2)
  end.

(** The objects that the operations hand over to the skip list. *)
Definition handed (op : zop) : list O :=
  match op with ZInsert _ _ o => [o] | _ => [] end.

Lemma filter_view (P : double * O -> Prop) `{!forall e, Decision (P e)} s :
  filter P (view s) = view (filter (fun d => P (ns d, no d)) s).
Proof.
  unfold view. induction s as [|d s IH]; [done|]. rewrite fmap_cons, !filter_cons, IH.
  by destruct (decide (P (ns d, no d))), (decide (P (ns d, no d))).
Qed.

Lemma view_objects s : (view s).*2 = no <$> s.
Proof. unfold view. rewrite <- list_fmap_compose. done. Qed.

Lemma Forall_view (P : double * O -> Prop) s :
  Forall P (view s) <-> Forall (fun d => P (ns d, no d)) s.
Proof. apply Forall_fmap. Qed.

Lemma zlen_view s : zlen (view s) = zlen s.
Proof. apply zlen_fmap. Qed.

Lemma before_false k d : before false k d = p_before k (ns d, no d).
Proof. done. Qed.

Lemma filter_id {A} (P : A -> Prop) `{!forall x, Decision (P x)} l : Forall P l -> filter P l = l.
Proof. induction 1 as [|x l Hx _ IH]; [done|]. by rewrite filter_cons_True, IH. Qed.

Lemma elt_key a b : elt a b -> key a <> key b.
Proof. unfold elt. fold (key a) (key b). intros Hlt Heq. by rewrite Heq, lex_refl in Hlt. Qed.

Lemma filter_ne_split a d b : good (a ++ d :: b) ->
  filter (fun e => key e <> key d) (a ++ d :: b) = a ++ b.
Proof.
  intros [_ Hs]. apply StronglySorted_app in Hs as (Hlt & _ & Hs).
  apply StronglySorted_inv in Hs as [_ Hs]. rewrite Forall_forall in Hs.
  rewrite filter_app, filter_cons_False by (intros Hn; by apply Hn). f_equal.
  - apply filter_id, Forall_forall. intros e He. apply elt_key, Hlt; [done|left].
  - apply filter_id, Forall_forall. intros e He. apply not_eq_sym, elt_key, Hs. done.
Qed.

Lemma insert_step m z s d rnd sc o r st' :
  zsl_ok m z s -> isnan sc = false -> ovalid o ->
  spec_step (ZInsert rnd sc o) (view s, d) = Some (r, st') ->
  exists z' m' s', zsl_step (ZInsert rnd sc o) (z, m, d) = Some (r, (z', m', st'.2)) /\
    zsl_ok m' z' s' /\ view s' = st'.1 /\
    released m' ++ (no <$> s') ≡ₚ o :: released m ++ (no <$> s).
Proof.
  intros Hok Hsc Ho. cbn [spec_step zsl_step].
  destruct (zslRandomLevel rnd) as [lv|] eqn:Hrnd; [|done]. sbind.
  destruct (bool_decide _ && _) eqn:Hc; [|done]. intros [= <- <-].
  apply andb_true_iff in Hc as [Hno Hsm]. apply bool_decide_eq_true in Hno.
  rewrite zlen_view in Hsm. apply Z.ltb_lt in Hsm. rewrite Forall_view in Hno.
  destruct (zslInsert_ok rnd lv m z s sc o Hok Hsc Ho Hno Hrnd Hsm)
    as (xd & z' & m' & s1 & s2 & -> & -> & Hns & Hxo & _ & Hrel & H1 & H2 & Hok').
  sbind. exists z', m', (s1 ++ xd :: s2). split; [done|]. split; [done|]. split.
  - destruct (filter_split _ s1 s2 H1 H2) as [F1 F2]. cbn [fst]. rewrite !filter_view.
    cbn [pkey fst snd] in *.
    assert (filter (fun d => p_before (ekey sc o) (ns d, no d) = true) (s1 ++ s2) = s1) as -> by exact F1.
    assert (filter (fun d => p_before (ekey sc o) (ns d, no d) = false) (s1 ++ s2) = s2) as -> by exact F2.
    unfold view. by rewrite fmap_app, fmap_cons, Hns, Hxo.
  - rewrite Hrel, !fmap_app, fmap_cons, Hxo. by rewrite <- !Permutation_middle.
Qed.

Lemma delete_step m z s d sc o r st' :
  zsl_ok m z s -> isnan sc = false -> ovalid o ->
  spec_step (ZDelete sc o) (view s, d) = Some (r, st') ->
  exists z' m' s', zsl_step (ZDelete sc o) (z, m, d) = Some (r, (z', m', st'.2)) /\
    zsl_ok m' z' s' /\ view s' = st'.1 /\ released m' ++ (no <$> s') ≡ₚ released m ++ (no <$> s).
Proof.
  intros Hok Hsc Ho. cbn [spec_step zsl_step]. intros [= <- <-]. cbn [fst snd]. rewrite filter_view.
  change (fun d0 : nd => pkey (ns d0, no d0) <> ekey sc o) with (fun d0 : nd => key d0 <> ekey sc o).
  destruct (zslDelete_ok m z s sc o Hok Hsc Ho)
    as [(s1 & x & s2 & z' & m' & -> & Hk & -> & Hrel & Hok')|[Hno ->]]; sbind.
  - rewrite bool_decide_eq_false_2.
    2: { rewrite Forall_view. intros [_ [Hx _]%Forall_cons]%Forall_app. by apply Hx. }
    exists z', m', (s1 ++ s2). split; [done|]. split; [done|]. split.
    + destruct Hok as (_ & _ & Hg). rewrite <- Hk. by rewrite filter_ne_split.
    + rewrite Hrel, !fmap_app, fmap_cons. rewrite <- !app_assoc. f_equiv.
      by rewrite <- Permutation_middle.
  - rewrite bool_decide_eq_true_2 by (by apply Forall_view). exists z, m, s.
    split; [done|]. split; [done|]. by rewrite filter_id.
Qed.

Lemma filter_negb (P : nd -> bool) s :
  filter_b P s ++ filter_b (fun d => negb (P d)) s ≡ₚ s.
Proof.
  induction s as [|d s IH]; [done|]. destruct (P d) eqn:Hd.
  - rewrite filter_cons_True by done. rewrite filter_cons_False by (by rewrite Hd).
    simpl. by constructor.
  - rewrite filter_cons_False by congruence. rewrite filter_cons_True by (by rewrite Hd).
    rewrite <- Permutation_middle. by constructor.
Qed.

Lemma range_step m z s d range r st' :
  zsl_ok m z s -> range_ok range -> spec_step (ZDeleteByScore range) (view s, d) = Some (r, st') ->
  exists z' m' s', zsl_step (ZDeleteByScore range) (z, m, d) = Some (r, (z', m', st'.2)) /\
    zsl_ok m' z' s' /\ view s' = st'.1 /\ released m' ++ (no <$> s') ≡ₚ released m ++ (no <$> s).
Proof.
  intros Hok Hr. cbn [spec_step zsl_step]. rewrite !filter_view, view_objects, zlen_view.
  change (fun d0 : nd => p_in_range range (ns d0, no d0) = true)
    with (fun d0 : nd => in_range range d0 = true).
  change (fun d0 : nd => negb (p_in_range range (ns d0, no d0)) = true)
    with (fun d0 : nd => negb (in_range range d0) = true).
  destruct (del_all del d _) as [d'|] eqn:Hd; [|done]. sbind. intros [= <- <-].
  destruct (zslDeleteRangeByScore_ok del m z s range d d' Hok Hr Hd) as (z' & m' & -> & Hok' & Hrel).
  sbind. exists z', m', (filter_b (fun d => negb (in_range range d)) s).
  split; [done|]. split; [done|]. split; [done|].
  rewrite Hrel, <- app_assoc, <- fmap_app, filter_negb. done.
Qed.

Lemma rank_step m z s d start end_ r st' :
  zsl_ok m z s -> op_ok (ZDeleteByRank start end_) ->
  spec_step (ZDeleteByRank start end_) (view s, d) = Some (r, st') ->
  exists z' m' s', zsl_step (ZDeleteByRank start end_) (z, m, d) = Some (r, (z', m', st'.2)) /\
    zsl_ok m' z' s' /\ view s' = st'.1 /\ released m' ++ (no <$> s') ≡ₚ released m ++ (no <$> s).
Proof.
  intros Hok [Hst Hend]. cbn [spec_step zsl_step]. unfold view.
  rewrite <- !fmap_drop, <- !fmap_take, <- fmap_app.
  fold (view (take (Z.to_nat end_ - Z.to_nat (start - 1)) (drop (Z.to_nat (start - 1)) s))).
  rewrite view_objects, zlen_view.
  destruct (del_all del d _) as [d'|] eqn:Hd; [|done]. sbind. intros [= <- <-].
  destruct (zslDeleteRangeByRank_ok del m z s start end_ d d' Hok Hst Hend Hd)
    as (z' & m' & -> & Hok' & Hrel).
  sbind. eexists z', m', _. split; [done|]. split; [done|]. split; [done|].
  rewrite Hrel, <- app_assoc. f_equiv. rewrite <- fmap_app.
  set (a := Z.to_nat (start - 1)). set (n := (Z.to_nat end_ - a)%nat).
  rewrite Permutation_app_swap_app, !take_drop. done.
Qed.

Lemma zsl_step_ok op m z s d r st' :
  zsl_ok m z s -> op_ok op -> spec_step op (view s, d) = Some (r, st') ->
  exists z' m' s', zsl_step op (z, m, d) = Some (r, (z', m', st'.2)) /\ zsl_ok m' z' s' /\
    view s' = st'.1 /\ released m' ++ (no <$> s') ≡ₚ handed op ++ released m ++ (no <$> s).
Proof.
  destruct op as [rnd sc o|sc o|range|start end_]; intros Hok Hop.
  - destruct Hop. by apply insert_step.
  - destruct Hop. by apply delete_step.
  - by apply range_step.
  - by apply rank_step.
Qed.

Lemma zsl_run_ok ops : forall m z s d rs st',
  zsl_ok m z s -> Forall op_ok ops -> run spec_step ops (view s, d) = Some (rs, st') ->
  exists z' m' s', run zsl_step ops (z, m, d) = Some (rs, (z', m', st'.2)) /\ zsl_ok m' z' s' /\
    view s' = st'.1 /\ released m' ++ (no <$> s') ≡ₚ (ops ≫= handed) ++ released m ++ (no <$> s).
Proof.
  induction ops as [|op ops IH]; intros m z s d rs st' Hok Hops.
  - intros [= <- <-]. exists z, m, s. by split_and!.
  - apply Forall_cons in Hops as [Hop Hops]. cbn [run].
    destruct (spec_step op (view s, d)) as [[r [v1 d1]]|] eqn:Hstep; [|done]. sbind. cbn [snd fst].
    destruct (zsl_step_ok op m z s d r (v1, d1) Hok Hop Hstep) as (z1 & m1 & s1 & -> & Hok1 & Hv1 & Hp1).
    cbn [fst snd] in Hv1. subst v1. sbind. cbn [snd fst].
    destruct (run spec_step ops (view s1, d1)) as [[rs1 st1]|] eqn:Hrun; [|done]. sbind.
    intros [= <- <-]. cbn [snd fst] in *.
    destruct (IH m1 z1 s1 d1 rs1 st1 Hok1 Hops Hrun) as (z2 & m2 & s2 & -> & Hok2 & Hv2 & Hp2).
    sbind. exists z2, m2, s2. split; [done|]. split; [done|]. split; [done|].
    rewrite Hp2. rewrite bind_cons, <- app_assoc. rewrite Hp1.
    by rewrite Permutation_app_swap_app.
Qed.
End Run.

(** ** Properties *)

(** C3 (refinement, invariant): starting from [zslCreate], any sequence of
    insertions of absent elements (whatever the random levels), deletions, and
    deletions of ranges of scores and ranks does what it does on the sorted list
    of the elements, with the same replies and the same calls to the hash table,
    and keeps the invariant of the skip list: sorted, links, spans, heights,
    backward pointers, tail and length right on every level, no dangling and no
    leaked node.  Freeing the result releases every object that was handed over
    exactly once. *)
Theorem zsl_run_refines {D} (del : D -> O -> option D) (ops : list zop) (d d' : D)
    (rs : list Z) (v : list (double * O)) :
  Forall op_ok ops -> run (spec_step del) ops ([], d) = Some (rs, (v, d')) ->
  exists z0 m0 z m s, zslCreate = Some (z0, m0) /\
    run (zsl_step del) ops (z0, m0, d) = Some (rs, (z, m, d')) /\
    zsl_ok m z s /\ view s = v /\
    exists m', zslFree z m = Some m' /\ nodes m' = ∅ /\ released m' ≡ₚ (ops ≫= handed).
Proof.
  intros Hops Hrun. destruct zslCreate_ok as (z0 & m0 & Hc & Hok0 & Hrel0).
  destruct (zsl_run_ok del ops m0 z0 [] d rs (v, d') Hok0 Hops Hrun)
    as (z & m & s & Hr & Hok & Hv & Hp).
  exists z0, m0, z, m, s. split; [done|]. split; [done|]. split; [done|]. split; [done|].
  eexists. split; [apply zslFree_ok; apply Hok|]. split; [done|]. simpl.
  rewrite Hp, Hrel0. by rewrite !app_nil_r.
Qed.

(** C23 (functional): in a skip list whose objects have different strings, the rank
    of the element at position [i] is [i + 1] and the element of that rank is its
    node; an object that is not there has rank 0, a rank beyond the end no node. *)
Theorem zsl_ranks (m : memory (O:=O)) (z : zskiplist) (s : list nd) :
  zsl_ok m z s -> NoDup ((fun d => ostr (no d)) <$> s) ->
  (forall (i : nat) d, s !! i = Some d ->
     zslGetRank z m (ns d) (no d) = Some (Z.of_nat i + 1) /\
     zslGetElementByRank z m (Z.of_nat i + 1) = Some (Some (na d))) /\
  (forall sc o, isnan sc = false -> ovalid o -> Forall (fun d => ostr (no d) <> ostr o) s ->
     zslGetRank z m sc o = Some 0) /\
  (forall r, zlen s < r < 18446744073709551616 -> zslGetElementByRank z m r = Some None).
Proof.
  intros Hok Hnd. split; [|split].
  - intros i d Hi. pose proof (take_drop_middle s i d Hi) as Hs.
    pose proof (lookup_lt_Some _ _ _ Hi) as Hlt. split.
    + rewrite <- Hs in Hok, Hnd. rewrite (zslGetRank_found m z (take i s) d (drop (S i) s)); [|done|].
      * unfold zlen. rewrite length_take. do 2 f_equal. lia.
      * rewrite fmap_app, fmap_cons in Hnd. apply NoDup_app in Hnd as (_ & Hdis & _).
        apply Forall_forall. intros e He Heq. apply (Hdis (ostr (no e))).
        { by apply (list_elem_of_fmap_2 (fun d => ostr (no d))). }
        rewrite Heq. left.
    + pose proof Hok as (Hl & _). pose proof (rep_small _ _ _ Hl) as Hsm. unfold zlen in Hsm.
      rewrite (zslGetElementByRank_ok m z s _ Hok) by lia.
      replace (Z.to_nat (Z.of_nat i + 1 - 1)) with i by lia. by rewrite Hi.
  - intros sc o Hsc Ho Hno. by apply (zslGetRank_absent m z s).
  - intros r Hr. pose proof (zlen_nonneg s). rewrite (zslGetElementByRank_ok m z s _ Hok) by lia.
    rewrite lookup_ge_None_2; [done|]. unfold zlen in *. lia.
Qed.

(** C30 (functional): the first and the last node in a range of scores (bounds
    included or not, infinities allowed) are those of the elements of the sorted
    list that are in range, NULL when there are none. *)
Theorem zsl_ranges (m : memory (O:=O)) (z : zskiplist) (s : list nd) (range : zrangespec) :
  zsl_ok m z s -> range_ok range ->
  zslFirstInRange z m range = Some (na <$> head (filter (fun d => in_range range d = true) s)) /\
  zslLastInRange z m range = Some (na <$> last (filter (fun d => in_range range d = true) s)).
Proof. intros Hok Hr. split; [by apply zslFirstInRange_ok|by apply zslLastInRange_ok]. Qed.

End Facts.

(** ** String objects *)

Definition equal_values (a b : strval) : option bool :=
  match a, b with
  | INT v, INT w => Some (v =? w)
  | _, _ => c ← compare_values (fun _ _ => 0) a b false; Some (c =? 0)
  end.

Lemma equal_values_spec a b :
  wf_val a -> wf_val b -> equal_values a b = Some (bool_decide (value a = value b)).
Proof.
  intros Ha Hb. destruct (compare_values_spec (fun _ _ => 0) a b Ha Hb) as (c & Hc & Hl).
  assert ((c =? 0) = bool_decide (value a = value b)) as Heq.
  { apply eq_bool_prop_intro. rewrite Is_true_true, Z.eqb_eq, bool_decide_spec.
    rewrite <- lex_eq, <- Hl. symmetry. apply Z.compare_eq_iff. }
  unfold equal_values. rewrite Hc. sbind. rewrite Heq. destruct a as [| |v], b as [| |w]; try done.
  simpl in *. f_equal. apply eq_bool_prop_intro. rewrite Is_true_true, Z.eqb_eq, bool_decide_spec.
  split; [by intros ->|]. by apply ll_repr_inj.
Qed.

#[export] Instance strval_object : StringObject strval := {|
  ostr := value;
  ovalid := wf_val;
  ocompare a b := compare_values (fun _ _ => 0) a b false;
  oequal := equal_values;
  ocompare_spec := compare_values_spec (fun _ _ => 0);
  oequal_spec := equal_values_spec;
|}.

(** ** Witnesses *)

(** 1.0, 2.0 and 3.0. *)
Definition d1 : double := S754_finite false 4503599627370496 (-52).
Definition d2 : double := S754_finite false 4503599627370496 (-51).
Definition d3 : double := S754_finite false 6755399441055744 (-51).

Definition str (s : string) : strval := EMBSTR (bytes_of_string s).

Definition sample_ops : list (zop (O:=strval)) :=
  [ZInsert [0; 0; 65535] d2 (str "b"); ZInsert [65535] d1 (str "c"); ZInsert [0; 65535] d2 (str "a");
   ZInsert [65535] d3 (INT 7); ZDelete d1 (str "c"); ZDelete d1 (str "x")].

Definition no_dict (d : unit) (_ : strval) : option unit := Some d.

Lemma sample_ops_ok : Forall op_ok sample_ops.
Proof.
  unfold sample_ops, op_ok.
  repeat (apply Forall_cons; split; [split; [reflexivity|vm_compute; try split; discriminate]|]).
  constructor.
Qed.

Lemma zsl_run_refines_witness :
  exists z m s, run (zsl_step no_dict)
      (sample_ops ++ [ZDeleteByRank 1 1; ZDeleteByScore (mk_range d2 d3 true false)])
      (mk_zsl 1%positive None 0 1, mk_mem {[ 1%positive := mk_node None (S754_zero false) None
         (replicate 32 (None, 0)) ]} [], tt) = Some ([0; 0; 0; 0; 1; 0; 1; 1], (z, m, tt)) /\
    view s = [(d2, str "b")] /\ zsl_ok m z s.
Proof.
  destruct (zsl_run_refines no_dict
    (sample_ops ++ [ZDeleteByRank 1 1; ZDeleteByScore (mk_range d2 d3 true false)]) tt tt
    [0; 0; 0; 0; 1; 0; 1; 1] [(d2, str "b")]) as (z0 & m0 & z & m & s & Hc & Hr & Hok & Hv & _).
  - apply Forall_app. split; [exact sample_ops_ok|].
    apply Forall_cons; split; [simpl; lia|]. apply Forall_cons; split; [split; reflexivity|constructor].
  - vm_compute. reflexivity.
  - exists z, m, s. split; [|split; [exact Hv|exact Hok]].
    assert (zslCreate (O:=strval) = Some (mk_zsl 1%positive None 0 1, mk_mem {[ 1%positive := mk_node None
      (S754_zero false) None (replicate 32 (None, 0)) ]} [])) as Hc' by (vm_compute; reflexivity).
    rewrite Hc' in Hc. injection Hc as <- <-. exact Hr.
Defined.

(** The skip list of the four insertions and the deletion. *)
Lemma sample_run :
  exists z m s, zsl_ok m z s /\ view s = [(d2, str "a"); (d2, str "b"); (d3, INT 7)].
Proof.
  destruct zslCreate_ok as (z0 & m0 & Hc & Hok0 & _).
  destruct (zsl_run_ok no_dict sample_ops m0 z0 [] tt [0; 0; 0; 0; 1; 0]
    ([(d2, str "a"); (d2, str "b"); (d3, INT 7)], tt)) as (z & m & s & Hr & Hok & Hv & _);
    [exact Hok0|exact sample_ops_ok|vm_compute; reflexivity|].
  exists z, m, s. split; [exact Hok|exact Hv].
Qed.

Lemma zsl_ranks_witness :
  exists z (m : memory (O:=strval)) (s : list (nd (O:=strval))), view s = [(d2, str "a"); (d2, str "b"); (d3, INT 7)] /\
    zslGetRank z m d2 (str "b") = Some 2 /\ zslGetRank z m d3 (str "c") = Some 0 /\
    zslGetElementByRank z m 4 = Some None.
Proof.
  destruct sample_run as (z & m & s & Hok & Hv). exists z, m, s. split; [exact Hv|].
  destruct s as [|a [|b [|c [|]]]]; try discriminate Hv. injection Hv as Ha1 Ha2 Hb1 Hb2 Hc1 Hc2.
  destruct (zsl_ranks m z [a; b; c] Hok) as (Hrank & Habs & Hbig).
  { rewrite !fmap_cons, Ha2, Hb2, Hc2. vm_compute.
    repeat (apply NoDup_cons; split; [set_solver|]). apply NoDup_nil_2. }
  destruct (Hrank 1%nat b eq_refl) as [Hb _]. rewrite Hb1, Hb2 in Hb.
  split; [exact Hb|]. split; [|apply Hbig; vm_compute; split; reflexivity].
  apply Habs; [reflexivity|vm_compute; discriminate|].
  repeat (apply Forall_cons; split; [rewrite ?Ha2, ?Hb2, ?Hc2; vm_compute; discriminate|]). constructor.
Defined.

Lemma zsl_ranges_witness :
  exists z (m : memory (O:=strval)) (s : list (nd (O:=strval))) a b c, s = [a; b; c] /\
    view s = [(d2, str "a"); (d2, str "b"); (d3, INT 7)] /\
    zslFirstInRange z m (mk_range d1 d2 false false) = Some (Some (na a)) /\
    zslLastInRange z m (mk_range d2 (S754_infinity false) true false) = Some (Some (na c)) /\
    zslLastInRange z m (mk_range d3 (S754_infinity false) true false) = Some None.
Proof.
  destruct sample_run as (z & m & s & Hok & Hv). exists z, m, s.
  destruct s as [|a [|b [|c [|]]]]; try discriminate Hv. injection Hv as Ha1 Ha2 Hb1 Hb2 Hc1 Hc2.
  exists a, b, c. split; [reflexivity|]. split.
  { unfold view. simpl. rewrite Ha1, Ha2, Hb1, Hb2, Hc1, Hc2. reflexivity. }
  split; [|split].
  - destruct (zsl_ranges m z [a; b; c] (mk_range d1 d2 false false) Hok) as [-> _]; [split; reflexivity|].
    unfold in_range. rewrite !filter_cons, Ha1. reflexivity.
  - destruct (zsl_ranges m z [a; b; c] (mk_range d2 (S754_infinity false) true false) Hok) as [_ ->];
      [split; reflexivity|].
    unfold in_range. rewrite !filter_cons, Ha1, Hb1, Hc1. reflexivity.
  - destruct (zsl_ranges m z [a; b; c] (mk_range d3 (S754_infinity false) true false) Hok) as [_ ->];
      [split; reflexivity|].
    unfold in_range. rewrite !filter_cons, Ha1, Hb1, Hc1. reflexivity.
Defined.
