(* ===== verification/Glob.v ===== *)
(** * util.c: glob-style patterns

    [stringmatchlen], which KEYS, SCAN, PSUBSCRIBE and CONFIG GET use, against
    the language of its patterns. *)

From Stdlib Require Import ZArith Lia String.
From stdpp Require Import base numbers list.
From S2P Require Import Prelude.

Open Scope Z_scope.

(** ** stringmatchlen

    [pat] and [str] are the memory blocks of the pattern and of the string,
    terminators included; a pointer is an index.  [None]: a read outside of a
    block, or no fuel left. *)

(** The value of a [char], which is signed, as an [int]; [tolower] keeps the negative
    ones. *)
Definition char_int (c : Z) : Z := if c <? 128 then c else c - 256.

Section StringMatch.
Context (pat str : list Z) (nocase : bool).

(** Skips the stars that follow a star. *)
Fixpoint skip_stars (fuel : nat) (pattern patternLen : Z) : option (Z * Z) :=
  match fuel with
  | O => None
  | S fuel =>
      c ← getb pat (pattern + 1);
      if c =? 42 then skip_stars fuel (pattern + 1) (patternLen - 1)
      else Some (pattern, patternLen)
  end.

(** Skips the stars at the end of the pattern. *)
Fixpoint trailing_stars (fuel : nat) (pattern patternLen : Z) : option (Z * Z) :=
  match fuel with
  | O => None
  | S fuel =>
      c ← getb pat pattern;
      if c =? 42 then trailing_stars fuel (pattern + 1) (patternLen - 1)
      else Some (pattern, patternLen)
  end.

Definition chareq (a b : Z) : bool :=
  if nocase then tolower a =? tolower b else a =? b.

Definition in_range (p0 p2 s0 : Z) : bool :=
  let '(start, stop, c) := (char_int p0, char_int p2, char_int s0) in
  let '(start, stop) := if start >? stop then (stop, start) else (start, stop) in
  let '(start, stop, c) :=
    if nocase then (tolower start, tolower stop, tolower c) else (start, stop, c) in
  (c >=? start) && (c <=? stop).

(** The [while (1)] of the ['\['] case; gives [pattern], [patternLen] and
    [match]. *)
Fixpoint set_loop (fuel : nat) (pattern patternLen string : Z) (m : bool)
  : option (Z * Z * bool) :=
  match fuel with
  | O => None
  | S fuel =>
      p0 ← getb pat pattern;
      if p0 =? 92 then
        p1 ← getb pat (pattern + 1);
        s0 ← getb str string;
        set_loop fuel (pattern + 2) (patternLen - 2) string (m || (p1 =? s0))
      else if p0 =? 93 then Some (pattern, patternLen, m)
      else if patternLen =? 0 then Some (pattern - 1, patternLen + 1, m)
      else
        p1 ← getb pat (pattern + 1);
        s0 ← getb str string;
        if (p1 =? 45) && (patternLen >=? 3) then
          p2 ← getb pat (pattern + 2);
          set_loop fuel (pattern + 3) (patternLen - 3) string (m || in_range p0 p2 s0)
        else
          set_loop fuel (pattern + 1) (patternLen - 1) string (m || chareq p0 s0)
  end.

(** The cases of the [switch] but the star: [None] for [return 0], otherwise the
    position of the last byte of the pattern used. *)
Definition match_one (pattern patternLen string stringLen : Z) : option (option (Z * Z)) :=
  p0 ← getb pat pattern;
  if p0 =? 63 then
    Some (if stringLen =? 0 then None else Some (pattern, patternLen))
  else if p0 =? 91 then
    p1 ← getb pat (pattern + 1);
    let neg := p1 =? 94 in
    let '(pattern, patternLen) :=
      if neg then (pattern + 2, patternLen - 2) else (pattern + 1, patternLen - 1) in
    r ← set_loop (length pat) pattern patternLen string false;
    let '(pattern, patternLen, m) := r in
    Some (if xorb neg m then Some (pattern, patternLen) else None)
  else
    let '(pattern, patternLen) :=
      if (p0 =? 92) && (patternLen >=? 2) then (pattern + 1, patternLen - 1)
      else (pattern, patternLen) in
    p0 ← getb pat pattern;
    s0 ← getb str string;
    Some (if chareq p0 s0 then Some (pattern, patternLen) else None).

(** [while (stringLen)] of the star case. *)
Fixpoint star_loop (rec : Z -> Z -> option bool) (fuel : nat) (string stringLen : Z)
  : option bool :=
  if stringLen =? 0 then Some false
  else match fuel with
  | O => None
  | S fuel =>
      b ← rec string stringLen;
      if (b : bool) then Some true
      else star_loop rec fuel (string + 1) (stringLen - 1)
  end.

(** One unit of fuel per turn of the main loop. *)
Fixpoint match_loop (fuel : nat) (pattern patternLen string stringLen : Z)
  : option bool :=
  if patternLen =? 0 then Some (stringLen =? 0)
  else match fuel with
  | O => None
  | S fuel =>
      p0 ← getb pat pattern;
      if p0 =? 42 then
        q ← skip_stars (length pat) pattern patternLen;
        let '(pattern, patternLen) := q in
        if patternLen =? 1 then Some true
        else star_loop (match_loop fuel (pattern + 1) (patternLen - 1))
               (length str) string stringLen
      else
        r ← match_one pattern patternLen string stringLen;
        match r with
        | None => Some false
        | Some (pattern, patternLen) =>
            let string := string + 1 in
            let stringLen := stringLen - 1 in
            let pattern := pattern + 1 in
            let patternLen := patternLen - 1 in
            if stringLen =? 0 then
              q ← trailing_stars (length pat) pattern patternLen;
              Some (q.2 =? 0)
            else match_loop fuel pattern patternLen string stringLen
        end
  end.

End StringMatch.

(** The call on the blocks [pattern] and [string], with the lengths given. *)
Definition stringmatchlen (pattern : list Z) (patternLen : Z)
    (string : list Z) (stringLen : Z) (nocase : bool) : option bool :=
  match_loop pattern string nocase (length pattern) 0 patternLen 0 stringLen.

(** On null-terminated strings. *)
Definition stringmatch (pattern string : list Z) (nocase : bool) : option bool :=
  stringmatchlen (pattern ++ [0]) (zlen pattern) (string ++ [0]) (zlen string) nocase.

(** ** Reference: the language of the patterns *)

Inductive set_item :=
| ILit (c : Z)
| IEsc (c : Z)
| IRange (a b : Z).

Inductive token :=
| TStar
| TAny
| TSet (neg : bool) (items : list set_item)
| TLit (c : Z).


Section Glob.
Context (nocase : bool).

(** Escaping in a set also turns off the case folding.  A range has the signed values
    between its ends, in any order; the ends are folded after they are put in order. *)
Definition item_match (s : Z) (i : set_item) : bool :=
  match i with
  | ILit c => chareq nocase c s
  | IEsc c => c =? s
  | IRange a b =>
      let fold c := if nocase then tolower c else c in
      (fold (Z.min (char_int a) (char_int b)) <=? fold (char_int s)) &&
      (fold (char_int s) <=? fold (Z.max (char_int a) (char_int b)))
  end.

Definition tok_match (t : token) (s : Z) : bool :=
  match t with
  | TStar | TAny => true
  | TSet neg items => xorb neg (existsb (item_match s) items)
  | TLit c => chareq nocase c s
  end.

(** A star matches any run of bytes, another token exactly one byte. *)
Fixpoint glob (ts : list token) (s : list Z) : bool :=
  match ts with
  | [] => match s with [] => true | _ => false end
  | TStar :: ts =>
      (fix star s := glob ts s || match s with [] => false | _ :: s => star s end) s
  | t :: ts =>
      match s with
      | [] => false
      | c :: s => tok_match t c && glob ts s
      end
  end.


End Glob.


(** ** stringmatchlen decides the language of its patterns *)













Section Correct.
Context (pat str : list Z) (nocase : bool).






End Correct.



Section Loop.
Context (pat str : list Z) (nocase : bool).



End Loop.

(** ** Properties *)



(** Three pitfalls of the function.  A negated set consumes the
    terminator of an empty string, so that [\[^a\]*] matches the empty string
    although a set stands for one byte; when the pattern goes on, the byte after
    the terminator is read; and so is the byte after the terminator of a pattern
    that ends with a backslash inside a set. *)
Theorem stringmatch_pitfalls (nocase : bool) :
  stringmatch (bytes_of_string "[^a]*") [] nocase = Some true /\
  glob nocase [TSet true [ILit 97]; TStar] [] = false /\
  stringmatch (bytes_of_string "[^a]b") [] nocase = None /\
  stringmatch (bytes_of_string "[\") (bytes_of_string "x") nocase = None.
Proof. by destruct nocase; vm_compute. Qed.
