(* ===== verification/Dict.v ===== *)
(** * dict.c: hash tables with incremental rehashing

    A table is the list of its buckets and a bucket the list of its entries,
    in the order of the [next] pointers; a [NULL] table is the empty list.  An
    entry pointer is the place of the entry: table, bucket, rank in the chain.
    Undefined behaviour (out of range reads, failed assertions) is [None]. *)

From Stdlib Require Import ZArith Lia.
From stdpp Require Import base numbers list gmap.
From S2P Require Import Prelude.

Open Scope Z_scope.

(** ** The types of dictionary

    What a client of dict.c provides ([dictType]): hash, copy and comparison of
    keys, copy of values.  [canon] is the part of a key that the comparison
    looks at. *)
Class DictType (K V C : Type) `{Countable C} := {
  hashFunction : K -> Z;
  keyDup : K -> K;
  valDup : V -> V;
  keyCompare : K -> K -> bool;
  canon : K -> C;
  hashFunction_range k : 0 <= hashFunction k < 2 ^ 32;
  keyCompare_canon k k' : keyCompare k k' = bool_decide (canon k = canon k');
  hashFunction_canon k k' : canon k = canon k' -> hashFunction k = hashFunction k';
  keyDup_canon k : canon (keyDup k) = canon k;
}.

(** ** Hash functions *)

Section HashFunctions.
Context (dict_hash_function_seed : Z).

Definition murmur_m : Z := 1540483477.

Definition murmur_mix (h k : Z) : Z :=
  let k := u32 (k * murmur_m) in
  let k := Z.lxor k (Z.shiftr k 24) in
  let k := u32 (k * murmur_m) in
  let h := u32 (h * murmur_m) in
  Z.lxor h k.

Fixpoint murmur_loop (data : list Z) (h : Z) : Z * list Z :=
  match data with
  | b0 :: b1 :: b2 :: b3 :: data =>
      murmur_loop data (murmur_mix h (le_dec [b0; b1; b2; b3]))
  | _ => (h, data)
  end.

(** MurmurHash2, on a little-endian host; [len] is the length of [key]. *)
Definition dictGenHashFunction (key : list Z) : Z :=
  let h := Z.lxor dict_hash_function_seed (u32 (zlen key)) in
  let '(h, data) := murmur_loop key h in
  let h :=
    match data with
    | [b0; b1; b2] =>
        u32 (Z.lxor (Z.lxor (Z.lxor h (Z.shiftl b2 16)) (Z.shiftl b1 8)) b0 * murmur_m)
    | [b0; b1] => u32 (Z.lxor (Z.lxor h (Z.shiftl b1 8)) b0 * murmur_m)
    | [b0] => u32 (Z.lxor h b0 * murmur_m)
    | _ => h
    end in
  let h := Z.lxor h (Z.shiftr h 13) in
  let h := u32 (h * murmur_m) in
  Z.lxor h (Z.shiftr h 15).

Fixpoint caseHash_loop (buf : list Z) (hash : Z) : Z :=
  match buf with
  | [] => hash
  | c :: buf => caseHash_loop buf (u32 (u32 (Z.shiftl hash 5) + hash + tolower c))
  end.

Definition dictGenCaseHashFunction (buf : list Z) : Z :=
  caseHash_loop buf (u32 dict_hash_function_seed).

End HashFunctions.

(** The functions of [dbDictType] and of [commandTableDictType] of redis.c; keys
    are the bytes of sds strings.  [strcasecmp] stops at a null byte. *)
Definition dictSdsHash (seed : Z) (key : list Z) : Z := dictGenHashFunction seed key.
Definition dictSdsCaseHash (seed : Z) (key : list Z) : Z := dictGenCaseHashFunction seed key.

Definition dictSdsKeyCompare (key1 key2 : list Z) : bool :=
  if zlen key1 =? zlen key2 then bool_decide (key1 = key2) else false.

Fixpoint cstr (s : list Z) : list Z :=
  match s with
  | [] => []
  | c :: s => if c =? 0 then [] else c :: cstr s
  end.

Definition dictSdsKeyCaseCompare (key1 key2 : list Z) : bool :=
  bool_decide (tolower <$> cstr key1 = tolower <$> cstr key2).

(** ** Data *)

Section Dict.
Context {K V C : Type} `{Countable C} {DT : DictType K V C}.

Record dictEntry := mkEntry { key : K; val : V }.

Record dictht := mkHt {
  table : list (list dictEntry);
  size : Z;
  sizemask : Z;
  used : Z;
}.

(** [ht] is the array of the two tables. *)
Record dict := mkDict {
  ht0 : dictht;
  ht1 : dictht;
  rehashidx : Z;
  iterators : Z;
}.

Inductive table_id := T0 | T1.

Definition ht (d : dict) (t : table_id) : dictht :=
  match t with T0 => ht0 d | T1 => ht1 d end.
Definition set_ht (d : dict) (t : table_id) (h : dictht) : dict :=
  match t with
  | T0 => mkDict h (ht1 d) (rehashidx d) (iterators d)
  | T1 => mkDict (ht0 d) h (rehashidx d) (iterators d)
  end.
Definition set_rehashidx (d : dict) (i : Z) : dict :=
  mkDict (ht0 d) (ht1 d) i (iterators d).

(** [dictHashKey(d, key) & sizemask], an [unsigned int]. *)
Definition bucket_index (h mask : Z) : Z := u32 (Z.land h mask).

(** Where an entry is. *)
Definition entry_ptr : Type := (table_id * Z * nat)%type.

Definition DICT_HT_INITIAL_SIZE : Z := 4.
Definition dict_force_resize_ratio : Z := 5.

Definition dictIsRehashing (d : dict) : bool := negb (rehashidx d =? -1).
Definition dictSize (d : dict) : Z := used (ht0 d) + used (ht1 d).
Definition dictSlots (d : dict) : Z := size (ht0 d) + size (ht1 d).
Definition dictHashKey (k : K) : Z := hashFunction k.
Definition dictCompareKeys (k k' : K) : bool := keyCompare k k'.

Definition entry_of (d : dict) (p : entry_ptr) : option dictEntry :=
  let '(t, i, n) := p in b ← getb (table (ht d t)) i; b !! n.

(** ** Creation *)

Definition _dictReset : dictht := mkHt [] 0 0 0.

(** [_dictInit] on fresh memory. *)
Definition _dictInit : dict := mkDict _dictReset _dictReset (-1) 0.
Definition dictCreate : dict := _dictInit.

(** ** Resizing *)

(** [while (1)]: one unit of fuel per doubling; 61 of them reach [2^63]. *)
Fixpoint next_power_loop (fuel : nat) (i sz : Z) : option Z :=
  if i >=? sz then Some i
  else match fuel with
       | O => None
       | S fuel => next_power_loop fuel (u64 (i * 2)) sz
       end.

Definition _dictNextPower (sz : Z) : option Z :=
  if sz >=? LLONG_MAX then Some LLONG_MAX
  else next_power_loop 61 DICT_HT_INITIAL_SIZE sz.

Inductive status := DICT_OK | DICT_ERR.
#[local] Instance status_eq_dec : EqDecision status.
Proof. solve_decision. Defined.

(** [zcalloc] of [n] pointers; a size that does not fit is undefined. *)
Definition alloc_table (n : Z) : option (list (list dictEntry)) :=
  if n * 8 <? 2 ^ 64 then Some (replicate (Z.to_nat n) []) else None.

Definition dictExpand (d : dict) (sz : Z) : option (status * dict) :=
  realsize ← _dictNextPower sz;
  if dictIsRehashing d || (used (ht0 d) >? sz) then Some (DICT_ERR, d)
  else if realsize =? size (ht0 d) then Some (DICT_ERR, d)
  else
    tbl ← alloc_table realsize;
    let n := mkHt tbl realsize (realsize - 1) 0 in
    match table (ht0 d) with
    | [] => Some (DICT_OK, set_ht d T0 n)
    | _ => Some (DICT_OK, set_rehashidx (set_ht d T1 n) 0)
    end.

Definition dictResize (dict_can_resize : bool) (d : dict) : option (status * dict) :=
  if negb dict_can_resize || dictIsRehashing d then Some (DICT_ERR, d)
  else
    let minimal := s32 (used (ht0 d)) in
    let minimal := if minimal <? DICT_HT_INITIAL_SIZE then DICT_HT_INITIAL_SIZE else minimal in
    dictExpand d (u64 minimal).

(** ** Incremental rehashing *)

(** [while (d->ht\[0\].table\[d->rehashidx\] == NULL)]: the new [rehashidx] and
    [empty_visits], and whether the visits are used up. *)
Fixpoint skip_empty (fuel : nat) (tbl : list (list dictEntry)) (idx empty_visits : Z)
  : option (Z * Z * bool) :=
  b ← getb tbl idx;
  match b with
  | _ :: _ => Some (idx, empty_visits, false)
  | [] =>
      if empty_visits - 1 =? 0 then Some (idx + 1, empty_visits - 1, true)
      else match fuel with
           | O => None
           | S fuel => skip_empty fuel tbl (idx + 1) (empty_visits - 1)
           end
  end.

(** [while (de)]: the entries of a bucket go to the second table. *)
Fixpoint move_bucket (de : list dictEntry) (d : dict) : option dict :=
  match de with
  | [] => Some d
  | e :: de =>
      let h := bucket_index (dictHashKey (key e)) (sizemask (ht1 d)) in
      b ← getb (table (ht1 d)) h;
      t1 ← setb (table (ht1 d)) h (e :: b);
      move_bucket de
        (mkDict
          (mkHt (table (ht0 d)) (size (ht0 d)) (sizemask (ht0 d)) (used (ht0 d) - 1))
          (mkHt t1 (size (ht1 d)) (sizemask (ht1 d)) (used (ht1 d) + 1))
          (rehashidx d) (iterators d))
  end.

(** The outer [while]; [true]: [return 1] from the middle of it. *)
Fixpoint rehash_loop (n : nat) (d : dict) (empty_visits : Z) : option (bool * dict) :=
  match n with
  | O => Some (false, d)
  | S n =>
      if used (ht0 d) =? 0 then Some (false, d)
      else if negb (size (ht0 d) >? rehashidx d) then None
      else
        r ← skip_empty (length (table (ht0 d))) (table (ht0 d)) (rehashidx d) empty_visits;
        let '(idx, empty_visits, stop) := r in
        if (stop : bool) then Some (true, set_rehashidx d idx)
        else
          de ← getb (table (ht0 d)) idx;
          d ← move_bucket de d;
          t0 ← setb (table (ht0 d)) idx [];
          rehash_loop n
            (mkDict (mkHt t0 (size (ht0 d)) (sizemask (ht0 d)) (used (ht0 d)))
               (ht1 d) (idx + 1) (iterators d))
            empty_visits
  end.

(** [n*10] is computed in [int], before anything else. *)
Definition dictRehash (d : dict) (n : nat) : option (Z * dict) :=
  if Z.of_nat n * 10 >? INT32_MAX then None
  else if negb (dictIsRehashing d) then Some (0, d)
  else
    r ← rehash_loop n d (Z.of_nat n * 10);
    let '(stop, d) := r in
    if (stop : bool) then Some (1, d)
    else if used (ht0 d) =? 0 then
      Some (0, mkDict (ht1 d) _dictReset (-1) (iterators d))
    else Some (1, d).

(** [ticks]: for every turn, whether the time is over. *)
Fixpoint dictRehashMilliseconds (ticks : list bool) (d : dict) (rehashes : Z)
  : option (Z * dict) :=
  r ← dictRehash d 100;
  let '(more, d) := r in
  if more =? 0 then Some (rehashes, d)
  else
    match ticks with
    | [] => None
    | over :: ticks =>
        if (over : bool) then Some (rehashes + 100, d)
        else dictRehashMilliseconds ticks d (rehashes + 100)
    end.

Definition _dictRehashStep (d : dict) : option dict :=
  if iterators d =? 0 then snd <$> dictRehash d 1 else Some d.

(** [if (dictIsRehashing(d)) _dictRehashStep(d)]. *)
Definition rehash_step_if (d : dict) : option dict :=
  if dictIsRehashing d then _dictRehashStep d else Some d.

Definition _dictExpandIfNeeded (dict_can_resize : bool) (d : dict) : option (status * dict) :=
  if dictIsRehashing d then Some (DICT_OK, d)
  else if size (ht0 d) =? 0 then dictExpand d DICT_HT_INITIAL_SIZE
  else if (used (ht0 d) >=? size (ht0 d)) &&
          (dict_can_resize || (used (ht0 d) / size (ht0 d) >? dict_force_resize_ratio))
  then dictExpand d (u64 (used (ht0 d) * 2))
  else Some (DICT_OK, d).

(** ** Lookup *)

(** [while (he)]: the rank of the first entry with the key. *)
Fixpoint chain_find (k : K) (chain : list dictEntry) : option nat :=
  match chain with
  | [] => None
  | he :: chain =>
      if dictCompareKeys k (key he) then Some O else S <$> chain_find k chain
  end.

(** One turn of the [for] on the tables: the bucket of hash [h] in table [t]. *)
Definition table_find (d : dict) (t : table_id) (k : K) (h : Z) : option (Z * option nat) :=
  let idx := bucket_index h (sizemask (ht d t)) in
  he ← getb (table (ht d t)) idx;
  Some (idx, chain_find k he).

(** The loop of [dictFind], [_dictKeyIndex] and [dictGenericDelete]: the entry
    found, or the index in the last table searched. *)
Definition find_loop (d : dict) (k : K) : option (Z + entry_ptr) :=
  let h := dictHashKey k in
  r0 ← table_find d T0 k h;
  match r0 with
  | (i0, Some n) => Some (inr (T0, i0, n))
  | (i0, None) =>
      if negb (dictIsRehashing d) then Some (inl i0)
      else
        r1 ← table_find d T1 k h;
        match r1 with
        | (i1, Some n) => Some (inr (T1, i1, n))
        | (i1, None) => Some (inl i1)
        end
  end.

Definition dictFind (d : dict) (k : K) : option (option entry_ptr * dict) :=
  if size (ht0 d) =? 0 then Some (None, d)
  else
    d ← rehash_step_if d;
    r ← find_loop d k;
    match r with
    | inr p => Some (Some p, d)
    | inl _ => Some (None, d)
    end.

Definition dictFetchValue (d : dict) (k : K) : option (option V * dict) :=
  r ← dictFind d k;
  let '(he, d) := r in
  match he with
  | Some p => e ← entry_of d p; Some (Some (val e), d)
  | None => Some (None, d)
  end.

(** ** Insertion *)

(** The [int] that [_dictKeyIndex] returns. *)
Definition _dictKeyIndex (dict_can_resize : bool) (d : dict) (k : K) : option (Z * dict) :=
  r ← _dictExpandIfNeeded dict_can_resize d;
  let '(st, d) := r in
  match st with
  | DICT_ERR => Some (-1, d)
  | DICT_OK =>
      r ← find_loop d k;
      match r with
      | inr _ => Some (-1, d)
      | inl idx => Some (s32 idx, d)
      end
  end.

(** The new entry, whose value is not set yet ([v0]: the memory as allocated). *)
Definition dictAddRaw (dict_can_resize : bool) (v0 : V) (d : dict) (k : K)
  : option (option entry_ptr * dict) :=
  d ← rehash_step_if d;
  r ← _dictKeyIndex dict_can_resize d k;
  let '(index, d) := r in
  if index =? -1 then Some (None, d)
  else
    let t := if dictIsRehashing d then T1 else T0 in
    let h := ht d t in
    b ← getb (table h) index;
    tbl ← setb (table h) index (mkEntry (keyDup k) v0 :: b);
    Some (Some (t, index, O),
          set_ht d t (mkHt tbl (size h) (sizemask h) (used h + 1))).

(** [dictSetVal]. *)
Definition dictSetVal (d : dict) (p : entry_ptr) (v : V) : option dict :=
  let '(t, i, n) := p in
  let h := ht d t in
  b ← getb (table h) i;
  e ← b !! n;
  tbl ← setb (table h) i (<[n := mkEntry (key e) (valDup v)]> b);
  Some (set_ht d t (mkHt tbl (size h) (sizemask h) (used h))).

Definition dictAdd (dict_can_resize : bool) (v0 : V) (d : dict) (k : K) (v : V)
  : option (status * dict) :=
  r ← dictAddRaw dict_can_resize v0 d k;
  let '(entry, d) := r in
  match entry with
  | None => Some (DICT_ERR, d)
  | Some p => d ← dictSetVal d p v; Some (DICT_OK, d)
  end.

(** What the destructors of the type are called on. *)
Inductive freed := FreeKey (k : K) | FreeVal (v : V).

Definition dictReplace (dict_can_resize : bool) (v0 : V) (d : dict) (k : K) (v : V)
  : option (Z * dict * list freed) :=
  r ← dictAdd dict_can_resize v0 d k v;
  let '(st, d) := r in
  match st with
  | DICT_OK => Some (1, d, [])
  | DICT_ERR =>
      r ← dictFind d k;
      let '(entry, d) := r in
      p ← entry;
      auxentry ← entry_of d p;
      d ← dictSetVal d p v;
      Some (0, d, [FreeVal (val auxentry)])
  end.

Definition dictReplaceRaw (dict_can_resize : bool) (v0 : V) (d : dict) (k : K)
  : option (option entry_ptr * dict) :=
  r ← dictFind d k;
  let '(entry, d) := r in
  match entry with
  | Some p => Some (Some p, d)
  | None => dictAddRaw dict_can_resize v0 d k
  end.

(** ** Removal *)

Definition dictGenericDelete (d : dict) (k : K) (nofree : bool)
  : option (status * dict * list freed) :=
  if size (ht0 d) =? 0 then Some (DICT_ERR, d, [])
  else
    d ← rehash_step_if d;
    r ← find_loop d k;
    match r with
    | inl _ => Some (DICT_ERR, d, [])
    | inr (t, i, n) =>
        let h := ht d t in
        b ← getb (table h) i;
        he ← b !! n;
        tbl ← setb (table h) i (delete n b);
        Some (DICT_OK,
              set_ht d t (mkHt tbl (size h) (sizemask h) (used h - 1)),
              if nofree then [] else [FreeKey (key he); FreeVal (val he)])
    end.

Definition dictDelete (d : dict) (k : K) := dictGenericDelete d k false.
Definition dictDeleteNoFree (d : dict) (k : K) := dictGenericDelete d k true.

(** The [for] of [_dictClear]; [n] is [ht->used]. *)
Fixpoint clear_loop (tbl : list (list dictEntry)) (n : Z) : list freed :=
  match tbl with
  | [] => []
  | b :: tbl =>
      if n >? 0 then
        flat_map (fun e => [FreeKey (key e); FreeVal (val e)]) b
          ++ clear_loop tbl (n - zlen b)
      else []
  end.

Definition _dictClear (h : dictht) : dictht * list freed :=
  (_dictReset, clear_loop (table h) (used h)).

Definition dictEmpty (d : dict) : dict * list freed :=
  let '(h0, f0) := _dictClear (ht0 d) in
  let '(h1, f1) := _dictClear (ht1 d) in
  (mkDict h0 h1 (-1) 0, f0 ++ f1).

(** What is freed with the dictionary. *)
Definition dictRelease (d : dict) : list freed :=
  (_dictClear (ht0 d)).2 ++ (_dictClear (ht1 d)).2.

(** The [iterators] field. *)
Definition set_iterators (d : dict) (n : Z) : dict :=
  mkDict (ht0 d) (ht1 d) (rehashidx d) n.

(** ** Invariant and abstraction *)

Definition ht_entries (h : dictht) : list dictEntry := concat (table h).
Definition entries (d : dict) : list dictEntry := ht_entries (ht0 d) ++ ht_entries (ht1 d).

(** Every entry is in the bucket of its hash. *)
Definition placed (h : dictht) : Prop := forall i b e,
  getb (table h) i = Some b -> e ∈ b -> bucket_index (dictHashKey (key e)) (sizemask h) = i.

(** An allocated table of [2^k] buckets. *)
Record live_ht (k : Z) (h : dictht) : Prop := {
  live_k : 2 <= k <= 31;
  live_size : size h = 2 ^ k;
  live_len : zlen (table h) = size h;
  live_mask : sizemask h = size h - 1;
  live_used : used h = zlen (ht_entries h);
  live_placed : placed h;
}.

(** The buckets before [i] are empty. *)
Definition empty_below (tbl : list (list dictEntry)) (i : Z) : Prop :=
  forall j b, j < i -> getb tbl j = Some b -> b = [].

Inductive wf_tables (d : dict) : Prop :=
| wf_new : ht0 d = _dictReset -> ht1 d = _dictReset -> rehashidx d = -1 -> wf_tables d
| wf_stable k : live_ht k (ht0 d) -> ht1 d = _dictReset -> rehashidx d = -1 -> wf_tables d
| wf_rehash k0 k1 :
    live_ht k0 (ht0 d) -> live_ht k1 (ht1 d) -> 0 <= rehashidx d <= size (ht0 d) ->
    empty_below (table (ht0 d)) (rehashidx d) -> wf_tables d.

Definition ckeys (es : list dictEntry) : list C := (fun e => canon (key e)) <$> es.

Record wf (d : dict) : Prop := {
  wf_tbl : wf_tables d;
  wf_nodup : NoDup (ckeys (entries d));
}.

(** The finite map that a dictionary stands for. *)
Definition map_of (es : list dictEntry) : gmap C V :=
  list_to_map ((fun e => (canon (key e), val e)) <$> es).
Definition dict_map (d : dict) : gmap C V := map_of (entries d).

(** ** Tables *)

Lemma bucket_index_range k h x :
  live_ht k h -> 0 <= x -> 0 <= bucket_index x (sizemask h) < size h.
Proof.
  intros L Hx. unfold bucket_index. rewrite (live_mask _ _ L), (live_size _ _ L).
  pose proof (live_k _ _ L).
  replace (2 ^ k - 1) with (Z.ones k) by (rewrite Z.ones_equiv; lia).
  rewrite Z.land_ones by lia.
  pose proof (Z.mod_pos_bound x (2 ^ k) ltac:(lia)).
  assert (2 ^ k <= 2 ^ 31) by (apply Z.pow_le_mono_r; lia).
  rewrite u32_small by lia. done.
Qed.

Lemma hash_nonneg (k : K) : 0 <= dictHashKey k.
Proof. apply (hashFunction_range k). Qed.

Lemma bucket_lookup k h x :
  live_ht k h -> 0 <= x -> is_Some (getb (table h) (bucket_index x (sizemask h))).
Proof.
  intros L Hx. apply getb_is_Some. rewrite (live_len _ _ L).
  by eapply bucket_index_range.
Qed.

(** Changing one bucket. *)
Lemma set_bucket (tbl : list (list dictEntry)) i b b' :
  getb tbl i = Some b ->
  exists tbl' rest, setb tbl i b' = Some tbl' /\ concat tbl ≡ₚ b ++ rest /\
    concat tbl' ≡ₚ b' ++ rest /\ zlen tbl' = zlen tbl /\
    (forall j, getb tbl' j = if decide (j = i) then Some b' else getb tbl j).
Proof.
  intros Hb. destruct (getb_split _ _ _ Hb) as (A & D & -> & HA).
  exists (A ++ b' :: D), (concat A ++ concat D). split_and!.
  - by apply setb_mid.
  - rewrite concat_app. simpl. solve_Permutation.
  - rewrite concat_app. simpl. solve_Permutation.
  - zlia.
  - intros j. case_decide as Hj; [subst j; by apply getb_mid|].
    destruct (decide (j < i)).
    + by rewrite !getb_app_l by lia.
    + rewrite !getb_app_r by lia.
      replace (j - zlen A) with (Z.of_nat (S (Z.to_nat (j - zlen A - 1)))) by lia.
      by rewrite !getb_lookup.
Qed.

Lemma entry_in_table (tbl : list (list dictEntry)) e :
  e ∈ concat tbl <-> exists i b, getb tbl i = Some b /\ e ∈ b.
Proof.
  rewrite list_elem_of_In, in_concat. split.
  - intros (b & Hb & He). apply list_elem_of_In, elem_getb in Hb as [i Hi].
    exists i, b. by rewrite list_elem_of_In.
  - intros (i & b & Hi & He). exists b. rewrite <- list_elem_of_In.
    split; [apply elem_getb; eauto|by apply list_elem_of_In].
Qed.

Lemma empty_below_all tbl i :
  empty_below tbl i -> zlen tbl <= i -> concat tbl = [].
Proof.
  intros He Hi. destruct (concat tbl) as [|e es] eqn:E; [done|].
  assert (e ∈ concat tbl) as Hin by (rewrite E; left).
  apply entry_in_table in Hin as (j & b & Hj & Hb).
  pose proof (getb_Some_range _ _ _ Hj). rewrite (He j b) in Hb by (lia || done).
  by apply elem_of_nil in Hb.
Qed.

(** A table with one bucket replaced. *)
Lemma live_set_bucket k h i b b' u tbl' :
  live_ht k h -> getb (table h) i = Some b -> setb (table h) i b' = Some tbl' ->
  u = used h + zlen b' - zlen b ->
  (forall e, e ∈ b' -> e ∈ b \/ bucket_index (dictHashKey (key e)) (sizemask h) = i) ->
  live_ht k (mkHt tbl' (size h) (sizemask h) u) /\
  exists rest, ht_entries h ≡ₚ b ++ rest /\ concat tbl' ≡ₚ b' ++ rest.
Proof.
  intros L Hb Hs -> Hpl.
  destruct (set_bucket (table h) i b b' Hb) as (tbl & rest & Hs' & P1 & P2 & Hlen & Hget).
  simplify_eq. split; [|by exists rest].
  destruct L as [Lk Ls Ll Lm Lu Lp]. split; simpl; try done; [by rewrite Hlen| |].
  - rewrite Lu. unfold ht_entries. simpl.
    apply zlen_perm in P1, P2. zlia.
  - intros j c e Hj He. simpl in *. rewrite Hget in Hj. case_decide; simplify_eq.
    + destruct (Hpl e He) as [He'|]; [|done]. by apply (Lp i b).
    + by apply (Lp j c).
Qed.

(** ** The map of the entries *)

Lemma map_of_perm es es' : es ≡ₚ es' -> NoDup (ckeys es) -> map_of es = map_of es'.
Proof.
  intros P N. apply list_to_map_proper; [|by rewrite P].
  rewrite <- list_fmap_compose. exact N.
Qed.

Lemma map_of_lookup es e :
  NoDup (ckeys es) -> e ∈ es -> map_of es !! canon (key e) = Some (val e).
Proof.
  intros N He. apply elem_of_list_to_map_1.
  - rewrite <- list_fmap_compose. exact N.
  - apply list_elem_of_fmap. by exists e.
Qed.

Lemma map_of_lookup_None es k :
  (forall e, e ∈ es -> canon (key e) <> canon k) -> map_of es !! canon k = None.
Proof.
  intros He. apply not_elem_of_list_to_map_1. rewrite <- list_fmap_compose.
  intros (e & ? & ?)%list_elem_of_fmap. by eapply He.
Qed.

Lemma map_of_cons e es : map_of (e :: es) = <[canon (key e) := val e]> (map_of es).
Proof. done. Qed.

Lemma map_of_delete e es :
  NoDup (ckeys (e :: es)) -> map_of es = delete (canon (key e)) (map_of (e :: es)).
Proof.
  intros [Hn _]%NoDup_cons. rewrite map_of_cons, delete_insert_id; [done|].
  apply map_of_lookup_None. intros e' He' Heq. apply Hn.
  apply list_elem_of_fmap. by exists e'.
Qed.

#[local] Instance ckeys_proper : Proper ((≡ₚ) ==> (≡ₚ)) ckeys.
Proof. intros l l' P. by apply fmap_Permutation. Qed.

Lemma ckeys_app l l' : ckeys (l ++ l') = ckeys l ++ ckeys l'.
Proof. apply fmap_app. Qed.

(** ** Searching *)

Lemma compare_true k k' : dictCompareKeys k k' = true <-> canon k = canon k'.
Proof. unfold dictCompareKeys. rewrite keyCompare_canon. apply bool_decide_eq_true. Qed.

Lemma chain_find_spec k b :
  match chain_find k b with
  | Some n => exists e, b !! n = Some e /\ canon (key e) = canon k
  | None => forall e, e ∈ b -> canon (key e) <> canon k
  end.
Proof.
  induction b as [|e b IH]; simpl; [by intros e ?%elem_of_nil|].
  destruct (dictCompareKeys k (key e)) eqn:E.
  - exists e. apply compare_true in E. done.
  - destruct (chain_find k b) as [n|]; simpl; [exact IH|].
    intros e' [->|He']%elem_of_cons; [|by apply IH].
    intros Heq. symmetry in Heq. apply compare_true in Heq. congruence.
Qed.

Lemma table_find_spec d t k kk :
  live_ht kk (ht d t) ->
  exists n, table_find d t k (dictHashKey k)
    = Some (bucket_index (dictHashKey k) (sizemask (ht d t)), n) /\
  match n with
  | Some n => exists e, entry_of d (t, bucket_index (dictHashKey k) (sizemask (ht d t)), n) = Some e /\
      e ∈ ht_entries (ht d t) /\ canon (key e) = canon k
  | None => forall e, e ∈ ht_entries (ht d t) -> canon (key e) <> canon k
  end.
Proof.
  intros L. unfold table_find.
  destruct (bucket_lookup _ _ (dictHashKey k) L (hash_nonneg k)) as [b Hb].
  rewrite Hb. sbind. exists (chain_find k b). split; [done|].
  pose proof (chain_find_spec k b) as Hc. destruct (chain_find k b) as [n|].
  - destruct Hc as (e & He & Hk). exists e. unfold entry_of. rewrite Hb. split_and!; [done| |done].
    apply entry_in_table. eexists _, b. split; [done|]. by eapply list_elem_of_lookup_2.
  - intros e (i & c & Hi & He)%entry_in_table Hk.
    pose proof (live_placed _ _ L i c e Hi He) as Hp. unfold dictHashKey in *.
    rewrite (hashFunction_canon _ k Hk) in Hp. rewrite Hp in Hb. simplify_eq.
    by apply (Hc e).
Qed.

Lemma wf_size0 d : wf_tables d -> size (ht0 d) = 0 -> d = set_iterators dictCreate (iterators d).
Proof.
  intros [H0 H1 H2|k L H1 H2|k0 k1 L0 L1 Hi He] Hs.
  - destruct d; simpl in *. by subst.
  - pose proof (live_k _ _ L). rewrite (live_size _ _ L) in Hs.
    pose proof (Z.pow_pos_nonneg 2 k ltac:(lia) ltac:(lia)). lia.
  - pose proof (live_k _ _ L0). rewrite (live_size _ _ L0) in Hs.
    pose proof (Z.pow_pos_nonneg 2 k0 ltac:(lia) ltac:(lia)). lia.
Qed.

Lemma dict_iter_eta d : set_iterators d (iterators d) = d.
Proof. by destruct d. Qed.

(** The table that a new entry goes to. *)
Definition target (d : dict) : table_id := if dictIsRehashing d then T1 else T0.

Lemma wf_cases d :
  wf_tables d -> size (ht0 d) <> 0 ->
  (exists k, live_ht k (ht0 d) /\ ht1 d = _dictReset /\ dictIsRehashing d = false /\
     rehashidx d = -1) \/
  (exists k0 k1, live_ht k0 (ht0 d) /\ live_ht k1 (ht1 d) /\ 0 <= rehashidx d <= size (ht0 d) /\
     empty_below (table (ht0 d)) (rehashidx d) /\ dictIsRehashing d = true).
Proof.
  unfold dictIsRehashing.
  intros [H0 H1 H2|k L H1 H2|k0 k1 L0 L1 Hi He] Hs.
  - by rewrite H0 in Hs.
  - left. exists k. by rewrite H2.
  - right. exists k0, k1. rewrite (proj2 (Z.eqb_neq _ _)) by lia. done.
Qed.

Lemma find_loop_spec d k :
  wf_tables d -> size (ht0 d) <> 0 ->
  exists r, find_loop d k = Some r /\
  match r with
  | inr (t, i, n) => exists e, entry_of d (t, i, n) = Some e /\ e ∈ entries d /\
      canon (key e) = canon k
  | inl i => i = bucket_index (dictHashKey k) (sizemask (ht d (target d))) /\
      forall e, e ∈ entries d -> canon (key e) <> canon k
  end.
Proof.
  intros W Hs. unfold find_loop, target, entries.
  destruct (wf_cases d W Hs) as [(kk & L & H1 & -> & _)|(k0 & k1 & L0 & L1 & _ & _ & ->)].
  - destruct (table_find_spec d T0 k kk L) as (n & -> & Hn). sbind.
    destruct n as [n|].
    + eexists. split; [done|]. destruct Hn as (e & ? & ? & ?). exists e.
      split_and!; [done| |done]. apply elem_of_app. by left.
    + eexists. split; [done|]. split; [done|]. rewrite H1. unfold ht_entries at 2. simpl.
      rewrite app_nil_r. exact Hn.
  - destruct (table_find_spec d T0 k k0 L0) as (n & -> & Hn). sbind.
    destruct n as [n|].
    + eexists. split; [done|]. destruct Hn as (e & ? & ? & ?). exists e.
      split_and!; [done| |done]. apply elem_of_app. by left.
    + simpl negb. cbv iota.
      destruct (table_find_spec d T1 k k1 L1) as (n1 & -> & Hn1). sbind.
      destruct n1 as [n1|]; (eexists; split; [done|]).
      * destruct Hn1 as (e & ? & ? & ?). exists e.
        split_and!; [done| |done]. apply elem_of_app. by right.
      * split; [done|]. intros e [?|?]%elem_of_app; [by apply Hn|by apply Hn1].
Qed.

(** ** Rehashing *)

Lemma skip_empty_spec tbl fuel : forall idx ev,
  0 <= idx -> empty_below tbl idx -> concat tbl <> [] -> (Z.to_nat (zlen tbl - idx) <= fuel)%nat ->
  exists idx' ev' stop, skip_empty fuel tbl idx ev = Some (idx', ev', stop) /\
    idx <= idx' <= zlen tbl /\ empty_below tbl idx' /\
    (if stop : bool then idx < idx' else exists e b, getb tbl idx' = Some (e :: b)).
Proof.
  induction fuel as [|fuel IH]; intros idx ev H0 He Hne Hf.
  - destruct Hne. apply (empty_below_all tbl idx); [done|lia].
  - destruct (decide (zlen tbl <= idx)) as [Hge|Hlt].
    { destruct Hne. by apply (empty_below_all tbl idx). }
    cbn [skip_empty]. destruct (getb_is_Some tbl idx) as [b Hb]; [lia|]. rewrite Hb. sbind.
    destruct b as [|e b].
    2:{ exists idx, ev, false. split_and!; try done; [lia..|]. eauto. }
    assert (empty_below tbl (idx + 1)) as He'.
    { intros j c Hj Hc. destruct (decide (j = idx)) as [->|]; [congruence|].
      apply (He j); [lia|done]. }
    destruct (Z.eqb_spec (ev - 1) 0).
    + exists (idx + 1), (ev - 1), true. split_and!; try done; lia.
    + destruct (IH (idx + 1) (ev - 1)) as (idx' & ev' & stop & -> & ? & ? & Hst); try done; [lia..|].
      exists idx', ev', stop. split_and!; try done; [lia..|]. destruct stop; [lia|done].
Qed.

Lemma move_bucket_spec de : forall d k1,
  live_ht k1 (ht1 d) ->
  exists h1, move_bucket de d
    = Some (mkDict (mkHt (table (ht0 d)) (size (ht0 d)) (sizemask (ht0 d)) (used (ht0 d) - zlen de))
              h1 (rehashidx d) (iterators d)) /\
    live_ht k1 h1 /\ ht_entries h1 ≡ₚ de ++ ht_entries (ht1 d).
Proof.
  induction de as [|e de IH]; intros d k1 L.
  - exists (ht1 d). rewrite Z.sub_0_r. split_and!; try done. by destruct d as [[] ? ? ?].
  - cbn [move_bucket]. destruct (bucket_lookup _ _ (dictHashKey (key e)) L (hash_nonneg _)) as [b Hb].
    rewrite Hb. sbind.
    destruct (set_bucket _ _ _ (e :: b) Hb) as (tbl & rest & Hset & _). rewrite Hset. sbind.
    destruct (live_set_bucket k1 (ht1 d) _ b (e :: b) (used (ht1 d) + 1) tbl L Hb Hset)
      as (L' & rest' & P1 & P2); [rewrite zlen_cons; lia| |].
    { intros e' [->|]%elem_of_cons; [by right|by left]. }
    match goal with |- context [move_bucket de ?d'] => destruct (IH d' k1 L') as (h1 & -> & L1 & P) end.
    exists h1. split_and!; [|done|].
    + simpl. rewrite zlen_cons, Z.sub_add_distr. done.
    + rewrite P. unfold ht_entries in *. simpl. rewrite P2, P1. solve_Permutation.
Qed.

(** The state in the middle of a rehashing. *)
Record rehashing (k0 k1 : Z) (d : dict) : Prop := {
  rh_live0 : live_ht k0 (ht0 d);
  rh_live1 : live_ht k1 (ht1 d);
  rh_idx : 0 <= rehashidx d <= size (ht0 d);
  rh_empty : empty_below (table (ht0 d)) (rehashidx d);
}.

(** A turn of the loop that moves a bucket. *)
Lemma rehash_turn k0 k1 d idx e b :
  live_ht k0 (ht0 d) -> live_ht k1 (ht1 d) -> empty_below (table (ht0 d)) idx ->
  getb (table (ht0 d)) idx = Some (e :: b) ->
  exists d1 t0, move_bucket (e :: b) d = Some d1 /\
    setb (table (ht0 d1)) idx [] = Some t0 /\
    let d' := mkDict (mkHt t0 (size (ht0 d1)) (sizemask (ht0 d1)) (used (ht0 d1)))
               (ht1 d1) (idx + 1) (iterators d1) in
    rehashing k0 k1 d' /\ entries d' ≡ₚ entries d /\ iterators d' = iterators d /\
    size (ht0 d') = size (ht0 d) /\ size (ht1 d') = size (ht1 d).
Proof.
  intros L0 L1 He Hb.
  destruct (move_bucket_spec (e :: b) d k1 L1) as (h1 & Hm & L1' & P).
  destruct (set_bucket _ _ _ [] Hb) as (t0 & rest & Hset & _ & _ & Hlen & Hget).
  destruct (live_set_bucket k0 (ht0 d) idx (e :: b) [] (used (ht0 d) - zlen (e :: b)) t0 L0 Hb Hset)
    as (L0' & rest' & P1 & P2); [rewrite zlen_nil; lia|by intros e' ?%elem_of_nil|].
  pose proof (getb_Some_range _ _ _ Hb) as Hr. rewrite (live_len _ _ L0) in Hr.
  eexists _, t0. split; [exact Hm|]. split; [done|]. simpl. split_and!; try done.
  - split; simpl; try done; [lia|]. intros j c Hj Hc. rewrite Hget in Hc.
    case_decide; [congruence|]. apply (He j); [lia|done].
  - unfold entries in *; simpl. rewrite P. unfold ht_entries in *. simpl.
    rewrite P1, P2. solve_Permutation.
  - pose proof (live_size _ _ L1'). pose proof (live_size _ _ L1). congruence.
Qed.

Lemma rehash_loop_spec k0 k1 n : forall d ev,
  rehashing k0 k1 d ->
  exists stop d', rehash_loop n d ev = Some (stop, d') /\
    rehashing k0 k1 d' /\ entries d' ≡ₚ entries d /\ iterators d' = iterators d /\
    rehashidx d <= rehashidx d' /\
    (used (ht0 d') <> 0 -> n <> 0%nat -> rehashidx d < rehashidx d') /\
    (stop = true -> used (ht0 d') <> 0).
Proof.
  induction n as [|n IH]; intros d ev [L0 L1 Hi He].
  { exists false, d. split_and!; done || lia. }
  cbn [rehash_loop]. destruct (Z.eqb_spec (used (ht0 d)) 0) as [|Hu].
  { exists false, d. split_and!; done || lia. }
  assert (concat (table (ht0 d)) <> []) as Hne.
  { rewrite (live_used _ _ L0) in Hu. unfold ht_entries in Hu. by intros E; rewrite E in Hu. }
  assert (rehashidx d < size (ht0 d)) as Hlt.
  { destruct (decide (rehashidx d < size (ht0 d))); [done|]. destruct Hne.
    apply (empty_below_all _ (rehashidx d)); [done|]. rewrite (live_len _ _ L0). lia. }
  rewrite Z.gtb_ltb, (proj2 (Z.ltb_lt _ _)) by lia. cbn [negb].
  destruct (skip_empty_spec (table (ht0 d)) (length (table (ht0 d))) (rehashidx d) ev)
    as (idx & ev' & stop & -> & Hidx & He' & Hst); try done; [lia|unfold zlen; lia|].
  sbind. rewrite (live_len _ _ L0) in Hidx. destruct stop.
  - eexists _, _. split; [done|]. simpl. split_and!; [split; simpl; done || lia|done|done|lia|lia|done].
  - destruct Hst as (e & b & Hb). rewrite Hb. sbind.
    destruct (rehash_turn k0 k1 d idx e b L0 L1 He' Hb)
      as (d1 & t0 & -> & Hs0 & R & P & Hit & Hz0 & Hz1).
    sbind. rewrite Hs0. sbind.
    match goal with |- context [rehash_loop n ?d2 ev'] =>
      destruct (IH d2 ev' R) as (stop & d' & -> & R' & P' & Hit' & Hle & _ & Hstop) end.
    exists stop, d'. split_and!; [done|done|by rewrite P'|congruence|simpl in *; lia|simpl in *; lia|done].
Qed.

(** [d'] has the contents of [d]: what a rehashing step may do. *)
Record same_contents (d d' : dict) : Prop := {
  sc_wf : wf d';
  sc_entries : entries d' ≡ₚ entries d;
  sc_iter : iterators d' = iterators d;
  sc_alloc : size (ht0 d) <> 0 -> size (ht0 d') <> 0;
}.

Lemma same_contents_refl d : wf d -> same_contents d d.
Proof. by split. Qed.

Lemma same_contents_trans d1 d2 d3 :
  same_contents d1 d2 -> same_contents d2 d3 -> same_contents d1 d3.
Proof. intros [] []. split; [done|by etrans|congruence|eauto]. Qed.

Lemma wf_perm d d' : wf_tables d' -> entries d' ≡ₚ entries d -> wf d -> wf d'.
Proof. intros W P [_ N]. split; [done|]. by rewrite P. Qed.

Lemma live_not_zero k h : live_ht k h -> size h <> 0.
Proof.
  intros L. rewrite (live_size _ _ L). pose proof (live_k _ _ L).
  pose proof (Z.pow_pos_nonneg 2 k ltac:(lia) ltac:(lia)). lia.
Qed.

Lemma live_empty k h : live_ht k h -> used h = 0 -> ht_entries h = [].
Proof.
  intros L Hu. rewrite (live_used _ _ L) in Hu.
  destruct (ht_entries h); [done|]. rewrite zlen_cons in Hu.
  match goal with _ : 1 + zlen ?l = 0 |- _ => pose proof (zlen_nonneg l); lia end.
Qed.

Lemma rehashing_is k0 k1 d : rehashing k0 k1 d -> dictIsRehashing d = true.
Proof.
  intros R. pose proof (rh_idx _ _ _ R). unfold dictIsRehashing.
  by rewrite (proj2 (Z.eqb_neq _ _)) by lia.
Qed.

Lemma rehashing_wf k0 k1 d : rehashing k0 k1 d -> wf_tables d.
Proof. intros []. by eapply wf_rehash. Qed.

Lemma dictRehash_spec d n :
  wf d -> Z.of_nat n * 10 <= INT32_MAX ->
  exists r d', dictRehash d n = Some (r, d') /\ same_contents d d' /\
    r = Z.b2z (dictIsRehashing d') /\
    (n <> 0%nat -> r = 1 -> rehashidx d < rehashidx d' <= size (ht0 d) /\
       size (ht0 d') = size (ht0 d)).
Proof.
  intros [W N] Hmax. unfold dictRehash. rewrite Z.gtb_ltb, (proj2 (Z.ltb_ge _ _)) by done. destruct (dictIsRehashing d) eqn:Hr; simpl negb; cbv iota.
  2:{ exists 0, d. rewrite Hr. split_and!; [done|by split|done|done]. }
  destruct W as [H0 H1 H2|k L H1 H2|k0 k1 L0 L1 Hi He];
    [by unfold dictIsRehashing in Hr; rewrite H2 in Hr..|].
  destruct (rehash_loop_spec k0 k1 n d (Z.of_nat n * 10)) as
    (stop & d' & -> & R & P & Hit & _ & Hlt & Hstop); [done|].
  sbind. pose proof (rehashing_is _ _ _ R) as Hr'.
  assert (same_contents d d') as Sc.
  { split; [|done|done|].
    - eapply wf_perm; [by eapply rehashing_wf|done|]. split; [by eapply wf_rehash|done].
    - intros _. eapply live_not_zero, R. }
  assert (used (ht0 d') <> 0 -> n <> 0%nat -> rehashidx d < rehashidx d' <= size (ht0 d) /\
    size (ht0 d') = size (ht0 d)) as Hprog.
  { intros Hu Hn. destruct R as [L0' L1' Hi' He'].
    rewrite (live_size _ _ L0'), (live_size _ _ L0) in *.
    split; [|done]. split; [by apply Hlt|lia]. }
  destruct stop.
  { exists 1, d'. rewrite Hr'. split_and!; try done. intros Hn _. apply Hprog; [|done].
    by apply Hstop. }
  destruct (Z.eqb_spec (used (ht0 d')) 0) as [Hu|Hu].
  2:{ exists 1, d'. rewrite Hr'. split_and!; try done. intros Hn _. by apply Hprog. }
  eexists 0, _. split_and!; [done| |done|done]. destruct R as [L0' L1' Hi' He'].
  eapply same_contents_trans; [exact Sc|].
  assert (entries (mkDict (ht1 d') _dictReset (-1) (iterators d')) ≡ₚ entries d') as P'.
  { unfold entries. simpl. by rewrite (live_empty _ _ L0' Hu), app_nil_r. }
  split; [|done|done|intros _; by eapply live_not_zero].
  eapply wf_perm; [by eapply wf_stable|exact P'|by apply Sc].
Qed.

Lemma rehash_step_spec d :
  wf d -> exists d', rehash_step_if d = Some d' /\ same_contents d d'.
Proof.
  intros W. unfold rehash_step_if, _dictRehashStep. destruct (dictIsRehashing d).
  2:{ exists d. split; [done|by apply same_contents_refl]. }
  destruct (iterators d =? 0).
  - destruct (dictRehash_spec d 1 W ltac:(done)) as (r & d' & -> & Sc & _). by exists d'.
  - exists d. split; [done|by apply same_contents_refl].
Qed.

(** ** Resizing *)

Lemma next_power_loop_spec fuel : forall j sz,
  0 <= j -> j + Z.of_nat fuel <= 63 -> sz <= 2 ^ (j + Z.of_nat fuel) ->
  exists k, next_power_loop fuel (2 ^ j) sz = Some (2 ^ k) /\ j <= k <= j + Z.of_nat fuel /\
    sz <= 2 ^ k /\ (k = j \/ 2 ^ (k - 1) < sz).
Proof.
  induction fuel as [|fuel IH]; intros j sz Hj Hf Hsz; cbn [next_power_loop];
    rewrite Z.geb_leb; destruct (Z.leb_spec sz (2 ^ j)).
  - exists j. split_and!; try done; lia || by left.
  - rewrite Z.add_0_r in Hsz. lia.
  - exists j. split_and!; try done; lia || by left.
  - replace (2 ^ j * 2) with (2 ^ (j + 1)) by (rewrite Z.pow_add_r by lia; lia).
    assert (2 ^ (j + 1) <= 2 ^ 63) by (apply Z.pow_le_mono_r; lia).
    rewrite u64_small by (pose proof (Z.pow_pos_nonneg 2 (j + 1)); lia).
    destruct (IH (j + 1) sz) as (k & -> & Hk & ? & Hlt); [lia|lia|by replace (j + 1 + Z.of_nat fuel) with (j + Z.of_nat (S fuel)) by lia|].
    exists k. split_and!; [done|lia|lia|done|]. right. destruct Hlt as [->|]; [|done].
    by replace (j + 1 - 1) with j by lia.
Qed.

Lemma next_power_spec sz k' :
  2 <= k' <= 62 -> sz <= 2 ^ k' ->
  exists k, _dictNextPower sz = Some (2 ^ k) /\ 2 <= k <= k' /\ sz <= 2 ^ k /\
    (k = 2 \/ 2 ^ (k - 1) < sz).
Proof.
  intros Hk Hsz. unfold _dictNextPower, LLONG_MAX.
  assert (2 ^ k' <= 2 ^ 62) by (apply Z.pow_le_mono_r; lia).
  rewrite Z.geb_leb, (proj2 (Z.leb_gt _ _)) by lia.
  destruct (next_power_loop_spec 61 2 sz) as (k & Hn & ? & ? & Hlt); [lia|lia|simpl; lia|].
  change DICT_HT_INITIAL_SIZE with (2 ^ 2). exists k. split_and!; [done|lia| |done|done].
  destruct Hlt as [->|Hlt]; [lia|].
  destruct (decide (k <= k')); [done|]. exfalso.
  assert (2 ^ k' <= 2 ^ (k - 1)) by (apply Z.pow_le_mono_r; lia). lia.
Qed.

Lemma new_table k :
  2 <= k <= 31 ->
  exists tbl, alloc_table (2 ^ k) = Some tbl /\ live_ht k (mkHt tbl (2 ^ k) (2 ^ k - 1) 0) /\
    concat tbl = [].
Proof.
  intros Hk. unfold alloc_table.
  assert (2 ^ k <= 2 ^ 31) by (apply Z.pow_le_mono_r; lia).
  rewrite (proj2 (Z.ltb_lt _ _)) by lia.
  assert (forall n, concat (replicate n (@nil dictEntry)) = []) as Hc.
  { induction n; [done|]. simpl. done. }
  eexists. split; [done|]. split; [|apply Hc]. split; simpl; try done; try lia.
  - rewrite zlen_replicate. pose proof (Z.pow_nonneg 2 k). lia.
  - unfold ht_entries. simpl. by rewrite Hc.
  - intros i b e Hb He. simpl in Hb. exfalso.
    assert (e ∈ concat (replicate (Z.to_nat (2 ^ k)) (@nil dictEntry))) as Hin
      by (apply entry_in_table; eauto).
    rewrite Hc in Hin. by apply elem_of_nil in Hin.
Qed.

Lemma live_table_cons k h : live_ht k h -> table h <> [].
Proof.
  intros L E. pose proof (live_not_zero _ _ L). pose proof (live_len _ _ L) as Hl.
  rewrite E in Hl. by rewrite zlen_nil in Hl.
Qed.

(** [dictExpand] never loses an entry; it only refuses. *)
Lemma dictExpand_spec d sz :
  wf d -> sz <= 2 ^ 31 ->
  exists st d', dictExpand d sz = Some (st, d') /\ same_contents d d' /\
    (dictIsRehashing d = false -> used (ht0 d) <= sz -> size (ht0 d) < sz \/ size (ht0 d) = 0 ->
     st = DICT_OK /\ size (ht0 d') <> 0).
Proof.
  intros W Hsz. unfold dictExpand.
  destruct (next_power_spec sz 31) as (k & -> & Hk & Hle & Hmin); [lia|done|]. sbind.
  destruct (dictIsRehashing d || (used (ht0 d) >? sz)) eqn:Hg.
  { exists DICT_ERR, d. split_and!; [done|by apply same_contents_refl|].
    intros Hr Hu. rewrite Hr, Z.gtb_ltb, (proj2 (Z.ltb_ge _ _)) in Hg by lia. done. }
  apply orb_false_iff in Hg as [Hr _].
  destruct (Z.eqb_spec (2 ^ k) (size (ht0 d))) as [He|He].
  { exists DICT_ERR, d. split_and!; [done|by apply same_contents_refl|].
    intros _ _ [?|E]; [lia|]. rewrite E in He. pose proof (Z.pow_pos_nonneg 2 k). lia. }
  destruct (new_table k Hk) as (tbl & -> & L & Hc). sbind.
  pose proof W as [[H0 H1 H2|k0 L0 H1 H2|k0 k1 L0 L1 Hi _] N].
  - rewrite H0. simpl. eexists _, _. split; [done|].
    split; [|intros _ _ _; split; [done|by eapply live_not_zero]].
    assert (entries (mkDict (mkHt tbl (2 ^ k) (2 ^ k - 1) 0) (ht1 d) (rehashidx d) (iterators d)) ≡ₚ entries d) as P.
    { unfold entries, ht_entries. simpl. by rewrite Hc, H0. }
    split; [|done|done|]; simpl.
    + eapply wf_perm; [by eapply wf_stable|done..].
    + by rewrite H0.
  - pose proof (live_table_cons _ _ L0). destruct (table (ht0 d)) eqn:Et; [done|].
    eexists _, _. split; [done|].
    split; [|intros _ _ _; split; [done|by eapply live_not_zero]].
    set (d' := set_rehashidx _ _).
    assert (entries d' ≡ₚ entries d) as P.
    { unfold entries, ht_entries. simpl. by rewrite Hc, H1. }
    split; [|done|done|by intros _; eapply live_not_zero].
    eapply wf_perm; [|exact P|done]. eapply wf_rehash; [done|done| |].
    + simpl. rewrite (live_size _ _ L0). pose proof (Z.pow_nonneg 2 k0). lia.
    + intros j b Hj Hb. simpl in *. pose proof (getb_Some_range _ _ _ Hb). lia.
  - unfold dictIsRehashing in Hr. rewrite (proj2 (Z.eqb_neq _ _)) in Hr by lia. done.
Qed.

Lemma used_nonneg d : wf_tables d -> 0 <= used (ht0 d) /\ 0 <= used (ht1 d).
Proof.
  intros [H0 H1 _|k L H1 _|k0 k1 L0 L1 _ _];
    rewrite ?H0, ?H1, ?(live_used _ _ L), ?(live_used _ _ L0), ?(live_used _ _ L1);
    simpl; auto using zlen_nonneg with lia.
Qed.

Lemma dictSize_entries d : wf_tables d -> dictSize d = zlen (entries d).
Proof.
  unfold dictSize, entries. rewrite zlen_app.
  intros [H0 H1 _|k L H1 _|k0 k1 L0 L1 _ _];
    rewrite ?H0, ?H1, ?(live_used _ _ L), ?(live_used _ _ L0), ?(live_used _ _ L1); done.
Qed.

Lemma expand_if_needed_spec rs d :
  wf d -> dictSize d < 2 ^ 30 ->
  exists d', _dictExpandIfNeeded rs d = Some (DICT_OK, d') /\ same_contents d d' /\
    size (ht0 d') <> 0.
Proof.
  intros W Hsize. pose proof (used_nonneg d (wf_tbl _ W)). unfold dictSize in Hsize.
  unfold _dictExpandIfNeeded. destruct (dictIsRehashing d) eqn:Hr.
  { exists d. split_and!; [done|by apply same_contents_refl|]. intros E.
    rewrite (wf_size0 d (wf_tbl _ W) E) in Hr. done. }
  destruct (Z.eqb_spec (size (ht0 d)) 0) as [Hz|Hz].
  { destruct (dictExpand_spec d DICT_HT_INITIAL_SIZE W) as (st & d' & -> & Sc & Hst); [done|].
    destruct Hst as [-> ?]; [done| |by right|by exists d'].
    by rewrite (wf_size0 d (wf_tbl _ W) Hz). }
  destruct ((used (ht0 d) >=? size (ht0 d)) && _) eqn:Hc.
  2:{ exists d. split_and!; [done|by apply same_contents_refl|done]. }
  apply andb_true_iff in Hc as [Hc _]. zbool.
  rewrite u64_small by lia.
  destruct (dictExpand_spec d (used (ht0 d) * 2) W) as (st & d' & -> & Sc & Hst); [lia|].
  destruct Hst as [-> ?]; [done|lia| |by exists d'].
  left. pose proof (wf_tbl _ W) as Wt.
  assert (0 < size (ht0 d)); [|lia].
  destruct (wf_cases d Wt Hz) as [(k & L & _)|(k & k1 & L & _)];
    rewrite (live_size _ _ L); apply Z.pow_pos_nonneg; pose proof (live_k _ _ L); lia.
Qed.

Lemma dictResize_spec rs d :
  wf d -> dictSize d < 2 ^ 30 ->
  exists st d', dictResize rs d = Some (st, d') /\ same_contents d d'.
Proof.
  intros W Hsize. pose proof (used_nonneg d (wf_tbl _ W)). unfold dictSize in Hsize.
  unfold dictResize. destruct (negb rs || dictIsRehashing d).
  { exists DICT_ERR, d. split; [done|by apply same_contents_refl]. }
  rewrite s32_small by lia. cbv zeta. unfold DICT_HT_INITIAL_SIZE.
  set (m := if used (ht0 d) <? 4 then 4 else used (ht0 d)).
  assert (0 <= m <= 2 ^ 31) as Hm.
  { subst m. destruct (Z.ltb_spec (used (ht0 d)) 4); lia. }
  rewrite u64_small by lia.
  destruct (dictExpand_spec d m W) as (st & d' & -> & Sc & _); [lia|]. by exists st, d'.
Qed.

(** ** Updates of a bucket *)

Definition with_table (h : dictht) (tbl : list (list dictEntry)) (u : Z) : dictht :=
  mkHt tbl (size h) (sizemask h) u.

(** Replacing the bucket [b] by [b']. *)
Lemma update_bucket d t i b b' u :
  wf_tables d -> getb (table (ht d t)) i = Some b ->
  (dictIsRehashing d = true -> t = T1 \/ b <> []) ->
  u = used (ht d t) + zlen b' - zlen b ->
  (forall e, e ∈ b' -> (exists e', e' ∈ b /\ key e = key e') \/
     bucket_index (dictHashKey (key e)) (sizemask (ht d t)) = i) ->
  exists tbl, setb (table (ht d t)) i b' = Some tbl /\
    let d' := set_ht d t (with_table (ht d t) tbl u) in
    wf_tables d' /\ (exists rest, entries d ≡ₚ b ++ rest /\ entries d' ≡ₚ b' ++ rest) /\
    (forall j, getb (table (ht d' t)) j
       = if decide (j = i) then Some b' else getb (table (ht d t)) j).
Proof.
  intros W Hb Hne Hu Hpl.
  destruct (set_bucket _ _ _ b' Hb) as (tbl & _ & Hset & _ & _ & _ & Hget).
  exists tbl. split; [done|]. cbv zeta. set (d' := set_ht d t _).
  assert (forall k, live_ht k (ht d t) -> live_ht k (with_table (ht d t) tbl u) /\
    exists rest, ht_entries (ht d t) ≡ₚ b ++ rest /\ concat tbl ≡ₚ b' ++ rest) as Hlive.
  { intros k L. apply (live_set_bucket k (ht d t) i b b' u tbl L Hb Hset Hu).
    intros e He. destruct (Hpl e He) as [(e' & He' & Hk)|]; [|by right]. right.
    rewrite Hk. by apply (live_placed _ _ L i b). }
  assert (forall j, getb (table (ht d' t)) j
    = if decide (j = i) then Some b' else getb (table (ht d t)) j) as Hget'.
  { intros j. rewrite <- Hget. by destruct t. }
  assert (forall A B D, A /\ B -> D -> A /\ B /\ D) as Hand by tauto.
  apply Hand; [|exact Hget'].
  destruct W as [H0 H1 H2|k L H1 H2|k0 k1 L0 L1 Hi He].
  - exfalso. destruct t; simpl in Hb; rewrite ?H0, ?H1 in Hb;
      apply getb_Some_range in Hb; unfold zlen in Hb; simpl in Hb; lia.
  - destruct t; simpl in *.
    2:{ exfalso. rewrite H1 in Hb. apply getb_Some_range in Hb. unfold zlen in Hb; simpl in Hb. lia. }
    destruct (Hlive k L) as (L' & rest & P1 & P2). split; [by eapply wf_stable|].
    exists rest. unfold entries. simpl. rewrite H1, P1. unfold ht_entries; simpl.
    by rewrite P2, !app_nil_r.
  - destruct t; simpl in *.
    + destruct (Hlive k0 L0) as (L' & rest & P1 & P2). split.
      * eapply wf_rehash; [done|done|done|]. intros j c Hj Hc. simpl in Hc.
        rewrite Hget in Hc. case_decide as Hji; [|by apply (He j)]. subst j. exfalso.
        destruct Hne as [?|Hne]; [|done|].
        { unfold dictIsRehashing. by rewrite (proj2 (Z.eqb_neq _ _)) by lia. }
        apply Hne. by apply (He i).
      * exists (rest ++ ht_entries (ht1 d)). unfold entries. simpl. rewrite P1.
        unfold ht_entries at 2; simpl. rewrite P2, <- !app_assoc. done.
    + destruct (Hlive k1 L1) as (L' & rest & P1 & P2). split.
      * by eapply wf_rehash.
      * exists (ht_entries (ht0 d) ++ rest). unfold entries. simpl. rewrite P1.
        unfold ht_entries at 3; simpl. rewrite P2. split; solve_Permutation.
Qed.

Lemma entry_of_inv d t i n e :
  entry_of d (t, i, n) = Some e ->
  exists b, getb (table (ht d t)) i = Some b /\ b !! n = Some e.
Proof.
  unfold entry_of. intros (b & Hb & He)%bind_Some. by exists b.
Qed.

Lemma insert_perm {A} (l : list A) n x y :
  l !! n = Some x -> exists r, l ≡ₚ x :: r /\ <[n := y]> l ≡ₚ y :: r.
Proof.
  intros Hn. exists (take n l ++ drop (S n) l). apply lookup_lt_Some in Hn as Hl. split.
  - rewrite <- (take_drop_middle l n x Hn) at 1. solve_Permutation.
  - rewrite insert_take_drop by done. solve_Permutation.
Qed.

Lemma dictSetVal_spec d p e v :
  wf d -> entry_of d p = Some e ->
  exists d' rest, dictSetVal d p v = Some d' /\ wf d' /\ iterators d' = iterators d /\
    rehashidx d' = rehashidx d /\
    entries d ≡ₚ e :: rest /\ entries d' ≡ₚ mkEntry (key e) (valDup v) :: rest.
Proof.
  destruct p as [[t i] n]. intros [W N] (b & Hb & He)%entry_of_inv.
  set (e' := mkEntry (key e) (valDup v)).
  destruct (update_bucket d t i b (<[n := e']> b) (used (ht d t)) W Hb)
    as (tbl & Hset & W' & (rest & P1 & P2) & _).
  - intros _. right. by intros ->.
  - autorewrite with zlen. lia.
  - intros x [j Hj]%list_elem_of_lookup. left.
    destruct (decide (j = n)) as [->|].
    + rewrite list_lookup_insert_eq in Hj by (by eapply lookup_lt_Some). simplify_eq.
      exists e. split; [by eapply list_elem_of_lookup_2|done].
    + rewrite list_lookup_insert_ne in Hj by done. exists x.
      split; [by eapply list_elem_of_lookup_2|done].
  - destruct (insert_perm b n e e' He) as (r & R1 & R2).
    eexists _, (r ++ rest). unfold dictSetVal. rewrite Hb. sbind. rewrite He. sbind.
    fold e'. rewrite Hset. sbind. split; [done|]. fold (with_table (ht d t) tbl (used (ht d t))).
    rewrite R1 in P1. rewrite R2 in P2. split_and!; [|by destruct t|by destruct t|done|done].
    split; [done|]. rewrite P2. rewrite P1 in N. exact N.
Qed.

(** ** The operations, on entries *)

Lemma dictFind_spec d k :
  wf d ->
  exists p d', dictFind d k = Some (p, d') /\ same_contents d d' /\
  match p with
  | Some p => exists e, entry_of d' p = Some e /\ e ∈ entries d' /\ canon (key e) = canon k
  | None => forall e, e ∈ entries d' -> canon (key e) <> canon k
  end.
Proof.
  intros W. unfold dictFind. destruct (Z.eqb_spec (size (ht0 d)) 0) as [Hz|Hz].
  { exists None, d. split_and!; [done|by apply same_contents_refl|].
    rewrite (wf_size0 d (wf_tbl _ W) Hz). by intros e ?%elem_of_nil. }
  destruct (rehash_step_spec d W) as (d' & -> & Sc). sbind.
  destruct (find_loop_spec d' k (wf_tbl _ (sc_wf _ _ Sc)) (sc_alloc _ _ Sc Hz)) as (r & -> & Hr).
  sbind. destruct r as [i|[[t i] n]]; eexists _, d'; (split; [done|split; [done|]]).
  - apply Hr.
  - exact Hr.
Qed.

Lemma dictAddRaw_spec rs v0 d k :
  wf d -> dictSize d < 2 ^ 30 ->
  exists p d', dictAddRaw rs v0 d k = Some (p, d') /\ wf d' /\ iterators d' = iterators d /\
  match p with
  | Some p => entries d' ≡ₚ mkEntry (keyDup k) v0 :: entries d /\
      entry_of d' p = Some (mkEntry (keyDup k) v0) /\
      forall e, e ∈ entries d -> canon (key e) <> canon k
  | None => same_contents d d' /\ exists e, e ∈ entries d' /\ canon (key e) = canon k
  end.
Proof.
  intros W Hs. unfold dictAddRaw, _dictKeyIndex.
  destruct (rehash_step_spec d W) as (d1 & -> & Sc1). sbind.
  destruct (expand_if_needed_spec rs d1 (sc_wf _ _ Sc1)) as (d2 & -> & Sc2 & Hz).
  { rewrite (dictSize_entries d1) by apply Sc1. rewrite (zlen_perm _ _ (sc_entries _ _ Sc1)).
    rewrite <- dictSize_entries by apply W. done. }
  sbind. pose proof (same_contents_trans _ _ _ Sc1 Sc2) as Sc.
  pose proof (wf_tbl _ (sc_wf _ _ Sc)) as W2.
  destruct (find_loop_spec d2 k W2 Hz) as (r & -> & Hr). sbind.
  destruct r as [i|[[t i] n]].
  2:{ sbind. change (-1 =? -1) with true. cbv iota. destruct Hr as (e & _ & He & Hk). exists None, d2.
      split_and!; [done|apply Sc|apply Sc|done|by exists e]. }
  destruct Hr as [Hi Hfresh]. fold (target d2).
  assert (exists kk, live_ht kk (ht d2 (target d2))) as [kk L].
  { unfold target. destruct (wf_cases d2 W2 Hz) as [(? & ? & _ & -> & _)|(? & ? & _ & ? & _ & _ & ->)];
      by eexists. }
  pose proof (bucket_index_range kk _ (dictHashKey k) L (hash_nonneg k)) as Hrange.
  rewrite <- Hi, (live_size _ _ L) in Hrange.
  assert (2 ^ kk <= 2 ^ 31) by (apply Z.pow_le_mono_r; pose proof (live_k _ _ L); lia).
  sbind. rewrite s32_small by lia. rewrite (proj2 (Z.eqb_neq i (-1))) by lia.
  destruct (bucket_lookup kk _ (dictHashKey k) L (hash_nonneg k)) as [b Hb]. rewrite <- Hi in Hb.
  cbv zeta. fold (target d2). rewrite Hb. sbind. set (e := mkEntry (keyDup k) v0).
  destruct (update_bucket d2 (target d2) i b (e :: b) (used (ht d2 (target d2)) + 1) W2 Hb)
    as (tbl & -> & W' & (rest & P1 & P2) & Hget).
  - intros Hreh. left. unfold target. by rewrite Hreh.
  - autorewrite with zlen. lia.
  - intros x [->|Hx]%elem_of_cons; [right|left; by exists x].
    simpl. unfold dictHashKey. rewrite (hashFunction_canon _ k (keyDup_canon k)). done.
  - sbind. eexists (Some _), _. split; [done|].
    fold (with_table (ht d2 (target d2)) tbl (used (ht d2 (target d2)) + 1)).
    assert (forall x, x ∈ entries d -> canon (key x) <> canon k) as Hfresh'.
    { intros x. rewrite <- (sc_entries _ _ Sc). apply Hfresh. }
    assert (entries (set_ht d2 (target d2) (with_table (ht d2 (target d2)) tbl
      (used (ht d2 (target d2)) + 1))) ≡ₚ e :: entries d) as P.
    { rewrite P2, <- (sc_entries _ _ Sc), P1. done. }
    split_and!; [split; [done|]| |done| |done].
    + rewrite P. constructor; [|apply W].
      intros (x & Hx & Hin)%list_elem_of_fmap. simpl in Hx. rewrite keyDup_canon in Hx.
      by apply (Hfresh' x Hin).
    + destruct (target d2); apply Sc.
    + unfold entry_of. rewrite Hget, decide_True by done. done.
Qed.

(** ** The operations, on the map *)

Lemma same_contents_map d d' : wf d -> same_contents d d' -> dict_map d' = dict_map d.
Proof.
  intros W Sc. apply map_of_perm; [apply Sc|]. apply Sc.
Qed.

Lemma dict_map_Some d e :
  wf d -> e ∈ entries d -> dict_map d !! canon (key e) = Some (val e).
Proof. intros [_ N]. by apply map_of_lookup. Qed.

Lemma dictAdd_spec rs v0 d k v :
  wf d -> dictSize d < 2 ^ 30 ->
  exists st d', dictAdd rs v0 d k v = Some (st, d') /\ wf d' /\ iterators d' = iterators d /\
  match st with
  | DICT_OK => dict_map d !! canon k = None /\
      entries d' ≡ₚ mkEntry (keyDup k) (valDup v) :: entries d
  | DICT_ERR => same_contents d d' /\ is_Some (dict_map d !! canon k)
  end.
Proof.
  intros W Hs. unfold dictAdd.
  destruct (dictAddRaw_spec rs v0 d k W Hs) as (p & d1 & -> & W1 & Hit & Hp). sbind.
  destruct p as [p|].
  - destruct Hp as (P & He & Hfresh).
    destruct (dictSetVal_spec d1 p _ v W1 He) as (d2 & rest & -> & W2 & Hit2 & _ & P1 & P2).
    sbind. exists DICT_OK, d2. split_and!; [done|done|congruence|by apply map_of_lookup_None|].
    rewrite P2. simpl. rewrite P in P1. apply Permutation_cons_inv in P1. by rewrite P1.
  - destruct Hp as (Sc & e & He & Hk). exists DICT_ERR, d1. split_and!; try done.
    rewrite <- (same_contents_map _ _ W Sc), <- Hk. eexists. by apply dict_map_Some.
Qed.

Lemma map_of_add d d' k v :
  entries d' ≡ₚ mkEntry (keyDup k) (valDup v) :: entries d -> wf d' ->
  dict_map d' = <[canon k := valDup v]> (dict_map d).
Proof.
  intros P [_ N]. unfold dict_map. rewrite (map_of_perm _ _ P N), map_of_cons.
  simpl. by rewrite keyDup_canon.
Qed.

Lemma dictReplace_spec rs v0 d k v :
  wf d -> dictSize d < 2 ^ 30 ->
  exists r d' fr, dictReplace rs v0 d k v = Some (r, d', fr) /\ wf d' /\
    iterators d' = iterators d /\
    dict_map d' = <[canon k := valDup v]> (dict_map d) /\
    match dict_map d !! canon k with
    | Some old => r = 0 /\ fr = [FreeVal old]
    | None => r = 1 /\ fr = []
    end.
Proof.
  intros W Hs. unfold dictReplace.
  destruct (dictAdd_spec rs v0 d k v W Hs) as (st & d1 & -> & W1 & Hit & Hst). sbind.
  destruct st.
  { destruct Hst as [Hn P]. exists 1, d1, []. rewrite Hn. split_and!; try done.
    by apply map_of_add. }
  destruct Hst as [Sc Hsome].
  destruct (dictFind_spec d1 k W1) as (p & d2 & -> & Sc2 & Hp). sbind.
  pose proof (same_contents_trans _ _ _ Sc Sc2) as Sc'.
  rewrite <- (same_contents_map _ _ W Sc') in *. destruct p as [p|].
  2:{ exfalso. destruct Hsome as [x Hx]. unfold dict_map in Hx.
      by rewrite (map_of_lookup_None _ _ Hp) in Hx. }
  destruct Hp as (e & He & Hin & Hk). sbind. rewrite He. sbind.
  destruct (dictSetVal_spec d2 p e v (sc_wf _ _ Sc') He) as (d3 & rest & -> & W3 & Hit3 & _ & P1 & P2).
  sbind. exists 0, d3, [FreeVal (val e)].
  rewrite <- Hk, (dict_map_Some d2 e (sc_wf _ _ Sc') Hin).
  split_and!; [done|done|by rewrite Hit3, (sc_iter _ _ Sc')| |done|done].
  unfold dict_map. rewrite (map_of_perm _ _ P2 (wf_nodup _ W3)).
  rewrite (map_of_perm _ _ P1 (wf_nodup _ (sc_wf _ _ Sc'))), !map_of_cons. simpl.
  by rewrite insert_insert_eq.
Qed.

Lemma dictFetchValue_spec d k :
  wf d ->
  exists d', dictFetchValue d k = Some (dict_map d !! canon k, d') /\ same_contents d d'.
Proof.
  intros W. unfold dictFetchValue.
  destruct (dictFind_spec d k W) as (p & d' & -> & Sc & Hp). sbind. exists d'.
  split; [|done]. rewrite <- (same_contents_map _ _ W Sc). destruct p as [p|].
  - destruct Hp as (e & -> & Hin & Hk). sbind. do 2 f_equal. rewrite <- Hk.
    symmetry. apply dict_map_Some; [apply Sc|done].
  - do 2 f_equal. symmetry. by apply map_of_lookup_None.
Qed.

(** The keys and values of some entries. *)
Definition freed_of (es : list dictEntry) : list freed :=
  flat_map (fun e => [FreeKey (key e); FreeVal (val e)]) es.

#[local] Instance freed_of_perm : Proper ((≡ₚ) ==> (≡ₚ)) freed_of.
Proof.
  unfold freed_of. induction 1; simpl; [done|by do 2 f_equiv|solve_Permutation|by etrans].
Qed.

Lemma dictGenericDelete_spec d k nofree :
  wf d ->
  exists st d' fr, dictGenericDelete d k nofree = Some (st, d', fr) /\ wf d' /\
    iterators d' = iterators d /\ dict_map d' = delete (canon k) (dict_map d) /\
    match dict_map d !! canon k with
    | Some v => st = DICT_OK /\ exists k', canon k' = canon k /\
        fr = if nofree then [] else [FreeKey k'; FreeVal v]
    | None => st = DICT_ERR /\ fr = [] /\ same_contents d d'
    end /\
    (nofree = false -> freed_of (entries d) ≡ₚ fr ++ freed_of (entries d')).
Proof.
  intros W. unfold dictGenericDelete.
  destruct (Z.eqb_spec (size (ht0 d)) 0) as [Hz|Hz].
  { exists DICT_ERR, d, [].
    assert (dict_map d = ∅) as -> by (by rewrite (wf_size0 d (wf_tbl _ W) Hz)).
    rewrite lookup_empty, delete_empty. by split_and!. }
  destruct (rehash_step_spec d W) as (d1 & -> & Sc). sbind.
  rewrite <- !(same_contents_map _ _ W Sc).
  pose proof (sc_wf _ _ Sc) as W1.
  destruct (find_loop_spec d1 k (wf_tbl _ W1) (sc_alloc _ _ Sc Hz)) as (r & -> & Hr). sbind.
  destruct r as [i|[[t i] n]].
  { destruct Hr as [_ Hr]. apply map_of_lookup_None in Hr. fold (dict_map d1) in Hr.
    exists DICT_ERR, d1, []. rewrite Hr.
    split_and!; try done; [apply Sc|by rewrite delete_id|].
    intros _. by rewrite (sc_entries _ _ Sc). }
  destruct Hr as (e & He & Hin & Hk).
  destruct (entry_of_inv _ _ _ _ _ He) as (b & Hb & Hbn).
  destruct (update_bucket d1 t i b (delete n b) (used (ht d1 t) - 1) (wf_tbl _ W1) Hb)
    as (tbl & Hset & W' & (rest & P1 & P2) & _).
  - intros _. right. by intros ->.
  - pose proof (zlen_perm _ _ (delete_Permutation b n e Hbn)). zlia.
  - intros x Hx. left. exists x. split; [|done]. rewrite (delete_Permutation b n e Hbn). by right.
  - rewrite Hb. sbind. rewrite Hbn. sbind. rewrite Hset. sbind.
    fold (with_table (ht d1 t) tbl (used (ht d1 t) - 1)).
    rewrite (delete_Permutation b n e Hbn) in P1.
    set (d2 := set_ht d1 t _) in *.
    assert (entries d1 ≡ₚ e :: entries d2) as P by (rewrite P1, P2; done).
    assert (NoDup (ckeys (e :: entries d2))) as N by (rewrite <- P; apply W1).
    assert (dict_map d1 = map_of (e :: entries d2)) as Hm
      by (apply map_of_perm; [done|apply W1]).
    exists DICT_OK, d2, (if nofree then [] else [FreeKey (key e); FreeVal (val e)]).
    assert (dict_map d1 !! canon k = Some (val e)) as ->
      by (rewrite <- Hk; by apply dict_map_Some).
    split_and!; [done|split; [done|]| | |done| |].
    + apply NoDup_cons in N. apply N.
    + subst d2. destruct t; apply Sc.
    + rewrite Hm, <- Hk. by apply map_of_delete.
    + exists (key e). by destruct nofree.
    + intros ->. by rewrite <- (sc_entries _ _ Sc), P.
Qed.

(** [_dictClear] stops at the last entry. *)
Lemma clear_loop_spec tbl : clear_loop tbl (zlen (concat tbl)) = freed_of (concat tbl).
Proof.
  induction tbl as [|b tbl IH]; [done|]. cbn [clear_loop concat]. rewrite Z.gtb_ltb.
  destruct (Z.ltb_spec 0 (zlen (b ++ concat tbl))) as [|Hz].
  - rewrite zlen_app. replace (zlen b + zlen (concat tbl) - zlen b) with (zlen (concat tbl)) by lia.
    rewrite IH. unfold freed_of. by rewrite flat_map_app.
  - rewrite zlen_app in Hz. destruct b; [|zlia]. destruct (concat tbl); [done|zlia].
Qed.

Lemma clear_used d t : wf_tables d -> used (ht d t) = zlen (ht_entries (ht d t)).
Proof.
  intros [H0 H1 _|k L H1 _|k0 k1 L0 L1 _ _]; destruct t; simpl;
    rewrite ?H0, ?H1; try done; by eapply live_used.
Qed.

Lemma dictEmpty_spec d :
  wf d -> dictEmpty d = (dictCreate, freed_of (entries d)) /\
    dictRelease d = freed_of (entries d).
Proof.
  intros [W _]. unfold dictEmpty, dictRelease, _dictClear. simpl.
  rewrite (clear_used d T0 W : used (ht0 d) = _), (clear_used d T1 W : used (ht1 d) = _).
  unfold ht_entries. rewrite !clear_loop_spec.
  unfold entries, ht_entries, freed_of. by rewrite flat_map_app.
Qed.

(** ** Progress of the rehashing *)

Fixpoint rehash_times (m n : nat) (d : dict) : option dict :=
  match m with
  | O => Some d
  | S m => '(_, d) ← dictRehash d n; rehash_times m n d
  end.

Lemma rehash_times_spec n (Hn : n <> 0%nat) (Hmax : Z.of_nat n * 10 <= INT32_MAX) fuel : forall d,
  wf d -> (Z.to_nat (size (ht0 d) - rehashidx d) < fuel)%nat ->
  exists m d', (m <= fuel)%nat /\ rehash_times m n d = Some d' /\
    dictIsRehashing d' = false /\ same_contents d d'.
Proof.
  induction fuel as [|fuel IH]; intros d W Hf; [lia|].
  destruct (dictRehash_spec d n W Hmax) as (r & d1 & Hr & Sc & -> & Hprog).
  destruct (dictIsRehashing d1) eqn:E.
  - destruct (Hprog Hn eq_refl) as [Hlt Hsz].
    destruct (IH d1 (sc_wf _ _ Sc)) as (m & d' & Hm & Hrun & Hreh & Sc'); [lia|].
    exists (S m), d'. split; [lia|]. simpl. rewrite Hr. sbind.
    split_and!; [done|done|by eapply same_contents_trans].
  - exists 1%nat, d1. split; [lia|]. simpl. rewrite Hr. sbind. done.
Qed.

Lemma dictDelete_freed d k :
  wf d -> exists st d' fr, dictDelete d k = Some (st, d', fr) /\
    freed_of (entries d) ≡ₚ fr ++ freed_of (entries d').
Proof.
  intros W. destruct (dictGenericDelete_spec d k false W) as (st & d' & fr & Hd & W' & _ & _ & Hr & P).
  exists st, d', fr. split; [exact Hd|]. by apply P.
Qed.

(** ** Sequences of operations *)

(** [n], [sz]: the arguments of [dictRehash] and [dictExpand]. *)
Inductive dict_op :=
| OpAdd (k : K) (v : V)
| OpReplace (k : K) (v : V)
| OpDelete (k : K) (nofree : bool)
| OpFetchValue (k : K)
| OpRehash (n : nat)
| OpExpand (sz : Z)
| OpResize
| OpEnableResize
| OpDisableResize
| OpEmpty.

Inductive outcome :=
| OutStatus (st : status)
| OutReplaced (r : Z)
| OutValue (v : option V)
| OutNone.

(** The global [dict_can_resize] and the dictionary. *)
Definition dict_state : Type := (bool * dict)%type.

Definition impl_step (v0 : V) (s : dict_state) (o : dict_op) : option (outcome * dict_state) :=
  let '(rs, d) := s in
  match o with
  | OpAdd k v => '(st, d) ← dictAdd rs v0 d k v; Some (OutStatus st, (rs, d))
  | OpReplace k v => '(r, d, _) ← dictReplace rs v0 d k v; Some (OutReplaced r, (rs, d))
  | OpDelete k nofree => '(st, d, _) ← dictGenericDelete d k nofree; Some (OutStatus st, (rs, d))
  | OpFetchValue k => '(v, d) ← dictFetchValue d k; Some (OutValue v, (rs, d))
  | OpRehash n => '(_, d) ← dictRehash d n; Some (OutNone, (rs, d))
  | OpExpand sz => '(_, d) ← dictExpand d sz; Some (OutNone, (rs, d))
  | OpResize => '(_, d) ← dictResize rs d; Some (OutNone, (rs, d))
  | OpEnableResize => Some (OutNone, (true, d))
  | OpDisableResize => Some (OutNone, (false, d))
  | OpEmpty => Some (OutNone, (rs, (dictEmpty d).1))
  end.

Fixpoint impl_run (v0 : V) (s : dict_state) (os : list dict_op)
  : option (list outcome * dict_state) :=
  match os with
  | [] => Some ([], s)
  | o :: os =>
      '(r, s) ← impl_step v0 s o;
      '(rs, s) ← impl_run v0 s os;
      Some (r :: rs, s)
  end.

(** The specification: a finite map. *)
Definition spec_step (m : gmap C V) (o : dict_op) : outcome * gmap C V :=
  match o with
  | OpAdd k v =>
      match m !! canon k with
      | Some _ => (OutStatus DICT_ERR, m)
      | None => (OutStatus DICT_OK, <[canon k := valDup v]> m)
      end
  | OpReplace k v =>
      (OutReplaced (match m !! canon k with Some _ => 0 | None => 1 end),
       <[canon k := valDup v]> m)
  | OpDelete k _ =>
      (OutStatus (match m !! canon k with Some _ => DICT_OK | None => DICT_ERR end),
       delete (canon k) m)
  | OpFetchValue k => (OutValue (m !! canon k), m)
  | OpEmpty => (OutNone, ∅)
  | _ => (OutNone, m)
  end.

Fixpoint spec_run (m : gmap C V) (os : list dict_op) : list outcome * gmap C V :=
  match os with
  | [] => ([], m)
  | o :: os =>
      let '(r, m) := spec_step m o in
      let '(rs, m) := spec_run m os in (r :: rs, m)
  end.

Definition op_ok (o : dict_op) : Prop :=
  match o with OpExpand sz => sz <= 2 ^ 31 | OpRehash n => Z.of_nat n * 10 <= INT32_MAX | _ => True end.

Lemma dict_map_size d : wf d -> dictSize d = Z.of_nat (base.size (dict_map d)).
Proof.
  intros W. rewrite (dictSize_entries d) by apply W. destruct W as [_ N].
  unfold dict_map, map_of. rewrite map_size_list_to_map.
  - unfold zlen. by rewrite length_fmap.
  - rewrite <- list_fmap_compose. exact N.
Qed.

Lemma impl_step_refines v0 rs d o :
  wf d -> dictSize d < 2 ^ 30 -> op_ok o ->
  exists rs' d', impl_step v0 (rs, d) o = Some ((spec_step (dict_map d) o).1, (rs', d')) /\
    wf d' /\ dict_map d' = (spec_step (dict_map d) o).2.
Proof.
  intros W Hs Hok. destruct o as [k v|k v|k nf|k|n|sz| | | |]; cbn [impl_step spec_step].
  - destruct (dictAdd_spec rs v0 d k v W Hs) as (st & d' & -> & W' & _ & Hst). sbind.
    exists rs, d'. destruct st; destruct Hst as [H1 H2].
    + rewrite H1. split_and!; [done|done|]. by apply map_of_add.
    + destruct H2 as [x ->]. split_and!; [done|done|]. by apply same_contents_map.
  - destruct (dictReplace_spec rs v0 d k v W Hs) as (r & d' & fr & -> & W' & _ & Hm & Hr). sbind.
    exists rs, d'. destruct (dict_map d !! canon k); destruct Hr as [-> _]; done.
  - destruct (dictGenericDelete_spec d k nf W) as (st & d' & fr & -> & W' & _ & Hm & Hr & _). sbind.
    exists rs, d'. destruct (dict_map d !! canon k); destruct Hr as [-> _]; done.
  - destruct (dictFetchValue_spec d k W) as (d' & -> & Sc). sbind. exists rs, d'.
    split_and!; [done|apply Sc|by apply same_contents_map].
  - destruct (dictRehash_spec d n W Hok) as (r & d' & -> & Sc & _). sbind. exists rs, d'.
    split_and!; [done|apply Sc|by apply same_contents_map].
  - destruct (dictExpand_spec d sz W Hok) as (r & d' & -> & Sc & _). sbind. exists rs, d'.
    split_and!; [done|apply Sc|by apply same_contents_map].
  - destruct (dictResize_spec rs d W Hs) as (r & d' & -> & Sc). sbind. exists rs, d'.
    split_and!; [done|apply Sc|by apply same_contents_map].
  - by exists true, d.
  - by exists false, d.
  - exists rs, dictCreate. destruct (dictEmpty_spec d W) as [-> _].
    split_and!; [done| |done]. split; [by apply wf_new|constructor].
Qed.

Lemma spec_step_size m o : (base.size (spec_step m o).2 <= S (base.size m))%nat.
Proof.
  assert (forall c v, base.size (<[c := v]> m) <= S (base.size m))%nat as Hi.
  { intros c v. rewrite map_size_insert. destruct (m !! c); simpl; lia. }
  destruct o; simpl; try lia; auto.
  - destruct (m !! canon k); simpl; auto.
  - rewrite map_size_delete. destruct (m !! canon k); simpl; lia.
  - rewrite map_size_empty. lia.
Qed.

Lemma impl_run_refines v0 os : forall rs d,
  wf d -> dictSize d + zlen os <= 2 ^ 30 -> Forall op_ok os ->
  exists rs' d', impl_run v0 (rs, d) os = Some ((spec_run (dict_map d) os).1, (rs', d')) /\
    wf d' /\ dict_map d' = (spec_run (dict_map d) os).2.
Proof.
  induction os as [|o os IH]; intros rs d W Hs Hok; [by exists rs, d|].
  apply Forall_cons in Hok as [Ho Hok]. rewrite zlen_cons in Hs. pose proof (zlen_nonneg os).
  cbn [impl_run spec_run].
  destruct (impl_step_refines v0 rs d o W) as (rs1 & d1 & -> & W1 & Hm1); [lia|done|]. sbind.
  pose proof (spec_step_size (dict_map d) o) as Hsz.
  destruct (spec_step (dict_map d) o) as [r m]. simpl in *. subst m.
  destruct (IH rs1 d1 W1) as (rs2 & d2 & -> & W2 & Hm2); [|done|].
  { rewrite dict_map_size in * by done. lia. }
  sbind. exists rs2, d2. by destruct (spec_run (dict_map d1) os).
Qed.

Lemma wf_create : wf dictCreate.
Proof. split; [by apply wf_new|constructor]. Qed.

End Dict.

Arguments dictEntry : clear implicits.
Arguments dictht : clear implicits.
Arguments dict : clear implicits.

(** ** The type of the dictionaries of the databases *)

Lemma lxor_shiftr_range h n : 0 <= h < 2 ^ 32 -> 0 <= n -> 0 <= Z.lxor h (Z.shiftr h n) < 2 ^ 32.
Proof.
  intros Hh Hn. split; [apply Z.lxor_nonneg; rewrite Z.shiftr_nonneg; lia|].
  assert (0 <= Z.shiftr h n <= h) as Hs.
  { rewrite Z.shiftr_div_pow2 by lia. pose proof (pow2_pos n Hn).
    split; [apply Z.div_pos; lia|]. apply Z.div_le_upper_bound; nia. }
  destruct (decide (Z.lxor h (Z.shiftr h n) = 0)) as [->|Hne]; [lia|].
  apply Z.log2_lt_pow2; [pose proof (proj2 (Z.lxor_nonneg h (Z.shiftr h n))); lia|].
  eapply Z.le_lt_trans; [apply Z.log2_lxor; lia|].
  apply Z.max_lub_lt.
  - destruct (decide (h = 0)) as [->|]; [done|]. apply Z.log2_lt_pow2; lia.
  - destruct (decide (Z.shiftr h n = 0)) as [->|]; [done|]. apply Z.log2_lt_pow2; lia.
Qed.

Lemma dictGenHashFunction_range seed k : 0 <= dictGenHashFunction seed k < 2 ^ 32.
Proof.
  unfold dictGenHashFunction. destruct (murmur_loop _ _) as [h data].
  apply lxor_shiftr_range; [|lia]. apply uwrap_range. lia.
Qed.

Lemma caseHash_range buf : forall h, 0 <= h < 2 ^ 32 -> 0 <= caseHash_loop buf h < 2 ^ 32.
Proof.
  induction buf as [|c buf IH]; intros h Hh; simpl; [done|]. apply IH, uwrap_range. lia.
Qed.

Lemma tolower_idem c : tolower (tolower c) = tolower c.
Proof.
  unfold tolower. destruct ((65 <=? c) && (c <=? 90)) eqn:E; [|by rewrite E].
  zbool. by rewrite (proj2 (Z.leb_gt (c + 32) 90)), andb_false_r by lia.
Qed.

Lemma caseHash_tolower seed k k' :
  tolower <$> k = tolower <$> k' -> dictSdsCaseHash seed k = dictSdsCaseHash seed k'.
Proof.
  intros Hk. unfold dictSdsCaseHash, dictGenCaseHashFunction. generalize (u32 seed).
  revert k' Hk. induction k as [|c k IH]; intros [|c' k'] Hk h; try done.
  injection Hk as Hc Hk. simpl. rewrite Hc. by apply IH.
Qed.

Definition dbDictType (seed : Z) (V : Type) : DictType (list Z) V (list Z).
Proof.
  refine {| hashFunction := dictSdsHash seed; keyDup := id; valDup := id;
            keyCompare := dictSdsKeyCompare; canon := id |}.
  - apply dictGenHashFunction_range.
  - intros k k'. unfold dictSdsKeyCompare. simpl. destruct (Z.eqb_spec (zlen k) (zlen k')); [done|].
    symmetry. apply bool_decide_eq_false. by intros ->.
  - by intros k k' [= ->].
  - done.
Defined.

(** ** Properties *)

Section DictProps.
Context {K V C : Type} `{Countable C} {DT : DictType K V C}.

(** C1 (refinement, safety): any sequence of additions, replacements, deletions,
    lookups, rehashing steps, expansions, resizings and clearings on a new
    dictionary never leaves its tables and gives the answers of a finite map; the
    incremental rehashing and the resizings are not observable, and [dictSize] is
    the size of the map. *)
Theorem dict_run_refines (v0 : V) (os : list (dict_op (K := K) (V := V))) :
  zlen os <= 2 ^ 30 -> Forall op_ok os ->
  exists rs d, impl_run v0 (true, dictCreate) os = Some ((spec_run ∅ os).1, (rs, d)) /\
    dict_map d = (spec_run ∅ os).2 /\
    dictSize d = Z.of_nat (base.size (spec_run ∅ os).2) /\ wf d.
Proof.
  intros Hlen Hok.
  destruct (impl_run_refines v0 os true dictCreate wf_create) as (rs & d & Hr & W & Hm);
    [by rewrite Z.add_0_l|done|].
  change (∅ : gmap C V) with (dict_map (K := K) (V := V) dictCreate).
  exists rs, d. rewrite <- Hm. split_and!; [done|done|by apply dict_map_size|done].
Qed.

(** C31 (termination): an incremental rehashing ends: after at most one call of
    [dictRehash] per bucket of the old table (plus one) there is a single table,
    with the same entries. *)
Theorem dictRehash_completes (d : dict K V) (n : nat) :
  wf d -> n <> 0%nat -> Z.of_nat n * 10 <= INT32_MAX ->
  exists m d', (m <= S (Z.to_nat (size (ht0 d) - rehashidx d)))%nat /\
    rehash_times m n d = Some d' /\ dictIsRehashing d' = false /\
    entries d' ≡ₚ entries d /\ dict_map d' = dict_map d.
Proof.
  intros W Hn Hmax. destruct (rehash_times_spec n Hn Hmax (S (Z.to_nat (size (ht0 d) - rehashidx d))) d W)
    as (m & d' & Hm & Hr & Hreh & Sc); [lia|].
  exists m, d'. split_and!; [done..|apply Sc|by apply same_contents_map].
Qed.

(** Clearing or releasing a dictionary calls the destructors on the
    key and the value of every entry, once, even in the middle of a rehashing;
    deleting a key frees the key and the value of its entry and of no other. *)
Theorem dict_destructors (d : dict K V) (k : K) :
  wf d ->
  dictRelease d = freed_of (entries d) /\ dictEmpty d = (dictCreate, freed_of (entries d)) /\
  exists st d' fr, dictDelete d k = Some (st, d', fr) /\
    freed_of (entries d) ≡ₚ fr ++ freed_of (entries d').
Proof.
  intros W. destruct (dictEmpty_spec d W) as [-> ->]. split; [done|]. split; [done|].
  by apply dictDelete_freed.
Qed.

End DictProps.

Lemma dict_run_refines_witness :
  exists rs d, impl_run (DT := dbDictType 5381 Z) 0 (true, dictCreate)
    [OpAdd [97] 1; OpAdd [98] 2; OpAdd [97] 3; OpReplace [98] 4; OpDelete [97] false;
     OpFetchValue [98]; OpResize; OpRehash 1; OpFetchValue [97]]
    = Some ([OutStatus DICT_OK; OutStatus DICT_OK; OutStatus DICT_ERR; OutReplaced 0;
             OutStatus DICT_OK; OutValue (Some 4); OutNone; OutNone; OutValue None], (rs, d)) /\
    dictSize d = 1.
Proof.
  destruct (dict_run_refines (DT := dbDictType 5381 Z) 0
    [OpAdd [97] 1; OpAdd [98] 2; OpAdd [97] 3; OpReplace [98] 4; OpDelete [97] false;
     OpFetchValue [98]; OpResize; OpRehash 1; OpFetchValue [97]]) as (rs & d & Hr & _ & Hs & _).
  - vm_compute. discriminate.
  - repeat constructor; vm_compute; discriminate.
  - exists rs, d. split; [exact Hr|exact Hs].
Defined.

Definition sample_dict : dict (list Z) Z :=
  match impl_run (DT := dbDictType 5381 Z) 0 (true, dictCreate)
    [OpAdd [97] 1; OpAdd [98] 2; OpAdd [99] 3; OpAdd [100] 4; OpAdd [101] 5] with
  | Some (_, (_, d)) => d
  | None => dictCreate
  end.

Lemma sample_dict_wf : wf (DT := dbDictType 5381 Z) sample_dict.
Proof.
  destruct (impl_run_refines (DT := dbDictType 5381 Z) 0
    [OpAdd [97] 1; OpAdd [98] 2; OpAdd [99] 3; OpAdd [100] 4; OpAdd [101] 5] true dictCreate wf_create)
    as (rs & d & Hr & W & _); [vm_compute; discriminate|repeat constructor|].
  unfold sample_dict. by rewrite Hr.
Qed.

Lemma dictRehash_completes_witness :
  exists m d', (m <= 5)%nat /\ rehash_times (DT := dbDictType 5381 Z) m 1 sample_dict = Some d' /\
    dictIsRehashing sample_dict = true /\ dictIsRehashing d' = false.
Proof.
  destruct (dictRehash_completes (DT := dbDictType 5381 Z) sample_dict 1 sample_dict_wf ltac:(discriminate) ltac:(vm_compute; discriminate))
    as (m & d' & Hm & Hr & Hreh & _).
  exists m, d'. split; [exact Hm|]. split; [exact Hr|]. split; [vm_compute; reflexivity|exact Hreh].
Defined.

Lemma dict_destructors_witness :
  length (dictRelease sample_dict) = 10%nat /\
  dictRelease sample_dict = freed_of (entries sample_dict).
Proof.
  destruct (dict_destructors (DT := dbDictType 5381 Z) sample_dict [97] sample_dict_wf) as [Hr _].
  split; [vm_compute; reflexivity|exact Hr].
Defined.

(** Both hash functions give 32-bit values, and two names that
    [strcasecmp] identifies (without null bytes) have the same case-insensitive
    hash, so that the command table finds a command in any case. *)
Theorem hash_functions_ok (seed : Z) (k k' : list Z) :
  0 <= dictSdsHash seed k < 2 ^ 32 /\ 0 <= dictSdsCaseHash seed k < 2 ^ 32 /\
  (cstr k = k -> cstr k' = k' -> dictSdsKeyCaseCompare k k' = true ->
   dictSdsCaseHash seed k = dictSdsCaseHash seed k').
Proof.
  split; [apply dictGenHashFunction_range|]. split.
  - unfold dictSdsCaseHash, dictGenCaseHashFunction. apply caseHash_range, uwrap_range. lia.
  - unfold dictSdsKeyCaseCompare. intros -> -> Hk%bool_decide_eq_true.
    by apply caseHash_tolower.
Qed.

Lemma hash_functions_ok_witness :
  dictSdsCaseHash 5381 [71; 69; 116] = dictSdsCaseHash 5381 [103; 101; 84].
Proof.
  apply (hash_functions_ok 5381 [71; 69; 116] [103; 101; 84]); reflexivity.
Defined.
