(* ===== verification/DictScan.v ===== *)
(** * dict.c: iterators, random keys and scanning

    The operations that visit the entries of a dictionary of Dict.v. *)

From Stdlib Require Import ZArith Lia.
From stdpp Require Import base numbers list gmap sorting.
From S2P Require Import Prelude Dict.

Open Scope Z_scope.

Section DictScan.
Context {K V C : Type} `{Countable C} {DT : DictType K V C}.
#[local] Abbreviation dictEntry := (Dict.dictEntry K V).
#[local] Abbreviation dictht := (Dict.dictht K V).
#[local] Abbreviation dict := (Dict.dict K V).

(** ** Iterators *)

(** The mixing of one integer in [dictFingerprint], on 64-bit integers whose
    right shifts keep the sign. *)
Definition fingerprint_mix (hash i : Z) : Z :=
  let hash := s64 (hash + i) in
  let hash := s64 (Z.lnot hash + Z.shiftl hash 21) in
  let hash := Z.lxor hash (Z.shiftr hash 24) in
  let hash := s64 (hash + Z.shiftl hash 3 + Z.shiftl hash 8) in
  let hash := Z.lxor hash (Z.shiftr hash 14) in
  let hash := s64 (hash + Z.shiftl hash 2 + Z.shiftl hash 4) in
  let hash := Z.lxor hash (Z.shiftr hash 28) in
  s64 (hash + Z.shiftl hash 31).

(** [addr]: where the tables are. *)
Definition dictFingerprint (addr : table_id -> Z) (d : dict) : Z :=
  foldl fingerprint_mix 0
    [addr T0; size (ht0 d); used (ht0 d); addr T1; size (ht1 d); used (ht1 d)].

Record dictIterator := mkIter {
  it_index : Z;
  it_table : table_id;
  it_safe : bool;
  it_entry : option entry_ptr;
  it_nextEntry : option entry_ptr;
  it_fingerprint : Z;
}.

(** [fp0]: the field that is not initialised. *)
Definition dictGetIterator (fp0 : Z) : dictIterator :=
  mkIter (-1) T0 false None None fp0.
Definition dictGetSafeIterator (fp0 : Z) : dictIterator :=
  mkIter (-1) T0 true None None fp0.

Definition iter_fresh (it : dictIterator) : bool :=
  (it_index it =? -1) && match it_table it with T0 => true | T1 => false end.

(** The pointer to the head of a bucket, and the one to the next entry. *)
Definition head_ptr (d : dict) (t : table_id) (i : Z) : option (option entry_ptr) :=
  b ← getb (table (ht d t)) i;
  Some (match b with [] => None | _ => Some (t, i, O) end).
Definition next_ptr (d : dict) (p : entry_ptr) : option (option entry_ptr) :=
  let '(t, i, n) := p in
  b ← getb (table (ht d t)) i;
  _ ← b !! n;
  Some (match b !! S n with None => None | Some _ => Some (t, i, S n) end).

(** The first call of [dictNext]. *)
Definition iter_start (addr : table_id -> Z) (d : dict) (it : dictIterator) : dict * Z :=
  if iter_fresh it then
    if it_safe it then (set_iterators d (iterators d + 1), it_fingerprint it)
    else (d, dictFingerprint addr d)
  else (d, it_fingerprint it).

(** One turn of the [while (1)] of [dictNext], up to the test of the entry:
    [None] in the result is the [break]. *)
Definition iter_advance (addr : table_id -> Z) (d : dict) (it : dictIterator)
  : option (option dictIterator * dictIterator * dict) :=
  match it_entry it with
  | None =>
      let '(d, fp) := iter_start addr d it in
      let index := it_index it + 1 in
      let stop := index >=? size (ht d (it_table it)) in
      let first := match it_table it with T0 => true | T1 => false end in
      if stop && negb (dictIsRehashing d && first) then
        Some (None, mkIter index (it_table it) (it_safe it) None (it_nextEntry it) fp, d)
      else
        let '(t, index) := if stop then (T1, 0) else (it_table it, index) in
        e ← head_ptr d t index;
        let it := mkIter index t (it_safe it) e (it_nextEntry it) fp in
        Some (Some it, it, d)
  | Some _ =>
      let it := mkIter (it_index it) (it_table it) (it_safe it) (it_nextEntry it)
                  (it_nextEntry it) (it_fingerprint it) in
      Some (Some it, it, d)
  end.

Fixpoint dictNext_loop (fuel : nat) (addr : table_id -> Z) (d : dict) (it : dictIterator)
  : option (option entry_ptr * dictIterator * dict) :=
  match fuel with
  | O => None
  | S fuel =>
      r ← iter_advance addr d it;
      match r with
      | (None, it, d) => Some (None, it, d)
      | (Some it, _, d) =>
          match it_entry it with
          | Some p =>
              nx ← next_ptr d p;
              Some (Some p, mkIter (it_index it) (it_table it) (it_safe it) (Some p) nx
                              (it_fingerprint it), d)
          | None => dictNext_loop fuel addr d it
          end
      end
  end.

(** One unit of fuel per bucket, and two for the ends of the tables. *)
Definition dictNext (addr : table_id -> Z) (d : dict) (it : dictIterator) :=
  dictNext_loop (length (table (ht0 d)) + length (table (ht1 d)) + 3) addr d it.

(** The dictionary after the release; [None]: the assertion fails. *)
Definition dictReleaseIterator (addr : table_id -> Z) (d : dict) (it : dictIterator)
  : option dict :=
  if iter_fresh it then Some d
  else if it_safe it then Some (set_iterators d (iterators d - 1))
  else if it_fingerprint it =? dictFingerprint addr d then Some d else None.

(** A client that goes through the whole dictionary. *)
Fixpoint iterate_loop (fuel : nat) (addr : table_id -> Z) (d : dict) (it : dictIterator)
  : option (list entry_ptr * dict) :=
  match fuel with
  | O => None
  | S fuel =>
      r ← dictNext addr d it;
      match r with
      | (None, it, d) => d ← dictReleaseIterator addr d it; Some ([], d)
      | (Some p, it, d) =>
          r ← iterate_loop fuel addr d it;
          let '(ps, d) := r in Some (p :: ps, d)
      end
  end.

(** ** Random keys *)

(** What [random()] returns is a list of integers; [Exhausted]: the loop goes
    on after the last of them. *)
Inductive drawn (A : Type) := Exhausted | Drawn (a : A).

(** The bucket that a random number [r] selects. *)
Definition random_place (d : dict) (r : Z) : table_id * Z :=
  if dictIsRehashing d then
    let h := u32 (rehashidx d + r mod (size (ht0 d) + size (ht1 d) - rehashidx d)) in
    if h >=? size (ht0 d) then (T1, h - size (ht0 d)) else (T0, h)
  else (T0, u32 (Z.land r (sizemask (ht0 d)))).

(** [do ... while (he == NULL)]. *)
Fixpoint random_bucket (d : dict) (rnd : list Z)
  : option (drawn (table_id * Z * list dictEntry * list Z)) :=
  match rnd with
  | [] => Some (Exhausted _)
  | r :: rnd =>
      let '(t, i) := random_place d r in
      he ← getb (table (ht d t)) i;
      match he with
      | [] => random_bucket d rnd
      | _ => Some (Drawn _ (t, i, he, rnd))
      end
  end.

Definition dictGetRandomKey (d : dict) (rnd : list Z)
  : option (drawn (option entry_ptr) * dict) :=
  if dictSize d =? 0 then Some (Drawn _ None, d)
  else
    d ← rehash_step_if d;
    r ← random_bucket d rnd;
    match r with
    | Exhausted _ => Some (Exhausted _, d)
    | Drawn _ (t, i, he, rnd) =>
        match rnd with
        | [] => Some (Exhausted _, d)
        | r :: _ => Some (Drawn _ (Some (t, i, Z.to_nat (r mod zlen he))), d)
        end
    end.

(** ** Scanning with a cursor *)

(** The turns of the [while] of [rev], for the shifts 32, 16, 8, 4, 2, 1. *)
Definition rev_step (mv : Z * Z) (s : Z) : Z * Z :=
  let '(mask, v) := mv in
  let mask := Z.lxor mask (u64 (Z.shiftl mask s)) in
  (mask, Z.lor (Z.land (Z.shiftr v s) mask)
               (Z.land (u64 (Z.shiftl v s)) (u64 (Z.lnot mask)))).

Definition rev (v : Z) : Z :=
  (foldl rev_step (ULLONG_MAX, v) [32; 16; 8; 4; 2; 1]).2.

(** The [do ... while] on the larger table; one unit of fuel per bucket. *)
Fixpoint scan_loop (fuel : nat) (t1 : dictht) (m0 m1 v : Z)
  : option (list dictEntry * Z) :=
  match fuel with
  | O => None
  | S fuel =>
      de ← getb (table t1) (Z.land v m1);
      let v := Z.lor (Z.land (u64 (Z.lor v m0 + 1)) (u64 (Z.lnot m0))) (Z.land v m0) in
      if Z.land v (Z.lxor m0 m1) =? 0 then Some (de, v)
      else
        r ← scan_loop fuel t1 m0 m1 v;
        let '(es, v) := r in Some (de ++ es, v)
  end.

(** The entries [fn] is called on, in order, and the next cursor. *)
Definition dictScan (d : dict) (v : Z) : option (list dictEntry * Z) :=
  if dictSize d =? 0 then Some ([], 0)
  else
    r ← (if negb (dictIsRehashing d) then
           let t0 := ht0 d in
           let m0 := sizemask t0 in
           de ← getb (table t0) (Z.land v m0);
           Some (de, m0, v)
         else
           let '(t0, t1) :=
             if size (ht0 d) >? size (ht1 d) then (ht1 d, ht0 d) else (ht0 d, ht1 d) in
           let m0 := sizemask t0 in
           let m1 := sizemask t1 in
           de ← getb (table t0) (Z.land v m0);
           r ← scan_loop (length (table t1)) t1 m0 m1 v;
           let '(es, v) := r in
           Some (de ++ es, m0, v));
    let '(es, m0, v) := r in
    let v := Z.lor v (u64 (Z.lnot m0)) in
    Some (es, rev (u64 (rev v + 1))).

(** ** Reversing the bits of a cursor *)

Definition rev_swap (s M v : Z) : Z :=
  Z.lor (Z.land (Z.shiftr v s) M) (Z.land (u64 (Z.shiftl v s)) (u64 (Z.lnot M))).

(** Where the bit [i] of the result comes from. *)
Definition swap_src (s M i : Z) : Z := if Z.testbit M i then i + s else i - s.

Lemma u64_bit z i : 0 <= i < 64 -> Z.testbit (u64 z) i = Z.testbit z i.
Proof. intros. unfold uwrap. by rewrite Z.mod_pow2_bits_low by lia. Qed.

Lemma rev_swap_bits s M v i :
  0 <= s -> 0 <= i < 64 -> Z.testbit (rev_swap s M v) i = Z.testbit v (swap_src s M i).
Proof.
  intros Hs Hi. unfold rev_swap, swap_src.
  rewrite Z.lor_spec, !Z.land_spec, Z.shiftr_spec, !u64_bit, Z.shiftl_spec, Z.lnot_spec by lia.
  destruct (Z.testbit M i); simpl; [by rewrite andb_true_r, andb_false_r, orb_false_r|].
  by rewrite andb_false_r, andb_true_r.
Qed.

Lemma land_range a b n : 0 <= a -> 0 <= b < 2 ^ n -> 0 <= n -> 0 <= Z.land a b < 2 ^ n.
Proof.
  intros Ha Hb Hn.
  assert (Z.land a b = Z.land a b mod 2 ^ n) as ->.
  { apply Z.bits_inj'. intros i Hi. destruct (decide (i < n)).
    - by rewrite Z.mod_pow2_bits_low by lia.
    - rewrite Z.mod_pow2_bits_high, Z.land_spec by lia.
      rewrite <- (Z.mod_small b (2 ^ n)), Z.mod_pow2_bits_high by lia. apply andb_false_r. }
  apply Z.mod_pos_bound. lia.
Qed.

Lemma lor_range a b n : 0 <= a < 2 ^ n -> 0 <= b < 2 ^ n -> 0 <= n -> 0 <= Z.lor a b < 2 ^ n.
Proof.
  intros Ha Hb Hn.
  assert (Z.lor a b = Z.lor a b mod 2 ^ n) as ->.
  { apply Z.bits_inj'. intros i Hi. destruct (decide (i < n)).
    - by rewrite Z.mod_pow2_bits_low by lia.
    - rewrite Z.mod_pow2_bits_high, Z.lor_spec by lia.
      rewrite <- (Z.mod_small a (2 ^ n)), <- (Z.mod_small b (2 ^ n)) by lia.
      by rewrite !Z.mod_pow2_bits_high by lia. }
  apply Z.mod_pos_bound. lia.
Qed.

Lemma rev_swap_range s M v :
  0 <= M < 2 ^ 64 -> 0 <= v < 2 ^ 64 -> 0 <= s -> 0 <= rev_swap s M v < 2 ^ 64.
Proof.
  intros. unfold rev_swap. apply lor_range; [|apply land_range|lia]; try lia.
  - apply land_range; [apply Z.shiftr_nonneg; lia|done|lia].
  - apply uwrap_range. lia.
  - apply uwrap_range. lia.
Qed.

Definition rev_masks : list (Z * Z) :=
  [(32, 4294967295); (16, 281470681808895); (8, 71777214294589695);
   (4, 1085102592571150095); (2, 3689348814741910323); (1, 6148914691236517205)].

Lemma rev_swaps v : rev v = foldl (fun v sm => rev_swap sm.1 sm.2 v) v rev_masks.
Proof. unfold rev, rev_masks. cbn [foldl]. unfold rev_step. cbn [snd]. reflexivity. Qed.

Lemma rev_bits v i : 0 <= i < 64 -> Z.testbit (rev v) i = Z.testbit v (63 - i).
Proof.
  intros Hi. rewrite rev_swaps. unfold rev_masks. cbn [foldl fst snd].
  assert (Forall (fun n => Z.testbit (rev_swap 1 6148914691236517205
    (rev_swap 2 3689348814741910323 (rev_swap 4 1085102592571150095
    (rev_swap 8 71777214294589695 (rev_swap 16 281470681808895
    (rev_swap 32 4294967295 v)))))) (Z.of_nat n) = Z.testbit v (63 - Z.of_nat n)) (seq 0 64)) as Hall.
  { cbn [seq]. repeat constructor;
      (rewrite !rev_swap_bits by (vm_compute; repeat split; discriminate); reflexivity). }
  rewrite Forall_forall in Hall. rewrite <- (Z2Nat.id i) by lia. apply Hall.
  apply elem_of_seq. lia.
Qed.

Lemma rev_range v : 0 <= v < 2 ^ 64 -> 0 <= rev v < 2 ^ 64.
Proof.
  intros Hv. rewrite rev_swaps. unfold rev_masks. cbn [foldl fst snd].
  do 6 (apply rev_swap_range; [lia| |lia]). done.
Qed.

Lemma bits_ext_64 a b :
  0 <= a < 2 ^ 64 -> 0 <= b < 2 ^ 64 ->
  (forall i, 0 <= i < 64 -> Z.testbit a i = Z.testbit b i) -> a = b.
Proof.
  intros Ha Hb Hab. rewrite <- (Z.mod_small a (2 ^ 64)), <- (Z.mod_small b (2 ^ 64)) by done.
  apply Z.bits_inj'. intros i Hi. destruct (decide (i < 64)).
  - rewrite !Z.mod_pow2_bits_low by lia. by apply Hab.
  - by rewrite !Z.mod_pow2_bits_high by lia.
Qed.

Lemma rev_rev v : 0 <= v < 2 ^ 64 -> rev (rev v) = v.
Proof.
  intros Hv. apply bits_ext_64; [by do 2 apply rev_range|done|].
  intros i Hi. rewrite !rev_bits by lia. f_equal. lia.
Qed.

Lemma rev_0 : rev 0 = 0.
Proof. vm_compute. reflexivity. Qed.

#[local] Opaque rev.

(** The low bits of a hash are the high bits of its reverse. *)
Lemma rev_block v h k :
  0 <= k <= 64 -> 0 <= v < 2 ^ 64 -> 0 <= h < 2 ^ 64 ->
  rev v / 2 ^ (64 - k) = rev h / 2 ^ (64 - k) -> v mod 2 ^ k = h mod 2 ^ k.
Proof.
  intros Hk Hv Hh Heq. apply Z.bits_inj'. intros i Hi. destruct (decide (i < k)).
  - rewrite !Z.mod_pow2_bits_low by lia.
    assert (forall w, Z.testbit w i = Z.testbit (rev w / 2 ^ (64 - k)) (k - 1 - i)) as Hbit.
    { intros w. rewrite Z.div_pow2_bits by lia. rewrite rev_bits by lia. f_equal. lia. }
    by rewrite !Hbit, Heq.
  - by rewrite !Z.mod_pow2_bits_high by lia.
Qed.

(** Setting the bits above the mask fills the block. *)
Lemma rev_fill v k :
  0 <= k <= 64 -> 0 <= v < 2 ^ 64 ->
  rev (Z.lor v (u64 (Z.lnot (2 ^ k - 1)))) = rev v / 2 ^ (64 - k) * 2 ^ (64 - k) + (2 ^ (64 - k) - 1).
Proof.
  intros Hk Hv. set (n := 64 - k).
  assert (rev v / 2 ^ n * 2 ^ n + (2 ^ n - 1) = Z.lor (Z.shiftl (Z.shiftr (rev v) n) n) (Z.ones n)) as ->.
  { rewrite <- Z.shiftr_div_pow2, <- Z.shiftl_mul_pow2 by lia.
    replace (2 ^ n - 1) with (Z.ones n) by (rewrite Z.ones_equiv; lia).
    rewrite Z.add_nocarry_lxor, Z.lxor_lor; [done| |].
    all: apply Z.bits_inj'; intros i Hi; rewrite Z.land_spec, Z.bits_0;
      destruct (decide (i < n)); [by rewrite Z.shiftl_spec_low by lia|
      rewrite Z.ones_spec_high by lia; apply andb_false_r]. }
  pose proof (rev_range v Hv) as Hr.
  assert (0 <= Z.lor v (u64 (Z.lnot (2 ^ k - 1))) < 2 ^ 64) as Hl.
  { apply lor_range; [done|apply uwrap_range; lia|lia]. }
  apply bits_ext_64; [by apply rev_range| |].
  { apply lor_range; [|rewrite Z.ones_equiv|lia].
    - rewrite Z.shiftl_mul_pow2, Z.shiftr_div_pow2 by lia.
      pose proof (Z.mul_div_le (rev v) (2 ^ n) ltac:(apply Z.pow_pos_nonneg; lia)).
      pose proof (Z.div_pos (rev v) (2 ^ n) ltac:(lia) ltac:(apply Z.pow_pos_nonneg; lia)).
      pose proof (Z.pow_pos_nonneg 2 n). nia.
    - assert (2 ^ n <= 2 ^ 64) by (apply Z.pow_le_mono_r; lia).
      pose proof (Z.pow_pos_nonneg 2 n). lia. }
  intros i Hi. rewrite rev_bits, !Z.lor_spec, u64_bit, Z.lnot_spec by lia.
  replace (2 ^ k - 1) with (Z.ones k) by (rewrite Z.ones_equiv; lia).
  destruct (decide (i < n)).
  - rewrite (Z.ones_spec_high k), (Z.ones_spec_low n) by lia. by rewrite !orb_true_r.
  - rewrite (Z.ones_spec_low k), (Z.ones_spec_high n) by lia.
    rewrite Z.shiftl_spec, Z.shiftr_spec by lia. rewrite !orb_false_r.
    replace (i - n + n) with i by lia. symmetry. by apply rev_bits.
Qed.

(** ** One step of a scan *)

(** The next cursor: the first of the following block. *)
Definition next_cursor (k v : Z) : Z :=
  rev (u64 (rev (Z.lor v (u64 (Z.lnot (2 ^ k - 1)))) + 1)).

Lemma next_cursor_eq k v :
  rev (u64 (rev (Z.lor v (u64 (Z.lnot (2 ^ k - 1)))) + 1)) = next_cursor k v.
Proof. unfold next_cursor. reflexivity. Qed.

Lemma pow_split k : 0 <= k <= 64 -> 2 ^ 64 = 2 ^ (64 - k) * 2 ^ k.
Proof. intros. rewrite <- Z.pow_add_r by lia. f_equal. lia. Qed.

Lemma next_cursor_rev k v :
  0 <= k <= 64 -> 0 <= v < 2 ^ 64 ->
  rev (next_cursor k v) = ((rev v / 2 ^ (64 - k) + 1) * 2 ^ (64 - k)) mod 2 ^ 64.
Proof.
  intros Hk Hv. unfold next_cursor. rewrite rev_rev by (apply uwrap_range; lia).
  rewrite rev_fill by done. unfold uwrap. f_equal. lia.
Qed.

Lemma next_cursor_range k v : 0 <= next_cursor k v < 2 ^ 64.
Proof. apply rev_range, uwrap_range. lia. Qed.


Lemma rev_eq_0 v : 0 <= v < 2 ^ 64 -> rev v = 0 -> v = 0.
Proof. intros Hv E. rewrite <- (rev_rev v Hv), E. apply rev_0. Qed.

(** The cursor moves forward, to the next block or to the end. *)
Lemma next_cursor_cases k v :
  0 <= k <= 64 -> 0 <= v < 2 ^ 64 ->
  let n := 2 ^ (64 - k) in
  (next_cursor k v = 0 /\ rev v / n + 1 = 2 ^ k) \/
  (rev (next_cursor k v) = (rev v / n + 1) * n /\ rev v / n + 1 < 2 ^ k).
Proof.
  intros Hk Hv n. pose proof (rev_range v Hv) as Hr.
  assert (0 < n) by (apply Z.pow_pos_nonneg; lia).
  pose proof (pow_split k Hk) as H64. fold n in H64.
  assert (0 <= rev v / n < 2 ^ k).
  { split; [apply Z.div_pos; lia|]. apply Z.div_lt_upper_bound; lia. }
  pose proof (next_cursor_rev k v Hk Hv) as Hn. fold n in Hn.
  destruct (decide (rev v / n + 1 = 2 ^ k)) as [E|].
  - left. split; [|done]. apply rev_eq_0; [apply next_cursor_range|].
    rewrite Hn, E. replace (2 ^ k * n) with (2 ^ 64) by lia. by rewrite Z.mod_same by lia.
  - right. split; [|lia]. rewrite Hn. apply Z.mod_small. split; [nia|].
    rewrite H64. nia.
Qed.

(** The low bits of the cursors. *)
Lemma next_cursor_low k v :
  0 <= k <= 64 -> 0 <= v < 2 ^ 64 -> next_cursor k v < 2 ^ k.
Proof.
  intros Hk Hv. pose proof (next_cursor_range k v) as Hc.
  assert (0 < 2 ^ k) by (apply Z.pow_pos_nonneg; lia).
  destruct (next_cursor_cases k v Hk Hv) as [[-> _]|[Hrev Hlt]]; [done|].
  set (c := next_cursor k v) in *.
  assert (c = c mod 2 ^ k) as ->; [|apply Z.mod_pos_bound; lia].
  apply bits_ext_64; [done| |].
  { assert (2 ^ k <= 2 ^ 64) by (apply Z.pow_le_mono_r; lia).
    pose proof (Z.mod_pos_bound c (2 ^ k)). lia. }
  intros i Hi. destruct (decide (i < k)).
  - by rewrite Z.mod_pow2_bits_low by lia.
  - rewrite Z.mod_pow2_bits_high by lia. rewrite <- (rev_rev c), rev_bits by done.
    rewrite Hrev, Z.mul_pow2_bits_low by lia. done.
Qed.

(** What a cursor covers: the hashes between it and the next one. *)
Lemma covered_block k v h :
  0 <= k <= 64 -> 0 <= v < 2 ^ 64 -> 0 <= h < 2 ^ 64 ->
  rev v <= rev h -> (next_cursor k v = 0 \/ rev h < rev (next_cursor k v)) ->
  h mod 2 ^ k = v mod 2 ^ k.
Proof.
  intros Hk Hv Hh Hle Hlt. symmetry. apply rev_block; try done.
  set (n := 2 ^ (64 - k)). assert (0 < n) by (apply Z.pow_pos_nonneg; lia).
  pose proof (pow_split k Hk) as H64. fold n in H64.
  pose proof (rev_range h Hh). pose proof (rev_range v Hv).
  apply Z.le_antisymm; [by apply Z.div_le_mono|].
  assert (rev h < (rev v / n + 1) * n) as Hb.
  { destruct (next_cursor_cases k v Hk Hv) as [[Hz E]|[E Elt]]; fold n in E.
    - rewrite E. lia.
    - fold n in Elt. destruct Hlt as [Hz|?]; [|lia]. rewrite Hz, rev_0 in E.
      assert (0 <= rev v / n) by (apply Z.div_pos; lia). nia. }
  assert (rev h / n < rev v / n + 1); [|lia].
  apply Z.div_lt_upper_bound; lia.
Qed.

(** The entries of the buckets of the larger table. *)
Lemma scan_mask k v : 0 <= k -> Z.land v (2 ^ k - 1) = v mod 2 ^ k.
Proof.
  intros. replace (2 ^ k - 1) with (Z.ones k) by (rewrite Z.ones_equiv; lia).
  by apply Z.land_ones.
Qed.

(** The next expansion of the cursor. *)
Lemma scan_incr k v :
  0 <= k <= 63 -> 0 <= v < 2 ^ 64 ->
  Z.lor (Z.land (u64 (Z.lor v (2 ^ k - 1) + 1)) (u64 (Z.lnot (2 ^ k - 1)))) (Z.land v (2 ^ k - 1))
  = ((v / 2 ^ k + 1) * 2 ^ k) mod 2 ^ 64 + v mod 2 ^ k.
Proof.
  intros Hk Hv. rewrite scan_mask by lia.
  set (p := 2 ^ k). assert (0 < p) by (apply Z.pow_pos_nonneg; lia).
  assert (Z.lor v (p - 1) + 1 = (v / p + 1) * p) as ->.
  { replace (p - 1) with (Z.ones k) by (rewrite Z.ones_equiv; subst p; lia).
    assert (Z.lor v (Z.ones k) = Z.lor (Z.shiftl (Z.shiftr v k) k) (Z.ones k)) as ->.
    { apply Z.bits_inj'. intros i Hi. rewrite !Z.lor_spec. destruct (decide (i < k)).
      - rewrite Z.ones_spec_low by lia. by rewrite !orb_true_r.
      - rewrite Z.shiftl_spec, Z.shiftr_spec by lia.
        by replace (i - k + k) with i by lia. }
    rewrite <- Z.lxor_lor, <- Z.add_nocarry_lxor.
    2,3: apply Z.bits_inj'; intros i Hi; rewrite Z.land_spec, Z.bits_0;
      (destruct (decide (i < k)); [by rewrite Z.shiftl_spec_low by lia|
      rewrite Z.ones_spec_high by lia; apply andb_false_r]).
    rewrite Z.shiftl_mul_pow2, Z.shiftr_div_pow2, Z.ones_equiv by lia. fold p. lia. }
  set (x := u64 ((v / p + 1) * p)).
  assert (0 <= x < 2 ^ 64) as Hx by (apply uwrap_range; lia).
  assert (forall i, 0 <= i < k -> Z.testbit x i = false) as Hlow.
  { intros i Hi. unfold x. rewrite u64_bit by lia. unfold p. apply Z.mul_pow2_bits_low. lia. }
  assert (Z.land x (u64 (Z.lnot (p - 1))) = x) as ->.
  { apply bits_ext_64; [apply land_range; [lia|apply uwrap_range; lia|lia]|done|].
    intros i Hi. rewrite Z.land_spec, u64_bit, Z.lnot_spec by lia.
    replace (p - 1) with (Z.ones k) by (rewrite Z.ones_equiv; subst p; lia).
    destruct (decide (i < k)).
    - rewrite Hlow by lia. done.
    - rewrite Z.ones_spec_high by lia. apply andb_true_r. }
  rewrite <- Z.lxor_lor, <- Z.add_nocarry_lxor; [done|..].
  all: apply Z.bits_inj'; intros i Hi; rewrite Z.land_spec, Z.bits_0;
    (destruct (decide (i < k)); [by rewrite Hlow by lia|
     unfold p; rewrite (Z.mod_pow2_bits_high v) by lia; apply andb_false_r]).
Qed.

Lemma next_cursor_ext k v w :
  0 <= k <= 64 -> v mod 2 ^ k = w mod 2 ^ k -> 0 <= v < 2 ^ 64 -> 0 <= w < 2 ^ 64 ->
  next_cursor k v = next_cursor k w.
Proof.
  intros Hk Heq Hv Hw. unfold next_cursor.
  replace (2 ^ k - 1) with (Z.ones k) by (rewrite Z.ones_equiv; lia).
  assert (Z.lor v (u64 (Z.lnot (Z.ones k))) = Z.lor w (u64 (Z.lnot (Z.ones k)))) as ->; [|done].
  apply bits_ext_64; [apply lor_range; [done|apply uwrap_range; lia|lia]..|].
  intros i Hi. rewrite !Z.lor_spec, u64_bit, Z.lnot_spec by lia. destruct (decide (i < k)).
  - rewrite <- (Z.mod_pow2_bits_low v k), <- (Z.mod_pow2_bits_low w k) by lia. by rewrite Heq.
  - rewrite Z.ones_spec_high by lia. by rewrite !orb_true_r.
Qed.

Section ScanLoop.
Context (k0 k1 : Z) (t1 : dictht) (Hk : 0 <= k0 <= k1) (L : live_ht k1 t1).
Let p : Z := 2 ^ k0.
Let D : Z := 2 ^ (k1 - k0).

Lemma scan_pD : 0 < p /\ 0 < D /\ 2 ^ k1 = p * D /\ (D | 2 ^ (64 - k0)) /\ 2 ^ 64 = p * 2 ^ (64 - k0).
Proof.
  pose proof (live_k _ _ L). unfold p, D.
  split_and!; [by apply Z.pow_pos_nonneg; lia..| | |].
  - rewrite <- Z.pow_add_r by lia. f_equal. lia.
  - exists (2 ^ (64 - k1)). rewrite <- Z.pow_add_r by lia. f_equal. lia.
  - rewrite <- Z.pow_add_r by lia. f_equal. lia.
Qed.

(** The bits between the masks. *)
Lemma scan_mid v : Z.land v (Z.lxor (p - 1) (2 ^ k1 - 1)) = (v / p) mod D * p.
Proof.
  unfold p, D. replace (2 ^ k0 - 1) with (Z.ones k0) by (rewrite Z.ones_equiv; lia).
  replace (2 ^ k1 - 1) with (Z.ones k1) by (rewrite Z.ones_equiv; lia).
  rewrite <- Z.land_ones, <- Z.shiftr_div_pow2, <- Z.shiftl_mul_pow2 by lia.
  apply Z.bits_inj'. intros i Hi. rewrite Z.land_spec, Z.lxor_spec.
  destruct (decide (i < k0)).
  - rewrite Z.shiftl_spec_low, !Z.ones_spec_low by lia. apply andb_false_r.
  - rewrite Z.shiftl_spec, Z.land_spec, Z.shiftr_spec, (Z.ones_spec_high k0) by lia.
    replace (i - k0 + k0) with i by lia. destruct (decide (i < k1)).
    + by rewrite !Z.ones_spec_low by lia.
    + by rewrite !Z.ones_spec_high by lia.
Qed.

Lemma scan_index v : Z.land v (2 ^ k1 - 1) = v mod p + (v / p) mod D * p.
Proof.
  destruct scan_pD as (? & ? & E & _). rewrite scan_mask by lia.
  rewrite E, Z.rem_mul_r by lia. lia.
Qed.

Lemma scan_next v :
  0 <= v < 2 ^ 64 ->
  let v' := ((v / p + 1) * p) mod 2 ^ 64 + v mod p in
  0 <= v' < 2 ^ 64 /\ v' mod p = v mod p /\ (v' / p) mod D = (v / p + 1) mod D.
Proof.
  intros Hv. destruct scan_pD as (Hp & HD & _ & [c Hc] & E64). cbv zeta.
  rewrite E64, (Z.mul_comm (v / p + 1)), Z.mul_mod_distr_l by lia.
  set (x := (v / p + 1) mod 2 ^ (64 - k0)).
  assert (0 < 2 ^ (64 - k0)) by (apply Z.pow_pos_nonneg; pose proof (live_k _ _ L); lia).
  assert (0 <= x < 2 ^ (64 - k0)) by (apply Z.mod_pos_bound; lia).
  pose proof (Z.mod_pos_bound v p Hp). split_and!; [nia|nia| |].
  - rewrite Z.add_comm, Z.mul_comm, Z.mod_add by lia. by apply Z.mod_small.
  - rewrite Z.add_comm, Z.mul_comm, Z.div_add, Z.div_small by lia.
    simpl. unfold x. rewrite Hc. rewrite Z.mul_comm.
    assert (0 < c) by nia. rewrite Z.rem_mul_r by lia.
    rewrite Z.add_0_l, (Z.mul_comm D (_ mod _)), Z.mod_add by lia. apply Z.mod_mod. lia.
Qed.

Lemma scan_loop_spec fuel : forall v,
  0 <= v < 2 ^ 64 -> D - (v / p) mod D <= Z.of_nat fuel ->
  exists es v', scan_loop fuel t1 (p - 1) (2 ^ k1 - 1) v = Some (es, v') /\
    0 <= v' < 2 ^ 64 /\ v' mod p = v mod p /\
    (forall e, e ∈ es -> e ∈ ht_entries t1) /\
    (forall j b e, (v / p) mod D <= j < D -> getb (table t1) (v mod p + j * p) = Some b ->
       e ∈ b -> e ∈ es).
Proof.
  destruct scan_pD as (Hp & HD & E1 & _ & _). pose proof (live_k _ _ L) as Hlk.
  induction fuel as [|fuel IH]; intros v Hv Hf.
  { pose proof (Z.mod_pos_bound (v / p) D HD). lia. }
  cbn [scan_loop]. rewrite scan_index.
  pose proof (Z.mod_pos_bound (v / p) D HD) as Ha. pose proof (Z.mod_pos_bound v p Hp) as Hb.
  set (a := (v / p) mod D) in *.
  destruct (getb_is_Some (table t1) (v mod p + a * p)) as [b Hbk].
  { rewrite (live_len _ _ L), (live_size _ _ L), E1. nia. }
  rewrite Hbk. sbind. unfold p. rewrite scan_incr by lia. fold p.
  destruct (scan_next v Hv) as (Hv' & Hlow & Hmid). cbv zeta in Hv', Hlow, Hmid.
  set (v' := ((v / p + 1) * p) mod 2 ^ 64 + v mod p) in *.
  rewrite scan_mid, Hmid.
  assert ((v / p + 1) mod D = (a + 1) mod D) as Hnext.
  { unfold a. by rewrite Z.add_mod_idemp_l by lia. }
  rewrite Hnext in *.
  assert (forall e, e ∈ b -> e ∈ ht_entries t1) as Hin.
  { intros e He. apply entry_in_table. by exists (v mod p + a * p), b. }
  destruct (decide (a + 1 = D)) as [Elast|Hlast].
  - rewrite Elast, Z.mod_same, Z.mul_0_l by lia. rewrite Z.eqb_refl.
    exists b, v'. split_and!; try done; [lia..|]. intros j c e Hj Hc He.
    replace j with a in Hc by lia. congruence.
  - rewrite (Z.mod_small (a + 1)) in * by lia.
    rewrite (proj2 (Z.eqb_neq _ _)) by nia.
    destruct (IH v' Hv') as (es & w & -> & Hw & Hwl & Hes & Hcov); [lia|].
    sbind. exists (b ++ es), w. split_and!; [done|lia|lia|congruence| |].
    + intros e [?|?]%elem_of_app; auto.
    + intros j c e Hj Hc He. apply elem_of_app. destruct (decide (j = a)) as [->|].
      * left. congruence.
      * right. rewrite Hmid, Hlow in Hcov. apply (Hcov j c); [lia|done|done].
Qed.
End ScanLoop.

(** The mask of the smaller table. *)
Definition small_mask (d : dict) : Z :=
  if dictIsRehashing d then Z.min (sizemask (ht0 d)) (sizemask (ht1 d)) else sizemask (ht0 d).

(** The cursor has no bit between the two masks. *)
Definition scan_safe (d : dict) (v : Z) : Prop :=
  dictIsRehashing d = true -> Z.land v (Z.lxor (sizemask (ht0 d)) (sizemask (ht1 d))) = 0.

Definition khash (e : dictEntry) : Z := dictHashKey (key e).

Lemma khash_range e : 0 <= khash e < 2 ^ 64.
Proof. pose proof (hashFunction_range (key e)). unfold khash, dictHashKey. lia. Qed.

(** The part of a step that looks at the tables: [t0] is the smaller one. *)
Lemma entry_bucket k h e :
  live_ht k h -> e ∈ ht_entries h ->
  exists b, getb (table h) (khash e mod 2 ^ k) = Some b /\ e ∈ b.
Proof.
  intros L (i & b & Hb & He)%entry_in_table. exists b. split; [|done].
  pose proof (live_placed _ _ L i b e Hb He) as Hp.
  pose proof (bucket_index_range k h (khash e) L ltac:(apply khash_range)) as Hr.
  unfold bucket_index in *. rewrite (live_mask _ _ L), (live_size _ _ L) in *.
  pose proof (live_k _ _ L). rewrite scan_mask in * by lia.
  pose proof (Z.mod_pos_bound (khash e) (2 ^ k) (pow2_pos k ltac:(lia))).
  assert (2 ^ k <= 2 ^ 31) by (apply Z.pow_le_mono_r; lia).
  fold (khash e) in Hp. rewrite u32_small in Hp by lia. by rewrite Hp.
Qed.

Lemma scan_bucket k h v :
  live_ht k h -> 0 <= v < 2 ^ 64 ->
  exists b, getb (table h) (Z.land v (sizemask h)) = Some b /\
    (forall e, e ∈ b -> e ∈ ht_entries h) /\
    (forall e, e ∈ ht_entries h -> khash e mod 2 ^ k = v mod 2 ^ k -> e ∈ b).
Proof.
  intros L Hv. rewrite (live_mask _ _ L), (live_size _ _ L). pose proof (live_k _ _ L).
  rewrite scan_mask by lia. pose proof (Z.mod_pos_bound v (2 ^ k) (pow2_pos k ltac:(lia))).
  destruct (getb_is_Some (table h) (v mod 2 ^ k)) as [b Hb].
  { rewrite (live_len _ _ L), (live_size _ _ L). lia. }
  exists b. split_and!; [done| |].
  - intros e He. apply entry_in_table. eauto.
  - intros e He Hh. destruct (entry_bucket k h e L He) as (b' & Hb' & He').
    rewrite Hh in Hb'. congruence.
Qed.

(** The emission of both tables during a rehashing. *)
Lemma scan_two k0 k1 t0 t1 v :
  live_ht k0 t0 -> live_ht k1 t1 -> k0 <= k1 -> 0 <= v < 2 ^ 64 ->
  exists b es v', getb (table t0) (Z.land v (sizemask t0)) = Some b /\
    scan_loop (length (table t1)) t1 (sizemask t0) (sizemask t1) v = Some (es, v') /\
    0 <= v' < 2 ^ 64 /\ v' mod 2 ^ k0 = v mod 2 ^ k0 /\
    (forall e, e ∈ b ++ es -> e ∈ ht_entries t0 ++ ht_entries t1) /\
    (Z.land v (Z.lxor (sizemask t0) (sizemask t1)) = 0 ->
     forall e, e ∈ ht_entries t0 ++ ht_entries t1 -> khash e mod 2 ^ k0 = v mod 2 ^ k0 ->
     e ∈ b ++ es).
Proof.
  intros L0 L1 Hk Hv. destruct (scan_bucket k0 t0 v L0 Hv) as (b & Hb & Hb1 & Hb2).
  pose proof (live_k _ _ L0) as Hk0. pose proof (live_k _ _ L1) as Hk1.
  pose proof (scan_pD k0 k1 t1 ltac:(lia) L1) as (Hp & HD & E1 & _ & _).
  assert (length (table t1) = Z.to_nat (2 ^ k1)) as Hlen.
  { pose proof (live_len _ _ L1). rewrite (live_size _ _ L1) in *. zlia. }
  destruct (scan_loop_spec k0 k1 t1 ltac:(lia) L1 (length (table t1)) v Hv)
    as (es & v' & Hl & Hv' & Hlow & Hes & Hcov).
  { rewrite Hlen. pose proof (Z.mod_pos_bound (v / 2 ^ k0) (2 ^ (k1 - k0)) HD). nia. }
  exists b, es, v'. rewrite (live_mask _ _ L0), (live_size _ _ L0), (live_mask _ _ L1), (live_size _ _ L1) in *.
  split_and!; [done|done|lia|lia|done| |].
  { intros e. rewrite !elem_of_app. intros [?|?]; auto. }
  intros Hsafe e He Hh. rewrite elem_of_app in *. destruct He as [He|He]; [left; auto|right].
  destruct (entry_bucket k1 t1 e L1 He) as (c & Hc & Hec).
  rewrite (scan_mid k0 k1 ltac:(lia)) in Hsafe.
  rewrite E1, Z.rem_mul_r, Hh in Hc by lia.
  apply (Hcov ((khash e / 2 ^ k0) mod 2 ^ (k1 - k0)) c); [|by rewrite Z.mul_comm|done].
  pose proof (Z.mod_pos_bound (khash e / 2 ^ k0) (2 ^ (k1 - k0)) HD). split; [nia|lia].
Qed.

Lemma live_le k0 k1 h0 h1 : live_ht k0 h0 -> live_ht k1 h1 -> size h0 <= size h1 -> k0 <= k1.
Proof.
  intros L0 L1. rewrite (live_size _ _ L0), (live_size _ _ L1). intros Hle.
  pose proof (live_k _ _ L0). pose proof (live_k _ _ L1).
  apply Z.pow_le_mono_r_iff with 2; lia.
Qed.

Lemma dictScan_step d v :
  wf d -> 0 <= v < 2 ^ 64 ->
  exists es v', dictScan d v = Some (es, v') /\ (forall e, e ∈ es -> e ∈ entries d) /\
    (dictSize d = 0 /\ v' = 0 /\ es = [] \/
     exists k, 2 <= k <= 31 /\ small_mask d = 2 ^ k - 1 /\ v' = next_cursor k v) /\
    (scan_safe d v -> forall e, e ∈ entries d -> rev v <= rev (khash e) ->
       v' = 0 \/ rev (khash e) < rev v' -> e ∈ es).
Proof.
  intros W Hv. unfold dictScan. rewrite (dictSize_entries d (wf_tbl _ W)).
  destruct (Z.eqb_spec (zlen (entries d)) 0) as [Hz|Hz].
  { exists [], 0. split_and!; [done|by intros e ?%elem_of_nil|by left|].
    intros _ e He. destruct (entries d); [by apply elem_of_nil in He|zlia]. }
  destruct (decide (size (ht0 d) = 0)) as [E0|Hsz].
  { rewrite (wf_size0 d (wf_tbl _ W) E0) in Hz. done. }
  destruct (wf_cases d (wf_tbl _ W) Hsz) as
    [(k & L & H1 & Hr & _)|(k0 & k1 & L0 & L1 & _ & _ & Hr)]; rewrite Hr; simpl negb; cbv iota.
  - destruct (scan_bucket k (ht0 d) v L Hv) as (b & -> & Hb1 & Hb2). sbind.
    pose proof (live_k _ _ L).
    assert (entries d = ht_entries (ht0 d)) as He.
    { unfold entries. rewrite H1. apply app_nil_r. }
    rewrite He. eexists b, _. split; [done|]. rewrite (live_mask _ _ L), (live_size _ _ L).
    rewrite next_cursor_eq. split_and!; [done| |].
    + right. exists k. unfold small_mask. rewrite Hr, (live_mask _ _ L), (live_size _ _ L). done.
    + intros _ e Hin H2 H3. apply Hb2; [done|].
      apply (covered_block k v); try done; [lia|apply khash_range].
  - assert (exists ks t0 t1 kl, (if size (ht0 d) >? size (ht1 d) then (ht1 d, ht0 d) else (ht0 d, ht1 d)) = (t0, t1) /\
      live_ht ks t0 /\ live_ht kl t1 /\ ks <= kl /\ small_mask d = 2 ^ ks - 1 /\
      entries d ≡ₚ ht_entries t0 ++ ht_entries t1 /\
      Z.lxor (sizemask t0) (sizemask t1) = Z.lxor (sizemask (ht0 d)) (sizemask (ht1 d)))
      as (ks & t0 & t1 & kl & -> & Ls & Ll & Hle & Hmask & P & Hxor).
    { rewrite Z.gtb_ltb. unfold small_mask. rewrite Hr.
      destruct (Z.ltb_spec (size (ht1 d)) (size (ht0 d))).
      - exists k1, (ht1 d), (ht0 d), k0. split_and!; try done.
        + eapply live_le; [done|done|lia].
        + rewrite (live_mask _ _ L0), (live_mask _ _ L1), <- (live_size _ _ L1). lia.
        + unfold entries. by rewrite Permutation_app_comm.
        + apply Z.lxor_comm.
      - exists k0, (ht0 d), (ht1 d), k1. split_and!; try done.
        + by eapply live_le.
        + rewrite (live_mask _ _ L0), (live_mask _ _ L1), <- (live_size _ _ L0). lia. }
    pose proof (live_k _ _ Ls).
    destruct (scan_two ks kl t0 t1 v Ls Ll Hle Hv) as (b & es & v' & -> & Hl & Hv' & Hlow & Hin & Hcov).
    sbind. rewrite Hl. sbind. eexists (b ++ es), _. split; [done|].
    rewrite (live_mask _ _ Ls), (live_size _ _ Ls). rewrite next_cursor_eq.
    rewrite (next_cursor_ext ks v' v) by (done || lia). split_and!.
    + intros e He. rewrite P. auto.
    + right. by exists ks.
    + intros Hsafe e He H2 H3. apply Hcov; [rewrite Hxor; auto|by rewrite <- P|].
      apply (covered_block ks v); try done; [lia|apply khash_range].
Qed.

(** ** A whole scan *)

(** The calls of a client, one per state of the dictionary, until the cursor
    returned is 0. *)
Fixpoint scan_run (ds : list dict) (v : Z) : option (list dictEntry) :=
  match ds with
  | [] => None
  | d :: ds =>
      '(es, v') ← dictScan d v;
      if v' =? 0 then Some es
      else es' ← scan_run ds v'; Some (es ++ es')
  end.

Lemma scan_safe_small d v : wf d -> 0 <= v <= small_mask d -> scan_safe d v.
Proof.
  intros W Hv Hr. unfold small_mask in Hv. rewrite Hr in Hv.
  destruct (decide (size (ht0 d) = 0)) as [E0|Hsz].
  { rewrite (wf_size0 d (wf_tbl _ W) E0) in Hr. done. }
  destruct (wf_cases d (wf_tbl _ W) Hsz) as
    [(k & L & H1 & Hr' & _)|(k0 & k1 & L0 & L1 & _ & _ & _)]; [congruence|].
  rewrite (live_mask _ _ L0), (live_mask _ _ L1), (live_size _ _ L0), (live_size _ _ L1) in *.
  pose proof (live_k _ _ L0). pose proof (live_k _ _ L1).
  assert (forall a b, 2 <= a <= b -> v < 2 ^ a -> Z.land v (Z.lxor (2 ^ a - 1) (2 ^ b - 1)) = 0) as Hab.
  { intros a b Hle Hlt. rewrite scan_mid by lia. by rewrite Z.div_small by lia. }
  destruct (decide (k0 <= k1)).
  - apply Hab; lia.
  - rewrite Z.lxor_comm. apply Hab; lia.
Qed.

Lemma small_mask_nonneg d : wf d -> 0 <= small_mask d.
Proof.
  intros W. assert (forall k h, live_ht k h -> 0 <= sizemask h) as Hl.
  { intros k h L. rewrite (live_mask _ _ L), (live_size _ _ L).
    pose proof (pow2_pos k ltac:(pose proof (live_k _ _ L); lia)). lia. }
  unfold small_mask.
  destruct (wf_tbl _ W) as [H0 H1 H2|k L H1 H2|k0 k1 L0 L1 _ _].
  - unfold dictIsRehashing. by rewrite H0, H2.
  - unfold dictIsRehashing. rewrite H2. simpl. by eapply Hl.
  - apply Hl in L0, L1. destruct (dictIsRehashing d); lia.
Qed.

Definition next_ok (d d' : dict) : Prop := small_mask d <= small_mask d'.

Lemma sorted_replicate n d : StronglySorted next_ok (replicate n d).
Proof.
  induction n; simpl; constructor; [done|]. apply Forall_replicate. unfold next_ok. lia.
Qed.

Lemma scan_run_covers c h ds : forall v es,
  Forall wf ds -> StronglySorted next_ok ds ->
  (forall d, d ∈ ds -> exists e, e ∈ entries d /\ canon (key e) = c /\ khash e = h) ->
  0 <= v < 2 ^ 64 -> rev v <= rev h -> (forall d, head ds = Some d -> v <= small_mask d) ->
  scan_run ds v = Some es -> exists e, e ∈ es /\ canon (key e) = c.
Proof.
  induction ds as [|d ds IH]; intros v es Hwf Hs Hkey Hv Hle Hm Hrun; [done|].
  apply Forall_cons in Hwf as [W Hwf]. apply StronglySorted_cons in Hs as [Hd Hs].
  cbn [scan_run] in Hrun.
  destruct (dictScan_step d v W Hv) as (es1 & v' & E & _ & Hv' & Hcov).
  rewrite E in Hrun. sbind. cbn [mbind option_bind] in Hrun.
  destruct (Hkey d) as (e & He & Hc & Hh); [by left|].
  assert (0 <= v' < 2 ^ 64) as Hr'.
  { destruct Hv' as [(_ & -> & _)|(k & _ & _ & ->)]; [lia|apply next_cursor_range]. }
  assert (v' = 0 \/ rev h < rev v' -> e ∈ es1) as Hemit.
  { intros Hor. apply Hcov; [|done|by rewrite Hh|by rewrite Hh].
    apply scan_safe_small; [done|]. split; [lia|]. by apply Hm. }
  destruct (Z.eqb_spec v' 0) as [Ez|Ez].
  - simplify_eq. exists e. split; [apply Hemit; by left|done].
  - apply bind_Some in Hrun as (es2 & Hrun & [= <-]).
    destruct (decide (rev h < rev v')) as [Hlt|Hge].
    { exists e. split; [|done]. apply elem_of_app. left. apply Hemit. by right. }
    destruct (IH v' es2) as (e' & He' & Hc'); try done; [|lia| |].
    + intros d' Hd'. apply Hkey. by right.
    + intros d' Hd'. destruct ds as [|d1 ds']; [done|]. simplify_eq/=.
      apply Forall_cons in Hd as [Hd _]. unfold next_ok in Hd.
      destruct Hv' as [(_ & -> & _)|(k & Hk & Hmk & ->)]; [done|].
      pose proof (next_cursor_low k v ltac:(lia) Hv). lia.
    + exists e'. split; [|done]. apply elem_of_app. by right.
Qed.

(** On a dictionary that does not change, every call reads one block. *)
Lemma scan_fixed_ends d fuel : forall v,
  wf d -> 0 <= v < 2 ^ 64 ->
  (forall k, 2 <= k <= 31 -> small_mask d = 2 ^ k - 1 ->
     2 ^ k - rev v / 2 ^ (64 - k) <= Z.of_nat fuel) ->
  exists n es, (n <= S fuel)%nat /\ scan_run (replicate n d) v = Some es /\
    forall e, e ∈ es -> e ∈ entries d.
Proof.
  induction fuel as [|fuel IH]; intros v W Hv Hf;
    destruct (dictScan_step d v W Hv) as (es & v' & E & Hin & Hv' & _).
  - exists 1%nat, es. simpl. rewrite E. sbind.
    destruct Hv' as [(_ & -> & _)|(k & Hk & Hm & ->)]; [split_and!; [lia|done|done]|].
    exfalso. specialize (Hf k Hk Hm). pose proof (rev_range v Hv) as Hr.
    rewrite (pow_split k ltac:(lia)) in Hr.
    assert (rev v / 2 ^ (64 - k) < 2 ^ k); [|lia].
    apply Z.div_lt_upper_bound; [apply pow2_pos; lia|lia].
  - destruct (Z.eqb_spec v' 0) as [Ez|Ez].
    { exists 1%nat, es. simpl. rewrite E. sbind. rewrite Ez. split_and!; [lia|done|done]. }
    destruct Hv' as [(_ & -> & _)|(k & Hk & Hm & Hnext)]; [done|].
    destruct (IH v') as (n & es' & Hn & Hrun & Hin'); [done|subst; apply next_cursor_range| |].
    + intros k' Hk' Hm'. assert (k' = k) as ->.
      { apply Z.pow_inj_r with 2; lia. }
      specialize (Hf k Hk Hm). pose proof (pow2_pos (64 - k) ltac:(lia)).
      destruct (next_cursor_cases k v ltac:(lia) Hv) as [[Hz _]|[Hr _]]; [congruence|].
      rewrite Hnext, Hr, Z.div_mul by lia. lia.
    + exists (S n), (es ++ es'). split; [lia|]. simpl. rewrite E. sbind.
      rewrite (proj2 (Z.eqb_neq _ _)), Hrun by done. sbind. split; [done|].
      intros e [?|?]%elem_of_app; auto.
Qed.

(** ** Iterators *)

(** The pointers to the entries of some buckets, the first of index [i]. *)
Fixpoint ptrs_tbl (t : table_id) (i : nat) (tbl : list (list dictEntry)) : list entry_ptr :=
  match tbl with
  | [] => []
  | b :: tbl => ((fun n => (t, Z.of_nat i, n)) <$> seq 0 (length b)) ++ ptrs_tbl t (S i) tbl
  end.

Definition ptrs_tail (d : dict) (t : table_id) : list entry_ptr :=
  match t with
  | T0 => if dictIsRehashing d then ptrs_tbl T1 0 (table (ht1 d)) else []
  | T1 => []
  end.

(** The pointers from the bucket [m] of the table [t] on. *)
Definition ptrs_from (d : dict) (t : table_id) (m : nat) : list entry_ptr :=
  ptrs_tbl t m (drop m (table (ht d t))) ++ ptrs_tail d t.

(** The pointers that follow in the chain of a bucket. *)
Definition ptrs_chain (d : dict) (p : option entry_ptr) : list entry_ptr :=
  match p with
  | None => []
  | Some (t, i, n) =>
      match getb (table (ht d t)) i with
      | Some b => (fun n => (t, i, n)) <$> seq n (length b - n)
      | None => []
      end
  end.

(** What an iterator has still to return. *)
Inductive pending (d : dict) (it : dictIterator) (ps : list entry_ptr) : Prop :=
| pending_bucket m :
    it_entry it = None -> it_index it = Z.of_nat m - 1 ->
    (m <= length (table (ht d (it_table it))))%nat ->
    ps = ptrs_from d (it_table it) m -> pending d it ps
| pending_chain m e :
    it_entry it = Some e -> it_index it = Z.of_nat m - 1 -> (1 <= m)%nat ->
    (m <= length (table (ht d (it_table it))))%nat ->
    (forall t i n, it_nextEntry it = Some (t, i, n) ->
       exists b, getb (table (ht d t)) i = Some b /\ (n < length b)%nat) ->
    ps = ptrs_chain d (it_nextEntry it) ++ ptrs_from d (it_table it) m -> pending d it ps.

Definition same_tables (d d' : dict) : Prop :=
  ht0 d = ht0 d' /\ ht1 d = ht1 d' /\ rehashidx d = rehashidx d'.

Lemma iter_start_tables addr d it : same_tables d (iter_start addr d it).1.
Proof. unfold iter_start. destruct (iter_fresh it), (it_safe it); done. Qed.

Lemma same_tables_ptrs d d' :
  same_tables d d' -> (forall t, ht d t = ht d' t) /\ dictIsRehashing d = dictIsRehashing d'.
Proof.
  intros (E0 & E1 & E2). unfold dictIsRehashing. rewrite E2. split; [|done]. by intros [].
Qed.

Lemma head_next d t i (b : list dictEntry) :
  getb (table (ht d t)) i = Some b ->
  head_ptr d t i = Some (match b with [] => None | _ => Some (t, i, O) end) /\
  forall n, (n < length b)%nat ->
    next_ptr d (t, i, n) = Some (if decide (S n < length b)%nat then Some (t, i, S n) else None) /\
    (fun n => (t, i, n)) <$> seq n (length b - n)
    = (t, i, n) :: ptrs_chain d (if decide (S n < length b)%nat then Some (t, i, S n) else None).
Proof.
  intros Hb. unfold head_ptr, next_ptr. rewrite Hb. sbind. split; [done|]. intros n Hn.
  destruct (lookup_lt_is_Some_2 b n Hn) as [e ->]. sbind.
  replace (length b - n)%nat with (S (length b - S n)) by lia. simpl. case_decide.
  - destruct (lookup_lt_is_Some_2 b (S n)) as [e' ->]; [done|]. split; [done|].
    simpl. by rewrite Hb.
  - rewrite lookup_ge_None_2 by lia. split; [done|]. by replace (length b - S n)%nat with 0%nat by lia.
Qed.

Lemma ptrs_from_bucket d t m b :
  table (ht d t) !! m = Some b ->
  ptrs_from d t m = ((fun n => (t, Z.of_nat m, n)) <$> seq 0 (length b)) ++ ptrs_from d t (S m).
Proof.
  intros Hb. unfold ptrs_from. rewrite (drop_S _ _ _ Hb). cbn [ptrs_tbl].
  by rewrite <- app_assoc.
Qed.

Lemma ptrs_from_end d t m :
  (length (table (ht d t)) <= m)%nat -> ptrs_from d t m = ptrs_tail d t.
Proof. intros Hm. unfold ptrs_from. by rewrite drop_ge. Qed.

(** The buckets left to look at. *)
Definition buckets_left (d : dict) (it : dictIterator) : nat :=
  match it_table it with
  | T0 => length (table (ht0 d)) - Z.to_nat (it_index it + 1) + length (table (ht1 d)) + 1
  | T1 => length (table (ht1 d)) - Z.to_nat (it_index it + 1)
  end.

Definition start_state (addr : table_id -> Z) (d : dict) (it : dictIterator) : dict * Z :=
  match it_entry it with
  | None => iter_start addr d it
  | Some _ => (d, it_fingerprint it)
  end.

Lemma wf_tables_len d t : wf_tables d -> size (ht d t) = zlen (table (ht d t)).
Proof.
  intros [H0 H1 _|k L H1 _|k0 k1 L0 L1 _ _]; destruct t; simpl;
    rewrite ?H0, ?H1; try done; symmetry; by eapply live_len.
Qed.

Lemma same_tables_wf d d' : same_tables d d' -> wf_tables d -> wf_tables d'.
Proof.
  destruct d, d'. intros (E0 & E1 & E2). simpl in *. subst.
  intros [H0 H1 H2|k L H1 H2|k0 k1 L0 L1 Hi He]; simpl in *.
  - by apply wf_new.
  - by apply wf_stable with k.
  - by apply wf_rehash with k0 k1.
Qed.

(** What [dictNext] does, given what the iterator has still to return. *)
Definition next_result addr (d : dict) (it : dictIterator) (ps : list entry_ptr)
    (r : option (option entry_ptr * dictIterator * dict)) : Prop :=
  exists it', r = Some (head ps, it', (start_state addr d it).1) /\
    it_safe it' = it_safe it /\ it_fingerprint it' = (start_state addr d it).2 /\
    iter_fresh it' = false /\
    (forall p ps', ps = p :: ps' -> pending (start_state addr d it).1 it' ps' /\
       it_entry it' <> None).

Lemma next_loop_bucket addr fuel : forall d it m,
  wf_tables d -> it_entry it = None -> it_index it = Z.of_nat m - 1 ->
  (m <= length (table (ht d (it_table it))))%nat -> (buckets_left d it < fuel)%nat ->
  next_result addr d it (ptrs_from d (it_table it) m) (dictNext_loop fuel addr d it).
Proof.
  induction fuel as [|fuel IH]; intros d it m W He Hi Hm Hf; [lia|].
  unfold next_result, start_state. cbn [dictNext_loop]. unfold iter_advance. rewrite He.
  pose proof (iter_start_tables addr d it) as St.
  destruct (iter_start addr d it) as [d1 fp]. cbn [fst snd] in *.
  destruct (same_tables_ptrs _ _ St) as [Eht Ereh].
  assert (forall t m, ptrs_from d t m = ptrs_from d1 t m) as Eptrs.
  { intros t m'. unfold ptrs_from, ptrs_tail. rewrite Eht, Ereh. by destruct St as (_ & -> & _). }
  pose proof (same_tables_wf _ _ St W) as W1. rewrite !Eptrs.
  (* a bucket of index [j] of table [t] is entered *)
  assert (forall t j b, table (ht d1 t) !! j = Some b ->
    (buckets_left d1 (mkIter (Z.of_nat j) t (it_safe it) None (it_nextEntry it) fp) < fuel)%nat ->
    exists it', (r ← (e ← head_ptr d1 t (Z.of_nat j);
        Some (Some (mkIter (Z.of_nat j) t (it_safe it) e (it_nextEntry it) fp),
              mkIter (Z.of_nat j) t (it_safe it) e (it_nextEntry it) fp, d1));
      match r with
      | (None, it, d) => Some (None, it, d)
      | (Some it, _, d) =>
          match it_entry it with
          | Some p =>
              nx ← next_ptr d p;
              Some (Some p, mkIter (it_index it) (it_table it) (it_safe it) (Some p) nx
                              (it_fingerprint it), d)
          | None => dictNext_loop fuel addr d it
          end
      end) = Some (head (ptrs_from d1 t j), it', d1) /\
      it_safe it' = it_safe it /\ it_fingerprint it' = fp /\ iter_fresh it' = false /\
      (forall p ps', ptrs_from d1 t j = p :: ps' -> pending d1 it' ps' /\ it_entry it' <> None)) as Henter.
  { intros t j b Hb Hfj. rewrite (ptrs_from_bucket d1 t j b Hb).
    rewrite <- getb_lookup in Hb. destruct (head_next d1 t (Z.of_nat j) b Hb) as [-> Hnx]. sbind.
    assert (j < length (table (ht d1 t)))%nat as Hj.
    { apply getb_Some_range in Hb. unfold zlen in Hb. lia. }
    destruct b as [|e b]; cbn [it_entry].
    - destruct (IH d1 (mkIter (Z.of_nat j) t (it_safe it) None (it_nextEntry it) fp) (S j))
        as (it' & Hr & H1 & H2 & H3 & H4); try done; [simpl; lia|].
      unfold start_state, iter_start, iter_fresh in *. cbn [it_entry it_index it_safe it_fingerprint it_table] in *.
      rewrite (proj2 (Z.eqb_neq (Z.of_nat j) (-1))) in * by lia. cbn [andb fst snd] in *.
      exists it'. split; [exact Hr|done].
    - destruct (Hnx 0%nat) as [-> Hseq]; [simpl; lia|]. sbind. rewrite Nat.sub_0_r in Hseq.
      rewrite Hseq. eexists. split; [done|]. cbn [it_safe it_fingerprint it_entry].
      split_and!; [done|done| |].
      { unfold iter_fresh. cbn [it_index]. by rewrite (proj2 (Z.eqb_neq _ _)) by lia. }
      intros p ps' [= <- <-]. split; [|done].
      eapply (pending_chain _ _ _ (S j)); cbn [it_entry it_index it_table it_nextEntry];
        [done|lia|lia|lia| |done].
      intros t' i' n'. case_decide; [|done]. intros [= <- <- <-]. by exists (e :: b). }
  rewrite Hi. replace (Z.of_nat m - 1 + 1) with (Z.of_nat m) by lia.
  rewrite (wf_tables_len d1 (it_table it) W1), Z.geb_leb. unfold zlen. rewrite <- Eht.
  destruct (Z.leb_spec (Z.of_nat (length (table (ht d (it_table it))))) (Z.of_nat m)) as [Hge|Hlt].
  - assert (m = length (table (ht d (it_table it)))) as Em by lia.
    rewrite (ptrs_from_end d1) by (rewrite <- Eht; lia). cbn [andb].
    destruct (dictIsRehashing d1 && match it_table it with T0 => true | T1 => false end) eqn:Hsw.
    + apply andb_true_iff in Hsw as [Hr Ht]. destruct (it_table it) eqn:Et; [|done].
      cbn [negb]. cbv iota.
      assert (exists b, table (ht d1 T1) !! 0%nat = Some b) as [b Hb].
      { destruct W1 as [? ? Hrh|? ? ? Hrh|k0 k1 L0 L1 _ _];
          [unfold dictIsRehashing in Hr; by rewrite Hrh in Hr..|].
        pose proof (live_table_cons _ _ L1). simpl. destruct (table (ht1 d1)); [done|by eexists]. }
      destruct (Henter T1 0%nat b Hb) as (it' & Hrun & Hrest).
      { unfold buckets_left in *. rewrite Et in Hf. cbn [it_table it_index] in *.
        rewrite Hi in Hf. destruct St as (_ & <- & _). lia. }
      exists it'. simpl ptrs_tail. rewrite Hr. unfold ptrs_from in *. simpl ptrs_tail in *.
      rewrite app_nil_r in *. exact (conj Hrun Hrest).
    + cbn [negb]. sbind. eexists. split; [|].
      * do 3 f_equal. destruct (it_table it); [|done]. simpl. by rewrite andb_true_r in Hsw; rewrite Hsw.
      * cbn [it_safe it_fingerprint]. split_and!; [done|done| |].
        { unfold iter_fresh. cbn [it_index]. by rewrite (proj2 (Z.eqb_neq _ _)) by lia. }
        intros p ps'. destruct (it_table it); [|done]. simpl. rewrite andb_true_r in Hsw. by rewrite Hsw.
  - cbn [andb]. cbv iota.
    destruct (lookup_lt_is_Some_2 (table (ht d1 (it_table it))) m) as [b Hb]; [rewrite <- Eht; lia|].
    destruct (Henter (it_table it) m b Hb) as (it' & Hrun & Hrest).
    { unfold buckets_left in *. cbn [it_table it_index] in *. rewrite Hi in Hf.
      destruct St as (<- & <- & _). destruct (it_table it); simpl in Hlt; lia. }
    exists it'. exact (conj Hrun Hrest).
Qed.

Lemma next_pending addr d it ps :
  wf_tables d -> pending d it ps -> (it_entry it = None -> 0 <= it_index it + 1) ->
  next_result addr d it ps (dictNext addr d it).
Proof.
  intros W [m He Hi Hm ->|m e He Hi H1 Hm Hnx ->] H0; unfold dictNext.
  - apply next_loop_bucket; try done. unfold buckets_left. rewrite Hi. destruct (it_table it); lia.
  - replace (length (table (ht0 d)) + length (table (ht1 d)) + 3)%nat
      with (S (length (table (ht0 d)) + length (table (ht1 d)) + 2)) by lia.
    cbn [dictNext_loop]. unfold iter_advance. rewrite He. sbind. cbn [it_entry].
    unfold next_result, start_state. rewrite He. cbn [fst snd].
    assert (forall f, iter_fresh (mkIter (it_index it) (it_table it) (it_safe it) (f : option _)
      (it_nextEntry it) (it_fingerprint it)) = false) as Hfresh.
    { intros f. unfold iter_fresh. cbn [it_index]. by rewrite (proj2 (Z.eqb_neq _ _)) by lia. }
    destruct (it_nextEntry it) as [[[t i] n]|] eqn:En.
    + destruct (Hnx t i n eq_refl) as (b & Hb & Hn).
      destruct (head_next d t i b Hb) as [_ Hh]. destruct (Hh n Hn) as [-> Hs]. sbind.
      simpl ptrs_chain at 1. rewrite Hb. 
      change (ptrs_chain d (Some (t, i, n))) with
        (match getb (table (ht d t)) i with
         | Some b => (fun n => (t, i, n)) <$> seq n (length b - n) | None => [] end).
      rewrite Hb, Hs. eexists. split; [done|]. cbn [it_safe it_fingerprint it_entry].
      split_and!; [done|done| |].
      { unfold iter_fresh. cbn [it_index]. by rewrite (proj2 (Z.eqb_neq _ _)) by lia. }
      intros p ps' [= <- <-]. split; [|done].
      eapply (pending_chain _ _ _ m); cbn [it_entry it_index it_table it_nextEntry];
        [done|lia|lia|lia| |done].
      intros t' i' n'. case_decide; [|done]. intros [= <- <- <-]. by exists b.
    + destruct (next_loop_bucket addr (length (table (ht0 d)) + length (table (ht1 d)) + 2) d
        (mkIter (it_index it) (it_table it) (it_safe it) None None (it_fingerprint it)) m W)
        as (it' & Hr & H2 & H3 & H4 & H5); try done.
      { unfold buckets_left. cbn [it_table it_index]. rewrite Hi. destruct (it_table it); lia. }
      unfold start_state, iter_start in *. rewrite (Hfresh None) in *. cbn [it_entry fst snd] in *.
      exists it'. split_and!; done.
Qed.

(** All the pointers, in the order of an iteration, and their entries. *)
Definition all_ptrs (d : dict) : list entry_ptr := ptrs_from d T0 0.

Lemma ptrs_tbl_entries d t tbl : forall i,
  table (ht d t) = take i (table (ht d t)) ++ tbl -> (i <= length (table (ht d t)))%nat ->
  mapM (entry_of d) (ptrs_tbl t i tbl) = Some (concat tbl).
Proof.
  induction tbl as [|b tbl IH]; intros i Ht Hi; [done|]. cbn [ptrs_tbl concat].
  assert (getb (table (ht d t)) (Z.of_nat i) = Some b) as Hb.
  { rewrite getb_lookup, Ht, lookup_app_r by (rewrite length_take; lia).
    rewrite length_take, Nat.min_l, Nat.sub_diag by lia. done. }
  assert (forall l n, b = take n b ++ l -> (n <= length b)%nat ->
    mapM (entry_of d) ((fun n => (t, Z.of_nat i, n)) <$> seq n (length l)) = Some l) as Hbucket.
  { induction l as [|e l IHl]; intros n Hl Hn; [done|]. cbn [length seq fmap list_fmap mapM].
    assert (b !! n = Some e) as Hbn.
    { rewrite Hl, lookup_app_r by (rewrite length_take; lia).
      rewrite length_take, Nat.min_l, Nat.sub_diag by lia. done. }
    assert (entry_of d (t, Z.of_nat i, n) = Some e) as -> by (unfold entry_of; by rewrite Hb).
    sbind. rewrite IHl; [done| |by apply lookup_lt_Some in Hbn].
    rewrite (take_S_r _ _ _ Hbn), <- app_assoc. done. }
  apply mapM_app_Some; [apply (Hbucket b 0%nat); [done|lia]|]. apply IH.
  - rewrite getb_lookup in Hb. by rewrite (take_S_r _ _ _ Hb), <- app_assoc.
  - apply getb_Some_range in Hb. unfold zlen in Hb. lia.
Qed.

Lemma all_ptrs_entries d : wf_tables d -> mapM (entry_of d) (all_ptrs d) = Some (entries d).
Proof.
  intros W. unfold all_ptrs, ptrs_from, entries. rewrite drop_0.
  apply mapM_app_Some; [apply ptrs_tbl_entries; [done|lia]|].
  unfold ptrs_tail. destruct (dictIsRehashing d) eqn:Hr.
  - apply (ptrs_tbl_entries d T1); [done|lia].
  - assert (ht_entries (ht1 d) = []) as ->; [|done].
    destruct W as [_ H1 _|k _ H1 _|k0 k1 L0 L1 Hi _]; [by rewrite H1..|].
    unfold dictIsRehashing in Hr. rewrite (proj2 (Z.eqb_neq _ _)) in Hr by lia. done.
Qed.

Lemma iterate_pending addr d0 ps : forall d it fuel,
  wf_tables d -> pending d it ps -> (it_entry it = None -> 0 <= it_index it + 1) ->
  (length ps < fuel)%nat -> 
  (forall d' fp, start_state addr d it = (d', fp) ->
     if it_safe it then set_iterators d' (iterators d' - 1) = d0
     else d' = d0 /\ fp = dictFingerprint addr d0) ->
  iterate_loop fuel addr d it = Some (ps, d0).
Proof.
  induction ps as [|p ps IH]; intros d it fuel W Hp Hi Hf Hd;
    (destruct fuel as [|fuel]; [simpl in Hf; lia|]); cbn [iterate_loop];
    destruct (next_pending addr d it _ W Hp Hi) as (it' & -> & H1 & H2 & H3 & H4); sbind;
    pose proof (iter_start_tables addr d it) as St;
    destruct (start_state addr d it) as [d' fp] eqn:Es; cbn [fst snd] in *;
    specialize (Hd d' fp eq_refl).
  - unfold dictReleaseIterator. rewrite H3, H1, H2. simpl head. destruct (it_safe it).
    + sbind. by rewrite Hd.
    + destruct Hd as [-> ->]. rewrite Z.eqb_refl. done.
  - destruct (H4 p ps eq_refl) as [Hp' Hne]. simpl head.
    assert (wf_tables d') as W'.
    { unfold start_state in Es. destruct (it_entry it); [by simplify_eq|].
      rewrite Es in St. by eapply same_tables_wf. }
    rewrite (IH d' it' fuel W' Hp'); [done|done|simpl in Hf; lia|].
    intros d'' fp'. unfold start_state. destruct (it_entry it') eqn:Ei; [|done].
    rewrite H1, H2. intros [= <- <-]. exact Hd.
Qed.

(** ** Random keys *)

(** A place of the tables, and the numbers that lead to it. *)
Lemma random_bucket_spec d rnd :
  wf_tables d -> entries d <> [] -> Forall (fun r => 0 <= r) rnd ->
  exists r, random_bucket d rnd = Some r /\
  match r with
  | Exhausted _ => True
  | Drawn _ (t, i, he, rest) => getb (table (ht d t)) i = Some he /\ he <> [] /\
      Forall (fun r => 0 <= r) rest
  end.
Proof.
  intros W Hne. induction rnd as [|r rnd IH]; intros Hr; [by eexists|].
  apply Forall_cons in Hr as [Hr Hrnd]. cbn [random_bucket].
  destruct (decide (size (ht0 d) = 0)) as [E0|Hsz].
  { rewrite (wf_size0 d W E0) in Hne. done. }
  assert (exists t i, random_place d r = (t, i) /\
    is_Some (getb (table (ht d t)) i)) as (t & i & -> & [he Hhe]).
  { unfold random_place.
    destruct (wf_cases d W Hsz) as [(k & L & H1 & -> & _)|(k0 & k1 & L0 & L1 & Hi & _ & ->)].
    - eexists _, _. split; [done|]. exact (bucket_lookup k (ht0 d) r L Hr).
    - cbv zeta. pose proof (live_not_zero _ _ L1) as Hz1.
      pose proof (live_k _ _ L0). pose proof (live_k _ _ L1).
      pose proof (live_size _ _ L0) as S0. pose proof (live_size _ _ L1) as S1.
      assert (2 ^ k0 <= 2 ^ 31 /\ 2 ^ k1 <= 2 ^ 31) as [] by (split; apply Z.pow_le_mono_r; lia).
      pose proof (pow2_pos k1 ltac:(lia)).
      pose proof (Z.mod_pos_bound r (size (ht0 d) + size (ht1 d) - rehashidx d) ltac:(lia)) as Hm.
      rewrite u32_small by lia. rewrite Z.geb_leb. set (h := rehashidx d + _) in *.
      destruct (Z.leb_spec (size (ht0 d)) h).
      + eexists T1, _. split; [done|]. apply getb_is_Some. simpl. rewrite (live_len _ _ L1). lia.
      + eexists T0, _. split; [done|]. apply getb_is_Some. simpl. rewrite (live_len _ _ L0). lia. }
  rewrite Hhe. sbind. destruct he as [|e he]; [by apply IH|].
  eexists. split; [done|]. done.
Qed.

(** Any entry can be drawn. *)
Lemma random_reach d e :
  wf_tables d -> e ∈ entries d ->
  exists r n t i he, 0 <= r /\ 0 <= n /\
    random_bucket d [r; n] = Some (Drawn _ (t, i, he, [n])) /\
    he !! Z.to_nat (n mod zlen he) = Some e /\ getb (table (ht d t)) i = Some he.
Proof.
  intros W He.
  destruct (decide (size (ht0 d) = 0)) as [E0|Hsz].
  { rewrite (wf_size0 d W E0) in He. by apply elem_of_nil in He. }
  assert (forall t i b, getb (table (ht d t)) i = Some b -> e ∈ b ->
    (exists r, 0 <= r /\ random_place d r = (t, i)) ->
    exists r n t i he, 0 <= r /\ 0 <= n /\
    random_bucket d [r; n] = Some (Drawn _ (t, i, he, [n])) /\
    he !! Z.to_nat (n mod zlen he) = Some e /\ getb (table (ht d t)) i = Some he) as Hreach.
  { intros t i b Hb Heb (r & Hr & Heq). apply list_elem_of_lookup in Heb as [n Hn].
    apply lookup_lt_Some in Hn as Hlt.
    exists r, (Z.of_nat n), t, i, b. split_and!; [done|lia| | |done].
    - cbn [random_bucket]. rewrite Heq, Hb. sbind. by destruct b.
    - rewrite Z.mod_small by zlia. by rewrite Nat2Z.id. }
  destruct (wf_cases d W Hsz) as [(k & L & H1 & Hreh & _)|(k0 & k1 & L0 & L1 & Hi & Hemp & Hreh)];
    unfold random_place in Hreach; rewrite Hreh in Hreach.
  - unfold entries in He. rewrite H1 in He. unfold ht_entries at 2 in He. simpl in He.
    rewrite app_nil_r in He. destruct (entry_bucket k (ht0 d) e L He) as (b & Hb & Heb).
    pose proof (live_k _ _ L). pose proof (Z.mod_pos_bound (khash e) (2 ^ k) (pow2_pos k ltac:(lia))).
    apply (Hreach T0 _ b Hb Heb). exists (khash e mod 2 ^ k). split; [lia|].
    rewrite (live_mask _ _ L), (live_size _ _ L), scan_mask by lia.
    assert (2 ^ k <= 2 ^ 31) by (apply Z.pow_le_mono_r; lia).
    rewrite (Z.mod_small (_ mod _)), u32_small by lia. done.
  - pose proof (live_k _ _ L0). pose proof (live_k _ _ L1).
    pose proof (live_size _ _ L0) as S0. pose proof (live_size _ _ L1) as S1.
    assert (2 ^ k0 <= 2 ^ 31 /\ 2 ^ k1 <= 2 ^ 31) as [] by (split; apply Z.pow_le_mono_r; lia).
    pose proof (pow2_pos k0 ltac:(lia)). pose proof (pow2_pos k1 ltac:(lia)).
    apply elem_of_app in He as [He|He].
    + destruct (entry_bucket k0 (ht0 d) e L0 He) as (b & Hb & Heb).
      pose proof (Z.mod_pos_bound (khash e) (2 ^ k0) ltac:(lia)). set (i := khash e mod 2 ^ k0) in *.
      assert (rehashidx d <= i) as Hle.
      { destruct (decide (rehashidx d <= i)); [done|]. rewrite (Hemp i b) in Heb by (lia || done).
        by apply elem_of_nil in Heb. }
      apply (Hreach T0 i b Hb Heb). exists (i - rehashidx d). split; [lia|]. cbv zeta.
      rewrite Z.mod_small by lia. replace (rehashidx d + (i - rehashidx d)) with i by lia.
      rewrite u32_small by lia. by rewrite Z.geb_leb, (proj2 (Z.leb_gt _ _)) by lia.
    + destruct (entry_bucket k1 (ht1 d) e L1 He) as (b & Hb & Heb).
      pose proof (Z.mod_pos_bound (khash e) (2 ^ k1) ltac:(lia)). set (i := khash e mod 2 ^ k1) in *.
      apply (Hreach T1 i b Hb Heb). exists (size (ht0 d) + i - rehashidx d). split; [lia|]. cbv zeta.
      rewrite Z.mod_small by lia.
      replace (rehashidx d + (size (ht0 d) + i - rehashidx d)) with (size (ht0 d) + i) by lia.
      rewrite u32_small by lia. rewrite Z.geb_leb, (proj2 (Z.leb_le _ _)) by lia.
      f_equal. lia.
Qed.

End DictScan.

(** ** Properties *)

Section DictScanProps.
Context {K V C : Type} `{Countable C} {DT : DictType K V C}.

(** C2 (functional): the guarantee of [dictScan].  Whatever happens to the
    dictionary between the calls (insertions, deletions, rehashing steps, a
    growing table), as long as the smaller of its tables never gets smaller, a
    client that calls it from the cursor 0 until the cursor is 0 again is given
    every key that was in the dictionary all along. *)
Theorem dictScan_guarantee (ds : list (dict K V)) (k : K) (es : list (dictEntry K V)) :
  Forall wf ds -> StronglySorted next_ok ds ->
  (forall d, d ∈ ds -> is_Some (dict_map d !! canon k)) ->
  scan_run ds 0 = Some es -> exists e, e ∈ es /\ canon (key e) = canon k.
Proof.
  intros Hwf Hs Hk Hrun.
  apply (scan_run_covers (canon k) (dictHashKey k) ds 0 es); try done.
  - intros d Hd. destruct (Hk d Hd) as [v Hv].
    apply elem_of_list_to_map_2, list_elem_of_fmap in Hv as (e & [= Hc _] & He).
    exists e. split_and!; [done|done|]. unfold khash, dictHashKey.
    by apply hashFunction_canon.
  - rewrite rev_0. apply rev_range. pose proof (hashFunction_range k). unfold dictHashKey. lia.
  - intros d Hd. apply small_mask_nonneg. rewrite Forall_forall in Hwf. apply Hwf.
    destruct ds; [done|]. simplify_eq/=. left.
Qed.

(** On a dictionary that does not change, a scan ends after at
    most one call per bucket of the smaller table and gives exactly its entries,
    even when a rehashing is under way. *)
Theorem dictScan_terminates (d : dict K V) :
  wf d ->
  exists n es, (n <= S (Z.to_nat (small_mask d + 1)))%nat /\
    scan_run (replicate n d) 0 = Some es /\
    forall k, (exists e, e ∈ es /\ canon (key e) = canon k) <-> is_Some (dict_map d !! canon k).
Proof.
  intros W. destruct (scan_fixed_ends d (Z.to_nat (small_mask d + 1)) 0 W) as (n & es & Hn & Hrun & Hin);
    [lia| |].
  { intros k Hk ->. rewrite rev_0, Z.div_0_l by (pose proof (pow2_pos (64 - k)); lia). lia. }
  exists n, es. split_and!; [done|done|]. intros k. split.
  - intros (e & He & <-). eexists. by apply dict_map_Some, Hin.
  - intros Hk. apply (dictScan_guarantee (replicate n d) k es); [| | |done].
    + by apply Forall_replicate.
    + apply sorted_replicate.
    + intros d' Hd'. apply elem_of_replicate in Hd' as [-> _]. done.
Qed.

(** C29 (functional): [dictNext], called until it returns [NULL], gives every entry
    of the dictionary exactly once, in the order of the buckets of the first and
    then of the second table; a safe iterator leaves the count of iterators as it
    was, and the fingerprint that an unsafe one checks on release has not changed. *)
Theorem dictNext_iterates (addr : table_id -> Z) (d : dict K V) (fp0 : Z) (safe : bool) :
  wf d ->
  exists ps, iterate_loop (S (length (all_ptrs d))) addr d
      (if safe then dictGetSafeIterator fp0 else dictGetIterator fp0) = Some (ps, d) /\
    mapM (entry_of d) ps = Some (entries d).
Proof.
  intros [W _]. exists (all_ptrs d). split; [|by apply all_ptrs_entries].
  apply iterate_pending; try done; [|by destruct safe|lia|].
  - apply pending_bucket with 0%nat; destruct safe; simpl; done || lia.
  - intros d' fp. destruct safe; unfold start_state, iter_start; simpl; intros [= <- <-].
    + destruct d. unfold set_iterators. simpl. f_equal. lia.
    + done.
Qed.

(** [dictGetRandomKey] never leaves the tables; what it returns is an
    entry of the dictionary, [NULL] only when it is empty, and every entry is
    returned for some random numbers. *)
Theorem dictGetRandomKey_valid (d : dict K V) (rnd : list Z) :
  wf d -> Forall (fun r => 0 <= r) rnd ->
  exists r d', dictGetRandomKey d rnd = Some (r, d') /\ entries d' ≡ₚ entries d /\
  (match r with
   | Exhausted _ => True
   | Drawn _ None => entries d = []
   | Drawn _ (Some p) => exists e, entry_of d' p = Some e /\ e ∈ entries d
   end) /\
  (forall e, e ∈ entries d -> exists rnd' p, Forall (fun r => 0 <= r) rnd' /\
     dictGetRandomKey d rnd' = Some (Drawn _ (Some p), d') /\ entry_of d' p = Some e).
Proof.
  intros W Hr. unfold dictGetRandomKey. rewrite (dictSize_entries d (wf_tbl _ W)).
  destruct (Z.eqb_spec (zlen (entries d)) 0) as [Hz|Hz].
  { assert (entries d = []) as E by (destruct (entries d); [done|zlia]).
    eexists _, d. rewrite E. split_and!; [done|done|done|]. by intros e ?%elem_of_nil. }
  destruct (rehash_step_spec d W) as (d' & -> & Sc). sbind.
  pose proof (wf_tbl _ (sc_wf _ _ Sc)) as W'. pose proof (sc_entries _ _ Sc) as P.
  assert (entries d' <> []) as Hne.
  { intros E. rewrite E in P. apply Permutation_nil in P. by rewrite P in Hz. }
  destruct (random_bucket_spec d' rnd W' Hne Hr) as (r & -> & Hsel). sbind.
  assert (forall e, e ∈ entries d -> exists rnd' p, Forall (fun r => 0 <= r) rnd' /\
    (r ← random_bucket d' rnd';
     match r with
     | Exhausted _ => Some (Exhausted _, d')
     | Drawn _ (t, i, he, rnd) =>
        match rnd with
        | [] => Some (Exhausted _, d')
        | r :: _ => Some (Drawn _ (Some (t, i, Z.to_nat (r mod zlen he))), d')
        end
     end) = Some (Drawn _ (Some p), d') /\ entry_of d' p = Some e) as Hreach.
  { intros e He. rewrite <- P in He.
    destruct (random_reach d' e W' He) as (r1 & n & t & i & he & ? & ? & Hb & Hn & Hg).
    exists [r1; n]. eexists. split; [by repeat constructor|]. rewrite Hb. sbind.
    split; [done|]. unfold entry_of. by rewrite Hg. }
  destruct r as [|[[[t i] he] rest]].
  { by eexists _, d'. }
  destruct Hsel as (Hb & Hhe & Hrest). destruct rest as [|r2 rest]; [by eexists _, d'|].
  eexists _, d'. split_and!; [done|done| |exact Hreach].
  assert (0 < zlen he) by (destruct he; [done|pose proof (zlen_nonneg he); zlia]).
  pose proof (Z.mod_pos_bound r2 (zlen he) ltac:(done)).
  destruct (lookup_lt_is_Some_2 he (Z.to_nat (r2 mod zlen he))) as [e He]; [zlia|].
  exists e. split; [unfold entry_of; by rewrite Hb|].
  rewrite <- P. unfold entries. apply elem_of_app.
  assert (e ∈ ht_entries (ht d' t)) as Hin.
  { apply entry_in_table. exists i, he. split; [done|by eapply list_elem_of_lookup_2]. }
  destruct t; [by left|by right].
Qed.

End DictScanProps.

Lemma dictScan_guarantee_witness :
  exists es, scan_run (replicate 4 sample_dict) 0 = Some es /\
    exists e, e ∈ es /\ key e = [98].
Proof.
  eexists. split; [vm_compute; reflexivity|].
  apply (dictScan_guarantee (DT := dbDictType 5381 Z) (replicate 4 sample_dict) [98]).
  - apply Forall_replicate, sample_dict_wf.
  - apply sorted_replicate.
  - intros d Hd. apply elem_of_replicate in Hd. destruct Hd as [-> _].
    exists 2. vm_compute. reflexivity.
  - vm_compute. reflexivity.
Defined.

Lemma dictScan_terminates_witness :
  exists n es, (n <= 5)%nat /\ scan_run (replicate n sample_dict) 0 = Some es.
Proof.
  destruct (dictScan_terminates (DT := dbDictType 5381 Z) sample_dict sample_dict_wf)
    as (n & es & Hn & Hr & _).
  exists n, es. split; [exact Hn|exact Hr].
Defined.

Lemma dictNext_iterates_witness :
  exists ps, iterate_loop 6 (fun _ => 4096) sample_dict (dictGetSafeIterator 0) = Some (ps, sample_dict) /\
    length ps = 5%nat.
Proof.
  destruct (dictNext_iterates (DT := dbDictType 5381 Z) (fun _ => 4096) sample_dict 0 true sample_dict_wf)
    as (ps & Hr & Hm).
  exists ps. split; [exact Hr|].
  apply length_mapM in Hm. rewrite Hm. vm_compute. reflexivity.
Defined.

Lemma dictGetRandomKey_valid_witness :
  exists r d', dictGetRandomKey (DT := dbDictType 5381 Z) sample_dict [3; 5; 12; 7; 1] = Some (r, d') /\
    entries d' ≡ₚ entries sample_dict.
Proof.
  destruct (dictGetRandomKey_valid (DT := dbDictType 5381 Z) sample_dict [3; 5; 12; 7; 1] sample_dict_wf)
    as (r & d' & Hr & P & _); [repeat constructor; discriminate|].
  exists r, d'. split; [exact Hr|exact P].
Defined.

(** The guarantee does not extend to a table that shrinks.  A key is
    added to a table of 16 buckets; after the first call of a scan (cursor 8)
    [dictResize] starts the rehashing to 4 buckets; the scan goes on to its end,
    and never returns the key, although it was in the dictionary all the time:
    the expansions of the cursor are tried in increasing order from the cursor,
    not in the order of the reversed bits. *)
Theorem dictScan_misses_shrinking :
  exists d1 d2 es,
    impl_run (DT := dbDictType 5381 Z) 0 (true, dictCreate) [OpExpand 16; OpAdd [89] 1]
      = Some ([OutNone; OutStatus DICT_OK], (true, d1)) /\
    impl_run (DT := dbDictType 5381 Z) 0 (true, d1) [OpResize] = Some ([OutNone], (true, d2)) /\
    scan_run [d1; d2; d2; d2; d2] 0 = Some es /\
    (dict_map (DT := dbDictType 5381 Z) d1) !! [89] = Some 1 /\
    (dict_map (DT := dbDictType 5381 Z) d2) !! [89] = Some 1 /\ es = [].
Proof.
  eexists _, _, _. split; [vm_compute; reflexivity|]. split; [vm_compute; reflexivity|].
  split; [vm_compute; reflexivity|]. split; [vm_compute; reflexivity|].
  split; [vm_compute; reflexivity|reflexivity].
Qed.
