(* ===== verification/Lzf.v ===== *)
(** * lzf_c.c, lzf_d.c: LZF compression of the strings of an RDB file

    Buffers are lists of bytes and pointers are indices; a read or a write
    outside of a buffer gives [None].  The configuration is the one of lzfP.h:
    HLOG 16, VERY_FAST, no STRICT_ALIGN, the hash table not initialised. *)

From Stdlib Require Import ZArith Lia.
From stdpp Require Import base numbers list gmap.
From S2P Require Import Prelude.

Open Scope Z_scope.

(** ** Compression *)

Definition MAX_LIT : Z := 32.
Definition MAX_OFF : Z := 8192.
Definition MAX_REF : Z := 264.
Definition HLOG : Z := 16.

Section Compress.
Context (in_data : list Z) (out_end : Z).

(** [junk]: what the hash table holds before it is written, as offsets from
    [in_data]. *)
Context (junk : Z -> Z).

Definition in_end : Z := zlen in_data.

Record cstate := mkC {
  c_ip : Z;
  c_op : Z;
  c_lit : Z;
  c_hval : Z;
  c_htab : gmap Z Z;
  c_out : list Z;
}.

Definition FRST (p : Z) : option Z :=
  a ← getb in_data p; b ← getb in_data (p + 1);
  Some (Z.lor (Z.shiftl a 8) b).
Definition NEXT (v p : Z) : option Z :=
  c ← getb in_data (p + 2); Some (Z.lor (u32 (Z.shiftl v 8)) c).
Definition IDX (h : Z) : Z :=
  Z.land (u32 (Z.shiftr h (24 - HLOG) - h * 5)) (2 ^ HLOG - 1).

(** The unrolled comparisons: [len], and whether one of them failed. *)
Fixpoint probe (n : nat) (ref ip len : Z) : option (Z * bool) :=
  match n with
  | O => Some (len, false)
  | S n =>
      let len := len + 1 in
      a ← getb in_data (ref + len);
      b ← getb in_data (ip + len);
      if a =? b then probe n ref ip len else Some (len, true)
  end.

(** [do len++; while (len < maxlen && ref\[len\] == ip\[len\])]. *)
Fixpoint extend (fuel : nat) (ref ip len maxlen : Z) : option Z :=
  match fuel with
  | O => None
  | S fuel =>
      let len := len + 1 in
      if len <? maxlen then
        a ← getb in_data (ref + len);
        b ← getb in_data (ip + len);
        if a =? b then extend fuel ref ip len maxlen else Some len
      else Some len
  end.

Definition match_len (ref ip maxlen : Z) : option Z :=
  if maxlen >? 16 then
    r ← probe 16 ref ip 2;
    let '(len, failed) := r in
    if (failed : bool) then Some len else extend 300 ref ip len maxlen
  else extend 300 ref ip 2 maxlen.

(** The test for a match at [ref]; it gives [off]. *)
Definition match_found (ref ip : Z) : option (option Z) :=
  let off := u64 (ip - ref - 1) in
  if (off <? MAX_OFF) && (ip + 4 <? in_end) && (ref >? 0) then
    r0 ← getb in_data ref; r1 ← getb in_data (ref + 1); r2 ← getb in_data (ref + 2);
    i0 ← getb in_data ip; i1 ← getb in_data (ip + 1); i2 ← getb in_data (ip + 2);
    Some (if (r0 =? i0) && (r1 =? i1) && (r2 =? i2) then Some off else None)
  else Some None.

(** [Return0]: [return 0], with the buffer as it is. *)
Inductive control := Next (s : cstate) | Break (s : cstate) | Return0 (out : list Z).

(** The two positions hashed after a match. *)
Definition rehash2 (ip hval : Z) (htab : gmap Z Z) : option (Z * Z * gmap Z Z) :=
  let ip := ip - 2 in
  hval ← FRST ip;
  hval ← NEXT hval ip;
  let htab := <[IDX hval := ip]> htab in
  let ip := ip + 1 in
  hval ← NEXT hval ip;
  let htab := <[IDX hval := ip]> htab in
  Some (ip + 1, hval, htab).

(** The bytes of a back reference. *)
Definition put_ref (out : list Z) (op off len : Z) : option (list Z * Z) :=
  if len <? 7 then
    out ← setb out op (u8 (Z.shiftr off 8 + Z.shiftl len 5));
    out ← setb out (op + 1) (u8 off);
    Some (out, op + 2)
  else
    out ← setb out op (u8 (Z.shiftr off 8 + Z.shiftl 7 5));
    out ← setb out (op + 1) (u8 (len - 7));
    out ← setb out (op + 2) (u8 off);
    Some (out, op + 3).

(** The branch of a match. *)
Definition emit_match (s : cstate) (ref off : Z) : option control :=
  let ip := c_ip s in
  let maxlen := in_end - ip - 2 in
  let maxlen := if maxlen >? MAX_REF then MAX_REF else maxlen in
  out ← setb (c_out s) (c_op s - c_lit s - 1) (u8 (c_lit s - 1));
  let op := if c_lit s =? 0 then c_op s - 1 else c_op s in
  if op + 3 + 1 >=? out_end then Some (Return0 out)
  else
    len ← match_len ref ip maxlen;
    let len := len - 2 in
    r ← put_ref out op off len;
    let '(out, op) := r in
    let op := op + 1 in
    let ip := ip + 1 + (len + 1) in
    if ip >=? in_end - 2 then Some (Break (mkC ip op 0 (c_hval s) (c_htab s) out))
    else
      r ← rehash2 ip (c_hval s) (c_htab s);
      let '(ip, hval, htab) := r in
      Some (Next (mkC ip op 0 hval htab out)).

(** The end of a run of literals. *)
Definition stop_full_run (s : cstate) : option cstate :=
  if c_lit s =? MAX_LIT then
    out ← setb (c_out s) (c_op s - c_lit s - 1) (u8 (c_lit s - 1));
    Some (mkC (c_ip s) (c_op s + 1) 0 (c_hval s) (c_htab s) out)
  else Some s.

(** [lit++; *op++ = *ip++], and the end of the run. *)
Definition put_literal (s : cstate) : option cstate :=
  b ← getb in_data (c_ip s);
  out ← setb (c_out s) (c_op s) b;
  stop_full_run (mkC (c_ip s + 1) (c_op s + 1) (c_lit s + 1) (c_hval s) (c_htab s) out).

(** One turn of the main loop. *)
Definition comp_step (s : cstate) : option control :=
  hval ← NEXT (c_hval s) (c_ip s);
  let ref := default (junk (IDX hval)) (c_htab s !! IDX hval) in
  let s := mkC (c_ip s) (c_op s) (c_lit s) hval (<[IDX hval := c_ip s]> (c_htab s)) (c_out s) in
  m ← match_found ref (c_ip s);
  match m with
  | Some off => emit_match s ref off
  | None =>
      if c_op s >=? out_end then Some (Return0 (c_out s))
      else s ← put_literal s; Some (Next s)
  end.

(** [while (ip < in_end - 2)]; [inl]: [return 0]. *)
Fixpoint comp_loop (fuel : nat) (s : cstate) : option (list Z + cstate) :=
  if c_ip s <? in_end - 2 then
    match fuel with
    | O => None
    | S fuel =>
        r ← comp_step s;
        match r with
        | Next s => comp_loop fuel s
        | Break s => Some (inr s)
        | Return0 out => Some (inl out)
        end
    end
  else Some (inr s).

(** [while (ip < in_end)]. *)
Fixpoint tail_loop (fuel : nat) (s : cstate) : option cstate :=
  if c_ip s <? in_end then
    match fuel with
    | O => None
    | S fuel => s ← put_literal s; tail_loop fuel s
    end
  else Some s.

End Compress.

(** The length of the output and the output buffer, of which [out_len] bytes may
    be used. *)
Definition lzf_compress (in_data : list Z) (out : list Z) (out_len : Z) (junk : Z -> Z)
  : option (Z * list Z) :=
  if (zlen in_data =? 0) || (out_len =? 0) then Some (0, out)
  else
    hval ← FRST in_data 0;
    r ← comp_loop in_data out_len junk (length in_data) (mkC 0 1 0 hval ∅ out);
    match r with
    | inl out => Some (0, out)
    | inr s =>
        if c_op s + 3 >? out_len then Some (0, c_out s)
        else
          s ← tail_loop in_data 3 s;
          out ← setb (c_out s) (c_op s - c_lit s - 1) (u8 (c_lit s - 1));
          let op := if c_lit s =? 0 then c_op s - 1 else c_op s in
          Some (op, out)
    end.

(** ** Decompression *)

Section Decompress.
Context (in_data : list Z) (in_end out_end : Z).

(** [*op++ = *ip++], [n] times. *)
Fixpoint copy_lit (n : nat) (ip op : Z) (out : list Z) : option (list Z) :=
  match n with
  | O => Some out
  | S n =>
      b ← getb in_data ip;
      out ← setb out op b;
      copy_lit n (ip + 1) (op + 1) out
  end.

(** [*op++ = *ref++], [n] times: the blocks may overlap. *)
Fixpoint copy_ref (n : nat) (ref op : Z) (out : list Z) : option (list Z) :=
  match n with
  | O => Some out
  | S n =>
      b ← getb out ref;
      out ← setb out op b;
      copy_ref n (ref + 1) (op + 1) out
  end.

Inductive dstep := DNext (ip op : Z) (out : list Z) | DError (out : list Z).

(** One turn of the loop. *)
Definition dec_step (ip op : Z) (out : list Z) : option dstep :=
  ctrl ← getb in_data ip;
  let ip := ip + 1 in
  if ctrl <? 32 then
    let ctrl := ctrl + 1 in
    if op + ctrl >? out_end then Some (DError out)
    else if ip + ctrl >? in_end then Some (DError out)
    else
      out ← copy_lit (Z.to_nat ctrl) ip op out;
      Some (DNext (ip + ctrl) (op + ctrl) out)
  else
    let len := Z.shiftr ctrl 5 in
    let ref := op - Z.shiftl (Z.land ctrl 31) 8 - 1 in
    if ip >=? in_end then Some (DError out)
    else
      r ← (if len =? 7 then
             b ← getb in_data ip;
             let ip := ip + 1 in
             Some (if ip >=? in_end then None else Some (len + b, ip))
           else Some (Some (len, ip)));
      match r with
      | None => Some (DError out)
      | Some (len, ip) =>
          b ← getb in_data ip;
          let ip := ip + 1 in
          let ref := ref - b in
          if op + len + 2 >? out_end then Some (DError out)
          else if ref <? 0 then Some (DError out)
          else
            out ← copy_ref (Z.to_nat (len + 2)) ref op out;
            Some (DNext ip (op + len + 2) out)
      end.

(** [do ... while (ip < in_end)]: the output length, 0 on error. *)
Fixpoint dec_loop (fuel : nat) (ip op : Z) (out : list Z) : option (Z * list Z) :=
  match fuel with
  | O => None
  | S fuel =>
      r ← dec_step ip op out;
      match r with
      | DError out => Some (0, out)
      | DNext ip op out =>
          if ip <? in_end then dec_loop fuel ip op out else Some (op, out)
      end
  end.

End Decompress.

Definition lzf_decompress (in_data : list Z) (in_len : Z) (out : list Z) (out_len : Z)
  : option (Z * list Z) :=
  dec_loop in_data in_len out_len (length in_data) 0 0 out.

(** ** The compressed format *)

(** The bytes of a back reference. *)
Definition ref_bytes (off len : Z) : list Z :=
  if len <? 7 then [off / 256 + len * 32; off mod 256]
  else [off / 256 + 224; len - 7; off mod 256].

(** [h'] extends [h] by the copy of [n] bytes, each from [off + 1] bytes before. *)
Definition copied (h h' : list Z) (off n : Z) : Prop :=
  (exists m, h' = h ++ m /\ zlen m = n) /\
  forall i, zlen h <= i < zlen h' -> getb h' i = getb h' (i - off - 1).

(** [codes code h]: [code] is a compressed form of [h]. *)
Inductive codes : list Z -> list Z -> Prop :=
| codes_nil : codes [] []
| codes_lit code h l :
    codes code h -> 1 <= zlen l <= MAX_LIT -> codes (code ++ (zlen l - 1) :: l) (h ++ l)
| codes_ref code h h' off len :
    codes code h -> 0 <= off < MAX_OFF -> off < zlen h -> 1 <= len <= 262 ->
    copied h h' off (len + 2) -> codes (code ++ ref_bytes off len) h'.

Lemma codes_bytes code h : codes code h -> bytes_ok h -> bytes_ok code.
Proof.
  induction 1 as [|code h l _ IH Hl|code h h' off len _ IH Ho _ Hl [(m & -> & _) _]]; intros Hb; [done|..].
  - apply Forall_app in Hb as [Hh Hlb]. apply Forall_app. split; [by apply IH|].
    constructor; [|done]. unfold is_byte, MAX_LIT in *. lia.
  - apply Forall_app in Hb as [Hh _]. apply Forall_app. split; [by apply IH|].
    unfold ref_bytes, MAX_OFF in *. destruct (Z.ltb_spec len 7);
      repeat (apply Forall_cons; split); try apply Forall_nil_2; unfold is_byte; dlia.
Qed.

(** ** Compression gives a code *)

Section CompressProof.
Context (inp : list Z) (out_end : Z) (junk : Z -> Z).

Definition matched (ref ip len : Z) : Prop :=
  forall i, 0 <= i < len -> getb inp (ref + i) = getb inp (ip + i).

Lemma matched_snoc ref ip len :
  matched ref ip len -> getb inp (ref + len) = getb inp (ip + len) -> matched ref ip (len + 1).
Proof. intros Hm He i Hi. destruct (decide (i = len)) as [->|]; [done|]. apply Hm. lia. Qed.

Lemma probe_spec n : forall ref ip len,
  0 <= ref < ip -> 0 <= len -> ip + len + Z.of_nat n < zlen inp -> matched ref ip (len + 1) ->
  exists len' failed, probe inp n ref ip len = Some (len', failed) /\
    len <= len' <= len + Z.of_nat n /\
    (if failed : bool then len < len' /\ matched ref ip len'
     else len' = len + Z.of_nat n /\ matched ref ip (len' + 1)).
Proof.
  induction n as [|n IH]; intros ref ip len Hr Hl Hb Hm; cbn [probe].
  - exists len, false. split_and!; [done|lia|lia|lia|done].
  - destruct (getb_is_Some inp (ref + (len + 1))) as [a Ha]; [lia|].
    destruct (getb_is_Some inp (ip + (len + 1))) as [b Hb']; [lia|].
    rewrite Ha. sbind. rewrite Hb'. sbind. destruct (Z.eqb_spec a b) as [->|].
    + destruct (IH ref ip (len + 1)) as (len' & failed & -> & Hle & Hf); [lia|lia|lia| |].
      { apply matched_snoc; [done|]. by rewrite Ha, Hb'. }
      exists len', failed. split_and!; [done|lia|lia|].
      destruct failed; destruct Hf; (split; [lia|done]).
    + exists (len + 1), true. split_and!; [done|lia|lia|lia|done].
Qed.

Lemma extend_spec fuel : forall ref ip len maxlen,
  0 <= ref < ip -> 0 <= len -> ip + maxlen <= zlen inp -> matched ref ip (len + 1) ->
  maxlen - len < Z.of_nat fuel -> 0 < Z.of_nat fuel ->
  exists len', extend inp fuel ref ip len maxlen = Some len' /\
    len < len' <= Z.max (len + 1) maxlen /\ matched ref ip len'.
Proof.
  induction fuel as [|fuel IH]; intros ref ip len maxlen Hr Hl Hb Hm Hf H0; [lia|].
  cbn [extend]. destruct (Z.ltb_spec (len + 1) maxlen).
  - destruct (getb_is_Some inp (ref + (len + 1))) as [a Ha]; [lia|].
    destruct (getb_is_Some inp (ip + (len + 1))) as [b Hb']; [lia|].
    rewrite Ha. sbind. rewrite Hb'. sbind. destruct (Z.eqb_spec a b) as [->|].
    + destruct (IH ref ip (len + 1) maxlen) as (len' & -> & Hle & Hf'); [lia|lia|lia| |lia|lia|].
      { apply matched_snoc; [done|]. by rewrite Ha, Hb'. }
      exists len'. split_and!; [done|lia|lia|done].
    + exists (len + 1). split_and!; [done|lia|lia|done].
  - exists (len + 1). split_and!; [done|lia|lia|done].
Qed.

Lemma match_len_spec ref ip :
  0 <= ref < ip -> ip + 4 < zlen inp -> matched ref ip 3 ->
  exists len, match_len inp ref ip
      (if zlen inp - ip - 2 >? MAX_REF then MAX_REF else zlen inp - ip - 2) = Some len /\
    3 <= len <= 264 /\ ip + len <= zlen inp /\ matched ref ip len.
Proof.
  intros Hr Hb Hm. set (maxlen := (if zlen inp - ip - 2 >? MAX_REF then MAX_REF else zlen inp - ip - 2)).
  assert (maxlen <= 264 /\ 3 <= maxlen /\ ip + maxlen + 2 <= zlen inp) as (H1 & H2 & H3).
  { subst maxlen. rewrite Z.gtb_ltb. unfold MAX_REF.
    destruct (Z.ltb_spec 264 (zlen inp - ip - 2)); lia. }
  unfold match_len. rewrite Z.gtb_ltb. destruct (Z.ltb_spec 16 maxlen).
  - destruct (probe_spec 16 ref ip 2) as (len & failed & -> & Hle & Hf); [lia|lia|simpl; lia|done|].
    sbind. destruct failed.
    + exists len. destruct Hf. split_and!; [done|simpl in *; lia..|done].
    + destruct Hf as [-> Hm']. destruct (extend_spec 300 ref ip (2 + Z.of_nat 16) maxlen) as (len' & -> & Hl & Hm2);
        [lia..|done|simpl; lia|simpl; lia|].
      exists len'. simpl in Hl. split_and!; [done|lia|lia|lia|done].
  - destruct (extend_spec 300 ref ip 2 maxlen) as (len' & -> & Hl & Hm2);
      [lia..|done|simpl; lia|simpl; lia|].
    exists len'. split_and!; [done|lia|lia|lia|done].
Qed.

(** The state between two turns: [code] is complete, then comes the byte for the
    length of the run, then the literals of the run. *)
Definition comp_inv (N : Z) (s : cstate) : Prop :=
  exists code x lits rest h tl,
    c_out s = code ++ x :: lits ++ rest /\ zlen (c_out s) = N /\
    codes code h /\ inp = h ++ lits ++ tl /\ c_ip s = zlen h + zlen lits /\
    c_lit s = zlen lits /\ zlen lits < MAX_LIT /\ c_op s = zlen code + 1 + zlen lits /\
    c_op s <= out_end + 1 /\ (0 < zlen lits -> c_op s <= out_end).

Lemma list_snoc_mid {A} (l k : list A) x : l ++ x :: k = (l ++ [x]) ++ k.
Proof. by rewrite <- app_assoc. Qed.

(** One more literal. *)
Lemma put_literal_spec N s :
  comp_inv N s -> out_end + 1 <= N -> c_ip s < zlen inp -> c_op s < out_end ->
  exists s', put_literal inp s = Some s' /\ comp_inv N s' /\ c_htab s' = c_htab s /\
    c_ip s' = c_ip s + 1 /\ c_op s < c_op s' <= c_op s + 2.
Proof.
  intros (code & x & lits & rest & h & tl & Ho & HN & Hc & Hi & Hip & Hlit & Hmax & Hop & Hb & _) HNo Hin Hlt.
  pose proof (zlen_nonneg lits). pose proof (zlen_nonneg code).
  destruct tl as [|b tl].
  { rewrite Hi in Hin. rewrite !zlen_app, zlen_nil in Hin. lia. }
  destruct rest as [|y rest].
  { exfalso. rewrite Ho in HN. rewrite zlen_app, zlen_cons, zlen_app, zlen_nil in HN. lia. }
  unfold put_literal, stop_full_run.
  rewrite Hi, app_assoc, getb_mid by (rewrite zlen_app; lia). sbind.
  rewrite Ho. replace (code ++ x :: lits ++ y :: rest) with ((code ++ x :: lits) ++ y :: rest)
    by (by rewrite <- app_assoc).
  rewrite setb_mid by (rewrite zlen_app, zlen_cons; lia). sbind.
  cbn [c_lit c_op c_ip c_hval c_htab c_out].
  assert (zlen (code ++ x :: lits ++ b :: rest) = N) as HN'.
  { rewrite <- HN, Ho. rewrite !zlen_app, !zlen_cons, !zlen_app, !zlen_cons. lia. }
  destruct (Z.eqb_spec (c_lit s + 1) MAX_LIT) as [Hfull|Hfull].
  - rewrite <- app_assoc. cbn [app].
    rewrite setb_mid by lia. sbind.
    eexists. split; [done|]. cbn [c_lit c_op c_ip c_hval c_htab c_out].
    split; [|split; [done|lia]]. destruct rest as [|z rest].
    { exfalso. rewrite zlen_app, zlen_cons, zlen_app, zlen_cons, zlen_nil in HN'. lia. }
    exists (code ++ (zlen (lits ++ [b]) - 1) :: lits ++ [b]), z, [], rest, (h ++ lits ++ [b]), tl.
    cbn [c_lit c_op c_ip c_hval c_htab c_out]. unfold MAX_LIT in *.
    replace (u8 (c_lit s + 1 - 1)) with (zlen (lits ++ [b]) - 1).
    2:{ rewrite u8_small by lia. rewrite zlen_app, zlen_cons, zlen_nil. lia. }
    split_and!.
    + rewrite <- !app_assoc. cbn [app]. by rewrite <- !app_assoc.
    + rewrite <- HN'. by rewrite !zlen_app, !zlen_cons, !zlen_app.
    + apply codes_lit; [done|]. rewrite zlen_app, zlen_cons, zlen_nil. unfold MAX_LIT. lia.
    + by rewrite <- !app_assoc.
    + rewrite !zlen_app, zlen_cons, zlen_nil. lia.
    + done.
    + done.
    + rewrite zlen_app, zlen_cons, !zlen_app, zlen_cons, !zlen_nil. lia.
    + lia.
    + intros Hz. vm_compute in Hz. done.
  - eexists. split; [done|]. cbn [c_lit c_op c_ip c_hval c_htab c_out]. split; [|split; [done|lia]].
    exists code, x, (lits ++ [b]), rest, h, tl. cbn [c_lit c_op c_ip c_hval c_htab c_out].
    assert (zlen (lits ++ [b]) = zlen lits + 1) as -> by (rewrite zlen_app; done).
    unfold MAX_LIT in *. split_and!; try done; try lia; [by rewrite <- !app_assoc| |].
    + rewrite <- HN'. by rewrite <- app_assoc.
    + by rewrite <- !app_assoc.
Qed.

(** The end of a run, before a back reference: the run is closed or undone. *)
Lemma close_run N s :
  comp_inv N s ->
  exists out code rest h tl,
    setb (c_out s) (c_op s - c_lit s - 1) (u8 (c_lit s - 1)) = Some out /\
    out = code ++ rest /\ zlen out = N /\ codes code h /\ inp = h ++ tl /\ c_ip s = zlen h /\
    zlen code = (if c_lit s =? 0 then c_op s - 1 else c_op s).
Proof.
  intros (code & x & lits & rest & h & tl & Ho & HN & Hc & Hi & Hip & Hlit & Hmax & Hop & Hb & _).
  pose proof (zlen_nonneg lits). rewrite Ho, setb_mid by lia.
  assert (zlen (code ++ u8 (c_lit s - 1) :: lits ++ rest) = N) as HN'.
  { rewrite <- HN, Ho. by rewrite !zlen_app, !zlen_cons. }
  destruct (Z.eqb_spec (c_lit s) 0) as [Hz|Hz].
  - assert (lits = []) as -> by (apply length_zero_iff_nil; unfold zlen in *; lia).
    eexists _, code, _, h, tl. split_and!; [done|done|done|done|done|..];
      rewrite zlen_nil in *; lia.
  - exists (code ++ u8 (c_lit s - 1) :: lits ++ rest), (code ++ (zlen lits - 1) :: lits), rest,
      (h ++ lits), tl. unfold MAX_LIT in *. rewrite u8_small in * by lia. rewrite Hlit in *.
    split_and!; [done|by rewrite <- app_assoc|done| |by rewrite <- app_assoc| |].
    + apply codes_lit; [done|]. unfold MAX_LIT. lia.
    + rewrite zlen_app. lia.
    + rewrite zlen_app, zlen_cons. lia.
Qed.

(** Writing a back reference. *)
Lemma put_ref_spec code rest op off len :
  op = zlen code -> 3 < zlen rest -> 0 <= off < MAX_OFF -> 1 <= len <= 262 ->
  exists x rest', put_ref (code ++ rest) op off len
    = Some ((code ++ ref_bytes off len) ++ x :: rest', op + zlen (ref_bytes off len)) /\
    zlen rest = zlen (ref_bytes off len) + 1 + zlen rest' /\ zlen (ref_bytes off len) <= 3.
Proof.
  unfold MAX_OFF. intros -> Hr Hoff Hlen.
  destruct rest as [|a [|b [|c [|d rest]]]]; try (rewrite ?zlen_cons, ?zlen_nil in Hr; lia).
  assert (0 <= off / 256 < 32) by dlia. assert (0 <= off mod 256 < 256) by dlia.
  assert (Z.shiftr off 8 = off / 256) as E1 by (rewrite Z.shiftr_div_pow2 by lia; done).
  assert (Z.shiftl len 5 = len * 32) as E2 by (rewrite Z.shiftl_mul_pow2 by lia; done).
  assert (u8 off = off mod 256) as E3 by done.
  unfold put_ref, ref_bytes. destruct (Z.ltb_spec len 7).
  - rewrite setb_mid by done. sbind. rewrite list_snoc_mid.
    rewrite setb_mid by (rewrite zlen_app, zlen_cons, zlen_nil; lia). sbind.
    exists c, (d :: rest). rewrite E1, E2, E3, u8_small by lia.
    split_and!; [|rewrite !zlen_cons; rewrite zlen_nil; lia|rewrite !zlen_cons; rewrite zlen_nil; lia].
    f_equal. f_equal. by rewrite <- !app_assoc.
  - rewrite setb_mid by done. sbind. rewrite list_snoc_mid.
    rewrite setb_mid by (rewrite zlen_app, zlen_cons, zlen_nil; lia). sbind.
    rewrite list_snoc_mid.
    rewrite setb_mid by (rewrite !zlen_app, !zlen_cons, zlen_nil; lia). sbind.
    exists d, rest. rewrite E1, E3. change (Z.shiftl 7 5) with 224.
    rewrite !u8_small by lia.
    split_and!; [|rewrite !zlen_cons; rewrite zlen_nil; lia|rewrite !zlen_cons; rewrite zlen_nil; lia].
    f_equal. f_equal. by rewrite <- !app_assoc.
Qed.

(** A match is a copy. *)
Lemma matched_copied h tl ref len :
  inp = h ++ tl -> 0 <= ref < zlen h -> 0 <= len -> zlen h + len <= zlen inp ->
  matched ref (zlen h) len ->
  exists m tl', inp = (h ++ m) ++ tl' /\ zlen m = len /\
    copied h (h ++ m) (zlen h - ref - 1) len.
Proof.
  intros Hi Hr Hl Hb Hm.
  exists (take (Z.to_nat len) tl), (drop (Z.to_nat len) tl).
  assert (zlen (take (Z.to_nat len) tl) = len) as Hlm.
  { rewrite zlen_take. rewrite Hi, zlen_app in Hb. lia. }
  assert (inp = (h ++ take (Z.to_nat len) tl) ++ drop (Z.to_nat len) tl) as Hi'.
  { by rewrite <- app_assoc, take_drop. }
  split_and!; [done|done|]. split; [by eexists|]. intros i Hri. rewrite zlen_app, Hlm in Hri.
  assert (forall j, j < zlen h + len -> getb (h ++ take (Z.to_nat len) tl) j = getb inp j) as Hg.
  { intros j Hj. rewrite Hi'. by rewrite (getb_app_l (h ++ _)) by (rewrite zlen_app; lia). }
  rewrite !Hg by lia. specialize (Hm (i - zlen h) ltac:(lia)).
  replace (i - (zlen h - ref - 1) - 1) with (ref + (i - zlen h)) by lia.
  rewrite Hm. f_equal. lia.
Qed.

(** Every position of the table is one of the input. *)
Definition htab_ok (htab : gmap Z Z) : Prop :=
  forall h p, htab !! h = Some p -> 0 <= p < zlen inp.

Lemma htab_ok_insert htab h p : htab_ok htab -> 0 <= p < zlen inp -> htab_ok (<[h := p]> htab).
Proof. intros Hh Hp h' p' [[_ <-]|[_ Hl]]%lookup_insert_Some; [done|by eapply Hh]. Qed.

Definition control_ok (N ip : Z) (c : control) : Prop :=
  match c with
  | Next s' => comp_inv N s' /\ ip < c_ip s' <= zlen inp /\ htab_ok (c_htab s')
  | Break s' => comp_inv N s' /\ zlen inp - 2 <= c_ip s' <= zlen inp
  | Return0 out => zlen out = N
  end.

Lemma hash_total p v : 0 <= p -> p + 2 < zlen inp ->
  is_Some (FRST inp p) /\ is_Some (NEXT inp v p).
Proof.
  intros H0 H1. unfold FRST, NEXT.
  destruct (getb_is_Some inp p) as [a ->]; [lia|].
  destruct (getb_is_Some inp (p + 1)) as [b ->]; [lia|].
  destruct (getb_is_Some inp (p + 2)) as [c ->]; [lia|]. sbind. split; by eexists.
Qed.

Lemma rehash2_total ip hval htab :
  2 <= ip < zlen inp - 2 -> htab_ok htab ->
  exists hval' htab', rehash2 inp ip hval htab = Some (ip, hval', htab') /\ htab_ok htab'.
Proof.
  intros Hip Hh. unfold rehash2.
  destruct (hash_total (ip - 2) 0) as [[h1 ->] _]; [lia|lia|]. sbind.
  destruct (hash_total (ip - 2) h1) as [_ [h2 ->]]; [lia|lia|]. sbind.
  destruct (hash_total (ip - 2 + 1) h2) as [_ [h3 ->]]; [lia|lia|]. sbind.
  replace (ip - 2 + 1 + 1) with ip by lia. eexists _, _. split; [done|].
  do 2 (apply htab_ok_insert; [|lia]). done.
Qed.

Lemma emit_match_spec N s ref off :
  comp_inv N s -> out_end + 1 <= N -> 1 <= ref < c_ip s -> off = c_ip s - ref - 1 -> off < MAX_OFF ->
  c_ip s + 4 < zlen inp -> matched ref (c_ip s) 3 -> htab_ok (c_htab s) ->
  exists c, emit_match inp out_end s ref off = Some c /\ control_ok N (c_ip s) c.
Proof.
  intros Hinv HNo Href -> Hoff Hb Hm Hht.
  destruct (close_run N s Hinv) as (out & code & rest & h & tl & Hset & -> & HN & Hc & Hi & Hip & Hop).
  unfold emit_match. rewrite Hset. sbind. fold (in_end inp). rewrite <- Hop. rewrite Z.geb_leb.
  destruct (Z.leb_spec out_end (zlen code + 3 + 1)) as [Hfull|Hroom].
  { eexists. split; [done|]. done. }
  unfold in_end. rewrite Hip in *.
  destruct (match_len_spec ref (zlen h)) as (len & -> & Hlen & Hend & Hmm); [lia|lia|done|].
  sbind. rewrite zlen_app in HN.
  destruct (put_ref_spec code rest (zlen code) (zlen h - ref - 1) (len - 2)) as (x & rest' & -> & Hrest & Hrl);
    [done|lia|lia|lia|].
  sbind. replace (zlen h + 1 + (len - 2 + 1)) with (zlen h + len) by lia.
  destruct (matched_copied h tl ref len Hi) as (m & tl' & Hi' & Hm' & Hcopy); [lia|lia|lia|done|].
  assert (comp_inv N (mkC (zlen h + len) (zlen code + zlen (ref_bytes (zlen h - ref - 1) (len - 2)) + 1) 0
    (c_hval s) (c_htab s) ((code ++ ref_bytes (zlen h - ref - 1) (len - 2)) ++ x :: rest'))) as Hnew.
  { exists (code ++ ref_bytes (zlen h - ref - 1) (len - 2)), x, [], rest', (h ++ m), tl'.
    cbn [c_out c_ip c_op c_lit]. unfold MAX_LIT. change (zlen (@nil Z)) with 0.
    split_and!; try done; rewrite ?zlen_app, ?zlen_cons; try lia.
    - eapply codes_ref; [done|lia|lia|lia|]. by replace (len - 2 + 2) with len by lia. }
  rewrite Z.geb_leb. destruct (Z.leb_spec (zlen inp - 2) (zlen h + len)).
  - eexists. split; [done|]. split; [exact Hnew|]. cbn [c_ip]. lia.
  - destruct (rehash2_total (zlen h + len) (c_hval s) (c_htab s)) as (hv & ht & -> & Hht'); [lia|done|].
    sbind. eexists. split; [done|]. split; [exact Hnew|]. cbn [c_ip c_htab]. split; [lia|done].
Qed.

(** Whatever the hash table holds, a match is an earlier occurrence. *)
Lemma match_found_spec ref ip :
  0 <= ip < zlen inp - 2 -> zlen inp < 2 ^ 63 -> -(2 ^ 63) < ref < 2 ^ 63 ->
  exists m, match_found inp ref ip = Some m /\
  match m with
  | Some off => 1 <= ref < ip /\ off = ip - ref - 1 /\ off < MAX_OFF /\ ip + 4 < zlen inp /\
      matched ref ip 3
  | None => True
  end.
Proof.
  intros Hip Hlen Href. unfold match_found, in_end.
  destruct ((u64 (ip - ref - 1) <? MAX_OFF) && (ip + 4 <? zlen inp) && (ref >? 0)) eqn:Hc;
    [|by exists None].
  zbool. unfold MAX_OFF in *.
  assert (0 <= ip - ref - 1) as Hnn.
  { destruct (decide (0 <= ip - ref - 1)); [done|exfalso]. unfold uwrap in *.
    rewrite <- (Z.mod_add _ 1), Z.mod_small in * by lia. lia. }
  rewrite u64_small in * by lia.
  destruct (getb_is_Some inp ref) as [r0 Hr0]; [lia|].
  destruct (getb_is_Some inp (ref + 1)) as [r1 Hr1]; [lia|].
  destruct (getb_is_Some inp (ref + 2)) as [r2 Hr2]; [lia|].
  destruct (getb_is_Some inp ip) as [i0 Hi0]; [lia|].
  destruct (getb_is_Some inp (ip + 1)) as [i1 Hi1]; [lia|].
  destruct (getb_is_Some inp (ip + 2)) as [i2 Hi2]; [lia|].
  rewrite Hr0, Hr1, Hr2, Hi0, Hi1, Hi2. sbind. eexists. split; [done|].
  destruct ((r0 =? i0) && (r1 =? i1) && (r2 =? i2)) eqn:E; [|done]. zbool. subst.
  split_and!; try lia. intros i Hi.
  destruct (decide (i = 0)) as [->|]; [by rewrite !Z.add_0_r, Hr0|].
  destruct (decide (i = 1)) as [->|]; [by rewrite Hr1|].
  replace i with 2 by lia. by rewrite Hr2.
Qed.

Definition junk_ok : Prop := forall h, - 2 ^ 63 < junk h < 2 ^ 63.

Lemma comp_inv_hash N s hval htab :
  comp_inv N s -> comp_inv N (mkC (c_ip s) (c_op s) (c_lit s) hval htab (c_out s)).
Proof. done. Qed.

Lemma comp_inv_ip N s : comp_inv N s -> 0 <= c_ip s <= zlen inp /\ zlen (c_out s) = N.
Proof.
  intros (code & x & lits & rest & h & tl & Ho & HN & _ & Hi & Hip & _).
  rewrite Hi, !zlen_app. pose proof (zlen_nonneg h). pose proof (zlen_nonneg lits).
  pose proof (zlen_nonneg tl). split; [lia|done].
Qed.

Lemma comp_step_spec N s :
  comp_inv N s -> htab_ok (c_htab s) -> out_end + 1 <= N -> junk_ok -> zlen inp < 2 ^ 63 ->
  c_ip s < zlen inp - 2 ->
  exists c, comp_step inp out_end junk s = Some c /\ control_ok N (c_ip s) c.
Proof.
  intros Hinv Hht HNo Hj Hlen Hip. pose proof (comp_inv_ip N s Hinv) as [Hip' HN].
  unfold comp_step.
  destruct (hash_total (c_ip s) (c_hval s)) as [_ [hv ->]]; [lia|lia|]. sbind.
  set (ref := default (junk (IDX hv)) (c_htab s !! IDX hv)).
  assert (- 2 ^ 63 < ref < 2 ^ 63) as Href.
  { subst ref. destruct (c_htab s !! IDX hv) as [p|] eqn:E; simpl; [|apply Hj].
    apply Hht in E. lia. }
  cbn [c_ip c_op c_lit c_hval c_htab c_out].
  destruct (match_found_spec ref (c_ip s)) as (m & -> & Hm); [lia|done|done|]. sbind.
  assert (htab_ok (<[IDX hv:=c_ip s]> (c_htab s))) as Hht' by (apply htab_ok_insert; [done|lia]).
  destruct m as [off|].
  - destruct Hm as (H1 & H2 & H3 & H4 & H5).
    eapply (emit_match_spec N (mkC _ _ _ _ _ _)); cbn [c_ip c_htab]; try done.
  - rewrite Z.geb_leb. destruct (Z.leb_spec out_end (c_op s)).
    { eexists. split; [done|]. done. }
    destruct (put_literal_spec N (mkC (c_ip s) (c_op s) (c_lit s) hv (<[IDX hv:=c_ip s]> (c_htab s)) (c_out s)))
      as (s' & -> & Hinv' & Hht2 & Hip2 & _); cbn [c_ip c_op]; try done; [lia|].
    sbind. eexists. split; [done|]. cbn [c_ip c_htab] in *. split; [done|]. rewrite Hht2.
    split; [lia|done].
Qed.

Lemma comp_loop_spec N fuel : forall s,
  comp_inv N s -> htab_ok (c_htab s) -> out_end + 1 <= N -> junk_ok -> zlen inp < 2 ^ 63 ->
  zlen inp - c_ip s <= Z.of_nat fuel ->
  exists r, comp_loop inp out_end junk fuel s = Some r /\
  match r with
  | inl out => zlen out = N
  | inr s' => comp_inv N s' /\ zlen inp - 2 <= c_ip s' <= zlen inp
  end.
Proof.
  induction fuel as [|fuel IH]; intros s Hinv Hht HNo Hj Hlen Hf; cbn [comp_loop];
    unfold in_end; pose proof (comp_inv_ip N s Hinv) as [Hip _];
    destruct (Z.ltb_spec (c_ip s) (zlen inp - 2)); try lia.
  1, 3: exists (inr s); split; [done|]; split; [done|lia].
  destruct (comp_step_spec N s) as (c & -> & Hc); try done. sbind.
  destruct c as [s'|s'|out]; simpl in Hc.
  - destruct Hc as (Hinv' & Hip' & Hht'). apply IH; try done. lia.
  - destruct Hc. eexists. split; [done|]. done.
  - eexists. split; [done|]. done.
Qed.

Lemma tail_loop_spec N fuel : forall s,
  comp_inv N s -> out_end + 1 <= N -> zlen inp - c_ip s <= Z.of_nat fuel ->
  c_op s + 2 * (zlen inp - c_ip s) <= out_end + 1 ->
  exists s', tail_loop inp fuel s = Some s' /\ comp_inv N s' /\ c_ip s' = zlen inp.
Proof.
  induction fuel as [|fuel IH]; intros s Hinv HNo Hf Hop; cbn [tail_loop];
    unfold in_end; pose proof (comp_inv_ip N s Hinv) as [Hip _];
    destruct (Z.ltb_spec (c_ip s) (zlen inp)); try lia.
  1, 3: exists s; split_and!; [done|done|lia].
  destruct (put_literal_spec N s) as (s' & -> & Hinv' & _ & Hip' & Hop'); try done; [lia|].
  sbind. apply IH; try done; lia.
Qed.

End CompressProof.

Lemma lzf_compress_spec (inp out : list Z) (out_len : Z) (junk : Z -> Z) :
  2 <= zlen inp < 2 ^ 63 -> 0 <= out_len -> out_len + 1 <= zlen out -> junk_ok junk ->
  exists n out', lzf_compress inp out out_len junk = Some (n, out') /\
    zlen out' = zlen out /\ 0 <= n <= out_len /\
    (n <> 0 -> codes (take (Z.to_nat n) out') inp).
Proof.
  intros Hin H0 Hout Hj. unfold lzf_compress.
  rewrite (proj2 (Z.eqb_neq (zlen inp) 0)) by lia. simpl orb.
  destruct (Z.eqb_spec out_len 0) as [->|].
  { exists 0, out. split_and!; done || lia. }
  assert (is_Some (FRST inp 0)) as [hv ->].
  { unfold FRST. destruct (getb_is_Some inp 0) as [a ->]; [lia|].
    destruct (getb_is_Some inp (0 + 1)) as [b ->]; [lia|]. by eexists. }
  sbind.
  assert (comp_inv inp out_len (zlen out) (mkC 0 1 0 hv ∅ out)) as Hinv.
  { destruct out as [|x rest]; [rewrite zlen_nil in Hout; lia|].
    exists [], x, [], rest, [], inp. cbn [c_out c_ip c_op c_lit].
    split_and!; try done; [constructor|lia]. }
  destruct (comp_loop_spec inp out_len junk (zlen out) (length inp) _ Hinv) as (r & -> & Hr);
    try done; [lia|unfold zlen; simpl; lia|].
  sbind. destruct r as [out1|s].
  { exists 0, out1. split_and!; done || lia. }
  destruct Hr as [Hinv1 Hip]. rewrite Z.gtb_ltb. destruct (Z.ltb_spec out_len (c_op s + 3)).
  { exists 0, (c_out s). pose proof (comp_inv_ip _ _ _ _ Hinv1) as [_ Hl].
    split_and!; done || lia. }
  destruct (tail_loop_spec inp out_len (zlen out) 3 s Hinv1) as (s1 & -> & Hinv2 & Hip2);
    [lia|simpl; lia|lia|].
  sbind. pose proof Hinv2 as (c0 & x0 & l0 & r0 & h0 & t0 & _ & _ & _ & _ & _ & Hlit0 & _ & Hop0 & Hb0 & Hb1).
  destruct (close_run _ _ _ _ Hinv2) as (out2 & code & rest & h & tl & -> & -> & Hl & Hc & Hi & Hih & Hcode).
  sbind. rewrite <- Hcode. exists (zlen code), (code ++ rest).
  assert (tl = []) as ->.
  { rewrite Hip2, Hi, zlen_app in Hih. destruct tl; [done|].
    rewrite zlen_cons in Hih. pose proof (zlen_nonneg tl). lia. }
  rewrite app_nil_r in Hi. subst h. pose proof (zlen_nonneg c0). pose proof (zlen_nonneg l0).
  split_and!; [done|done|apply zlen_nonneg| |].
  - rewrite Hcode. destruct (Z.eqb_spec (c_lit s1) 0); [lia|]. apply Hb1. lia.
  - intros _. unfold zlen. by rewrite Nat2Z.id, take_app_length.
Qed.

(** ** Decompression *)

Section DecompressProof.
Context (inp : list Z) (out_end : Z).

Lemma copy_lit_spec l : forall code tl h rest,
  inp = code ++ l ++ tl -> zlen l <= zlen rest ->
  exists rest', copy_lit inp (length l) (zlen code) (zlen h) (h ++ rest)
    = Some ((h ++ l) ++ rest') /\ zlen rest = zlen l + zlen rest'.
Proof.
  induction l as [|b l IH]; intros code tl h rest Hi Hr.
  { exists rest. by rewrite app_nil_r. }
  cbn [length copy_lit]. assert (getb inp (zlen code) = Some b) as -> by (rewrite Hi; by apply getb_mid). sbind.
  destruct rest as [|y rest]; [rewrite zlen_cons, zlen_nil in Hr; pose proof (zlen_nonneg l); lia|].
  rewrite setb_mid by done. sbind. rewrite !zlen_cons in Hr.
  destruct (IH (code ++ [b]) tl (h ++ [b]) rest) as (rest' & Hl & Hz); [by rewrite Hi, <- app_assoc|lia|].
  exists rest'. rewrite !zlen_cons. split; [|lia].
  rewrite !zlen_app in Hl. change (zlen [b]) with 1 in Hl.
  rewrite (list_snoc_mid h rest b), Hl. by rewrite <- (app_assoc h [b] l).
Qed.

Lemma copy_ref_spec n : forall h rest ref,
  0 <= ref < zlen h -> Z.of_nat n <= zlen rest ->
  exists m rest', copy_ref n ref (zlen h) (h ++ rest) = Some ((h ++ m) ++ rest') /\
    zlen rest = Z.of_nat n + zlen rest' /\ copied h (h ++ m) (zlen h - ref - 1) (Z.of_nat n).
Proof.
  induction n as [|n IH]; intros h rest ref Hr Hn.
  { exists [], rest. rewrite app_nil_r. split_and!; [done|lia|]. split; [exists []; by rewrite app_nil_r|].
    intros i Hi. lia. }
  cbn [copy_ref]. rewrite getb_app_l by lia.
  destruct (getb_is_Some h ref Hr) as [b Hb]. rewrite Hb. sbind.
  destruct rest as [|y rest]; [rewrite zlen_nil in Hn; lia|]. rewrite zlen_cons in Hn.
  rewrite setb_mid by done. sbind. rewrite list_snoc_mid.
  assert (zlen (h ++ [b]) = zlen h + 1) as Hz by (by rewrite zlen_app).
  destruct (IH (h ++ [b]) rest (ref + 1)) as (m & rest' & Hc & Hl & [(m' & Hmm & Hm) Hcp]); [lia|lia|].
  apply app_inv_head in Hmm. subst m'. rewrite Hz in *. exists (b :: m), rest'.
  assert ((h ++ [b]) ++ m = h ++ b :: m) as Eq by (by rewrite <- app_assoc).
  rewrite Eq in *. rewrite Hc, zlen_cons. split_and!; [done|lia|].
  split; [exists (b :: m); rewrite zlen_cons; split; [done|lia]|].
  intros i Hi. destruct (decide (i = zlen h)) as [->|].
  - rewrite getb_mid by done. rewrite getb_app_l by lia. rewrite <- Hb. f_equal. lia.
  - rewrite (Hcp i) by lia. f_equal. lia.
Qed.

Lemma dec_step_lit code h l tl rest :
  inp = code ++ (zlen l - 1) :: l ++ tl -> 1 <= zlen l <= MAX_LIT ->
  zlen h + zlen l <= out_end -> out_end <= zlen (h ++ rest) ->
  exists rest', dec_step inp (zlen inp) out_end (zlen code) (zlen h) (h ++ rest)
    = Some (DNext (zlen (code ++ (zlen l - 1) :: l)) (zlen (h ++ l)) ((h ++ l) ++ rest')) /\
    zlen ((h ++ l) ++ rest') = zlen (h ++ rest).
Proof.
  intros Hi Hl Ho Hr. unfold dec_step, MAX_LIT in *.
  assert (getb inp (zlen code) = Some (zlen l - 1)) as -> by (rewrite Hi; by apply getb_mid).
  sbind. rewrite (proj2 (Z.ltb_lt _ _)) by lia.
  replace (zlen l - 1 + 1) with (zlen l) by lia.
  assert (zlen code + 1 + zlen l <= zlen inp).
  { rewrite Hi, zlen_app, zlen_cons, zlen_app. pose proof (zlen_nonneg tl). lia. }
  rewrite !Z.gtb_ltb, (proj2 (Z.ltb_ge out_end _)), (proj2 (Z.ltb_ge (zlen inp) _)) by lia.
  rewrite zlen_app in Hr. replace (Z.to_nat (zlen l)) with (length l) by (unfold zlen; lia).
  destruct (copy_lit_spec l (code ++ [zlen l - 1]) tl h rest) as (rest' & Hc & Hz);
    [by rewrite Hi, <- app_assoc|lia|].
  rewrite zlen_app in Hc. change (zlen [zlen l - 1]) with 1 in Hc. rewrite Hc. sbind.
  exists rest'. rewrite !zlen_app, zlen_cons. split; [|lia].
  do 2 f_equal; lia.
Qed.

Lemma copied_unique h h1 h2 off n :
  copied h h1 off n -> copied h h2 off n -> 0 <= off -> h1 = h2.
Proof.
  intros [(m1 & -> & H1) C1] [(m2 & -> & H2) C2] Hoff.
  assert (forall k i, 0 <= i -> Z.to_nat i = k -> i < zlen h + n ->
    getb (h ++ m1) i = getb (h ++ m2) i) as Hg.
  { intros k. induction (lt_wf k) as [k _ IH]. intros i Hi Hk Hlt.
    destruct (decide (i < zlen h)) as [|Hge]; [by rewrite !getb_app_l by lia|].
    rewrite C1, C2 by (rewrite zlen_app; lia).
    destruct (decide (0 <= i - off - 1)).
    - apply (IH (Z.to_nat (i - off - 1))); lia.
    - unfold getb. by rewrite !(proj2 (Z.leb_gt _ _)) by lia. }
  apply list_eq. intros i.
  destruct (decide (Z.of_nat i < zlen h + n)) as [|Hge].
  - rewrite <- !getb_lookup. by apply (Hg i); lia.
  - rewrite !lookup_ge_None_2; [done|..]; rewrite length_app; zlia.
Qed.

Lemma ref_bytes_cases off len :
  0 <= off < MAX_OFF -> 1 <= len <= 262 ->
  exists c, (32 <= c) /\ Z.shiftl (Z.land c 31) 8 = off / 256 * 256 /\
    (ref_bytes off len = [c; off mod 256] /\ Z.shiftr c 5 = len /\ len < 7 \/
     ref_bytes off len = [c; len - 7; off mod 256] /\ Z.shiftr c 5 = 7 /\ 7 <= len).
Proof.
  unfold MAX_OFF, ref_bytes. intros Ho Hl.
  assert (0 <= off / 256 < 32) by dlia.
  assert (forall n, 0 <= n -> Z.shiftl (Z.land (off / 256 + n * 32) 31) 8 = off / 256 * 256 /\
    Z.shiftr (off / 256 + n * 32) 5 = n) as Hbits.
  { intros n Hn. change 31 with (Z.ones 5). rewrite Z.land_ones by lia.
    rewrite Z.shiftl_mul_pow2, Z.shiftr_div_pow2 by lia. change (2 ^ 5) with 32.
    by rewrite Z.mod_add, (Z.mod_small (off / 256)), Z.div_add, (Z.div_small (off / 256)) by lia. }
  destruct (Z.ltb_spec len 7).
  - exists (off / 256 + len * 32). destruct (Hbits len) as [-> ->]; [lia|].
    split_and!; [lia|done|]. by left.
  - exists (off / 256 + 224). destruct (Hbits 7) as [H1 H2]; [lia|].
    change (7 * 32) with 224 in *. split_and!; [lia|done|]. right. by split_and!.
Qed.

Lemma dec_step_ref code h h' off len tl rest :
  inp = code ++ ref_bytes off len ++ tl -> 0 <= off < MAX_OFF -> off < zlen h -> 1 <= len <= 262 ->
  copied h h' off (len + 2) -> zlen h' <= out_end -> out_end <= zlen (h ++ rest) ->
  exists rest', dec_step inp (zlen inp) out_end (zlen code) (zlen h) (h ++ rest)
    = Some (DNext (zlen (code ++ ref_bytes off len)) (zlen h') (h' ++ rest')) /\
    zlen (h' ++ rest') = zlen (h ++ rest).
Proof.
  intros Hi Ho Hoh Hl Hc He Hr. pose proof (zlen_nonneg tl).
  assert (zlen h' = zlen h + (len + 2)) as Hh'.
  { destruct Hc as [(m & -> & Hm) _]. rewrite zlen_app. lia. }
  rewrite zlen_app in Hr. pose proof (Z.div_mod off 256 ltac:(lia)) as Hoff.
  pose proof (Z.mod_pos_bound off 256 ltac:(lia)).
  (* the copy *)
  assert (forall ip, exists rest',
    (out ← copy_ref (Z.to_nat (len + 2)) (zlen h - off / 256 * 256 - 1 - off mod 256) (zlen h) (h ++ rest);
     Some (DNext ip (zlen h + len + 2) out)) = Some (DNext ip (zlen h') (h' ++ rest')) /\
    zlen (h' ++ rest') = zlen (h ++ rest)) as Hcopy.
  { intros ip. destruct (copy_ref_spec (Z.to_nat (len + 2)) h rest
      (zlen h - off / 256 * 256 - 1 - off mod 256)) as (m & rest' & -> & Hz & Hcp); [lia|lia|].
    sbind. assert (h ++ m = h') as ->.
    { eapply (copied_unique h); [exact Hcp| |lia].
      replace (zlen h - (zlen h - off / 256 * 256 - 1 - off mod 256) - 1) with off by lia.
      by replace (Z.of_nat (Z.to_nat (len + 2))) with (len + 2) by lia. }
    exists rest'. rewrite !zlen_app. split; [|lia]. do 2 f_equal. lia. }
  destruct (ref_bytes_cases off len Ho Hl) as (c & Hc32 & Hland & [(Hb & Hs & Hlt)|(Hb & Hs & Hge)]);
    rewrite Hb in Hi; rewrite Hb; unfold dec_step;
    (assert (getb inp (zlen code) = Some c) as -> by (rewrite Hi; by apply getb_mid)); sbind;
    rewrite (proj2 (Z.ltb_ge c 32)), Hs, Hland by lia;
    rewrite (Z.geb_leb (zlen code + 1)), (proj2 (Z.leb_gt _ _))
      by (rewrite Hi, zlen_app; cbn [app]; rewrite !zlen_cons; lia).
  - rewrite (proj2 (Z.eqb_neq len 7)) by lia. sbind.
    assert (getb inp (zlen code + 1) = Some (off mod 256)) as ->.
    { rewrite Hi. cbn [app]. rewrite list_snoc_mid. apply getb_mid. by rewrite zlen_app. }
    sbind. rewrite Z.gtb_ltb, (proj2 (Z.ltb_ge _ _)), (proj2 (Z.ltb_ge _ _)) by lia.
    destruct (Hcopy (zlen code + 1 + 1)) as (rest' & -> & Hz). exists rest'.
    rewrite zlen_app, !zlen_cons, zlen_nil. split; [|done]. do 2 f_equal; lia.
  - rewrite (proj2 (Z.eqb_eq 7 7)) by done.
    assert (getb inp (zlen code + 1) = Some (len - 7)) as ->.
    { rewrite Hi. cbn [app]. rewrite list_snoc_mid. apply getb_mid. by rewrite zlen_app. }
    sbind. rewrite Z.geb_leb, (proj2 (Z.leb_gt _ _))
      by (rewrite Hi, zlen_app; cbn [app]; rewrite !zlen_cons; lia).
    replace (7 + (len - 7)) with len by lia.
    assert (getb inp (zlen code + 1 + 1) = Some (off mod 256)) as ->.
    { replace inp with ((code ++ [c; len - 7]) ++ off mod 256 :: tl)
        by (rewrite Hi, <- app_assoc; done).
      apply getb_mid. rewrite zlen_app, !zlen_cons, zlen_nil. lia. }
    sbind. rewrite Z.gtb_ltb, (proj2 (Z.ltb_ge _ _)), (proj2 (Z.ltb_ge _ _)) by lia.
    destruct (Hcopy (zlen code + 1 + 1 + 1)) as (rest' & -> & Hz). exists rest'.
    rewrite zlen_app, !zlen_cons, zlen_nil. split; [|done]. do 2 f_equal; lia.
Qed.

Lemma codes_len code h : codes code h -> zlen h = 0 \/ 0 < zlen code.
Proof.
  destruct 1 as [|code h l _ Hl|code h h' off len _ _ _ Hl _]; [by left|right..];
    rewrite zlen_app; pose proof (zlen_nonneg code).
  - rewrite zlen_cons. lia.
  - unfold ref_bytes. case_match; unfold zlen in *; simpl; lia.
Qed.

(** The loop on a code: [n] turns. *)
Lemma dec_loop_codes code h :
  codes code h -> forall tl out0, inp = code ++ tl -> tl <> [] ->
  zlen h <= out_end <= zlen out0 ->
  exists n rest, (n <= length code)%nat /\ zlen (h ++ rest) = zlen out0 /\
    forall fuel, dec_loop inp (zlen inp) out_end (n + fuel) 0 0 out0
      = dec_loop inp (zlen inp) out_end fuel (zlen code) (zlen h) (h ++ rest).
Proof.
  induction 1 as [|code h l Hc IH Hl|code h h' off len Hc IH Ho Hoh Hl Hcp];
    intros tl out0 Hi Htl Hout.
  { by exists 0%nat, out0. }
  - pose proof (zlen_nonneg l). rewrite <- app_assoc in Hi. rewrite zlen_app in Hout.
    destruct (IH _ out0 Hi) as (n & rest & Hn & Hz & Hrun); [done|lia|].
    destruct (dec_step_lit code h l tl rest) as (rest' & Hstep & Hz'); [done|done|lia|lia|].
    exists (S n), rest'. split_and!.
    + rewrite length_app. simpl. lia.
    + congruence.
    + intros fuel. replace (S n + fuel)%nat with (n + S fuel)%nat by lia. rewrite Hrun.
      cbn [dec_loop]. rewrite Hstep. sbind. rewrite (proj2 (Z.ltb_lt _ _)); [done|].
      rewrite Hi. cbn [app]. destruct tl; [done|]. pose proof (zlen_nonneg tl).
      rewrite !zlen_app, !zlen_cons, zlen_app, zlen_cons. lia.
  - rewrite <- app_assoc in Hi. pose proof Hcp as [(m & Hm & Hzm) _].
    assert (zlen h <= zlen h') by (rewrite Hm, zlen_app; lia).
    destruct (IH _ out0 Hi) as (n & rest & Hn & Hz & Hrun);
      [unfold ref_bytes; by case_match|lia|].
    destruct (dec_step_ref code h h' off len tl rest) as (rest' & Hstep & Hz'); try done; [lia|lia|].
    exists (S n), rest'. split_and!.
    + rewrite length_app. unfold ref_bytes. case_match; simpl; lia.
    + congruence.
    + intros fuel. replace (S n + fuel)%nat with (n + S fuel)%nat by lia. rewrite Hrun.
      cbn [dec_loop]. rewrite Hstep. sbind. rewrite (proj2 (Z.ltb_lt _ _)); [done|].
      rewrite Hi, app_assoc. destruct tl; [done|]. pose proof (zlen_nonneg tl).
      rewrite (zlen_app (code ++ _)), zlen_cons. lia.
Qed.

(** A whole code. *)
Lemma dec_loop_all h out0 :
  codes inp h -> inp <> [] -> zlen h <= out_end <= zlen out0 ->
  exists rest, dec_loop inp (zlen inp) out_end (length inp) 0 0 out0 = Some (zlen h, h ++ rest) /\
    zlen (h ++ rest) = zlen out0.
Proof.
  intros Hc Hne Hout.
  assert (forall code tok h0 h n rest, inp = code ++ tok -> (n <= length code)%nat -> (0 < length tok)%nat ->
    (forall fuel, dec_loop inp (zlen inp) out_end (n + fuel) 0 0 out0
      = dec_loop inp (zlen inp) out_end fuel (zlen code) (zlen h0) (h0 ++ rest)) ->
    (exists rest', dec_step inp (zlen inp) out_end (zlen code) (zlen h0) (h0 ++ rest)
      = Some (DNext (zlen inp) (zlen h) (h ++ rest')) /\ zlen (h ++ rest') = zlen out0) ->
    exists rest, dec_loop inp (zlen inp) out_end (length inp) 0 0 out0 = Some (zlen h, h ++ rest) /\
      zlen (h ++ rest) = zlen out0) as Hlast.
  { intros code tok h0 h1 n rest Hi Hn Ht Hrun (rest' & Hstep & Hz).
    assert (length inp = (n + S (length inp - n - 1))%nat) as ->.
    { rewrite Hi, length_app. lia. }
    rewrite Hrun. cbn [dec_loop]. rewrite Hstep. sbind.
    rewrite (proj2 (Z.ltb_ge _ _)) by lia. by exists rest'. }
  remember inp as c eqn:Ec in Hc.
  destruct Hc as [|code h1 l Hc1 Hl|code h1 h2 off len Hc1 Ho Hoh Hl Hcp].
  - by rewrite <- Ec in Hne.
  - pose proof (zlen_nonneg l). rewrite zlen_app in Hout. symmetry in Ec. rename Ec into E1.
    destruct (dec_loop_codes code h1 Hc1 _ out0 E1) as (n & rest & Hn & Hz & Hrun); [done|lia|].
    apply (Hlast code _ h1 (h1 ++ l) n rest E1 Hn); [simpl; lia|done|].
    destruct (dec_step_lit code h1 l [] rest) as (rest' & Hstep & Hz'); [by rewrite app_nil_r|done|lia|lia|].
    exists rest'. rewrite Hstep, E1. split; [done|congruence].
  - symmetry in Ec. rename Ec into E1. pose proof Hcp as [(m & Hm & Hzm) _].
    assert (zlen h1 <= zlen h2) by (rewrite Hm, zlen_app; lia).
    destruct (dec_loop_codes code h1 Hc1 _ out0 E1) as (n & rest & Hn & Hz & Hrun);
      [unfold ref_bytes; by case_match|lia|].
    apply (Hlast code _ h1 h2 n rest E1 Hn); [unfold ref_bytes; case_match; simpl; lia|done|].
    destruct (dec_step_ref code h1 h2 off len [] rest) as (rest' & Hstep & Hz');
      [by rewrite app_nil_r|done|done|done|done|lia|lia|].
    exists rest'. rewrite Hstep, E1. split; [done|congruence].
Qed.

(** ** Corrupted inputs *)

Definition dstep_ok (ip op : Z) (out : list Z) (r : dstep) : Prop :=
  match r with
  | DNext ip' op' out' => ip < ip' <= zlen inp /\ op <= op' <= out_end /\ zlen out' = zlen out
  | DError out' => zlen out' = zlen out
  end.

Lemma split_at (l : list Z) n : 0 <= n <= zlen l -> exists a b, l = a ++ b /\ zlen a = n.
Proof.
  intros Hn. exists (take (Z.to_nat n) l), (drop (Z.to_nat n) l).
  rewrite take_drop, zlen_take. split; [done|lia].
Qed.

Lemma bytes_getb i b : bytes_ok inp -> getb inp i = Some b -> 0 <= b < 256.
Proof.
  intros Hb Hi. assert (b ∈ inp) as Hin by (apply elem_getb; eauto).
  unfold bytes_ok in Hb. rewrite Forall_forall in Hb. by apply Hb.
Qed.

Lemma dec_step_safe ip op out :
  bytes_ok inp -> 0 <= ip < zlen inp -> 0 <= op <= out_end -> out_end <= zlen out ->
  exists r, dec_step inp (zlen inp) out_end ip op out = Some r /\ dstep_ok ip op out r.
Proof.
  intros Hbytes Hip Hop Hout. unfold dec_step.
  destruct (getb_is_Some inp ip Hip) as [c Hc]. pose proof (bytes_getb _ _ Hbytes Hc) as Hcr.
  rewrite Hc. sbind. rewrite !Z.gtb_ltb, !Z.geb_leb.
  destruct (split_at out op) as (h & rest & -> & <-); [lia|]. rewrite zlen_app in Hout.
  destruct (Z.ltb_spec c 32) as [Hlit|Href].
  - destruct (Z.ltb_spec out_end (zlen h + (c + 1))); [by eexists|].
    destruct (Z.ltb_spec (zlen inp) (ip + 1 + (c + 1))); [by eexists|].
    destruct (split_at inp (ip + 1)) as (code & k & Hi & Hz); [lia|].
    destruct (split_at k (c + 1)) as (l & tl & -> & Hzl).
    { rewrite Hi, zlen_app in *. lia. }
    destruct (copy_lit_spec l code tl h rest Hi) as (rest' & Hcopy & Hr); [lia|].
    rewrite Hz in Hcopy. replace (Z.to_nat (c + 1)) with (length l) by (unfold zlen in *; lia).
    rewrite Hcopy. sbind. eexists. split; [done|]. cbn [dstep_ok]. rewrite !zlen_app. lia.
  - assert (1 <= Z.shiftr c 5 <= 7) as Hlen by (rewrite Z.shiftr_div_pow2 by lia; change (2 ^ 5) with 32; dlia).
    assert (0 <= Z.shiftl (Z.land c 31) 8) as Hoff.
    { apply Z.shiftl_nonneg, Z.land_nonneg. lia. }
    destruct (Z.leb_spec (zlen inp) (ip + 1)); [by eexists|].
    (* after the length *)
    assert (forall len ip1, ip < ip1 < zlen inp -> 1 <= len ->
      exists r, (b ← getb inp ip1;
        if zlen h + len + 2 >? out_end then Some (DError (h ++ rest))
        else if zlen h - Z.shiftl (Z.land c 31) 8 - 1 - b <? 0 then Some (DError (h ++ rest))
        else
          out ← copy_ref (Z.to_nat (len + 2)) (zlen h - Z.shiftl (Z.land c 31) 8 - 1 - b) (zlen h) (h ++ rest);
          Some (DNext (ip1 + 1) (zlen h + len + 2) out)) = Some r /\ dstep_ok ip (zlen h) (h ++ rest) r) as Hcopy.
    { intros len ip1 Hip1 Hl. destruct (getb_is_Some inp ip1) as [b Hb]; [lia|].
      pose proof (bytes_getb _ _ Hbytes Hb). rewrite Hb. sbind. rewrite Z.gtb_ltb.
      destruct (Z.ltb_spec out_end (zlen h + len + 2)); [by eexists|].
      destruct (Z.ltb_spec (zlen h - Z.shiftl (Z.land c 31) 8 - 1 - b) 0); [by eexists|].
      destruct (copy_ref_spec (Z.to_nat (len + 2)) h rest (zlen h - Z.shiftl (Z.land c 31) 8 - 1 - b))
        as (m & rest' & -> & Hz & [(m' & Hmm & Hm) _]); [lia|lia|].
      apply app_inv_head in Hmm. subst m'.
      sbind. eexists. split; [done|]. cbn [dstep_ok]. rewrite !zlen_app. lia. }
    destruct (Z.eqb_spec (Z.shiftr c 5) 7) as [E7|_].
    + destruct (getb_is_Some inp (ip + 1)) as [b Hb]; [lia|]. pose proof (bytes_getb _ _ Hbytes Hb).
      rewrite Hb. sbind. destruct (Z.leb_spec (zlen inp) (ip + 1 + 1)); [by eexists|].
      apply Hcopy; lia.
    + sbind. apply Hcopy; lia.
Qed.

Lemma dec_loop_safe fuel : forall ip op out,
  bytes_ok inp -> 0 <= ip < zlen inp -> 0 <= op <= out_end -> out_end <= zlen out ->
  zlen inp - ip <= Z.of_nat fuel ->
  exists n out', dec_loop inp (zlen inp) out_end fuel ip op out = Some (n, out') /\
    0 <= n <= out_end /\ zlen out' = zlen out.
Proof.
  induction fuel as [|fuel IH]; intros ip op out Hb Hip Hop Hout Hf; [lia|]. cbn [dec_loop].
  destruct (dec_step_safe ip op out) as (r & -> & Hr); try done. sbind.
  destruct r as [ip' op' out'|out']; simpl in Hr.
  - destruct Hr as (H1 & H2 & H3). destruct (Z.ltb_spec ip' (zlen inp)).
    + destruct (IH ip' op' out') as (n & out2 & Hd & Hn & Hz); try done; [lia..|].
      exists n, out2. split_and!; [done|lia|lia|congruence].
    + exists op', out'. split_and!; [done|lia|lia|done].
  - exists 0, out'. split_and!; [done|lia|lia|done].
Qed.

End DecompressProof.

(** Only the values of the hash table matter. *)
Lemma comp_loop_ext inp oe junk junk' fuel :
  (forall h, junk h = junk' h) ->
  forall s, comp_loop inp oe junk fuel s = comp_loop inp oe junk' fuel s.
Proof.
  intros Hj. induction fuel as [|fuel IH]; intros s; cbn [comp_loop]; [done|].
  case_match; [|done].
  assert (comp_step inp oe junk s = comp_step inp oe junk' s) as ->.
  { unfold comp_step. apply option_bind_ext_fun. intros h. by rewrite Hj. }
  destruct (comp_step inp oe junk' s) as [[s'|s'|out]|]; sbind; [apply IH|reflexivity..].
Qed.

Lemma lzf_compress_ext inp out out_len junk junk' :
  (forall h, junk h = junk' h) ->
  lzf_compress inp out out_len junk = lzf_compress inp out out_len junk'.
Proof.
  intros Hj. unfold lzf_compress. case_match; [done|]. apply option_bind_ext_fun. intros h.
  by rewrite (comp_loop_ext _ _ junk junk' _ Hj).
Qed.

(** ** Properties *)

(** C4 (roundtrip, safety): [lzf_compress], whatever its uninitialised hash table
    holds, stays in the input and in the output buffer (when that has one byte
    more than [out_len], as rdb.c allocates it), and returns 0 or the length of
    an output of at most [out_len] bytes from which [lzf_decompress] gives the
    input back. *)
Theorem lzf_roundtrip (inp out dst : list Z) (out_len : Z) (junk : Z -> Z) :
  2 <= zlen inp < 2 ^ 32 -> 0 <= out_len -> out_len + 1 <= zlen out -> junk_ok junk ->
  zlen inp <= zlen dst ->
  exists n out', lzf_compress inp out out_len junk = Some (n, out') /\ 0 <= n <= out_len /\
    (n <> 0 -> exists rest,
       lzf_decompress (take (Z.to_nat n) out') n dst (zlen inp) = Some (zlen inp, inp ++ rest)).
Proof.
  intros Hin H0 Hout Hj Hdst.
  destruct (lzf_compress_spec inp out out_len junk) as (n & out' & Hc & Hz & Hn & Hcodes); try done; [lia|].
  exists n, out'. split_and!; [done|lia|lia|]. intros Hne. specialize (Hcodes Hne).
  set (code := take (Z.to_nat n) out') in *.
  assert (zlen code = n) as Hzc by (subst code; rewrite zlen_take; lia).
  destruct (dec_loop_all code (zlen inp) inp dst Hcodes) as (rest & Hd & _); [|lia|].
  { intros E. rewrite E in Hzc. by rewrite <- Hzc in Hne. }
  exists rest. unfold lzf_decompress. by rewrite <- Hzc.
Qed.

Lemma lzf_roundtrip_witness :
  exists n out', lzf_compress (concat (repeat [97; 98; 99] 8)) (repeat 0 21) 20 (fun _ => 5)
    = Some (n, out') /\ n = 10 /\
    exists rest, lzf_decompress (take 10 out') 10 (repeat 0 24) 24 =
      Some (24, concat (repeat [97; 98; 99] 8) ++ rest).
Proof.
  destruct (lzf_roundtrip (concat (repeat [97; 98; 99] 8)) (repeat 0 21) (repeat 0 24) 20 (fun _ => 5))
    as (n & out' & Hc & _ & Hd).
  - vm_compute. split; [discriminate|reflexivity].
  - discriminate.
  - vm_compute. discriminate.
  - intros h. split; reflexivity.
  - vm_compute. discriminate.
  - exists n, out'. split; [exact Hc|].
    assert (n = 10) as -> by (vm_compute in Hc; injection Hc as <- _; reflexivity).
    split; [reflexivity|]. apply Hd. discriminate.
Defined.

(** C17 (safety, termination): on any non-empty input, corrupted or not,
    [lzf_decompress] ends, never reads outside of the input nor touches a byte
    outside of the output buffer, and returns at most its length. *)
Theorem lzf_decompress_safe (inp dst : list Z) (out_len : Z) :
  bytes_ok inp -> inp <> [] -> 0 <= out_len <= zlen dst ->
  exists n dst', lzf_decompress inp (zlen inp) dst out_len = Some (n, dst') /\
    0 <= n <= out_len /\ zlen dst' = zlen dst.
Proof.
  intros Hb Hne Hout. apply dec_loop_safe; try done; [|lia..|unfold zlen; lia].
  destruct inp; [done|]. rewrite zlen_cons. pose proof (zlen_nonneg inp). lia.
Qed.

Lemma lzf_decompress_safe_witness :
  exists n dst', lzf_decompress [255; 255; 255; 3; 9] 5 [1; 2; 3] 3 = Some (n, dst') /\ 0 <= n <= 3.
Proof.
  destruct (lzf_decompress_safe [255; 255; 255; 3; 9] [1; 2; 3] 3) as (n & dst' & Hd & Hn & _).
  - repeat constructor; discriminate.
  - discriminate.
  - split; discriminate.
  - exists n, dst'. split; [exact Hd|exact Hn].
Defined.

(** The extra byte is necessary.  When a full run of literals ends at
    the last byte of the output and a match follows, [op\[-lit-1\] = lit-1] is
    executed before the test of the room left: with a buffer of [out_len] bytes
    it writes one byte after the end. *)
Theorem lzf_compress_overrun (junk : Z -> Z) :
  (forall h, junk h = 0) ->
  let inp := (Z.of_nat <$> seq 0 32) ++ (Z.of_nat <$> seq 1 8) in
  lzf_compress inp (repeat 0 33) 33 junk = None /\
  exists out', lzf_compress inp (repeat 0 34) 33 junk = Some (0, out').
Proof.
  intros Hj inp.
  rewrite !(lzf_compress_ext inp _ _ junk (fun _ => 0) Hj).
  split; [vm_compute; reflexivity|].
  eexists. vm_compute. reflexivity.
Qed.

Lemma lzf_compress_overrun_witness :
  lzf_compress ((Z.of_nat <$> seq 0 32) ++ (Z.of_nat <$> seq 1 8)) (repeat 0 33) 33 (fun _ => 0) = None.
Proof. apply (lzf_compress_overrun (fun _ => 0)). reflexivity. Defined.
