(* ===== verification/Crc.v ===== *)
(** * crc16.c, crc64.c: the checksums of cluster slots and of RDB files

    The table-driven functions, against the division of polynomials that the
    comments of the files name. *)

From Stdlib Require Import ZArith Lia String.
From stdpp Require Import base numbers list.
From S2P Require Import Prelude.

Open Scope Z_scope.

(** ** crc16.c *)

Definition crc16tab : list Z := Eval vm_compute in
  [0x0000; 0x1021; 0x2042; 0x3063; 0x4084; 0x50a5; 0x60c6; 0x70e7;
   0x8108; 0x9129; 0xa14a; 0xb16b; 0xc18c; 0xd1ad; 0xe1ce; 0xf1ef;
   0x1231; 0x0210; 0x3273; 0x2252; 0x52b5; 0x4294; 0x72f7; 0x62d6;
   0x9339; 0x8318; 0xb37b; 0xa35a; 0xd3bd; 0xc39c; 0xf3ff; 0xe3de;
   0x2462; 0x3443; 0x0420; 0x1401; 0x64e6; 0x74c7; 0x44a4; 0x5485;
   0xa56a; 0xb54b; 0x8528; 0x9509; 0xe5ee; 0xf5cf; 0xc5ac; 0xd58d;
   0x3653; 0x2672; 0x1611; 0x0630; 0x76d7; 0x66f6; 0x5695; 0x46b4;
   0xb75b; 0xa77a; 0x9719; 0x8738; 0xf7df; 0xe7fe; 0xd79d; 0xc7bc;
   0x48c4; 0x58e5; 0x6886; 0x78a7; 0x0840; 0x1861; 0x2802; 0x3823;
   0xc9cc; 0xd9ed; 0xe98e; 0xf9af; 0x8948; 0x9969; 0xa90a; 0xb92b;
   0x5af5; 0x4ad4; 0x7ab7; 0x6a96; 0x1a71; 0x0a50; 0x3a33; 0x2a12;
   0xdbfd; 0xcbdc; 0xfbbf; 0xeb9e; 0x9b79; 0x8b58; 0xbb3b; 0xab1a;
   0x6ca6; 0x7c87; 0x4ce4; 0x5cc5; 0x2c22; 0x3c03; 0x0c60; 0x1c41;
   0xedae; 0xfd8f; 0xcdec; 0xddcd; 0xad2a; 0xbd0b; 0x8d68; 0x9d49;
   0x7e97; 0x6eb6; 0x5ed5; 0x4ef4; 0x3e13; 0x2e32; 0x1e51; 0x0e70;
   0xff9f; 0xefbe; 0xdfdd; 0xcffc; 0xbf1b; 0xaf3a; 0x9f59; 0x8f78;
   0x9188; 0x81a9; 0xb1ca; 0xa1eb; 0xd10c; 0xc12d; 0xf14e; 0xe16f;
   0x1080; 0x00a1; 0x30c2; 0x20e3; 0x5004; 0x4025; 0x7046; 0x6067;
   0x83b9; 0x9398; 0xa3fb; 0xb3da; 0xc33d; 0xd31c; 0xe37f; 0xf35e;
   0x02b1; 0x1290; 0x22f3; 0x32d2; 0x4235; 0x5214; 0x6277; 0x7256;
   0xb5ea; 0xa5cb; 0x95a8; 0x8589; 0xf56e; 0xe54f; 0xd52c; 0xc50d;
   0x34e2; 0x24c3; 0x14a0; 0x0481; 0x7466; 0x6447; 0x5424; 0x4405;
   0xa7db; 0xb7fa; 0x8799; 0x97b8; 0xe75f; 0xf77e; 0xc71d; 0xd73c;
   0x26d3; 0x36f2; 0x0691; 0x16b0; 0x6657; 0x7676; 0x4615; 0x5634;
   0xd94c; 0xc96d; 0xf90e; 0xe92f; 0x99c8; 0x89e9; 0xb98a; 0xa9ab;
   0x5844; 0x4865; 0x7806; 0x6827; 0x18c0; 0x08e1; 0x3882; 0x28a3;
   0xcb7d; 0xdb5c; 0xeb3f; 0xfb1e; 0x8bf9; 0x9bd8; 0xabbb; 0xbb9a;
   0x4a75; 0x5a54; 0x6a37; 0x7a16; 0x0af1; 0x1ad0; 0x2ab3; 0x3a92;
   0xfd2e; 0xed0f; 0xdd6c; 0xcd4d; 0xbdaa; 0xad8b; 0x9de8; 0x8dc9;
   0x7c26; 0x6c07; 0x5c64; 0x4c45; 0x3ca2; 0x2c83; 0x1ce0; 0x0cc1;
   0xef1f; 0xff3e; 0xcf5d; 0xdf7c; 0xaf9b; 0xbfba; 0x8fd9; 0x9ff8;
   0x6e17; 0x7e36; 0x4e55; 0x5e74; 0x2e93; 0x3eb2; 0x0ed1; 0x1ef0].

(** The loop of [crc16]; [None]: a read outside of the table. *)
Fixpoint crc16_loop (buf : list Z) (crc : Z) : option Z :=
  match buf with
  | [] => Some crc
  | b :: buf =>
      t ← getb crc16tab (Z.land (Z.lxor (Z.shiftr crc 8) b) 255);
      crc16_loop buf (u16 (Z.lxor (Z.shiftl crc 8) t))
  end.

Definition crc16 (buf : list Z) : option Z := crc16_loop buf 0.

(** ** crc64.c *)

Definition crc64_tab : list Z := Eval vm_compute in
  [0x0000000000000000; 0x7ad870c830358979; 0xf5b0e190606b12f2; 0x8f689158505e9b8b;
   0xc038e5739841b68f; 0xbae095bba8743ff6; 0x358804e3f82aa47d; 0x4f50742bc81f2d04;
   0xab28ecb46814fe75; 0xd1f09c7c5821770c; 0x5e980d24087fec87; 0x24407dec384a65fe;
   0x6b1009c7f05548fa; 0x11c8790fc060c183; 0x9ea0e857903e5a08; 0xe478989fa00bd371;
   0x7d08ff3b88be6f81; 0x07d08ff3b88be6f8; 0x88b81eabe8d57d73; 0xf2606e63d8e0f40a;
   0xbd301a4810ffd90e; 0xc7e86a8020ca5077; 0x4880fbd87094cbfc; 0x32588b1040a14285;
   0xd620138fe0aa91f4; 0xacf86347d09f188d; 0x2390f21f80c18306; 0x594882d7b0f40a7f;
   0x1618f6fc78eb277b; 0x6cc0863448deae02; 0xe3a8176c18803589; 0x997067a428b5bcf0;
   0xfa11fe77117cdf02; 0x80c98ebf2149567b; 0x0fa11fe77117cdf0; 0x75796f2f41224489;
   0x3a291b04893d698d; 0x40f16bccb908e0f4; 0xcf99fa94e9567b7f; 0xb5418a5cd963f206;
   0x513912c379682177; 0x2be1620b495da80e; 0xa489f35319033385; 0xde51839b2936bafc;
   0x9101f7b0e12997f8; 0xebd98778d11c1e81; 0x64b116208142850a; 0x1e6966e8b1770c73;
   0x8719014c99c2b083; 0xfdc17184a9f739fa; 0x72a9e0dcf9a9a271; 0x08719014c99c2b08;
   0x4721e43f0183060c; 0x3df994f731b68f75; 0xb29105af61e814fe; 0xc849756751dd9d87;
   0x2c31edf8f1d64ef6; 0x56e99d30c1e3c78f; 0xd9810c6891bd5c04; 0xa3597ca0a188d57d;
   0xec09088b6997f879; 0x96d1784359a27100; 0x19b9e91b09fcea8b; 0x636199d339c963f2;
   0xdf7adabd7a6e2d6f; 0xa5a2aa754a5ba416; 0x2aca3b2d1a053f9d; 0x50124be52a30b6e4;
   0x1f423fcee22f9be0; 0x659a4f06d21a1299; 0xeaf2de5e82448912; 0x902aae96b271006b;
   0x74523609127ad31a; 0x0e8a46c1224f5a63; 0x81e2d7997211c1e8; 0xfb3aa75142244891;
   0xb46ad37a8a3b6595; 0xceb2a3b2ba0eecec; 0x41da32eaea507767; 0x3b024222da65fe1e;
   0xa2722586f2d042ee; 0xd8aa554ec2e5cb97; 0x57c2c41692bb501c; 0x2d1ab4dea28ed965;
   0x624ac0f56a91f461; 0x1892b03d5aa47d18; 0x97fa21650afae693; 0xed2251ad3acf6fea;
   0x095ac9329ac4bc9b; 0x7382b9faaaf135e2; 0xfcea28a2faafae69; 0x8632586aca9a2710;
   0xc9622c4102850a14; 0xb3ba5c8932b0836d; 0x3cd2cdd162ee18e6; 0x460abd1952db919f;
   0x256b24ca6b12f26d; 0x5fb354025b277b14; 0xd0dbc55a0b79e09f; 0xaa03b5923b4c69e6;
   0xe553c1b9f35344e2; 0x9f8bb171c366cd9b; 0x10e3202993385610; 0x6a3b50e1a30ddf69;
   0x8e43c87e03060c18; 0xf49bb8b633338561; 0x7bf329ee636d1eea; 0x012b592653589793;
   0x4e7b2d0d9b47ba97; 0x34a35dc5ab7233ee; 0xbbcbcc9dfb2ca865; 0xc113bc55cb19211c;
   0x5863dbf1e3ac9dec; 0x22bbab39d3991495; 0xadd33a6183c78f1e; 0xd70b4aa9b3f20667;
   0x985b3e827bed2b63; 0xe2834e4a4bd8a21a; 0x6debdf121b863991; 0x1733afda2bb3b0e8;
   0xf34b37458bb86399; 0x8993478dbb8deae0; 0x06fbd6d5ebd3716b; 0x7c23a61ddbe6f812;
   0x3373d23613f9d516; 0x49aba2fe23cc5c6f; 0xc6c333a67392c7e4; 0xbc1b436e43a74e9d;
   0x95ac9329ac4bc9b5; 0xef74e3e19c7e40cc; 0x601c72b9cc20db47; 0x1ac40271fc15523e;
   0x5594765a340a7f3a; 0x2f4c0692043ff643; 0xa02497ca54616dc8; 0xdafce7026454e4b1;
   0x3e847f9dc45f37c0; 0x445c0f55f46abeb9; 0xcb349e0da4342532; 0xb1eceec59401ac4b;
   0xfebc9aee5c1e814f; 0x8464ea266c2b0836; 0x0b0c7b7e3c7593bd; 0x71d40bb60c401ac4;
   0xe8a46c1224f5a634; 0x927c1cda14c02f4d; 0x1d148d82449eb4c6; 0x67ccfd4a74ab3dbf;
   0x289c8961bcb410bb; 0x5244f9a98c8199c2; 0xdd2c68f1dcdf0249; 0xa7f41839ecea8b30;
   0x438c80a64ce15841; 0x3954f06e7cd4d138; 0xb63c61362c8a4ab3; 0xcce411fe1cbfc3ca;
   0x83b465d5d4a0eece; 0xf96c151de49567b7; 0x76048445b4cbfc3c; 0x0cdcf48d84fe7545;
   0x6fbd6d5ebd3716b7; 0x15651d968d029fce; 0x9a0d8ccedd5c0445; 0xe0d5fc06ed698d3c;
   0xaf85882d2576a038; 0xd55df8e515432941; 0x5a3569bd451db2ca; 0x20ed197575283bb3;
   0xc49581ead523e8c2; 0xbe4df122e51661bb; 0x3125607ab548fa30; 0x4bfd10b2857d7349;
   0x04ad64994d625e4d; 0x7e7514517d57d734; 0xf11d85092d094cbf; 0x8bc5f5c11d3cc5c6;
   0x12b5926535897936; 0x686de2ad05bcf04f; 0xe70573f555e26bc4; 0x9ddd033d65d7e2bd;
   0xd28d7716adc8cfb9; 0xa85507de9dfd46c0; 0x273d9686cda3dd4b; 0x5de5e64efd965432;
   0xb99d7ed15d9d8743; 0xc3450e196da80e3a; 0x4c2d9f413df695b1; 0x36f5ef890dc31cc8;
   0x79a59ba2c5dc31cc; 0x037deb6af5e9b8b5; 0x8c157a32a5b7233e; 0xf6cd0afa9582aa47;
   0x4ad64994d625e4da; 0x300e395ce6106da3; 0xbf66a804b64ef628; 0xc5bed8cc867b7f51;
   0x8aeeace74e645255; 0xf036dc2f7e51db2c; 0x7f5e4d772e0f40a7; 0x05863dbf1e3ac9de;
   0xe1fea520be311aaf; 0x9b26d5e88e0493d6; 0x144e44b0de5a085d; 0x6e963478ee6f8124;
   0x21c640532670ac20; 0x5b1e309b16452559; 0xd476a1c3461bbed2; 0xaeaed10b762e37ab;
   0x37deb6af5e9b8b5b; 0x4d06c6676eae0222; 0xc26e573f3ef099a9; 0xb8b627f70ec510d0;
   0xf7e653dcc6da3dd4; 0x8d3e2314f6efb4ad; 0x0256b24ca6b12f26; 0x788ec2849684a65f;
   0x9cf65a1b368f752e; 0xe62e2ad306bafc57; 0x6946bb8b56e467dc; 0x139ecb4366d1eea5;
   0x5ccebf68aecec3a1; 0x2616cfa09efb4ad8; 0xa97e5ef8cea5d153; 0xd3a62e30fe90582a;
   0xb0c7b7e3c7593bd8; 0xca1fc72bf76cb2a1; 0x45775673a732292a; 0x3faf26bb9707a053;
   0x70ff52905f188d57; 0x0a2722586f2d042e; 0x854fb3003f739fa5; 0xff97c3c80f4616dc;
   0x1bef5b57af4dc5ad; 0x61372b9f9f784cd4; 0xee5fbac7cf26d75f; 0x9487ca0fff135e26;
   0xdbd7be24370c7322; 0xa10fceec0739fa5b; 0x2e675fb4576761d0; 0x54bf2f7c6752e8a9;
   0xcdcf48d84fe75459; 0xb71738107fd2dd20; 0x387fa9482f8c46ab; 0x42a7d9801fb9cfd2;
   0x0df7adabd7a6e2d6; 0x772fdd63e7936baf; 0xf8474c3bb7cdf024; 0x829f3cf387f8795d;
   0x66e7a46c27f3aa2c; 0x1c3fd4a417c62355; 0x935745fc4798b8de; 0xe98f353477ad31a7;
   0xa6df411fbfb21ca3; 0xdc0731d78f8795da; 0x536fa08fdfd90e51; 0x29b7d047efec8728].

Fixpoint crc64 (crc : Z) (s : list Z) : option Z :=
  match s with
  | [] => Some crc
  | byte :: s =>
      t ← getb crc64_tab (Z.lxor (u8 crc) byte);
      crc64 (Z.lxor t (Z.shiftr crc 8)) s
  end.

(** ** cluster.c: the hash slot of a key *)

(** [for (s = ...; s < keylen; s++) if (key\[s\] == c) break]. *)
Fixpoint find_char (fuel : nat) (key : list Z) (c s : Z) : option Z :=
  if s <? zlen key then
    match fuel with
    | O => None
    | S fuel =>
        b ← getb key s;
        if b =? c then Some s else find_char fuel key c (s + 1)
    end
  else Some s.

Definition keyHashSlot (key : list Z) : option Z :=
  s ← find_char (length key) key 123 0;
  if s =? zlen key then h ← crc16 key; Some (Z.land h 16383)
  else
    e ← find_char (length key) key 125 (s + 1);
    if (e =? zlen key) || (e =? s + 1) then h ← crc16 key; Some (Z.land h 16383)
    else
      tag ← load key (s + 1) (e - s - 1);
      h ← crc16 tag; Some (Z.land h 16383).

(** ** Reference: division of polynomials over GF(2) *)

(** CRC-16/XMODEM: polynomial 0x1021, most significant bit first. *)
Definition crc16_bit (x : Z) : Z :=
  if Z.testbit x 15 then Z.lxor (u16 (Z.shiftl x 1)) 4129 else u16 (Z.shiftl x 1).
Definition crc16_byte (crc b : Z) : Z := Nat.iter 8 crc16_bit (Z.lxor crc (Z.shiftl b 8)).
Definition crc16_ref (buf : list Z) : Z := foldl crc16_byte 0 buf.

(** CRC-64 of Jones: polynomial 0xad93d23594c935a9, least significant bit first. *)
Definition crc64_poly : Z := Eval vm_compute in
  foldl (fun r i => if Z.testbit 0xad93d23594c935a9 (Z.of_nat i) then Z.setbit r (63 - Z.of_nat i) else r)
    0 (seq 0 64).
Definition crc64_bit (x : Z) : Z :=
  if Z.testbit x 0 then Z.lxor (Z.shiftr x 1) crc64_poly else Z.shiftr x 1.
Definition crc64_byte (crc b : Z) : Z := Nat.iter 8 crc64_bit (Z.lxor crc b).

(** ** The tables *)

Lemma lxor_shuffle a b p q : Z.lxor (Z.lxor a p) (Z.lxor b q) = Z.lxor (Z.lxor a b) (Z.lxor p q).
Proof.
  rewrite <- !Z.lxor_assoc. f_equal. rewrite !Z.lxor_assoc. f_equal. apply Z.lxor_comm.
Qed.

Lemma uwrap_lxor w a b : 0 <= w -> uwrap w (Z.lxor a b) = Z.lxor (uwrap w a) (uwrap w b).
Proof.
  intros Hw. unfold uwrap. rewrite <- !Z.land_ones by lia.
  apply Z.bits_inj'. intros i Hi. rewrite !Z.land_spec, !Z.lxor_spec, !Z.land_spec.
  destruct (Z.testbit a i), (Z.testbit b i), (Z.testbit (Z.ones w) i); done.
Qed.

Lemma lxor_range w a b : 0 < w -> 0 <= a < 2 ^ w -> 0 <= b < 2 ^ w -> 0 <= Z.lxor a b < 2 ^ w.
Proof.
  intros Hw Ha Hb. assert (Z.lxor a b = uwrap w (Z.lxor a b)) as ->.
  { rewrite uwrap_lxor, !uwrap_small by lia. done. }
  apply uwrap_range. lia.
Qed.

Lemma u16_lxor a b : u16 (Z.lxor a b) = Z.lxor (u16 a) (u16 b).
Proof. by apply uwrap_lxor. Qed.

(** Both bit steps are linear. *)
Lemma crc16_bit_lxor x y : crc16_bit (Z.lxor x y) = Z.lxor (crc16_bit x) (crc16_bit y).
Proof.
  unfold crc16_bit. rewrite Z.lxor_spec, Z.shiftl_lxor, u16_lxor.
  set (a := u16 (Z.shiftl x 1)). set (b := u16 (Z.shiftl y 1)).
  destruct (Z.testbit x 15), (Z.testbit y 15); simpl xorb; cbv iota.
  - by rewrite lxor_shuffle, Z.lxor_nilpotent, Z.lxor_0_r.
  - rewrite !Z.lxor_assoc. f_equal. apply Z.lxor_comm.
  - by rewrite Z.lxor_assoc.
  - done.
Qed.

Lemma crc64_bit_lxor x y : crc64_bit (Z.lxor x y) = Z.lxor (crc64_bit x) (crc64_bit y).
Proof.
  unfold crc64_bit. rewrite Z.lxor_spec, Z.shiftr_lxor.
  set (a := Z.shiftr x 1). set (b := Z.shiftr y 1).
  destruct (Z.testbit x 0), (Z.testbit y 0); simpl xorb; cbv iota.
  - by rewrite lxor_shuffle, Z.lxor_nilpotent, Z.lxor_0_r.
  - rewrite !Z.lxor_assoc. f_equal. apply Z.lxor_comm.
  - by rewrite Z.lxor_assoc.
  - done.
Qed.

Lemma iter_lxor (f : Z -> Z) :
  (forall x y, f (Z.lxor x y) = Z.lxor (f x) (f y)) ->
  forall n x y, Nat.iter n f (Z.lxor x y) = Z.lxor (Nat.iter n f x) (Nat.iter n f y).
Proof. intros Hf n x y. induction n as [|n IH]; simpl; [done|]. by rewrite IH, Hf. Qed.

(** What eight steps do to a byte at either end of the register. *)
Lemma crc16_table b :
  0 <= b < 256 ->
  getb crc16tab b = Some (Nat.iter 8 crc16_bit (Z.shiftl b 8)) /\
  Nat.iter 8 crc16_bit b = Z.shiftl b 8.
Proof.
  intros Hb.
  assert (forallb (fun n => bool_decide (getb crc16tab (Z.of_nat n)
      = Some (Nat.iter 8 crc16_bit (Z.shiftl (Z.of_nat n) 8))) &&
    (Nat.iter 8 crc16_bit (Z.of_nat n) =? Z.shiftl (Z.of_nat n) 8)) (seq 0 256) = true) as Hall
    by (vm_compute; reflexivity).
  rewrite forallb_forall in Hall. specialize (Hall (Z.to_nat b)).
  rewrite Z2Nat.id in Hall by lia.
  destruct (andb_prop _ _ (Hall ltac:(apply in_seq; lia))) as [H1 H2].
  split; [by apply bool_decide_eq_true in H1|by apply Z.eqb_eq].
Qed.

Lemma crc64_table b :
  0 <= b < 256 -> getb crc64_tab b = Some (Nat.iter 8 crc64_bit b).
Proof.
  intros Hb.
  assert (forallb (fun n => bool_decide (getb crc64_tab (Z.of_nat n)
      = Some (Nat.iter 8 crc64_bit (Z.of_nat n)))) (seq 0 256) = true) as Hall
    by (vm_compute; reflexivity).
  rewrite forallb_forall in Hall. specialize (Hall (Z.to_nat b)).
  rewrite Z2Nat.id in Hall by lia.
  specialize (Hall ltac:(apply in_seq; lia)). by apply bool_decide_eq_true in Hall.
Qed.

Lemma crc64_bit_even x : crc64_bit (Z.shiftl x 1) = x.
Proof.
  unfold crc64_bit. rewrite Z.shiftl_spec_low by lia.
  rewrite Z.shiftr_shiftl_l by lia. apply Z.shiftl_0_r.
Qed.

Lemma crc64_shift x : Nat.iter 8 crc64_bit (Z.shiftl x 8) = x.
Proof.
  assert (forall n x, Nat.iter n crc64_bit (Z.shiftl x (Z.of_nat n)) = x) as H.
  { induction n as [|n IH]; intros y; [apply Z.shiftl_0_r|].
    rewrite Nat.iter_succ_r. replace (Z.of_nat (S n)) with (Z.of_nat n + 1) by lia.
    rewrite <- Z.shiftl_shiftl by lia. rewrite crc64_bit_even. apply IH. }
  apply (H 8%nat).
Qed.

(** A register is a byte and the rest. *)
Lemma split_low x : x = Z.lxor (Z.shiftl (Z.shiftr x 8) 8) (u8 x).
Proof.
  unfold uwrap. rewrite <- Z.land_ones by lia. apply Z.bits_inj'. intros i Hi.
  rewrite Z.lxor_spec, Z.land_spec. destruct (decide (i < 8)).
  - rewrite Z.shiftl_spec_low, Z.ones_spec_low by lia. by rewrite andb_true_r.
  - rewrite Z.shiftl_spec, Z.shiftr_spec, Z.ones_spec_high by lia.
    rewrite andb_false_r, xorb_false_r. f_equal. lia.
Qed.

Lemma lxor_byte a b : 0 <= a < 256 -> 0 <= b < 256 -> 0 <= Z.lxor a b < 256.
Proof. apply (lxor_range 8). lia. Qed.

Lemma crc16_step crc b :
  0 <= crc < 65536 -> is_byte b ->
  exists t, getb crc16tab (Z.land (Z.lxor (Z.shiftr crc 8) b) 255) = Some t /\
    u16 (Z.lxor (Z.shiftl crc 8) t) = crc16_byte crc b /\ 0 <= crc16_byte crc b < 65536.
Proof.
  intros Hc Hb. assert (0 <= Z.shiftr crc 8 < 256) as Hs.
  { rewrite Z.shiftr_div_pow2 by lia. change (2 ^ 8) with 256. dlia. }
  pose proof (lxor_byte _ _ Hs Hb) as Hx. set (x := Z.lxor (Z.shiftr crc 8) b) in *.
  assert (Z.land x 255 = x) as ->.
  { change 255 with (Z.ones 8). rewrite Z.land_ones by lia. by apply Z.mod_small. }
  destruct (crc16_table x Hx) as [-> _]. eexists. split; [done|].
  assert (u16 (Z.lxor (Z.shiftl crc 8) (Nat.iter 8 crc16_bit (Z.shiftl x 8))) = crc16_byte crc b) as E.
  { unfold crc16_byte.
    assert (Z.lxor crc (Z.shiftl b 8) = Z.lxor (Z.shiftl x 8) (u8 crc)) as ->.
    { rewrite (split_low crc) at 1. subst x. rewrite Z.shiftl_lxor.
      rewrite !Z.lxor_assoc. f_equal. apply Z.lxor_comm. }
    rewrite (iter_lxor _ crc16_bit_lxor).
    destruct (crc16_table (u8 crc)) as [_ ->]; [apply uwrap_range; lia|].
    rewrite u16_lxor, Z.lxor_comm. f_equal.
    - simpl Nat.iter. unfold crc16_bit at 1. 
      assert (forall y, u16 (crc16_bit y) = crc16_bit y) as Hid.
      { intros y. unfold crc16_bit.
        assert (u16 (u16 (Z.shiftl y 1)) = u16 (Z.shiftl y 1)) as Hu by (apply Z.mod_mod; lia).
        case_match; [|done]. rewrite u16_lxor, Hu. done. }
      apply Hid.
    - unfold uwrap. rewrite !Z.shiftl_mul_pow2 by lia.
      change (2 ^ 16) with (256 * 2 ^ 8). by rewrite Z.mul_mod_distr_r by lia. }
  split; [done|]. rewrite <- E. apply uwrap_range. lia.
Qed.

Lemma crc16_loop_spec buf : forall crc,
  bytes_ok buf -> 0 <= crc < 65536 ->
  crc16_loop buf crc = Some (foldl crc16_byte crc buf) /\
  0 <= foldl crc16_byte crc buf < 65536.
Proof.
  induction buf as [|b buf IH]; intros crc Hb Hc; [done|].
  apply Forall_cons in Hb as [Hb Hbuf].
  destruct (crc16_step crc b Hc Hb) as (t & Ht & E & Hr). cbn [crc16_loop foldl].
  rewrite Ht. sbind. rewrite E. by apply IH.
Qed.

Lemma crc64_spec buf : forall crc,
  bytes_ok buf -> crc64 crc buf = Some (foldl crc64_byte crc buf).
Proof.
  induction buf as [|b buf IH]; intros crc Hb; [done|]. apply Forall_cons in Hb as [Hb Hbuf].
  cbn [crc64 foldl].
  pose proof (lxor_byte (u8 crc) b ltac:(apply uwrap_range; lia) Hb) as Hx.
  rewrite (crc64_table _ Hx). sbind. rewrite <- IH by done. f_equal. unfold crc64_byte.
  assert (Z.lxor crc b = Z.lxor (Z.shiftl (Z.shiftr crc 8) 8) (Z.lxor (u8 crc) b)) as ->.
  { rewrite <- Z.lxor_assoc. f_equal. apply split_low. }
  rewrite (iter_lxor _ crc64_bit_lxor 8 (Z.shiftl (Z.shiftr crc 8) 8)), crc64_shift.
  apply Z.lxor_comm.
Qed.

(** ** Detection of changes *)

Definition crc64_step (x : Z) : Z := Nat.iter 8 crc64_bit x.

Lemma shiftr1_range x : 0 <= x < 2 ^ 64 -> 0 <= Z.shiftr x 1 < 2 ^ 63.
Proof. intros Hx. rewrite Z.shiftr_div_pow2 by lia. dlia. Qed.

Lemma crc64_bit_range x : 0 <= x < 2 ^ 64 -> 0 <= crc64_bit x < 2 ^ 64.
Proof.
  intros Hx. pose proof (shiftr1_range x Hx). unfold crc64_bit. case_match; [|lia].
  apply lxor_range; [lia..|]. by vm_compute.
Qed.

(** The upper bit of the result is the bit that has been shifted out. *)
Lemma crc64_bit_top x : 0 <= x < 2 ^ 64 -> Z.testbit (crc64_bit x) 63 = Z.testbit x 0.
Proof.
  intros Hx. pose proof (shiftr1_range x Hx) as Hs.
  assert (Z.testbit (Z.shiftr x 1) 63 = false) as Ht.
  { rewrite <- (Z.mod_small (Z.shiftr x 1) (2 ^ 63)) by lia. by apply Z.mod_pow2_bits_high. }
  unfold crc64_bit. destruct (Z.testbit x 0); [|done]. rewrite Z.lxor_spec, Ht. reflexivity.
Qed.

Lemma crc64_bit_inj x y :
  0 <= x < 2 ^ 64 -> 0 <= y < 2 ^ 64 -> crc64_bit x = crc64_bit y -> x = y.
Proof.
  intros Hx Hy Heq. assert (Z.testbit x 0 = Z.testbit y 0) as Hb.
  { by rewrite <- crc64_bit_top, Heq, crc64_bit_top. }
  assert (Z.shiftr x 1 = Z.shiftr y 1) as Hs.
  { unfold crc64_bit in Heq. rewrite Hb in Heq. destruct (Z.testbit y 0); [|done].
    rewrite <- (Z.lxor_0_r (Z.shiftr x 1)), <- (Z.lxor_0_r (Z.shiftr y 1)).
    by rewrite <- (Z.lxor_nilpotent crc64_poly), <- !Z.lxor_assoc, Heq. }
  apply Z.bits_inj'. intros i Hi. destruct (decide (i = 0)) as [->|]; [done|].
  replace i with (i - 1 + 1) by lia. by rewrite <- !Z.shiftr_spec, Hs by lia.
Qed.

Lemma iter_bit_inj n x y :
  0 <= x < 2 ^ 64 -> 0 <= y < 2 ^ 64 ->
  0 <= Nat.iter n crc64_bit x < 2 ^ 64 /\
  (Nat.iter n crc64_bit x = Nat.iter n crc64_bit y -> x = y).
Proof.
  revert x y. induction n as [|n IH]; intros x y Hx Hy; [done|]. rewrite !Nat.iter_succ_r.
  destruct (IH (crc64_bit x) (crc64_bit y)) as [Hr Hi]; [by apply crc64_bit_range..|].
  split; [done|]. intros Heq. by apply crc64_bit_inj, Hi.
Qed.

Lemma crc64_fold_inj z : forall x y,
  bytes_ok z -> 0 <= x < 2 ^ 64 -> 0 <= y < 2 ^ 64 ->
  0 <= foldl crc64_byte x z < 2 ^ 64 /\
  (foldl crc64_byte x z = foldl crc64_byte y z -> x = y).
Proof.
  induction z as [|b z IH]; intros x y Hz Hx Hy; [done|]. apply Forall_cons in Hz as [Hb Hz].
  cbn [foldl]. unfold is_byte in Hb.
  assert (0 <= Z.lxor x b < 2 ^ 64 /\ 0 <= Z.lxor y b < 2 ^ 64) as [Hxb Hyb] by (split; apply lxor_range; lia).
  unfold crc64_byte at 2 4 6.
  destruct (iter_bit_inj 8 (Z.lxor x b) (Z.lxor y b) Hxb Hyb) as [Hr Hi].
  destruct (iter_bit_inj 8 (Z.lxor y b) (Z.lxor x b) Hyb Hxb) as [Hr' _].
  destruct (IH _ _ Hz Hr Hr') as [Hf Hinj]. split; [done|]. intros Heq.
  apply Hinj, Hi in Heq. rewrite <- (Z.lxor_0_r x), <- (Z.lxor_0_r y).
  by rewrite <- (Z.lxor_nilpotent b), <- !Z.lxor_assoc, Heq.
Qed.

Lemma crc64_range z : bytes_ok z -> 0 <= foldl crc64_byte 0 z < 2 ^ 64.
Proof. intros Hz. by apply (crc64_fold_inj z 0 0). Qed.

Lemma crc64_step_shift x y : crc64_step (Z.lxor x (Z.shiftl y 8)) = Z.lxor (crc64_step x) y.
Proof. unfold crc64_step. by rewrite (iter_lxor _ crc64_bit_lxor), crc64_shift. Qed.

Lemma le_dec_cons b bs : is_byte b -> le_dec (b :: bs) = Z.lxor b (Z.shiftl (le_dec bs) 8).
Proof.
  intros Hb. cbn [le_dec]. unfold is_byte in Hb. rewrite Z.lxor_comm.
  rewrite (split_low (b + 256 * le_dec bs)). f_equal.
  - f_equal. rewrite Z.shiftr_div_pow2 by lia. change (2 ^ 8) with 256. dlia.
  - unfold uwrap. change (2 ^ 8) with 256. dlia.
Qed.

(** The effect of some bytes is that of their number. *)
Lemma crc64_window bs : forall c, bytes_ok bs ->
  foldl crc64_byte c bs = Nat.iter (length bs) crc64_step (Z.lxor c (le_dec bs)).
Proof.
  induction bs as [|b bs IH]; intros c Hb; [by rewrite Z.lxor_0_r|]. apply Forall_cons in Hb as [Hb Hbs].
  cbn [foldl length]. rewrite Nat.iter_succ_r, IH by done. f_equal.
  rewrite le_dec_cons by done. rewrite <- Z.lxor_assoc, crc64_step_shift. done.
Qed.

Lemma crc64_step_inj n x y :
  0 <= x < 2 ^ 64 -> 0 <= y < 2 ^ 64 ->
  Nat.iter n crc64_step x = Nat.iter n crc64_step y -> x = y.
Proof.
  intros Hx Hy. assert (forall z, Nat.iter n crc64_step z = Nat.iter (n * 8) crc64_bit z) as Hn.
  { intros z. clear. induction n as [|n IH]; [done|].
    change (Nat.iter (S n) crc64_step z) with (crc64_step (Nat.iter n crc64_step z)).
    rewrite IH. reflexivity. }
  rewrite !Hn. by apply iter_bit_inj.
Qed.

(** Whatever is changed in eight consecutive bytes changes the checksum. *)
Lemma crc64_burst a w w' z :
  bytes_ok a -> bytes_ok w -> bytes_ok w' -> bytes_ok z -> length w = length w' ->
  (length w <= 8)%nat -> foldl crc64_byte 0 (a ++ w ++ z) = foldl crc64_byte 0 (a ++ w' ++ z) ->
  w = w'.
Proof.
  intros Ha Hw Hw' Hz Hlen H8 Heq. rewrite !foldl_app in Heq.
  pose proof (crc64_range a Ha) as Hc. set (c := foldl crc64_byte 0 a) in *.
  assert (forall v, bytes_ok v -> 0 <= foldl crc64_byte c v < 2 ^ 64) as Hr.
  { intros v Hv. by apply (crc64_fold_inj v c c). }
  apply (crc64_fold_inj z _ _ Hz (Hr w Hw) (Hr w' Hw')) in Heq.
  rewrite !crc64_window, Hlen in Heq by done.
  assert (forall v, bytes_ok v -> (length v <= 8)%nat -> 0 <= le_dec v < 2 ^ 64) as Hd.
  { intros v Hv Hl. pose proof (le_dec_range v Hv) as Hr'.
    assert (256 ^ zlen v <= 256 ^ 8) by (apply Z.pow_le_mono_r; unfold zlen; lia).
    change (256 ^ 8) with (2 ^ 64) in *. lia. }
  pose proof (Hd w Hw H8). pose proof (Hd w' Hw' ltac:(lia)).
  apply crc64_step_inj in Heq; [|by apply lxor_range..].
  assert (le_dec w = le_dec w') as Hdec.
  { rewrite <- (Z.lxor_0_l (le_dec w)), <- (Z.lxor_0_l (le_dec w')).
    by rewrite <- (Z.lxor_nilpotent c), !Z.lxor_assoc, Heq. }
  rewrite <- (le_enc_dec w Hw), <- (le_enc_dec w' Hw'). by rewrite Hlen, Hdec.
Qed.

(** ** Hash tags *)

Lemma find_char_spec fuel : forall key c s,
  0 <= s <= zlen key -> zlen key - s <= Z.of_nat fuel ->
  exists r, find_char fuel key c s = Some r /\ s <= r <= zlen key /\
    (forall i, s <= i < r -> getb key i <> Some c) /\
    (r < zlen key -> getb key r = Some c).
Proof.
  induction fuel as [|fuel IH]; intros key c s Hs Hf; cbn [find_char].
  - rewrite (proj2 (Z.ltb_ge _ _)) by lia. exists s. split_and!; [done|lia|lia|intros; lia|lia].
  - destruct (Z.ltb_spec s (zlen key)).
    + destruct (getb_is_Some key s) as [b Hb]; [lia|]. rewrite Hb. sbind.
      destruct (Z.eqb_spec b c) as [->|Hne].
      * exists s. split_and!; [done|lia|lia|intros; lia|done].
      * destruct (IH key c (s + 1)) as (r & -> & Hr & Hbefore & Hat); [lia|lia|].
        exists r. split_and!; [done|lia|lia| |done]. intros i Hi.
        destruct (decide (i = s)) as [->|]; [congruence|]. apply Hbefore. lia.
    + exists s. split_and!; [done|lia|lia|intros; lia|lia].
Qed.

(** [tagged key t]: [t] is what is between the first [{] and the [}] that
    follows. *)
Definition tagged (key t : list Z) : Prop :=
  t <> [] /\ exists a b, key = a ++ 123 :: (t ++ 125 :: b) /\ (123 ∉ a) /\ (125 ∉ t).

Lemma not_elem_getb (l : list Z) c : (forall i, getb l i <> Some c) -> c ∉ l.
Proof. intros H [i Hi]%elem_getb. by apply (H i). Qed.

Lemma first_char (a rest : list Z) c r :
  c ∉ a -> 0 <= r <= zlen (a ++ c :: rest) ->
  (forall i, 0 <= i < r -> getb (a ++ c :: rest) i <> Some c) ->
  (r < zlen (a ++ c :: rest) -> getb (a ++ c :: rest) r = Some c) -> r = zlen a.
Proof.
  intros Ha Hr Hb Hat. rewrite zlen_app, zlen_cons in *. pose proof (zlen_nonneg rest).
  pose proof (zlen_nonneg a).
  destruct (decide (r < zlen a)).
  - exfalso. apply Ha. apply elem_getb. exists r. rewrite <- Hat by lia. by rewrite getb_app_l by lia.
  - destruct (decide (r = zlen a)); [done|]. exfalso. apply (Hb (zlen a)); [lia|]. by apply getb_mid.
Qed.

Lemma slot_of t : bytes_ok t -> (h ← crc16 t; Some (Z.land h 16383)) = Some (crc16_ref t mod 16384).
Proof.
  intros Ht. unfold crc16. destruct (crc16_loop_spec t 0 Ht) as [-> _]; [lia|]. sbind.
  change 16383 with (Z.ones 14). by rewrite Z.land_ones by lia.
Qed.

Lemma slot_tagged key t :
  bytes_ok key -> tagged key t -> keyHashSlot key = Some (crc16_ref t mod 16384).
Proof.
  intros Hb (Hne & a & b & -> & Ha & Ht). unfold keyHashSlot.
  apply bytes_ok_app in Hb as [_ [_ [Hbt _]%bytes_ok_app]%Forall_cons].
  set (key := a ++ 123 :: t ++ 125 :: b).
  assert (zlen key = zlen a + 1 + zlen t + 1 + zlen b) as Hlen.
  { subst key. rewrite zlen_app, zlen_cons, zlen_app, zlen_cons. lia. }
  pose proof (zlen_nonneg a). pose proof (zlen_nonneg b).
  assert (0 < zlen t) by (destruct t; [done|rewrite zlen_cons; pose proof (zlen_nonneg t); lia]).
  destruct (find_char_spec (length key) key 123 0) as (s & -> & Hs & Hbef & Hat);
    [lia|unfold zlen; lia|].
  sbind. assert (s = zlen a) as ->.
  { apply (first_char a (t ++ 125 :: b) 123); try done. }
  rewrite (proj2 (Z.eqb_neq _ _)) by lia.
  destruct (find_char_spec (length key) key 125 (zlen a + 1)) as (e & -> & He & Hbef' & Hat');
    [lia|unfold zlen in *; lia|].
  sbind. assert (forall i, 0 <= i -> getb key (zlen a + 1 + i) = getb (t ++ 125 :: b) i) as Hg.
  { intros i Hi. subst key. rewrite list_cons_snoc, getb_app_r; rewrite zlen_app; change (zlen [123]) with 1; [|lia].
    f_equal. lia. }
  assert (e - (zlen a + 1) = zlen t) as Ee.
  { apply (first_char t b 125); try done.
    - rewrite zlen_app, zlen_cons. lia.
    - intros i Hi. rewrite <- Hg by lia. apply Hbef'. lia.
    - intros Hlt. rewrite <- Hg by lia. replace (zlen a + 1 + (e - (zlen a + 1))) with e by lia.
      apply Hat'. rewrite zlen_app, zlen_cons in Hlt. lia. }
  rewrite !(proj2 (Z.eqb_neq e _)) by lia. cbn [orb].
  replace (e - zlen a - 1) with (zlen t) by lia.
  assert (load key (zlen a + 1) (zlen t) = Some t) as ->.
  { subst key. rewrite list_cons_snoc. apply load_mid; [rewrite zlen_app; done|done]. }
  sbind. by apply slot_of.
Qed.

Lemma slot_untagged key :
  bytes_ok key -> (forall t, ~ tagged key t) -> keyHashSlot key = Some (crc16_ref key mod 16384).
Proof.
  intros Hb Hno. unfold keyHashSlot.
  destruct (find_char_spec (length key) key 123 0) as (s & -> & Hs & Hbef & Hat);
    [pose proof (zlen_nonneg key); lia|unfold zlen; lia|].
  sbind. destruct (Z.eqb_spec s (zlen key)); [by apply slot_of|].
  destruct (find_char_spec (length key) key 125 (s + 1)) as (e & -> & He & Hbef' & Hat');
    [lia|unfold zlen in *; lia|].
  sbind. destruct (Z.eqb_spec e (zlen key)); [by apply slot_of|].
  destruct (Z.eqb_spec e (s + 1)); [by apply slot_of|]. exfalso.
  destruct (getb_split _ _ _ (Hat ltac:(lia))) as (a & k & Hk & Hza).
  assert (getb k (e - s - 1) = Some 125) as Hk'.
  { rewrite <- (Hat' ltac:(lia)), Hk, list_cons_snoc, getb_app_r; rewrite zlen_app; change (zlen [123]) with 1; [|lia].
    f_equal. lia. }
  destruct (getb_split _ _ _ Hk') as (t & b & -> & Hzt).
  apply (Hno t). split; [intros ->; rewrite zlen_nil in Hzt; lia|].
  exists a, b. split_and!; [done| |].
  - intros [i Hi]%elem_getb. pose proof (getb_Some_range _ _ _ Hi).
    apply (Hbef i); [lia|]. rewrite Hk. by rewrite getb_app_l by lia.
  - intros [i Hi]%elem_getb. pose proof (getb_Some_range _ _ _ Hi).
    apply (Hbef' (s + 1 + i)); [lia|]. rewrite Hk, list_cons_snoc, getb_app_r;
      rewrite zlen_app; change (zlen [123]) with 1; [|lia].
    replace (s + 1 + i - (zlen a + 1)) with i by lia. by rewrite getb_app_l by lia.
Qed.

Lemma slot_cases key : bytes_ok key -> exists t, keyHashSlot key = Some (crc16_ref t mod 16384).
Proof.
  intros Hb. unfold keyHashSlot.
  destruct (find_char_spec (length key) key 123 0) as (s & -> & Hs & _);
    [pose proof (zlen_nonneg key); lia|unfold zlen; lia|].
  sbind. case_match; [exists key; by apply slot_of|].
  destruct (find_char_spec (length key) key 125 (s + 1)) as (e & -> & He & _);
    [zbool; lia|unfold zlen in *; lia|].
  sbind. case_match; [exists key; by apply slot_of|]. zbool.
  destruct (load_is_Some key (s + 1) (e - s - 1)) as [t Ht]; [lia..|].
  rewrite Ht. sbind. exists t. apply slot_of.
  apply load_Some in Ht as (a & c & -> & _). by apply bytes_ok_app in Hb as [_ [? _]%bytes_ok_app].
Qed.

(** ** Properties *)

(** The table-driven functions compute the remainders of the
    polynomials that their comments name (CRC-16/XMODEM, CRC-64 of Jones) on every
    string of bytes, without reading outside of their tables, and give the check
    values of the specifications; a checksum can be computed in pieces. *)
Theorem crc_reference (buf more : list Z) (crc : Z) :
  bytes_ok buf -> bytes_ok more ->
  crc16 buf = Some (crc16_ref buf) /\ 0 <= crc16_ref buf < 65536 /\
  crc64 crc buf = Some (foldl crc64_byte crc buf) /\
  (c ← crc64 crc buf; crc64 c more) = crc64 crc (buf ++ more) /\
  crc16 (bytes_of_string "123456789") = Some 0x31C3 /\
  crc64 0 (bytes_of_string "123456789") = Some 0xe9c6d914c4b8d9ca.
Proof.
  intros Hb Hm. destruct (crc16_loop_spec buf 0 Hb) as [H1 H2]; [lia|].
  split_and!; [done|apply H2|apply H2|by apply crc64_spec| |vm_compute; reflexivity..].
  rewrite crc64_spec by done. sbind. rewrite !crc64_spec; [by rewrite foldl_app| |done].
  by apply Forall_app.
Qed.

Lemma crc_reference_witness : crc16 [102; 111; 111] = Some (crc16_ref [102; 111; 111]).
Proof.
  apply (crc_reference [102; 111; 111] [] 0); [|constructor].
  repeat constructor; discriminate.
Defined.

(** C32 (functional, bounds): the slot of a key is the CRC16 of its hash tag, or of
    the whole key when it has none, modulo 16384; so two keys with the same tag
    are in the same slot, and every slot is below 16384. *)
Theorem keyHashSlot_tag (key : list Z) :
  bytes_ok key ->
  (forall t, tagged key t -> keyHashSlot key = Some (crc16_ref t mod 16384)) /\
  ((forall t, ~ tagged key t) -> keyHashSlot key = Some (crc16_ref key mod 16384)) /\
  exists slot, keyHashSlot key = Some slot /\ 0 <= slot < 16384.
Proof.
  intros Hb. split; [intros t; by apply slot_tagged|]. split; [by apply slot_untagged|].
  destruct (slot_cases key Hb) as (t & ->). eexists. split; [done|]. apply Z.mod_pos_bound. lia.
Qed.

Lemma keyHashSlot_tag_witness :
  keyHashSlot (bytes_of_string "{user1000}.following") = keyHashSlot (bytes_of_string "a{user1000}}").
Proof.
  destruct (keyHashSlot_tag (bytes_of_string "{user1000}.following")) as [H1 _];
    [repeat constructor; discriminate|].
  destruct (keyHashSlot_tag (bytes_of_string "a{user1000}}")) as [H2 _];
    [repeat constructor; discriminate|].
  transitivity (Some (crc16_ref (bytes_of_string "user1000") mod 16384)).
  - apply H1. split; [discriminate|]. exists [], (bytes_of_string ".following").
    split; [reflexivity|]. split; vm_compute; intros Hx; repeat (inversion Hx as [|? ? ? Hx']; clear Hx; rename Hx' into Hx).
  - symmetry. apply H2. split; [discriminate|]. exists [97], [125].
    split; [reflexivity|]. split; vm_compute; intros Hx; repeat (inversion Hx as [|? ? ? Hx']; clear Hx; rename Hx' into Hx).
Defined.
