(* ===== verification/Rio.v ===== *)
(** * rio.h, rio.c: stream oriented I/O

    A [rio] is a target (or a source) of bytes with a checksum and a limit on the
    size of one operation.  Targets are seen through the interface [Backend], the
    function pointers of the structure; [BackendLaws] is what rdb.c and aof.c rely
    on, and the memory buffer keeps it.  An access outside of a block gives
    [None]; a failed operation is the [false] or the [None] of its result. *)

From Stdlib Require Import ZArith Lia String.
From stdpp Require Import base numbers list gmap.
From S2P Require Import Prelude Util Sds Request Object Crc.

Open Scope Z_scope.

(** ** The function pointers of a target *)

(** [be_read] gives the bytes read, or nothing when it fails. *)
Class Backend (B : Type) := {
  be_read : B -> Z -> option (option (list Z) * B);
  be_write : B -> list Z -> option (bool * B);
  be_tell : B -> Z;
  be_flush : B -> option (bool * B);
}.

(** [update_cksum] says that [rioGenericUpdateChecksum] is installed. *)
Record rio (B : Type) := mk_rio {
  io : B;
  update_cksum : bool;
  cksum : Z;
  processed_bytes : Z;
  max_processing_chunk : Z;
}.
Arguments mk_rio {B}.
Arguments io {B}.
Arguments update_cksum {B}.
Arguments cksum {B}.
Arguments processed_bytes {B}.
Arguments max_processing_chunk {B}.

Section Rio.
Context {B : Type} `{Backend B}.

Definition rioGenericUpdateChecksum (r : rio B) (bs : list Z) : option (rio B) :=
  c ← crc64 (cksum r) bs;
  Some (mk_rio (io r) (update_cksum r) c (processed_bytes r) (max_processing_chunk r)).

Definition update_checksum (r : rio B) (bs : list Z) : option (rio B) :=
  if update_cksum r then rioGenericUpdateChecksum r bs else Some r.

Definition set_io (b : B) (r : rio B) : rio B :=
  mk_rio b (update_cksum r) (cksum r) (processed_bytes r) (max_processing_chunk r).
Definition add_processed (n : Z) (r : rio B) : rio B :=
  mk_rio (io r) (update_cksum r) (cksum r) (u64 (processed_bytes r + n)) (max_processing_chunk r).

(** The size of the next operation when [n] bytes are left. *)
Definition next_chunk (r : rio B) (n : Z) : Z :=
  if negb (max_processing_chunk r =? 0) && (max_processing_chunk r <? n)
  then max_processing_chunk r else n.

Fixpoint write_loop (fuel : nat) (r : rio B) (bs : list Z) : option (bool * rio B) :=
  if zlen bs =? 0 then Some (true, r)
  else match fuel with
  | O => None
  | S fuel =>
      let bytes_to_write := next_chunk r (zlen bs) in
      let p := take (Z.to_nat bytes_to_write) bs in
      r ← update_checksum r p;
      '(ok, b) ← be_write (io r) p;
      if (ok : bool)
      then write_loop fuel (add_processed bytes_to_write (set_io b r))
             (drop (Z.to_nat bytes_to_write) bs)
      else Some (false, set_io b r)
  end.

Definition rioWrite (r : rio B) (bs : list Z) : option (bool * rio B) :=
  write_loop (length bs) r bs.

(** [acc] holds the bytes read so far. *)
Fixpoint read_loop (fuel : nat) (r : rio B) (n : Z) (acc : list Z)
  : option (option (list Z) * rio B) :=
  if n =? 0 then Some (Some acc, r)
  else match fuel with
  | O => None
  | S fuel =>
      let bytes_to_read := next_chunk r n in
      '(p, b) ← be_read (io r) bytes_to_read;
      let r := set_io b r in
      match p with
      | None => Some (None, r)
      | Some p =>
          r ← update_checksum r p;
          read_loop fuel (add_processed bytes_to_read r) (n - bytes_to_read) (acc ++ p)
      end
  end.

Definition rioRead (r : rio B) (n : Z) : option (option (list Z) * rio B) :=
  read_loop (Z.to_nat n) r n [].

Definition rioTell (r : rio B) : Z := be_tell (io r).
Definition rioFlush (r : rio B) : option (bool * rio B) :=
  '(ok, b) ← be_flush (io r); Some (ok, set_io b r).

(** *** The protocol *)

(** [cbuf] is the local buffer, of which [n] bytes are used. *)
Definition bulk_header (size : nat) (prefix count : Z) : option (list Z) :=
  let cbuf := replicate size 170 in
  cbuf ← setb cbuf 0 prefix;
  '(n, tl) ← ll2string (drop 1 cbuf) (Z.of_nat size - 1) count;
  cbuf ← Prelude.store cbuf 1 tl;
  let clen := 1 + n in
  cbuf ← setb cbuf clen 13;
  cbuf ← setb cbuf (clen + 1) 10;
  load cbuf 0 (clen + 2).

(** The result is the number of bytes written, 0 on error; [count] is an
    [int]. *)
Definition rioWriteBulkCount (r : rio B) (prefix count : Z) : option (Z * rio B) :=
  h ← bulk_header 128 prefix (s32 count);
  '(ok, r) ← rioWrite r h;
  Some (if (ok : bool) then zlen h else 0, r).

Definition rioWriteBulkString (r : rio B) (bs : list Z) : option (Z * rio B) :=
  '(nwritten, r) ← rioWriteBulkCount r 36 (zlen bs);
  if nwritten =? 0 then Some (0, r)
  else
    '(ok, r) ← (if zlen bs >? 0 then rioWrite r bs else Some (true, r));
    if negb ok then Some (0, r)
    else
      '(ok, r) ← rioWrite r crlf;
      if negb ok then Some (0, r) else Some (nwritten + zlen bs + 2, r).

Definition rioWriteBulkLongLong (r : rio B) (l : Z) : option (Z * rio B) :=
  lbuf ← ll_buf 32 l;
  rioWriteBulkString r lbuf.

(** aof.c *)
Definition rioWriteBulkObject (r : rio B) (obj : strval) : option (Z * rio B) :=
  match obj with
  | INT v => rioWriteBulkLongLong r v
  | RAW s _ | EMBSTR s => rioWriteBulkString r s
  end.

End Rio.

(** ** The memory buffer *)

Record bufferIO := mk_buffer { ptr : sdshdr; pos : Z }.

Section Buffer.
Context (junk : nat -> Z).

Definition rioBufferWrite (b : bufferIO) (bs : list Z) : option (bool * bufferIO) :=
  s ← sdscatlen junk (ptr b) bs (zlen bs);
  Some (true, mk_buffer s (s64 (pos b + zlen bs))).

Definition rioBufferRead (b : bufferIO) (n : Z) : option (option (list Z) * bufferIO) :=
  if u64 (len (ptr b) - pos b) <? n then Some (None, b)
  else
    bs ← load (buf (ptr b)) (pos b) n;
    Some (Some bs, mk_buffer (ptr b) (s64 (pos b + n))).

Definition rioBufferTell (b : bufferIO) : Z := pos b.
Definition rioBufferFlush (b : bufferIO) : option (bool * bufferIO) := Some (true, b).

Definition rioBufferIO : Backend bufferIO := {|
  be_read := rioBufferRead;
  be_write := rioBufferWrite;
  be_tell := rioBufferTell;
  be_flush := rioBufferFlush;
|}.

Definition rioInitWithBuffer (s : sdshdr) : rio bufferIO :=
  mk_rio (mk_buffer s 0) false 0 0 0.

End Buffer.

(** ** What the clients of a target rely on *)

(** [written b l]: the bytes [l] have been written to [b]; [unread b l]: the bytes
    [l] are left in [b].  A write appends or fails; a write to a target that is
    [reliable] does not fail while it holds less than [capacity] bytes.  A read
    gives the next bytes, and fails when there are not enough. *)
Class BackendLaws (B : Type) `{Backend B} := {
  written : B -> list Z -> Prop;
  unread : B -> list Z -> Prop;
  reliable : bool;
  capacity : Z;
  be_write_spec b l bs :
    written b l -> bs <> [] -> zlen l + zlen bs <= capacity ->
    exists ok b', be_write b bs = Some (ok, b') /\
      if ok then written b' (l ++ bs) else reliable = false;
  be_read_spec b l n :
    unread b l -> 0 < n <= zlen l ->
    exists b', be_read b n = Some (Some (take (Z.to_nat n) l), b') /\
      unread b' (drop (Z.to_nat n) l);
  be_read_short b l n :
    unread b l -> zlen l < n < 2 ^ 63 ->
    exists b', be_read b n = Some (None, b');
}.

(** ** Lemmas *)

Section RioFacts.
Context {B : Type} `{BackendLaws B}.

(** The sizes that [size_t] and the checksum can hold. *)
Definition rio_ok (r : rio B) : Prop :=
  0 <= max_processing_chunk r /\ 0 <= processed_bytes r < 2 ^ 64.

(** From [r] to [r'] the bytes [bs] have gone through. *)
Record advanced (r r' : rio B) (bs : list Z) : Prop := {
  adv_ok : rio_ok r';
  adv_update : update_cksum r' = update_cksum r;
  adv_chunk : max_processing_chunk r' = max_processing_chunk r;
  adv_cksum : cksum r' = if update_cksum r then foldl crc64_byte (cksum r) bs else cksum r;
  adv_bytes : processed_bytes r' = u64 (processed_bytes r + zlen bs);
}.

Lemma advanced_nil r : rio_ok r -> advanced r r [].
Proof.
  intros Hok. split; try done; [by case_match|]. rewrite (@zlen_nil Z), Z.add_0_r.
  symmetry. apply uwrap_small. apply Hok.
Qed.

Lemma advanced_app r1 r2 r3 a b :
  advanced r1 r2 a -> advanced r2 r3 b -> advanced r1 r3 (a ++ b).
Proof.
  intros [_ Hu Hc Hs Hb] [Ho' Hu' Hc' Hs' Hb']. split; [done|congruence..| |].
  - rewrite Hs', Hu, Hs. destruct (update_cksum r1); [by rewrite foldl_app|done].
  - rewrite Hb', Hb, zlen_app. unfold uwrap. rewrite Z.add_mod_idemp_l by done. f_equal. lia.
Qed.

Lemma next_chunk_range (r : rio B) n : rio_ok r -> 0 < n -> 0 < next_chunk r n <= n.
Proof.
  intros [Hc _] Hn. unfold next_chunk.
  destruct (Z.eqb_spec (max_processing_chunk r) 0); cbn [negb andb]; [lia|].
  destruct (Z.ltb_spec (max_processing_chunk r) n); lia.
Qed.

Lemma update_checksum_spec (r : rio B) bs :
  bytes_ok bs ->
  update_checksum r bs = Some (mk_rio (io r) (update_cksum r)
    (if update_cksum r then foldl crc64_byte (cksum r) bs else cksum r)
    (processed_bytes r) (max_processing_chunk r)).
Proof.
  intros Hb. unfold update_checksum, rioGenericUpdateChecksum.
  destruct r as [i u c p m]. cbn. destruct u; [|done]. by rewrite crc64_spec.
Qed.

(** One step of either loop. *)
Lemma advanced_step (r : rio B) (b : B) bs :
  rio_ok r -> bytes_ok bs ->
  exists r', update_checksum r bs = Some r' /\ io r' = io r /\
    advanced r (add_processed (zlen bs) (set_io b r')) bs.
Proof.
  intros [Hc Hp] Hb. rewrite update_checksum_spec by done. eexists. split; [done|].
  split; [done|]. split; try done. split; [done|]. cbn. apply uwrap_range. lia.
Qed.

(** The outcome of a write: the bytes [bs] are in the target after [l], or the
    target has failed. *)
Definition wrote (r r' : rio B) (l bs : list Z) (ok : bool) : Prop :=
  if ok then written (io r') (l ++ bs) /\ advanced r r' bs else reliable = false.

Lemma write_loop_spec fuel : forall r l bs,
  rio_ok r -> written (io r) l -> bytes_ok bs -> zlen l + zlen bs <= capacity ->
  (length bs <= fuel)%nat ->
  exists ok r', write_loop fuel r bs = Some (ok, r') /\ wrote r r' l bs ok.
Proof.
  induction fuel as [|fuel IH]; intros r l bs Hok Hw Hb Hcap Hf; cbn [write_loop].
  - destruct bs; [|simpl in Hf; lia]. exists true, r. split; [done|]. split; [by rewrite app_nil_r|].
    by apply advanced_nil.
  - destruct (Z.eqb_spec (zlen bs) 0) as [Hz|Hz].
    { apply zlen_0 in Hz as ->. exists true, r. split; [done|]. split; [by rewrite app_nil_r|].
      by apply advanced_nil. }
    assert (0 < zlen bs) as Hpos by (pose proof (zlen_nonneg bs); lia).
    pose proof (next_chunk_range r (zlen bs) Hok Hpos) as Hn.
    set (n := next_chunk r (zlen bs)) in *.
    set (p := take (Z.to_nat n) bs). set (q := drop (Z.to_nat n) bs).
    assert (bs = p ++ q) as Hpq by (subst p q; by rewrite take_drop).
    assert (zlen p = n) as Hzp by (subst p; rewrite zlen_take; lia).
    clearbody p q n. subst bs n. apply bytes_ok_app in Hb as [Hbp Hbq].
    rewrite zlen_app in Hcap, Hn, Hpos. pose proof (zlen_nonneg q).
    destruct (be_write_spec (io r) l p Hw) as (ok & b & Hwr & Hwb);
      [intros ->; rewrite (@zlen_nil Z) in Hn; lia|lia|].
    destruct (advanced_step r b p Hok Hbp) as (r1 & Hup & Hio & Hadv).
    rewrite Hup. sbind. rewrite Hio, Hwr. sbind.
    destruct ok; [|by exists false, (set_io b r1)].
    destruct (IH _ (l ++ p) q (adv_ok _ _ _ Hadv) Hwb Hbq) as (ok & r' & Hl & Hr');
      [rewrite zlen_app; lia|rewrite length_app in Hf; unfold zlen in Hn; lia|].
    exists ok, r'. split; [done|]. destruct ok; [|done]. destruct Hr' as [Hw' Ha].
    split; [by rewrite app_assoc|]. by eapply advanced_app.
Qed.

Lemma rioWrite_spec r l bs :
  rio_ok r -> written (io r) l -> bytes_ok bs -> zlen l + zlen bs <= capacity ->
  exists ok r', rioWrite r bs = Some (ok, r') /\ wrote r r' l bs ok.
Proof. intros. by apply write_loop_spec. Qed.

Lemma read_loop_spec fuel : forall r a l acc,
  rio_ok r -> unread (io r) (a ++ l) -> bytes_ok a -> (length a <= fuel)%nat ->
  exists r', read_loop fuel r (zlen a) acc = Some (Some (acc ++ a), r') /\
    unread (io r') l /\ advanced r r' a.
Proof.
  induction fuel as [|fuel IH]; intros r a l acc Hok Hu Hb Hf; cbn [read_loop].
  - destruct a; [|simpl in Hf; lia]. exists r. rewrite app_nil_r. split; [done|]. split; [done|].
    by apply advanced_nil.
  - destruct (Z.eqb_spec (zlen a) 0) as [Hz|Hz].
    { apply zlen_0 in Hz as ->. exists r. rewrite app_nil_r. split; [done|]. split; [done|].
      by apply advanced_nil. }
    assert (0 < zlen a) as Hpos by (pose proof (zlen_nonneg a); lia).
    pose proof (next_chunk_range r (zlen a) Hok Hpos) as Hn.
    set (n := next_chunk r (zlen a)) in *.
    set (p := take (Z.to_nat n) a). set (q := drop (Z.to_nat n) a).
    assert (a = p ++ q) as Hpq by (subst p q; by rewrite take_drop).
    assert (zlen p = n) as Hzp by (subst p; rewrite zlen_take; lia).
    clearbody p q n. subst a n. apply bytes_ok_app in Hb as [Hbp Hbq].
    destruct (be_read_spec (io r) ((p ++ q) ++ l) (zlen p) Hu) as (b & Hrd & Hub);
      [rewrite !zlen_app; pose proof (zlen_nonneg q); pose proof (zlen_nonneg l); lia|].
    rewrite to_nat_zlen, <- app_assoc, take_app_length, drop_app_length in *.
    rewrite Hrd. sbind.
    destruct (advanced_step (set_io b r) b p Hok Hbp) as (r1 & Hup & Hio & Hadv).
    assert (set_io b r1 = r1) as Hr1 by (rewrite <- Hio at 1; by destruct r1).
    rewrite Hr1 in Hadv. cbn in Hio.
    rewrite Hup. sbind. rewrite zlen_app.
    replace (zlen p + zlen q - zlen p) with (zlen q) by lia.
    destruct (IH (add_processed (zlen p) r1) q l (acc ++ p)) as (r' & Hl & Hu' & Ha);
      [apply Hadv|cbn; by rewrite Hio|done|rewrite length_app in Hf; unfold zlen in Hn; lia|].
    exists r'. rewrite Hl, <- app_assoc. split; [done|]. split; [done|].
    eapply advanced_app; [|done]. destruct Hadv as [? ? ? ? ?]. by split.
Qed.

Lemma rioRead_spec r a l n :
  rio_ok r -> unread (io r) (a ++ l) -> bytes_ok a -> n = zlen a ->
  exists r', rioRead r n = Some (Some a, r') /\ unread (io r') l /\ advanced r r' a.
Proof.
  intros ? ? ? ->. destruct (read_loop_spec (Z.to_nat (zlen a)) r a l []) as (r' & ? & ? & ?);
    try done; [by rewrite to_nat_zlen|]. by exists r'.
Qed.
Lemma read_loop_short fuel : forall r l n acc,
  rio_ok r -> unread (io r) l -> bytes_ok l -> zlen l < n < 2 ^ 63 -> (Z.to_nat n <= fuel)%nat ->
  exists r', read_loop fuel r n acc = Some (None, r').
Proof.
  induction fuel as [|fuel IH]; intros r l n acc Hok Hu Hb Hn Hf; pose proof (zlen_nonneg l);
    [lia|]. cbn [read_loop].
  rewrite (proj2 (Z.eqb_neq n 0)) by lia.
  pose proof (next_chunk_range r n Hok ltac:(lia)) as Hc. set (k := next_chunk r n) in *. clearbody k.
  destruct (decide (k <= zlen l)) as [Hk|Hk].
  - destruct (be_read_spec (io r) l k Hu) as (b & Hrd & Hub); [lia|].
    rewrite Hrd. sbind.
    assert (zlen (take (Z.to_nat k) l) = k) as Hz by (rewrite zlen_take; lia).
    pose proof (zlen_drop l (Z.to_nat k)) as Hzd.
    rewrite <- (take_drop (Z.to_nat k) l) in Hb. apply bytes_ok_app in Hb as [Hb1 Hb2].
    destruct (advanced_step (set_io b r) b (take (Z.to_nat k) l)) as (r1 & Hup & Hio & Hadv); [done..|].
    rewrite Hup. sbind. cbn in Hio.
    apply (IH _ (drop (Z.to_nat k) l)); [|cbn; by rewrite Hio|done|lia|lia].
    destruct Hadv as [Ho _ _ _ _]. rewrite Hz in Ho. exact Ho.
  - destruct (be_read_short (io r) l k Hu) as (b & Hrd); [lia|]. rewrite Hrd. sbind. by eexists.
Qed.

Lemma rioRead_short r l n :
  rio_ok r -> unread (io r) l -> bytes_ok l -> zlen l < n < 2 ^ 63 ->
  exists r', rioRead r n = Some (None, r').
Proof. intros. by eapply read_loop_short. Qed.

(** The outcome of a function that returns the number of bytes it wrote, or
    [err]. *)
Definition outcome (err : Z) (r r' : rio B) (l bs : list Z) (n : Z) : Prop :=
  (n = zlen bs /\ written (io r') (l ++ bs) /\ advanced r r' bs) \/ (n = err /\ reliable = false).

Lemma outcome_app err r1 r2 r3 l a b m n :
  outcome err r1 r2 l a m -> m <> err -> outcome err r2 r3 (l ++ a) b n -> n <> err ->
  outcome err r1 r3 l (a ++ b) (m + n).
Proof.
  intros [(-> & H1 & H2)|[-> _]] Hm [(-> & H3 & H4)|[-> _]] Hn; try done. left.
  rewrite zlen_app, app_assoc. split; [done|]. split; [done|]. by eapply advanced_app.
Qed.

(** *** The protocol *)

Lemma ll_repr_bytes v : in_ll v -> bytes_ok (ll_repr v).
Proof.
  intros Hv. destruct (ll_repr_shape v Hv) as (sg & ds & -> & Hd & _ & _ & Hsg).
  apply Forall_app. split.
  - destruct Hsg as [[-> _]|[-> _]]; repeat constructor; discriminate.
  - eapply Forall_impl; [exact Hd|]. intros c Hc. unfold isdigit in Hc. zbool. unfold is_byte. lia.
Qed.

Lemma bulk_header_spec (size : nat) prefix count :
  in_ll count -> (24 < size)%nat ->
  bulk_header size prefix count = Some (prefix :: ll_repr count ++ crlf).
Proof.
  intros Hc Hs. unfold bulk_header. pose proof (ll_repr_len _ Hc) as Hl.
  replace size with (S (size - 1)) at 1 by lia. cbn [replicate].
  assert (setb (170 :: replicate (size - 1) 170) 0 prefix = Some (prefix :: replicate (size - 1) 170))
    as -> by (by apply (setb_mid [])).
  sbind. cbn [drop]. rewrite drop_0.
  replace (Z.of_nat size - 1) with (Z.of_nat (size - 1)) by lia.
  rewrite ll2string_local by (done || lia). sbind.
  set (ds := ll_repr count) in *.
  set (rest := drop (S (length ds)) (replicate (size - 1) 170)).
  assert (rest = replicate (size - 2 - length ds) 170) as ->.
  { subst rest. rewrite drop_replicate. f_equal. lia. }
  unfold zlen in Hl.
  assert (zlen (ds ++ 0 :: replicate (size - 2 - length ds) 170) = Z.of_nat (size - 1)) as Hz.
  { rewrite zlen_app, zlen_cons, zlen_replicate. unfold zlen. lia. }
  pose proof (store_mid [prefix] (replicate (size - 1) 170) []
    (ds ++ 0 :: replicate (size - 2 - length ds) 170) 1) as Hst.
  rewrite !app_nil_r in Hst. cbn [app] in Hst. rewrite Hst; [|done|by rewrite Hz, zlen_replicate].
  sbind. rewrite app_comm_cons, (setb_mid (prefix :: ds) _ 0 13) by (rewrite zlen_cons; lia).
  sbind. cbn [app].
  replace (size - 2 - length ds)%nat with (S (size - 3 - length ds)) by lia. cbn [replicate].
  pose proof (setb_mid (prefix :: ds ++ [13]) (replicate (size - 3 - length ds) 170) 170 10
    (1 + zlen ds + 1)) as Hset.
  rewrite !app_comm_cons, <- !app_assoc in Hset. cbn [app] in Hset.
  rewrite Hset by (rewrite zlen_cons, zlen_app, zlen_cons, (@zlen_nil Z); lia). sbind.
  pose proof (load_prefix (prefix :: ds ++ crlf) (replicate (size - 3 - length ds) 170)
    (1 + zlen ds + 2)) as Hld.
  unfold crlf in *. rewrite !app_comm_cons, <- !app_assoc in Hld. cbn [app] in Hld.
  rewrite Hld; [done|]. rewrite zlen_cons, zlen_app, !zlen_cons, (@zlen_nil Z). lia.
Qed.

Lemma int_in_ll n : 0 <= n <= INT32_MAX -> in_ll (s32 n) /\ s32 n = n.
Proof. unfold INT32_MAX, in_ll, LLONG_MIN, LLONG_MAX. intros ?. rewrite s32_small; lia. Qed.

Lemma rioWriteBulkCount_spec r l prefix count :
  rio_ok r -> written (io r) l -> is_byte prefix -> 0 <= count <= INT32_MAX ->
  zlen l + zlen (prefix :: ll_repr count ++ crlf) <= capacity ->
  exists n r', rioWriteBulkCount r prefix count = Some (n, r') /\
    outcome 0 r r' l (prefix :: ll_repr count ++ crlf) n.
Proof.
  intros Hok Hw Hp Hc Hcap. destruct (int_in_ll count Hc) as [Hll Hs]. unfold rioWriteBulkCount.
  rewrite bulk_header_spec by (done || lia). rewrite Hs in *. sbind.
  destruct (rioWrite_spec r l (prefix :: ll_repr count ++ crlf)) as (ok & r' & -> & Hwr);
    [done|done| |done|].
  { constructor; [done|]. apply Forall_app. split; [by apply ll_repr_bytes|].
    repeat constructor; discriminate. }
  sbind. eexists _, r'. split; [done|]. destruct ok; [by left|by right].
Qed.
Lemma outcome_fail err r r' l bs : reliable = false -> outcome err r r' l bs err.
Proof. by right. Qed.

Lemma rioWriteBulkString_spec r l bs :
  rio_ok r -> written (io r) l -> bytes_ok bs -> zlen bs <= INT32_MAX ->
  zlen l + zlen (enc_bulk bs) <= capacity ->
  exists n r', rioWriteBulkString r bs = Some (n, r') /\ outcome 0 r r' l (enc_bulk bs) n.
Proof.
  intros Hok Hw Hb Hmax Hcap. pose proof (zlen_nonneg bs) as Hnn.
  unfold rioWriteBulkString. set (h := 36 :: ll_repr (zlen bs) ++ crlf).
  assert (enc_bulk bs = h ++ bs ++ crlf) as Henc.
  { subst h. unfold enc_bulk. cbn [app]. by rewrite <- !app_assoc. }
  rewrite Henc, !zlen_app in Hcap.
  assert (0 < zlen h) as Hh by (subst h; rewrite zlen_cons; pose proof (zlen_nonneg (ll_repr (zlen bs) ++ crlf)); lia).
  change (zlen crlf) with 2 in Hcap.
  destruct (rioWriteBulkCount_spec r l 36 (zlen bs)) as (n & r1 & -> & Hr1);
    [done|done|done|lia|fold h; lia|]. fold h in Hr1. sbind.
  destruct Hr1 as [(-> & Hw1 & Ha1)|[-> ?]]; [|eexists _, r1; split; [done|by right]].
  rewrite (proj2 (Z.eqb_neq _ _)) by lia.
  assert (exists ok r2, (if zlen bs >? 0 then rioWrite r1 bs else Some (true, r1)) = Some (ok, r2) /\
    wrote r1 r2 (l ++ h) bs ok) as (ok & r2 & -> & Hr2).
  { rewrite Z.gtb_ltb. destruct (Z.ltb_spec 0 (zlen bs)).
    - apply rioWrite_spec; [apply Ha1|done|done|rewrite zlen_app; lia].
    - assert (bs = []) as -> by (apply zlen_0; lia). exists true, r1. split; [done|].
      split; [by rewrite app_nil_r|]. apply advanced_nil, Ha1. }
  sbind. destruct ok; cbn [negb]; [|eexists _, r2; split; [done|by right]].
  destruct Hr2 as [Hw2 Ha2].
  destruct (rioWrite_spec r2 ((l ++ h) ++ bs) crlf) as (ok & r3 & -> & Hr3);
    [apply Ha2|done|repeat constructor; discriminate|rewrite !zlen_app; change (zlen crlf) with 2; lia|].
  sbind. destruct ok; cbn [negb]; [|eexists _, r3; split; [done|by right]].
  destruct Hr3 as [Hw3 Ha3]. eexists _, r3. split; [done|]. left.
  rewrite Henc, !zlen_app. change (zlen crlf) with 2. split; [lia|].
  rewrite <- !app_assoc in Hw3. split; [done|].
  eapply advanced_app; [done|]. by eapply advanced_app.
Qed.

Lemma rioWriteBulkObject_spec r l o :
  rio_ok r -> written (io r) l -> wf_val o -> bytes_ok (value o) ->
  zlen l + zlen (enc_bulk (value o)) <= capacity ->
  exists n r', rioWriteBulkObject r o = Some (n, r') /\ outcome 0 r r' l (enc_bulk (value o)) n.
Proof.
  intros Hok Hw Ho Hb Hcap. pose proof (value_len o Ho) as Hl.
  assert (rioWriteBulkObject r o = rioWriteBulkString r (value o)) as ->.
  { destruct o as [| |v]; [done..|]. cbn [rioWriteBulkObject value]. unfold rioWriteBulkLongLong.
    by rewrite (ll_buf_spec 32 v Ho) by lia. }
  apply rioWriteBulkString_spec; try done. unfold INT32_MAX. lia.
Qed.
End RioFacts.

(** *** The memory buffer keeps the laws *)

Section BufferFacts.
Context (junk : nat -> Z).
#[local] Existing Instance rioBufferIO.

Definition buffer_written (b : bufferIO) (l : list Z) : Prop := sds_ok (ptr b) l.

Definition buffer_unread (b : bufferIO) (l : list Z) : Prop :=
  exists l0, sds_ok (ptr b) (l0 ++ l) /\ pos b = zlen l0.

Lemma rioBufferWrite_spec b l bs :
  buffer_written b l -> zlen l + zlen bs <= INT32_MAX ->
  exists b', rioBufferWrite junk b bs = Some (true, b') /\ buffer_written b' (l ++ bs).
Proof.
  intros Hw Hcap. unfold rioBufferWrite.
  destruct (catlen_spec junk (ptr b) l bs (zlen bs) bs) as (s & -> & Hs);
    [done|by apply load_self|done|]. sbind. by eexists.
Qed.

Lemma buffer_left b l :
  buffer_unread b l -> u64 (len (ptr b) - pos b) = zlen l.
Proof.
  intros (l0 & (rest & -> & Hmax & _) & ->). cbn [len]. rewrite zlen_app in *.
  pose proof (zlen_nonneg l0). pose proof (zlen_nonneg l). unfold INT32_MAX in Hmax.
  rewrite u64_small; lia.
Qed.

Lemma rioBufferRead_spec b l n :
  buffer_unread b l -> 0 < n <= zlen l ->
  exists b', rioBufferRead b n = Some (Some (take (Z.to_nat n) l), b') /\
    buffer_unread b' (drop (Z.to_nat n) l).
Proof.
  intros Hu Hn. unfold rioBufferRead. rewrite (buffer_left b l Hu), (proj2 (Z.ltb_ge _ _)) by lia.
  destruct Hu as (l0 & Hs & Hp). pose proof Hs as (rest & Hptr & Hmax & _).
  assert (load (buf (ptr b)) (pos b) n = Some (take (Z.to_nat n) l)) as ->.
  { rewrite Hptr, Hp. cbn [buf].
    replace ((l0 ++ l) ++ 0 :: rest)
      with (l0 ++ take (Z.to_nat n) l ++ drop (Z.to_nat n) l ++ 0 :: rest)
      by (rewrite (app_assoc (take _ _)), take_drop; by rewrite app_assoc).
    apply load_mid; [done|]. rewrite zlen_take. lia. }
  sbind. eexists. split; [done|]. exists (l0 ++ take (Z.to_nat n) l). cbn [ptr pos].
  rewrite <- app_assoc, take_drop. split; [done|]. rewrite zlen_app, zlen_take, Hp.
  rewrite zlen_app in Hmax. unfold INT32_MAX in Hmax.
  pose proof (zlen_nonneg l0). rewrite s64_small; lia.
Qed.

#[export] Instance rioBufferIO_laws : @BackendLaws bufferIO (rioBufferIO junk).
Proof.
  refine {| written := buffer_written; unread := buffer_unread; reliable := true;
            capacity := INT32_MAX |}.
  - intros b l bs Hw _ Hcap. destruct (rioBufferWrite_spec b l bs Hw Hcap) as (b' & ? & ?).
    by exists true, b'.
  - apply rioBufferRead_spec.
  - intros b l n Hu Hn. exists b. cbn. unfold rioBufferRead.
    by rewrite (buffer_left b l Hu), (proj2 (Z.ltb_lt _ _)) by lia.
Defined.
End BufferFacts.

(** ** Properties *)

Section Pieces.
Context {B : Type} `{Backend B}.

Fixpoint write_pieces (r : rio B) (ps : list (list Z)) : option (bool * rio B) :=
  match ps with
  | [] => Some (true, r)
  | p :: ps =>
      '(ok, r) ← rioWrite r p;
      if (ok : bool) then write_pieces r ps else Some (false, r)
  end.

Fixpoint read_pieces (r : rio B) (ns : list Z) : option (option (list (list Z)) * rio B) :=
  match ns with
  | [] => Some (Some [], r)
  | n :: ns =>
      '(p, r) ← rioRead r n;
      match p with
      | None => Some (None, r)
      | Some p => '(ps, r) ← read_pieces r ns; Some (option_map (cons p) ps, r)
      end
  end.

(** A request as aof.c writes it: the count, then the objects. *)
Fixpoint write_objects (r : rio B) (os : list strval) : option (bool * rio B) :=
  match os with
  | [] => Some (true, r)
  | o :: os =>
      '(n, r) ← rioWriteBulkObject r o;
      if n =? 0 then Some (false, r) else write_objects r os
  end.

Definition write_request (r : rio B) (os : list strval) : option (bool * rio B) :=
  '(n, r) ← rioWriteBulkCount r 42 (zlen os);
  if n =? 0 then Some (false, r) else write_objects r os.
End Pieces.

Section PiecesFacts.
Context {B : Type} `{BackendLaws B}.

Lemma write_pieces_spec ps : forall (r : rio B) l,
  rio_ok r -> written (io r) l -> bytes_ok (concat ps) -> zlen l + zlen (concat ps) <= capacity ->
  exists ok r', write_pieces r ps = Some (ok, r') /\ wrote r r' l (concat ps) ok.
Proof.
  induction ps as [|p ps IH]; intros r l Hok Hw Hb Hcap; cbn [write_pieces concat] in *.
  - exists true, r. split; [done|]. split; [by rewrite app_nil_r|by apply advanced_nil].
  - apply bytes_ok_app in Hb as [Hp Hps]. rewrite zlen_app in Hcap.
    pose proof (zlen_nonneg (concat ps)).
    destruct (rioWrite_spec r l p Hok Hw Hp) as (ok & r1 & -> & Hr1); [lia|]. sbind.
    destruct ok; [|by exists false, r1]. destruct Hr1 as [Hw1 Ha1].
    destruct (IH r1 (l ++ p)) as (ok & r' & -> & Hr'); [apply Ha1|done|done|rewrite zlen_app; lia|].
    exists ok, r'. split; [done|]. destruct ok; [|done]. destruct Hr' as [Hw' Ha'].
    split; [by rewrite app_assoc|]. by eapply advanced_app.
Qed.

Lemma read_pieces_spec ps : forall (r : rio B) rest,
  rio_ok r -> unread (io r) (concat ps ++ rest) -> bytes_ok (concat ps) ->
  exists r', read_pieces r (zlen <$> ps) = Some (Some ps, r') /\
    unread (io r') rest /\ advanced r r' (concat ps).
Proof.
  induction ps as [|p ps IH]; intros r rest Hok Hu Hb; cbn [read_pieces concat fmap list_fmap] in *.
  - exists r. split; [done|]. split; [done|]. by apply advanced_nil.
  - apply bytes_ok_app in Hb as [Hp Hps]. rewrite <- app_assoc in Hu.
    destruct (rioRead_spec r p _ (zlen p) Hok Hu Hp eq_refl) as (r1 & -> & Hu1 & Ha1). sbind.
    destruct (IH r1 rest (adv_ok _ _ _ Ha1) Hu1 Hps) as (r' & -> & Hu' & Ha'). sbind.
    exists r'. split; [done|]. split; [done|]. by eapply advanced_app.
Qed.

Lemma write_objects_spec os : forall (r : rio B) l,
  rio_ok r -> written (io r) l -> Forall (fun o => wf_val o /\ bytes_ok (value o)) os ->
  zlen l + zlen (enc_args (value <$> os)) <= capacity ->
  exists ok r', write_objects r os = Some (ok, r') /\ wrote r r' l (enc_args (value <$> os)) ok.
Proof.
  induction os as [|o os IH]; intros r l Hok Hw Hos Hcap; cbn [write_objects fmap list_fmap] in *.
  - exists true, r. split; [done|]. split; [by rewrite app_nil_r|by apply advanced_nil].
  - apply Forall_cons in Hos as [[Ho Hb] Hos].
    change (enc_args (value o :: ?x)) with (enc_bulk (value o) ++ enc_args x) in *.
    rewrite zlen_app in Hcap. pose proof (zlen_nonneg (enc_args (value <$> os))).
    pose proof (zlen_pos (enc_bulk (value o)) ltac:(done)) as Hpos.
    destruct (rioWriteBulkObject_spec r l o Hok Hw Ho Hb) as (n & r1 & -> & Hr1); [lia|]. sbind.
    destruct Hr1 as [(-> & Hw1 & Ha1)|[-> Hrel]]; [|by exists false, r1].
    rewrite (proj2 (Z.eqb_neq _ _)) by lia.
    destruct (IH r1 (l ++ enc_bulk (value o))) as (ok & r' & -> & Hr');
      [apply Ha1|done|done|rewrite zlen_app; lia|].
    exists ok, r'. split; [done|]. destruct ok; [|done]. destruct Hr' as [Hw' Ha'].
    split; [by rewrite app_assoc|]. by eapply advanced_app.
Qed.

(** On any target that keeps the laws, with any limit on the size
    of an operation, the rewriting of the AOF writes a command in the format of the
    requests, byte for byte whatever the representation of its arguments, and
    checksums and counts exactly these bytes; or it reports the failure of the
    target. *)
Theorem rio_write_request (r : rio B) (l : list Z) (os : list strval) :
  rio_ok r -> written (io r) l -> Forall (fun o => wf_val o /\ bytes_ok (value o)) os ->
  zlen os <= INT32_MAX -> zlen l + zlen (enc_request (value <$> os)) <= capacity ->
  exists ok r', write_request r os = Some (ok, r') /\
    if ok then
      written (io r') (l ++ enc_request (value <$> os)) /\
      cksum r' = (if update_cksum r then foldl crc64_byte (cksum r) (enc_request (value <$> os))
                  else cksum r) /\
      processed_bytes r' = u64 (processed_bytes r + zlen (enc_request (value <$> os)))
    else reliable = false.
Proof.
  intros Hok Hw Hos Hn Hcap. unfold write_request.
  set (h := 42 :: ll_repr (zlen os) ++ crlf).
  assert (enc_request (value <$> os) = h ++ enc_args (value <$> os)) as Henc.
  { subst h. unfold enc_request. rewrite zlen_fmap. cbn [app]. by rewrite <- app_assoc. }
  rewrite Henc, ?zlen_app in *. pose proof (zlen_nonneg os).
  pose proof (zlen_nonneg (enc_args (value <$> os))).
  assert (0 < zlen h) as Hh by (by apply zlen_pos).
  destruct (rioWriteBulkCount_spec r l 42 (zlen os)) as (n & r1 & -> & Hr1);
    [done|done|done|lia|fold h; lia|]. fold h in Hr1. sbind.
  destruct Hr1 as [(-> & Hw1 & Ha1)|[-> Hrel]]; [|by exists false, r1].
  rewrite (proj2 (Z.eqb_neq _ _)) by lia.
  destruct (write_objects_spec os r1 (l ++ h)) as (ok & r' & -> & Hr');
    [apply Ha1|done|done|rewrite zlen_app; lia|].
  exists ok, r'. split; [done|]. destruct ok; [|done]. destruct Hr' as [Hw' Ha'].
  rewrite <- app_assoc in Hw'. split; [done|].
  pose proof (advanced_app _ _ _ _ _ Ha1 Ha') as [_ _ _ Hc Hp].
  split; [exact Hc|]. by rewrite Hp, zlen_app.
Qed.
End PiecesFacts.

(** C33 (equivalence): through a memory buffer, what is written in pieces and in
    chunks of any sizes is read back in pieces and in chunks of any other sizes; the
    checksums of the two sides are the CRC-64 of the bytes and the counters their
    number; reading past the end fails. *)
Theorem rio_buffer_roundtrip (junk : nat -> Z) (ps qs : list (list Z)) (c1 c2 n : Z) :
  concat ps = concat qs -> bytes_ok (concat ps) -> zlen (concat ps) <= INT32_MAX ->
  0 <= c1 -> 0 <= c2 -> 0 < n < 2 ^ 63 ->
  let wr := mk_rio (mk_buffer (mk_sds 0 0 [0]) 0) true 0 0 c1 in
  exists wr', @write_pieces _ (rioBufferIO junk) wr ps = Some (true, wr') /\
    contents (ptr (io wr')) = concat ps /\
    let rr := mk_rio (mk_buffer (ptr (io wr')) 0) true 0 0 c2 in
    exists rr', @read_pieces _ (rioBufferIO junk) rr (zlen <$> qs) = Some (Some qs, rr') /\
      cksum wr' = foldl crc64_byte 0 (concat ps) /\ cksum rr' = cksum wr' /\
      processed_bytes wr' = zlen (concat ps) /\ processed_bytes rr' = processed_bytes wr' /\
      exists rr'', @rioRead _ (rioBufferIO junk) rr' n = Some (None, rr'').
Proof.
  intros Heq Hb Hmax Hc1 Hc2 Hn wr. unfold INT32_MAX in Hmax.
  pose proof (zlen_nonneg (concat ps)) as Hnn.
  destruct (@write_pieces_spec _ _ (rioBufferIO_laws junk) ps wr []) as (ok & wr' & Hw & Hwr);
    [by split|exists []; clear; by vm_compute|done|by cbn|].
  destruct ok; [|done]. destruct Hwr as [Hw' [_ _ _ Hcw Hpw]]. cbn in Hw', Hcw, Hpw.
  exists wr'. split; [done|]. split; [by apply contents_ok|]. cbv zeta.
  set (rr := mk_rio (mk_buffer (ptr (io wr')) 0) true 0 0 c2).
  destruct (@read_pieces_spec _ _ (rioBufferIO_laws junk) qs rr []) as (rr' & Hr & Hu & [Ho _ _ Hcr Hpr]);
    [by split|exists []; rewrite app_nil_r, <- Heq; by split|by rewrite <- Heq|].
  cbn in Hcr, Hpr. rewrite <- Heq in *. exists rr'. split; [done|]. split; [done|].
  split; [congruence|]. split; [rewrite Hpw; apply u64_small; lia|]. split; [congruence|].
  apply (@rioRead_short _ _ (rioBufferIO_laws junk) rr' []); [done|done|constructor|].
  rewrite (@zlen_nil Z). lia.
Qed.

Lemma rio_buffer_roundtrip_witness :
  exists wr', @write_pieces _ (rioBufferIO (fun _ => 7))
      (mk_rio (mk_buffer (mk_sds 0 0 [0]) 0) true 0 0 2) [[1; 2; 3]; []; [4; 5]] = Some (true, wr') /\
    exists rr', @read_pieces _ (rioBufferIO (fun _ => 7))
      (mk_rio (mk_buffer (ptr (io wr')) 0) true 0 0 0) [4; 1] = Some (Some [[1; 2; 3; 4]; [5]], rr') /\
    cksum rr' = cksum wr'.
Proof.
  destruct (rio_buffer_roundtrip (fun _ => 7) [[1; 2; 3]; []; [4; 5]] [[1; 2; 3; 4]; [5]] 2 0 1)
    as (wr' & Hw & _ & rr' & Hr & _ & Hc & _).
  - reflexivity.
  - repeat constructor; discriminate.
  - vm_compute. discriminate.
  - lia.
  - lia.
  - lia.
  - exists wr'. split; [exact Hw|]. exists rr'. split; [exact Hr|exact Hc].
Defined.

Lemma rio_write_request_witness :
  exists ok r', @write_request _ (rioBufferIO (fun _ => 7))
      (mk_rio (mk_buffer (mk_sds 0 0 [0]) 0) true 0 0 3) [EMBSTR (bytes_of_string "DEL"); INT 12]
    = Some (ok, r') /\
    if ok then sds_ok (ptr (io r')) (enc_request [bytes_of_string "DEL"; bytes_of_string "12"])
    else true = false.
Proof.
  destruct (@rio_write_request _ _ (rioBufferIO_laws (fun _ => 7))
    (mk_rio (mk_buffer (mk_sds 0 0 [0]) 0) true 0 0 3) [] [EMBSTR (bytes_of_string "DEL"); INT 12])
    as (ok & r' & Hw & Hok).
  - repeat split; discriminate.
  - exists []. by vm_compute.
  - repeat (constructor; [split; [vm_compute; try split; discriminate|
      apply (bool_decide_unpack _); vm_compute; exact I]|]). constructor.
  - vm_compute. discriminate.
  - vm_compute. discriminate.
  - exists ok, r'. split; [exact Hw|]. destruct ok; [exact (proj1 Hok)|exact Hok].
Defined.
