(* ===== verification/Aof.v ===== *)
(** * aof.c: writing the append only file

    How an executed command gets in the AOF buffer, in the format of the requests
    of Request.v, and in the blocks that accumulate what happens while a child
    rewrites the file.  The clock and the results of write(2) are parameters.
    Signed overflow, a failed assertion and an access outside of a block give
    [None]. *)

From Stdlib Require Import ZArith Lia String.
From stdpp Require Import base numbers list gmap.
From S2P Require Import Prelude Util Sds Request Object Crc Rio.

Open Scope Z_scope.

(** ** Commands as requests *)

(** The commands that are translated. *)
Inductive proc :=
  | expireCommand | pexpireCommand | expireatCommand | setexCommand | psetexCommand
  | otherCommand.

#[export] Instance proc_eq_dec : EqDecision proc.
Proof. solve_decision. Defined.

Section Encode.
Context (junk : nat -> Z).

Fixpoint cat_args (st : store) (dst : sdshdr) (argv : list loc) : option (sdshdr * store) :=
  match argv with
  | [] => Some (dst, st)
  | a :: argv =>
      '(p, st) ← getDecodedObject st a;
      o ← heap st !! p;
      let s := sds_ptr (val o) in
      h ← bulk_header 32 36 (zlen s);
      dst ← sdscatlen junk dst h (zlen h);
      dst ← sdscatlen junk dst s (zlen s);
      dst ← sdscatlen junk dst crlf 2;
      st ← decrRefCount st p;
      cat_args st dst argv
  end.

Definition catAppendOnlyGenericCommand (st : store) (dst : sdshdr) (argv : list loc)
  : option (sdshdr * store) :=
  h ← bulk_header 32 42 (zlen argv);
  dst ← sdscatlen junk dst h (zlen h);
  cat_args st dst argv.

(** A [long long] result, or undefined behaviour. *)
Definition ll_result (v : Z) : option Z :=
  if bool_decide (in_ll v) then Some v else None.

Definition catAppendOnlyExpireAtCommand (mstime : Z) (st : store) (buf : sdshdr) (cmd : proc)
    (key seconds : loc) : option (sdshdr * store) :=
  '(p, st) ← getDecodedObject st seconds;
  o ← heap st !! p;
  let when := (strtoll (sds_ptr (val o))).1 in
  when ← (match cmd with
          | expireCommand | setexCommand | expireatCommand => ll_result (when * 1000)
          | _ => Some when
          end);
  when ← (match cmd with
          | expireCommand | pexpireCommand | setexCommand | psetexCommand =>
              ll_result (when + mstime)
          | _ => Some when
          end);
  st ← decrRefCount st p;
  let '(a0, st) := createStringObject st (bytes_of_string "PEXPIREAT") in
  '(a2, st) ← createStringObjectFromLongLong st when;
  '(buf, st) ← catAppendOnlyGenericCommand st buf [a0; key; a2];
  st ← decrRefCount st a0;
  st ← decrRefCount st a2;
  Some (buf, st).

End Encode.

(** ** The blocks of differences of a rewrite *)

Definition AOF_RW_BUF_BLOCK_SIZE : Z := 1024 * 1024 * 10.

(** [data] are the bytes [buf\[0..used)] of a block; [bfree] is its field
    [free]. *)
Record aofrwblock := mk_block { data : list Z; bfree : Z }.

(** [memcpy(block->buf+block->used, s, thislen)] and the two counters. *)
Definition block_put (b : aofrwblock) (s : list Z) : option aofrwblock :=
  if zlen (data b) + zlen s <=? AOF_RW_BUF_BLOCK_SIZE
  then Some (mk_block (data b ++ s) (bfree b - zlen s)) else None.

(** The list of adlist.c is given by the sequence of its blocks.  [fuel] bounds
    the turns of the loop. *)
Fixpoint append_loop (fuel : nat) (bl : list aofrwblock) (block : option aofrwblock) (s : list Z)
  : option (list aofrwblock) :=
  if zlen s =? 0 then Some (bl ++ option_list block)
  else match fuel with
  | O => None
  | S fuel =>
      '(bl, s) ← (match block with
                  | None => Some (bl, s)
                  | Some b =>
                      let thislen := if bfree b <? zlen s then bfree b else zlen s in
                      b ← (if thislen =? 0 then Some b
                           else block_put b (take (Z.to_nat thislen) s));
                      Some (bl ++ [b], drop (Z.to_nat thislen) s)
                  end);
      if zlen s =? 0 then Some bl
      else append_loop fuel bl (Some (mk_block [] AOF_RW_BUF_BLOCK_SIZE)) s
  end.

(** [bl] without its last block, and this block. *)
Definition split_last {A} (l : list A) : list A * option A :=
  (take (length l - 1) l, last l).

(** The part of the server that the AOF uses: [aof_state] says that it is on,
    [aof_child] that a child rewrites the file, [diff_event] that the handler
    that sends the differences to the child is installed. *)
Record aof_server := mk_aof {
  aof_selected_db : Z;
  aof_state : bool;
  aof_child : bool;
  aof_buf : sdshdr;
  aof_rewrite_buf_blocks : list aofrwblock;
  diff_event : bool;
  aof_stop_sending_diff : bool;
}.

Definition set_blocks bl ev (s : aof_server) : aof_server :=
  mk_aof (aof_selected_db s) (aof_state s) (aof_child s) (aof_buf s) bl ev (aof_stop_sending_diff s).
Definition set_selected_db db (s : aof_server) : aof_server :=
  mk_aof db (aof_state s) (aof_child s) (aof_buf s) (aof_rewrite_buf_blocks s) (diff_event s)
    (aof_stop_sending_diff s).
Definition set_aof_buf b (s : aof_server) : aof_server :=
  mk_aof (aof_selected_db s) (aof_state s) (aof_child s) b (aof_rewrite_buf_blocks s) (diff_event s)
    (aof_stop_sending_diff s).

Definition aofRewriteBufferReset (s : aof_server) : aof_server := set_blocks [] (diff_event s) s.

Definition aofRewriteBufferSize (s : aof_server) : Z :=
  foldl (fun size b => u64 (size + zlen (data b))) 0 (aof_rewrite_buf_blocks s).

(** The logging of every tenth block is left out. *)
Definition aofRewriteBufferAppend (s : aof_server) (bs : list Z) : option aof_server :=
  let '(bl, block) := split_last (aof_rewrite_buf_blocks s) in
  bl ← append_loop (2 + length bs) bl block bs;
  Some (set_blocks bl true s).

(** write(2) of [count] bytes on a descriptor that takes at most [room] of them. *)
Definition sys_write (room count : Z) : Z := if room <=? 0 then -1 else Z.min room count.

(** [rooms] are the sizes that the pipe takes in the successive calls; the calls
    after the last one would block.  The result is the blocks left, whether the
    handler stays installed, and what the child has received. *)
Fixpoint diff_loop (fuel : nat) (stop : bool) (rooms : list Z) (bl : list aofrwblock)
    (out : list Z) : option (list aofrwblock * bool * list Z) :=
  match bl with
  | [] => Some ([], false, out)
  | b :: bl' =>
      if stop then Some (bl, false, out)
      else match fuel with
      | O => None
      | S fuel =>
          if zlen (data b) >? 0 then
            let nwritten := sys_write (default 0 (head rooms)) (zlen (data b)) in
            if nwritten <=? 0 then Some (bl, true, out)
            else
              sent ← load (data b) 0 nwritten;
              let b := mk_block (drop (Z.to_nat nwritten) (data b)) (bfree b) in
              diff_loop fuel stop (tail rooms) (if zlen (data b) =? 0 then bl' else b :: bl')
                (out ++ sent)
          else diff_loop fuel stop rooms bl' out
      end
  end.

Definition aofChildWriteDiffData (s : aof_server) (rooms : list Z)
  : option (aof_server * list Z) :=
  let bl := aof_rewrite_buf_blocks s in
  '(bl, ev, out) ← diff_loop (1 + length bl + length rooms) (aof_stop_sending_diff s) rooms bl [];
  Some (set_blocks bl ev s, out).

(** The result is that of the function, and what is in the file. *)
Fixpoint write_blocks (rooms : list Z) (bl : list aofrwblock) (count : Z) (out : list Z)
  : Z * list Z :=
  match bl with
  | [] => (count, out)
  | b :: bl =>
      if zlen (data b) =? 0 then write_blocks rooms bl count out
      else
        let nwritten := sys_write (default 0 (head rooms)) (zlen (data b)) in
        let out := out ++ take (Z.to_nat nwritten) (data b) in
        if negb (nwritten =? zlen (data b)) then (-1, out)
        else write_blocks (tail rooms) bl (count + nwritten) out
  end.

Definition aofRewriteBufferWrite (s : aof_server) (rooms : list Z) : Z * list Z :=
  write_blocks rooms (aof_rewrite_buf_blocks s) 0 [].

(** ** Feeding the file *)

Section Feed.
Context (junk : nat -> Z).

(** The text that [sdscatprintf] formats to select a database. *)
Definition select_text (dictid : Z) : list Z :=
  let seldb := ll_repr dictid in
  bytes_of_string "*2" ++ crlf ++ bytes_of_string "$6" ++ crlf ++ bytes_of_string "SELECT" ++ crlf ++
  bytes_of_string "$" ++ ll_repr (zlen seldb) ++ crlf ++ seldb ++ crlf.

Definition feedAppendOnlyFile (mstime : Z) (s : aof_server) (st : store) (cmd : proc)
    (dictid : Z) (argv : list loc) : option (aof_server * store) :=
  buf ← sdsempty junk;
  '(buf, s) ← (if negb (dictid =? aof_selected_db s) then
                 buf ← sdscat junk buf (select_text dictid ++ [0]);
                 Some (buf, set_selected_db dictid s)
               else Some (buf, s));
  '(buf, st) ← (match cmd with
                | expireCommand | pexpireCommand | expireatCommand =>
                    key ← getb argv 1;
                    seconds ← getb argv 2;
                    catAppendOnlyExpireAtCommand junk mstime st buf cmd key seconds
                | setexCommand | psetexCommand =>
                    key ← getb argv 1;
                    seconds ← getb argv 2;
                    value ← getb argv 3;
                    let '(a0, st) := createStringObject st (bytes_of_string "SET") in
                    '(buf, st) ← catAppendOnlyGenericCommand junk st buf [a0; key; value];
                    st ← decrRefCount st a0;
                    catAppendOnlyExpireAtCommand junk mstime st buf cmd key seconds
                | otherCommand => catAppendOnlyGenericCommand junk st buf argv
                end);
  s ← (if aof_state s then
         b ← sdscatlen junk (aof_buf s) (Sds.buf buf) (len buf);
         Some (set_aof_buf b s)
       else Some s);
  s ← (if aof_child s then aofRewriteBufferAppend s (contents buf) else Some s);
  Some (s, st).

End Feed.

(** ** Lemmas: requests *)

(** The store keeps its references and the strings of its objects. *)
Definition keeps (st st' : store) : Prop := store_ok st' /\ moves st st' None None.

Lemma keeps_refl st : store_ok st -> keeps st st.
Proof. split; [done|apply moves_none]. Qed.

Lemma keeps_trans st1 st2 st3 : store_ok st1 -> keeps st1 st2 -> keeps st2 st3 -> keeps st1 st3.
Proof. intros Hst [H1 M1] [H2 M2]. split; [done|]. by eapply moves_comp. Qed.

Lemma keeps_holds st st' p s : store_ok st -> keeps st st' -> holds st p s -> holds st' p s.
Proof. intros Hst [_ Hm]. by eapply holds_kept. Qed.

Lemma keeps_margin k st st' : keeps st st' -> margin k st -> margin k st'.
Proof. intros [Hst' Hm]. by apply moves_margin_same. Qed.

(** [getDecodedObject] and the [decrRefCount] that follows its use. *)
Lemma get_decr st p s :
  store_ok st -> room st -> holds st p s ->
  exists q st1 o st2, getDecodedObject st p = Some (q, st1) /\ heap st1 !! q = Some o /\
    sds_ptr (val o) = s /\ decrRefCount st1 q = Some st2 /\ keeps st st2 /\ zlen s <= 536870912.
Proof.
  intros Hst Hroom (o & Hp & <-).
  destruct (getDecodedObject_spec st p o Hst Hroom Hp) as (q & st1 & o1 & Hg & Hst1 & Hq & Henc & Hv & Hm).
  destruct (decrRefCount_spec st1 q o1 Hst1 Hq) as (st2 & Hd & Hst2 & Hm2 & _); [done|].
  exists q, st1, o1, st2. split; [done|]. split; [done|]. split; [|split; [done|split]].
  - rewrite <- Hv. by destruct (val o1).
  - split; [done|]. by eapply moves_undo.
  - apply value_len, (ok_obj st Hst p o Hp).
Qed.

Section EncodeFacts.
Context (junk : nat -> Z).

Lemma catlen_self s l bs :
  sds_ok s l -> zlen l + zlen bs <= INT32_MAX ->
  exists s', sdscatlen junk s bs (zlen bs) = Some s' /\ sds_ok s' (l ++ bs).
Proof. intros Hs Hmax. apply catlen_spec; [done| |done]. by apply load_self. Qed.

Lemma len_in_ll n : 0 <= n <= INT32_MAX -> in_ll n.
Proof. unfold INT32_MAX, in_ll, LLONG_MIN, LLONG_MAX. lia. Qed.

Lemma cat_args_spec argv : forall st dst l vs,
  store_ok st -> room st -> sds_ok dst l -> Forall2 (holds st) argv vs ->
  zlen l + zlen (enc_args vs) <= INT32_MAX ->
  exists dst' st', cat_args junk st dst argv = Some (dst', st') /\ sds_ok dst' (l ++ enc_args vs) /\
    keeps st st'.
Proof.
  induction argv as [|a argv IH]; intros st dst l vs Hst Hroom Hdst Hvs Hmax;
    inversion Hvs as [|? v ? vs' Ha Hvs']; subst; cbn [cat_args].
  - exists dst, st. rewrite app_nil_r. by split_and!; [..|apply keeps_refl].
  - unfold enc_args in *. cbn [fmap list_fmap concat] in *.
    unfold enc_bulk at 1 in Hmax. rewrite app_comm_cons, !zlen_app in Hmax.
    change (zlen crlf) with 2 in Hmax.
    pose proof (zlen_nonneg v). pose proof (zlen_nonneg (concat (enc_bulk <$> vs'))) as Hr.
    pose proof (zlen_nonneg (36 :: ll_repr (zlen v))) as Hh. pose proof (zlen_nonneg l).
    destruct (get_decr st a v Hst Hroom Ha) as (q & st1 & o & st2 & -> & Hq & Hs & Hd & Hk & Hv).
    sbind. rewrite Hq. sbind. rewrite Hs.
    rewrite bulk_header_spec by (try lia; apply len_in_ll; unfold INT32_MAX; lia). sbind.
    destruct (catlen_self dst l (36 :: ll_repr (zlen v) ++ crlf)) as (d1 & -> & Hd1);
      [done|rewrite app_comm_cons, zlen_app; change (zlen crlf) with 2; lia|]. sbind.
    destruct (catlen_self d1 _ v Hd1) as (d2 & -> & Hd2);
      [rewrite zlen_app, app_comm_cons, zlen_app; change (zlen crlf) with 2; lia|]. sbind.
    destruct (catlen_self d2 _ crlf Hd2) as (d3 & Hc3 & Hd3);
      [rewrite !zlen_app, app_comm_cons, zlen_app; change (zlen crlf) with 2; lia|].
    change (zlen crlf) with 2 in Hc3. rewrite Hc3. sbind. rewrite Hd. sbind.
    assert (room st2) as Hroom2.
    { apply (margin_room 1); [lia|]. eapply keeps_margin; [done|].
      intros p o' Hp. specialize (Hroom p o' Hp). lia. }
    assert (((l ++ 36 :: ll_repr (zlen v) ++ crlf) ++ v) ++ crlf = l ++ enc_bulk v) as Hl
      by (unfold enc_bulk; by rewrite <- !app_assoc, <- !app_comm_cons, <- !app_assoc).
    rewrite Hl in Hd3.
    destruct (IH st2 d3 (l ++ enc_bulk v) vs') as (dst' & st' & -> & Hdst' & Hk');
      [apply Hk|done|done| | |].
    { eapply Forall2_impl; [exact Hvs'|]. intros p w. by apply keeps_holds. }
    { rewrite zlen_app. unfold enc_bulk at 1. rewrite app_comm_cons, !zlen_app.
      change (zlen crlf) with 2. fold enc_bulk. lia. }
    exists dst', st'. split; [done|]. rewrite <- app_assoc in Hdst'. split; [done|].
    by eapply keeps_trans.
Qed.

Lemma catAppendOnlyGenericCommand_spec st dst l argv vs :
  store_ok st -> room st -> sds_ok dst l -> Forall2 (holds st) argv vs ->
  zlen l + zlen (enc_request vs) <= INT32_MAX ->
  exists dst' st', catAppendOnlyGenericCommand junk st dst argv = Some (dst', st') /\
    sds_ok dst' (l ++ enc_request vs) /\ keeps st st'.
Proof.
  intros Hst Hroom Hdst Hvs Hmax. unfold catAppendOnlyGenericCommand, enc_request in *.
  assert (zlen argv = zlen vs) as -> by (unfold zlen; by rewrite (Forall2_length _ _ _ Hvs)).
  rewrite !app_comm_cons, !zlen_app in Hmax. change (zlen crlf) with 2 in Hmax.
  pose proof (zlen_nonneg (enc_args vs)). pose proof (zlen_nonneg l).
  pose proof (zlen_nonneg (42 :: ll_repr (zlen vs))).
  assert (zlen vs <= zlen (enc_args vs)) as Hle.
  { clear. unfold enc_args. induction vs as [|v vs IH]; [done|].
    cbn [fmap list_fmap concat]. rewrite zlen_cons, zlen_app. unfold enc_bulk at 1.
    rewrite zlen_cons. pose proof (zlen_nonneg (ll_repr (zlen v) ++ crlf ++ v ++ crlf)). lia. }
  rewrite bulk_header_spec by (try lia; apply len_in_ll; pose proof (zlen_nonneg vs); lia). sbind.
  destruct (catlen_self dst l (42 :: ll_repr (zlen vs) ++ crlf)) as (d1 & -> & Hd1);
    [done|rewrite app_comm_cons, zlen_app; change (zlen crlf) with 2; lia|]. sbind.
  destruct (cat_args_spec argv st d1 _ vs Hst Hroom Hd1 Hvs) as (dst' & st' & -> & Hdst' & Hk);
    [rewrite zlen_app, app_comm_cons, zlen_app; change (zlen crlf) with 2; lia|].
  exists dst', st'. split; [done|]. split; [|done].
  by rewrite <- app_assoc, <- app_comm_cons, <- app_assoc in Hdst'.
Qed.

(** The time of the PEXPIREAT that stands for a command with the argument [v],
    at the time [now]. *)
Definition expire_time (now : Z) (cmd : proc) (v : list Z) : option Z :=
  let when := (strtoll v).1 in
  when ← (match cmd with
          | expireCommand | setexCommand | expireatCommand => ll_result (when * 1000)
          | _ => Some when
          end);
  match cmd with
  | expireCommand | pexpireCommand | setexCommand | psetexCommand => ll_result (when + now)
  | _ => Some when
  end.

Definition PEXPIREAT : list Z := bytes_of_string "PEXPIREAT".

Lemma expire_time_ll now cmd v w : expire_time now cmd v = Some w -> in_ll w.
Proof.
  unfold expire_time, ll_result. pose proof (strtoll_ll v). 
  intros (w1 & Hw1 & Hw)%bind_Some.
  destruct cmd; repeat case_bool_decide; simplify_eq/=; done.
Qed.

Lemma catAppendOnlyExpireAtCommand_spec now st buf l cmd key seconds k v w :
  store_ok st -> margin 3 st -> sds_ok buf l -> holds st key k -> holds st seconds v ->
  expire_time now cmd v = Some w ->
  zlen l + zlen (enc_request [PEXPIREAT; k; ll_repr w]) <= INT32_MAX ->
  exists buf' st', catAppendOnlyExpireAtCommand junk now st buf cmd key seconds = Some (buf', st') /\
    sds_ok buf' (l ++ enc_request [PEXPIREAT; k; ll_repr w]) /\ keeps st st'.
Proof.
  intros Hst Hm Hbuf Hkey Hsec Hw Hmax. pose proof (expire_time_ll _ _ _ _ Hw) as Hwll.
  unfold catAppendOnlyExpireAtCommand.
  destruct (get_decr st seconds v Hst) as (q & st1 & o & st2 & -> & Hq & Hs & Hd & Hk2 & _);
    [by apply (margin_room 3)|done|].
  sbind. rewrite Hq. sbind. rewrite Hs. unfold expire_time in Hw. cbv zeta.
  apply bind_Some in Hw as (w1 & -> & Hw). sbind. rewrite Hw. sbind. rewrite Hd. sbind.
  pose proof (keeps_margin 3 st st2 Hk2 Hm) as Hm2. pose proof Hk2 as [Hst2 _].
  fold PEXPIREAT. destruct (createStringObject st2 PEXPIREAT) as [a0 st3] eqn:Hc0.
  apply createStringObject_spec in Hc0 as (_ & Hst3 & Hm3 & Ha0 & _); [|done|done].
  assert (margin 2 st3) as Hmar3 by (eapply moves_margin; [done|split; done|done]).
  destruct (createStringObjectFromLongLong_spec st3 w Hst3) as (a2 & st4 & -> & Hst4 & Hm4 & Ha2 & Hr2);
    [by apply (margin_room 2)|done|].
  sbind.
  assert (margin 1 st4) as Hmar4 by (eapply moves_margin; [done|split; done|done]).
  destruct (catAppendOnlyGenericCommand_spec st4 buf l [a0; key; a2] [PEXPIREAT; k; ll_repr w])
    as (buf' & st5 & -> & Hbuf' & Hst5 & Hm5); [done|by apply (margin_room 1)|done| |done|].
  { constructor; [by eapply (holds_kept st3 st4)|]. constructor; [|by constructor].
    eapply (holds_kept st3 st4); [done..|]. eapply (holds_kept st2 st3); [done..|].
    by eapply (keeps_holds st). }
  sbind.
  assert (holds st5 a0 PEXPIREAT) as Ha0'
    by (eapply (holds_kept st4 st5); [done..|]; by eapply (holds_kept st3 st4)).
  assert (holds st5 a2 (ll_repr w)) as Ha2' by (by eapply (holds_kept st4 st5)).
  destruct (decr_holds st5 a0 PEXPIREAT Hst5 Ha0') as (st6 & -> & Hst6 & Hm6);
    [intros _ i; by apply not_numeral|]. sbind.
  assert (a0 <> a2) as Hne.
  { intros ->. destruct Ha0' as (o1 & E1 & F1), Ha2' as (o2 & E2 & F2).
    assert (PEXPIREAT = ll_repr w) as Heq by congruence.
    pose proof (string2ll_complete w Hwll) as Hc. by rewrite <- Heq in Hc. }
  assert (holds st6 a2 (ll_repr w)) as Ha2''.
  { eapply moves_holds; [done..| |done]. right. congruence. }
  destruct (decr_holds st6 a2 (ll_repr w) Hst6 Ha2'') as (st7 & -> & Hst7 & Hm7).
  { intros Hone i Hi Heq. destruct Hr2 as [Hr2|Hr2].
    - destruct Hm6 as [R6 _], Hm5 as [R5 _].
      rewrite R6, R5, !count_none, count_other in Hone by done. lia.
    - apply ll_repr_inj in Heq; [by subst|done|].
      unfold in_ll, LLONG_MIN, LLONG_MAX, REDIS_SHARED_INTEGERS in *. lia. }
  sbind. exists buf', st7. split; [done|]. split; [done|].
  eapply keeps_trans; [done|done|]. split; [done|].
  by eapply (moves_close st2 st3 st4 st5 st6 st7).
Qed.
End EncodeFacts.

(** ** Lemmas: the blocks *)

(** The counters of a block stay within its array. *)
Definition block_ok (b : aofrwblock) : Prop :=
  0 <= bfree b /\ zlen (data b) + bfree b <= AOF_RW_BUF_BLOCK_SIZE.

(** What the blocks hold. *)
Definition pending (bl : list aofrwblock) : list Z := concat (data <$> bl).

Lemma pending_app bl bl' : pending (bl ++ bl') = pending bl ++ pending bl'.
Proof. unfold pending. by rewrite fmap_app, concat_app. Qed.

Lemma append_loop_spec fuel : forall bl block s,
  Forall block_ok bl -> Forall block_ok (option_list block) ->
  (length s + (match block with Some b => if (0 <? bfree b)%Z then 0 else 1 | None => 1 end) <= fuel)%nat ->
  exists bl', append_loop fuel bl block s = Some bl' /\ Forall block_ok bl' /\
    pending bl' = pending bl ++ pending (option_list block) ++ s.
Proof.
  induction fuel as [|fuel IH]; intros bl block s Hbl Hb Hf; cbn [append_loop].
  - destruct s; [|simpl in Hf; lia]. exists (bl ++ option_list block).
    rewrite app_nil_r, pending_app. split; [done|]. split; [by apply Forall_app|done].
  - destruct (Z.eqb_spec (zlen s) 0) as [Hz|Hz].
    { apply zlen_0 in Hz as ->. exists (bl ++ option_list block).
      rewrite app_nil_r, pending_app. split; [done|]. split; [by apply Forall_app|done]. }
    assert (block_ok (mk_block [] AOF_RW_BUF_BLOCK_SIZE)) as Hnew by done.
    destruct block as [b|]; cbn [option_list] in *.
    + apply Forall_cons in Hb as [[Hb0 Hb1] _].
      set (n := if bfree b <? zlen s then bfree b else zlen s). pose proof (zlen_nonneg s).
      assert (0 <= n <= zlen s /\ n <= bfree b /\ (0 < bfree b -> 0 < n)) as Hn by (subst n; destruct (Z.ltb_spec (bfree b) (zlen s)); lia).
      assert (exists b', (if n =? 0 then Some b else block_put b (take (Z.to_nat n) s)) = Some b' /\
        data b' = data b ++ take (Z.to_nat n) s /\ bfree b' = bfree b - n) as (b' & -> & Hd & Hfr).
      { destruct (Z.eqb_spec n 0) as [Hn0|Hn0].
        - exists b. rewrite Hn0. cbn [Z.to_nat take]. rewrite take_0, app_nil_r. split; [done|]. split; [done|lia].
        - unfold block_put. rewrite zlen_take, (proj2 (Z.leb_le _ _)) by lia.
          eexists. split; [done|]. cbn. split; [done|lia]. }
      sbind. assert (block_ok b') as Hb'.
      { unfold block_ok. rewrite Hd, Hfr, zlen_app, zlen_take. lia. }
      pose proof (zlen_drop s (Z.to_nat n)) as Hzd.
      assert (pending (bl ++ [b']) ++ drop (Z.to_nat n) s = pending bl ++ pending [b] ++ s) as Hp.
      { rewrite pending_app. unfold pending at 2 4. cbn. rewrite Hd, !app_nil_r, <- !app_assoc.
        by rewrite take_drop. }
      destruct (Z.eqb_spec (zlen (drop (Z.to_nat n) s)) 0) as [Hz2|Hz2].
      * apply zlen_0 in Hz2. rewrite Hz2, app_nil_r in Hp. exists (bl ++ [b']).
        split; [done|]. split; [by apply Forall_app_2; [|apply Forall_singleton]|done].
      * destruct (IH (bl ++ [b']) (Some (mk_block [] AOF_RW_BUF_BLOCK_SIZE)) (drop (Z.to_nat n) s))
          as (bl' & -> & Hok & Hpe); [by apply Forall_app_2; [|apply Forall_singleton]|by apply Forall_singleton| |].
        { cbn [bfree]. change (0 <? AOF_RW_BUF_BLOCK_SIZE) with true. cbv iota.
          unfold zlen in *. destruct (Z.ltb_spec 0 (bfree b)); lia. }
        exists bl'. split; [done|]. split; [done|]. rewrite Hpe. cbn [option_list].
        change (pending (option_list (Some (mk_block [] AOF_RW_BUF_BLOCK_SIZE)))) with (@nil Z).
        change (option_list (Some b)) with [b]. by rewrite app_nil_l, Hp.
    + sbind. rewrite (proj2 (Z.eqb_neq _ _)) by done.
      destruct (IH bl (Some (mk_block [] AOF_RW_BUF_BLOCK_SIZE)) s)
        as (bl' & -> & Hok & Hpe); [done|by apply Forall_singleton| |].
      { cbn [bfree]. change (0 <? AOF_RW_BUF_BLOCK_SIZE) with true. cbv iota. lia. }
      exists bl'. by split.
Qed.

Lemma split_last_app {A} (l : list A) : (split_last l).1 ++ option_list (split_last l).2 = l.
Proof.
  unfold split_last. cbn. destruct l as [|x l _] using rev_ind; [done|].
  rewrite last_snoc, length_app. cbn [length option_list].
  replace (length l + 1 - 1)%nat with (length l) by lia. by rewrite take_app_length.
Qed.

Lemma aofRewriteBufferAppend_spec s bs :
  Forall block_ok (aof_rewrite_buf_blocks s) ->
  exists bl, aofRewriteBufferAppend s bs = Some (set_blocks bl true s) /\ Forall block_ok bl /\
    pending bl = pending (aof_rewrite_buf_blocks s) ++ bs.
Proof.
  intros Hok. unfold aofRewriteBufferAppend.
  pose proof (split_last_app (aof_rewrite_buf_blocks s)) as Heq.
  destruct (split_last (aof_rewrite_buf_blocks s)) as [bl b]. cbn in Heq. rewrite <- Heq in *.
  apply Forall_app in Hok as [H1 H2].
  destruct (append_loop_spec (2 + length bs) bl b bs H1 H2) as (bl' & -> & Hok & Hp).
  { destruct b; [case_match|]; lia. }
  sbind. exists bl'. rewrite pending_app, <- app_assoc. done.
Qed.

Lemma diff_loop_spec fuel : forall stop rooms bl out,
  Forall block_ok bl -> (length bl + length rooms < fuel)%nat ->
  exists bl' ev out', diff_loop fuel stop rooms bl out = Some (bl', ev, out') /\
    Forall block_ok bl' /\ out' ++ pending bl' = out ++ pending bl.
Proof.
  induction fuel as [|fuel IH]; intros stop rooms bl out Hok Hf; [lia|].
  destruct bl as [|b bl]; cbn [diff_loop]; [eexists _, _, _; by split|].
  destruct stop; [eexists _, _, _; by split|]. apply Forall_cons in Hok as [[Hb0 Hb1] Hbl].
  rewrite Z.gtb_ltb. destruct (Z.ltb_spec 0 (zlen (data b))) as [Hu|Hu].
  - set (n := sys_write _ _). destruct (Z.leb_spec n 0).
    { eexists _, _, _. split; [done|]. split; [by constructor|done]. }
    assert (n <= zlen (data b)) as Hn.
    { subst n. unfold sys_write. case_match; lia. }
    assert (rooms <> []) as Hne by (intros E; subst n; by rewrite E in *).
    rewrite <- (take_drop (Z.to_nat n) (data b)) in Hb1 |- *.
    assert (zlen (take (Z.to_nat n) (data b)) = n) as Hz by (rewrite zlen_take; lia).
    rewrite load_prefix by done. sbind.
    set (p := take (Z.to_nat n) (data b)) in *. set (q := drop (Z.to_nat n) (data b)) in *.
    replace (drop (Z.to_nat n) (p ++ q)) with q.
    2: { rewrite <- Hz, to_nat_zlen. by rewrite drop_app_length. }
    rewrite zlen_app in Hb1. cbn [data].
    assert (data b = p ++ q) as Hd by (subst p q; by rewrite take_drop).
    set (bl1 := if zlen q =? 0 then bl else mk_block q (bfree b) :: bl).
    assert (Forall block_ok bl1 /\ pending bl1 = q ++ pending bl /\ (length bl1 <= S (length bl))%nat)
      as (Hok1 & Hp1 & Hl1).
    { subst bl1. destruct (Z.eqb_spec (zlen q) 0) as [Hz0|_].
      - apply zlen_0 in Hz0. rewrite Hz0. split; [done|]. split; [done|lia].
      - split; [constructor; [|done]; split; cbn; pose proof (zlen_nonneg p); lia|]. split; [done|simpl; lia]. }
    destruct (IH false (tail rooms) bl1 (out ++ p) Hok1) as (bl' & ev & out' & -> & Hok' & Hp').
    { destruct rooms; [done|]. simpl in *. lia. }
    eexists _, _, _. split; [done|]. split; [done|]. rewrite Hp', Hp1.
    unfold pending at 2. cbn. fold (pending bl). by rewrite Hd, <- !app_assoc.
  - assert (data b = []) as Hd by (apply zlen_0; pose proof (zlen_nonneg (data b)); lia).
    destruct (IH false rooms bl out Hbl) as (bl' & ev & out' & -> & Hok' & Hp'); [simpl in Hf; lia|].
    eexists _, _, _. split; [done|]. split; [done|]. rewrite Hp'. unfold pending at 2. cbn. by rewrite Hd.
Qed.

Lemma aofChildWriteDiffData_spec s rooms :
  Forall block_ok (aof_rewrite_buf_blocks s) ->
  exists bl ev out, aofChildWriteDiffData s rooms = Some (set_blocks bl ev s, out) /\
    Forall block_ok bl /\ out ++ pending bl = pending (aof_rewrite_buf_blocks s).
Proof.
  intros Hok. unfold aofChildWriteDiffData.
  destruct (diff_loop_spec (1 + length (aof_rewrite_buf_blocks s) + length rooms)
    (aof_stop_sending_diff s) rooms (aof_rewrite_buf_blocks s) [] Hok)
    as (bl & ev & out & -> & Hb & Hp); [lia|].
  sbind. by exists bl, ev, out.
Qed.

(** ** Lemmas: feeding *)

Definition SELECT : list Z := bytes_of_string "SELECT".
Definition SET : list Z := bytes_of_string "SET".

(** The strings of the arguments of a command. *)
Definition values (st : store) (argv : list loc) : option (list (list Z)) :=
  mapM (fun p => o ← heap st !! p; Some (value (val o))) argv.

(** The requests that a command with the arguments [vs] becomes, when the last
    command was for the database [sel]. *)
Definition feed_requests (sel now : Z) (cmd : proc) (dictid : Z) (vs : list (list Z))
  : option (list (list (list Z))) :=
  body ← (match cmd with
          | expireCommand | pexpireCommand | expireatCommand =>
              k ← getb vs 1; v ← getb vs 2;
              w ← expire_time now cmd v;
              Some [[PEXPIREAT; k; ll_repr w]]
          | setexCommand | psetexCommand =>
              k ← getb vs 1; v ← getb vs 2; x ← getb vs 3;
              w ← expire_time now cmd v;
              Some [[SET; k; x]; [PEXPIREAT; k; ll_repr w]]
          | otherCommand => Some [vs]
          end);
  Some ((if dictid =? sel then [] else [[SELECT; ll_repr dictid]]) ++ body).

Lemma values_holds st argv vs : values st argv = Some vs <-> Forall2 (holds st) argv vs.
Proof.
  unfold values. rewrite mapM_Some. split; intros Hf; (eapply Forall2_impl; [exact Hf|]); intros p v.
  - intros (o & Ho & [= <-])%bind_Some. by exists o.
  - intros (o & -> & <-). done.
Qed.

Lemma Forall2_getb {A B} (P : A -> B -> Prop) l k i y :
  Forall2 P l k -> getb k i = Some y -> exists x, getb l i = Some x /\ P x y.
Proof.
  intros Hf Hy. unfold getb in *. case_match; [|done].
  by apply (Forall2_lookup_r _ _ _ _ _ Hf) in Hy.
Qed.

Lemma ll_repr_no_nul v : in_ll v -> no_nul (ll_repr v).
Proof.
  intros Hv. destruct (ll_repr_shape v Hv) as (sg & ds & -> & Hd & _ & _ & Hsg).
  apply Forall_app. split.
  - destruct Hsg as [[-> _]|[-> _]]; by repeat constructor.
  - eapply Forall_impl; [exact Hd|]. intros c Hc -> . by vm_compute in Hc.
Qed.

Lemma select_text_spec dictid :
  in_ll dictid ->
  select_text dictid = enc_request [SELECT; ll_repr dictid] /\ no_nul (select_text dictid).
Proof.
  intros Hd. split.
  - unfold select_text, enc_request, enc_args, enc_bulk. cbn [fmap list_fmap concat].
    rewrite app_nil_r. change (ll_repr (zlen [SELECT; ll_repr dictid])) with (bytes_of_string "2").
    change (ll_repr (zlen SELECT)) with (bytes_of_string "6"). reflexivity.
  - unfold select_text, no_nul. pose proof (ll_repr_len _ Hd).
    pose proof (zlen_nonneg (ll_repr dictid)).
    assert (in_ll (zlen (ll_repr dictid))) by (unfold in_ll, LLONG_MIN, LLONG_MAX; lia).
    repeat (apply Forall_app_2); try (by apply ll_repr_no_nul);
      apply (bool_decide_unpack _); vm_compute; exact I.
Qed.

Lemma sds_load b l : sds_ok b l -> load (Sds.buf b) 0 (len b) = Some l.
Proof. intros (rest & -> & _). cbn [Sds.buf len]. by apply load_prefix. Qed.

Section FeedFacts.
Context (junk : nat -> Z).

Lemma zlen_enc_all rs rs' : zlen (enc_all (rs ++ rs')) = zlen (enc_all rs) + zlen (enc_all rs').
Proof. unfold enc_all. by rewrite fmap_app, concat_app, zlen_app. Qed.

Lemma enc_all_one r : enc_all [r] = enc_request r.
Proof. unfold enc_all. cbn [fmap list_fmap concat]. apply app_nil_r. Qed.

(** The part of the feeding that depends on the command. *)
Lemma feed_body_spec now st buf l cmd argv vs body :
  store_ok st -> margin 3 st -> sds_ok buf l -> Forall2 (holds st) argv vs ->
  feed_requests 0 now cmd 0 vs = Some body -> zlen l + zlen (enc_all body) <= INT32_MAX ->
  exists buf' st',
    (match cmd with
     | expireCommand | pexpireCommand | expireatCommand =>
         key ← getb argv 1;
         seconds ← getb argv 2;
         catAppendOnlyExpireAtCommand junk now st buf cmd key seconds
     | setexCommand | psetexCommand =>
         key ← getb argv 1;
         seconds ← getb argv 2;
         value ← getb argv 3;
         let '(a0, st) := createStringObject st (bytes_of_string "SET") in
         '(buf, st) ← catAppendOnlyGenericCommand junk st buf [a0; key; value];
         st ← decrRefCount st a0;
         catAppendOnlyExpireAtCommand junk now st buf cmd key seconds
     | otherCommand => catAppendOnlyGenericCommand junk st buf argv
     end) = Some (buf', st') /\ sds_ok buf' (l ++ enc_all body) /\ keeps st st'.
Proof.
  intros Hst Hm Hbuf Hvs Hreq Hmax.
  assert (cmd = otherCommand \/ (cmd = setexCommand \/ cmd = psetexCommand) \/
    (cmd = expireCommand \/ cmd = pexpireCommand \/ cmd = expireatCommand)) as [Hc|[Hc|Hc]]
    by (destruct cmd; auto 6).
  - subst cmd. cbn in Hreq. injection Hreq as <-. rewrite enc_all_one in *.
    apply catAppendOnlyGenericCommand_spec; try done. by apply (margin_room 3).
  - assert (exists k v x w, getb vs 1 = Some k /\ getb vs 2 = Some v /\ getb vs 3 = Some x /\
      expire_time now cmd v = Some w /\ body = [[SET; k; x]; [PEXPIREAT; k; ll_repr w]])
      as (k & v & x & w & Hk & Hv & Hx & Hw & ->).
    { destruct Hc as [-> | ->]; unfold feed_requests in Hreq; inv_bind; eauto 10. }
    destruct (Forall2_getb _ _ _ _ _ Hvs Hk) as (pk & Hpk & Hhk).
    destruct (Forall2_getb _ _ _ _ _ Hvs Hv) as (pv & Hpv & Hhv).
    destruct (Forall2_getb _ _ _ _ _ Hvs Hx) as (px & Hpx & Hhx).
    match goal with |- exists b s, ?M = _ /\ _ => assert (M = (let '(a0, st) := createStringObject st SET in
         '(buf, st) ← catAppendOnlyGenericCommand junk st buf [a0; pk; px];
         st ← decrRefCount st a0;
         catAppendOnlyExpireAtCommand junk now st buf cmd pk pv)) as -> end.
    { rewrite Hpk, Hpv, Hpx. sbind. by destruct Hc as [-> | ->]. }
    assert (enc_all [[SET; k; x]; [PEXPIREAT; k; ll_repr w]]
      = enc_request [SET; k; x] ++ enc_request [PEXPIREAT; k; ll_repr w]) as Henc
      by (unfold enc_all; cbn [fmap list_fmap concat]; by rewrite app_nil_r).
    rewrite Henc, ?zlen_app in *. clear Henc.
    pose proof (zlen_nonneg (enc_request [PEXPIREAT; k; ll_repr w])).
    destruct (createStringObject st SET) as [a0 st1] eqn:Hc0.
    apply createStringObject_spec in Hc0 as (_ & Hst1 & Hm1 & Ha0 & _); [|done|done].
    assert (margin 2 st1) as Hmar1 by (eapply moves_margin; [done|split; done|done]).
    destruct (catAppendOnlyGenericCommand_spec junk st1 buf l [a0; pk; px] [SET; k; x])
      as (buf1 & st2 & -> & Hbuf1 & Hst2 & Hm2); [done|by apply (margin_room 2)|done| |lia|].
    { constructor; [done|]. constructor; [by eapply (holds_kept st)|].
      constructor; [by eapply (holds_kept st)|constructor]. }
    sbind. destruct (decr_holds st2 a0 SET Hst2) as (st3 & -> & Hst3 & Hm3);
      [by eapply (holds_kept st1)|intros _ i; by apply not_numeral|].
    sbind. assert (keeps st st3) as Hk3.
    { split; [done|]. by eapply (moves_close st st1 st1 st2 st3 st3 _ None); try apply moves_none. }
    destruct (catAppendOnlyExpireAtCommand_spec junk now st3 buf1 (l ++ enc_request [SET; k; x]) cmd pk pv k v w)
      as (buf' & st' & -> & Hbuf' & Hk'); try done.
    + by eapply keeps_margin.
    + by eapply (keeps_holds st).
    + by eapply (keeps_holds st).
    + rewrite zlen_app. lia.
    + exists buf', st'. split; [done|]. split; [by rewrite app_assoc|].
      by eapply keeps_trans.
  - assert (exists k v w, getb vs 1 = Some k /\ getb vs 2 = Some v /\
      expire_time now cmd v = Some w /\ body = [[PEXPIREAT; k; ll_repr w]])
      as (k & v & w & Hk & Hv & Hw & ->).
    { destruct Hc as [-> |[-> | ->]]; unfold feed_requests in Hreq; inv_bind; eauto 10. }
    destruct (Forall2_getb _ _ _ _ _ Hvs Hk) as (pk & Hpk & Hhk).
    destruct (Forall2_getb _ _ _ _ _ Hvs Hv) as (pv & Hpv & Hhv).
    match goal with |- exists b s, ?M = _ /\ _ =>
      assert (M = catAppendOnlyExpireAtCommand junk now st buf cmd pk pv) as -> end.
    { rewrite Hpk, Hpv. sbind. by destruct Hc as [-> |[-> | ->]]. }
    rewrite enc_all_one in *. by eapply catAppendOnlyExpireAtCommand_spec.
Qed.

Lemma feed_requests_sel sel now cmd dictid vs rs :
  feed_requests sel now cmd dictid vs = Some rs ->
  exists body, feed_requests 0 now cmd 0 vs = Some body /\
    rs = (if dictid =? sel then [] else [[SELECT; ll_repr dictid]]) ++ body.
Proof.
  unfold feed_requests. intros (body & -> & [= <-])%bind_Some. exists body. done.
Qed.

Lemma feedAppendOnlyFile_spec now s st cmd dictid argv vs rs l :
  store_ok st -> margin 3 st -> Forall block_ok (aof_rewrite_buf_blocks s) ->
  values st argv = Some vs -> in_ll dictid ->
  feed_requests (aof_selected_db s) now cmd dictid vs = Some rs ->
  sds_ok (aof_buf s) l -> zlen l + zlen (enc_all rs) <= INT32_MAX ->
  exists s' st', feedAppendOnlyFile junk now s st cmd dictid argv = Some (s', st') /\
    keeps st st' /\ aof_selected_db s' = dictid /\ aof_state s' = aof_state s /\
    aof_child s' = aof_child s /\ Forall block_ok (aof_rewrite_buf_blocks s') /\
    sds_ok (aof_buf s') (l ++ if aof_state s then enc_all rs else []) /\
    pending (aof_rewrite_buf_blocks s')
    = pending (aof_rewrite_buf_blocks s) ++ if aof_child s then enc_all rs else [].
Proof.
  intros Hst Hm Hbl Hvs Hdb Hrs Hbuf Hmax. apply values_holds in Hvs.
  apply feed_requests_sel in Hrs as (body & Hbody & ->).
  rewrite zlen_enc_all in Hmax. pose proof (zlen_nonneg l). pose proof (zlen_nonneg (enc_all body)).
  unfold feedAppendOnlyFile.
  destruct (newlen_spec junk [0] [] 0) as (b0 & Hb0 & Hok0); [done|by vm_compute|].
  unfold sdsempty. rewrite Hb0. sbind.
  set (sel := enc_all (if dictid =? aof_selected_db s then [] else [[SELECT; ll_repr dictid]])) in *.
  pose proof (zlen_nonneg sel).
  assert (exists b1, (if negb (dictid =? aof_selected_db s) then
      buf ← sdscat junk b0 (select_text dictid ++ [0]);
      Some (buf, set_selected_db dictid s) else Some (b0, s))
    = Some (b1, set_selected_db dictid s) /\ sds_ok b1 sel) as (b1 & -> & Hok1).
  { subst sel. destruct (Z.eqb_spec dictid (aof_selected_db s)) as [->|Hne]; cbn [negb].
    - exists b0. split; [|done]. by destruct s.
    - destruct (select_text_spec dictid Hdb) as [Htext Hnul].
      destruct (cat_spec junk b0 [] (select_text dictid) (select_text dictid ++ [0])) as (b1 & -> & Hb1);
        [done|by apply cstr_end| |].
      { rewrite Htext, <- enc_all_one, (@zlen_nil Z). lia. }
      sbind. exists b1. split; [done|]. by rewrite Htext, <- enc_all_one in Hb1. }
  sbind.
  destruct (feed_body_spec now st b1 sel cmd argv vs body) as (b2 & st' & Hcase & Hok2 & Hk); try done; [lia|].
  rewrite Hcase. clear Hcase. sbind.
  set (enc := sel ++ enc_all body) in *.
  assert (enc_all ((if dictid =? aof_selected_db s then [] else [[SELECT; ll_repr dictid]]) ++ body) = enc)
    as -> by (unfold enc, sel, enc_all; by rewrite fmap_app, concat_app).
  assert (zlen enc = zlen sel + zlen (enc_all body)) as Hz by (unfold enc; apply zlen_app).
  assert (exists s1, (if aof_state (set_selected_db dictid s)
      then b ← sdscatlen junk (aof_buf (set_selected_db dictid s)) (Sds.buf b2) (len b2);
           Some (set_aof_buf b (set_selected_db dictid s))
      else Some (set_selected_db dictid s)) = Some s1 /\
    sds_ok (aof_buf s1) (l ++ if aof_state s then enc else []) /\ aof_selected_db s1 = dictid /\
    aof_state s1 = aof_state s /\ aof_child s1 = aof_child s /\
    aof_rewrite_buf_blocks s1 = aof_rewrite_buf_blocks s) as (s1 & -> & Hb1 & Hs1 & Hs2 & Hs3 & Hs4).
  { cbn. destruct (aof_state s) eqn:Hstate.
    - destruct (catlen_spec junk (aof_buf s) l (Sds.buf b2) (len b2) enc) as (b & -> & Hb);
        [done|by apply sds_load|lia|]. sbind. eexists. split; [done|]. by cbn.
    - eexists. split; [done|]. by rewrite app_nil_r. }
  sbind. rewrite (contents_ok b2 enc) by done.
  assert (exists s2, (if aof_child s1 then aofRewriteBufferAppend s1 enc else Some s1) = Some s2 /\
    aof_selected_db s2 = dictid /\ aof_state s2 = aof_state s /\ aof_child s2 = aof_child s /\
    aof_buf s2 = aof_buf s1 /\ Forall block_ok (aof_rewrite_buf_blocks s2) /\
    pending (aof_rewrite_buf_blocks s2)
    = pending (aof_rewrite_buf_blocks s) ++ if aof_child s then enc else [])
    as (s2 & -> & E1 & E2 & E3 & E4 & E5 & E6).
  { rewrite Hs3. destruct (aof_child s) eqn:Hch.
    - destruct (aofRewriteBufferAppend_spec s1 enc) as (bl & -> & Hbl' & Hp); [by rewrite Hs4|].
      eexists. split; [done|]. rewrite Hs4 in Hp. split_and!; done.
    - exists s1. rewrite Hs4, app_nil_r. done. }
  sbind. exists s2, st'. rewrite E4. done.
Qed.

(** *** Runs *)

(** What happens to the AOF: a command is fed at the time [now], or the pipe to
    the child takes bytes. *)
Inductive aof_op :=
  | Feed (now : Z) (cmd : proc) (dictid : Z) (argv : list loc)
  | Child (rooms : list Z).

(** The last component is what the child has received. *)
Definition aof_step (x : aof_server * store * list Z) (op : aof_op)
  : option (aof_server * store * list Z) :=
  let '(s, st, out) := x in
  match op with
  | Feed now cmd dictid argv =>
      '(s, st) ← feedAppendOnlyFile junk now s st cmd dictid argv; Some (s, st, out)
  | Child rooms => '(s, o) ← aofChildWriteDiffData s rooms; Some (s, st, out ++ o)
  end.

Fixpoint aof_run (ops : list aof_op) (x : aof_server * store * list Z)
  : option (aof_server * store * list Z) :=
  match ops with
  | [] => Some x
  | op :: ops => x ← aof_step x op; aof_run ops x
  end.

(** The requests that a run writes. *)
Fixpoint run_requests (st : store) (sel : Z) (ops : list aof_op)
  : option (list (list (list Z))) :=
  match ops with
  | [] => Some []
  | Feed now cmd dictid argv :: ops =>
      vs ← values st argv;
      rs ← feed_requests sel now cmd dictid vs;
      rest ← run_requests st dictid ops;
      Some (rs ++ rest)
  | Child _ :: ops => run_requests st sel ops
  end.

Definition op_ok (op : aof_op) : Prop :=
  match op with Feed _ _ dictid _ => in_ll dictid | Child _ => True end.

Lemma run_requests_keeps st st' : store_ok st -> keeps st st' -> forall ops sel rs,
  run_requests st sel ops = Some rs -> run_requests st' sel ops = Some rs.
Proof.
  intros Hst Hk. induction ops as [|[now cmd dictid argv|rooms] ops IH]; intros sel rs; cbn; [done| |by auto].
  intros (vs & Hvs & (rq & Hrq & (rest & Hrest & [= <-])%bind_Some)%bind_Some)%bind_Some.
  assert (values st' argv = Some vs) as ->.
  { apply values_holds. apply values_holds in Hvs. eapply Forall2_impl; [exact Hvs|].
    intros p v. by apply keeps_holds. }
  sbind. rewrite Hrq. sbind. by rewrite (IH _ _ Hrest).
Qed.

Lemma aof_run_spec ops : forall s st out l rs,
  store_ok st -> margin 3 st -> Forall block_ok (aof_rewrite_buf_blocks s) ->
  sds_ok (aof_buf s) l -> Forall op_ok ops ->
  run_requests st (aof_selected_db s) ops = Some rs -> zlen l + zlen (enc_all rs) <= INT32_MAX ->
  exists s' st' out', aof_run ops (s, st, out) = Some (s', st', out') /\
    keeps st st' /\ Forall block_ok (aof_rewrite_buf_blocks s') /\
    sds_ok (aof_buf s') (l ++ if aof_state s then enc_all rs else []) /\
    out' ++ pending (aof_rewrite_buf_blocks s')
    = out ++ pending (aof_rewrite_buf_blocks s) ++ if aof_child s then enc_all rs else [].
Proof.
  induction ops as [|op ops IH]; intros s st out l rs Hst Hm Hbl Hbuf Hops Hrs Hmax; cbn [aof_run].
  - injection Hrs as <-. exists s, st, out. change (enc_all []) with (@nil Z).
    replace (if aof_state s then [] else []) with (@nil Z) by (by case_match).
    replace (if aof_child s then [] else []) with (@nil Z) by (by case_match).
    rewrite !app_nil_r. split; [done|]. split; [by apply keeps_refl|]. done.
  - apply Forall_cons in Hops as [Hop Hops]. destruct op as [now cmd dictid argv|rooms]; cbn [aof_step run_requests op_ok] in *.
    + apply bind_Some in Hrs as (vs & Hvs & Hrs). apply bind_Some in Hrs as (rq & Hrq & Hrs).
      apply bind_Some in Hrs as (rest & Hrest & [= <-]). rewrite zlen_enc_all in Hmax.
      pose proof (zlen_nonneg (enc_all rest)). pose proof (zlen_nonneg (enc_all rq)).
      destruct (feedAppendOnlyFile_spec now s st cmd dictid argv vs rq l)
        as (s1 & st1 & -> & Hk & Hsel & Hon & Hch & Hbl1 & Hbuf1 & Hp1); try done; [lia|].
      sbind.
      destruct (IH s1 st1 out _ rest (proj1 Hk) (keeps_margin 3 st st1 Hk Hm) Hbl1 Hbuf1 Hops)
        as (s' & st' & out' & -> & Hk' & Hbl' & Hbuf' & Hp').
      { rewrite Hsel. by eapply run_requests_keeps. }
      { rewrite zlen_app. destruct (aof_state s); [lia|]. rewrite (@zlen_nil Z). lia. }
      exists s', st', out'. split; [done|]. split; [by eapply keeps_trans|]. split; [done|].
      rewrite Hon, Hch, Hp1 in *.
      assert (enc_all (rq ++ rest) = enc_all rq ++ enc_all rest) as ->
        by (unfold enc_all; by rewrite fmap_app, concat_app).
      split.
      * destruct (aof_state s); rewrite <- !app_assoc in Hbuf'; done.
      * rewrite Hp'. destruct (aof_child s); by rewrite <- !app_assoc.
    + destruct (aofChildWriteDiffData_spec s rooms Hbl) as (bl & ev & o & -> & Hbl1 & Hp1). sbind.
      destruct (IH (set_blocks bl ev s) st (out ++ o) l rs Hst Hm Hbl1 Hbuf Hops Hrs Hmax)
        as (s' & st' & out' & -> & Hk' & Hbl' & Hbuf' & Hp').
      exists s', st', out'. split; [done|]. split; [done|]. split; [done|]. split; [done|].
      rewrite Hp'. rewrite <- Hp1. by rewrite <- !app_assoc.
Qed.
End FeedFacts.

Lemma write_blocks_spec rooms : forall bl count out,
  exists n f, write_blocks rooms bl count out = (n, out ++ f) /\ f `prefix_of` pending bl /\
    (n = -1 \/ n = count + zlen f /\ f = pending bl).
Proof.
  intros bl. revert rooms. induction bl as [|b bl IH]; intros rooms count out; cbn [write_blocks].
  - exists count, []. rewrite app_nil_r. split; [done|]. split; [done|]. right.
    split; [rewrite (@zlen_nil Z); lia|done].
  - assert (pending (b :: bl) = data b ++ pending bl) as Hp by done.
    destruct (Z.eqb_spec (zlen (data b)) 0) as [Hz|Hz].
    { apply zlen_0 in Hz. rewrite Hp, Hz. apply IH. }
    set (n := sys_write _ _). destruct (Z.eqb_spec n (zlen (data b))) as [Hn|Hn]; cbn [negb].
    + destruct (IH (tail rooms) (count + n) (out ++ take (Z.to_nat n) (data b))) as (m & f & -> & Hf & Hm).
      exists m, (data b ++ f). rewrite Hn, to_nat_zlen, firstn_all, <- app_assoc in *.
      split; [done|]. rewrite Hp. split; [by apply prefix_app|].
      destruct Hm as [->|[-> ->]]; [by left|right]. rewrite zlen_app. split; [lia|done].
    + eexists _, _. split; [done|]. split; [|by left]. rewrite Hp.
      etrans; [|by apply prefix_app_r]. exists (drop (Z.to_nat n) (data b)). by rewrite take_drop.
Qed.

Lemma buffer_size_spec bl : forall n,
  0 <= n -> n + zlen (pending bl) < 2 ^ 64 ->
  foldl (fun size b => u64 (size + zlen (data b))) n bl = n + zlen (pending bl).
Proof.
  induction bl as [|b bl IH]; intros n Hn Hmax; cbn [foldl]; [change (zlen (pending [])) with 0; lia|].
  change (pending (b :: bl)) with (data b ++ pending bl) in *. rewrite zlen_app in *.
  pose proof (zlen_nonneg (data b)). pose proof (zlen_nonneg (pending bl)).
  rewrite u64_small by lia. rewrite IH; lia.
Qed.

(** ** Properties *)

(** C16 (refinement): whatever the order in which commands are fed and the pipe to
    the child takes bytes, the AOF buffer gains the requests of the commands (a
    SELECT when the database changes, the relative and the absolute expires as
    PEXPIREAT, SETEX as SET and PEXPIREAT), byte for byte in the request format;
    what the child has received followed by what the blocks hold is what was
    accumulated since the rewrite started, and the final write puts it in the
    file or reports the failure; the blocks do not overflow, no reference is
    leaked and no object is changed. *)
Theorem aof_run_refines (junk : nat -> Z) (ops : list aof_op) (s : aof_server) (st : store)
    (l : list Z) (rs : list (list (list Z))) (rooms : list Z) :
  store_ok st -> margin 3 st -> Forall block_ok (aof_rewrite_buf_blocks s) ->
  sds_ok (aof_buf s) l -> Forall op_ok ops ->
  run_requests st (aof_selected_db s) ops = Some rs -> zlen l + zlen (enc_all rs) <= INT32_MAX ->
  let diffs := pending (aof_rewrite_buf_blocks s) ++ if aof_child s then enc_all rs else [] in
  zlen diffs < 2 ^ 64 ->
  exists s' st' sent, aof_run junk ops (s, st, []) = Some (s', st', sent) /\
    store_ok st' /\ (forall p, refs st' p = refs st p) /\
    (forall p v, holds st p v -> holds st' p v) /\
    contents (aof_buf s') = l ++ (if aof_state s then enc_all rs else []) /\
    Forall block_ok (aof_rewrite_buf_blocks s') /\
    sent ++ pending (aof_rewrite_buf_blocks s') = diffs /\
    aofRewriteBufferSize s' = zlen diffs - zlen sent /\
    exists n file, aofRewriteBufferWrite s' rooms = (n, file) /\
      (n = -1 \/ sent ++ file = diffs /\ n = zlen file).
Proof.
  intros Hst Hm Hbl Hbuf Hops Hrs Hmax diffs Hd.
  destruct (aof_run_spec junk ops s st [] l rs) as (s' & st' & sent & Hrun & Hk & Hbl' & Hbuf' & Hp);
    try done.
  cbn [app] in Hp. fold diffs in Hp. exists s', st', sent. split; [done|]. split; [apply Hk|].
  split. { intros p. destruct Hk as [_ [Hr _]]. rewrite Hr, !count_none. lia. }
  split. { intros p v. by apply keeps_holds. }
  split; [by apply contents_ok|]. split; [done|]. split; [done|].
  assert (zlen sent + zlen (pending (aof_rewrite_buf_blocks s')) = zlen diffs) as Hz
    by (by rewrite <- Hp, zlen_app).
  pose proof (zlen_nonneg sent). split.
  { unfold aofRewriteBufferSize. rewrite buffer_size_spec by lia. lia. }
  destruct (write_blocks_spec rooms (aof_rewrite_buf_blocks s') 0 []) as (n & f & Hw & _ & Hn).
  exists n, f. split; [done|]. destruct Hn as [->|[-> ->]]; [by left|right]. by split.
Qed.

(** [SET] and [EXPIRE] on the key "1234" in the database 3, then half of the
    differences sent to the child. *)
Lemma aof_run_refines_witness :
  exists s' st' sent,
    aof_run (fun _ => 7)
      [Feed 5000 otherCommand 3 [10001%positive; 10002%positive];
       Feed 5000 expireCommand 3 [10002%positive; 10001%positive; 8%positive]; Child [10; 10]]
      (mk_aof 0 true true (mk_sds 0 0 [0]) [] false false, sample_store, []) = Some (s', st', sent) /\
    contents (aof_buf s') = enc_all
      [[SELECT; [51]]; [bytes_of_string "1234"; bytes_of_string "99"];
       [PEXPIREAT; bytes_of_string "1234"; bytes_of_string "12000"]].
Proof.
  destruct sample_store_ok as [Hok _].
  assert (holds sample_store 10001%positive (bytes_of_string "1234")) as H1.
  { eexists. split; [apply sample_lookup; by left|done]. }
  assert (holds sample_store 10002%positive (bytes_of_string "99")) as H2.
  { eexists. split; [apply sample_lookup; right; by left|done]. }
  assert (holds sample_store 8%positive [55]) as H3.
  { eexists. split; [apply sample_lookup; right; right; by exists 7|done]. }
  assert (values sample_store [10001%positive; 10002%positive]
    = Some [bytes_of_string "1234"; bytes_of_string "99"]) as V1
    by (apply values_holds; by repeat constructor).
  assert (values sample_store [10002%positive; 10001%positive; 8%positive]
    = Some [bytes_of_string "99"; bytes_of_string "1234"; [55]]) as V2
    by (apply values_holds; by repeat constructor).
  destruct (aof_run_refines (fun _ => 7)
    [Feed 5000 otherCommand 3 [10001%positive; 10002%positive];
     Feed 5000 expireCommand 3 [10002%positive; 10001%positive; 8%positive]; Child [10; 10]]
    (mk_aof 0 true true (mk_sds 0 0 [0]) [] false false) sample_store []
    [[SELECT; [51]]; [bytes_of_string "1234"; bytes_of_string "99"];
       [PEXPIREAT; bytes_of_string "1234"; bytes_of_string "12000"]] [])
    as (s' & st' & sent & Hrun & _ & _ & _ & Hc & _).
  - exact Hok.
  - intros p o [[_ ->]|[[_ ->]|(i & _ & _ & ->)]]%sample_lookup; clear; by vm_compute.
  - constructor.
  - clear. exists []. by vm_compute.
  - repeat constructor; discriminate.
  - cbn [run_requests aof_selected_db]. rewrite V1. sbind. rewrite V2. clear. by vm_compute.
  - clear. vm_compute. discriminate.
  - clear. by vm_compute.
  - exists s', st', sent. split; [exact Hrun|exact Hc].
Defined.
