(* ===== verification/AofLoad.v ===== *)
(** * aof.c: loading the append only file

    [loadAppendOnlyFile] on a file given by its bytes, for any server that can
    execute the commands ([CommandTable]).  The streams of the C library are
    modelled without input errors other than the end of the file; an allocation
    that the server cannot make, or a failed assertion, gives [None]. *)

From Stdlib Require Import ZArith Lia String.
From stdpp Require Import base numbers list sets.
From S2P Require Import Prelude Util Request.

Open Scope Z_scope.

(** ** Streams *)

Record file := mk_file { bytes : list Z; fpos : nat; feof : bool }.

Definition fopen (bs : list Z) : file := mk_file bs 0 false.
Definition ftello (f : file) : Z := Z.of_nat (fpos f).

(** At most [n] bytes, up to the first end of line; and whether the end of the
    file was hit. *)
Fixpoint take_line (n : nat) (bs : list Z) : list Z * bool :=
  match n with
  | O => ([], false)
  | S n =>
      match bs with
      | [] => ([], true)
      | b :: bs =>
          if b =? 10 then ([b], false)
          else let '(l, e) := take_line n bs in (b :: l, e)
      end
  end.

(** [fgets(buf, size, fp)]: the bytes stored, without the terminator. *)
Definition fgets (size : nat) (f : file) : option (list Z) * file :=
  let '(l, e) := take_line (size - 1) (drop (fpos f) (bytes f)) in
  let f := mk_file (bytes f) (fpos f + length l) (feof f || e) in
  (match l with [] => None | _ => Some l end, f).

(** [fread(p, n, 1, fp)]. *)
Definition fread (n : Z) (f : file) : option (list Z) * file :=
  let rest := drop (fpos f) (bytes f) in
  if n <=? zlen rest then (Some (take (Z.to_nat n) rest), mk_file (bytes f) (fpos f + Z.to_nat n) (feof f))
  else (None, mk_file (bytes f) (length (bytes f)) true).

(** [atoi] and [strtol] of the C library; a [long] has 64 bits. *)
Definition strtol (s : list Z) : Z := (strtoll s).1.
Definition atoi (s : list Z) : Z := s32 (strtol s).

(** ** Reading one command *)

Inductive read_result :=
  | Command (argv : list (list Z))
  | Eof
  | ReadErr
  | FmtErr.

(** [c]-th byte of what [fgets] stored, with the terminator. *)
Definition buf_at (l : list Z) (c : Z) : option Z := getb (l ++ [0]) c.

(** The loop over the arguments; [None] stands for the error. *)
Fixpoint read_args (n : nat) (f : file) (argv : list (list Z))
  : option (read_result * file) :=
  match n with
  | O => Some (Command argv, f)
  | S n =>
      let '(l, f) := fgets 128 f in
      match l with
      | None => Some (ReadErr, f)
      | Some l =>
          b0 ← buf_at l 0;
          if negb (b0 =? 36) then Some (FmtErr, f)
          else
            let len := u64 (strtol (drop 1 l)) in
            if len >? INT32_MAX then None
            else
              let '(argsds, f) := if len =? 0 then (Some [], f) else fread len f in
              match argsds with
              | None => Some (ReadErr, f)
              | Some argsds =>
                  let '(eol, f) := fread 2 f in
                  match eol with
                  | None => Some (ReadErr, f)
                  | Some _ => read_args n f (argv ++ [argsds])
                  end
              end
      end
  end.

Definition read_command (f : file) : option (read_result * file) :=
  let '(l, f) := fgets 128 f in
  match l with
  | None => Some (if feof f then Eof else ReadErr, f)
  | Some l =>
      b0 ← buf_at l 0;
      if negb (b0 =? 42) then Some (FmtErr, f)
      else
        b1 ← buf_at l 1;
        if b1 =? 0 then Some (ReadErr, f)
        else
          let argc := atoi (drop 1 l) in
          if argc <? 1 then Some (FmtErr, f)
          else read_args (Z.to_nat argc) f []
  end.

(** ** The server *)

(** [lookup] finds a command; [proc] executes it for the fake client, [None]
    when one of the assertions on the client fails; [in_multi] is its flag
    REDIS_MULTI. *)
Class CommandTable (St : Type) := {
  lookup : St -> list Z -> bool;
  proc : St -> list (list Z) -> option St;
  in_multi : St -> bool;
}.

Section Load.
Context {St : Type} `{CommandTable St}.

(** How the loading ends: with the state of the server and the contents of the
    file, that is not there ([ERR]), or by leaving the process. *)
Inductive load_result :=
  | LoadOk (st : St) (bs : list Z)
  | LoadErr
  | LoadExit.

(** [truncate] and [lseek] succeed. *)
Definition uxeof (aof_load_truncated : bool) (st : St) (f : file) (valid_up_to : Z)
  : load_result :=
  if aof_load_truncated then LoadOk st (take (Z.to_nat valid_up_to) (bytes f)) else LoadExit.

Fixpoint load_loop (fuel : nat) (aof_load_truncated : bool) (st : St) (f : file)
    (valid_up_to : Z) : option load_result :=
  match fuel with
  | O => None
  | S fuel =>
      '(r, f) ← read_command f;
      match r with
      | Eof =>
          Some (if in_multi st then uxeof aof_load_truncated st f valid_up_to
                else LoadOk st (bytes f))
      | ReadErr =>
          Some (if negb (feof f) then LoadExit else uxeof aof_load_truncated st f valid_up_to)
      | FmtErr => Some LoadExit
      | Command argv =>
          name ← getb argv 0;
          if negb (lookup st name) then Some LoadExit
          else
            st ← proc st argv;
            load_loop fuel aof_load_truncated st f
              (if aof_load_truncated then ftello f else valid_up_to)
      end
  end.

(** [None] for the file: it cannot be opened. *)
Definition loadAppendOnlyFile (aof_load_truncated : bool) (st : St) (fp : option (list Z))
  : option load_result :=
  match fp with
  | None => Some LoadExit
  | Some bs =>
      if zlen bs =? 0 then Some LoadErr
      else load_loop (S (length bs)) aof_load_truncated st (fopen bs) 0
  end.

(** The commands executed in turn. *)
Fixpoint exec_all (st : St) (reqs : list (list (list Z))) : option St :=
  match reqs with
  | [] => Some st
  | r :: reqs =>
      name ← head r;
      if lookup st name then st ← proc st r; exec_all st reqs else None
  end.
End Load.

(** ** Lemmas: streams *)

(** The bytes [rest] are left in [f]. *)
Definition at_rest (f : file) (rest : list Z) : Prop := drop (fpos f) (bytes f) = rest.

(** [f] after [n] bytes, with the end of the file seen when [e]. *)
Definition advance (f : file) (n : nat) (e : bool) : file :=
  mk_file (bytes f) (fpos f + n) (feof f || e).

Lemma at_rest_advance f a b e : at_rest f (a ++ b) -> at_rest (advance f (length a) e) b.
Proof.
  unfold at_rest. cbn. intros H. rewrite <- drop_drop, H. apply drop_app_length.
Qed.

Lemma advance_advance f n m : advance (advance f n false) m false = advance f (n + m) false.
Proof. unfold advance. cbn. by rewrite !orb_false_r, Nat.add_assoc. Qed.

Lemma advance_0 f : advance f 0 false = f.
Proof. destruct f. unfold advance. cbn. by rewrite Nat.add_0_r, orb_false_r. Qed.

Lemma take_line_full l t : forall n, 10 ∉ l -> (length l < n)%nat ->
  take_line n (l ++ 10 :: t) = (l ++ [10], false).
Proof.
  induction l as [|b l IH]; intros [|n] Hl Hn; cbn in *; try lia; [done|].
  apply not_elem_of_cons in Hl as [Hb Hl]. rewrite (proj2 (Z.eqb_neq b 10)) by congruence.
  by rewrite IH by (done || lia).
Qed.

Lemma take_line_eof l : forall n, 10 ∉ l -> (length l < n)%nat -> take_line n l = (l, true).
Proof.
  induction l as [|b l IH]; intros [|n] Hl Hn; cbn in *; try lia; [done|].
  apply not_elem_of_cons in Hl as [Hb Hl]. rewrite (proj2 (Z.eqb_neq b 10)) by congruence.
  by rewrite IH by (done || lia).
Qed.

Lemma fgets_line f l t :
  at_rest f ((l ++ [10]) ++ t) -> 10 ∉ l -> zlen l < 127 ->
  fgets 128 f = (Some (l ++ [10]), advance f (length (l ++ [10])) false).
Proof.
  intros Hf Hl Hn. unfold zlen in Hn. unfold fgets. rewrite Hf, <- app_assoc. cbn [app].
  rewrite take_line_full by (done || lia). unfold advance. by destruct l.
Qed.

Lemma fgets_eof f l :
  at_rest f l -> 10 ∉ l -> zlen l < 127 ->
  fgets 128 f = (match l with [] => None | _ => Some l end, advance f (length l) true).
Proof.
  intros Hf Hl Hn. unfold zlen in Hn. unfold fgets. rewrite Hf, take_line_eof by (done || lia). done.
Qed.

Lemma fread_ok f a b n :
  at_rest f (a ++ b) -> n = zlen a -> fread n f = (Some a, advance f (length a) false).
Proof.
  intros Hf ->. unfold fread, at_rest in *. rewrite !Hf, zlen_app. pose proof (zlen_nonneg b).
  rewrite (proj2 (Z.leb_le _ _)) by lia. rewrite to_nat_zlen, take_app_length.
  unfold advance. by rewrite orb_false_r.
Qed.

Lemma fread_short f a n :
  at_rest f a -> zlen a < n -> exists f', fread n f = (None, f') /\ feof f' = true.
Proof.
  intros Hf Hn. unfold fread. rewrite Hf, (proj2 (Z.leb_gt _ _)) by lia. by eexists.
Qed.

(** ** Lemmas: numerals and their prefixes *)

Lemma val_app v a b : val v (a ++ b) = val (val v a) b.
Proof. apply foldl_app. Qed.

Lemma val_mono v w p : v <= w -> val v p <= val w p.
Proof. revert v w. induction p as [|c p IH]; intros v w H; cbn; [done|]. apply IH. lia. Qed.

(** The digits of a length. *)
Record numeral (n : Z) (ds : list Z) : Prop := {
  num_digits : Forall is_digit ds;
  num_val : val 0 ds = n;
  num_len : zlen ds <= 20;
  num_prefix p q : ds = p ++ q -> p <> [] -> 0 <= val 0 p <= n /\ (1 <= n -> 1 <= val 0 p);
}.

Lemma ll_repr_numeral n : 0 <= n <= INT32_MAX -> numeral n (ll_repr n) /\ ll_repr n <> [].
Proof.
  intros Hn. unfold INT32_MAX in Hn.
  assert (in_ll n) as Hll by (unfold in_ll, LLONG_MIN, LLONG_MAX; lia).
  destruct (ll_repr_shape n Hll) as (sg & ds0 & Hr & _ & _ & Hlen & _). rewrite <- Hr in Hlen. clear Hr sg ds0.
  destruct (decide (n = 0)) as [->|Hne].
  { split; [|done]. split; [by repeat constructor|done|done|].
    intros p q Hpq Hp. destruct p as [|c p]; [done|].
    change (ll_repr 0) with [48] in Hpq. injection Hpq as <- Hpq.
    symmetry in Hpq. apply app_eq_nil in Hpq as [-> _]. cbn. lia. }
  assert (ll_repr n = decimal n) as Hd by (unfold ll_repr; by rewrite (proj2 (Z.ltb_ge _ _)) by lia).
  destruct (decimal_shape n) as (c & p0 & Hdec & Hc & Hp0 & Hval); [lia|].
  rewrite Hd, Hdec in *. assert (val 0 (c :: p0) = n) as Hv by (by rewrite <- Hval).
  split; [|done]. split; [constructor; [unfold is_digit; lia|done]|done|done|].
  intros p q Hpq Hp. destruct p as [|c' p]; [done|]. injection Hpq as <- ->.
  apply Forall_app in Hp0 as [Hp0 Hq]. rewrite app_comm_cons, val_app in Hv.
  assert (1 <= val 0 (c :: p)) as H1.
  { cbn [val foldl]. pose proof (val_ge (0 * 10 + (c - 48)) p ltac:(lia) Hp0). unfold val in *. lia. }
  pose proof (val_ge (val 0 (c :: p)) q ltac:(lia) Hq). lia.
Qed.

Lemma strtol_digits ds rest :
  Forall is_digit ds -> ds <> [] -> in_ll (val 0 ds) -> (rest = [] \/ exists t, rest = 13 :: t) ->
  strtol (ds ++ rest) = val 0 ds.
Proof.
  intros Hds Hne Hv Hr. unfold strtol, strtoll.
  assert (strtoll_raw ([] ++ ds ++ rest) = (val 0 ds, rest)) as Hraw.
  { apply strtoll_raw_digits; [|done| |by left].
    - eapply Forall_impl; [exact Hds|]. intros. by apply isdigit_iff.
    - intros c t ->. destruct Hr as [?|[? [= -> _]]]; [done|]. by vm_compute. }
  cbn [app] in Hraw. rewrite Hraw. cbn. unfold clamp_ll, in_ll in *. lia.
Qed.

(** What is read from a numeral, or from a part of its line. *)
Lemma strtol_prefix n ds p q :
  0 <= n <= INT32_MAX -> numeral n ds -> ds <> [] -> ds ++ [13] = p ++ q -> p <> [] ->
  0 <= strtol p <= n /\ (1 <= n -> 1 <= strtol p).
Proof.
  intros Hn Hnum Hds Heq Hp. unfold INT32_MAX in Hn.
  assert (exists a b, p = a ++ b /\ a <> [] /\ (b = [] \/ exists t, b = 13 :: t) /\ exists c, ds = a ++ c)
    as (a & b & -> & Ha & Hb & c & Hc).
  { apply app_eq_inv in Heq as [(k & -> & Hk)|(k & -> & Hk)].
    - exists p, []. rewrite app_nil_r. split; [done|]. split; [done|]. split; [by left|]. by exists k.
    - exists ds, k. split; [done|]. split; [done|]. split; [|exists []; by rewrite app_nil_r].
      destruct k as [|x k]; [by left|right]. injection Hk as <- _. by eexists. }
  destruct (num_prefix n ds Hnum a c Hc Ha) as [Hv H1].
  rewrite strtol_digits; [done| |done| |done].
  - pose proof (num_digits n ds Hnum) as Hd. rewrite Hc in Hd. by apply Forall_app in Hd as [? _].
  - unfold in_ll, LLONG_MIN, LLONG_MAX. lia.
Qed.

Lemma strtol_line n : 0 <= n <= INT32_MAX -> strtol (ll_repr n ++ crlf) = n.
Proof.
  intros Hn. destruct (ll_repr_numeral n Hn) as [Hnum Hne].
  rewrite strtol_digits; [apply Hnum|apply Hnum|done| |right; by eexists].
  rewrite (num_val n _ Hnum). unfold INT32_MAX, in_ll, LLONG_MIN, LLONG_MAX in *. lia.
Qed.

(** ** Lemmas: commands *)

(** The line [c<n>] without its last byte. *)
Definition line (c n : Z) : list Z := c :: ll_repr n ++ [13].

Lemma line_spec c n :
  c <> 10 -> 0 <= n <= INT32_MAX -> (10 ∉ line c n) /\ zlen (line c n) < 127.
Proof.
  intros Hc Hn. destruct (ll_repr_numeral n Hn) as [[Hd _ Hl _] _]. split.
  - unfold line. rewrite not_elem_of_cons, not_elem_of_app. split; [done|]. split; [|set_solver].
    intros Hin. rewrite Forall_forall in Hd. specialize (Hd 10 Hin). unfold is_digit in Hd. lia.
  - unfold line. rewrite zlen_cons, zlen_app. change (zlen [13]) with 1. lia.
Qed.

Lemma enc_bulk_line a : enc_bulk a = (line 36 (zlen a) ++ [10]) ++ a ++ crlf.
Proof. unfold enc_bulk, line, crlf. cbn [app]. by rewrite <- !app_assoc. Qed.

Lemma enc_request_line r : enc_request r = (line 42 (zlen r) ++ [10]) ++ enc_args r.
Proof. unfold enc_request, line, crlf. cbn [app]. by rewrite <- !app_assoc. Qed.

Lemma enc_args_cons a args : enc_args (a :: args) = enc_bulk a ++ enc_args args.
Proof. done. Qed.

Definition fits (a : list Z) : Prop := zlen a <= INT32_MAX.

(** The beginning of [read_args] on a whole line. *)
Lemma read_args_line n f argv a rest :
  fits a -> at_rest f ((line 36 (zlen a) ++ [10]) ++ rest) ->
  read_args (S n) f argv =
  (let f := advance f (length (line 36 (zlen a) ++ [10])) false in
  let '(argsds, f) := if zlen a =? 0 then (Some [], f) else fread (zlen a) f in
  match argsds with
  | None => Some (ReadErr, f)
  | Some argsds =>
      let '(eol, f) := fread 2 f in
      match eol with None => Some (ReadErr, f) | Some _ => read_args n f (argv ++ [argsds]) end
  end).
Proof.
  unfold fits. intros Ha Hf. pose proof (zlen_nonneg a).
  destruct (line_spec 36 (zlen a)) as [H10 Hl]; [done|lia|].
  cbn [read_args]. rewrite (fgets_line f _ rest Hf H10 Hl).
  unfold line. cbn [app]. cbv zeta. unfold buf_at. change (getb ((36 :: ?x) ++ [0]) 0) with (Some 36).
  sbind. change (negb (36 =? 36)) with false. cbv iota. change (drop 1 (36 :: ?x)) with x.
  change (drop 1 (36 :: (ll_repr (zlen a) ++ [13]) ++ [10])) with ((ll_repr (zlen a) ++ [13]) ++ [10]).
  rewrite <- app_assoc. change ([13] ++ [10]) with crlf. rewrite strtol_line by lia.
  unfold INT32_MAX in Ha. rewrite u64_small, Z.gtb_ltb by lia.
  unfold INT32_MAX. rewrite (proj2 (Z.ltb_ge _ _)) by lia. done.
Qed.

Lemma read_args_bulk n f argv a rest :
  fits a -> at_rest f (enc_bulk a ++ rest) ->
  read_args (S n) f argv = read_args n (advance f (length (enc_bulk a)) false) (argv ++ [a]).
Proof.
  intros Ha Hf. rewrite enc_bulk_line, <- app_assoc in Hf.
  rewrite (read_args_line _ _ _ a _ Ha Hf). cbv zeta.
  apply (at_rest_advance _ _ _ false) in Hf. set (f1 := advance f _ false) in *.
  rewrite <- app_assoc in Hf.
  assert ((if zlen a =? 0 then (Some [], f1) else fread (zlen a) f1)
    = (Some a, advance f1 (length a) false)) as ->.
  { destruct (Z.eqb_spec (zlen a) 0) as [Hz|_]; [|by eapply fread_ok].
    apply zlen_0 in Hz as ->. by rewrite advance_0. }
  apply (at_rest_advance _ _ _ false) in Hf. set (f2 := advance f1 _ false) in *.
  rewrite (fread_ok f2 crlf rest 2 Hf eq_refl). subst f2 f1. rewrite !advance_advance.
  do 2 f_equal. rewrite enc_bulk_line, !length_app. lia.
Qed.

Lemma read_args_ok args : forall f argv rest,
  Forall fits args -> at_rest f (enc_args args ++ rest) ->
  read_args (length args) f argv
  = Some (Command (argv ++ args), advance f (length (enc_args args)) false).
Proof.
  induction args as [|a args IH]; intros f argv rest Hfit Hf.
  - cbn. by rewrite app_nil_r, advance_0.
  - apply Forall_cons in Hfit as [Ha Hfit].
    rewrite enc_args_cons, <- app_assoc in Hf. cbn [length].
    rewrite (read_args_bulk _ f argv a _ Ha Hf). apply (at_rest_advance _ _ _ false) in Hf.
    rewrite (IH _ _ rest Hfit Hf), advance_advance, <- app_assoc.
    by rewrite enc_args_cons, length_app.
Qed.

Lemma read_args_eof n f argv :
  at_rest f [] -> (0 < n)%nat -> exists f', read_args n f argv = Some (ReadErr, f') /\ feof f' = true.
Proof.
  intros Hf Hn. destruct n as [|n]; [lia|]. cbn [read_args].
  rewrite (fgets_eof f []); [|done|set_solver|done]. eexists. split; [done|]. cbn. apply orb_true_r.
Qed.

(** Cut in the middle of an argument. *)
Lemma read_args_bulk_cut n f argv a p x :
  fits a -> enc_bulk a = p ++ x -> x <> [] -> at_rest f p ->
  exists f', read_args (S n) f argv = Some (ReadErr, f') /\ feof f' = true.
Proof.
  intros Ha Heq Hx Hf. rewrite enc_bulk_line in Heq.
  pose proof Ha as Ha'. unfold fits in Ha'. pose proof (zlen_nonneg a).
  destruct (line_spec 36 (zlen a)) as [H10 Hl]; [done|lia|].
  apply app_eq_inv in Heq as [(k & Hk & ->)|(k & -> & Hk)].
  - destruct k as [|k0 k] using rev_ind.
    + rewrite app_nil_r in Hk. subst p.
      assert (at_rest f ((line 36 (zlen a) ++ [10]) ++ [])) as Hf1 by (by rewrite app_nil_r).
      rewrite (read_args_line _ _ _ a _ Ha Hf1). cbv zeta.
      apply (at_rest_advance _ _ _ false) in Hf1. set (f1 := advance f _ false) in *.
      destruct (Z.eqb_spec (zlen a) 0) as [Hz|Hz].
      * destruct (fread_short f1 [] 2 Hf1) as (f2 & -> & He); [done|]. by exists f2.
      * destruct (fread_short f1 [] (zlen a) Hf1) as (f2 & -> & He); [rewrite (@zlen_nil Z); lia|].
        by exists f2.
    + clear IHk. rewrite app_assoc in Hk. apply app_inj_2 in Hk as [Hk [= <-]]; [|done].
      destruct p as [|c p]; [apply read_args_eof; [done|lia]|].
      unfold line in Hk. injection Hk as <- Hk.
      assert (10 ∉ 36 :: p) as Hp10.
      { unfold line in H10. rewrite Hk in H10. set_solver. }
      assert (zlen (36 :: p) < 127) as Hpl.
      { unfold line in Hl. rewrite Hk, zlen_cons, zlen_app in Hl. rewrite zlen_cons.
        pose proof (zlen_nonneg k). lia. }
      cbn [read_args]. rewrite (fgets_eof f _ Hf Hp10 Hpl). cbv iota.
      change (buf_at (36 :: p) 0) with (Some 36). sbind. change (negb (36 =? 36)) with false. cbv iota.
      change (drop 1 (36 :: p)) with p.
      assert (0 <= strtol p <= zlen a) as Hv.
      { destruct p as [|c p]; [split; [done|]; change (strtol []) with 0; lia|].
        destruct (ll_repr_numeral (zlen a)) as [Hnum Hne]; [lia|].
        by eapply (strtol_prefix (zlen a) (ll_repr (zlen a)) (c :: p) k). }
      unfold INT32_MAX in Ha'. rewrite u64_small, Z.gtb_ltb by lia.
      unfold INT32_MAX. rewrite (proj2 (Z.ltb_ge _ _)) by lia. cbv zeta.
      assert (at_rest (advance f (length (36 :: p)) true) []) as Hf1.
      { apply at_rest_advance. by rewrite app_nil_r. }
      set (f1 := advance f (length (36 :: p)) true) in *.
      destruct (Z.eqb_spec (strtol p) 0) as [Hz|Hz].
      * destruct (fread_short f1 [] 2 Hf1) as (f2 & -> & He); [done|]. by exists f2.
      * destruct (fread_short f1 [] (strtol p) Hf1) as (f2 & -> & He); [rewrite (@zlen_nil Z); lia|].
        by exists f2.
  - rewrite (read_args_line _ _ _ a _ Ha Hf). cbv zeta.
    apply (at_rest_advance _ _ _ false) in Hf. set (f1 := advance f _ false) in *.
    apply app_eq_inv in Hk as [(k' & -> & Hk')|(k' & -> & Hk')].
    + destruct (decide (zlen (k ++ k') = 0)) as [Hz|Hz].
      * rewrite Hz. change (0 =? 0) with true. cbv iota.
        assert (k = []) as -> by (apply zlen_0; rewrite zlen_app in Hz; pose proof (zlen_nonneg k);
          pose proof (zlen_nonneg k'); lia).
        destruct (fread_short f1 [] 2 Hf) as (f2 & -> & He); [done|]. by exists f2.
      * rewrite (proj2 (Z.eqb_neq _ _)) by done. destruct k' as [|c k'].
        -- rewrite app_nil_r in *.
           assert (at_rest f1 (k ++ [])) as Hf1 by (by rewrite app_nil_r).
           rewrite (fread_ok f1 k [] _ Hf1 eq_refl).
           apply (at_rest_advance _ _ _ false) in Hf1. set (f2 := advance f1 _ false) in *.
           destruct (fread_short f2 [] 2 Hf1) as (f3 & -> & He); [done|]. by exists f3.
        -- destruct (fread_short f1 k (zlen (k ++ c :: k')) Hf) as (f2 & -> & He).
           { rewrite zlen_app, zlen_cons. pose proof (zlen_nonneg k'). lia. }
           by exists f2.
    + assert (zlen k' < 2) as Hk2.
      { assert (zlen k' + zlen x = 2) as Hz by (rewrite <- zlen_app, <- Hk'; done).
        pose proof (zlen_pos x Hx). lia. }
      assert ((if zlen a =? 0 then (Some [], f1) else fread (zlen a) f1)
        = (Some a, advance f1 (length a) false)) as ->.
      { destruct (Z.eqb_spec (zlen a) 0) as [Hz|_]; [|by eapply fread_ok].
        apply zlen_0 in Hz as ->. by rewrite advance_0. }
      apply (at_rest_advance _ _ _ false) in Hf. set (f2 := advance f1 _ false) in *.
      destruct (fread_short f2 k' 2 Hf Hk2) as (f3 & -> & He). by exists f3.
Qed.

(** A request of the protocol with at least one argument. *)
Definition loadable (r : list (list Z)) : Prop :=
  r <> [] /\ zlen r <= INT32_MAX /\ Forall fits r.

Lemma loadable_range r : loadable r -> 1 <= zlen r <= INT32_MAX.
Proof. intros (Hr & Hl & _). pose proof (zlen_pos r Hr). lia. Qed.

Lemma atoi_small s : 0 <= strtol s <= INT32_MAX -> atoi s = strtol s.
Proof. unfold INT32_MAX, atoi. intros. rewrite s32_small; lia. Qed.

Lemma read_command_line f n rest :
  1 <= n <= INT32_MAX -> at_rest f ((line 42 n ++ [10]) ++ rest) ->
  read_command f = read_args (Z.to_nat n) (advance f (length (line 42 n ++ [10])) false) [].
Proof.
  intros Hn Hf. destruct (line_spec 42 n) as [H10 Hl]; [done|lia|].
  unfold read_command. rewrite (fgets_line f _ _ Hf H10 Hl).
  change (buf_at (line 42 n ++ [10]) 0) with (Some 42). sbind.
  change (negb (42 =? 42)) with false. cbv iota.
  change (drop 1 (line 42 n ++ [10])) with ((ll_repr n ++ [13]) ++ [10]).
  rewrite <- app_assoc. change ([13] ++ [10]) with crlf.
  destruct (ll_repr_numeral n) as [Hnum Hne]; [lia|].
  assert (exists b, buf_at (line 42 n ++ [10]) 1 = Some b /\ b <> 0) as (b & -> & Hb).
  { pose proof (num_digits _ _ Hnum) as Hd. unfold line, buf_at.
    destruct (ll_repr n) as [|c ds]; [done|]. exists c. split; [done|].
    apply Forall_cons in Hd as [Hc _]. unfold is_digit in Hc. lia. }
  sbind. rewrite (proj2 (Z.eqb_neq _ _)) by done.
  assert (strtol (ll_repr n ++ crlf) = n) as Hst by (apply strtol_line; lia).
  rewrite atoi_small by (rewrite Hst; lia). rewrite Hst.
  by rewrite (proj2 (Z.ltb_ge _ _)) by lia.
Qed.

Lemma read_command_ok f r rest :
  loadable r -> at_rest f (enc_request r ++ rest) ->
  read_command f = Some (Command r, advance f (length (enc_request r)) false).
Proof.
  intros Hr Hf. pose proof (loadable_range r Hr) as Hn. destruct Hr as (_ & _ & Hfit).
  rewrite enc_request_line, <- app_assoc in Hf.
  rewrite (read_command_line f _ _ Hn Hf). apply (at_rest_advance _ _ _ false) in Hf.
  rewrite to_nat_zlen, (read_args_ok r _ [] rest Hfit Hf), advance_advance.
  by rewrite enc_request_line, (length_app (line 42 (zlen r) ++ [10])).
Qed.

Lemma read_command_eof f :
  at_rest f [] -> exists f', read_command f = Some (Eof, f') /\ bytes f' = bytes f.
Proof.
  intros Hf. unfold read_command. rewrite (fgets_eof f []); [|done|set_solver|done].
  cbn [advance feof]. rewrite orb_true_r. by eexists.
Qed.

Lemma read_args_cut args : forall f argv p x,
  Forall fits args -> enc_args args = p ++ x -> x <> [] -> at_rest f p ->
  exists f', read_args (length args) f argv = Some (ReadErr, f') /\ feof f' = true.
Proof.
  induction args as [|a args IH]; intros f argv p x Hfit Heq Hx Hf.
  - symmetry in Heq. by apply app_eq_nil in Heq as [_ ->].
  - apply Forall_cons in Hfit as [Ha Hfit]. rewrite enc_args_cons in Heq. cbn [length].
    assert ((exists k, k <> [] /\ enc_bulk a = p ++ k) \/
      exists k, p = enc_bulk a ++ k /\ enc_args args = k ++ x) as [(k & Hk & Heq')|(k & -> & Heq')].
    { apply app_eq_inv in Heq as [(k & Hk & ->)|(k & -> & Hk)]; [|right; by exists k].
      destruct k as [|b k]; [right; exists []; by rewrite app_nil_r in *|left; by exists (b :: k)]. }
    + by eapply read_args_bulk_cut.
    + rewrite (read_args_bulk _ f argv a k Ha Hf). apply (at_rest_advance _ _ _ false) in Hf.
      by eapply IH.
Qed.

(** Reading does not change the file. *)
Lemma fgets_bytes n f : bytes (fgets n f).2 = bytes f.
Proof. unfold fgets. by case_match. Qed.

Lemma fread_bytes n f : bytes (fread n f).2 = bytes f.
Proof. unfold fread. by case_match. Qed.

Lemma read_args_bytes n : forall f argv r f',
  read_args n f argv = Some (r, f') -> bytes f' = bytes f.
Proof.
  induction n as [|n IH]; intros f argv r f'; cbn [read_args]; [by intros [= _ <-]|].
  pose proof (fgets_bytes 128 f) as Hb. destruct (fgets 128 f) as [[l|] f1]; cbn in Hb; [|by intros [= _ <-]].
  intros (b0 & _ & Hr)%bind_Some. case_match; [by injection Hr as _ <-|].
  cbv zeta in Hr. case_match; [done|].
  assert (exists o f2, (if u64 (strtol (drop 1 l)) =? 0 then (Some [], f1)
      else fread (u64 (strtol (drop 1 l))) f1) = (o, f2) /\ bytes f2 = bytes f1) as (o & f2 & E & Hb2).
  { destruct (u64 (strtol (drop 1 l)) =? 0); [by eexists _, _|]. pose proof (fread_bytes (u64 (strtol (drop 1 l))) f1).
    destruct (fread _ f1) as [o f2]. by eexists _, _. }
  rewrite E in Hr. destruct o; [|injection Hr as _ <-; congruence].
  pose proof (fread_bytes 2 f2) as Hb3. destruct (fread 2 f2) as [[e|] f3]; cbn in Hb3.
  - apply IH in Hr. congruence.
  - injection Hr as _ <-. congruence.
Qed.

Lemma read_command_bytes f r f' : read_command f = Some (r, f') -> bytes f' = bytes f.
Proof.
  unfold read_command. pose proof (fgets_bytes 128 f) as Hb.
  destruct (fgets 128 f) as [[l|] f1]; cbn in Hb; [|by intros [= _ <-]].
  intros (b0 & _ & Hr)%bind_Some. case_match; [by injection Hr as _ <-|].
  apply bind_Some in Hr as (b1 & _ & Hr). case_match; [by injection Hr as _ <-|].
  cbv zeta in Hr. case_match; [by injection Hr as _ <-|].
  apply read_args_bytes in Hr. congruence.
Qed.

(** A request whose end is missing. *)
Lemma read_command_cut f r p x :
  loadable r -> enc_request r = p ++ x -> p <> [] -> x <> [] -> at_rest f p ->
  exists f', read_command f = Some (ReadErr, f') /\ feof f' = true.
Proof.
  intros Hr Heq Hp Hx Hf. pose proof (loadable_range r Hr) as Hn.
  destruct (line_spec 42 (zlen r)) as [H10 Hl]; [done|lia|].
  rewrite enc_request_line in Heq.
  assert ((exists k, line 42 (zlen r) = p ++ k) \/
    exists k, p = (line 42 (zlen r) ++ [10]) ++ k /\ enc_args r = k ++ x) as [(k & Hk)|(k & -> & Hk)].
  { apply app_eq_inv in Heq as [(k & Hk & ->)|(k & -> & Hk)]; [|right; by exists k].
    destruct k as [|b k _] using rev_ind.
    - right. exists []. rewrite app_nil_r in *. by subst p.
    - left. rewrite app_assoc in Hk. apply app_inj_2 in Hk as [Hk _]; [by exists k|done]. }
  - destruct p as [|c p]; [done|]. unfold line in Hk. injection Hk as <- Hk.
    assert (10 ∉ 42 :: p) as Hp10 by (unfold line in H10; rewrite Hk in H10; set_solver).
    assert (zlen (42 :: p) < 127) as Hpl.
    { unfold line in Hl. rewrite Hk, zlen_cons, zlen_app in Hl. rewrite zlen_cons.
      pose proof (zlen_nonneg k). lia. }
    destruct (ll_repr_numeral (zlen r)) as [Hnum Hne]; [lia|].
    unfold read_command. rewrite (fgets_eof f _ Hf Hp10 Hpl). cbv iota.
    change (buf_at (42 :: p) 0) with (Some 42). sbind. change (negb (42 =? 42)) with false. cbv iota.
    assert (at_rest (advance f (length (42 :: p)) true) []) as Hf1.
    { apply at_rest_advance. by rewrite app_nil_r. }
    set (f1 := advance f (length (42 :: p)) true) in *.
    destruct p as [|c p].
    + exists f1. split; [done|]. cbn. apply orb_true_r.
    + change (buf_at (42 :: c :: p) 1) with (Some c). sbind.
      destruct (Z.eqb_spec c 0).
      { exists f1. split; [done|]. cbn. apply orb_true_r. }
      change (drop 1 (42 :: c :: p)) with (c :: p).
      destruct (strtol_prefix (zlen r) (ll_repr (zlen r)) (c :: p) k) as [Hv H1]; [lia|done..|].
      specialize (H1 (proj1 Hn)). rewrite atoi_small by lia.
      rewrite (proj2 (Z.ltb_ge _ _)) by lia. apply read_args_eof; [done|lia].
  - rewrite (read_command_line f _ _ Hn Hf). apply (at_rest_advance _ _ _ false) in Hf.
    rewrite to_nat_zlen. destruct Hr as (_ & _ & Hfit). by eapply read_args_cut.
Qed.

(** ** Lemmas: whole files *)

Section LoadFacts.
Context {St : Type} `{CommandTable St}.

(** The end of the loading when the commands that lead to [st] have been read up
    to the offset [valid], and [cut] says that bytes are left. *)
Definition finish (trunc : bool) (st : St) (bs : list Z) (valid : Z) (cut : bool) : load_result :=
  if cut || in_multi st then
    if trunc then LoadOk st (take (Z.to_nat valid) bs) else LoadExit
  else LoadOk st bs.

Lemma load_loop_spec dn : forall fuel trunc st st' f valid part,
  Forall loadable dn -> at_rest f (enc_all dn ++ part) ->
  (part = [] \/ exists r x, loadable r /\ enc_request r = part ++ x /\ x <> []) ->
  exec_all st dn = Some st' -> (length dn < fuel)%nat ->
  (trunc = true -> valid = ftello f) ->
  load_loop fuel trunc st f valid
  = Some (finish trunc st' (bytes f) (ftello f + zlen (enc_all dn)) (negb (bool_decide (part = [])))).
Proof.
  induction dn as [|r dn IH]; intros [|fuel] trunc st st' f valid part Hdn Hf Hpart Hex Hfuel Hvalid;
    simpl in Hfuel; try lia; cbn [load_loop].
  - injection Hex as <-. change (enc_all []) with (@nil Z) in *. cbn [app] in Hf.
    rewrite (@zlen_nil Z), Z.add_0_r. unfold finish.
    destruct (decide (part = [])) as [->|Hne].
    + rewrite bool_decide_eq_true_2 by done. cbn [negb orb].
      destruct (read_command_eof f Hf) as (f' & -> & Hb). sbind. rewrite Hb.
      unfold uxeof. destruct (in_multi st); [|done]. destruct trunc; [|done].
      by rewrite Hb, Hvalid.
    + rewrite bool_decide_eq_false_2 by done. cbn [negb orb].
      destruct Hpart as [?|(r & x & Hr & Heq & Hx)]; [done|].
      destruct (read_command_cut f r part x Hr Heq Hne Hx Hf) as (f' & Hrd & He).
      pose proof (read_command_bytes f ReadErr f' Hrd) as Hb.
      rewrite Hrd. sbind. rewrite He. cbn [negb]. unfold uxeof. rewrite Hb.
      destruct trunc; [|done]. by rewrite Hvalid.
  - apply Forall_cons in Hdn as [Hr Hdn]. change (enc_all (r :: dn)) with (enc_request r ++ enc_all dn) in *.
    rewrite <- app_assoc in Hf. pose proof (read_command_ok f r _ Hr Hf) as Hrd.
    rewrite Hrd. sbind. apply (at_rest_advance _ _ _ false) in Hf.
    set (f1 := advance f (length (enc_request r)) false) in *.
    destruct r as [|name r]; [by destruct Hr|]. cbn [exec_all head mbind option_bind] in Hex.
    change (getb (name :: r) 0) with (Some name). sbind.
    destruct (lookup st name); [|done]. cbn [negb].
    apply bind_Some in Hex as (st1 & -> & Hex). sbind.
    rewrite (IH fuel trunc st1 st' f1 _ part Hdn Hf Hpart Hex); [|lia|by intros ->].
    subst f1. cbn [advance bytes]. unfold ftello. cbn [fpos]. do 2 f_equal.
    rewrite zlen_app. cbn [advance fpos]. unfold zlen. lia.
Qed.

(** Where a file that was cut ends. *)
Lemma split_prefix reqs : forall bs lost,
  Forall loadable reqs -> enc_all reqs = bs ++ lost ->
  exists dn todo part, reqs = dn ++ todo /\ bs = enc_all dn ++ part /\
    (part = [] \/ exists r x, head todo = Some r /\ enc_request r = part ++ x /\ x <> []).
Proof.
  induction reqs as [|r reqs IH]; intros bs lost Hok Heq.
  - exists [], [], []. symmetry in Heq. apply app_eq_nil in Heq as [-> _]. eauto.
  - apply Forall_cons in Hok as [Hr Hok].
    change (enc_all (r :: reqs)) with (enc_request r ++ enc_all reqs) in Heq.
    apply app_eq_inv in Heq as [(k & Hk & ->)|(k & -> & Hk)].
    + destruct (decide (k = [])) as [->|Hne].
      * rewrite app_nil_r in Hk. subst bs. exists [r], reqs, [].
        unfold enc_all. cbn [fmap list_fmap concat]. rewrite !app_nil_r. eauto.
      * exists [], (r :: reqs), bs. split; [done|]. split; [done|]. right. exists r, k. done.
    + destruct (IH k lost Hok Hk) as (dn & todo & part & -> & -> & Hp).
      exists (r :: dn), todo, part. split; [done|]. split; [|done].
      change (enc_all (r :: dn)) with (enc_request r ++ enc_all dn). by rewrite <- app_assoc.
Qed.

Lemma enc_all_length (dn : list (list (list Z))) : (length dn <= length (enc_all dn))%nat.
Proof.
  induction dn as [|r dn IH]; [done|].
  change (enc_all (r :: dn)) with (enc_request r ++ enc_all dn).
  rewrite length_app. unfold enc_request. cbn [length]. lia.
Qed.

(** A file of whole requests, and a part of one more. *)
Lemma load_file trunc st st' dn part :
  Forall loadable dn ->
  (part = [] \/ exists r x, loadable r /\ enc_request r = part ++ x /\ x <> []) ->
  exec_all st dn = Some st' -> enc_all dn ++ part <> [] ->
  loadAppendOnlyFile trunc st (Some (enc_all dn ++ part))
  = Some (if bool_decide (part = []) && negb (in_multi st') then LoadOk st' (enc_all dn ++ part)
          else if trunc then LoadOk st' (enc_all dn) else LoadExit).
Proof.
  intros Hdn Hp Hex Hne. unfold loadAppendOnlyFile.
  rewrite (proj2 (Z.eqb_neq _ _)) by (pose proof (zlen_pos _ Hne); lia).
  rewrite (load_loop_spec dn _ trunc st st' (fopen (enc_all dn ++ part)) 0 part); try done.
  - f_equal. unfold finish. cbn [fopen bytes ftello fpos]. rewrite Z.add_0_l, to_nat_zlen, take_app_length.
    case_bool_decide as Hc; cbn [negb orb andb]; [|done]. by destruct (in_multi st').
  - rewrite length_app. pose proof (enc_all_length dn). lia.
Qed.

(** C18 (roundtrip, error): on a file that holds the first bytes of a sequence of
    requests, as a crash leaves it, the loading ends; the requests that are
    complete are executed, in order and byte for byte, and no other; when a request
    is cut or a transaction is open, the file is truncated after the last complete
    request if the configuration allows it and the server does not start
    otherwise. *)
Theorem load_recovers (trunc : bool) (st : St) (reqs : list (list (list Z))) (bs lost : list Z) :
  Forall loadable reqs -> enc_all reqs = bs ++ lost -> bs <> [] ->
  exists dn todo, reqs = dn ++ todo /\ zlen (enc_all dn) <= zlen bs /\
    (forall r, head todo = Some r -> zlen bs < zlen (enc_all dn) + zlen (enc_request r)) /\
    forall st', exec_all st dn = Some st' ->
      loadAppendOnlyFile trunc st (Some bs)
      = Some (if bool_decide (bs = enc_all dn) && negb (in_multi st') then LoadOk st' bs
              else if trunc then LoadOk st' (enc_all dn) else LoadExit).
Proof.
  intros Hok Heq Hne. destruct (split_prefix reqs bs lost Hok Heq) as (dn & todo & part & -> & -> & Hp).
  apply Forall_app in Hok as [Hdn Htodo].
  assert (zlen (enc_all dn ++ part) = zlen (enc_all dn) + zlen part) as Hz by apply zlen_app.
  exists dn, todo. split; [done|]. split; [pose proof (zlen_nonneg part); lia|]. split.
  - intros r Hr. destruct Hp as [->|(r' & x & Hr' & Heq' & Hx)].
    + rewrite (@zlen_nil Z) in Hz. pose proof (zlen_pos (enc_request r) ltac:(done)). lia.
    + assert (r' = r) as -> by congruence. rewrite Heq', !zlen_app. pose proof (zlen_pos x Hx). lia.
  - intros st' Hex. rewrite (load_file trunc st st' dn part Hdn); [|by destruct Hp as [->|(r & x & Hr & Hp)]; [left|right; exists r, x; destruct todo as [|t todo]; [done|]; injection Hr as <-; apply Forall_cons in Htodo as [? _]]|done|done].
    assert (bool_decide (part = []) = bool_decide (enc_all dn ++ part = enc_all dn)) as ->; [|done].
    apply bool_decide_ext. split; [intros ->; by rewrite app_nil_r|].
    intros Ha. apply (f_equal length) in Ha. rewrite length_app in Ha. destruct part; [done|simpl in Ha; lia].
Qed.
End LoadFacts.

(** ** Example: a server that keeps the commands *)

#[export] Instance log_commands : CommandTable (list (list (list Z))) := {|
  lookup _ _ := true;
  proc st r := Some (st ++ [r]);
  in_multi _ := false;
|}.

Lemma load_recovers_witness :
  loadAppendOnlyFile true []
    (Some (enc_all [[bytes_of_string "SET"; [120]; [49]]] ++ [42; 50; 13; 10; 36]))
  = Some (LoadOk [[bytes_of_string "SET"; [120]; [49]]]
      (enc_all [[bytes_of_string "SET"; [120]; [49]]])).
Proof.
  destruct (load_recovers true []
    [[bytes_of_string "SET"; [120]; [49]]; [bytes_of_string "DEL"; [120]]]
    (enc_all [[bytes_of_string "SET"; [120]; [49]]] ++ [42; 50; 13; 10; 36])
    (drop 5 (enc_all [[bytes_of_string "DEL"; [120]]])))
    as (dn & todo & Hr & Hlen & Hnext & Hload).
  - repeat (constructor; [split; [discriminate|split; [vm_compute; discriminate|
      repeat (constructor; [vm_compute; discriminate|]); constructor]]|]). constructor.
  - reflexivity.
  - discriminate.
  - assert (dn = [[bytes_of_string "SET"; [120]; [49]]]) as ->.
    { destruct dn as [|a [|b dn]]; cbn [app] in Hr.
      - subst todo. specialize (Hnext _ eq_refl). exfalso. revert Hnext. clear. vm_compute. discriminate.
      - by injection Hr as <- _.
      - injection Hr as <- <- Hr. exfalso. symmetry in Hr. apply app_eq_nil in Hr as [-> ->].
        apply Hlen. clear. vm_compute. reflexivity. }
    rewrite (Hload [[bytes_of_string "SET"; [120]; [49]]]); reflexivity.
Defined.
