(* ===== verification/Rdb.v ===== *)
(** * rdb.c: strings in dump files; cluster.c: DUMP payloads

    Lengths, integers and strings as rdb.c writes them to a [rio] (or only counts
    them, when there is no [rio]) and reads them back, over the LZF functions, the
    decimal conversions, the objects and the streams of the other files; and the
    payloads of DUMP and RESTORE for strings.  A panic, undefined behaviour or a
    failed assertion is [None]; a NULL object is the [None] of the result. *)

From Stdlib Require Import ZArith Lia String.
From stdpp Require Import base numbers list gmap.
From S2P Require Import Prelude Endian Util Sds Request Object Lzf Crc Rio.

Open Scope Z_scope.

Definition REDIS_RDB_VERSION : Z := 6.
Definition REDIS_RDB_6BITLEN : Z := 0.
Definition REDIS_RDB_14BITLEN : Z := 1.
Definition REDIS_RDB_32BITLEN : Z := 2.
Definition REDIS_RDB_ENCVAL : Z := 3.
Definition REDIS_RDB_LENERR : Z := 4294967295.
Definition REDIS_RDB_ENC_INT8 : Z := 0.
Definition REDIS_RDB_ENC_INT16 : Z := 1.
Definition REDIS_RDB_ENC_INT32 : Z := 2.
Definition REDIS_RDB_ENC_LZF : Z := 3.

Section Rdb.
Context {B : Type} `{Backend B} `{HostEndian}.

(** ** Saving *)

(** The result is the number of bytes, or -1; an [int]. *)
Definition rdbWriteRaw (rdb : option (rio B)) (p : list Z) : option (Z * option (rio B)) :=
  match rdb with
  | None => Some (s32 (zlen p), None)
  | Some r =>
      '(ok, r) ← rioWrite r p;
      Some (if (ok : bool) then s32 (zlen p) else -1, Some r)
  end.

Definition rdbSaveType (rdb : option (rio B)) (type : Z) : option (Z * option (rio B)) :=
  rdbWriteRaw rdb [u8 type].

Definition rdbSaveMillisecondTime (rdb : option (rio B)) (t : Z) : option (Z * option (rio B)) :=
  rdbWriteRaw rdb (host_enc 8 (u64 t)).

Definition rdbSaveLen (rdb : option (rio B)) (len : Z) : option (Z * option (rio B)) :=
  if len <? Z.shiftl 1 6 then
    '(n, rdb) ← rdbWriteRaw rdb [Z.lor (Z.land len 255) (Z.shiftl REDIS_RDB_6BITLEN 6)];
    Some (if n =? -1 then -1 else 1, rdb)
  else if len <? Z.shiftl 1 14 then
    '(n, rdb) ← rdbWriteRaw rdb
      [Z.lor (Z.land (Z.shiftr len 8) 255) (Z.shiftl REDIS_RDB_14BITLEN 6); Z.land len 255];
    Some (if n =? -1 then -1 else 2, rdb)
  else
    '(n, rdb) ← rdbWriteRaw rdb [Z.shiftl REDIS_RDB_32BITLEN 6];
    if n =? -1 then Some (-1, rdb)
    else
      (* the bytes of htonl(len) *)
      '(n, rdb) ← rdbWriteRaw rdb (be_enc 4 len);
      Some (if n =? -1 then -1 else 5, rdb).

(** The bytes that are stored in [enc]; none when the result is 0. *)
Definition rdbEncodeInteger (value : Z) : list Z :=
  if (value >=? - Z.shiftl 1 7) && (value <=? Z.shiftl 1 7 - 1) then
    [Z.lor (Z.shiftl REDIS_RDB_ENCVAL 6) REDIS_RDB_ENC_INT8; Z.land value 255]
  else if (value >=? - Z.shiftl 1 15) && (value <=? Z.shiftl 1 15 - 1) then
    [Z.lor (Z.shiftl REDIS_RDB_ENCVAL 6) REDIS_RDB_ENC_INT16;
     Z.land value 255; Z.land (Z.shiftr value 8) 255]
  else if (value >=? - Z.shiftl 1 31) && (value <=? Z.shiftl 1 31 - 1) then
    [Z.lor (Z.shiftl REDIS_RDB_ENCVAL 6) REDIS_RDB_ENC_INT32;
     Z.land value 255; Z.land (Z.shiftr value 8) 255;
     Z.land (Z.shiftr value 16) 255; Z.land (Z.shiftr value 24) 255]
  else [].

Definition rdbTryIntegerEncoding (s : list Z) : option (list Z) :=
  let '(value, endptr) := strtoll s in
  if negb (default 0 (head endptr) =? 0) then Some []
  else
    buf ← ll_buf 32 value;
    (* strlen(buf) != len || memcmp(buf,s,len) *)
    if negb (bool_decide (buf = s)) then Some [] else Some (rdbEncodeInteger value).

(** The hash table of the compressor and the output buffer hold indeterminate
    values. *)
Context (htab : Z -> Z) (junk : nat -> Z).

Definition rdbSaveLzfStringObject (rdb : option (rio B)) (s : list Z)
  : option (Z * option (rio B)) :=
  if zlen s <=? 4 then Some (0, rdb)
  else
    let outlen := zlen s - 4 in
    '(comprlen, out) ← lzf_compress s (junk <$> seq 0 (Z.to_nat (outlen + 1))) outlen htab;
    if comprlen =? 0 then Some (0, rdb)
    else
      '(n, rdb) ← rdbWriteRaw rdb [Z.lor (Z.shiftl REDIS_RDB_ENCVAL 6) REDIS_RDB_ENC_LZF];
      if n =? -1 then Some (-1, rdb)
      else
        let nwritten := n in
        '(n, rdb) ← rdbSaveLen rdb (u32 comprlen);
        if n =? -1 then Some (-1, rdb)
        else
          let nwritten := nwritten + n in
          '(n, rdb) ← rdbSaveLen rdb (u32 (zlen s));
          if n =? -1 then Some (-1, rdb)
          else
            let nwritten := nwritten + n in
            p ← load out 0 comprlen;
            '(n, rdb) ← rdbWriteRaw rdb p;
            if n =? -1 then Some (-1, rdb) else Some (nwritten + n, rdb).

Definition rdbSaveRawString (rdb_compression : bool) (rdb : option (rio B)) (s : list Z)
  : option (Z * option (rio B)) :=
  enc ← (if zlen s <=? 11 then rdbTryIntegerEncoding s else Some []);
  if zlen enc >? 0 then
    '(n, rdb) ← rdbWriteRaw rdb enc;
    Some (if n =? -1 then -1 else zlen enc, rdb)
  else
    '(n, rdb) ← (if rdb_compression && (zlen s >? 20) then rdbSaveLzfStringObject rdb s
                 else Some (0, rdb));
    if n =? -1 then Some (-1, rdb)
    else if n >? 0 then Some (n, rdb)
    else
      '(n, rdb) ← rdbSaveLen rdb (u32 (zlen s));
      if n =? -1 then Some (-1, rdb)
      else if zlen s >? 0 then
        '(m, rdb) ← rdbWriteRaw rdb s;
        Some (if m =? -1 then -1 else s32 (n + zlen s), rdb)
      else Some (n, rdb).

Definition rdbSaveLongLongAsStringObject (rdb : option (rio B)) (value : Z)
  : option (Z * option (rio B)) :=
  let enc := rdbEncodeInteger value in
  if zlen enc >? 0 then rdbWriteRaw rdb enc
  else
    buf ← ll_buf 32 value;
    if negb (zlen buf <? 32) then None
    else
      '(n, rdb) ← rdbSaveLen rdb (u32 (zlen buf));
      if n =? -1 then Some (-1, rdb)
      else
        '(m, rdb) ← rdbWriteRaw rdb buf;
        Some (if m =? -1 then -1 else n + m, rdb).

Definition rdbSaveStringObject (rdb_compression : bool) (rdb : option (rio B)) (obj : strval)
  : option (Z * option (rio B)) :=
  match obj with
  | INT v => rdbSaveLongLongAsStringObject rdb v
  | RAW s _ | EMBSTR s => rdbSaveRawString rdb_compression rdb s
  end.

(** ** Loading *)

Definition rdbLoadType (rdb : rio B) : option (Z * rio B) :=
  '(p, rdb) ← rioRead rdb 1;
  match p with
  | None => Some (-1, rdb)
  | Some p => type ← getb p 0; Some (type, rdb)
  end.

Definition rdbLoadTime (rdb : rio B) : option (Z * rio B) :=
  '(p, rdb) ← rioRead rdb 4;
  Some (match p with None => -1 | Some p => s32 (host_dec p) end, rdb).

Definition rdbLoadMillisecondTime (rdb : rio B) : option (Z * rio B) :=
  '(p, rdb) ← rioRead rdb 8;
  Some (match p with None => -1 | Some p => s64 (host_dec p) end, rdb).

(** The length and [*isencoded]. *)
Definition rdbLoadLen (rdb : rio B) : option (Z * bool * rio B) :=
  '(p, rdb) ← rioRead rdb 1;
  match p with
  | None => Some (REDIS_RDB_LENERR, false, rdb)
  | Some p =>
      buf0 ← getb p 0;
      let type := Z.shiftr (Z.land buf0 192) 6 in
      if type =? REDIS_RDB_ENCVAL then Some (Z.land buf0 63, true, rdb)
      else if type =? REDIS_RDB_6BITLEN then Some (Z.land buf0 63, false, rdb)
      else if type =? REDIS_RDB_14BITLEN then
        '(p, rdb) ← rioRead rdb 1;
        match p with
        | None => Some (REDIS_RDB_LENERR, false, rdb)
        | Some p =>
            buf1 ← getb p 0;
            Some (Z.lor (Z.shiftl (Z.land buf0 63) 8) buf1, false, rdb)
        end
      else
        '(p, rdb) ← rioRead rdb 4;
        Some (match p with None => REDIS_RDB_LENERR | Some p => be_dec p end, false, rdb)
  end.

(** The integer in [enc]; shifting a byte in the sign bit of an [int] is as on
    the machines with two's complement. *)
Definition integer_bytes (enctype : Z) : option Z :=
  if enctype =? REDIS_RDB_ENC_INT8 then Some 1
  else if enctype =? REDIS_RDB_ENC_INT16 then Some 2
  else if enctype =? REDIS_RDB_ENC_INT32 then Some 4
  else None.

Definition rdbLoadIntegerObject (rdb : rio B) (st : store) (enctype : Z) (encode : bool)
  : option (option loc * store * rio B) :=
  n ← integer_bytes enctype;
  '(enc, rdb) ← rioRead rdb n;
  match enc with
  | None => Some (None, st, rdb)
  | Some enc =>
      val ← (if enctype =? REDIS_RDB_ENC_INT8 then
               e0 ← getb enc 0; Some (s8 e0)
             else if enctype =? REDIS_RDB_ENC_INT16 then
               e0 ← getb enc 0; e1 ← getb enc 1;
               Some (s16 (u16 (Z.lor e0 (Z.shiftl e1 8))))
             else
               e0 ← getb enc 0; e1 ← getb enc 1; e2 ← getb enc 2; e3 ← getb enc 3;
               Some (s32 (u32 (Z.lor (Z.lor (Z.lor e0 (Z.shiftl e1 8)) (Z.shiftl e2 16))
                                     (Z.shiftl e3 24)))));
      '(o, st) ← (if encode then createStringObjectFromLongLong st val
                  else
                    s ← sdsfromlonglong junk val;
                    Some (createObject st (RAW (contents s) (free s))));
      Some (Some o, st, rdb)
  end.

Definition rdbLoadLzfStringObject (rdb : rio B) (st : store)
  : option (option loc * store * rio B) :=
  '(clen, _, rdb) ← rdbLoadLen rdb;
  if clen =? REDIS_RDB_LENERR then Some (None, st, rdb)
  else
    '(len, _, rdb) ← rdbLoadLen rdb;
    if len =? REDIS_RDB_LENERR then Some (None, st, rdb)
    else
      '(c, rdb) ← rioRead rdb clen;
      match c with
      | None => Some (None, st, rdb)
      | Some c =>
          '(n, val) ← lzf_decompress c clen (replicate (Z.to_nat len) 0) len;
          if n =? 0 then Some (None, st, rdb)
          else
            let '(o, st) := createObject st (RAW val 0) in
            Some (Some o, st, rdb)
      end.

(** The object whose string has been overwritten with [bs]. *)
Definition fill (st : store) (p : loc) (bs : list Z) : option store :=
  o ← heap st !! p;
  match val o with
  | RAW _ free => Some (set_heap st (<[p := mk_robj (refcount o) (RAW bs free)]> (heap st)))
  | EMBSTR _ => Some (set_heap st (<[p := mk_robj (refcount o) (EMBSTR bs)]> (heap st)))
  | INT _ => None
  end.

Definition rdbGenericLoadStringObject (rdb : rio B) (st : store) (encode : bool)
  : option (option loc * store * rio B) :=
  '(len, isencoded, rdb) ← rdbLoadLen rdb;
  if (isencoded : bool) then
    if (len =? REDIS_RDB_ENC_INT8) || (len =? REDIS_RDB_ENC_INT16) || (len =? REDIS_RDB_ENC_INT32)
    then rdbLoadIntegerObject rdb st len encode
    else if len =? REDIS_RDB_ENC_LZF then rdbLoadLzfStringObject rdb st
    else None
  else if len =? REDIS_RDB_LENERR then Some (None, st, rdb)
  else
    let zeros := replicate (Z.to_nat len) 0 in
    let '(o, st) := if encode then createStringObject st zeros else createRawStringObject st zeros in
    if len =? 0 then Some (Some o, st, rdb)
    else
      '(p, rdb) ← rioRead rdb len;
      match p with
      | None => st ← decrRefCount st o; Some (None, st, rdb)
      | Some bs => st ← fill st o bs; Some (Some o, st, rdb)
      end.

Definition rdbLoadStringObject (rdb : rio B) (st : store) := rdbGenericLoadStringObject rdb st false.
Definition rdbLoadEncodedStringObject (rdb : rio B) (st : store) :=
  rdbGenericLoadStringObject rdb st true.

(** ** Object types *)

(** [type] and [encoding] are those of redis.h. *)
Definition rdbSaveObjectType (rdb : option (rio B)) (type encoding : Z)
  : option (Z * option (rio B)) :=
  if type =? 0 then rdbSaveType rdb 0
  else if type =? 1 then
    if encoding =? 5 then rdbSaveType rdb 10
    else if encoding =? 4 then rdbSaveType rdb 1 else None
  else if type =? 2 then
    if encoding =? 6 then rdbSaveType rdb 11
    else if encoding =? 2 then rdbSaveType rdb 2 else None
  else if type =? 3 then
    if encoding =? 5 then rdbSaveType rdb 12
    else if encoding =? 7 then rdbSaveType rdb 3 else None
  else if type =? 4 then
    if encoding =? 5 then rdbSaveType rdb 13
    else if encoding =? 2 then rdbSaveType rdb 4 else None
  else None.

Definition rdbIsObjectType (t : Z) : bool :=
  ((t >=? 0) && (t <=? 4)) || ((t >=? 9) && (t <=? 13)).

Definition rdbLoadObjectType (rdb : rio B) : option (Z * rio B) :=
  '(type, rdb) ← rdbLoadType rdb;
  Some (if type =? -1 then -1 else if negb (rdbIsObjectType type) then -1 else type, rdb).

End Rdb.

(** ** Payloads of DUMP *)

Section Dump.
Context `{HostEndian} (htab : Z -> Z) (junk : nat -> Z).

(** For a string; the encoding of the object does not matter to its type. *)
Definition createDumpPayload (rdb_compression : bool) (o : strval) : option sdshdr :=
  s ← sdsempty junk;
  '(n, payload) ← @rdbSaveObjectType _ (rioBufferIO junk) (Some (rioInitWithBuffer s)) 0 0;
  if n =? 0 then None
  else
    '(n, payload) ← @rdbSaveStringObject _ (rioBufferIO junk) htab junk rdb_compression payload o;
    if n =? 0 then None
    else
      p ← payload;
      let buf := [Z.land REDIS_RDB_VERSION 255; Z.land (Z.shiftr REDIS_RDB_VERSION 8) 255] in
      s ← sdscatlen junk (ptr (io p)) buf 2;
      bs ← load (Sds.buf s) 0 (len s);
      crc ← crc64 0 bs;
      crc ← memrev64ifbe (host_enc 8 crc);
      sdscatlen junk s crc 8.

(** REDIS_OK is [true]. *)
Definition verifyDumpPayload (p : list Z) : option bool :=
  if zlen p <? 10 then Some false
  else
    footer ← load p (zlen p - 10) 10;
    f1 ← getb footer 1;
    f0 ← getb footer 0;
    let rdbver := Z.lor (Z.shiftl f1 8) f0 in
    if negb (rdbver =? REDIS_RDB_VERSION) then Some false
    else
      bs ← load p 0 (zlen p - 8);
      crc ← crc64 0 bs;
      crc ← memrev64ifbe (host_enc 8 crc);
      f ← load footer 2 8;
      Some (bool_decide (crc = f)).

End Dump.

(** ** The format *)

Definition len_enc (n : Z) : list Z :=
  if n <? 64 then [n]
  else if n <? 16384 then [64 + n / 256; n mod 256]
  else 128 :: be_enc 4 n.

Definition fits_int (k : nat) (v : Z) : Prop :=
  - 2 ^ (8 * Z.of_nat k - 1) <= v < 2 ^ (8 * Z.of_nat k - 1).

(** The number of bytes of the integers with the code [t]. *)
Definition int_size (t : Z) : nat := if t =? 0 then 1 else if t =? 1 then 2 else 4.

(** [rdb_string enc s]: the bytes [enc] are a representation of the string [s]. *)
Inductive rdb_string : list Z -> list Z -> Prop :=
| rdb_int t v :
    0 <= t <= 2 -> fits_int (int_size t) v ->
    rdb_string ((192 + t) :: le_enc (int_size t) v) (ll_repr v)
| rdb_lzf code s :
    codes code s -> code <> [] -> zlen code < REDIS_RDB_LENERR -> zlen s < REDIS_RDB_LENERR ->
    s <> [] -> rdb_string (195 :: len_enc (zlen code) ++ len_enc (zlen s) ++ code) s
| rdb_raw s :
    zlen s < REDIS_RDB_LENERR -> rdb_string (len_enc (zlen s) ++ s) s.

(** ** Lemmas: bits *)

Lemma int_code t : 0 <= t <= 3 -> Z.lor (Z.shiftl REDIS_RDB_ENCVAL 6) t = 192 + t.
Proof. intros. unfold REDIS_RDB_ENCVAL. rewrite lor_shiftl by lia. lia. Qed.

Lemma fits_int_1 v : fits_int 1 v <-> -128 <= v < 128.
Proof. reflexivity. Qed.
Lemma fits_int_2 v : fits_int 2 v <-> -32768 <= v < 32768.
Proof. reflexivity. Qed.
Lemma fits_int_4 v : fits_int 4 v <-> -2147483648 <= v < 2147483648.
Proof. reflexivity. Qed.

Lemma rdbEncodeInteger_spec v :
  in_ll v ->
  (exists t, 0 <= t <= 2 /\ fits_int (int_size t) v /\
     rdbEncodeInteger v = (192 + t) :: le_enc (int_size t) v) \/
  (~ fits_int 4 v /\ rdbEncodeInteger v = []).
Proof.
  intros Hv. unfold rdbEncodeInteger, REDIS_RDB_ENC_INT8, REDIS_RDB_ENC_INT16, REDIS_RDB_ENC_INT32.
  change (- Z.shiftl 1 7) with (-128). change (Z.shiftl 1 7 - 1) with 127.
  change (- Z.shiftl 1 15) with (-32768). change (Z.shiftl 1 15 - 1) with 32767.
  change (- Z.shiftl 1 31) with (-2147483648). change (Z.shiftl 1 31 - 1) with 2147483647.
  rewrite !Z.geb_leb. rewrite !land_255, !Z.shiftr_div_pow2 by lia.
  destruct ((-128 <=? v) && (v <=? 127)) eqn:E1.
  { left. exists 0. zbool. split; [lia|]. split; [change (fits_int 1 v); rewrite fits_int_1; lia|]. by rewrite int_code by lia. }
  destruct ((-32768 <=? v) && (v <=? 32767)) eqn:E2.
  { left. exists 1. zbool. split; [lia|]. split; [change (fits_int 2 v); rewrite fits_int_2; lia|]. by rewrite int_code by lia. }
  destruct ((-2147483648 <=? v) && (v <=? 2147483647)) eqn:E3.
  { left. exists 2. zbool. split; [lia|]. split; [change (fits_int 4 v); rewrite fits_int_4; lia|].
    rewrite int_code by lia. cbn. rewrite !Z.div_div by lia. done. }
  right. split; [|done]. rewrite fits_int_4. zbool. lia.
Qed.

Lemma len_enc_bytes n : 0 <= n < 2 ^ 32 -> bytes_ok (len_enc n).
Proof.
  intros Hn. unfold len_enc. destruct (Z.ltb_spec n 64).
  { apply Forall_singleton. unfold is_byte. lia. }
  destruct (Z.ltb_spec n 16384).
  - constructor; [|apply Forall_singleton]; unfold is_byte; dlia.
  - constructor; [by unfold is_byte|apply be_enc_bytes].
Qed.

Lemma zlen_len_enc n : 1 <= zlen (len_enc n) <= 5.
Proof.
  unfold len_enc. repeat case_match; rewrite ?zlen_cons, ?(@zlen_nil Z); try lia.
  unfold zlen. rewrite length_be_enc. lia.
Qed.

(** ** Lemmas: saving *)

Section SaveFacts.
Context {B : Type} `{BackendLaws B} `{HostEndian}.

(** [bs] can be saved after [l]; a length is an [int]. *)
Definition can_save (rdb : option (rio B)) (l : list Z) (n : Z) : Prop :=
  n <= INT32_MAX /\
  match rdb with
  | None => True
  | Some r => rio_ok r /\ written (io r) l /\ zlen l + n <= capacity
  end.

Definition saved (rdb rdb' : option (rio B)) (l bs : list Z) (n : Z) : Prop :=
  match rdb, rdb' with
  | None, None => n = zlen bs
  | Some r, Some r' => outcome (-1) r r' l bs n
  | _, _ => False
  end.

Lemma can_save_le rdb l n m : m <= n -> can_save rdb l n -> can_save rdb l m.
Proof. intros Hm [Hn Hr]. split; [lia|]. destruct rdb; [|done]. naive_solver lia. Qed.

Lemma rdbWriteRaw_spec rdb l bs :
  can_save rdb l (zlen bs) -> bytes_ok bs ->
  exists n rdb', rdbWriteRaw rdb bs = Some (n, rdb') /\ saved rdb rdb' l bs n.
Proof.
  intros [Hn Hr] Hb. unfold rdbWriteRaw. pose proof (zlen_nonneg bs).
  assert (s32 (zlen bs) = zlen bs) as -> by (unfold INT32_MAX in Hn; rewrite s32_small; lia).
  destruct rdb as [r|]; [|by eexists _, _].
  destruct Hr as (Hok & Hw & Hcap). destruct (rioWrite_spec r l bs Hok Hw Hb Hcap) as (ok & r' & -> & Hwr).
  sbind. eexists _, _. split; [done|]. destruct ok; [by left|by right].
Qed.

(** From [rdb] to [r] the bytes [a] have been saved after [l]. *)
Definition progress (rdb r : option (rio B)) (l a : list Z) : Prop := saved rdb r l a (zlen a).

(** [f] saves [b]. *)
Definition saves (f : option (rio B) -> option (Z * option (rio B))) (b : list Z) : Prop :=
  forall rdb l, can_save rdb l (zlen b) ->
    exists n rdb', f rdb = Some (n, rdb') /\ saved rdb rdb' l b n.

Lemma progress_nil rdb l n : can_save rdb l n -> progress rdb rdb l [].
Proof.
  intros [_ Hr]. destruct rdb as [r|]; [|done]. destruct Hr as (Hok & Hw & _). left.
  split; [done|]. split; [by rewrite app_nil_r|by apply advanced_nil].
Qed.

Lemma progress_done rdb r l a b n : progress rdb r l a -> a = b -> n = zlen b -> saved rdb r l b n.
Proof. by intros Hp <- ->. Qed.

(** One more piece: either it is saved, or the whole has failed. *)
Lemma saves_step f rdb r l a b :
  saves f b -> progress rdb r l a -> can_save rdb l (zlen a + zlen b) ->
  exists n r', f r = Some (n, r') /\
    ((n = zlen b /\ (n =? -1) = false /\ progress rdb r' l (a ++ b)) \/
     (n = -1 /\ forall c, saved rdb r' l c (-1))).
Proof.
  intros Hf Hp [Hn Hr]. pose proof (zlen_nonneg a). pose proof (zlen_nonneg b).
  assert (can_save r (l ++ a) (zlen b)) as Hc.
  { split; [lia|]. destruct rdb as [r0|], r as [r|]; try done. destruct Hr as (_ & _ & Hcap).
    destruct Hp as [(_ & Hw & Ha)|[Hz _]]; [|lia]. rewrite zlen_app. split; [apply Ha|]. split; [done|lia]. }
  destruct (Hf r (l ++ a) Hc) as (n & r' & -> & Hs). exists n, r'. split; [done|].
  unfold progress in *. destruct rdb as [r0|], r as [r|], r' as [r'|]; try done; cbn in *.
  - destruct Hp as [(_ & Hw & Ha)|[Hz _]]; [|lia].
    destruct Hs as [(-> & Hw' & Ha')|[-> Hrel]]; [left|right; split; [done|by right]].
    split; [done|]. split; [apply Z.eqb_neq; lia|]. left. split; [done|].
    rewrite <- app_assoc in Hw'. split; [done|]. by eapply advanced_app.
  - left. split; [done|]. split; [apply Z.eqb_neq; lia|]. done.
Qed.

Lemma saves_raw bs : bytes_ok bs -> saves (fun rdb => rdbWriteRaw rdb bs) bs.
Proof. intros Hb rdb l Hc. by apply rdbWriteRaw_spec. Qed.

(** Applies [saves_step] to the next save of the goal. *)
Ltac save_next L Hp Hc :=
  let n := fresh "n" in let r := fresh "r" in let E := fresh "E" in let Hf := fresh "Hf" in
  destruct (saves_step _ _ _ _ _ _ L Hp Hc) as (n & r & E & [(-> & Hf & Hp')|[-> Hf]]);
  cbv beta in E; rewrite E; clear E; sbind;
  [rewrite ?Hf; clear Hf; clear Hp; rename Hp' into Hp|].

Lemma rdbSaveLen_spec n : 0 <= n < 2 ^ 32 -> saves (fun rdb => rdbSaveLen rdb n) (len_enc n).
Proof.
  intros Hn rdb l Hc. pose proof (len_enc_bytes n Hn) as Hb. unfold rdbSaveLen.
  change (Z.shiftl 1 6) with 64. change (Z.shiftl 1 14) with 16384.
  change (Z.shiftl REDIS_RDB_32BITLEN 6) with 128. unfold REDIS_RDB_6BITLEN, REDIS_RDB_14BITLEN.
  rewrite !land_255, Z.shiftr_div_pow2 by lia. change (2 ^ 8) with 256.
  pose proof (progress_nil rdb l _ Hc) as Hp.
  unfold len_enc in *. destruct (Z.ltb_spec n 64); [|destruct (Z.ltb_spec n 16384)].
  - rewrite lor_shiftl_r by dlia. rewrite Z.mod_small, Z.mul_0_l, Z.add_0_r by lia.
    save_next (saves_raw [n] Hb) Hp Hc; eexists _, _; (split; [done|]); [exact Hp|done].
  - rewrite lor_shiftl_r by dlia. rewrite (Z.mod_small (n / 256)) by dlia.
    replace (n / 256 + 1 * 2 ^ 6) with (64 + n / 256) by lia.
    save_next (saves_raw _ Hb) Hp Hc; eexists _, _; (split; [done|]); [exact Hp|done].
  - change (128 :: be_enc 4 n) with ([128] ++ be_enc 4 n) in *. apply bytes_ok_app in Hb as [Hb1 Hb2].
    pose proof Hc as Hc2. rewrite zlen_app in Hc2. pose proof (zlen_nonneg (be_enc 4 n)).
    assert (can_save rdb l (zlen (@nil Z) + zlen [128])) as Hc1 by (eapply can_save_le; [|exact Hc2]; rewrite (@zlen_nil Z); lia).
    save_next (saves_raw [128] Hb1) Hp Hc1; [|eexists _, _; split; [done|done]].
    save_next (saves_raw _ Hb2) Hp Hc2; eexists _, _; (split; [done|]); [exact Hp|done].
Qed.

Lemma rdbTryIntegerEncoding_spec s :
  exists enc, rdbTryIntegerEncoding s = Some enc /\
    (enc = [] \/ exists t v, 0 <= t <= 2 /\ fits_int (int_size t) v /\
       enc = (192 + t) :: le_enc (int_size t) v /\ s = ll_repr v).
Proof.
  unfold rdbTryIntegerEncoding. pose proof (strtoll_ll s) as Hll.
  destruct (strtoll s) as [v endptr]. cbn in Hll. case_match; [by exists []; split; [|left]|].
  rewrite ll_buf_spec by (done || lia). sbind. case_bool_decide as Heq; cbn [negb].
  - exists (rdbEncodeInteger v). split; [done|].
    destruct (rdbEncodeInteger_spec v Hll) as [(t & Ht & Hf & ->)|[_ ->]]; [right|by left].
    by exists t, v.
  - exists []. split; [done|by left].
Qed.

Lemma int_size_zlen t v : 0 <= t <= 2 -> zlen ((192 + t) :: le_enc (int_size t) v) <= 5.
Proof.
  intros Ht. rewrite zlen_cons, zlen_le_enc. unfold int_size. repeat case_match; lia.
Qed.

Lemma int_enc_bytes t v : 0 <= t <= 2 -> bytes_ok ((192 + t) :: le_enc (int_size t) v).
Proof. intros Ht. constructor; [unfold is_byte; lia|apply le_enc_bytes]. Qed.

Context (htab : Z -> Z) (junk : nat -> Z).

(** [f] saves the string [s], in one representation for all the targets. *)
Definition saves_string (f : option (rio B) -> option (Z * option (rio B))) (s : list Z) : Prop :=
  exists enc, rdb_string enc s /\ bytes_ok enc /\ 0 < zlen enc <= zlen s + 16 /\ saves f enc.

Lemma saves_ext f g b : (forall rdb, f rdb = g rdb) -> saves g b -> saves f b.
Proof. intros Heq Hg rdb l Hc. rewrite Heq. by apply Hg. Qed.

(** The caller of [f] checks its result, as all of them do. *)
Lemma saves_checked f b k :
  saves f b -> 0 < zlen b -> k = zlen b ->
  saves (fun rdb => '(n, rdb) ← f rdb; Some (if n =? -1 then -1 else k, rdb)) b.
Proof.
  intros Hf Hb -> rdb l Hc. destruct (Hf rdb l Hc) as (n & r & -> & Hs). sbind.
  eexists _, _. split; [done|]. destruct (Z.eqb_spec n (-1)) as [->|Hn]; [done|].
  destruct rdb as [r0|], r as [r|]; try done. cbn in *. by destruct Hs as [(-> & ? & ?)|[-> _]]; [left|].
Qed.

Ltac zl := rewrite ?zlen_app, ?(@zlen_nil Z); try change (zlen [195]) with 1; lia.

Ltac step_fits Hc := eapply can_save_le; [|exact Hc]; zl.

Lemma rdbSaveLzfStringObject_spec s :
  bytes_ok s -> zlen s <= 536870912 -> junk_ok htab ->
  (forall rdb, rdbSaveLzfStringObject (B:=B) htab junk rdb s = Some (0, rdb)) \/
  saves_string (fun rdb => rdbSaveLzfStringObject htab junk rdb s) s.
Proof.
  intros Hb Hs Hj. unfold rdbSaveLzfStringObject. destruct (Z.leb_spec (zlen s) 4); [by left|].
  set (out := junk <$> seq 0 (Z.to_nat (zlen s - 4 + 1))).
  assert (zlen out = zlen s - 4 + 1) as Hout by (subst out; unfold zlen at 1; rewrite length_fmap, length_seq; lia).
  destruct (lzf_compress_spec s out (zlen s - 4) htab) as (cl & out' & -> & Hz & Hcl & Hcodes);
    [lia..|done|]. sbind.
  destruct (Z.eqb_spec cl 0) as [Hcl0|Hcl0]; [by left|right].
  specialize (Hcodes Hcl0). set (code := take (Z.to_nat cl) out') in *.
  assert (zlen code = cl) as Hzc by (subst code; rewrite zlen_take; lia).
  assert (load out' 0 cl = Some code) as Hload.
  { rewrite <- (take_drop (Z.to_nat cl) out'). by apply load_prefix. }
  clearbody code. subst cl. assert (bytes_ok code) as Hbc by (by eapply codes_bytes).
  rewrite int_code by (unfold REDIS_RDB_ENC_LZF; lia). change (192 + REDIS_RDB_ENC_LZF) with 195.
  rewrite !u32_small by lia. pose proof (zlen_len_enc (zlen code)) as Hl1. pose proof (zlen_len_enc (zlen s)) as Hl2.
  assert (bytes_ok (len_enc (zlen code)) /\ bytes_ok (len_enc (zlen s))) as [Hb1 Hb2] by (split; apply len_enc_bytes; lia).
  pose proof (rdbSaveLen_spec (zlen code) ltac:(lia)) as Hs1.
  pose proof (rdbSaveLen_spec (zlen s) ltac:(lia)) as Hs2.
  assert (rdb_string ([195] ++ len_enc (zlen code) ++ len_enc (zlen s) ++ code) s) as Henc.
  { apply rdb_lzf; try done; unfold REDIS_RDB_LENERR; try lia; [by intros ->|].
    intros ->. rewrite (@zlen_nil Z) in *. lia. }
  set (e1 := len_enc (zlen code)) in *. set (e2 := len_enc (zlen s)) in *.
  pose proof (zlen_nonneg code). exists ([195] ++ e1 ++ e2 ++ code). split; [done|]. split.
  { constructor; [by unfold is_byte|]. by repeat (apply Forall_app; split). }
  split; [zl|]. intros rdb l Hc. pose proof (progress_nil rdb l _ Hc) as Hp.
  assert (zlen ([195] ++ e1 ++ e2 ++ code) = 1 + zlen e1 + zlen e2 + zlen code) as Htot by zl.
  rewrite Htot in Hc.
  assert (can_save rdb l (zlen (@nil Z) + zlen [195])) as Hc1 by step_fits Hc.
  save_next (saves_raw [195] ltac:(by apply Forall_singleton)) Hp Hc1; [|by eexists _, _].
  assert (can_save rdb l (zlen ([] ++ [195]) + zlen e1)) as Hc2 by step_fits Hc.
  save_next Hs1 Hp Hc2; [|by eexists _, _].
  assert (can_save rdb l (zlen (([] ++ [195]) ++ e1) + zlen e2)) as Hc3 by step_fits Hc.
  save_next Hs2 Hp Hc3; [|by eexists _, _].
  rewrite Hload. sbind.
  assert (can_save rdb l (zlen ((([] ++ [195]) ++ e1) ++ e2) + zlen code)) as Hc4 by step_fits Hc.
  save_next (saves_raw code Hbc) Hp Hc4; [|by eexists _, _].
  eexists _, _. split; [done|]. eapply progress_done; [exact Hp|by rewrite <- !app_assoc|].
  rewrite Htot. zl.
Qed.

Lemma saves_int t v :
  0 <= t <= 2 -> fits_int (int_size t) v ->
  let enc := (192 + t) :: le_enc (int_size t) v in
  saves_string (fun rdb => rdbWriteRaw rdb enc) (ll_repr v) /\ 0 < zlen enc.
Proof.
  intros Ht Hf enc. pose proof (int_size_zlen t v Ht) as H5. fold enc in H5. pose proof (zlen_nonneg (ll_repr v)).
  assert (0 < zlen enc) as Hpos by (by apply zlen_pos). split; [|done].
  exists enc. split; [by apply rdb_int|]. split; [by apply int_enc_bytes|]. split; [lia|].
  apply saves_raw. by apply int_enc_bytes.
Qed.

(** The string as it is; [sum] is the way the caller adds the two results. *)
Lemma saves_verbatim f sum s :
  bytes_ok s -> zlen s <= 536870912 ->
  (forall n m, 0 <= n <= 5 -> m = zlen s -> sum n m = n + m) ->
  (forall rdb, f rdb =
    ('(n, rdb) ← rdbSaveLen rdb (u32 (zlen s));
     if n =? -1 then Some (-1, rdb)
     else if zlen s >? 0 then
       '(m, rdb) ← rdbWriteRaw rdb s;
       Some (if m =? -1 then -1 else sum n m, rdb)
     else Some (n, rdb))) ->
  saves_string f s.
Proof.
  intros Hb Hs Hsum Hf. pose proof (zlen_nonneg s). pose proof (zlen_len_enc (zlen s)) as Hl.
  assert (bytes_ok (len_enc (zlen s))) as Hbl by (apply len_enc_bytes; lia).
  pose proof (rdbSaveLen_spec (zlen s) ltac:(lia)) as Hlen.
  exists (len_enc (zlen s) ++ s). split; [apply rdb_raw; unfold REDIS_RDB_LENERR; lia|].
  split; [by apply Forall_app|]. set (e := len_enc (zlen s)) in *. split; [zl|].
  intros rdb l Hc. rewrite Hf, u32_small by lia.
  pose proof (progress_nil rdb l _ Hc) as Hp. rewrite zlen_app in Hc.
  assert (can_save rdb l (zlen (@nil Z) + zlen e)) as Hc1 by step_fits Hc.
  save_next Hlen Hp Hc1; [|by eexists _, _].
  rewrite Z.gtb_ltb. destruct (Z.ltb_spec 0 (zlen s)).
  - assert (can_save rdb l (zlen ([] ++ e) + zlen s)) as Hc2 by step_fits Hc.
    save_next (saves_raw s Hb) Hp Hc2; eexists _, _; (split; [done|]); [|done].
    eapply progress_done; [exact Hp|done|]. rewrite Hsum by (done || lia). zl.
  - assert (s = []) as -> by (apply zlen_0; lia). eexists _, _. split; [done|].
    eapply progress_done; [exact Hp|by rewrite app_nil_r|zl].
Qed.

Lemma rdbSaveRawString_spec compr s :
  bytes_ok s -> zlen s <= 536870912 -> junk_ok htab ->
  saves_string (fun rdb => rdbSaveRawString htab junk compr rdb s) s.
Proof.
  intros Hb Hs Hj. unfold rdbSaveRawString.
  assert (exists enc, (if zlen s <=? 11 then rdbTryIntegerEncoding s else Some []) = Some enc /\
    (enc = [] \/ exists t v, 0 <= t <= 2 /\ fits_int (int_size t) v /\
       enc = (192 + t) :: le_enc (int_size t) v /\ s = ll_repr v)) as (enc & -> & Henc).
  { case_match; [apply rdbTryIntegerEncoding_spec|]. exists []. split; [done|by left]. }
  sbind. destruct Henc as [->|(t & v & Ht & Hf & -> & ->)].
  - change (zlen [] >? 0) with false. cbv iota.
    assert ((forall rdb, (if compr && (zlen s >? 20) then rdbSaveLzfStringObject (B:=B) htab junk rdb s
                          else Some (0, rdb)) = Some (0, rdb)) \/
      saves_string (fun rdb => if compr && (zlen s >? 20) then rdbSaveLzfStringObject htab junk rdb s
                               else Some (0, rdb)) s) as [Hz|(enc & Henc & Hbe & Hze & Hsv)].
    { case_match; [by apply rdbSaveLzfStringObject_spec|by left]. }
    + apply (saves_verbatim _ (fun n _ => s32 (n + zlen s))); [done|done| |].
      * intros n m Hn ->. pose proof (zlen_nonneg s). apply s32_small; lia.
      * intros rdb. by rewrite Hz.
    + exists enc. split_and!; [done|done|lia|lia|]. intros rdb l Hc.
      destruct (Hsv rdb l Hc) as (n & r & -> & Hs'). sbind.
      destruct (Z.eqb_spec n (-1)) as [->|Hn1]; [by eexists _, _|].
      assert (0 < n) as Hpos.
      { destruct rdb as [r0|], r as [r|]; try done; cbn in Hs'; [|lia].
        destruct Hs' as [(-> & _)|[-> _]]; [lia|done]. }
      rewrite Z.gtb_ltb, (proj2 (Z.ltb_lt _ _)) by done. by eexists _, _.
  - destruct (saves_int t v Ht Hf) as [(enc & Henc & Hbe & Hze & Hsv) Hpos].
    rewrite Z.gtb_ltb, (proj2 (Z.ltb_lt _ _)) by done.
    eexists. split; [by apply (rdb_int t v)|]. split; [by apply int_enc_bytes|].
    pose proof (int_size_zlen t v Ht). pose proof (zlen_nonneg (ll_repr v)). split; [lia|].
    apply saves_checked; [|done|done]. apply saves_raw. by apply int_enc_bytes.
Qed.

Lemma rdbSaveStringObject_spec compr o :
  bytes_ok (value o) -> wf_val o -> junk_ok htab ->
  saves_string (fun rdb => rdbSaveStringObject htab junk compr rdb o) (value o).
Proof.
  intros Hb Ho Hj. pose proof (value_len o Ho) as Hl.
  destruct o as [s fr|s|v]; cbn [rdbSaveStringObject value] in *; [by apply rdbSaveRawString_spec; [..|lia|]..|].
  unfold rdbSaveLongLongAsStringObject.
  destruct (rdbEncodeInteger_spec v Ho) as [(t & Ht & Hf & ->)|[_ ->]].
  - destruct (saves_int t v Ht Hf) as [Hsv Hpos].
    by rewrite Z.gtb_ltb, (proj2 (Z.ltb_lt _ _)).
  - change (zlen [] >? 0) with false. cbv iota. rewrite (ll_buf_spec 32 v Ho) by lia. sbind.
    pose proof (ll_repr_len v Ho) as Hl20. rewrite (proj2 (Z.ltb_lt _ _)) by lia. cbn [negb].
    apply (saves_verbatim _ Z.add); [done|lia|done|]. intros rdb.
    by rewrite Z.gtb_ltb, (proj2 (Z.ltb_lt 0 _)) by (by apply ll_repr_pos).
Qed.
End SaveFacts.

(** ** Lemmas: loading *)

Section LoadFacts.
Context {B : Type} `{BackendLaws B} `{HostEndian} (junk : nat -> Z).

(** [f] has read [a] from [r]. *)
Definition consumed (r r' : rio B) (a rest : list Z) : Prop :=
  unread (io r') rest /\ advanced r r' a.

Lemma consumed_nil r rest : rio_ok r -> unread (io r) rest -> consumed r r [] rest.
Proof. intros Hok Hu. split; [done|by apply advanced_nil]. Qed.

Lemma consumed_read r r1 a b rest n :
  consumed r r1 a (b ++ rest) -> bytes_ok b -> n = zlen b ->
  exists r2, rioRead r1 n = Some (Some b, r2) /\ consumed r r2 (a ++ b) rest.
Proof.
  intros [Hu Ha] Hb Hn. destruct (rioRead_spec r1 b rest n (adv_ok _ _ _ Ha) Hu Hb Hn) as (r2 & Hr & Hu2 & Ha2).
  exists r2. split; [done|]. split; [done|]. by eapply advanced_app.
Qed.

Lemma consumed_short r r1 a b n :
  consumed r r1 a b -> bytes_ok b -> zlen b < n < 2 ^ 63 ->
  exists r2, rioRead r1 n = Some (None, r2).
Proof. intros [Hu Ha] Hb Hn. eapply rioRead_short; [apply Ha|done..]. Qed.

Lemma byte_split b : 0 <= b < 256 -> Z.shiftr (Z.land b 192) 6 = b / 64 /\ Z.land b 63 = b mod 64.
Proof. intros Hb. by rewrite byte_type, land_63. Qed.

(** The beginning of [rdbLoadLen]. *)
Lemma rdbLoadLen_first r r1 a b rest :
  consumed r r1 a (b :: rest) -> is_byte b ->
  exists r2, consumed r r2 (a ++ [b]) rest /\
    rdbLoadLen r1 =
    (if b / 64 =? 3 then Some (b mod 64, true, r2)
     else if b / 64 =? 0 then Some (b mod 64, false, r2)
     else if b / 64 =? 1 then
       '(p, rdb) ← rioRead r2 1;
       match p with
       | None => Some (REDIS_RDB_LENERR, false, rdb)
       | Some p => buf1 ← getb p 0; Some (Z.lor (Z.shiftl (b mod 64) 8) buf1, false, rdb)
       end
     else
       '(p, rdb) ← rioRead r2 4;
       Some (match p with None => REDIS_RDB_LENERR | Some p => be_dec p end, false, rdb)).
Proof.
  intros Hc Hb. destruct (consumed_read r r1 a [b] rest 1 Hc) as (r2 & Hr & Hc2);
    [by apply Forall_singleton|done|].
  exists r2. split; [done|]. unfold rdbLoadLen. rewrite Hr. sbind.
  change (getb [b] 0) with (Some b). sbind. destruct (byte_split b Hb) as [-> ->]. done.
Qed.

Lemma rdbLoadLen_enc r r1 a n rest :
  consumed r r1 a (len_enc n ++ rest) -> 0 <= n < REDIS_RDB_LENERR ->
  exists r2, rdbLoadLen r1 = Some (n, false, r2) /\ consumed r r2 (a ++ len_enc n) rest.
Proof.
  intros Hc Hn. unfold REDIS_RDB_LENERR in Hn. unfold len_enc in *.
  destruct (Z.ltb_spec n 64); [|destruct (Z.ltb_spec n 16384)].
  - destruct (rdbLoadLen_first r r1 a n rest Hc) as (r2 & Hc2 & ->); [unfold is_byte; lia|].
    exists r2. split; [|done]. rewrite Z.div_small, Z.mod_small by lia. done.
  - destruct (rdbLoadLen_first r r1 a (64 + n / 256) (n mod 256 :: rest) Hc) as (r2 & Hc2 & ->);
      [unfold is_byte; dlia|].
    destruct (consumed_read r r2 _ [n mod 256] rest 1 Hc2) as (r3 & Hr & Hc3);
      [apply Forall_singleton; unfold is_byte; dlia|done|].
    exists r3. rewrite <- app_assoc in Hc3. split; [|done].
    replace ((64 + n / 256) / 64) with 1 by dlia. cbv [Z.eqb Pos.eqb]. rewrite Hr. sbind.
    change (getb [n mod 256] 0) with (Some (n mod 256)). sbind. rewrite lor_shiftl by dlia.
    do 3 f_equal. replace ((64 + n / 256) mod 64) with (n / 256) by dlia. dlia.
  - destruct (rdbLoadLen_first r r1 a 128 (be_enc 4 n ++ rest) Hc) as (r2 & Hc2 & ->); [done|].
    destruct (consumed_read r r2 _ (be_enc 4 n) rest 4 Hc2) as (r3 & Hr & Hc3);
      [apply be_enc_bytes|unfold zlen; by rewrite length_be_enc|].
    exists r3. rewrite <- app_assoc in Hc3. split; [|done].
    change (128 / 64) with 2. cbv [Z.eqb Pos.eqb]. rewrite Hr. sbind.
    rewrite be_dec_enc. change (256 ^ Z.of_nat 4) with 4294967296. by rewrite Z.mod_small by lia.
Qed.

(** A length whose end is missing. *)
Lemma rdbLoadLen_cut r r1 a n p x :
  consumed r r1 a p -> len_enc n = p ++ x -> x <> [] -> 0 <= n < REDIS_RDB_LENERR ->
  exists r2, rdbLoadLen r1 = Some (REDIS_RDB_LENERR, false, r2).
Proof.
  intros Hc Heq Hx Hn. unfold REDIS_RDB_LENERR in Hn.
  assert (bytes_ok p) as Hb.
  { pose proof (len_enc_bytes n ltac:(lia)) as Hb. rewrite Heq in Hb. by apply bytes_ok_app in Hb as [? _]. }
  destruct p as [|b p].
  - destruct (consumed_short r r1 a [] 1 Hc Hb) as (r2 & Hr); [done|].
    exists r2. unfold rdbLoadLen. by rewrite Hr.
  - apply Forall_cons in Hb as [Hb Hbp].
    destruct (rdbLoadLen_first r r1 a b p Hc Hb) as (r2 & Hc2 & ->).
    unfold len_enc in Heq. destruct (Z.ltb_spec n 64); [|destruct (Z.ltb_spec n 16384)].
    + injection Heq as _ Heq. symmetry in Heq. by apply app_eq_nil in Heq as [_ ->].
    + injection Heq as <- Heq. destruct p as [|b p];
        [|injection Heq as _ Heq; symmetry in Heq; by apply app_eq_nil in Heq as [_ ->]].
      destruct (consumed_short _ _ _ _ 1 Hc2 Hbp) as (r3 & Hr); [done|]. exists r3.
      replace ((64 + n / 256) / 64) with 1 by dlia. cbv [Z.eqb Pos.eqb]. by rewrite Hr.
    + injection Heq as <- Heq. assert (zlen p < 4) as Hz.
      { assert (zlen (be_enc 4 n) = 4) as H4 by (unfold zlen; by rewrite length_be_enc).
        rewrite Heq, zlen_app in H4. pose proof (zlen_pos x Hx). lia. }
      destruct (consumed_short _ _ _ _ 4 Hc2 Hbp) as (r3 & Hr); [lia|]. exists r3.
      change (128 / 64) with 2. cbv [Z.eqb Pos.eqb]. by rewrite Hr.
Qed.

Lemma getb_le_enc k v i : 0 <= i < Z.of_nat k -> getb (le_enc k v) i = Some (v / 256 ^ i mod 256).
Proof.
  intros Hi. unfold getb. rewrite (proj2 (Z.leb_le _ _)) by lia.
  replace (256 ^ i) with (256 ^ Z.of_nat (Z.to_nat i)) by (f_equal; lia).
  assert (Z.to_nat i < k)%nat as Hk by lia. clear Hi. revert v k Hk.
  induction (Z.to_nat i) as [|j IH]; intros v [|k] Hk; try lia; cbn [le_enc lookup list_lookup].
  - change (256 ^ Z.of_nat 0) with 1. by rewrite Z.div_1_r.
  - rewrite IH by lia. rewrite Z.div_div by (try lia; apply Z.pow_pos_nonneg; lia).
    do 3 f_equal. rewrite Nat2Z.inj_succ, Z.pow_succ_r by lia. done.
Qed.

(** The integer that is read from its bytes. *)
Lemma int_decode t v :
  0 <= t <= 2 -> fits_int (int_size t) v ->
  let enc := le_enc (int_size t) v in
  (if t =? REDIS_RDB_ENC_INT8 then
     e0 ← getb enc 0; Some (s8 e0)
   else if t =? REDIS_RDB_ENC_INT16 then
     e0 ← getb enc 0; e1 ← getb enc 1; Some (s16 (u16 (Z.lor e0 (Z.shiftl e1 8))))
   else
     e0 ← getb enc 0; e1 ← getb enc 1; e2 ← getb enc 2; e3 ← getb enc 3;
     Some (s32 (u32 (Z.lor (Z.lor (Z.lor e0 (Z.shiftl e1 8)) (Z.shiftl e2 16)) (Z.shiftl e3 24)))))
  = Some v.
Proof.
  intros Ht Hf enc. unfold REDIS_RDB_ENC_INT8, REDIS_RDB_ENC_INT16. subst enc.
  assert (t = 0 \/ t = 1 \/ t = 2) as [-> | [-> | ->]] by lia; cbv [Z.eqb Pos.eqb];
    unfold int_size in *; cbv [Z.eqb Pos.eqb] in *.
  - rewrite fits_int_1 in Hf. rewrite getb_le_enc by lia. sbind.
    change (256 ^ 0) with 1. rewrite Z.div_1_r. f_equal.
    change (v mod 256) with (u8 v). rewrite swrap_uwrap by lia. apply swrap_small; lia.
  - rewrite fits_int_2 in Hf. rewrite !getb_le_enc by lia. sbind.
    change (256 ^ 0) with 1. change (256 ^ 1) with 256. rewrite Z.div_1_r. f_equal.
    rewrite lor_shiftl_r by dlia. replace (v mod 256 + v / 256 mod 256 * 2 ^ 8) with (u16 v)
      by (unfold uwrap; change (2 ^ 16) with 65536; change (2 ^ 8) with 256; dlia).
    rewrite uwrap_uwrap, swrap_uwrap by lia. apply swrap_small; lia.
  - rewrite fits_int_4 in Hf. rewrite !getb_le_enc by lia. sbind.
    change (256 ^ 0) with 1. change (256 ^ 1) with 256. change (256 ^ 2) with 65536.
    change (256 ^ 3) with 16777216. rewrite Z.div_1_r. f_equal.
    rewrite (lor_shiftl_r _ (v mod 256) 8) by dlia. change (2 ^ 8) with 256.
    rewrite (lor_shiftl_r _ _ 16) by (change (2 ^ 16) with 65536; dlia). change (2 ^ 16) with 65536.
    rewrite (lor_shiftl_r _ _ 24) by (change (2 ^ 24) with 16777216; dlia). change (2 ^ 24) with 16777216.
    replace (_ + _) with (u32 v) by (unfold uwrap; change (2 ^ 32) with 4294967296; dlia).
    rewrite uwrap_uwrap, swrap_uwrap by lia. apply swrap_small; lia.
Qed.

(** An object for [s] has been created at [o]. *)
Definition loaded (st st' : store) (o : loc) (s : list Z) : Prop :=
  store_ok st' /\ moves st st' None (Some o) /\ holds st' o s.

Lemma loaded_create st v o st' :
  createObject st v = (o, st') -> store_ok st -> wf_val v -> loaded st st' o (value v).
Proof.
  intros Hc Hst Hv. apply createObject_spec in Hc as (_ & -> & Hok & Hm); [|done|done].
  split; [done|]. split; [done|]. eexists. cbn. by rewrite lookup_insert_eq.
Qed.

Lemma sdsfromlonglong_spec v :
  LLONG_MIN < v <= LLONG_MAX -> exists s, sdsfromlonglong junk v = Some s /\ sds_ok s (ll_repr v).
Proof.
  intros Hv. unfold sdsfromlonglong.
  destruct (sdsll2str_spec (junk <$> seq 0 (Z.to_nat SDS_LLSTR_SIZE)) v Hv) as [-> Hl]; [by vm_compute|].
  sbind. apply newlen_spec; [by apply load_prefix|]. unfold INT32_MAX. lia.
Qed.

Lemma fits_int_above t v : fits_int (int_size t) v -> LLONG_MIN < v <= LLONG_MAX.
Proof.
  unfold int_size. intros Hf.
  assert (-2147483648 <= v < 2147483648).
  { destruct (t =? 0); [rewrite fits_int_1 in Hf; lia|].
    destruct (t =? 1); [rewrite fits_int_2 in Hf|rewrite fits_int_4 in Hf]; lia. }
  unfold LLONG_MIN, LLONG_MAX. lia.
Qed.

Lemma fits_int_ll t v : fits_int (int_size t) v -> in_ll v.
Proof. intros Hf%fits_int_above. unfold in_ll. lia. Qed.

Lemma rdbLoadIntegerObject_spec r r1 a st t v rest encode :
  consumed r r1 a (le_enc (int_size t) v ++ rest) -> 0 <= t <= 2 -> fits_int (int_size t) v ->
  store_ok st -> room st ->
  exists o st' r2, rdbLoadIntegerObject junk r1 st t encode = Some (Some o, st', r2) /\
    loaded st st' o (ll_repr v) /\ consumed r r2 (a ++ le_enc (int_size t) v) rest.
Proof.
  intros Hc Ht Hf Hst Hroom. pose proof (fits_int_ll t v Hf) as Hll. unfold rdbLoadIntegerObject.
  assert (integer_bytes t = Some (Z.of_nat (int_size t))) as ->
    by (by assert (t = 0 \/ t = 1 \/ t = 2) as [-> | [-> | ->]] by lia). sbind.
  destruct (consumed_read r r1 a _ rest (Z.of_nat (int_size t)) Hc) as (r2 & -> & Hc2);
    [apply le_enc_bytes|by rewrite zlen_le_enc|]. sbind.
  pose proof (int_decode t v Ht Hf) as Hd. cbv zeta in Hd. rewrite Hd. sbind. destruct encode.
  - destruct (createStringObjectFromLongLong_spec st v Hst Hroom Hll) as (o & st' & -> & Hok & Hm & Hh & _).
    sbind. by exists o, st', r2.
  - destruct (sdsfromlonglong_spec v (fits_int_above t v Hf)) as (s & -> & Hs). sbind.
    destruct (createObject st (RAW (contents s) (free s))) as [o st'] eqn:Hcr. sbind.
    rewrite (contents_ok s _ Hs) in Hcr. exists o, st', r2. split; [done|]. split; [|done].
    eapply (loaded_create _ (RAW (ll_repr v) _)); [done|done|]. pose proof (ll_repr_len v Hll).
    destruct Hs as (rs & -> & _). split; cbn [free]; [lia|apply zlen_nonneg].
Qed.

Lemma rdbLoadLzfStringObject_spec r r1 a st code s rest :
  consumed r r1 a ((len_enc (zlen code) ++ len_enc (zlen s) ++ code) ++ rest) ->
  bytes_ok code -> codes code s -> code <> [] -> s <> [] ->
  zlen code < REDIS_RDB_LENERR -> zlen s <= 536870912 -> store_ok st ->
  exists o st' r2, rdbLoadLzfStringObject r1 st = Some (Some o, st', r2) /\
    loaded st st' o s /\ consumed r r2 (a ++ len_enc (zlen code) ++ len_enc (zlen s) ++ code) rest.
Proof.
  intros Hc Hb Hcodes Hne Hsne Hcl Hs Hst. pose proof (zlen_nonneg code). pose proof (zlen_nonneg s).
  rewrite <- !app_assoc in Hc. unfold rdbLoadLzfStringObject.
  destruct (rdbLoadLen_enc r r1 a (zlen code) _ Hc) as (r2 & -> & Hc2); [lia|]. sbind.
  rewrite (proj2 (Z.eqb_neq _ _)) by lia.
  destruct (rdbLoadLen_enc r r2 _ (zlen s) _ Hc2) as (r3 & -> & Hc3); [unfold REDIS_RDB_LENERR; lia|]. sbind.
  rewrite (proj2 (Z.eqb_neq _ _)) by (unfold REDIS_RDB_LENERR; lia).
  destruct (consumed_read r r3 _ code rest (zlen code) Hc3 Hb eq_refl) as (r4 & -> & Hc4). sbind.
  destruct (dec_loop_all code (zlen s) s (replicate (Z.to_nat (zlen s)) 0) Hcodes Hne) as (x & Hd & Hz);
    [rewrite zlen_replicate; lia|].
  unfold lzf_decompress. rewrite Hd. sbind. pose proof (zlen_pos s Hsne).
  rewrite (proj2 (Z.eqb_neq _ _)) by lia.
  assert (x = []) as ->.
  { apply zlen_0. rewrite zlen_app, zlen_replicate in Hz. lia. }
  rewrite app_nil_r. destruct (createObject st (RAW s 0)) as [o st'] eqn:Hcr.
  exists o, st', r4. split; [done|]. split; [by eapply (loaded_create _ (RAW s 0))|].
  by rewrite <- !app_assoc in Hc4.
Qed.

Lemma fill_create st s (raw : bool) :
  let create (s : list Z) := if raw then createRawStringObject st s else createStringObject st s in
  let '(o, st1) := create (replicate (length s) 0) in
  fill st1 o s = Some (create s).2 /\ o = (create s).1 /\
  (heap st !! o = None -> decrRefCount st1 o = Some st).
Proof.
  cbv zeta. unfold createStringObject, createEmbeddedStringObject, createRawStringObject, createObject.
  assert (zlen (replicate (length s) 0) = zlen s) as -> by (by rewrite zlen_replicate).
  destruct raw; [|destruct (zlen s <=? REDIS_ENCODING_EMBSTR_SIZE_LIMIT)].
  all: unfold fill, decrRefCount; cbn [heap set_heap fst snd]; rewrite !lookup_insert_eq; sbind;
    cbn [val refcount]; (split; [unfold set_heap; cbn; by rewrite insert_insert_eq|]);
    (split; [done|]); intros Hfresh; cbv [Z.leb Z.eqb Z.compare Pos.eqb];
    unfold set_heap; cbn; rewrite delete_insert_id by done; by destruct st.
Qed.

(** The strings that an object can hold. *)
Definition max_string : Z := 536870912.

Lemma first_byte r r1 a t rest :
  consumed r r1 a ((192 + t) :: rest) -> 0 <= t <= 3 ->
  exists r2, consumed r r2 (a ++ [192 + t]) rest /\ rdbLoadLen r1 = Some (t, true, r2).
Proof.
  intros Hc Ht. destruct (rdbLoadLen_first r r1 a (192 + t) rest Hc) as (r2 & Hc2 & ->);
    [unfold is_byte; lia|].
  exists r2. split; [done|]. replace ((192 + t) / 64) with 3 by dlia.
  by replace ((192 + t) mod 64) with t by dlia.
Qed.

(** The branch of the integers. *)
Lemma generic_int r1 r2 st encode t :
  rdbLoadLen r1 = Some (t, true, r2) -> 0 <= t <= 2 ->
  rdbGenericLoadStringObject junk r1 st encode = rdbLoadIntegerObject junk r2 st t encode.
Proof.
  intros Hl Ht. unfold rdbGenericLoadStringObject. rewrite Hl. sbind.
  by assert (t = 0 \/ t = 1 \/ t = 2) as [-> | [-> | ->]] by lia.
Qed.

Lemma generic_lzf r1 r2 st encode :
  rdbLoadLen r1 = Some (3, true, r2) ->
  rdbGenericLoadStringObject junk r1 st encode = rdbLoadLzfStringObject r2 st.
Proof. intros Hl. unfold rdbGenericLoadStringObject. by rewrite Hl. Qed.

(** The branch of the strings that are there as they are; [o] is fresh. *)
Lemma generic_raw r1 r2 st encode s :
  rdbLoadLen r1 = Some (zlen s, false, r2) -> zlen s <= max_string -> store_ok st ->
  exists o st', loaded st st' o s /\
    (s = [] -> rdbGenericLoadStringObject junk r1 st encode = Some (Some o, st', r2)) /\
    (forall r3, rioRead r2 (zlen s) = Some (Some s, r3) ->
       rdbGenericLoadStringObject junk r1 st encode = Some (Some o, st', if zlen s =? 0 then r2 else r3)) /\
    (forall r3, s <> [] -> rioRead r2 (zlen s) = Some (None, r3) ->
       rdbGenericLoadStringObject junk r1 st encode = Some (None, st, r3)).
Proof.
  intros Hl Hs Hst. unfold rdbGenericLoadStringObject. rewrite Hl. sbind. unfold max_string in Hs.
  rewrite (proj2 (Z.eqb_neq _ _)) by (unfold REDIS_RDB_LENERR; lia). rewrite to_nat_zlen.
  pose proof (fill_create st s (negb encode)) as Hf. cbv zeta in Hf.
  replace (if encode then createStringObject st (replicate (length s) 0)
           else createRawStringObject st (replicate (length s) 0))
    with ((fun s => if negb encode then createRawStringObject st s else createStringObject st s)
            (replicate (length s) 0)) by (by destruct encode).
  cbv beta.
  destruct (if negb encode then createRawStringObject st (replicate (length s) 0)
            else createStringObject st (replicate (length s) 0)) as [o st1] eqn:Hc1.
  destruct (if negb encode then createRawStringObject st s else createStringObject st s)
    as [o' st'] eqn:Hc2.
  destruct Hf as (Hfill & -> & Hdecr). cbn [fst snd] in *.
  assert (heap st !! o' = None /\ loaded st st' o' s) as [Hfresh Hld].
  { destruct encode; cbn [negb] in Hc2.
    - apply createStringObject_spec in Hc2 as (Hp & Hok & Hm & Hh & _); [|done|lia].
      split; [done|]. by split_and!.
    - unfold createRawStringObject in Hc2. pose proof Hc2 as Hc3.
      apply createObject_spec in Hc3 as (Hp & _ & _ & _); [|done|cbn; lia].
      split; [done|]. eapply (loaded_create st (RAW s 0)); [done|done|cbn; lia]. }
  exists o', st'. split; [done|]. split_and!.
  - intros ->. by injection (eq_trans (eq_sym Hc1) Hc2) as ->.
  - intros r3 Hr. destruct (Z.eqb_spec (zlen s) 0) as [Hz|Hz].
    + apply zlen_0 in Hz as ->. by injection (eq_trans (eq_sym Hc1) Hc2) as ->.
    + rewrite Hr. sbind. by rewrite Hfill.
  - intros r3 Hne Hr. pose proof (zlen_pos s Hne). rewrite (proj2 (Z.eqb_neq _ _)) by lia.
    rewrite Hr. sbind. by rewrite Hdecr.
Qed.

(** Every representation of a string is read as this string. *)
Lemma rdbGenericLoadStringObject_spec r r1 a st enc s rest encode :
  consumed r r1 a (enc ++ rest) -> rdb_string enc s -> bytes_ok enc -> zlen s <= max_string ->
  store_ok st -> room st ->
  exists o st' r2, rdbGenericLoadStringObject junk r1 st encode = Some (Some o, st', r2) /\
    loaded st st' o s /\ consumed r r2 (a ++ enc) rest.
Proof.
  intros Hc Henc Hb Hs Hst Hroom. destruct Henc as [t v Ht Hf|code s Hcode Hne Hcl _ Hsne|s Hsl].
  - destruct (first_byte r r1 a t _ Hc) as (r2 & Hc2 & Hl); [lia|].
    rewrite (generic_int r1 r2 st encode t Hl Ht).
    destruct (rdbLoadIntegerObject_spec r r2 _ st t v rest encode Hc2 Ht Hf Hst Hroom)
      as (o & st' & r3 & -> & Hld & Hc3).
    exists o, st', r3. split; [done|]. split; [done|]. by rewrite <- app_assoc in Hc3.
  - destruct (first_byte r r1 a 3 _ Hc) as (r2 & Hc2 & Hl); [lia|].
    rewrite (generic_lzf r1 r2 st encode Hl).
    destruct (rdbLoadLzfStringObject_spec r r2 _ st code s rest Hc2)
      as (o & st' & r3 & -> & Hld & Hc3); try done.
    { apply Forall_cons in Hb as [_ Hb]. apply bytes_ok_app in Hb as [_ Hb]. by apply bytes_ok_app in Hb as [_ ?]. }
    exists o, st', r3. split; [done|]. split; [done|]. by rewrite <- app_assoc in Hc3.
  - rewrite <- app_assoc in Hc.
    destruct (rdbLoadLen_enc r r1 a (zlen s) _ Hc) as (r2 & Hl & Hc2); [pose proof (zlen_nonneg s); lia|].
    apply bytes_ok_app in Hb as [_ Hb].
    destruct (generic_raw r1 r2 st encode s Hl Hs Hst) as (o & st' & Hld & Hnil & Hok & _).
    destruct (consumed_read r r2 _ s rest (zlen s) Hc2 Hb eq_refl) as (r3 & Hr & Hc3).
    rewrite (Hok r3 Hr). eexists o, st', _. split; [done|]. split; [done|]. rewrite app_assoc.
    destruct (Z.eqb_spec (zlen s) 0) as [Hz%zlen_0|]; [|done]. subst s. by rewrite app_nil_r.
Qed.

Lemma int_cut r r1 a st t v p x encode :
  consumed r r1 a p -> le_enc (int_size t) v = p ++ x -> x <> [] -> 0 <= t <= 2 ->
  exists r2, rdbLoadIntegerObject junk r1 st t encode = Some (None, st, r2).
Proof.
  intros Hc Heq Hx Ht. unfold rdbLoadIntegerObject.
  assert (integer_bytes t = Some (Z.of_nat (int_size t))) as ->
    by (by assert (t = 0 \/ t = 1 \/ t = 2) as [-> | [-> | ->]] by lia). sbind.
  pose proof (le_enc_bytes (int_size t) v) as Hb. pose proof (zlen_le_enc (int_size t) v) as Hz.
  rewrite Heq in Hb, Hz. apply bytes_ok_app in Hb as [Hb _]. rewrite zlen_app in Hz. pose proof (zlen_pos x Hx).
  destruct (consumed_short r r1 a p (Z.of_nat (int_size t)) Hc Hb) as (r2 & ->).
  { split; [lia|]. unfold int_size. repeat case_match; lia. }
  by exists r2.
Qed.

Lemma lzf_cut r r1 a st (code s p x : list Z) :
  consumed r r1 a p -> len_enc (zlen code) ++ len_enc (zlen s) ++ code = p ++ x -> x <> [] ->
  bytes_ok code -> zlen code < REDIS_RDB_LENERR -> zlen s < REDIS_RDB_LENERR ->
  exists r2, rdbLoadLzfStringObject r1 st = Some (None, st, r2).
Proof.
  intros Hc Heq Hx Hb Hcl Hs. unfold rdbLoadLzfStringObject.
  pose proof (zlen_nonneg code). pose proof (zlen_nonneg s).
  apply app_eq_inv in Heq as [(k & Hk & ->)|(k & -> & Hk)].
  { destruct k as [|b k].
    - cbn [app] in *. rewrite app_nil_r in Hk. subst p.
      rewrite <- (app_nil_r (len_enc _)) in Hc.
      destruct (rdbLoadLen_enc r r1 a (zlen code) [] Hc) as (r2 & -> & Hc2); [lia|]. sbind.
      rewrite (proj2 (Z.eqb_neq _ _)) by lia.
      destruct (rdbLoadLen_cut r r2 _ (zlen s) [] (len_enc (zlen s)) Hc2) as (r3 & ->); [done| |lia|by exists r3].
      intros Hn. pose proof (zlen_len_enc (zlen s)) as Hl. rewrite Hn in Hl. rewrite (@zlen_nil Z) in Hl. lia.
    - destruct (rdbLoadLen_cut r r1 a (zlen code) p (b :: k) Hc Hk) as (r2 & ->); [done|lia|by exists r2]. }
  destruct (rdbLoadLen_enc r r1 a (zlen code) _ Hc) as (r2 & -> & Hc2); [lia|]. sbind.
  rewrite (proj2 (Z.eqb_neq _ _)) by lia. clear Hc.
  apply app_eq_inv in Hk as [(k2 & Hk2 & ->)|(k2 & -> & Hk2)].
  { destruct k2 as [|b k2].
    - cbn [app] in *. rewrite app_nil_r in Hk2. subst k.
      rewrite <- (app_nil_r (len_enc (zlen s))) in Hc2.
      destruct (rdbLoadLen_enc r r2 _ (zlen s) [] Hc2) as (r3 & -> & Hc3); [lia|]. sbind.
      rewrite (proj2 (Z.eqb_neq _ _)) by lia. pose proof (zlen_pos code Hx).
      destruct (consumed_short r r3 _ [] (zlen code) Hc3) as (r4 & ->); [constructor| |by exists r4].
      unfold REDIS_RDB_LENERR in *. rewrite (@zlen_nil Z). lia.
    - destruct (rdbLoadLen_cut r r2 _ (zlen s) k (b :: k2) Hc2 Hk2) as (r3 & ->); [done|lia|by exists r3]. }
  destruct (rdbLoadLen_enc r r2 _ (zlen s) _ Hc2) as (r3 & -> & Hc3); [lia|]. sbind.
  rewrite (proj2 (Z.eqb_neq _ _)) by lia.
  pose proof (zlen_pos x Hx). rewrite Hk2 in Hb. apply bytes_ok_app in Hb as [Hb _].
  destruct (consumed_short r r3 _ k2 (zlen code) Hc3 Hb) as (r4 & ->); [|by exists r4].
  unfold REDIS_RDB_LENERR in *. rewrite Hk2, zlen_app in *. lia.
Qed.

(** A representation whose end is missing is refused, and what has been created is
    released. *)
Lemma rdbGenericLoadStringObject_cut r r1 a st enc s p x encode :
  consumed r r1 a p -> enc = p ++ x -> x <> [] -> rdb_string enc s -> bytes_ok enc ->
  zlen s <= max_string -> store_ok st ->
  exists r2, rdbGenericLoadStringObject junk r1 st encode = Some (None, st, r2).
Proof.
  intros Hc Heq Hx Henc Hb Hs Hst.
  assert (forall b l, enc = b :: l -> p = [] \/ exists p', p = b :: p' /\ l = p' ++ x) as Hfirst.
  { intros b l ->. destruct p as [|b' p']; [by left|right]. injection Heq as -> ->. by exists p'. }
  assert (p = [] -> exists r2, rdbGenericLoadStringObject junk r1 st encode = Some (None, st, r2)) as Hnil.
  { intros ->. destruct (consumed_short r r1 a [] 1 Hc) as (r2 & Hr); [constructor|done|].
    exists r2. unfold rdbGenericLoadStringObject, rdbLoadLen. by rewrite Hr. }
  destruct Henc as [t v Ht Hf|code s Hcode Hne Hcl Hsl Hsne|s Hsl].
  - destruct (Hfirst _ _ eq_refl) as [Hp|(p' & -> & Hl)]; [by apply Hnil|].
    destruct (first_byte r r1 a t _ Hc) as (r2 & Hc2 & Hll); [lia|].
    rewrite (generic_int r1 r2 st encode t Hll Ht). by eapply int_cut.
  - destruct (Hfirst _ _ eq_refl) as [Hp|(p' & -> & Hl)]; [by apply Hnil|].
    destruct (first_byte r r1 a 3 _ Hc) as (r2 & Hc2 & Hll); [lia|].
    rewrite (generic_lzf r1 r2 st encode Hll). eapply lzf_cut; try done.
    apply Forall_cons in Hb as [_ Hb]. apply bytes_ok_app in Hb as [_ Hb]. by apply bytes_ok_app in Hb as [_ ?].
  - pose proof (zlen_nonneg s). apply bytes_ok_app in Hb as [_ Hb].
    apply app_eq_inv in Heq as [(k & Hk & ->)|(k & -> & Hk)].
    + destruct k as [|b k].
      * cbn [app] in *. rewrite app_nil_r in Hk. subst p. rewrite <- (app_nil_r (len_enc _)) in Hc.
        destruct (rdbLoadLen_enc r r1 a (zlen s) [] Hc) as (r2 & Hl & Hc2); [lia|].
        destruct (generic_raw r1 r2 st encode s Hl Hs Hst) as (o & st' & _ & _ & _ & Hfail).
        pose proof (zlen_pos s Hx).
        destruct (consumed_short r r2 _ [] (zlen s) Hc2) as (r3 & Hr); [constructor| |].
        { unfold REDIS_RDB_LENERR in *. rewrite (@zlen_nil Z). lia. }
        exists r3. by apply Hfail.
      * destruct (rdbLoadLen_cut r r1 a (zlen s) p (b :: k) Hc Hk) as (r2 & Hl); [done|lia|].
        exists r2. unfold rdbGenericLoadStringObject. by rewrite Hl.
    + destruct (rdbLoadLen_enc r r1 a (zlen s) _ Hc) as (r2 & Hl & Hc2); [lia|].
      destruct (generic_raw r1 r2 st encode s Hl Hs Hst) as (o & st' & _ & _ & _ & Hfail).
      pose proof (zlen_pos x Hx). pose proof Hb as Hb'. rewrite Hk in Hb'. apply bytes_ok_app in Hb' as [Hb' _].
      destruct (consumed_short r r2 _ k (zlen s) Hc2 Hb') as (r3 & Hr).
      { unfold REDIS_RDB_LENERR in *. rewrite Hk, zlen_app in *. lia. }
      exists r3. apply Hfail; [|done]. intros ->. symmetry in Hk. by apply app_eq_nil in Hk as [_ ->].
Qed.
End LoadFacts.

(** ** Lemmas: payloads *)

(** The footer of a payload: the version and the checksum. *)
Definition sealed (body : list Z) : list Z :=
  let q := body ++ [6; 0] in q ++ le_enc 8 (foldl crc64_byte 0 q).

Lemma bytes_ok_sealed body : bytes_ok body -> bytes_ok (sealed body).
Proof.
  intros Hb. apply Forall_app. split; [|apply le_enc_bytes]. apply Forall_app. split; [done|].
  by repeat constructor.
Qed.

Lemma le_enc_inj n a b :
  0 <= a < 256 ^ Z.of_nat n -> 0 <= b < 256 ^ Z.of_nat n -> le_enc n a = le_enc n b -> a = b.
Proof.
  intros Ha Hb Heq. apply (f_equal le_dec) in Heq. rewrite !le_dec_enc in Heq.
  by rewrite !Z.mod_small in Heq.
Qed.

Lemma split_tail (p : list Z) n :
  0 <= n <= zlen p -> exists a b, p = a ++ b /\ zlen a = zlen p - n /\ zlen b = n.
Proof.
  intros Hn. exists (take (Z.to_nat (zlen p - n)) p), (drop (Z.to_nat (zlen p - n)) p).
  rewrite take_drop, zlen_take, zlen_drop. split; [done|]. lia.
Qed.

Section DumpFacts.
Context `{HostEndian}.

Lemma two_bytes v0 v1 :
  is_byte v0 -> is_byte v1 -> (Z.lor (Z.shiftl v1 8) v0 =? REDIS_RDB_VERSION) = bool_decide ([v0; v1] = [6; 0]).
Proof.
  unfold is_byte, REDIS_RDB_VERSION. intros H0 H1. rewrite lor_shiftl by lia.
  destruct (Z.eqb_spec (v1 * 2 ^ 8 + v0) 6); case_bool_decide as Hv; try done.
  - exfalso. apply Hv. assert (v1 = 0 /\ v0 = 6) as [-> ->] by lia. done.
  - by injection Hv as -> ->.
Qed.

Lemma verifyDumpPayload_spec p :
  bytes_ok p ->
  exists ok, verifyDumpPayload p = Some ok /\ (ok = true <-> exists body, p = sealed body).
Proof.
  intros Hb. unfold verifyDumpPayload. destruct (Z.ltb_spec (zlen p) 10) as [Hlt|Hge].
  { exists false. split; [done|]. split; [done|]. intros [body ->]. unfold sealed in Hlt.
    rewrite !zlen_app, zlen_le_enc in Hlt. change (zlen [6; 0]) with 2 in Hlt.
    pose proof (zlen_nonneg body). lia. }
  destruct (split_tail p 10) as (body & t & Hp & Hzb & Hzt); [pose proof (zlen_nonneg p); lia|].
  destruct t as [|v0 [|v1 f]]; [rewrite (@zlen_nil Z) in Hzt; lia|done|].
  rewrite !zlen_cons in Hzt. assert (zlen f = 8) as Hf by lia. clear Hzt.
  rewrite Hp in Hb. apply bytes_ok_app in Hb as [Hbb [Hv0 [Hv1 Hbf]%Forall_cons]%Forall_cons].
  assert (load p (zlen p - 10) 10 = Some (v0 :: v1 :: f)) as ->.
  { rewrite Hp at 1. apply load_suffix; [lia|]. rewrite !zlen_cons. lia. }
  sbind. change (getb (v0 :: v1 :: f) 1) with (Some v1). change (getb (v0 :: v1 :: f) 0) with (Some v0). sbind.
  rewrite two_bytes by done.
  assert (p = (body ++ [v0; v1]) ++ f) as Hp2 by (by rewrite Hp, <- app_assoc).
  assert (zlen (body ++ [v0; v1]) = zlen p - 8) as Hzq by (rewrite zlen_app; change (zlen [v0; v1]) with 2; lia).
  case_bool_decide as Hv; cbn [negb].
  - injection Hv as -> ->.
    assert (load p 0 (zlen p - 8) = Some (body ++ [6; 0])) as ->.
    { rewrite Hp2 at 1. by apply load_prefix. }
    sbind. rewrite crc64_spec by (apply Forall_app; split; [done|by repeat constructor]). sbind.
    rewrite memrev64ifbe_host. sbind.
    assert (load (6 :: 0 :: f) 2 8 = Some f) as ->.
    { by apply (load_suffix [6; 0]). }
    sbind. eexists. split; [done|]. rewrite bool_decide_eq_true. split.
    + intros <-. by exists body.
    + intros [body' Heq]. rewrite Hp2 in Heq. unfold sealed in Heq.
      apply app_inj_2 in Heq as [-> ->]; [done|]. apply Nat2Z.inj. fold (zlen f).
      by rewrite length_le_enc.
  - exists false. split; [done|]. split; [done|]. intros [body' Heq]. exfalso. apply Hv.
    rewrite Hp2 in Heq. unfold sealed in Heq. apply app_inj_2 in Heq as [Heq _].
    + by apply app_inj_2 in Heq as [_ ?].
    + apply Nat2Z.inj. fold (zlen f). by rewrite length_le_enc.
Qed.

Context (htab : Z -> Z) (junk : nat -> Z).
#[local] Existing Instance rioBufferIO.

(** Saving in a memory buffer does not fail. *)
Lemma buffer_saves (f : option (rio bufferIO) -> option (Z * option (rio bufferIO))) b r l :
  @saves _ _ (rioBufferIO_laws junk) f b -> rio_ok r -> sds_ok (ptr (io r)) l ->
  zlen l + zlen b <= INT32_MAX ->
  exists r', f (Some r) = Some (zlen b, Some r') /\ rio_ok r' /\ sds_ok (ptr (io r')) (l ++ b).
Proof.
  intros Hf Hr Hl Hmax. pose proof (zlen_nonneg l).
  destruct (Hf (Some r) l) as (n & r' & -> & Hs); [split; [lia|by split_and!]|].
  destruct r' as [r'|]; [|done]. destruct Hs as [(-> & Hw & Ha)|[_ Hrel]]; [|done].
  exists r'. split; [done|]. split; [apply Ha|done].
Qed.

(** The payload of an object is its type, one of the representations of its string,
    and the footer. *)
Lemma createDumpPayload_spec compr o :
  bytes_ok (value o) -> wf_val o -> junk_ok htab ->
  exists enc p, rdb_string enc (value o) /\ bytes_ok enc /\
    createDumpPayload htab junk compr o = Some p /\ sds_ok p (sealed (0 :: enc)).
Proof.
  intros Hb Ho Hj. pose proof (value_len o Ho) as Hlen. unfold createDumpPayload.
  destruct (@rdbSaveStringObject_spec _ _ (rioBufferIO_laws junk) htab junk compr o Hb Ho Hj)
    as (enc & Henc & Hbe & Hze & Hsv).
  assert (exists s, sdsempty junk = Some s /\ sds_ok s []) as (s & -> & Hs).
  { by apply newlen_spec. }
  sbind.
  destruct (buffer_saves (fun r => @rdbWriteRaw _ (rioBufferIO junk) r [0]) [0] (rioInitWithBuffer s) [])
    as (r1 & Hw1 & Hok1 & Hs1); [apply saves_raw; by repeat constructor|by split|done|done|].
  assert (@rdbSaveObjectType _ (rioBufferIO junk) (Some (rioInitWithBuffer s)) 0 0 = Some (1, Some r1)) as ->
    by exact Hw1.
  sbind. cbn [Z.eqb].
  destruct (buffer_saves _ enc r1 ([] ++ [0]) Hsv Hok1 Hs1) as (r2 & -> & _ & Hs2).
  { change (zlen ([] ++ [0])) with 1. unfold INT32_MAX. lia. }
  sbind. rewrite (proj2 (Z.eqb_neq _ _)) by lia. change (([] ++ [0]) ++ enc) with (0 :: enc) in Hs2.
  set (body := 0 :: enc) in *. assert (zlen body = 1 + zlen enc) as Hzb by (subst body; by rewrite zlen_cons).
  assert (bytes_ok body) as Hbb by (constructor; [by unfold is_byte|done]).
  destruct (catlen_spec junk (ptr (io r2)) body [6; 0] 2 [6; 0] Hs2) as (s3 & E3 & Hs3);
    [done|change (zlen [6; 0]) with 2; unfold INT32_MAX; lia|].
  change [Z.land REDIS_RDB_VERSION 255; Z.land (Z.shiftr REDIS_RDB_VERSION 8) 255] with [6; 0].
  rewrite E3. sbind. set (q := body ++ [6; 0]) in *.
  assert (bytes_ok q) as Hbq by (apply Forall_app; split; [done|by repeat constructor]).
  assert (load (buf s3) 0 (len s3) = Some q) as ->.
  { destruct Hs3 as (rest & -> & _). cbn [buf len]. by apply load_prefix. }
  sbind. rewrite crc64_spec by done. sbind. rewrite memrev64ifbe_host. sbind.
  set (c := le_enc 8 (foldl crc64_byte 0 q)).
  assert (zlen c = 8) as Hzc by apply zlen_le_enc.
  destruct (catlen_spec junk s3 q c 8 c Hs3) as (s4 & -> & Hs4).
  { rewrite <- Hzc. apply load_self. }
  { rewrite Hzc. subst q. rewrite zlen_app. change (zlen [6; 0]) with 2. unfold INT32_MAX. lia. }
  by exists enc, s4.
Qed.
End DumpFacts.

(** ** Properties *)

(** C22 (roundtrip): a string object, whatever its representation and with or without
    compression, is saved on any target that keeps the laws, or the target has failed;
    the length that is computed without a target is that of the bytes; from any
    source that has these bytes, a string object of the same value is loaded, whatever
    follows; from a source that has only a part of them nothing is loaded and the
    store is as before. *)
Theorem rdb_string_roundtrip {B B' : Type} `{BackendLaws B} `{BackendLaws B'}
    (htab : Z -> Z) (junk : nat -> Z) (compr : bool) (r : rio B) (l : list Z) (obj : strval) :
  bytes_ok (value obj) -> wf_val obj -> junk_ok htab -> rio_ok r -> written (io r) l ->
  zlen l + zlen (value obj) + 16 <= @capacity B _ _ ->
  exists n r' enc, rdbSaveStringObject htab junk compr (Some r) obj = Some (n, Some r') /\
    rdbSaveStringObject (B:=B) htab junk compr None obj = Some (zlen enc, None) /\
    (n = zlen enc /\ written (io r') (l ++ enc) \/ n = -1 /\ @reliable B _ _ = false) /\
    forall (rd : rio B') st encode, rio_ok rd -> store_ok st -> room st ->
      (forall rest, unread (io rd) (enc ++ rest) ->
         exists o st' rd', rdbGenericLoadStringObject junk rd st encode = Some (Some o, st', rd') /\
           store_ok st' /\ moves st st' None (Some o) /\ holds st' o (value obj) /\
           unread (io rd') rest) /\
      (forall p x, enc = p ++ x -> x <> [] -> unread (io rd) p ->
         exists rd', rdbGenericLoadStringObject junk rd st encode = Some (None, st, rd')).
Proof.
  intros Hb Ho Hj Hok Hw Hcap. pose proof (value_len obj Ho) as Hlen.
  assert (zlen (value obj) <= max_string) as Hmax by (unfold max_string; lia).
  destruct (rdbSaveStringObject_spec (B:=B) htab junk compr obj Hb Ho Hj) as (enc & Henc & Hbe & Hze & Hsv).
  destruct (Hsv (Some r) l) as (n & r' & Hs & Hn); [split; [unfold INT32_MAX; lia|split_and!; [done|done|lia]]|].
  destruct (Hsv None l) as (n0 & r0 & Hs0 & Hn0); [split; [unfold INT32_MAX; lia|done]|].
  destruct r' as [r'|]; [|done]. destruct r0 as [r0|]; [done|]. cbn in Hn, Hn0. subst n0.
  exists n, r', enc. split; [done|]. split; [done|].
  split; [destruct Hn as [(? & ? & _)|?]; [by left|by right]|].
  intros rd st encode Hrd Hst Hroom. split.
  - intros rest Hu. destruct (rdbGenericLoadStringObject_spec junk rd rd [] st enc (value obj) rest encode)
      as (o & st' & rd' & -> & (Hok' & Hm & Hh) & Hu' & _); [by apply consumed_nil|done|done|done|done|done|].
    by exists o, st', rd'.
  - intros p x Heq Hx Hu.
    eapply (rdbGenericLoadStringObject_cut junk rd rd [] st enc (value obj) p x encode);
      [by apply consumed_nil|done..].
Qed.

(** C24 (roundtrip): DUMP makes a payload for every string object; RESTORE accepts it,
    whatever the byte orders of the two hosts, finds the type of a string and loads a
    string of the same value. *)
Theorem dump_restore (host1 host2 : HostEndian) (htab : Z -> Z) (junk junk2 : nat -> Z)
    (compr encode : bool) (o : strval) (st : store) :
  bytes_ok (value o) -> wf_val o -> junk_ok htab -> store_ok st -> room st ->
  exists p, createDumpPayload (H:=host1) htab junk compr o = Some p /\
    verifyDumpPayload (H:=host2) (contents p) = Some true /\
    exists r, @rdbLoadObjectType _ (rioBufferIO junk2) (rioInitWithBuffer p) = Some (0, r) /\
    exists q st' r', @rdbGenericLoadStringObject _ (rioBufferIO junk2) junk2 r st encode
        = Some (Some q, st', r') /\
      store_ok st' /\ moves st st' None (Some q) /\ holds st' q (value o).
Proof.
  intros Hb Ho Hj Hst Hroom. pose proof (value_len o Ho) as Hlen.
  destruct (createDumpPayload_spec (H:=host1) htab junk compr o Hb Ho Hj) as (enc & p & Henc & Hbe & -> & Hp).
  exists p. split; [done|]. rewrite (contents_ok p _ Hp).
  destruct (verifyDumpPayload_spec (H:=host2) (sealed (0 :: enc))) as (ok & -> & [_ Hok]).
  { apply bytes_ok_sealed. constructor; [by unfold is_byte|done]. }
  rewrite Hok by (by eexists). split; [done|].
  set (r0 := rioInitWithBuffer p).
  set (foot := [6; 0] ++ le_enc 8 (foldl crc64_byte 0 ((0 :: enc) ++ [6; 0]))).
  assert (sealed (0 :: enc) = [0] ++ enc ++ foot) as Hsealed.
  { unfold sealed. subst foot. by rewrite <- !app_assoc. }
  assert (@consumed _ _ (rioBufferIO_laws junk2) r0 r0 [] ([0] ++ enc ++ foot)) as Hc.
  { apply consumed_nil; [by split|]. exists []. rewrite <- Hsealed. by split. }
  destruct (@consumed_read _ _ (rioBufferIO_laws junk2) r0 r0 [] [0] (enc ++ foot) 1 Hc)
    as (r1 & Hr & Hc1); [by repeat constructor|done|].
  exists r1. split; [unfold rdbLoadObjectType, rdbLoadType; by rewrite Hr|].
  destruct (@rdbGenericLoadStringObject_spec _ _ (rioBufferIO_laws junk2) junk2 r0 r1 _ st enc
    (value o) foot encode Hc1 Henc Hbe) as (q & st' & r2 & -> & (Hok' & Hm & Hh) & _);
    [unfold max_string; lia|done|done|].
  by exists q, st', r2.
Qed.

(** C25 (safety): a payload in which up to eight consecutive bytes have been changed,
    of the body or of the checksum, is refused. *)
Theorem dump_change_detected `{HostEndian} (a w w' z : list Z) :
  bytes_ok (a ++ w ++ z) -> bytes_ok w' -> length w = length w' -> zlen w <= 8 -> w <> w' ->
  8 <= zlen z \/ zlen w + zlen z <= 8 ->
  verifyDumpPayload (a ++ w ++ z) = Some true ->
  verifyDumpPayload (a ++ w' ++ z) = Some false.
Proof.
  intros Hb Hw' Hlen Hw8 Hne Hz Hv.
  apply bytes_ok_app in Hb as [Ha Hb]. pose proof (proj1 (bytes_ok_app w z Hb)) as Hw.
  pose proof (proj2 (bytes_ok_app w z Hb)) as Hbz.
  destruct (verifyDumpPayload_spec (a ++ w ++ z)) as (ok & Hv1 & Hok1); [by apply Forall_app|].
  destruct (verifyDumpPayload_spec (a ++ w' ++ z)) as (ok' & Hv2 & Hok2); [by repeat (apply Forall_app; split)|].
  rewrite Hv1 in Hv. injection Hv as ->. rewrite Hv2. f_equal. destruct ok'; [|done]. exfalso.
  apply Hne. destruct Hok1 as [Hok1 _]. destruct Hok2 as [Hok2 _].
  destruct (Hok1 eq_refl) as [b1 E1]. destruct (Hok2 eq_refl) as [b2 E2].
  apply (f_equal zlen) in E1 as Z1. apply (f_equal zlen) in E2 as Z2. unfold sealed in E1, E2, Z1, Z2.
  rewrite !zlen_app, zlen_le_enc in Z1, Z2. assert (zlen w = zlen w') as Hzw by (unfold zlen; by rewrite Hlen).
  destruct Hz as [Hz|Hz].
  - destruct (split_tail z 8) as (z1 & f & -> & Hz1 & Hf); [lia|]. rewrite zlen_app in Z1, Z2.
    apply bytes_ok_app in Hbz as [Hbz1 Hbf].
    rewrite !app_assoc in E1, E2.
    apply app_inj_2 in E1 as [Q1 F1]; [|apply Nat2Z.inj; fold (zlen f); by rewrite length_le_enc].
    apply app_inj_2 in E2 as [Q2 F2]; [|apply Nat2Z.inj; fold (zlen f); by rewrite length_le_enc].
    rewrite <- !app_assoc in Q1, Q2. rewrite F1, <- Q1, <- Q2 in F2.
    apply (crc64_burst a w w' z1); [done..|unfold zlen in Hw8; lia|].
    apply (le_enc_inj 8) in F2; [done|apply crc64_range; by repeat (apply Forall_app; split)..].
  - change (zlen [6; 0]) with 2 in *. pose proof (zlen_nonneg b1). pose proof (zlen_nonneg w).
    pose proof (zlen_nonneg z).
    destruct (split_tail a (8 - (zlen w + zlen z))) as (a1 & f & -> & Ha1 & Hf); [lia|].
    rewrite <- (app_assoc a1) in E1, E2.
    apply app_inj_2 in E1 as [Q1 F1]; [|apply Nat2Z.inj; rewrite length_le_enc; fold (zlen (f ++ w ++ z)); rewrite !zlen_app; lia].
    apply app_inj_2 in E2 as [Q2 F2]; [|apply Nat2Z.inj; rewrite length_le_enc; fold (zlen (f ++ w' ++ z)); rewrite !zlen_app; lia].
    rewrite <- Q2, Q1, <- F1 in F2. apply app_inv_head in F2. by apply app_inv_tail in F2.
Qed.

Lemma rdb_string_roundtrip_witness :
  exists n r' enc, @rdbSaveStringObject _ (rioBufferIO (fun _ => 7)) (fun _ => 0) (fun _ => 7) true
      (Some (rioInitWithBuffer (mk_sds 0 0 [0]))) (INT (-300)) = Some (n, Some r') /\
    (n = zlen enc /\ sds_ok (ptr (io r')) enc \/ n = -1 /\ true = false) /\
    exists o st' rd', @rdbGenericLoadStringObject _ (rioBufferIO (fun _ => 7)) (fun _ => 7)
        (rioInitWithBuffer (mk_sds (zlen enc) 0 (enc ++ [0]))) sample_store true = Some (Some o, st', rd') /\
      holds st' o (bytes_of_string "-300").
Proof.
  destruct sample_store_ok as [Hst Hroom].
  destruct (@rdb_string_roundtrip _ _ _ (rioBufferIO_laws (fun _ => 7)) _ (rioBufferIO_laws (fun _ => 7))
    (fun _ => 0) (fun _ => 7) true (rioInitWithBuffer (mk_sds 0 0 [0])) [] (INT (-300)))
    as (n & r' & enc & Hs & Hn & Hw & Hload).
  - apply (bool_decide_unpack _). vm_compute. exact I.
  - split; discriminate.
  - intros h. split; reflexivity.
  - repeat split; discriminate.
  - exists []. vm_compute. repeat split; discriminate.
  - vm_compute. discriminate.
  - assert (enc = [193; 212; 254]) as Henc.
    { assert (exists k r0, @rdbSaveStringObject _ (rioBufferIO (fun _ => 7)) (fun _ => 0) (fun _ => 7) true
        (Some (rioInitWithBuffer (mk_sds 0 0 [0]))) (INT (-300)) = Some (k, Some r0) /\ k = 3 /\
        contents (ptr (io r0)) = [193; 212; 254]) as (k & r0 & Hc & -> & Hcont).
      { clear. eexists _, _. vm_compute. split; [reflexivity|]. split; reflexivity. }
      rewrite Hs in Hc. injection Hc as -> ->. destruct Hw as [[_ Hw]|[Hw _]]; [|discriminate].
      by rewrite (contents_ok _ _ Hw) in Hcont. }
    exists n, r', enc. split; [exact Hs|]. split; [exact Hw|].
    destruct (Hload (rioInitWithBuffer (mk_sds (zlen enc) 0 (enc ++ [0]))) sample_store true) as [Hl _];
      [repeat split; discriminate|exact Hst|exact Hroom|].
    destruct (Hl []) as (o & st' & rd' & Hr & _ & _ & Hh & _).
    + exists []. rewrite Henc. split; [exists []; vm_compute; repeat split; discriminate|reflexivity].
    + exists o, st', rd'. split; [exact Hr|exact Hh].
Defined.

Lemma dump_restore_witness :
  exists p, createDumpPayload (H:=true) (fun _ => 0) (fun _ => 7) true (EMBSTR [120]) = Some p /\
    verifyDumpPayload (H:=false) (contents p) = Some true.
Proof.
  destruct sample_store_ok as [Hst Hroom].
  destruct (dump_restore true false (fun _ => 0) (fun _ => 7) (fun _ => 9) true true (EMBSTR [120]) sample_store)
    as (p & Hp & Hv & _).
  - apply (bool_decide_unpack _). vm_compute. exact I.
  - discriminate.
  - intros h. split; reflexivity.
  - exact Hst.
  - exact Hroom.
  - exists p. split; [exact Hp|exact Hv].
Defined.

Lemma dump_change_detected_witness :
  verifyDumpPayload (H:=false) (sealed [0; 1; 120]) = Some true /\
  verifyDumpPayload (H:=false) (0 :: 1 :: 121 :: drop 3 (sealed [0; 1; 120])) = Some false.
Proof.
  assert (verifyDumpPayload (H:=false) (sealed [0; 1; 120]) = Some true) as Hv by (vm_compute; reflexivity).
  split; [exact Hv|].
  apply (dump_change_detected (H:=false) [0; 1] [120] [121] (drop 3 (sealed [0; 1; 120]))).
  - apply (bool_decide_unpack _). vm_compute. exact I.
  - apply (bool_decide_unpack _). vm_compute. exact I.
  - reflexivity.
  - discriminate.
  - discriminate.
  - left. vm_compute. discriminate.
  - exact Hv.
Defined.

(** A compressed string of no bytes, which no save writes, is read out of its
    bounds. *)
Lemma rdb_lzf_empty_overread :
  @rdbLoadStringObject _ (rioBufferIO (fun _ => 7)) (fun _ => 7)
    (rioInitWithBuffer (mk_sds 3 0 [195; 0; 5; 0])) (mk_store ∅ [] false) = None.
Proof. reflexivity. Qed.
