(* ===== verification/Ziplist.v ===== *)
(** * ziplist.c: lists of strings and integers packed in one block

    The block is a list of bytes, a pointer is an offset in it, and the macros are
    definitions.  Reading or writing outside of the block, signed overflow and a
    failed assertion give [None]; what [zrealloc] adds to a block is [junk].  The
    theorems are in ZiplistFacts.v. *)

From Stdlib Require Import ZArith Lia.
From stdpp Require Import base numbers list.
From S2P Require Import Prelude Endian Util.

Open Scope Z_scope.

Definition ZIP_END : Z := 255.
Definition ZIP_BIGLEN : Z := 254.
Definition ZIP_STR_MASK : Z := 192.
Definition ZIP_STR_06B : Z := Z.shiftl 0 6.
Definition ZIP_STR_14B : Z := Z.shiftl 1 6.
Definition ZIP_STR_32B : Z := Z.shiftl 2 6.
Definition ZIP_INT_16B : Z := Z.lor 192 (Z.shiftl 0 4).
Definition ZIP_INT_32B : Z := Z.lor 192 (Z.shiftl 1 4).
Definition ZIP_INT_64B : Z := Z.lor 192 (Z.shiftl 2 4).
Definition ZIP_INT_24B : Z := Z.lor 192 (Z.shiftl 3 4).
Definition ZIP_INT_8B : Z := 254.
Definition ZIP_INT_IMM_MASK : Z := 15.
Definition ZIP_INT_IMM_MIN : Z := 241.
Definition ZIP_INT_IMM_MAX : Z := 253.
Definition INT24_MAX : Z := 8388607.
Definition INT24_MIN : Z := - INT24_MAX - 1.
Definition INT8_MIN : Z := -128.
Definition INT8_MAX : Z := 127.
Definition UINT16_MAX : Z := 65535.
Definition ZIPLIST_HEADER_SIZE : Z := 10.

Definition ZIP_IS_STR (enc : Z) : bool := Z.land enc ZIP_STR_MASK <? ZIP_STR_MASK.

Record zlentry := mk_zlentry {
  prevrawlensize : Z;
  prevrawlen : Z;
  lensize : Z;
  len : Z;
  headersize : Z;
  encoding : Z;
  zp : Z;
}.

Section Ziplist.
Context `{HostEndian} (junk : nat -> Z).

(** ** Fields of the header *)

Definition ZIPLIST_BYTES (zl : list Z) : option Z :=
  b ← load zl 0 4; Some (intrev32ifbe (host_dec b)).
Definition set_BYTES (zl : list Z) (v : Z) : option (list Z) :=
  store zl 0 (host_enc 4 (intrev32ifbe (u32 v))).
Definition ZIPLIST_TAIL_OFFSET (zl : list Z) : option Z :=
  b ← load zl 4 4; Some (intrev32ifbe (host_dec b)).
Definition set_TAIL_OFFSET (zl : list Z) (v : Z) : option (list Z) :=
  store zl 4 (host_enc 4 (intrev32ifbe (u32 v))).
(** As it is in memory, in the byte order of the host. *)
Definition ZIPLIST_LENGTH (zl : list Z) : option Z :=
  b ← load zl 8 2; Some (host_dec b).
Definition set_LENGTH (zl : list Z) (v : Z) : option (list Z) :=
  store zl 8 (host_enc 2 (intrev16ifbe (u16 v))).

Definition ZIPLIST_INCR_LENGTH (zl : list Z) (incr : Z) : option (list Z) :=
  l ← ZIPLIST_LENGTH zl;
  if l <? UINT16_MAX then set_LENGTH zl (intrev16ifbe l + incr) else Some zl.

Definition ZIPLIST_ENTRY_HEAD : Z := ZIPLIST_HEADER_SIZE.
Definition ZIPLIST_ENTRY_TAIL (zl : list Z) : option Z := ZIPLIST_TAIL_OFFSET zl.
Definition ZIPLIST_ENTRY_END (zl : list Z) : option Z := b ← ZIPLIST_BYTES zl; Some (b - 1).

(** ** Lengths and integers *)

Definition zipIntSize (encoding : Z) : Z :=
  if encoding =? ZIP_INT_8B then 1
  else if encoding =? ZIP_INT_16B then 2
  else if encoding =? ZIP_INT_24B then 3
  else if encoding =? ZIP_INT_32B then 4
  else if encoding =? ZIP_INT_64B then 8
  else 0.

(** [zipEncodeLength(NULL, encoding, rawlen)]. *)
Definition zipEncodeLengthSize (encoding rawlen : Z) : Z :=
  if ZIP_IS_STR encoding then
    if rawlen <=? 63 then 1 else if rawlen <=? 16383 then 1 + 1 else 1 + 4
  else 1.

(** The bytes that are put in [buf]. *)
Definition zipEncodeLengthBuf (encoding rawlen : Z) : list Z :=
  if ZIP_IS_STR encoding then
    if rawlen <=? 63 then [u8 (Z.lor ZIP_STR_06B rawlen)]
    else if rawlen <=? 16383 then
      [u8 (Z.lor ZIP_STR_14B (Z.land (Z.shiftr rawlen 8) 63)); Z.land rawlen 255]
    else
      [ZIP_STR_32B; Z.land (Z.shiftr rawlen 24) 255; Z.land (Z.shiftr rawlen 16) 255;
       Z.land (Z.shiftr rawlen 8) 255; Z.land rawlen 255]
  else [encoding].

Definition zipEncodeLength (zl : list Z) (p encoding rawlen : Z) : option (list Z * Z) :=
  let buf := zipEncodeLengthBuf encoding rawlen in
  zl ← store zl p buf;
  Some (zl, zlen buf).

Definition ZIP_ENTRY_ENCODING (zl : list Z) (p : Z) : option Z :=
  b ← getb zl p;
  Some (if b <? ZIP_STR_MASK then Z.land b ZIP_STR_MASK else b).

(** The encoding, the size of the length and the length. *)
Definition ZIP_DECODE_LENGTH (zl : list Z) (p : Z) : option (Z * Z * Z) :=
  encoding ← ZIP_ENTRY_ENCODING zl p;
  if encoding <? ZIP_STR_MASK then
    if encoding =? ZIP_STR_06B then
      b0 ← getb zl p;
      Some (encoding, 1, Z.land b0 63)
    else if encoding =? ZIP_STR_14B then
      b0 ← getb zl p; b1 ← getb zl (p + 1);
      Some (encoding, 2, Z.lor (Z.shiftl (Z.land b0 63) 8) b1)
    else if encoding =? ZIP_STR_32B then
      b1 ← getb zl (p + 1); b2 ← getb zl (p + 2); b3 ← getb zl (p + 3); b4 ← getb zl (p + 4);
      Some (encoding, 5,
        u32 (Z.lor (Z.lor (Z.lor (Z.shiftl b1 24) (Z.shiftl b2 16)) (Z.shiftl b3 8)) b4))
    else None
  else Some (encoding, 1, zipIntSize encoding).

(** [zipPrevEncodeLength(NULL, len)]. *)
Definition zipPrevEncodeLengthSize (len : Z) : Z := if len <? ZIP_BIGLEN then 1 else 4 + 1.

(** [memcpy(p, &v, 4); memrev32ifbe(p)]. *)
Definition put32 (zl : list Z) (p v : Z) : option (list Z) :=
  zl ← store zl p (host_enc 4 v);
  b ← load zl p 4;
  b ← memrev32ifbe b;
  store zl p b.

Definition zipPrevEncodeLengthForceLarge (zl : list Z) (p len : Z) : option (list Z) :=
  zl ← setb zl p ZIP_BIGLEN;
  put32 zl (p + 1) len.

Definition zipPrevEncodeLength (zl : list Z) (p len : Z) : option (list Z * Z) :=
  if len <? ZIP_BIGLEN then
    zl ← setb zl p (u8 len);
    Some (zl, 1)
  else
    zl ← setb zl p ZIP_BIGLEN;
    zl ← put32 zl (p + 1) len;
    Some (zl, 1 + 4).

Definition ZIP_DECODE_PREVLENSIZE (zl : list Z) (p : Z) : option Z :=
  b ← getb zl p; Some (if b <? ZIP_BIGLEN then 1 else 5).

(** The size and the length of the previous entry. *)
Definition ZIP_DECODE_PREVLEN (zl : list Z) (p : Z) : option (Z * Z) :=
  prevlensize ← ZIP_DECODE_PREVLENSIZE zl p;
  if prevlensize =? 1 then b ← getb zl p; Some (prevlensize, b)
  else
    b ← load zl (p + 1) 4;
    b ← memrev32ifbe b;
    Some (prevlensize, host_dec b).

Definition zipPrevLenByteDiff (zl : list Z) (p len : Z) : option Z :=
  prevlensize ← ZIP_DECODE_PREVLENSIZE zl p;
  Some (s32 (u32 (zipPrevEncodeLengthSize len - prevlensize))).

Definition zipRawEntryLength (zl : list Z) (p : Z) : option Z :=
  prevlensize ← ZIP_DECODE_PREVLENSIZE zl p;
  '(_, lensize, len) ← ZIP_DECODE_LENGTH zl (p + prevlensize);
  Some (u32 (prevlensize + lensize + len)).

(** The value and its encoding, or [None] when 0 is returned. *)
Definition zipTryEncoding (entry : list Z) : option (Z * Z) :=
  if (zlen entry >=? 32) || (zlen entry =? 0) then None
  else
    match string2ll entry with
    | None => None
    | Some value =>
        Some (value,
          if (value >=? 0) && (value <=? 12) then ZIP_INT_IMM_MIN + value
          else if (value >=? INT8_MIN) && (value <=? INT8_MAX) then ZIP_INT_8B
          else if (value >=? INT16_MIN) && (value <=? INT16_MAX) then ZIP_INT_16B
          else if (value >=? INT24_MIN) && (value <=? INT24_MAX) then ZIP_INT_24B
          else if (value >=? INT32_MIN) && (value <=? INT32_MAX) then ZIP_INT_32B
          else ZIP_INT_64B)
    end.

Definition zipSaveInteger (zl : list Z) (p value encoding : Z) : option (list Z) :=
  if encoding =? ZIP_INT_8B then setb zl p (u8 value)
  else if encoding =? ZIP_INT_16B then
    zl ← store zl p (host_enc 2 value);
    b ← load zl p 2; b ← memrev16ifbe b; store zl p b
  else if encoding =? ZIP_INT_24B then
    b ← memrev32ifbe (host_enc 4 (Z.shiftl value 8));
    store zl p (drop 1 b)
  else if encoding =? ZIP_INT_32B then put32 zl p value
  else if encoding =? ZIP_INT_64B then
    zl ← store zl p (host_enc 8 value);
    b ← load zl p 8; b ← memrev64ifbe b; store zl p b
  else if (encoding >=? ZIP_INT_IMM_MIN) && (encoding <=? ZIP_INT_IMM_MAX) then Some zl
  else None.

Definition zipLoadInteger (zl : list Z) (p encoding : Z) : option Z :=
  if encoding =? ZIP_INT_8B then b ← getb zl p; Some (s8 b)
  else if encoding =? ZIP_INT_16B then
    b ← load zl p 2; b ← memrev16ifbe b; Some (s16 (host_dec b))
  else if encoding =? ZIP_INT_32B then
    b ← load zl p 4; b ← memrev32ifbe b; Some (s32 (host_dec b))
  else if encoding =? ZIP_INT_24B then
    b ← load zl p 3; b ← memrev32ifbe (0 :: b); Some (Z.shiftr (s32 (host_dec b)) 8)
  else if encoding =? ZIP_INT_64B then
    b ← load zl p 8; b ← memrev64ifbe b; Some (s64 (host_dec b))
  else if (encoding >=? ZIP_INT_IMM_MIN) && (encoding <=? ZIP_INT_IMM_MAX) then
    Some (Z.land encoding ZIP_INT_IMM_MASK - 1)
  else None.

Definition zipEntry (zl : list Z) (p : Z) : option zlentry :=
  '(prevrawlensize, prevrawlen) ← ZIP_DECODE_PREVLEN zl p;
  '(encoding, lensize, len) ← ZIP_DECODE_LENGTH zl (p + prevrawlensize);
  Some (mk_zlentry prevrawlensize prevrawlen lensize len (prevrawlensize + lensize) encoding p).

(** ** Updates *)

Definition ziplistNew : option (list Z) :=
  let bytes := ZIPLIST_HEADER_SIZE + 1 in
  zl ← set_BYTES (junk <$> seq 0 (Z.to_nat bytes)) bytes;
  zl ← set_TAIL_OFFSET zl ZIPLIST_HEADER_SIZE;
  zl ← store zl 8 (host_enc 2 0);
  setb zl (bytes - 1) ZIP_END.

Definition ziplistResize (zl : list Z) (len : Z) : option (list Z) :=
  let zl := realloc junk zl len in
  zl ← set_BYTES zl len;
  setb zl (len - 1) ZIP_END.

(** The loop of [__ziplistCascadeUpdate]; one unit of [fuel] per entry. *)
Fixpoint cascade_loop (fuel : nat) (zl : list Z) (p curlen : Z) : option (list Z) :=
  c ← getb zl p;
  if c =? ZIP_END then Some zl
  else match fuel with
  | O => None
  | S fuel =>
      cur ← zipEntry zl p;
      let rawlen := u32 (headersize cur + len cur) in
      let rawlensize := zipPrevEncodeLengthSize rawlen in
      c ← getb zl (p + rawlen);
      if c =? ZIP_END then Some zl
      else
        next ← zipEntry zl (p + rawlen);
        if prevrawlen next =? rawlen then Some zl
        else if prevrawlensize next <? rawlensize then
          let extra := rawlensize - prevrawlensize next in
          zl ← ziplistResize zl (u32 (curlen + extra));
          let np := p + rawlen in
          tail ← ZIPLIST_TAIL_OFFSET zl;
          zl ← (if negb (tail =? np) then set_TAIL_OFFSET zl (tail + extra) else Some zl);
          zl ← memmove zl (np + rawlensize) (np + prevrawlensize next)
                 (curlen - np - prevrawlensize next - 1);
          '(zl, _) ← zipPrevEncodeLength zl np rawlen;
          cascade_loop fuel zl (p + rawlen) (curlen + extra)
        else if prevrawlensize next >? rawlensize then
          zipPrevEncodeLengthForceLarge zl (p + rawlen) rawlen
        else
          '(zl, _) ← zipPrevEncodeLength zl (p + rawlen) rawlen;
          Some zl
  end.

Definition __ziplistCascadeUpdate (zl : list Z) (p : Z) : option (list Z) :=
  curlen ← ZIPLIST_BYTES zl;
  cascade_loop (length zl) zl p curlen.

(** The entries from [p] on, at most [num]: the pointer after them and their
    number. *)
Fixpoint skip_entries (num : nat) (zl : list Z) (p deleted : Z) : option (Z * Z) :=
  c ← getb zl p;
  if c =? ZIP_END then Some (p, deleted)
  else match num with
  | O => Some (p, deleted)
  | S num =>
      l ← zipRawEntryLength zl p;
      skip_entries num zl (p + l) (u32 (deleted + 1))
  end.

Definition __ziplistDelete (zl : list Z) (p : Z) (num : nat) : option (list Z) :=
  first ← zipEntry zl p;
  '(p, deleted) ← skip_entries num zl p 0;
  let totlen := u32 (p - zp first) in
  if totlen >? 0 then
    c ← getb zl p;
    '(zl, nextdiff) ← (if negb (c =? ZIP_END) then
      nextdiff ← zipPrevLenByteDiff zl p (prevrawlen first);
      let p := p - nextdiff in
      '(zl, _) ← zipPrevEncodeLength zl p (prevrawlen first);
      t ← ZIPLIST_TAIL_OFFSET zl;
      zl ← set_TAIL_OFFSET zl (t - totlen);
      tail ← zipEntry zl p;
      c ← getb zl (p + (headersize tail + len tail));
      zl ← (if negb (c =? ZIP_END) then
              t ← ZIPLIST_TAIL_OFFSET zl;
              set_TAIL_OFFSET zl (t + nextdiff)
            else Some zl);
      bytes ← ZIPLIST_BYTES zl;
      zl ← memmove zl (zp first) p (bytes - p - 1);
      Some (zl, nextdiff)
    else
      zl ← set_TAIL_OFFSET zl (zp first - prevrawlen first);
      Some (zl, 0));
    let offset := zp first in
    bytes ← ZIPLIST_BYTES zl;
    zl ← ziplistResize zl (u32 (bytes - totlen + nextdiff));
    zl ← ZIPLIST_INCR_LENGTH zl (- deleted);
    if negb (nextdiff =? 0) then __ziplistCascadeUpdate zl offset else Some zl
  else Some zl.

(** The length of the entry before the one at [p]. *)
Definition insert_prevlen (zl : list Z) (p : Z) : option Z :=
  c ← getb zl p;
  if negb (c =? ZIP_END) then
    '(_, prevlen) ← ZIP_DECODE_PREVLEN zl p;
    Some prevlen
  else
    ptail ← ZIPLIST_ENTRY_TAIL zl;
    c ← getb zl ptail;
    if negb (c =? ZIP_END) then zipRawEntryLength zl ptail else Some 0.

Definition __ziplistInsert (zl : list Z) (p : Z) (s : list Z) : option (list Z) :=
  curlen ← ZIPLIST_BYTES zl;
  prevlen ← insert_prevlen zl p;
  let '(value, encoding, reqlen) :=
    match zipTryEncoding s with
    | Some (value, encoding) => (value, encoding, zipIntSize encoding)
    | None => (123456789, 0, zlen s)
    end in
  let reqlen := reqlen + zipPrevEncodeLengthSize prevlen in
  let reqlen := reqlen + zipEncodeLengthSize encoding (zlen s) in
  c ← getb zl p;
  nextdiff ← (if negb (c =? ZIP_END) then zipPrevLenByteDiff zl p (u32 reqlen) else Some 0);
  zl ← ziplistResize zl (u32 (curlen + reqlen + nextdiff));
  c ← getb zl p;
  zl ← (if negb (c =? ZIP_END) then
    zl ← memmove zl (p + reqlen) (p - nextdiff) (curlen - p - 1 + nextdiff);
    '(zl, _) ← zipPrevEncodeLength zl (p + reqlen) (u32 reqlen);
    t ← ZIPLIST_TAIL_OFFSET zl;
    zl ← set_TAIL_OFFSET zl (t + reqlen);
    tail ← zipEntry zl (p + reqlen);
    c ← getb zl (p + reqlen + headersize tail + len tail);
    (if negb (c =? ZIP_END) then
       t ← ZIPLIST_TAIL_OFFSET zl;
       set_TAIL_OFFSET zl (t + nextdiff)
     else Some zl)
  else set_TAIL_OFFSET zl p);
  zl ← (if negb (nextdiff =? 0) then __ziplistCascadeUpdate zl (p + reqlen) else Some zl);
  '(zl, n) ← zipPrevEncodeLength zl p prevlen;
  let p := p + n in
  '(zl, n) ← zipEncodeLength zl p encoding (zlen s);
  let p := p + n in
  zl ← (if ZIP_IS_STR encoding then store zl p s else zipSaveInteger zl p value encoding);
  ZIPLIST_INCR_LENGTH zl 1.

Definition ziplistPush (zl : list Z) (s : list Z) (head : bool) : option (list Z) :=
  p ← (if head then Some ZIPLIST_ENTRY_HEAD else ZIPLIST_ENTRY_END zl);
  __ziplistInsert zl p s.

Definition ziplistInsert (zl : list Z) (p : Z) (s : list Z) : option (list Z) :=
  __ziplistInsert zl p s.

(** The new block and the pointer that is updated in place. *)
Definition ziplistDelete (zl : list Z) (p : Z) : option (list Z * Z) :=
  zl ← __ziplistDelete zl p 1;
  Some (zl, p).

(** ** Access *)

(** [while (prevlen > 0 && index--)]. *)
Fixpoint index_backward (fuel : nat) (zl : list Z) (p prevlen index : Z) : option (Z * Z) :=
  if prevlen >? 0 then
    if index =? 0 then Some (p, index - 1)
    else match fuel with
    | O => None
    | S fuel =>
        let p := p - prevlen in
        '(_, prevlen) ← ZIP_DECODE_PREVLEN zl p;
        index_backward fuel zl p prevlen (index - 1)
    end
  else Some (p, index).

(** [while (p\[0\] != ZIP_END && index--)]. *)
Fixpoint index_forward (fuel : nat) (zl : list Z) (p index : Z) : option (Z * Z) :=
  c ← getb zl p;
  if negb (c =? ZIP_END) then
    if index =? 0 then Some (p, index - 1)
    else match fuel with
    | O => None
    | S fuel =>
        l ← zipRawEntryLength zl p;
        index_forward fuel zl (p + l) (index - 1)
    end
  else Some (p, index).

(** NULL is the [None] of the result. *)
Definition ziplistIndex (zl : list Z) (index : Z) : option (option Z) :=
  '(p, index) ← (if index <? 0 then
    if index =? INT32_MIN then None
    else
      let index := - index - 1 in
      p ← ZIPLIST_ENTRY_TAIL zl;
      c ← getb zl p;
      if negb (c =? ZIP_END) then
        '(_, prevlen) ← ZIP_DECODE_PREVLEN zl p;
        index_backward (length zl) zl p prevlen index
      else Some (p, index)
    else index_forward (length zl) zl ZIPLIST_ENTRY_HEAD index);
  c ← getb zl p;
  Some (if (c =? ZIP_END) || (index >? 0) then None else Some p).

Definition ziplistNext (zl : list Z) (p : Z) : option (option Z) :=
  c ← getb zl p;
  if c =? ZIP_END then Some None
  else
    l ← zipRawEntryLength zl p;
    c ← getb zl (p + l);
    Some (if c =? ZIP_END then None else Some (p + l)).

Definition ziplistPrev (zl : list Z) (p : Z) : option (option Z) :=
  c ← getb zl p;
  if c =? ZIP_END then
    p ← ZIPLIST_ENTRY_TAIL zl;
    c ← getb zl p;
    Some (if c =? ZIP_END then None else Some p)
  else if p =? ZIPLIST_ENTRY_HEAD then Some None
  else
    '(_, prevlen) ← ZIP_DECODE_PREVLEN zl p;
    if negb (prevlen >? 0) then None else Some (Some (p - prevlen)).

(** What [ziplistGet] stores: a string or an integer; the inner [None] when 0 is
    returned. *)
Definition ziplistGet (zl : list Z) (p : option Z) : option (option (list Z + Z)) :=
  match p with
  | None => Some None
  | Some p =>
      c ← getb zl p;
      if c =? ZIP_END then Some None
      else
        entry ← zipEntry zl p;
        if ZIP_IS_STR (encoding entry) then
          s ← load zl (p + headersize entry) (len entry);
          Some (Some (inl s))
        else
          v ← zipLoadInteger zl (p + headersize entry) (encoding entry);
          Some (Some (inr v))
  end.

(** [index] is an [unsigned int] that is converted to the [int] of
    [ziplistIndex]. *)
Definition ziplistDeleteRange (zl : list Z) (index : Z) (num : nat) : option (list Z) :=
  p ← ziplistIndex zl (s32 index);
  match p with
  | None => Some zl
  | Some p => __ziplistDelete zl p num
  end.

Definition ziplistCompare (zl : list Z) (p : Z) (sstr : list Z) : option bool :=
  c ← getb zl p;
  if c =? ZIP_END then Some false
  else
    entry ← zipEntry zl p;
    if ZIP_IS_STR (encoding entry) then
      if len entry =? zlen sstr then
        b ← load zl (p + headersize entry) (zlen sstr);
        Some (bool_decide (b = sstr))
      else Some false
    else
      match zipTryEncoding sstr with
      | Some (sval, _) =>
          zval ← zipLoadInteger zl (p + headersize entry) (encoding entry);
          Some (zval =? sval)
      | None => Some false
      end.

(** [vencoding] and [vll] are the encoding of the field, once it has been
    computed. *)
Fixpoint find_loop (fuel : nat) (zl : list Z) (p : Z) (vstr : list Z) (skip skipcnt : Z)
    (vencoding vll : Z) : option (option Z) :=
  c ← getb zl p;
  if c =? ZIP_END then Some None
  else match fuel with
  | O => None
  | S fuel =>
      prevlensize ← ZIP_DECODE_PREVLENSIZE zl p;
      '(encoding, lensize, len) ← ZIP_DECODE_LENGTH zl (p + prevlensize);
      let q := p + prevlensize + lensize in
      if skipcnt =? 0 then
        '(found, vencoding, vll) ← (if ZIP_IS_STR encoding then
            if len =? zlen vstr then
              b ← load zl q (zlen vstr);
              Some (bool_decide (b = vstr), vencoding, vll)
            else Some (false, vencoding, vll)
          else
            let '(vencoding, vll) :=
              if vencoding =? 0 then
                match zipTryEncoding vstr with
                | Some (vll, vencoding) => (vencoding, vll)
                | None => (255, vll)
                end
              else (vencoding, vll) in
            if vencoding =? 0 then None
            else if negb (vencoding =? 255) then
              ll ← zipLoadInteger zl q encoding;
              Some (ll =? vll, vencoding, vll)
            else Some (false, vencoding, vll));
        if (found : bool) then Some (Some p)
        else find_loop fuel zl (q + len) vstr skip skip vencoding vll
      else find_loop fuel zl (q + len) vstr skip (skipcnt - 1) vencoding vll
  end.

Definition ziplistFind (zl : list Z) (p : Z) (vstr : list Z) (skip : Z) : option (option Z) :=
  find_loop (length zl) zl p vstr (s32 skip) 0 0 0.

Fixpoint len_loop (fuel : nat) (zl : list Z) (p len : Z) : option Z :=
  c ← getb zl p;
  if c =? ZIP_END then Some len
  else match fuel with
  | O => None
  | S fuel =>
      l ← zipRawEntryLength zl p;
      len_loop fuel zl (p + l) (u32 (len + 1))
  end.

(** The length, and the block in which it may have been stored again. *)
Definition ziplistLen (zl : list Z) : option (Z * list Z) :=
  l ← ZIPLIST_LENGTH zl;
  if intrev16ifbe l <? UINT16_MAX then Some (intrev16ifbe l, zl)
  else
    len ← len_loop (length zl) zl ZIPLIST_HEADER_SIZE 0;
    zl ← (if len <? UINT16_MAX then set_LENGTH zl len else Some zl);
    Some (len, zl).

Definition ziplistBlobLen (zl : list Z) : option Z := ZIPLIST_BYTES zl.

End Ziplist.
