(* ===== verification/ZiplistFacts.v ===== *)
(** * Theorems on ziplist.c

    A block is the header, the entries and the end byte; an entry is the length of
    the entry before it, in one or in five bytes, and the code of an item.  The
    updates of Ziplist.v, with the cascade of the lengths, act on the items as list
    operations do, except for an insertion that is too small for the gap it
    leaves. *)

From Stdlib Require Import ZArith Lia.
From stdpp Require Import base numbers list.
From S2P Require Import Prelude Endian Util Ziplist.

Open Scope Z_scope.

(** ** The layout *)

(** The code of an item: an integer when it is the text of one. *)
Definition code (s : list Z) : list Z :=
  match zipTryEncoding s with
  | Some (v, enc) => enc :: le_enc (Z.to_nat (zipIntSize enc)) v
  | None => zipEncodeLengthBuf 0 (zlen s) ++ s
  end.

(** An entry: whether the length of the previous one takes five bytes; the item. *)
Abbreviation entry := (bool * list Z)%type.

Definition prev_enc (w : bool) (prev : Z) : list Z := if w then 254 :: le_enc 4 prev else [prev].
Definition psize (w : bool) : Z := if w then 5 else 1.
Definition raw (e : entry) : Z := psize e.1 + zlen (code e.2).

(** The entries [es] after an entry of length [prev], or after one of which they
    say so. *)
Fixpoint enc_from (prev : Z) (es : list entry) : list Z :=
  match es with
  | [] => []
  | e :: es => prev_enc e.1 prev ++ code e.2 ++ enc_from (raw e) es
  end.

Definition fits (w : bool) (prev : Z) : Prop := 0 <= prev < 2 ^ 32 /\ (w = false -> prev < 254).

Fixpoint valid_from (prev : Z) (es : list entry) : Prop :=
  match es with
  | [] => True
  | e :: es => fits e.1 prev /\ raw e < 2 ^ 32 /\ valid_from (raw e) es
  end.

Fixpoint size (es : list entry) : Z :=
  match es with [] => 0 | e :: es => raw e + size es end.

(** The offset of the last of the entries that begin at [base]. *)
Fixpoint last_off (base : Z) (es : list entry) : Z :=
  match es with
  | [] => base
  | e :: es' => match es' with [] => base | _ => last_off (base + raw e) es' end
  end.

Definition last_raw (prev : Z) (es : list entry) : Z := match last es with Some e => raw e | None => prev end.

Definition header (total tail cnt : Z) : list Z := le_enc 4 total ++ le_enc 4 tail ++ le_enc 2 cnt.

(** The counter is exact until it reaches its maximum. *)
Definition cnt_ok (cnt n : Z) : Prop := cnt = n /\ n < UINT16_MAX \/ cnt = UINT16_MAX.

Definition zl_ok (zl : list Z) (es : list entry) : Prop :=
  exists cnt, zl = header (11 + size es) (last_off 10 es) cnt ++ enc_from 0 es ++ [ZIP_END] /\
    valid_from 0 es /\ 11 + size es < 2 ^ 32 /\ cnt_ok cnt (zlen es).

(** The most that items can take, with lengths of five bytes. *)
Fixpoint wide (l : list (list Z)) : Z :=
  match l with [] => 0 | s :: l => 5 + zlen (code s) + wide l end.

(** ** Lemmas: the layout *)

Lemma zlen_prev_enc w prev : zlen (prev_enc w prev) = psize w.
Proof. unfold prev_enc, psize. destruct w; [by rewrite zlen_cons, zlen_le_enc|done]. Qed.

Lemma psize_range w : 1 <= psize w <= 5.
Proof. unfold psize. destruct w; lia. Qed.

Lemma code_nonempty s : 0 < zlen (code s).
Proof.
  apply zlen_pos. unfold code. destruct (zipTryEncoding s) as [[v enc]|]; [done|].
  unfold zipEncodeLengthBuf. change (ZIP_IS_STR 0) with true. cbv iota. by repeat case_match.
Qed.

Lemma raw_range e : 2 <= raw e.
Proof. unfold raw. pose proof (psize_range e.1). pose proof (code_nonempty e.2). lia. Qed.

Lemma size_nonneg es : 0 <= size es.
Proof. induction es as [|e es IH]; [done|]. cbn [size]. pose proof (raw_range e). lia. Qed.

Lemma zlen_enc_from es : forall prev, zlen (enc_from prev es) = size es.
Proof.
  induction es as [|e es IH]; intros prev; [done|]. cbn [enc_from size].
  rewrite !zlen_app, zlen_prev_enc, IH. unfold raw. lia.
Qed.

Lemma size_app a b : size (a ++ b) = size a + size b.
Proof. induction a as [|e a IH]; [done|]. cbn [app size]. lia. Qed.

Lemma length_size es : Z.of_nat (length es) <= size es.
Proof. induction es as [|e es IH]; [done|]. cbn [length size]. pose proof (raw_range e). lia. Qed.

Lemma last_raw_cons prev e es : last_raw prev (e :: es) = last_raw (raw e) es.
Proof. unfold last_raw. destruct es as [|e' es]; [done|]. by rewrite last_cons_cons; destruct (last (e' :: es)) eqn:E; [|by apply last_None in E]. Qed.

Lemma enc_from_app a : forall prev b, enc_from prev (a ++ b) = enc_from prev a ++ enc_from (last_raw prev a) b.
Proof.
  induction a as [|e a IH]; intros prev b; [done|]. cbn [app enc_from].
  rewrite IH, last_raw_cons. by rewrite <- !app_assoc.
Qed.

Lemma valid_from_app a : forall prev b,
  valid_from prev (a ++ b) <-> valid_from prev a /\ valid_from (last_raw prev a) b.
Proof.
  induction a as [|e a IH]; intros prev b; [by cbn; tauto|]. cbn [app valid_from].
  rewrite IH, last_raw_cons. tauto.
Qed.

Lemma last_off_cons base e e' es : last_off base (e :: e' :: es) = last_off (base + raw e) (e' :: es).
Proof. done. Qed.

Lemma last_off_app a : forall base e b, last_off base (a ++ e :: b) = last_off (base + size a) (e :: b).
Proof.
  induction a as [|x a IH]; intros base e b; [cbn [app size]; by rewrite Z.add_0_r|].
  cbn [app size]. destruct a as [|y a].
  - cbn [app size]. rewrite last_off_cons. f_equal. lia.
  - cbn [app]. rewrite last_off_cons. change (y :: a ++ e :: b) with ((y :: a) ++ e :: b).
    rewrite IH. f_equal. lia.
Qed.

Lemma last_off_range es : forall base, base <= last_off base es <= base + size es.
Proof.
  induction es as [|e es IH]; intros base; [cbn; lia|]. destruct es as [|e' es].
  - cbn. pose proof (raw_range e). lia.
  - rewrite last_off_cons. specialize (IH (base + raw e)). pose proof (raw_range e). cbn [size] in *. lia.
Qed.

(** The first entry is the last one only when it is alone. *)
Lemma last_off_first base e es : last_off base (e :: es) = base <-> es = [].
Proof.
  destruct es as [|e' es]; [done|]. rewrite last_off_cons. split; [|done].
  intros Heq. pose proof (last_off_range (e' :: es) (base + raw e)). pose proof (raw_range e). lia.
Qed.

(** A change of the size of the first entry moves the last one, unless it is the
    same. *)
Lemma last_off_shift base d e e' es :
  raw e' = raw e + d ->
  last_off base (e' :: es) = last_off base (e :: es) + (if bool_decide (es = []) then 0 else d).
Proof.
  intros Hr. assert (forall l b k, last_off (b + k) l = last_off b l + k) as Hs.
  { intros l. induction l as [|x [|y l] IH]; intros b k; [done|done|].
    rewrite !last_off_cons. rewrite <- IH. f_equal. lia. }
  destruct es as [|x es]; [by rewrite bool_decide_eq_true_2, Z.add_0_r|].
  rewrite bool_decide_eq_false_2 by done. rewrite !last_off_cons, <- Hs. f_equal. lia.
Qed.

Lemma last_off_base l : forall b k, last_off (b + k) l = last_off b l + k.
Proof.
  induction l as [|x [|y l] IH]; intros b k; [done|done|].
  rewrite !last_off_cons, <- IH. f_equal. lia.
Qed.

Lemma last_off_last base es e : last_off base (es ++ [e]) = base + size es.
Proof. rewrite last_off_app. done. Qed.

Lemma size_wide es : size es <= wide (snd <$> es).
Proof.
  induction es as [|e es IH]; [done|]. cbn [size fmap list_fmap wide]. unfold raw.
  pose proof (psize_range e.1). lia.
Qed.

Lemma wide_app a b : wide (a ++ b) = wide a + wide b.
Proof. induction a as [|s a IH]; [done|]. cbn [app wide]. lia. Qed.

Lemma wide_nonneg l : 0 <= wide l.
Proof. induction l as [|s l IH]; [done|]. cbn [wide]. pose proof (zlen_nonneg (code s)). lia. Qed.

(** ** Lemmas: the header *)

Lemma zlen_header t o c : zlen (header t o c) = 10.
Proof. unfold header. by rewrite !zlen_app, !zlen_le_enc. Qed.

Section Facts.
Context `{HostEndian} (junk : nat -> Z).

Lemma read32_le v : 0 <= v < 2 ^ 32 -> intrev32ifbe (host_dec (le_enc 4 v)) = v.
Proof.
  intros Hv. assert (le_dec (le_enc 4 v) = v) as Hd by (rewrite le_dec_enc; by apply Z.mod_small).
  unfold intrev32ifbe, intrev32. destruct host_be eqn:Hbe; [|unfold host_dec; by rewrite Hbe].
  rewrite memrev32_reverse by apply length_host_enc. cbn [default].
  rewrite <- (length_le_enc 4 v) at 1. rewrite host_enc_dec by apply le_enc_bytes.
  unfold host_dec. rewrite Hbe. by rewrite reverse_involutive.
Qed.

Lemma read16_le v : 0 <= v < 2 ^ 16 -> intrev16ifbe (host_dec (le_enc 2 v)) = v.
Proof.
  intros Hv. assert (le_dec (le_enc 2 v) = v) as Hd by (rewrite le_dec_enc; by apply Z.mod_small).
  unfold intrev16ifbe, intrev16. destruct host_be eqn:Hbe; [|unfold host_dec; by rewrite Hbe].
  rewrite memrev16_reverse by apply length_host_enc. cbn [default].
  rewrite <- (length_le_enc 2 v) at 1. rewrite host_enc_dec by apply le_enc_bytes.
  unfold host_dec. rewrite Hbe. by rewrite reverse_involutive.
Qed.

Lemma write32_le v : host_enc 4 (intrev32ifbe (u32 v)) = le_enc 4 v.
Proof.
  assert (le_enc 4 (u32 v) = le_enc 4 v) as Hl by apply (le_enc_mod 4).
  unfold intrev32ifbe, intrev32. destruct host_be eqn:Hbe; [|unfold host_enc; by rewrite Hbe].
  rewrite memrev32_reverse by apply length_host_enc. cbn [default].
  rewrite <- (length_host_enc 4 (u32 v)) at 1. rewrite <- (length_reverse (host_enc 4 _)).
  rewrite host_enc_dec by apply Forall_reverse, host_enc_bytes.
  unfold host_enc. rewrite Hbe. by rewrite reverse_involutive.
Qed.

Lemma write16_le v : host_enc 2 (intrev16ifbe (u16 v)) = le_enc 2 v.
Proof.
  assert (le_enc 2 (u16 v) = le_enc 2 v) as Hl by apply (le_enc_mod 2).
  unfold intrev16ifbe, intrev16. destruct host_be eqn:Hbe; [|unfold host_enc; by rewrite Hbe].
  rewrite memrev16_reverse by apply length_host_enc. cbn [default].
  rewrite <- (length_host_enc 2 (u16 v)) at 1. rewrite <- (length_reverse (host_enc 2 _)).
  rewrite host_enc_dec by apply Forall_reverse, host_enc_bytes.
  unfold host_enc. rewrite Hbe. by rewrite reverse_involutive.
Qed.

Lemma get_BYTES t o c x : 0 <= t < 2 ^ 32 -> ZIPLIST_BYTES (header t o c ++ x) = Some t.
Proof.
  intros Ht. unfold ZIPLIST_BYTES, header. rewrite <- !app_assoc, load_prefix by done.
  sbind. by rewrite read32_le.
Qed.

Lemma set_BYTES_spec t o c x v : set_BYTES (header t o c ++ x) v = Some (header v o c ++ x).
Proof.
  unfold set_BYTES, header. rewrite <- !app_assoc, write32_le.
  by apply (store_mid [] (le_enc 4 t) _ (le_enc 4 v)).
Qed.

Lemma get_TAIL t o c x : 0 <= o < 2 ^ 32 -> ZIPLIST_TAIL_OFFSET (header t o c ++ x) = Some o.
Proof.
  intros Ho. unfold ZIPLIST_TAIL_OFFSET, header. rewrite <- !app_assoc, load_mid by done.
  sbind. by rewrite read32_le.
Qed.

Lemma set_TAIL_spec t o c x v : set_TAIL_OFFSET (header t o c ++ x) v = Some (header t v c ++ x).
Proof.
  unfold set_TAIL_OFFSET, header. rewrite <- !app_assoc, write32_le. by apply store_mid.
Qed.

Lemma get_LENGTH t o c x : ZIPLIST_LENGTH (header t o c ++ x) = Some (host_dec (le_enc 2 c)).
Proof.
  unfold ZIPLIST_LENGTH, header. rewrite <- !app_assoc, (app_assoc (le_enc 4 t)), load_mid by done. done.
Qed.

Lemma set_LENGTH_spec t o c x v : set_LENGTH (header t o c ++ x) v = Some (header t o v ++ x).
Proof.
  unfold set_LENGTH, header. rewrite <- !app_assoc, write16_le, (app_assoc (le_enc 4 t)).
  rewrite store_mid by done. by rewrite <- app_assoc.
Qed.

(** The maximum is the same in the two byte orders. *)
Lemma raw_length_max c : 0 <= c < 2 ^ 16 ->
  (host_dec (le_enc 2 c) <? UINT16_MAX) = (c <? UINT16_MAX).
Proof.
  intros Hc. unfold host_dec, UINT16_MAX. pose proof (read16_le c Hc) as Hr.
  destruct host_be eqn:Hbe.
  - cbn [le_enc]. change (reverse [c mod 256; c / 256 mod 256]) with [c / 256 mod 256; c mod 256].
    cbn [le_dec]. destruct (Z.ltb_spec c 65535); [apply Z.ltb_lt|apply Z.ltb_ge]; dlia.
  - rewrite le_dec_enc. by rewrite Z.mod_small.
Qed.

Lemma cnt_range cnt n : cnt_ok cnt n -> 0 <= n -> 0 <= cnt < 2 ^ 16.
Proof. unfold cnt_ok, UINT16_MAX. lia. Qed.

Lemma INCR_LENGTH_spec t o c x n incr :
  cnt_ok c n -> 0 <= n -> 0 <= n + incr <= n + 1 ->
  exists c', ZIPLIST_INCR_LENGTH (header t o c ++ x) incr = Some (header t o c' ++ x) /\ cnt_ok c' (n + incr).
Proof.
  intros Hc Hn Hi. pose proof (cnt_range c n Hc Hn) as Hr. unfold ZIPLIST_INCR_LENGTH.
  rewrite get_LENGTH. sbind. rewrite raw_length_max, read16_le by done.
  destruct (Z.ltb_spec c UINT16_MAX).
  - exists (c + incr). rewrite set_LENGTH_spec. split; [done|]. unfold cnt_ok, UINT16_MAX in *. lia.
  - exists c. split; [done|]. right. unfold cnt_ok, UINT16_MAX in *. lia.
Qed.

(** ** Lemmas: integers and codes *)

(** The encodings that [zipTryEncoding] chooses, with the values they can hold. *)
Definition int_ok (v enc : Z) : Prop :=
  0 <= v <= 12 /\ enc = 241 + v \/ -128 <= v <= 127 /\ enc = 254 \/
  -32768 <= v <= 32767 /\ enc = 192 \/ -8388608 <= v <= 8388607 /\ enc = 240 \/
  -2147483648 <= v <= 2147483647 /\ enc = 208 \/ in_ll v /\ enc = 224.

Lemma zipTryEncoding_spec s v enc :
  zipTryEncoding s = Some (v, enc) -> s = ll_repr v /\ in_ll v /\ int_ok v enc.
Proof.
  unfold zipTryEncoding. destruct (_ || _); [done|].
  destruct (string2ll s) as [w|] eqn:Hs; [|done]. intros [= -> <-].
  apply string2ll_sound in Hs as [-> Hv]. split; [done|]. split; [done|].
  unfold INT8_MIN, INT8_MAX, INT16_MIN, INT16_MAX, INT24_MIN, INT24_MAX, INT32_MIN, INT32_MAX, int_ok.
  rewrite !Z.geb_leb.
  repeat match goal with |- context [if ?b then _ else _] => destruct b eqn:?; zbool end;
    unfold ZIP_INT_IMM_MIN, ZIP_INT_8B, ZIP_INT_16B, ZIP_INT_24B, ZIP_INT_32B, ZIP_INT_64B.
  - left. lia.
  - right. left. lia.
  - do 2 right. left. split; [lia|done].
  - do 3 right. left. split; [lia|done].
  - do 4 right. left. split; [lia|done].
  - do 5 right. by split.
Qed.

Lemma zipTryEncoding_ll v : in_ll v -> exists enc, zipTryEncoding (ll_repr v) = Some (v, enc).
Proof.
  intros Hv. unfold zipTryEncoding. rewrite (string2ll_complete v Hv).
  assert (0 < zlen (ll_repr v) <= 20) as Hl by (split; [by apply ll_repr_pos|by apply ll_repr_len]).
  rewrite Z.geb_leb, (proj2 (Z.leb_gt _ _)), (proj2 (Z.eqb_neq _ _)) by lia. by eexists.
Qed.

(** The encodings of integers are not those of strings, nor the end. *)
Lemma int_ok_enc v enc : int_ok v enc -> 192 <= enc < 255 /\ ZIP_IS_STR enc = false.
Proof.
  intros Hok. assert (192 <= enc < 255) as Hr by (unfold int_ok in Hok; lia). split; [done|].
  unfold ZIP_IS_STR, ZIP_STR_MASK. apply Z.ltb_ge.
  rewrite land_192 by lia. dlia.
Qed.

(** The number of bytes of an integer. *)
Definition isize (enc : Z) : nat := Z.to_nat (zipIntSize enc).

Ltac int_cases Hok :=
  unfold int_ok in Hok;
  destruct Hok as [[Hok ->]|[[Hok ->]|[[Hok ->]|[[Hok ->]|[[Hok ->]|[Hok ->]]]]]].

Ltac int_consts :=
  change ZIP_INT_8B with 254; change ZIP_INT_16B with 192; change ZIP_INT_24B with 240;
  change ZIP_INT_32B with 208; change ZIP_INT_64B with 224; change ZIP_INT_IMM_MIN with 241;
  change ZIP_INT_IMM_MAX with 253; change ZIP_INT_IMM_MASK with 15.

Lemma isize_imm v : 0 <= v <= 12 -> zipIntSize (241 + v) = 0.
Proof. intros Hv. unfold zipIntSize. int_consts. by rewrite !(proj2 (Z.eqb_neq _ _)) by lia. Qed.

Lemma zipIntSize_nat enc : Z.of_nat (isize enc) = zipIntSize enc.
Proof. unfold isize. rewrite Z2Nat.id; [done|]. unfold zipIntSize. repeat case_match; lia. Qed.

(** Storing in the host's order and reversing is storing in little endian. *)
Lemma store_rev n (rev : list Z -> option (list Z)) a G c v :
  rev (host_enc n v) = Some (le_enc n v) -> zlen G = Z.of_nat n ->
  (zl ← store (a ++ G ++ c) (zlen a) (host_enc n v);
   b ← load zl (zlen a) (Z.of_nat n); b ← rev b; store zl (zlen a) b)
  = Some (a ++ le_enc n v ++ c).
Proof.
  intros Hrev HG. assert (zlen (host_enc n v) = Z.of_nat n) as Hz by (unfold zlen; by rewrite length_host_enc).
  rewrite store_mid by (by rewrite ?Hz). sbind. rewrite load_mid by done. sbind. rewrite Hrev. sbind.
  apply store_mid; [done|]. by rewrite zlen_le_enc.
Qed.

Lemma put32_spec a G c v p :
  p = zlen a -> zlen G = 4 -> put32 (a ++ G ++ c) p v = Some (a ++ le_enc 4 v ++ c).
Proof. intros -> HG. apply (store_rev 4 memrev32ifbe); [apply memrev32ifbe_host|done]. Qed.

Lemma host_signed n v : 0 < 8 * Z.of_nat n -> - 2 ^ (8 * Z.of_nat n - 1) <= v < 2 ^ (8 * Z.of_nat n - 1) ->
  swrap (8 * Z.of_nat n) (host_dec (host_enc n v)) = v.
Proof.
  intros Hn Hv. rewrite host_dec_enc. replace (256 ^ Z.of_nat n) with (2 ^ (8 * Z.of_nat n)).
  - change (v mod 2 ^ (8 * Z.of_nat n)) with (uwrap (8 * Z.of_nat n) v).
    rewrite swrap_uwrap by done. by apply swrap_small.
  - by rewrite Z.pow_mul_r by lia.
Qed.

Lemma le_enc_shift8 v : le_enc 4 (Z.shiftl v 8) = 0 :: le_enc 3 v.
Proof.
  rewrite Z.shiftl_mul_pow2 by lia. change (2 ^ 8) with 256. cbn [le_enc].
  rewrite Z.mod_mul, Z.div_mul by lia. done.
Qed.

Lemma zipSaveInteger_spec a G c p v enc :
  p = zlen a -> int_ok v enc -> zlen G = zipIntSize enc ->
  zipSaveInteger (a ++ G ++ c) p v enc = Some (a ++ le_enc (isize enc) v ++ c).
Proof.
  intros -> Hok HG. unfold zipSaveInteger. int_cases Hok.
  - rewrite isize_imm in HG by done. apply zlen_0 in HG as ->. unfold isize. rewrite isize_imm by done.
    int_consts. rewrite !(proj2 (Z.eqb_neq _ _)) by lia.
    rewrite Z.geb_leb, !(proj2 (Z.leb_le _ _)) by lia. done.
  - change (254 =? ZIP_INT_8B) with true. cbv iota. change (zipIntSize 254) with 1 in HG.
    destruct G as [|x [|? G]]; [done| |rewrite !zlen_cons in HG; pose proof (zlen_nonneg G); lia].
    change ([x] ++ c) with (x :: c). rewrite setb_mid by done. cbn. done.
  - by apply (store_rev 2 memrev16ifbe); [apply memrev16ifbe_host|].
  - int_consts. cbv [Z.eqb Pos.eqb]. rewrite memrev32ifbe_host, le_enc_shift8. sbind.
    cbn [drop]. by apply store_mid.
  - by apply put32_spec.
  - by apply (store_rev 8 memrev64ifbe); [apply memrev64ifbe_host|].
Qed.

Lemma zipLoadInteger_spec a c p v enc :
  p = zlen a -> int_ok v enc -> zipLoadInteger (a ++ le_enc (isize enc) v ++ c) p enc = Some v.
Proof.
  intros -> Hok. unfold zipLoadInteger. int_cases Hok.
  - int_consts. rewrite !(proj2 (Z.eqb_neq _ _)) by lia.
    rewrite Z.geb_leb, !(proj2 (Z.leb_le _ _)) by lia. cbn [andb]. f_equal.
    change 15 with (Z.ones 4). rewrite Z.land_ones by lia. change (2 ^ 4) with 16. dlia.
  - change (254 =? ZIP_INT_8B) with true. cbv iota. change (isize 254) with 1%nat. cbn [le_enc app].
    rewrite getb_mid by done. sbind. f_equal. change (v mod 256) with (u8 v).
    rewrite swrap_uwrap by lia. apply swrap_small; lia.
  - change (192 =? ZIP_INT_8B) with false. change (192 =? ZIP_INT_16B) with true. cbv iota.
    change (isize 192) with 2%nat. rewrite load_mid by done. sbind. rewrite memrev16ifbe_le. sbind.
    f_equal. apply (host_signed 2); lia.
  - change (240 =? ZIP_INT_8B) with false. change (240 =? ZIP_INT_16B) with false.
    change (240 =? ZIP_INT_32B) with false. change (240 =? ZIP_INT_24B) with true. cbv iota.
    change (isize 240) with 3%nat. rewrite load_mid by done. sbind.
    rewrite <- le_enc_shift8, memrev32ifbe_le. sbind. f_equal.
    rewrite (host_signed 4); rewrite ?Z.shiftl_mul_pow2 by lia; [|lia|change (2 ^ 8) with 256; lia].
    rewrite Z.shiftr_div_pow2 by lia. apply Z.div_mul. lia.
  - change (208 =? ZIP_INT_8B) with false. change (208 =? ZIP_INT_16B) with false.
    change (208 =? ZIP_INT_32B) with true. cbv iota. change (isize 208) with 4%nat.
    rewrite load_mid by done. sbind. rewrite memrev32ifbe_le. sbind. f_equal. apply (host_signed 4); lia.
  - change (224 =? ZIP_INT_8B) with false. change (224 =? ZIP_INT_16B) with false.
    change (224 =? ZIP_INT_32B) with false. change (224 =? ZIP_INT_24B) with false.
    change (224 =? ZIP_INT_64B) with true. cbv iota. change (isize 224) with 8%nat.
    rewrite load_mid by done. sbind. rewrite memrev64ifbe_le. sbind. f_equal.
    unfold in_ll, LLONG_MIN, LLONG_MAX in Hok. apply (host_signed 8); lia.
Qed.

(** ** Lemmas: reading an entry *)

(** The bytes of the length of a string and of the string, or of an integer. *)
Lemma code_spec s :
  (exists v enc, zipTryEncoding s = Some (v, enc) /\ code s = enc :: le_enc (isize enc) v /\
     s = ll_repr v /\ in_ll v /\ int_ok v enc) \/
  (zipTryEncoding s = None /\ code s = zipEncodeLengthBuf 0 (zlen s) ++ s).
Proof.
  unfold code. destruct (zipTryEncoding s) as [[v enc]|] eqn:Ht; [left|by right].
  destruct (zipTryEncoding_spec s v enc Ht) as (Hs & Hv & Hok). by exists v, enc.
Qed.

Lemma zlen_code_int v enc : zlen (enc :: le_enc (isize enc) v) = 1 + zipIntSize enc.
Proof. by rewrite zlen_cons, zlen_le_enc, zipIntSize_nat. Qed.

Lemma zlen_length_buf n : zlen (zipEncodeLengthBuf 0 n) = zipEncodeLengthSize 0 n.
Proof.
  unfold zipEncodeLengthBuf, zipEncodeLengthSize. change (ZIP_IS_STR 0) with true. cbv iota. by repeat case_match.
Qed.

(** What an entry says of its item. *)
Definition holds (e : zlentry) (s : list Z) : Prop :=
  match zipTryEncoding s with
  | Some (v, enc) => encoding e = enc /\ lensize e = 1 /\ len e = zipIntSize enc
  | None => ZIP_IS_STR (encoding e) = true /\ len e = zlen s /\ lensize e = zipEncodeLengthSize 0 (zlen s)
  end.

Definition length_ok (s : list Z) (d : Z * Z * Z) : Prop :=
  let '(enc, ls, ln) := d in holds (mk_zlentry 0 0 ls ln 0 enc 0) s /\ ls + ln = zlen (code s).

Lemma getb_skip {A} (a b : list A) i : 0 <= i -> getb (a ++ b) (zlen a + i) = getb b i.
Proof. intros Hi. rewrite getb_app_r by lia. f_equal. lia. Qed.

Lemma lor_add a b k : 0 <= k -> a mod 2 ^ k = 0 -> 0 <= b < 2 ^ k -> Z.lor a b = a + b.
Proof.
  intros Hk Ha Hb. assert (a = Z.shiftl (a / 2 ^ k) k) as Heq.
  { rewrite Z.shiftl_mul_pow2 by done. pose proof (Z.div_mod a (2 ^ k)). lia. }
  rewrite Heq at 1. rewrite lor_shiftl by done. rewrite <- Z.shiftl_mul_pow2, <- Heq by done. done.
Qed.

Lemma be_bytes a b c d :
  0 <= b < 256 -> 0 <= c < 256 -> 0 <= d < 256 ->
  Z.lor (Z.lor (Z.lor (Z.shiftl a 24) (Z.shiftl b 16)) (Z.shiftl c 8)) d
  = a * 16777216 + b * 65536 + c * 256 + d.
Proof.
  intros Hb Hc Hd. rewrite !Z.shiftl_mul_pow2 by lia.
  change (2 ^ 24) with 16777216. change (2 ^ 16) with 65536. change (2 ^ 8) with 256.
  assert (forall k x y, 0 <= k -> x mod 2 ^ k = 0 /\ 0 <= y < 2 ^ k -> Z.lor x y = x + y) as Hl.
  { intros k x y Hk [Hx Hy]. by apply (lor_add x y k). }
  rewrite (Hl 24 (a * 16777216) (b * 65536) ltac:(lia)) by (change (2 ^ 24) with 16777216; split; dlia).
  rewrite (Hl 16 (_ + _) (c * 256) ltac:(lia)) by (change (2 ^ 16) with 65536; split; dlia).
  rewrite (Hl 8 (_ + _) d ltac:(lia)) by (change (2 ^ 8) with 256; split; dlia). done.
Qed.

Lemma decode_str_length a s c p :
  p = zlen a -> zlen s < 2 ^ 32 -> zipTryEncoding s = None ->
  exists enc, ZIP_DECODE_LENGTH (a ++ (zipEncodeLengthBuf 0 (zlen s) ++ s) ++ c) p
    = Some (enc, zipEncodeLengthSize 0 (zlen s), zlen s) /\ ZIP_IS_STR enc = true.
Proof.
  intros -> Hs Hn. set (n := zlen s) in *. assert (0 <= n) as Hn0 by apply zlen_nonneg. clearbody n.
  unfold ZIP_DECODE_LENGTH, ZIP_ENTRY_ENCODING, zipEncodeLengthBuf, zipEncodeLengthSize.
  change (ZIP_IS_STR 0) with true. cbv iota.
  change ZIP_STR_06B with 0. change ZIP_STR_14B with 64. change ZIP_STR_32B with 128.
  change ZIP_STR_MASK with 192.
  destruct (Z.leb_spec n 63); [|destruct (Z.leb_spec n 16383)].
  - rewrite Z.lor_0_l, u8_small by lia. cbn [app]. rewrite getb_mid by done. sbind.
    rewrite (proj2 (Z.ltb_lt n 192)) by lia. rewrite land_192, land_63, Z.div_small, Z.mod_small by lia.
    exists 0. by split.
  - assert (u8 (Z.lor 64 (Z.land (Z.shiftr n 8) 63)) = 64 + n / 256) as ->.
    { rewrite Z.shiftr_div_pow2 by lia. change (2 ^ 8) with 256. rewrite land_63, Z.mod_small by dlia.
      rewrite (lor_add 64 _ 6) by (try done; dlia). apply u8_small. dlia. }
    assert (0 <= n / 256 < 64) as Hq by dlia. cbn [app].
    rewrite getb_mid by done. sbind. rewrite (proj2 (Z.ltb_lt (_ + _) 192)), land_192, land_63 by lia.
    replace ((64 + n / 256) / 64 * 64) with 64 by dlia. cbv [Z.ltb Z.compare Pos.compare Pos.compare_cont Z.eqb Pos.eqb].
    rewrite (list_cons_snoc a), getb_mid by (by rewrite zlen_app). sbind.
    exists 64. split; [|done]. do 2 f_equal. rewrite land_255, lor_shiftl by dlia. dlia.
  - cbn [app]. rewrite getb_mid by done. sbind. change (128 <? 192) with true. cbv iota.
    change (Z.land 128 192) with 128. cbv [Z.ltb Z.compare Pos.compare Pos.compare_cont Z.eqb Pos.eqb].
    rewrite !getb_skip by lia.
    cbv [getb Z.leb Z.compare Z.to_nat Pos.to_nat Pos.iter_op Nat.add lookup list_lookup]. sbind.
    exists 128. split; [|done]. do 2 f_equal. rewrite !land_255, !Z.shiftr_div_pow2 by lia.
    change (2 ^ 8) with 256. change (2 ^ 16) with 65536. change (2 ^ 24) with 16777216.
    rewrite be_bytes by dlia. rewrite u32_small by dlia. dlia.
Qed.

Lemma item_len e : raw e < 2 ^ 32 -> zipTryEncoding e.2 = None -> zlen e.2 < 2 ^ 32.
Proof.
  intros Hr Hn. unfold raw, code in Hr. rewrite Hn, zlen_app in Hr.
  pose proof (psize_range e.1). pose proof (zlen_nonneg (zipEncodeLengthBuf 0 (zlen e.2))). lia.
Qed.

Lemma decode_length a e c p :
  p = zlen a -> raw e < 2 ^ 32 ->
  exists d, ZIP_DECODE_LENGTH (a ++ code e.2 ++ c) p = Some d /\ length_ok e.2 d.
Proof.
  intros Hp Hr. unfold length_ok, holds. destruct (code_spec e.2) as [(v & enc & Ht & Hc & Hv & _ & Hok)|[Ht Hc]];
    rewrite Hc, Ht.
  - destruct (int_ok_enc v enc Hok) as [Henc _].
    exists (enc, 1, zipIntSize enc). split; [|by rewrite zlen_code_int].
    unfold ZIP_DECODE_LENGTH, ZIP_ENTRY_ENCODING. cbn [app]. rewrite getb_mid by done. sbind.
    change ZIP_STR_MASK with 192. rewrite (proj2 (Z.ltb_ge enc 192)) by lia.
    by rewrite (proj2 (Z.ltb_ge enc 192)) by lia.
  - destruct (decode_str_length a e.2 c p Hp (item_len e Hr Ht) Ht) as (enc & -> & Henc).
    eexists. split; [done|]. split; [done|]. rewrite zlen_app, zlen_length_buf. done.
Qed.

Lemma prev_byte a w prev c p :
  p = zlen a -> fits w prev ->
  exists b, getb (a ++ prev_enc w prev ++ c) p = Some b /\ (b =? ZIP_END) = false /\
    (b <? ZIP_BIGLEN) = negb w /\ (w = false -> b = prev).
Proof.
  intros -> [Hp Hw]. unfold prev_enc. destruct w; cbn [app]; rewrite getb_mid by done.
  - by exists 254.
  - exists prev. split; [done|]. specialize (Hw eq_refl). unfold ZIP_END, ZIP_BIGLEN.
    split; [apply Z.eqb_neq; lia|]. split; [apply Z.ltb_lt; lia|done].
Qed.

Lemma decode_prevlensize a w prev c p :
  p = zlen a -> fits w prev -> ZIP_DECODE_PREVLENSIZE (a ++ prev_enc w prev ++ c) p = Some (psize w).
Proof.
  intros Hp Hf. unfold ZIP_DECODE_PREVLENSIZE.
  destruct (prev_byte a w prev c p Hp Hf) as (b & -> & _ & Hb & _). sbind. rewrite Hb. by destruct w.
Qed.

Lemma decode_prevlen a w prev c p :
  p = zlen a -> fits w prev -> ZIP_DECODE_PREVLEN (a ++ prev_enc w prev ++ c) p = Some (psize w, prev).
Proof.
  intros Hp Hf. unfold ZIP_DECODE_PREVLEN. rewrite decode_prevlensize by done. sbind.
  destruct (prev_byte a w prev c p Hp Hf) as (b & Hg & _ & _ & Hb). destruct w; cbn [psize Z.eqb Pos.eqb].
  - cbn [prev_enc app]. rewrite (list_cons_snoc a), load_mid by (rewrite ?zlen_app; by subst).
    sbind. rewrite memrev32ifbe_le. sbind. rewrite host_dec_enc. destruct Hf as [Hf _].
    change (256 ^ Z.of_nat 4) with (2 ^ 32). by rewrite Z.mod_small.
  - rewrite Hg. sbind. by rewrite Hb.
Qed.

(** An entry in the middle of a block. *)
Definition entry_bytes (e : entry) (prev : Z) : list Z := prev_enc e.1 prev ++ code e.2.

Lemma zlen_entry_bytes e prev : zlen (entry_bytes e prev) = raw e.
Proof. unfold entry_bytes. by rewrite zlen_app, zlen_prev_enc. Qed.

Lemma enc_from_cons prev e es : enc_from prev (e :: es) = entry_bytes e prev ++ enc_from (raw e) es.
Proof. unfold entry_bytes. cbn [enc_from]. by rewrite <- app_assoc. Qed.

Lemma raw_at a e prev c p :
  p = zlen a -> fits e.1 prev -> raw e < 2 ^ 32 ->
  zipRawEntryLength (a ++ entry_bytes e prev ++ c) p = Some (raw e).
Proof.
  intros Hp Hf Hr. unfold zipRawEntryLength, entry_bytes. rewrite <- app_assoc.
  rewrite decode_prevlensize by done. sbind. rewrite (app_assoc a).
  destruct (decode_length (a ++ prev_enc e.1 prev) e c (p + psize e.1)) as ([[enc ls] ln] & -> & _ & Hl);
    [by rewrite zlen_app, zlen_prev_enc, Hp|done|]. sbind.
  replace (psize e.1 + ls + ln) with (raw e) by (unfold raw; lia).
  pose proof (raw_range e). by rewrite u32_small by lia.
Qed.

Lemma entry_at a e prev c p :
  p = zlen a -> fits e.1 prev -> raw e < 2 ^ 32 ->
  exists z, zipEntry (a ++ entry_bytes e prev ++ c) p = Some z /\
    prevrawlensize z = psize e.1 /\ prevrawlen z = prev /\ zp z = p /\
    headersize z + len z = raw e /\ headersize z = psize e.1 + lensize z /\ holds z e.2.
Proof.
  intros Hp Hf Hr. unfold zipEntry, entry_bytes. rewrite <- app_assoc.
  rewrite decode_prevlen by done. sbind. rewrite (app_assoc a).
  destruct (decode_length (a ++ prev_enc e.1 prev) e c (p + psize e.1)) as ([[enc ls] ln] & -> & Hh & Hl);
    [by rewrite zlen_app, zlen_prev_enc, Hp|done|]. sbind.
  eexists. split; [done|]. cbn. split_and!; try done. unfold raw. lia.
Qed.

Lemma end_at a c p : p = zlen a -> getb (a ++ ZIP_END :: c) p = Some ZIP_END.
Proof. apply getb_mid. Qed.

(** Whether the entries that begin at [p] end there. *)
Lemma next_at a prev es p :
  p = zlen a -> valid_from prev es ->
  exists b, getb (a ++ enc_from prev es ++ [ZIP_END]) p = Some b /\ (b =? ZIP_END) = bool_decide (es = []).
Proof.
  intros Hp Hv. destruct es as [|e es].
  - exists ZIP_END. split; [by apply end_at|done].
  - cbn [valid_from] in Hv. destruct Hv as (Hf & _). cbn [enc_from]. rewrite <- app_assoc.
    destruct (prev_byte a e.1 prev ((code e.2 ++ enc_from (raw e) es) ++ [ZIP_END]) p Hp Hf) as (b & -> & Hb & _).
    exists b. split; [done|]. by rewrite bool_decide_eq_false_2.
Qed.

(** ** Lemmas: writing *)

Lemma write_wide a G c p prev :
  p = zlen a -> zlen G = 5 ->
  zipPrevEncodeLengthForceLarge (a ++ G ++ c) p prev = Some (a ++ prev_enc true prev ++ c).
Proof.
  intros -> HG. unfold zipPrevEncodeLengthForceLarge.
  destruct G as [|x G]; [done|]. rewrite zlen_cons in HG. cbn [app prev_enc].
  rewrite setb_mid by done. sbind. change ZIP_BIGLEN with 254.
  rewrite (list_cons_snoc a (le_enc 4 prev ++ c)), (list_cons_snoc a (G ++ c)).
  apply put32_spec; [by rewrite zlen_app|lia].
Qed.

Lemma size_of_len prev : zipPrevEncodeLengthSize prev = psize (negb (prev <? 254)).
Proof. unfold zipPrevEncodeLengthSize, ZIP_BIGLEN. by destruct (prev <? 254). Qed.

Lemma write_prev a G c p prev :
  p = zlen a -> 0 <= prev -> zlen G = zipPrevEncodeLengthSize prev ->
  zipPrevEncodeLength (a ++ G ++ c) p prev
  = Some (a ++ prev_enc (negb (prev <? 254)) prev ++ c, zipPrevEncodeLengthSize prev).
Proof.
  intros Hp Hpv HG. rewrite size_of_len in *. unfold zipPrevEncodeLength. change ZIP_BIGLEN with 254.
  destruct (Z.ltb_spec prev 254); cbn [negb psize] in *.
  - destruct G as [|x [|? G]]; [done| |rewrite !zlen_cons in HG; pose proof (zlen_nonneg G); lia].
    cbn [app prev_enc]. rewrite setb_mid by done. sbind. by rewrite u8_small by lia.
  - pose proof (write_wide a G c p prev Hp HG) as Hw. unfold zipPrevEncodeLengthForceLarge in Hw.
    change ZIP_BIGLEN with 254 in Hw. destruct (setb _ _ _) as [zl|]; [|done]. sbind. cbn in Hw. by rewrite Hw.
Qed.

Lemma fits_exact prev : 0 <= prev < 2 ^ 32 -> fits (negb (prev <? 254)) prev.
Proof. intros Hp. split; [done|]. intros Hn%negb_false_iff%Z.ltb_lt. done. Qed.

(** ** Lemmas: resizing and moving *)

Lemma zl_resize_grow t o c x d :
  0 <= d -> t = 11 + zlen x ->
  exists Y, ziplistResize junk (header t o c ++ x ++ [ZIP_END]) (t + d)
    = Some (header (t + d) o c ++ x ++ Y ++ [ZIP_END]) /\ zlen Y = d /\
    (0 < d -> exists Y', Y = ZIP_END :: Y').
Proof.
  intros Hd Ht. unfold ziplistResize.
  assert (zlen (header t o c ++ x ++ [ZIP_END]) = t) as Hz by (rewrite !zlen_app, zlen_header; change (zlen [ZIP_END]) with 1; lia).
  destruct (realloc_grow junk (header t o c ++ x ++ [ZIP_END]) (t + d)) as (m & -> & Hm); [lia|].
  rewrite Hz in Hm. rewrite <- app_assoc, set_BYTES_spec. sbind.
  destruct (decide (d = 0)) as [->|Hne].
  - assert (m = []) as -> by (apply zlen_0; lia). exists []. rewrite app_nil_r.
    split; [|split; [done|lia]]. rewrite (app_assoc (header _ _ _)).
    rewrite setb_mid by (rewrite zlen_app, zlen_header; lia). by rewrite <- app_assoc.
  - destruct m as [|y m _] using rev_ind; [rewrite (@zlen_nil Z) in Hm; lia|].
    rewrite zlen_app in Hm. change (zlen [y]) with 1 in Hm. exists (ZIP_END :: m).
    split; [|split; [rewrite zlen_cons; lia|by exists m]].
    assert (header (t + d) o c ++ (x ++ [ZIP_END]) ++ m ++ [y] = (header (t + d) o c ++ x ++ ZIP_END :: m) ++ [y]) as ->.
    { by rewrite <- !app_assoc. }
    rewrite setb_mid by (rewrite !zlen_app, zlen_cons, zlen_header; lia).
    by rewrite <- !app_assoc.
Qed.

Lemma resize_cut t o c y z len :
  z <> [] -> len = 11 + zlen y ->
  ziplistResize junk (header t o c ++ y ++ z) len = Some (header len o c ++ y ++ [ZIP_END]).
Proof.
  intros Hz ->. destruct z as [|b z]; [done|]. unfold ziplistResize.
  assert (header t o c ++ y ++ b :: z = (header t o c ++ y ++ [b]) ++ z) as -> by (by rewrite <- !app_assoc).
  rewrite realloc_shrink by (rewrite !zlen_app, zlen_header; change (zlen [b]) with 1; lia).
  rewrite set_BYTES_spec. sbind. rewrite (app_assoc (header _ _ _)).
  rewrite setb_mid by (rewrite zlen_app, zlen_header; lia). by rewrite <- app_assoc.
Qed.

(** Moving the end [x] of [u ++ x], and what is before it, up to the end of the
    block but [t]. *)
Lemma move_up (h y x t u rest : list Z) dst src n :
  h ++ y ++ t = u ++ x ++ rest ->
  0 <= src <= zlen u -> src + n = zlen u + zlen x ->
  zlen h <= dst -> dst + n = zlen h + zlen y ->
  exists G, memmove (h ++ y ++ t) dst src n
    = Some (h ++ G ++ drop (Z.to_nat src) u ++ x ++ t) /\ zlen G = dst - zlen h.
Proof.
  intros Heq Hsrc Hn Hdst Hend. unfold memmove.
  assert (load (h ++ y ++ t) src n = Some (drop (Z.to_nat src) u ++ x)) as ->.
  { rewrite Heq. rewrite <- (take_drop (Z.to_nat src) u) at 1. rewrite <- !app_assoc, (app_assoc (drop _ _)).
    apply load_mid; [rewrite zlen_take; zlia|rewrite zlen_app, zlen_drop; lia]. }
  sbind. rewrite store_mid_end by (rewrite ?zlen_app, ?zlen_drop; lia).
  eexists. split; [by rewrite <- app_assoc|]. rewrite zlen_take. pose proof (zlen_nonneg x). lia.
Qed.

Lemma move_down (h G x t : list Z) dst src n :
  dst = zlen h -> src = zlen h + zlen G -> n = zlen x ->
  exists m, memmove (h ++ G ++ x ++ t) dst src n = Some (h ++ x ++ m ++ t) /\ zlen m = zlen G.
Proof.
  intros -> -> ->. unfold memmove. rewrite (app_assoc h G), load_mid by (by rewrite ?zlen_app). sbind.
  exists (drop (length x) (G ++ x)). rewrite <- app_assoc. split; [|rewrite zlen_drop, zlen_app; zlia].
  replace (h ++ G ++ x ++ t) with (h ++ take (length x) (G ++ x) ++ drop (length x) (G ++ x) ++ t).
  - by rewrite store_mid by (rewrite ?zlen_take, ?zlen_app; zlia).
  - by rewrite (app_assoc (take _ _)), take_drop, <- app_assoc.
Qed.

(** ** The cascade *)

Lemma bind_assoc_opt {A B C} (x : option A) (f : A -> option B) (g : B -> option C) :
  (a ← x; b ← f a; g b) = (b ← (a ← x; f a); g b).
Proof. by destruct x. Qed.

(** A block whose entries from offset [10 + zlen A] on are [e], with the right
    length before it, and [es], the first of which says that the length of [e] is
    [old]. *)
Definition stale (cnt : Z) (A : list Z) (prev : Z) (e : entry) (old : Z) (es : list entry) : list Z :=
  header (11 + zlen A + size (e :: es)) (last_off (10 + zlen A) (e :: es)) cnt ++
  A ++ entry_bytes e prev ++ enc_from old es ++ [ZIP_END].

Lemma fits_false prev : fits false prev -> 0 <= prev < 254.
Proof. intros [? Hp]. specialize (Hp eq_refl). lia. Qed.

Lemma tail_adjust t base e e' es d c x :
  raw e' = raw e + d -> 0 <= last_off base (e :: es) < 2 ^ 32 ->
  (tail ← ZIPLIST_TAIL_OFFSET (header t (last_off base (e :: es)) c ++ x);
   if negb (tail =? base) then set_TAIL_OFFSET (header t (last_off base (e :: es)) c ++ x) (tail + d)
   else Some (header t (last_off base (e :: es)) c ++ x))
  = Some (header t (last_off base (e' :: es)) c ++ x).
Proof.
  intros Hr Ho. rewrite get_TAIL by done. sbind. rewrite (last_off_shift base d e e' es Hr).
  destruct (Z.eqb_spec (last_off base (e :: es)) base) as [Heq|Hne].
  - rewrite bool_decide_eq_true_2 by (by apply (last_off_first base e)). by rewrite Z.add_0_r.
  - rewrite bool_decide_eq_false_2 by (by intros Hn; apply Hne, (last_off_first base e)). cbn [negb].
    by rewrite set_TAIL_spec.
Qed.

(** The growth of the length before the entry [s], which is followed by [es]. *)
Lemma grow_prev (k : list Z -> option (list Z)) cnt A e prev old s es p curlen :
  let np := p + raw e in
  p = 10 + zlen A -> curlen = 11 + zlen A + size (e :: (false, s) :: es) ->
  fits false old -> 254 <= raw e ->
  curlen + 4 < 2 ^ 32 ->
  (zl ← ziplistResize junk (stale cnt A prev e old ((false, s) :: es)) (u32 (curlen + 4));
   tail ← ZIPLIST_TAIL_OFFSET zl;
   zl ← (if negb (tail =? np) then set_TAIL_OFFSET zl (tail + 4) else Some zl);
   zl ← memmove zl (np + 5) (np + 1) (curlen - np - 1 - 1);
   '(zl, _) ← zipPrevEncodeLength zl np (raw e);
   k zl)
  = k (stale cnt (A ++ entry_bytes e prev) (raw e) (true, s) (raw (false, s)) es).
Proof.
  intros np Hp Hcur Hold He Hmax. apply fits_false in Hold.
  pose proof (zlen_nonneg A). pose proof (size_nonneg es). pose proof (raw_range (false, s)).
  unfold stale. set (E := entry_bytes e prev). assert (zlen E = raw e) as HE by apply zlen_entry_bytes.
  rewrite enc_from_cons. set (R := code s ++ enc_from (raw (false, s)) es).
  assert (entry_bytes (false, s) old ++ enc_from (raw (false, s)) es = old :: R) as -> by done.
  assert (zlen (old :: R) = size ((false, s) :: es)) as HR.
  { subst R. rewrite zlen_cons, zlen_app, zlen_enc_from. cbn [size]. unfold raw. cbn. lia. }
  assert (11 + zlen A + size (e :: (false, s) :: es) = curlen) as -> by done.
  rewrite (u32_small (curlen + 4)) by (cbn [size] in *; pose proof (raw_range e); lia).
  rewrite <- !app_assoc, (app_assoc E), (app_assoc A).
  destruct (zl_resize_grow curlen (last_off (10 + zlen A) (e :: (false, s) :: es)) cnt (A ++ E ++ old :: R) 4)
    as (Y & -> & HY & _); [lia|rewrite !zlen_app, HE, HR; cbn [size] in *; lia|]. sbind.
  set (O := last_off (10 + zlen A) (e :: (false, s) :: es)).
  assert (O = last_off np ((false, s) :: es)) as HO.
  { subst O np. rewrite last_off_cons. f_equal. lia. }
  pose proof (last_off_range ((false, s) :: es) np) as Hrange. cbn [size] in *.
  pose proof (tail_adjust (curlen + 4) np (false, s) (true, s) es 4 cnt ((A ++ E ++ old :: R) ++ Y ++ [ZIP_END]))
    as Htail. rewrite <- HO in Htail. rewrite bind_assoc_opt, Htail; [|unfold raw; cbn; lia|lia]. clear Htail. sbind.
  set (T := header (curlen + 4) (last_off np ((true, s) :: es)) cnt).
  assert (zlen T = 10) as HT by apply zlen_header.
  replace (T ++ (A ++ E ++ old :: R) ++ Y ++ [ZIP_END])
    with ((T ++ A ++ E) ++ (old :: R ++ Y) ++ [ZIP_END]) by (by repeat (rewrite <- app_assoc; cbn [app])).
  destruct (move_up (T ++ A ++ E) (old :: R ++ Y) R [ZIP_END] (T ++ A ++ E ++ [old]) (Y ++ [ZIP_END]) (np + 5) (np + 1) (curlen - np - 1 - 1))
    as (G & -> & HG).
  { by repeat (rewrite <- app_assoc; cbn [app]). }
  { rewrite !zlen_app, HT, HE. change (zlen [old]) with 1. lia. }
  { rewrite !zlen_app, HT, HE. change (zlen [old]) with 1. rewrite zlen_cons in HR. lia. }
  { rewrite !zlen_app, HT, HE. lia. }
  { rewrite zlen_cons, !zlen_app, HT, HE, HY. rewrite zlen_cons in HR. lia. }
  sbind. rewrite drop_ge by (apply Nat2Z.inj_le; rewrite Z2Nat.id by lia; fold (zlen (T ++ A ++ E ++ [old])); rewrite !zlen_app, HT, HE; change (zlen [old]) with 1; lia).
  cbn [app]. rewrite write_prev; [|rewrite !zlen_app, HT, HE; lia|lia|].
  - sbind. rewrite (proj2 (Z.ltb_ge (raw e) 254)) by lia. cbn [negb].
    f_equal. rewrite zlen_app, HE.
    assert (header (11 + (zlen A + raw e) + (raw (true, s) + size es)) (last_off (10 + (zlen A + raw e)) ((true, s) :: es)) cnt = T) as ->.
    { subst T. f_equal; [|f_equal; lia]. unfold raw in *. cbn in *. lia. }
    subst R. unfold entry_bytes. cbn [fst snd]. by rewrite <- !app_assoc.
  - rewrite HG. unfold zipPrevEncodeLengthSize, ZIP_BIGLEN. rewrite (proj2 (Z.ltb_ge _ _)) by lia.
    rewrite !zlen_app, HT, HE. lia.
Qed.

(** What the loop reads. *)
Lemma cascade_reads cnt A prev e old es p :
  p = 10 + zlen A -> fits e.1 prev -> raw e < 2 ^ 32 -> valid_from old es ->
  let zl := stale cnt A prev e old es in
  exists b cur b2, getb zl p = Some b /\ (b =? ZIP_END) = false /\
    zipEntry zl p = Some cur /\ headersize cur + len cur = raw e /\
    getb zl (p + raw e) = Some b2 /\ (b2 =? ZIP_END) = bool_decide (es = []) /\
    forall e2 es2, es = e2 :: es2 -> exists nx, zipEntry zl (p + raw e) = Some nx /\
      prevrawlensize nx = psize e2.1 /\ prevrawlen nx = old.
Proof.
  intros Hp Hf Hr Hv zl.
  set (a := header (11 + zlen A + size (e :: es)) (last_off (10 + zlen A) (e :: es)) cnt ++ A).
  assert (zl = a ++ entry_bytes e prev ++ enc_from old es ++ [ZIP_END]) as Hzl
    by (subst zl a; unfold stale; by rewrite <- app_assoc).
  assert (p = zlen a) as Ha by (subst a; rewrite zlen_app, zlen_header; lia).
  set (a2 := a ++ entry_bytes e prev).
  assert (p + raw e = zlen a2) as Ha2 by (subst a2; by rewrite zlen_app, zlen_entry_bytes, Ha).
  assert (zl = a2 ++ enc_from old es ++ [ZIP_END]) as Hzl2 by (subst a2; by rewrite Hzl, <- !app_assoc).
  assert (exists b, getb zl p = Some b /\ (b =? ZIP_END) = false) as (b & Hb & Hend).
  { rewrite Hzl. unfold entry_bytes. rewrite <- app_assoc.
    destruct (prev_byte a e.1 prev (code e.2 ++ enc_from old es ++ [ZIP_END]) p Ha Hf) as (b & Hb & Hend & _).
    by exists b. }
  destruct (entry_at a e prev (enc_from old es ++ [ZIP_END]) p Ha Hf Hr) as (cur & Hcur & _ & _ & _ & Hlen & _).
  destruct (next_at a2 old es (p + raw e) Ha2 Hv) as (b2 & Hb2 & Hend2).
  rewrite <- Hzl in Hcur. rewrite <- Hzl2 in Hb2. exists b, cur, b2. split_and!; try done.
  intros e2 es2 ->. cbn [valid_from] in Hv. destruct Hv as (Hf2 & Hr2 & _).
  rewrite enc_from_cons, <- app_assoc in Hzl2. rewrite Hzl2.
  destruct (entry_at a2 e2 old (enc_from (raw e2) es2 ++ [ZIP_END]) (p + raw e) Ha2 Hf2 Hr2)
    as (nx & Hnx & H1 & H2 & _). by exists nx.
Qed.

(** The length that is stale. *)
Lemma stale_split cnt A prev e w s es :
  exists a c, zlen a = 10 + zlen A + raw e /\
    forall old, stale cnt A prev e old ((w, s) :: es) = a ++ prev_enc w old ++ c.
Proof.
  exists (header (11 + zlen A + size (e :: (w, s) :: es)) (last_off (10 + zlen A) (e :: (w, s) :: es)) cnt ++
     A ++ entry_bytes e prev), (code s ++ enc_from (raw (w, s)) es ++ [ZIP_END]).
  split; [rewrite !zlen_app, zlen_header, zlen_entry_bytes; lia|].
  intros old. unfold stale. cbn [enc_from fst snd]. by rewrite <- !app_assoc.
Qed.

(** The cascade only makes lengths wider, and keeps the items. *)
Lemma cascade_loop_spec es : forall fuel cnt A prev e old p curlen,
  p = 10 + zlen A -> curlen = 11 + zlen A + size (e :: es) ->
  fits e.1 prev -> raw e < 2 ^ 32 -> valid_from old es -> (length es < fuel)%nat ->
  11 + zlen A + raw e + wide (snd <$> es) < 2 ^ 32 ->
  exists es', cascade_loop junk fuel (stale cnt A prev e old es) p curlen
    = Some (stale cnt A prev e (raw e) es') /\ snd <$> es' = snd <$> es /\ valid_from (raw e) es'.
Proof.
  induction es as [|[w s] es IH]; intros fuel cnt A prev e old p curlen Hp Hcur Hf Hr Hv Hfuel Hmax;
    (destruct fuel as [|fuel]; [cbn [length] in Hfuel; lia|]); cbn [cascade_loop];
    pose proof (zlen_nonneg A); pose proof (raw_range e);
    destruct (cascade_reads cnt A prev e old _ p Hp Hf Hr Hv)
      as (b & cur & b2 & -> & Hb & Hcurr & Hlen & Hb2 & Hend & Hnext);
    sbind; rewrite Hb, Hcurr; sbind; rewrite Hlen, u32_small, Hb2 by lia; sbind; rewrite Hend.
  { rewrite bool_decide_eq_true_2 by done. exists []. by split_and!. }
  rewrite bool_decide_eq_false_2 by done.
  destruct (Hnext _ _ eq_refl) as (nx & -> & Hns & Hnl). sbind. rewrite Hns, Hnl, size_of_len. cbn [fst].
  cbn [valid_from] in Hv. destruct Hv as (Hfo & Hro & Hv). cbn [fst] in Hfo.
  cbn [fmap list_fmap wide snd] in Hmax. pose proof (wide_nonneg (snd <$> es)). pose proof (size_wide es).
  pose proof (size_nonneg es).
  destruct (Z.eqb_spec old (raw e)) as [->|Hne]; [exists ((w, s) :: es); by split_and!|].
  assert (fits (negb (raw e <? 254)) (raw e)) as Hex by (apply fits_exact; lia).
  destruct (Z.ltb_spec (raw e) 254) as [Hlt|Hge]; cbn [negb psize] in *.
  - rewrite (proj2 (Z.ltb_ge (psize w) 1)) by (pose proof (psize_range w); lia).
    exists ((w, s) :: es). destruct (stale_split cnt A prev e w s es) as (a & c & Ha & Hst).
    rewrite !Hst. split.
    + destruct w; cbn [psize].
      * change (5 >? 1) with true. cbv iota. rewrite (write_wide a (prev_enc true old)); [done|lia|].
        by rewrite zlen_prev_enc.
      * change (1 >? 1) with false. cbv iota. rewrite (write_prev a (prev_enc false old)); [|lia|lia|].
        -- sbind. by rewrite (proj2 (Z.ltb_lt (raw e) 254)).
        -- rewrite zlen_prev_enc, size_of_len. by rewrite (proj2 (Z.ltb_lt (raw e) 254)).
    + split; [done|]. cbn [valid_from fst snd]. split; [|by split]. split; [lia|]. intros _. lia.
  - destruct w; cbn [psize].
    + change (5 <? 5) with false. change (5 >? 5) with false. cbv iota.
      exists ((true, s) :: es). destruct (stale_split cnt A prev e true s es) as (a & c & Ha & Hst).
      rewrite !Hst. rewrite (write_prev a (prev_enc true old)); [|lia|lia|].
      * sbind. rewrite (proj2 (Z.ltb_ge (raw e) 254)) by done. split; [done|]. split; [done|].
        cbn [valid_from fst snd]. by split.
      * rewrite zlen_prev_enc, size_of_len. by rewrite (proj2 (Z.ltb_ge (raw e) 254)).
    + change (1 <? 5) with true. change (5 - 1) with 4. cbv iota.
      assert (raw (true, s) = raw (false, s) + 4) as Hgrow by (unfold raw; cbn; lia).
      rewrite (grow_prev _ cnt A e prev old s es p curlen); try done.
      * destruct (IH fuel cnt (A ++ entry_bytes e prev) (raw e) (true, s) (raw (false, s)) (p + raw e) (curlen + 4))
          as (es' & -> & Hs & Hv').
        -- rewrite zlen_app, zlen_entry_bytes. lia.
        -- rewrite zlen_app, zlen_entry_bytes. cbn [size] in *. lia.
        -- split; [lia|done].
        -- unfold raw. cbn. pose proof (zlen_nonneg (snd <$> es)). lia.
        -- done.
        -- cbn [length] in Hfuel. lia.
        -- rewrite zlen_app, zlen_entry_bytes. unfold raw at 2. cbn. lia.
        -- exists ((true, s) :: es'). split; [|split; [cbn; by rewrite Hs|]].
           ++ f_equal. unfold stale. rewrite zlen_app, zlen_entry_bytes, last_off_cons.
              cbn [enc_from fst snd]. unfold entry_bytes at 2. cbn [fst snd]. rewrite <- !app_assoc.
              assert (11 + (zlen A + raw e) + size ((true, s) :: es') = 11 + zlen A + size (e :: (true, s) :: es'))
                as -> by (cbn [size]; lia).
              by assert (10 + (zlen A + raw e) = 10 + zlen A + raw e) as -> by lia.
           ++ cbn [valid_from fst snd]. split; [split; [lia|done]|]. split; [|done].
              unfold raw. cbn. lia.
      * cbn [size] in *. rewrite Hcur. unfold raw at 2. cbn. lia.
Qed.

Lemma zlen_stale cnt A prev e old es : zlen (stale cnt A prev e old es) = 11 + zlen A + size (e :: es).
Proof.
  unfold stale. rewrite !zlen_app, zlen_header, zlen_entry_bytes, zlen_enc_from.
  change (zlen [ZIP_END]) with 1. cbn [size]. lia.
Qed.

Lemma bind_seq {A B C D} (x : option A) (f : A -> option B) (g : A -> B -> option C) (h : C -> option D) r :
  (a ← x; b ← f a; g a b) = Some r -> (a ← x; b ← f a; c ← g a b; h c) = h r.
Proof. destruct x as [a|]; [|done]. sbind. destruct (f a) as [b|]; [|done]. sbind. by intros ->. Qed.

(** [__ziplistCascadeUpdate] when the size of an entry has changed, and nothing when
    it has not. *)
Lemma cascade_update cnt A prev e old es p nextdiff :
  p = 10 + zlen A -> fits e.1 prev -> raw e < 2 ^ 32 -> valid_from old es ->
  11 + zlen A + raw e + wide (snd <$> es) < 2 ^ 32 -> (nextdiff = 0 -> old = raw e) ->
  exists es', (if negb (nextdiff =? 0) then __ziplistCascadeUpdate junk (stale cnt A prev e old es) p
               else Some (stale cnt A prev e old es)) = Some (stale cnt A prev e (raw e) es') /\
    snd <$> es' = snd <$> es /\ valid_from (raw e) es'.
Proof.
  intros Hp Hf Hr Hv Hmax Hd. destruct (Z.eqb_spec nextdiff 0) as [Hz|Hz]; cbn [negb].
  { rewrite (Hd Hz) in *. by exists es. }
  pose proof (size_wide es). pose proof (size_nonneg es). pose proof (zlen_nonneg A). pose proof (raw_range e).
  unfold __ziplistCascadeUpdate.
  assert (ZIPLIST_BYTES (stale cnt A prev e old es) = Some (11 + zlen A + size (e :: es))) as ->.
  { unfold stale. apply get_BYTES. cbn [size]. lia. }
  sbind. apply cascade_loop_spec; try done.
  pose proof (zlen_stale cnt A prev e old es) as Hz'. pose proof (length_size es) as Hl.
  cbn [size] in Hz'. unfold zlen at 1 in Hz'. lia.
Qed.

(** ** Insertion *)

(** What [__ziplistInsert] computes of the item: the value, the encoding, the size
    of the data. *)
Definition item (s : list Z) : Z * Z * Z :=
  match zipTryEncoding s with
  | Some (value, encoding) => (value, encoding, zipIntSize encoding)
  | None => (123456789, 0, zlen s)
  end.

Lemma item_size s value enc l :
  item s = (value, enc, l) -> l + zipEncodeLengthSize enc (zlen s) = zlen (code s).
Proof.
  unfold item. destruct (code_spec s) as [(v & e & Ht & Hc & _ & _ & Hok)|[Ht Hc]]; rewrite Ht, Hc; intros [= <- <- <-].
  - rewrite zlen_code_int. unfold zipEncodeLengthSize. destruct (int_ok_enc v e Hok) as [_ ->]. lia.
  - rewrite zlen_app, zlen_length_buf. lia.
Qed.

Lemma write_code a G c p s value enc l :
  item s = (value, enc, l) -> p = zlen a -> zlen G = zlen (code s) ->
  ('(zl, n) ← zipEncodeLength (a ++ G ++ c) p enc (zlen s);
   if ZIP_IS_STR enc then store zl (p + n) s else zipSaveInteger zl (p + n) value enc)
  = Some (a ++ code s ++ c).
Proof.
  unfold item. intros Hi -> HG. unfold zipEncodeLength.
  assert (exists b d, code s = zipEncodeLengthBuf enc (zlen s) ++ d /\ b = zipEncodeLengthBuf enc (zlen s) /\
    forall a' D, zlen D = zlen d ->
      (if ZIP_IS_STR enc then store (a' ++ D ++ c) (zlen a') s else zipSaveInteger (a' ++ D ++ c) (zlen a') value enc)
      = Some (a' ++ d ++ c)) as (b & d & Hcode & Hb & Hw).
  { destruct (code_spec s) as [(v & e & Ht & Hc & _ & _ & Hok)|[Ht Hc]]; rewrite Ht in Hi; injection Hi as <- <- <-.
    - destruct (int_ok_enc v e Hok) as [_ He]. exists [e], (le_enc (isize e) v). unfold zipEncodeLengthBuf.
      rewrite He. split; [done|]. split; [done|]. intros a' D HD. rewrite zlen_le_enc, zipIntSize_nat in HD.
      by apply zipSaveInteger_spec.
    - exists (zipEncodeLengthBuf 0 (zlen s)), s. split; [done|]. split; [done|]. intros a' D HD.
      change (ZIP_IS_STR 0) with true. cbv iota. by apply store_mid. }
  rewrite <- Hb in *. rewrite Hcode in *. rewrite zlen_app in HG. pose proof (zlen_nonneg d).
  pose proof (zlen_nonneg b).
  rewrite <- (take_drop (length b) G), <- app_assoc.
  rewrite store_mid by (rewrite ?zlen_take; zlia). sbind.
  rewrite (app_assoc a b), <- zlen_app. rewrite Hw by (rewrite zlen_drop; zlia). by rewrite <- !app_assoc.
Qed.

Lemma write_entry (k : list Z -> option (list Z)) a G c p prev s value enc l :
  item s = (value, enc, l) -> p = zlen a -> 0 <= prev -> zlen G = raw (negb (prev <? 254), s) ->
  ('(zl, n) ← zipPrevEncodeLength (a ++ G ++ c) p prev;
   let p := p + n in
   '(zl, n) ← zipEncodeLength zl p enc (zlen s);
   let p := p + n in
   zl ← (if ZIP_IS_STR enc then store zl p s else zipSaveInteger zl p value enc);
   k zl)
  = k (a ++ entry_bytes (negb (prev <? 254), s) prev ++ c).
Proof.
  intros Hi Hp Hpv HG. set (w := negb (prev <? 254)) in *. unfold raw in HG. cbn in HG.
  pose proof (psize_range w). pose proof (zlen_nonneg (code s)).
  rewrite <- (take_drop (Z.to_nat (psize w)) G), <- app_assoc.
  rewrite write_prev; [|done|done|rewrite zlen_take, size_of_len; fold w; lia]. sbind. fold w.
  rewrite size_of_len. fold w. rewrite (app_assoc a).
  pose proof (write_code (a ++ prev_enc w prev) (drop (Z.to_nat (psize w)) G) c (p + psize w) s value enc l Hi) as Hw.
  rewrite zlen_app, zlen_prev_enc, zlen_drop in Hw. specialize (Hw ltac:(lia) ltac:(lia)).
  destruct (zipEncodeLength _ (p + psize w) enc (zlen s)) as [[zl n]|]; [|done]. sbind. cbn in Hw.
  rewrite Hw. cbn. unfold entry_bytes. cbn. by rewrite <- !app_assoc.
Qed.

(** A block whose entries from offset [10 + zlen A] on are [es]. *)
Definition block (cnt : Z) (A : list Z) (prev : Z) (es : list entry) : list Z :=
  header (11 + zlen A + size es) (last_off (10 + zlen A) es) cnt ++ A ++ enc_from prev es ++ [ZIP_END].

Lemma block_stale cnt A prev e es : block cnt A prev (e :: es) = stale cnt A prev e (raw e) es.
Proof. unfold block, stale. rewrite enc_from_cons. by rewrite <- app_assoc. Qed.

Lemma block_shift cnt A prev e es :
  block cnt (A ++ entry_bytes e prev) (raw e) es
  = header (11 + zlen A + size (e :: es)) (last_off (10 + zlen A + raw e) es) cnt ++
    A ++ enc_from prev (e :: es) ++ [ZIP_END].
Proof.
  unfold block. rewrite zlen_app, zlen_entry_bytes, enc_from_cons, <- !app_assoc. cbn [size].
  replace (11 + (zlen A + raw e) + size es) with (11 + zlen A + (raw e + size es)) by lia.
  by replace (10 + (zlen A + raw e)) with (10 + zlen A + raw e) by lia.
Qed.

(** The difference in the size of the length of the next entry. *)
Lemma byte_diff a w prev c p len :
  p = zlen a -> fits w prev ->
  zipPrevLenByteDiff (a ++ prev_enc w prev ++ c) p len = Some (psize (negb (len <? 254)) - psize w).
Proof.
  intros Hp Hf. unfold zipPrevLenByteDiff. rewrite decode_prevlensize by done. sbind.
  rewrite size_of_len. pose proof (psize_range (negb (len <? 254))). pose proof (psize_range w).
  rewrite swrap_uwrap by lia. by rewrite s32_small by lia.
Qed.

(** The tail offset after a change of [d] in the size of the first entry, which
    begins at [q]: the code looks whether it is the last one. *)
Lemma tail_next (zl : list Z) t o c x q base e e' es d prev :
  zl = header t o c ++ x -> o = last_off base (e :: es) -> raw e' = raw e + d ->
  (exists a, header t o c ++ x = a ++ enc_from prev es ++ [ZIP_END] /\ zlen a = q + raw e') ->
  valid_from prev es -> 0 <= o < 2 ^ 32 ->
  (c ← getb zl (q + raw e');
   if negb (c =? ZIP_END) then t ← ZIPLIST_TAIL_OFFSET zl; set_TAIL_OFFSET zl (t + d) else Some zl)
  = Some (header t (last_off base (e' :: es)) c ++ x).
Proof.
  intros -> Ho Hr (a & Ha & Hz) Hv Hrange.
  destruct (next_at a prev es (q + raw e') (eq_sym Hz) Hv) as (b & Hb & Hend).
  rewrite <- Ha in Hb. rewrite Hb. sbind. rewrite Hend. rewrite (last_off_shift base d e e' es Hr), <- Ho.
  case_bool_decide; cbn [negb]; [by rewrite Z.add_0_r|]. rewrite get_TAIL by done. sbind. by rewrite set_TAIL_spec.
Qed.

(** The gap in front of the entry [(w2, s2)]: it is moved, and its length before it
    is that of the new entry. *)
Lemma open_gap cnt A prev w2 s2 es p reqlen T nextdiff :
  p = 10 + zlen A -> T = 11 + zlen A + size ((w2, s2) :: es) ->
  valid_from prev ((w2, s2) :: es) -> 2 <= reqlen ->
  let w2' := negb (reqlen <? 254) in
  nextdiff = psize w2' - psize w2 -> 0 <= reqlen + nextdiff ->
  T + reqlen < 2 ^ 32 -> T + reqlen + nextdiff < 2 ^ 32 -> raw (w2', s2) < 2 ^ 32 ->
  exists G, zlen G = reqlen /\
  (zl ← ziplistResize junk (block cnt A prev ((w2, s2) :: es)) (u32 (T + reqlen + nextdiff));
   c ← getb zl p;
   if negb (c =? ZIP_END) then
     zl ← memmove zl (p + reqlen) (p - nextdiff) (T - p - 1 + nextdiff);
     '(zl, _) ← zipPrevEncodeLength zl (p + reqlen) (u32 reqlen);
     t ← ZIPLIST_TAIL_OFFSET zl;
     zl ← set_TAIL_OFFSET zl (t + reqlen);
     tail ← zipEntry zl (p + reqlen);
     c ← getb zl (p + reqlen + headersize tail + len tail);
     (if negb (c =? ZIP_END) then
        t ← ZIPLIST_TAIL_OFFSET zl;
        set_TAIL_OFFSET zl (t + nextdiff)
      else Some zl)
   else set_TAIL_OFFSET zl p)
  = Some (stale cnt (A ++ G) reqlen (w2', s2) (raw (w2, s2)) es).
Proof.
  intros Hp HT Hv Hreq w2' Hd Hpos Hmax Hmax2 Hr2.
  pose proof (zlen_nonneg A). pose proof (size_nonneg es). pose proof (psize_range w2). pose proof (psize_range w2').
  cbn [valid_from fst snd] in Hv. destruct Hv as (Hf & Hr & Hv). cbn [size] in HT. pose proof (raw_range (w2, s2)).
  assert (raw (w2', s2) = raw (w2, s2) + nextdiff) as Hraw by (unfold raw; cbn; lia).
  unfold block. set (O := last_off (10 + zlen A) ((w2, s2) :: es)).
  assert (p <= O < T) as HO.
  { subst O. pose proof (last_off_range ((w2, s2) :: es) (10 + zlen A)) as Hx. cbn [size] in Hx. lia. }
  set (x := code s2 ++ enc_from (raw (w2, s2)) es).
  assert (zlen x = zlen (code s2) + size es) as Hx by (subst x; by rewrite zlen_app, zlen_enc_from).
  assert (raw (w2, s2) = psize w2 + zlen (code s2)) as Hraw2 by done.
  change (enc_from prev ((w2, s2) :: es)) with (prev_enc w2 prev ++ x).
  cbn [size]. replace (11 + zlen A + (raw (w2, s2) + size es)) with T by lia.
  rewrite (u32_small (T + reqlen + nextdiff)), (u32_small reqlen) by lia. rewrite (app_assoc A), <- (Z.add_assoc T).
  destruct (zl_resize_grow T O cnt (A ++ prev_enc w2 prev ++ x) (reqlen + nextdiff)) as (Y & -> & HY & _);
    [lia|rewrite !zlen_app, zlen_prev_enc; lia|]. sbind.
  set (hd1 := header (T + (reqlen + nextdiff)) O cnt). assert (zlen hd1 = 10) as Hh1 by apply zlen_header.
  assert (hd1 ++ (A ++ prev_enc w2 prev ++ x) ++ Y ++ [ZIP_END]
    = (hd1 ++ A) ++ ((prev_enc w2 prev ++ x) ++ Y) ++ [ZIP_END]) as -> by (by rewrite <- !app_assoc).
  assert (p = zlen (hd1 ++ A)) as Hpz by (rewrite zlen_app; lia).
  assert (exists b, getb ((hd1 ++ A) ++ ((prev_enc w2 prev ++ x) ++ Y) ++ [ZIP_END]) p = Some b /\ (b =? ZIP_END) = false)
    as (b & -> & Hb).
  { rewrite <- !app_assoc, (app_assoc hd1). destruct (prev_byte (hd1 ++ A) w2 prev (x ++ Y ++ [ZIP_END]) p Hpz Hf)
      as (b & Hg & Hb & _). by exists b. }
  sbind. rewrite Hb. cbn [negb].
  destruct (move_up (hd1 ++ A) ((prev_enc w2 prev ++ x) ++ Y) x [ZIP_END] (hd1 ++ A ++ prev_enc w2 prev) (Y ++ [ZIP_END])
    (p + reqlen) (p - nextdiff) (T - p - 1 + nextdiff)) as (G & -> & HG).
  { by rewrite <- !app_assoc. }
  { rewrite !zlen_app, zlen_prev_enc, Hh1. lia. }
  { rewrite !zlen_app, zlen_prev_enc, Hh1. lia. }
  { lia. }
  { rewrite !zlen_app, zlen_prev_enc. rewrite zlen_app in Hpz. lia. }
  assert (zlen G = reqlen) as HG' by lia. clear HG. exists G. split; [done|]. sbind.
  set (Q := drop (Z.to_nat (p - nextdiff)) (hd1 ++ A ++ prev_enc w2 prev)).
  assert (zlen Q = psize w2') as HQ by (subst Q; rewrite zlen_drop, !zlen_app, zlen_prev_enc, Hh1; lia).
  rewrite (app_assoc (hd1 ++ A)).
  rewrite write_prev; [|rewrite zlen_app; lia|lia|by rewrite size_of_len]. sbind. fold w2'.
  subst hd1. rewrite <- !app_assoc. rewrite get_TAIL by lia. sbind. rewrite set_TAIL_spec. sbind.
  set (hd2 := header (T + (reqlen + nextdiff)) (O + reqlen) cnt). assert (zlen hd2 = 10) as Hh2 by apply zlen_header.
  assert (hd2 ++ A ++ G ++ prev_enc w2' reqlen ++ x ++ [ZIP_END]
    = (hd2 ++ A ++ G) ++ entry_bytes (w2', s2) reqlen ++ enc_from (raw (w2, s2)) es ++ [ZIP_END]) as Hzl.
  { subst x. unfold entry_bytes. cbn. by rewrite <- !app_assoc. }
  assert (fits w2' reqlen) as Hf2 by (apply fits_exact; lia).
  rewrite Hzl.
  destruct (entry_at (hd2 ++ A ++ G) (w2', s2) reqlen (enc_from (raw (w2, s2)) es ++ [ZIP_END]) (p + reqlen))
    as (z & -> & _ & _ & _ & Hlen & _); [rewrite !zlen_app; lia|done|done|]. sbind.
  rewrite <- Hzl.
  replace (p + reqlen + headersize z + len z) with (p + reqlen + raw (w2', s2)) by lia.
  rewrite (tail_next _ (T + (reqlen + nextdiff)) (O + reqlen) cnt (A ++ G ++ prev_enc w2' reqlen ++ x ++ [ZIP_END])
    (p + reqlen) (p + reqlen) (w2, s2) (w2', s2) es nextdiff (raw (w2, s2))); try done.
  - unfold stale. rewrite zlen_app, HG'. cbn [size].
    replace (11 + (zlen A + reqlen) + (raw (w2', s2) + size es)) with (T + (reqlen + nextdiff)) by lia.
    replace (10 + (zlen A + reqlen)) with (p + reqlen) by lia.
    subst x. unfold entry_bytes. cbn [fst snd]. by rewrite <- !app_assoc.
  - subst O. rewrite <- last_off_base. f_equal. lia.
  - exists ((hd2 ++ A ++ G) ++ entry_bytes (w2', s2) reqlen). split.
    + fold hd2. rewrite Hzl. by rewrite !app_assoc.
    + rewrite !zlen_app, zlen_entry_bytes. lia.
  - lia.
Qed.

Lemma raw_wide w s : raw (w, s) <= 5 + zlen (code s).
Proof. unfold raw. cbn. pose proof (psize_range w). lia. Qed.

(** Insertion in front of an entry. *)
Lemma insert_mid cnt n A prev s e2 es p :
  p = 10 + zlen A -> valid_from prev (e2 :: es) -> cnt_ok cnt n -> 0 <= n ->
  let new := (negb (prev <? 254), s) in
  0 <= raw new + (psize (negb (raw new <? 254)) - psize e2.1) ->
  11 + zlen A + wide (s :: (snd <$> e2 :: es)) < 2 ^ 32 ->
  exists es' cnt', __ziplistInsert junk (block cnt A prev (e2 :: es)) p s = Some (block cnt' A prev (new :: es')) /\
    snd <$> es' = snd <$> e2 :: es /\ valid_from prev (new :: es') /\ cnt_ok cnt' (n + 1).
Proof.
  intros Hp Hv Hcnt Hn new Hpos Hmax. destruct e2 as [w2 s2].
  pose proof Hv as Hv0. cbn [valid_from fst snd] in Hv. destruct Hv as (Hf & Hr & Hv).
  cbn [fmap list_fmap wide snd] in Hmax. cbn [fst] in Hpos.
  pose proof (zlen_nonneg A). pose proof (size_wide es). pose proof (size_nonneg es).
  pose proof (raw_range new). assert (raw new <= 5 + zlen (code s)) by apply raw_wide.
  set (reqlen := raw new) in *. set (w2' := negb (reqlen <? 254)) in *.
  pose proof (raw_wide w2 s2). pose proof (raw_wide w2' s2). pose proof (zlen_nonneg (code s)).
  pose proof (zlen_nonneg (code s2)). pose proof (raw_range (w2, s2)). pose proof (wide_nonneg (snd <$> es)).
  assert (raw (w2', s2) = raw (w2, s2) + (psize w2' - psize w2)) as Hraw by (unfold raw; cbn; lia).
  set (T := 11 + zlen A + size ((w2, s2) :: es)).
  assert (T = 11 + zlen A + (raw (w2, s2) + size es)) as HT by done.
  assert (0 <= prev) as Hprev by apply Hf.
  destruct (item s) as [[value enc] l] eqn:Hitem. pose proof (item_size s value enc l Hitem) as Hl.
  assert (l + zipPrevEncodeLengthSize prev + zipEncodeLengthSize enc (zlen s) = reqlen) as Hreq.
  { subst reqlen new. rewrite size_of_len. unfold raw. cbn. lia. }
  destruct (open_gap cnt A prev w2 s2 es p reqlen T (psize w2' - psize w2)) as (G & HG & Hgap); try done;
    [lia|lia|change (raw (w2', s2) < 2 ^ 32); lia|].
  unfold __ziplistInsert.
  assert (ZIPLIST_BYTES (block cnt A prev ((w2, s2) :: es)) = Some T) as ->.
  { unfold block. apply get_BYTES. fold T. lia. }
  assert (exists b, getb (block cnt A prev ((w2, s2) :: es)) p = Some b /\ (b =? ZIP_END) = false /\
    ZIP_DECODE_PREVLEN (block cnt A prev ((w2, s2) :: es)) p = Some (psize w2, prev) /\
    zipPrevLenByteDiff (block cnt A prev ((w2, s2) :: es)) p reqlen = Some (psize w2' - psize w2))
    as (b & Hb & Hend & Hdec & Hdiff).
  { unfold block. fold T. rewrite enc_from_cons. unfold entry_bytes. cbn [fst snd].
    rewrite <- !app_assoc, (app_assoc (header _ _ _)).
    assert (p = zlen (header T (last_off (10 + zlen A) ((w2, s2) :: es)) cnt ++ A)) as Hpz
      by (rewrite zlen_app, zlen_header; lia).
    destruct (prev_byte _ w2 prev (code s2 ++ enc_from (raw (w2, s2)) es ++ [ZIP_END]) p Hpz Hf)
      as (b & Hb & Hend & _).
    exists b. rewrite decode_prevlen, byte_diff by done. done. }
  sbind. unfold insert_prevlen. rewrite Hb. sbind. rewrite Hend. cbn [negb]. rewrite Hdec. sbind.
  fold (item s). rewrite Hitem, Hreq. rewrite (u32_small reqlen) by lia. rewrite Hdiff. sbind.
  rewrite (u32_small reqlen) in Hgap by lia.
  rewrite (bind_seq _ _ _ _ _ Hgap). cbv beta. fold w2'.
  destruct (cascade_update cnt (A ++ G) reqlen (w2', s2) (raw (w2, s2)) es (p + reqlen) (psize w2' - psize w2))
    as (es' & -> & Hitems & Hv').
  { rewrite zlen_app. lia. }
  { cbn. apply fits_exact. lia. }
  { lia. }
  { done. }
  { rewrite zlen_app. lia. }
  { intros Hd. lia. }
  sbind.
  set (c := entry_bytes (w2', s2) reqlen ++ enc_from (raw (w2', s2)) es' ++ [ZIP_END]).
  set (hd := header (11 + zlen (A ++ G) + size ((w2', s2) :: es')) (last_off (10 + zlen (A ++ G)) ((w2', s2) :: es')) cnt).
  assert (stale cnt (A ++ G) reqlen (w2', s2) (raw (w2', s2)) es' = (hd ++ A) ++ G ++ c) as ->.
  { subst c hd. unfold stale. by rewrite <- !app_assoc. }
  rewrite (write_entry (fun zl => ZIPLIST_INCR_LENGTH zl 1) (hd ++ A) G c p prev s value enc l);
    [|done|subst hd; rewrite zlen_app, zlen_header; lia|done|done].
  fold new. subst hd. rewrite <- app_assoc.
  destruct (INCR_LENGTH_spec (11 + zlen (A ++ G) + size ((w2', s2) :: es'))
    (last_off (10 + zlen (A ++ G)) ((w2', s2) :: es')) cnt (A ++ entry_bytes new prev ++ c) n 1)
    as (cnt' & -> & Hcnt'); [done|done|lia|].
  exists ((w2', s2) :: es'), cnt'. split; [|split; [|split; [|done]]].
  - f_equal. unfold block. rewrite enc_from_cons, last_off_cons, zlen_app, HG.
    assert (11 + (zlen A + reqlen) + size ((w2', s2) :: es') = 11 + zlen A + size (new :: (w2', s2) :: es')) as ->
      by (cbn [size]; lia).
    assert (10 + (zlen A + reqlen) = 10 + zlen A + raw new) as -> by lia.
    subst c. rewrite enc_from_cons, <- !app_assoc. done.
  - cbn. by rewrite Hitems.
  - cbn [valid_from fst snd]. split; [by apply fits_exact; destruct Hf|]. split; [lia|].
    split; [apply fits_exact; lia|]. split; [lia|done].
Qed.

Lemma zl_ok_block zl a e b :
  zl_ok zl (a ++ e :: b) <->
  exists cnt, zl = block cnt (enc_from 0 a) (last_raw 0 a) (e :: b) /\
    valid_from 0 (a ++ e :: b) /\ 11 + size (a ++ e :: b) < 2 ^ 32 /\ cnt_ok cnt (zlen (a ++ e :: b)).
Proof.
  unfold zl_ok, block. rewrite last_off_app, size_app, enc_from_app, zlen_enc_from, Z.add_assoc.
  split; intros (cnt & Hzl & Hrest); exists cnt; (split; [|done]); rewrite Hzl; by rewrite <- !app_assoc.
Qed.

Lemma zlen_block cnt A prev es : zlen (block cnt A prev es) = 11 + zlen A + size es.
Proof.
  unfold block. rewrite !zlen_app, zlen_header, zlen_enc_from. change (zlen [ZIP_END]) with 1. lia.
Qed.

Lemma last_raw_range a : valid_from 0 a -> 0 <= last_raw 0 a < 2 ^ 32.
Proof.
  destruct a as [|e a _] using rev_ind; [done|]. intros [_ Hv]%valid_from_app.
  unfold last_raw. rewrite last_snoc. cbn [valid_from] in Hv. destruct Hv as (_ & Hr & _).
  pose proof (raw_range e). lia.
Qed.

(** The last entry of a block. *)
Lemma tail_at zl es :
  zl_ok zl es ->
  ZIPLIST_ENTRY_TAIL zl = Some (last_off 10 es) /\
  exists b, getb zl (last_off 10 es) = Some b /\ (b =? ZIP_END) = bool_decide (es = []) /\
    (es <> [] -> zipRawEntryLength zl (last_off 10 es) = Some (last_raw 0 es)).
Proof.
  intros (cnt & -> & Hv & Hmax & _). pose proof (last_off_range es 10). pose proof (size_nonneg es).
  split; [by apply get_TAIL; lia|].
  destruct es as [|e a _] using rev_ind.
  - exists ZIP_END. split; [|done]. cbn [enc_from app]. by apply end_at.
  - rewrite last_off_last, enc_from_app. cbn [enc_from]. rewrite app_nil_r.
    apply valid_from_app in Hv as [Hva Hv]. cbn [valid_from] in Hv. destruct Hv as (Hf & Hr & _).
    set (hd := header _ _ _).
    assert (10 + size a = zlen (hd ++ enc_from 0 a)) as Hz by (subst hd; rewrite zlen_app, zlen_header, zlen_enc_from; done).
    assert (hd ++ (enc_from 0 a ++ prev_enc e.1 (last_raw 0 a) ++ code e.2) ++ [ZIP_END]
      = (hd ++ enc_from 0 a) ++ entry_bytes e (last_raw 0 a) ++ [ZIP_END]) as ->.
    { unfold entry_bytes. by rewrite <- !app_assoc. }
    rewrite (raw_at _ e (last_raw 0 a) [ZIP_END] _ Hz Hf Hr).
    assert ((hd ++ enc_from 0 a) ++ entry_bytes e (last_raw 0 a) ++ [ZIP_END]
      = (hd ++ enc_from 0 a) ++ prev_enc e.1 (last_raw 0 a) ++ code e.2 ++ [ZIP_END]) as ->.
    { unfold entry_bytes. by rewrite <- (app_assoc (prev_enc _ _)). }
    destruct (prev_byte (hd ++ enc_from 0 a) e.1 (last_raw 0 a) (code e.2 ++ [ZIP_END]) _ Hz Hf) as (b & -> & Hb & _).
    exists b. split; [done|]. split; [rewrite Hb; by destruct a|]. intros _. unfold last_raw. by rewrite last_snoc.
Qed.

(** Insertion after the last entry. *)
Lemma insert_end zl es s :
  zl_ok zl es -> 11 + size es + wide [s] < 2 ^ 32 ->
  exists zl', __ziplistInsert junk zl (10 + size es) s = Some zl' /\
    zl_ok zl' (es ++ [(negb (last_raw 0 es <? 254), s)]).
Proof.
  intros Hok Hmax. destruct (tail_at zl es Hok) as (Htail & b & Hb & Hbe & Hraw).
  destruct Hok as (cnt & -> & Hv & Hsz & Hcnt). pose proof (size_nonneg es). pose proof (last_raw_range es Hv) as Hprev.
  set (prev := last_raw 0 es) in *. set (new := (negb (prev <? 254), s)).
  cbn [wide] in Hmax. pose proof (raw_range new). assert (raw new <= 5 + zlen (code s)) by apply raw_wide.
  set (T := 11 + size es) in *. set (O := last_off 10 es) in *.
  destruct (item s) as [[value enc] l] eqn:Hitem. pose proof (item_size s value enc l Hitem) as Hl.
  assert (l + zipPrevEncodeLengthSize prev + zipEncodeLengthSize enc (zlen s) = raw new) as Hreq.
  { subst new. rewrite size_of_len. unfold raw. cbn. lia. }
  unfold __ziplistInsert. rewrite get_BYTES by lia. sbind.
  assert (forall Y, getb (header T O cnt ++ enc_from 0 es ++ ZIP_END :: Y) (10 + size es) = Some ZIP_END) as Hend.
  { intros Y. rewrite app_assoc. apply end_at. by rewrite zlen_app, zlen_header, zlen_enc_from. }
  unfold insert_prevlen. rewrite Hend. sbind. change (negb (ZIP_END =? ZIP_END)) with false. cbv iota.
  rewrite Htail. sbind. rewrite Hb. sbind. rewrite Hbe.
  assert ((if negb (bool_decide (es = [])) then zipRawEntryLength (header T O cnt ++ enc_from 0 es ++ [ZIP_END]) O
           else Some 0) = Some prev) as ->.
  { case_bool_decide as He; cbn [negb]; [|by apply Hraw]. subst prev. by rewrite He. }
  sbind. fold (item s). rewrite Hitem, Hreq. sbind.
  rewrite (Z.add_0_r (T + raw new)), (u32_small (T + raw new)) by lia.
  destruct (zl_resize_grow T O cnt (enc_from 0 es) (raw new)) as (Y & -> & HY & HY'); [lia|rewrite zlen_enc_from; lia|].
  destruct HY' as [Y' ->]; [lia|]. sbind. cbn [app].
  assert (getb (header (T + raw new) O cnt ++ enc_from 0 es ++ ZIP_END :: Y' ++ [ZIP_END]) (10 + size es) = Some ZIP_END) as ->.
  { rewrite app_assoc. apply end_at. by rewrite zlen_app, zlen_header, zlen_enc_from. }
  sbind. change (negb (ZIP_END =? ZIP_END)) with false. change (negb (0 =? 0)) with false. cbv iota.
  rewrite set_TAIL_spec. sbind.
  set (hd := header (T + raw new) (10 + size es) cnt).
  assert (hd ++ enc_from 0 es ++ ZIP_END :: Y' ++ [ZIP_END] = (hd ++ enc_from 0 es) ++ (ZIP_END :: Y') ++ [ZIP_END]) as ->
    by (by rewrite <- app_assoc).
  rewrite (write_entry (fun zl => ZIPLIST_INCR_LENGTH zl 1) (hd ++ enc_from 0 es) (ZIP_END :: Y') [ZIP_END]
    (10 + size es) prev s value enc l);
    [|done|subst hd; by rewrite zlen_app, zlen_header, zlen_enc_from|lia|done].
  fold new. subst hd. rewrite <- app_assoc. pose proof (zlen_nonneg es).
  destruct (INCR_LENGTH_spec (T + raw new) (10 + size es) cnt (enc_from 0 es ++ entry_bytes new prev ++ [ZIP_END]) (zlen es) 1)
    as (cnt' & -> & Hcnt'); [done|done|lia|].
  eexists. split; [done|]. exists cnt'. rewrite last_off_last, size_app, enc_from_app. cbn [size].
  rewrite Z.add_0_r, enc_from_cons. cbn [enc_from]. rewrite app_nil_r, <- app_assoc, Z.add_assoc. fold T prev.
  split; [done|]. split; [|split; [lia|by rewrite zlen_app]].
  apply valid_from_app. split; [done|]. cbn [valid_from]. fold prev. split; [by apply fits_exact|]. split; [lia|done].
Qed.

(** The size that an insertion needs, when it does not shrink the block. *)
Definition no_shrink (prev : Z) (s : list Z) (es : list entry) : Prop :=
  match es with
  | [] => True
  | e :: _ => let reqlen := raw (negb (prev <? 254), s) in
      0 <= reqlen + (psize (negb (reqlen <? 254)) - psize e.1)
  end.

Lemma insert_spec zl a b s :
  zl_ok zl (a ++ b) -> no_shrink (last_raw 0 a) s b -> 11 + wide (snd <$> a ++ b) + wide [s] < 2 ^ 32 ->
  exists zl' b', __ziplistInsert junk zl (10 + size a) s = Some zl' /\
    zl_ok zl' (a ++ (negb (last_raw 0 a <? 254), s) :: b') /\ snd <$> b' = snd <$> b.
Proof.
  intros Hok Hns Hmax. pose proof (size_wide (a ++ b)) as Hsw. pose proof (wide_nonneg (snd <$> b)).
  destruct b as [|e b].
  - rewrite app_nil_r in *. destruct (insert_end zl a s Hok) as (zl' & Hins & Hok'); [lia|].
    exists zl', []. by split_and!.
  - apply zl_ok_block in Hok as (cnt & -> & Hv & Hsz & Hcnt).
    pose proof (proj1 (valid_from_app a 0 (e :: b)) Hv) as [Hva Hvb].
    rewrite fmap_app, wide_app in Hmax. pose proof (size_wide a).
    destruct (insert_mid cnt (zlen (a ++ e :: b)) (enc_from 0 a) (last_raw 0 a) s e b (10 + size a))
      as (es' & cnt' & -> & Hit & Hv' & Hcnt').
    { by rewrite zlen_enc_from. }
    { done. }
    { done. }
    { apply zlen_nonneg. }
    { exact Hns. }
    { rewrite zlen_enc_from. cbn [wide] in *. lia. }
    eexists _, es'. split; [done|]. split; [|done]. apply zl_ok_block. exists cnt'. split; [done|].
    assert (wide (snd <$> es') = wide (snd <$> e :: b)) as Hw by (by rewrite Hit).
    split; [by apply valid_from_app|]. rewrite size_app. cbn [size]. pose proof (size_wide es').
    pose proof (raw_wide (negb (last_raw 0 a <? 254)) s). cbn [wide] in Hmax. split; [lia|].
    apply (f_equal zlen) in Hit. rewrite !zlen_fmap in Hit.
    replace (zlen (a ++ (negb (last_raw 0 a <? 254), s) :: es')) with (zlen (a ++ e :: b) + 1); [done|].
    rewrite !zlen_app, !zlen_cons in *. lia.
Qed.

(** ** Deletion *)

Lemma skip_entries_spec mid : forall num h prev b p deleted,
  p = zlen h -> valid_from prev (mid ++ b) ->
  length mid = num \/ (length mid <= num)%nat /\ b = [] ->
  0 <= deleted -> deleted + zlen mid < 2 ^ 32 ->
  skip_entries num (h ++ enc_from prev (mid ++ b) ++ [ZIP_END]) p deleted
  = Some (p + size mid, deleted + zlen mid).
Proof.
  induction mid as [|e mid IH]; intros num h prev b p deleted Hp Hv Hnum Hd Hmax;
    destruct (next_at h prev _ p Hp Hv) as (c & Hc & Hend).
  - cbn [app size] in *. rewrite Z.add_0_r. change (zlen []) with 0. rewrite Z.add_0_r.
    destruct num; cbn [skip_entries]; rewrite Hc; sbind; rewrite Hend; [by case_bool_decide|].
    destruct Hnum as [?|[_ ->]]; [done|]. by rewrite bool_decide_eq_true_2.
  - destruct num as [|num]; [cbn [length] in Hnum; lia|]. cbn [skip_entries]. rewrite Hc. sbind.
    rewrite Hend, bool_decide_eq_false_2 by done. cbn [app valid_from] in *.
    destruct Hv as (Hf & Hr & Hv). rewrite zlen_cons in *. pose proof (zlen_nonneg mid).
    rewrite enc_from_cons, <- app_assoc, raw_at by done. sbind. rewrite u32_small by lia.
    rewrite (app_assoc h), (IH num (h ++ entry_bytes e prev) (raw e) b); [|rewrite zlen_app, zlen_entry_bytes; lia|done| |lia|lia].
    + cbn [size]. do 2 f_equal; lia.
    + cbn [length] in Hnum. destruct Hnum as [?|[? ?]]; [left|right]; lia || (split; [lia|done]).
Qed.

(** The last entry is where the entry before the end says. *)
Lemma tail_before a : 10 + size a - last_raw 0 a = last_off 10 a.
Proof.
  destruct a as [|e a _] using rev_ind; [done|]. unfold last_raw. rewrite last_snoc, last_off_last, size_app.
  cbn [size]. lia.
Qed.

(** The part of [__ziplistDelete] that closes the gap left by the bytes [M] in
    front of the entry [(w2, s2)]. *)
Lemma close_gap cnt A M prev old w2 s2 es p nextdiff :
  let w2' := negb (prev <? 254) in
  let T := 11 + zlen A + zlen M + size ((w2, s2) :: es) in
  let zl := header T (last_off (10 + zlen A + zlen M) ((w2, s2) :: es)) cnt ++ A ++ M ++
            enc_from old ((w2, s2) :: es) ++ [ZIP_END] in
  p = 10 + zlen A -> nextdiff = psize w2' - psize w2 -> nextdiff <= zlen M -> 0 < zlen M ->
  0 <= prev < 2 ^ 32 -> fits w2 old -> valid_from (raw (w2, s2)) es -> T < 2 ^ 32 -> T + nextdiff < 2 ^ 32 ->
  raw (w2', s2) < 2 ^ 32 ->
  ('(zl, nextdiff) ← (
     nextdiff ← zipPrevLenByteDiff zl (p + zlen M) prev;
     let q := p + zlen M - nextdiff in
     '(zl, _) ← zipPrevEncodeLength zl q prev;
     t ← ZIPLIST_TAIL_OFFSET zl;
     zl ← set_TAIL_OFFSET zl (t - zlen M);
     tail ← zipEntry zl q;
     c ← getb zl (q + (headersize tail + len tail));
     zl ← (if negb (c =? ZIP_END) then
             t ← ZIPLIST_TAIL_OFFSET zl;
             set_TAIL_OFFSET zl (t + nextdiff)
           else Some zl);
     bytes ← ZIPLIST_BYTES zl;
     zl ← memmove zl p q (bytes - q - 1);
     Some (zl, nextdiff));
   bytes ← ZIPLIST_BYTES zl;
   zl ← ziplistResize junk zl (u32 (bytes - zlen M + nextdiff));
   Some (zl, nextdiff))
  = Some (stale cnt A prev (w2', s2) (raw (w2, s2)) es, nextdiff).
Proof.
  intros w2' T zl Hp Hd HM HM0 Hprev Hf Hv HT HT' Hr2.
  pose proof (zlen_nonneg A). pose proof (size_nonneg es). pose proof (psize_range w2). pose proof (psize_range w2').
  pose proof (raw_range (w2, s2)). assert (T = 11 + zlen A + zlen M + (raw (w2, s2) + size es)) as HT2 by done.
  assert (raw (w2', s2) = raw (w2, s2) + nextdiff) as Hraw by (unfold raw; cbn; lia).
  assert (raw (w2', s2) = psize w2' + zlen (code s2)) as Hraw2 by done.
  set (O := last_off (10 + zlen A + zlen M) ((w2, s2) :: es)) in *.
  assert (p + zlen M <= O < T) as HO.
  { subst O. pose proof (last_off_range ((w2, s2) :: es) (10 + zlen A + zlen M)) as Hx. cbn [size] in Hx. lia. }
  set (x := code s2 ++ enc_from (raw (w2, s2)) es).
  assert (zlen x = zlen (code s2) + size es) as Hx by (subst x; by rewrite zlen_app, zlen_enc_from).
  set (U := M ++ prev_enc w2 old).
  assert (zlen U = zlen M + psize w2) as HU by (subst U; by rewrite zlen_app, zlen_prev_enc).
  set (k := zlen M - nextdiff).
  assert (zlen (take (Z.to_nat k) U) = k) as Hk by (rewrite zlen_take; lia).
  set (hd := header T O cnt) in *. assert (zlen hd = 10) as Hh by apply zlen_header.
  assert (zipPrevLenByteDiff zl (p + zlen M) prev = Some nextdiff) as ->.
  { assert (zl = (hd ++ A ++ M) ++ prev_enc w2 old ++ x ++ [ZIP_END]) as ->
      by (subst zl x; cbn [enc_from fst snd]; by rewrite <- !app_assoc).
    rewrite byte_diff by (try done; rewrite !zlen_app; lia). by rewrite Hd. }
  sbind.
  assert (zl = (hd ++ A ++ take (Z.to_nat k) U) ++ drop (Z.to_nat k) U ++ x ++ [ZIP_END]) as ->.
  { subst zl x U. cbn [enc_from fst snd]. rewrite <- !app_assoc. do 2 f_equal.
    by rewrite (app_assoc (take _ _)), take_drop, <- app_assoc. }
  assert (p + zlen M - nextdiff = zlen (hd ++ A ++ take (Z.to_nat k) U)) as Hq by (rewrite !zlen_app, Hk; lia).
  rewrite write_prev; [|done|lia|rewrite zlen_drop, size_of_len; fold w2'; lia]. fold w2'. sbind.
  subst hd. rewrite <- !app_assoc, get_TAIL by lia. sbind. rewrite set_TAIL_spec. sbind.
  set (G := take (Z.to_nat k) U) in *. clearbody G.
  set (hd := header T (O - zlen M) cnt) in *. assert (zlen hd = 10) as Hh2 by apply zlen_header.
  assert (hd ++ A ++ G ++ prev_enc w2' prev ++ x ++ [ZIP_END]
    = (hd ++ A ++ G) ++ entry_bytes (w2', s2) prev ++ enc_from (raw (w2, s2)) es ++ [ZIP_END]) as Hzl.
  { subst x. unfold entry_bytes. cbn. by rewrite <- !app_assoc. }
  assert (fits w2' prev) as Hf2 by (by apply fits_exact).
  destruct (entry_at (hd ++ A ++ G) (w2', s2) prev (enc_from (raw (w2, s2)) es ++ [ZIP_END]) (p + zlen M - nextdiff))
    as (z & Hz & _ & _ & _ & Hlen & _); [rewrite !zlen_app in *; lia|done|done|].
  rewrite Hzl at 1. rewrite Hz. sbind. rewrite Hlen, bind_assoc_opt.
  rewrite (tail_next _ T (O - zlen M) cnt (A ++ G ++ prev_enc w2' prev ++ x ++ [ZIP_END])
    (p + zlen M - nextdiff) (10 + zlen A) (w2, s2) (w2', s2) es nextdiff (raw (w2, s2))); try done.
  - sbind. rewrite get_BYTES by lia. sbind.
    set (hd3 := header T _ cnt). assert (zlen hd3 = 10) as Hh3 by apply zlen_header.
    destruct (move_down (hd3 ++ A) G (prev_enc w2' prev ++ x) [ZIP_END] p (p + zlen M - nextdiff) (T - (p + zlen M - nextdiff) - 1))
      as (m & Hm & Hmz); [rewrite zlen_app; lia|rewrite zlen_app; lia|rewrite zlen_app, zlen_prev_enc; lia|].
    rewrite <- !app_assoc in Hm. rewrite Hm. sbind. subst hd3. rewrite get_BYTES by lia. sbind.
    rewrite u32_small by lia.
    assert (A ++ prev_enc w2' prev ++ x ++ m ++ [ZIP_END] = (A ++ prev_enc w2' prev ++ x) ++ m ++ [ZIP_END]) as ->
      by (by rewrite <- !app_assoc).
    rewrite resize_cut; [|by destruct m|rewrite !zlen_app, zlen_prev_enc; lia]. sbind.
    do 2 f_equal. unfold stale. cbn [size].
    replace (T - zlen M + nextdiff) with (11 + zlen A + (raw (w2', s2) + size es)) by lia.
    f_equal. subst x. unfold entry_bytes. cbn [fst snd]. by rewrite <- !app_assoc.
  - subst O. rewrite last_off_base. lia.
  - exists ((hd ++ A ++ G) ++ entry_bytes (w2', s2) prev). split.
    + fold hd. rewrite Hzl. by rewrite !app_assoc.
    + rewrite !zlen_app in *. rewrite zlen_entry_bytes. lia.
  - lia.
Qed.

Lemma bind_seq2 {A B C D} (x : option (A * B)) (f : A -> option C) (g : A -> B -> C -> option A)
    (h : A -> B -> option D) a b :
  ('(zl, n) ← x; c ← f zl; zl ← g zl n c; Some (zl, n)) = Some (a, b) ->
  ('(zl, n) ← x; c ← f zl; zl ← g zl n c; h zl n) = h a b.
Proof.
  destruct x as [[zl n]|]; [|done]. sbind. destruct (f zl) as [c|]; [|done]. sbind.
  destruct (g zl n c); [|done]. sbind. by intros [= -> ->].
Qed.

(** The length before the first entry takes as many bytes as it needs. *)
Definition exact (prev : Z) (es : list entry) : Prop :=
  match es with [] => True | e :: _ => e.1 = negb (prev <? 254) end.

(** Deletion in front of an entry. *)
Lemma delete_mid cnt a f mid w2 s2 es num :
  let l := a ++ (f :: mid) ++ (w2, s2) :: es in
  num = S (length mid) -> valid_from 0 l -> 11 + wide (snd <$> l) < 2 ^ 32 -> cnt_ok cnt (zlen l) ->
  exists es' cnt', __ziplistDelete junk (block cnt (enc_from 0 a) (last_raw 0 a) ((f :: mid) ++ (w2, s2) :: es))
      (10 + size a) num = Some (block cnt' (enc_from 0 a) (last_raw 0 a) es') /\
    snd <$> es' = snd <$> (w2, s2) :: es /\ exact (last_raw 0 a) es' /\ valid_from (last_raw 0 a) es' /\
    cnt_ok cnt' (zlen l - zlen (f :: mid)).
Proof.
  intros l Hnum Hv Hmax Hcnt. subst l num.
  apply valid_from_app in Hv as [Hva Hv]. pose proof (last_raw_range a Hva) as Hprev.
  pose proof Hv as Hvm. apply valid_from_app in Hv as [Hvf Hve].
  cbn [valid_from fst snd] in Hve. destruct Hve as (Hf2 & Hr2 & Hve).
  pose proof (size_wide (a ++ (f :: mid) ++ (w2, s2) :: es)) as Hsw.
  rewrite !size_app in Hsw. rewrite !fmap_app, !wide_app in Hmax, Hsw. rewrite !zlen_app in *.
  set (prev := last_raw 0 a) in *. set (A := enc_from 0 a). set (old := last_raw prev (f :: mid)) in *.
  assert (zlen A = size a) as HA by apply zlen_enc_from. rewrite <- HA in *. clearbody A.
  pose proof (size_nonneg es). pose proof (size_nonneg mid). pose proof (raw_range f).
  pose proof (size_nonneg a). pose proof (size_wide a). pose proof (size_wide (f :: mid)).
  pose proof (size_wide es). pose proof (wide_nonneg (snd <$> es)). pose proof (length_size (f :: mid)).
  set (w2' := negb (prev <? 254)). set (nextdiff := psize w2' - psize w2).
  pose proof (psize_range w2). pose proof (psize_range w2').
  pose proof (raw_wide w2 s2). pose proof (raw_wide w2' s2). pose proof (zlen_nonneg (code s2)).
  change (wide (snd <$> (w2, s2) :: es)) with (5 + zlen (code s2) + wide (snd <$> es)) in *.
  change (size ((w2, s2) :: es)) with (raw (w2, s2) + size es) in *.
  set (M := enc_from prev (f :: mid)).
  assert (zlen M = size (f :: mid)) as HM by apply zlen_enc_from.
  assert (nextdiff <= size (f :: mid)) as Hnd.
  { cbn [size]. cbn [valid_from] in Hvf. destruct Hvf as ([_ Hff] & _). unfold raw at 1. subst nextdiff w2'.
    pose proof (zlen_nonneg (code f.2)). pose proof (psize_range f.1). destruct (Z.ltb_spec prev 254); cbn [negb psize] in *; [lia|].
    destruct (f.1); [cbn; lia|]. specialize (Hff eq_refl). lia. }
  unfold block, __ziplistDelete.
  set (zl := header _ _ _ ++ _).
  assert (zl = header (11 + zlen A + zlen M + size ((w2, s2) :: es)) (last_off (10 + zlen A + zlen M) ((w2, s2) :: es)) cnt ++
    A ++ M ++ enc_from old ((w2, s2) :: es) ++ [ZIP_END]) as Hzl.
  { subst zl. rewrite size_app, last_off_app, enc_from_app, HM, <- !app_assoc, Z.add_assoc. done. }
  destruct (entry_at (header (11 + zlen A + size ((f :: mid) ++ (w2, s2) :: es))
      (last_off (10 + zlen A) ((f :: mid) ++ (w2, s2) :: es)) cnt ++ A) f prev
      (enc_from (raw f) (mid ++ (w2, s2) :: es) ++ [ZIP_END]) (10 + zlen A))
    as (first & Hfirst & _ & Hprl & Hzp & _); [by rewrite zlen_app, zlen_header|by apply Hvf|by apply Hvf|].
  assert (zipEntry zl (10 + zlen A) = Some first) as ->.
  { rewrite <- Hfirst. f_equal. subst zl. cbn [app]. by rewrite enc_from_cons, <- !app_assoc. }
  sbind.
  assert (skip_entries (S (length mid)) zl (10 + zlen A) 0 = Some (10 + zlen A + zlen M, zlen (f :: mid))) as ->.
  { subst zl. rewrite app_assoc, HM.
    rewrite (skip_entries_spec (f :: mid) (S (length mid)) _ prev); try done.
    - by rewrite zlen_app, zlen_header.
    - by left.
    - unfold zlen at 1. cbn [size] in *. lia. }
  sbind. rewrite Hzp, Hprl. replace (10 + zlen A + zlen M - (10 + zlen A)) with (zlen M) by lia.
  rewrite HM. rewrite u32_small by (cbn [size] in *; lia).
  rewrite Z.gtb_ltb, (proj2 (Z.ltb_lt 0 _)) by (cbn [size]; lia). rewrite <- HM.
  destruct (next_at (header (11 + zlen A + zlen M + size ((w2, s2) :: es)) (last_off (10 + zlen A + zlen M) ((w2, s2) :: es)) cnt ++ A ++ M)
    old ((w2, s2) :: es) (10 + zlen A + zlen M)) as (c & Hc & Hend);
    [rewrite !zlen_app, zlen_header; lia|done|].
  rewrite <- !app_assoc, <- Hzl in Hc. rewrite Hc. sbind. rewrite Hend, bool_decide_eq_false_2 by done. cbn [negb].
  assert (raw (w2', s2) = raw (w2, s2) + nextdiff) as Hraw by (unfold raw; cbn; lia).
  pose proof (close_gap cnt A M prev old w2 s2 es (10 + zlen A) nextdiff) as Hgap. cbv zeta in Hgap.
  fold w2' in Hgap. rewrite <- Hzl in Hgap.
  rewrite (bind_seq2 _ _ _ _ _ _ (Hgap eq_refl eq_refl ltac:(lia) ltac:(cbn [size] in *; lia) Hprev Hf2 Hve
    ltac:(cbn [size] in *; lia) ltac:(cbn [size] in *; lia) ltac:(lia))).
  unfold stale. destruct (INCR_LENGTH_spec (11 + zlen A + size ((w2', s2) :: es)) (last_off (10 + zlen A) ((w2', s2) :: es)) cnt
    (A ++ entry_bytes (w2', s2) prev ++ enc_from (raw (w2, s2)) es ++ [ZIP_END])
    _ (- zlen (f :: mid)) Hcnt) as (cnt' & -> & Hcnt').
  { pose proof (zlen_nonneg a). pose proof (zlen_nonneg (f :: mid)). pose proof (zlen_nonneg ((w2, s2) :: es)). lia. }
  { pose proof (zlen_nonneg a). pose proof (zlen_nonneg (f :: mid)). pose proof (zlen_nonneg ((w2, s2) :: es)). lia. }
  sbind. fold (stale cnt' A prev (w2', s2) (raw (w2, s2)) es).
  destruct (cascade_update cnt' A prev (w2', s2) (raw (w2, s2)) es (10 + zlen A) nextdiff) as (es' & Hcas & Hit & Hv').
  { done. }
  { by apply fits_exact. }
  { lia. }
  { done. }
  { cbn [size] in *. lia. }
  { intros Hz. unfold raw. cbn. lia. }
  exists ((w2', s2) :: es'), cnt'. split; [|split; [by cbn; rewrite Hit|split; [done|split; [|done]]]].
  - rewrite Hcas. f_equal. by rewrite <- block_stale.
  - cbn [valid_from fst snd]. split; [by apply fits_exact|]. split; [lia|done].
Qed.

(** Deletion of the last entries. *)
Lemma delete_end cnt a f mid num :
  let l := a ++ f :: mid in
  (length (f :: mid) <= num)%nat -> valid_from 0 l -> 11 + size l < 2 ^ 32 -> cnt_ok cnt (zlen l) ->
  exists cnt', __ziplistDelete junk (block cnt (enc_from 0 a) (last_raw 0 a) (f :: mid)) (10 + size a) num
    = Some (header (11 + size a) (last_off 10 a) cnt' ++ enc_from 0 a ++ [ZIP_END]) /\ cnt_ok cnt' (zlen a).
Proof.
  intros l Hnum Hv Hmax Hcnt. subst l. apply valid_from_app in Hv as [Hva Hv].
  pose proof (last_raw_range a Hva) as Hprev. rewrite size_app, zlen_app in *. rewrite <- tail_before.
  set (prev := last_raw 0 a) in *. set (A := enc_from 0 a).
  assert (zlen A = size a) as HA by apply zlen_enc_from. rewrite <- HA in *. clearbody A.
  pose proof (zlen_nonneg A). pose proof (size_nonneg mid). pose proof (raw_range f).
  pose proof (length_size (f :: mid)). pose proof (zlen_nonneg a). pose proof (zlen_nonneg (f :: mid)).
  unfold __ziplistDelete, block. set (hd := header _ _ cnt). assert (zlen hd = 10) as Hh by apply zlen_header.
  set (M := enc_from prev (f :: mid)). assert (zlen M = size (f :: mid)) as HM by apply zlen_enc_from.
  destruct (entry_at (hd ++ A) f prev (enc_from (raw f) mid ++ [ZIP_END]) (10 + zlen A))
    as (first & Hfirst & _ & Hprl & Hzp & _); [rewrite zlen_app; lia|by apply Hv|by apply Hv|].
  assert (zipEntry (hd ++ A ++ M ++ [ZIP_END]) (10 + zlen A) = Some first) as ->.
  { rewrite <- Hfirst. f_equal. subst M. by rewrite enc_from_cons, <- !app_assoc. }
  sbind.
  assert (skip_entries num (hd ++ A ++ M ++ [ZIP_END]) (10 + zlen A) 0
    = Some (10 + zlen A + zlen M, zlen (f :: mid))) as ->.
  { rewrite app_assoc, HM. pose proof (skip_entries_spec (f :: mid) num (hd ++ A) prev [] (10 + zlen A) 0) as Hs.
    rewrite app_nil_r in Hs. apply Hs; [rewrite zlen_app; lia|done|by right|done|unfold zlen at 1; cbn [size] in *; lia]. }
  sbind. rewrite Hzp, Hprl. replace (10 + zlen A + zlen M - (10 + zlen A)) with (zlen M) by lia.
  rewrite u32_small by (cbn [size] in *; lia).
  rewrite Z.gtb_ltb, (proj2 (Z.ltb_lt 0 _)) by (cbn [size] in *; lia).
  assert (getb (hd ++ A ++ M ++ [ZIP_END]) (10 + zlen A + zlen M) = Some ZIP_END) as ->.
  { rewrite !app_assoc. apply end_at. rewrite !zlen_app. lia. }
  sbind. change (negb (ZIP_END =? ZIP_END)) with false. cbv iota. subst hd. rewrite set_TAIL_spec. sbind.
  rewrite get_BYTES by lia. sbind. rewrite u32_small by lia.
  rewrite resize_cut; [|by destruct M|lia]. sbind.
  destruct (INCR_LENGTH_spec (11 + zlen A + size (f :: mid) - zlen M + 0) (10 + zlen A - prev) cnt (A ++ [ZIP_END])
    _ (- zlen (f :: mid)) Hcnt) as (cnt' & -> & Hcnt'); [lia|lia|].
  exists cnt'. split; [|by replace (zlen a) with (zlen a + zlen (f :: mid) + - zlen (f :: mid)) by lia].
  sbind. change (negb (0 =? 0)) with false. cbv iota. do 3 f_equal. lia.
Qed.

Lemma delete_spec zl a mid b num :
  zl_ok zl (a ++ mid ++ b) -> mid <> [] -> length mid = num \/ (length mid <= num)%nat /\ b = [] ->
  11 + wide (snd <$> a ++ mid ++ b) < 2 ^ 32 ->
  exists zl' b', __ziplistDelete junk zl (10 + size a) num = Some zl' /\
    zl_ok zl' (a ++ b') /\ snd <$> b' = snd <$> b /\ exact (last_raw 0 a) b'.
Proof.
  intros Hok Hmid Hnum Hmax. destruct mid as [|f mid]; [done|]. clear Hmid. cbn [app] in Hok.
  apply zl_ok_block in Hok as (cnt & -> & Hv & Hsz & Hcnt).
  pose proof (proj1 (valid_from_app a 0 _) Hv) as [Hva _].
  destruct b as [|[w2 s2] b].
  - change (f :: mid ++ []) with ((f :: mid) ++ []) in *. rewrite app_nil_r in *.
    destruct (delete_end cnt a f mid num) as (cnt' & -> & Hcnt'); [lia || (destruct Hnum as [->|[? _]]; lia)|done|done|done|].
    eexists _, []. split; [done|]. split; [|done]. rewrite app_nil_r. exists cnt'. split; [done|]. split; [done|].
    rewrite size_app in Hsz. pose proof (size_nonneg (f :: mid)). split; [lia|done].
  - destruct Hnum as [Hnum|[_ ?]]; [|done].
    change (f :: mid ++ (w2, s2) :: b) with ((f :: mid) ++ (w2, s2) :: b) in *.
    destruct (delete_mid cnt a f mid w2 s2 b num) as (es' & cnt' & -> & Hit & Hex & Hv' & Hcnt'); [done|done|done|done|].
    destruct es' as [|e es']; [done|].
    exists (block cnt' (enc_from 0 a) (last_raw 0 a) (e :: es')), (e :: es'). split; [done|]. split; [|by split].
    apply zl_ok_block. exists cnt'. split; [done|]. split; [by apply valid_from_app|].
    pose proof (size_wide (a ++ e :: es')) as Hw. rewrite !fmap_app, !wide_app in *. rewrite Hit in Hw.
    pose proof (wide_nonneg (snd <$> f :: mid)). split; [lia|].
    apply (f_equal zlen) in Hit. rewrite !zlen_fmap in Hit.
    replace (zlen (a ++ e :: es')) with (zlen (a ++ (f :: mid) ++ (w2, s2) :: b) - zlen (f :: mid)); [done|].
    rewrite !zlen_app. lia.
Qed.

(** ** Access *)

Lemma zl_next zl a b :
  zl_ok zl (a ++ b) ->
  exists c, getb zl (10 + size a) = Some c /\ (c =? ZIP_END) = bool_decide (b = []).
Proof.
  intros (cnt & -> & Hv & _). apply valid_from_app in Hv as [_ Hv].
  set (hd := header _ _ _). rewrite enc_from_app, <- app_assoc, app_assoc. apply next_at; [|done].
  subst hd. by rewrite zlen_app, zlen_header, zlen_enc_from.
Qed.

(** The bytes of an entry and what is around them. *)
Lemma zl_split zl a e b :
  zl_ok zl (a ++ e :: b) ->
  exists h c, zl = h ++ entry_bytes e (last_raw 0 a) ++ c /\ 10 + size a = zlen h /\
    fits e.1 (last_raw 0 a) /\ raw e < 2 ^ 32.
Proof.
  intros (cnt & -> & Hv & _). apply valid_from_app in Hv as [_ Hv]. cbn [valid_from] in Hv.
  eexists (header _ _ cnt ++ enc_from 0 a), (enc_from (raw e) b ++ [ZIP_END]).
  split; [rewrite enc_from_app, enc_from_cons; by rewrite <- !app_assoc|].
  split; [by rewrite zlen_app, zlen_header, zlen_enc_from|]. tauto.
Qed.

Lemma zl_raw zl a e b :
  zl_ok zl (a ++ e :: b) -> zipRawEntryLength zl (10 + size a) = Some (raw e).
Proof. intros (h & c & -> & Hp & Hf & Hr)%zl_split. by apply raw_at. Qed.

Lemma zl_prevlen zl a e b :
  zl_ok zl (a ++ e :: b) -> ZIP_DECODE_PREVLEN zl (10 + size a) = Some (psize e.1, last_raw 0 a).
Proof.
  intros (h & c & -> & Hp & Hf & Hr)%zl_split. unfold entry_bytes. rewrite <- app_assoc. by apply decode_prevlen.
Qed.

Lemma size_snoc a e : size (a ++ [e]) = size a + raw e.
Proof. rewrite size_app. cbn [size]. lia. Qed.

Lemma index_forward_spec zl b : forall a index fuel,
  zl_ok zl (a ++ b) -> 0 <= index -> (length b <= fuel)%nat ->
  index_forward fuel zl (10 + size a) index
  = Some (10 + size (a ++ take (Z.to_nat index) b), if index <? zlen b then -1 else index - zlen b).
Proof.
  induction b as [|e b IH]; intros a index fuel Hok Hi Hfuel; destruct (zl_next _ _ _ Hok) as (c & Hc & Hend).
  - destruct fuel; cbn [index_forward]; rewrite Hc; sbind; rewrite Hend; rewrite bool_decide_eq_true_2 by done;
      cbn [negb]; rewrite take_nil, app_nil_r; change (zlen []) with 0; rewrite (proj2 (Z.ltb_ge _ _)) by lia;
      by rewrite Z.sub_0_r.
  - destruct fuel as [|fuel]; [cbn in Hfuel; lia|]. cbn [index_forward]. rewrite Hc. sbind.
    rewrite Hend, bool_decide_eq_false_2 by done. cbn [negb]. rewrite zlen_cons. pose proof (zlen_nonneg b).
    destruct (Z.eqb_spec index 0) as [->|Hne].
    { cbn [take]. rewrite (proj2 (Z.ltb_lt _ _)), app_nil_r by lia. done. }
    rewrite (zl_raw _ _ _ _ Hok). sbind. rewrite <- Z.add_assoc, <- size_snoc.
    rewrite (IH (a ++ [e]) (index - 1) fuel); [|by rewrite <- app_assoc|lia|cbn in Hfuel; lia].
    replace (Z.to_nat index) with (S (Z.to_nat (index - 1))) by lia. rewrite <- app_assoc. cbn [app take].
    do 2 f_equal. destruct (Z.ltb_spec (index - 1) (zlen b)), (Z.ltb_spec index (1 + zlen b)); lia.
Qed.

Lemma last_raw_pos a : (last_raw 0 a >? 0) = negb (bool_decide (a = [])).
Proof.
  destruct a as [|e a _] using rev_ind; [done|]. unfold last_raw. rewrite last_snoc. pose proof (raw_range e).
  rewrite Z.gtb_ltb, (proj2 (Z.ltb_lt 0 _)) by lia. by destruct a.
Qed.

Lemma index_backward_spec zl a : forall e b index fuel,
  zl_ok zl (a ++ e :: b) -> 0 <= index -> (length a <= fuel)%nat ->
  exists k, index_backward fuel zl (10 + size a) (last_raw 0 a) index
    = Some (10 + size (take (length a - Z.to_nat index) a), k) /\ (k >? 0) = (zlen a <? index).
Proof.
  induction a as [|e' a IH] using rev_ind; intros e b index fuel Hok Hi Hfuel.
  - exists index. split; [by destruct fuel|]. rewrite Z.gtb_ltb. done.
  - pose proof (zlen_nonneg a). rewrite !zlen_app, length_app in *. change (zlen [e']) with 1. cbn [length] in *.
    destruct fuel as [|fuel]; [lia|]. cbn [index_backward].
    rewrite last_raw_pos, bool_decide_eq_false_2 by (by destruct a). cbn [negb].
    destruct (Z.eqb_spec index 0) as [->|Hne].
    { exists (-1). split; [|symmetry; apply Z.ltb_ge; lia]. change (Z.to_nat 0) with 0%nat.
      rewrite Nat.sub_0_r, take_ge by (rewrite length_app; cbn; lia). done. }
    rewrite size_snoc. unfold last_raw at 1 2. rewrite last_snoc.
    replace (10 + (size a + raw e') - raw e') with (10 + size a) by lia. rewrite <- app_assoc in Hok.
    rewrite (zl_prevlen _ _ _ _ Hok). sbind.
    destruct (IH e' (e :: b) (index - 1) fuel Hok) as (k & -> & Hk); [lia|lia|].
    exists k. split.
    + replace (length a + 1 - Z.to_nat index)%nat with (length a - Z.to_nat (index - 1))%nat by lia.
      rewrite take_app_le by lia. done.
    + rewrite Hk. destruct (Z.ltb_spec (zlen a) (index - 1)), (Z.ltb_spec (zlen a + 1) index); lia.
Qed.

Lemma zl_length zl es : zl_ok zl es -> zlen zl = 11 + size es.
Proof.
  intros (cnt & -> & _). rewrite !zlen_app, zlen_header, zlen_enc_from. change (zlen [ZIP_END]) with 1. lia.
Qed.

Lemma zl_fuel zl es : zl_ok zl es -> (length es < length zl)%nat.
Proof. intros Hok. pose proof (zl_length zl es Hok) as Hz. pose proof (length_size es). unfold zlen in Hz. lia. Qed.

(** The entry that an index, from the end when it is negative, stands for. *)
Definition place (n index : Z) : option nat :=
  let j := if index <? 0 then n + index else index in
  if (0 <=? j) && (j <? n) then Some (Z.to_nat j) else None.

Lemma place_lt n index i : place n index = Some i -> Z.of_nat i < n.
Proof. unfold place. destruct (_ && _) eqn:Hb; [|done]. intros [= <-]. zbool. lia. Qed.

Lemma index_spec zl es index :
  zl_ok zl es -> INT32_MIN < index ->
  ziplistIndex zl index = Some ((fun i => 10 + size (take i es)) <$> place (zlen es) index).
Proof.
  intros Hok Hi. unfold ziplistIndex, place. pose proof (zl_fuel zl es Hok).
  destruct (Z.ltb_spec index 0) as [Hneg|Hpos].
  - rewrite (proj2 (Z.eqb_neq _ _)) by lia.
    destruct (tail_at zl es Hok) as (-> & c & Hc & Hend & _). sbind. rewrite Hc. sbind. rewrite Hend.
    destruct es as [|e a _] using rev_ind.
    { rewrite bool_decide_eq_true_2 in * by done. cbn [negb]. sbind.
      rewrite Hc. sbind. rewrite Hend. change (zlen []) with 0. by rewrite (proj2 (Z.leb_gt _ _)) by lia. }
    rewrite bool_decide_eq_false_2 by (by destruct a). cbn [negb]. rewrite last_off_last.
    rewrite (zl_prevlen zl a e [] Hok). sbind. rewrite length_app, zlen_app in *. change (zlen [e]) with 1.
    destruct (index_backward_spec zl a e [] (- index - 1) (length zl) Hok) as (k & -> & Hk); [lia|cbn in *; lia|].
    sbind. set (n := (length a - Z.to_nat (- index - 1))%nat).
    assert (zl_ok zl (take n a ++ drop n a ++ [e])) as Hok' by (by rewrite app_assoc, take_drop).
    destruct (zl_next _ _ _ Hok') as (c' & -> & Hend'). sbind. rewrite Hend'.
    rewrite bool_decide_eq_false_2, Hk by (by destruct (drop n a)). cbn [orb].
    unfold zlen. destruct (Z.ltb_spec (Z.of_nat (length a)) (- index - 1)).
    + by rewrite (proj2 (Z.leb_gt _ _)) by lia.
    + rewrite (proj2 (Z.leb_le _ _)), (proj2 (Z.ltb_lt _ _)) by lia. cbn.
      replace (Z.to_nat (Z.of_nat (length a) + 1 + index)) with n by lia. by rewrite take_app_le by lia.
  - pose proof (index_forward_spec zl es [] index (length zl) Hok Hpos ltac:(lia)) as Hf. cbn [size app] in Hf.
    change ZIPLIST_ENTRY_HEAD with (10 + 0). rewrite Hf. sbind.
    assert (zl_ok zl (take (Z.to_nat index) es ++ drop (Z.to_nat index) es)) as Hok' by (by rewrite take_drop).
    destruct (zl_next _ _ _ Hok') as (c' & -> & Hend'). sbind. rewrite Hend'.
    rewrite (proj2 (Z.leb_le 0 index) Hpos). cbn [andb]. destruct (Z.ltb_spec index (zlen es)).
    + rewrite bool_decide_eq_false_2; [done|]. intros Hd%(f_equal length). rewrite length_drop in Hd.
      unfold zlen in *. cbn in Hd. lia.
    + rewrite bool_decide_eq_true_2; [done|]. apply drop_ge. unfold zlen in *. lia.
Qed.

(** The item of an entry, as it is read. *)
Lemma zl_payload zl a e b :
  zl_ok zl (a ++ e :: b) ->
  exists z, zipEntry zl (10 + size a) = Some z /\ headersize z + len z = raw e /\
    headersize z = psize e.1 + lensize z /\
    match zipTryEncoding e.2 with
    | Some (v, _) => ZIP_IS_STR (encoding z) = false /\
        zipLoadInteger zl (10 + size a + headersize z) (encoding z) = Some v
    | None => ZIP_IS_STR (encoding z) = true /\ len z = zlen e.2 /\
        load zl (10 + size a + headersize z) (len z) = Some e.2
    end.
Proof.
  intros (h & c & -> & Hp & Hf & Hr)%zl_split.
  destruct (entry_at h e (last_raw 0 a) c _ Hp Hf Hr) as (z & Hz & _ & _ & _ & Hlen & Hhead & Hh).
  exists z. split; [done|]. split; [done|]. split; [done|]. unfold holds in Hh.
  destruct (code_spec e.2) as [(v & enc & Ht & Hc & _ & _ & Hok)|[Ht Hc]]; rewrite Ht in *.
  - destruct Hh as (-> & Hls & _). split; [by apply (int_ok_enc v)|]. unfold entry_bytes. rewrite Hc.
    assert (h ++ (prev_enc e.1 (last_raw 0 a) ++ enc :: le_enc (isize enc) v) ++ c
      = (h ++ prev_enc e.1 (last_raw 0 a) ++ [enc]) ++ le_enc (isize enc) v ++ c) as -> by (by rewrite <- !app_assoc).
    apply zipLoadInteger_spec; [|done]. rewrite !zlen_app, zlen_prev_enc. change (zlen [enc]) with 1. lia.
  - destruct Hh as (Henc & Hl & Hls). split; [done|]. split; [done|]. unfold entry_bytes. rewrite Hc.
    assert (h ++ (prev_enc e.1 (last_raw 0 a) ++ zipEncodeLengthBuf 0 (zlen e.2) ++ e.2) ++ c
      = (h ++ prev_enc e.1 (last_raw 0 a) ++ zipEncodeLengthBuf 0 (zlen e.2)) ++ e.2 ++ c) as -> by (by rewrite <- !app_assoc).
    apply load_mid; [|done]. rewrite !zlen_app, zlen_prev_enc, zlen_length_buf. lia.
Qed.

(** What [ziplistGet] gives, as text. *)
Definition text (x : list Z + Z) : list Z := match x with inl s => s | inr v => ll_repr v end.

Lemma get_spec zl a e b :
  zl_ok zl (a ++ e :: b) ->
  exists x, ziplistGet zl (Some (10 + size a)) = Some (Some x) /\ text x = e.2.
Proof.
  intros Hok. unfold ziplistGet. destruct (zl_next _ _ _ Hok) as (c & -> & Hend). sbind. rewrite Hend.
  rewrite bool_decide_eq_false_2 by done.
  destruct (zl_payload _ _ _ _ Hok) as (z & -> & _ & _ & Hz). sbind.
  destruct (zipTryEncoding e.2) as [[v enc]|] eqn:Ht.
  - destruct Hz as [-> ->]. sbind. exists (inr v). split; [done|]. by destruct (zipTryEncoding_spec _ _ _ Ht) as [-> _].
  - destruct Hz as (-> & _ & ->). sbind. by exists (inl e.2).
Qed.

Lemma text_eq s v enc t :
  zipTryEncoding s = Some (v, enc) ->
  match zipTryEncoding t with Some (w, _) => v =? w | None => false end = bool_decide (s = t).
Proof.
  intros Hs. destruct (zipTryEncoding t) as [[w enc']|] eqn:Ht.
  - case_bool_decide as Heq; [subst t; rewrite Hs in Ht; injection Ht as <- _; apply Z.eqb_refl|].
    apply Z.eqb_neq. intros ->. apply Heq. destruct (zipTryEncoding_spec _ _ _ Hs) as [-> _].
    by destruct (zipTryEncoding_spec _ _ _ Ht) as [-> _].
  - symmetry. apply bool_decide_eq_false_2. intros ->. by rewrite Hs in Ht.
Qed.

Lemma compare_spec zl a e b t :
  zl_ok zl (a ++ e :: b) -> ziplistCompare zl (10 + size a) t = Some (bool_decide (e.2 = t)).
Proof.
  intros Hok. unfold ziplistCompare. destruct (zl_next _ _ _ Hok) as (c & -> & Hend). sbind. rewrite Hend.
  rewrite bool_decide_eq_false_2 by done.
  destruct (zl_payload _ _ _ _ Hok) as (z & -> & _ & _ & Hz). sbind.
  destruct (zipTryEncoding e.2) as [[v enc]|] eqn:Ht.
  - destruct Hz as [-> Hld]. pose proof (text_eq e.2 v enc t Ht) as Heq.
    destruct (zipTryEncoding t) as [[w enc']|]; [|by rewrite Heq]. rewrite Hld. sbind. by rewrite Heq.
  - destruct Hz as (-> & Hl & Hld). rewrite Hl in *. destruct (Z.eqb_spec (zlen e.2) (zlen t)) as [Heq|Hne].
    + rewrite <- Heq, Hld. done.
    + f_equal. symmetry. apply bool_decide_eq_false_2. by intros ?%(f_equal zlen).
Qed.

Lemma next_spec zl a e b :
  zl_ok zl (a ++ e :: b) ->
  ziplistNext zl (10 + size a) = Some (if bool_decide (b = []) then None else Some (10 + size (a ++ [e]))).
Proof.
  intros Hok. unfold ziplistNext. destruct (zl_next _ _ _ Hok) as (c & -> & Hend). sbind. rewrite Hend.
  rewrite bool_decide_eq_false_2 by done. rewrite (zl_raw _ _ _ _ Hok). sbind.
  rewrite size_snoc, Z.add_assoc. rewrite <- Z.add_assoc, <- size_snoc.
  rewrite list_cons_snoc in Hok. destruct (zl_next _ _ _ Hok) as (c' & -> & Hend'). sbind. by rewrite Hend'.
Qed.

Lemma prev_spec zl a e b :
  zl_ok zl (a ++ e :: b) ->
  ziplistPrev zl (10 + size a) = Some (if bool_decide (a = []) then None else Some (10 + size (take (length a - 1) a))).
Proof.
  intros Hok. unfold ziplistPrev. destruct (zl_next _ _ _ Hok) as (c & -> & Hend). sbind. rewrite Hend.
  rewrite bool_decide_eq_false_2 by done. change ZIPLIST_ENTRY_HEAD with 10.
  destruct a as [|e' a _] using rev_ind; [done|]. rewrite size_snoc. pose proof (raw_range e'). pose proof (size_nonneg a).
  rewrite (proj2 (Z.eqb_neq _ _)) by lia. rewrite bool_decide_eq_false_2 by (by destruct a).
  rewrite <- size_snoc, (zl_prevlen _ _ _ _ Hok). sbind. rewrite last_raw_pos, bool_decide_eq_false_2 by (by destruct a).
  cbn [negb]. unfold last_raw. rewrite last_snoc, size_snoc, length_app. cbn [length].
  replace (length a + 1 - 1)%nat with (length a) by lia. rewrite take_app_length. do 2 f_equal. lia.
Qed.

Lemma prev_end_spec zl es :
  zl_ok zl es ->
  ziplistPrev zl (10 + size es) = Some (if bool_decide (es = []) then None else Some (10 + size (take (length es - 1) es))).
Proof.
  intros Hok. unfold ziplistPrev. pose proof Hok as Hok'. rewrite <- (app_nil_r es) in Hok'.
  destruct (zl_next _ _ _ Hok') as (c & -> & Hend). sbind. rewrite Hend. rewrite bool_decide_eq_true_2 by done.
  destruct (tail_at zl es Hok) as (-> & c' & Hc & Hend' & _). sbind. rewrite Hc. sbind. rewrite Hend'.
  destruct es as [|e a _] using rev_ind; [done|]. rewrite !bool_decide_eq_false_2 by (by destruct a).
  rewrite last_off_last, length_app. cbn [length]. replace (length a + 1 - 1)%nat with (length a) by lia.
  by rewrite take_app_length.
Qed.

(** The first item that is [v], of every [skip + 1] items after [cnt] of them. *)
Fixpoint find_item (v : list Z) (skip cnt : nat) (l : list (list Z)) : option nat :=
  match l with
  | [] => None
  | s :: l =>
      match cnt with
      | O => if bool_decide (s = v) then Some O else S <$> find_item v skip skip l
      | S cnt => S <$> find_item v skip cnt l
      end
  end.

(** The encoding of the field that has been computed, if it has. *)
Definition cached (v : list Z) (venc vll : Z) : Prop :=
  venc = 0 \/ match zipTryEncoding v with Some (w, enc) => venc = enc /\ vll = w | None => venc = 255 end.

Lemma zipEntry_inv zl p z :
  zipEntry zl p = Some z ->
  ZIP_DECODE_PREVLENSIZE zl p = Some (prevrawlensize z) /\
  ZIP_DECODE_LENGTH zl (p + prevrawlensize z) = Some (encoding z, lensize z, len z) /\
  headersize z = prevrawlensize z + lensize z.
Proof.
  unfold zipEntry, ZIP_DECODE_PREVLEN. destruct (ZIP_DECODE_PREVLENSIZE zl p) as [ps|]; [|done]. sbind.
  intros He. assert (exists l, ('(encoding, lensize, len) ← ZIP_DECODE_LENGTH zl (p + ps);
    Some (mk_zlentry ps l lensize len (ps + lensize) encoding p)) = Some z) as [l Hl].
  { destruct (ps =? 1); [destruct (getb zl p) as [x|]|destruct (load zl (p + 1) 4) as [b|]]; try done.
    - by exists x.
    - revert He. sbind. destruct (memrev32ifbe b) as [b'|]; [|done]. sbind. intros He. by eexists. }
  destruct (ZIP_DECODE_LENGTH zl (p + ps)) as [[[enc ls] ln]|] eqn:Hd; [|done]. revert Hl. sbind. by intros [= <-].
Qed.

Lemma cached_lookup v venc vll :
  cached v venc vll ->
  exists venc' vll', (if venc =? 0 then
      match zipTryEncoding v with Some (vll, vencoding) => (vencoding, vll) | None => (255, vll) end
    else (venc, vll)) = (venc', vll') /\ cached v venc' vll' /\ (venc' =? 0) = false /\
    (venc' =? 255) = match zipTryEncoding v with Some _ => false | None => true end /\
    forall x, match zipTryEncoding v with Some (w, _) => x =? w | None => false end
      = (if venc' =? 255 then false else x =? vll').
Proof.
  intros Hc. unfold cached in Hc |- *. destruct (zipTryEncoding v) as [[w enc]|] eqn:Ht.
  - destruct (zipTryEncoding_spec _ _ _ Ht) as (_ & _ & Hok). destruct (int_ok_enc w enc Hok) as [Hr _].
    exists enc, w. destruct Hc as [->|[-> ->]].
    + rewrite !(proj2 (Z.eqb_neq enc _)) by lia. cbn. tauto.
    + rewrite !(proj2 (Z.eqb_neq enc _)) by lia. tauto.
  - exists 255, vll. destruct Hc as [->| ->]; cbn; tauto.
Qed.

Lemma zl_find_spec zl v skip b : forall a fuel cnt venc vll,
  zl_ok zl (a ++ b) -> (length b <= fuel)%nat -> cached v venc vll ->
  find_loop fuel zl (10 + size a) v (Z.of_nat skip) (Z.of_nat cnt) venc vll
  = Some ((fun i => 10 + size (a ++ take i b)) <$> find_item v skip cnt (snd <$> b)).
Proof.
  induction b as [|e b IH]; intros a fuel cnt venc vll Hok Hfuel Hcache;
    destruct (zl_next _ _ _ Hok) as (c & Hc & Hend).
  { destruct fuel; cbn [find_loop]; rewrite Hc; sbind; by rewrite Hend. }
  destruct fuel as [|fuel]; [cbn in Hfuel; lia|]. cbn [find_loop]. rewrite Hc. sbind.
  rewrite Hend, bool_decide_eq_false_2 by done.
  destruct (zl_payload _ _ _ _ Hok) as (z & Hz & Hlen & Hhead & Hpay).
  destruct (zipEntry_inv _ _ _ Hz) as (-> & Hdec & Hhead'). sbind. rewrite Hdec. sbind.
  replace (10 + size a + prevrawlensize z + lensize z) with (10 + size a + headersize z) by lia.
  cbn [fmap list_fmap find_item].
  assert (forall cnt venc vll, cached v venc vll ->
    find_loop fuel zl (10 + size a + headersize z + len z) v (Z.of_nat skip) (Z.of_nat cnt) venc vll
    = Some ((fun i => 10 + size (a ++ take i (e :: b))) <$> (S <$> find_item v skip cnt (snd <$> b)))) as Hrec.
  { intros cnt' venc' vll' Hc'. replace (10 + size a + headersize z + len z) with (10 + size (a ++ [e])) by (rewrite size_snoc; lia).
    rewrite (IH (a ++ [e]) fuel cnt' venc' vll'); [|by rewrite <- app_assoc|cbn in Hfuel; lia|done].
    rewrite <- option_fmap_compose. f_equal. destruct (find_item _ _ _ _); [|done]. cbn. by rewrite <- app_assoc. }
  destruct cnt as [|cnt].
  - change (Z.of_nat 0 =? 0) with true. cbv iota.
    assert (exists venc' vll', (if ZIP_IS_STR (encoding z) then
            if len z =? zlen v then
              b ← load zl (10 + size a + headersize z) (zlen v);
              Some (bool_decide (b = v), venc, vll)
            else Some (false, venc, vll)
          else
            let '(vencoding, vll) :=
              if venc =? 0 then
                match zipTryEncoding v with
                | Some (vll, vencoding) => (vencoding, vll)
                | None => (255, vll)
                end
              else (venc, vll) in
            if vencoding =? 0 then None
            else if negb (vencoding =? 255) then
              ll ← zipLoadInteger zl (10 + size a + headersize z) (encoding z);
              Some (ll =? vll, vencoding, vll)
            else Some (false, vencoding, vll)) = Some (bool_decide (e.2 = v), venc', vll') /\ cached v venc' vll')
      as (venc' & vll' & -> & Hc').
    { destruct (zipTryEncoding e.2) as [[w enc]|] eqn:Ht.
      - destruct Hpay as [-> Hld]. destruct (cached_lookup v venc vll Hcache) as (venc' & vll' & -> & Hc' & -> & _ & Hcmp).
        exists venc', vll'. split; [|done]. rewrite <- (text_eq e.2 w enc v Ht), Hcmp, Hld.
        by destruct (venc' =? 255).
      - destruct Hpay as (-> & Hl & Hld). exists venc, vll. split; [|done]. rewrite Hl in *.
        destruct (Z.eqb_spec (zlen e.2) (zlen v)) as [Heq|Hne]; [by rewrite <- Heq, Hld|].
        do 3 f_equal. symmetry. apply bool_decide_eq_false_2. by intros ?%(f_equal zlen). }
    sbind. cbn [snd]. destruct (bool_decide (e.2 = v)); [by cbn; rewrite app_nil_r|]. by apply Hrec.
  - rewrite (proj2 (Z.eqb_neq _ _)) by lia. replace (Z.of_nat (S cnt) - 1) with (Z.of_nat cnt) by lia. by apply Hrec.
Qed.

Lemma len_loop_spec zl b : forall a fuel n,
  zl_ok zl (a ++ b) -> (length b <= fuel)%nat -> 0 <= n -> n + zlen b < 2 ^ 32 ->
  len_loop fuel zl (10 + size a) n = Some (n + zlen b).
Proof.
  induction b as [|e b IH]; intros a fuel n Hok Hfuel Hn Hmax; destruct (zl_next _ _ _ Hok) as (c & Hc & Hend).
  { change (zlen []) with 0. rewrite Z.add_0_r. destruct fuel; cbn [len_loop]; rewrite Hc; sbind; by rewrite Hend. }
  destruct fuel as [|fuel]; [cbn in Hfuel; lia|]. cbn [len_loop]. rewrite Hc. sbind.
  rewrite Hend, bool_decide_eq_false_2, (zl_raw _ _ _ _ Hok) by done. sbind. rewrite zlen_cons in *.
  pose proof (zlen_nonneg b). rewrite u32_small by lia. rewrite <- Z.add_assoc, <- size_snoc.
  rewrite (IH (a ++ [e])); [f_equal; lia|by rewrite <- app_assoc|cbn in Hfuel; lia|lia|lia].
Qed.

Lemma len_spec zl es :
  zl_ok zl es -> exists zl', ziplistLen zl = Some (zlen es, zl') /\ zl_ok zl' es.
Proof.
  intros Hok. pose proof Hok as (cnt & Hzl & Hv & Hmax & Hcnt). pose proof (zlen_nonneg es).
  pose proof (cnt_range cnt _ Hcnt (zlen_nonneg es)). unfold ziplistLen.
  assert (ZIPLIST_LENGTH zl = Some (host_dec (le_enc 2 cnt))) as -> by (rewrite Hzl; apply get_LENGTH). sbind.
  rewrite read16_le by done. destruct (Z.ltb_spec cnt UINT16_MAX) as [Hlt|Hge].
  - exists zl. split; [|done]. unfold cnt_ok, UINT16_MAX in *. do 2 f_equal. lia.
  - pose proof (length_size es). pose proof (zl_fuel zl es Hok). change ZIPLIST_HEADER_SIZE with (10 + size []).
    rewrite (len_loop_spec zl es []); [|done|lia|lia|unfold zlen; lia]. sbind. rewrite Z.add_0_l.
    destruct (Z.ltb_spec (zlen es) UINT16_MAX) as [Hs|Hs].
    + rewrite Hzl, set_LENGTH_spec. sbind. eexists. split; [done|]. exists (zlen es). split; [done|].
      split; [done|]. split; [done|]. by left.
    + sbind. by exists zl.
Qed.

Lemma new_spec : exists zl, ziplistNew junk = Some zl /\ zl_ok zl [].
Proof.
  unfold ziplistNew. change (ZIPLIST_HEADER_SIZE + 1) with 11. change (Z.to_nat 11) with 11%nat.
  cbn [seq fmap list_fmap]. unfold set_BYTES, set_TAIL_OFFSET. rewrite !write32_le.
  change (store [junk 0; junk 1; junk 2; junk 3; junk 4; junk 5; junk 6; junk 7; junk 8; junk 9; junk 10] 0 (le_enc 4 11))
    with (Some (le_enc 4 11 ++ [junk 4; junk 5; junk 6; junk 7; junk 8; junk 9; junk 10])). sbind.
  change (store (le_enc 4 11 ++ [junk 4; junk 5; junk 6; junk 7; junk 8; junk 9; junk 10]) 4 (le_enc 4 ZIPLIST_HEADER_SIZE))
    with (Some (le_enc 4 11 ++ le_enc 4 10 ++ [junk 8; junk 9; junk 10])). sbind.
  assert (host_enc 2 0 = le_enc 2 0) as -> by (unfold host_enc; by destruct host_be).
  change (store (le_enc 4 11 ++ le_enc 4 10 ++ [junk 8; junk 9; junk 10]) 8 (le_enc 2 0))
    with (Some (le_enc 4 11 ++ le_enc 4 10 ++ le_enc 2 0 ++ [junk 10])). sbind.
  eexists. split; [reflexivity|]. exists 0. split; [done|]. split; [done|]. split; [done|]. left. done.
Qed.

(** ** Lists of items *)

(** A block that holds the items [l]; the entry before the first one has length 0,
    which takes one byte. *)
Definition represents (zl : list Z) (l : list (list Z)) : Prop :=
  exists es, zl_ok zl es /\ snd <$> es = l /\ exact 0 es.

(** The updates, where the position is an index as in [ziplistIndex]. *)
Inductive zl_op :=
  | ZPush (s : list Z) (head : bool)
  | ZInsert (index : Z) (s : list Z)
  | ZDelete (index : Z)
  | ZDeleteRange (index : Z) (num : nat).

Definition zl_step (zl : list Z) (op : zl_op) : option (list Z) :=
  match op with
  | ZPush s head => ziplistPush junk zl s head
  | ZInsert index s =>
      p ← ziplistIndex zl index;
      match p with Some p => ziplistInsert junk zl p s | None => Some zl end
  | ZDelete index =>
      p ← ziplistIndex zl index;
      match p with Some p => '(zl, _) ← ziplistDelete junk zl p; Some zl | None => Some zl end
  | ZDeleteRange index num => ziplistDeleteRange junk zl index num
  end.

Fixpoint zl_run (zl : list Z) (ops : list zl_op) : option (list Z) :=
  match ops with [] => Some zl | op :: ops => zl ← zl_step zl op; zl_run zl ops end.

(** The same on lists. *)
Definition list_step (l : list (list Z)) (op : zl_op) : list (list Z) :=
  match op with
  | ZPush s head => if head then s :: l else l ++ [s]
  | ZInsert index s =>
      match place (zlen l) index with Some i => take i l ++ s :: drop i l | None => l end
  | ZDelete index => match place (zlen l) index with Some i => take i l ++ drop (i + 1) l | None => l end
  | ZDeleteRange index num =>
      match place (zlen l) (s32 index) with Some i => take i l ++ drop (i + num) l | None => l end
  end.

(** An item of a single character, or of an integer of eight bits, is not inserted
    between two others. *)
Definition op_ok (l : list (list Z)) (op : zl_op) : Prop :=
  match op with
  | ZPush _ _ => True
  | ZInsert index s => INT32_MIN < index /\ (place (zlen l) index = Some 0%nat \/ 3 <= zlen (code s))
  | ZDelete index => INT32_MIN < index
  | ZDeleteRange index _ => INT32_MIN < s32 index
  end.

(** Every list of the run fits in a block. *)
Fixpoint run_ok (l : list (list Z)) (ops : list zl_op) : Prop :=
  match ops with
  | [] => True
  | op :: ops => op_ok l op /\ 11 + wide (list_step l op) < 2 ^ 32 /\ run_ok (list_step l op) ops
  end.

Lemma exact_no_shrink s es : exact 0 es -> no_shrink 0 s es.
Proof.
  unfold no_shrink. destruct es as [|e es]; [done|]. cbn [exact]. intros ->. change (negb (0 <? 254)) with false.
  pose proof (raw_range (false, s)). pose proof (psize_range (negb (raw (false, s) <? 254))).
  change (psize false) with 1. lia.
Qed.

Lemma big_no_shrink prev s es : 3 <= zlen (code s) -> no_shrink prev s es.
Proof.
  intros Hs. unfold no_shrink. destruct es as [|e es]; [done|].
  set (reqlen := raw _). pose proof (psize_range (negb (reqlen <? 254))). pose proof (psize_range e.1).
  pose proof (psize_range (negb (prev <? 254))).
  assert (reqlen = psize (negb (prev <? 254)) + zlen (code s)) by done. lia.
Qed.

Lemma exact_app a b b' : exact 0 (a ++ b) -> exact (last_raw 0 a) b' -> exact 0 (a ++ b').
Proof. by destruct a. Qed.

Lemma zl_insert_step zl a b s :
  zl_ok zl (a ++ b) -> exact 0 (a ++ b) -> no_shrink (last_raw 0 a) s b ->
  11 + wide ((snd <$> a) ++ s :: (snd <$> b)) < 2 ^ 32 ->
  exists zl', __ziplistInsert junk zl (10 + size a) s = Some zl' /\ represents zl' ((snd <$> a) ++ s :: (snd <$> b)).
Proof.
  intros Hok Hex Hns Hmax. destruct (insert_spec zl a b s Hok Hns) as (zl' & b' & Hins & Hok' & Hit).
  { rewrite fmap_app. rewrite !wide_app in *. cbn [wide] in *. lia. }
  exists zl'. split; [done|]. eexists. split; [done|]. split; [by rewrite fmap_app, fmap_cons, Hit|].
  by apply (exact_app a b).
Qed.

Lemma zl_delete_step zl a mid b num :
  zl_ok zl (a ++ mid ++ b) -> exact 0 (a ++ mid ++ b) ->
  (mid <> [] \/ b <> []) -> length mid = num \/ (length mid <= num)%nat /\ b = [] ->
  11 + wide (snd <$> a ++ mid ++ b) < 2 ^ 32 ->
  exists zl', __ziplistDelete junk zl (10 + size a) num = Some zl' /\ represents zl' ((snd <$> a) ++ (snd <$> b)).
Proof.
  intros Hok Hex Hne Hnum Hmax. destruct mid as [|f mid].
  - destruct Hne as [?|Hb]; [done|]. destruct Hnum as [<-|[_ ?]]; [|done]. cbn [app length] in *.
    destruct b as [|e b]; [done|]. destruct (zl_next _ _ _ Hok) as (c & Hc & Hend).
    pose proof (zl_split _ _ _ _ Hok) as (h & y & -> & Hp & Hf & Hr).
    destruct (entry_at h e (last_raw 0 a) y _ Hp Hf Hr) as (z & Hz & _ & _ & Hzp & _).
    unfold __ziplistDelete. rewrite Hz. sbind. cbn [skip_entries]. rewrite Hc. sbind. rewrite Hend. cbn [bool_decide].
    rewrite bool_decide_eq_false_2 by done. sbind. rewrite Hzp, Z.sub_diag. change (u32 0 >? 0) with false. cbv iota.
    eexists. split; [done|]. exists (a ++ e :: b). split; [done|]. by rewrite fmap_app.
  - destruct (delete_spec zl a (f :: mid) b num Hok) as (zl' & b' & Hdel & Hok' & Hit & Hex'); [done|done|done|].
    exists zl'. split; [done|]. exists (a ++ b'). split; [done|]. split; [by rewrite fmap_app, Hit|].
    by apply (exact_app a ((f :: mid) ++ b)).
Qed.

Lemma zl_step_refines zl l op :
  represents zl l -> op_ok l op -> 11 + wide l < 2 ^ 32 -> 11 + wide (list_step l op) < 2 ^ 32 ->
  exists zl', zl_step zl op = Some zl' /\ represents zl' (list_step l op).
Proof.
  intros (es & Hok & Hl & Hex) Hop Hmax Hmax'. subst l.
  assert (forall index num, INT32_MIN < index -> exists zl',
    (p ← ziplistIndex zl index; match p with Some p => __ziplistDelete junk zl p num | None => Some zl end) = Some zl' /\
    represents zl' (match place (zlen (snd <$> es)) index with
      Some i => take i (snd <$> es) ++ drop (i + num) (snd <$> es) | None => snd <$> es end)) as Hdel.
  { intros index num Hi. rewrite (index_spec zl es index Hok Hi), zlen_fmap. sbind.
    destruct (place (zlen es) index) as [i|] eqn:Hpl; cbn; [|by exists zl; split; [done|exists es]].
    apply place_lt in Hpl. rewrite <- fmap_take, <- fmap_drop.
    assert (es = take i es ++ take num (drop i es) ++ drop (i + num) es) as Hes.
    { by rewrite <- drop_drop, take_drop, take_drop. }
    apply (zl_delete_step zl (take i es) (take num (drop i es)) (drop (i + num) es) num); try (by rewrite <- Hes).
    - destruct num as [|num]; [right|left]; rewrite ?Nat.add_0_r; intros Hd%(f_equal length);
        rewrite ?length_take, ?length_drop in Hd; unfold zlen in Hpl; cbn [length] in Hd; lia.
    - rewrite length_take, length_drop. unfold zlen in Hpl.
      destruct (decide (num <= length es - i)%nat); [left; lia|right]. split; [lia|]. apply drop_ge. lia. }
  destruct op as [s [|]|index s|index|index num]; cbn [zl_step list_step op_ok] in *.
  - unfold ziplistPush. sbind. change ZIPLIST_ENTRY_HEAD with (10 + size []).
    apply (zl_insert_step zl [] es s); try done. by apply exact_no_shrink.
  - unfold ziplistPush, ZIPLIST_ENTRY_END.
    assert (ZIPLIST_BYTES zl = Some (11 + size es)) as ->.
    { destruct Hok as (cnt & -> & _ & ? & _). apply get_BYTES. pose proof (size_nonneg es). lia. }
    sbind. replace (11 + size es - 1) with (10 + size es) by lia. change (@nil (list Z)) with (snd <$> @nil entry) in *.
    apply (zl_insert_step zl es [] s); try done; by rewrite app_nil_r.
  - destruct Hop as [Hi Hop]. rewrite (index_spec zl es index Hok Hi). rewrite zlen_fmap in *. sbind.
    destruct (place (zlen es) index) as [i|] eqn:Hpl; cbn; [|by exists zl; split; [done|exists es]].
    rewrite <- fmap_take, <- fmap_drop in *. apply zl_insert_step; rewrite ?take_drop; try done.
    destruct Hop as [[= ->]|Hs]; [by apply exact_no_shrink|by apply big_no_shrink].
  - unfold ziplistDelete. destruct (Hdel index 1%nat Hop) as (zl' & Hd & Hr). exists zl'. split; [|done].
    rewrite <- Hd. destruct (ziplistIndex zl index) as [[p|]|]; [|done|done]. sbind. by destruct (__ziplistDelete junk zl p 1).
  - by apply Hdel.
Qed.

#[export] Instance op_ok_dec l op : Decision (op_ok l op).
Proof. destruct op; cbn; apply _. Defined.

#[export] Instance run_ok_dec ops : forall l, Decision (run_ok l ops).
Proof. induction ops as [|op ops IH]; intros l; cbn; [apply _|]. specialize (IH (list_step l op)). apply _. Defined.

(** ** Theorems *)

(** C6 (refinement): [ziplistNew] makes an empty list, and pushes, insertions and
    deletions in a packed list act as they do on a list of strings, whatever the
    cascade of lengths they start, as long as it has less than 4 gigabytes: no
    byte is accessed out of the block, and its total size, last offset and counter
    stay right.  The items inserted between two others have a code of three bytes
    at least ([op_ok]): see [ziplist_insert_corrupts]. *)
Theorem ziplist_run_refines :
  (exists zl, ziplistNew junk = Some zl /\ represents zl []) /\
  forall ops zl l, represents zl l -> 11 + wide l < 2 ^ 32 -> run_ok l ops ->
    exists zl', zl_run zl ops = Some zl' /\ represents zl' (foldl list_step l ops).
Proof.
  split.
  - destruct new_spec as (zl & Hzl & Hok). exists zl. split; [done|]. by exists [].
  - intros ops. induction ops as [|op ops IH]; intros zl l Hr Hmax Hok; [by exists zl|].
    cbn [run_ok zl_run foldl] in *. destruct Hok as (Hop & Hmax' & Hok).
    destruct (zl_step_refines zl l op Hr Hop Hmax Hmax') as (zl' & -> & Hr'). sbind. by apply IH.
Qed.

(** C13 (functional): a packed list is read back in both directions: there are
    pointers for its items that [ziplistIndex], from either end, [ziplistNext] and
    [ziplistPrev] agree on; [ziplistGet] gives the item, as a string or as the
    integer it is the text of, [ziplistCompare] compares it, [ziplistFind] finds
    the first equal one of every [skip + 1], and [ziplistLen] counts them, also
    when the counter of the header has overflowed. *)
Theorem ziplist_observe (zl : list Z) (l : list (list Z)) :
  represents zl l ->
  exists ptr : nat -> Z,
    (forall index, INT32_MIN < index -> ziplistIndex zl index = Some (ptr <$> place (zlen l) index)) /\
    (forall i s, l !! i = Some s ->
      (exists x, ziplistGet zl (Some (ptr i)) = Some (Some x) /\ text x = s) /\
      (forall t, ziplistCompare zl (ptr i) t = Some (bool_decide (s = t))) /\
      ziplistNext zl (ptr i) = Some (if bool_decide (S i < length l)%nat then Some (ptr (S i)) else None) /\
      ziplistPrev zl (ptr i) = Some (match i with O => None | S j => Some (ptr j) end) /\
      (forall v skip, Z.of_nat skip < 2 ^ 31 ->
        ziplistFind zl (ptr i) v (Z.of_nat skip)
        = Some ((fun j => ptr (i + j)%nat) <$> find_item v skip 0 (drop i l)))) /\
    ziplistPrev zl (ptr (length l)) = Some (match length l with O => None | S j => Some (ptr j) end) /\
    (exists zl', ziplistLen zl = Some (zlen l, zl') /\ represents zl' l).
Proof.
  intros (es & Hok & <- & Hex). exists (fun i => 10 + size (take i es)). rewrite zlen_fmap, length_fmap.
  split; [|split; [|split]].
  - intros index Hi. by apply index_spec.
  - intros i s Hs. rewrite list_lookup_fmap in Hs. destruct (es !! i) as [e|] eqn:He; [|done]. injection Hs as <-.
    pose proof (take_drop_middle es i e He) as Hes. pose proof (lookup_lt_Some _ _ _ He) as Hlt.
    assert (zl_ok zl (take i es ++ e :: drop (S i) es)) as Hok' by (by rewrite Hes).
    split; [by apply (get_spec zl (take i es) e (drop (S i) es))|].
    split; [intros t; by apply (compare_spec zl (take i es) e (drop (S i) es))|].
    split; [|split].
    + rewrite (next_spec _ _ _ _ Hok'), <- (take_S_r _ _ _ He). f_equal.
      destruct (decide (S i < length es)%nat) as [Hn|Hn].
      * rewrite bool_decide_eq_false_2, bool_decide_eq_true_2; [done|done|].
        intros Hd%(f_equal length). rewrite length_drop in Hd. cbn [length] in Hd. lia.
      * rewrite bool_decide_eq_true_2, bool_decide_eq_false_2; [done|done|]. apply drop_ge. lia.
    + rewrite (prev_spec _ _ _ _ Hok'). rewrite length_take. destruct i as [|i]; [done|].
      rewrite bool_decide_eq_false_2 by (by destruct es). do 4 f_equal.
      rewrite take_take. f_equal. lia.
    + intros v skip Hskip. unfold ziplistFind. rewrite s32_small by lia.
      rewrite <- (take_drop i es) in Hok. pose proof (zl_fuel _ _ Hok) as Hfuel. rewrite length_app in Hfuel.
      pose proof (zl_find_spec zl v skip (drop i es) (take i es) (length zl) 0 0 0 Hok) as Hfind.
      change (Z.of_nat 0) with 0 in Hfind. rewrite Hfind; [|lia|by left]. rewrite fmap_drop. f_equal.
      destruct (find_item v skip 0 (drop i (snd <$> es))) as [j|]; [|done]. cbn. by rewrite take_take_drop.
  - pose proof (prev_end_spec zl es Hok) as Hp. rewrite (take_ge es (length es)) by lia. rewrite Hp. f_equal.
    destruct es as [|e es]; [done|]. cbn [length]. by rewrite Nat.sub_succ, Nat.sub_0_r.
  - destruct (len_spec zl es Hok) as (zl' & -> & Hok'). exists zl'. split; [done|]. by exists es.
Qed.
End Facts.

(** ** Examples *)

(** An item of one character that is inserted in front of an entry whose
    previous length takes five bytes without need shortens the block before the
    entries are moved, and the last byte of the list is lost; with an item of one
    digit the code reads out of the block. *)
Theorem ziplist_insert_corrupts :
  let before := [ZPush (repeat 65 300) false; ZPush (repeat 66 247) false; ZPush [67; 68] false; ZDeleteRange 0 1] in
  let run ops := zl ← ziplistNew (H:=false) (fun _ => 0); zl_run (H:=false) (fun _ => 0) zl ops in
  let get ops i := zl ← run ops; p ← ziplistIndex (H:=false) zl i; ziplistGet (H:=false) zl p in
  get before 1 = Some (Some (inl [67; 68])) /\
  get (before ++ [ZInsert 1 [97]]) 1 = Some (Some (inl [97])) /\
  get (before ++ [ZInsert 1 [97]]) 2 = Some (Some (inl [67; 255])) /\
  run (before ++ [ZInsert 1 [49]]) = None.
Proof. split; [|split; [|split]]; vm_compute; reflexivity. Qed.

(** Three entries of 253 bytes get wider when one of 300 is put in front of them. *)
Lemma ziplist_run_refines_witness :
  let ops := [ZPush (repeat 66 250) false; ZPush (repeat 67 250) false; ZPush (repeat 68 250) false;
              ZPush (repeat 65 300) true; ZInsert (-1) [49; 50; 51; 52]; ZDelete 0; ZDeleteRange 1 2] in
  exists zl0 zl, ziplistNew (H:=true) (fun _ => 9) = Some zl0 /\ zl_run (H:=true) (fun _ => 9) zl0 ops = Some zl /\
    represents zl [repeat 66 250; repeat 68 250].
Proof.
  intros ops. destruct (ziplist_run_refines (H:=true) (fun _ => 9)) as [(zl0 & Hnew & Hr0) Hrun].
  destruct (Hrun ops zl0 [] Hr0) as (zl & Hzl & Hr).
  - reflexivity.
  - apply (bool_decide_unpack _). vm_compute. exact I.
  - exists zl0, zl. split; [exact Hnew|]. split; [exact Hzl|exact Hr].
Defined.

Lemma ziplist_observe_witness :
  exists zl (ptr : nat -> Z), ziplistIndex (H:=true) zl (-1) = Some (Some (ptr 1%nat)) /\
    ziplistPrev (H:=true) zl (ptr 1%nat) = Some (Some (ptr 0%nat)) /\
    ziplistFind (H:=true) zl (ptr 0%nat) [45; 51] 0 = Some (Some (ptr 1%nat)).
Proof.
  destruct (new_spec (H:=true) (fun _ => 9)) as (zl0 & _ & Hok0).
  destruct (zl_step_refines (H:=true) (fun _ => 9) zl0 [] (ZPush [65] false)) as (zl1 & _ & Hr1);
    [by exists []|exact I|reflexivity|reflexivity|].
  destruct (zl_step_refines (H:=true) (fun _ => 9) zl1 [[65]] (ZPush [45; 51] false)) as (zl & _ & Hr);
    [exact Hr1|exact I|reflexivity|reflexivity|].
  destruct (ziplist_observe (H:=true) zl [[65]; [45; 51]] Hr) as (ptr & Hidx & Hptr & _).
  exists zl, ptr. split; [exact (Hidx (-1) eq_refl)|].
  destruct (Hptr 0%nat [65] eq_refl) as (_ & _ & _ & _ & Hfind).
  destruct (Hptr 1%nat [45; 51] eq_refl) as (_ & _ & _ & Hprev & _).
  split; [exact Hprev|]. exact (Hfind [45; 51] 0%nat eq_refl).
Defined.
