(* ===== verification/Reply.v ===== *)
(** * networking.c: replies

    The output buffers of a client, a static buffer and a list of string objects
    that it may share with the rest of the server, and how they are sent.  The
    objects are those of Object.v.  A deferred length is an element of the list
    without an object until it is set.  Out of the model are the other fields of a
    client and the logs; what the system answers (the installation of the event
    handler, write(2), the clock) is a parameter.  A failed assertion, a panic, a
    NULL pointer or an access out of the static buffer gives [None]. *)

From Stdlib Require Import ZArith Lia String.
From stdpp Require Import base numbers list gmap.
From S2P Require Import Prelude Util Object.

Open Scope Z_scope.

Definition REDIS_REPLY_CHUNK_BYTES : Z := 16 * 1024.
Definition REDIS_MAX_WRITE_PER_EVENT : Z := 1024 * 64.
Definition REDIS_SHARED_BULKHDR_LEN : Z := 32.
Definition ULONG_MAX : Z := 2 ^ 64 - 1.

Definition REDIS_SLAVE : Z := Z.shiftl 1 0.
Definition REDIS_MASTER : Z := Z.shiftl 1 1.
Definition REDIS_MONITOR : Z := Z.shiftl 1 2.
Definition REDIS_CLOSE_AFTER_REPLY : Z := Z.shiftl 1 6.
Definition REDIS_LUA_CLIENT : Z := Z.shiftl 1 8.
Definition REDIS_CLOSE_ASAP : Z := Z.shiftl 1 10.
Definition REDIS_MASTER_FORCE_REPLY : Z := Z.shiftl 1 13.
Definition REDIS_PUBSUB : Z := Z.shiftl 1 18.

Definition REDIS_REPL_NONE : Z := 0.
Definition REDIS_REPL_WAIT_BGSAVE_START : Z := 14.
Definition REDIS_REPL_ONLINE : Z := 17.

Definition REDIS_CLIENT_TYPE_NORMAL : Z := 0.
Definition REDIS_CLIENT_TYPE_SLAVE : Z := 1.
Definition REDIS_CLIENT_TYPE_PUBSUB : Z := 2.

(** ** Data *)

(** A node of [reply]: its address and its object, [None] for one whose [ptr] is
    NULL. *)
Record node := mk_node { addr : positive; obj : option loc }.

(** [writable] says whether the handler of the event AE_WRITABLE is installed. *)
Record redisClient := mk_client {
  fd : Z;
  flags : Z;
  replstate : Z;
  repl_put_online_on_ack : bool;
  buf : list Z;
  bufpos : Z;
  reply : list node;
  sentlen : Z;
  reply_bytes : Z;
  obuf_soft_limit_reached_time : Z;
  lastinteraction : Z;
  writable : bool;
}.

Definition set_flags (c : redisClient) (f : Z) : redisClient :=
  mk_client (fd c) f (replstate c) (repl_put_online_on_ack c) (buf c) (bufpos c) (reply c)
    (sentlen c) (reply_bytes c) (obuf_soft_limit_reached_time c) (lastinteraction c) (writable c).
Definition set_buf (c : redisClient) (b : list Z) (pos : Z) : redisClient :=
  mk_client (fd c) (flags c) (replstate c) (repl_put_online_on_ack c) b pos (reply c)
    (sentlen c) (reply_bytes c) (obuf_soft_limit_reached_time c) (lastinteraction c) (writable c).
Definition set_reply (c : redisClient) (r : list node) (bytes : Z) : redisClient :=
  mk_client (fd c) (flags c) (replstate c) (repl_put_online_on_ack c) (buf c) (bufpos c) r
    (sentlen c) bytes (obuf_soft_limit_reached_time c) (lastinteraction c) (writable c).
Definition set_sentlen (c : redisClient) (n : Z) : redisClient :=
  mk_client (fd c) (flags c) (replstate c) (repl_put_online_on_ack c) (buf c) (bufpos c) (reply c)
    n (reply_bytes c) (obuf_soft_limit_reached_time c) (lastinteraction c) (writable c).
Definition set_soft_time (c : redisClient) (t : Z) : redisClient :=
  mk_client (fd c) (flags c) (replstate c) (repl_put_online_on_ack c) (buf c) (bufpos c) (reply c)
    (sentlen c) (reply_bytes c) t (lastinteraction c) (writable c).
Definition set_lastinteraction (c : redisClient) (t : Z) : redisClient :=
  mk_client (fd c) (flags c) (replstate c) (repl_put_online_on_ack c) (buf c) (bufpos c) (reply c)
    (sentlen c) (reply_bytes c) (obuf_soft_limit_reached_time c) t (writable c).
Definition set_writable (c : redisClient) (w : bool) : redisClient :=
  mk_client (fd c) (flags c) (replstate c) (repl_put_online_on_ack c) (buf c) (bufpos c) (reply c)
    (sentlen c) (reply_bytes c) (obuf_soft_limit_reached_time c) (lastinteraction c) w.

(** [c->flags & flag]. *)
Definition has (c : redisClient) (flag : Z) : bool := negb (Z.land (flags c) flag =? 0).

(** The shared objects that the replies use. *)
Record sharedObjects := mk_shared {
  crlf : loc; czero : loc; cone : loc; nullbulk : loc;
  mbulkhdr : list loc; bulkhdr : list loc;
}.

(** The limits of the output buffer of a class of clients. *)
Record clientBufferLimitsConfig := mk_limits {
  hard_limit_bytes : Z; soft_limit_bytes : Z; soft_limit_seconds : Z;
}.

Section Reply.
(** [zmalloc_size] of a block of a given size; the configuration; the clock;
    whether [aeCreateFileEvent] succeeds. *)
Context (zmalloc_size : Z -> Z) (client_obuf_limits : Z -> clientBufferLimitsConfig)
  (unixtime : Z) (ae_ok : bool) (shared : sharedObjects).

(** ** Memory of the output buffer *)

Definition zmalloc_size_sds (s : list Z) (free : Z) : Z := zmalloc_size (8 + (zlen s + free + 1)).

Definition getStringObjectSdsUsedMemory (v : strval) : Z :=
  match v with
  | RAW s free => zmalloc_size_sds s free
  | EMBSTR s => zlen s
  | INT _ => 0
  end.

(** 24 bytes of a list node and 16 of an object. *)
Definition getClientOutputBufferMemoryUsage (c : redisClient) : Z :=
  reply_bytes c + 40 * zlen (reply c).

Definition getClientType (c : redisClient) : Z :=
  if has c REDIS_SLAVE && negb (has c REDIS_MONITOR) then REDIS_CLIENT_TYPE_SLAVE
  else if has c REDIS_PUBSUB then REDIS_CLIENT_TYPE_PUBSUB
  else REDIS_CLIENT_TYPE_NORMAL.

Definition checkClientOutputBufferLimits (c : redisClient) : bool * redisClient :=
  let used_mem := getClientOutputBufferMemoryUsage c in
  let l := client_obuf_limits (getClientType c) in
  let hard := negb (hard_limit_bytes l =? 0) && (used_mem >=? hard_limit_bytes l) in
  let soft := negb (soft_limit_bytes l =? 0) && (used_mem >=? soft_limit_bytes l) in
  let '(soft, c) :=
    if soft then
      if obuf_soft_limit_reached_time c =? 0 then (false, set_soft_time c unixtime)
      else
        let elapsed := unixtime - obuf_soft_limit_reached_time c in
        (negb (elapsed <=? soft_limit_seconds l), c)
    else (false, set_soft_time c 0) in
  (soft || hard, c).

(** The queue of the clients to close is the set of those with the flag. *)
Definition freeClientAsync (c : redisClient) : redisClient :=
  if has c REDIS_CLOSE_ASAP || has c REDIS_LUA_CLIENT then c
  else set_flags c (Z.lor (flags c) REDIS_CLOSE_ASAP).

Definition asyncCloseClientOnOutputBufferLimitReached (c : redisClient) : option redisClient :=
  if reply_bytes c <? ULONG_MAX - 1024 * 64 then
    if (reply_bytes c =? 0) || has c REDIS_CLOSE_ASAP then Some c
    else
      let '(over, c) := checkClientOutputBufferLimits c in
      Some (if over : bool then freeClientAsync c else c)
  else None.

(** ** Adding data *)

(** [true] is REDIS_OK. *)
Definition prepareClientToWrite (c : redisClient) : bool * redisClient :=
  if has c REDIS_LUA_CLIENT then (true, c)
  else if has c REDIS_MASTER && negb (has c REDIS_MASTER_FORCE_REPLY) then (false, c)
  else if fd c <=? 0 then (false, c)
  else if (bufpos c =? 0) && bool_decide (reply c = []) &&
          ((replstate c =? REDIS_REPL_NONE) ||
           ((replstate c =? REDIS_REPL_ONLINE) && negb (repl_put_online_on_ack c))) then
    if ae_ok then (true, set_writable c true) else (false, freeClientAsync c)
  else (true, c).

(** [sdscatlen], with the allocation of [sdsMakeRoomFor]. *)
Definition sdscatlen (s : list Z) (free : Z) (t : list Z) : strval :=
  let addlen := zlen t in
  if free >=? addlen then RAW (s ++ t) (free - addlen)
  else
    let newlen := zlen s + addlen in
    let newlen := if newlen <? 1024 * 1024 then newlen * 2 else newlen + 1024 * 1024 in
    RAW (s ++ t) (newlen - (zlen s + addlen)).

(** [sdslen(o->ptr)] and its bytes. *)
Definition sds_of (v : strval) : option (list Z) :=
  match v with RAW s _ | EMBSTR s => Some s | INT _ => None end.

Definition listAddNodeTail (r : list node) (o : option loc) : list node * positive :=
  let a := fresh (list_to_set (addr <$> r) : gset positive) in
  (r ++ [mk_node a o], a).

(** The last node is replaced by one that has a copy of its object when there are
    other references to it. *)
Definition dupLastObjectIfNeeded (st : store) (r : list node) : option (loc * store * list node) :=
  ln ← last r;
  cur ← obj ln;
  o ← heap st !! cur;
  if refcount o >? 1 then
    '(new, st) ← dupStringObject st cur;
    st ← decrRefCount st cur;
    Some (new, st, removelast r ++ [mk_node (addr ln) (Some new)])
  else Some (cur, st, r).

Definition _addReplyToBuffer (c : redisClient) (s : list Z) : option (bool * redisClient) :=
  let available := REDIS_REPLY_CHUNK_BYTES - bufpos c in
  if has c REDIS_CLOSE_AFTER_REPLY then Some (true, c)
  else if negb (bool_decide (reply c = [])) then Some (false, c)
  else if zlen s >? available then Some (false, c)
  else
    b ← Prelude.store (buf c) (bufpos c) s;
    Some (true, set_buf c b (bufpos c + zlen s)).

(** The condition [tail->ptr != NULL && tail->encoding == REDIS_ENCODING_RAW &&
    sdslen(tail->ptr)+len <= REDIS_REPLY_CHUNK_BYTES] of the next three functions. *)
Definition tail_has_room (st : store) (c : redisClient) (len : Z) : option bool :=
  ln ← last (reply c);
  match obj ln with
  | None => Some false
  | Some p =>
      o ← heap st !! p;
      Some (match val o with
            | RAW ts _ => zlen ts + len <=? REDIS_REPLY_CHUNK_BYTES
            | _ => false
            end)
  end.

(** Their branch that appends to the last object. *)
Definition append_to_tail (st : store) (c : redisClient) (s : list Z) : option (store * redisClient) :=
  ln ← last (reply c);
  p ← obj ln;
  o ← heap st !! p;
  match val o with
  | RAW ts free =>
      let bytes := u64 (reply_bytes c - zmalloc_size_sds ts free) in
      '(tail, st, r) ← dupLastObjectIfNeeded st (reply c);
      o ← heap st !! tail;
      match val o with
      | RAW ts free =>
          let v := sdscatlen ts free s in
          let st := set_heap st (<[tail := mk_robj (refcount o) v]> (heap st)) in
          Some (st, set_reply c r (u64 (bytes + getStringObjectSdsUsedMemory v)))
      | _ => None
      end
  | _ => None
  end.

Definition _addReplyObjectToList (st : store) (c : redisClient) (p : loc) : option (store * redisClient) :=
  if has c REDIS_CLOSE_AFTER_REPLY then Some (st, c)
  else
    let add_node :=
      st ← incrRefCount st p;
      o ← heap st !! p;
      let '(r, _) := listAddNodeTail (reply c) (Some p) in
      Some (st, set_reply c r (u64 (reply_bytes c + getStringObjectSdsUsedMemory (val o)))) in
    '(st, c) ← (if bool_decide (reply c = []) then add_node
      else
        o ← heap st !! p;
        s ← sds_of (val o);
        room ← tail_has_room st c (zlen s);
        if (room : bool) then append_to_tail st c s else add_node);
    c ← asyncCloseClientOnOutputBufferLimitReached c;
    Some (st, c).

(** The string [s] with [free] spare bytes. *)
Definition _addReplySdsToList (st : store) (c : redisClient) (s : list Z) (free : Z)
    : option (store * redisClient) :=
  if has c REDIS_CLOSE_AFTER_REPLY then Some (st, c)
  else
    let add_node :=
      let '(p, st) := createObject st (RAW s free) in
      let '(r, _) := listAddNodeTail (reply c) (Some p) in
      Some (st, set_reply c r (u64 (reply_bytes c + zmalloc_size_sds s free))) in
    '(st, c) ← (if bool_decide (reply c = []) then add_node
      else
        room ← tail_has_room st c (zlen s);
        if (room : bool) then append_to_tail st c s else add_node);
    c ← asyncCloseClientOnOutputBufferLimitReached c;
    Some (st, c).

Definition _addReplyStringToList (st : store) (c : redisClient) (s : list Z) : option (store * redisClient) :=
  if has c REDIS_CLOSE_AFTER_REPLY then Some (st, c)
  else
    let add_node :=
      let '(p, st) := createStringObject st s in
      o ← heap st !! p;
      let '(r, _) := listAddNodeTail (reply c) (Some p) in
      Some (st, set_reply c r (u64 (reply_bytes c + getStringObjectSdsUsedMemory (val o)))) in
    '(st, c) ← (if bool_decide (reply c = []) then add_node
      else
        room ← tail_has_room st c (zlen s);
        if (room : bool) then append_to_tail st c s else add_node);
    c ← asyncCloseClientOnOutputBufferLimitReached c;
    Some (st, c).

Definition addReply (st : store) (c : redisClient) (p : loc) : option (store * redisClient) :=
  let '(ok, c) := prepareClientToWrite c in
  if negb ok then Some (st, c)
  else
    o ← heap st !! p;
    match val o with
    | RAW s _ | EMBSTR s =>
        '(ok, c) ← _addReplyToBuffer c s;
        if (ok : bool) then Some (st, c) else _addReplyObjectToList st c p
    | INT v =>
        '(done, c) ← (if bool_decide (reply c = []) && (REDIS_REPLY_CHUNK_BYTES - bufpos c >=? 32) then
            s ← ll_buf 32 v;
            _addReplyToBuffer c s
          else Some (false, c));
        if (done : bool) then Some (st, c)
        else
          '(q, st) ← getDecodedObject st p;
          o ← heap st !! q;
          s ← sds_of (val o);
          '(ok, c) ← _addReplyToBuffer c s;
          '(st, c) ← (if (ok : bool) then Some (st, c) else _addReplyObjectToList st c q);
          st ← decrRefCount st q;
          Some (st, c)
    end.

Definition addReplySds (st : store) (c : redisClient) (s : list Z) (free : Z) : option (store * redisClient) :=
  let '(ok, c) := prepareClientToWrite c in
  if negb ok then Some (st, c)
  else
    '(ok, c) ← _addReplyToBuffer c s;
    if (ok : bool) then Some (st, c) else _addReplySdsToList st c s free.

Definition addReplyString (st : store) (c : redisClient) (s : list Z) : option (store * redisClient) :=
  let '(ok, c) := prepareClientToWrite c in
  if negb ok then Some (st, c)
  else
    '(ok, c) ← _addReplyToBuffer c s;
    if (ok : bool) then Some (st, c) else _addReplyStringToList st c s.

Definition addReplyErrorLength (st : store) (c : redisClient) (s : list Z) : option (store * redisClient) :=
  '(st, c) ← addReplyString st c (bytes_of_string "-ERR ");
  '(st, c) ← addReplyString st c s;
  addReplyString st c [13; 10].

(** [err] up to its terminator. *)
Definition addReplyError (st : store) (c : redisClient) (err : list Z) : option (store * redisClient) :=
  addReplyErrorLength st c err.

(** On the string that [sdscatvprintf] has formatted. *)
Definition addReplyErrorFormat (st : store) (c : redisClient) (s : list Z) : option (store * redisClient) :=
  addReplyErrorLength st c ((fun b => if (b =? 13) || (b =? 10) then 32 else b) <$> s).

Definition addReplyStatusLength (st : store) (c : redisClient) (s : list Z) : option (store * redisClient) :=
  '(st, c) ← addReplyString st c (bytes_of_string "+");
  '(st, c) ← addReplyString st c s;
  addReplyString st c [13; 10].

Definition addReplyStatus (st : store) (c : redisClient) (status : list Z) : option (store * redisClient) :=
  addReplyStatusLength st c status.

(** The address of the node, [None] for NULL. *)
Definition addDeferredMultiBulkLength (c : redisClient) : option positive * redisClient :=
  let '(ok, c) := prepareClientToWrite c in
  if negb ok then (None, c)
  else
    let '(r, a) := listAddNodeTail (reply c) None in
    (Some a, set_reply c r (reply_bytes c)).

(** "<prefix><long long><crlf>". *)
Definition ll_line (n : nat) (prefix ll : Z) : option (list Z) :=
  s ← ll_buf n ll;
  Some (prefix :: s ++ [13; 10]).

(** The node at an address, with what is before and after it. *)
Fixpoint find_node (r : list node) (a : positive) : option (list node * node * list node) :=
  match r with
  | [] => None
  | n :: r =>
      if bool_decide (addr n = a) then Some ([], n, r)
      else '(b, m, e) ← find_node r a; Some (n :: b, m, e)
  end.

(** [sdscatprintf] on an empty string leaves as many spare bytes as it writes.  The
    object of the node gets its address here; [None] when the length was set
    already. *)
Definition setDeferredMultiBulkLength (st : store) (c : redisClient) (a : option positive) (length : Z)
    : option (store * redisClient) :=
  match a with
  | None => Some (st, c)
  | Some a =>
      '(before, ln, after) ← find_node (reply c) a;
      match obj ln with
      | Some _ => None
      | None =>
          hdr ← ll_line 128 42 length;
          let free := zlen hdr in
          let bytes := u64 (reply_bytes c + zmalloc_size_sds hdr free) in
          '(v, after, bytes, st) ← (match after with
            | next :: after' =>
                match obj next with
                | Some q =>
                    o ← heap st !! q;
                    s ← sds_of (val o);
                    let bytes := u64 (bytes - zmalloc_size_sds hdr free) in
                    let bytes := u64 (bytes - getStringObjectSdsUsedMemory (val o)) in
                    let v := sdscatlen hdr free s in
                    let bytes := u64 (bytes + getStringObjectSdsUsedMemory v) in
                    st ← decrRefCount st q;
                    Some (v, after', bytes, st)
                | None => Some (RAW hdr free, after, bytes, st)
                end
            | [] => Some (RAW hdr free, after, bytes, st)
            end);
          let '(p, st) := createObject st v in
          c ← asyncCloseClientOnOutputBufferLimitReached
                (set_reply c (before ++ mk_node (addr ln) (Some p) :: after) bytes);
          Some (st, c)
      end
  end.

(** ** Formats *)

Definition addReplyLongLongWithPrefix (st : store) (c : redisClient) (ll prefix : Z) : option (store * redisClient) :=
  if (prefix =? 42) && (ll <? REDIS_SHARED_BULKHDR_LEN) then
    p ← getb (mbulkhdr shared) ll; addReply st c p
  else if (prefix =? 36) && (ll <? REDIS_SHARED_BULKHDR_LEN) then
    p ← getb (bulkhdr shared) ll; addReply st c p
  else
    s ← ll_line 127 prefix ll;
    addReplyString st c s.

Definition addReplyLongLong (st : store) (c : redisClient) (ll : Z) : option (store * redisClient) :=
  if ll =? 0 then addReply st c (czero shared)
  else if ll =? 1 then addReply st c (cone shared)
  else addReplyLongLongWithPrefix st c ll 58.

Definition addReplyMultiBulkLen (st : store) (c : redisClient) (length : Z) : option (store * redisClient) :=
  if length <? REDIS_SHARED_BULKHDR_LEN then
    p ← getb (mbulkhdr shared) length; addReply st c p
  else addReplyLongLongWithPrefix st c length 42.

(** [while((n = n/10) != 0) len++]; a [long] has 19 digits. *)
Fixpoint count_digits (fuel : nat) (n len : Z) : option Z :=
  let n := Z.quot n 10 in
  if n =? 0 then Some len
  else match fuel with O => None | S fuel => count_digits fuel n (len + 1) end.

Definition addReplyBulkLen (st : store) (c : redisClient) (p : loc) : option (store * redisClient) :=
  o ← heap st !! p;
  len ← (match val o with
    | RAW s _ | EMBSTR s => Some (zlen s)
    | INT n =>
        if n <? 0 then
          if n =? LONG_MIN then None else count_digits 20 (- n) 2
        else count_digits 20 n 1
    end);
  if len <? REDIS_SHARED_BULKHDR_LEN then
    q ← getb (bulkhdr shared) len; addReply st c q
  else addReplyLongLongWithPrefix st c len 36.

Definition addReplyBulk (st : store) (c : redisClient) (p : loc) : option (store * redisClient) :=
  '(st, c) ← addReplyBulkLen st c p;
  '(st, c) ← addReply st c p;
  addReply st c (crlf shared).

Definition addReplyBulkCBuffer (st : store) (c : redisClient) (s : list Z) : option (store * redisClient) :=
  '(st, c) ← addReplyLongLongWithPrefix st c (zlen s) 36;
  '(st, c) ← addReplyString st c s;
  addReply st c (crlf shared).

(** [None] is NULL. *)
Definition addReplyBulkCString (st : store) (c : redisClient) (s : option (list Z)) : option (store * redisClient) :=
  match s with
  | None => addReply st c (nullbulk shared)
  | Some s => addReplyBulkCBuffer st c s
  end.

Definition addReplyBulkLongLong (st : store) (c : redisClient) (ll : Z) : option (store * redisClient) :=
  s ← ll_buf 64 ll;
  addReplyBulkCBuffer st c s.

(** ** Sending *)

(** What write(2) returns when it is asked for [n] bytes: [w], at most [n], or -1. *)
Definition write_result (w n : Z) : Z := if w <? 0 then -1 else Z.min w n.

Inductive sent :=
  | Open (st : store) (c : redisClient) (wire : list Z)
  | Freed (wire : list Z).

(** The loop of [sendReplyToClient].  [ws] are the results of the calls of
    write(2), and EAGAIN after them; [unlimited] says that the memory is over its
    limit; [wire] has the bytes that have been sent.  The last result is
    [nwritten]. *)
Fixpoint send_loop (fuel : nat) (unlimited : bool) (st : store) (c : redisClient) (ws : list Z)
    (nwritten totwritten : Z) (wire : list Z) : option (store * redisClient * Z * Z * list Z) :=
  if (bufpos c >? 0) || negb (bool_decide (reply c = [])) then
    match fuel with
    | O => None
    | S fuel =>
        let w := default (-1) (head ws) in
        if bufpos c >? 0 then
          b ← load (buf c) (sentlen c) (bufpos c - sentlen c);
          let nwritten := write_result w (zlen b) in
          if nwritten <=? 0 then Some (st, c, nwritten, totwritten, wire)
          else
            let c := set_sentlen c (sentlen c + nwritten) in
            let totwritten := totwritten + nwritten in
            let c := if sentlen c =? bufpos c then set_sentlen (set_buf c (buf c) 0) 0 else c in
            let wire := wire ++ take (Z.to_nat nwritten) b in
            if (totwritten >? REDIS_MAX_WRITE_PER_EVENT) && negb unlimited
            then Some (st, c, nwritten, totwritten, wire)
            else send_loop fuel unlimited st c (tail ws) nwritten totwritten wire
        else
          ln ← head (reply c);
          p ← obj ln;
          o ← heap st !! p;
          s ← sds_of (val o);
          let objmem := getStringObjectSdsUsedMemory (val o) in
          if zlen s =? 0 then
            st ← decrRefCount st p;
            send_loop fuel unlimited st (set_reply c (tail (reply c)) (u64 (reply_bytes c - objmem))) ws
              nwritten totwritten wire
          else
            b ← load s (sentlen c) (zlen s - sentlen c);
            let nwritten := write_result w (zlen b) in
            if nwritten <=? 0 then Some (st, c, nwritten, totwritten, wire)
            else
              let c := set_sentlen c (sentlen c + nwritten) in
              let totwritten := totwritten + nwritten in
              let wire := wire ++ take (Z.to_nat nwritten) b in
              '(st, c) ← (if sentlen c =? zlen s then
                  st ← decrRefCount st p;
                  Some (st, set_reply (set_sentlen c 0) (tail (reply c)) (u64 (reply_bytes c - objmem)))
                else Some (st, c));
              if (totwritten >? REDIS_MAX_WRITE_PER_EVENT) && negb unlimited
              then Some (st, c, nwritten, totwritten, wire)
              else send_loop fuel unlimited st c (tail ws) nwritten totwritten wire
    end
  else Some (st, c, nwritten, totwritten, wire).

(** [eagain] is whether [errno] is EAGAIN after a failed write. *)
Definition sendReplyToClient (unlimited eagain : bool) (st : store) (c : redisClient) (ws : list Z) : option sent :=
  '(st, c, nwritten, totwritten, wire) ←
    send_loop (S (length ws + length (reply c))) unlimited st c ws 0 0 [];
  if (nwritten =? -1) && negb eagain then Some (Freed wire)
  else
    let c := if (totwritten >? 0) && negb (has c REDIS_MASTER) then set_lastinteraction c unixtime else c in
    if (bufpos c =? 0) && bool_decide (reply c = []) then
      let c := set_writable (set_sentlen c 0) false in
      if has c REDIS_CLOSE_AFTER_REPLY then Some (Freed wire) else Some (Open st c wire)
    else Some (Open st c wire).

(** ** Copies *)

(** [listRelease]: the objects of the nodes are given up. *)
Fixpoint release_nodes (st : store) (r : list node) : option store :=
  match r with
  | [] => Some st
  | n :: r =>
      match obj n with
      | Some p => st ← decrRefCount st p; release_nodes st r
      | None => release_nodes st r
      end
  end.

(** [listDup] with [dupClientReplyValue]; a deferred length is not shared. *)
Fixpoint dup_nodes (st : store) (r : list node) (copy : list node) : option (store * list node) :=
  match r with
  | [] => Some (st, copy)
  | n :: r =>
      p ← obj n;
      st ← incrRefCount st p;
      dup_nodes st r (listAddNodeTail copy (Some p)).1
  end.

(** [copyClientOutputBuffer(dst,src)]. *)
Definition copyClientOutputBuffer (st : store) (dst src : redisClient) : option (store * redisClient) :=
  st ← release_nodes st (reply dst);
  '(st, r) ← dup_nodes st (reply src) [];
  b ← load (buf src) 0 (bufpos src);
  b ← Prelude.store (buf dst) 0 b;
  Some (st, set_reply (set_buf dst b (bufpos src)) r (reply_bytes src)).

End Reply.
