(* ===== verification/ReplyFacts.v ===== *)
(** * Theorems on the replies of networking.c

    The output buffers hold a sequence of bytes, with holes for the lengths that are
    not known yet.  Replies are appended to it, whatever the objects share, and what
    is sent is taken from its beginning. *)

From Stdlib Require Import ZArith Lia String.
From stdpp Require Import base numbers list gmap.
From S2P Require Import Prelude Util Object Reply.

Open Scope Z_scope.

(** ** Specification *)

(** A byte, or the length that will be set at a node. *)
Abbreviation atom := (Z + positive)%type.

Definition str (st : store) (p : loc) : list Z :=
  match heap st !! p with Some o => sds_ptr (val o) | None => [] end.

Definition content (st : store) (n : node) : list atom :=
  match obj n with Some p => inl <$> str st p | None => [inr (addr n)] end.

Definition body (st : store) (c : redisClient) : list atom :=
  (inl <$> take (Z.to_nat (bufpos c)) (buf c)) ++ (reply c ≫= content st).

(** What is left to send. *)
Definition pending (st : store) (c : redisClient) : list atom := drop (Z.to_nat (sentlen c)) (body st c).

(** The references of a list of nodes to an object. *)
Fixpoint occ (r : list node) (p : loc) : Z :=
  match r with [] => 0 | n :: r => count (obj n) p + occ r p end.

(** Somebody else refers to the object too. *)
Definition pinned (st : store) (c : redisClient) (p : loc) : Prop := occ (reply c) p < refs st p.

(** The objects of a list of nodes are strings. *)
Definition nodes_ok (st : store) (r : list node) : Prop :=
  forall n p, n ∈ r -> obj n = Some p ->
    exists o, heap st !! p = Some o /\ sdsEncodedObject (val o) = true.

Section Facts.
Context (zmalloc_size : Z -> Z) (client_obuf_limits : Z -> clientBufferLimitsConfig)
  (unixtime : Z) (ae_ok : bool) (shared : sharedObjects).
(** The allocator does not take more than the double of what it is asked for, and a
    page. *)
Hypothesis zmalloc_bound : forall n, 0 <= n -> 0 <= zmalloc_size n <= 2 * n + 4096.

Definition memory (st : store) (p : loc) : Z :=
  match heap st !! p with Some o => getStringObjectSdsUsedMemory zmalloc_size (val o) | None => 0 end.

Lemma memory_lookup st p o : heap st !! p = Some o -> memory st p = getStringObjectSdsUsedMemory zmalloc_size (val o).
Proof. unfold memory. by intros ->. Qed.

Fixpoint used (st : store) (r : list node) : Z :=
  match r with
  | [] => 0
  | n :: r => match obj n with Some p => memory st p | None => 0 end + used st r
  end.

(** The first of the buffers that have something has not been sent entirely. *)
Definition sent_ok (st : store) (c : redisClient) : Prop :=
  0 <= sentlen c /\
  if bufpos c >? 0 then sentlen c < bufpos c
  else match reply c with
       | [] => sentlen c = 0
       | n :: _ => sentlen c = 0 \/ sentlen c < zlen (content st n) /\ obj n <> None
       end.

(** The buffers, the account of the references and of the memory. *)
Record reply_ok (st : store) (c : redisClient) : Prop := {
  ok_buf : zlen (buf c) = REDIS_REPLY_CHUNK_BYTES /\ 0 <= bufpos c <= REDIS_REPLY_CHUNK_BYTES;
  ok_sent : sent_ok st c;
  ok_nodes : nodes_ok st (reply c);
  ok_refs : forall p, occ (reply c) p <= refs st p;
  ok_addr : NoDup (addr <$> reply c);
  ok_bytes : reply_bytes c = used st (reply c);
}.

Definition nonempty (c : redisClient) : Prop := bufpos c <> 0 \/ reply c <> [].

Definition online (c : redisClient) : bool :=
  (replstate c =? REDIS_REPL_NONE) || ((replstate c =? REDIS_REPL_ONLINE) && negb (repl_put_online_on_ack c)).

(** The event handler is there when it is needed. *)
Definition armed (c : redisClient) : Prop :=
  online c = true -> has c REDIS_LUA_CLIENT = false -> writable c = true.
Definition wake_ok (c : redisClient) : Prop := nonempty c -> armed c.

(** [k] more replies do not overflow a reference count or the account of the
    memory. *)
Definition ready (k : Z) (st : store) (c : redisClient) : Prop :=
  store_ok st /\ reply_ok st c /\ wake_ok c /\ 0 <= k <= 1000000 /\ margin k st /\
  reply_bytes c + k * 2 ^ 34 < ULONG_MAX - 1024 * 64.

(** The client may be closed soon, nothing else changes. *)
Definition same (c c' : redisClient) : Prop :=
  fd c' = fd c /\ replstate c' = replstate c /\ repl_put_online_on_ack c' = repl_put_online_on_ack c /\
  forall f, Z.land REDIS_CLOSE_ASAP f = 0 -> has c' f = has c f.

(** The data of the replies are the same. *)
Definition same_data (c c' : redisClient) : Prop :=
  buf c' = buf c /\ bufpos c' = bufpos c /\ reply c' = reply c /\ sentlen c' = sentlen c /\
  reply_bytes c' = reply_bytes c.

Definition willing (c : redisClient) : bool := (prepareClientToWrite ae_ok c).1.

(** Whether the client takes replies. *)
Definition accepts (c : redisClient) : bool := willing c && negb (has c REDIS_CLOSE_AFTER_REPLY).

(** The references that others have, and the values of the objects they refer to,
    do not change. *)
Definition frame (st : store) (c : redisClient) (st' : store) (c' : redisClient) : Prop :=
  (forall x, refs st' x - occ (reply c') x = refs st x - occ (reply c) x) /\
  (forall x o, pinned st c x -> heap st !! x = Some o -> exists o', heap st' !! x = Some o' /\ val o' = val o).

(** ** Lemmas: flags *)

Lemma has_asap c f : Z.land REDIS_CLOSE_ASAP f = 0 -> has (set_flags c (Z.lor (flags c) REDIS_CLOSE_ASAP)) f = has c f.
Proof. intros Hf. unfold has. cbn. by rewrite Z.land_lor_distr_l, Hf, Z.lor_0_r. Qed.

Lemma freeClientAsync_spec c :
  same c (freeClientAsync c) /\ same_data c (freeClientAsync c) /\ writable (freeClientAsync c) = writable c.
Proof.
  unfold freeClientAsync. destruct (_ || _); [by repeat split|]. split; [|by repeat split].
  repeat split. intros f. apply has_asap.
Qed.

Lemma asyncClose_spec c :
  reply_bytes c < ULONG_MAX - 1024 * 64 ->
  exists c', asyncCloseClientOnOutputBufferLimitReached client_obuf_limits unixtime c = Some c' /\
    same c c' /\ same_data c c' /\ writable c' = writable c.
Proof.
  intros Hb. unfold asyncCloseClientOnOutputBufferLimitReached. rewrite (proj2 (Z.ltb_lt _ _)) by done.
  destruct (_ || _); [by exists c; repeat split|].
  destruct (checkClientOutputBufferLimits client_obuf_limits unixtime c) as [over c1] eqn:Hc.
  assert (same c c1 /\ same_data c c1 /\ writable c1 = writable c) as (Hs & Hd & Hw).
  { unfold checkClientOutputBufferLimits in Hc.
    repeat case_match; simplify_eq; by repeat split. }
  eexists. split; [done|]. destruct over; [|done].
  destruct (freeClientAsync_spec c1) as (Hs1 & Hd1 & Hw1). unfold same, same_data in *.
  destruct Hs as (? & ? & ? & Hf), Hs1 as (? & ? & ? & Hf1). split_and!; try (by intuition congruence).
  intros f Hl. by rewrite Hf1, Hf.
Qed.

(** ** Lemmas: lists of nodes *)

Lemma occ_app a b p : occ (a ++ b) p = occ a p + occ b p.
Proof. induction a as [|n a IH]; [done|]. cbn [app occ]. lia. Qed.

Lemma occ_nonneg r p : 0 <= occ r p.
Proof. induction r as [|n r IH]; [done|]. cbn [occ]. pose proof (count_range (obj n) p). lia. Qed.

Lemma occ_elem r n p : n ∈ r -> obj n = Some p -> 1 <= occ r p.
Proof.
  intros Hn Ho. apply list_elem_of_split in Hn as (a & b & ->). rewrite occ_app. cbn [occ].
  rewrite Ho, count_same. pose proof (occ_nonneg a p). pose proof (occ_nonneg b p). lia.
Qed.

Lemma used_app st a b : used st (a ++ b) = used st a + used st b.
Proof. induction a as [|n a IH]; [done|]. cbn [app used]. lia. Qed.

Lemma zmalloc_sds_nonneg s free : 0 <= free -> 0 <= zmalloc_size_sds zmalloc_size s free.
Proof. intros Hf. unfold zmalloc_size_sds. apply zmalloc_bound. pose proof (zlen_nonneg s). lia. Qed.

Lemma memory_nonneg st p : store_ok st -> 0 <= memory st p.
Proof.
  intros Hst. unfold memory. destruct (heap st !! p) as [o|] eqn:Ho; [|done].
  destruct (ok_obj st Hst p o Ho) as [Hv _]. destruct (val o) as [s free|s|v]; cbn in *.
  - apply zmalloc_sds_nonneg. lia.
  - apply zlen_nonneg.
  - lia.
Qed.

Lemma reply_used_nonneg st r : store_ok st -> 0 <= used st r.
Proof.
  intros Hst. induction r as [|n r IH]; [done|]. cbn [used]. destruct (obj n) as [p|]; [|lia].
  pose proof (memory_nonneg st p Hst). lia.
Qed.

(** Nodes whose objects are the same in two stores. *)
Definition agree (st st' : store) (r : list node) : Prop :=
  forall n p, n ∈ r -> obj n = Some p -> exists o o', heap st !! p = Some o /\ heap st' !! p = Some o' /\ val o' = val o.

Lemma agree_cons st st' n r : agree st st' (n :: r) -> agree st st' r.
Proof. intros Ha m p Hm. apply Ha. by right. Qed.

Lemma agree_content st st' r : agree st st' r -> r ≫= content st' = r ≫= content st.
Proof.
  induction r as [|n r IH]; intros Ha; [done|]. rewrite !bind_cons, IH by (by apply agree_cons in Ha).
  f_equal. unfold content. destruct (obj n) as [p|] eqn:Hn; [|done].
  destruct (Ha n p) as (o & o' & Ho & Ho' & Hv); [by left|done|]. unfold str. by rewrite Ho, Ho', Hv.
Qed.

Lemma agree_used st st' r : agree st st' r -> used st' r = used st r.
Proof.
  induction r as [|n r IH]; intros Ha; [done|]. cbn [used]. rewrite IH by (by apply agree_cons in Ha).
  f_equal. destruct (obj n) as [p|] eqn:Hn; [|done].
  destruct (Ha n p) as (o & o' & Ho & Ho' & Hv); [by left|done|]. unfold memory. by rewrite Ho, Ho', Hv.
Qed.

Lemma agree_nodes st st' r : agree st st' r -> nodes_ok st r -> nodes_ok st' r.
Proof.
  intros Ha Hn n p Hin Hp. destruct (Ha n p Hin Hp) as (o & o' & Ho & Ho' & Hv).
  destruct (Hn n p Hin Hp) as (o2 & Ho2 & He). exists o'. split; [done|]. rewrite Hv. congruence.
Qed.

(** A store that is the same but at [x], which the nodes do not use, or whose value
    does not change. *)
Lemma agree_insert st st' r x o :
  nodes_ok st r -> heap st' = <[x := o]> (heap st) ->
  (forall o0, heap st !! x = Some o0 -> val o = val o0 \/ occ r x = 0) -> agree st st' r.
Proof.
  intros Hok Hh Hx n p Hn Hp. destruct (Hok n p Hn Hp) as (o1 & Ho1 & _). exists o1.
  rewrite Hh. destruct (decide (x = p)) as [->|Hne].
  - exists o. rewrite lookup_insert_eq. split; [done|]. split; [done|].
    destruct (Hx o1 Ho1) as [?|H0]; [done|]. pose proof (occ_elem r n p Hn Hp). lia.
  - exists o1. rewrite lookup_insert_ne by done. done.
Qed.

(** ** Lemmas: appending *)

Lemma sent_le st c : reply_ok st c -> (Z.to_nat (sentlen c) <= length (body st c))%nat.
Proof.
  intros [Hb [Hs0 Hs] _ _ _ _]. unfold body. rewrite length_app, length_fmap, length_take.
  unfold zlen in Hb. rewrite Z.gtb_ltb in Hs. destruct (Z.ltb_spec 0 (bufpos c)); [lia|].
  destruct (reply c) as [|n r]; [lia|]. rewrite bind_cons, length_app. unfold zlen in Hs. lia.
Qed.

Lemma reply_pending_app st c st' c' x :
  reply_ok st c -> sentlen c' = sentlen c -> body st' c' = body st c ++ x -> pending st' c' = pending st c ++ x.
Proof. intros Hok Hs Hb. unfold pending. rewrite Hs, Hb. by rewrite drop_app_le by (by apply sent_le). Qed.

Lemma content_obj st n p : obj n = Some p -> content st n = inl <$> str st p.
Proof. unfold content. by intros ->. Qed.

(** A node is added for an object that gains a reference, or that is new. *)
Lemma reply_link_spec st c p v a :
  let st1 := set_heap st (<[p := mk_robj (refs st p + 1) v]> (heap st)) in
  let c1 := set_reply c (reply c ++ [mk_node a (Some p)]) (reply_bytes c + getStringObjectSdsUsedMemory zmalloc_size v) in
  reply_ok st c -> sdsEncodedObject v = true ->
  (forall o, heap st !! p = Some o -> val o = v) -> a ∉ addr <$> reply c ->
  reply_ok st1 c1 /\ frame st c st1 c1 /\ pending st1 c1 = pending st c ++ (inl <$> sds_ptr v).
Proof.
  intros st1 c1 Hok Hv Hp Ha. pose proof Hok as [Hb Hs Hn Hr Hd Hm].
  assert (heap st1 = <[p := mk_robj (refs st p + 1) v]> (heap st)) as Hh by done.
  assert (heap st1 !! p = Some (mk_robj (refs st p + 1) v)) as Hp1 by (rewrite Hh; apply lookup_insert_eq).
  assert (agree st st1 (reply c)) as Hag.
  { eapply agree_insert; [done..|]. intros o Ho. left. by rewrite (Hp o Ho). }
  assert (forall x, refs st1 x = refs st x + count (Some p) x) as Hrefs.
  { intros x. unfold st1. rewrite refs_insert. cbn. unfold count. case_decide as Hx; simplify_eq;
      [rewrite decide_True by done; lia|rewrite decide_False by congruence; lia]. }
  split; [|split].
  - split; cbn.
    + done.
    + destruct Hs as [Hs0 Hs]. split; [done|]. cbn. destruct (bufpos c >? 0); [done|].
      destruct (reply c) as [|n r]; cbn; [by left|]. destruct Hs as [?|[Hs Hne]]; [by left|right]. split; [|done].
      pose proof (agree_content st st1 [n]) as Hc. rewrite !bind_cons in Hc. cbn in Hc. rewrite !app_nil_r in Hc.
      rewrite Hc; [done|]. intros m q Hm' Hq. apply list_elem_of_singleton in Hm' as ->. apply (Hag n); [by left|done].
    + intros n q [Hin|Hin]%elem_of_app Hq; [by apply (agree_nodes _ _ _ Hag Hn n)|].
      apply list_elem_of_singleton in Hin as ->. injection Hq as <-. by eexists.
    + intros x. rewrite occ_app, Hrefs. cbn. specialize (Hr x). lia.
    + rewrite fmap_app. apply NoDup_app. split; [done|]. split; [|apply NoDup_singleton].
      intros x Hx Hx'%list_elem_of_singleton. by subst x.
    + rewrite used_app, (agree_used _ _ _ Hag), Hm. cbn. unfold memory. rewrite Hp1. cbn. lia.
  - split.
    + intros x. change (reply c1) with (reply c ++ [mk_node a (Some p)]). rewrite occ_app, Hrefs. cbn. lia.
    + intros x o _ Ho. rewrite Hh. destruct (decide (p = x)) as [<-|Hne].
      * eexists. rewrite lookup_insert_eq. split; [done|]. cbn. by rewrite (Hp o Ho).
      * exists o. by rewrite lookup_insert_ne.
  - apply reply_pending_app; [done|done|]. unfold body. change (reply c1) with (reply c ++ [mk_node a (Some p)]).
    rewrite bind_app, <- app_assoc, (agree_content _ _ _ Hag), bind_cons, app_nil_r.
    rewrite (content_obj _ _ p) by done. unfold str. by rewrite Hp1.
Qed.

Lemma fresh_addr (r : list node) : fresh (list_to_set (addr <$> r) : gset positive) ∉ addr <$> r.
Proof.
  intros Hin. apply (is_fresh (list_to_set (addr <$> r) : gset positive)). by apply elem_of_list_to_set.
Qed.

Lemma refs_none st p : heap st !! p = None -> refs st p = 0.
Proof. unfold refs. by intros ->. Qed.

Lemma sdscatlen_spec s free t :
  exists f', sdscatlen s free t = RAW (s ++ t) f' /\
    (0 <= free -> 0 <= f' /\ (zlen s + zlen t <= REDIS_REPLY_CHUNK_BYTES ->
      zlen (s ++ t) + f' = zlen s + free \/ zlen (s ++ t) + f' <= 2 * REDIS_REPLY_CHUNK_BYTES)).
Proof.
  unfold sdscatlen. pose proof (zlen_nonneg s). pose proof (zlen_nonneg t). rewrite Z.geb_leb, zlen_app.
  unfold REDIS_REPLY_CHUNK_BYTES. destruct (Z.leb_spec (zlen t) free); eexists; (split; [done|]); intros Hf.
  - split; [lia|]. left. lia.
  - destruct (Z.ltb_spec (zlen s + zlen t) (1024 * 1024)); split; lia.
Qed.

Lemma reply_frame_trans st c st1 c1 st2 c2 : frame st c st1 c1 -> frame st1 c1 st2 c2 -> frame st c st2 c2.
Proof.
  intros [R1 V1] [R2 V2]. split; [intros x; by rewrite R2, R1|].
  intros x o Hp Ho. destruct (V1 x o Hp Ho) as (o1 & Ho1 & Hv1).
  destruct (V2 x o1) as (o2 & Ho2 & Hv2); [|done|exists o2; by rewrite Hv2].
  unfold pinned in *. specialize (R1 x). lia.
Qed.

Lemma reply_bytes_set c r n : reply_bytes (set_reply c r n) = n.
Proof. done. Qed.

Lemma sent_ok_nodes st st' c r n n' m :
  sent_ok st c -> reply c = r ++ [n] -> agree st st' r -> obj n <> None -> obj n' <> None -> zlen (content st n) <= zlen (content st' n') ->
  sent_ok st' (set_reply c (r ++ [n']) m).
Proof.
  intros [Hs0 Hs] Hr Ha Hn Hn' Hl. split; [done|]. cbn. destruct (bufpos c >? 0); [done|]. rewrite Hr in Hs.
  destruct r as [|x r]; cbn in *.
  - destruct Hs as [?|[Hs _]]; [by left|right]. split; [lia|done].
  - destruct Hs as [?|[Hs Hx]]; [by left|right]. split; [|done].
    destruct (obj x) as [p|] eqn:Hxp; [|done]. destruct (Ha x p) as (o & o' & Ho & Ho' & Hv); [by left|done|].
    rewrite (content_obj st x p Hxp) in Hs. rewrite (content_obj st' x p Hxp). unfold str in *.
    rewrite Ho in Hs. by rewrite Ho', Hv.
Qed.

(** The last object before something is appended to it. *)
Lemma reply_dup_spec st c a n p o ts free :
  store_ok st -> reply_ok st c -> reply c = a ++ [n] -> obj n = Some p -> heap st !! p = Some o -> val o = RAW ts free ->
  exists q st1 f1, dupLastObjectIfNeeded st (reply c) = Some (q, st1, a ++ [mk_node (addr n) (Some q)]) /\
    store_ok st1 /\ heap st1 !! q = Some (mk_robj 1 (RAW ts f1)) /\ (f1 = free \/ f1 = 0) /\
    (forall x, refs st1 x <= refs st x \/ refs st1 x = 1) /\
    let c1 := set_reply c (a ++ [mk_node (addr n) (Some q)]) (used st a + zmalloc_size_sds zmalloc_size ts f1) in
    reply_ok st1 c1 /\ frame st c st1 c1 /\ pending st1 c1 = pending st c.
Proof.
  intros Hst Hok Hre Hn Hp Hv. destruct n as [ad ob]. cbn in Hn. subst ob. cbn [addr].
  destruct (ok_obj st Hst p o Hp) as [Hwf Hrc]. rewrite Hv in Hwf. cbn in Hwf. destruct o as [rc v]. cbn in Hv. subst v.
  cbn [refcount] in Hrc. pose proof Hok as [Hb Hs Hnd Hr Hd Hm]. rewrite Hre in *.
  unfold dupLastObjectIfNeeded. rewrite last_snoc. sbind. cbn [obj]. sbind. rewrite Hp. sbind. cbn [refcount].
  destruct (Z.gtb_spec rc 1) as [Hgt|Hle].
  - unfold dupStringObject. rewrite Hp. sbind. cbn [val]. unfold createRawStringObject.
    destruct (createObject st (RAW ts 0)) as [q st0] eqn:Hcr.
    apply createObject_spec in Hcr as (Hq & Hst0 & Hok0 & _); [|done|cbn; lia].
    assert (p <> q) as Hpq by congruence.
    assert (heap st0 !! p = Some (mk_robj rc (RAW ts free))) as Hp0 by (subst st0; cbn; by rewrite lookup_insert_ne).
    destruct (decrRefCount_gen st0 p _ Hok0 Hp0) as (st1 & Hdec & Hok1 & _); [done|]. sbind. rewrite Hdec. sbind.
    assert (st1 = set_heap st0 (<[p := mk_robj (rc - 1) (RAW ts free)]> (heap st0))) as Hst1.
    { unfold decrRefCount in Hdec. rewrite Hp0 in Hdec. cbn [refcount val] in Hdec. revert Hdec. sbind. cbn [refcount val].
      rewrite (proj2 (Z.leb_gt _ _)), (proj2 (Z.eqb_neq _ _)) by lia. by intros [= <-]. }
    assert (forall x, heap st1 !! x = if decide (p = x) then Some (mk_robj (rc - 1) (RAW ts free))
      else if decide (q = x) then Some (mk_robj 1 (RAW ts 0)) else heap st !! x) as Hlook.
    { intros x. rewrite Hst1. cbn. rewrite lookup_insert. case_decide; [done|]. rewrite Hst0. cbn.
      by rewrite lookup_insert. }
    assert (forall x, refs st1 x = refs st x + count (Some q) x - count (Some p) x) as Hrefs.
    { intros x. unfold refs at 1. rewrite Hlook. destruct (decide (p = x)) as [<-|Hx].
      - rewrite (refs_lookup st p _ Hp), count_same, (count_other q p) by done. cbn. lia.
      - rewrite (count_other p x Hx). destruct (decide (q = x)) as [<-|Hx'].
        + rewrite (refs_none st q Hq), count_same. cbn. lia.
        + rewrite (count_other q x Hx'). unfold refs. lia. }
    assert (heap st1 !! q = Some (mk_robj 1 (RAW ts 0))) as Hq1.
    { rewrite Hlook. rewrite decide_False, decide_True by done. done. }
    assert (agree st st1 a) as Hag.
    { intros n x Hin Hx. destruct (Hnd n x) as (o & Ho & He); [by apply elem_of_app; left|done|].
      exists o. rewrite Hlook. case_decide; [simplify_eq; by eexists|]. case_decide; [congruence|by exists o]. }
    set (n' := mk_node ad (Some q)). rewrite removelast_last.
    assert (((a ++ [mk_node ad (Some p)]) ≫= content st) = ((a ++ [n']) ≫= content st1)) as Hcont.
    { rewrite !bind_app, !bind_cons, (agree_content _ _ _ Hag). do 2 f_equal. cbn. unfold str. by rewrite Hp, Hq1. }
    exists q, st1, 0. split; [done|]. split; [done|]. split; [done|]. split; [by right|]. split.
    { intros x. rewrite Hrefs. destruct (decide (q = x)) as [<-|Hne].
      - right. rewrite (refs_none st q Hq), count_same, count_other by done. lia.
      - left. rewrite (count_other q x Hne). pose proof (count_range (Some p) x). lia. }
    split; [|split].
    + split; cbn [buf bufpos reply reply_bytes set_reply sentlen]; [done| | | | |].
      * apply (sent_ok_nodes st st1 c a (mk_node ad (Some p))); try done. cbn. unfold str. by rewrite Hp, Hq1.
      * intros n x [Hin|Hin]%elem_of_app Hx.
        { apply (agree_nodes st st1 a Hag) with n; [|done|done]. intros m y Hm' Hy. apply (Hnd m y); [by apply elem_of_app; left|done]. }
        apply list_elem_of_singleton in Hin as ->. injection Hx as <-. by eexists.
      * intros x. rewrite Hrefs. specialize (Hr x). rewrite occ_app in *. cbn in *. lia.
      * rewrite fmap_app in *. done.
      * rewrite used_app, (agree_used _ _ _ Hag). cbn. unfold memory. rewrite Hq1. cbn. lia.
    + split.
      * intros x. rewrite Hrefs. cbn [set_reply reply]. rewrite Hre, !occ_app. cbn. lia.
      * intros x o _ Ho. rewrite Hlook. case_decide; [simplify_eq; by eexists|].
        case_decide; [congruence|by exists o].
    + unfold pending, body. cbn [set_reply reply bufpos buf sentlen]. by rewrite Hre, Hcont.
  - assert (rc = 1) as -> by lia. exists p, st, free. split; [done|]. split; [done|]. split; [done|].
    split; [by left|]. split; [by left|].
    assert (used st a + zmalloc_size_sds zmalloc_size ts free = reply_bytes c) as ->.
    { rewrite Hm, used_app. cbn. unfold memory. rewrite Hp. cbn. lia. }
    assert (set_reply c (a ++ [mk_node ad (Some p)]) (reply_bytes c) = c) as -> by (rewrite <- Hre; by destruct c).
    split; [done|]. split; [|done]. split; [done|]. intros x o _ Ho. by exists o.
Qed.

(** What is appended to an object that nobody else refers to. *)
Lemma inplace_spec st c a n q ts f1 s f' :
  let st2 := set_heap st (<[q := mk_robj 1 (RAW (ts ++ s) f')]> (heap st)) in
  let c2 := set_reply c (a ++ [n]) (used st a + zmalloc_size_sds zmalloc_size (ts ++ s) f') in
  store_ok st -> reply_ok st c -> reply c = a ++ [n] -> obj n = Some q ->
  heap st !! q = Some (mk_robj 1 (RAW ts f1)) -> 0 <= f' -> zlen (ts ++ s) <= 536870912 ->
  store_ok st2 /\ reply_ok st2 c2 /\ frame st c st2 c2 /\ pending st2 c2 = pending st c ++ (inl <$> s).
Proof.
  intros st2 c2 Hst Hok Hre Hn Hq Hf' Hlen. pose proof Hok as [Hb Hs Hnd Hr Hd Hm]. rewrite Hre in *.
  assert (heap st2 = <[q := mk_robj 1 (RAW (ts ++ s) f')]> (heap st)) as Hh by done.
  assert (heap st2 !! q = Some (mk_robj 1 (RAW (ts ++ s) f'))) as Hq2 by (rewrite Hh; apply lookup_insert_eq).
  assert (occ a q = 0) as Hocc.
  { specialize (Hr q). rewrite occ_app, (refs_lookup st q _ Hq) in Hr. cbn [occ refcount] in Hr. rewrite Hn, count_same in Hr.
    pose proof (occ_nonneg a q). lia. }
  assert (agree st st2 a) as Hag.
  { eapply agree_insert; [|done|by intros; right]. intros m x Hm' Hx. apply (Hnd m x); [by apply elem_of_app; left|done]. }
  assert (forall x, refs st2 x = refs st x) as Hrefs.
  { intros x. unfold st2. rewrite refs_insert. cbn. case_decide; [|done]. subst x. by rewrite (refs_lookup st q _ Hq). }
  split; [|split; [|split]].
  - apply store_ok_insert; cbn; [done|done|unfold INT32_MAX; lia|]. intros i y o' Hy Hv <-. rewrite Hq in Hy. by injection Hy as <-.
  - split; cbn [buf bufpos reply reply_bytes set_reply sentlen c2]; [done| | | | |].
    + apply (sent_ok_nodes st st2 c a n); try done; [by rewrite Hn..|].
      rewrite !(content_obj _ n q) by done. unfold str. rewrite Hq, Hq2. cbn [val sds_ptr].
      rewrite !zlen_fmap, zlen_app. pose proof (zlen_nonneg s). lia.
    + intros m x [Hin|Hin]%elem_of_app Hx.
      { apply (agree_nodes st st2 a Hag) with m; [|done|done]. intros y z Hy Hz. apply (Hnd y z); [by apply elem_of_app; left|done]. }
      apply list_elem_of_singleton in Hin as ->. assert (x = q) as -> by congruence. by eexists.
    + intros x. by rewrite Hrefs.
    + done.
    + rewrite used_app, (agree_used _ _ _ Hag). cbn. rewrite Hn. unfold memory. rewrite Hq2. cbn. lia.
  - split; [intros x; rewrite Hrefs; cbn; by rewrite Hre|]. intros x o Hp Ho. rewrite Hh.
    destruct (decide (q = x)) as [<-|Hne]; [|exists o; by rewrite lookup_insert_ne].
    exfalso. unfold pinned in Hp. rewrite Hre, occ_app, (refs_lookup st q _ Hq) in Hp. cbn in Hp.
    rewrite Hn, count_same in Hp. lia.
  - apply reply_pending_app; [done|done|]. unfold body. cbn [set_reply reply bufpos buf c2]. rewrite Hre.
    rewrite !bind_app, !bind_cons, (agree_content _ _ _ Hag). cbn. rewrite !app_nil_r, <- !app_assoc.
    do 2 f_equal. rewrite !(content_obj _ n q) by done. unfold str. rewrite Hq, Hq2. cbn. by rewrite fmap_app.
Qed.

(** What an addition to the list does. *)
Definition appended (st : store) (c : redisClient) (st' : store) (c' : redisClient) (bs : list Z) : Prop :=
  store_ok st' /\ reply_ok st' c' /\ same c c' /\ writable c' = writable c /\ frame st c st' c' /\
  pending st' c' = pending st c ++ (inl <$> bs) /\ (nonempty c -> nonempty c') /\
  reply_bytes c' <= reply_bytes c + 2 ^ 34 /\ (forall x, refs st' x <= Z.max (refs st x + 1) 2).

Lemma same_refl c : same c c.
Proof. by repeat split. Qed.

Lemma zmalloc_small s free : zlen s + free <= 2 ^ 31 -> 0 <= free -> 0 <= zmalloc_size_sds zmalloc_size s free <= 2 ^ 33.
Proof.
  intros Hs Hf. unfold zmalloc_size_sds. pose proof (zlen_nonneg s).
  pose proof (zmalloc_bound (8 + (zlen s + free + 1))). lia.
Qed.

Lemma append_to_tail_spec st c s :
  store_ok st -> reply_ok st c -> reply c <> [] -> tail_has_room st c (zlen s) = Some true ->
  reply_bytes c + 2 ^ 34 < 2 ^ 64 ->
  exists st' c', append_to_tail zmalloc_size st c s = Some (st', c') /\ appended st c st' c' s.
Proof.
  intros Hst Hok Hne Hroom Hmax. destruct (reply c) as [|n a _] eqn:Hre using rev_ind; [done|]. clear Hne.
  unfold tail_has_room in Hroom. rewrite Hre, last_snoc in Hroom. revert Hroom. sbind.
  destruct (obj n) as [p|] eqn:Hn; [|done]. destruct (heap st !! p) as [o|] eqn:Hp; [|done]. sbind.
  destruct (val o) as [ts free|ts|v] eqn:Hv; [|done|done]. intros [= Hroom%Z.leb_le].
  destruct (reply_dup_spec st c a n p o ts free) as (q & st1 & f1 & Hdup & Hst1 & Hq & Hf1 & Hrf & Hok1 & Hfr1 & Hp1); try done.
  destruct (ok_obj st Hst p o Hp) as [Hwf _]. rewrite Hv in Hwf. cbn in Hwf.
  unfold append_to_tail. rewrite Hdup, Hre, last_snoc. sbind. rewrite Hn. sbind. rewrite Hp. sbind. rewrite Hv, Hq. sbind.
  cbn [val refcount]. destruct (sdscatlen_spec ts f1 s) as (f' & -> & Hf').
  destruct Hf' as [Hf0 Hcap]; [destruct Hf1; lia|]. specialize (Hcap Hroom).
  assert (zlen (ts ++ s) <= REDIS_REPLY_CHUNK_BYTES) as Hlen by (rewrite zlen_app; lia).
  unfold REDIS_REPLY_CHUNK_BYTES in *. pose proof (zlen_nonneg (ts ++ s)). pose proof (zlen_nonneg ts). pose proof (zlen_nonneg s).
  set (c1 := set_reply c _ _) in *.
  destruct (inplace_spec st1 c1 a (mk_node (addr n) (Some q)) q ts f1 s f') as (Hst2 & Hok2 & Hfr2 & Hp2); try done; [lia|].
  assert (used st1 a = used st a) as Hua.
  { pose proof (ok_bytes _ _ Hok1) as Hb. cbn in Hb. rewrite used_app in Hb. cbn in Hb. unfold memory in Hb. rewrite Hq in Hb.
    cbn in Hb. lia. }
  rewrite Hua in *. assert (reply_bytes c = used st a + zmalloc_size_sds zmalloc_size ts free) as Hm.
  { rewrite (ok_bytes _ _ Hok), Hre, used_app. cbn. rewrite Hn. unfold memory. rewrite Hp, Hv. cbn. lia. }
  pose proof (reply_used_nonneg st a Hst). pose proof (zmalloc_sds_nonneg ts free).
  assert (0 <= zmalloc_size_sds zmalloc_size (ts ++ s) f' <= zmalloc_size_sds zmalloc_size ts free + 2 ^ 33) as Hsz.
  { destruct Hcap as [Hc|Hc].
    - destruct Hf1 as [->| ->].
      + unfold zmalloc_size_sds. rewrite Hc. pose proof (zmalloc_bound (8 + (zlen ts + free + 1))). lia.
      + pose proof (zmalloc_small (ts ++ s) f'). lia.
    - pose proof (zmalloc_small (ts ++ s) f'). lia. }
  eexists _, _. split; [done|]. cbn [getStringObjectSdsUsedMemory].
  assert (u64 (u64 (reply_bytes c - zmalloc_size_sds zmalloc_size ts free) + zmalloc_size_sds zmalloc_size (ts ++ s) f')
    = used st a + zmalloc_size_sds zmalloc_size (ts ++ s) f') as ->.
  { rewrite (u64_small (reply_bytes c - _)) by lia. rewrite u64_small by lia. lia. }
  split; [done|]. split; [done|]. split; [by repeat split|]. split; [done|].
  split; [by apply (reply_frame_trans st c st1 c1)|]. split; [by rewrite <- Hp1|]. split; [right; by destruct a|].
  split; [cbn [reply_bytes set_reply]; lia|].
  intros x. rewrite refs_insert. cbn [refcount]. case_decide; [lia|]. destruct (Hrf x) as [?|?]; lia.
Qed.

(** A string without more spare bytes than the commands leave. *)
Definition light (v : strval) : Prop := match v with RAW _ free => free <= 2 ^ 30 | _ => True end.

Lemma memory_small v :
  wf_val v -> light v -> 0 <= getStringObjectSdsUsedMemory zmalloc_size v <= 2 ^ 33.
Proof.
  destruct v as [s free|s|v]; cbn; intros Hw Hl; [|pose proof (zlen_nonneg s); unfold REDIS_ENCODING_EMBSTR_SIZE_LIMIT in *; lia|lia].
  apply zmalloc_small; lia.
Qed.

Lemma reply_bytes_nonneg st c : store_ok st -> reply_ok st c -> 0 <= reply_bytes c.
Proof. intros Hst Hok. rewrite (ok_bytes _ _ Hok). by apply reply_used_nonneg. Qed.

Lemma link_appended st c p v :
  let st1 := set_heap st (<[p := mk_robj (refs st p + 1) v]> (heap st)) in
  store_ok st1 -> store_ok st -> reply_ok st c -> sdsEncodedObject v = true -> wf_val v -> light v ->
  (forall o, heap st !! p = Some o -> val o = v) -> reply_bytes c + 2 ^ 34 < 2 ^ 64 ->
  appended st c st1 (set_reply c (listAddNodeTail (reply c) (Some p)).1
    (u64 (reply_bytes c + getStringObjectSdsUsedMemory zmalloc_size v))) (sds_ptr v).
Proof.
  intros st1 Hst1 Hst Hok Hv Hwf Hl Hp Hmax. pose proof (memory_small v Hwf Hl).
  pose proof (reply_bytes_nonneg st c Hst Hok). rewrite u64_small by lia. unfold listAddNodeTail. cbn [fst].
  destruct (reply_link_spec st c p v (fresh (list_to_set (addr <$> reply c) : gset positive))) as (Hok1 & Hfr & Hpe);
    [done|done|done|apply fresh_addr|].
  split; [done|]. split; [done|]. split; [by repeat split|]. split; [done|]. split; [done|]. split; [done|].
  split; [right; by destruct (reply c)|]. split; [cbn; lia|].
  intros x. unfold st1. rewrite refs_insert. cbn. case_decide; [subst x; lia|lia].
Qed.

Lemma refs_of st p o : heap st !! p = Some o -> mk_robj (refs st p) (val o) = o.
Proof. intros Hp. rewrite (refs_lookup st p o Hp). by destruct o. Qed.

Lemma room_none st c s :
  reply_ok st c -> reply c <> [] -> exists b, tail_has_room st c s = Some b.
Proof.
  intros Hok Hne. unfold tail_has_room. destruct (reply c) as [|n a _] eqn:Hre using rev_ind; [done|].
  rewrite last_snoc. sbind. destruct (obj n) as [p|] eqn:Hn; [|by eexists].
  destruct (ok_nodes _ _ Hok n p) as (o & -> & _); [rewrite Hre; apply elem_of_app; right; by left|done|].
  by eexists.
Qed.

(** The three functions that add to the list. *)
Lemma list_appended (add_node : option (store * redisClient)) (s : list Z) st c st1 c1 :
  add_node = Some (st1, c1) -> appended st c st1 c1 s ->
  store_ok st -> reply_ok st c -> reply_bytes c + 2 ^ 34 < ULONG_MAX - 1024 * 64 ->
  exists st' c',
    ('(st, c) ← (if bool_decide (reply c = []) then add_node
       else room ← tail_has_room st c (zlen s);
         if (room : bool) then append_to_tail zmalloc_size st c s else add_node);
     c ← asyncCloseClientOnOutputBufferLimitReached client_obuf_limits unixtime c;
     Some (st, c)) = Some (st', c') /\ appended st c st' c' s.
Proof.
  intros -> Happ Hst Hok Hmax. unfold ULONG_MAX in *.
  assert (exists st2 c2, (if bool_decide (reply c = []) then Some (st1, c1)
       else room ← tail_has_room st c (zlen s);
         if (room : bool) then append_to_tail zmalloc_size st c s else Some (st1, c1)) = Some (st2, c2) /\
     appended st c st2 c2 s) as (st2 & c2 & -> & Happ2).
  { case_bool_decide as Hne; [by exists st1, c1|].
    destruct (room_none st c (zlen s) Hok Hne) as [b Hb]. rewrite Hb. sbind. destruct b; [|by exists st1, c1].
    apply append_to_tail_spec; try done. lia. }
  sbind. destruct Happ2 as (Hst2 & Hok2 & Hs2 & Hw2 & Hf2 & Hp2 & Hn2 & Hb2 & Hr2).
  destruct (asyncClose_spec c2) as (c3 & -> & Hs3 & (Hd1 & Hd2 & Hd3 & Hd4 & Hd5) & Hw3); [unfold ULONG_MAX; lia|].
  sbind. exists st2, c3. split; [done|]. split; [done|].
  assert (body st2 c3 = body st2 c2) as Hbody by (unfold body; by rewrite Hd1, Hd2, Hd3).
  split.
  { destruct Hok2 as [A1 A2 A3 A4 A5 A6]. split; rewrite ?Hd1, ?Hd2, ?Hd3, ?Hd5; try done.
    unfold sent_ok in *. by rewrite Hd2, Hd3, Hd4. }
  split.
  { destruct Hs2 as (? & ? & ? & Hx), Hs3 as (? & ? & ? & Hy). split_and!; try congruence.
    intros f Hf. by rewrite Hy, Hx. }
  split; [congruence|]. split; [|split; [|split; [|split; [lia|done]]]].
  - destruct Hf2 as [Hf2 Hv2]. split; [intros x; by rewrite Hd3|done].
  - unfold pending in *. by rewrite Hbody, Hd4.
  - unfold nonempty. rewrite Hd2, Hd3. done.
Qed.

Lemma addObjectToList_spec st c p o :
  has c REDIS_CLOSE_AFTER_REPLY = false -> store_ok st -> reply_ok st c -> margin 1 st ->
  reply_bytes c + 2 ^ 34 < ULONG_MAX - 1024 * 64 ->
  heap st !! p = Some o -> sdsEncodedObject (val o) = true -> light (val o) ->
  exists st' c', _addReplyObjectToList zmalloc_size client_obuf_limits unixtime st c p = Some (st', c') /\
    appended st c st' c' (sds_ptr (val o)).
Proof.
  intros Hfl Hst Hok Hm Hmax Hp He Hl. unfold _addReplyObjectToList. rewrite Hfl. cbv zeta.
  destruct (incrRefCount_spec st p o Hst Hp) as (st1 & Hinc & Hst1 & Hok1 & _); [specialize (Hm p o Hp); lia|].
  destruct (ok_obj st Hst p o Hp) as [Hwf _]. unfold ULONG_MAX in *.
  assert (st1 = set_heap st (<[p := mk_robj (refs st p + 1) (val o)]> (heap st))) as Hst1' by (by rewrite (refs_lookup st p o Hp)).
  pose proof (link_appended st c p (val o)) as Hlink. cbv zeta in Hlink. rewrite <- Hst1' in Hlink.
  specialize (Hlink Hok1 Hst Hok He Hwf Hl ltac:(congruence) ltac:(lia)).
  assert (heap st1 !! p = Some (mk_robj (refcount o + 1) (val o))) as Hp1 by (rewrite Hst1; apply lookup_insert_eq).
  assert (sds_of (val o) = Some (sds_ptr (val o))) as Hsds by (by destruct (val o)).
  rewrite Hinc. sbind. rewrite Hp1, Hp. sbind. cbn [val]. rewrite Hsds. sbind.
  destruct (list_appended _ _ st c st1 _ eq_refl Hlink Hst Hok) as (st' & c' & Hrun & Happ); [unfold ULONG_MAX; lia|].
  exists st', c'. split; [exact Hrun|done].
Qed.

Lemma create_appended st c v p st1 :
  createObject st v = (p, st1) -> store_ok st -> reply_ok st c -> sdsEncodedObject v = true -> wf_val v -> light v ->
  reply_bytes c + 2 ^ 34 < 2 ^ 64 ->
  heap st1 !! p = Some (mk_robj 1 v) /\
  appended st c st1 (set_reply c (listAddNodeTail (reply c) (Some p)).1
    (u64 (reply_bytes c + getStringObjectSdsUsedMemory zmalloc_size v))) (sds_ptr v).
Proof.
  intros Hc Hst Hok He Hwf Hl Hmax. apply createObject_spec in Hc as (Hp & Hst1 & Hok1 & _); [|done|done].
  assert (st1 = set_heap st (<[p := mk_robj (refs st p + 1) v]> (heap st))) as Hst1' by (by rewrite (refs_none st p Hp)).
  split; [rewrite Hst1; apply lookup_insert_eq|].
  pose proof (link_appended st c p v) as Hlink. cbv zeta in Hlink. rewrite <- Hst1' in Hlink.
  apply Hlink; try done. congruence.
Qed.

Lemma addSdsToList_spec st c s free :
  has c REDIS_CLOSE_AFTER_REPLY = false -> store_ok st -> reply_ok st c ->
  reply_bytes c + 2 ^ 34 < ULONG_MAX - 1024 * 64 -> zlen s <= 536870912 -> 0 <= free <= 2 ^ 30 ->
  exists st' c', _addReplySdsToList zmalloc_size client_obuf_limits unixtime st c s free = Some (st', c') /\
    appended st c st' c' s.
Proof.
  intros Hfl Hst Hok Hmax Hs Hf. unfold _addReplySdsToList. rewrite Hfl. cbv zeta.
  destruct (createObject st (RAW s free)) as [p st1] eqn:Hc. unfold ULONG_MAX in *.
  apply (create_appended st c) in Hc as [_ Happ]; [|done|done|done|cbn; lia|cbn; lia|lia].
  destruct (list_appended _ _ st c st1 _ eq_refl Happ Hst Hok) as (st' & c' & Hrun & Happ'); [unfold ULONG_MAX; lia|].
  exists st', c'. split; [exact Hrun|done].
Qed.

Lemma addStringToList_spec st c s :
  has c REDIS_CLOSE_AFTER_REPLY = false -> store_ok st -> reply_ok st c ->
  reply_bytes c + 2 ^ 34 < ULONG_MAX - 1024 * 64 -> zlen s <= 536870912 ->
  exists st' c', _addReplyStringToList zmalloc_size client_obuf_limits unixtime st c s = Some (st', c') /\
    appended st c st' c' s.
Proof.
  intros Hfl Hst Hok Hmax Hs. unfold _addReplyStringToList. rewrite Hfl. cbv zeta.
  assert (exists v, createStringObject st s = createObject st v /\ sdsEncodedObject v = true /\ wf_val v /\ light v /\ sds_ptr v = s)
    as (v & Hcv & He & Hwf & Hl & Hsv).
  { unfold createStringObject. destruct (Z.leb_spec (zlen s) REDIS_ENCODING_EMBSTR_SIZE_LIMIT);
      [exists (EMBSTR s)|exists (RAW s 0)]; split_and!; cbn; lia || done. }
  rewrite Hcv. destruct (createObject st v) as [p st1] eqn:Hc. unfold ULONG_MAX in *.
  apply (create_appended st c) in Hc as [Hp Happ]; [|done|done|done|done|done|lia]. rewrite Hsv in Happ.
  rewrite Hp. sbind. cbn [val].
  destruct (list_appended _ _ st c st1 _ eq_refl Happ Hst Hok) as (st' & c' & Hrun & Happ'); [unfold ULONG_MAX; lia|].
  exists st', c'. split; [exact Hrun|done].
Qed.

Lemma addToBuffer_spec st c s :
  has c REDIS_CLOSE_AFTER_REPLY = false -> store_ok st -> reply_ok st c ->
  _addReplyToBuffer c s = Some (false, c) \/
  exists c', _addReplyToBuffer c s = Some (true, c') /\ appended st c st c' s.
Proof.
  intros Hfl Hst Hok. pose proof Hok as [Hb Hs Hnd Hr Hd Hm]. unfold _addReplyToBuffer. rewrite Hfl.
  case_bool_decide as Hre; [|by left]. cbn [negb]. rewrite Z.gtb_ltb.
  destruct (Z.ltb_spec (REDIS_REPLY_CHUNK_BYTES - bufpos c) (zlen s)) as [?|Hfit]; [by left|]. right.
  pose proof (zlen_nonneg s). destruct Hb as [Hlen Hpos].
  set (a := take (Z.to_nat (bufpos c)) (buf c)). set (g := take (length s) (drop (Z.to_nat (bufpos c)) (buf c))).
  set (e := drop (length s) (drop (Z.to_nat (bufpos c)) (buf c))).
  assert (buf c = a ++ g ++ e) as Hbuf by (subst a g e; by rewrite !take_drop).
  assert (zlen a = bufpos c) as Ha by (subst a; rewrite zlen_take; lia).
  assert (zlen g = zlen s) as Hg by (subst g; rewrite zlen_take, zlen_drop; zlia).
  rewrite Hbuf, store_mid by done. sbind. eexists. split; [done|].
  assert (body st (set_buf c (a ++ s ++ e) (bufpos c + zlen s)) = body st c ++ (inl <$> s)) as Hbody.
  { unfold body. cbn [bufpos buf set_buf reply]. rewrite Hre. cbn. rewrite !app_nil_r.
    replace (Z.to_nat (bufpos c + zlen s)) with (length (a ++ s)) by (rewrite length_app; zlia).
    rewrite app_assoc, take_app_length, fmap_app. do 2 f_equal. }
  split; [done|]. split.
  { split; cbn; try done.
    - split; [rewrite <- Hlen, Hbuf, !zlen_app; lia|unfold REDIS_REPLY_CHUNK_BYTES in *; lia].
    - destruct Hs as [Hs0 Hs]. split; [done|]. cbn. rewrite !Z.gtb_ltb in *. rewrite Hre in *.
      destruct (Z.ltb_spec 0 (bufpos c)), (Z.ltb_spec 0 (bufpos c + zlen s)); lia. }
  split; [by repeat split|]. split; [done|]. split; [by split; [done|intros x o ? Ho; exists o]|].
  split; [by apply reply_pending_app|]. split; [intros [?|?]; [left; cbn; lia|done]|].
  split; [cbn; lia|]. intros x. lia.
Qed.

(** ** Lemmas: the clients that take replies *)

Lemma same_trans c1 c2 c3 : same c1 c2 -> same c2 c3 -> same c1 c3.
Proof.
  intros (? & ? & ? & Hx) (? & ? & ? & Hy). split_and!; try congruence. intros f Hf. by rewrite Hy, Hx.
Qed.

Lemma online_same c c' : same c c' -> online c' = online c.
Proof. intros (_ & Hr & Hp & _). unfold online. by rewrite Hr, Hp. Qed.

Lemma prepare_spec c :
  wake_ok c ->
  exists c', prepareClientToWrite ae_ok c = (willing c, c') /\ same c c' /\ same_data c c' /\ wake_ok c' /\
    (willing c = true -> armed c').
Proof.
  intros Hw. unfold willing, prepareClientToWrite.
  assert (armed c -> wake_ok c) as Haw by (intros H _; exact H).
  destruct (has c REDIS_LUA_CLIENT) eqn:Hlua.
  { exists c. split; [done|]. split; [apply same_refl|]. split; [by repeat split|]. split; [done|].
    intros _ _ Hl. congruence. }
  destruct (_ && _). { exists c. split; [done|]. split; [apply same_refl|]. split; [by repeat split|]. by split. }
  destruct (fd c <=? 0). { exists c. split; [done|]. split; [apply same_refl|]. split; [by repeat split|]. by split. }
  fold (online c). destruct ((bufpos c =? 0) && bool_decide (reply c = []) && online c) eqn:Hcond.
  - apply andb_true_iff in Hcond as [Hcond Hon]. apply andb_true_iff in Hcond as [Hb Hre].
    apply Z.eqb_eq in Hb. apply bool_decide_eq_true in Hre. destruct ae_ok.
    + exists (set_writable c true). split; [done|]. split; [by repeat split|]. split; [by repeat split|].
      split; [by intros _ _ _|]. by intros _ _ _.
    + destruct (freeClientAsync_spec c) as (Hs & Hd & _). exists (freeClientAsync c). split; [done|].
      split; [done|]. split; [done|]. split; [|done]. intros [Hn|Hn]; destruct Hd as (_ & Hd1 & Hd2 & _); congruence.
  - exists c. split; [done|]. split; [apply same_refl|]. split; [by repeat split|]. split; [done|].
    intros _. destruct (decide (bufpos c = 0)) as [Hb|Hb]; [|by apply Hw; left].
    destruct (decide (reply c = [])) as [Hre|Hre]; [|by apply Hw; right].
    rewrite Hb, bool_decide_eq_true_2 in Hcond by done. cbn in Hcond. intros Hon. congruence.
Qed.

Lemma willing_mono c c' :
  same c c' -> (nonempty c -> nonempty c') -> willing c = true -> willing c' = true.
Proof.
  intros Hs Hn. pose proof (online_same c c' Hs) as Hon. destruct Hs as (Hfd & _ & _ & Hf).
  unfold willing, prepareClientToWrite. fold (online c) (online c'). rewrite Hon, Hfd, !Hf by done.
  destruct (has c REDIS_LUA_CLIENT); [done|]. destruct (_ && _); [done|]. destruct (fd c <=? 0); [done|].
  destruct ((bufpos c =? 0) && bool_decide (reply c = []) && online c) eqn:Hc.
  - destruct ae_ok; [intros _|done]. by case_match.
  - intros _. destruct ((bufpos c' =? 0) && bool_decide (reply c' = []) && online c) eqn:Hc'; [|done].
    apply andb_true_iff in Hc' as [Hc' Hon']. apply andb_true_iff in Hc' as [Hb Hre].
    apply Z.eqb_eq in Hb. apply bool_decide_eq_true in Hre. rewrite Hon', andb_true_r in Hc.
    exfalso. assert (nonempty c) as Hne; [|by destruct (Hn Hne)].
    apply andb_false_iff in Hc as [Hc|Hc]; [left; by apply Z.eqb_neq|]. right. by apply bool_decide_eq_false in Hc.
Qed.

Lemma willing_data c c' : same c c' -> same_data c c' -> willing c' = willing c.
Proof.
  intros Hs (_ & Hb & Hr & _). pose proof (online_same c c' Hs) as Hon. destruct Hs as (Hfd & _ & _ & Hf).
  unfold willing, prepareClientToWrite. fold (online c) (online c'). rewrite Hon, Hfd, Hb, Hr, !Hf by done.
  destruct (has c REDIS_LUA_CLIENT); [done|]. destruct (_ && _); [done|]. destruct (fd c <=? 0); [done|].
  case_match; [|done]. by destruct ae_ok.
Qed.

(** ** Lemmas: replies *)

(** From a state to the next one, [bs] is appended. *)
Definition ext (st : store) (c : redisClient) (st' : store) (c' : redisClient) (bs : list Z) : Prop :=
  same c c' /\ frame st c st' c' /\ pending st' c' = pending st c ++ (inl <$> bs) /\ (nonempty c -> nonempty c').

(** A reply, which is ignored when the client does not take any. *)
Definition adds (k : Z) (st : store) (c : redisClient) (r : option (store * redisClient)) (bs : list Z) : Prop :=
  exists st' c', r = Some (st', c') /\ ready k st' c' /\ accepts c' = accepts c /\
    ext st c st' c' (if accepts c then bs else []).

Lemma body_data st c c' : same_data c c' -> body st c' = body st c.
Proof. intros (Hb & Hp & Hr & _). unfold body. by rewrite Hb, Hp, Hr. Qed.

Lemma same_data_reply c c' : same_data c c' -> reply c' = reply c.
Proof. by intros (_ & _ & -> & _). Qed.

Lemma pending_data st c c' : same_data c c' -> pending st c' = pending st c.
Proof. intros Hd. unfold pending. rewrite (body_data st c c' Hd). by destruct Hd as (_ & _ & _ & -> & _). Qed.

Lemma nonempty_data c c' : same_data c c' -> nonempty c' <-> nonempty c.
Proof. intros (_ & Hp & Hr & _). unfold nonempty. by rewrite Hp, Hr. Qed.

Lemma reply_ok_data st c c' : same_data c c' -> reply_ok st c -> reply_ok st c'.
Proof.
  intros (Hb & Hp & Hr & Hs & Hm) [A1 A2 A3 A4 A5 A6]. split; rewrite ?Hb, ?Hp, ?Hr, ?Hm; try done.
  unfold sent_ok in *. by rewrite Hp, Hr, Hs.
Qed.

Lemma reply_frame_refl st c c' : reply c' = reply c -> frame st c st c'.
Proof. intros Hr. split; [intros x; by rewrite Hr|]. intros x o _ Ho. by exists o. Qed.

Lemma ready_weaken k k' st c : ready k st c -> 0 <= k' <= k -> ready k' st c.
Proof.
  intros (Hst & Hok & Hw & Hk & Hm & Hb) Hk'. split_and!; try done; try lia.
  intros p o Hp. specialize (Hm p o Hp). lia.
Qed.

Lemma accepts_mono c c' :
  same c c' -> (nonempty c -> nonempty c') -> willing c = true -> accepts c' = accepts c.
Proof.
  intros Hs Hn Hw. unfold accepts. rewrite (willing_mono c c'), Hw by done.
  destruct Hs as (_ & _ & _ & Hf). by rewrite Hf.
Qed.

Lemma ext_trans st c st1 c1 st2 c2 a b :
  ext st c st1 c1 a -> ext st1 c1 st2 c2 b -> ext st c st2 c2 (a ++ b).
Proof.
  intros (S1 & F1 & P1 & N1) (S2 & F2 & P2 & N2). split; [by apply (same_trans c c1)|].
  split; [by apply (reply_frame_trans st c st1 c1)|]. split; [|tauto].
  by rewrite P2, P1, fmap_app, app_assoc.
Qed.

(** The next reply of a function that makes several. *)
Lemma adds_bind k k' st c r f a b :
  adds k st c r a ->
  (forall st1 c1, ready k st1 c1 -> frame st c st1 c1 -> adds k' st1 c1 (f st1 c1) b) ->
  adds k' st c ('(st, c) ← r; f st c) (a ++ b).
Proof.
  intros (st1 & c1 & -> & Hr & Ha & He) Hf. sbind.
  destruct (Hf st1 c1 Hr) as (st2 & c2 & Hrun & Hr2 & Ha2 & He2); [by apply He|]. rewrite Ha in *.
  exists st2, c2. split; [done|]. split; [done|]. split; [done|].
  pose proof (ext_trans st c st1 c1 st2 c2 _ _ He He2) as Ht. by destruct (accepts c).
Qed.

Lemma margin_after k st st' :
  0 <= k <= 1000000 -> margin (k + 1) st -> store_ok st' ->
  (forall x, refs st' x <= Z.max (refs st x + 1) 2) -> margin k st'.
Proof.
  intros Hk Hm Hst' Hr p o' Hp'. specialize (Hr p). rewrite (refs_lookup st' p o' Hp') in Hr.
  unfold refs in Hr. unfold INT32_MAX in *. destruct (heap st !! p) as [o|] eqn:Hp; [|lia].
  specialize (Hm p o Hp). unfold INT32_MAX in Hm. lia.
Qed.

(** A function that adds to the buffers after [prepareClientToWrite]. *)
Lemma adds_prepared (F : redisClient -> option (store * redisClient)) k st c bs :
  0 <= k -> ready (k + 1) st c ->
  (forall c1, has c1 REDIS_CLOSE_AFTER_REPLY = true -> F c1 = Some (st, c1)) ->
  (forall c1, has c1 REDIS_CLOSE_AFTER_REPLY = false -> reply_ok st c1 ->
     reply_bytes c1 = reply_bytes c -> exists st' c', F c1 = Some (st', c') /\ appended st c1 st' c' bs) ->
  adds k st c (let '(ok, c) := prepareClientToWrite ae_ok c in if negb ok then Some (st, c) else F c) bs.
Proof.
  intros Hk Hrdy Hclosed Hopen. pose proof Hrdy as (Hst & Hok & Hw & Hk1 & Hm & Hb).
  destruct (prepare_spec c Hw) as (c1 & -> & Hs & Hd & Hw1 & Harm).
  pose proof (reply_ok_data st c c1 Hd Hok) as Hok1. pose proof (willing_data c c1 Hs Hd) as Hwill.
  assert (has c1 REDIS_CLOSE_AFTER_REPLY = has c REDIS_CLOSE_AFTER_REPLY) as Hcl by (destruct Hs as (_ & _ & _ & ->); done).
  assert (reply_bytes c1 = reply_bytes c) as Hbytes by apply Hd.
  assert (adds k st c (Some (st, c1)) []) as Hsame.
  { exists st, c1. split; [done|]. split.
    - split_and!; try done; try lia. intros p o Hp. specialize (Hm p o Hp). lia.
    - split; [unfold accepts; by rewrite Hwill, Hcl|]. split; [done|]. split; [by apply reply_frame_refl, Hd|].
      split; [|by apply (nonempty_data c c1 Hd)]. rewrite (pending_data st c c1 Hd). destruct (accepts c); cbn; by rewrite app_nil_r. }
  assert (accepts c = false -> adds k st c (Some (st, c1)) bs) as Hnot.
  { intros Ha. destruct Hsame as (st' & c' & Hr' & ? & ? & He). exists st', c'. by rewrite Ha in *. }
  destruct (willing c) eqn:Hwc; cbn [negb]; [|by apply Hnot; unfold accepts; rewrite Hwc].
  destruct (has c REDIS_CLOSE_AFTER_REPLY) eqn:Hfl.
  { rewrite Hclosed by done. apply Hnot. unfold accepts. by rewrite Hwc, Hfl. }
  destruct (Hopen c1 Hcl Hok1 Hbytes) as (st' & c' & -> & Hst' & Hok' & Hs' & Hwr & Hf' & Hp' & Hn' & Hb' & Hr').
  exists st', c'. split; [done|].
  assert (same c c') as Hsc by (by apply (same_trans c c1)).
  assert (nonempty c -> nonempty c') as Hnc by (intros Hn; apply Hn'; by apply (nonempty_data c c1 Hd)).
  split; [|split; [by apply accepts_mono|]].
  - split_and!; try done; try lia; [|apply (margin_after k st); done || lia].
    intros _ Hon Hlua. rewrite Hwr. rewrite (online_same c1 c' Hs') in Hon. apply (Harm eq_refl Hon).
    destruct Hs' as (_ & _ & _ & Hflag). by rewrite <- Hflag.
  - assert (accepts c = true) as -> by (unfold accepts; by rewrite Hwc, Hfl).
    split; [done|]. split; [|split; [|done]].
    + apply (reply_frame_trans st c st c1); [by apply reply_frame_refl, Hd|done].
    + by rewrite <- (pending_data st c c1 Hd).
Qed.

Lemma buffer_closed c s : has c REDIS_CLOSE_AFTER_REPLY = true -> _addReplyToBuffer c s = Some (true, c).
Proof. intros Hc. unfold _addReplyToBuffer. by rewrite Hc. Qed.

Lemma addReplyString_spec k st c s :
  0 <= k -> ready (k + 1) st c -> zlen s <= 536870912 ->
  adds k st c (addReplyString zmalloc_size client_obuf_limits unixtime ae_ok st c s) s.
Proof.
  intros Hk Hr Hs. pose proof Hr as (Hst & _ & _ & _ & _ & Hb).
  apply (adds_prepared (fun c => '(ok, c) ← _addReplyToBuffer c s; if (ok : bool) then Some (st, c)
    else _addReplyStringToList zmalloc_size client_obuf_limits unixtime st c s)); [done|done| |].
  - intros c1 Hc. by rewrite buffer_closed.
  - intros c1 Hc Hok1 Hb1. destruct (addToBuffer_spec st c1 s Hc Hst Hok1) as [->|(c2 & -> & Happ)]; sbind.
    + apply addStringToList_spec; try done. lia.
    + by exists st, c2.
Qed.

Lemma addReplySds_spec k st c s free :
  0 <= k -> ready (k + 1) st c -> zlen s <= 536870912 -> 0 <= free <= 2 ^ 30 ->
  adds k st c (addReplySds zmalloc_size client_obuf_limits unixtime ae_ok st c s free) s.
Proof.
  intros Hk Hr Hs Hf. pose proof Hr as (Hst & _ & _ & _ & _ & Hb).
  apply (adds_prepared (fun c => '(ok, c) ← _addReplyToBuffer c s; if (ok : bool) then Some (st, c)
    else _addReplySdsToList zmalloc_size client_obuf_limits unixtime st c s free)); [done|done| |].
  - intros c1 Hc. by rewrite buffer_closed.
  - intros c1 Hc Hok1 Hb1. destruct (addToBuffer_spec st c1 s Hc Hst Hok1) as [->|(c2 & -> & Happ)]; sbind.
    + apply addSdsToList_spec; try done. lia.
    + by exists st, c2.
Qed.

Lemma reply_ok_agree st st' c :
  agree st st' (reply c) -> (forall p, occ (reply c) p <= refs st' p) -> reply_ok st c ->
  reply_ok st' c /\ pending st' c = pending st c.
Proof.
  intros Ha Hr [A1 A2 A3 A4 A5 A6]. split; [split; try done|].
  - destruct A2 as [Hs0 Hs]. split; [done|]. destruct (bufpos c >? 0); [done|]. destruct (reply c) as [|n r]; [done|].
    destruct Hs as [?|[Hs Hn]]; [by left|right]. split; [|done]. destruct (obj n) as [p|] eqn:Hp; [|done].
    rewrite (content_obj st n p Hp) in Hs. rewrite (content_obj st' n p Hp).
    destruct (Ha n p) as (o & o' & Ho & Ho' & Hv); [by left|done|]. unfold str in *. rewrite Ho in Hs. by rewrite Ho', Hv.
  - by apply (agree_nodes st).
  - by rewrite (agree_used st st').
  - unfold pending, body. by rewrite (agree_content _ _ _ Ha).
Qed.

(** A string object is given up that somebody refers to. *)
Lemma drop_ref st c q o :
  store_ok st -> reply_ok st c -> pinned st c q -> heap st !! q = Some o -> sdsEncodedObject (val o) = true ->
  exists st', decrRefCount st q = Some st' /\ store_ok st' /\ reply_ok st' c /\ pending st' c = pending st c /\
    (forall x, refs st' x = refs st x - count (Some q) x) /\ (forall x, x <> q -> heap st' !! x = heap st !! x).
Proof.
  intros Hst Hok Hpin Hq He.
  destruct (decrRefCount_gen st q o Hst Hq) as (st' & Hd & Hst' & [Hr _] & _ & _ & _ & Hoth);
    [intros _ i _ Hi; by rewrite Hi in He|].
  exists st'. split; [done|]. split; [done|].
  assert (forall x, refs st' x = refs st x - count (Some q) x) as Hrefs by (intros x; rewrite Hr, count_none; lia).
  assert (forall p, occ (reply c) p <= refs st' p) as Hocc.
  { intros p. rewrite Hrefs. pose proof (ok_refs _ _ Hok p). destruct (decide (q = p)) as [<-|Hne].
    - rewrite count_same. unfold pinned in Hpin. lia.
    - rewrite count_other by done. lia. }
  assert (agree st st' (reply c)) as Hag.
  { intros n p Hn Hp. destruct (ok_nodes _ _ Hok n p Hn Hp) as (o1 & Ho1 & _). exists o1.
    destruct (decide (p = q)) as [->|Hne]; [|exists o1; by rewrite Hoth].
    rewrite Hq in Ho1. injection Ho1 as <-. pose proof (occ_elem _ _ _ Hn Hp). specialize (Hocc q).
    unfold decrRefCount in Hd. rewrite Hq in Hd. revert Hd. sbind. case_match; [done|].
    rewrite Hrefs, count_same, (refs_lookup st q o Hq) in Hocc.
    destruct (Z.eqb_spec (refcount o) 1); [lia|]. intros [= <-]. cbn. rewrite lookup_insert_eq. by eexists. }
  destruct (reply_ok_agree st st' c Hag Hocc Hok) as [Hok' Hp'].
  split; [done|]. split; [done|]. by split.
Qed.

Lemma ll_repr_small v : in_ll v -> zlen (ll_repr v) <= 20.
Proof. apply ll_repr_len. Qed.

(** An integer is decoded in a new object, which is given up in the end. *)
Lemma addReply_int st c p o v :
  has c REDIS_CLOSE_AFTER_REPLY = false -> store_ok st -> reply_ok st c -> margin 2 st ->
  reply_bytes c + 2 ^ 34 < ULONG_MAX - 1024 * 64 -> heap st !! p = Some o -> val o = INT v ->
  exists st' c', ('(q, st) ← getDecodedObject st p;
      o ← heap st !! q;
      s ← sds_of (val o);
      '(ok, c) ← _addReplyToBuffer c s;
      '(st, c) ← (if (ok : bool) then Some (st, c) else _addReplyObjectToList zmalloc_size client_obuf_limits unixtime st c q);
      st ← decrRefCount st q;
      Some (st, c)) = Some (st', c') /\ appended st c st' c' (ll_repr v).
Proof.
  intros Hfl Hst Hok Hm Hb Hp Hv. destruct (ok_obj st Hst p o Hp) as [Hwf _]. rewrite Hv in Hwf. cbn in Hwf.
  pose proof (ll_repr_len v Hwf).
  rewrite (getDecodedObject_int st p o v) by done. sbind.
  destruct (createObject st (EMBSTR (ll_repr v))) as [q st1] eqn:Hcr.
  apply createObject_spec in Hcr as (Hq & Hst1 & Hok1 & _); [|done|cbn; unfold REDIS_ENCODING_EMBSTR_SIZE_LIMIT; lia].
  assert (heap st1 !! q = Some (mk_robj 1 (EMBSTR (ll_repr v)))) as Hq1 by (rewrite Hst1; apply lookup_insert_eq).
  assert (forall x, refs st1 x = refs st x + count (Some q) x) as Hrefs.
  { intros x. rewrite Hst1, refs_insert. case_decide as Hx; [subst x; rewrite (refs_none st q Hq), count_same; cbn; lia|].
    rewrite count_other by done. lia. }
  assert (occ (reply c) q = 0) as Hocc.
  { pose proof (ok_refs _ _ Hok q) as Hr. rewrite (refs_none st q Hq) in Hr. pose proof (occ_nonneg (reply c) q). lia. }
  assert (agree st st1 (reply c)) as Hag.
  { apply (agree_insert st st1 _ q (mk_robj 1 (EMBSTR (ll_repr v)))); [apply Hok|by rewrite Hst1|]. intros o0 Ho0. congruence. }
  destruct (reply_ok_agree st st1 c Hag) as [Hrk1 Hp1]; [|done|].
  { intros x. rewrite Hrefs. pose proof (ok_refs _ _ Hok x). pose proof (count_range (Some q) x). lia. }
  rewrite Hq1. sbind. cbn [val sds_of]. sbind.
  assert (exists st2 c2, ('(ok, c) ← _addReplyToBuffer c (ll_repr v);
      if (ok : bool) then Some (st1, c) else _addReplyObjectToList zmalloc_size client_obuf_limits unixtime st1 c q)
      = Some (st2, c2) /\ appended st1 c st2 c2 (ll_repr v)) as (st2 & c2 & Hrun & Happ).
  { destruct (addToBuffer_spec st1 c (ll_repr v) Hfl Hok1 Hrk1) as [->|(c2 & -> & Happ)]; sbind; [|by exists st1, c2].
    apply (addObjectToList_spec st1 c q (mk_robj 1 (EMBSTR (ll_repr v)))); try done.
    intros x o1. rewrite Hst1. cbn. intros [[<- <-]|[_ Hx]]%lookup_insert_Some; cbn; [unfold INT32_MAX; lia|].
    specialize (Hm x o1 Hx). lia. }
  destruct Happ as (Hst2 & Hok2 & Hs2 & Hw2 & Hf2 & Hp2 & Hn2 & Hb2 & Hr2).
  assert (pinned st1 c q) as Hpin1 by (unfold pinned; rewrite Hocc, (refs_lookup st1 q _ Hq1); cbn; lia).
  destruct (proj2 Hf2 q _ Hpin1 Hq1) as (o2 & Hq2 & Hv2).
  assert (pinned st2 c2 q) as Hpin2 by (unfold pinned in *; pose proof (proj1 Hf2 q); lia).
  destruct (drop_ref st2 c2 q o2 Hst2 Hok2 Hpin2 Hq2) as (st3 & Hdec & Hst3 & Hok3 & Hp3 & Hr3 & Hoth3); [by rewrite Hv2|].
  exists st3, c2. split.
  { destruct (_addReplyToBuffer c (ll_repr v)) as [[[|] c']|]; [| |done]; revert Hrun; sbind.
    - intros [= -> ->]. by rewrite Hdec.
    - intros ->. sbind. by rewrite Hdec. }
  split; [done|]. split; [done|]. split; [done|]. split; [done|]. split; [|split; [by rewrite Hp3, Hp2, Hp1|]].
  - split.
    + intros x. rewrite Hr3. pose proof (proj1 Hf2 x). pose proof (Hrefs x). lia.
    + intros x ox Hpx Hx. assert (x <> q) as Hne by congruence.
      destruct (proj2 Hf2 x ox) as (o' & Ho' & Hv').
      * unfold pinned in *. rewrite Hrefs. pose proof (count_range (Some q) x). lia.
      * rewrite Hst1. cbn. by rewrite lookup_insert_ne by done.
      * exists o'. by rewrite Hoth3.
  - split; [done|]. split; [done|]. intros x. rewrite Hr3. specialize (Hr2 x). rewrite Hrefs in Hr2.
    destruct (decide (q = x)) as [<-|Hne].
    + rewrite count_same in *. rewrite (refs_none st q Hq) in *. lia.
    + rewrite count_other in * by done. lia.
Qed.

Lemma create_drop st v q st1 : createObject st v = (q, st1) -> decrRefCount st1 q = Some st.
Proof.
  intros [= <- <-]. set (q := fresh (dom (heap st))).
  assert (heap st !! q = None) as Hq by (apply not_elem_of_dom, is_fresh).
  unfold decrRefCount. cbn [heap set_heap]. rewrite lookup_insert_eq. sbind. cbn.
  rewrite delete_insert_id by done. by destruct st.
Qed.

Lemma addReply_spec k st c p o :
  0 <= k -> ready (k + 2) st c -> heap st !! p = Some o -> light (val o) ->
  adds k st c (addReply zmalloc_size client_obuf_limits unixtime ae_ok st c p) (value (val o)).
Proof.
  intros Hk Hr Hp Hl. pose proof Hr as (Hst & _ & _ & _ & Hm & Hb). unfold addReply.
  apply (adds_prepared (fun c => o ← heap st !! p;
    match val o with
    | RAW s _ | EMBSTR s =>
        '(ok, c) ← _addReplyToBuffer c s;
        if (ok : bool) then Some (st, c) else _addReplyObjectToList zmalloc_size client_obuf_limits unixtime st c p
    | INT v =>
        '(done, c) ← (if bool_decide (reply c = []) && (REDIS_REPLY_CHUNK_BYTES - bufpos c >=? 32) then
            s ← ll_buf 32 v;
            _addReplyToBuffer c s
          else Some (false, c));
        if (done : bool) then Some (st, c)
        else
          '(q, st) ← getDecodedObject st p;
          o ← heap st !! q;
          s ← sds_of (val o);
          '(ok, c) ← _addReplyToBuffer c s;
          '(st, c) ← (if (ok : bool) then Some (st, c) else _addReplyObjectToList zmalloc_size client_obuf_limits unixtime st c q);
          st ← decrRefCount st q;
          Some (st, c)
    end)); [done|by apply (ready_weaken (k + 2)); [|lia]| |].
  all: destruct (ok_obj st Hst p o Hp) as [Hwf _].
  - intros c1 Hc. rewrite Hp. sbind. destruct (val o) as [s free|s|v] eqn:Hv; [by rewrite buffer_closed..|].
    destruct (_ && _); [rewrite (ll_buf_spec 32) by (done || lia); sbind; by rewrite buffer_closed|]. sbind.
    cbn in Hwf. rewrite (getDecodedObject_int st p o v) by done. sbind.
    destruct (createObject st (EMBSTR (ll_repr v))) as [q st1] eqn:Hcr. pose proof (create_drop _ _ _ _ Hcr) as Hdrop.
    apply createObject_spec in Hcr as (_ & Hst1 & _); [|done|]; [|pose proof (ll_repr_len v Hwf); cbn; unfold REDIS_ENCODING_EMBSTR_SIZE_LIMIT; lia].
    assert (heap st1 !! q = Some (mk_robj 1 (EMBSTR (ll_repr v)))) as Hq1 by (rewrite Hst1; apply lookup_insert_eq).
    rewrite Hq1. sbind. cbn [val sds_of]. sbind. rewrite buffer_closed by done. sbind. by rewrite Hdrop.
  - intros c1 Hc Hok1 Hb1. rewrite Hp. sbind.
    assert (sdsEncodedObject (val o) = true -> exists st' c', ('(ok, c) ← _addReplyToBuffer c1 (sds_ptr (val o));
        if (ok : bool) then Some (st, c) else _addReplyObjectToList zmalloc_size client_obuf_limits unixtime st c p)
        = Some (st', c') /\ appended st c1 st' c' (sds_ptr (val o))) as Henc.
    { intros He. destruct (addToBuffer_spec st c1 (sds_ptr (val o)) Hc Hst Hok1) as [->|(c2 & -> & Happ)]; sbind; [|by exists st, c2].
      apply addObjectToList_spec; try done; [|lia]. intros x ox Hx. specialize (Hm x ox Hx). lia. }
    assert (margin 2 st) as Hm2 by (intros x ox Hx; specialize (Hm x ox Hx); lia).
    destruct (val o) as [s free|s|v] eqn:Hv; [by apply Henc..|]. cbn in Hwf.
    assert (exists st' c', ('(q, st) ← getDecodedObject st p;
          o ← heap st !! q;
          s ← sds_of (val o);
          '(ok, c) ← _addReplyToBuffer c1 s;
          '(st, c) ← (if (ok : bool) then Some (st, c) else _addReplyObjectToList zmalloc_size client_obuf_limits unixtime st c q);
          st ← decrRefCount st q;
          Some (st, c)) = Some (st', c') /\ appended st c1 st' c' (ll_repr v)) as Hint by (eapply addReply_int; [done..|lia|done|done]).
    destruct (_ && _); [|by apply Hint]. rewrite (ll_buf_spec 32) by (done || lia). sbind.
    destruct (addToBuffer_spec st c1 (ll_repr v) Hc Hst Hok1) as [->|(c2 & -> & Happ)]; sbind; [by apply Hint|by exists st, c2].
Qed.

(** ** Lemmas: the formats *)

(** Somebody keeps the string [s] at [p]. *)
Definition str_at (st : store) (c : redisClient) (p : loc) (s : list Z) : Prop :=
  pinned st c p /\ exists o, heap st !! p = Some o /\ value (val o) = s /\ light (val o).

(** A prefix, an integer and the end of the line. *)
Definition reply_line (prefix n : Z) : list Z := prefix :: ll_repr n ++ [13; 10].
Definition bulk (s : list Z) : list Z := reply_line 36 (zlen s) ++ s ++ [13; 10].

(** The shared objects are there. *)
Record shared_ok (st : store) (c : redisClient) : Prop := {
  sh_crlf : str_at st c (crlf shared) [13; 10];
  sh_czero : str_at st c (czero shared) (reply_line 58 0);
  sh_cone : str_at st c (cone shared) (reply_line 58 1);
  sh_nullbulk : str_at st c (nullbulk shared) (reply_line 36 (-1));
  sh_mbulkhdr i : 0 <= i < REDIS_SHARED_BULKHDR_LEN ->
    exists p, getb (mbulkhdr shared) i = Some p /\ str_at st c p (reply_line 42 i);
  sh_bulkhdr i : 0 <= i < REDIS_SHARED_BULKHDR_LEN ->
    exists p, getb (bulkhdr shared) i = Some p /\ str_at st c p (reply_line 36 i);
}.

(** What others refer to is still there, and referred to. *)
Definition keeps (st : store) (c : redisClient) (st' : store) (c' : redisClient) : Prop :=
  forall p o, pinned st c p -> heap st !! p = Some o ->
    pinned st' c' p /\ exists o', heap st' !! p = Some o' /\ val o' = val o.

Lemma frame_keeps st c st' c' : frame st c st' c' -> keeps st c st' c'.
Proof. intros [Hr Hv] p o Hp Ho. split; [unfold pinned in *; specialize (Hr p); lia|by apply Hv]. Qed.

Lemma str_at_keeps st c st' c' p s : keeps st c st' c' -> str_at st c p s -> str_at st' c' p s.
Proof.
  intros Hk (Hp & o & Ho & <- & Hl). destruct (Hk p o Hp Ho) as (Hp' & o' & Ho' & Hvo). split; [done|]. exists o'. by rewrite Hvo.
Qed.

Lemma shared_keeps st c st' c' : keeps st c st' c' -> shared_ok st c -> shared_ok st' c'.
Proof.
  intros Hf [A1 A2 A3 A4 A5 A6]. split; try by eapply str_at_keeps.
  - intros i Hi. destruct (A5 i Hi) as (p & Hp & Hs). exists p. split; [done|]. by eapply str_at_keeps.
  - intros i Hi. destruct (A6 i Hi) as (p & Hp & Hs). exists p. split; [done|]. by eapply str_at_keeps.
Qed.

Lemma str_at_frame st c st' c' p s : frame st c st' c' -> str_at st c p s -> str_at st' c' p s.
Proof. intros Hf. apply str_at_keeps. by apply frame_keeps. Qed.

Lemma shared_frame st c st' c' : frame st c st' c' -> shared_ok st c -> shared_ok st' c'.
Proof. intros Hf. apply shared_keeps. by apply frame_keeps. Qed.

Abbreviation addReply_ := (addReply zmalloc_size client_obuf_limits unixtime ae_ok).
Abbreviation addReplyString_ := (addReplyString zmalloc_size client_obuf_limits unixtime ae_ok).

Lemma addReply_at k st c p s :
  0 <= k -> ready (k + 2) st c -> str_at st c p s -> adds k st c (addReply_ st c p) s.
Proof. intros Hk Hr (_ & o & Ho & <- & Hl). by apply addReply_spec. Qed.

Lemma ll_line_spec n prefix v : in_ll v -> (20 < n)%nat -> ll_line n prefix v = Some (reply_line prefix v).
Proof. intros Hv Hn. unfold ll_line. by rewrite ll_buf_spec. Qed.

Lemma zlen_reply_line prefix n : in_ll n -> zlen (reply_line prefix n) <= 23.
Proof.
  intros Hn. unfold reply_line. rewrite zlen_cons, zlen_app. pose proof (ll_repr_len n Hn).
  change (zlen [13; 10]) with 2. lia.
Qed.

Lemma addReplyLongLongWithPrefix_spec k st c ll prefix :
  0 <= k -> ready (k + 2) st c -> shared_ok st c -> in_ll ll -> (prefix = 58 \/ 0 <= ll) ->
  adds k st c (addReplyLongLongWithPrefix zmalloc_size client_obuf_limits unixtime ae_ok shared st c ll prefix)
    (reply_line prefix ll).
Proof.
  intros Hk Hr Hsh Hll Hp. unfold addReplyLongLongWithPrefix.
  destruct ((prefix =? 42) && (ll <? REDIS_SHARED_BULKHDR_LEN)) eqn:H1; zbool.
  { subst prefix. destruct (sh_mbulkhdr _ _ Hsh ll) as (p & -> & Hat); [lia|]. by apply addReply_at. }
  destruct ((prefix =? 36) && (ll <? REDIS_SHARED_BULKHDR_LEN)) eqn:H2; zbool.
  { subst prefix. destruct (sh_bulkhdr _ _ Hsh ll) as (p & -> & Hat); [lia|]. by apply addReply_at. }
  rewrite ll_line_spec by (done || lia). sbind. pose proof (zlen_reply_line prefix ll Hll).
  apply addReplyString_spec; [done|apply (ready_weaken (k + 2)); [done|lia]|lia].
Qed.

Lemma addReplyLongLong_spec k st c ll :
  0 <= k -> ready (k + 2) st c -> shared_ok st c -> in_ll ll ->
  adds k st c (addReplyLongLong zmalloc_size client_obuf_limits unixtime ae_ok shared st c ll) (reply_line 58 ll).
Proof.
  intros Hk Hr Hsh Hll. unfold addReplyLongLong. destruct (Z.eqb_spec ll 0) as [->|H0]; [by apply addReply_at, Hsh|].
  destruct (Z.eqb_spec ll 1) as [->|H1]; [by apply addReply_at, Hsh|].
  apply addReplyLongLongWithPrefix_spec; try done. by left.
Qed.

Lemma addReplyMultiBulkLen_spec k st c n :
  0 <= k -> ready (k + 2) st c -> shared_ok st c -> 0 <= n -> in_ll n ->
  adds k st c (addReplyMultiBulkLen zmalloc_size client_obuf_limits unixtime ae_ok shared st c n) (reply_line 42 n).
Proof.
  intros Hk Hr Hsh Hn Hll. unfold addReplyMultiBulkLen. destruct (Z.ltb_spec n REDIS_SHARED_BULKHDR_LEN).
  - destruct (sh_mbulkhdr _ _ Hsh n) as (p & -> & Hat); [lia|]. by apply addReply_at.
  - apply addReplyLongLongWithPrefix_spec; try done. by right.
Qed.

Lemma count_digits_spec fuel : forall d n len,
  has_digits d n -> (d <= S fuel)%nat -> count_digits fuel n len = Some (len + Z.of_nat d - 1).
Proof.
  induction fuel as [|fuel IH]; intros d n len Hd Hfuel; pose proof Hd as (H1 & Hr & Hlow); cbn [count_digits];
    rewrite Z.quot_div_nonneg by lia; destruct (Z.eqb_spec (n / 10) 0) as [Hq|Hq].
  - f_equal. lia.
  - assert (d = 1%nat) as -> by lia. exfalso. apply Hq. apply Z.div_small. lia.
  - f_equal. destruct Hlow as [->|Hlow]; [lia|]. destruct (decide (d = 1%nat)) as [->|Hne]; [lia|].
    assert (10 ^ 1 <= 10 ^ (Z.of_nat d - 1)) by (apply Z.pow_le_mono_r; lia). exfalso. change (10 ^ 1) with 10 in *. dlia.
  - pose proof (ndigits_spec (n / 10) ltac:(dlia)) as Hd'.
    assert (10 <= n) as Hn10 by dlia. pose proof (has_digits_div10 _ _ Hd' Hn10) as HS.
    rewrite (has_digits_unique _ _ _ Hd HS) in *. rewrite (IH _ _ _ Hd') by lia. f_equal. lia.
Qed.

Lemma count_digits_repr n len :
  0 <= n <= LLONG_MAX -> count_digits 20 n len = Some (len + zlen (decimal n) - 1).
Proof.
  intros Hn. pose proof (ndigits_spec n ltac:(lia)) as Hd. unfold LLONG_MAX in Hn.
  rewrite (count_digits_spec 20 _ _ _ Hd).
  - unfold decimal, zlen. by rewrite length_dec_n.
  - assert (ndigits n <= 19)%nat; [|lia]. apply (has_digits_le _ n); [done| |lia]. change (10 ^ Z.of_nat 19) with 10000000000000000000. lia.
Qed.

Lemma addReplyBulkLen_spec k st c p s :
  0 <= k -> ready (k + 2) st c -> shared_ok st c -> str_at st c p s ->
  (forall o, heap st !! p = Some o -> val o <> INT LONG_MIN) ->
  adds k st c (addReplyBulkLen zmalloc_size client_obuf_limits unixtime ae_ok shared st c p) (reply_line 36 (zlen s)).
Proof.
  intros Hk Hr Hsh (Hpin & o & Ho & <- & Hl) Hmin. unfold addReplyBulkLen. rewrite Ho. sbind.
  destruct (ok_obj st (proj1 Hr) p o Ho) as [Hwf _]. pose proof (value_len _ Hwf) as Hvl.
  assert ((match val o with
    | RAW s _ | EMBSTR s => Some (zlen s)
    | INT n => if n <? 0 then if n =? LONG_MIN then None else count_digits 20 (- n) 2 else count_digits 20 n 1
    end) = Some (zlen (value (val o)))) as ->.
  { specialize (Hmin o Ho). destruct (val o) as [t free|t|n]; [done|done|]. cbn [value wf_val] in *.
    unfold in_ll, LONG_MIN, LLONG_MIN, LLONG_MAX in *. unfold ll_repr.
    destruct (Z.ltb_spec n 0).
    - rewrite (proj2 (Z.eqb_neq _ _)) by congruence. rewrite count_digits_repr, zlen_cons.
      + f_equal. lia.
      + unfold LLONG_MAX. assert (n <> -9223372036854775808) by congruence. lia.
    - rewrite count_digits_repr by (unfold LLONG_MAX; lia). f_equal. lia. }
  sbind. assert (in_ll (zlen (value (val o)))) by (unfold in_ll, LLONG_MIN, LLONG_MAX; lia).
  destruct (Z.ltb_spec (zlen (value (val o))) REDIS_SHARED_BULKHDR_LEN).
  - destruct (sh_bulkhdr _ _ Hsh (zlen (value (val o)))) as (q & -> & Hat); [lia|]. by apply addReply_at.
  - apply addReplyLongLongWithPrefix_spec; try done. right. lia.
Qed.

Lemma addReplyBulk_spec k st c p s :
  0 <= k -> ready (k + 6) st c -> shared_ok st c -> str_at st c p s ->
  (forall o, heap st !! p = Some o -> val o <> INT LONG_MIN) ->
  adds k st c (addReplyBulk zmalloc_size client_obuf_limits unixtime ae_ok shared st c p) (bulk s).
Proof.
  intros Hk Hr Hsh Hat Hmin. unfold addReplyBulk, bulk.
  apply (adds_bind (k + 4)); [apply addReplyBulkLen_spec; try done; [lia|by replace (k + 4 + 2) with (k + 6) by lia]|].
  intros st1 c1 Hr1 Hf1. apply (adds_bind (k + 2)).
  - apply addReply_at; [lia|by replace (k + 2 + 2) with (k + 4) by lia|by apply (str_at_frame st c)].
  - intros st2 c2 Hr2 Hf2. apply addReply_at; [done|done|].
    apply (str_at_frame st1 c1); [done|]. by apply (str_at_frame st c); [|apply Hsh].
Qed.

Lemma addReplyBulkCBuffer_spec k st c s :
  0 <= k -> ready (k + 5) st c -> shared_ok st c -> zlen s <= 536870912 ->
  adds k st c (addReplyBulkCBuffer zmalloc_size client_obuf_limits unixtime ae_ok shared st c s) (bulk s).
Proof.
  intros Hk Hr Hsh Hs. unfold addReplyBulkCBuffer, bulk. pose proof (zlen_nonneg s).
  apply (adds_bind (k + 3)).
  { apply addReplyLongLongWithPrefix_spec; try done; [lia|by replace (k + 3 + 2) with (k + 5) by lia| |by right].
    unfold in_ll, LLONG_MIN, LLONG_MAX. lia. }
  intros st1 c1 Hr1 Hf1. apply (adds_bind (k + 2)).
  - apply addReplyString_spec; [lia|by replace (k + 2 + 1) with (k + 3) by lia|done].
  - intros st2 c2 Hr2 Hf2. apply addReply_at; [done|done|].
    apply (str_at_frame st1 c1); [done|]. by apply (str_at_frame st c); [|apply Hsh].
Qed.

Lemma addReplyBulkLongLong_spec k st c ll :
  0 <= k -> ready (k + 5) st c -> shared_ok st c -> in_ll ll ->
  adds k st c (addReplyBulkLongLong zmalloc_size client_obuf_limits unixtime ae_ok shared st c ll) (bulk (ll_repr ll)).
Proof.
  intros Hk Hr Hsh Hll. unfold addReplyBulkLongLong. rewrite ll_buf_spec by (done || lia). sbind.
  apply addReplyBulkCBuffer_spec; try done. pose proof (ll_repr_len ll Hll). lia.
Qed.

Lemma addReplyErrorLength_spec k st c s :
  0 <= k -> ready (k + 3) st c -> zlen s <= 536870912 ->
  adds k st c (addReplyErrorLength zmalloc_size client_obuf_limits unixtime ae_ok st c s)
    (bytes_of_string "-ERR " ++ s ++ [13; 10]).
Proof.
  intros Hk Hr Hs. unfold addReplyErrorLength. apply (adds_bind (k + 2)).
  { apply addReplyString_spec; [lia|by replace (k + 2 + 1) with (k + 3) by lia|done]. }
  intros st1 c1 Hr1 _. apply (adds_bind (k + 1)).
  - apply addReplyString_spec; [lia|by replace (k + 1 + 1) with (k + 2) by lia|done].
  - intros st2 c2 Hr2 _. by apply addReplyString_spec.
Qed.

Lemma addReplyStatusLength_spec k st c s :
  0 <= k -> ready (k + 3) st c -> zlen s <= 536870912 ->
  adds k st c (addReplyStatusLength zmalloc_size client_obuf_limits unixtime ae_ok st c s)
    (bytes_of_string "+" ++ s ++ [13; 10]).
Proof.
  intros Hk Hr Hs. unfold addReplyStatusLength. apply (adds_bind (k + 2)).
  { apply addReplyString_spec; [lia|by replace (k + 2 + 1) with (k + 3) by lia|done]. }
  intros st1 c1 Hr1 _. apply (adds_bind (k + 1)).
  - apply addReplyString_spec; [lia|by replace (k + 1 + 1) with (k + 2) by lia|done].
  - intros st2 c2 Hr2 _. by apply addReplyString_spec.
Qed.

(** ** Lemmas: sending *)

(** No length is missing. *)
Definition complete (r : list node) : Prop := forall n, n ∈ r -> obj n <> None.

Lemma decr_agree st p o st' r :
  store_ok st -> nodes_ok st r -> heap st !! p = Some o -> sdsEncodedObject (val o) = true ->
  decrRefCount st p = Some st' -> occ r p < refs st p ->
  store_ok st' /\ agree st st' r /\ (forall x, refs st' x = refs st x - count (Some p) x) /\
  (forall x ox, 1 < refs st x \/ x <> p -> heap st !! x = Some ox -> exists o', heap st' !! x = Some o' /\ val o' = val ox).
Proof.
  intros Hst Hn Hp He Hd Hocc.
  destruct (decrRefCount_gen st p o Hst Hp) as (st2 & Hd2 & Hst2 & [Hr _] & _ & _ & _ & Hoth);
    [intros _ i _ Hi; by rewrite Hi in He|].
  rewrite Hd in Hd2. injection Hd2 as <-.
  assert (forall x, refs st' x = refs st x - count (Some p) x) as Hrefs by (intros x; rewrite Hr, count_none; lia).
  assert (forall x ox, 1 < refs st x \/ x <> p -> heap st !! x = Some ox -> exists o', heap st' !! x = Some o' /\ val o' = val ox) as Hkeep.
  { intros x ox Hx Hox. destruct (decide (x = p)) as [->|Hne]; [|exists ox; by rewrite Hoth].
    destruct Hx as [Hx|?]; [|done]. rewrite Hp in Hox. injection Hox as <-. rewrite (refs_lookup st p o Hp) in Hx.
    unfold decrRefCount in Hd. rewrite Hp in Hd. revert Hd. sbind. case_match; [done|].
    rewrite (proj2 (Z.eqb_neq (refcount o) 1)) by lia. intros [= <-]. cbn. rewrite lookup_insert_eq. by eexists. }
  split; [done|]. split; [|by split]. intros n x Hin Hx. destruct (Hn n x Hin Hx) as (ox & Hox & _).
  destruct (Hkeep x ox) as (o' & Ho' & Hv); [|done|by exists ox, o'].
  destruct (decide (x = p)) as [->|Hne]; [|by right]. left. pose proof (occ_elem r n p Hin Hx). lia.
Qed.

Lemma drop_ref_dec st p o :
  store_ok st -> heap st !! p = Some o -> sdsEncodedObject (val o) = true -> exists st', decrRefCount st p = Some st'.
Proof.
  intros Hst Hp He. destruct (decrRefCount_gen st p o Hst Hp) as (st' & Hd & _); [intros _ i _ Hi; by rewrite Hi in He|].
  by exists st'.
Qed.

(** The first object of the list has been sent. *)
Lemma pop_spec st c n r p o :
  store_ok st -> reply_ok st c -> bufpos c = 0 -> reply c = n :: r -> obj n = Some p -> heap st !! p = Some o ->
  exists st', decrRefCount st p = Some st' /\
    let c1 := set_reply (set_sentlen c 0) r (u64 (reply_bytes c - getStringObjectSdsUsedMemory zmalloc_size (val o))) in
    (reply_bytes c < 2 ^ 64 -> store_ok st' /\ reply_ok st' c1 /\ frame st c st' c1 /\
      pending st' c1 = r ≫= content st).
Proof.
  intros Hst Hok Hb Hre Hn Hp. pose proof Hok as [Hbuf Hs Hnd Hr Hd Hm]. rewrite Hre in *.
  destruct (Hnd n p) as (o2 & Ho2 & He); [by left|done|]. rewrite Hp in Ho2. injection Ho2 as <-.
  destruct (ok_obj st Hst p o Hp) as [_ Hrc].
  assert (occ r p < refs st p) as Hlt.
  { specialize (Hr p). cbn in Hr. rewrite Hn, count_same in Hr. lia. }
  destruct (decrRefCount_gen st p o Hst Hp) as (st' & Hdec & _); [intros _ i _ Hi; by rewrite Hi in He|].
  exists st'. split; [done|]. intros c1 Hmax. subst c1.
  destruct (decr_agree st p o st' r) as (Hst' & Hag & Hrefs & Hkeep); try done.
  { intros m x Hm' Hx. apply (Hnd m x); [by right|done]. }
  assert (reply_bytes c - getStringObjectSdsUsedMemory zmalloc_size (val o) = used st r) as Hused.
  { rewrite Hm. cbn. rewrite Hn. unfold memory. rewrite Hp. lia. }
  pose proof (reply_used_nonneg st r Hst). pose proof (memory_nonneg st p Hst) as Hmp. unfold memory in Hmp. rewrite Hp in Hmp.
  rewrite Hused, u64_small by lia.
  split; [done|]. split; [|split].
  - split; cbn [buf bufpos reply reply_bytes set_reply set_sentlen sentlen]; [done| | | | |].
    + split; cbn; [done|]. rewrite Hb. cbn. destruct r; [done|by left].
    + apply (agree_nodes st); [done|]. intros m x Hm' Hx. apply (Hnd m x); [by right|done].
    + intros x. rewrite Hrefs. specialize (Hr x). cbn in Hr. rewrite Hn in Hr. lia.
    + by inversion Hd.
    + by rewrite (agree_used _ _ _ Hag).
  - split; cbn [set_reply set_sentlen reply].
    + intros x. rewrite Hrefs, Hre. cbn. rewrite Hn. lia.
    + intros x ox Hpin Hx. apply Hkeep; [|done]. unfold pinned in Hpin. rewrite Hre in Hpin. cbn in Hpin. rewrite Hn in Hpin.
      destruct (decide (x = p)) as [->|Hne]; [left|by right]. rewrite count_same in Hpin. pose proof (occ_nonneg r p). lia.
  - unfold pending, body. cbn [set_reply set_sentlen reply bufpos sentlen]. rewrite Hb. cbn. by rewrite (agree_content _ _ _ Hag).
Qed.

(** The static buffer, or the first object, has been sent in part or entirely. *)
Lemma pending_buf st c :
  0 < bufpos c -> reply_ok st c ->
  pending st c = (inl <$> drop (Z.to_nat (sentlen c)) (take (Z.to_nat (bufpos c)) (buf c))) ++ (reply c ≫= content st).
Proof.
  intros Hb Hok. destruct Hok as [[Hlen Hpos] [Hs0 Hs] _ _ _ _]. rewrite Z.gtb_ltb, (proj2 (Z.ltb_lt 0 _) Hb) in Hs.
  unfold pending, body. rewrite drop_app_le.
  - by rewrite fmap_drop.
  - rewrite length_fmap, length_take. unfold zlen in Hlen. lia.
Qed.

Lemma pending_obj st c n r p :
  bufpos c = 0 -> reply c = n :: r -> obj n = Some p -> reply_ok st c ->
  pending st c = (inl <$> drop (Z.to_nat (sentlen c)) (str st p)) ++ (r ≫= content st).
Proof.
  intros Hb Hre Hn Hok. destruct Hok as [_ [Hs0 Hs] _ _ _ _]. rewrite Hb, Hre in Hs. cbn in Hs.
  unfold pending, body. rewrite Hb, Hre, bind_cons, (content_obj st n p Hn). change (take (Z.to_nat 0) (buf c)) with (@nil Z). rewrite fmap_nil, app_nil_l.
  rewrite drop_app_le, fmap_drop; [done|]. rewrite length_fmap.
  destruct Hs as [->|[Hs _]]; [lia|]. rewrite (content_obj st n p Hn), zlen_fmap in Hs. unfold zlen in Hs. lia.
Qed.

Lemma pending_none st c : reply_ok st c -> bufpos c = 0 -> reply c = [] -> pending st c = [].
Proof. intros Hok Hb Hre. unfold pending, body. rewrite Hb, Hre. by destruct (Z.to_nat (sentlen c)). Qed.

Lemma write_result_range w n : 0 < write_result w n -> write_result w n <= n /\ 0 < w.
Proof. unfold write_result. destruct (Z.ltb_spec w 0); lia. Qed.

Lemma buffer_sent st c nw :
  reply_ok st c -> 0 < bufpos c -> 0 < nw <= bufpos c - sentlen c ->
  let c0 := set_sentlen c (sentlen c + nw) in
  let c1 := if sentlen c0 =? bufpos c0 then set_sentlen (set_buf c0 (buf c0) 0) 0 else c0 in
  reply_ok st c1 /\ reply c1 = reply c /\ same c c1 /\ writable c1 = writable c /\ reply_bytes c1 = reply_bytes c /\
  pending st c = (inl <$> take (Z.to_nat nw) (drop (Z.to_nat (sentlen c)) (take (Z.to_nat (bufpos c)) (buf c)))) ++ pending st c1.
Proof.
  intros Hok Hb Hnw c0 c1. pose proof (pending_buf st c Hb Hok) as Hp. pose proof Hok as [[Hlen Hpos] [Hs0 Hs] Hnd Hr Hd Hm].
  assert (zlen (drop (Z.to_nat (sentlen c)) (take (Z.to_nat (bufpos c)) (buf c))) = bufpos c - sentlen c) as Hz
    by (rewrite zlen_drop, zlen_take; lia).
  subst c0 c1. cbn [sentlen set_sentlen bufpos]. destruct (Z.eqb_spec (sentlen c + nw) (bufpos c)) as [Heq|Hne].
  - split.
    { split; cbn; try done. split; cbn; [done|]. destruct (reply c); [done|by left]. }
    split; [done|]. split; [by repeat split|]. split; [done|]. split; [done|].
    rewrite Hp. rewrite (take_ge (drop _ _)) by (unfold zlen in Hz; lia). done.
  - assert (reply_ok st (set_sentlen c (sentlen c + nw))) as Hok1.
    { split; cbn; try done. split; cbn; [lia|]. rewrite Z.gtb_ltb, (proj2 (Z.ltb_lt 0 _) Hb). lia. }
    split; [done|]. split; [done|]. split; [by repeat split|]. split; [done|]. split; [done|].
    rewrite (pending_buf st (set_sentlen c (sentlen c + nw))) by done. cbn [sentlen set_sentlen bufpos buf reply].
    rewrite Hp, app_assoc, <- fmap_app. do 2 f_equal.
    replace (Z.to_nat (sentlen c + nw)) with (Z.to_nat (sentlen c) + Z.to_nat nw)%nat by lia.
    by rewrite <- drop_drop, take_drop.
Qed.

(** Part of the first object, but not all of it. *)
Lemma object_sent st c n r p nw :
  reply_ok st c -> bufpos c = 0 -> reply c = n :: r -> obj n = Some p -> 0 < nw -> sentlen c + nw < zlen (str st p) ->
  let c1 := set_sentlen c (sentlen c + nw) in
  reply_ok st c1 /\
  pending st c = (inl <$> take (Z.to_nat nw) (drop (Z.to_nat (sentlen c)) (str st p))) ++ pending st c1.
Proof.
  intros Hok Hb Hre Hn Hnw Hlt c1. pose proof Hok as [[Hlen Hpos] [Hs0 Hs] Hnd Hr Hd Hm].
  assert (reply_ok st c1) as Hok1.
  { split; cbn; try done. split; cbn; [lia|]. rewrite Hb, Hre. cbn. right. rewrite (content_obj st n p Hn), zlen_fmap.
    split; [done|by rewrite Hn]. }
  split; [done|]. rewrite (pending_obj st c n r p), (pending_obj st c1 n r p) by done. subst c1. cbn [sentlen set_sentlen].
  rewrite app_assoc, <- fmap_app. do 2 f_equal.
  replace (Z.to_nat (sentlen c + nw)) with (Z.to_nat (sentlen c) + Z.to_nat nw)%nat by lia.
  by rewrite <- drop_drop, take_drop.
Qed.

Lemma load_drop (s : list Z) i : 0 <= i <= zlen s -> load s i (zlen s - i) = Some (drop (Z.to_nat i) s).
Proof.
  intros Hi. rewrite <- (take_drop (Z.to_nat i) s) at 1. rewrite <- (app_nil_r (drop _ _)) at 1.
  apply load_mid; [rewrite zlen_take; lia|rewrite zlen_drop; lia].
Qed.

Lemma load_part (b : list Z) i j :
  0 <= i <= j -> j <= zlen b -> load b i (j - i) = Some (drop (Z.to_nat i) (take (Z.to_nat j) b)).
Proof.
  intros Hi Hj. assert (b = take (Z.to_nat i) (take (Z.to_nat j) b) ++ drop (Z.to_nat i) (take (Z.to_nat j) b) ++ drop (Z.to_nat j) b) as Hb
    by (by rewrite app_assoc, !take_drop).
  rewrite Hb at 1. apply load_mid; [rewrite !zlen_take; lia|rewrite zlen_drop, zlen_take; lia].
Qed.

(** From a state to the next one, the bytes [new] have been sent. *)
Definition sends (st : store) (c : redisClient) (st' : store) (c' : redisClient) (new : list Z) : Prop :=
  store_ok st' /\ reply_ok st' c' /\ frame st c st' c' /\ same c c' /\ writable c' = writable c /\ complete (reply c') /\
  reply_bytes c' <= reply_bytes c /\ (forall x, refs st' x <= refs st x) /\
  pending st c = (inl <$> new) ++ pending st' c'.

Lemma sends_refl st c : store_ok st -> reply_ok st c -> complete (reply c) -> sends st c st c [].
Proof.
  intros Hst Hok Hc. unfold sends. split_and!; try done. by apply reply_frame_refl.
Qed.

Lemma sends_trans st c st1 c1 st2 c2 a b :
  sends st c st1 c1 a -> sends st1 c1 st2 c2 b -> sends st c st2 c2 (a ++ b).
Proof.
  intros (_ & _ & F1 & S1 & W1 & _ & B1 & R1 & P1) (X1 & X2 & F2 & S2 & W2 & X3 & B2 & R2 & P2).
  split; [done|]. split; [done|]. split; [by apply (reply_frame_trans st c st1 c1)|]. split; [by apply (same_trans c c1)|].
  split; [congruence|]. split; [done|]. split; [lia|]. split; [intros x; specialize (R1 x); specialize (R2 x); lia|].
  by rewrite P1, P2, fmap_app, app_assoc.
Qed.

(** A write that is not the end of the loop; [k] is the rest of it. *)
Lemma send_more (k : option (store * redisClient * Z * Z * list Z)) (stop : bool) st c st1 c1 wire new nw tot :
  sends st c st1 c1 new -> new <> [] ->
  (exists st' c' nw' tot' new', k = Some (st', c', nw', tot', (wire ++ new) ++ new') /\ sends st1 c1 st' c' new') ->
  exists st' c' nw' tot' new', (if stop then Some (st1, c1, nw, tot, wire ++ new) else k)
    = Some (st', c', nw', tot', wire ++ new') /\ sends st c st' c' new' /\ new' <> [].
Proof.
  intros Hs Hne (st' & c' & nw' & tot' & new' & -> & Hs'). destruct stop.
  - by exists st1, c1, nw, tot, new.
  - exists st', c', nw', tot', (new ++ new'). rewrite <- app_assoc. split; [done|]. split; [by apply (sends_trans st c st1 c1)|].
    by destruct new.
Qed.
Lemma pop_sends st c n r p o :
  store_ok st -> reply_ok st c -> bufpos c = 0 -> reply c = n :: r -> obj n = Some p -> heap st !! p = Some o ->
  reply_bytes c < 2 ^ 64 -> complete (reply c) ->
  exists st', decrRefCount st p = Some st' /\
    sends st c st' (set_reply (set_sentlen c 0) r (u64 (reply_bytes c - getStringObjectSdsUsedMemory zmalloc_size (val o))))
      (drop (Z.to_nat (sentlen c)) (str st p)).
Proof.
  intros Hst Hok Hb Hre Hn Hp Hmax Hcomp.
  destruct (pop_spec st c n r p o Hst Hok Hb Hre Hn Hp) as (st' & Hdec & Hpop). cbv zeta in Hpop.
  destruct (Hpop Hmax) as (Hst' & Hok' & Hf' & Hp'). exists st'. split; [done|].
  split; [done|]. split; [done|]. split; [done|]. split; [by repeat split|]. split; [done|]. split; [|split; [|split]].
  - intros m Hm. apply Hcomp. rewrite Hre. by right.
  - cbn [reply_bytes set_reply]. pose proof (memory_nonneg st p Hst) as Hmem. unfold memory in Hmem. rewrite Hp in Hmem.
    pose proof (ok_bytes _ _ Hok) as Hby. rewrite Hre in Hby. cbn in Hby. rewrite Hn in Hby. unfold memory in Hby. rewrite Hp in Hby.
    pose proof (reply_used_nonneg st r Hst). rewrite u64_small by lia. lia.
  - intros x. pose proof (proj1 Hf' x) as Hfx. cbn [set_reply set_sentlen reply] in Hfx. rewrite Hre in Hfx. cbn in Hfx.
    rewrite Hn in Hfx. pose proof (count_range (Some p) x). lia.
  - rewrite Hp'. by apply (pending_obj st c n r p).
Qed.

(** The loop on the static buffer. *)
Lemma send_buffer unlimited st c ws nw tot wire fuel :
  store_ok st -> reply_ok st c -> complete (reply c) -> 0 < bufpos c ->
  (forall c1 tot wire, ws <> [] -> reply_ok st c1 -> reply c1 = reply c -> reply_bytes c1 = reply_bytes c ->
    exists st' c' nw' tot' new, send_loop zmalloc_size fuel unlimited st c1 (tail ws) nw tot wire = Some (st', c', nw', tot', wire ++ new) /\
      sends st c1 st' c' new) ->
  nw = write_result (default (-1) (head ws)) (bufpos c - sentlen c) ->
  exists st' c' nw' tot' new,
    (b ← load (buf c) (sentlen c) (bufpos c - sentlen c);
     if nw <=? 0 then Some (st, c, nw, tot, wire)
     else
       let c := set_sentlen c (sentlen c + nw) in
       let totwritten := tot + nw in
       let c := if sentlen c =? bufpos c then set_sentlen (set_buf c (buf c) 0) 0 else c in
       let wire := wire ++ take (Z.to_nat nw) b in
       if (totwritten >? REDIS_MAX_WRITE_PER_EVENT) && negb unlimited
       then Some (st, c, nw, totwritten, wire)
       else send_loop zmalloc_size fuel unlimited st c (tail ws) nw totwritten wire)
    = Some (st', c', nw', tot', wire ++ new) /\
    sends st c st' c' new /\ (0 < default (-1) (head ws) -> new <> []).
Proof.
  intros Hst Hok Hcomp Hb Hrec Hnw. pose proof Hok as [[Hlen Hpos] [Hs0 Hs] _ _ _ _].
  rewrite Z.gtb_ltb, (proj2 (Z.ltb_lt 0 _) Hb) in Hs. rewrite load_part by lia. sbind.
  set (b := drop _ _). assert (zlen b = bufpos c - sentlen c) as Hz by (subst b; rewrite zlen_drop, zlen_take; lia).
  destruct (Z.leb_spec nw 0) as [Hle|Hgt].
  { exists st, c, nw, tot, []. rewrite app_nil_r. split; [done|]. split; [by apply sends_refl|].
    unfold write_result in Hnw. intros Hw. rewrite (proj2 (Z.ltb_ge _ _)) in Hnw by lia. lia. }
  assert (nw <= bufpos c - sentlen c /\ 0 < default (-1) (head ws)) as [Hle Hw]
    by (rewrite Hnw in Hgt; apply write_result_range in Hgt; by rewrite Hnw).
  destruct (buffer_sent st c nw Hok Hb) as (Hok1 & Hre1 & Hs1 & Hw1 & Hb1 & Hp1); [lia|]. fold b in Hp1. cbv zeta.
  set (c1 := if sentlen (set_sentlen c (sentlen c + nw)) =? _ then _ else _) in *.
  destruct (send_more (send_loop zmalloc_size fuel unlimited st c1 (tail ws) nw (tot + nw) (wire ++ take (Z.to_nat nw) b))
    ((tot + nw >? REDIS_MAX_WRITE_PER_EVENT) && negb unlimited) st c st c1 wire (take (Z.to_nat nw) b) nw (tot + nw))
    as (st' & c' & nw' & tot' & new & Hrun & Hsend & Hne).
  - unfold sends. rewrite Hre1, Hb1. split_and!; try done. by apply reply_frame_refl.
  - intros Hn%(f_equal zlen). rewrite zlen_take in Hn. rewrite (@zlen_nil Z) in Hn. lia.
  - apply Hrec; try done. intros ->. cbn in Hw. lia.
  - exists st', c', nw', tot', new. split; [exact Hrun|]. by split.
Qed.

(** The loop on the first object of the list. *)
Lemma send_object unlimited st c n r p o ws nw tot wire fuel :
  store_ok st -> reply_ok st c -> complete (reply c) -> reply_bytes c < 2 ^ 64 -> bufpos c = 0 -> reply c = n :: r ->
  obj n = Some p -> heap st !! p = Some o -> str st p <> [] ->
  (forall st1 c1 tot wire, ws <> [] -> store_ok st1 -> reply_ok st1 c1 -> complete (reply c1) ->
    (length (reply c1) <= length (reply c))%nat -> reply_bytes c1 < 2 ^ 64 ->
    exists st' c' nw' tot' new, send_loop zmalloc_size fuel unlimited st1 c1 (tail ws) nw tot wire = Some (st', c', nw', tot', wire ++ new) /\
      sends st1 c1 st' c' new) ->
  nw = write_result (default (-1) (head ws)) (zlen (str st p) - sentlen c) ->
  exists st' c' nw' tot' new,
    (b ← load (str st p) (sentlen c) (zlen (str st p) - sentlen c);
     if nw <=? 0 then Some (st, c, nw, tot, wire)
     else
       let c := set_sentlen c (sentlen c + nw) in
       let totwritten := tot + nw in
       let wire := wire ++ take (Z.to_nat nw) b in
       '(st, c) ← (if sentlen c =? zlen (str st p) then
           st ← decrRefCount st p;
           Some (st, set_reply (set_sentlen c 0) (tail (reply c)) (u64 (reply_bytes c - getStringObjectSdsUsedMemory zmalloc_size (val o))))
         else Some (st, c));
       if (totwritten >? REDIS_MAX_WRITE_PER_EVENT) && negb unlimited
       then Some (st, c, nw, totwritten, wire)
       else send_loop zmalloc_size fuel unlimited st c (tail ws) nw totwritten wire)
    = Some (st', c', nw', tot', wire ++ new) /\
    sends st c st' c' new /\ (0 < default (-1) (head ws) -> new <> []).
Proof.
  intros Hst Hok Hcomp Hmax Hb Hre Hn Ho Hne Hrec Hnw. pose proof Hok as [_ [Hs0 Hs] _ _ _ _].
  apply zlen_pos in Hne. rewrite Hb, Hre in Hs. cbn in Hs. rewrite (content_obj st n p Hn), zlen_fmap in Hs.
  assert (0 <= sentlen c < zlen (str st p)) as Hsl by (destruct Hs as [?|[? _]]; lia). rewrite load_drop by lia. sbind.
  set (b := drop _ _). assert (zlen b = zlen (str st p) - sentlen c) as Hz by (subst b; rewrite zlen_drop; lia).
  destruct (Z.leb_spec nw 0) as [Hle|Hgt].
  { exists st, c, nw, tot, []. rewrite app_nil_r. split; [done|]. split; [by apply sends_refl|].
    unfold write_result in Hnw. intros Hw. rewrite (proj2 (Z.ltb_ge _ _)) in Hnw by lia. lia. }
  assert (nw <= zlen (str st p) - sentlen c /\ 0 < default (-1) (head ws)) as [Hle Hw]
    by (rewrite Hnw in Hgt; apply write_result_range in Hgt; by rewrite Hnw).
  cbv zeta. cbn [sentlen set_sentlen].
  assert (exists st1 c1, (if sentlen c + nw =? zlen (str st p) then
       st ← decrRefCount st p;
       Some (st, set_reply (set_sentlen (set_sentlen c (sentlen c + nw)) 0) (tail (reply (set_sentlen c (sentlen c + nw))))
         (u64 (reply_bytes (set_sentlen c (sentlen c + nw)) - getStringObjectSdsUsedMemory zmalloc_size (val o))))
     else Some (st, set_sentlen c (sentlen c + nw))) = Some (st1, c1) /\ sends st c st1 c1 (take (Z.to_nat nw) b) /\
     (length (reply c1) <= length (reply c))%nat) as (st1 & c1 & -> & Hs1 & Hlen).
  { destruct (Z.eqb_spec (sentlen c + nw) (zlen (str st p))) as [Heq|Hneq].
    - destruct (pop_sends st c n r p o Hst Hok Hb Hre Hn Ho Hmax Hcomp) as (st1 & -> & Hsend). sbind.
      eexists st1, _. split; [done|]. cbn [reply set_sentlen set_reply reply_bytes]. rewrite Hre. cbn [tail length].
      split; [|lia]. rewrite (take_ge b) by (unfold zlen in *; lia). exact Hsend.
    - destruct (object_sent st c n r p nw Hok Hb Hre Hn Hgt) as [Hok1 Hp1]; [lia|].
      eexists st, _. split; [done|]. split; [|done]. unfold sends. split_and!; try done. by apply reply_frame_refl. }
  sbind. destruct Hs1 as (Hst1 & Hok1 & Hrest). pose proof Hrest as (_ & _ & _ & Hc1 & Hb1 & _).
  destruct (send_more (send_loop zmalloc_size fuel unlimited st1 c1 (tail ws) nw (tot + nw) (wire ++ take (Z.to_nat nw) b))
    ((tot + nw >? REDIS_MAX_WRITE_PER_EVENT) && negb unlimited) st c st1 c1 wire (take (Z.to_nat nw) b) nw (tot + nw))
    as (st' & c' & nw' & tot' & new & Hrun & Hsend & Hnn).
  - by split.
  - intros Hx%(f_equal zlen). rewrite zlen_take in Hx. rewrite (@zlen_nil Z) in Hx. lia.
  - apply Hrec; try done; [|lia]. intros ->. cbn in Hw. lia.
  - exists st', c', nw', tot', new. split; [exact Hrun|]. by split.
Qed.

Lemma send_loop_spec unlimited fuel : forall st c ws nw tot wire,
  store_ok st -> reply_ok st c -> reply_bytes c < 2 ^ 64 -> complete (reply c) ->
  (length ws + length (reply c) < fuel)%nat ->
  exists st' c' nw' tot' new, send_loop zmalloc_size fuel unlimited st c ws nw tot wire = Some (st', c', nw', tot', wire ++ new) /\
    sends st c st' c' new /\ (0 < default (-1) (head ws) -> pending st c <> [] -> new <> []).
Proof.
  induction fuel as [|fuel IH]; intros st c ws nw tot wire Hst Hok Hmax Hcomp Hfuel; [lia|].
  cbn [send_loop]. pose proof Hok as [[Hlen Hpos] [Hs0 Hs] Hnd Hr Hd Hm].
  assert (forall st1 c1 tot wire nw, ws <> [] -> store_ok st1 -> reply_ok st1 c1 -> complete (reply c1) ->
    (length (reply c1) <= length (reply c))%nat -> reply_bytes c1 < 2 ^ 64 ->
    exists st' c' nw' tot' new, send_loop zmalloc_size fuel unlimited st1 c1 (tail ws) nw tot wire = Some (st', c', nw', tot', wire ++ new) /\
      sends st1 c1 st' c' new) as Hrec.
  { intros st1 c1 tot1 wire1 nw1 Hws Hst1 Hok1 Hc1 Hl1 Hb1. destruct ws as [|w ws]; [done|]. cbn [tail length] in *.
    destruct (IH st1 c1 ws nw1 tot1 wire1) as (st' & c' & nw' & tot' & new & Hrun & Hsend & _); try done; [lia|].
    by exists st', c', nw', tot', new. }
  rewrite !Z.gtb_ltb. destruct (Z.ltb_spec 0 (bufpos c)) as [Hb|Hb].
  - cbn [orb]. destruct (send_buffer unlimited st c ws (write_result (default (-1) (head ws)) (bufpos c - sentlen c)) tot wire fuel)
      as (st' & c' & nw' & tot' & new & Hrun & Hsend & Hne); try done.
    { intros c1 tot1 wire1 Hws Hok1 Hre1 Hb1. apply Hrec; rewrite ?Hre1, ?Hb1; done || lia. }
    exists st', c', nw', tot', new. split; [|split; [done|by intros Hw _; apply Hne]]. rewrite <- Hrun.
    rewrite Z.gtb_ltb, (proj2 (Z.ltb_lt 0 _) Hb) in Hs. rewrite load_part by lia. sbind.
    assert (zlen (drop (Z.to_nat (sentlen c)) (take (Z.to_nat (bufpos c)) (buf c))) = bufpos c - sentlen c) as ->
      by (rewrite zlen_drop, zlen_take; lia). done.
  - assert (bufpos c = 0) as Hb0 by lia. cbn [orb]. destruct (reply c) as [|n r] eqn:Hre.
    { rewrite bool_decide_eq_true_2 by done. cbn [negb]. exists st, c, nw, tot, []. rewrite app_nil_r.
      split; [done|]. split; [apply sends_refl; by rewrite ?Hre|]. intros _ Hp. exfalso. by apply Hp, pending_none. }
    rewrite bool_decide_eq_false_2 by done. cbn [negb head]. sbind.
    destruct (obj n) as [p|] eqn:Hn; [|exfalso; by apply (Hcomp n); [left|]]. sbind.
    destruct (Hnd n p) as (o & Ho & He); [by left|done|]. rewrite Ho. sbind.
    assert (sds_of (val o) = Some (str st p)) as -> by (unfold str; rewrite Ho; by destruct (val o)). sbind. cbv zeta.
    rewrite <- Hre in Hcomp. destruct (Z.eqb_spec (zlen (str st p)) 0) as [Hz|Hz].
    + rewrite Hb0 in Hs. cbn in Hs. rewrite (content_obj st n p Hn), zlen_fmap in Hs.
      assert (sentlen c = 0) as Hsl0 by (destruct Hs as [?|[? _]]; lia).
      assert (set_sentlen c 0 = c) as Hsl by (rewrite <- Hsl0; by destruct c).
      destruct (pop_sends st c n r p o Hst Hok Hb0 Hre Hn Ho Hmax Hcomp) as (st1 & -> & Hsend). sbind. rewrite Hsl in Hsend.
      apply zlen_0 in Hz. rewrite Hz, drop_nil in Hsend. cbn [tail].
      set (c1 := set_reply c r _) in *. pose proof Hsend as (Hst1 & Hok1 & _ & _ & _ & Hc1 & Hb1 & _ & Hp1).
      destruct (IH st1 c1 ws nw tot wire Hst1 Hok1) as (st' & c' & nw' & tot' & new & Hrun & Hsend' & Hne);
        [lia|done|cbn [reply c1 set_reply length] in *; lia|].
      exists st', c', nw', tot', new. split; [exact Hrun|]. split; [by apply (sends_trans st c st1 c1 st' c' [] new)|].
      by rewrite Hp1.
    + destruct (send_object unlimited st c n r p o ws (write_result (default (-1) (head ws)) (zlen (str st p) - sentlen c)) tot wire fuel)
        as (st' & c' & nw' & tot' & new & Hrun & Hsend & Hne); try done.
      { intros H0. by rewrite H0 in Hz. }
      { intros st1 c1 tot1 wire1 Hws Hst1 Hok1 Hc1 Hl1 Hb1. apply Hrec; try done. by rewrite Hre in Hl1. }
      exists st', c', nw', tot', new. split; [|split; [done|by intros Hw _; apply Hne]]. rewrite <- Hrun. cbn [reply set_sentlen]. rewrite ?Hre.
      rewrite Hb0 in Hs. cbn in Hs. rewrite (content_obj st n p Hn), zlen_fmap in Hs. pose proof (zlen_nonneg (str st p)).
      rewrite load_drop by (destruct Hs as [?|[? _]]; lia). sbind.
      assert (zlen (drop (Z.to_nat (sentlen c)) (str st p)) = zlen (str st p) - sentlen c) as -> by (rewrite zlen_drop; destruct Hs as [?|[? _]]; lia).
      done.
Qed.

Lemma armed_same c c' : same c c' -> writable c' = writable c -> armed c -> armed c'.
Proof.
  intros Hs Hw Ha Hon Hlua. rewrite Hw. rewrite (online_same c c' Hs) in Hon. apply (Ha Hon).
  destruct Hs as (_ & _ & _ & Hf). by rewrite <- Hf.
Qed.

Lemma ready_sends k st c st' c' new :
  ready k st c -> sends st c st' c' new -> (nonempty c' -> nonempty c) -> ready k st' c'.
Proof.
  intros (Hst & Hok & Hw & Hk & Hm & Hb) (Hst' & Hok' & Hf & Hs & Hwr & _ & Hb' & Hr & _) Hn.
  split; [done|]. split; [done|]. split; [intros Hn'; apply (armed_same c c'); auto|]. split; [done|]. split; [|lia].
  intros p o' Hp'. specialize (Hr p). rewrite (refs_lookup st' p o' Hp') in Hr. unfold refs in Hr. unfold INT32_MAX in *.
  destruct (heap st !! p) as [o|] eqn:Hp; [specialize (Hm p o Hp); unfold INT32_MAX in Hm; lia|lia].
Qed.

(** ** Lemmas: deferred lengths *)

Lemma find_node_spec r b n e :
  NoDup (addr <$> r) -> r = b ++ n :: e -> find_node r (addr n) = Some (b, n, e).
Proof.
  intros Hd ->. induction b as [|m b IH]; cbn [app find_node].
  - by rewrite bool_decide_eq_true_2.
  - cbn in Hd. apply NoDup_cons in Hd as [Hm Hd]. rewrite bool_decide_eq_false_2.
    + by rewrite IH.
    + intros Heq. apply Hm. rewrite Heq, fmap_app. apply elem_of_app. right. by left.
Qed.

(** The length at [a] gets its value. *)
Definition fill (a : positive) (bs : list Z) (l : list atom) : list atom :=
  l ≫= fun x => match x with inr b => if bool_decide (b = a) then inl <$> bs else [x] | inl _ => [x] end.

Lemma fill_app a bs l l' : fill a bs (l ++ l') = fill a bs l ++ fill a bs l'.
Proof. apply bind_app. Qed.

Lemma fill_id a bs l : inr a ∉ l -> fill a bs l = l.
Proof.
  induction l as [|x l IH]; intros Ha; [done|]. apply not_elem_of_cons in Ha as [Hx Ha]. cbn. fold (fill a bs l).
  rewrite IH by done. destruct x as [x|b]; [done|]. by rewrite bool_decide_eq_false_2 by congruence.
Qed.

Lemma no_hole_bytes a (l : list Z) : inr a ∉ (inl <$> l : list atom).
Proof. intros (x & Hx & _)%list_elem_of_fmap. done. Qed.

Lemma no_hole_nodes st a r : a ∉ addr <$> r -> inr a ∉ r ≫= content st.
Proof.
  induction r as [|n r IH]; intros Ha; [by intros ?%not_elem_of_nil|]. rewrite bind_cons. cbn in Ha.
  apply not_elem_of_cons in Ha as [Hn Ha]. intros [Hin|Hin]%elem_of_app; [|by apply (IH Ha)].
  unfold content in Hin. destruct (obj n); [by apply no_hole_bytes in Hin|].
  apply list_elem_of_singleton in Hin. congruence.
Qed.

Lemma fill_hole a bs : fill a bs [inr a] = inl <$> bs.
Proof. cbn. rewrite bool_decide_eq_true_2 by done. apply app_nil_r. Qed.

(** What has been sent comes before any missing length. *)
Lemma sent_before st c b n e :
  reply_ok st c -> reply c = b ++ n :: e -> obj n = None ->
  (Z.to_nat (sentlen c) <= length ((inl <$> take (Z.to_nat (bufpos c)) (buf c)) ++ (b ≫= content st) : list atom))%nat.
Proof.
  intros [[Hlen Hpos] [Hs0 Hs] _ _ _ _] Hre Hn. rewrite length_app, length_fmap, length_take. unfold zlen in Hlen.
  rewrite Z.gtb_ltb in Hs. destruct (Z.ltb_spec 0 (bufpos c)); [lia|]. rewrite Hre in Hs. destruct b as [|m b]; cbn [app] in Hs.
  - destruct Hs as [?|[_ ?]]; [lia|done].
  - rewrite bind_cons, length_app. unfold zlen in Hs. destruct Hs as [?|[? _]]; lia.
Qed.

Lemma pending_fill st c st' c' b n e bs :
  reply_ok st c -> reply c = b ++ n :: e -> obj n = None -> sentlen c' = sentlen c ->
  body st' c' = (inl <$> take (Z.to_nat (bufpos c)) (buf c)) ++ (b ≫= content st) ++ (inl <$> bs) ++ (e ≫= content st) ->
  pending st' c' = fill (addr n) bs (pending st c).
Proof.
  intros Hok Hre Hn Hs Hb. pose proof (sent_before st c b n e Hok Hre Hn) as Hle. unfold pending. rewrite Hs, Hb.
  assert (body st c = ((inl <$> take (Z.to_nat (bufpos c)) (buf c)) ++ (b ≫= content st)) ++ [inr (addr n)] ++ (e ≫= content st)) as ->.
  { unfold body. rewrite Hre, bind_app, bind_cons. rewrite <- app_assoc. assert (content st n = [inr (addr n)]) as -> by (unfold content; by rewrite Hn). done. }
  set (l := (inl <$> take (Z.to_nat (bufpos c)) (buf c)) ++ (b ≫= content st)) in *.
  pose proof (ok_addr _ _ Hok) as Hd. rewrite Hre, fmap_app in Hd. apply NoDup_app in Hd as (Hdb & Hdis & Hde).
  cbn in Hde. apply NoDup_cons in Hde as [Hne _].
  assert (inr (addr n) ∉ l) as Hl.
  { intros [Hin|Hin]%elem_of_app; [by apply no_hole_bytes in Hin|]. revert Hin. apply no_hole_nodes.
    intros Hin. apply (Hdis _ Hin). by left. }
  rewrite app_assoc. fold l. rewrite !drop_app_le by done. rewrite !fill_app, fill_hole.
  rewrite (fill_id _ _ (drop _ l)) by (intros Hin; apply Hl; by apply (subseteq_drop _ l) in Hin).
  by rewrite (fill_id _ _ (e ≫= content st)) by (by apply no_hole_nodes).
Qed.

Lemma addDeferred_spec k st c :
  ready k st c ->
  exists r c', addDeferredMultiBulkLength ae_ok c = (r, c') /\ ready k st c' /\ accepts c' = accepts c /\ same c c' /\
    frame st c st c' /\
    match r with
    | Some a => willing c = true /\ pending st c' = pending st c ++ [inr a] /\ mk_node a None ∈ reply c'
    | None => willing c = false /\ pending st c' = pending st c
    end.
Proof.
  intros (Hst & Hok & Hw & Hk & Hm & Hb). unfold addDeferredMultiBulkLength.
  destruct (prepare_spec c Hw) as (c1 & -> & Hs & Hd & Hw1 & Harm).
  pose proof (reply_ok_data st c c1 Hd Hok) as Hok1. pose proof (willing_data c c1 Hs Hd) as Hwill.
  assert (reply_bytes c1 = reply_bytes c) as Hby by apply Hd. assert (reply c1 = reply c) as Hre by apply Hd.
  assert (accepts c1 = accepts c) as Hacc by (unfold accepts; rewrite Hwill; by destruct Hs as (_ & _ & _ & ->)).
  assert (forall c2, reply_ok st c2 -> wake_ok c2 -> reply_bytes c2 = reply_bytes c -> ready k st c2) as Hrdy
    by (intros c2 ? ? Hb2; unfold ready; rewrite Hb2; done).
  destruct (willing c) eqn:Hwc; cbn [negb].
  2: { exists None, c1. split; [done|]. split; [by apply Hrdy|]. split; [done|]. split; [done|].
       split; [by apply reply_frame_refl|]. split; [done|]. by apply pending_data. }
  unfold listAddNodeTail. set (a := fresh _). set (c2 := set_reply c1 (reply c1 ++ [mk_node a None]) (reply_bytes c1)).
  assert (a ∉ addr <$> reply c1) as Ha by apply fresh_addr.
  exists (Some a), c2. split; [done|].
  assert (forall x, occ (reply c2) x = occ (reply c1) x) as Hocc by (intros x; unfold c2; cbn; rewrite occ_app; cbn; rewrite count_none; lia).
  assert (reply_ok st c2) as Hok2.
  { pose proof Hok1 as [A1 A2 A3 A4 A5 A6]. split; [done| | | | |].
    - destruct A2 as [Hs0 Hs2]. split; [done|]. cbn. destruct (bufpos c1 >? 0); [done|].
      destruct (reply c1) as [|n r]; cbn; [by left|done].
    - intros n p [Hin|Hin]%elem_of_app Hp; [by apply (A3 n)|]. apply list_elem_of_singleton in Hin as ->. done.
    - intros p. rewrite Hocc. apply A4.
    - cbn. rewrite fmap_app. apply NoDup_app. split; [done|]. split; [|apply NoDup_singleton].
      intros x Hx Hx'%list_elem_of_singleton. by subst x.
    - cbn. rewrite used_app. cbn. rewrite A6. lia. }
  split. { apply Hrdy; [done| |done]. intros _ Hon Hl. by apply (Harm eq_refl). }
  split; [unfold accepts in *; rewrite <- Hacc|split; [done|split; [|split; [done|split]]]].
  - rewrite (willing_mono c1 c2); [by rewrite Hwill|by repeat split|by right; destruct (reply c1)|congruence].
  - split; [intros x; by rewrite Hocc, Hre|]. intros x o _ Ho. by exists o.
  - rewrite <- (pending_data st c c1 Hd). apply reply_pending_app; [done|done|]. unfold body. cbn. rewrite bind_app, <- app_assoc. done.
  - apply elem_of_app. right. by left.
Qed.

(** The string of the length and what follows it in the same object. *)
Lemma glue_spec st c b n e hdr :
  store_ok st -> reply_ok st c -> reply c = b ++ n :: e -> obj n = None -> zlen hdr <= 32 ->
  (forall m, m ∈ e -> zlen (content st m) <= 536870912 - 32) -> reply_bytes c + 2 ^ 34 < 2 ^ 64 ->
  exists v e' bytes st1,
    (match e with
     | next :: after' =>
         match obj next with
         | Some q =>
             o ← heap st !! q;
             s ← sds_of (val o);
             let bytes := u64 (u64 (reply_bytes c + zmalloc_size_sds zmalloc_size hdr (zlen hdr)) - zmalloc_size_sds zmalloc_size hdr (zlen hdr)) in
             let bytes := u64 (bytes - getStringObjectSdsUsedMemory zmalloc_size (val o)) in
             let v := sdscatlen hdr (zlen hdr) s in
             let bytes := u64 (bytes + getStringObjectSdsUsedMemory zmalloc_size v) in
             st ← decrRefCount st q;
             Some (v, after', bytes, st)
         | None => Some (RAW hdr (zlen hdr), e, u64 (reply_bytes c + zmalloc_size_sds zmalloc_size hdr (zlen hdr)), st)
         end
     | [] => Some (RAW hdr (zlen hdr), e, u64 (reply_bytes c + zmalloc_size_sds zmalloc_size hdr (zlen hdr)), st)
     end) = Some (v, e', bytes, st1) /\
    store_ok st1 /\ sdsEncodedObject v = true /\ wf_val v /\ agree st st1 (b ++ e') /\
    (forall x, refs st1 x - occ (b ++ e') x = refs st x - occ (reply c) x) /\
    (forall x o, pinned st c x -> heap st !! x = Some o -> exists o', heap st1 !! x = Some o' /\ val o' = val o) /\
    (exists d, e = d ++ e') /\ (inl <$> sds_ptr v) ++ (e' ≫= content st) = (inl <$> hdr) ++ (e ≫= content st) /\
    bytes = used st (b ++ e') + getStringObjectSdsUsedMemory zmalloc_size v /\ 
    0 <= getStringObjectSdsUsedMemory zmalloc_size v <= 2 ^ 33 /\ (forall x, refs st1 x <= refs st x).
Proof.
  intros Hst Hok Hre Hn Hh Hsmall Hmax. pose proof (zlen_nonneg hdr).
  pose proof Hok as [_ _ Hnd Hr _ Hm]. rewrite Hre, used_app in Hm. cbn [used] in Hm. rewrite Hn in Hm.
  pose proof (reply_used_nonneg st b Hst). pose proof (reply_used_nonneg st e Hst).
  pose proof (zmalloc_small hdr (zlen hdr)) as Hsz.
  assert (forall x, occ (reply c) x = occ (b ++ e) x) as Hocc
    by (intros x; rewrite Hre, !occ_app; cbn; rewrite Hn, count_none; lia).
  assert (nodes_ok st (b ++ e)) as Hnd2.
  { intros m p Hin Hp. apply (Hnd m p); [|done]. rewrite Hre. apply elem_of_app in Hin as [?|?]; apply elem_of_app; [by left|right; by right]. }
  assert (agree st st (b ++ e)) as Hrefl by (intros m p Hin Hp; destruct (Hnd2 m p Hin Hp) as (o & Ho & _); by exists o, o).
  assert (exists v e' bytes st1, Some (RAW hdr (zlen hdr), e, u64 (reply_bytes c + zmalloc_size_sds zmalloc_size hdr (zlen hdr)), st)
    = Some (v, e', bytes, st1) /\
    store_ok st1 /\ sdsEncodedObject v = true /\ wf_val v /\ agree st st1 (b ++ e') /\
    (forall x, refs st1 x - occ (b ++ e') x = refs st x - occ (reply c) x) /\
    (forall x o, pinned st c x -> heap st !! x = Some o -> exists o', heap st1 !! x = Some o' /\ val o' = val o) /\
    (exists d, e = d ++ e') /\ (inl <$> sds_ptr v) ++ (e' ≫= content st) = (inl <$> hdr) ++ (e ≫= content st) /\
    bytes = used st (b ++ e') + getStringObjectSdsUsedMemory zmalloc_size v /\ 
    0 <= getStringObjectSdsUsedMemory zmalloc_size v <= 2 ^ 33 /\ (forall x, refs st1 x <= refs st x)) as Hplain.
  { exists (RAW hdr (zlen hdr)), e, (used st b + used st e + zmalloc_size_sds zmalloc_size hdr (zlen hdr)), st.
    rewrite used_app. split; [do 3 f_equal; rewrite u64_small; lia|]. split; [done|]. split; [done|]. split; [cbn; lia|].
    split; [done|]. split; [intros x; by rewrite Hocc|]. split; [intros x o _ Ho; by exists o|]. split; [by exists []|].
    split; [done|]. split; [cbn; lia|]. split; [cbn; lia|]. intros x. lia. }
  destruct e as [|m e]; [exact Hplain|]. destruct (obj m) as [q|] eqn:Hq; [|exact Hplain]. clear Hplain.
  destruct (Hnd2 m q) as (o & Ho & He); [apply elem_of_app; right; by left|done|]. rewrite Ho. sbind.
  assert (sds_of (val o) = Some (str st q)) as -> by (unfold str; rewrite Ho; by destruct (val o)). sbind. cbv zeta.
  assert (occ (b ++ e) q < refs st q) as Hlt.
  { specialize (Hr q). rewrite Hocc, !occ_app in Hr. cbn in Hr. rewrite Hq, count_same in Hr. rewrite occ_app. lia. }
  destruct (drop_ref_dec st q o Hst Ho He) as (st1 & Hdec). rewrite Hdec. sbind.
  destruct (decr_agree st q o st1 (b ++ e) Hst) as (Hst1 & Hag & Hrefs & Hkeep); try done.
  { intros x p Hin Hp. apply (Hnd2 x p); [|done]. apply elem_of_app in Hin as [?|?]; apply elem_of_app; [by left|right; by right]. }
  pose proof (Hsmall m ltac:(by left)) as Hlen. rewrite (content_obj st m q Hq), zlen_fmap in Hlen.
  destruct (sdscatlen_spec hdr (zlen hdr) (str st q)) as (f' & Hcat & Hf'). rewrite Hcat. destruct Hf' as [Hf0 _]; [lia|].
  assert (0 <= getStringObjectSdsUsedMemory zmalloc_size (RAW (hdr ++ str st q) f') <= 2 ^ 33) as Hv.
  { cbn. apply zmalloc_small; [|done]. unfold sdscatlen in Hcat. rewrite zlen_app. pose proof (zlen_nonneg (str st q)).
    revert Hcat. repeat case_match; intros [= <-]; lia. }
  assert (memory st q = getStringObjectSdsUsedMemory zmalloc_size (val o)) as Hmq by (unfold memory; by rewrite Ho).
  cbn [used] in *. rewrite Hq, Hmq in *. pose proof (reply_used_nonneg st e Hst). pose proof (memory_nonneg st q Hst).
  eexists _, e, _, st1. split; [done|]. split; [done|]. split; [done|]. split; [cbn; rewrite zlen_app; lia|]. split; [done|].
  split.
  { intros x. rewrite Hocc, Hrefs, !occ_app. cbn. rewrite Hq. lia. }
  split.
  { intros x ox Hpin Hx. apply Hkeep; [|done]. destruct (decide (x = q)) as [->|Hne]; [left|by right].
    unfold pinned in Hpin. rewrite Hocc, !occ_app in Hpin. cbn in Hpin. rewrite Hq, count_same in Hpin.
    pose proof (occ_nonneg b q). pose proof (occ_nonneg e q). lia. }
  split; [by exists [m]|]. split.
  { rewrite bind_cons, (content_obj st m q Hq). cbn [sds_ptr]. by rewrite fmap_app, <- !app_assoc. }
  split; [|split; [done|]].
  - rewrite (u64_small (reply_bytes c + _)) by lia. rewrite (u64_small (_ + _ - _)) by lia.
    rewrite (u64_small (_ + _ - _ - _)) by lia. rewrite u64_small by lia. rewrite used_app. lia.
  - intros x. rewrite Hrefs. pose proof (count_range (Some q) x). lia.
Qed.

(** The node of a length gets its object, in the place of some of those that
    follow. *)
Lemma place_spec st c b n e d e' st1 st2 p v bytes :
  let c2 := set_reply c (b ++ mk_node (addr n) (Some p) :: e') bytes in
  reply_ok st c -> reply c = b ++ n :: e -> obj n = None -> e = d ++ e' ->
  agree st st1 (b ++ e') -> (forall x, refs st1 x - occ (b ++ e') x = refs st x - occ (reply c) x) ->
  (forall x o, pinned st c x -> heap st !! x = Some o -> exists o', heap st1 !! x = Some o' /\ val o' = val o) ->
  createObject st1 v = (p, st2) -> sdsEncodedObject v = true -> store_ok st1 -> wf_val v ->
  bytes = used st (b ++ e') + getStringObjectSdsUsedMemory zmalloc_size v ->
  store_ok st2 /\ reply_ok st2 c2 /\ frame st c st2 c2 /\
  body st2 c2 = (inl <$> take (Z.to_nat (bufpos c)) (buf c)) ++ (b ≫= content st) ++ (inl <$> sds_ptr v) ++ (e' ≫= content st) /\
  (forall x, refs st2 x <= Z.max (refs st1 x) 1).
Proof.
  intros c2 Hok Hre Hn He Hag Hrefs Hkeep Hcr Hv Hst1 Hwf Hby. pose proof Hok as [Hb Hs Hnd Hr Hd Hm].
  apply createObject_spec in Hcr as (Hp & Hst2 & Hok2 & _); [|done|done].
  assert (forall x, refs st2 x = refs st1 x + count (Some p) x) as Hr2.
  { intros x. rewrite Hst2, refs_insert. case_decide as Hx; [subst x; rewrite (refs_none st1 p Hp), count_same; done|].
    rewrite (count_other p x) by congruence. lia. }
  assert (agree st st2 (b ++ e')) as Hag2.
  { intros m q Hin Hq. destruct (Hag m q Hin Hq) as (o & o' & Ho & Ho' & Hvv). exists o, o'. split; [done|]. split; [|done].
    rewrite Hst2. cbn. rewrite lookup_insert_ne by congruence. done. }
  assert (heap st2 !! p = Some (mk_robj 1 v)) as Hp2 by (rewrite Hst2; apply lookup_insert_eq).
  assert (agree st st2 b /\ agree st st2 e') as [Hagb Hage]
    by (split; intros m q Hin; apply Hag2, elem_of_app; auto).
  assert (nodes_ok st2 (b ++ e')) as Hnd2.
  { apply (agree_nodes st st2 _ Hag2). intros m q Hin. apply (Hnd m q). rewrite Hre, He, elem_of_app, elem_of_cons, elem_of_app. apply elem_of_app in Hin. tauto. }
  assert (forall x, occ (reply c2) x = occ (b ++ e') x + count (Some p) x) as Hocc
    by (intros x; cbn; rewrite !occ_app; cbn; lia).
  split; [done|]. split; [|split; [|split]].
  - split; [done| | | | |]; cbn [reply c2 set_reply reply_bytes].
    + destruct Hs as [Hs0 Hs]. split; [done|]. cbn. destruct (bufpos c >? 0); [done|]. rewrite Hre in Hs.
      destruct b as [|m b]; cbn in *; [destruct Hs as [?|[_ ?]]; [by left|done]|].
      pose proof (agree_content st st2 [m]) as Hc. rewrite !bind_cons in Hc. cbn in Hc. rewrite !app_nil_r in Hc.
      rewrite Hc; [done|]. intros y q Hy Hq. apply list_elem_of_singleton in Hy as ->. apply (Hagb m); [by left|done].
    + intros m q Hin Hq. apply elem_of_app in Hin as [Hin|[->|Hin]%elem_of_cons];
        [apply (Hnd2 m); [by apply elem_of_app; left|done]| |apply (Hnd2 m); [by apply elem_of_app; right|done]].
      injection Hq as <-. by eexists.
    + intros x. pose proof (Hocc x) as Hox. cbn [reply c2 set_reply] in Hox. rewrite Hox, Hr2. specialize (Hrefs x). specialize (Hr x). lia.
    + rewrite Hre, He in Hd. eapply sublist_NoDup; [exact Hd|]. rewrite !fmap_app. cbn. rewrite fmap_app.
      apply sublist_app; [done|]. apply sublist_skip. by apply sublist_inserts_l.
    + rewrite used_app. cbn. unfold memory. rewrite Hp2. cbn.
      rewrite (agree_used _ _ _ Hagb), (agree_used _ _ _ Hage), Hby, used_app. lia.
  - split; [intros x; rewrite Hocc, Hr2; specialize (Hrefs x); lia|].
    intros x o Hpin Ho. destruct (Hkeep x o Hpin Ho) as (o' & Ho' & Hvv). exists o'. split; [|done].
    rewrite Hst2. cbn. rewrite lookup_insert_ne by congruence. done.
  - unfold body. cbn [reply c2 set_reply buf bufpos]. rewrite bind_app, bind_cons, (agree_content _ _ _ Hagb), (agree_content _ _ _ Hage).
    do 3 f_equal. unfold content, str. cbn. by rewrite Hp2.
  - intros x. rewrite Hr2. destruct (decide (p = x)) as [<-|Hx].
    + rewrite (refs_none st1 p Hp), count_same. lia.
    + rewrite (count_other p x) by done. lia.
Qed.

Lemma setDeferred_spec k st c a n :
  0 <= k -> ready (k + 1) st c -> mk_node a None ∈ reply c -> in_ll n ->
  (forall m, m ∈ reply c -> zlen (content st m) <= 536870912 - 32) ->
  exists st' c', setDeferredMultiBulkLength zmalloc_size client_obuf_limits unixtime st c (Some a) n = Some (st', c') /\
    ready k st' c' /\ same c c' /\ frame st c st' c' /\ pending st' c' = fill a (reply_line 42 n) (pending st c).
Proof.
  intros Hk (Hst & Hok & Hw & Hk1 & Hm & Hb) Ha Hn Hsmall.
  apply list_elem_of_split in Ha as (b & e & Hre). unfold setDeferredMultiBulkLength.
  pose proof (find_node_spec (reply c) b (mk_node a None) e (ok_addr _ _ Hok) Hre) as Hfind. cbn [addr] in Hfind.
  rewrite Hfind. sbind. cbn [obj].
  rewrite ll_line_spec by (done || lia). sbind. cbv zeta. pose proof (zlen_reply_line 42 n Hn) as Hl.
  unfold ULONG_MAX in Hb.
  destruct (glue_spec st c b (mk_node a None) e (reply_line 42 n)) as
    (v & e' & bytes & st1 & Hglue & Hst1 & Hv & Hwf & Hag & Hrefs & Hkeep & (d & He) & Hcont & Hby & Hvm & Hrle); try done; try lia.
  { intros m Hin. apply Hsmall. rewrite Hre. apply elem_of_app. right. by right. }
  cbv zeta in Hglue. rewrite Hglue. sbind. destruct (createObject st1 v) as [p st2] eqn:Hcr. cbn [addr].
  destruct (place_spec st c b (mk_node a None) e d e' st1 st2 p v bytes) as (Hst2 & Hok2 & Hfr & Hbody & Hr2); try done.
  cbn [addr] in *. set (c2 := set_reply c _ bytes) in *.
  assert (reply_bytes c2 <= reply_bytes c + 2 ^ 33) as Hb2.
  { cbn. rewrite Hby, (ok_bytes _ _ Hok), Hre, He, !used_app. cbn. rewrite used_app.
    pose proof (reply_used_nonneg st d Hst). lia. }
  destruct (asyncClose_spec c2) as (c3 & -> & Hs3 & Hd3 & Hw3); [unfold ULONG_MAX; lia|]. sbind.
  exists st2, c3. split; [done|].
  assert (same c c3) as Hs by (apply (same_trans c c2 c3); [by repeat split|done]).
  split; [|split; [done|split]].
  - split; [done|]. split; [by apply (reply_ok_data st2 c2)|]. split.
    { intros _. apply (armed_same c c3); [done|by rewrite Hw3|]. apply Hw. right. rewrite Hre. by destruct b. }
    split; [lia|]. split.
    + apply (margin_after k st); [lia|done|done|]. intros x. specialize (Hr2 x). specialize (Hrle x). lia.
    + destruct Hd3 as (_ & _ & _ & _ & ->). unfold ULONG_MAX. lia.
  - apply (reply_frame_trans st c st2 c2); [done|]. apply reply_frame_refl, Hd3.
  - rewrite (pending_data st2 c2 c3 Hd3). apply (pending_fill st c st2 c2 b (mk_node a None) e); try done.
    by rewrite Hbody, Hcont.
Qed.

(** ** Lemmas: a call of the handler *)

Abbreviation send := (sendReplyToClient zmalloc_size unixtime).

(** What a call leaves. *)
Definition served (k : Z) (st : store) (c : redisClient) (eagain : bool) (r : sent) : Prop :=
  match r with
  | Open st' c' wire =>
      ready k st' c' /\ complete (reply c') /\ frame st c st' c' /\ same c c' /\
      pending st c = (inl <$> wire) ++ pending st' c' /\ (writable c' = writable c \/ writable c' = false /\ pending st' c' = [])
  | Freed wire =>
      exists rest, pending st c = (inl <$> wire) ++ rest /\ (eagain = true -> rest = [] /\ has c REDIS_CLOSE_AFTER_REPLY = true)
  end.

Definition wire_of (r : sent) : list Z := match r with Open _ _ wire | Freed wire => wire end.

Lemma nonempty_dec c : nonempty c \/ bufpos c = 0 /\ reply c = [].
Proof.
  unfold nonempty. destruct (decide (bufpos c = 0)); [|by left; left]. destruct (reply c); [by right|by left; right].
Qed.

Lemma loop_ready k unlimited st c ws :
  ready k st c -> complete (reply c) ->
  exists st' c' nw tot new, send_loop zmalloc_size (S (length ws + length (reply c))) unlimited st c ws 0 0 [] = Some (st', c', nw, tot, new) /\
    sends st c st' c' new /\ ready k st' c' /\ (0 < default (-1) (head ws) -> pending st c <> [] -> new <> []).
Proof.
  intros Hr Hcomp. pose proof Hr as (Hst & Hok & _ & Hk & _ & Hb). unfold ULONG_MAX in Hb. destruct (nonempty_dec c) as [Hn|[Hb0 Hre]].
  - destruct (send_loop_spec unlimited (S (length ws + length (reply c))) st c ws 0 0 []) as (st' & c' & nw & tot & new & Hrun & Hs & Hp);
      [done|done|lia|done|lia|]. exists st', c', nw, tot, new. split; [done|]. split; [done|]. split; [|done].
    by apply (ready_sends k st c st' c' new).
  - exists st, c, 0, 0, []. cbn [send_loop]. rewrite Hb0, Hre. split; [done|]. split; [by apply sends_refl|].
    split; [done|]. intros _ Hp. exfalso. by apply Hp, pending_none.
Qed.

Lemma ready_data k st c c' : same_data c c' -> wake_ok c' -> ready k st c -> ready k st c'.
Proof.
  intros Hd Hw (Hst & Hok & _ & Hk & Hm & Hb). split; [done|]. split; [by apply (reply_ok_data st c)|].
  split; [done|]. split; [done|]. split; [done|]. by destruct Hd as (_ & _ & _ & _ & ->).
Qed.

Lemma send_spec k st c unlimited eagain ws :
  ready k st c -> complete (reply c) ->
  exists r, send unlimited eagain st c ws = Some r /\ served k st c eagain r /\
    (0 < default (-1) (head ws) -> pending st c <> [] -> wire_of r <> []).
Proof.
  intros Hr Hcomp. destruct (loop_ready k unlimited st c ws Hr Hcomp) as (st' & c1 & nw & tot & new & Hrun & Hs & Hr1 & Hp).
  unfold sendReplyToClient. rewrite Hrun. sbind. destruct Hs as (_ & _ & Hf & Hsame & Hwr & Hcomp1 & _ & _ & Hpend).
  destruct ((nw =? -1) && negb eagain) eqn:Herr.
  { exists (Freed new). split; [done|]. split; [|done]. exists (pending st' c1). split; [done|].
    intros ->. by rewrite andb_false_r in Herr. }
  cbv zeta. set (c2 := if _ && negb (has c1 REDIS_MASTER) then _ else _).
  assert (same c1 c2 /\ same_data c1 c2 /\ writable c2 = writable c1) as (Hs2 & Hd2 & Hw2)
    by (unfold c2; case_match; by repeat split).
  assert (ready k st' c2) as Hr2.
  { apply (ready_data k st' c1); [done| |done]. intros Hn. apply (armed_same c1); [done|done|]. apply Hr1.
    by apply (nonempty_data c1 c2 Hd2). }
  assert (frame st c st' c2) as Hf2 by (apply (reply_frame_trans st c st' c1); [done|apply reply_frame_refl, Hd2]).
  rewrite <- (pending_data st' c1 c2 Hd2) in Hpend. rewrite <- (same_data_reply c1 c2 Hd2) in Hcomp1.
  pose proof (same_trans c c1 c2 Hsame Hs2) as Hsc. pose proof Hr2 as (_ & Hok2 & _).
  destruct ((bufpos c2 =? 0) && bool_decide (reply c2 = [])) eqn:Hempty.
  - apply andb_true_iff in Hempty as [Hb0%Z.eqb_eq Hre%bool_decide_eq_true].
    assert (pending st' c2 = []) as Hnil by (by apply pending_none).
    assert (sentlen c2 = 0) as Hsl by (destruct (ok_sent _ _ Hok2) as [_ H]; by rewrite Hb0, Hre in H).
    change (has (set_writable (set_sentlen c2 0) false) REDIS_CLOSE_AFTER_REPLY) with (has c2 REDIS_CLOSE_AFTER_REPLY).
    destruct (has c2 REDIS_CLOSE_AFTER_REPLY) eqn:Hclose.
    + exists (Freed new). split; [done|]. split; [|done]. exists []. rewrite Hpend, Hnil. split; [done|]. intros _.
      split; [done|]. destruct Hsc as (_ & _ & _ & Hfl). by rewrite <- Hfl.
    + assert (same_data c2 (set_writable (set_sentlen c2 0) false)) as Hd3 by (repeat split; cbn; by rewrite Hsl).
      eexists (Open st' _ new). split; [done|]. split; [|done]. split.
      { apply (ready_data k st' c2); [done| |done]. intros [Hn|Hn]; cbn in Hn; congruence. }
      split; [done|]. split; [done|]. split; [done|]. rewrite (pending_data st' c2 _ Hd3), Hnil in *. by auto.
  - exists (Open st' c2 new). split; [done|]. split; [|done]. split; [done|]. split; [done|]. split; [done|].
    split; [done|]. split; [done|]. left. congruence.
Qed.

(** ** Lemmas: the calls of the event loop *)

(** The handler is called while it is installed; [ws] is what the calls of write(2)
    return in a call of the handler. *)
Fixpoint serve (calls : list (bool * list Z)) (st : store) (c : redisClient) (wire : list Z) : option sent :=
  match calls with
  | [] => Some (Open st c wire)
  | (unlimited, ws) :: calls =>
      if writable c then
        r ← send unlimited true st c ws;
        match r with
        | Open st c new => serve calls st c (wire ++ new)
        | Freed new => Some (Freed (wire ++ new))
        end
      else Some (Open st c wire)
  end.

Lemma serve_spec k calls : forall st c wire,
  ready k st c -> complete (reply c) -> (pending st c <> [] -> writable c = true) ->
  (forall unlimited ws, (unlimited, ws) ∈ calls -> 0 < default (-1) (head ws)) ->
  (length (pending st c) <= length calls)%nat ->
  exists r new, serve calls st c wire = Some r /\ wire_of r = wire ++ new /\ pending st c = inl <$> new /\
    match r with Open st' c' _ => ready k st' c' /\ frame st c st' c' /\ pending st' c' = [] | Freed _ => has c REDIS_CLOSE_AFTER_REPLY = true end.
Proof.
  induction calls as [|[unlimited ws] calls IH]; intros st c wire Hr Hcomp Hwr Hws Hlen.
  { cbn [length] in Hlen. assert (pending st c = []) as Hnil by (destruct (pending st c); [done|cbn in Hlen; lia]).
    exists (Open st c wire), []. rewrite app_nil_r, Hnil. split; [done|]. split; [done|]. split; [done|]. split; [done|].
    split; [by apply reply_frame_refl|done]. }
  cbn [serve]. destruct (writable c) eqn:Hw.
  2: { assert (pending st c = []) as Hnil by (destruct (pending st c); [done|by discriminate Hwr]).
       exists (Open st c wire), []. rewrite app_nil_r, Hnil. split; [done|]. split; [done|]. split; [done|]. split; [done|].
       split; [by apply reply_frame_refl|done]. }
  destruct (send_spec k st c unlimited true ws Hr Hcomp) as (r & -> & Hserved & Hprog). sbind.
  assert (pending st c <> [] -> wire_of r <> []) as Hp by (apply Hprog, (Hws unlimited ws); by left). destruct r as [st1 c1 new|new]; cbn [served wire_of] in *.
  - destruct Hserved as (Hr1 & Hc1 & Hf1 & Hs1 & Hpend & Hw1).
    destruct (IH st1 c1 (wire ++ new)) as (r & new' & Hrun & Hwire & Hpend' & Hend); [done|done| | | |].
    + intros Hne. destruct Hw1 as [->|[_ ?]]; [done|by destruct Hne].
    + intros u w Hin. apply (Hws u w). by right.
    + apply (f_equal length) in Hpend. rewrite length_app, length_fmap in Hpend. cbn [length] in Hlen.
      destruct (pending st c) eqn:Hpc; [cbn in Hpend; lia|]. destruct new; [by destruct Hp|]. cbn in *. lia.
    + exists r, (new ++ new'). split; [done|]. rewrite Hwire, app_assoc, Hpend, Hpend', fmap_app. split; [done|]. split; [done|].
      destruct r as [st2 c2 w2|w2].
      * destruct Hend as (? & ? & ?). split; [done|]. split; [|done]. by apply (reply_frame_trans st c st1 c1).
      * destruct Hs1 as (_ & _ & _ & Hfl). by rewrite <- Hfl.
  - destruct Hserved as (rest & Hpend & Hrest). destruct (Hrest eq_refl) as [-> Hclose]. rewrite app_nil_r in Hpend.
    by exists (Freed (wire ++ new)), new.
Qed.

(** ** Sequences of replies *)

Inductive reply_op :=
  | ROObject (p : loc) | ROString (s : list Z) | ROSds (s : list Z) (free : Z)
  | ROError (s : list Z) | ROErrorFormat (s : list Z) | ROStatus (s : list Z)
  | ROLongLong (n : Z) | ROMultiBulkLen (n : Z)
  | ROBulk (p : loc) | ROBulkBuffer (s : list Z) | ROBulkCString (s : option (list Z)) | ROBulkLongLong (n : Z).

Definition reply_with (st : store) (c : redisClient) (op : reply_op) : option (store * redisClient) :=
  match op with
  | ROObject p => addReply_ st c p
  | ROString s => addReplyString_ st c s
  | ROSds s free => addReplySds zmalloc_size client_obuf_limits unixtime ae_ok st c s free
  | ROError s => addReplyError zmalloc_size client_obuf_limits unixtime ae_ok st c s
  | ROErrorFormat s => addReplyErrorFormat zmalloc_size client_obuf_limits unixtime ae_ok st c s
  | ROStatus s => addReplyStatus zmalloc_size client_obuf_limits unixtime ae_ok st c s
  | ROLongLong n => addReplyLongLong zmalloc_size client_obuf_limits unixtime ae_ok shared st c n
  | ROMultiBulkLen n => addReplyMultiBulkLen zmalloc_size client_obuf_limits unixtime ae_ok shared st c n
  | ROBulk p => addReplyBulk zmalloc_size client_obuf_limits unixtime ae_ok shared st c p
  | ROBulkBuffer s => addReplyBulkCBuffer zmalloc_size client_obuf_limits unixtime ae_ok shared st c s
  | ROBulkCString s => addReplyBulkCString zmalloc_size client_obuf_limits unixtime ae_ok shared st c s
  | ROBulkLongLong n => addReplyBulkLongLong zmalloc_size client_obuf_limits unixtime ae_ok shared st c n
  end.

Fixpoint replies_with (st : store) (c : redisClient) (ops : list reply_op) : option (store * redisClient) :=
  match ops with
  | [] => Some (st, c)
  | op :: ops => '(st, c) ← reply_with st c op; replies_with st c ops
  end.

(** What a reply means: the bytes [bs] of the protocol. *)
Definition means (st : store) (c : redisClient) (op : reply_op) (bs : list Z) : Prop :=
  match op with
  | ROObject p => str_at st c p bs
  | ROString s | ROSds s _ => bs = s
  | ROError s => bs = bytes_of_string "-ERR " ++ s ++ [13; 10]
  | ROErrorFormat s =>
      bs = bytes_of_string "-ERR " ++ ((fun b => if (b =? 13) || (b =? 10) then 32 else b) <$> s) ++ [13; 10]
  | ROStatus s => bs = bytes_of_string "+" ++ s ++ [13; 10]
  | ROLongLong n => bs = reply_line 58 n
  | ROMultiBulkLen n => bs = reply_line 42 n
  | ROBulk p => exists s, str_at st c p s /\ bs = bulk s
  | ROBulkBuffer s | ROBulkCString (Some s) => bs = bulk s
  | ROBulkCString None => bs = reply_line 36 (-1)
  | ROBulkLongLong n => bs = bulk (ll_repr n)
  end.

(** Strings have at most 512 MB, integers fit in 64 bits. *)
Definition sized (st : store) (op : reply_op) : Prop :=
  match op with
  | ROObject _ | ROBulkCString None => True
  | ROSds s free => zlen s <= 536870912 /\ 0 <= free <= 2 ^ 30
  | ROString s | ROError s | ROErrorFormat s | ROStatus s | ROBulkBuffer s | ROBulkCString (Some s) => zlen s <= 536870912
  | ROLongLong n | ROBulkLongLong n => in_ll n
  | ROMultiBulkLen n => 0 <= n /\ in_ll n
  | ROBulk p => forall o, heap st !! p = Some o -> val o <> INT LONG_MIN
  end.

Lemma means_keeps st c st' c' op bs : keeps st c st' c' -> means st c op bs -> means st' c' op bs.
Proof.
  intros Hf. destruct op as [| | | | | | | |p| |[|]|]; cbn; try done; [by apply str_at_keeps|].
  intros (s & Hs & ->). exists s. split; [|done]. by apply (str_at_keeps st c).
Qed.

Lemma sized_keeps st c st' c' op bs : keeps st c st' c' -> means st c op bs -> sized st op -> sized st' op.
Proof.
  intros Hk Hm. destruct op as [| | | | | | | |p| |[|]|]; cbn in *; try done.
  intros Hs o' Ho'. destruct Hm as (s & (Hp & o & Ho & _) & _). destruct (Hk p o Hp Ho) as (_ & o2 & Ho2 & Hvo).
  specialize (Hs o Ho). congruence.
Qed.

Lemma ops_keep st c st' c' ops bss :
  keeps st c st' c' -> Forall2 (means st c) ops bss -> Forall (sized st) ops ->
  Forall2 (means st' c') ops bss /\ Forall (sized st') ops.
Proof.
  intros Hk Hm. induction Hm as [|op bs ops bss Hm _ IH]; intros Hs; [done|]. apply Forall_cons in Hs as [Hs Hss].
  destruct (IH Hss) as [? ?]. split; constructor; try done; [by apply (means_keeps st c)|by apply (sized_keeps st c st' c' op bs)].
Qed.

Lemma reply_with_spec k st c op bs :
  0 <= k -> ready (k + 6) st c -> shared_ok st c -> means st c op bs -> sized st op ->
  adds k st c (reply_with st c op) bs.
Proof.
  intros Hk Hr Hsh Hm Hs.
  assert (forall j, 0 <= j <= 6 -> ready (k + j) st c) as Hj by (intros j Hj; apply (ready_weaken (k + 6)); [done|lia]).
  destruct op as [| | | | | | | |p| |[|]|]; cbn in *; subst.
  - apply addReply_at; [done|apply Hj; lia|done].
  - apply addReplyString_spec; [done|apply Hj; lia|done].
  - destruct Hs as [Hs Hf]. apply addReplySds_spec; [done|apply Hj; lia|done|done].
  - apply addReplyErrorLength_spec; [done|apply Hj; lia|done].
  - apply addReplyErrorLength_spec; [done|apply Hj; lia|by rewrite zlen_fmap].
  - apply addReplyStatusLength_spec; [done|apply Hj; lia|done].
  - apply addReplyLongLong_spec; [done|apply Hj; lia|done|done].
  - destruct Hs as [H0 Hs]. apply addReplyMultiBulkLen_spec; [done|apply Hj; lia|done|done|done].
  - destruct Hm as (s & Hat & ->). by apply addReplyBulk_spec.
  - apply addReplyBulkCBuffer_spec; [done|apply Hj; lia|done|done].
  - apply addReplyBulkCBuffer_spec; [done|apply Hj; lia|done|done].
  - apply addReply_at; [done|apply Hj; lia|apply Hsh].
  - apply addReplyBulkLongLong_spec; [done|apply Hj; lia|done|done].
Qed.

Lemma replies_with_spec ops : forall bss st c k,
  0 <= k -> ready (k + 6 * zlen ops) st c -> shared_ok st c -> Forall2 (means st c) ops bss -> Forall (sized st) ops ->
  adds k st c (replies_with st c ops) (concat bss).
Proof.
  induction ops as [|op ops IH]; intros bss st c k Hk Hr Hsh Hm Hs.
  - apply Forall2_nil_inv_l in Hm as ->. exists st, c. rewrite (@zlen_nil reply_op) in Hr. replace (k + 6 * 0) with k in Hr by lia.
    split; [done|]. split; [done|]. split; [done|]. split; [apply same_refl|]. split; [by apply reply_frame_refl|].
    split; [|done]. cbn. destruct (accepts c); by rewrite app_nil_r.
  - apply Forall2_cons_inv_l in Hm as (bs & bss' & Hm & Hms & ->). apply Forall_cons in Hs as [Hs Hss].
    rewrite zlen_cons in Hr. pose proof (zlen_nonneg ops). cbn [replies_with concat].
    apply (adds_bind (k + 6 * zlen ops)).
    + apply reply_with_spec; try done; [lia|]. by replace (k + 6 * zlen ops + 6) with (k + 6 * (1 + zlen ops)) by lia.
    + intros st1 c1 Hr1 Hf1. destruct (ops_keep st c st1 c1 ops bss' (frame_keeps _ _ _ _ Hf1) Hms Hss).
      apply IH; [done|done|by apply (shared_frame st c)|done|done].
Qed.

(** ** Lemmas: several clients *)

(** The references of another client are among those that others hold. *)
Definition beside (st : store) (c d : redisClient) : Prop := forall x, occ (reply c) x + occ (reply d) x <= refs st x.

Lemma frame_beside st c st' c' d : frame st c st' c' -> beside st c d -> beside st' c' d.
Proof. intros [Hr _] Hb x. specialize (Hr x). specialize (Hb x). lia. Qed.

Lemma frame_agree st c st' c' d :
  frame st c st' c' -> beside st c d -> nodes_ok st (reply d) -> agree st st' (reply d).
Proof.
  intros [_ Hv] Hb Hn n p Hin Hp. destruct (Hn n p Hin Hp) as (o & Ho & _).
  destruct (Hv p o) as (o' & Ho' & Hvo); [|done|by exists o, o'].
  unfold pinned. specialize (Hb p). pose proof (occ_elem (reply d) n p Hin Hp). lia.
Qed.

Lemma bystander st c st' c' d :
  frame st c st' c' -> beside st c d -> nodes_ok st (reply d) -> pending st' d = pending st d.
Proof. intros Hf Hb Hn. unfold pending, body. by rewrite (agree_content st st') by (by apply (frame_agree st c st' c')). Qed.

(** ** Lemmas: copies *)

Lemma dup_nodes_spec r : forall st copy,
  store_ok st -> nodes_ok st r -> complete r -> margin (zlen r + 1) st -> NoDup (addr <$> copy) ->
  exists st' new, dup_nodes st r copy = Some (st', copy ++ new) /\ store_ok st' /\ complete new /\
    (forall x, occ new x = occ r x) /\ (forall x, refs st' x = refs st x + occ r x) /\
    (forall x o, heap st !! x = Some o -> exists o', heap st' !! x = Some o' /\ val o' = val o) /\
    (new ≫= content st' = r ≫= content st') /\ used st' new = used st' r /\ nodes_ok st' new /\ NoDup (addr <$> copy ++ new).
Proof.
  induction r as [|n r IH]; intros st copy Hst Hn Hc Hm Hd; cbn [dup_nodes].
  - exists st, []. rewrite app_nil_r. split; [done|]. split; [done|]. split; [by intros ? ?%not_elem_of_nil|].
    split; [done|]. split; [intros x; cbn; lia|]. split; [by eauto|]. split; [done|]. split; [done|]. split; [|done].
    by intros ? ? ?%not_elem_of_nil.
  - destruct (obj n) as [p|] eqn:Hp; [|exfalso; apply (Hc n); [by left|done]]. sbind.
    destruct (Hn n p) as (o & Ho & He); [by left|done|].
    rewrite zlen_cons in Hm. pose proof (zlen_nonneg r). pose proof (Hm p o Ho).
    destruct (incrRefCount_spec st p o) as (st1 & -> & Hst1 & Hok1 & _); [done|done|unfold INT32_MAX in *; lia|]. sbind.
    assert (forall x, refs st1 x = refs st x + count (Some p) x) as Hr1.
    { intros x. rewrite Hst1, refs_insert. case_decide as Hx; cbn.
      - subst x. rewrite count_same, (refs_lookup st p o Ho). lia.
      - rewrite (count_other p x) by congruence. lia. }
    assert (forall x o0, heap st !! x = Some o0 -> exists o', heap st1 !! x = Some o' /\ val o' = val o0) as Hk1.
    { intros x o0 Hx. rewrite Hst1. cbn. destruct (decide (p = x)) as [<-|Hne].
      - eexists. rewrite lookup_insert_eq. split; [done|]. cbn. congruence.
      - exists o0. by rewrite lookup_insert_ne. }
    set (a := fresh (list_to_set (addr <$> copy) : gset positive)).
    destruct (IH st1 (copy ++ [mk_node a (Some p)])) as (st' & new & Hrun & Hok' & Hc' & Hocc & Hr' & Hk' & Hcont & Hus & Hno & Hd').
    + done.
    + intros m q Hin Hq. destruct (Hn m q) as (oq & Hoq & Heq); [by right|done|].
      destruct (Hk1 q oq Hoq) as (o' & Ho' & Hv'). exists o'. by rewrite Hv'.
    + intros m Hin. apply Hc. by right.
    + intros x ox Hx. specialize (Hr1 x). rewrite (refs_lookup st1 x ox Hx) in Hr1. unfold INT32_MAX in *.
      pose proof (count_range (Some p) x). unfold refs in Hr1.
      destruct (heap st !! x) as [ox0|] eqn:Hx0; [specialize (Hm x ox0 Hx0); unfold INT32_MAX in *; lia|].
      rewrite count_other in Hr1 by congruence. destruct (ok_obj st1 Hok1 x ox Hx) as [_ Hrx]. lia.
    + rewrite fmap_app. apply NoDup_app. split; [done|]. split; [|apply NoDup_singleton].
      intros x Hx Hx'%list_elem_of_singleton. subst x. by apply (fresh_addr copy).
    + destruct (Hk1 p o Ho) as (o1 & Ho1 & Hv1). destruct (Hk' p o1 Ho1) as (o2 & Ho2 & Hv2).
      exists st', (mk_node a (Some p) :: new). unfold listAddNodeTail. cbn [fst]. fold a. rewrite Hrun.
      rewrite <- app_assoc in *. split; [done|]. split; [done|]. split.
      { intros m [->|Hin]%elem_of_cons; [done|by apply Hc']. }
      split; [intros x; cbn; by rewrite Hp, Hocc|]. split; [intros x; rewrite Hr', Hr1; cbn; rewrite Hp; lia|].
      split. { intros x ox Hx. destruct (Hk1 x ox Hx) as (oy & Hoy & Hvy). destruct (Hk' x oy Hoy) as (oz & Hoz & Hvz).
        exists oz. split; [done|]. congruence. }
      split. { rewrite !bind_cons, Hcont. f_equal. unfold content. by rewrite Hp. }
      split. { cbn. by rewrite Hp, Hus. }
      split; [|done]. intros m q [->|Hin]%elem_of_cons Hq; [|by apply (Hno m)]. injection Hq as <-. exists o2. split; [done|].
      by rewrite Hv2, Hv1.
Qed.

(** A client that has not got anything to send yet. *)
Definition fresh_client (c : redisClient) : Prop :=
  zlen (buf c) = REDIS_REPLY_CHUNK_BYTES /\ bufpos c = 0 /\ reply c = [] /\ sentlen c = 0 /\ reply_bytes c = 0.

Lemma store_prefix (b s : list Z) : zlen s <= zlen b -> Prelude.store b 0 s = Some (s ++ drop (length s) b).
Proof.
  intros Hs. unfold Prelude.store. pose proof (zlen_nonneg s). cbn [Z.add].
  rewrite !(proj2 (Z.leb_le _ _)) by lia. cbn. by rewrite ?drop_0.
Qed.

Lemma copy_spec st dst src :
  store_ok st -> reply_ok st src -> complete (reply src) -> fresh_client dst -> margin (zlen (reply src) + 1) st ->
  exists st' dst', copyClientOutputBuffer st dst src = Some (st', dst') /\ store_ok st' /\ reply_ok st' dst' /\
    reply_ok st' src /\ complete (reply dst') /\ same dst dst' /\ pending st' src = pending st src /\
    pending st' dst' = body st src /\ reply_bytes dst' = reply_bytes src /\
    (forall x, occ (reply dst') x = occ (reply src) x) /\ (forall x, refs st' x = refs st x + occ (reply src) x) /\
    (forall x o, heap st !! x = Some o -> exists o', heap st' !! x = Some o' /\ val o' = val o).
Proof.
  intros Hst Hok Hc (Hl & Hb0 & Hre & Hs0 & _) Hm. pose proof Hok as [[Hlen Hpos] _ Hn Hr _ Hby].
  unfold copyClientOutputBuffer. rewrite Hre. cbn [release_nodes]. sbind.
  destruct (dup_nodes_spec (reply src) st []) as (st' & new & -> & Hok' & Hc' & Hocc & Hr' & Hk & Hcont & Hus & Hno & Hd);
    [done|done|done|done|by apply NoDup_nil|]. sbind. cbn [app] in *.
  replace (load (buf src) 0 (bufpos src)) with (load (buf src) 0 (bufpos src - 0)) by (f_equal; lia).
  rewrite load_part by lia. sbind. rewrite drop_0.
  set (s := take (Z.to_nat (bufpos src)) (buf src)). assert (zlen s = bufpos src) as Hzs by (subst s; rewrite zlen_take; lia).
  rewrite store_prefix by lia. sbind.
  assert (agree st st' (reply src)) as Hag.
  { intros m q Hin Hq. destruct (Hn m q Hin Hq) as (o & Ho & _). destruct (Hk q o Ho) as (o' & ? & ?). by exists o, o'. }
  assert (forall p, 0 <= occ (reply src) p) as Hnn by (intros p; apply occ_nonneg).
  destruct (reply_ok_agree st st' src Hag) as [Hsrc Hpsrc]; [intros p; rewrite Hr'; specialize (Hr p); specialize (Hnn p); lia|done|].
  eexists st', _. split; [done|]. split; [done|]. split.
  { split; cbn.
    - split; [|lia]. unfold zlen in *. rewrite length_app, length_drop. lia.
    - split; [cbn; lia|]. cbn. rewrite Hs0, Z.gtb_ltb. destruct (Z.ltb_spec 0 (bufpos src)); [done|].
      destruct new; [done|by left].
    - done.
    - intros p. rewrite Hocc, Hr'. specialize (Hr p). specialize (Hnn p). destruct (heap st !! p) as [o|] eqn:Ho.
      + rewrite (refs_lookup st p o Ho) in *. destruct (ok_obj st Hst p o Ho). lia.
      + rewrite (refs_none st p Ho) in *. lia.
    - done.
    - by rewrite Hby, Hus, (agree_used _ _ _ Hag). }
  split; [done|]. split; [done|]. split; [by repeat split|]. split; [done|]. split.
  { unfold pending, body. cbn. rewrite Hs0, drop_0, Hcont, (agree_content _ _ _ Hag).
    by rewrite (take_app_length' s) by (unfold zlen in Hzs; lia). }
  split; [done|]. split; [done|]. by split.
Qed.

(** ** Properties *)

(** C9 (functional): any sequence of replies, of all the kinds that the commands
    use, whatever the encodings of the objects and whatever is shared, adds to what
    a client is to be sent exactly the bytes that the replies mean, or nothing when
    the client takes no replies; the account of the references and of the memory is
    kept, and what any other client is to be sent does not change. *)
Theorem replies_appended k ops bss st c
    (Hk : 0 <= k) (Hr : ready (k + 6 * zlen ops) st c) (Hsh : shared_ok st c)
    (Hm : Forall2 (means st c) ops bss) (Hs : Forall (sized st) ops) :
  exists st' c', replies_with st c ops = Some (st', c') /\ ready k st' c' /\ frame st c st' c' /\
    pending st' c' = pending st c ++ (inl <$> (if accepts c then concat bss else [])) /\
    (forall d, reply_ok st d -> beside st c d -> reply_ok st' d /\ pending st' d = pending st d).
Proof.
  destruct (replies_with_spec ops bss st c k Hk Hr Hsh Hm Hs) as (st' & c' & Hrun & Hr' & _ & _ & Hf & Hp & _).
  exists st', c'. split; [done|]. split; [done|]. split; [done|]. split; [done|]. intros d Hd Hb.
  apply reply_ok_agree; [|intros p|done].
  - apply (frame_agree st c st' c'); [done|done|apply Hd].
  - pose proof (frame_beside st c st' c' d Hf Hb p). pose proof (occ_nonneg (reply c') p). lia.
Qed.

Lemma body_hole st c a : inr a ∈ body st c -> mk_node a None ∈ reply c.
Proof.
  unfold body. intros [Hin|Hin]%elem_of_app; [by apply no_hole_bytes in Hin|].
  apply list_elem_of_bind in Hin as (n & Hin & Hn). unfold content in Hin. destruct n as [b o]. cbn in *.
  destruct o as [p|]; [by apply no_hole_bytes in Hin|]. by apply list_elem_of_singleton in Hin as [= ->].
Qed.

Lemma pending_hole st c a : inr a ∈ pending st c -> mk_node a None ∈ reply c.
Proof. intros Hin. apply (body_hole st). by apply (subseteq_drop (Z.to_nat (sentlen c))). Qed.

(** C19 (functional): a length that is set after its elements is sent before them: the
    result is what is to be sent when the length is known in advance. *)
Theorem deferred_length k ops bss n st c
    (Hk : 0 <= k) (Hr : ready (k + 1 + 6 * zlen ops) st c) (Hsh : shared_ok st c) (Ha : accepts c = true)
    (Hc : complete (reply c)) (Hn : in_ll n) (Hm : Forall2 (means st c) ops bss) (Hs : Forall (sized st) ops) :
  exists a c1 st2 c2, addDeferredMultiBulkLength ae_ok c = (Some a, c1) /\ replies_with st c1 ops = Some (st2, c2) /\
    ((forall m, m ∈ reply c2 -> zlen (content st2 m) <= 536870912 - 32) ->
     exists st3 c3, setDeferredMultiBulkLength zmalloc_size client_obuf_limits unixtime st2 c2 (Some a) n = Some (st3, c3) /\
       ready k st3 c3 /\ frame st c st3 c3 /\
       pending st3 c3 = pending st c ++ (inl <$> reply_line 42 n ++ concat bss)).
Proof.
  destruct (addDeferred_spec _ st c Hr) as (r & c1 & -> & Hr1 & Hacc & _ & Hf1 & H1).
  destruct r as [a|]; [|destruct H1 as [Hw _]; unfold accepts in Ha; by rewrite Hw in Ha]. destruct H1 as (_ & Hp1 & _).
  destruct (ops_keep st c st c1 ops bss (frame_keeps _ _ _ _ Hf1) Hm Hs).
  destruct (replies_with_spec ops bss st c1 (k + 1)) as (st2 & c2 & Hrun & Hr2 & _ & _ & Hf2 & Hp2 & _);
    [lia|done|by apply (shared_frame st c)|done|done|].
  rewrite Hacc, Ha in Hp2. exists a, c1, st2, c2. split; [done|]. split; [done|]. intros Hsmall.
  destruct (setDeferred_spec k st2 c2 a n) as (st3 & c3 & Hset & Hr3 & _ & Hf3 & Hp3); try done.
  { apply (pending_hole st2). rewrite Hp2, Hp1. apply elem_of_app. left. apply elem_of_app. right. by left. }
  exists st3, c3. split; [done|]. split; [done|]. split.
  { apply (reply_frame_trans st c st2 c2); [by apply (reply_frame_trans st c st c1)|done]. }
  rewrite Hp3, Hp2, Hp1, !fill_app, fill_hole, fmap_app.
  rewrite (fill_id a _ (pending st c)), (fill_id a _ (inl <$> concat bss)), <- app_assoc; [done|by apply no_hole_bytes|].
  intros Hin%pending_hole. by apply (Hc _ Hin).
Qed.

(** C10 (liveness): as long as write(2) makes some progress when the socket is ready,
    the event loop sends everything that is pending, each byte once and in order,
    in pieces of any size, and closes the connection only after that, when it was
    asked to. *)
Theorem replies_sent k calls st c
    (Hr : ready k st c) (Hc : complete (reply c)) (Hon : online c = true) (Hlua : has c REDIS_LUA_CLIENT = false)
    (Hw : forall unlimited ws, (unlimited, ws) ∈ calls -> 0 < default (-1) (head ws))
    (Hlen : (length (pending st c) <= length calls)%nat) :
  exists r, serve calls st c [] = Some r /\ pending st c = inl <$> wire_of r /\
    match r with
    | Open st' c' _ => ready k st' c' /\ frame st c st' c' /\ pending st' c' = []
    | Freed _ => has c REDIS_CLOSE_AFTER_REPLY = true
    end.
Proof.
  destruct (serve_spec k calls st c [] Hr Hc) as (r & new & Hrun & Hwire & Hp & Hend); [|done|done|].
  - intros Hp. destruct Hr as (_ & Hok & Hwake & _). apply Hwake; [|done|done].
    destruct (nonempty_dec c) as [?|[? ?]]; [done|]. destruct Hp. by apply pending_none.
  - exists r. cbn in Hwire. by rewrite Hwire.
Qed.

Lemma willing_offline c c' : same c c' -> online c = false -> willing c' = willing c.
Proof.
  intros Hs Hon. unfold willing, prepareClientToWrite. fold (online c) (online c'). rewrite (online_same c c' Hs), Hon.
  rewrite !andb_false_r. destruct Hs as (-> & _ & _ & Hf). rewrite !Hf by done. by repeat case_match.
Qed.

Lemma occ_le_len r p : occ r p <= zlen r.
Proof. induction r as [|n r IH]; [done|]. rewrite zlen_cons. cbn [occ]. pose proof (count_range (obj n) p). lia. Qed.

(** C26 (safety): a client that gets a copy of the output buffers of another shares
    its objects, and still neither of them gets the replies of the other. *)
Theorem copied_replies k ops bss ops' bss' st dst src
    (Hk : 0 <= k) (Hr : ready (k + 6 * zlen ops + 6 * zlen ops' + zlen (reply src) + 1) st src) (Hc : complete (reply src))
    (Hsh : shared_ok st src) (Hd : fresh_client dst) (Hoff : online dst = false)
    (Hm : Forall2 (means st src) ops bss) (Hs : Forall (sized st) ops)
    (Hm' : Forall2 (means st src) ops' bss') (Hs' : Forall (sized st) ops') :
  exists st1 d1 st2 s2 st3 d3,
    copyClientOutputBuffer st dst src = Some (st1, d1) /\
    replies_with st1 src ops = Some (st2, s2) /\ replies_with st2 d1 ops' = Some (st3, d3) /\
    pending st3 s2 = pending st src ++ (inl <$> (if accepts src then concat bss else [])) /\
    pending st3 d3 = body st src ++ (inl <$> (if accepts dst then concat bss' else [])).
Proof.
  pose proof Hr as (Hst & Hok & Hwake & Hk1 & Hmg & Hb). pose proof (zlen_nonneg ops). pose proof (zlen_nonneg ops').
  pose proof (zlen_nonneg (reply src)).
  destruct (copy_spec st dst src) as (st1 & d1 & -> & Hst1 & Hokd & Hoks & Hcd & Hsame & Hps & Hpd & Hbd & Hocc & Hrefs & Hkeep);
    [done|done|done|done|intros p o Hp; specialize (Hmg p o Hp); lia|].
  assert (keeps st src st1 src) as Hk1s.
  { intros p o Hp Ho. split; [|by apply Hkeep]. unfold pinned in *. rewrite Hrefs. pose proof (occ_nonneg (reply src) p). lia. }
  assert (ready (k + 6 * zlen ops' + 6 * zlen ops) st1 src) as Hr1.
  { split; [done|]. split; [done|]. split; [done|]. split; [lia|]. split; [|lia]. intros p o Hp.
    specialize (Hrefs p). rewrite (refs_lookup st1 p o Hp) in Hrefs. pose proof (occ_le_len (reply src) p). unfold refs in Hrefs.
    destruct (heap st !! p) as [o0|] eqn:Ho0; [specialize (Hmg p o0 Ho0); lia|]. unfold INT32_MAX in *.
    pose proof (ok_refs _ _ Hok p) as Hrp. rewrite (refs_none st p Ho0) in Hrp.
    destruct (ok_obj st1 Hst1 p o Hp). pose proof (occ_nonneg (reply src) p). lia. }
  destruct (ops_keep st src st1 src ops bss Hk1s Hm Hs) as [Hm1 Hs1].
  destruct (replies_with_spec ops bss st1 src (k + 6 * zlen ops')) as (st2 & s2 & Hrun & Hr2 & _ & _ & Hf2 & Hp2 & _);
    [lia|done|by apply (shared_keeps st src)|done|done|].
  assert (beside st1 src d1) as Hbes.
  { intros x. rewrite Hocc, Hrefs. pose proof (ok_refs _ _ Hok x). lia. }
  assert (keeps st src st2 d1) as Hk2.
  { intros p o Hp Ho. destruct (Hk1s p o Hp Ho) as (Hp1 & o1 & Ho1 & Hv1).
    destruct (frame_keeps _ _ _ _ Hf2 p o1 Hp1 Ho1) as (_ & o2 & Ho2 & Hv2). split; [|exists o2; by rewrite Hv2].
    unfold pinned in *. rewrite Hocc. destruct Hf2 as [Hf2 _]. specialize (Hf2 p). rewrite Hrefs in Hf2.
    pose proof (occ_nonneg (reply s2) p). lia. }
  destruct (reply_ok_agree st1 st2 d1) as [Hokd2 Hpd2];
    [by apply (frame_agree st1 src st2 s2); [| |apply Hokd]|intros p; pose proof (frame_beside _ _ _ _ _ Hf2 Hbes p); pose proof (occ_nonneg (reply s2) p); lia|done|].
  assert (ready (k + 6 * zlen ops') st2 d1) as Hrd.
  { destruct Hr2 as (? & _ & _ & ? & ? & _). split; [done|]. split; [done|]. split; [|split; [lia|split; [done|lia]]].
    intros _ Hon. rewrite (online_same dst d1 Hsame) in Hon. congruence. }
  destruct (ops_keep st src st2 d1 ops' bss' Hk2 Hm' Hs') as [Hm2 Hs2].
  destruct (replies_with_spec ops' bss' st2 d1 k) as (st3 & d3 & Hrun' & Hr3 & _ & _ & Hf3 & Hp3 & _);
    [done|done|by apply (shared_keeps st src)|done|done|].
  exists st1, d1, st2, s2, st3, d3. split; [done|]. split; [done|]. split; [done|].
  assert (accepts d1 = accepts dst) as Hacc.
  { unfold accepts. rewrite (willing_offline dst d1 Hsame Hoff). destruct Hsame as (_ & _ & _ & Hf). by rewrite Hf. }
  split; [|by rewrite Hp3, Hpd2, Hpd, Hacc]. rewrite <- Hps, <- Hp2. apply (bystander st2 d1 st3 d3); [done| |apply Hr2].
  intros x. pose proof (frame_beside _ _ _ _ _ Hf2 Hbes x). lia.
Qed.
End Facts.

(** The length of the smallest integer is computed with a signed overflow. *)
Lemma addReplyBulkLen_long_min zms lim now ae sh st c p rc :
  heap st !! p = Some (mk_robj rc (INT LONG_MIN)) -> addReplyBulkLen zms lim now ae sh st c p = None.
Proof. intros Hp. unfold addReplyBulkLen. by rewrite Hp. Qed.

(** ** Examples *)

Definition reply_objects : list (loc * robj) :=
  [(20000%positive, mk_robj 5 (RAW [13; 10] 0)); (20001%positive, mk_robj 5 (RAW (reply_line 58 0) 0));
   (20002%positive, mk_robj 5 (RAW (reply_line 58 1) 0)); (20003%positive, mk_robj 5 (RAW (reply_line 36 (-1)) 0))] ++
  ((fun i => (Z.to_pos (20010 + i), mk_robj 5 (RAW (reply_line 42 i) 0))) <$> seqZ 0 32) ++
  ((fun i => (Z.to_pos (20050 + i), mk_robj 5 (RAW (reply_line 36 i) 0))) <$> seqZ 0 32) ++
  ((fun i => (Z.to_pos (20100 + i), mk_robj 5 (RAW (reply_line 42 2 ++ bulk (bytes_of_string "SELECT") ++ bulk (ll_repr i)) 0))) <$> seqZ 0 10).

Definition reply_store : store :=
  mk_store (heap sample_store ∪ list_to_map reply_objects) (integers sample_store) false.

Definition reply_shared : sharedObjects :=
  mk_shared 20000%positive 20001%positive 20002%positive 20003%positive ((fun i => Z.to_pos (20010 + i)) <$> seqZ 0 32) ((fun i => Z.to_pos (20050 + i)) <$> seqZ 0 32).

Lemma reply_objects_spec p o :
  (list_to_map reply_objects : gmap loc robj) !! p = Some o ->
  wf_val (val o) /\ refcount o = 5 /\ sdsEncodedObject (val o) = true /\ light (val o).
Proof.
  intros Hp%elem_of_list_to_map_2%list_elem_of_In.
  assert (forallb (fun po => match val po.2 with RAW s 0 => zlen s <=? 536870912 | _ => false end && (refcount po.2 =? 5))
    reply_objects = true) as Hall by (by vm_compute).
  rewrite forallb_forall in Hall. specialize (Hall _ Hp). cbn in Hall. destruct o as [rc v]. cbn in *. zbool.
  by destruct v as [s [|f|f]| |]; zbool.
Qed.

Lemma heap_mk h i b : heap (mk_store h i b) = h.
Proof. reflexivity. Qed.

Lemma integers_mk h i b : integers (mk_store h i b) = i.
Proof. reflexivity. Qed.

Lemma reply_heap : heap reply_store = heap sample_store ∪ list_to_map reply_objects.
Proof. unfold reply_store. apply heap_mk. Qed.

Lemma reply_integers : integers reply_store = integers sample_store.
Proof. unfold reply_store. apply integers_mk. Qed.

#[local] Opaque sample_store reply_store.

Lemma reply_lookup p o :
  (20000 <= p)%positive -> (list_to_map reply_objects : gmap loc robj) !! p = Some o -> heap reply_store !! p = Some o.
Proof.
  intros Hp Ho. rewrite reply_heap, lookup_union_r; [exact Ho|]. destruct (heap sample_store !! p) as [x|] eqn:Hx; [|reflexivity].
  exfalso. apply sample_lookup in Hx as [[-> _]|[[-> _]|(i & Hi & -> & _)]]; unfold REDIS_SHARED_INTEGERS in *; lia.
Qed.

Lemma reply_store_lookup p o :
  heap reply_store !! p = Some o -> heap sample_store !! p = Some o \/ (list_to_map reply_objects : gmap loc robj) !! p = Some o.
Proof. rewrite reply_heap. intros [Hp|[_ Hp]]%lookup_union_Some_raw; [left|right]; exact Hp. Qed.

Lemma reply_store_ok : store_ok reply_store /\ margin 1000 reply_store.
Proof.
  destruct sample_store_ok as [Hok Hroom]. split; [split|].
  - intros p o [Hp|Hp]%reply_store_lookup; [exact (ok_obj _ Hok p o Hp)|].
    destruct (reply_objects_spec p o Hp) as (Hv & -> & _). unfold INT32_MAX. split; [exact Hv|lia].
  - intros i Hi. destruct (ok_int _ Hok i Hi) as (p & o & Hi' & Hp & Hv). exists p, o. rewrite reply_integers.
    split; [exact Hi'|]. split; [|exact Hv]. rewrite reply_heap. apply lookup_union_Some_l. exact Hp.
  - intros p o [Hp|Hp]%reply_store_lookup.
    + apply sample_lookup in Hp as [[_ ->]|[[_ ->]|(i & _ & _ & ->)]]; unfold INT32_MAX; cbn [refcount]; lia.
    + destruct (reply_objects_spec p o Hp) as (_ & -> & _). unfold INT32_MAX. lia.
Qed.

Lemma reply_str_at c p s :
  (forall x, occ (reply c) x <= 1) -> (20000 <= p)%positive ->
  (list_to_map reply_objects : gmap loc robj) !! p = Some (mk_robj 5 (RAW s 0)) -> str_at reply_store c p s.
Proof.
  intros Hc Hp Ho. apply (reply_lookup p _ Hp) in Ho. split.
  2: { exists (mk_robj 5 (RAW s 0)). split; [exact Ho|]. split; [reflexivity|]. cbn [light val]. lia. }
  unfold pinned. rewrite (refs_lookup _ _ _ Ho). specialize (Hc p). cbn [refcount]. lia.
Qed.

Lemma reply_headers base prefix l (i : Z) :
  forallb (fun i => bool_decide (getb l i = Some (Z.to_pos (base + i)) /\
    (list_to_map reply_objects : gmap loc robj) !! Z.to_pos (base + i) = Some (mk_robj 5 (RAW (reply_line prefix i) 0)))) (seqZ 0 32) = true ->
  0 <= i < REDIS_SHARED_BULKHDR_LEN -> getb l i = Some (Z.to_pos (base + i)) /\
    (list_to_map reply_objects : gmap loc robj) !! Z.to_pos (base + i) = Some (mk_robj 5 (RAW (reply_line prefix i) 0)).
Proof.
  intros Hall Hi. rewrite forallb_forall in Hall. apply (bool_decide_eq_true_1 _), Hall, list_elem_of_In, elem_of_seqZ.
  unfold REDIS_SHARED_BULKHDR_LEN in Hi. lia.
Qed.

Lemma reply_shared_ok c : (forall x, occ (reply c) x <= 1) -> shared_ok reply_shared reply_store c.
Proof.
  intros Hc. split.
  1-4: apply reply_str_at; [exact Hc|cbn; lia|by vm_compute].
  - intros i Hi. destruct (reply_headers 20010 42 (mbulkhdr reply_shared) i ltac:(by vm_compute) Hi) as [H1 H2].
    exists (Z.to_pos (20010 + i)). split; [exact H1|]. apply reply_str_at; [exact Hc|lia|exact H2].
  - intros i Hi. destruct (reply_headers 20050 36 (bulkhdr reply_shared) i ltac:(by vm_compute) Hi) as [H1 H2].
    exists (Z.to_pos (20050 + i)). split; [exact H1|]. apply reply_str_at; [exact Hc|lia|exact H2].
Qed.

Definition plain_zmalloc (n : Z) : Z := n.
Definition no_limits (_ : Z) : clientBufferLimitsConfig := mk_limits 0 0 0.

Lemma plain_zmalloc_bound n : 0 <= n -> 0 <= plain_zmalloc n <= 2 * n + 4096.
Proof. unfold plain_zmalloc. lia. Qed.

(** A client that has nothing to get, one that waits for ":0", and one that waits for
    the end of a transfer. *)
Definition idle_client : redisClient := mk_client 7 0 0 false (replicate (Z.to_nat REDIS_REPLY_CHUNK_BYTES) 0) 0 [] 0 0 0 0 false.
Definition busy_client : redisClient :=
  mk_client 8 0 0 false (replicate (Z.to_nat REDIS_REPLY_CHUNK_BYTES) 0) 0 [mk_node 1%positive (Some 20001%positive)] 0 13 0 0 true.
Definition waiting_client : redisClient :=
  mk_client 9 1 14 false (replicate (Z.to_nat REDIS_REPLY_CHUNK_BYTES) 0) 0 [] 0 0 0 0 false.

Lemma zero_chunk : zlen (replicate (Z.to_nat REDIS_REPLY_CHUNK_BYTES) 0) = REDIS_REPLY_CHUNK_BYTES.
Proof. unfold zlen. rewrite length_replicate. unfold REDIS_REPLY_CHUNK_BYTES. lia. Qed.

Lemma idle_ready_in st k : store_ok st -> margin 1000 st -> 0 <= k <= 1000 -> ready plain_zmalloc k st idle_client.
Proof.
  intros Hok Hm Hk. split; [exact Hok|]. split; [|split; [|split; [|split]]].
  - split; cbn [buf bufpos reply idle_client reply_bytes].
    + split; [exact zero_chunk|unfold REDIS_REPLY_CHUNK_BYTES; lia].
    + split; cbn; [lia|reflexivity].
    + intros n p Hn. by apply not_elem_of_nil in Hn.
    + intros p. cbn. unfold refs. destruct (heap st !! p) as [o|] eqn:Ho; [|lia].
      destruct (ok_obj _ Hok p o Ho) as [_ Hr]. lia.
    + apply NoDup_nil_2.
    + reflexivity.
  - intros [Hn|Hn]; [exfalso; apply Hn; reflexivity|exfalso; apply Hn; reflexivity].
  - lia.
  - intros p o Hp. specialize (Hm p o Hp). lia.
  - cbn [reply_bytes idle_client]. unfold ULONG_MAX. lia.
Qed.

Lemma idle_ready k : 0 <= k <= 1000 -> ready plain_zmalloc k reply_store idle_client.
Proof. destruct reply_store_ok. by apply idle_ready_in. Qed.

Lemma zero_object : heap reply_store !! 20001%positive = Some (mk_robj 5 (RAW (reply_line 58 0) 0)).
Proof. apply reply_lookup; [lia|]. by vm_compute. Qed.

Lemma busy_ready k : 0 <= k <= 1000 -> ready plain_zmalloc k reply_store busy_client.
Proof.
  intros Hk. destruct reply_store_ok as [Hok Hm]. pose proof zero_object as Hz. split; [exact Hok|]. split; [|split; [|split; [|split]]].
  - split; cbn [buf bufpos reply busy_client reply_bytes].
    + split; [exact zero_chunk|unfold REDIS_REPLY_CHUNK_BYTES; lia].
    + split; cbn [sentlen busy_client bufpos reply]; [lia|]. left. reflexivity.
    + intros n p Hn Hp. apply list_elem_of_singleton in Hn. subst n. injection Hp as <-. eexists. split; [exact Hz|reflexivity].
    + intros p. cbn [occ obj]. unfold count. case_decide as Hx.
      * injection Hx as <-. rewrite (refs_lookup _ _ _ Hz). cbn [refcount]. lia.
      * unfold refs. destruct (heap reply_store !! p) as [o|] eqn:Ho; [|lia].
        destruct (ok_obj _ Hok p o Ho) as [_ Hr]. lia.
    + apply NoDup_singleton.
    + change (13 = memory plain_zmalloc reply_store 20001%positive + 0). rewrite (memory_lookup plain_zmalloc reply_store 20001%positive _ Hz). reflexivity.
  - intros _ _ _. reflexivity.
  - lia.
  - intros p o Hp. specialize (Hm p o Hp). lia.
  - cbn [reply_bytes busy_client]. unfold ULONG_MAX. lia.
Qed.

Lemma idle_occ x : occ (reply idle_client) x <= 1.
Proof. cbn. lia. Qed.

Lemma busy_occ x : occ (reply busy_client) x <= 1.
Proof. cbn [busy_client reply occ obj]. pose proof (count_range (Some 20001%positive) x). lia. Qed.

Definition sample_ops : list reply_op := [ROString [104; 105]; ROLongLong 7; ROBulk 20001%positive; ROError [120]].
Definition sample_bytes : list (list Z) :=
  [[104; 105]; reply_line 58 7; bulk (reply_line 58 0); bytes_of_string "-ERR " ++ [120] ++ [13; 10]].

Lemma sample_means c : (forall x, occ (reply c) x <= 1) -> Forall2 (means reply_store c) sample_ops sample_bytes.
Proof.
  intros Hc. unfold sample_ops, sample_bytes. repeat apply Forall2_cons_2; try reflexivity; [|apply Forall2_nil_2].
  exists (reply_line 58 0). split; [|reflexivity]. apply reply_str_at; [exact Hc|lia|by vm_compute].
Qed.

Lemma sample_sized : Forall (sized reply_store) sample_ops.
Proof.
  unfold sample_ops. repeat apply Forall_cons_2; [| | | |apply Forall_nil_2].
  - vm_compute. discriminate.
  - vm_compute. split; discriminate.
  - intros o Ho. pose proof (eq_trans (eq_sym Ho) zero_object) as [= ->]. discriminate.
  - vm_compute. discriminate.
Qed.

Lemma pending_one st c n p o :
  bufpos c = 0 -> sentlen c = 0 -> reply c = [n] -> obj n = Some p -> heap st !! p = Some o ->
  pending st c = inl <$> sds_ptr (val o).
Proof.
  intros Hb Hs Hr Hn Ho. unfold pending, body. rewrite Hb, Hs, Hr, bind_cons, (content_obj _ _ p Hn). unfold str. rewrite Ho.
  cbn. by rewrite app_nil_r.
Qed.

Lemma busy_pending : pending reply_store busy_client = inl <$> reply_line 58 0.
Proof. exact (pending_one reply_store busy_client (mk_node 1%positive (Some 20001%positive)) 20001%positive _ eq_refl eq_refl eq_refl eq_refl zero_object). Qed.

(** ** Witnesses *)

Lemma replies_appended_witness :
  exists st' c', replies_with plain_zmalloc no_limits 0 true reply_shared reply_store idle_client sample_ops = Some (st', c') /\
    pending st' c' = inl <$> concat sample_bytes /\ pending st' busy_client = pending reply_store busy_client.
Proof.
  destruct (replies_appended plain_zmalloc no_limits 0 true reply_shared plain_zmalloc_bound 0 sample_ops sample_bytes reply_store idle_client)
    as (st' & c' & Hrun & _ & _ & Hp & Hby);
    [lia|apply idle_ready; vm_compute; split; discriminate|exact (reply_shared_ok _ idle_occ)|exact (sample_means _ idle_occ)|exact sample_sized|].
  exists st', c'. split; [exact Hrun|]. split; [exact Hp|].
  apply Hby; [apply (busy_ready 0); lia|]. intros x. cbn [idle_client reply occ Z.add].
  apply (ok_refs _ _ _ (proj1 (proj2 (busy_ready 0 ltac:(lia))))).
Defined.

Lemma deferred_length_witness :
  exists a c1 st2 c2, addDeferredMultiBulkLength true busy_client = (Some a, c1) /\
    replies_with plain_zmalloc no_limits 0 true reply_shared reply_store c1 sample_ops = Some (st2, c2) /\
    ((forall m, m ∈ reply c2 -> zlen (content st2 m) <= 536870912 - 32) ->
     exists st3 c3, setDeferredMultiBulkLength plain_zmalloc no_limits 0 st2 c2 (Some a) 4 = Some (st3, c3) /\
       pending st3 c3 = pending reply_store busy_client ++ (inl <$> reply_line 42 4 ++ concat sample_bytes)).
Proof.
  destruct (deferred_length plain_zmalloc no_limits 0 true reply_shared plain_zmalloc_bound 0 sample_ops sample_bytes 4 reply_store busy_client)
    as (a & c1 & st2 & c2 & Hadd & Hrun & Hset);
    [lia|apply busy_ready; vm_compute; split; discriminate|exact (reply_shared_ok _ busy_occ)|reflexivity| |vm_compute; split; discriminate
    |exact (sample_means _ busy_occ)|exact sample_sized|].
  { intros n Hn. apply list_elem_of_singleton in Hn as ->. discriminate. }
  exists a, c1, st2, c2. split; [exact Hadd|]. split; [exact Hrun|]. intros Hsmall.
  destruct (Hset Hsmall) as (st3 & c3 & Hset3 & _ & _ & Hp). exists st3, c3. split; [exact Hset3|exact Hp].
Defined.

Lemma replies_sent_witness :
  exists r, serve plain_zmalloc 0 (replicate 4 (false, [3])) reply_store busy_client [] = Some r /\
    inl <$> wire_of r = pending reply_store busy_client.
Proof.
  destruct (replies_sent plain_zmalloc 0 plain_zmalloc_bound 0 (replicate 4 (false, [3])) reply_store busy_client)
    as (r & Hrun & Hp & _); [apply busy_ready; lia| |reflexivity|reflexivity| | |].
  - intros n Hn. apply list_elem_of_singleton in Hn as ->. discriminate.
  - intros u ws Hin. apply elem_of_replicate in Hin as [[= -> ->] _]. reflexivity.
  - rewrite busy_pending. vm_compute. lia.
  - exists r. split; [exact Hrun|]. rewrite Hp. reflexivity.
Defined.

Lemma copied_replies_witness :
  exists st1 d1 st2 s2 st3 d3,
    copyClientOutputBuffer reply_store waiting_client busy_client = Some (st1, d1) /\
    replies_with plain_zmalloc no_limits 0 true reply_shared st1 busy_client sample_ops = Some (st2, s2) /\
    replies_with plain_zmalloc no_limits 0 true reply_shared st2 d1 [ROLongLong 3] = Some (st3, d3) /\
    pending st3 s2 = pending reply_store busy_client ++ (inl <$> concat sample_bytes) /\
    pending st3 d3 = body reply_store busy_client ++ (inl <$> reply_line 58 3).
Proof.
  destruct (copied_replies plain_zmalloc no_limits 0 true reply_shared plain_zmalloc_bound 0 sample_ops sample_bytes [ROLongLong 3] [reply_line 58 3]
    reply_store waiting_client busy_client) as (st1 & d1 & st2 & s2 & st3 & d3 & H1 & H2 & H3 & H4 & H5);
    [lia|apply busy_ready; vm_compute; split; discriminate| |exact (reply_shared_ok _ busy_occ)| |reflexivity|exact (sample_means _ busy_occ)|exact sample_sized
    | | |].
  - intros n Hn. apply list_elem_of_singleton in Hn as ->. discriminate.
  - split; [exact zero_chunk|]. repeat split.
  - apply Forall2_cons_2; [reflexivity|apply Forall2_nil_2].
  - apply Forall_cons_2; [vm_compute; split; discriminate|apply Forall_nil_2].
  - exists st1, d1, st2, s2, st3, d3. split; [exact H1|]. split; [exact H2|]. split; [exact H3|]. split; [exact H4|exact H5].
Defined.
