(* ===== verification/Replication.v ===== *)
(** * replication.c: the replication stream of a master

    The backlog, a circular buffer with the last bytes of the stream, the feeding of
    the backlog and of the output buffers of the slaves with the commands, and
    partial resynchronization.  The clients and their output buffers are those of
    Reply.v.  The contents of a new block and what write(2) does are parameters.
    The list of slaves that the feeding gets as an argument is [server.slaves] in all of
    its calls.  A failed assertion or an access out of the backlog gives [None]. *)

From Stdlib Require Import ZArith Lia String.
From stdpp Require Import base numbers list gmap.
From S2P Require Import Prelude Util Object Request Reply.

Open Scope Z_scope.

Definition REDIS_REPL_BACKLOG_MIN_SIZE : Z := 1024 * 16.
Definition REDIS_SHARED_SELECT_CMDS : Z := 10.
Definition REDIS_REPL_WAIT_BGSAVE_END : Z := 15.
Definition REDIS_PRE_PSYNC : Z := Z.shiftl 1 16.

(** ** Data *)

(** The part of [server] on the stream. *)
Record replServer := mk_repl {
  repl_backlog : option (list Z);
  repl_backlog_size : Z;
  repl_backlog_histlen : Z;
  repl_backlog_idx : Z;
  repl_backlog_off : Z;
  master_repl_offset : Z;
  slaveseldb : Z;
}.

Definition set_seldb (s : replServer) (db : Z) : replServer :=
  mk_repl (repl_backlog s) (repl_backlog_size s) (repl_backlog_histlen s) (repl_backlog_idx s)
    (repl_backlog_off s) (master_repl_offset s) db.
Definition set_offset (s : replServer) (n : Z) : replServer :=
  mk_repl (repl_backlog s) (repl_backlog_size s) (repl_backlog_histlen s) (repl_backlog_idx s)
    (repl_backlog_off s) n (slaveseldb s).

(** The fields of a slave that its synchronization changes. *)
Definition set_repl (c : redisClient) (f rs : Z) (on_ack : bool) : redisClient :=
  mk_client (fd c) f rs on_ack (buf c) (bufpos c) (reply c) (sentlen c) (reply_bytes c)
    (obuf_soft_limit_reached_time c) (lastinteraction c) (writable c).

(** ** The backlog *)

Section Backlog.
Context (junk : nat -> Z).

Definition new_backlog (s : replServer) (size : Z) (offset : Z) : replServer :=
  mk_repl (Some (junk <$> seq 0 (Z.to_nat size))) size 0 0 (s64 (offset + 1)) offset (slaveseldb s).

Definition createReplicationBacklog (s : replServer) : option replServer :=
  match repl_backlog s with
  | Some _ => None
  | None => Some (new_backlog s (repl_backlog_size s) (s64 (master_repl_offset s + 1)))
  end.

Definition resizeReplicationBacklog (s : replServer) (newsize : Z) : replServer :=
  let newsize := if newsize <? REDIS_REPL_BACKLOG_MIN_SIZE then REDIS_REPL_BACKLOG_MIN_SIZE else newsize in
  if repl_backlog_size s =? newsize then s
  else
    match repl_backlog s with
    | Some _ => new_backlog s newsize (master_repl_offset s)
    | None => mk_repl None newsize (repl_backlog_histlen s) (repl_backlog_idx s) (repl_backlog_off s)
                (master_repl_offset s) (slaveseldb s)
    end.
End Backlog.

(** [nslaves] is [listLength(server.slaves)]. *)
Definition freeReplicationBacklog (nslaves : Z) (s : replServer) : option replServer :=
  if nslaves =? 0 then
    Some (mk_repl None (repl_backlog_size s) (repl_backlog_histlen s) (repl_backlog_idx s) (repl_backlog_off s)
            (master_repl_offset s) (slaveseldb s))
  else None.

(** The loop on the bytes that are left: the buffer, the index and the length of the
    history. *)
Fixpoint feed_loop (fuel : nat) (size : Z) (b : list Z) (idx histlen : Z) (p : list Z) : option (list Z * Z * Z) :=
  if zlen p =? 0 then Some (b, idx, histlen)
  else
    match fuel with
    | O => None
    | S fuel =>
        let thislen := size - idx in
        let thislen := if thislen >? zlen p then zlen p else thislen in
        bs ← load p 0 thislen;
        b ← Prelude.store b idx bs;
        let idx := idx + thislen in
        let idx := if idx =? size then 0 else idx in
        feed_loop fuel size b idx (histlen + thislen) (drop (Z.to_nat thislen) p)
    end.

Definition feedReplicationBacklog (s : replServer) (p : list Z) : option replServer :=
  let offset := s64 (master_repl_offset s + zlen p) in
  b ← repl_backlog s;
  '(b, idx, histlen) ← feed_loop (length p) (repl_backlog_size s) b (repl_backlog_idx s) (repl_backlog_histlen s) p;
  let histlen := if histlen >? repl_backlog_size s then repl_backlog_size s else histlen in
  Some (mk_repl (Some b) (repl_backlog_size s) histlen idx (offset - histlen + 1) offset (slaveseldb s)).

Definition feedReplicationBacklogWithObject (st : store) (s : replServer) (p : loc) : option replServer :=
  o ← heap st !! p;
  bs ← (match val o with
        | INT v => ll_buf 21 v
        | RAW s _ | EMBSTR s => Some s
        end);
  feedReplicationBacklog s bs.

Section Replication.
Context (zmalloc_size : Z -> Z) (client_obuf_limits : Z -> clientBufferLimitsConfig)
  (unixtime : Z) (ae_ok : bool) (shared : sharedObjects) (select : list loc).

Abbreviation addReply_ := (addReply zmalloc_size client_obuf_limits unixtime ae_ok).
Abbreviation addReplyMultiBulkLen_ := (addReplyMultiBulkLen zmalloc_size client_obuf_limits unixtime ae_ok shared).
Abbreviation addReplyBulk_ := (addReplyBulk zmalloc_size client_obuf_limits unixtime ae_ok shared).
Abbreviation addReplySds_ := (addReplySds zmalloc_size client_obuf_limits unixtime ae_ok).
Abbreviation addReplyError_ := (addReplyError zmalloc_size client_obuf_limits unixtime ae_ok).

(** ** Feeding the slaves *)

(** A loop on the slaves, without those that wait for a BGSAVE to start. *)
Fixpoint each_slave (f : store -> redisClient -> option (store * redisClient)) (st : store)
    (slaves : list redisClient) : option (store * list redisClient) :=
  match slaves with
  | [] => Some (st, [])
  | slave :: slaves =>
      '(st, slave) ← (if replstate slave =? REDIS_REPL_WAIT_BGSAVE_START then Some (st, slave) else f st slave);
      '(st, slaves) ← each_slave f st slaves;
      Some (st, slave :: slaves)
  end.

Fixpoint bulk_args (st : store) (slave : redisClient) (argv : list loc) : option (store * redisClient) :=
  match argv with
  | [] => Some (st, slave)
  | a :: argv => '(st, slave) ← addReplyBulk_ st slave a; bulk_args st slave argv
  end.

(** The first [len] bytes of [aux], and CRLF. *)
Definition aux_line (prefix n : Z) : option (list Z) := ll_line 23 prefix n.

Fixpoint backlog_args (st : store) (s : replServer) (argv : list loc) : option replServer :=
  match argv with
  | [] => Some s
  | a :: argv =>
      objlen ← stringObjectLen st a;
      aux ← aux_line 36 objlen;
      s ← feedReplicationBacklog s aux;
      s ← feedReplicationBacklogWithObject st s a;
      s ← feedReplicationBacklog s [13; 10];
      backlog_args st s argv
  end.

(** The text that [sdscatprintf] formats to select a database. *)
Definition select_text (dictid : Z) : option (list Z) :=
  llstr ← ll_buf 21 dictid;
  Some (bytes_of_string "*2" ++ [13; 10] ++ bytes_of_string "$6" ++ [13; 10] ++ bytes_of_string "SELECT" ++ [13; 10] ++
        bytes_of_string "$" ++ ll_repr (zlen llstr) ++ [13; 10] ++ llstr ++ [13; 10]).

Definition replicationFeedSlaves (st : store) (s : replServer) (slaves : list redisClient) (dictid : Z)
    (argv : list loc) : option (store * replServer * list redisClient) :=
  match repl_backlog s, slaves with
  | None, [] => Some (st, s, slaves)
  | None, _ :: _ => None
  | Some _, _ =>
      let own := negb ((dictid >=? 0) && (dictid <? REDIS_SHARED_SELECT_CMDS)) in
      '(st, s, slaves) ← (if negb (slaveseldb s =? dictid) then
          '(selectcmd, st) ← (if own then
              text ← select_text dictid;
              Some (createObject st (RAW text (zlen text)))
            else p ← getb select dictid; Some (p, st));
          s ← feedReplicationBacklogWithObject st s selectcmd;
          '(st, slaves) ← each_slave (fun st slave => addReply_ st slave selectcmd) st slaves;
          st ← (if own then decrRefCount st selectcmd else Some st);
          Some (st, s, slaves)
        else Some (st, s, slaves));
      let s := set_seldb s dictid in
      aux ← aux_line 42 (zlen argv);
      s ← feedReplicationBacklog s aux;
      s ← backlog_args st s argv;
      '(st, slaves) ← each_slave (fun st slave =>
          '(st, slave) ← addReplyMultiBulkLen_ st slave (zlen argv);
          bulk_args st slave argv) st slaves;
      Some (st, s, slaves)
  end.

(** ** Partial resynchronization *)

Fixpoint backlog_loop (fuel : nat) (s : replServer) (b : list Z) (st : store) (c : redisClient) (j len : Z)
    : option (store * redisClient) :=
  if len =? 0 then Some (st, c)
  else
    match fuel with
    | O => None
    | S fuel =>
        let thislen := if repl_backlog_size s - j <? len then repl_backlog_size s - j else len in
        bs ← load b j thislen;
        '(st, c) ← addReplySds_ st c bs 0;
        backlog_loop fuel s b st c 0 (len - thislen)
    end.

(** The loop goes round the buffer once. *)
Definition addReplyReplicationBacklog (st : store) (s : replServer) (c : redisClient) (offset : Z)
    : option (Z * store * redisClient) :=
  if repl_backlog_histlen s =? 0 then Some (0, st, c)
  else
    let skip := offset - repl_backlog_off s in
    let j := Z.rem (repl_backlog_idx s + (repl_backlog_size s - repl_backlog_histlen s)) (repl_backlog_size s) in
    let j := Z.rem (j + skip) (repl_backlog_size s) in
    let len := repl_backlog_histlen s - skip in
    b ← repl_backlog s;
    '(st, c) ← backlog_loop 2 s b st c j len;
    Some (repl_backlog_histlen s - skip, st, c).

Definition getPsyncInitialOffset (s : replServer) : Z :=
  match repl_backlog s with None => master_repl_offset s + 1 | Some _ => master_repl_offset s end.

(** [psync_initial_offset] is a result; [write_ok] says whether write(2) takes the
    whole line. *)
Definition replicationSetupSlaveForFullResync (write_ok : bool) (s : replServer) (slave : redisClient) (offset : Z)
    : bool * replServer * redisClient * Z :=
  let slave := set_repl slave (flags slave) REDIS_REPL_WAIT_BGSAVE_END (repl_put_online_on_ack slave) in
  let s := set_seldb s (-1) in
  if negb (has slave REDIS_PRE_PSYNC) && negb write_ok then (false, s, freeClientAsync slave, offset)
  else (true, s, slave, offset).

(** What the PSYNC command gets: REDIS_ERR, or REDIS_OK with the list of the slaves. *)
Inductive psync :=
  | NeedFullResync (st : store) (c : redisClient)
  | Continue (st : store) (c : redisClient) (slaves : list redisClient).

(** [runid] and [master_runid] are C strings, [arg2] is the object of the offset. *)
Definition masterTryPartialResynchronization (write_ok : bool) (runid master_runid : list Z) (st : store)
    (s : replServer) (c : redisClient) (slaves : list redisClient) (arg2 : loc) : option psync :=
  if negb (strcasecmp_eq master_runid runid) then Some (NeedFullResync st c)
  else
    o ← heap st !! arg2;
    match getLongLongFromObjectOrReply (Some (val o)) None with
    | inr msg =>
        '(st, c) ← addReplyError_ st c (bytes_of_string msg);
        Some (NeedFullResync st c)
    | inl psync_offset =>
        if bool_decide (repl_backlog s = None) || (psync_offset <? repl_backlog_off s) ||
           (psync_offset >? repl_backlog_off s + repl_backlog_histlen s)
        then Some (NeedFullResync st c)
        else
          let c := set_repl c (Z.lor (flags c) REDIS_SLAVE) REDIS_REPL_ONLINE false in
          if negb write_ok then
            let c := freeClientAsync c in
            Some (Continue st c (slaves ++ [c]))
          else
            '(_, st, c) ← addReplyReplicationBacklog st s c psync_offset;
            Some (Continue st c (slaves ++ [c]))
    end.

End Replication.
