(* ===== verification/ReplicationFacts.v ===== *)
(** * Theorems on the replication stream

    The backlog holds the end of the stream, every slave gets the stream from the
    point where it joined, and a slave that comes back gets what it missed. *)

From Stdlib Require Import ZArith Lia String.
From stdpp Require Import base numbers list gmap.
From S2P Require Import Prelude Util Object Request Reply ReplyFacts Replication.

Open Scope Z_scope.

(** ** Specification of the backlog *)

(** The last [n] elements of a list. *)
Definition lastn {A} (n : Z) (l : list A) : list A := drop (length l - Z.to_nat n) l.

(** The circular buffer from its oldest byte on. *)
Definition rotated (b : list Z) (idx : Z) : list Z := drop (Z.to_nat idx) b ++ take (Z.to_nat idx) b.

(** The backlog has the last bytes of [stream], whose last one has the offset
    [master_repl_offset]. *)
Record backlog_ok (s : replServer) (stream : list Z) : Prop := {
  bl_size : 0 < repl_backlog_size s;
  bl_idx : 0 <= repl_backlog_idx s < repl_backlog_size s;
  bl_hist : 0 <= repl_backlog_histlen s <= repl_backlog_size s;
  bl_stream : repl_backlog_histlen s <= zlen stream;
  bl_off : repl_backlog_off s = master_repl_offset s - repl_backlog_histlen s + 1;
  bl_offset : 0 <= master_repl_offset s;
  bl_block : exists b, repl_backlog s = Some b /\ zlen b = repl_backlog_size s /\
    lastn (repl_backlog_histlen s) (rotated b (repl_backlog_idx s)) = lastn (repl_backlog_histlen s) stream;
}.

(** ** Lemmas: ends of lists *)

Lemma zlen_lastn {A} n (l : list A) : 0 <= n <= zlen l -> zlen (lastn n l) = n.
Proof. intros Hn. unfold lastn, zlen in *. rewrite length_drop. lia. Qed.

Lemma lastn_app_r {A} n (a b : list A) : 0 <= n <= zlen b -> lastn n (a ++ b) = lastn n b.
Proof. intros Hn. unfold lastn, zlen in *. rewrite length_app, drop_app_ge by lia. f_equal. lia. Qed.

Lemma lastn_lastn {A} n m (l : list A) : n <= m -> lastn n (lastn m l) = lastn n l.
Proof. intros Hn. unfold lastn. rewrite length_drop, drop_drop. f_equal. lia. Qed.

Lemma lastn_all {A} n (l : list A) : zlen l <= n -> lastn n l = l.
Proof. intros Hn. unfold lastn, zlen in *. by replace (length l - Z.to_nat n)%nat with 0%nat by lia. Qed.

Lemma lastn_split {A} n (l : list A) : exists a, l = a ++ lastn n l.
Proof. exists (take (length l - Z.to_nat n) l). unfold lastn. by rewrite take_drop. Qed.

(** Only the end of [a] matters to the end of [a ++ p]. *)
Lemma lastn_app {A} n m (a p : list A) :
  0 <= n <= m + zlen p -> 0 <= m <= zlen a -> lastn n (a ++ p) = lastn n (lastn m a ++ p).
Proof.
  intros Hn Hm. destruct (lastn_split m a) as (x & Hx). rewrite Hx at 1. rewrite <- app_assoc. apply lastn_app_r.
  rewrite zlen_app, zlen_lastn; lia.
Qed.

(** ** Lemmas: feeding the backlog *)

Lemma zlen_rotated b idx : zlen (rotated b idx) = zlen b.
Proof. unfold rotated. rewrite zlen_app. unfold zlen. rewrite length_drop, length_take. lia. Qed.

(** A part of the data is written at the index, which may reach the end. *)
Lemma rotated_write b idx w :
  0 <= idx -> idx + zlen w <= zlen b -> 0 < zlen b ->
  exists b', Prelude.store b idx w = Some b' /\ zlen b' = zlen b /\
    rotated b' (if idx + zlen w =? zlen b then 0 else idx + zlen w) = drop (length w) (rotated b idx ++ w).
Proof.
  intros Hi Hw Hb. pose proof (zlen_nonneg w). set (a := take (Z.to_nat idx) b). set (g := take (length w) (drop (Z.to_nat idx) b)).
  set (e := drop (length w) (drop (Z.to_nat idx) b)).
  assert (b = a ++ g ++ e) as Hbuf by (subst a g e; by rewrite !take_drop).
  assert (zlen a = idx) as Ha by (subst a; rewrite zlen_take; lia).
  assert (zlen g = zlen w) as Hg by (subst g; rewrite zlen_take, zlen_drop; unfold zlen in *; lia).
  exists (a ++ w ++ e). rewrite Hbuf at 1. rewrite store_mid by lia. split; [done|]. split; [rewrite Hbuf, !zlen_app; lia|].
  assert (rotated b idx = (g ++ e) ++ a) as ->.
  { unfold rotated. rewrite Hbuf, drop_app_length', take_app_length' by (unfold zlen in Ha; lia). done. }
  rewrite <- !app_assoc. rewrite (drop_app_length' g) by (unfold zlen in Hg; lia).
  assert (zlen e = zlen b - idx - zlen w) as He by (rewrite Hbuf, !zlen_app; lia).
  destruct (Z.eqb_spec (idx + zlen w) (zlen b)) as [Heq|Hne].
  - assert (e = []) as -> by (apply zlen_0; lia). unfold rotated. cbn. rewrite drop_0, app_nil_r. by rewrite ?app_nil_r.
  - unfold rotated. rewrite app_assoc, drop_app_length', take_app_length' by (rewrite length_app; unfold zlen in *; lia).
    by rewrite <- ?app_assoc.
Qed.

Lemma feed_loop_spec size fuel : forall b idx histlen p,
  zlen b = size -> 0 <= idx < size -> (length p <= fuel)%nat ->
  exists b' idx', feed_loop fuel size b idx histlen p = Some (b', idx', histlen + zlen p) /\ zlen b' = size /\ 0 <= idx' < size /\
    rotated b' idx' = drop (length p) (rotated b idx ++ p).
Proof.
  induction fuel as [|fuel IH]; intros b idx histlen p Hb Hi Hf; cbn [feed_loop]; destruct (Z.eqb_spec (zlen p) 0) as [Hp|Hp].
  1, 3: apply zlen_0 in Hp as ->; exists b, idx; rewrite app_nil_r, (@zlen_nil Z), Z.add_0_r; done.
  { exfalso. apply Hp. unfold zlen. lia. }
  pose proof (zlen_nonneg p). rewrite Z.gtb_ltb.
  set (t := if zlen p <? size - idx then zlen p else size - idx).
  assert (0 < t <= size - idx /\ t <= zlen p) as [Ht Htp] by (subst t; destruct (Z.ltb_spec (zlen p) (size - idx)); lia).
  set (w := take (Z.to_nat t) p). assert (zlen w = t) as Hw by (subst w; rewrite zlen_take; lia).
  assert (load p 0 t = Some w) as ->.
  { rewrite <- (take_drop (Z.to_nat t) p) at 1. by apply load_prefix. }
  sbind. destruct (rotated_write b idx w) as (b1 & -> & Hb1 & Hrot); [lia..|]. sbind. rewrite Hw in Hrot. rewrite Hb in Hrot.
  destruct (IH b1 (if idx + t =? size then 0 else idx + t) (histlen + t) (drop (Z.to_nat t) p))
    as (b' & idx' & Hrun & Hb' & Hi' & Hrot'); [lia| | |].
  { destruct (Z.eqb_spec (idx + t) size); lia. }
  { rewrite length_drop. lia. }
  exists b', idx'. rewrite Hrun. rewrite zlen_drop by lia. split; [do 2 f_equal; lia|]. split; [done|]. split; [done|].
  rewrite Hrot', Hrot, length_drop.
  replace (rotated b idx ++ p) with ((rotated b idx ++ w) ++ drop (Z.to_nat t) p) by (subst w; by rewrite <- app_assoc, take_drop).
  assert (length w = Z.to_nat t) as Hlw by (unfold zlen in Hw; lia).
  rewrite <- (drop_app_le _ (drop (Z.to_nat t) p) (length w)) by (rewrite length_app; lia).
  rewrite drop_drop. f_equal. unfold zlen in Htp. lia.
Qed.

Lemma backlog_feed s stream p :
  backlog_ok s stream -> master_repl_offset s + zlen p < 2 ^ 63 ->
  exists s', feedReplicationBacklog s p = Some s' /\ backlog_ok s' (stream ++ p) /\
    slaveseldb s' = slaveseldb s /\ master_repl_offset s' = master_repl_offset s + zlen p /\
    repl_backlog_size s' = repl_backlog_size s /\
    repl_backlog_histlen s' = Z.min (repl_backlog_size s) (repl_backlog_histlen s + zlen p).
Proof.
  intros [Hs Hi Hh Hst Hoff Hmo (b & Hb & Hlen & Hhist)] Hmax. unfold feedReplicationBacklog. rewrite Hb. sbind.
  destruct (feed_loop_spec (repl_backlog_size s) (length p) b (repl_backlog_idx s) (repl_backlog_histlen s) p)
    as (b' & idx' & -> & Hb' & Hi' & Hrot); [done|done|lia|]. sbind.
  pose proof (zlen_nonneg p) as Hp0. rewrite s64_small by lia. rewrite Z.gtb_ltb.
  set (h := if _ <? _ then _ else _).
  assert (h = Z.min (repl_backlog_size s) (repl_backlog_histlen s + zlen p)) as Hhv
    by (subst h; destruct (Z.ltb_spec (repl_backlog_size s) (repl_backlog_histlen s + zlen p)); lia).
  eexists. split; [done|]. cbn. split; [|done]. split; cbn; try done; try lia; [rewrite zlen_app; lia|].
  exists b'. split; [done|]. split; [done|]. rewrite Hrot.
  assert (drop (length p) (rotated b (repl_backlog_idx s) ++ p) = lastn (repl_backlog_size s) (rotated b (repl_backlog_idx s) ++ p)) as ->.
  { unfold lastn. rewrite length_app. pose proof (zlen_rotated b (repl_backlog_idx s)). unfold zlen in *. f_equal. lia. }
  rewrite lastn_lastn by lia. rewrite (lastn_app h (repl_backlog_histlen s) stream p) by lia.
  rewrite (lastn_app h (repl_backlog_histlen s) (rotated _ _) p) by (rewrite ?zlen_rotated; lia). by rewrite Hhist.
Qed.

(** A new backlog, or one that is resized, has no bytes of the stream. *)
Lemma new_backlog_ok junk s size offset stream :
  0 < size -> 0 <= offset < 2 ^ 63 - 1 ->
  backlog_ok (new_backlog junk s size offset) stream /\ repl_backlog_histlen (new_backlog junk s size offset) = 0.
Proof.
  intros Hs Ho. split; [|done]. split; cbn; try lia.
  - apply zlen_nonneg.
  - rewrite s64_small; lia.
  - eexists. split; [done|]. split; [unfold zlen; rewrite length_fmap, length_seq; lia|].
    unfold lastn. by rewrite !Nat.sub_0_r, !drop_all.
Qed.

Lemma backlog_created junk s stream :
  repl_backlog s = None -> 0 < repl_backlog_size s -> 0 <= master_repl_offset s < 2 ^ 63 - 2 ->
  exists s', createReplicationBacklog junk s = Some s' /\ backlog_ok s' stream /\ repl_backlog_histlen s' = 0 /\
    master_repl_offset s' = master_repl_offset s + 1.
Proof.
  intros Hb Hs Hm. unfold createReplicationBacklog. rewrite Hb. rewrite s64_small by lia.
  destruct (new_backlog_ok junk s (repl_backlog_size s) (master_repl_offset s + 1) stream) as [H1 H2]; [lia|lia|].
  eexists. split; [done|]. by split.
Qed.

Lemma backlog_resized junk s stream n :
  backlog_ok s stream -> master_repl_offset s < 2 ^ 63 - 1 ->
  let size := Z.max n REDIS_REPL_BACKLOG_MIN_SIZE in
  backlog_ok (resizeReplicationBacklog junk s n) stream /\
  master_repl_offset (resizeReplicationBacklog junk s n) = master_repl_offset s /\
  repl_backlog_histlen (resizeReplicationBacklog junk s n) = (if repl_backlog_size s =? size then repl_backlog_histlen s else 0).
Proof.
  intros Hok Hm size. pose proof Hok as [Hs _ _ _ _ Hmo (b & Hb & _)]. unfold resizeReplicationBacklog.
  assert ((if n <? REDIS_REPL_BACKLOG_MIN_SIZE then REDIS_REPL_BACKLOG_MIN_SIZE else n) = size) as ->
    by (subst size; destruct (Z.ltb_spec n REDIS_REPL_BACKLOG_MIN_SIZE); lia).
  destruct (repl_backlog_size s =? size); [done|]. rewrite Hb.
  destruct (new_backlog_ok junk s size (master_repl_offset s) stream) as [H1 H2]; [|lia|by split_and!].
  subst size. unfold REDIS_REPL_BACKLOG_MIN_SIZE. lia.
Qed.

(** What a run of feedings does. *)
Definition fed (s : replServer) (bs : list Z) (s' : replServer) : Prop :=
  (forall stream, backlog_ok s stream -> backlog_ok s' (stream ++ bs)) /\
  slaveseldb s' = slaveseldb s /\ master_repl_offset s' = master_repl_offset s + zlen bs /\
  repl_backlog_size s' = repl_backlog_size s /\
  repl_backlog_histlen s' = Z.min (repl_backlog_size s) (repl_backlog_histlen s + zlen bs).

Lemma fed_trans s a s1 b s2 : fed s a s1 -> fed s1 b s2 -> fed s (a ++ b) s2.
Proof.
  intros (B1 & D1 & O1 & S1 & H1) (B2 & D2 & O2 & S2 & H2). split; [|rewrite zlen_app; pose proof (zlen_nonneg b); split_and!; lia].
  intros stream Hs. rewrite app_assoc. auto.
Qed.

Lemma fed_nil s stream : backlog_ok s stream -> fed s [] s.
Proof.
  intros Hs. split; [intros ? ?; by rewrite app_nil_r|]. rewrite (@zlen_nil Z). pose proof (bl_hist _ _ Hs).
  split; [done|]. split; [lia|]. split; [done|lia].
Qed.

Lemma feed_fed s stream p :
  backlog_ok s stream -> master_repl_offset s + zlen p < 2 ^ 63 ->
  exists s', feedReplicationBacklog s p = Some s' /\ fed s p s'.
Proof.
  intros Hs Hm. destruct (backlog_feed s stream p Hs Hm) as (s' & Hf & _ & ? & ? & ? & ?). exists s'. split; [done|].
  split; [|done]. intros stream' Hs'. destruct (backlog_feed s stream' p Hs' Hm) as (s2 & Hf2 & ? & _). congruence.
Qed.

Lemma feedObject_fed s stream st p o :
  backlog_ok s stream -> heap st !! p = Some o -> wf_val (val o) -> master_repl_offset s + zlen (value (val o)) < 2 ^ 63 ->
  exists s', feedReplicationBacklogWithObject st s p = Some s' /\ fed s (value (val o)) s'.
Proof.
  intros Hs Ho Hv Hm. unfold feedReplicationBacklogWithObject. rewrite Ho. sbind.
  assert ((match val o with INT v => ll_buf 21 v | RAW s _ | EMBSTR s => Some s end) = Some (value (val o))) as ->.
  { destruct (val o) as [| |v]; [done|done|]. apply ll_buf_spec; [done|lia]. }
  sbind. by apply (feed_fed s stream).
Qed.

(** The values of the arguments of a command. *)
Definition holds_all (st : store) (argv : list loc) (vs : list (list Z)) : Prop :=
  Forall2 (fun p v => exists o, heap st !! p = Some o /\ value (val o) = v) argv vs.

Lemma zlen_enc_bulk v : zlen v <= 536870912 -> zlen v <= zlen (enc_bulk v) <= zlen v + 25.
Proof.
  intros Hv. unfold enc_bulk. pose proof (zlen_nonneg v). rewrite zlen_cons, !zlen_app.
  assert (in_ll (zlen v)) as Hl by (unfold in_ll, LLONG_MIN, LLONG_MAX; lia). pose proof (ll_repr_len _ Hl).
  pose proof (zlen_nonneg (ll_repr (zlen v))). change (zlen Request.crlf) with 2. lia.
Qed.

Lemma backlog_args_fed st argv : forall s stream vs,
  store_ok st -> backlog_ok s stream -> holds_all st argv vs -> master_repl_offset s + zlen (enc_args vs) < 2 ^ 63 ->
  exists s', backlog_args st s argv = Some s' /\ fed s (enc_args vs) s'.
Proof.
  induction argv as [|a argv IH]; intros s stream vs Hst Hs Hv Hm.
  - apply Forall2_nil_inv_l in Hv as ->. exists s. split; [done|]. by apply (fed_nil s stream).
  - apply Forall2_cons_inv_l in Hv as (v & vs' & (o & Ho & Hv) & Hvs & ->). cbn [backlog_args].
    destruct (ok_obj st Hst a o Ho) as [Hwf _]. pose proof (value_len _ Hwf) as Hvl. rewrite Hv in Hvl.
    assert (in_ll (zlen v)) as Hll by (unfold in_ll, LLONG_MIN, LLONG_MAX; pose proof (zlen_nonneg v); lia).
    assert (stringObjectLen st a = Some (zlen v)) as ->.
    { unfold stringObjectLen. rewrite Ho. sbind. rewrite <- Hv. destruct (val o) as [| |n]; [done|done|].
      cbn in Hwf. change 32 with (Z.of_nat 32). rewrite (ll2string_local 32 n) by (done || lia). done. }
    sbind. unfold aux_line. rewrite ll_line_spec by (done || lia). sbind.
    change (enc_args (v :: vs')) with (enc_bulk v ++ enc_args vs') in *. rewrite zlen_app in Hm. pose proof (zlen_nonneg (enc_args vs')).
    assert (enc_bulk v = reply_line 36 (zlen v) ++ v ++ [13; 10]) as Hbulk
      by (unfold enc_bulk, reply_line; cbn [app]; by rewrite <- !app_assoc).
    rewrite Hbulk, !zlen_app in Hm. change (zlen [13; 10]) with 2 in Hm.
    pose proof (zlen_nonneg (reply_line 36 (zlen v))). pose proof (zlen_nonneg v).
    destruct (feed_fed s stream (reply_line 36 (zlen v))) as (s1 & -> & Hf1); [done|lia|]. sbind.
    destruct (feedObject_fed s1 (stream ++ reply_line 36 (zlen v)) st a o) as (s2 & -> & Hf2);
      [by apply Hf1|done|done|rewrite Hv; destruct Hf1 as (_ & _ & -> & _); lia|]. sbind. rewrite Hv in Hf2.
    pose proof (fed_trans _ _ _ _ _ Hf1 Hf2) as Hf12.
    destruct (feed_fed s2 (stream ++ reply_line 36 (zlen v) ++ v) [13; 10]) as (s3 & -> & Hf3);
      [by apply Hf12|destruct Hf12 as (_ & _ & -> & _); rewrite zlen_app; change (zlen [13; 10]) with 2; lia|]. sbind.
    pose proof (fed_trans _ _ _ _ _ Hf12 Hf3) as Hf. rewrite <- app_assoc, <- Hbulk in Hf.
    destruct (IH s3 (stream ++ enc_bulk v) vs') as (s4 & -> & Hf4);
      [done|by apply Hf|done|destruct Hf as (_ & _ & -> & _); rewrite Hbulk, !zlen_app; change (zlen [13; 10]) with 2; lia|].
    exists s4. split; [done|]. by apply (fed_trans _ _ s3).
Qed.

(** ** Lemmas: several clients and one store *)

(** The nodes of several clients as those of one. *)
Definition merged (cs : list redisClient) : redisClient :=
  mk_client 0 0 0 false [] 0 (cs ≫= reply) 0 0 0 0 false.

Lemma occ_merged_app a b x : occ (reply (merged (a ++ b))) x = occ (reply (merged a)) x + occ (reply (merged b)) x.
Proof. cbn. by rewrite bind_app, occ_app. Qed.

Lemma occ_merged_cons c b x : occ (reply (merged (c :: b))) x = occ (reply c) x + occ (reply (merged b)) x.
Proof. change (c :: b) with ([c] ++ b). rewrite occ_merged_app. cbn. by rewrite app_nil_r. Qed.

Lemma occ_merged_elem c cs x : c ∈ cs -> occ (reply c) x <= occ (reply (merged cs)) x.
Proof.
  intros (a & b & ->)%list_elem_of_split. rewrite occ_merged_app, occ_merged_cons.
  pose proof (occ_nonneg (reply (merged a)) x). pose proof (occ_nonneg (reply (merged b)) x). lia.
Qed.

Section Facts.
Context (zmalloc_size : Z -> Z) (client_obuf_limits : Z -> clientBufferLimitsConfig)
  (unixtime : Z) (ae_ok : bool) (shared : sharedObjects) (select : list loc).
Hypothesis zmalloc_bound : forall n, 0 <= n -> 0 <= zmalloc_size n <= 2 * n + 4096.

Abbreviation ready := (ready zmalloc_size).
Abbreviation accepts := (accepts ae_ok).
Abbreviation adds := (adds zmalloc_size ae_ok).
Abbreviation replies_with := (replies_with zmalloc_size client_obuf_limits unixtime ae_ok shared).

(** Every client is ready and their references are accounted for together. *)
Record ready_all (k : Z) (st : store) (cs : list redisClient) : Prop := {
  ra_store : store_ok st;
  ra_bound : 0 <= k <= 1000000;
  ra_margin : margin k st;
  ra_ready c : c ∈ cs -> ready k st c;
  ra_refs x : occ (reply (merged cs)) x <= refs st x;
}.

Lemma ready_change k m st st' c :
  0 <= k -> 0 <= m -> ready (k + m) st c -> store_ok st' -> reply_ok zmalloc_size st' c -> margin k st' -> ready k st' c.
Proof. intros Hk Hm (_ & _ & Hw & Hb & _ & Hby) Hst Hok Hmg. split_and!; try done; lia. Qed.

Lemma keeps_merged st cs c : c ∈ cs -> keeps st (merged cs) st c.
Proof.
  intros Hc p o Hp Ho. split; [|by exists o]. unfold pinned in *. pose proof (occ_merged_elem c cs p Hc). lia.
Qed.

Lemma step_all k m st a c b r bs :
  0 <= k -> 0 <= m -> ready_all (k + m) st (a ++ c :: b) -> adds k st c r bs ->
  exists st' c', r = Some (st', c') /\ ready_all k st' (a ++ c' :: b) /\
    frame st (merged (a ++ c :: b)) st' (merged (a ++ c' :: b)) /\ same c c' /\ accepts c' = accepts c /\
    pending st' c' = pending st c ++ (inl <$> if accepts c then bs else []) /\
    (forall d, d ∈ a ++ b -> pending st' d = pending st d).
Proof.
  intros Hk Hm [Hst Hkb Hmg Hr Hrefs] (st' & c' & -> & Hrc & Hacc & Hsame & Hf & Hp & _).
  assert (forall x, occ (reply (merged (a ++ c' :: b))) x = occ (reply (merged (a ++ c :: b))) x - occ (reply c) x + occ (reply c') x) as Hocc
    by (intros x; rewrite !occ_merged_app, !occ_merged_cons; lia).
  pose proof Hrc as (Hst' & _ & _ & _ & Hmg' & _). destruct Hf as [Hfr Hfv].
  assert (forall d, d ∈ a ++ b -> reply_ok zmalloc_size st' d /\ pending st' d = pending st d) as Hothers.
  { intros d Hd. assert (beside st c d) as Hbes.
    { intros x. specialize (Hrefs x). rewrite occ_merged_app, occ_merged_cons in Hrefs.
      pose proof (occ_nonneg (reply (merged a)) x). pose proof (occ_nonneg (reply (merged b)) x).
      apply elem_of_app in Hd as [Hd|Hd]; pose proof (occ_merged_elem d _ x Hd); lia. }
    assert (d ∈ a ++ c :: b) as Hd' by (apply elem_of_app; apply elem_of_app in Hd as [?|?]; [by left|by right; right]).
    destruct (Hr d Hd') as (_ & Hdok & _). apply reply_ok_agree; [|intros p|done].
    - by apply (frame_agree st c st' c'); [split| |apply Hdok].
    - pose proof (frame_beside st c st' c' d (conj Hfr Hfv) Hbes p). pose proof (occ_nonneg (reply c') p). lia. }
  exists st', c'. split; [done|]. split; [|split; [|split; [done|split; [done|split; [done|]]]]].
  - split; [done|lia|done| |].
    + intros d Hd. apply elem_of_app in Hd. rewrite elem_of_cons in Hd. assert (d = c' \/ d ∈ a ++ b) as [->|Hab] by (rewrite elem_of_app; tauto); [done|].
      apply (ready_change k m st); [done|done| |done|by apply Hothers|done]. apply Hr. apply elem_of_app in Hab. rewrite elem_of_app, elem_of_cons. tauto.
    + intros x. rewrite Hocc. specialize (Hrefs x). specialize (Hfr x). lia.
  - split; [intros x; rewrite Hocc; specialize (Hfr x); lia|]. intros x o Hpin Ho. apply Hfv; [|done].
    unfold pinned in *. pose proof (occ_merged_elem c (a ++ c :: b) x ltac:(apply elem_of_app; right; by left)). lia.
  - intros d Hd. by apply Hothers.
Qed.

(** Whether a slave gets the stream. *)
Definition takes (c : redisClient) : bool := negb (replstate c =? REDIS_REPL_WAIT_BGSAVE_START) && accepts c.

(** A slave after some bytes of the stream. *)
Definition gets (st : store) (st' : store) (bs : list Z) (c c' : redisClient) : Prop :=
  same c c' /\ takes c' = takes c /\ pending st' c' = pending st c ++ (inl <$> if takes c then bs else []).

Lemma Forall2_elem {A B} (P Q : A -> B -> Prop) l k :
  Forall2 P l k -> (forall x y, x ∈ l -> y ∈ k -> P x y -> Q x y) -> Forall2 Q l k.
Proof.
  induction 1 as [|x y l k Hxy _ IH]; intros Hq; constructor; [by apply Hq; [left|left|]|].
  apply IH. intros x' y' Hx' Hy'. apply Hq; by right.
Qed.

Lemma each_replies ops bss todo : forall dn st k,
  0 <= k -> ready_all (k + 6 * zlen ops * zlen todo) st (dn ++ todo) -> shared_ok shared st (merged (dn ++ todo)) ->
  Forall2 (means st (merged (dn ++ todo))) ops bss -> Forall (sized st) ops ->
  exists st' todo', each_slave (fun st c => replies_with st c ops) st todo = Some (st', todo') /\
    ready_all k st' (dn ++ todo') /\ frame st (merged (dn ++ todo)) st' (merged (dn ++ todo')) /\
    (forall d, d ∈ dn -> pending st' d = pending st d) /\ Forall2 (gets st st' (concat bss)) todo todo'.
Proof.
  induction todo as [|c todo IH]; intros dn st k Hk Hra Hsh Hm Hs; cbn [each_slave].
  { exists st, []. rewrite (@zlen_nil redisClient), Z.mul_0_r, Z.add_0_r in Hra. split; [done|]. split; [done|].
    split; [by apply reply_frame_refl|]. by split. }
  rewrite zlen_cons in Hra. pose proof (zlen_nonneg ops). pose proof (zlen_nonneg todo).
  set (k1 := k + 6 * zlen ops * zlen todo). assert (0 <= k1) as Hk1 by (subst k1; nia).
  replace (k + 6 * zlen ops * (1 + zlen todo)) with (k1 + 6 * zlen ops) in Hra by (subst k1; lia).
  assert (exists st1 c1, (if replstate c =? REDIS_REPL_WAIT_BGSAVE_START then Some (st, c) else replies_with st c ops) = Some (st1, c1) /\
    ready_all k1 st1 (dn ++ c1 :: todo) /\ frame st (merged (dn ++ c :: todo)) st1 (merged (dn ++ c1 :: todo)) /\
    gets st st1 (concat bss) c c1 /\ (forall d, d ∈ dn ++ todo -> pending st1 d = pending st d)) as (st1 & c1 & -> & Hra1 & Hf1 & Hg1 & Hd1).
  { destruct (Z.eqb_spec (replstate c) REDIS_REPL_WAIT_BGSAVE_START) as [Hw|Hw].
    - exists st, c. split; [done|]. split.
      + destruct Hra as [A1 A2 A3 A4 A5]. split; [done|lia|intros p o Hp; specialize (A3 p o Hp); lia| |done].
        intros d Hd. by apply (ready_weaken _ (k1 + 6 * zlen ops)); [apply A4|lia].
      + split; [by apply reply_frame_refl|]. split; [|done]. split; [apply same_refl|]. split; [done|].
        unfold takes. rewrite (proj2 (Z.eqb_eq _ _) Hw). cbn. by rewrite app_nil_r.
    - assert (c ∈ dn ++ c :: todo) as Hin by (apply elem_of_app; right; by left).
      pose proof (keeps_merged st _ c Hin) as Hkc. destruct (ops_keep st _ st c ops bss Hkc Hm Hs) as [Hmc Hsc].
      destruct (step_all k1 (6 * zlen ops) st dn c todo (replies_with st c ops) (concat bss)) as (st1 & c1 & -> & Hra1 & Hf1 & Hsame & Hacc & Hp & Hoth);
        [done|lia|done| |].
      { apply replies_with_spec; try done; [by apply (ra_ready _ _ _ Hra)|]. by apply (shared_keeps shared st (merged (dn ++ c :: todo))). }
      exists st1, c1. split; [done|]. split; [done|]. split; [done|]. split; [|done]. split; [done|].
      unfold takes. rewrite (proj2 (Z.eqb_neq _ _) Hw). destruct Hsame as (_ & -> & _). by rewrite (proj2 (Z.eqb_neq _ _) Hw), Hacc. }
  sbind. pose proof (frame_keeps _ _ _ _ Hf1) as Hk1'.
  assert (dn ++ c1 :: todo = (dn ++ [c1]) ++ todo) as Heq1 by (by rewrite <- app_assoc). rewrite Heq1 in *.
  destruct (ops_keep st _ st1 _ ops bss Hk1' Hm Hs) as [Hm1 Hs1].
  destruct (IH (dn ++ [c1]) st1 k) as (st' & todo' & -> & Hra' & Hf' & Hd' & Hg'); [done|done| |done|done|].
  { by apply (shared_keeps shared st (merged (dn ++ c :: todo))). }
  sbind. exists st', (c1 :: todo'). rewrite <- !(app_assoc dn [c1]) in *. cbn [app] in Hra', Hf', Hf1.
  split; [done|]. split; [done|]. split; [by eapply reply_frame_trans|]. split.
  { intros d Hd. rewrite Hd' by (apply elem_of_app; by left). apply Hd1. apply elem_of_app; by left. }
  constructor.
  - destruct Hg1 as (? & ? & Hp1). split; [done|]. split; [done|]. rewrite Hd' by (apply elem_of_app; right; by left). done.
  - apply (Forall2_elem _ _ _ _ Hg'). intros d d' Hd _ (? & ? & Hp). split; [done|]. split; [done|].
    rewrite Hp, Hd1 by (apply elem_of_app; by right). done.
Qed.

Lemma ready_all_agree k st st' cs :
  ready_all k st cs -> store_ok st' -> margin k st' -> agree st st' (reply (merged cs)) ->
  (forall x, occ (reply (merged cs)) x <= refs st' x) ->
  ready_all k st' cs /\ (forall d, d ∈ cs -> pending st' d = pending st d).
Proof.
  intros [A1 A2 A3 A4 A5] Hst Hmg Hag Hocc.
  assert (forall d, d ∈ cs -> reply_ok zmalloc_size st' d /\ pending st' d = pending st d) as Hd.
  { intros d Hd. destruct (A4 d Hd) as (_ & Hok & _). apply reply_ok_agree; [|intros p|done].
    - intros n p Hn Hp. apply (Hag n p); [|done]. cbn. apply list_elem_of_bind. by exists d.
    - pose proof (occ_merged_elem d cs p Hd). specialize (Hocc p). lia. }
  split; [|intros d Hd'; by apply Hd]. split; try done. intros d Hd'.
  apply (ready_change k 0 st); [lia|lia|replace (k + 0) with k by lia; by apply A4|done|by apply Hd|done].
Qed.

Lemma merged_nodes k st cs : ready_all k st cs -> nodes_ok st (reply (merged cs)).
Proof.
  intros [_ _ _ A4 _] n p Hn Hp. cbn in Hn. apply list_elem_of_bind in Hn as (d & Hn & Hd).
  destruct (A4 d Hd) as (_ & Hok & _). by apply (ok_nodes _ _ _ Hok n p).
Qed.

Lemma create_all k st cs v p st1 :
  createObject st v = (p, st1) -> ready_all k st cs -> wf_val v ->
  ready_all k st1 cs /\ keeps st (merged cs) st1 (merged cs) /\ (forall d, d ∈ cs -> pending st1 d = pending st d) /\
  heap st1 !! p = Some (mk_robj 1 v) /\ (forall x, refs st1 x = refs st x + count (Some p) x) /\ refs st p = 0.
Proof.
  intros Hc Hra Hv. pose proof Hra as [A1 A2 A3 A4 A5].
  apply createObject_spec in Hc as (Hp & Hst1 & Hok1 & _); [|done|done].
  assert (forall x, refs st1 x = refs st x + count (Some p) x) as Hr1.
  { intros x. rewrite Hst1, refs_insert. case_decide as Hx; [subst x; rewrite (refs_none st p Hp), count_same; done|].
    rewrite (count_other p x) by congruence. lia. }
  assert (forall x o, heap st !! x = Some o -> heap st1 !! x = Some o) as Hh
    by (intros x o Ho; rewrite Hst1; cbn; rewrite lookup_insert_ne by congruence; done).
  destruct (ready_all_agree k st st1 cs Hra Hok1) as [Hra1 Hp1].
  - intros x o Hx. rewrite Hst1 in Hx. cbn in Hx. apply lookup_insert_Some in Hx as [[_ <-]|[_ Hx]]; [|by apply (A3 x)].
    cbn. unfold INT32_MAX. lia.
  - intros n x Hn Hx. destruct (merged_nodes k st cs Hra n x Hn Hx) as (o & Ho & _). exists o, o. split; [done|]. split; [by apply Hh|done].
  - intros x. rewrite Hr1. specialize (A5 x). pose proof (count_range (Some p) x). lia.
  - split; [done|]. split; [|split; [done|split; [|split; [done|by apply refs_none]]]].
    + intros x o Hx Ho. split; [unfold pinned in *; rewrite Hr1; pose proof (count_range (Some p) x); lia|]. exists o. split; [by apply Hh|done].
    + rewrite Hst1. apply lookup_insert_eq.
Qed.

(** An object that is given up by its only holder apart from the clients. *)
Lemma release_all k st cs p o :
  ready_all k st cs -> heap st !! p = Some o -> sdsEncodedObject (val o) = true -> pinned st (merged cs) p ->
  exists st', decrRefCount st p = Some st' /\ ready_all k st' cs /\ (forall d, d ∈ cs -> pending st' d = pending st d) /\
    (forall x, refs st' x = refs st x - count (Some p) x) /\
    (forall x ox, 1 < refs st x \/ x <> p -> heap st !! x = Some ox -> exists o', heap st' !! x = Some o' /\ val o' = val ox).
Proof.
  intros Hra Ho He Hpin. pose proof Hra as [A1 A2 A3 A4 A5].
  destruct (drop_ref_dec st p o A1 Ho He) as (st' & Hd). exists st'. split; [done|].
  destruct (decr_agree st p o st' (reply (merged cs)) A1 (merged_nodes k st cs Hra) Ho He Hd Hpin) as (Hst' & Hag & Hr & Hk).
  assert (forall x, occ (reply (merged cs)) x <= refs st' x) as Hocc.
  { intros x. rewrite Hr. destruct (decide (p = x)) as [<-|Hne].
    - rewrite count_same. unfold pinned in Hpin. lia.
    - rewrite (count_other p x) by done. specialize (A5 x). lia. }
  destruct (ready_all_agree k st st' cs Hra Hst') as [Hra' Hp']; [|done|done|by auto].
  intros x ox Hx. specialize (Hr x). rewrite (refs_lookup st' x ox Hx) in Hr. pose proof (count_range (Some p) x).
  unfold refs in Hr. destruct (heap st !! x) as [oy|] eqn:Hy; [specialize (A3 x oy Hy); lia|].
  destruct (ok_obj st' Hst' x ox Hx). lia.
Qed.

(** The requests in the stream. *)
Definition SELECT : list Z := bytes_of_string "SELECT".

Lemma select_text_request db : in_ll db -> select_text db = Some (enc_request [SELECT; ll_repr db]).
Proof.
  intros Hdb. unfold select_text. rewrite ll_buf_spec by (done || lia). sbind. do 2 f_equal.
  unfold enc_request, enc_args, enc_bulk. cbn [fmap list_fmap concat]. rewrite app_nil_r. cbn [app]. by rewrite <- ?app_assoc.
Qed.

Definition feed_bytes (sel db : Z) (vs : list (list Z)) : list Z :=
  (if sel =? db then [] else enc_request [SELECT; ll_repr db]) ++ enc_request vs.

(** The shared SELECT commands. *)
Definition select_ok (st : store) (c : redisClient) : Prop :=
  forall db, 0 <= db < REDIS_SHARED_SELECT_CMDS ->
    exists p, getb select db = Some p /\ str_at st c p (enc_request [SELECT; ll_repr db]).

(** The arguments of a command, which somebody holds. *)
Definition args_ok (st : store) (c : redisClient) (argv : list loc) (vs : list (list Z)) : Prop :=
  Forall2 (fun p v => str_at st c p v /\ forall o, heap st !! p = Some o -> val o <> INT LONG_MIN) argv vs.

Lemma select_keeps st c st' c' : keeps st c st' c' -> select_ok st c -> select_ok st' c'.
Proof. intros Hk Hs db Hdb. destruct (Hs db Hdb) as (p & Hp & Hat). exists p. split; [done|]. by apply (str_at_keeps st c). Qed.

Lemma args_keeps st c st' c' argv vs : keeps st c st' c' -> args_ok st c argv vs -> args_ok st' c' argv vs.
Proof.
  intros Hk Ha. eapply Forall2_impl; [exact Ha|]. intros p v [Hat Hm]. split; [by apply (str_at_keeps st c)|].
  intros o' Ho'. destruct Hat as (Hp & o & Ho & _). destruct (Hk p o Hp Ho) as (_ & o2 & Ho2 & Hv). specialize (Hm o Ho). congruence.
Qed.

Lemma args_holds st c argv vs : args_ok st c argv vs -> holds_all st argv vs.
Proof. intros Ha. eapply Forall2_impl; [exact Ha|]. intros p v [(_ & o & Ho & Hv & _) _]. by exists o. Qed.

Lemma each_slave_ext (f g : store -> redisClient -> option (store * redisClient)) st slaves : (forall st c, f st c = g st c) -> each_slave f st slaves = each_slave g st slaves.
Proof.
  intros Hfg. revert st. induction slaves as [|c cs IH]; intros st; [done|]. cbn [each_slave]. rewrite Hfg.
  destruct (if replstate c =? REDIS_REPL_WAIT_BGSAVE_START then Some (st, c) else g st c) as [[st1 c1]|]; [|done]. sbind. by rewrite IH.
Qed.

Abbreviation feed := (replicationFeedSlaves zmalloc_size client_obuf_limits unixtime ae_ok shared select).

(** What the slaves get when an object is sent to each. *)
Lemma each_object k st slaves p v :
  0 <= k -> ready_all (k + 6 * zlen slaves) st slaves -> shared_ok shared st (merged slaves) -> str_at st (merged slaves) p v ->
  exists st' slaves',
    each_slave (fun st c => addReply zmalloc_size client_obuf_limits unixtime ae_ok st c p) st slaves = Some (st', slaves') /\
    ready_all k st' slaves' /\ frame st (merged slaves) st' (merged slaves') /\ Forall2 (gets st st' v) slaves slaves'.
Proof.
  intros Hk Hra Hsh Hp. destruct (each_replies [ROObject p] [v] slaves [] st k) as (st' & slaves' & Hrun & Hra' & Hf & _ & Hg);
    [done|by replace (6 * zlen [ROObject p] * zlen slaves) with (6 * zlen slaves) by (rewrite zlen_cons, (@zlen_nil reply_op); lia)
    |done|by apply Forall2_cons_2; [|apply Forall2_nil_2]|by apply Forall_cons_2; [|apply Forall_nil_2]|].
  exists st', slaves'. cbn [concat] in Hg. rewrite app_nil_r in Hg. split; [|done]. rewrite <- Hrun. apply each_slave_ext.
  intros st0 c0. cbn. by destruct (addReply _ _ _ _ st0 c0 p) as [[? ?]|].
Qed.

(** What the slaves get when a command is sent to each. *)
Lemma each_command k st slaves argv vs :
  0 <= k -> ready_all (k + 6 * (1 + zlen argv) * zlen slaves) st slaves -> shared_ok shared st (merged slaves) ->
  args_ok st (merged slaves) argv vs -> zlen argv <= LLONG_MAX ->
  exists st' slaves',
    each_slave (fun st c =>
      '(st, c) ← addReplyMultiBulkLen zmalloc_size client_obuf_limits unixtime ae_ok shared st c (zlen argv);
      bulk_args zmalloc_size client_obuf_limits unixtime ae_ok shared st c argv) st slaves = Some (st', slaves') /\
    ready_all k st' slaves' /\ frame st (merged slaves) st' (merged slaves') /\ Forall2 (gets st st' (enc_request vs)) slaves slaves'.
Proof.
  intros Hk Hra Hsh Ha Hl. pose proof (zlen_nonneg argv).
  assert (in_ll (zlen argv)) as Hll by (unfold in_ll, LLONG_MIN, LLONG_MAX in *; lia).
  destruct (each_replies (ROMultiBulkLen (zlen argv) :: (ROBulk <$> argv)) (reply_line 42 (zlen argv) :: (enc_bulk <$> vs)) slaves [] st k)
    as (st' & slaves' & Hrun & Hra' & Hf & _ & Hg).
  - done.
  - by rewrite zlen_cons, zlen_fmap.
  - done.
  - constructor; [done|]. apply Forall2_fmap. eapply Forall2_impl; [exact Ha|]. intros p v [Hat _]. cbn. exists v. split; [done|].
    unfold enc_bulk, bulk, reply_line. cbn [app]. by rewrite <- !app_assoc.
  - constructor; [done|]. apply Forall_fmap. apply Forall_forall. intros p Hp. apply list_elem_of_lookup in Hp as (i & Hi).
    destruct (Forall2_lookup_l _ _ _ _ _ Ha Hi) as (v & _ & _ & Hm). exact Hm.
  - exists st', slaves'.
    assert (concat (reply_line 42 (zlen argv) :: (enc_bulk <$> vs)) = enc_request vs) as Heq.
    { pose proof (Forall2_length _ _ _ Ha) as Hlen. cbn [concat]. unfold enc_request, enc_args, reply_line.
      assert (zlen argv = zlen vs) as -> by (unfold zlen; lia). cbn [app]. by rewrite <- app_assoc. }
    rewrite Heq in Hg. split; [|done]. rewrite <- Hrun. apply each_slave_ext. intros st0 c0. cbn [ReplyFacts.replies_with reply_with].
    destruct (addReplyMultiBulkLen _ _ _ _ _ st0 c0 _) as [[st1 c1]|]; [|done]. sbind. clear. revert st1 c1.
    induction argv as [|a argv IH]; intros st1 c1; [done|]. cbn [bulk_args fmap list_fmap ReplyFacts.replies_with reply_with].
    destruct (addReplyBulk _ _ _ _ _ st1 c1 a) as [[st2 c2]|]; [|done]. sbind. apply IH.
Qed.

Lemma gets_trans st st1 st2 a b l l1 l2 :
  Forall2 (gets st st1 a) l l1 -> Forall2 (gets st1 st2 b) l1 l2 -> Forall2 (gets st st2 (a ++ b)) l l2.
Proof.
  intros H1. revert l2. induction H1 as [|c c1 l l1 (Hs1 & Ht1 & Hp1) _ IH]; intros l2 H2.
  - apply Forall2_nil_inv_l in H2 as ->. constructor.
  - apply Forall2_cons_inv_l in H2 as (c2 & l2' & (Hs2 & Ht2 & Hp2) & Hl & ->). constructor; [|by apply IH].
    split; [by eapply same_trans|]. split; [congruence|]. rewrite Hp2, Hp1, Ht1, <- app_assoc. f_equal.
    destruct (takes c); [by rewrite fmap_app|done].
Qed.

Lemma light_select db : in_ll db -> zlen (enc_request [SELECT; ll_repr db]) <= 100.
Proof.
  intros Hdb. unfold enc_request, enc_args, enc_bulk. cbn [fmap list_fmap concat]. pose proof (ll_repr_len db Hdb).
  assert (in_ll (zlen (ll_repr db))) as Hl by (unfold in_ll, LLONG_MIN, LLONG_MAX; pose proof (zlen_nonneg (ll_repr db)); lia).
  pose proof (ll_repr_len _ Hl). rewrite app_nil_r. repeat rewrite ?zlen_cons, ?zlen_app.
  change (zlen Request.crlf) with 2. change (zlen (ll_repr (1 + (1 + zlen (@nil (list Z)))))) with 1.
  change (zlen (ll_repr (zlen SELECT))) with 1. change (zlen SELECT) with 6. lia.
Qed.

Lemma select_phase k st s slaves db stream :
  0 <= k -> ready_all (k + 6 * zlen slaves) st slaves -> shared_ok shared st (merged slaves) -> select_ok st (merged slaves) ->
  backlog_ok s stream -> in_ll db -> master_repl_offset s + 100 < 2 ^ 63 ->
  exists st' s' slaves',
    (let own := negb ((db >=? 0) && (db <? REDIS_SHARED_SELECT_CMDS)) in
     '(selectcmd, st) ← (if own then
         text ← select_text db;
         Some (createObject st (RAW text (zlen text)))
       else p ← getb select db; Some (p, st));
     s ← feedReplicationBacklogWithObject st s selectcmd;
     '(st, slaves) ← each_slave (fun st slave => addReply zmalloc_size client_obuf_limits unixtime ae_ok st slave selectcmd) st slaves;
     st ← (if own then decrRefCount st selectcmd else Some st);
     Some (st, s, slaves)) = Some (st', s', slaves') /\
    fed s (enc_request [SELECT; ll_repr db]) s' /\ ready_all k st' slaves' /\ frame st (merged slaves) st' (merged slaves') /\
    Forall2 (gets st st' (enc_request [SELECT; ll_repr db])) slaves slaves'.
Proof.
  intros Hk Hra Hsh Hsel Hbl Hdb Hmax. set (text := enc_request [SELECT; ll_repr db]).
  pose proof (light_select db Hdb) as Htext. fold text in Htext. cbv zeta. rewrite Z.geb_leb.
  destruct ((0 <=? db) && (db <? REDIS_SHARED_SELECT_CMDS)) eqn:Hr; zbool; cbn [negb].
  - destruct (Hsel db) as (p & -> & Hat); [lia|]. sbind. pose proof Hat as (_ & o & Ho & Hv & _).
    destruct (ok_obj st (ra_store _ _ _ Hra) p o Ho) as [Hwf _].
    destruct (feedObject_fed s stream st p o) as (s' & -> & Hfed); [done|done|done|rewrite Hv; fold text; lia|]. sbind.
    destruct (each_object k st slaves p text) as (st' & slaves' & -> & Hra' & Hf & Hg); [done..|]. sbind.
    exists st', s', slaves'. rewrite Hv in Hfed. done.
  - rewrite select_text_request by done. sbind. fold text. destruct (createObject st (RAW text (zlen text))) as [p st1] eqn:Hc.
    assert (wf_val (RAW text (zlen text))) as Hwf by (cbn; pose proof (zlen_nonneg text); lia). sbind.
    destruct (create_all _ st slaves _ p st1 Hc Hra Hwf) as (Hra1 & Hk1 & Hp1 & Ho1 & Hr1 & Hr0).
    destruct (feedObject_fed s stream st1 p (mk_robj 1 (RAW text (zlen text)))) as (s' & -> & Hfed); [done|exact Ho1|done|cbn; lia|]. sbind.
    pose proof (ra_refs _ _ _ Hra p) as Hocc0. rewrite Hr0 in Hocc0. pose proof (occ_nonneg (reply (merged slaves)) p).
    assert (str_at st1 (merged slaves) p text) as Hat.
    { split; [unfold pinned; rewrite Hr1, Hr0, count_same; lia|]. eexists. split; [exact Ho1|]. split; [done|]. cbn. lia. }
    destruct (each_object k st1 slaves p text) as (st2 & slaves' & -> & Hra2 & Hf2 & Hg2); [done|done|by apply (shared_keeps shared st (merged slaves))|done|]. sbind.
    destruct (frame_keeps _ _ _ _ Hf2 p _ (proj1 Hat) Ho1) as (Hpin2 & o2 & Ho2 & Hv2).
    destruct (release_all k st2 slaves' p o2 Hra2 Ho2) as (st3 & -> & Hra3 & Hp3 & Hr3 & Hk3); [by rewrite Hv2|done|]. sbind.
    exists st3, s', slaves'. split; [done|]. split; [done|]. split; [done|]. split.
    + destruct Hf2 as [Hfr Hfv]. split.
      * intros x. specialize (Hfr x). rewrite Hr3. rewrite Hr1 in Hfr. lia.
      * intros x o Hpin Ho. destruct (Hk1 x o Hpin Ho) as (Hpin1 & o1 & Ho1' & Hv1). destruct (Hfv x o1 Hpin1 Ho1') as (ox & Hox & Hvx).
        destruct (Hk3 x ox) as (oy & Hoy & Hvy); [|done|exists oy; split; [done|congruence]].
        right. intros ->. unfold pinned in Hpin. lia.
    + apply (Forall2_elem _ _ _ _ Hg2). intros c c' Hin Hin' (Hs & Ht & Hp). split; [done|]. split; [done|].
      by rewrite Hp3, Hp, Hp1.
Qed.

Lemma backlog_seldb s stream db : backlog_ok s stream -> backlog_ok (set_seldb s db) stream.
Proof. by intros []. Qed.

Lemma fed_seldb s db bs s' : fed (set_seldb s db) bs s' ->
  (forall stream, backlog_ok s stream -> backlog_ok s' (stream ++ bs)) /\ slaveseldb s' = db /\
  master_repl_offset s' = master_repl_offset s + zlen bs /\ repl_backlog_size s' = repl_backlog_size s.
Proof. intros (Hb & Hd & Hm & Hs & _). split; [|done]. intros stream Hst. by apply Hb, backlog_seldb. Qed.

Lemma feed_spec k st s slaves db argv vs stream :
  0 <= k -> ready_all (k + 6 * (2 + zlen argv) * zlen slaves) st slaves -> shared_ok shared st (merged slaves) ->
  select_ok st (merged slaves) -> args_ok st (merged slaves) argv vs -> backlog_ok s stream -> in_ll db ->
  zlen argv <= LLONG_MAX -> master_repl_offset s + 100 + zlen (enc_request vs) < 2 ^ 63 ->
  exists st' s' slaves', feed st s slaves db argv = Some (st', s', slaves') /\
    backlog_ok s' (stream ++ feed_bytes (slaveseldb s) db vs) /\ slaveseldb s' = db /\
    master_repl_offset s' = master_repl_offset s + zlen (feed_bytes (slaveseldb s) db vs) /\
    repl_backlog_size s' = repl_backlog_size s /\
    ready_all k st' slaves' /\ frame st (merged slaves) st' (merged slaves') /\
    Forall2 (gets st st' (feed_bytes (slaveseldb s) db vs)) slaves slaves'.
Proof.
  intros Hk Hra Hsh Hsel Harg Hbl Hdb Hl Hmax. unfold replicationFeedSlaves.
  destruct (bl_block _ _ Hbl) as (b & Hb & _). rewrite Hb. cbv zeta. pose proof (zlen_nonneg slaves). pose proof (zlen_nonneg argv).
  pose proof (zlen_nonneg (enc_request vs)). pose proof (light_select db Hdb) as Hsl.
  set (k1 := k + 6 * (1 + zlen argv) * zlen slaves). assert (0 <= k1) as Hk1 by (subst k1; nia).
  replace (k + 6 * (2 + zlen argv) * zlen slaves) with (k1 + 6 * zlen slaves) in Hra by (subst k1; lia).
  set (sel := if slaveseldb s =? db then [] else enc_request [SELECT; ll_repr db]).
  set (X := if negb (slaveseldb s =? db) then _ else _).
  assert (exists st1 s1 slaves1, X = Some (st1, s1, slaves1) /\ fed s sel s1 /\ ready_all k1 st1 slaves1 /\
    frame st (merged slaves) st1 (merged slaves1) /\ Forall2 (gets st st1 sel) slaves slaves1 /\ zlen sel <= 100)
    as (st1 & s1 & slaves1 & -> & Hf1 & Hra1 & Hfr1 & Hg1 & Hsl1).
  { subst X sel. destruct (Z.eqb_spec (slaveseldb s) db) as [Heq|Hne]; cbn [negb].
    - exists st, s, slaves. split; [done|]. split; [by apply (fed_nil s stream)|]. split.
      { destruct Hra as [A1 A2 A3 A4 A5]. split; [done|lia|intros p o Hp; specialize (A3 p o Hp); lia| |done].
        intros d Hd. by apply (ready_weaken _ (k1 + 6 * zlen slaves)); [apply A4|lia]. }
      split; [by apply reply_frame_refl|]. split; [|done]. apply Forall2_same_length_lookup. split; [done|].
      intros i c c' Hc Hc'. rewrite Hc in Hc'. injection Hc' as <-. split; [apply same_refl|]. split; [done|].
      destruct (takes c); by rewrite app_nil_r.
    - destruct (select_phase k1 st s slaves db stream) as (st1 & s1 & slaves1 & Hrun & Hrest); try done; [lia|].
      exists st1, s1, slaves1. split; [exact Hrun|]. destruct Hrest as (? & ? & ? & ?). by split_and!. }
  sbind. pose proof (frame_keeps _ _ _ _ Hfr1) as Hk1'.
  assert (backlog_ok (set_seldb s1 db) (stream ++ sel)) as Hbl1 by (apply backlog_seldb; by apply Hf1).
  assert (master_repl_offset (set_seldb s1 db) = master_repl_offset s + zlen sel) as Hmo by apply Hf1.
  assert (in_ll (zlen argv)) as Hll by (unfold in_ll, LLONG_MIN, LLONG_MAX in *; lia).
  assert (zlen argv = zlen vs) as Hlen by (unfold zlen; by rewrite (Forall2_length _ _ _ Harg)).
  assert (enc_request vs = reply_line 42 (zlen argv) ++ enc_args vs) as Henc
    by (unfold enc_request, reply_line; rewrite Hlen; cbn [app]; by rewrite <- app_assoc).
  rewrite Henc, zlen_app in Hmax. pose proof (zlen_nonneg (reply_line 42 (zlen argv))). pose proof (zlen_nonneg (enc_args vs)).
  unfold aux_line. rewrite ll_line_spec by (done || lia). sbind.
  destruct (feed_fed _ _ (reply_line 42 (zlen argv)) Hbl1) as (s2 & -> & Hf2); [lia|]. sbind.
  pose proof (args_keeps _ _ _ _ _ _ Hk1' Harg) as Harg1.
  destruct (backlog_args_fed st1 argv s2 _ vs (ra_store _ _ _ Hra1) (proj1 Hf2 _ Hbl1) (args_holds _ _ _ _ Harg1)) as (s3 & -> & Hf3);
    [destruct Hf2 as (_ & _ & -> & _); lia|]. sbind.
  pose proof (fed_trans _ _ _ _ _ Hf2 Hf3) as Hf23. rewrite <- Henc in Hf23. apply fed_seldb in Hf23 as (Hbl3 & Hdb3 & Hmo3 & Hsz3).
  destruct (each_command k st1 slaves1 argv vs) as (st4 & slaves4 & -> & Hra4 & Hfr4 & Hg4); [done| | | |done|].
  { replace (zlen slaves1) with (zlen slaves) by (unfold zlen; by rewrite (Forall2_length _ _ _ Hg1)). exact Hra1. }
  { by apply (shared_keeps shared st (merged slaves)). }
  { done. }
  sbind. exists st4, s3, slaves4. split; [done|]. unfold feed_bytes. fold sel. split; [rewrite app_assoc; apply Hbl3; by apply Hf1|].
  split; [done|]. split; [rewrite Hmo3, zlen_app; destruct Hf1 as (_ & _ & -> & _); lia|].
  split; [rewrite Hsz3; apply Hf1|]. split; [done|]. split; [by eapply reply_frame_trans|]. by apply (gets_trans st st1 _ _ _ _ slaves1).
Qed.

(** ** Lemmas: partial resynchronization *)

Lemma rotated_drop b idx r :
  0 <= idx <= zlen b -> 0 <= r <= zlen b ->
  drop (Z.to_nat r) (rotated b idx) =
    if idx + r <? zlen b then drop (Z.to_nat (idx + r)) b ++ take (Z.to_nat idx) b
    else drop (Z.to_nat (idx + r - zlen b)) (take (Z.to_nat idx) b).
Proof.
  intros Hi Hr. unfold rotated. unfold zlen in *. destruct (Z.ltb_spec (idx + r) (Z.of_nat (length b))).
  - rewrite drop_app_le by (rewrite length_drop; lia). rewrite drop_drop. do 2 f_equal. lia.
  - rewrite drop_app_ge by (rewrite length_drop; lia). rewrite length_drop. f_equal. lia.
Qed.

Lemma adds_none k st c : ready k st c -> adds k st c (Some (st, c)) [].
Proof.
  intros Hr. exists st, c. split; [done|]. split; [done|]. split; [done|]. split; [apply same_refl|].
  split; [by apply reply_frame_refl|]. split; [|done]. destruct (accepts c); by rewrite app_nil_r.
Qed.

Abbreviation send_backlog := (addReplyReplicationBacklog zmalloc_size client_obuf_limits unixtime ae_ok).
Abbreviation loop := (backlog_loop zmalloc_size client_obuf_limits unixtime ae_ok).

(** The last round of the loop. *)
Lemma loop_last k s b st c j len fuel :
  0 <= k -> ready (k + 1) st c -> zlen b = repl_backlog_size s -> zlen b <= 536870912 -> 0 <= j -> 0 <= len -> j + len <= zlen b ->
  adds k st c (loop (S fuel) s b st c j len) (take (Z.to_nat len) (drop (Z.to_nat j) b)).
Proof.
  intros Hk Hr Hb Hmax Hj Hlen Hjl. cbn [backlog_loop]. destruct (Z.eqb_spec len 0) as [->|Hne].
  { apply adds_none. by apply (ready_weaken _ (k + 1)); [|lia]. }
  rewrite <- Hb, (proj2 (Z.ltb_ge _ _)) by lia. unfold load. rewrite !(proj2 (Z.leb_le _ _)) by lia. sbind.
  replace (len - len) with 0 by lia. rewrite <- (app_nil_r (take (Z.to_nat len) _)) at 2.
  apply (adds_bind zmalloc_size client_obuf_limits unixtime ae_ok k).
  - apply addReplySds_spec; [done|lia|done| |lia]. rewrite zlen_take. lia.
  - intros st1 c1 Hr1 _. destruct fuel; cbn [backlog_loop]; by apply adds_none.
Qed.

Lemma backlog_loop_spec k s b st c idx r :
  0 <= k -> ready (k + 2) st c -> zlen b = repl_backlog_size s -> 0 <= idx < zlen b -> 0 <= r <= zlen b ->
  zlen b <= 536870912 ->
  adds k st c (loop 2 s b st c (Z.rem (idx + r) (zlen b)) (zlen b - r)) (drop (Z.to_nat r) (rotated b idx)).
Proof.
  intros Hk Hr Hb Hi Hrr Hmax. rewrite rotated_drop by lia. rewrite Z.rem_mod_nonneg by lia.
  assert (ready (k + 1) st c) as Hr1 by (by apply (ready_weaken _ (k + 2)); [|lia]).
  destruct (Z.ltb_spec (idx + r) (zlen b)) as [Hlt|Hge].
  - rewrite (Z.mod_small (idx + r)) by lia. destruct (decide (idx = 0)) as [->|Hi0].
    + replace (drop (Z.to_nat (0 + r)) b ++ take (Z.to_nat 0) b) with (take (Z.to_nat (zlen b - r)) (drop (Z.to_nat (0 + r)) b)).
      * apply loop_last; done || lia.
      * rewrite take_0, app_nil_r. apply take_ge. rewrite length_drop. unfold zlen in *. lia.
    + cbn [backlog_loop]. rewrite <- Hb, (proj2 (Z.eqb_neq (zlen b - r) 0)), (proj2 (Z.ltb_lt (zlen b - (idx + r)) (zlen b - r))) by lia.
      rewrite (load_drop b (idx + r)) by lia. sbind.
      apply (adds_bind zmalloc_size client_obuf_limits unixtime ae_ok (k + 1)).
      { apply addReplySds_spec; [done|lia|by replace (k + 1 + 1) with (k + 2) by lia| |lia]. unfold zlen in *. rewrite length_drop. lia. }
      intros st1 c1 Hr2 _. replace (zlen b - r - (zlen b - (idx + r))) with idx by lia.
      change (take (Z.to_nat idx) b) with (take (Z.to_nat idx) (drop (Z.to_nat 0) b)). rewrite Hb. apply (loop_last k s b st1 c1 0 idx 0); done || lia.
  - assert ((idx + r) mod zlen b = idx + r - zlen b) as ->.
    { replace (idx + r) with (idx + r - zlen b + 1 * zlen b) at 1 by lia. rewrite Z.mod_add by lia. apply Z.mod_small. lia. }
    replace (drop (Z.to_nat (idx + r - zlen b)) (take (Z.to_nat idx) b))
      with (take (Z.to_nat (zlen b - r)) (drop (Z.to_nat (idx + r - zlen b)) b)).
    + apply loop_last; done || lia.
    + rewrite take_drop_commute. f_equal. f_equal. lia.
Qed.

Lemma backlog_tail s stream b o :
  backlog_ok s stream -> repl_backlog s = Some b -> repl_backlog_off s <= o <= repl_backlog_off s + repl_backlog_histlen s ->
  drop (Z.to_nat (repl_backlog_size s - repl_backlog_histlen s + (o - repl_backlog_off s))) (rotated b (repl_backlog_idx s)) =
    lastn (master_repl_offset s + 1 - o) stream.
Proof.
  intros [Hs Hi Hh Hst Hoff Hmo (b' & Hb' & Hlen & Hhist)] Hb Ho. rewrite Hb in Hb'. injection Hb' as <-.
  rewrite <- (lastn_lastn _ (repl_backlog_histlen s) stream) by lia. rewrite <- Hhist, lastn_lastn by lia.
  unfold lastn. pose proof (zlen_rotated b (repl_backlog_idx s)). unfold zlen in *. f_equal. lia.
Qed.

(** The end of the stream from the offset [o] on. *)
Lemma send_backlog_spec k st s c o stream :
  0 <= k -> ready (k + 2) st c -> backlog_ok s stream -> repl_backlog_size s <= 536870912 ->
  repl_backlog_off s <= o <= repl_backlog_off s + repl_backlog_histlen s ->
  exists len st' c', send_backlog st s c o = Some (len, st', c') /\ len = zlen (lastn (master_repl_offset s + 1 - o) stream) /\
    adds k st c (Some (st', c')) (lastn (master_repl_offset s + 1 - o) stream).
Proof.
  intros Hk Hr Hbl Hmax Ho. pose proof Hbl as [Hs Hi Hh Hst Hoff Hmo (b & Hb & Hlen & _)].
  rewrite zlen_lastn by lia. unfold addReplyReplicationBacklog. destruct (Z.eqb_spec (repl_backlog_histlen s) 0) as [H0|H0].
  { exists 0, st, c. split; [done|]. split; [lia|]. replace (master_repl_offset s + 1 - o) with 0 by lia.
    assert (lastn 0 stream = []) as -> by (unfold lastn; rewrite Nat.sub_0_r; apply drop_all).
    apply adds_none. by apply (ready_weaken _ (k + 2)); [|lia]. }
  rewrite Hb. sbind. cbv zeta. set (r := repl_backlog_size s - repl_backlog_histlen s + (o - repl_backlog_off s)).
  assert (Z.rem (Z.rem (repl_backlog_idx s + (repl_backlog_size s - repl_backlog_histlen s)) (repl_backlog_size s) + (o - repl_backlog_off s)) (repl_backlog_size s)
    = Z.rem (repl_backlog_idx s + r) (zlen b)) as ->.
  { rewrite Hlen, (Z.rem_mod_nonneg (repl_backlog_idx s + (repl_backlog_size s - repl_backlog_histlen s))) by lia. set (j := _ mod _).
    assert (0 <= j < repl_backlog_size s) by (apply Z.mod_pos_bound; lia).
    rewrite !Z.rem_mod_nonneg by (subst r; lia). subst j. rewrite Zplus_mod_idemp_l. f_equal. subst r. lia. }
  replace (repl_backlog_histlen s - (o - repl_backlog_off s)) with (zlen b - r) by (subst r; lia).
  pose proof (backlog_loop_spec k s b st c (repl_backlog_idx s) r Hk Hr Hlen) as Hadds.
  subst r. rewrite (backlog_tail s stream b o Hbl Hb Ho) in Hadds.
  set (r := repl_backlog_size s - repl_backlog_histlen s + (o - repl_backlog_off s)) in *.
  destruct Hadds as (st' & c' & Hrun & Hrest); [lia|subst r; lia|lia|]. rewrite Hrun. sbind.
  exists (zlen b - r), st', c'. split; [done|]. split; [subst r; lia|]. by exists st', c'.
Qed.

(** ** Lemmas: sequences of commands *)

Fixpoint feeds (st : store) (s : replServer) (slaves : list redisClient) (cmds : list (Z * list loc))
    : option (store * replServer * list redisClient) :=
  match cmds with
  | [] => Some (st, s, slaves)
  | (db, argv) :: cmds => '(st, s, slaves) ← feed st s slaves db argv; feeds st s slaves cmds
  end.

(** The requests that the stream has for commands on databases; [sel] is the database
    that is selected. *)
Fixpoint requests_of (sel : Z) (cmds : list (Z * list (list Z))) : list (list (list Z)) :=
  match cmds with
  | [] => []
  | (db, vs) :: cmds => (if sel =? db then [] else [[SELECT; ll_repr db]]) ++ [vs] ++ requests_of db cmds
  end.

Definition stream_of (sel : Z) (cmds : list (Z * list (list Z))) : list Z := enc_all (requests_of sel cmds).

Lemma stream_of_cons sel db vs cmds : stream_of sel ((db, vs) :: cmds) = feed_bytes sel db vs ++ stream_of db cmds.
Proof.
  unfold stream_of, feed_bytes, enc_all. cbn [requests_of]. rewrite fmap_app, concat_app. cbn [app fmap list_fmap concat].
  rewrite app_assoc. f_equal. f_equal. destruct (sel =? db); [done|]. cbn. by rewrite app_nil_r.
Qed.

Fixpoint feeds_cost (n : Z) (cmds : list (Z * list loc)) : Z :=
  match cmds with [] => 0 | (_, argv) :: cmds => 6 * (2 + zlen argv) * n + feeds_cost n cmds end.

Lemma feeds_cost_nonneg n cmds : 0 <= n -> 0 <= feeds_cost n cmds.
Proof.
  intros Hn. induction cmds as [|[db argv] cmds IH]; [done|]. cbn [feeds_cost]. pose proof (zlen_nonneg argv). nia.
Qed.

(** The commands are for databases and their arguments are there. *)
Definition cmds_ok (st : store) (c : redisClient) (cmds : list (Z * list loc)) (vals : list (Z * list (list Z))) : Prop :=
  Forall2 (fun a v => a.1 = v.1 /\ in_ll v.1 /\ zlen a.2 <= LLONG_MAX /\ args_ok st c a.2 v.2) cmds vals.

Lemma cmds_keeps st c st' c' cmds vals : keeps st c st' c' -> cmds_ok st c cmds vals -> cmds_ok st' c' cmds vals.
Proof.
  intros Hk Hc. eapply Forall2_impl; [exact Hc|]. intros a v (? & ? & ? & Ha). split_and!; try done. by apply (args_keeps st c).
Qed.

Lemma zlen_feed_bytes sel db vs : zlen (enc_request vs) <= zlen (feed_bytes sel db vs).
Proof. unfold feed_bytes. rewrite zlen_app. pose proof (zlen_nonneg (if sel =? db then [] else enc_request [SELECT; ll_repr db])). lia. Qed.

Lemma feeds_spec k cmds : forall vals st s slaves stream,
  0 <= k -> ready_all (k + feeds_cost (zlen slaves) cmds) st slaves -> shared_ok shared st (merged slaves) ->
  select_ok st (merged slaves) -> cmds_ok st (merged slaves) cmds vals -> backlog_ok s stream ->
  master_repl_offset s + zlen (stream_of (slaveseldb s) vals) + 100 < 2 ^ 63 ->
  exists st' s' slaves', feeds st s slaves cmds = Some (st', s', slaves') /\
    backlog_ok s' (stream ++ stream_of (slaveseldb s) vals) /\
    master_repl_offset s' = master_repl_offset s + zlen (stream_of (slaveseldb s) vals) /\
    ready_all k st' slaves' /\ frame st (merged slaves) st' (merged slaves') /\
    Forall2 (gets st st' (stream_of (slaveseldb s) vals)) slaves slaves'.
Proof.
  induction cmds as [|[db argv] cmds IH]; intros vals st s slaves stream Hk Hra Hsh Hsel Hc Hbl Hmax; cbn [feeds].
  - apply Forall2_nil_inv_l in Hc as ->. exists st, s, slaves. cbn [feeds_cost] in Hra. rewrite Z.add_0_r in Hra.
    change (stream_of (slaveseldb s) []) with (@nil Z). rewrite app_nil_r, (@zlen_nil Z), Z.add_0_r. split; [done|]. split; [done|]. split; [done|]. split; [done|].
    split; [by apply reply_frame_refl|]. apply Forall2_same_length_lookup. split; [done|].
    intros i c c' Hc Hc'. rewrite Hc in Hc'. injection Hc' as <-. split; [apply same_refl|]. split; [done|].
    destruct (takes c); by rewrite app_nil_r.
  - apply Forall2_cons_inv_l in Hc as ([db' vs] & vals' & (Hdb & Hll & Hl & Ha) & Hc & ->). cbn in Hdb, Hll, Hl, Ha. subst db'.
    rewrite stream_of_cons in *. rewrite zlen_app in Hmax. cbn [feeds_cost] in Hra. pose proof (zlen_feed_bytes (slaveseldb s) db vs).
    pose proof (zlen_nonneg (stream_of db vals')). pose proof (feeds_cost_nonneg (zlen slaves) cmds (zlen_nonneg slaves)).
    destruct (feed_spec (k + feeds_cost (zlen slaves) cmds) st s slaves db argv vs stream) as
      (st1 & s1 & slaves1 & -> & Hbl1 & Hdb1 & Hmo1 & _ & Hra1 & Hf1 & Hg1); try done; [lia| |lia|].
    { by replace (k + feeds_cost (zlen slaves) cmds + 6 * (2 + zlen argv) * zlen slaves)
        with (k + (6 * (2 + zlen argv) * zlen slaves + feeds_cost (zlen slaves) cmds)) by lia. }
    sbind. pose proof (frame_keeps _ _ _ _ Hf1) as Hk1.
    assert (zlen slaves1 = zlen slaves) as Hlen by (unfold zlen; by rewrite (Forall2_length _ _ _ Hg1)).
    destruct (IH vals' st1 s1 slaves1 (stream ++ feed_bytes (slaveseldb s) db vs)) as (st2 & s2 & slaves2 & -> & Hbl2 & Hmo2 & Hra2 & Hf2 & Hg2).
    + done.
    + by rewrite Hlen.
    + by apply (shared_keeps shared st (merged slaves)).
    + by apply (select_keeps st (merged slaves)).
    + by apply (cmds_keeps st (merged slaves)).
    + done.
    + rewrite Hdb1, Hmo1. lia.
    + rewrite Hdb1 in *. exists st2, s2, slaves2. split; [done|]. rewrite app_assoc. split; [done|].
      split; [rewrite Hmo2, Hmo1, zlen_app; lia|]. split; [done|]. split; [by eapply reply_frame_trans|].
      by apply (gets_trans st st1 _ _ _ _ slaves1).
Qed.

(** ** Lemmas: PSYNC *)

(** The client when it is a slave again. *)
Definition rejoined (c : redisClient) : redisClient := set_repl c (Z.lor (flags c) REDIS_SLAVE) REDIS_REPL_ONLINE false.

Abbreviation psync_ := (masterTryPartialResynchronization zmalloc_size client_obuf_limits unixtime ae_ok).

Lemma lastn_more {A} n (a p : list A) : 0 <= n <= zlen a -> lastn (n + zlen p) (a ++ p) = lastn n a ++ p.
Proof.
  intros Hn. unfold lastn, zlen in *. rewrite length_app, drop_app_le by lia. do 2 f_equal. lia.
Qed.

Lemma rejoined_ready k st slaves c :
  ready_all k st (slaves ++ [c]) -> bufpos c = 0 -> reply c = [] -> ready_all k st (slaves ++ [rejoined c]).
Proof.
  intros [A1 A2 A3 A4 A5] Hb Hr. split; try done.
  - intros d [Hd|Hd]%elem_of_app; [apply A4, elem_of_app; by left|]. apply list_elem_of_singleton in Hd as ->.
    destruct (A4 c ltac:(apply elem_of_app; right; by left)) as (_ & [O1 O2 O3 O4 O5 O6] & _ & Hk & Hm & Hby).
    split; [done|]. split; [by split|]. split; [|done]. intros [Hn|Hn]; cbn in Hn; congruence.
  - intros x. specialize (A5 x). rewrite occ_merged_app in *. done.
Qed.

Lemma psync_spec k st s c slaves stream runid master_runid arg2 o v :
  0 <= k -> ready_all (k + 2) st (slaves ++ [c]) -> bufpos c = 0 -> reply c = [] -> backlog_ok s stream ->
  repl_backlog_size s <= 536870912 -> strcasecmp_eq master_runid runid = true ->
  heap st !! arg2 = Some o -> getLongLongFromObject (Some (val o)) = Some v ->
  if (repl_backlog_off s <=? v) && (v <=? master_repl_offset s + 1)
  then exists st' c', psync_ true runid master_runid st s c slaves arg2 = Some (Continue st' c' (slaves ++ [c'])) /\
    ready_all k st' (slaves ++ [c']) /\ frame st (merged (slaves ++ [rejoined c])) st' (merged (slaves ++ [c'])) /\
    takes c' = accepts (rejoined c) /\ (forall d, d ∈ slaves -> pending st' d = pending st d) /\
    pending st' c' = inl <$> (if accepts (rejoined c) then lastn (master_repl_offset s + 1 - v) stream else [])
  else psync_ true runid master_runid st s c slaves arg2 = Some (NeedFullResync st c).
Proof.
  intros Hk Hra Hb Hre Hbl Hmax Hid Ho Hv. unfold masterTryPartialResynchronization. rewrite Hid. cbn [negb]. rewrite Ho. sbind.
  unfold getLongLongFromObjectOrReply. rewrite Hv. destruct (bl_block _ _ Hbl) as (b & Hblk & _). pose proof (bl_off _ _ Hbl) as Hoff.
  rewrite bool_decide_eq_false_2 by congruence. cbn [orb]. rewrite Z.gtb_ltb.
  replace (repl_backlog_off s + repl_backlog_histlen s) with (master_repl_offset s + 1) by lia.
  destruct (Z.leb_spec (repl_backlog_off s) v) as [H1|H1]; cbn [andb].
  2: { rewrite (proj2 (Z.ltb_lt _ _)) by lia. done. }
  rewrite (proj2 (Z.ltb_ge v (repl_backlog_off s))) by lia. cbn [orb].
  destruct (Z.leb_spec v (master_repl_offset s + 1)) as [H2|H2].
  2: { rewrite (proj2 (Z.ltb_lt _ _)) by lia. done. }
  rewrite (proj2 (Z.ltb_ge (master_repl_offset s + 1) v)) by lia. cbv zeta. fold (rejoined c).
  pose proof (rejoined_ready _ st slaves c Hra Hb Hre) as Hrj.
  destruct (send_backlog_spec k st s (rejoined c) v stream) as (len & st' & c' & -> & _ & Hadds); try done.
  { apply (ra_ready _ _ _ Hrj). apply elem_of_app. right. by left. }
  { lia. }
  sbind. destruct (step_all k 2 st slaves (rejoined c) [] _ _ Hk ltac:(lia) Hrj Hadds) as (st2 & c2 & [= <- <-] & Hra' & Hf & Hs & Hacc & Hp & Hoth).
  exists st', c'. split; [done|]. split; [done|]. split; [done|]. split.
  { unfold takes. destruct Hs as (_ & -> & _). by rewrite Hacc. }
  split; [intros d Hd; apply Hoth; rewrite app_nil_r; done|]. rewrite Hp.
  assert (pending st (rejoined c) = []) as ->; [|done].
  apply (pending_none zmalloc_size); [|done|done]. apply (ra_ready _ _ _ Hrj). apply elem_of_app. right. by left.
Qed.

(** A malformed offset: the error is put in the output buffer, and a full
    resynchronization follows. *)
Lemma psync_bad_offset k wok st s c slaves runid master_runid arg2 o :
  0 <= k -> ready (k + 3) st c -> strcasecmp_eq master_runid runid = true ->
  heap st !! arg2 = Some o -> getLongLongFromObject (Some (val o)) = None ->
  exists st' c', psync_ wok runid master_runid st s c slaves arg2 = Some (NeedFullResync st' c') /\
    pending st' c' = pending st c ++ (inl <$> (if accepts c then
      bytes_of_string "-ERR value is not an integer or out of range" ++ [13; 10] else [])).
Proof.
  intros Hk Hr Hid Ho Hv. unfold masterTryPartialResynchronization. rewrite Hid, Ho. sbind.
  unfold getLongLongFromObjectOrReply. rewrite Hv. cbn [default]. unfold addReplyError.
  destruct (addReplyErrorLength_spec zmalloc_size client_obuf_limits unixtime ae_ok zmalloc_bound k st c
    (bytes_of_string "value is not an integer or out of range")) as (st' & c' & Hrun & _ & _ & _ & _ & Hp & _);
    [done|done|by vm_compute|].
  change (default _ None) with "value is not an integer or out of range"%string. rewrite Hrun. sbind.
  exists st', c'. split; [done|]. rewrite Hp. by destruct (accepts c).
Qed.

(** ** Properties *)

(** C11 (refinement): any sequence of commands becomes one stream of requests (with the
    selection of the databases in front of them): the circular backlog has the last
    bytes of the stream and their offsets, and the output of each slave that is not
    waiting for a dump to start is followed by the same bytes, whatever the clients
    share; so a slave parses these commands. *)
Theorem replication_stream k cmds vals st s slaves stream
    (Hk : 0 <= k) (Hra : ready_all (k + feeds_cost (zlen slaves) cmds) st slaves) (Hsh : shared_ok shared st (merged slaves))
    (Hsel : select_ok st (merged slaves)) (Hc : cmds_ok st (merged slaves) cmds vals) (Hbl : backlog_ok s stream)
    (Hmax : master_repl_offset s + zlen (enc_all (requests_of (slaveseldb s) vals)) + 100 < 2 ^ 63) :
  exists st' s' slaves', feeds st s slaves cmds = Some (st', s', slaves') /\
    backlog_ok s' (stream ++ enc_all (requests_of (slaveseldb s) vals)) /\
    ready_all k st' slaves' /\ frame st (merged slaves) st' (merged slaves') /\
    Forall2 (fun c c' => takes c' = takes c /\ pending st' c' = pending st c ++
      (inl <$> if takes c then enc_all (requests_of (slaveseldb s) vals) else [])) slaves slaves'.
Proof.
  destruct (feeds_spec k cmds vals st s slaves stream) as (st' & s' & slaves' & Hrun & Hbl' & _ & Hra' & Hf & Hg); try done.
  exists st', s', slaves'. split; [done|]. split; [done|]. split; [done|]. split; [done|].
  eapply Forall2_impl; [exact Hg|]. intros c c' (_ & ? & ?). done.
Qed.

Lemma merged_rejoined slaves c : merged (slaves ++ [rejoined c]) = merged (slaves ++ [c]).
Proof. unfold merged. by rewrite !bind_app. Qed.

(** C12 (functional): a slave that asks for the stream from an offset is accepted
    exactly when the backlog still has all the bytes from there on (or would have
    them next); it then gets these bytes, and with the commands that follow the whole
    stream from this offset on, without a gap or a repetition; the other slaves only
    get the commands. *)
Theorem psync_resumes k cmds vals st s c slaves stream runid master_runid arg2 o v
    (Hk : 0 <= k) (Hra : ready_all (k + feeds_cost (zlen slaves + 1) cmds + 2) st (slaves ++ [c]))
    (Hb : bufpos c = 0) (Hre : reply c = []) (Hsh : shared_ok shared st (merged (slaves ++ [c])))
    (Hsel : select_ok st (merged (slaves ++ [c]))) (Hc : cmds_ok st (merged (slaves ++ [c])) cmds vals)
    (Hbl : backlog_ok s stream) (Hsize : repl_backlog_size s <= 536870912)
    (Hmax : master_repl_offset s + zlen (enc_all (requests_of (slaveseldb s) vals)) + 100 < 2 ^ 63)
    (Hid : strcasecmp_eq master_runid runid = true)
    (Ho : heap st !! arg2 = Some o) (Hv : getLongLongFromObject (Some (val o)) = Some v) :
  if (repl_backlog_off s <=? v) && (v <=? master_repl_offset s + 1)
  then exists st1 c1 st2 s2 slaves2 c2,
    psync_ true runid master_runid st s c slaves arg2 = Some (Continue st1 c1 (slaves ++ [c1])) /\
    feeds st1 s (slaves ++ [c1]) cmds = Some (st2, s2, slaves2 ++ [c2]) /\
    backlog_ok s2 (stream ++ enc_all (requests_of (slaveseldb s) vals)) /\
    pending st2 c2 = inl <$> (if accepts (rejoined c) then
      lastn (master_repl_offset s2 + 1 - v) (stream ++ enc_all (requests_of (slaveseldb s) vals)) else []) /\
    Forall2 (fun d d' => pending st2 d' = pending st d ++
      (inl <$> if takes d then enc_all (requests_of (slaveseldb s) vals) else [])) slaves slaves2
  else psync_ true runid master_runid st s c slaves arg2 = Some (NeedFullResync st c).
Proof.
  pose proof (zlen_nonneg slaves). pose proof (feeds_cost_nonneg (zlen slaves + 1) cmds ltac:(lia)).
  pose proof (psync_spec (k + feeds_cost (zlen slaves + 1) cmds) st s c slaves stream runid master_runid arg2 o v
    ltac:(lia) Hra Hb Hre Hbl Hsize Hid Ho Hv) as Hps.
  destruct ((repl_backlog_off s <=? v) && (v <=? master_repl_offset s + 1)) eqn:Hin; [|exact Hps]. zbool.
  destruct Hps as (st1 & c1 & Hrun & Hra1 & Hf1 & Ht1 & Hd1 & Hp1). rewrite merged_rejoined in Hf1.
  pose proof (frame_keeps _ _ _ _ Hf1) as Hk1.
  assert (zlen (slaves ++ [c1]) = zlen slaves + 1) as Hlen by (by rewrite zlen_app).
  destruct (feeds_spec k cmds vals st1 s (slaves ++ [c1]) stream) as (st2 & s2 & slaves' & Hrun2 & Hbl2 & Hmo2 & _ & _ & Hg2).
  - done.
  - by rewrite Hlen.
  - by apply (shared_keeps shared st (merged (slaves ++ [c]))).
  - by apply (select_keeps st (merged (slaves ++ [c]))).
  - by apply (cmds_keeps st (merged (slaves ++ [c]))).
  - done.
  - done.
  - fold (stream_of (slaveseldb s) vals) in *. set (new := stream_of (slaveseldb s) vals) in *.
    apply Forall2_app_inv_l in Hg2 as (slaves2 & l & Hg2 & Hl & ->). apply Forall2_cons_inv_l in Hl as (c2 & l' & (_ & _ & Hp2) & Hl & ->).
    apply Forall2_nil_inv_l in Hl as ->. exists st1, c1, st2, s2, slaves2, c2. split; [done|]. split; [done|]. split; [done|]. split.
    + rewrite Hp2, Hp1, Ht1, Hmo2. destruct (accepts (rejoined c)); [|done]. rewrite <- fmap_app. f_equal.
      pose proof (bl_stream _ _ Hbl). pose proof (bl_off _ _ Hbl). rewrite <- lastn_more by lia. f_equal. lia.
    + apply (Forall2_elem _ _ _ _ Hg2). intros d d' Hd _ (_ & _ & ->). by rewrite Hd1.
Qed.
End Facts.

(** ** Witnesses *)

Definition sample_backlog : replServer :=
  mk_repl (Some [5; 6; 7; 8; 1; 2; 3; 4]) 8 8 4 1230 1237 0.

Lemma sample_backlog_ok : backlog_ok sample_backlog [9; 0; 1; 2; 3; 4; 5; 6; 7; 8].
Proof.
  split; cbn; try lia; try (by vm_compute). eexists. split; [reflexivity|]. split; reflexivity.
Qed.

Definition sample_select : list loc := (fun i => Z.to_pos (20100 + i)) <$> seqZ 0 10.

Lemma sample_select_ok c : (forall x, occ (reply c) x <= 1) -> select_ok sample_select reply_store c.
Proof.
  intros Hc db Hdb. assert (forallb (fun i => bool_decide (getb sample_select i = Some (Z.to_pos (20100 + i)) /\
    (list_to_map reply_objects : gmap loc robj) !! Z.to_pos (20100 + i) =
      Some (mk_robj 5 (RAW (enc_request [SELECT; ll_repr i]) 0)))) (seqZ 0 10) = true) as Hall by (by vm_compute).
  rewrite forallb_forall in Hall. assert (In db (seqZ 0 10)) as Hin by (apply list_elem_of_In, elem_of_seqZ; unfold REDIS_SHARED_SELECT_CMDS in Hdb; lia).
  destruct (bool_decide_eq_true_1 _ (Hall db Hin)) as [H1 H2].
  exists (Z.to_pos (20100 + db)). split; [exact H1|]. apply reply_str_at; [exact Hc|lia|exact H2].
Qed.

Definition sample_cmds : list (Z * list loc) := [(0, [20001%positive]); (3, [20002%positive; 20001%positive])].
Definition sample_vals : list (Z * list (list Z)) := [(0, [reply_line 58 0]); (3, [reply_line 58 1; reply_line 58 0])].

Lemma sample_arg c p v :
  (forall x, occ (reply c) x <= 1) -> (20000 <= p)%positive ->
  (list_to_map reply_objects : gmap loc robj) !! p = Some (mk_robj 5 (RAW v 0)) ->
  str_at reply_store c p v /\ (forall o, heap reply_store !! p = Some o -> val o <> INT LONG_MIN).
Proof.
  intros Hc Hp Ho. split; [by apply reply_str_at|]. intros o Ho'. pose proof (reply_lookup p _ Hp Ho) as Ho2.
  rewrite Ho' in Ho2. injection Ho2 as ->. discriminate.
Qed.

Lemma sample_cmds_ok c : (forall x, occ (reply c) x <= 1) -> cmds_ok reply_store c sample_cmds sample_vals.
Proof.
  intros Hc. unfold sample_cmds, sample_vals, cmds_ok. repeat apply Forall2_cons_2; try apply Forall2_nil_2; cbn [fst snd].
  - split; [reflexivity|]. split; [vm_compute; split; discriminate|]. split; [vm_compute; discriminate|].
    apply Forall2_cons_2; [|apply Forall2_nil_2]. apply sample_arg; [exact Hc|lia|by vm_compute].
  - split; [reflexivity|]. split; [vm_compute; split; discriminate|]. split; [vm_compute; discriminate|].
    apply Forall2_cons_2; [|apply Forall2_cons_2; [|apply Forall2_nil_2]]; (apply sample_arg; [exact Hc|lia|by vm_compute]).
Qed.

Lemma busy_alone x : occ (reply (merged [busy_client])) x <= 1.
Proof. rewrite occ_merged_cons. pose proof (busy_occ x). cbn [merged reply mbind list_bind occ]. lia. Qed.

Lemma busy_idle x : occ (reply (merged ([busy_client] ++ [idle_client]))) x <= 1.
Proof. rewrite occ_merged_app. pose proof (busy_alone x). change (occ (reply (merged [idle_client])) x) with 0. lia. Qed.

Lemma sample_ready_all k cs :
  0 <= k <= 1000 -> (forall c, c ∈ cs -> c = busy_client \/ c = idle_client) ->
  (forall x, occ (reply (merged cs)) x <= occ (reply busy_client) x) -> ready_all plain_zmalloc k reply_store cs.
Proof.
  intros Hk Hcs Hocc. destruct (busy_ready k Hk) as (Hst & Hok & _ & Hk' & Hm & _). split.
  - exact Hst.
  - exact Hk'.
  - exact Hm.
  - intros c [-> | ->]%Hcs; [exact (busy_ready k Hk)|exact (idle_ready k Hk)].
  - intros x. specialize (Hocc x). pose proof (ok_refs _ _ _ Hok x). lia.
Qed.

Lemma replication_stream_witness :
  exists st' s' c', feeds plain_zmalloc no_limits 0 true reply_shared sample_select reply_store sample_backlog [busy_client] sample_cmds
      = Some (st', s', [c']) /\
    backlog_ok s' ([9; 0; 1; 2; 3; 4; 5; 6; 7; 8] ++ enc_all [[reply_line 58 0]; [SELECT; [51]]; [reply_line 58 1; reply_line 58 0]]) /\
    pending st' c' = pending reply_store busy_client ++
      (inl <$> enc_all [[reply_line 58 0]; [SELECT; [51]]; [reply_line 58 1; reply_line 58 0]]).
Proof.
  destruct (replication_stream plain_zmalloc no_limits 0 true reply_shared sample_select plain_zmalloc_bound 0 sample_cmds sample_vals
    reply_store sample_backlog [busy_client] [9; 0; 1; 2; 3; 4; 5; 6; 7; 8]) as (st' & s' & slaves' & Hrun & Hbl & _ & _ & Hg);
    [lia| |exact (reply_shared_ok _ busy_alone)|exact (sample_select_ok _ busy_alone)|exact (sample_cmds_ok _ busy_alone)|exact sample_backlog_ok
    |by vm_compute|].
  - apply sample_ready_all; [vm_compute; split; discriminate|intros c Hc; apply list_elem_of_singleton in Hc; by left|].
    intros x. rewrite occ_merged_cons. cbn [merged reply mbind list_bind occ]. lia.
  - apply Forall2_cons_inv_l in Hg as (c' & l & (_ & Hp) & Hl & ->). apply Forall2_nil_inv_l in Hl as ->.
    exists st', s', c'. split; [exact Hrun|]. split; [exact Hbl|exact Hp].
Defined.

Lemma sample_1234 : heap reply_store !! (10001%positive : loc) = Some (mk_robj 1 (RAW (bytes_of_string "1234") 10)).
Proof. rewrite reply_heap. apply lookup_union_Some_l. apply sample_lookup. by left. Qed.

Lemma psync_resumes_witness :
  exists st1 c1 st2 s2 slaves2 c2,
    masterTryPartialResynchronization plain_zmalloc no_limits 0 true true [97] [65] reply_store sample_backlog idle_client [busy_client] 10001%positive
      = Some (Continue st1 c1 ([busy_client] ++ [c1])) /\
    feeds plain_zmalloc no_limits 0 true reply_shared sample_select st1 sample_backlog ([busy_client] ++ [c1]) sample_cmds
      = Some (st2, s2, slaves2 ++ [c2]) /\
    pending st2 c2 = inl <$> lastn (master_repl_offset s2 + 1 - 1234)
      ([9; 0; 1; 2; 3; 4; 5; 6; 7; 8] ++ enc_all [[reply_line 58 0]; [SELECT; [51]]; [reply_line 58 1; reply_line 58 0]]).
Proof.
  destruct (psync_resumes plain_zmalloc no_limits 0 true reply_shared sample_select plain_zmalloc_bound 0 sample_cmds sample_vals
    reply_store sample_backlog idle_client [busy_client] [9; 0; 1; 2; 3; 4; 5; 6; 7; 8] [97] [65] 10001%positive
    (mk_robj 1 (RAW (bytes_of_string "1234") 10)) 1234)
    as (st1 & c1 & st2 & s2 & slaves2 & c2 & H1 & H2 & _ & H4 & _);
    [lia| |reflexivity|reflexivity|exact (reply_shared_ok _ busy_idle)|exact (sample_select_ok _ busy_idle)|exact (sample_cmds_ok _ busy_idle)
    |exact sample_backlog_ok|by vm_compute|by vm_compute|by vm_compute|exact sample_1234|by vm_compute|].
  - apply sample_ready_all; [vm_compute; split; discriminate| |].
    + intros c [Hc|Hc]%elem_of_app; apply list_elem_of_singleton in Hc; auto.
    + intros x. rewrite occ_merged_app, occ_merged_cons. change (occ (reply (merged [idle_client])) x) with 0.
      cbn [merged reply mbind list_bind occ]. lia.
  - exists st1, c1, st2, s2, slaves2, c2. split; [exact H1|]. split; [exact H2|exact H4].
Defined.
