(* ===== verification/Pqsort.v ===== *)
(** * pqsort.c: partial quicksort

    The sort of SORT with a LIMIT: the quicksort of Bentley and McIlroy, which leaves
    out the parts of the array that are not between two positions.  The array is the
    list of its elements of [es] bytes, and a pointer into it the index of an element;
    the test of the range is on bytes as in the code.  Swapping by words or by bytes
    (the macro SWAPINIT) has the same effect, and the comparison, which may not change
    the array, is a parameter.  An access out of the array gives [None]. *)

From Stdlib Require Import ZArith Lia.
From stdpp Require Import base numbers list sorting.
From S2P Require Import Prelude.

Open Scope Z_scope.

Section Pqsort.
Context {A : Type} (cmp : A -> A -> Z) (es : Z).

Definition cmp_at (l : list A) (i j : nat) : option Z := x ← l !! i; y ← l !! j; Some (cmp x y).

Definition swap (l : list A) (i j : nat) : option (list A) :=
  t ← l !! i;
  u ← l !! j;
  Some (<[j := t]> (<[i := u]> l)).

(** [swapfunc] on [n] elements. *)
Fixpoint vecswap (l : list A) (a b n : nat) : option (list A) :=
  match n with
  | O => Some l
  | S n => l ← swap l a b; vecswap l (S a) (S b) n
  end.

Definition med3 (l : list A) (a b c : nat) : option nat :=
  ab ← cmp_at l a b;
  bc ← cmp_at l b c;
  ac ← cmp_at l a c;
  Some (if ab <? 0 then (if bc <? 0 then b else if ac <? 0 then c else a)
        else (if bc >? 0 then b else if ac <? 0 then a else c)).

(** The inner loop of the insertion sort; [pl] is [k] elements after [a]. *)
Fixpoint sift (l : list A) (a k : nat) : option (list A) :=
  match k with
  | O => Some l
  | S k' =>
      c ← cmp_at l (a + k') (a + k);
      if c >? 0 then l ← swap l (a + k) (a + k'); sift l a k' else Some l
  end.

(** The outer loop, for the [cnt] elements from [k] after [a]. *)
Fixpoint insertion (l : list A) (a k cnt : nat) : option (list A) :=
  match cnt with
  | O => Some l
  | S cnt => l ← sift l a k; insertion l a (S k) cnt
  end.

(** The first [while] of the partition. *)
Fixpoint scan_up (fuel : nat) (l : list A) (a pa pb pc : nat) : option (list A * nat * nat) :=
  if (pc <? pb)%nat then Some (l, pa, pb)
  else
    cmp_result ← cmp_at l pb a;
    if cmp_result <=? 0 then
      match fuel with
      | O => None
      | S fuel =>
          '(l, pa) ← (if cmp_result =? 0 then l ← swap l pa pb; Some (l, S pa) else Some (l, pa));
          scan_up fuel l a pa (S pb) pc
      end
    else Some (l, pa, pb).

(** The second one. *)
Fixpoint scan_down (fuel : nat) (l : list A) (a pb pc pd : nat) : option (list A * nat * nat) :=
  if (pc <? pb)%nat then Some (l, pc, pd)
  else
    cmp_result ← cmp_at l pc a;
    if cmp_result >=? 0 then
      match fuel with
      | O => None
      | S fuel =>
          '(l, pd) ← (if cmp_result =? 0 then l ← swap l pc pd; Some (l, (pd - 1)%nat) else Some (l, pd));
          scan_down fuel l a pb (pc - 1) pd
      end
    else Some (l, pc, pd).

Fixpoint partition (fuel : nat) (l : list A) (a pa pb pc pd : nat) : option (list A * nat * nat * nat * nat) :=
  '(l, pa, pb) ← scan_up (length l) l a pa pb pc;
  '(l, pc, pd) ← scan_down (length l) l a pb pc pd;
  if (pc <? pb)%nat then Some (l, pa, pb, pc, pd)
  else
    match fuel with
    | O => None
    | S fuel =>
        l ← swap l pb pc;
        partition fuel l a pa (S pb) (pc - 1) pd
    end.

(** The index of the pivot. *)
Definition pivot (l : list A) (a n : nat) : option nat :=
  let pm := (a + n / 2)%nat in
  if (7 <? n)%nat then
    let pl := a in
    let pn := (a + (n - 1))%nat in
    '(pl, pm, pn) ← (if (40 <? n)%nat then
        let d := (n / 8)%nat in
        pl ← med3 l pl (pl + d) (pl + 2 * d);
        pm ← med3 l (pm - d) pm (pm + d);
        pn ← med3 l (pn - 2 * d) (pn - d) pn;
        Some (pl, pm, pn)
      else Some (pl, pm, pn));
    med3 l pl pm pn
  else Some pm.

(** Whether the [r] elements from [a] on have a part in the range. *)
Definition in_range (a r : nat) (lrange rrange : Z) : bool :=
  let _l := Z.of_nat a * es in
  let _r := Z.of_nat a * es + Z.of_nat r * es - 1 in
  negb ((lrange <? _l) && (rrange <? _l) || (lrange >? _r) && (rrange >? _r)).

Fixpoint _pqsort (fuel : nat) (l : list A) (a n : nat) (lrange rrange : Z) : option (list A) :=
  if (n <? 7)%nat then insertion l a 1 (n - 1)
  else
    match fuel with
    | O => None
    | S fuel =>
        pm ← pivot l a n;
        l ← swap l a pm;
        '(l, pa, pb, pc, pd) ← partition n l a (S a) (S a) (a + (n - 1)) (a + (n - 1));
        let pn := (a + n)%nat in
        let r := Nat.min (pa - a) (pb - pa) in
        l ← vecswap l a (pb - r) r;
        let r := Nat.min (pd - pc) (pn - pd - 1) in
        l ← vecswap l pb (pn - r) r;
        let r := (pb - pa)%nat in
        l ← (if (1 <? r)%nat && in_range a r lrange rrange then _pqsort fuel l a r lrange rrange else Some l);
        let r := (pd - pc)%nat in
        if (1 <? r)%nat && in_range (pn - r) r lrange rrange then _pqsort fuel l (pn - r) r lrange rrange else Some l
    end.

(** [lrange] and [rrange] are indices here. *)
Definition pqsort (l : list A) (lrange rrange : Z) : option (list A) :=
  _pqsort (length l) l 0 (length l) (lrange * es) ((rrange + 1) * es - 1).

End Pqsort.

(** ** Lemmas: swaps *)

(** Puts a list of parts in normal form. *)
Ltac parts := cbn [app]; repeat (rewrite <- !app_assoc; cbn [app]); try done.

Section Facts.
Context {A : Type}.
Implicit Types (l u m w x y : list A).

Lemma lookup_at u (t : A) w i : i = length u -> (u ++ t :: w) !! i = Some t.
Proof. intros ->. by apply list_lookup_middle. Qed.

Lemma swap_same l i t : l !! i = Some t -> swap l i i = Some l.
Proof. intros Hi. unfold swap. rewrite Hi. sbind. by rewrite list_insert_insert_eq, list_insert_id. Qed.

Lemma swap_split u (s t : A) m w i j :
  i = length u -> j = (length u + 1 + length m)%nat ->
  swap (u ++ s :: m ++ t :: w) i j = Some (u ++ t :: m ++ s :: w) /\ swap (u ++ s :: m ++ t :: w) j i = Some (u ++ t :: m ++ s :: w).
Proof.
  intros -> ->. unfold swap.
  assert (u ++ s :: m ++ t :: w = (u ++ s :: m) ++ t :: w) as Heq by parts.
  assert (forall z, length (u ++ z :: m) = (length u + 1 + length m)%nat) as Hl by (intros z; rewrite length_app; cbn; lia).
  rewrite (lookup_at u s (m ++ t :: w) (length u)) by done. assert ((u ++ s :: m ++ t :: w) !! (length u + 1 + length m)%nat = Some t) as ->.
  { rewrite Heq. apply lookup_at. by rewrite Hl. }
  sbind.
  assert (forall z, <[length u := z]> (u ++ s :: m ++ t :: w) = u ++ z :: m ++ t :: w) as I1
    by (intros z; rewrite insert_app_r_alt by lia; by rewrite Nat.sub_diag).
  assert (forall q z, <[(length u + 1 + length m)%nat := z]> (u ++ q :: m ++ t :: w) = u ++ q :: m ++ z :: w) as I2.
  { intros q z. rewrite insert_app_r_alt by lia. replace (length u + 1 + length m - length u)%nat with (S (length m)) by lia.
    change (<[S (length m) := z]> (q :: m ++ t :: w)) with (q :: <[length m := z]> (m ++ t :: w)).
    rewrite insert_app_r_alt by lia. by rewrite Nat.sub_diag. }
  split; f_equal.
  - by rewrite I1, I2.
  - rewrite I2. rewrite insert_app_r_alt by lia. by rewrite Nat.sub_diag.
Qed.

Lemma vecswap_split x : forall u m y w i j,
  length x = length y -> i = length u -> j = (length u + length x + length m)%nat ->
  vecswap (u ++ x ++ m ++ y ++ w) i j (length x) = Some (u ++ y ++ m ++ x ++ w).
Proof.
  induction x as [|s x IH]; intros u m y w i j Hl -> ->; destruct y as [|t y]; try discriminate Hl; [done|].
  cbn [vecswap length]. cbn in Hl. cbn [app].
  assert (u ++ s :: x ++ m ++ t :: y ++ w = u ++ s :: (x ++ m) ++ t :: (y ++ w)) as -> by parts.
  destruct (swap_split u s t (x ++ m) (y ++ w) (length u) (length u + S (length x) + length m)) as [-> _];
    [done|rewrite length_app; lia|]. sbind.
  assert (u ++ t :: (x ++ m) ++ s :: y ++ w = (u ++ [t]) ++ x ++ (m ++ [s]) ++ y ++ w) as ->
    by parts.
  rewrite IH by (rewrite ?length_app; cbn; lia). by rewrite <- !app_assoc.
Qed.

(** Two neighbours exchange as many elements as the shorter one has. *)
Lemma vecswap_parts u x y w r j :
  r = Nat.min (length x) (length y) -> j = (length u + length x + length y - r)%nat ->
  exists y' x', vecswap (u ++ x ++ y ++ w) (length u) j r = Some (u ++ y' ++ x' ++ w) /\ x' ≡ₚ x /\ y' ≡ₚ y.
Proof.
  intros Hr ->. destruct (decide (length x <= length y)%nat) as [Hle|Hgt].
  - assert (r = length x) as -> by lia. rewrite <- (take_drop (length y - length x) y).
    set (y1 := take _ y). set (y2 := drop _ y). assert (length y2 = length x) as H2 by (subst y2; rewrite length_drop; lia).
    exists (y2 ++ y1), x. rewrite <- !app_assoc. rewrite (vecswap_split x u y1 y2 w); [|done|done|rewrite length_app; lia].
    split; [done|]. split; [done|]. by rewrite (Permutation_app_comm y2).
  - assert (r = length y) as -> by lia. rewrite <- (take_drop (length y) x).
    set (x1 := take _ x). set (x2 := drop _ x). assert (length x1 = length y) as H1 by (subst x1; rewrite length_take; lia).
    exists y, (x2 ++ x1). rewrite <- H1. rewrite <- !app_assoc.
    rewrite (vecswap_split x1 u x2 y w); [|done|done|rewrite length_app; lia].
    split; [done|]. split; [|done]. by rewrite (Permutation_app_comm x2).
Qed.

End Facts.

(** ** Specification *)

(** A comparison function of a total preorder. *)
Class CmpOrder {A : Type} (cmp : A -> A -> Z) : Prop := {
  cmp_refl x : cmp x x = 0;
  cmp_flip x y : cmp x y < 0 <-> 0 < cmp y x;
  cmp_trans x y z : cmp x y <= 0 -> cmp y z <= 0 -> cmp x z <= 0;
}.

(** The element at [i] is where it would be if the list was sorted. *)
Definition placed {A} (cmp : A -> A -> Z) (l : list A) (i : nat) : Prop :=
  exists b x e, l = b ++ x :: e /\ length b = i /\ Forall (fun y => cmp y x <= 0) b /\ Forall (fun y => cmp x y <= 0) e.

Section Sort.
Context {A : Type} (cmp : A -> A -> Z) `{!CmpOrder cmp} (es : Z).
Hypothesis es_pos : 0 < es.
Implicit Types (l u w : list A) (p x y : A).

Lemma cmp_total x y : 0 < cmp x y -> cmp y x <= 0.
Proof. intros H. apply cmp_flip in H. lia. Qed.

Lemma cmp_eq x y : cmp x y = 0 -> cmp y x = 0.
Proof.
  intros H. destruct (Z.lt_trichotomy (cmp y x) 0) as [Hl|[?|Hg]]; [|done|].
  - apply cmp_flip in Hl. lia.
  - apply cmp_flip in Hg. lia.
Qed.

(** ** Lemmas: the partition *)

Lemma cmp_at_split u x m y w i j :
  i = length u -> j = (length u + 1 + length m)%nat ->
  cmp_at cmp (u ++ x :: m ++ y :: w) i j = Some (cmp x y) /\ cmp_at cmp (u ++ x :: m ++ y :: w) j i = Some (cmp y x).
Proof.
  intros -> ->. unfold cmp_at. rewrite (lookup_at u x (m ++ y :: w) (length u)) by done.
  assert ((u ++ x :: m ++ y :: w) !! (length u + 1 + length m)%nat = Some y) as ->; [|done].
  assert (u ++ x :: m ++ y :: w = (u ++ x :: m) ++ y :: w) as -> by parts.
  apply lookup_at. rewrite length_app. cbn. lia.
Qed.

Definition same_as p x : Prop := cmp x p = 0.
Definition below p x : Prop := cmp x p < 0.
Definition above p x : Prop := 0 < cmp x p.

Lemma scan_up_spec u p w unk : forall e lt fuel pb pc,
  Forall (same_as p) e -> Forall (below p) lt ->
  pb = (length u + 1 + length e + length lt)%nat -> (pb + length unk = S pc)%nat -> (length unk <= fuel)%nat ->
  exists e' lt' unk', scan_up cmp fuel (u ++ p :: e ++ lt ++ unk ++ w) (length u) (length u + 1 + length e) pb pc
      = Some (u ++ p :: e' ++ lt' ++ unk' ++ w, (length u + 1 + length e')%nat, (length u + 1 + length e' + length lt')%nat) /\
    Forall (same_as p) e' /\ Forall (below p) lt' /\ e' ++ lt' ++ unk' ≡ₚ e ++ lt ++ unk /\
    (length e' + length lt' + length unk' = length e + length lt + length unk /\ length unk' <= length unk)%nat /\
    (unk' = [] \/ exists x r, unk' = x :: r /\ above p x).
Proof.
  induction unk as [|x unk IH]; intros e lt fuel pb pc He Hlt Hpb Hpc Hf.
  - exists e, lt, []. destruct fuel; cbn [scan_up]; rewrite (proj2 (Nat.ltb_lt _ _)) by (cbn in Hpc; lia); subst pb;
      (split; [done|]); (split; [done|]); (split; [done|]); (split; [done|]); (split; [done|]); by left.
  - cbn [length] in *. destruct fuel as [|fuel]; [lia|]. cbn [scan_up]. rewrite (proj2 (Nat.ltb_ge _ _)) by lia.
    assert (u ++ p :: e ++ lt ++ (x :: unk) ++ w = u ++ p :: (e ++ lt) ++ x :: unk ++ w) as Heq by parts.
    destruct (cmp_at_split u p (e ++ lt) x (unk ++ w) (length u) pb) as [_ Hc]; [done|rewrite length_app; lia|].
    rewrite Heq, Hc. sbind. destruct (Z.leb_spec (cmp x p) 0) as [Hle|Hgt].
    2: { exists e, lt, (x :: unk). rewrite <- Heq, Hpb. split; [done|]. split; [done|]. split; [done|]. split; [done|].
         split; [done|]. right. by exists x, unk. }
    destruct (Z.eqb_spec (cmp x p) 0) as [H0|H0].
    + assert (exists lt', swap (u ++ p :: (e ++ lt) ++ x :: unk ++ w) (length u + 1 + length e) pb
        = Some (u ++ p :: (e ++ [x]) ++ lt' ++ unk ++ w) /\ lt' ≡ₚ lt /\ length lt' = length lt) as (lt' & -> & Hperm & Hl).
      { destruct lt as [|y lt].
        - exists []. rewrite app_nil_r. cbn [app]. assert (pb = length u + 1 + length e)%nat as -> by (cbn in Hpb; lia).
          rewrite (swap_same _ _ x); [split; [|done]; by parts|].
          change (p :: e ++ x :: unk ++ w) with ((p :: e) ++ x :: unk ++ w). rewrite app_assoc. apply lookup_at. rewrite length_app. cbn. lia.
        - exists (lt ++ [y]). cbn [length] in Hpb.
          assert (u ++ p :: (e ++ y :: lt) ++ x :: unk ++ w = (u ++ p :: e) ++ y :: lt ++ x :: unk ++ w) as -> by parts.
          destruct (swap_split (u ++ p :: e) y x lt (unk ++ w) (length u + 1 + length e) pb) as [-> _]; [rewrite length_app; cbn; lia|rewrite length_app; cbn; lia|].
          split; [by parts|]. split; [by rewrite <- Permutation_cons_append|rewrite length_app; cbn; lia]. }
      sbind. destruct (IH (e ++ [x]) lt' fuel (S pb) pc) as (e2 & lt2 & unk2 & Hrun & He2 & Hlt2 & Hp2 & Hl2 & Hend).
      * apply Forall_app. by split; [|apply Forall_singleton].
      * by rewrite Hperm.
      * rewrite length_app. cbn. lia.
      * lia.
      * lia.
      * exists e2, lt2, unk2. replace (S (length u + 1 + length e)) with (length u + 1 + length (e ++ [x]))%nat by (rewrite length_app; cbn; lia).
        rewrite Hrun. split; [done|]. split; [done|]. split; [done|]. split.
        { rewrite Hp2, Hperm, <- app_assoc. cbn [app]. apply Permutation_app_head. by rewrite Permutation_middle. }
        split; [rewrite ?length_app in Hl2; cbn in *; lia|done].
    + sbind. assert (u ++ p :: (e ++ lt) ++ x :: unk ++ w = u ++ p :: e ++ (lt ++ [x]) ++ unk ++ w) as -> by parts.
      destruct (IH e (lt ++ [x]) fuel (S pb) pc) as (e2 & lt2 & unk2 & Hrun & He2 & Hlt2 & Hp2 & Hl2 & Hend).
      * done.
      * apply Forall_app. split; [done|]. apply Forall_singleton. unfold below. lia.
      * rewrite length_app. cbn. lia.
      * lia.
      * lia.
      * exists e2, lt2, unk2. rewrite Hrun. split; [done|]. split; [done|]. split; [done|]. split; [by rewrite Hp2, <- app_assoc|].
        split; [rewrite ?length_app in Hl2; cbn in *; lia|done].
Qed.

Lemma scan_down_spec u p f w unk : forall gt e fuel pb pc pd,
  Forall (same_as p) e -> Forall (above p) gt ->
  pb = (length u + 1 + length f)%nat -> (pb + length unk = S pc)%nat -> (pb + length unk + length gt = S pd)%nat ->
  (length unk <= fuel)%nat ->
  exists unk' gt' e' pc' pd', scan_down cmp fuel (u ++ p :: f ++ unk ++ gt ++ e ++ w) (length u) pb pc pd
      = Some (u ++ p :: f ++ unk' ++ gt' ++ e' ++ w, pc', pd') /\
    (pb + length unk' = S pc')%nat /\ (pb + length unk' + length gt' = S pd')%nat /\
    Forall (same_as p) e' /\ Forall (above p) gt' /\ unk' ++ gt' ++ e' ≡ₚ unk ++ gt ++ e /\ unk' `prefix_of` unk /\
    (unk' = [] \/ exists x r, unk' = r ++ [x] /\ below p x).
Proof.
  induction unk as [|x unk IH] using rev_ind; intros gt e fuel pb pc pd He Hgt Hpb Hpc Hpd Hf.
  - exists [], gt, e, pc, pd. cbn [length] in *. destruct fuel; cbn [scan_down]; rewrite (proj2 (Nat.ltb_lt _ _)) by lia;
      (split; [done|]); (split; [cbn; lia|]); (split; [cbn; lia|]); (split; [done|]); (split; [done|]); (split; [done|]); (split; [done|]); by left.
  - rewrite length_app in *. cbn [length] in *. destruct fuel as [|fuel]; [lia|]. cbn [scan_down]. rewrite (proj2 (Nat.ltb_ge _ _)) by lia.
    assert (u ++ p :: f ++ (unk ++ [x]) ++ gt ++ e ++ w = u ++ p :: (f ++ unk) ++ x :: gt ++ e ++ w) as Heq by parts.
    destruct (cmp_at_split u p (f ++ unk) x (gt ++ e ++ w) (length u) pc) as [_ Hc]; [done|rewrite length_app; lia|].
    rewrite Heq, Hc. sbind. rewrite Z.geb_leb. destruct (Z.leb_spec 0 (cmp x p)) as [Hge|Hlt].
    2: { exists (unk ++ [x]), gt, e, pc, pd. rewrite <- Heq, length_app. cbn [length]. split; [done|]. split; [lia|]. split; [lia|].
         split; [done|]. split; [done|]. split; [done|]. split; [done|]. right. by exists x, unk. }
    destruct (Z.eqb_spec (cmp x p) 0) as [H0|H0].
    + assert (exists gt', swap (u ++ p :: (f ++ unk) ++ x :: gt ++ e ++ w) pc pd
        = Some (u ++ p :: f ++ unk ++ gt' ++ (x :: e) ++ w) /\ gt' ≡ₚ gt /\ length gt' = length gt) as (gt' & -> & Hperm & Hl).
      { destruct gt as [|y gt _] using rev_ind.
        - exists []. cbn [app length] in *. assert (pd = pc) as -> by lia.
          rewrite (swap_same _ _ x); [split; [|done]; by parts|].
          change (p :: (f ++ unk) ++ x :: e ++ w) with ((p :: f ++ unk) ++ x :: e ++ w). rewrite app_assoc. apply lookup_at.
          rewrite !length_app. cbn. rewrite length_app. lia.
        - exists (y :: gt). rewrite length_app in Hpd. cbn [length] in Hpd.
          assert (u ++ p :: (f ++ unk) ++ x :: (gt ++ [y]) ++ e ++ w = (u ++ p :: f ++ unk) ++ x :: gt ++ y :: e ++ w) as -> by parts.
          destruct (swap_split (u ++ p :: f ++ unk) x y gt (e ++ w) pc pd) as [-> _]; [rewrite !length_app; cbn; rewrite length_app; lia..|].
          split; [by parts|]. split; [by rewrite <- Permutation_cons_append|rewrite length_app; cbn; lia]. }
      sbind. destruct (IH gt' (x :: e) fuel pb (pc - 1)%nat (pd - 1)%nat) as (unk2 & gt2 & e2 & pc2 & pd2 & Hrun & H1 & H2 & He2 & Hgt2 & Hp2 & Hpre & Hend).
      * by constructor.
      * by rewrite Hperm.
      * done.
      * lia.
      * lia.
      * lia.
      * exists unk2, gt2, e2, pc2, pd2. rewrite Hrun. split; [done|]. split; [done|]. split; [done|]. split; [done|]. split; [done|]. split.
        { rewrite Hp2, Hperm, <- app_assoc. cbn [app]. apply Permutation_app_head. by rewrite Permutation_middle. }
        split; [|done]. destruct Hpre as (k & ->). exists (k ++ [x]). by rewrite app_assoc.
    + sbind. assert (u ++ p :: (f ++ unk) ++ x :: gt ++ e ++ w = u ++ p :: f ++ unk ++ (x :: gt) ++ e ++ w) as -> by parts.
      destruct (IH (x :: gt) e fuel pb (pc - 1)%nat pd) as (unk2 & gt2 & e2 & pc2 & pd2 & Hrun & H1 & H2 & He2 & Hgt2 & Hp2 & Hpre & Hend).
      * done.
      * constructor; [|done]. unfold above. lia.
      * done.
      * lia.
      * cbn [length]. lia.
      * lia.
      * exists unk2, gt2, e2, pc2, pd2. rewrite Hrun. split; [done|]. split; [done|]. split; [done|]. split; [done|]. split; [done|].
        split; [by rewrite Hp2, <- app_assoc|]. split; [|done]. destruct Hpre as (k & ->). exists (k ++ [x]). by rewrite app_assoc.
Qed.

(** The result of the partition around [p]. *)
Lemma partition_spec u p w fuel : forall e lt unk gt e2 pb pc pd,
  Forall (same_as p) e -> Forall (below p) lt -> Forall (above p) gt -> Forall (same_as p) e2 ->
  pb = (length u + 1 + length e + length lt)%nat -> (pb + length unk = S pc)%nat -> (pb + length unk + length gt = S pd)%nat ->
  (length unk <= fuel)%nat ->
  exists e' lt' gt' e2' pc' pd',
    partition cmp fuel (u ++ p :: e ++ lt ++ unk ++ gt ++ e2 ++ w) (length u) (length u + 1 + length e) pb pc pd
      = Some (u ++ p :: e' ++ lt' ++ gt' ++ e2' ++ w, (length u + 1 + length e')%nat, (length u + 1 + length e' + length lt')%nat, pc', pd') /\
    S pc' = (length u + 1 + length e' + length lt')%nat /\ (S pd' = S pc' + length gt')%nat /\
    Forall (same_as p) e' /\ Forall (below p) lt' /\ Forall (above p) gt' /\ Forall (same_as p) e2' /\
    e' ++ lt' ++ gt' ++ e2' ≡ₚ e ++ lt ++ unk ++ gt ++ e2.
Proof.
  induction fuel as [|fuel IH]; intros e lt unk gt e2 pb pc pd He Hlt Hgt He2 Hpb Hpc Hpd Hf; cbn [partition].
  all: destruct (scan_up_spec u p (gt ++ e2 ++ w) unk e lt (length (u ++ p :: e ++ lt ++ unk ++ gt ++ e2 ++ w)) pb pc)
    as (e' & lt' & unk' & -> & He' & Hlt' & Hp' & (Hl' & Hu') & Hend'); [done|done|done|done|rewrite !length_app; cbn; rewrite !length_app; lia|].
  all: sbind.
  all: assert (u ++ p :: e' ++ lt' ++ unk' ++ gt ++ e2 ++ w = u ++ p :: (e' ++ lt') ++ unk' ++ gt ++ e2 ++ w) as -> by parts.
  all: destruct (scan_down_spec u p (e' ++ lt') w unk' gt e2 (length (u ++ p :: (e' ++ lt') ++ unk' ++ gt ++ e2 ++ w))
    (length u + 1 + length e' + length lt') pc pd)
    as (unk2 & gt2 & e3 & pc2 & pd2 & -> & H1 & H2 & He3 & Hgt2 & Hp2 & Hpre & Hend2); [done|done|rewrite length_app; lia|lia|lia|rewrite !length_app; cbn; rewrite !length_app; lia|].
  all: sbind.
  all: assert (e' ++ lt' ++ unk2 ++ gt2 ++ e3 ≡ₚ e ++ lt ++ unk ++ gt ++ e2) as Hall
    by (rewrite Hp2; assert (e' ++ lt' ++ unk' ++ gt ++ e2 = (e' ++ lt' ++ unk') ++ gt ++ e2) as -> by parts; rewrite Hp'; by parts).
  all: destruct unk2 as [|x unk2].
  1, 3: rewrite (proj2 (Nat.ltb_lt _ _)) by (cbn in H1; lia); exists e', lt', gt2, e3, pc2, pd2; rewrite <- !app_assoc; cbn [app length] in *.
  1, 2: split; [done|]; split; [lia|]; split; [lia|]; done.
  - destruct Hpre as (k & Hk). rewrite Hk in Hu'. cbn in Hu'. lia.
  - destruct Hend2 as [?|(y & r & Hr & Hy)]; [done|].
    assert (above p x) as Hx.
    { destruct Hpre as (k & Hk). rewrite Hk in Hend'. destruct Hend' as [?|(x' & r' & [= <- <-] & ?)]; done. }
    destruct r as [|x' r]; [injection Hr as -> _; unfold above, below in *; lia|]. injection Hr as <- ->.
    cbn [length] in *. rewrite ?length_app in *. cbn [length] in *. rewrite (proj2 (Nat.ltb_ge _ _)) by lia.
    assert (u ++ p :: (e' ++ lt') ++ (x :: r ++ [y]) ++ gt2 ++ e3 ++ w = (u ++ p :: e' ++ lt') ++ x :: r ++ y :: gt2 ++ e3 ++ w) as -> by parts.
    destruct (swap_split (u ++ p :: e' ++ lt') x y r (gt2 ++ e3 ++ w) (length u + 1 + length e' + length lt') pc2) as [-> _];
      [rewrite length_app; cbn; rewrite length_app; lia|rewrite length_app; cbn; rewrite length_app; lia|]. sbind.
    assert ((u ++ p :: e' ++ lt') ++ y :: r ++ x :: gt2 ++ e3 ++ w = u ++ p :: e' ++ (lt' ++ [y]) ++ r ++ (x :: gt2) ++ e3 ++ w) as -> by parts.
    destruct (IH e' (lt' ++ [y]) r (x :: gt2) e3 (S (length u + 1 + length e' + length lt')) (pc2 - 1)%nat pd2)
      as (e4 & lt4 & gt4 & e5 & pc4 & pd4 & Hrun & H3 & H4 & A1 & A2 & A3 & A4 & Hp4).
    + done.
    + apply Forall_app. by split; [|apply Forall_singleton].
    + by constructor.
    + done.
    + rewrite length_app. cbn. lia.
    + lia.
    + cbn. lia.
    + destruct Hpre as (k & Hk). rewrite Hk in Hu'. cbn in Hu'. rewrite !length_app in Hu'. cbn in Hu'. lia.
    + exists e4, lt4, gt4, e5, pc4, pd4. rewrite Hrun. split; [done|]. split; [done|]. split; [done|].
      split; [done|]. split; [done|]. split; [done|]. split; [done|]. rewrite Hp4, <- Hall. apply Permutation_app_head.
      rewrite <- app_assoc. apply Permutation_app_head. cbn [app].
      solve_Permutation.
Qed.

(** ** Lemmas: the insertion sort *)

Abbreviation le := (fun x y => cmp x y <= 0).
Abbreviation placed := (placed cmp).

Lemma sift_spec u x s : forall t,
  exists s1 s2, sift cmp (u ++ s ++ x :: t) (length u) (length s) = Some (u ++ s1 ++ x :: s2 ++ t) /\ s = s1 ++ s2 /\
    Forall (fun y => 0 < cmp y x) s2 /\ (s1 = [] \/ exists s0 y, s1 = s0 ++ [y] /\ cmp y x <= 0).
Proof.
  induction s as [|y s IH] using rev_ind; intros t.
  - exists [], []. cbn. split; [done|]. split; [done|]. split; [done|]. by left.
  - rewrite length_app. cbn [length]. rewrite Nat.add_1_r. cbn [sift].
    assert (u ++ (s ++ [y]) ++ x :: t = (u ++ s) ++ y :: [] ++ x :: t) as -> by parts.
    destruct (cmp_at_split (u ++ s) y [] x t (length u + length s) (length u + S (length s))) as [-> _]; [by rewrite length_app|rewrite length_app; cbn; lia|].
    sbind. rewrite Z.gtb_ltb. destruct (Z.ltb_spec 0 (cmp y x)) as [Hgt|Hle].
    + destruct (swap_split (u ++ s) y x [] t (length u + length s) (length u + S (length s))) as [_ ->]; [by rewrite length_app|rewrite length_app; cbn; lia|].
      sbind. destruct (IH (y :: t)) as (s1 & s2 & Hrun & -> & H2 & H1). exists s1, (s2 ++ [y]).
      cbn [app]. rewrite <- app_assoc in *. rewrite <- app_assoc. rewrite Hrun. split; [by parts|]. split; [by rewrite app_assoc|].
      split; [apply Forall_app; by split; [|apply Forall_singleton]|done].
    + exists (s ++ [y]), []. split; [by parts|]. split; [by rewrite app_nil_r|]. split; [done|]. right. by exists s, y.
Qed.

Lemma sorted_insert s1 x s2 :
  StronglySorted le (s1 ++ s2) -> Forall (fun y => 0 < cmp y x) s2 -> (s1 = [] \/ exists s0 y, s1 = s0 ++ [y] /\ cmp y x <= 0) ->
  StronglySorted le (s1 ++ x :: s2).
Proof.
  intros Hs H2 H1. apply StronglySorted_app in Hs as (H12 & Hs1 & Hs2). apply StronglySorted_app. split; [|split; [done|]].
  - intros y z Hy [-> | Hz]%elem_of_cons; [|by apply H12]. destruct H1 as [-> | (s0 & v & -> & Hv)]; [by apply not_elem_of_nil in Hy|].
    apply elem_of_app in Hy as [Hy|Hy%list_elem_of_singleton]; [|by subst y]. apply StronglySorted_app in Hs1 as (H0 & _ & _).
    apply (cmp_trans y v x); [|done]. apply H0; [done|by left].
  - constructor; [done|]. eapply Forall_impl; [exact H2|]. intros y. apply cmp_total.
Qed.

Lemma insertion_spec u w rest : forall s,
  StronglySorted le s ->
  exists s', insertion cmp (u ++ s ++ rest ++ w) (length u) (length s) (length rest) = Some (u ++ s' ++ w) /\
    s' ≡ₚ s ++ rest /\ StronglySorted le s'.
Proof.
  induction rest as [|x rest IH]; intros s Hs; cbn [insertion length].
  - exists s. by rewrite app_nil_r.
  - cbn [app]. destruct (sift_spec u x s (rest ++ w)) as (s1 & s2 & -> & -> & H2 & H1). sbind.
    pose proof (sorted_insert s1 x s2 Hs H2 H1) as Hs'.
    assert (u ++ s1 ++ x :: s2 ++ rest ++ w = u ++ (s1 ++ x :: s2) ++ rest ++ w) as -> by parts.
    replace (S (length (s1 ++ s2))) with (length (s1 ++ x :: s2)) by (rewrite !length_app; cbn; lia).
    destruct (IH (s1 ++ x :: s2) Hs') as (s' & Hrun & Hp & Hs''). exists s'. split; [done|]. split; [|done]. rewrite Hp. solve_Permutation.
Qed.

Lemma sorted_placed l i : StronglySorted le l -> (i < length l)%nat -> placed l i.
Proof.
  intros Hs Hi. destruct (lookup_lt_is_Some_2 l i Hi) as (x & Hx). exists (take i l), x, (drop (S i) l).
  rewrite take_drop_middle by done. split; [done|]. split; [rewrite length_take; lia|].
  rewrite <- (take_drop_middle l i x Hx) in Hs. apply StronglySorted_app in Hs as (H1 & _ & H2).
  split; [apply Forall_forall; intros y Hy; apply H1; [done|by left]|]. by apply StronglySorted_inv in H2 as [_ ?].
Qed.

(** ** Lemmas: positions *)

Lemma placed_l l r i : placed l i -> (forall x y, x ∈ l -> y ∈ r -> le x y) -> placed (l ++ r) i.
Proof.
  intros (b & x & e & -> & Hi & Hb & He) Hr. exists b, x, (e ++ r). split; [by parts|]. split; [done|]. split; [done|].
  apply Forall_app. split; [done|]. apply Forall_forall. intros y Hy. apply Hr; [|done]. apply elem_of_app. right. by left.
Qed.

Lemma placed_r l r i : placed r i -> (forall x y, x ∈ l -> y ∈ r -> le x y) -> placed (l ++ r) (length l + i).
Proof.
  intros (b & x & e & -> & Hi & Hb & He) Hr. exists (l ++ b), x, e. split; [by parts|]. split; [rewrite length_app; lia|]. split; [|done].
  apply Forall_app. split; [|done]. apply Forall_forall. intros y Hy. apply Hr; [done|]. apply elem_of_app. right. by left.
Qed.

Lemma placed_same p l i : Forall (same_as p) l -> (i < length l)%nat -> placed l i.
Proof.
  intros Hl Hi. apply sorted_placed; [|done]. clear i Hi. induction Hl as [|x l Hx Hl IH]; constructor; [done|].
  eapply Forall_impl; [exact Hl|]. intros y Hy. unfold same_as in *. apply cmp_eq in Hy. apply (cmp_trans x p y); lia.
Qed.

(** ** Lemmas: the sort *)

Lemma med3_one l a b c (P : nat -> Prop) :
  (a < length l)%nat -> (b < length l)%nat -> (c < length l)%nat -> P a -> P b -> P c -> exists m, med3 cmp l a b c = Some m /\ P m.
Proof.
  intros Ha Hb Hc Pa Pb Pc. unfold med3, cmp_at. apply lookup_lt_is_Some_2 in Ha as (x & ->), Hb as (y & ->), Hc as (z & ->). sbind.
  repeat case_match; by eexists.
Qed.

Lemma pivot_spec u seg w :
  (7 <= length seg)%nat -> exists j, pivot cmp (u ++ seg ++ w) (length u) (length seg) = Some (length u + j)%nat /\ (j < length seg)%nat.
Proof.
  intros Hn. set (n := length seg) in *. set (l := u ++ seg ++ w).
  assert (length l = length u + n + length w)%nat as Hl by (subst l; rewrite !length_app; lia).
  set (P := fun m => (length u <= m < length u + n)%nat).
  assert (exists m, pivot cmp l (length u) n = Some m /\ P m) as (m & -> & Hm).
  { unfold pivot. assert (n / 2 < n /\ n / 8 * 8 <= n /\ n / 2 * 2 <= n < n / 2 * 2 + 2)%nat as (H2 & H8 & H3).
    { split; [apply Nat.div_lt; lia|]. split; [pose proof (Nat.Div0.mul_div_le n 8); lia|].
      pose proof (Nat.div_mod n 2 ltac:(lia)). pose proof (Nat.mod_upper_bound n 2 ltac:(lia)). lia. }
    destruct (Nat.ltb_spec 7 n) as [H7|H7]; [|eexists; split; [done|]; unfold P; lia].
    destruct (Nat.ltb_spec 40 n) as [H40|H40].
    - destruct (med3_one l (length u) (length u + n / 8) (length u + 2 * (n / 8)) P) as (pl & -> & Pl); [unfold P; lia..|]. sbind.
      destruct (med3_one l (length u + n / 2 - n / 8) (length u + n / 2) (length u + n / 2 + n / 8) P) as (pm & -> & Pm); [unfold P; lia..|]. sbind.
      destruct (med3_one l (length u + (n - 1) - 2 * (n / 8)) (length u + (n - 1) - n / 8) (length u + (n - 1)) P) as (pn & -> & Pn); [unfold P; lia..|]. sbind.
      apply med3_one; unfold P in *; lia.
    - sbind. apply med3_one; unfold P; lia. }
  exists (m - length u)%nat. unfold P in Hm. split; [f_equal; lia|lia].
Qed.

Lemma swap_first u seg w j :
  (j < length seg)%nat -> exists p rest, swap (u ++ seg ++ w) (length u) (length u + j) = Some (u ++ p :: rest ++ w) /\ p :: rest ≡ₚ seg.
Proof.
  intros Hj. destruct seg as [|x seg]; [cbn in Hj; lia|]. destruct j as [|j].
  - exists x, seg. rewrite Nat.add_0_r. split; [|done]. apply (swap_same _ _ x). by apply lookup_at.
  - cbn in Hj. destruct (lookup_lt_is_Some_2 seg j) as (y & Hy); [lia|]. rewrite <- (take_drop_middle seg j y Hy).
    set (m := take j seg). set (e := drop (S j) seg). exists y, (m ++ x :: e).
    assert (length m = j) as Hm by (subst m; rewrite length_take; lia).
    destruct (swap_split u x y m (e ++ w) (length u) (length u + S j)) as [Hs _]; [done|lia|].
    split; [|solve_Permutation]. assert (u ++ (x :: m ++ y :: e) ++ w = u ++ x :: m ++ y :: e ++ w) as -> by parts.
    rewrite Hs. by parts.
Qed.

Lemma in_range_false (a r : nat) (L R : Z) :
  in_range es a r (L * es) ((R + 1) * es - 1) = false ->
  forall i, (i < r)%nat -> ~ (L <= Z.of_nat (a + i) <= R).
Proof.
  unfold in_range. intros H i Hi HLR. apply negb_false_iff, orb_true_iff in H as [[H1 H2]%andb_true_iff | [H1 H2]%andb_true_iff].
  - apply Z.ltb_lt in H1, H2. assert (R + 1 <= Z.of_nat a); [|lia].
    apply Z.lt_succ_r. apply (Z.mul_lt_mono_pos_r es); [done|]. lia.
  - rewrite Z.gtb_ltb in H1, H2. apply Z.ltb_lt in H1, H2. assert (Z.of_nat a + Z.of_nat r <= L); [|lia].
    apply Z.lt_succ_r. apply (Z.mul_lt_mono_pos_r es); [done|]. lia.
Qed.

(** [res] is the array in which [seg], which [u] precedes, is sorted at the positions from [L] to [R]. *)
Definition sorts (L R : Z) u seg w (res : option (list A)) : Prop :=
  exists seg', res = Some (u ++ seg' ++ w) /\ seg' ≡ₚ seg /\
    forall i, (i < length seg)%nat -> L <= Z.of_nat (length u + i) <= R -> placed seg' i.

(** What the code does with a part: nothing if it is short or out of the range. *)
Lemma part_spec L R u seg w a r fuel :
  a = length u -> r = length seg ->
  sorts L R u seg w (_pqsort cmp es fuel (u ++ seg ++ w) (length u) (length seg) (L * es) ((R + 1) * es - 1)) ->
  sorts L R u seg w (if (1 <? r)%nat && in_range es a r (L * es) ((R + 1) * es - 1)
    then _pqsort cmp es fuel (u ++ seg ++ w) a r (L * es) ((R + 1) * es - 1) else Some (u ++ seg ++ w)).
Proof.
  intros -> -> H. destruct (Nat.ltb_spec 1 (length seg)) as [H1|H1]; cbn [andb].
  - destruct (in_range _ _ _ _ _) eqn:Hr; [done|]. exists seg. split; [done|]. split; [done|].
    intros i Hi HLR. by destruct (in_range_false _ _ _ _ Hr i Hi).
  - exists seg. split; [done|]. split; [done|]. intros i Hi _. apply sorted_placed; [|done].
    destruct seg as [|y [|z seg]]; [constructor|repeat constructor|cbn in H1; lia].
Qed.

Lemma placed_parts p lt eq gt i :
  Forall (below p) lt -> Forall (same_as p) eq -> Forall (above p) gt ->
  ((i < length lt)%nat -> placed lt i) ->
  ((length lt + length eq <= i < length lt + length eq + length gt)%nat -> placed gt (i - (length lt + length eq))) ->
  (i < length lt + length eq + length gt)%nat -> placed (lt ++ eq ++ gt) i.
Proof.
  intros Hlt Heq Hgt Pl Pg Hi. rewrite !Forall_forall in *. unfold below, same_as, above in *.
  assert (forall x y, x ∈ lt -> y ∈ eq ++ gt -> le x y) as Hl.
  { intros x y Hx Hy. apply (cmp_trans x p y); [specialize (Hlt _ Hx); lia|].
    apply elem_of_app in Hy as [Hy|Hy]; [apply Heq, cmp_eq in Hy; lia|by apply cmp_total, Hgt]. }
  assert (forall x y, x ∈ eq -> y ∈ gt -> le x y) as He.
  { intros x y Hx Hy. apply (cmp_trans x p y); [rewrite (Heq _ Hx); lia|by apply cmp_total, Hgt]. }
  destruct (decide (i < length lt)%nat) as [H1|H1]; [by apply placed_l; [apply Pl|]|].
  replace i with (length lt + (i - length lt))%nat by lia. apply placed_r; [|done].
  destruct (decide (i < length lt + length eq)%nat) as [H2|H2].
  - apply placed_l; [|done]. apply (placed_same p); [by apply Forall_forall|lia].
  - replace (i - length lt)%nat with (length eq + (i - (length lt + length eq)))%nat by lia. apply placed_r; [|done]. apply Pg. lia.
Qed.

Lemma _pqsort_spec L R fuel : forall u seg w,
  (length seg <= fuel)%nat ->
  sorts L R u seg w (_pqsort cmp es fuel (u ++ seg ++ w) (length u) (length seg) (L * es) ((R + 1) * es - 1)).
Proof.
  induction fuel as [|fuel IH]; intros u seg w Hf; cbn [_pqsort];
    destruct (Nat.ltb_spec (length seg) 7) as [H7|H7]; [|lia|..].
  1, 2: destruct seg as [|x seg]; [exists []; split; [done|]; split; [done|]; cbn; lia|];
    destruct (insertion_spec u w seg [x]) as (s' & Hrun & Hp & Hs); [repeat constructor|];
    exists s'; cbn [length app] in *; rewrite Nat.sub_succ, Nat.sub_0_r; (split; [done|]); (split; [done|]);
    intros i Hi _; apply sorted_placed; [done|]; apply Permutation_length in Hp; cbn in Hp; lia.
  destruct (pivot_spec u seg w H7) as (j & -> & Hj). sbind.
  destruct (swap_first u seg w j Hj) as (p & rest & -> & Hp). sbind.
  pose proof (Permutation_length Hp) as Hn. cbn [length] in Hn.
  destruct (partition_spec u p w (length seg) [] [] rest [] [] (length u + 1)%nat (length u + (length seg - 1))%nat (length u + (length seg - 1))%nat)
    as (e' & lt' & gt' & e2' & pc' & pd' & Hpart & Hpc & Hpd & He & Hlt & Hgt & He2 & Hperm); [done..|cbn; lia|cbn; lia|cbn; lia|lia|].
  cbn [app length] in Hpart, Hperm. rewrite Nat.add_0_r, Nat.add_1_r in Hpart. rewrite Hpart. sbind. clear Hpart.
  pose proof (Permutation_length Hperm) as Hn'. rewrite !length_app in Hn'. cbn in Hn'. rewrite app_nil_r in Hperm.
  replace (S (length u) + length e' + length lt' - (S (length u) + length e'))%nat with (length lt') by lia.
  replace (S (length u) + length e' - length u)%nat with (S (length e')) by lia.
  replace (pd' - pc')%nat with (length gt') by lia. replace (length u + length seg - pd' - 1)%nat with (length e2') by lia.
  edestruct (vecswap_parts u (p :: e') lt' (gt' ++ e2' ++ w)) as (lt1 & eq1 & Hv & Heq1 & Hlt1); [reflexivity|reflexivity|].
  cbn [app length] in Hv. replace (S (length u) + length e' + length lt')%nat with (length u + S (length e') + length lt')%nat by lia.
  rewrite Hv. sbind. clear Hv.
  edestruct (vecswap_parts (u ++ lt1 ++ eq1) gt' e2' w) as (eq2 & gt1 & Hv & Hgt1 & Heq2); [reflexivity|reflexivity|].
  pose proof (Permutation_length Heq1) as L1. pose proof (Permutation_length Hlt1) as L2.
  pose proof (Permutation_length Hgt1) as L3. pose proof (Permutation_length Heq2) as L4. cbn [length] in L1.
  rewrite <- !app_assoc, !length_app in Hv.
  replace (length u + S (length e') + length lt')%nat with (length u + (length lt1 + length eq1))%nat by lia.
  replace (length u + length seg - Nat.min (length gt') (length e2'))%nat with (length u + (length lt1 + length eq1) + length gt' + length e2' - Nat.min (length gt') (length e2'))%nat by lia.
  rewrite Hv. sbind. clear Hv.
  destruct (part_spec L R u lt1 (eq1 ++ eq2 ++ gt1 ++ w) (length u) (length lt') fuel) as (lt2 & -> & Plt & Hlt2); [done|done|apply IH; lia|].
  sbind. pose proof (Permutation_length Plt) as L5.
  destruct (part_spec L R (u ++ lt2 ++ eq1 ++ eq2) gt1 w (length u + length seg - length gt') (length gt') fuel) as (gt2 & Hrun & Pgt & Hgt2);
    [rewrite !length_app; lia|done|apply IH; lia|].
  rewrite <- !app_assoc in Hrun. rewrite Hrun.
  exists (lt2 ++ (eq1 ++ eq2) ++ gt2). rewrite <- !app_assoc. split; [done|]. split.
  - rewrite Plt, Pgt, <- Hp, Heq1, Heq2, Hgt1, Hlt1, <- Hperm. solve_Permutation.
  - intros i Hi HLR. rewrite !length_app in Hgt2. rewrite (app_assoc eq1). apply (placed_parts p).
    + by rewrite Plt, Hlt1.
    + rewrite Heq1, Heq2. apply Forall_app. split; [constructor; [apply cmp_refl|done]|done].
    + by rewrite Pgt, Hgt1.
    + intros H. rewrite L5 in H. by apply Hlt2.
    + rewrite length_app. intros H. apply Hgt2; lia.
    + rewrite length_app. pose proof (Permutation_length Pgt). lia.
Qed.
End Sort.

(** ** Lemmas: the sorted array *)

Section Rank.
Context {A : Type} (cmp : A -> A -> Z) `{!CmpOrder cmp}.
Implicit Types (l : list A) (x y z : A).

Lemma placed_between l i x j y :
  placed cmp l i -> l !! i = Some x -> l !! j = Some y -> ((j <= i)%nat -> cmp y x <= 0) /\ ((i <= j)%nat -> cmp x y <= 0).
Proof.
  intros (b & x' & e & -> & <- & Hb & He) Hx Hy. rewrite list_lookup_middle in Hx by done. injection Hx as ->.
  rewrite Forall_forall in Hb, He.
  apply lookup_app_Some in Hy as [Hy|[Hj Hy]].
  - pose proof (lookup_lt_Some _ _ _ Hy). split; [intros _|lia]. by eapply Hb, list_elem_of_lookup_2.
  - destruct (j - length b)%nat as [|k] eqn:Hk; cbn in Hy.
    + injection Hy as ->. rewrite cmp_refl. lia.
    + split; [lia|intros _]. by eapply He, list_elem_of_lookup_2.
Qed.

Lemma filter_count (P : A -> Prop) `{!forall x, Decision (P x)} l l' : l ≡ₚ l' -> length (filter P l) = length (filter P l').
Proof. intros Hp. apply Permutation_length. by rewrite Hp. Qed.

Lemma filter_rejects (P : A -> Prop) `{!forall x, Decision (P x)} l : Forall (fun x => ~ P x) l -> filter P l = [].
Proof. induction 1 as [|x l Hx _ IH]; [done|]. by rewrite filter_cons_False. Qed.

Lemma filter_accepts (P : A -> Prop) `{!forall x, Decision (P x)} l : Forall P l -> filter P l = l.
Proof. induction 1 as [|x l Hx _ IH]; [done|]. by rewrite filter_cons_True, IH. Qed.

Lemma filter_le (P : A -> Prop) `{!forall x, Decision (P x)} l : (length (filter P l) <= length l)%nat.
Proof. induction l as [|x l IH]; [done|]. rewrite filter_cons. case_decide; cbn; lia. Qed.

(** Two lists of the same elements agree at a position where both have the right one. *)
Lemma placed_unique l s i x z :
  l ≡ₚ s -> placed cmp l i -> placed cmp s i -> l !! i = Some x -> s !! i = Some z -> cmp x z = 0.
Proof.
  intros Hp (b & x' & e & -> & Hi & Hb & He) (b' & z' & e' & -> & Hi' & Hb' & He') Hx Hz.
  rewrite list_lookup_middle in Hx by done. rewrite list_lookup_middle in Hz by done. injection Hx as ->. injection Hz as ->.
  pose proof (Permutation_length Hp) as Hl. rewrite !length_app in Hl. cbn in Hl. rewrite Forall_forall in *.
  destruct (Z.lt_trichotomy (cmp x z) 0) as [H|[H|H]]; [exfalso|done|exfalso].
  - pose proof (filter_count (fun y => 0 < cmp y x) _ _ Hp) as Hc. rewrite !filter_app, !length_app in Hc.
    rewrite (filter_rejects _ b) in Hc by (apply Forall_forall; intros y Hy ?; specialize (Hb y Hy); lia).
    rewrite filter_cons_False in Hc by (rewrite cmp_refl; lia).
    rewrite filter_cons_True in Hc by (by apply cmp_flip).
    rewrite (filter_accepts _ e') in Hc.
    + pose proof (filter_le (fun y => 0 < cmp y x) e). cbn in Hc. lia.
    + apply Forall_forall. intros y Hy. apply cmp_flip. apply Z.nle_gt. intros Hle. specialize (He' y Hy).
      assert (cmp x y < 0 \/ cmp y x <= 0) as [?|Hy0] by (destruct (Z.lt_trichotomy (cmp x y) 0) as [?|[?|?]];
        [by left|right; by rewrite (cmp_eq cmp)|right; by apply (cmp_total cmp)]); [lia|].
      pose proof (cmp_trans _ _ _ He' Hy0). apply cmp_flip in H. lia.
  - pose proof (filter_count (fun y => cmp y x < 0) _ _ Hp) as Hc. rewrite !filter_app, !length_app in Hc.
    rewrite (filter_rejects _ (x :: e)) in Hc.
    2: { apply Forall_forall. intros y [-> | Hy]%elem_of_cons Hyx; [rewrite cmp_refl in Hyx; lia|]. specialize (He y Hy).
         apply cmp_flip in Hyx. lia. }
    rewrite filter_cons_True in Hc by (by apply cmp_flip).
    rewrite (filter_accepts _ b') in Hc.
    + pose proof (filter_le (fun y => cmp y x < 0) b). cbn in Hc. lia.
    + apply Forall_forall. intros y Hy. specialize (Hb' y Hy). apply Z.nle_gt. intros Hle.
      assert (cmp x y <= 0) as Hxy by (destruct (Z.eq_dec (cmp y x) 0); [by rewrite (cmp_eq cmp)|apply (cmp_total cmp); lia]).
      pose proof (cmp_trans _ _ _ Hxy Hb'). lia.
Qed.

End Rank.

(** ** Theorems *)

(** C14 (termination): [pqsort] returns, whatever pivots it picks: it permutes the array, and at
    every position from [lrange] to [rrange] puts the element that the array sorted as a whole
    has there: nothing before it is greater, nothing after it is less, and it compares equal to
    the element there of any sorted permutation of the array.  The comparison function is any
    that gives a total preorder, with elements that compare equal, and the array has any length. *)
Theorem pqsort_places {A : Type} (cmp : A -> A -> Z) (es : Z) (l : list A) (lrange rrange : Z) :
  CmpOrder cmp -> 0 < es ->
  exists l', pqsort cmp es l lrange rrange = Some l' /\ l' ≡ₚ l /\
    forall i x, lrange <= Z.of_nat i <= rrange -> l' !! i = Some x ->
      (forall j y, l' !! j = Some y -> ((j <= i)%nat -> cmp y x <= 0) /\ ((i <= j)%nat -> cmp x y <= 0)) /\
      (forall s z, s ≡ₚ l -> StronglySorted (fun x y => cmp x y <= 0) s -> s !! i = Some z -> cmp x z = 0).
Proof.
  intros Ho He. destruct (_pqsort_spec cmp es He lrange rrange (length l) [] l []) as (l' & Hrun & Hp & Hpl); [done|].
  rewrite !app_nil_r in Hrun. cbn [app length] in Hrun. exists l'. split; [exact Hrun|]. split; [done|]. intros i x Hi Hx.
  pose proof (lookup_lt_Some _ _ _ Hx) as Hlt. rewrite (Permutation_length Hp) in Hlt. specialize (Hpl i Hlt Hi).
  split; [intros j y; by apply placed_between|]. intros s z Hs Hsort Hz.
  apply (placed_unique cmp l' s i); [by rewrite Hs|done| |done|done]. apply sorted_placed; [done|by eapply lookup_lt_Some].
Qed.

(** ** Instances *)

#[export] Instance sub_order : CmpOrder Z.sub.
Proof. split; intros; lia. Qed.

Definition pqsort_array : list Z := [9; 3; 14; 1; 3; 12; 8; 0; 5; 3; 11; 2; 7; 3; 10].

Lemma pqsort_places_witness :
  pqsort Z.sub 8 pqsort_array 2 5 = Some [0; 1; 2; 3; 3; 3; 3; 8; 5; 7; 9; 11; 12; 14; 10] /\
  exists l', pqsort Z.sub 8 pqsort_array 2 5 = Some l' /\ l' ≡ₚ pqsort_array /\
    forall i x, 2 <= Z.of_nat i <= 5 -> l' !! i = Some x ->
      (forall j y, l' !! j = Some y -> ((j <= i)%nat -> y - x <= 0) /\ ((i <= j)%nat -> x - y <= 0)) /\
      (forall s z, s ≡ₚ pqsort_array -> StronglySorted (fun x y => x - y <= 0) s -> s !! i = Some z -> x - z = 0).
Proof.
  split; [vm_compute; reflexivity|].
  apply (pqsort_places Z.sub 8 pqsort_array 2 5); [exact sub_order|lia].
Defined.
