(* ===== verification/Server.v ===== *)
(** * redis.h, redis.c: the state that the commands work on

    The key spaces, the clients and the objects that they share, as one state, and the
    monad of the commands: a state and [None] where a command would crash (an access to
    a freed object, a failed assertion, a signed overflow).  Objects that are not
    strings are known by their type only.  Replies go to the output buffers of Reply.v.
    A call of a part of the server that is modelled on its own (the append only file, the
    slaves, the notifications) or not at all is recorded in [trace]. *)

From Stdlib Require Import ZArith Lia String.
From stdpp Require Import base numbers list gmap.
From S2P Require Import Prelude Util Object Reply.

Open Scope Z_scope.

Definition REDIS_MULTI : Z := Z.shiftl 1 3.
Definition REDIS_DIRTY_CAS : Z := Z.shiftl 1 5.
Definition REDIS_DIRTY_EXEC : Z := Z.shiftl 1 12.
Definition REDIS_FORCE_AOF : Z := Z.shiftl 1 14.
Definition REDIS_FORCE_REPL : Z := Z.shiftl 1 15.

Definition REDIS_STRING : Z := 0.
Definition REDIS_LIST : Z := 1.
Definition REDIS_SET : Z := 2.
Definition REDIS_ZSET : Z := 3.
Definition REDIS_HASH : Z := 4.

Definition REDIS_NOTIFY_GENERIC : Z := Z.shiftl 1 2.
Definition REDIS_NOTIFY_STRING : Z := Z.shiftl 1 3.
Definition REDIS_NOTIFY_EXPIRED : Z := Z.shiftl 1 8.

Definition REDIS_PROPAGATE_AOF : Z := 1.
Definition REDIS_PROPAGATE_REPL : Z := 2.

Definition REDIS_CMD_WRITE : Z := 1.
Definition REDIS_CMD_READONLY : Z := 2.
Definition REDIS_CMD_DENYOOM : Z := 4.
Definition REDIS_CMD_ADMIN : Z := 16.
Definition REDIS_CMD_SKIP_MONITOR : Z := 2048.

Definition UNIT_SECONDS : Z := 0.
Definition UNIT_MILLISECONDS : Z := 1.

(** ** Data *)

Abbreviation cid := positive.

(** The functions of the command table. *)
Inductive proc :=
  | PGet | PSet | PSetnx | PSetex | PPsetex | PAppend | PStrlen | PDel | PExists | PSetrange | PGetrange
  | PIncr | PDecr | PMget | PIncrby | PDecrby | PGetset | PMset | PMsetnx | PSelect | PMove | PRename
  | PRenamenx | PExpire | PExpireat | PPexpire | PPexpireat | PDbsize | PType | PMulti | PExec | PDiscard
  | PFlushdb | PTtl | PPttl | PPersist | PWatch | PUnwatch.

#[export] Instance command_eq_dec : EqDecision proc.
Proof. solve_decision. Defined.

(** A line of the command table. *)
Record redisCommand := mk_cmd { name : list Z; cmd_proc : proc; arity : Z; cmd_flags : Z }.

(** A value of the key space: a string object, or an object of another type. *)
Inductive valtype := TList | TSet | TZset | THash.
Inductive dbval := VString (p : loc) | VOther (type : valtype).

(** [watched_keys] has the object of the key and the clients. *)
Record redisDb := mk_db {
  dict : gmap (list Z) dbval;
  expires : gmap (list Z) Z;
  watched_keys : gmap (list Z) (loc * list cid);
}.

Record multiCmd := mk_multi { mc_cmd : option redisCommand; mc_argv : list loc }.

(** [rc] has the output buffers and the flags; [wkeys] is [watched_keys], databases and
    keys. *)
Record client := mk_cl {
  rc : redisClient;
  cdb : nat;
  argv : list loc;
  cmd : option redisCommand;
  mstate : list multiCmd;
  wkeys : list (nat * loc);
}.

(** What the commands tell to the other parts of the server. *)
Inductive event :=
  | ENotify (type : Z) (event : string) (key : list Z) (dbid : nat)
  | EFeedAof (dbid : nat) (argv : list (list Z))
  | EFeedSlaves (dbid : nat) (argv : list (list Z))
  | EFeedMonitors (dbid : nat) (argv : list (list Z))
  | EListReady (dbid : nat) (key : list Z)
  | ESlotAdd (key : list Z)
  | ESlotDel (key : list Z)
  | ESlotFlush.

(** [ticks] counts the readings of the clock. *)
Record server := mk_server {
  objs : store;
  dbs : list redisDb;
  clients : gmap cid client;
  dirty : Z;
  stat_keyspace_hits : Z;
  stat_keyspace_misses : Z;
  stat_expiredkeys : Z;
  ticks : nat;
  trace : list event;
}.

(** [shared] of redis.c: the objects that Reply.v uses, and others. *)
Record sharedReplies := mk_shared_replies {
  shared_base : sharedObjects;
  ok : loc; emptybulk : loc; nullmultibulk : loc; queued : loc; colon : loc;
  wrongtypeerr : loc; nokeyerr : loc; syntaxerr : loc; sameobjecterr : loc; outofrangeerr : loc;
  execaborterr : loc; del : loc;
}.

(** The allocator and the configuration; [mstime] is what the readings of the clock give. *)
Class Env := {
  zmalloc_size : Z -> Z;
  client_obuf_limits : Z -> clientBufferLimitsConfig;
  unixtime : Z;
  ae_ok : bool;
  strcoll : list Z -> list Z -> Z;
  shared : sharedReplies;
  mstime_at : nat -> Z;
  loading : bool;
  masterhost : bool;
  cluster_enabled : bool;
  aof_on : bool;
  has_monitors : bool;
}.

Definition set_objs (s : server) (st : store) : server :=
  mk_server st (dbs s) (clients s) (dirty s) (stat_keyspace_hits s) (stat_keyspace_misses s) (stat_expiredkeys s) (ticks s) (trace s).
Definition set_dbs (s : server) (l : list redisDb) : server :=
  mk_server (objs s) l (clients s) (dirty s) (stat_keyspace_hits s) (stat_keyspace_misses s) (stat_expiredkeys s) (ticks s) (trace s).
Definition set_clients (s : server) (m : gmap cid client) : server :=
  mk_server (objs s) (dbs s) m (dirty s) (stat_keyspace_hits s) (stat_keyspace_misses s) (stat_expiredkeys s) (ticks s) (trace s).
Definition set_dirty (s : server) (n : Z) : server :=
  mk_server (objs s) (dbs s) (clients s) n (stat_keyspace_hits s) (stat_keyspace_misses s) (stat_expiredkeys s) (ticks s) (trace s).
Definition set_stats (s : server) (h m e : Z) : server :=
  mk_server (objs s) (dbs s) (clients s) (dirty s) h m e (ticks s) (trace s).
Definition set_ticks (s : server) (n : nat) : server :=
  mk_server (objs s) (dbs s) (clients s) (dirty s) (stat_keyspace_hits s) (stat_keyspace_misses s) (stat_expiredkeys s) n (trace s).
Definition set_trace (s : server) (l : list event) : server :=
  mk_server (objs s) (dbs s) (clients s) (dirty s) (stat_keyspace_hits s) (stat_keyspace_misses s) (stat_expiredkeys s) (ticks s) l.

Definition set_dict (d : redisDb) (m : gmap (list Z) dbval) : redisDb := mk_db m (expires d) (watched_keys d).
Definition set_expires (d : redisDb) (m : gmap (list Z) Z) : redisDb := mk_db (dict d) m (watched_keys d).
Definition set_watched (d : redisDb) (m : gmap (list Z) (loc * list cid)) : redisDb := mk_db (dict d) (expires d) m.

Definition set_rc (cl : client) (r : redisClient) : client := mk_cl r (cdb cl) (argv cl) (cmd cl) (mstate cl) (wkeys cl).
Definition set_cdb (cl : client) (i : nat) : client := mk_cl (rc cl) i (argv cl) (cmd cl) (mstate cl) (wkeys cl).
Definition set_argv (cl : client) (l : list loc) : client := mk_cl (rc cl) (cdb cl) l (cmd cl) (mstate cl) (wkeys cl).
Definition set_cmd (cl : client) (m : option redisCommand) : client := mk_cl (rc cl) (cdb cl) (argv cl) m (mstate cl) (wkeys cl).
Definition set_mstate (cl : client) (l : list multiCmd) : client := mk_cl (rc cl) (cdb cl) (argv cl) (cmd cl) l (wkeys cl).
Definition set_wkeys (cl : client) (l : list (nat * loc)) : client := mk_cl (rc cl) (cdb cl) (argv cl) (cmd cl) (mstate cl) l.

(** [c->flags |= f] and [c->flags &= ~f]. *)
Definition or_flags (cl : client) (f : Z) : client := set_rc cl (set_flags (rc cl) (Z.lor (flags (rc cl)) f)).
Definition clear_flags (cl : client) (f : Z) : client := set_rc cl (set_flags (rc cl) (Z.land (flags (rc cl)) (Z.lnot f))).
(** [c->flags & f]. *)
Definition cl_has (cl : client) (f : Z) : bool := has (rc cl) f.

(** ** The monad *)

(** Programs on a state [S]. *)
Definition prog (S A : Type) : Type := S -> option (A * S).
Abbreviation M := (prog server).

#[export] Instance prog_ret S : MRet (prog S) := fun A a s => Some (a, s).
#[export] Instance prog_bind S : MBind (prog S) :=
  fun A B f m s => match m s with Some (a, s) => f a s | None => None end.

(** A crash. *)
Definition fail {S A} : prog S A := fun _ => None.
Definition opt {S A} (x : option A) : prog S A := fun s => match x with Some a => Some (a, s) | None => None end.
Definition assert {S} (b : bool) : prog S unit := if b then mret tt else fail.

(** A loop over the elements of a list. *)
Fixpoint each {S A} (l : list A) (f : A -> prog S unit) : prog S unit :=
  match l with [] => mret tt | x :: l => f x;; each l f end.

Definition the_client (c : cid) : M client := fun s => match clients s !! c with Some cl => Some (cl, s) | None => None end.
Definition put_client (c : cid) (cl : client) : M unit := fun s => Some (tt, set_clients s (<[c := cl]> (clients s))).
Definition the_db (i : nat) : M redisDb := fun s => match dbs s !! i with Some d => Some (d, s) | None => None end.
Definition put_db (i : nat) (d : redisDb) : M unit := fun s => Some (tt, set_dbs s (<[i := d]> (dbs s))).

Definition on_store {A} (f : store -> option (A * store)) : M A := fun s =>
  match f (objs s) with Some (a, st) => Some (a, set_objs s st) | None => None end.

Definition incr (p : loc) : M unit := on_store (fun st => st ← incrRefCount st p; Some (tt, st)).
Definition decr (p : loc) : M unit := on_store (fun st => st ← decrRefCount st p; Some (tt, st)).
(** The references of a value of the key space. *)
Definition incr_val (v : dbval) : M unit := match v with VString p => incr p | VOther _ => mret tt end.
Definition decr_val (v : dbval) : M unit := match v with VString p => decr p | VOther _ => mret tt end.

Definition val_of (p : loc) : M strval := on_store (fun st => o ← heap st !! p; Some (val o, st)).
(** The string at [o->ptr]. *)
Definition ptr (p : loc) : M (list Z) := v ← val_of p; opt (sds_of v).
Definition set_val (p : loc) (v : strval) : M unit :=
  on_store (fun st => o ← heap st !! p; Some (tt, set_heap st (<[p := mk_robj (refcount o) v]> (heap st)))).

(** [c->db], [c->argc] and [c->argv[j]]. *)
Definition c_db (c : cid) : M nat := cl ← the_client c; mret (cdb cl).
Definition argc (c : cid) : M Z := cl ← the_client c; mret (zlen (argv cl)).
Definition arg (c : cid) (j : nat) : M loc := cl ← the_client c; opt (argv cl !! j).
Definition put_arg (c : cid) (j : nat) (p : loc) : M unit :=
  cl ← the_client c; put_client c (set_argv cl (<[j := p]> (argv cl))).

Definition get_dirty : M Z := fun s => Some (dirty s, s).
Definition add_dirty (n : Z) : M unit := fun s => Some (tt, set_dirty s (dirty s + n)).
Definition tell (e : event) : M unit := fun s => Some (tt, set_trace s (trace s ++ [e])).

Section Env.
Context `{Env}.

Definition mstime : M Z := fun s => Some (mstime_at (ticks s), set_ticks s (S (ticks s))).

(** [c->argv[j] = tryObjectEncoding(c->argv[j])]. *)
Definition encode_arg (c : cid) (j : nat) : M unit :=
  p ← arg c j;
  q ← on_store (fun st => tryObjectEncoding st p);
  put_arg c j q.

(** The strings of the arguments. *)
Definition strings_of (st : store) (l : list loc) : option (list (list Z)) :=
  mapM (fun p => o ← heap st !! p; Some (value (val o))) l.
Definition arg_strings (l : list loc) : M (list (list Z)) := on_store (fun st => x ← strings_of st l; Some (x, st)).

(** ** Replies *)

Definition reply (f : store -> redisClient -> option (store * redisClient)) (c : cid) : M unit :=
  cl ← the_client c;
  r ← on_store (fun st => '(st, r) ← f st (rc cl); Some (r, st));
  put_client c (set_rc cl r).

Definition addReply (c : cid) (p : loc) : M unit :=
  reply (fun st r => Reply.addReply zmalloc_size client_obuf_limits unixtime ae_ok st r p) c.
Definition addReplyError (c : cid) (s : list Z) : M unit :=
  reply (fun st r => Reply.addReplyError zmalloc_size client_obuf_limits unixtime ae_ok st r s) c.
Definition addReplyErrorFormat (c : cid) (s : list Z) : M unit :=
  reply (fun st r => Reply.addReplyErrorFormat zmalloc_size client_obuf_limits unixtime ae_ok st r s) c.
Definition addReplyStatus (c : cid) (s : list Z) : M unit :=
  reply (fun st r => Reply.addReplyStatus zmalloc_size client_obuf_limits unixtime ae_ok st r s) c.
Definition addReplyLongLong (c : cid) (n : Z) : M unit :=
  reply (fun st r => Reply.addReplyLongLong zmalloc_size client_obuf_limits unixtime ae_ok (shared_base shared) st r n) c.
Definition addReplyMultiBulkLen (c : cid) (n : Z) : M unit :=
  reply (fun st r => Reply.addReplyMultiBulkLen zmalloc_size client_obuf_limits unixtime ae_ok (shared_base shared) st r n) c.
Definition addReplyBulk (c : cid) (p : loc) : M unit :=
  reply (fun st r => Reply.addReplyBulk zmalloc_size client_obuf_limits unixtime ae_ok (shared_base shared) st r p) c.
Definition addReplyBulkCBuffer (c : cid) (s : list Z) : M unit :=
  reply (fun st r => Reply.addReplyBulkCBuffer zmalloc_size client_obuf_limits unixtime ae_ok (shared_base shared) st r s) c.

(** [shared.czero] and others. *)
Abbreviation czero := (czero (shared_base shared)).
Abbreviation cone := (cone (shared_base shared)).
Abbreviation nullbulk := (nullbulk (shared_base shared)).

Definition type_num (t : valtype) : Z :=
  match t with TList => REDIS_LIST | TSet => REDIS_SET | TZset => REDIS_ZSET | THash => REDIS_HASH end.
Definition type_of (v : dbval) : Z := match v with VString _ => REDIS_STRING | VOther t => type_num t end.

(** [true] after a reply. *)
Definition checkType (c : cid) (v : dbval) (type : Z) : M bool :=
  if negb (type_of v =? type) then addReply c (wrongtypeerr shared);; mret true else mret false.

(** The string object of a value of that type. *)
Definition string_obj (v : dbval) : M loc := match v with VString p => mret p | VOther _ => fail end.

(** [None] after a reply; [o] is NULL or a string object. *)
Definition getLongLongFromObjectOrReply (c : cid) (o : option loc) (msg : option string) : M (option Z) :=
  v ← match o with Some p => v ← val_of p; mret (Some v) | None => mret None end;
  match Object.getLongLongFromObjectOrReply v msg with
  | inl n => mret (Some n)
  | inr e => addReplyError c (bytes_of_string e);; mret None
  end.

Definition getLongFromObjectOrReply (c : cid) (o : option loc) (msg : option string) : M (option Z) :=
  v ← match o with Some p => v ← val_of p; mret (Some v) | None => mret None end;
  match Object.getLongFromObjectOrReply v msg with
  | inl n => mret (Some n)
  | inr e => addReplyError c (bytes_of_string e);; mret None
  end.

(** ** Calls of the other parts *)

Definition notifyKeyspaceEvent (type : Z) (event : string) (key : loc) (dbid : nat) : M unit :=
  k ← ptr key; tell (ENotify type event k dbid).

Definition propagate (dbid : nat) (argv : list loc) (flags : Z) : M unit :=
  a ← arg_strings argv;
  (if aof_on && negb (Z.land flags REDIS_PROPAGATE_AOF =? 0) then tell (EFeedAof dbid a) else mret tt);;
  (if negb (Z.land flags REDIS_PROPAGATE_REPL =? 0) then tell (EFeedSlaves dbid a) else mret tt).

End Env.
