(* ===== verification/Watch.v ===== *)
(** * multi.c: WATCH

    Each database maps the watched keys to the clients that watch them, and each client
    has the list of the keys that it watches, so that a key that is modified marks
    its clients.  The database of a watched key is its number. *)

From Stdlib Require Import ZArith Lia String.
From stdpp Require Import base numbers list gmap.
From S2P Require Import Prelude Util Object Reply Server.

Open Scope Z_scope.

Section Env.
Context `{Env}.

(** [equalStringObjects] reads the objects only. *)
Definition equal_objects (a b : loc) : M bool :=
  on_store (fun st => b ← equalStringObjects strcoll st a b; Some (b, st)).

(** The search of [watchForKey]: is [key] in [l]? *)
Fixpoint already_watched (key : loc) (db : nat) (l : list (nat * loc)) : M bool :=
  match l with
  | [] => mret false
  | (wdb, wkey) :: l =>
      if (wdb =? db)%nat then
        same ← equal_objects key wkey;
        if (same : bool) then mret true else already_watched key db l
      else already_watched key db l
  end.

Definition watchForKey (c : cid) (key : loc) : M unit :=
  cl ← the_client c;
  seen ← already_watched key (cdb cl) (wkeys cl);
  if (seen : bool) then mret tt
  else
    d ← the_db (cdb cl);
    k ← ptr key;
    entry ← match watched_keys d !! k with
            | Some e => mret e
            | None => incr key;; mret (key, [])
            end;
    put_db (cdb cl) (set_watched d (<[k := (entry.1, entry.2 ++ [c])]> (watched_keys d)));;
    incr key;;
    put_client c (set_wkeys cl (wkeys cl ++ [(cdb cl, key)])).

(** [listDelNode(l, listSearchKey(l, c))]. *)
Fixpoint del_client (l : list cid) (c : cid) : option (list cid) :=
  match l with
  | [] => None
  | d :: l => if bool_decide (d = c) then Some l else l ← del_client l c; Some (d :: l)
  end.

(** The body of the loop of [unwatchAllKeys]. *)
Definition unwatch_key (c : cid) (wk : nat * loc) : M unit :=
  d ← the_db wk.1;
  k ← ptr wk.2;
  entry ← opt (watched_keys d !! k);
  l ← opt (del_client entry.2 c);
  match l with
  | [] => put_db wk.1 (set_watched d (delete k (watched_keys d)));; decr entry.1
  | _ => put_db wk.1 (set_watched d (<[k := (entry.1, l)]> (watched_keys d)))
  end;;
  cl ← the_client c;
  put_client c (set_wkeys cl (tail (wkeys cl)));;
  decr wk.2.

Definition unwatchAllKeys (c : cid) : M unit :=
  cl ← the_client c;
  each (wkeys cl) (unwatch_key c).

Definition touchWatchedKey (db : nat) (key : loc) : M unit :=
  d ← the_db db;
  k ← ptr key;
  match watched_keys d !! k with
  | None => mret tt
  | Some e => each e.2 (fun c => cl ← the_client c; put_client c (or_flags cl REDIS_DIRTY_CAS))
  end.

(** [dbid] is -1 for all the databases. *)
Definition touchWatchedKeysOnFlush (dbid : Z) : M unit := fun s =>
  each (map_to_list (clients s)).*1 (fun c =>
    cl ← the_client c;
    each (wkeys cl) (fun wk =>
      if (dbid =? -1) || (Z.of_nat wk.1 =? dbid) then
        d ← the_db wk.1;
        k ← ptr wk.2;
        match dict d !! k with
        | Some _ => cl ← the_client c; put_client c (or_flags cl REDIS_DIRTY_CAS)
        | None => mret tt
        end
      else mret tt)) s.

End Env.
