(* ===== verification/Db.v ===== *)
(** * db.c: the key space

    The operations on the key space, in which a value is found under the string of
    its key, the expires and the commands on keys of any type.  A command has the
    client that calls it as its argument. *)

From Stdlib Require Import ZArith Lia String.
From stdpp Require Import base numbers list gmap.
From S2P Require Import Prelude Util Object Reply Server Watch.

Open Scope Z_scope.

Section Env.
Context `{Env}.

Abbreviation czero := (czero (shared_base shared)).
Abbreviation cone := (cone (shared_base shared)).
Abbreviation nullbulk := (nullbulk (shared_base shared)).

Definition signalModifiedKey (db : nat) (key : loc) : M unit := touchWatchedKey db key.
Definition signalFlushedDb (dbid : Z) : M unit := touchWatchedKeysOnFlush dbid.

(** ** Expires *)

(** [true] when there was an expire. *)
Definition removeExpire (db : nat) (key : loc) : M bool :=
  d ← the_db db;
  k ← ptr key;
  assert (bool_decide (is_Some (dict d !! k)));;
  put_db db (set_expires d (delete k (expires d)));;
  mret (bool_decide (is_Some (expires d !! k))).

Definition setExpire (db : nat) (key : loc) (when : Z) : M unit :=
  d ← the_db db;
  k ← ptr key;
  assert (bool_decide (is_Some (dict d !! k)));;
  put_db db (set_expires d (<[k := when]> (expires d))).

Definition getExpire (db : nat) (key : loc) : M Z :=
  d ← the_db db;
  k ← ptr key;
  match expires d !! k with
  | None => mret (-1)
  | Some when => assert (bool_decide (is_Some (dict d !! k)));; mret when
  end.

Definition propagateExpire (db : nat) (key : loc) : M unit :=
  incr (del shared);;
  incr key;;
  a ← arg_strings [del shared; key];
  (if aof_on then tell (EFeedAof db a) else mret tt);;
  tell (EFeedSlaves db a);;
  decr (del shared);;
  decr key.

(** The entry of [expires] goes first; its key is that of the entry of [dict]. *)
Definition dbDelete (db : nat) (key : loc) : M bool :=
  d ← the_db db;
  k ← ptr key;
  let d := set_expires d (delete k (expires d)) in
  put_db db d;;
  match dict d !! k with
  | Some v =>
      put_db db (set_dict d (delete k (dict d)));;
      decr_val v;;
      (if cluster_enabled then tell (ESlotDel k) else mret tt);;
      mret true
  | None => mret false
  end.

Definition count_expired : M unit := fun s =>
  Some (tt, set_stats s (stat_keyspace_hits s) (stat_keyspace_misses s) (stat_expiredkeys s + 1)).

Definition expireIfNeeded (db : nat) (key : loc) : M bool :=
  when ← getExpire db key;
  if when <? 0 then mret false
  else if loading then mret false
  else
    now ← mstime;
    if masterhost then mret (now >? when)
    else if now <=? when then mret false
    else
      count_expired;;
      propagateExpire db key;;
      notifyKeyspaceEvent REDIS_NOTIFY_EXPIRED "expired" key db;;
      dbDelete db key.

(** ** Lookups and updates *)

Definition lookupKey (db : nat) (key : loc) : M (option dbval) :=
  d ← the_db db;
  k ← ptr key;
  mret (dict d !! k).

(** A hit or a miss. *)
Definition count_lookup (hit : bool) : M unit := fun s =>
  Some (tt, if hit then set_stats s (stat_keyspace_hits s + 1) (stat_keyspace_misses s) (stat_expiredkeys s)
            else set_stats s (stat_keyspace_hits s) (stat_keyspace_misses s + 1) (stat_expiredkeys s)).

Definition lookupKeyRead (db : nat) (key : loc) : M (option dbval) :=
  expireIfNeeded db key;;
  v ← lookupKey db key;
  count_lookup (bool_decide (is_Some v));;
  mret v.

Definition lookupKeyWrite (db : nat) (key : loc) : M (option dbval) :=
  expireIfNeeded db key;;
  lookupKey db key.

Definition lookupKeyReadOrReply (c : cid) (key reply : loc) : M (option dbval) :=
  db ← c_db c;
  o ← lookupKeyRead db key;
  (match o with None => addReply c reply | Some _ => mret tt end);;
  mret o.

Definition lookupKeyWriteOrReply (c : cid) (key reply : loc) : M (option dbval) :=
  db ← c_db c;
  o ← lookupKeyWrite db key;
  (match o with None => addReply c reply | Some _ => mret tt end);;
  mret o.

Definition dbAdd (db : nat) (key : loc) (v : dbval) : M unit :=
  d ← the_db db;
  k ← ptr key;
  assert (bool_decide (dict d !! k = None));;
  put_db db (set_dict d (<[k := v]> (dict d)));;
  (if type_of v =? REDIS_LIST then tell (EListReady db k) else mret tt);;
  (if cluster_enabled then tell (ESlotAdd k) else mret tt).

(** The new value is set before the old one is given up. *)
Definition dbOverwrite (db : nat) (key : loc) (v : dbval) : M unit :=
  d ← the_db db;
  k ← ptr key;
  match dict d !! k with
  | Some old => put_db db (set_dict d (<[k := v]> (dict d)));; decr_val old
  | None => fail
  end.

(** [val] is a string here. *)
Definition setKey (db : nat) (key val : loc) : M unit :=
  o ← lookupKeyWrite db key;
  (match o with
   | None => dbAdd db key (VString val)
   | Some _ => dbOverwrite db key (VString val)
   end);;
  incr val;;
  removeExpire db key;;
  signalModifiedKey db key.

Definition dbExists (db : nat) (key : loc) : M bool :=
  d ← the_db db;
  k ← ptr key;
  mret (bool_decide (is_Some (dict d !! k))).

Definition dbUnshareStringValue (db : nat) (key o : loc) : M loc :=
  r ← on_store (fun st => x ← heap st !! o; Some (x, st));
  if negb (refcount r =? 1) || negb (match val r with RAW _ _ => true | _ => false end) then
    decoded ← on_store (fun st => getDecodedObject st o);
    s ← ptr decoded;
    o ← on_store (fun st => Some (createRawStringObject st s));
    decr decoded;;
    dbOverwrite db key (VString o);;
    mret o
  else mret o.

Definition selectDb (c : cid) (id : Z) : M bool := fun s =>
  if (id <? 0) || (id >=? zlen (dbs s)) then Some (false, s)
  else (cl ← the_client c; put_client c (set_cdb cl (Z.to_nat id));; mret true) s.

(** ** Commands *)

Definition flushdbCommand (c : cid) : M unit :=
  db ← c_db c;
  d ← the_db db;
  add_dirty (Z.of_nat (size (dict d)));;
  signalFlushedDb (Z.of_nat db);;
  d ← the_db db;
  put_db db (mk_db ∅ (expires d) (watched_keys d));;
  each (map_to_list (dict d)).*2 decr_val;;
  d ← the_db db;
  put_db db (set_expires d ∅);;
  (if cluster_enabled then tell ESlotFlush else mret tt);;
  addReply c (ok shared).

(** The loop of DEL; the result is [deleted]. *)
Fixpoint del_loop (c : cid) (keys : list loc) (deleted : Z) : M Z :=
  match keys with
  | [] => mret deleted
  | key :: keys =>
      db ← c_db c;
      expireIfNeeded db key;;
      gone ← dbDelete db key;
      if (gone : bool) then
        signalModifiedKey db key;;
        notifyKeyspaceEvent REDIS_NOTIFY_GENERIC "del" key db;;
        add_dirty 1;;
        del_loop c keys (deleted + 1)
      else del_loop c keys deleted
  end.

Definition delCommand (c : cid) : M unit :=
  cl ← the_client c;
  deleted ← del_loop c (drop 1 (argv cl)) 0;
  addReplyLongLong c deleted.

Fixpoint exists_loop (c : cid) (keys : list loc) (count : Z) : M Z :=
  match keys with
  | [] => mret count
  | key :: keys =>
      db ← c_db c;
      expireIfNeeded db key;;
      e ← dbExists db key;
      exists_loop c keys (if (e : bool) then count + 1 else count)
  end.

Definition existsCommand (c : cid) : M unit :=
  cl ← the_client c;
  count ← exists_loop c (drop 1 (argv cl)) 0;
  addReplyLongLong c count.

Definition selectCommand (c : cid) : M unit :=
  a ← arg c 1;
  id ← getLongFromObjectOrReply c (Some a) (Some "invalid DB index"%string);
  match id with
  | None => mret tt
  | Some id =>
      if cluster_enabled && negb (id =? 0) then
        addReplyError c (bytes_of_string "SELECT is not allowed in cluster mode")
      else
        (* the argument of [selectDb] is an [int] *)
        done ← selectDb c (s32 id);
        if (done : bool) then addReply c (ok shared)
        else addReplyError c (bytes_of_string "invalid DB index")
  end.

Definition dbsizeCommand (c : cid) : M unit :=
  db ← c_db c;
  d ← the_db db;
  addReplyLongLong c (Z.of_nat (size (dict d))).

Definition type_name (t : Z) : string :=
  if t =? REDIS_STRING then "string" else if t =? REDIS_LIST then "list" else if t =? REDIS_SET then "set"
  else if t =? REDIS_ZSET then "zset" else if t =? REDIS_HASH then "hash" else "unknown".

Definition typeCommand (c : cid) : M unit :=
  db ← c_db c;
  key ← arg c 1;
  o ← lookupKeyRead db key;
  addReplyStatus c (bytes_of_string (match o with None => "none"%string | Some v => type_name (type_of v) end)).

Definition renameGenericCommand (c : cid) (nx : bool) : M unit :=
  src ← arg c 1;
  dst ← arg c 2;
  k1 ← ptr src;
  k2 ← ptr dst;
  if bool_decide (k1 = k2) then addReply c (sameobjecterr shared)
  else
    db ← c_db c;
    o ← lookupKeyWriteOrReply c src (nokeyerr shared);
    match o with
    | None => mret tt
    | Some o =>
        incr_val o;;
        expire ← getExpire db src;
        old ← lookupKeyWrite db dst;
        match old, nx with
        | Some _, true => decr_val o;; addReply c czero
        | _, _ =>
            (match old with Some _ => dbDelete db dst;; mret tt | None => mret tt end);;
            dbAdd db dst o;;
            (if negb (expire =? -1) then setExpire db dst expire else mret tt);;
            dbDelete db src;;
            signalModifiedKey db src;;
            signalModifiedKey db dst;;
            notifyKeyspaceEvent REDIS_NOTIFY_GENERIC "rename_from" src db;;
            notifyKeyspaceEvent REDIS_NOTIFY_GENERIC "rename_to" dst db;;
            add_dirty 1;;
            addReply c (if nx then cone else ok shared)
        end
    end.

Definition renameCommand (c : cid) : M unit := renameGenericCommand c false.
Definition renamenxCommand (c : cid) : M unit := renameGenericCommand c true.

Definition moveCommand (c : cid) : M unit :=
  if cluster_enabled then addReplyError c (bytes_of_string "MOVE is not allowed in cluster mode")
  else
    src ← c_db c;
    a ← arg c 2;
    v ← val_of a;
    dst ← match Object.getLongLongFromObject (Some v) with
          | None => mret None
          | Some dbid =>
              if (dbid <? - 2 ^ 31) || (dbid >? 2 ^ 31 - 1) then mret None
              else
                done ← selectDb c dbid;
                if (done : bool) then dst ← c_db c; mret (Some dst) else mret None
          end;
    match dst with
    | None => addReply c (outofrangeerr shared)
    | Some dst =>
        selectDb c (Z.of_nat src);;
        if (src =? dst)%nat then addReply c (sameobjecterr shared)
        else
          key ← arg c 1;
          o ← lookupKeyWrite src key;
          match o with
          | None => addReply c czero
          | Some o =>
              expire ← getExpire src key;
              there ← lookupKeyWrite dst key;
              match there with
              | Some _ => addReply c czero
              | None =>
                  dbAdd dst key o;;
                  (if negb (expire =? -1) then setExpire dst key expire else mret tt);;
                  incr_val o;;
                  dbDelete src key;;
                  add_dirty 1;;
                  addReply c cone
              end
          end
    end.

(** [lookupCommandOrOriginal] gives the line of the table for the first string;
    [cmd_of] does here. *)
Definition rewriteClientCommandVector (cmd_of : list Z -> option redisCommand) (c : cid) (args : list loc) : M unit :=
  each args incr;;
  cl ← the_client c;
  each (argv cl) decr;;
  name ← match args with a :: _ => ptr a | [] => fail end;
  m ← opt (cmd_of name);
  cl ← the_client c;
  put_client c (set_cmd (set_argv cl args) (Some m)).

(** A [long long] result, [None] on overflow. *)
Definition ll_result (z : Z) : option Z := if (z <? LLONG_MIN) || (z >? LLONG_MAX) then None else Some z.

Definition expireGenericCommand (cmd_of : list Z -> option redisCommand) (c : cid) (basetime units : Z) : M unit :=
  key ← arg c 1;
  param ← arg c 2;
  when ← getLongLongFromObjectOrReply c (Some param) None;
  match when with
  | None => mret tt
  | Some when =>
      when ← opt (if units =? UNIT_SECONDS then ll_result (when * 1000) else Some when);
      when ← opt (ll_result (when + basetime));
      db ← c_db c;
      o ← lookupKeyRead db key;
      match o with
      | None => addReply c czero
      | Some _ =>
          now ← mstime;
          if (when <=? now) && negb loading && negb masterhost then
            gone ← dbDelete db key;
            assert gone;;
            add_dirty 1;;
            aux ← on_store (fun st => Some (createStringObject st (bytes_of_string "DEL")));
            rewriteClientCommandVector cmd_of c [aux; key];;
            decr aux;;
            signalModifiedKey db key;;
            notifyKeyspaceEvent REDIS_NOTIFY_GENERIC "del" key db;;
            addReply c cone
          else
            setExpire db key when;;
            addReply c cone;;
            signalModifiedKey db key;;
            notifyKeyspaceEvent REDIS_NOTIFY_GENERIC "expire" key db;;
            add_dirty 1
      end
  end.

Definition expireCommand (cmd_of : list Z -> option redisCommand) (c : cid) : M unit :=
  now ← mstime; expireGenericCommand cmd_of c now UNIT_SECONDS.
Definition expireatCommand (cmd_of : list Z -> option redisCommand) (c : cid) : M unit :=
  expireGenericCommand cmd_of c 0 UNIT_SECONDS.
Definition pexpireCommand (cmd_of : list Z -> option redisCommand) (c : cid) : M unit :=
  now ← mstime; expireGenericCommand cmd_of c now UNIT_MILLISECONDS.
Definition pexpireatCommand (cmd_of : list Z -> option redisCommand) (c : cid) : M unit :=
  expireGenericCommand cmd_of c 0 UNIT_MILLISECONDS.

Definition ttlGenericCommand (c : cid) (output_ms : bool) : M unit :=
  db ← c_db c;
  key ← arg c 1;
  o ← lookupKeyRead db key;
  match o with
  | None => addReplyLongLong c (-2)
  | Some _ =>
      expire ← getExpire db key;
      ttl ← (if negb (expire =? -1) then
          now ← mstime;
          ttl ← opt (ll_result (expire - now));
          mret (if ttl <? 0 then 0 else ttl)
        else mret (-1));
      if ttl =? -1 then addReplyLongLong c (-1)
      else
        ms ← opt (if output_ms then Some ttl else x ← ll_result (ttl + 500); Some (Z.quot x 1000));
        addReplyLongLong c ms
  end.

Definition ttlCommand (c : cid) : M unit := ttlGenericCommand c false.
Definition pttlCommand (c : cid) : M unit := ttlGenericCommand c true.

Definition persistCommand (c : cid) : M unit :=
  db ← c_db c;
  key ← arg c 1;
  there ← dbExists db key;
  if (there : bool) then
    removed ← removeExpire db key;
    if (removed : bool) then addReply c cone;; add_dirty 1 else addReply c czero
  else addReply c czero.

End Env.
