(* ===== verification/Strings.v ===== *)
(** * t_string.c: commands on strings

    Values are objects that clients and other keys may refer to as well, in three
    encodings; they are changed in place when nobody else refers to them. *)

From Stdlib Require Import ZArith Lia String.
From stdpp Require Import base numbers list gmap.
From S2P Require Import Prelude Util Object Reply Server Watch Db.

Open Scope Z_scope.

Definition REDIS_SET_NO_FLAGS : Z := 0.
Definition REDIS_SET_NX : Z := Z.shiftl 1 0.
Definition REDIS_SET_XX : Z := Z.shiftl 1 1.

(** [sdsgrowzero] on a string with spare bytes.  An allocation of more than PTRDIFF_MAX
    bytes fails, and zmalloc aborts. *)
Definition sdsgrowzero (s : list Z) (free len : Z) : option strval :=
  if len <=? zlen s then Some (RAW s free)
  else if len >? 2 ^ 63 - 1 then None
  else Some (sdscatlen s free (replicate (Z.to_nat (len - zlen s)) 0)).

Section Env.
Context `{Env}.

Abbreviation czero := (czero (shared_base shared)).
Abbreviation cone := (cone (shared_base shared)).
Abbreviation nullbulk := (nullbulk (shared_base shared)).

(** [true] is REDIS_OK. *)
Definition checkStringLength (c : cid) (size : Z) : M bool :=
  if size >? 512 * 1024 * 1024 then
    addReplyError c (bytes_of_string "string exceeds maximum allowed size (512MB)");; mret false
  else mret true.

(** [expire], [ok_reply] and [abort_reply] may be NULL. *)
Definition setGenericCommand (c : cid) (flags : Z) (key val : loc) (expire : option loc) (units : Z)
    (ok_reply abort_reply : option loc) : M unit :=
  milliseconds ← match expire with
    | None => mret (Some 0)
    | Some e =>
        n ← getLongLongFromObjectOrReply c (Some e) None;
        match n with
        | None => mret None
        | Some n =>
            if n <=? 0 then
              cl ← the_client c;
              m ← opt (cmd cl);
              addReplyErrorFormat c (bytes_of_string "invalid expire time in " ++ name m);; mret None
            else n ← opt (if units =? UNIT_SECONDS then ll_result (n * 1000) else Some n); mret (Some n)
        end
    end;
  match milliseconds with
  | None => mret tt
  | Some milliseconds =>
      db ← c_db c;
      nx ← (if negb (Z.land flags REDIS_SET_NX =? 0) then o ← lookupKeyWrite db key; mret (bool_decide (is_Some o)) else mret false);
      stop ← (if nx : bool then mret true
        else if negb (Z.land flags REDIS_SET_XX =? 0) then o ← lookupKeyWrite db key; mret (bool_decide (o = None))
        else mret false);
      if (stop : bool) then addReply c (default nullbulk abort_reply)
      else
        setKey db key val;;
        add_dirty 1;;
        (match expire with
         | Some _ => now ← mstime; when ← opt (ll_result (now + milliseconds)); setExpire db key when
         | None => mret tt
         end);;
        notifyKeyspaceEvent REDIS_NOTIFY_STRING "set" key db;;
        (match expire with Some _ => notifyKeyspaceEvent REDIS_NOTIFY_GENERIC "expire" key db | None => mret tt end);;
        addReply c (default (ok shared) ok_reply)
  end.

(** The character of a string with its terminator. *)
Definition char_at (s : list Z) (i : nat) : Z := default 0 (s !! i).

(** [(a[0] == 'n' || a[0] == 'N') && (a[1] == 'x' || a[1] == 'X') && a[2] == '\0'] for "nx". *)
Definition is_option (a : list Z) (lo1 up1 : Z) : bool :=
  ((char_at a 0 =? lo1) || (char_at a 0 =? up1)) && ((char_at a 1 =? 120) || (char_at a 1 =? 88)) && (char_at a 2 =? 0).

(** The options of SET: the flags, the expire and its unit; [None] for a syntax error. *)
Fixpoint set_options (l : list loc) (flags : Z) (expire : option loc) (units : Z) : M (option (Z * option loc * Z)) :=
  match l with
  | [] => mret (Some (flags, expire, units))
  | p :: l =>
      a ← ptr p;
      if is_option a 110 78 then set_options l (Z.lor flags REDIS_SET_NX) expire units
      else if is_option a 120 88 then set_options l (Z.lor flags REDIS_SET_XX) expire units
      else match l with
           | next :: l' =>
               if is_option a 101 69 then set_options l' flags (Some next) UNIT_SECONDS
               else if is_option a 112 80 then set_options l' flags (Some next) UNIT_MILLISECONDS
               else mret None
           | [] => mret None
           end
  end.

Definition setCommand (c : cid) : M unit :=
  cl ← the_client c;
  o ← set_options (drop 3 (argv cl)) REDIS_SET_NO_FLAGS None UNIT_SECONDS;
  match o with
  | None => addReply c (syntaxerr shared)
  | Some (flags, expire, units) =>
      encode_arg c 2;;
      key ← arg c 1;
      val ← arg c 2;
      setGenericCommand c flags key val expire units None None
  end.

Definition setnxCommand (c : cid) : M unit :=
  encode_arg c 2;;
  key ← arg c 1;
  val ← arg c 2;
  setGenericCommand c REDIS_SET_NX key val None 0 (Some cone) (Some czero).

Definition setexCommand (c : cid) : M unit :=
  encode_arg c 3;;
  key ← arg c 1;
  expire ← arg c 2;
  val ← arg c 3;
  setGenericCommand c REDIS_SET_NO_FLAGS key val (Some expire) UNIT_SECONDS None None.

Definition psetexCommand (c : cid) : M unit :=
  encode_arg c 3;;
  key ← arg c 1;
  expire ← arg c 2;
  val ← arg c 3;
  setGenericCommand c REDIS_SET_NO_FLAGS key val (Some expire) UNIT_MILLISECONDS None None.

(** [true] is REDIS_OK. *)
Definition getGenericCommand (c : cid) : M bool :=
  key ← arg c 1;
  o ← lookupKeyReadOrReply c key nullbulk;
  match o with
  | None => mret true
  | Some (VOther _) => addReply c (wrongtypeerr shared);; mret false
  | Some (VString p) => addReplyBulk c p;; mret true
  end.

Definition getCommand (c : cid) : M unit := getGenericCommand c;; mret tt.

Definition getsetCommand (c : cid) : M unit :=
  done ← getGenericCommand c;
  if (done : bool) then
    encode_arg c 2;;
    db ← c_db c;
    key ← arg c 1;
    val ← arg c 2;
    setKey db key val;;
    notifyKeyspaceEvent REDIS_NOTIFY_STRING "set" key db;;
    add_dirty 1
  else mret tt.

(** [offset] is a [long] and the lengths are of type [size_t]. *)
Definition setrangeCommand (c : cid) : M unit :=
  v ← arg c 3;
  value ← ptr v;
  a ← arg c 2;
  offset ← getLongFromObjectOrReply c (Some a) None;
  match offset with
  | None => mret tt
  | Some offset =>
      if offset <? 0 then addReplyError c (bytes_of_string "offset is out of range")
      else
        db ← c_db c;
        key ← arg c 1;
        x ← lookupKeyWrite db key;
        o ← match x with
            | None =>
                if zlen value =? 0 then addReply c czero;; mret None
                else
                  fits ← checkStringLength c (s64 (u64 (offset + zlen value)));
                  if negb fits then mret None
                  else
                    o ← on_store (fun st => Some (createObject st (RAW [] 0)));
                    dbAdd db key (VString o);;
                    mret (Some o)
            | Some x =>
                wrong ← checkType c x REDIS_STRING;
                if (wrong : bool) then mret None
                else
                  o ← string_obj x;
                  olen ← on_store (fun st => n ← stringObjectLen st o; Some (n, st));
                  if zlen value =? 0 then addReplyLongLong c olen;; mret None
                  else
                    fits ← checkStringLength c (s64 (u64 (offset + zlen value)));
                    if negb fits then mret None
                    else o ← dbUnshareStringValue db key o; mret (Some o)
            end;
        match o with
        | None => mret tt
        | Some o =>
            (if zlen value >? 0 then
              r ← val_of o;
              w ← match r with
                  | RAW s free => opt (sdsgrowzero s free (u64 (offset + zlen value)))
                  | _ => fail
                  end;
              w ← match w with
                  | RAW s free => s ← opt (Prelude.store s offset value); mret (RAW s free)
                  | _ => fail
                  end;
              set_val o w;;
              signalModifiedKey db key;;
              notifyKeyspaceEvent REDIS_NOTIFY_STRING "setrange" key db;;
              add_dirty 1
            else mret tt);;
            s ← ptr o;
            addReplyLongLong c (zlen s)
        end
  end.

Definition getrangeCommand (c : cid) : M unit :=
  a ← arg c 2;
  start ← getLongLongFromObjectOrReply c (Some a) None;
  match start with
  | None => mret tt
  | Some start =>
      b ← arg c 3;
      end_ ← getLongLongFromObjectOrReply c (Some b) None;
      match end_ with
      | None => mret tt
      | Some end_ =>
          key ← arg c 1;
          x ← lookupKeyReadOrReply c key (emptybulk shared);
          match x with
          | None => mret tt
          | Some x =>
              wrong ← checkType c x REDIS_STRING;
              if (wrong : bool) then mret tt
              else
                o ← string_obj x;
                v ← val_of o;
                str ← opt (match v with INT n => ll_buf 32 n | RAW s _ | EMBSTR s => Some s end);
                let strlen := zlen str in
                let start := if start <? 0 then s64 (u64 (strlen + start)) else start in
                let end_ := if end_ <? 0 then s64 (u64 (strlen + end_)) else end_ in
                let start := if start <? 0 then 0 else start in
                let end_ := if end_ <? 0 then 0 else end_ in
                let end_ := if u64 end_ >=? strlen then s64 (u64 (strlen - 1)) else end_ in
                if (start >? end_) || (strlen =? 0) then addReply c (emptybulk shared)
                else
                  s ← opt (load str start (end_ - start + 1));
                  addReplyBulkCBuffer c s
          end
      end
  end.

Fixpoint mget_loop (c : cid) (keys : list loc) : M unit :=
  match keys with
  | [] => mret tt
  | key :: keys =>
      db ← c_db c;
      o ← lookupKeyRead db key;
      match o with
      | None | Some (VOther _) => addReply c nullbulk
      | Some (VString p) => addReplyBulk c p
      end;;
      mget_loop c keys
  end.

Definition mgetCommand (c : cid) : M unit :=
  cl ← the_client c;
  addReplyMultiBulkLen c (zlen (argv cl) - 1);;
  mget_loop c (drop 1 (argv cl)).

(** The first loop of [msetGenericCommand], on [n] keys from [j]. *)
Fixpoint busy_loop (c : cid) (j n : nat) (busykeys : Z) : M Z :=
  match n with
  | O => mret busykeys
  | S n =>
      db ← c_db c;
      key ← arg c j;
      o ← lookupKeyWrite db key;
      busy_loop c (j + 2) n (if bool_decide (is_Some o) then busykeys + 1 else busykeys)
  end.

Fixpoint mset_loop (c : cid) (j n : nat) : M unit :=
  match n with
  | O => mret tt
  | S n =>
      encode_arg c (j + 1);;
      db ← c_db c;
      key ← arg c j;
      val ← arg c (j + 1);
      setKey db key val;;
      notifyKeyspaceEvent REDIS_NOTIFY_STRING "set" key db;;
      mset_loop c (j + 2) n
  end.

Definition msetGenericCommand (c : cid) (nx : bool) : M unit :=
  n ← argc c;
  if Z.rem n 2 =? 0 then addReplyError c (bytes_of_string "wrong number of arguments for MSET")
  else
    let pairs := Z.to_nat (Z.quot (n - 1) 2) in
    busykeys ← (if nx then busy_loop c 1 pairs 0 else mret 0);
    if negb (busykeys =? 0) then addReply c czero
    else
      mset_loop c 1 pairs;;
      add_dirty (Z.quot (n - 1) 2);;
      addReply c (if nx then cone else ok shared).

Definition msetCommand (c : cid) : M unit := msetGenericCommand c false.
Definition msetnxCommand (c : cid) : M unit := msetGenericCommand c true.

Definition incrDecrCommand (c : cid) (increment : Z) : M unit :=
  db ← c_db c;
  key ← arg c 1;
  x ← lookupKeyWrite db key;
  wrong ← match x with Some x => checkType c x REDIS_STRING | None => mret false end;
  if (wrong : bool) then mret tt
  else
    o ← match x with Some x => o ← string_obj x; mret (Some o) | None => mret None end;
    v ← getLongLongFromObjectOrReply c o None;
    match v with
    | None => mret tt
    | Some oldvalue =>
        if (increment <? 0) && (oldvalue <? 0) && (increment <? LLONG_MIN - oldvalue) ||
           (increment >? 0) && (oldvalue >? 0) && (increment >? LLONG_MAX - oldvalue)
        then addReplyError c (bytes_of_string "increment or decrement would overflow")
        else
          let value := oldvalue + increment in
          new ← match o with
                | Some p =>
                    r ← on_store (fun st => x ← heap st !! p; Some (x, st));
                    if (refcount r =? 1) && (match val r with INT _ => true | _ => false end) &&
                       ((value <? 0) || (value >=? REDIS_SHARED_INTEGERS)) && (value >=? LONG_MIN) && (value <=? LONG_MAX)
                    then set_val p (INT value);; mret p
                    else
                      new ← on_store (fun st => createStringObjectFromLongLong st value);
                      dbOverwrite db key (VString new);; mret new
                | None =>
                    new ← on_store (fun st => createStringObjectFromLongLong st value);
                    dbAdd db key (VString new);; mret new
                end;
          signalModifiedKey db key;;
          notifyKeyspaceEvent REDIS_NOTIFY_STRING "incrby" key db;;
          add_dirty 1;;
          addReply c (colon shared);;
          addReply c new;;
          addReply c (crlf (shared_base shared))
    end.

Definition incrCommand (c : cid) : M unit := incrDecrCommand c 1.
Definition decrCommand (c : cid) : M unit := incrDecrCommand c (-1).

Definition incrbyCommand (c : cid) : M unit :=
  a ← arg c 2;
  n ← getLongLongFromObjectOrReply c (Some a) None;
  match n with None => mret tt | Some n => incrDecrCommand c n end.

(** [-incr] overflows for LLONG_MIN. *)
Definition decrbyCommand (c : cid) : M unit :=
  a ← arg c 2;
  n ← getLongLongFromObjectOrReply c (Some a) None;
  match n with None => mret tt | Some n => n ← opt (ll_result (- n)); incrDecrCommand c n end.

Definition appendCommand (c : cid) : M unit :=
  db ← c_db c;
  key ← arg c 1;
  x ← lookupKeyWrite db key;
  totlen ← match x with
    | None =>
        encode_arg c 2;;
        val ← arg c 2;
        dbAdd db key (VString val);;
        incr val;;
        n ← on_store (fun st => n ← stringObjectLen st val; Some (n, st));
        mret (Some n)
    | Some x =>
        wrong ← checkType c x REDIS_STRING;
        if (wrong : bool) then mret None
        else
          o ← string_obj x;
          a ← arg c 2;
          append ← ptr a;
          n ← on_store (fun st => n ← stringObjectLen st o; Some (n, st));
          fits ← checkStringLength c (n + zlen append);
          if negb fits then mret None
          else
            o ← dbUnshareStringValue db key o;
            r ← val_of o;
            match r with
            | RAW s free => set_val o (sdscatlen s free append);; s ← ptr o; mret (Some (zlen s))
            | _ => fail
            end
    end;
  match totlen with
  | None => mret tt
  | Some totlen =>
      signalModifiedKey db key;;
      notifyKeyspaceEvent REDIS_NOTIFY_STRING "append" key db;;
      add_dirty 1;;
      addReplyLongLong c totlen
  end.

Definition strlenCommand (c : cid) : M unit :=
  key ← arg c 1;
  x ← lookupKeyReadOrReply c key czero;
  match x with
  | None => mret tt
  | Some x =>
      wrong ← checkType c x REDIS_STRING;
      if (wrong : bool) then mret tt
      else
        o ← string_obj x;
        n ← on_store (fun st => n ← stringObjectLen st o; Some (n, st));
        addReplyLongLong c n
  end.

End Env.
