(* ===== verification/Multi.v ===== *)
(** * redis.c, multi.c: the execution of commands and transactions

    The command table, [call], and the transactions: MULTI queues the commands that
    follow, EXEC executes them unless a key that the client watches has been touched.
    Of the checks of [processCommand] before the execution, those of the number of
    arguments are here; those of the configuration and of the state of the server
    (authentication, cluster, memory, disk, slaves, scripts) are not. *)

From Stdlib Require Import ZArith Lia String.
From stdpp Require Import base numbers list gmap.
From S2P Require Import Prelude Util Object Reply Server Watch Db Strings.

Open Scope Z_scope.

(** ** The command table *)

(** The bit of a letter of [sflags]. *)
Definition sflag (c : Z) : Z :=
  if c =? 119 then REDIS_CMD_WRITE
  else if c =? 114 then REDIS_CMD_READONLY
  else if c =? 109 then REDIS_CMD_DENYOOM
  else if c =? 97 then REDIS_CMD_ADMIN
  else if c =? 112 then 32
  else if c =? 115 then 64
  else if c =? 82 then 128
  else if c =? 83 then 256
  else if c =? 108 then 512
  else if c =? 116 then 1024
  else if c =? 77 then REDIS_CMD_SKIP_MONITOR
  else if c =? 107 then 4096
  else if c =? 70 then 8192
  else 0.

Definition row (n : string) (p : proc) (arity : Z) (sflags : string) : redisCommand :=
  mk_cmd (bytes_of_string n) p arity (foldr (fun c f => Z.lor (sflag c) f) 0 (bytes_of_string sflags)).

(** The lines of the commands that are modelled. *)
Definition redisCommandTable : list redisCommand := [
  row "get" PGet 2 "rF";
  row "set" PSet (-3) "wm";
  row "setnx" PSetnx 3 "wmF";
  row "setex" PSetex 4 "wm";
  row "psetex" PPsetex 4 "wm";
  row "append" PAppend 3 "wm";
  row "strlen" PStrlen 2 "rF";
  row "del" PDel (-2) "w";
  row "exists" PExists (-2) "rF";
  row "setrange" PSetrange 4 "wm";
  row "getrange" PGetrange 4 "r";
  row "substr" PGetrange 4 "r";
  row "incr" PIncr 2 "wmF";
  row "decr" PDecr 2 "wmF";
  row "mget" PMget (-2) "r";
  row "incrby" PIncrby 3 "wmF";
  row "decrby" PDecrby 3 "wmF";
  row "getset" PGetset 3 "wm";
  row "mset" PMset (-3) "wm";
  row "msetnx" PMsetnx (-3) "wm";
  row "select" PSelect 2 "rlF";
  row "move" PMove 3 "wF";
  row "rename" PRename 3 "w";
  row "renamenx" PRenamenx 3 "wF";
  row "expire" PExpire 3 "wF";
  row "expireat" PExpireat 3 "wF";
  row "pexpire" PPexpire 3 "wF";
  row "pexpireat" PPexpireat 3 "wF";
  row "dbsize" PDbsize 1 "rF";
  row "type" PType 2 "rF";
  row "multi" PMulti 1 "rsF";
  row "exec" PExec 1 "sM";
  row "discard" PDiscard 1 "rsF";
  row "flushdb" PFlushdb 1 "w";
  row "ttl" PTtl 2 "rF";
  row "pttl" PPttl 2 "rF";
  row "persist" PPersist 2 "wF";
  row "watch" PWatch (-2) "rsF";
  row "unwatch" PUnwatch 1 "rsF"
].

(** The names of the others. *)
Definition other_commands : list string := [
    "setbit"; "getbit"; "rpush"; "lpush"; "rpushx"; "lpushx"; "linsert"; "rpop"; "lpop"; "brpop"; "brpoplpush";
    "blpop"; "llen"; "lindex"; "lset"; "lrange"; "ltrim"; "lrem"; "rpoplpush"; "sadd"; "srem"; "smove"; "sismember";
    "scard"; "spop"; "srandmember"; "sinter"; "sinterstore"; "sunion"; "sunionstore"; "sdiff"; "sdiffstore";
    "smembers"; "sscan"; "zadd"; "zincrby"; "zrem"; "zremrangebyscore"; "zremrangebyrank"; "zremrangebylex";
    "zunionstore"; "zinterstore"; "zrange"; "zrangebyscore"; "zrevrangebyscore"; "zrangebylex"; "zrevrangebylex";
    "zcount"; "zlexcount"; "zrevrange"; "zcard"; "zscore"; "zrank"; "zrevrank"; "zscan"; "hset"; "hsetnx"; "hget";
    "hmset"; "hmget"; "hincrby"; "hincrbyfloat"; "hdel"; "hlen"; "hkeys"; "hvals"; "hgetall"; "hexists"; "hscan";
    "incrbyfloat"; "randomkey"; "keys"; "scan"; "auth"; "ping"; "echo"; "save"; "bgsave"; "bgrewriteaof"; "shutdown";
    "lastsave"; "sync"; "psync"; "replconf"; "flushall"; "sort"; "info"; "monitor"; "slaveof"; "role"; "debug";
    "config"; "subscribe"; "unsubscribe"; "psubscribe"; "punsubscribe"; "publish"; "pubsub"; "cluster"; "restore";
    "restore-asking"; "migrate"; "asking"; "readonly"; "readwrite"; "dump"; "object"; "client"; "eval"; "evalsha";
    "slowlog"; "script"; "time"; "bitop"; "bitcount"; "bitpos"; "wait"; "command"; "pfselftest"; "pfadd"; "pfcount";
    "pfmerge"; "pfdebug"; "latency"
]%string.

(** Names are looked up without regard to case. *)
Definition lookupCommand (n : list Z) : option redisCommand :=
  let n := tolower <$> n in
  head (filter (fun m => name m = n) redisCommandTable).

Definition is_other (n : list Z) : bool :=
  let n := tolower <$> n in
  existsb (fun s => bool_decide (bytes_of_string s = n)) other_commands.

Section Env.
Context `{Env}.

(** ** The state of a transaction *)

Definition freeClientMultiState (c : cid) : M unit :=
  cl ← the_client c;
  each (mstate cl) (fun mc => each (mc_argv mc) decr).

Definition initClientMultiState (c : cid) : M unit :=
  cl ← the_client c;
  put_client c (set_mstate cl []).

Definition queueMultiCommand (c : cid) : M unit :=
  cl ← the_client c;
  put_client c (set_mstate cl (mstate cl ++ [mk_multi (cmd cl) (argv cl)]));;
  each (argv cl) incr.

Definition discardTransaction (c : cid) : M unit :=
  freeClientMultiState c;;
  initClientMultiState c;;
  cl ← the_client c;
  put_client c (clear_flags cl (Z.lor REDIS_MULTI (Z.lor REDIS_DIRTY_CAS REDIS_DIRTY_EXEC)));;
  unwatchAllKeys c.

Definition flagTransaction (c : cid) : M unit :=
  cl ← the_client c;
  if cl_has cl REDIS_MULTI then put_client c (or_flags cl REDIS_DIRTY_EXEC) else mret tt.

Definition multiCommand (c : cid) : M unit :=
  cl ← the_client c;
  if cl_has cl REDIS_MULTI then addReplyError c (bytes_of_string "MULTI calls can not be nested")
  else
    put_client c (or_flags cl REDIS_MULTI);;
    addReply c (ok shared).

Definition discardCommand (c : cid) : M unit :=
  cl ← the_client c;
  if negb (cl_has cl REDIS_MULTI) then addReplyError c (bytes_of_string "DISCARD without MULTI")
  else
    discardTransaction c;;
    addReply c (ok shared).

Definition watchCommand (c : cid) : M unit :=
  cl ← the_client c;
  if cl_has cl REDIS_MULTI then addReplyError c (bytes_of_string "WATCH inside MULTI is not allowed")
  else
    each (drop 1 (argv cl)) (watchForKey c);;
    addReply c (ok shared).

Definition unwatchCommand (c : cid) : M unit :=
  unwatchAllKeys c;;
  cl ← the_client c;
  put_client c (clear_flags cl REDIS_DIRTY_CAS);;
  addReply c (ok shared).

(** ** Execution *)

(** [c->cmd->proc(c)], but for EXEC, which is never in a transaction. *)
Definition run_queued (p : proc) (c : cid) : M unit :=
  match p with
  | PGet => getCommand c | PSet => setCommand c | PSetnx => setnxCommand c | PSetex => setexCommand c
  | PPsetex => psetexCommand c | PAppend => appendCommand c | PStrlen => strlenCommand c | PDel => delCommand c
  | PExists => existsCommand c | PSetrange => setrangeCommand c | PGetrange => getrangeCommand c
  | PIncr => incrCommand c | PDecr => decrCommand c | PMget => mgetCommand c | PIncrby => incrbyCommand c
  | PDecrby => decrbyCommand c | PGetset => getsetCommand c | PMset => msetCommand c | PMsetnx => msetnxCommand c
  | PSelect => selectCommand c | PMove => moveCommand c | PRename => renameCommand c | PRenamenx => renamenxCommand c
  | PExpire => expireCommand lookupCommand c | PExpireat => expireatCommand lookupCommand c
  | PPexpire => pexpireCommand lookupCommand c | PPexpireat => pexpireatCommand lookupCommand c
  | PDbsize => dbsizeCommand c | PType => typeCommand c | PMulti => multiCommand c | PDiscard => discardCommand c
  | PFlushdb => flushdbCommand c | PTtl => ttlCommand c | PPttl => pttlCommand c | PPersist => persistCommand c
  | PWatch => watchCommand c | PUnwatch => unwatchCommand c
  | PExec => fail
  end.

Definition force_flags : Z := Z.lor REDIS_FORCE_AOF REDIS_FORCE_REPL.

(** [call] with REDIS_CALL_FULL; the slow log and the statistics are out of the model. *)
Definition call_with (run : proc -> cid -> M unit) (c : cid) : M unit :=
  cl ← the_client c;
  let client_old_flags := flags (rc cl) in
  m ← opt (cmd cl);
  (if has_monitors && negb loading && (Z.land (cmd_flags m) (Z.lor REDIS_CMD_SKIP_MONITOR REDIS_CMD_ADMIN) =? 0)
   then a ← arg_strings (argv cl); tell (EFeedMonitors (cdb cl) a) else mret tt);;
  put_client c (clear_flags cl force_flags);;
  before ← get_dirty;
  run (cmd_proc m) c;;
  after ← get_dirty;
  let d := after - before in
  let d := if d <? 0 then 0 else d in
  cl ← the_client c;
  let fl := if cl_has cl REDIS_FORCE_REPL then REDIS_PROPAGATE_REPL else 0 in
  let fl := if cl_has cl REDIS_FORCE_AOF then Z.lor fl REDIS_PROPAGATE_AOF else fl in
  let fl := if negb (d =? 0) then Z.lor fl (Z.lor REDIS_PROPAGATE_REPL REDIS_PROPAGATE_AOF) else fl in
  (if negb (fl =? 0) then propagate (cdb cl) (argv cl) fl else mret tt);;
  cl ← the_client c;
  put_client c (or_flags (clear_flags cl force_flags) (Z.land client_old_flags force_flags)).

Definition execCommandPropagateMulti (c : cid) : M unit :=
  multistring ← on_store (fun st => Some (createStringObject st (bytes_of_string "MULTI")));
  db ← c_db c;
  propagate db [multistring] (Z.lor REDIS_PROPAGATE_AOF REDIS_PROPAGATE_REPL);;
  decr multistring.

(** The loop of [execCommand] on the commands that are left.  The vector of the command
    that is executed is in [argv]; the code has it in the queue too, where it stores the
    vector that the command leaves. *)
Fixpoint exec_loop (c : cid) (commands executed : list multiCmd) (must_propagate : bool) : M (list multiCmd * bool) :=
  match commands with
  | [] => mret (executed, must_propagate)
  | mc :: commands =>
      cl ← the_client c;
      put_client c (set_cmd (set_argv cl (mc_argv mc)) (mc_cmd mc));;
      m ← opt (mc_cmd mc);
      let write := negb must_propagate && (Z.land (cmd_flags m) REDIS_CMD_READONLY =? 0) in
      (if write then execCommandPropagateMulti c else mret tt);;
      call_with run_queued c;;
      cl ← the_client c;
      exec_loop c commands (executed ++ [mk_multi (cmd cl) (argv cl)]) (must_propagate || write)
  end.

Definition execCommand (c : cid) : M unit :=
  cl ← the_client c;
  if negb (cl_has cl REDIS_MULTI) then addReplyError c (bytes_of_string "EXEC without MULTI")
  else
    (if cl_has cl REDIS_DIRTY_CAS || cl_has cl REDIS_DIRTY_EXEC then
      addReply c (if cl_has cl REDIS_DIRTY_EXEC then execaborterr shared else nullmultibulk shared);;
      discardTransaction c
    else
      unwatchAllKeys c;;
      cl ← the_client c;
      let orig_argv := argv cl in
      let orig_cmd := cmd cl in
      addReplyMultiBulkLen c (zlen (mstate cl));;
      cl ← the_client c;
      put_client c (set_mstate cl []);;
      r ← exec_loop c (mstate cl) [] false;
      cl ← the_client c;
      put_client c (set_mstate (set_cmd (set_argv cl orig_argv) orig_cmd) r.1);;
      discardTransaction c;;
      if r.2 : bool then add_dirty 1 else mret tt);;
    (* handle_monitor *)
    if has_monitors && negb loading then
      cl ← the_client c;
      a ← arg_strings (argv cl);
      tell (EFeedMonitors (cdb cl) a)
    else mret tt.

Definition run_proc (p : proc) (c : cid) : M unit :=
  match p with PExec => execCommand c | _ => run_queued p c end.

Definition call (c : cid) : M unit := call_with run_proc c.

(** What MULTI does not queue. *)
Definition immediate (p : proc) : bool :=
  match p with PExec | PDiscard | PMulti | PWatch => true | _ => false end.

(** A command that is not modelled gives [None]. *)
Definition processCommand (c : cid) : M unit :=
  a ← arg c 0;
  n ← ptr a;
  assert (negb (is_other n));;
  cl ← the_client c;
  put_client c (set_cmd cl (lookupCommand n));;
  match lookupCommand n with
  | None =>
      flagTransaction c;;
      addReplyErrorFormat c (bytes_of_string "unknown command '" ++ (span (fun b => negb (b =? 0)) n).1 ++ [39])
  | Some m =>
      if ((arity m >? 0) && negb (arity m =? zlen (argv cl))) || (zlen (argv cl) <? - arity m) then
        flagTransaction c;;
        addReplyErrorFormat c (bytes_of_string "wrong number of arguments for '" ++ name m ++ bytes_of_string "' command")
      else if cl_has cl REDIS_MULTI && negb (immediate (cmd_proc m)) then
        queueMultiCommand c;;
        addReply c (queued shared)
      else call c
  end.

Definition freeClientArgv (c : cid) : M unit :=
  cl ← the_client c;
  each (argv cl) decr;;
  cl ← the_client c;
  put_client c (set_cmd (set_argv cl []) None).

(** The objects of the arguments, as the parser of the requests makes them. *)
Fixpoint make_args (c : cid) (args : list (list Z)) : M unit :=
  match args with
  | [] => mret tt
  | s :: args =>
      p ← on_store (fun st => Some (createStringObject st s));
      cl ← the_client c;
      put_client c (set_argv cl (argv cl ++ [p]));;
      make_args c args
  end.

(** A request from its arguments to the release of the vector. *)
Definition request (c : cid) (args : list (list Z)) : M unit :=
  make_args c args;;
  processCommand c;;
  freeClientArgv c.

(** The requests of several clients, in the order in which the server reads them. *)
Fixpoint requests (l : list (cid * list (list Z))) : M unit :=
  match l with
  | [] => mret tt
  | r :: l => request r.1 r.2;; requests l
  end.

End Env.
