(* ===== verification/KeySpec.v ===== *)
(** * The specification of the commands

    What the commands of Db.v, Strings.v and Multi.v do, without objects: a key space is
    a map from strings to values with a map of expires, a client has the list of the keys
    that it watches, a queue of commands and the bytes that are to be sent to it.  [None]
    is where the behaviour of the code is not defined (an integer overflows, or an
    allocation fails). *)

From Stdlib Require Import ZArith Lia String.
From stdpp Require Import base numbers list gmap.
From S2P Require Import Prelude Util Object Reply ReplyFacts Server Watch Db Strings Multi.

Open Scope Z_scope.

Abbreviation bytes := (list Z).

Inductive aval := AString (s : bytes) | AOther (t : valtype).

Record adb := mk_adb { adict : gmap bytes aval; aexpires : gmap bytes Z }.

(** [takes] says whether the client gets replies. *)
Record aclient := mk_acl {
  takes : bool;
  in_db : nat;
  multi : bool;
  dirty_cas : bool;
  dirty_exec : bool;
  queue : list (option redisCommand * list bytes);
  watched : list (nat * bytes);
  out : list atom;
}.

Record aserver := mk_as {
  adbs : list adb;
  aclients : gmap cid aclient;
  adirty : Z;
  aticks : nat;
  atrace : list event;
}.

Abbreviation S := (prog aserver).

Definition set_queue (cl : aclient) (q : list (option redisCommand * list bytes)) : aclient :=
  mk_acl (takes cl) (in_db cl) (multi cl) (dirty_cas cl) (dirty_exec cl) q (watched cl) (out cl).
Definition set_awatched (cl : aclient) (w : list (nat * bytes)) : aclient :=
  mk_acl (takes cl) (in_db cl) (multi cl) (dirty_cas cl) (dirty_exec cl) (queue cl) w (out cl).
Definition set_marks (cl : aclient) (m d e : bool) : aclient :=
  mk_acl (takes cl) (in_db cl) m d e (queue cl) (watched cl) (out cl).
Definition set_in_db (cl : aclient) (i : nat) : aclient :=
  mk_acl (takes cl) i (multi cl) (dirty_cas cl) (dirty_exec cl) (queue cl) (watched cl) (out cl).
Definition append_out (bs : bytes) (cl : aclient) : aclient :=
  mk_acl (takes cl) (in_db cl) (multi cl) (dirty_cas cl) (dirty_exec cl) (queue cl) (watched cl)
    (out cl ++ (inl <$> if takes cl then bs else [])).

Definition set_aclients (a : aserver) (m : gmap cid aclient) : aserver :=
  mk_as (adbs a) m (adirty a) (aticks a) (atrace a).
Definition set_adbs (a : aserver) (l : list adb) : aserver :=
  mk_as l (aclients a) (adirty a) (aticks a) (atrace a).

Definition s_client (c : cid) : S aclient := fun a =>
  match aclients a !! c with Some cl => Some (cl, a) | None => None end.
Definition s_put (c : cid) (cl : aclient) : S unit := fun a => Some (tt, set_aclients a (<[c := cl]> (aclients a))).
Definition s_db (i : nat) : S adb := fun a => match adbs a !! i with Some d => Some (d, a) | None => None end.
Definition s_put_db (i : nat) (d : adb) : S unit := fun a => Some (tt, set_adbs a (<[i := d]> (adbs a))).
Definition s_tell (e : event) : S unit := fun a =>
  Some (tt, mk_as (adbs a) (aclients a) (adirty a) (aticks a) (atrace a ++ [e])).
Definition s_dirty (n : Z) : S unit := fun a =>
  Some (tt, mk_as (adbs a) (aclients a) (adirty a + n) (aticks a) (atrace a)).

Definition s_get_dirty : S Z := fun a => Some (adirty a, a).
Definition s_dbnum : S Z := fun a => Some (zlen (adbs a), a).

(** A client that watches the key is marked. *)
Definition touch (i : nat) (k : bytes) (cl : aclient) : aclient :=
  if bool_decide ((i, k) ∈ watched cl) then set_marks cl (multi cl) true (dirty_exec cl) else cl.
Definition s_touch (i : nat) (k : bytes) : S unit := fun a => Some (tt, set_aclients a (touch i k <$> aclients a)).

(** ** Replies *)

Definition crlf_ : bytes := [13; 10].
Definition error (s : bytes) : bytes := bytes_of_string "-ERR " ++ s ++ crlf_.
Definition ok_text : bytes := bytes_of_string "+OK" ++ crlf_.
Definition null_text : bytes := reply_line 36 (-1).
Definition empty_text : bytes := bytes_of_string "$0" ++ crlf_ ++ crlf_.
Definition wrongtype_text : bytes := bytes_of_string "-WRONGTYPE Operation against a key holding the wrong kind of value" ++ crlf_.

Definition s_reply (c : cid) (bs : bytes) : S unit := cl ← s_client c; s_put c (append_out bs cl).
Definition s_int (c : cid) (n : Z) : S unit := s_reply c (reply_line 58 n).
(** [addReplyBulkLen] overflows on the smallest integer. *)
Definition s_bulk (c : cid) (s : bytes) : S unit :=
  if bool_decide (s = ll_repr LONG_MIN) then fail else s_reply c (bulk s).

Definition int_of (s : bytes) : option Z := getLongLongFromObject (Some (RAW s 0)).
Definition not_int : string := "value is not an integer or out of range".

Section Env.
Context `{Env}.

Definition s_mstime : S Z := fun a =>
  Some (mstime_at (aticks a), mk_as (adbs a) (aclients a) (adirty a) (Datatypes.S (aticks a)) (atrace a)).

Definition s_feed (i : nat) (args : list bytes) : S unit :=
  (if aof_on then s_tell (EFeedAof i args) else mret tt);; s_tell (EFeedSlaves i args).

(** ** The key space *)

Definition s_delete (i : nat) (k : bytes) : S bool :=
  d ← s_db i;
  s_put_db i (mk_adb (delete k (adict d)) (delete k (aexpires d)));;
  match adict d !! k with
  | Some _ => (if cluster_enabled then s_tell (ESlotDel k) else mret tt);; mret true
  | None => mret false
  end.

(** A key whose time has come is deleted by a master. *)
Definition s_expire (i : nat) (k : bytes) : S unit :=
  d ← s_db i;
  match aexpires d !! k with
  | None => mret tt
  | Some when =>
      if (when <? 0) || loading then mret tt
      else
        now ← s_mstime;
        if masterhost || (now <=? when) then mret tt
        else
          s_feed i [bytes_of_string "DEL"; k];;
          s_tell (ENotify REDIS_NOTIFY_EXPIRED "expired" k i);;
          s_delete i k;;
          mret tt
  end.

Definition s_lookup (i : nat) (k : bytes) : S (option aval) := s_expire i k;; d ← s_db i; mret (adict d !! k).

(** A new value; the expire stays. *)
Definition s_store (i : nat) (k : bytes) (v : aval) : S unit :=
  d ← s_db i;
  s_put_db i (mk_adb (<[k := v]> (adict d)) (aexpires d));;
  match adict d !! k with
  | Some _ => mret tt
  | None =>
      (if match v with AOther t => type_num t =? REDIS_LIST | AString _ => false end then s_tell (EListReady i k) else mret tt);;
      (if cluster_enabled then s_tell (ESlotAdd k) else mret tt)
  end.

Definition s_set_expire (i : nat) (k : bytes) (when : option Z) : S unit :=
  d ← s_db i;
  s_put_db i (mk_adb (adict d) (match when with Some w => <[k := w]> (aexpires d) | None => delete k (aexpires d) end)).

Definition s_set_key (i : nat) (k v : bytes) : S unit :=
  s_lookup i k;; s_store i k (AString v);; s_set_expire i k None;; s_touch i k.

(** ** Commands on strings *)

Definition s_set (c : cid) (cname : bytes) (nx xx : bool) (k v : bytes) (expire : option (bytes * Z))
    (ok_reply abort_reply : bytes) : S unit :=
  cl ← s_client c;
  let i := in_db cl in
  match (match expire with None => Some None | Some (e, _) => Some <$> int_of e end) with
  | None => s_reply c (error (bytes_of_string not_int))
  | Some time =>
      if match time with Some n => n <=? 0 | None => false end then
        s_reply c (error (bytes_of_string "invalid expire time in " ++ cname))
      else
        ms ← match time, expire with
             | Some n, Some (_, units) => n ← opt (if units =? UNIT_SECONDS then ll_result (n * 1000) else Some n); mret n
             | _, _ => mret 0
             end;
        there ← (if nx then o ← s_lookup i k; mret (bool_decide (is_Some o)) else mret false);
        stop ← (if there : bool then mret true else if xx then o ← s_lookup i k; mret (bool_decide (o = None)) else mret false);
        if (stop : bool) then s_reply c abort_reply
        else
          s_set_key i k v;;
          s_dirty 1;;
          (match expire with
           | Some _ => now ← s_mstime; when ← opt (ll_result (now + ms)); s_set_expire i k (Some when)
           | None => mret tt
           end);;
          s_tell (ENotify REDIS_NOTIFY_STRING "set" k i);;
          (match expire with Some _ => s_tell (ENotify REDIS_NOTIFY_GENERIC "expire" k i) | None => mret tt end);;
          s_reply c ok_reply
  end.

(** The options NX, XX, EX and PX. *)
Fixpoint s_options (l : list bytes) (nx xx : bool) (expire : option (bytes * Z)) : option (bool * bool * option (bytes * Z)) :=
  match l with
  | [] => Some (nx, xx, expire)
  | a :: l =>
      if is_option a 110 78 then s_options l true xx expire
      else if is_option a 120 88 then s_options l nx true expire
      else match l with
           | t :: l' =>
               if is_option a 101 69 then s_options l' nx xx (Some (t, UNIT_SECONDS))
               else if is_option a 112 80 then s_options l' nx xx (Some (t, UNIT_MILLISECONDS))
               else None
           | [] => None
           end
  end.

(** The value is sent; [false] for a value of the wrong type. *)
Definition s_get (c : cid) (k : bytes) : S bool :=
  cl ← s_client c;
  o ← s_lookup (in_db cl) k;
  match o with
  | None => s_reply c null_text;; mret true
  | Some (AString s) => s_bulk c s;; mret true
  | Some (AOther _) => s_reply c wrongtype_text;; mret false
  end.

Definition max_string : Z := 512 * 1024 * 1024.
Definition too_long : bytes := bytes_of_string "string exceeds maximum allowed size (512MB)".

(** [s] with [v] at [offset], after zeros if it is too short. *)
Definition overlay (s : bytes) (offset : Z) (v : bytes) : bytes :=
  let s := s ++ replicate (Z.to_nat (offset + zlen v - zlen s)) 0 in
  take (Z.to_nat offset) s ++ v ++ drop (Z.to_nat (offset + zlen v)) s.

Definition s_setrange (c : cid) (k arg v : bytes) : S unit :=
  cl ← s_client c;
  let i := in_db cl in
  match int_of arg with
  | None => s_reply c (error (bytes_of_string not_int))
  | Some offset =>
      if offset <? 0 then s_reply c (error (bytes_of_string "offset is out of range"))
      else
        o ← s_lookup i k;
        match o with
        | Some (AOther _) => s_reply c wrongtype_text
        | _ =>
            let s := match o with Some (AString s) => s | _ => [] end in
            if bool_decide (v = []) then s_int c (zlen s)
            else if offset + zlen v >? LLONG_MAX then fail
            else if offset + zlen v >? max_string then s_reply c (error too_long)
            else
              s_store i k (AString (overlay s offset v));;
              s_touch i k;;
              s_tell (ENotify REDIS_NOTIFY_STRING "setrange" k i);;
              s_dirty 1;;
              s_int c (zlen (overlay s offset v))
        end
  end.

(** The bytes from [start] to [end_], both included; negative positions count from the
    end. *)
Definition sub_range (s : bytes) (start end_ : Z) : bytes :=
  let clip x := if x <? 0 then Z.max 0 (zlen s + x) else x in
  let b := clip start in
  let e := Z.min (clip end_) (zlen s - 1) in
  take (Z.to_nat (e - b + 1)) (drop (Z.to_nat b) s).

Definition s_getrange (c : cid) (k start end_ : bytes) : S unit :=
  match int_of start, int_of end_ with
  | Some start, Some end_ =>
      cl ← s_client c;
      o ← s_lookup (in_db cl) k;
      match o with
      | None => s_reply c empty_text
      | Some (AOther _) => s_reply c wrongtype_text
      | Some (AString s) => s_reply c (bulk (sub_range s start end_))
      end
  | _, _ => s_reply c (error (bytes_of_string not_int))
  end.

Fixpoint s_mget (c : cid) (keys : list bytes) : S unit :=
  match keys with
  | [] => mret tt
  | k :: keys =>
      cl ← s_client c;
      o ← s_lookup (in_db cl) k;
      match o with Some (AString s) => s_bulk c s | _ => s_reply c null_text end;;
      s_mget c keys
  end.

(** Whether one of the keys is there; all of them are looked up. *)
Fixpoint s_busy (i : nat) (args : list bytes) (busy : bool) : S bool :=
  match args with
  | k :: _ :: args => o ← s_lookup i k; s_busy i args (busy || bool_decide (is_Some o))
  | _ => mret busy
  end.

Fixpoint s_mset (i : nat) (args : list bytes) : S unit :=
  match args with
  | k :: v :: args => s_set_key i k v;; s_tell (ENotify REDIS_NOTIFY_STRING "set" k i);; s_mset i args
  | _ => mret tt
  end.

Definition s_msets (c : cid) (nx : bool) (args : list bytes) : S unit :=
  cl ← s_client c;
  if bool_decide (Z.odd (zlen args)) then s_reply c (error (bytes_of_string "wrong number of arguments for MSET"))
  else
    busy ← (if nx then s_busy (in_db cl) args false else mret false);
    if (busy : bool) then s_int c 0
    else
      s_mset (in_db cl) args;;
      s_dirty (zlen args `div` 2);;
      s_reply c (if nx then reply_line 58 1 else ok_text).

Definition s_incr (c : cid) (k : bytes) (n : Z) : S unit :=
  cl ← s_client c;
  let i := in_db cl in
  o ← s_lookup i k;
  match o with
  | Some (AOther _) => s_reply c wrongtype_text
  | _ =>
      match (match o with Some (AString s) => int_of s | _ => Some 0 end) with
      | None => s_reply c (error (bytes_of_string not_int))
      | Some old =>
          if bool_decide (in_ll (old + n)) then
            s_store i k (AString (ll_repr (old + n)));;
            s_touch i k;;
            s_tell (ENotify REDIS_NOTIFY_STRING "incrby" k i);;
            s_dirty 1;;
            s_int c (old + n)
          else s_reply c (error (bytes_of_string "increment or decrement would overflow"))
      end
  end.

Definition s_append (c : cid) (k v : bytes) : S unit :=
  cl ← s_client c;
  let i := in_db cl in
  o ← s_lookup i k;
  match o with
  | Some (AOther _) => s_reply c wrongtype_text
  | _ =>
      let s := match o with Some (AString s) => s | _ => [] end in
      if bool_decide (o <> None) && (zlen (s ++ v) >? max_string) then s_reply c (error too_long)
      else
        s_store i k (AString (s ++ v));;
        s_touch i k;;
        s_tell (ENotify REDIS_NOTIFY_STRING "append" k i);;
        s_dirty 1;;
        s_int c (zlen (s ++ v))
  end.

Definition s_strlen (c : cid) (k : bytes) : S unit :=
  cl ← s_client c;
  o ← s_lookup (in_db cl) k;
  match o with
  | None => s_int c 0
  | Some (AOther _) => s_reply c wrongtype_text
  | Some (AString s) => s_int c (zlen s)
  end.

(** ** Commands on keys *)

Fixpoint s_del (i : nat) (keys : list bytes) (n : Z) : S Z :=
  match keys with
  | [] => mret n
  | k :: keys =>
      s_expire i k;;
      gone ← s_delete i k;
      (if gone : bool then
        s_touch i k;; s_tell (ENotify REDIS_NOTIFY_GENERIC "del" k i);; s_dirty 1
      else mret tt);;
      s_del i keys (if (gone : bool) then n + 1 else n)
  end.

Fixpoint s_exists (i : nat) (keys : list bytes) (n : Z) : S Z :=
  match keys with
  | [] => mret n
  | k :: keys => o ← s_lookup i k; s_exists i keys (if bool_decide (is_Some o) then n + 1 else n)
  end.

Definition s_select (c : cid) (arg : bytes) : S unit :=
  match int_of arg with
  | None => s_reply c (error (bytes_of_string "invalid DB index"))
  | Some id =>
      if cluster_enabled && negb (id =? 0) then s_reply c (error (bytes_of_string "SELECT is not allowed in cluster mode"))
      else
        n ← s_dbnum;
        if (0 <=? s32 id) && (s32 id <? n) then
          cl ← s_client c; s_put c (set_in_db cl (Z.to_nat (s32 id)));; s_reply c ok_text
        else s_reply c (error (bytes_of_string "invalid DB index"))
  end.

Definition s_type (c : cid) (k : bytes) : S unit :=
  cl ← s_client c;
  o ← s_lookup (in_db cl) k;
  s_reply c (bytes_of_string "+" ++ bytes_of_string (match o with
    | None => "none"%string
    | Some (AString _) => "string"%string
    | Some (AOther t) => type_name (type_num t)
    end) ++ crlf_).

Definition s_rename (c : cid) (nx : bool) (src dst : bytes) : S unit :=
  if bool_decide (src = dst) then s_reply c (error (bytes_of_string "source and destination objects are the same"))
  else
    cl ← s_client c;
    let i := in_db cl in
    o ← s_lookup i src;
    match o with
    | None => s_reply c (error (bytes_of_string "no such key"))
    | Some v =>
        d ← s_db i;
        old ← s_lookup i dst;
        if nx && bool_decide (is_Some old) then s_int c 0
        else
          (match old with Some _ => s_delete i dst;; mret tt | None => mret tt end);;
          s_store i dst v;;
          (match aexpires d !! src with
           | Some w => if w =? -1 then mret tt else s_set_expire i dst (Some w)
           | None => mret tt
           end);;
          s_delete i src;;
          s_touch i src;;
          s_touch i dst;;
          s_tell (ENotify REDIS_NOTIFY_GENERIC "rename_from" src i);;
          s_tell (ENotify REDIS_NOTIFY_GENERIC "rename_to" dst i);;
          s_dirty 1;;
          s_reply c (if nx then reply_line 58 1 else ok_text)
    end.

(** The clients that watch the key are not marked. *)
Definition s_move (c : cid) (k arg : bytes) : S unit :=
  if cluster_enabled then s_reply c (error (bytes_of_string "MOVE is not allowed in cluster mode"))
  else
    cl ← s_client c;
    let i := in_db cl in
    n ← s_dbnum;
    match int_of arg with
    | Some id =>
           if (0 <=? id) && (id <? n) && (id <=? 2 ^ 31 - 1) then
             let j := Z.to_nat id in
             if (i =? j)%nat then s_reply c (error (bytes_of_string "source and destination objects are the same"))
             else
               o ← s_lookup i k;
               match o with
               | None => s_int c 0
               | Some v =>
                   d ← s_db i;
                   there ← s_lookup j k;
                   match there with
                   | Some _ => s_int c 0
                   | None =>
                       s_store j k v;;
                       (match aexpires d !! k with
                        | Some w => if w =? -1 then mret tt else s_set_expire j k (Some w)
                        | None => mret tt
                        end);;
                       s_delete i k;;
                       s_dirty 1;;
                       s_int c 1
                   end
               end
           else s_reply c (error (bytes_of_string "index out of range"))
    | None => s_reply c (error (bytes_of_string "index out of range"))
    end.

(** The result is what is propagated. *)
Definition s_expires (c : cid) (basetime units : Z) (args : list bytes) (k arg : bytes) : S (list bytes) :=
  cl ← s_client c;
  let i := in_db cl in
  match int_of arg with
  | None => s_reply c (error (bytes_of_string not_int));; mret args
  | Some n =>
      when ← opt (if units =? UNIT_SECONDS then ll_result (n * 1000) else Some n);
      when ← opt (ll_result (when + basetime));
      o ← s_lookup i k;
      match o with
      | None => s_int c 0;; mret args
      | Some _ =>
          now ← s_mstime;
          if (when <=? now) && negb loading && negb masterhost then
            s_delete i k;;
            s_dirty 1;;
            s_touch i k;;
            s_tell (ENotify REDIS_NOTIFY_GENERIC "del" k i);;
            s_int c 1;;
            mret [bytes_of_string "DEL"; k]
          else
            s_set_expire i k (Some when);;
            s_int c 1;;
            s_touch i k;;
            s_tell (ENotify REDIS_NOTIFY_GENERIC "expire" k i);;
            s_dirty 1;;
            mret args
      end
  end.

Definition s_ttl (c : cid) (ms : bool) (k : bytes) : S unit :=
  cl ← s_client c;
  let i := in_db cl in
  o ← s_lookup i k;
  match o with
  | None => s_int c (-2)
  | Some _ =>
      d ← s_db i;
      match aexpires d !! k with
      | Some w =>
          if w =? -1 then s_int c (-1)
          else
            now ← s_mstime;
            t ← opt (ll_result (w - now));
            let t := Z.max 0 t in
            n ← opt (if ms then Some t else x ← ll_result (t + 500); Some (Z.quot x 1000));
            s_int c n
      | None => s_int c (-1)
      end
  end.

(** The key is not looked up, so that it does not expire. *)
Definition s_persist (c : cid) (k : bytes) : S unit :=
  cl ← s_client c;
  let i := in_db cl in
  d ← s_db i;
  match adict d !! k, aexpires d !! k with
  | Some _, Some _ => s_set_expire i k None;; s_int c 1;; s_dirty 1
  | _, _ => s_int c 0
  end.

(** A client that watches a key that is there is marked. *)
Definition flush_touch (i : nat) (d : adb) (cl : aclient) : aclient :=
  if existsb (fun w => (w.1 =? i)%nat && bool_decide (is_Some (adict d !! w.2))) (watched cl)
  then set_marks cl (multi cl) true (dirty_exec cl) else cl.

Definition s_flush_touch (i : nat) (d : adb) : S unit := fun a => Some (tt, set_aclients a (flush_touch i d <$> aclients a)).

Definition s_flushdb (c : cid) : S unit :=
  cl ← s_client c;
  let i := in_db cl in
  d ← s_db i;
  s_dirty (Z.of_nat (size (adict d)));;
  s_flush_touch i d;;
  s_put_db i (mk_adb ∅ ∅);;
  (if cluster_enabled then s_tell ESlotFlush else mret tt);;
  s_reply c ok_text.

(** ** Transactions *)

Definition s_discard (c : cid) : S unit :=
  cl ← s_client c;
  s_put c (set_awatched (set_queue (set_marks cl false false false) []) []).

Definition s_flag (c : cid) : S unit :=
  cl ← s_client c;
  s_put c (if multi cl then set_marks cl true (dirty_cas cl) true else cl).

Definition s_multi (c : cid) : S unit :=
  cl ← s_client c;
  if multi cl then s_reply c (error (bytes_of_string "MULTI calls can not be nested"))
  else s_put c (set_marks cl true (dirty_cas cl) (dirty_exec cl));; s_reply c ok_text.

Definition s_discards (c : cid) : S unit :=
  cl ← s_client c;
  if multi cl then s_discard c;; s_reply c ok_text
  else s_reply c (error (bytes_of_string "DISCARD without MULTI")).

Definition watch_key (i : nat) (w : list (nat * bytes)) (k : bytes) : list (nat * bytes) :=
  if bool_decide ((i, k) ∈ w) then w else w ++ [(i, k)].

Definition s_watch (c : cid) (keys : list bytes) : S unit :=
  cl ← s_client c;
  if multi cl then s_reply c (error (bytes_of_string "WATCH inside MULTI is not allowed"))
  else s_put c (set_awatched cl (foldl (watch_key (in_db cl)) (watched cl) keys));; s_reply c ok_text.

Definition s_unwatch (c : cid) : S unit :=
  cl ← s_client c;
  s_put c (set_awatched (set_marks cl (multi cl) false (dirty_exec cl)) []);;
  s_reply c ok_text.

(** The commands but EXEC; the result is the vector that is propagated. *)
Definition s_queued (m : redisCommand) (c : cid) (args : list bytes) : S (list bytes) :=
  let keeping (p : S unit) := p;; mret args in
  match cmd_proc m, drop 1 args with
  | PGet, [k] => keeping (s_get c k;; mret tt)
  | PSet, k :: v :: opts =>
      keeping (match s_options opts false false None with
               | None => s_reply c (error (bytes_of_string "syntax error"))
               | Some (nx, xx, e) => s_set c (name m) nx xx k v e ok_text null_text
               end)
  | PSetnx, [k; v] => keeping (s_set c (name m) true false k v None (reply_line 58 1) (reply_line 58 0))
  | PSetex, [k; e; v] => keeping (s_set c (name m) false false k v (Some (e, UNIT_SECONDS)) ok_text null_text)
  | PPsetex, [k; e; v] => keeping (s_set c (name m) false false k v (Some (e, UNIT_MILLISECONDS)) ok_text null_text)
  | PAppend, [k; v] => keeping (s_append c k v)
  | PStrlen, [k] => keeping (s_strlen c k)
  | PDel, keys => keeping (cl ← s_client c; n ← s_del (in_db cl) keys 0; s_int c n)
  | PExists, keys => keeping (cl ← s_client c; n ← s_exists (in_db cl) keys 0; s_int c n)
  | PSetrange, [k; o; v] => keeping (s_setrange c k o v)
  | PGetrange, [k; b; e] => keeping (s_getrange c k b e)
  | PIncr, [k] => keeping (s_incr c k 1)
  | PDecr, [k] => keeping (s_incr c k (-1))
  | PMget, keys => keeping (s_reply c (reply_line 42 (zlen keys));; s_mget c keys)
  | PIncrby, [k; n] =>
      keeping (match int_of n with None => s_reply c (error (bytes_of_string not_int)) | Some n => s_incr c k n end)
  | PDecrby, [k; n] =>
      keeping (match int_of n with
               | None => s_reply c (error (bytes_of_string not_int))
               | Some n => n ← opt (ll_result (- n)); s_incr c k n
               end)
  | PGetset, [k; v] =>
      keeping (done ← s_get c k;
               cl ← s_client c;
               if (done : bool) then
                 s_set_key (in_db cl) k v;; s_tell (ENotify REDIS_NOTIFY_STRING "set" k (in_db cl));; s_dirty 1
               else mret tt)
  | PMset, kvs => keeping (s_msets c false kvs)
  | PMsetnx, kvs => keeping (s_msets c true kvs)
  | PSelect, [i] => keeping (s_select c i)
  | PMove, [k; i] => keeping (s_move c k i)
  | PRename, [k; k'] => keeping (s_rename c false k k')
  | PRenamenx, [k; k'] => keeping (s_rename c true k k')
  | PExpire, [k; t] => now ← s_mstime; s_expires c now UNIT_SECONDS args k t
  | PExpireat, [k; t] => s_expires c 0 UNIT_SECONDS args k t
  | PPexpire, [k; t] => now ← s_mstime; s_expires c now UNIT_MILLISECONDS args k t
  | PPexpireat, [k; t] => s_expires c 0 UNIT_MILLISECONDS args k t
  | PDbsize, [] => keeping (cl ← s_client c; d ← s_db (in_db cl); z ← opt (ll_result (Z.of_nat (size (adict d)))); s_int c z)
  | PType, [k] => keeping (s_type c k)
  | PTtl, [k] => keeping (s_ttl c false k)
  | PPttl, [k] => keeping (s_ttl c true k)
  | PPersist, [k] => keeping (s_persist c k)
  | PFlushdb, [] => keeping (s_flushdb c)
  | PMulti, [] => keeping (s_multi c)
  | PDiscard, [] => keeping (s_discards c)
  | PWatch, keys => keeping (s_watch c keys)
  | PUnwatch, [] => keeping (s_unwatch c)
  | _, _ => fail
  end.

Definition s_call (run : redisCommand -> cid -> list bytes -> S (list bytes)) (c : cid) (m : redisCommand) (args : list bytes) : S unit :=
  cl ← s_client c;
  (if has_monitors && negb loading && (Z.land (cmd_flags m) (Z.lor REDIS_CMD_SKIP_MONITOR REDIS_CMD_ADMIN) =? 0)
   then s_tell (EFeedMonitors (in_db cl) args) else mret tt);;
  before ← s_get_dirty;
  args ← run m c args;
  after ← s_get_dirty;
  cl ← s_client c;
  if before <? after then s_feed (in_db cl) args else mret tt.

(** The commands of the queue, with MULTI before the first one that may write. *)
Fixpoint s_exec_loop (c : cid) (commands : list (option redisCommand * list bytes)) (must_propagate : bool) : S bool :=
  match commands with
  | [] => mret must_propagate
  | (None, _) :: _ => fail
  | (Some m, args) :: commands =>
      let write := negb must_propagate && (Z.land (cmd_flags m) REDIS_CMD_READONLY =? 0) in
      (if write then cl ← s_client c; s_feed (in_db cl) [bytes_of_string "MULTI"] else mret tt);;
      s_call s_queued c m args;;
      s_exec_loop c commands (must_propagate || write)
  end.

Definition execabort_text : bytes := bytes_of_string "-EXECABORT Transaction discarded because of previous errors." ++ crlf_.
Definition null_array : bytes := bytes_of_string "*-1" ++ crlf_.

Definition s_exec (c : cid) (args : list bytes) : S unit :=
  cl ← s_client c;
  if negb (multi cl) then s_reply c (error (bytes_of_string "EXEC without MULTI"))
  else
    (if dirty_cas cl || dirty_exec cl then
      s_reply c (if dirty_exec cl then execabort_text else null_array);;
      s_discard c
    else
      s_put c (set_queue (set_awatched cl []) []);;
      s_reply c (reply_line 42 (zlen (queue cl)));;
      write ← s_exec_loop c (queue cl) false;
      s_discard c;;
      if (write : bool) then s_dirty 1 else mret tt);;
    if has_monitors && negb loading then cl ← s_client c; s_tell (EFeedMonitors (in_db cl) args) else mret tt.

Definition s_run (m : redisCommand) (c : cid) (args : list bytes) : S (list bytes) :=
  match cmd_proc m with PExec => s_exec c args;; mret args | _ => s_queued m c args end.

(** ** Requests *)

Definition arity_ok (m : redisCommand) (n : Z) : bool :=
  (negb (arity m >? 0) || (arity m =? n)) && (- arity m <=? n).

Definition s_process (c : cid) (args : list bytes) : S unit :=
  match args with
  | [] => fail
  | n :: _ =>
      cl ← s_client c;
      if is_other n || (zlen n >? 1000000) then fail
      else match lookupCommand n with
      | None => s_flag c;; s_reply c (error ((fun b => if (b =? 13) || (b =? 10) then 32 else b) <$>
                  bytes_of_string "unknown command '" ++ (span (fun b => negb (b =? 0)) n).1 ++ [39]))
      | Some m =>
          if negb (arity_ok m (zlen args)) then
            s_flag c;; s_reply c (error (bytes_of_string "wrong number of arguments for '" ++ name m ++ bytes_of_string "' command"))
          else if multi cl && negb (immediate (cmd_proc m)) then
            s_put c (set_queue cl (queue cl ++ [(Some m, args)]));;
            s_reply c (bytes_of_string "+QUEUED" ++ crlf_)
          else s_call s_run c m args
      end
  end.

Definition s_request (c : cid) (args : list bytes) : S unit :=
  if forallb (fun s => zlen s <=? max_string) args then s_process c args else fail.

Fixpoint s_requests (l : list (cid * list bytes)) : S unit :=
  match l with
  | [] => mret tt
  | r :: l => s_request r.1 r.2;; s_requests l
  end.

End Env.
