(* ===== verification/SpecFacts.v ===== *)
(** * The specification: what the commands leave alone *)

From Stdlib Require Import ZArith Lia String.
From stdpp Require Import base numbers list gmap.
From S2P Require Import Prelude Util Object Reply ReplyFacts Server Watch Db Strings Multi KeySpec.

Open Scope Z_scope.

(** ** The queues

    A command other than one that is queued keeps the queues, or empties that of its
    client. *)

Definition queues_kept (a a' : aserver) : Prop :=
  forall d x', aclients a' !! d = Some x' -> exists x, aclients a !! d = Some x /\ (queue x' = queue x \/ queue x' = []).

Definition keeps_queues {A} (m : S A) : Prop := forall a b a', m a = Some (b, a') -> queues_kept a a'.

Lemma queues_same a a' : aclients a' = aclients a -> queues_kept a a'.
Proof. intros Hc d x Hx. rewrite Hc in Hx. exists x. auto. Qed.

Lemma queues_trans a b d : queues_kept a b -> queues_kept b d -> queues_kept a d.
Proof.
  intros H1 H2 e x Hx. destruct (H2 e x Hx) as (y & Hy & Hq). destruct (H1 e y Hy) as (z & Hz & Hq'). exists z. split; [done|].
  destruct Hq as [->|?]; auto.
Qed.

Lemma queues_put a c x x' : aclients a !! c = Some x -> queue x' = queue x \/ queue x' = [] -> queues_kept a (set_aclients a (<[c := x']> (aclients a))).
Proof.
  intros Hc Hq d y. cbn. destruct (decide (c = d)) as [<-|Hne]; [|rewrite lookup_insert_ne by done; exists y; auto].
  rewrite lookup_insert_eq. intros [= <-]. by exists x.
Qed.

Lemma queues_map a f : (forall x, queue (f x) = queue x) -> queues_kept a (set_aclients a (f <$> aclients a)).
Proof. intros Hf d y. cbn. rewrite lookup_fmap. intros (x & Hx & ->)%fmap_Some. exists x. rewrite Hf. auto. Qed.

Create HintDb queues.

Lemma keeps_queues_bind {A B} (m : S A) (f : A -> S B) : keeps_queues m -> (forall a, keeps_queues (f a)) -> keeps_queues (m ≫= f).
Proof.
  intros Hm Hf a b a'. unfold mbind, prog_bind. destruct (m a) as [[x a1]|] eqn:Hma; [|done]. intros Hfa.
  eapply queues_trans; [by eapply Hm|by eapply Hf].
Qed.

Lemma keeps_queues_read {A} (m : S A) : (forall a b a', m a = Some (b, a') -> aclients a' = aclients a) -> keeps_queues m.
Proof. intros Hm a b a' Ha. apply queues_same. by eapply Hm. Qed.

Ltac reads := intros; apply keeps_queues_read; intros ? ? ?; cbv -[aclients]; repeat case_match; intros; by simplify_eq/=.

Lemma keeps_queues_ret {A} (x : A) : keeps_queues (mret x).
Proof. reads. Qed.
Lemma keeps_queues_fail {A} : keeps_queues (fail : S A).
Proof. by intros a b a'. Qed.
Lemma keeps_queues_opt {A} (x : option A) : keeps_queues (opt x).
Proof. reads. Qed.
Lemma keeps_queues_client c : keeps_queues (s_client c).
Proof. apply keeps_queues_read. intros a b a'. unfold s_client. case_match; by intros; simplify_eq. Qed.
Lemma keeps_queues_db i : keeps_queues (s_db i).
Proof. apply keeps_queues_read. intros a b a'. unfold s_db. case_match; by intros; simplify_eq. Qed.
Lemma keeps_queues_put_db i d : keeps_queues (s_put_db i d).
Proof. reads. Qed.
Lemma keeps_queues_tell e : keeps_queues (s_tell e).
Proof. reads. Qed.
Lemma keeps_queues_dirty n : keeps_queues (s_dirty n).
Proof. reads. Qed.
Lemma keeps_queues_get_dirty : keeps_queues s_get_dirty.
Proof. reads. Qed.
Lemma keeps_queues_dbnum : keeps_queues s_dbnum.
Proof. reads. Qed.
Lemma keeps_queues_mstime `{Env} : keeps_queues s_mstime.
Proof. reads. Qed.
Lemma keeps_queues_touch i k : keeps_queues (s_touch i k).
Proof. intros a b a' [= _ <-]. apply queues_map. intros x. unfold touch. by case_bool_decide. Qed.
Lemma keeps_queues_flush i d : keeps_queues (s_flush_touch i d).
Proof. intros a b a' [= _ <-]. apply queues_map. intros x. unfold flush_touch. by case_match. Qed.

(** A client [x] that has been read is put back with the same queue or none. *)
Definition keeps_from {A} (c : cid) (x : aclient) (m : S A) : Prop :=
  forall a b a', aclients a !! c = Some x -> m a = Some (b, a') -> queues_kept a a'.

Lemma keeps_queues_with {A} c (f : aclient -> S A) : (forall x, keeps_from c x (f x)) -> keeps_queues (x ← s_client c; f x).
Proof.
  intros Hf a b a'. unfold s_client, mbind, prog_bind. destruct (aclients a !! c) as [x|] eqn:Hc; [|done]. by apply (Hf x).
Qed.

Lemma keeps_from_put c x x' : queue x' = queue x \/ queue x' = [] -> keeps_from c x (s_put c x').
Proof. intros Hq a b a' Hc [= _ <-]. by apply (queues_put a c x). Qed.

Lemma keeps_from_bind {A B} c x (m : S A) (f : A -> S B) : keeps_from c x m -> (forall a, keeps_queues (f a)) -> keeps_from c x (m ≫= f).
Proof.
  intros Hm Hf a b a' Hc. unfold mbind, prog_bind. destruct (m a) as [[y a1]|] eqn:Hma; [|done]. intros Hfa.
  eapply queues_trans; [by eapply Hm|by eapply Hf].
Qed.

Lemma keeps_from_any {A} c x (m : S A) : keeps_queues m -> keeps_from c x m.
Proof. intros Hm a b a' _. apply Hm. Qed.

Lemma keeps_queues_reply c bs : keeps_queues (s_reply c bs).
Proof.
  intros a b a'. unfold s_reply, s_client, s_put, mbind, prog_bind. destruct (aclients a !! c) as [x|] eqn:Hc; [|done]. intros [= _ <-].
  apply (queues_put a c x); auto.
Qed.

#[export] Hint Resolve keeps_queues_ret keeps_queues_fail keeps_queues_opt keeps_queues_client keeps_queues_db keeps_queues_put_db keeps_queues_tell
  keeps_queues_dirty keeps_queues_get_dirty keeps_queues_dbnum keeps_queues_mstime keeps_queues_touch keeps_queues_flush keeps_queues_reply : queues.

(** A program made of such steps. *)
Ltac queues := repeat first [solve [auto with queues] | apply keeps_queues_bind; [|intros] | case_match].
Ltac queues_put := first [by apply keeps_from_put; auto | apply keeps_from_bind; [by apply keeps_from_put; auto|intros; queues]].
Ltac queues_with := apply keeps_queues_with; intros; try (case_match; [|]); first [queues_put | apply keeps_from_any; queues].

Section Commands.
Context `{Env}.

Lemma keeps_queues_feed i l : keeps_queues (s_feed i l).
Proof. unfold s_feed. queues. Qed.
Lemma keeps_queues_int c n : keeps_queues (s_int c n).
Proof. unfold s_int. queues. Qed.
Lemma keeps_queues_bulk c s : keeps_queues (s_bulk c s).
Proof. unfold s_bulk. queues. Qed.
Lemma keeps_queues_delete i k : keeps_queues (s_delete i k).
Proof. unfold s_delete. queues. Qed.
Lemma keeps_queues_store i k v : keeps_queues (s_store i k v).
Proof. unfold s_store. queues. Qed.
Lemma keeps_queues_set_expire i k w : keeps_queues (s_set_expire i k w).
Proof. unfold s_set_expire. queues. Qed.
#[local] Hint Resolve keeps_queues_feed keeps_queues_int keeps_queues_bulk keeps_queues_delete keeps_queues_store keeps_queues_set_expire : queues.
Lemma keeps_queues_expire i k : keeps_queues (s_expire i k).
Proof. unfold s_expire. queues. Qed.
#[local] Hint Resolve keeps_queues_expire : queues.
Lemma keeps_queues_lookup i k : keeps_queues (s_lookup i k).
Proof. unfold s_lookup. queues. Qed.
#[local] Hint Resolve keeps_queues_lookup : queues.
Lemma keeps_queues_set_key i k v : keeps_queues (s_set_key i k v).
Proof. unfold s_set_key. queues. Qed.
#[local] Hint Resolve keeps_queues_set_key : queues.

Lemma keeps_queues_set c n nx xx k v e o r : keeps_queues (s_set c n nx xx k v e o r).
Proof. unfold s_set. queues. Qed.
Lemma keeps_queues_get c k : keeps_queues (s_get c k).
Proof. unfold s_get. queues. Qed.
Lemma keeps_queues_setrange c k o v : keeps_queues (s_setrange c k o v).
Proof. unfold s_setrange. queues. Qed.
Lemma keeps_queues_getrange c k b e : keeps_queues (s_getrange c k b e).
Proof. unfold s_getrange. queues. Qed.
Lemma keeps_queues_mget c l : keeps_queues (s_mget c l).
Proof. induction l; cbn [s_mget]; queues. Qed.
Lemma keeps_queues_busy i : forall l b, keeps_queues (s_busy i l b).
Proof. fix IH 1. intros [|k [|v l]] b; cbn [s_busy]; queues. Qed.
Lemma keeps_queues_mset i : forall l, keeps_queues (s_mset i l).
Proof. fix IH 1. intros [|k [|v l]]; cbn [s_mset]; queues. Qed.
#[local] Hint Resolve keeps_queues_set keeps_queues_get keeps_queues_setrange keeps_queues_getrange keeps_queues_mget keeps_queues_busy keeps_queues_mset : queues.
Lemma keeps_queues_msets c nx l : keeps_queues (s_msets c nx l).
Proof. unfold s_msets. queues. Qed.
Lemma keeps_queues_incr c k n : keeps_queues (s_incr c k n).
Proof. unfold s_incr. queues. Qed.
Lemma keeps_queues_append c k v : keeps_queues (s_append c k v).
Proof. unfold s_append. queues. Qed.
Lemma keeps_queues_strlen c k : keeps_queues (s_strlen c k).
Proof. unfold s_strlen. queues. Qed.
Lemma keeps_queues_del i : forall l n, keeps_queues (s_del i l n).
Proof. induction l; intros n; cbn [s_del]; queues. Qed.
Lemma keeps_queues_exists i : forall l n, keeps_queues (s_exists i l n).
Proof. induction l; intros n; cbn [s_exists]; queues. Qed.
Lemma keeps_queues_select c i : keeps_queues (s_select c i).
Proof.
  unfold s_select. case_match; [|queues]. case_match; [queues|]. apply keeps_queues_bind; [queues|]. intros n. case_match; [queues_with|queues].
Qed.
Lemma keeps_queues_type c k : keeps_queues (s_type c k).
Proof. unfold s_type. queues. Qed.
Lemma keeps_queues_rename c nx k k' : keeps_queues (s_rename c nx k k').
Proof. unfold s_rename. queues. Qed.
Lemma keeps_queues_move c k i : keeps_queues (s_move c k i).
Proof. unfold s_move. queues. Qed.
Lemma keeps_queues_expires c b u l k t : keeps_queues (s_expires c b u l k t).
Proof. unfold s_expires. queues. Qed.
Lemma keeps_queues_ttl c ms k : keeps_queues (s_ttl c ms k).
Proof. unfold s_ttl. queues. Qed.
Lemma keeps_queues_persist c k : keeps_queues (s_persist c k).
Proof. unfold s_persist. queues. Qed.
Lemma keeps_queues_flushdb c : keeps_queues (s_flushdb c).
Proof. unfold s_flushdb. queues. Qed.
Lemma keeps_queues_discard c : keeps_queues (s_discard c).
Proof. unfold s_discard. queues_with. Qed.
Lemma keeps_queues_flag c : keeps_queues (s_flag c).
Proof. unfold s_flag. apply keeps_queues_with. intros x. case_match; queues_put. Qed.
Lemma keeps_queues_multi c : keeps_queues (s_multi c).
Proof. unfold s_multi. queues_with. Qed.
#[local] Hint Resolve keeps_queues_discard : queues.
Lemma keeps_queues_discards c : keeps_queues (s_discards c).
Proof. unfold s_discards. queues. Qed.
Lemma keeps_queues_watch c l : keeps_queues (s_watch c l).
Proof. unfold s_watch. queues_with. Qed.
Lemma keeps_queues_unwatch c : keeps_queues (s_unwatch c).
Proof. unfold s_unwatch. queues_with. Qed.
#[local] Hint Resolve keeps_queues_msets keeps_queues_incr keeps_queues_append keeps_queues_strlen keeps_queues_del keeps_queues_exists keeps_queues_select
  keeps_queues_type keeps_queues_rename keeps_queues_move keeps_queues_expires keeps_queues_ttl keeps_queues_persist keeps_queues_flushdb
  keeps_queues_flag keeps_queues_multi keeps_queues_discards keeps_queues_watch keeps_queues_unwatch : queues.

Lemma keeps_queues_queued m c l : keeps_queues (s_queued m c l).
Proof. unfold s_queued. case_match; queues. Qed.
#[local] Hint Resolve keeps_queues_queued : queues.

Lemma keeps_queues_call run c m l : (forall m c l, keeps_queues (run m c l)) -> keeps_queues (s_call run c m l).
Proof. intros Hr. unfold s_call. queues. Qed.
#[local] Hint Resolve keeps_queues_call : queues.

Lemma keeps_queues_loop c : forall l b, keeps_queues (s_exec_loop c l b).
Proof. induction l as [|[[m|] args] l IH]; intros b; cbn [s_exec_loop]; queues. Qed.
#[local] Hint Resolve keeps_queues_loop : queues.

Lemma keeps_queues_exec c l : keeps_queues (s_exec c l).
Proof.
  unfold s_exec. apply keeps_queues_with. intros x. case_match; [apply keeps_from_any; queues|].
  apply keeps_from_bind; [case_match; [apply keeps_from_any; queues|queues_put]|intros; queues].
Qed.
#[local] Hint Resolve keeps_queues_exec : queues.

Lemma keeps_queues_run m c l : keeps_queues (s_run m c l).
Proof. unfold s_run. case_match; queues. Qed.

End Commands.

#[export] Hint Resolve keeps_queues_feed keeps_queues_int keeps_queues_queued keeps_queues_call keeps_queues_loop keeps_queues_discard keeps_queues_flag
  keeps_queues_exec keeps_queues_run : queues.
