(* ===== verification/ServerFacts.v ===== *)
(** * The invariant of the state of the server

    Every reference of the key spaces, of the clients and of the output buffers is
    counted once; the watched keys are the same from the databases and from the clients.
    The state stands for one of the specification, and the operations that the commands
    are made of simulate those of the specification. *)

From Stdlib Require Import ZArith Lia String.
From stdpp Require Import base numbers list gmap.
From S2P Require Import Prelude Util Object Reply ReplyFacts Server Watch Db Strings Multi KeySpec.

Open Scope Z_scope.

(** ** Programs side by side *)

Section Sim.
Context {X Y : Type} (abs : X -> Y).

(** When the specification [am] has a result, the program [m] has one that stands for
    it. *)
Definition simulates {A B} (P : X -> Prop) (m : prog X A) (am : prog Y B) (Q : A -> B -> X -> Prop) : Prop :=
  forall s, P s -> forall b y, am (abs s) = Some (b, y) -> exists a s', m s = Some (a, s') /\ abs s' = y /\ Q a b s'.

Lemma sim_bind {A B C D} P (m : prog X A) (am : prog Y B) R (f : A -> prog X C) (af : B -> prog Y D) Q :
  simulates P m am R -> (forall a b, simulates (R a b) (f a) (af b) Q) -> simulates P (m ≫= f) (am ≫= af) Q.
Proof.
  intros Hm Hf s Hs d y Hy. unfold mbind, prog_bind in *. destruct (am (abs s)) as [[b y1]|] eqn:Ham; [|done].
  destruct (Hm s Hs b y1 Ham) as (a & s1 & -> & <- & Hr). by apply (Hf a b s1 Hr).
Qed.

Lemma sim_ret {A B} P (a : A) (b : B) Q : (forall s, P s -> Q a b s) -> simulates P (mret a) (mret b) Q.
Proof. intros HQ s Hs b' y [= <- <-]. exists a, s. split; [done|]. split; [done|]. by apply HQ. Qed.

(** A step of the program that the specification does not have. *)
Lemma sim_left {A B C} P (m : prog X A) R (f : A -> prog X B) (am : prog Y C) Q :
  (forall s, P s -> exists a s', m s = Some (a, s') /\ abs s' = abs s /\ R a s') ->
  (forall a, simulates (R a) (f a) am Q) -> simulates P (m ≫= f) am Q.
Proof.
  intros Hm Hf s Hs d y Hy. unfold mbind, prog_bind. destruct (Hm s Hs) as (a & s1 & -> & Habs & Hr).
  apply (Hf a s1 Hr). by rewrite Habs.
Qed.

(** A step of the specification that only reads. *)
Lemma sim_right {A B C} P (m : prog X A) (am : prog Y B) (R : B -> X -> Prop) (af : B -> prog Y C) Q :
  (forall s b y, P s -> am (abs s) = Some (b, y) -> y = abs s /\ R b s) ->
  (forall b, simulates (R b) m (af b) Q) -> simulates P m (am ≫= af) Q.
Proof.
  intros Hm Hf s Hs d y Hy. unfold mbind, prog_bind in Hy. destruct (am (abs s)) as [[b y1]|] eqn:Ham; [|done].
  destruct (Hm s b y1 Hs Ham) as [-> Hr]. by apply (Hf b s Hr).
Qed.

Lemma sim_weaken {A B} (P P' : X -> Prop) (m : prog X A) (am : prog Y B) (Q Q' : A -> B -> X -> Prop) :
  (forall s, P s -> P' s) -> (forall a b s, Q' a b s -> Q a b s) -> simulates P' m am Q' -> simulates P m am Q.
Proof.
  intros HP HQ Hm s Hs b y Hy. destruct (Hm s (HP s Hs) b y Hy) as (a & s' & ? & ? & ?). exists a, s'. eauto.
Qed.

Lemma sim_fail {A B} P (m : prog X A) (Q : A -> B -> X -> Prop) : simulates P m fail Q.
Proof. by intros s Hs b y Hy. Qed.

(** The same partial value. *)
Lemma sim_opt {A} P (x : option A) (Q : A -> A -> X -> Prop) :
  (forall a s, P s -> x = Some a -> Q a a s) -> simulates P (opt x) (opt x) Q.
Proof.
  intros HQ s Hs b y Hy. unfold opt in *. destruct x as [a|]; [|done]. injection Hy as <- <-. exists a, s. eauto.
Qed.

Lemma sim_pre {A B} (F : Prop) P (m : prog X A) (am : prog Y B) Q :
  (forall s, P s -> F) -> (F -> simulates P m am Q) -> simulates P m am Q.
Proof. intros HF Hm s Hs. exact (Hm (HF s Hs) s Hs). Qed.

End Sim.

(** Associativity, to align the steps of a program with those of its specification. *)
Lemma prog_assoc {X A B C} (m : prog X A) (f : A -> prog X B) (g : B -> prog X C) s :
  ((m ≫= f) ≫= g) s = (m ≫= (fun a => f a ≫= g)) s.
Proof. unfold mbind, prog_bind. by destruct (m s) as [[a s']|]. Qed.

Lemma sim_eq {X Y A B} (abs : X -> Y) P (m m' : prog X A) (am am' : prog Y B) Q :
  (forall s, P s -> m s = m' s) -> (forall a, am a = am' a) -> simulates abs P m' am' Q -> simulates abs P m am Q.
Proof. intros Hm Ham Hs s HP b y Hy. rewrite (Hm s HP). rewrite Ham in Hy. by apply Hs. Qed.

(** ** Flags *)

Lemma has_or c f g : has (set_flags c (Z.lor (flags c) f)) g = has c g || negb (Z.land f g =? 0).
Proof.
  unfold has. cbn. rewrite Z.land_lor_distr_l. destruct (Z.eqb_spec (Z.land (flags c) g) 0) as [->|Hne].
  - by rewrite Z.lor_0_l.
  - cbn. apply negb_true_iff, Z.eqb_neq. intros Hz. apply Z.lor_eq_0_iff in Hz as [? _]. done.
Qed.

(** A flag that is not cleared stays, one that is cleared goes. *)
Lemma has_clear_other c f g : Z.land (Z.lnot f) g = g -> has (set_flags c (Z.land (flags c) (Z.lnot f))) g = has c g.
Proof. intros Hg. unfold has. cbn. by rewrite <- Z.land_assoc, Hg. Qed.

Lemma has_clear_same c f g : Z.land (Z.lnot f) g = 0 -> has (set_flags c (Z.land (flags c) (Z.lnot f))) g = false.
Proof. intros Hg. unfold has. cbn. by rewrite <- Z.land_assoc, Hg, Z.land_0_r. Qed.

(** The flags that the replies depend on. *)
Definition same_reply_flags (c : redisClient) (f : Z) : Prop :=
  forall g, g ∈ [REDIS_LUA_CLIENT; REDIS_MASTER; REDIS_MASTER_FORCE_REPLY; REDIS_CLOSE_AFTER_REPLY] ->
    has (set_flags c f) g = has c g.

Lemma accepts_flags ae c f : same_reply_flags c f -> accepts ae (set_flags c f) = accepts ae c.
Proof.
  intros Hf. unfold accepts, willing, prepareClientToWrite.
  rewrite !Hf by (repeat (apply list_elem_of_here || apply list_elem_of_further)).
  f_equal. cbn [fd bufpos Reply.reply replstate repl_put_online_on_ack set_flags].
  destruct (has c REDIS_LUA_CLIENT); [done|]. destruct (_ && _); [done|]. destruct (fd c <=? 0); [done|].
  destruct (_ && _); [by destruct ae|done].
Qed.

Lemma ready_flags zm k st c f : same_reply_flags c f -> ready zm k st c -> ready zm k st (set_flags c f).
Proof.
  intros Hf Hr. apply (ready_data zm k st c); [by repeat split| |done]. destruct Hr as (_ & _ & Hw & _).
  intros Hn Hon Hlua. apply Hw; [done|done|]. rewrite <- Hlua. symmetry. apply Hf. by left.
Qed.

(** ** Lemmas: the shared integers *)

Lemma ints_incr st p st' : incrRefCount st p = Some st' -> integers st' = integers st.
Proof. unfold incrRefCount. intros H. inv_bind. by case_match; simplify_eq. Qed.

Lemma ints_decr st p st' : decrRefCount st p = Some st' -> integers st' = integers st.
Proof. unfold decrRefCount. intros H. inv_bind. by repeat (case_match; simplify_eq). Qed.

Lemma ints_create st v p st' : createObject st v = (p, st') -> integers st' = integers st.
Proof. unfold createObject. by intros [= <- <-]. Qed.

Lemma ints_string st s p st' : createStringObject st s = (p, st') -> integers st' = integers st.
Proof. unfold createStringObject. case_match; apply ints_create. Qed.

Lemma ints_decoded st p q st' : getDecodedObject st p = Some (q, st') -> integers st' = integers st.
Proof.
  unfold getDecodedObject. intros H. apply bind_Some in H as (o & _ & H). case_match.
  1, 2: apply bind_Some in H as (st1 & H1 & [= <- <-]); by apply ints_incr in H1.
  apply bind_Some in H as ([n b] & _ & H). case_match; [|done]. injection H as H. by apply ints_string in H.
Qed.

Lemma ints_dup st r p st' r' : dupLastObjectIfNeeded st r = Some (p, st', r') -> integers st' = integers st.
Proof.
  unfold dupLastObjectIfNeeded, dupStringObject. intros H. apply bind_Some in H as (n & _ & H). apply bind_Some in H as (q & _ & H).
  apply bind_Some in H as (o & _ & H). case_match; [|by injection H as <- <- <-].
  apply bind_Some in H as ([x st1] & Hx & H).
  apply bind_Some in Hx as (o' & _ & [= Hx]). apply bind_Some in H as (st2 & H2 & [= <- <- <-]). rewrite (ints_decr _ _ _ H2).
  by repeat case_match; apply ints_create in Hx.
Qed.

Section Ints.
Context (zm : Z -> Z) (lim : Z -> clientBufferLimitsConfig) (now : Z) (ae : bool) (sh : sharedObjects).

Lemma ints_tail st r s st' r' : append_to_tail zm st r s = Some (st', r') -> integers st' = integers st.
Proof.
  unfold append_to_tail. intros H. apply bind_Some in H as (n & _ & H). apply bind_Some in H as (q & _ & H).
  apply bind_Some in H as (o & _ & H). case_match; [|done..]. apply bind_Some in H as ([[p st1] l] & Hd & H).
  apply ints_dup in Hd. apply bind_Some in H as (o' & _ & H). case_match; [|done..]. injection H as <- <-. exact Hd.
Qed.

(** The three functions that add to the list have the same shape. *)
Ltac ints_list :=
  intros H; match type of H with context [if ?b then Some _ else _] => destruct b; [by injection H as <- <-|] end;
  apply bind_Some in H as ([st1 r1] & Hadd & H); apply bind_Some in H as (r2 & _ & [= <- <-]).

Lemma ints_addObject st r p st' r' : _addReplyObjectToList zm lim now st r p = Some (st', r') -> integers st' = integers st.
Proof.
  unfold _addReplyObjectToList. ints_list. case_match.
  - apply bind_Some in Hadd as (st2 & Hi & Hadd). apply bind_Some in Hadd as (o & _ & Hadd). case_match. injection Hadd as <- <-. by apply ints_incr in Hi.
  - apply bind_Some in Hadd as (o & _ & Hadd). apply bind_Some in Hadd as (s & _ & Hadd). apply bind_Some in Hadd as (b & _ & Hadd).
    case_match; [by apply ints_tail in Hadd|]. apply bind_Some in Hadd as (st2 & Hi & Hadd). apply bind_Some in Hadd as (o' & _ & Hadd). case_match.
    injection Hadd as <- <-. by apply ints_incr in Hi.
Qed.

Lemma ints_addString st r s st' r' : _addReplyStringToList zm lim now st r s = Some (st', r') -> integers st' = integers st.
Proof.
  unfold _addReplyStringToList. ints_list. destruct (createStringObject st s) as [p st2] eqn:Hc. apply ints_string in Hc. case_match.
  - apply bind_Some in Hadd as (o & _ & Hadd). case_match. by injection Hadd as <- <-.
  - apply bind_Some in Hadd as (b & _ & Hadd). case_match; [by apply ints_tail in Hadd|]. apply bind_Some in Hadd as (o & _ & Hadd). case_match.
    by injection Hadd as <- <-.
Qed.

Lemma ints_addSds st r s f st' r' : _addReplySdsToList zm lim now st r s f = Some (st', r') -> integers st' = integers st.
Proof.
  unfold _addReplySdsToList. ints_list. destruct (createObject st (RAW s f)) as [p st2] eqn:Hc. apply ints_create in Hc. case_match.
  - case_match. by injection Hadd as <- <-.
  - apply bind_Some in Hadd as (b & _ & Hadd). case_match; [by apply ints_tail in Hadd|]. case_match. by injection Hadd as <- <-.
Qed.

Lemma ints_addReply st r p st' r' : Reply.addReply zm lim now ae st r p = Some (st', r') -> integers st' = integers st.
Proof.
  unfold Reply.addReply. destruct (prepareClientToWrite ae r) as [b r1]. intros H. destruct (negb b); [by injection H as <- <-|].
  apply bind_Some in H as (o & _ & H). destruct (val o) as [s f|s|v].
  1, 2: apply bind_Some in H as ([d r2] & _ & H); destruct d; [by injection H as <- <-|by apply ints_addObject in H].
  apply bind_Some in H as ([d r2] & _ & H). destruct d; [by injection H as <- <-|]. apply bind_Some in H as ([q st1] & Hd & H). apply ints_decoded in Hd.
  apply bind_Some in H as (o' & _ & H). apply bind_Some in H as (s & _ & H). apply bind_Some in H as ([d r3] & _ & H).
  apply bind_Some in H as ([st2 r4] & Ha & H). apply bind_Some in H as (st3 & Hdd & [= <- <-]). apply ints_decr in Hdd. rewrite Hdd, <- Hd.
  destruct d; [by injection Ha as <- <-|by apply ints_addObject in Ha].
Qed.

Lemma ints_addReplyString st r s st' r' : Reply.addReplyString zm lim now ae st r s = Some (st', r') -> integers st' = integers st.
Proof.
  unfold Reply.addReplyString. destruct (prepareClientToWrite ae r) as [b r1]. intros H. destruct (negb b); [by injection H as <- <-|].
  apply bind_Some in H as ([d r2] & _ & H). destruct d; [by injection H as <- <-|by apply ints_addString in H].
Qed.

Lemma ints_addReplySds st r s f st' r' : Reply.addReplySds zm lim now ae st r s f = Some (st', r') -> integers st' = integers st.
Proof.
  unfold Reply.addReplySds. destruct (prepareClientToWrite ae r) as [b r1]. intros H. destruct (negb b); [by injection H as <- <-|].
  apply bind_Some in H as ([d r2] & _ & H). destruct d; [by injection H as <- <-|by apply ints_addSds in H].
Qed.

Lemma ints_strings st r a b e st' r' :
  ('(st, c) ← Reply.addReplyString zm lim now ae st r a;
   '(st, c) ← Reply.addReplyString zm lim now ae st c b; Reply.addReplyString zm lim now ae st c e) = Some (st', r') ->
  integers st' = integers st.
Proof.
  intros H. apply bind_Some in H as ([st1 r1] & H1 & H). apply bind_Some in H as ([st2 r2] & H2 & H).
  by rewrite (ints_addReplyString _ _ _ _ _ H), (ints_addReplyString _ _ _ _ _ H2), (ints_addReplyString _ _ _ _ _ H1).
Qed.

Lemma ints_prefix st r n p st' r' : addReplyLongLongWithPrefix zm lim now ae sh st r n p = Some (st', r') -> integers st' = integers st.
Proof.
  unfold addReplyLongLongWithPrefix. intros H. destruct (_ && _); [|destruct (_ && _)]; apply bind_Some in H as (x & _ & H);
    by (apply ints_addReply in H || apply ints_addReplyString in H).
Qed.

Lemma ints_buffer st r s st' r' : Reply.addReplyBulkCBuffer zm lim now ae sh st r s = Some (st', r') -> integers st' = integers st.
Proof.
  unfold Reply.addReplyBulkCBuffer. intros H. apply bind_Some in H as ([st1 r1] & H1 & H). apply bind_Some in H as ([st2 r2] & H2 & H).
  by rewrite (ints_addReply _ _ _ _ _ H), (ints_addReplyString _ _ _ _ _ H2), (ints_prefix _ _ _ _ _ _ H1).
Qed.

Lemma ints_reply st r op st' r' : reply_with zm lim now ae sh st r op = Some (st', r') -> integers st' = integers st.
Proof.
  destruct op as [p|s|s f|s|s|s|n|n|p|s|[s|]|n]; cbn [reply_with].
  - apply ints_addReply.
  - apply ints_addReplyString.
  - apply ints_addReplySds.
  - apply ints_strings.
  - apply ints_strings.
  - apply ints_strings.
  - unfold Reply.addReplyLongLong. repeat case_match; [apply ints_addReply..|apply ints_prefix].
  - unfold Reply.addReplyMultiBulkLen. destruct (n <? _); [|apply ints_prefix]. intros H. apply bind_Some in H as (q & _ & H). by apply ints_addReply in H.
  - unfold Reply.addReplyBulk. intros H. apply bind_Some in H as ([st1 r1] & H1 & H). apply bind_Some in H as ([st2 r2] & H2 & H).
    rewrite (ints_addReply _ _ _ _ _ H), (ints_addReply _ _ _ _ _ H2). unfold addReplyBulkLen in H1.
    apply bind_Some in H1 as (o & _ & H1). apply bind_Some in H1 as (l & _ & H1). case_match; [|by apply ints_prefix in H1].
    apply bind_Some in H1 as (q & _ & H1). by apply ints_addReply in H1.
  - apply ints_buffer.
  - apply ints_buffer.
  - apply ints_addReply.
  - unfold addReplyBulkLongLong. intros H. apply bind_Some in H as (s & _ & H). by apply ints_buffer in H.
Qed.

End Ints.

(** ** References *)

Definition loc_of (v : dbval) : option loc := match v with VString p => Some p | VOther _ => None end.
Definition occs (l : list loc) (p : loc) : Z := lsum (fun q => count (Some q) p) l.

(** The references of a database, and of a client without those of its output buffer. *)
Definition db_refs (p : loc) (d : redisDb) : Z :=
  msum (fun v => count (loc_of v) p) (dict d) + msum (fun e => count (Some e.1) p) (watched_keys d).
Definition cl_refs (p : loc) (cl : client) : Z :=
  occs (argv cl) p + occs (mstate cl ≫= mc_argv) p + occs (wkeys cl).*2 p.

Definition hold (s : server) (p : loc) : Z := lsum (db_refs p) (dbs s) + msum (cl_refs p) (clients s).
Definition rhold (s : server) (p : loc) : Z := msum (fun cl => occ (Reply.reply (rc cl)) p) (clients s).

Lemma occs_nonneg l p : 0 <= occs l p.
Proof. apply lsum_nonneg. intros q. apply count_range. Qed.

Lemma occs_app l l' p : occs (l ++ l') p = occs l p + occs l' p.
Proof. apply lsum_app. Qed.

Lemma occs_elem l p : p ∈ l -> 1 <= occs l p.
Proof.
  intros Hp. pose proof (lsum_ge (fun q => count (Some q) p) l p ltac:(intros; apply count_range) Hp) as H.
  cbn in H. by rewrite count_same in H.
Qed.

Lemma occs_pos l p : 0 < occs l p -> p ∈ l.
Proof.
  induction l as [|q l IH]; cbn; [lia|]. unfold count. case_decide as Hq; [injection Hq as ->; by left|].
  intros H. right. apply IH. exact H.
Qed.

Lemma db_refs_nonneg p d : 0 <= db_refs p d.
Proof.
  unfold db_refs. pose proof (msum_nonneg (fun v => count (loc_of v) p) (dict d) ltac:(intros; apply count_range)).
  pose proof (msum_nonneg (fun e : loc * list cid => count (Some e.1) p) (watched_keys d) ltac:(intros; apply count_range)). lia.
Qed.

Lemma cl_refs_nonneg p cl : 0 <= cl_refs p cl.
Proof. unfold cl_refs. pose proof (occs_nonneg (argv cl) p). pose proof (occs_nonneg (mstate cl ≫= mc_argv) p). pose proof (occs_nonneg (wkeys cl).*2 p). lia. Qed.

Lemma hold_nonneg s p : 0 <= hold s p.
Proof.
  unfold hold. pose proof (lsum_nonneg (db_refs p) (dbs s) (db_refs_nonneg p)).
  pose proof (msum_nonneg (cl_refs p) (clients s) (cl_refs_nonneg p)). lia.
Qed.

Lemma rhold_nonneg s p : 0 <= rhold s p.
Proof. unfold rhold. apply msum_nonneg. intros. apply occ_nonneg. Qed.

(** Whoever refers to an object counts. *)
Lemma hold_client s c cl p : clients s !! c = Some cl -> cl_refs p cl <= hold s p.
Proof.
  intros Hc. unfold hold. pose proof (msum_ge (cl_refs p) (clients s) c cl (cl_refs_nonneg p) Hc).
  pose proof (lsum_nonneg (db_refs p) (dbs s) (db_refs_nonneg p)). lia.
Qed.

Lemma hold_argv s c cl p : clients s !! c = Some cl -> p ∈ argv cl -> 1 <= hold s p.
Proof.
  intros Hc Hp. pose proof (hold_client s c cl p Hc). pose proof (occs_elem _ _ Hp). unfold cl_refs in *.
  pose proof (occs_nonneg (mstate cl ≫= mc_argv) p). pose proof (occs_nonneg (wkeys cl).*2 p). lia.
Qed.

Lemma hold_queue s c cl mc p : clients s !! c = Some cl -> mc ∈ mstate cl -> p ∈ mc_argv mc -> 1 <= hold s p.
Proof.
  intros Hc Hm Hp. pose proof (hold_client s c cl p Hc). assert (p ∈ mstate cl ≫= mc_argv) as Hin by (apply list_elem_of_bind; eauto).
  pose proof (occs_elem _ _ Hin). unfold cl_refs in *. pose proof (occs_nonneg (argv cl) p). pose proof (occs_nonneg (wkeys cl).*2 p). lia.
Qed.

Lemma hold_wkey s c cl w : clients s !! c = Some cl -> w ∈ wkeys cl -> 1 <= hold s w.2.
Proof.
  intros Hc Hw. pose proof (hold_client s c cl w.2 Hc). assert (w.2 ∈ (wkeys cl).*2) as Hin by (apply list_elem_of_fmap; eauto).
  pose proof (occs_elem _ _ Hin). unfold cl_refs in *. pose proof (occs_nonneg (argv cl) w.2). pose proof (occs_nonneg (mstate cl ≫= mc_argv) w.2). lia.
Qed.

Lemma hold_db s i d p : dbs s !! i = Some d -> db_refs p d <= hold s p.
Proof.
  intros Hd. unfold hold. pose proof (msum_nonneg (cl_refs p) (clients s) (cl_refs_nonneg p)).
  pose proof (lsum_ge (db_refs p) (dbs s) d (db_refs_nonneg p) (list_elem_of_lookup_2 _ _ _ Hd)). lia.
Qed.

Lemma hold_dict s i d k p : dbs s !! i = Some d -> dict d !! k = Some (VString p) -> 1 <= hold s p.
Proof.
  intros Hd Hk. pose proof (hold_db s i d p Hd) as H. unfold db_refs in H.
  pose proof (msum_ge (fun v => count (loc_of v) p) (dict d) k _ ltac:(intros; apply count_range) Hk) as H1. cbn in H1. rewrite count_same in H1.
  pose proof (msum_nonneg (fun e : loc * list cid => count (Some e.1) p) (watched_keys d) ltac:(intros; apply count_range)). lia.
Qed.

Lemma hold_watched s i d k e : dbs s !! i = Some d -> watched_keys d !! k = Some e -> 1 <= hold s e.1.
Proof.
  intros Hd Hk. pose proof (hold_db s i d e.1 Hd) as H. unfold db_refs in H.
  pose proof (msum_ge (fun x : loc * list cid => count (Some x.1) e.1) (watched_keys d) k _ ltac:(intros; apply count_range) Hk) as H1.
  cbn in H1. rewrite count_same in H1.
  pose proof (msum_nonneg (fun v => count (loc_of v) e.1) (dict d) ltac:(intros; apply count_range)). lia.
Qed.

Lemma rhold_client s c cl p : clients s !! c = Some cl -> occ (Reply.reply (rc cl)) p <= rhold s p.
Proof. intros Hc. apply (msum_ge (fun cl => occ (Reply.reply (rc cl)) p) (clients s) c cl); [intros; apply occ_nonneg|done]. Qed.

(** ** What a state stands for *)

Definition sval (st : store) (p : loc) : bytes := match heap st !! p with Some o => value (val o) | None => [] end.

Definition aval_of (st : store) (v : dbval) : aval := match v with VString p => AString (sval st p) | VOther t => AOther t end.
Definition adb_of (st : store) (d : redisDb) : adb := mk_adb (aval_of st <$> dict d) (expires d).
Definition wset (st : store) (cl : client) : list (nat * bytes) := (fun w => (w.1, sval st w.2)) <$> wkeys cl.

Section Facts.
Context `{E : Env}.

Definition acl_of (st : store) (cl : client) : aclient :=
  mk_acl (accepts ae_ok (rc cl)) (cdb cl) (cl_has cl REDIS_MULTI) (cl_has cl REDIS_DIRTY_CAS) (cl_has cl REDIS_DIRTY_EXEC)
    ((fun mc => (mc_cmd mc, sval st <$> mc_argv mc)) <$> mstate cl) (wset st cl) (pending st (rc cl)).

Definition abs (s : server) : aserver :=
  mk_as (adb_of (objs s) <$> dbs s) (acl_of (objs s) <$> clients s) (dirty s) (ticks s) (trace s).

(** ** The invariant *)

Definition sds_at (st : store) (p : loc) : Prop := exists o, heap st !! p = Some o /\ sdsEncodedObject (val o) = true.
Definition val_at (st : store) (x : loc * strval) : Prop := exists o, heap st !! x.1 = Some o /\ val o = x.2.
Definition text_at (st : store) (p : loc) (bs : bytes) : Prop := exists o, heap st !! p = Some o /\ value (val o) = bs /\ light (val o).

Definition shared_texts : list (loc * bytes) :=
  [(crlf (shared_base shared), crlf_); (czero (shared_base shared), reply_line 58 0);
   (cone (shared_base shared), reply_line 58 1); (nullbulk (shared_base shared), null_text);
   (ok shared, ok_text); (emptybulk shared, empty_text); (nullmultibulk shared, null_array);
   (queued shared, bytes_of_string "+QUEUED" ++ crlf_); (colon shared, [58]);
   (wrongtypeerr shared, wrongtype_text); (nokeyerr shared, error (bytes_of_string "no such key"));
   (syntaxerr shared, error (bytes_of_string "syntax error"));
   (sameobjecterr shared, error (bytes_of_string "source and destination objects are the same"));
   (outofrangeerr shared, error (bytes_of_string "index out of range"));
   (execaborterr shared, execabort_text); (del shared, bytes_of_string "DEL")].

(** [rest] are the references of the rest of the server. *)
Definition shared_texts_ok (rest : loc -> Z) (st : store) : Prop :=
  (forall p bs, (p, bs) ∈ shared_texts -> 0 < rest p /\ text_at st p bs) /\
  (forall i, 0 <= i < REDIS_SHARED_BULKHDR_LEN ->
    (exists p, getb (mbulkhdr (shared_base shared)) i = Some p /\ 0 < rest p /\ text_at st p (reply_line 42 i)) /\
    (exists p, getb (bulkhdr (shared_base shared)) i = Some p /\ 0 < rest p /\ text_at st p (reply_line 36 i))) /\
  (forall i p, 0 <= i < REDIS_SHARED_INTEGERS -> getb (integers st) i = Some p -> 0 < rest p).

Definition watchers (d : redisDb) (k : bytes) : list cid := match watched_keys d !! k with Some e => e.2 | None => [] end.

(** The two sides of the watched keys. *)
Definition watch_ok (s : server) : Prop :=
  forall i d k, dbs s !! i = Some d ->
    NoDup (watchers d k) /\
    (forall c, c ∈ watchers d k <-> exists cl, clients s !! c = Some cl /\ (i, k) ∈ wset (objs s) cl) /\
    (forall e, watched_keys d !! k = Some e -> e.2 <> [] /\ sval (objs s) e.1 = k /\ sds_at (objs s) e.1).

Definition client_ok (k : Z) (s : server) (cl : client) : Prop :=
  ready zmalloc_size k (objs s) (rc cl) /\ (cdb cl < length (dbs s))%nat /\
  (cl_has cl REDIS_FORCE_AOF = false /\ cl_has cl REDIS_FORCE_REPL = false) /\
  (forall mc p, mc ∈ mstate cl -> p ∈ mc_argv mc -> sds_at (objs s) p) /\
  (forall w, w ∈ wkeys cl -> (w.1 < length (dbs s))%nat /\ sds_at (objs s) w.2) /\
  NoDup (wset (objs s) cl).

(** An entry of a database, or [None] for a key that is not there, with what its object
    has. *)
Definition known_at (s : server) (x : nat * bytes * option dbval * strval) : Prop :=
  let '(i, k, v, sv) := x in
  exists d, dbs s !! i = Some d /\ dict d !! k = v /\ match v with Some (VString p) => val_at (objs s) (p, sv) | _ => True end.

(** [args] are the arguments of the client [c], [own] the references of the program
    itself; [known] is what it has looked up.  The other clients have no arguments. *)
Record inv (rest : loc -> Z) (k : Z) (c : cid) (ci : nat) (args own : list (loc * strval))
    (known : list (nat * bytes * option dbval * strval)) (s : server) : Prop := {
  inv_store : store_ok (objs s);
  inv_margin : margin k (objs s);
  inv_k : 0 <= k <= 1000000;
  inv_rest : forall p, 0 <= rest p;
  inv_refs : forall p, refs (objs s) p = hold s p + rhold s p + occs own.*1 p + rest p;
  inv_shared : shared_texts_ok rest (objs s);
  inv_light : forall p o, 0 < hold s p + occs own.*1 p -> heap (objs s) !! p = Some o -> light (val o);
  inv_clients : forall d cl, clients s !! d = Some cl -> client_ok k s cl;
  inv_exp : forall i d key, dbs s !! i = Some d -> is_Some (expires d !! key) -> is_Some (dict d !! key);
  inv_watch : watch_ok s;
  inv_cur : exists cl, clients s !! c = Some cl /\ argv cl = args.*1 /\ cdb cl = ci;
  inv_vals : Forall (val_at (objs s)) (args ++ own);
  inv_known : Forall (known_at s) known;
  inv_idle : forall d cl, clients s !! d = Some cl -> d <> c -> argv cl = [];
}.

(** ** Lemmas: stores *)

(** Objects in use have their values. *)
Definition keeps_used (s : server) (st' : store) (use : loc -> Prop) : Prop :=
  forall p o, heap (objs s) !! p = Some o -> use p -> exists o', heap st' !! p = Some o' /\ val o' = val o.

Lemma used_exists rest k c ci args own known s p :
  inv rest k c ci args own known s -> 0 < hold s p + rhold s p + occs own.*1 p + rest p -> exists o, heap (objs s) !! p = Some o.
Proof. intros Hi Hp. rewrite <- (inv_refs _ _ _ _ _ _ _ _ Hi) in Hp. by destruct (refs_exists _ _ Hp) as [o Ho]; exists o. Qed.

Lemma hold_exists rest k c ci args own known s p :
  inv rest k c ci args own known s -> 1 <= hold s p -> exists o, heap (objs s) !! p = Some o.
Proof.
  intros Hi Hp. apply (used_exists rest k c ci args own known s p Hi).
  pose proof (rhold_nonneg s p). pose proof (occs_nonneg own.*1 p). pose proof (inv_rest _ _ _ _ _ _ _ _ Hi p). lia.
Qed.

Lemma sval_kept st st' p : (forall o, heap st !! p = Some o -> exists o', heap st' !! p = Some o' /\ val o' = val o) ->
  (exists o, heap st !! p = Some o) -> sval st' p = sval st p.
Proof. intros Hk (o & Ho). destruct (Hk o Ho) as (o' & Ho' & Hv). unfold sval. by rewrite Ho, Ho', Hv. Qed.

Lemma sds_kept st st' p : (forall o, heap st !! p = Some o -> exists o', heap st' !! p = Some o' /\ val o' = val o) ->
  sds_at st p -> sds_at st' p.
Proof. intros Hk (o & Ho & He). destruct (Hk o Ho) as (o' & Ho' & Hv). exists o'. by rewrite Hv. Qed.

Lemma val_kept st st' x : (forall o, heap st !! x.1 = Some o -> exists o', heap st' !! x.1 = Some o' /\ val o' = val o) ->
  val_at st x -> val_at st' x.
Proof. intros Hk (o & Ho & He). destruct (Hk o Ho) as (o' & Ho' & Hv). exists o'. by rewrite Hv. Qed.

Lemma text_kept st st' p bs : (forall o, heap st !! p = Some o -> exists o', heap st' !! p = Some o' /\ val o' = val o) ->
  text_at st p bs -> text_at st' p bs.
Proof. intros Hk (o & Ho & He). destruct (Hk o Ho) as (o' & Ho' & Hv). exists o'. by rewrite Hv. Qed.

Section Store.
Context (rest : loc -> Z) (k : Z) (c : cid) (ci : nat) (args own : list (loc * strval)) (known : list (nat * bytes * option dbval * strval)).
Context (s : server) (st' : store) (Hi : inv rest k c ci args own known s).
(** The references of the output buffers that do not change, those of the clients that
    are not [skip]. *)
Context (orep : loc -> Z) (skip : cid -> Prop).
Hypothesis orep_nonneg : forall p, 0 <= orep p.
Hypothesis orep_client : forall d cl p, ~ skip d -> clients s !! d = Some cl -> occ (Reply.reply (rc cl)) p <= orep p.
Hypothesis Hkeep : keeps_used s st' (fun p => 0 < hold s p + orep p + rest p).

Lemma kept_hold p : 1 <= hold s p -> forall o, heap (objs s) !! p = Some o -> exists o', heap st' !! p = Some o' /\ val o' = val o.
Proof.
  intros Hp o Ho. apply Hkeep; [done|]. pose proof (orep_nonneg p). pose proof (inv_rest _ _ _ _ _ _ _ _ Hi p). lia.
Qed.

Lemma kept_rest p : 0 < rest p -> forall o, heap (objs s) !! p = Some o -> exists o', heap st' !! p = Some o' /\ val o' = val o.
Proof. intros Hp o Ho. apply Hkeep; [done|]. pose proof (orep_nonneg p). pose proof (hold_nonneg s p). lia. Qed.

Lemma sval_hold p : 1 <= hold s p -> sval st' p = sval (objs s) p.
Proof. intros Hp. apply sval_kept; [by apply kept_hold|]. by apply (hold_exists rest k c ci args own known s p). Qed.

Lemma wset_kept d cl : clients s !! d = Some cl -> wset st' cl = wset (objs s) cl.
Proof.
  intros Hd. unfold wset. apply list_fmap_ext. intros j w Hw. f_equal. apply sval_hold.
  apply (hold_wkey s d cl); [done|]. by apply list_elem_of_lookup_2 in Hw.
Qed.

Lemma agree_kept d cl : ~ skip d -> clients s !! d = Some cl -> agree (objs s) st' (Reply.reply (rc cl)).
Proof.
  intros Hs Hd n p Hn Hp. destruct (inv_clients _ _ _ _ _ _ _ _ Hi d cl Hd) as ((_ & Hrok & _) & _).
  destruct (ok_nodes _ _ _ Hrok n p Hn Hp) as (o & Ho & _).
  destruct (Hkeep p o Ho) as (o' & Ho' & Hv); [|by exists o, o'].
  pose proof (occ_elem _ n p Hn Hp). pose proof (orep_client d cl p Hs Hd). pose proof (hold_nonneg s p).
  pose proof (inv_rest _ _ _ _ _ _ _ _ Hi p). lia.
Qed.

Lemma acl_kept d cl : (forall p, occ (Reply.reply (rc cl)) p <= refs st' p) ->
  ~ skip d -> clients s !! d = Some cl -> acl_of st' cl = acl_of (objs s) cl /\ reply_ok zmalloc_size st' (rc cl).
Proof.
  intros Hocc Hs Hd. destruct (inv_clients _ _ _ _ _ _ _ _ Hi d cl Hd) as ((_ & Hrok & _) & _).
  destruct (reply_ok_agree zmalloc_size (objs s) st' (rc cl)) as [Hok Hpend]; [by apply (agree_kept d)|done|done|].
  split; [|done]. unfold acl_of. rewrite (wset_kept d cl Hd), Hpend. f_equal.
  apply list_fmap_ext. intros j mc Hmc. f_equal. apply list_fmap_ext. intros x p Hp. apply sval_hold.
  apply (hold_queue s d cl mc); [done|by apply list_elem_of_lookup_2 in Hmc|by apply list_elem_of_lookup_2 in Hp].
Qed.

Lemma adb_kept i d : dbs s !! i = Some d -> adb_of st' d = adb_of (objs s) d.
Proof.
  intros Hd. unfold adb_of. f_equal. apply map_fmap_ext. intros key v Hv. destruct v as [p|t]; [|done]. cbn. f_equal.
  apply sval_hold. by apply (hold_dict s i d key).
Qed.

End Store.

Lemma inv_set_objs rest k c ci args own known s st' k' own' :
  inv rest k c ci args own known s -> keeps_used s st' (fun p => 0 < hold s p + rhold s p + rest p) ->
  store_ok st' -> margin k' st' -> 0 <= k' <= k -> integers st' = integers (objs s) ->
  (forall p, refs st' p = hold s p + rhold s p + occs own'.*1 p + rest p) ->
  Forall (val_at st') own' -> Forall (fun x => light x.2) own' ->
  inv rest k' c ci args own' known (set_objs s st') /\ abs (set_objs s st') = abs s.
Proof.
  intros Hi Hkeep Hok Hm Hk Hint Hrefs Hval Hlight.
  assert (forall d cl p, ~ (fun _ : cid => False) d -> clients s !! d = Some cl -> occ (Reply.reply (rc cl)) p <= rhold s p) as Hor
    by (intros d cl p _; apply rhold_client).
  pose proof (rhold_nonneg s) as Hr0.
  pose proof (kept_hold _ _ _ _ _ _ _ _ _ Hi _ Hr0 Hkeep) as kept_hold'.
  pose proof (kept_rest _ _ _ _ Hr0 Hkeep) as kept_rest'.
  pose proof (sval_hold _ _ _ _ _ _ _ _ _ Hi _ Hr0 Hkeep) as sval_hold'.
  pose proof (wset_kept _ _ _ _ _ _ _ _ _ Hi _ Hr0 Hkeep) as wset_kept'.
  pose proof (adb_kept _ _ _ _ _ _ _ _ _ Hi _ Hr0 Hkeep) as adb_kept'.
  pose proof (fun d cl Hocc => acl_kept _ _ _ _ _ _ _ _ _ Hi _ _ Hr0 Hor Hkeep d cl Hocc (fun F : False => F)) as acl_kept'.
  assert (forall d cl, clients s !! d = Some cl -> forall p, occ (Reply.reply (rc cl)) p <= refs st' p) as Hocc.
  { intros d cl Hd p. rewrite Hrefs. pose proof (rhold_client s d cl p Hd). pose proof (hold_nonneg s p).
    pose proof (occs_nonneg own'.*1 p). pose proof (inv_rest _ _ _ _ _ _ _ _ Hi p). lia. }
  split.
  2: { unfold abs. cbn. f_equal.
       - apply list_fmap_ext. intros i d Hd. by apply (adb_kept' i).
       - apply map_fmap_ext. intros d cl Hd. by apply (acl_kept' d); [apply (Hocc d)|]. }
  split; cbn [objs set_objs].
  - done.
  - done.
  - pose proof (inv_k _ _ _ _ _ _ _ _ Hi). lia.
  - apply Hi.
  - exact Hrefs.
  - destruct (inv_shared _ _ _ _ _ _ _ _ Hi) as (S1 & S2 & S3). split; [|split].
    + intros p bs Hin. destruct (S1 p bs Hin) as [Hp Ht]. split; [done|]. by apply (text_kept (objs s)); [apply kept_rest'|].
    + intros i Hb. destruct (S2 i Hb) as [(p & Hg & Hp & Ht) (q & Hg' & Hq & Ht')].
      split; [exists p|exists q]; (split; [done|]); (split; [done|]); by apply (text_kept (objs s)); [apply kept_rest'|].
    + intros i p. rewrite Hint. apply S3.
  - intros p o' Hp Ho'. destruct (decide (0 < hold s p)) as [Hh|Hh].
    + destruct (hold_exists rest k c ci args own known s p Hi) as (o & Ho); [lia|].
      destruct (kept_hold' p ltac:(lia) o Ho) as (o2 & Ho2 & Hv). rewrite Ho' in Ho2. injection Ho2 as <-. rewrite Hv.
      apply (inv_light _ _ _ _ _ _ _ _ Hi p o); [|done]. pose proof (occs_nonneg own.*1 p). lia.
    + change (hold (set_objs s st') p) with (hold s p) in Hp. pose proof (hold_nonneg s p).
      assert (p ∈ own'.*1) as Hin by (apply occs_pos; lia). apply list_elem_of_fmap in Hin as (x & -> & Hx).
      rewrite Forall_forall in Hval, Hlight. destruct (Hval x Hx) as (o2 & Ho2 & Hv). rewrite Ho' in Ho2. injection Ho2 as <-.
      rewrite Hv. by apply Hlight.
  - intros d cl Hd. destruct (inv_clients _ _ _ _ _ _ _ _ Hi d cl Hd) as (Hr & Hdb & Hf & Hq & Hw & Hn).
    destruct (acl_kept' d cl (Hocc d cl Hd) Hd) as [_ Hrok]. split; [|split; [done|split; [done|split; [|split]]]].
    + destruct Hr as (_ & _ & Hwk & Hkk & _ & Hby). split; [done|]. split; [done|]. split; [done|]. split; [lia|]. split; [done|lia].
    + intros mc p Hmc Hp. apply (sds_kept (objs s)); [|by apply (Hq mc)]. apply kept_hold'. by apply (hold_queue s d cl mc).
    + intros w Hin. destruct (Hw w Hin). split; [done|]. apply (sds_kept (objs s)); [|done]. apply kept_hold'. by apply (hold_wkey s d cl).
    + cbn [objs set_objs]. by rewrite (wset_kept' d cl Hd).
  - apply Hi.
  - intros i d key Hd. destruct (inv_watch _ _ _ _ _ _ _ _ Hi i d key Hd) as (W1 & W2 & W3). split; [done|]. split.
    + intros x. rewrite W2. split; intros (cl & Hx & Hin); exists cl; (split; [done|]); cbn [objs set_objs] in *;
        [rewrite (wset_kept' x cl Hx)|rewrite (wset_kept' x cl Hx) in Hin]; done.
    + intros e He. destruct (W3 e He) as (? & Hs & Hsd). cbn [objs set_objs]. split; [done|].
      pose proof (hold_watched s i d key e Hd He). split; [by rewrite sval_hold'|]. apply (sds_kept (objs s)); [by apply kept_hold'|done].
  - apply Hi.
  - apply Forall_app. split; [|done]. pose proof (inv_vals _ _ _ _ _ _ _ _ Hi) as Hv. apply Forall_app in Hv as [Hv _].
    destruct (inv_cur _ _ _ _ _ _ _ _ Hi) as (cl & Hc & Ha & Hcd). rewrite Forall_forall in *. intros x Hx. specialize (Hv x Hx).
    apply (val_kept (objs s)); [|done]. apply kept_hold'. apply (hold_argv s c cl); [done|]. rewrite Ha. apply list_elem_of_fmap. eauto.
  - pose proof (inv_known _ _ _ _ _ _ _ _ Hi) as Hkn. rewrite Forall_forall in *. intros [[[i key] v] sv] Hx.
    specialize (Hkn _ Hx). destruct Hkn as (d & Hd & Hv & Hval'). exists d. split; [done|]. split; [done|]. destruct v as [[p|t]|]; [|done..].
    apply (val_kept (objs s)); [|done]. apply kept_hold'. by apply (hold_dict s i d key).
  - apply (inv_idle _ _ _ _ _ _ _ _ Hi).
Qed.

(** ** Lemmas: clients and databases *)

Lemma hold_put_client s d cl cl' p :
  clients s !! d = Some cl -> hold (set_clients s (<[d := cl']> (clients s))) p = hold s p - cl_refs p cl + cl_refs p cl'.
Proof. intros Hd. unfold hold. cbn. rewrite (msum_update _ _ _ _ _ Hd). lia. Qed.

Lemma rhold_put_client s d cl cl' p :
  clients s !! d = Some cl ->
  rhold (set_clients s (<[d := cl']> (clients s))) p = rhold s p - occ (Reply.reply (rc cl)) p + occ (Reply.reply (rc cl')) p.
Proof. intros Hd. unfold rhold. cbn. by rewrite (msum_update _ _ _ _ _ Hd). Qed.

Lemma hold_put_db s i d d' p :
  dbs s !! i = Some d -> hold (set_dbs s (<[i := d']> (dbs s))) p = hold s p - db_refs p d + db_refs p d'.
Proof. intros Hd. unfold hold. cbn. rewrite (lsum_update _ _ _ _ _ Hd). lia. Qed.

(** The reply data of two clients are the same, and the flags that matter. *)
Definition same_rc (r r' : redisClient) : Prop := r' = set_flags r (flags r') /\ same_reply_flags r (flags r').

Lemma same_rc_refl r : same_rc r r.
Proof. split; [by destruct r|]. intros g _. by destruct r. Qed.

Lemma ready_same_rc zm k st r r' : same_rc r r' -> ready zm k st r -> ready zm k st r'.
Proof. intros [-> Hf] Hr. by apply ready_flags. Qed.

Lemma accepts_same_rc ae r r' : same_rc r r' -> accepts ae r' = accepts ae r.
Proof. intros [-> Hf]. by apply accepts_flags. Qed.

Lemma reply_same_rc r r' : same_rc r r' -> Reply.reply r' = Reply.reply r.
Proof. by intros [-> _]. Qed.

Lemma pending_same_rc st r r' : same_rc r r' -> pending st r' = pending st r.
Proof. by intros [-> _]. Qed.

Lemma watch_put_client s d cl cl' :
  clients s !! d = Some cl -> wkeys cl' = wkeys cl -> watch_ok s -> watch_ok (set_clients s (<[d := cl']> (clients s))).
Proof.
  intros Hd Hw Hok i db key Hdb. destruct (Hok i db key Hdb) as (W1 & W2 & W3). split; [done|]. split; [|done].
  intros x. rewrite W2. cbn. destruct (decide (d = x)) as [<-|Hne].
  - rewrite lookup_insert_eq. unfold wset. split; intros (y & Hy & Hin); [exists cl'|exists cl]; (split; [done|]);
      rewrite Hd in * || idtac; injection Hy as <-; [by rewrite Hw|by rewrite <- Hw].
  - by rewrite lookup_insert_ne.
Qed.

Lemma abs_put_client s d cl' :
  abs (set_clients s (<[d := cl']> (clients s))) = set_aclients (abs s) (<[d := acl_of (objs s) cl']> (aclients (abs s))).
Proof. unfold abs, set_aclients. cbn. by rewrite fmap_insert. Qed.

Lemma abs_put_db s i d' :
  abs (set_dbs s (<[i := d']> (dbs s))) = set_adbs (abs s) (<[i := adb_of (objs s) d']> (adbs (abs s))).
Proof. unfold abs, set_adbs. cbn. by rewrite list_fmap_insert. Qed.

Lemma inv_put_client rest k c ci args own known s d cl cl' ci' args' own' :
  inv rest k c ci args own known s -> clients s !! d = Some cl ->
  same_rc (rc cl) (rc cl') -> wkeys cl' = wkeys cl -> (cdb cl' < length (dbs s))%nat ->
  cl_has cl' REDIS_FORCE_AOF = false -> cl_has cl' REDIS_FORCE_REPL = false ->
  (forall mc p, mc ∈ mstate cl' -> p ∈ mc_argv mc -> sds_at (objs s) p) ->
  (forall p, cl_refs p cl + occs own.*1 p = cl_refs p cl' + occs own'.*1 p) ->
  (if decide (d = c) then argv cl' = args'.*1 /\ cdb cl' = ci' else args' = args /\ ci' = ci /\ argv cl' = argv cl) ->
  Forall (val_at (objs s)) (args' ++ own') ->
  inv rest k c ci' args' own' known (set_clients s (<[d := cl']> (clients s))).
Proof.
  intros Hi Hd Hrc Hw Hdb Hf1 Hf2 Hq Hrefs Hargs Hvals.
  assert (forall p, hold (set_clients s (<[d := cl']> (clients s))) p + occs own'.*1 p = hold s p + occs own.*1 p) as Hh.
  { intros p. rewrite (hold_put_client s d cl cl' p Hd). specialize (Hrefs p). lia. }
  destruct Hi as [A1 A2 A3 A4 A5 A6 A7 A8 A9 A10 A11 A12 A13 A14]. split; try done.
  - intros p. rewrite (rhold_put_client s d cl cl' p Hd), (reply_same_rc _ _ Hrc). cbn [objs set_clients]. rewrite A5. specialize (Hh p). lia.
  - intros p o. rewrite Hh. apply A7.
  - intros e cle He. cbn in He. destruct (decide (d = e)) as [<-|Hne].
    + rewrite lookup_insert_eq in He. injection He as <-. destruct (A8 d cl Hd) as (B1 & B2 & B3 & B4 & B5 & B6).
      split; [by apply (ready_same_rc _ _ _ (rc cl))|]. split; [done|]. split; [done|]. split; [done|].
      unfold wset. rewrite Hw. done.
    + rewrite lookup_insert_ne in He by done. exact (A8 e cle He).
  - by apply (watch_put_client s d cl).
  - destruct A11 as (clc & Hc & Ha & Hcd). cbn. case_decide as Hdc.
    + subst d. exists cl'. by rewrite lookup_insert_eq.
    + exists clc. rewrite lookup_insert_ne by done. by destruct Hargs as (-> & -> & _).
  - intros e cle He Hne. cbn in He. destruct (decide (d = e)) as [<-|Hde]; [|rewrite lookup_insert_ne in He by done; by apply (A14 e)].
    rewrite lookup_insert_eq in He. injection He as <-. rewrite decide_False in Hargs by done. destruct Hargs as (_ & _ & ->). by apply (A14 d).
Qed.

Lemma inv_put_db rest k c ci args own known s i d d' own' known' :
  inv rest k c ci args own known s -> dbs s !! i = Some d -> watched_keys d' = watched_keys d ->
  (forall key, is_Some (expires d' !! key) -> is_Some (dict d' !! key)) ->
  (forall p, msum (fun v => count (loc_of v) p) (dict d) + occs own.*1 p = msum (fun v => count (loc_of v) p) (dict d') + occs own'.*1 p) ->
  Forall (val_at (objs s)) own' ->
  Forall (known_at (set_dbs s (<[i := d']> (dbs s)))) known' ->
  inv rest k c ci args own' known' (set_dbs s (<[i := d']> (dbs s))).
Proof.
  intros Hi Hd Hw Hex Hrefs Hvals Hkn.
  assert (forall p, hold (set_dbs s (<[i := d']> (dbs s))) p + occs own'.*1 p = hold s p + occs own.*1 p) as Hh.
  { intros p. rewrite (hold_put_db s i d d' p Hd). unfold db_refs. rewrite Hw. specialize (Hrefs p). lia. }
  pose proof (lookup_lt_Some _ _ _ Hd) as Hlt.
  destruct Hi as [A1 A2 A3 A4 A5 A6 A7 A8 A9 A10 A11 A12 A13 A14]. split; try done.
  - intros p. cbn [objs set_dbs]. rewrite A5. change (rhold (set_dbs s _) p) with (rhold s p). specialize (Hh p). lia.
  - intros p o. rewrite Hh. apply A7.
  - intros e cle He. destruct (A8 e cle He) as (B1 & B2 & B3 & B4 & B5 & B6). unfold client_ok. cbn [dbs set_dbs objs]. rewrite length_insert.
    done.
  - intros j dj key Hj. cbn in Hj. destruct (decide (i = j)) as [<-|Hne].
    + rewrite list_lookup_insert_eq in Hj by done. injection Hj as <-. apply Hex.
    + rewrite list_lookup_insert_ne in Hj by done. by apply (A9 j).
  - intros j dj key Hj. cbn in Hj. destruct (decide (i = j)) as [<-|Hne].
    + rewrite list_lookup_insert_eq in Hj by done. injection Hj as <-. destruct (A10 i d key Hd) as (W1 & W2 & W3).
      unfold watchers. rewrite Hw. done.
    + rewrite list_lookup_insert_ne in Hj by done. by apply (A10 j).
  - apply Forall_app. split; [|done]. by apply Forall_app in A12 as [? _].
Qed.

(** The other fields. *)
Lemma inv_fields rest k c ci args own known s s' :
  objs s' = objs s -> dbs s' = dbs s -> clients s' = clients s ->
  inv rest k c ci args own known s -> inv rest k c ci args own known s'.
Proof.
  intros Ho Hd Hc [A1 A2 A3 A4 A5 A6 A7 A8 A9 A10 A11 A12 A13 A14].
  assert (forall p, hold s' p = hold s p) as Hh by (intros p; unfold hold; by rewrite Hd, Hc).
  assert (forall p, rhold s' p = rhold s p) as Hr by (intros p; unfold rhold; by rewrite Hc).
  split; rewrite ?Ho; try done.
  - intros p. by rewrite Hh, Hr.
  - intros p o. rewrite Hh. apply A7.
  - intros d cl. unfold client_ok. rewrite Hc, Hd, Ho. apply A8.
  - rewrite Hd. apply A9.
  - unfold watch_ok. rewrite Hd, Hc, Ho. apply A10.
  - by rewrite Hc.
  - eapply Forall_impl; [exact A13|]. intros [[[i key] v] sv]. unfold known_at. by rewrite Hd, Ho.
  - by rewrite Hc.
Qed.

Lemma inv_weaken rest k k' c ci args own known s :
  0 <= k' <= k -> inv rest k c ci args own known s -> inv rest k' c ci args own known s.
Proof.
  intros Hk [A1 A2 A3 A4 A5 A6 A7 A8 A9 A10 A11 A12 A13 A14]. split; try done.
  - intros p o Hp. specialize (A2 p o Hp). lia.
  - lia.
  - intros d cl Hd. destruct (A8 d cl Hd) as (B1 & B2). split; [|done]. by apply (ready_weaken _ k).
Qed.

Lemma inv_forget rest k c ci args own known known' s :
  known' ⊆ known -> inv rest k c ci args own known s -> inv rest k c ci args own known' s.
Proof.
  intros Hk [A1 A2 A3 A4 A5 A6 A7 A8 A9 A10 A11 A12 A13 A14]. split; try done.
  rewrite Forall_forall in *. intros x Hx. by apply A13, Hk.
Qed.

(** ** Lemmas: replies *)

Section Client.
Context (rest : loc -> Z) (c : cid).
Hypothesis zmalloc_bound : forall n, 0 <= n -> 0 <= zmalloc_size n <= 2 * n + 4096.

Abbreviation I k ci args own known := (inv rest k c ci args own known).
Abbreviation sim := (simulates abs).

Lemma cur_client k ci args own known s : I k ci args own known s -> exists cl, clients s !! c = Some cl /\ argv cl = args.*1 /\ cdb cl = ci.
Proof. intros Hi. apply (inv_cur _ _ _ _ _ _ _ _ Hi). Qed.

Lemma abs_client s d cl : clients s !! d = Some cl -> aclients (abs s) !! d = Some (acl_of (objs s) cl).
Proof. intros Hd. cbn. by rewrite lookup_fmap, Hd. Qed.

Lemma pinned_used k ci args own known s cl p :
  I k ci args own known s -> clients s !! c = Some cl ->
  0 < hold s p + (rhold s p - occ (Reply.reply (rc cl)) p) + occs own.*1 p + rest p -> pinned (objs s) (rc cl) p.
Proof. intros Hi Hc Hp. unfold pinned. rewrite (inv_refs _ _ _ _ _ _ _ _ Hi). lia. Qed.

Lemma rhold_rest s cl p : clients s !! c = Some cl -> 0 <= rhold s p - occ (Reply.reply (rc cl)) p.
Proof. intros Hc. pose proof (rhold_client s c cl p Hc). lia. Qed.

Lemma str_at_text k ci args own known s cl p bs :
  I k ci args own known s -> clients s !! c = Some cl -> 0 < rest p -> text_at (objs s) p bs -> str_at (objs s) (rc cl) p bs.
Proof.
  intros Hi Hc Hp Ht. split; [|exact Ht]. apply (pinned_used k ci args own known s cl p Hi Hc).
  pose proof (rhold_rest s cl p Hc). pose proof (hold_nonneg s p). pose proof (occs_nonneg own.*1 p). lia.
Qed.

Lemma shared_ok_inv k ci args own known s cl :
  I k ci args own known s -> clients s !! c = Some cl -> shared_ok (shared_base shared) (objs s) (rc cl).
Proof.
  intros Hi Hc. destruct (inv_shared _ _ _ _ _ _ _ _ Hi) as (S1 & S2 & _).
  assert (forall p bs, (p, bs) ∈ shared_texts -> str_at (objs s) (rc cl) p bs) as Hs.
  { intros p bs Hin. destruct (S1 p bs Hin). by apply (str_at_text k ci args own known s cl). }
  split.
  1-4: apply Hs; unfold shared_texts; repeat (apply list_elem_of_here || apply list_elem_of_further).
  - intros i Hb. destruct (S2 i Hb) as [(p & Hg & Hp & Ht) _]. exists p. split; [done|]. by apply (str_at_text k ci args own known s cl).
  - intros i Hb. destruct (S2 i Hb) as [_ (p & Hg & Hp & Ht)]. exists p. split; [done|]. by apply (str_at_text k ci args own known s cl).
Qed.

Lemma same_has r r' f : same r r' -> Z.land REDIS_CLOSE_ASAP f = 0 -> has r' f = has r f.
Proof. intros (_ & _ & _ & Hf). apply Hf. Qed.

(** What a reply does to the state. *)
Lemma inv_reply k ci args own known s cl st' r bs :
  I (k + 6) ci args own known s -> clients s !! c = Some cl ->
  ready zmalloc_size k st' r -> accepts ae_ok r = accepts ae_ok (rc cl) ->
  ReplyFacts.ext (objs s) (rc cl) st' r (if accepts ae_ok (rc cl) then bs else []) ->
  integers st' = integers (objs s) ->
  let s' := set_clients (set_objs s st') (<[c := set_rc cl r]> (clients s)) in
  I k ci args own known s' /\ abs s' = set_aclients (abs s) (<[c := append_out bs (acl_of (objs s) cl)]> (aclients (abs s))).
Proof.
  intros Hi Hc Hr Hacc (Hsame & (Hrefs & Hvals) & Hpend & _) Hint s'. pose proof Hr as (Hok & Hrok & _ & Hk & Hm & _).
  assert (forall p, 0 <= rhold s p - occ (Reply.reply (rc cl)) p) as Hor0 by (intros p; by apply rhold_rest).
  assert (forall d cld p, d <> c -> clients s !! d = Some cld ->
    occ (Reply.reply (rc cld)) p <= rhold s p - occ (Reply.reply (rc cl)) p) as Hor.
  { intros d cld p Hne Hd. unfold rhold. rewrite (msum_delete _ _ _ _ Hc).
    pose proof (msum_ge (fun cl => occ (Reply.reply (rc cl)) p) (delete c (clients s)) d cld ltac:(intros; apply occ_nonneg)) as Hge.
    rewrite lookup_delete_ne in Hge by done. specialize (Hge Hd). cbn in Hge. lia. }
  assert (forall p o, heap (objs s) !! p = Some o ->
    0 < hold s p + (rhold s p - occ (Reply.reply (rc cl)) p) + occs own.*1 p + rest p ->
    exists o', heap st' !! p = Some o' /\ val o' = val o) as Hpin.
  { intros p o Ho Hp. apply Hvals; [|done]. by apply (pinned_used (k + 6) ci args own known s cl). }
  assert (keeps_used s st' (fun p => 0 < hold s p + (rhold s p - occ (Reply.reply (rc cl)) p) + rest p)) as Hkeep.
  { intros p o Ho Hp. apply Hpin; [done|]. pose proof (occs_nonneg own.*1 p). lia. }
  pose proof (kept_hold _ _ _ _ _ _ _ _ _ Hi _ Hor0 Hkeep) as kept_hold'.
  pose proof (kept_rest _ _ _ _ Hor0 Hkeep) as kept_rest'.
  pose proof (sval_hold _ _ _ _ _ _ _ _ _ Hi _ Hor0 Hkeep) as sval_hold'.
  pose proof (wset_kept _ _ _ _ _ _ _ _ _ Hi _ Hor0 Hkeep) as wset_kept'.
  pose proof (adb_kept _ _ _ _ _ _ _ _ _ Hi _ Hor0 Hkeep) as adb_kept'.
  assert (forall p, refs st' p = hold s p + (rhold s p - occ (Reply.reply (rc cl)) p + occ (Reply.reply r) p) + occs own.*1 p + rest p) as Hrefs'.
  { intros p. specialize (Hrefs p). rewrite (inv_refs _ _ _ _ _ _ _ _ Hi) in Hrefs. lia. }
  assert (forall d cld, d <> c -> clients s !! d = Some cld -> acl_of st' cld = acl_of (objs s) cld /\ reply_ok zmalloc_size st' (rc cld)) as acl_kept'.
  { intros d cld Hne Hd. apply (acl_kept _ _ _ _ _ _ _ _ _ Hi _ (fun x => x = c) Hor0 Hor Hkeep d); [|done|done].
    intros p. rewrite Hrefs'. pose proof (Hor d cld p Hne Hd). pose proof (hold_nonneg s p). pose proof (occs_nonneg own.*1 p).
    pose proof (inv_rest _ _ _ _ _ _ _ _ Hi p). pose proof (occ_nonneg (Reply.reply r) p). lia. }
  assert (forall p, hold s' p = hold s p) as Hh.
  { intros p. change (hold s' p) with (hold (set_clients s (<[c := set_rc cl r]> (clients s))) p). rewrite (hold_put_client s c cl _ p Hc).
    change (cl_refs p (set_rc cl r)) with (cl_refs p cl). lia. }
  assert (forall p, rhold s' p = rhold s p - occ (Reply.reply (rc cl)) p + occ (Reply.reply r) p) as Hrh
    by (intros p; exact (rhold_put_client s c cl (set_rc cl r) p Hc)).
  assert (forall f, f ∈ [REDIS_MULTI; REDIS_DIRTY_CAS; REDIS_DIRTY_EXEC; REDIS_FORCE_AOF; REDIS_FORCE_REPL] -> has r f = has (rc cl) f) as Hflag.
  { intros f Hf. apply (same_has _ _ _ Hsame). by repeat (apply elem_of_cons in Hf as [->|Hf]; [reflexivity|]); apply not_elem_of_nil in Hf. }
  assert (wset st' (set_rc cl r) = wset (objs s) cl) as Hws by (exact (wset_kept' c cl Hc)).
  destruct (inv_clients _ _ _ _ _ _ _ _ Hi c cl Hc) as (Q1 & Q2 & Q3 & Q4 & Q5 & Q6).
  split.
  2: { unfold abs, s'. cbn. unfold set_aclients. cbn. f_equal.
    - apply list_fmap_ext. intros i d Hd. by apply (adb_kept' i).
    - rewrite fmap_insert. apply map_eq. intros d. destruct (decide (d = c)) as [->|Hne].
      + rewrite !lookup_insert_eq. f_equal. unfold acl_of, append_out, cl_has. rewrite Hws.
        cbn [set_rc rc cdb mstate takes in_db multi dirty_cas dirty_exec queue watched out].
        rewrite Hacc, Hpend, !Hflag by (repeat (apply list_elem_of_here || apply list_elem_of_further)). f_equal.
        apply list_fmap_ext. intros j mc Hmc. f_equal. apply list_fmap_ext. intros x p Hp. apply sval_hold'.
        apply (hold_queue s c cl mc); [done|by apply list_elem_of_lookup_2 in Hmc|by apply list_elem_of_lookup_2 in Hp].
      + rewrite !lookup_insert_ne by done. rewrite !lookup_fmap. destruct (clients s !! d) as [cld|] eqn:Hd; [|done]. cbn. f_equal.
        by apply (acl_kept' d). }
  split.
  - done.
  - done.
  - done.
  - apply Hi.
  - intros p. rewrite Hh, Hrh. cbn. rewrite Hrefs'. lia.
  - destruct (inv_shared _ _ _ _ _ _ _ _ Hi) as (S1 & S2 & S3). split; [|split].
    + intros p b Hin. destruct (S1 p b Hin) as [Hp Ht]. split; [done|]. by apply (text_kept (objs s)); [apply kept_rest'|].
    + intros i Hb. destruct (S2 i Hb) as [(p & Hg & Hp & Ht) (q & Hg' & Hq & Ht')].
      split; [exists p|exists q]; (split; [done|]); (split; [done|]); by apply (text_kept (objs s)); [apply kept_rest'|].
    + intros i p. cbn. rewrite Hint. apply S3.
  - intros p o' Hp Ho'. rewrite Hh in Hp. cbn in Ho'.
    destruct (used_exists rest (k + 6) c ci args own known s p Hi) as (o & Ho).
    { pose proof (rhold_nonneg s p). pose proof (inv_rest _ _ _ _ _ _ _ _ Hi p). lia. }
    destruct (Hpin p o Ho) as (o2 & Ho2 & Hv); [specialize (Hor0 p); pose proof (inv_rest _ _ _ _ _ _ _ _ Hi p); lia|].
    rewrite Ho' in Ho2. injection Ho2 as <-. rewrite Hv. by apply (inv_light _ _ _ _ _ _ _ _ Hi p o).
  - intros d cld Hd. cbn in Hd. destruct (decide (d = c)) as [->|Hne].
    + rewrite lookup_insert_eq in Hd. injection Hd as <-. split; [done|]. split; [done|]. unfold cl_has. cbn.
      rewrite !Hflag by (repeat (apply list_elem_of_here || apply list_elem_of_further)). split; [done|].
      split. { intros mc p Hmc Hp. apply (sds_kept (objs s)); [|by apply (Q4 mc)]. apply kept_hold'. by apply (hold_queue s c cl mc). }
      split; [|change (NoDup (wset st' (set_rc cl r))); by rewrite Hws].
      intros w Hin. destruct (Q5 w Hin). split; [done|]. apply (sds_kept (objs s)); [|done]. apply kept_hold'. by apply (hold_wkey s c cl).
    + rewrite lookup_insert_ne in Hd by done. destruct (inv_clients _ _ _ _ _ _ _ _ Hi d cld Hd) as (P1 & P2 & P3 & P4 & P5 & P6).
      destruct (acl_kept' d cld Hne Hd) as [_ Hrokd]. split; [|split; [done|split; [done|split; [|split]]]].
      * destruct P1 as (_ & _ & Hwk & Hkk & _ & Hby). split; [done|]. split; [done|]. split; [done|]. split; [lia|]. split; [done|lia].
      * intros mc p Hmc Hp. apply (sds_kept (objs s)); [|by apply (P4 mc)]. apply kept_hold'. by apply (hold_queue s d cld mc).
      * intros w Hin. destruct (P5 w Hin). split; [done|]. apply (sds_kept (objs s)); [|done]. apply kept_hold'. by apply (hold_wkey s d cld).
      * change (NoDup (wset st' cld)). by rewrite (wset_kept' d cld Hd).
  - apply Hi.
  - intros i d key Hd. destruct (inv_watch _ _ _ _ _ _ _ _ Hi i d key Hd) as (W1 & W2 & W3). split; [done|]. split.
    + intros x. rewrite W2. change (objs s') with st'. cbn [clients set_clients set_objs s']. destruct (decide (x = c)) as [->|Hne].
      * rewrite lookup_insert_eq. split; intros (y & Hy & Hin).
        -- rewrite Hc in Hy. injection Hy as <-. exists (set_rc cl r). by rewrite Hws.
        -- injection Hy as <-. exists cl. by rewrite <- Hws.
      * rewrite lookup_insert_ne by done. split; intros (y & Hy & Hin); exists y; (split; [done|]);
          [rewrite (wset_kept' x y Hy)|rewrite (wset_kept' x y Hy) in Hin]; done.
    + intros e He. destruct (W3 e He) as (? & Hs & Hsd). cbn. split; [done|].
      pose proof (hold_watched s i d key e Hd He). split; [by rewrite sval_hold'|]. apply (sds_kept (objs s)); [by apply kept_hold'|done].
  - destruct (inv_cur _ _ _ _ _ _ _ _ Hi) as (clc & Hclc & Ha & Hcd). exists (set_rc cl r). cbn. rewrite lookup_insert_eq. split; [done|].
    rewrite Hc in Hclc. by injection Hclc as <-.
  - destruct (inv_cur _ _ _ _ _ _ _ _ Hi) as (clc & Hclc & Ha & Hcd). pose proof (inv_vals _ _ _ _ _ _ _ _ Hi) as Hv. rewrite Forall_forall in *.
    intros x Hx. specialize (Hv x Hx). apply (val_kept (objs s)); [|done]. intros o Ho. apply Hpin; [done|].
    specialize (Hor0 x.1). pose proof (inv_rest _ _ _ _ _ _ _ _ Hi x.1). pose proof (hold_nonneg s x.1). pose proof (occs_nonneg own.*1 x.1).
    apply elem_of_app in Hx as [Hx|Hx].
    + pose proof (hold_argv s c clc x.1 Hclc) as Hha. rewrite Ha in Hha. specialize (Hha ltac:(apply list_elem_of_fmap; eauto)). lia.
    + pose proof (occs_elem own.*1 x.1 ltac:(apply list_elem_of_fmap; eauto)). lia.
  - pose proof (inv_known _ _ _ _ _ _ _ _ Hi) as Hkn. rewrite Forall_forall in *. intros [[[i key] v] sv] Hx.
    specialize (Hkn _ Hx). destruct Hkn as (d & Hd & Hv & Hval'). exists d. split; [done|]. split; [done|]. destruct v as [[p|t]|]; [|done..].
    apply (val_kept (objs s)); [|done]. apply kept_hold'. by apply (hold_dict s i d key).
  - intros e cle He Hne. cbn in He. rewrite lookup_insert_ne in He by done. by apply (inv_idle _ _ _ _ _ _ _ _ Hi e).
Qed.

(** The budget of replies and references is counted in units. *)
Definition J (n : nat) (ci : nat) (args own : list (loc * strval)) (known : list (nat * bytes * option dbval * strval)) : server -> Prop :=
  inv rest (6 * Z.of_nat n) c ci args own known.

Lemma J_spend n ci args own known s : J (Datatypes.S n) ci args own known s -> J n ci args own known s.
Proof. unfold J. apply inv_weaken. lia. Qed.

Lemma J_forget n ci args own known known' s : known' ⊆ known -> J n ci args own known s -> J n ci args own known' s.
Proof. apply inv_forget. Qed.

Lemma sim_reply n ci args own known f op bs :
  (forall st r, f st r = reply_with zmalloc_size client_obuf_limits unixtime ae_ok (shared_base shared) st r op) ->
  (forall s cl, J (Datatypes.S n) ci args own known s -> clients s !! c = Some cl -> means (objs s) (rc cl) op bs /\ sized (objs s) op) ->
  sim (J (Datatypes.S n) ci args own known) (reply f c) (s_reply c bs) (fun _ _ => J n ci args own known).
Proof.
  intros Hf Hop s Hi u y Hy. destruct (cur_client _ _ _ _ _ _ Hi) as (cl & Hc & Ha & Hcd). destruct (Hop s cl Hi Hc) as [Hm Hs].
  unfold J in Hi. replace (6 * Z.of_nat (Datatypes.S n)) with (6 * Z.of_nat n + 6) in Hi by lia.
  destruct (inv_clients _ _ _ _ _ _ _ _ Hi c cl Hc) as (Hr & _).
  destruct (reply_with_spec zmalloc_size client_obuf_limits unixtime ae_ok (shared_base shared) zmalloc_bound (6 * Z.of_nat n)
    (objs s) (rc cl) op bs) as (st' & r & Hrun & Hr' & Hacc & Hext); [lia|done|by apply (shared_ok_inv (6 * Z.of_nat n + 6) ci args own known s)|done|done|].
  pose proof (ints_reply _ _ _ _ _ _ _ _ _ _ Hrun) as Hint. destruct (inv_reply _ ci args own known s cl st' r bs Hi Hc Hr' Hacc Hext Hint) as [Hi' Ha'].
  exists tt, (set_clients (set_objs s st') (<[c := set_rc cl r]> (clients s))). split.
  - unfold reply, the_client, on_store, put_client, mbind, prog_bind. rewrite Hc, Hf, Hrun. done.
  - split; [|exact Hi']. rewrite Ha'. unfold s_reply, s_client, s_put, mbind, prog_bind in Hy. rewrite (abs_client s c cl Hc) in Hy.
    by injection Hy as _ <-.
Qed.

Lemma sim_text n ci args own known p bs :
  (p, bs) ∈ shared_texts -> sim (J (Datatypes.S n) ci args own known) (addReply c p) (s_reply c bs) (fun _ _ => J n ci args own known).
Proof.
  intros Hp. apply (sim_reply _ _ _ _ _ _ (ROObject p)); [done|]. intros s cl Hi Hc. split; [|done].
  destruct (inv_shared _ _ _ _ _ _ _ _ Hi) as (S1 & _). destruct (S1 p bs Hp). by apply (str_at_text _ ci args own known s cl p bs Hi Hc).
Qed.

Lemma sim_error n ci args own known s :
  zlen s <= 536870912 -> sim (J (Datatypes.S n) ci args own known) (addReplyError c s) (s_reply c (error s)) (fun _ _ => J n ci args own known).
Proof. intros Hs. by apply (sim_reply _ _ _ _ _ _ (ROError s)). Qed.

Lemma sim_error_format n ci args own known s bs :
  zlen s <= 536870912 -> bs = error ((fun b => if (b =? 13) || (b =? 10) then 32 else b) <$> s) ->
  sim (J (Datatypes.S n) ci args own known) (addReplyErrorFormat c s) (s_reply c bs) (fun _ _ => J n ci args own known).
Proof. intros Hs ->. by apply (sim_reply _ _ _ _ _ _ (ROErrorFormat s)). Qed.

Lemma sim_status n ci args own known s :
  zlen s <= 536870912 ->
  sim (J (Datatypes.S n) ci args own known) (addReplyStatus c s) (s_reply c (bytes_of_string "+" ++ s ++ crlf_)) (fun _ _ => J n ci args own known).
Proof. intros Hs. by apply (sim_reply _ _ _ _ _ _ (ROStatus s)). Qed.

Lemma sim_int n ci args own known v :
  in_ll v -> sim (J (Datatypes.S n) ci args own known) (addReplyLongLong c v) (s_int c v) (fun _ _ => J n ci args own known).
Proof. intros Hv. by apply (sim_reply _ _ _ _ _ _ (ROLongLong v)). Qed.

Lemma sim_array n ci args own known v :
  0 <= v -> in_ll v ->
  sim (J (Datatypes.S n) ci args own known) (addReplyMultiBulkLen c v) (s_reply c (reply_line 42 v)) (fun _ _ => J n ci args own known).
Proof. intros Hv0 Hv. by apply (sim_reply _ _ _ _ _ _ (ROMultiBulkLen v)). Qed.

Lemma sim_buffer n ci args own known s :
  zlen s <= 536870912 ->
  sim (J (Datatypes.S n) ci args own known) (addReplyBulkCBuffer c s) (s_reply c (bulk s)) (fun _ _ => J n ci args own known).
Proof. intros Hs. by apply (sim_reply _ _ _ _ _ _ (ROBulkBuffer s)). Qed.

(** An object of the key space. *)
Lemma known_text n ci args own known s i key p sv cl :
  J n ci args own known s -> (i, key, Some (VString p), sv) ∈ known -> clients s !! c = Some cl ->
  str_at (objs s) (rc cl) p (value sv) /\ exists o, heap (objs s) !! p = Some o /\ val o = sv.
Proof.
  intros Hi Hk Hc. pose proof (inv_known _ _ _ _ _ _ _ _ Hi) as Hkn. rewrite Forall_forall in Hkn.
  destruct (Hkn _ Hk) as (d & Hd & Hv & (o & Ho & Hsv)). cbn in Ho, Hsv. subst sv. pose proof (hold_dict s i d key p Hd Hv) as Hh.
  split; [|by exists o]. split.
  - apply (pinned_used (6 * Z.of_nat n) ci args own known s cl p Hi Hc). pose proof (rhold_rest s cl p Hc). pose proof (occs_nonneg own.*1 p).
    pose proof (inv_rest _ _ _ _ _ _ _ _ Hi p). lia.
  - exists o. split; [done|]. split; [done|]. apply (inv_light _ _ _ _ _ _ _ _ Hi p o); [|done]. pose proof (occs_nonneg own.*1 p). lia.
Qed.

Lemma sim_object n ci args own known i key p sv :
  (i, key, Some (VString p), sv) ∈ known ->
  sim (J (Datatypes.S n) ci args own known) (addReply c p) (s_reply c (value sv)) (fun _ _ => J n ci args own known).
Proof.
  intros Hk. apply (sim_reply _ _ _ _ _ _ (ROObject p)); [done|]. intros s cl Hi Hc. split; [|done].
  by apply (known_text (Datatypes.S n) ci args own known s i key p sv cl).
Qed.

Lemma sim_bulk n ci args own known i key p sv :
  (i, key, Some (VString p), sv) ∈ known ->
  sim (J (Datatypes.S n) ci args own known) (addReplyBulk c p) (s_bulk c (value sv)) (fun _ _ => J n ci args own known).
Proof.
  intros Hk. unfold s_bulk. case_bool_decide as Hmin; [apply sim_fail|]. apply (sim_reply _ _ _ _ _ _ (ROBulk p)); [done|].
  intros s cl Hi Hc. destruct (known_text (Datatypes.S n) ci args own known s i key p sv cl Hi Hk Hc) as (Hat & o & Ho & Hv). split; [by exists (value sv)|].
  intros o' Ho'. rewrite Ho in Ho'. injection Ho' as <-. rewrite Hv. intros ->. by apply Hmin.
Qed.
End Client.
End Facts.
