(* ===== verification/DbFacts.v ===== *)
(** * The operations of db.c simulate those of the specification *)

From Stdlib Require Import ZArith Lia String.
From stdpp Require Import base numbers list gmap.
From S2P Require Import Prelude Util Object Reply ReplyFacts Server Watch Db Strings Multi KeySpec ServerFacts.

Open Scope Z_scope.

(** ** Lemmas: effects on the store *)

(** One reference to [drop] is given up and one to [add] gained; the other objects keep
    their values. *)
Definition effect (st st' : store) (drop add : option loc) : Prop :=
  store_ok st' /\ integers st' = integers st /\
  (forall x, refs st' x = refs st x - count drop x + count add x) /\
  (forall x o, heap st !! x = Some o -> drop <> Some x \/ 1 < refs st x -> exists o', heap st' !! x = Some o' /\ val o' = val o).

Lemma incr_effect st p o :
  store_ok st -> heap st !! p = Some o -> refcount o < INT32_MAX ->
  exists st', incrRefCount st p = Some st' /\ effect st st' None (Some p) /\ heap st' !! p = Some (mk_robj (refcount o + 1) (val o)).
Proof.
  intros Hst Hp Hr. destruct (incrRefCount_spec st p o Hst Hp Hr) as (st' & Hrun & -> & Hok & Hm & _).
  exists (set_heap st (<[p := mk_robj (refcount o + 1) (val o)]> (heap st))). split; [done|]. cbn. rewrite lookup_insert_eq. split; [|done].
  split; [done|]. split; [done|]. split; [exact Hm|]. intros x ox Hx _. cbn. destruct (decide (p = x)) as [<-|Hne].
  - rewrite lookup_insert_eq. eexists. split; [done|]. cbn. congruence.
  - rewrite lookup_insert_ne by done. by exists ox.
Qed.

(** The last reference to a shared integer is not the one that is given up. *)
Lemma decr_effect st p o :
  store_ok st -> heap st !! p = Some o ->
  (refcount o = 1 -> forall i, 0 <= i < REDIS_SHARED_INTEGERS -> getb (integers st) i <> Some p) ->
  exists st', decrRefCount st p = Some st' /\ effect st st' (Some p) None.
Proof.
  intros Hst Hp Hlast. destruct (ok_obj st Hst p o Hp) as [Hv Hc]. unfold decrRefCount. rewrite Hp. sbind.
  rewrite (proj2 (Z.leb_gt _ _)) by lia. destruct (Z.eqb_spec (refcount o) 1) as [Hone|Hone]; eexists; (split; [done|]).
  - split; [|split; [done|split]].
    + destruct Hst as [Hobj Hint]. split; cbn.
      * intros q o' [_ Hq]%lookup_delete_Some. by apply (Hobj q).
      * intros i Hi. destruct (Hint i Hi) as (q & o' & Hg & Hq & Ho'). exists q, o'. rewrite lookup_delete_ne; [done|].
        intros ->. by apply (Hlast Hone i).
    + intros x. unfold refs. cbn. destruct (decide (p = x)) as [<-|Hne].
      * rewrite lookup_delete_eq, Hp, count_same, count_none. lia.
      * rewrite lookup_delete_ne, (count_other p x), count_none by done. lia.
    + intros x ox Hx Hd. cbn. destruct (decide (p = x)) as [<-|Hne].
      * destruct Hd as [?|Hd]; [done|]. rewrite (refs_lookup st p o Hp) in Hd. lia.
      * rewrite lookup_delete_ne by done. by exists ox.
  - split; [|split; [done|split]].
    + apply store_ok_insert; cbn; [done..|lia|]. intros i q o' Hq Ho' <-. congruence.
    + intros x. rewrite refs_insert. destruct (decide (p = x)) as [<-|Hne].
      * rewrite count_same, count_none, (refs_lookup _ _ _ Hp). cbn. lia.
      * rewrite (count_other p x), count_none by done. lia.
    + intros x ox Hx _. cbn. destruct (decide (p = x)) as [<-|Hne].
      * rewrite lookup_insert_eq. eexists. split; [done|]. cbn. congruence.
      * rewrite lookup_insert_ne by done. by exists ox.
Qed.

Lemma create_effect st v p st' :
  createObject st v = (p, st') -> store_ok st -> wf_val v -> effect st st' None (Some p) /\ heap st' !! p = Some (mk_robj 1 v).
Proof.
  intros Hc Hst Hv. destruct (createObject_spec st v p st' Hc Hst Hv) as (Hp & -> & Hok & Hm & _). cbn. rewrite lookup_insert_eq.
  split; [|done]. split; [done|]. split; [done|]. split; [exact Hm|]. intros x ox Hx _. cbn.
  rewrite lookup_insert_ne by congruence. by exists ox.
Qed.

Lemma string_effect st s p st' :
  createStringObject st s = (p, st') -> store_ok st -> zlen s <= 536870912 ->
  exists v, effect st st' None (Some p) /\ heap st' !! p = Some (mk_robj 1 v) /\ value v = s /\ sds_of v = Some s /\ light v.
Proof.
  unfold createStringObject. intros Hc Hst Hs. destruct (Z.leb_spec (zlen s) REDIS_ENCODING_EMBSTR_SIZE_LIMIT) as [Hle|Hle];
    apply create_effect in Hc as [He Hp]; try done.
  - by exists (EMBSTR s).
  - exists (RAW s 0). split; [done|]. split; [done|]. split; [done|]. split; [done|]. cbn. lia.
Qed.

(** Putting a value in the place of one that nobody else refers to. *)
Lemma set_effect st p o v :
  store_ok st -> heap st !! p = Some o -> wf_val v -> (forall i, 0 <= i < REDIS_SHARED_INTEGERS -> getb (integers st) i <> Some p) ->
  refcount o = 1 ->
  effect st (set_heap st (<[p := mk_robj (refcount o) v]> (heap st))) (Some p) (Some p).
Proof.
  intros Hst Hp Hv Hint Hone. destruct (ok_obj st Hst p o Hp) as [_ Hc]. split; [|split; [done|split]].
  - destruct Hst as [Hobj Hi]. split; cbn.
    + intros q o' [[<- <-]|[_ Hq]]%lookup_insert_Some; [done|by apply (Hobj q)].
    + intros i Hb. destruct (Hi i Hb) as (q & o' & Hg & Hq & Ho'). exists q, o'. rewrite lookup_insert_ne; [done|]. intros ->. by apply (Hint i).
  - intros x. rewrite refs_insert. case_decide as Hx; [|lia]. subst x. rewrite (refs_lookup _ _ _ Hp). cbn. lia.
  - intros x ox Hx Hd. cbn. destruct (decide (p = x)) as [<-|Hne].
    + destruct Hd as [?|Hd]; [done|]. rewrite (refs_lookup st p o Hp) in Hd. lia.
    + rewrite lookup_insert_ne by done. by exists ox.
Qed.

(** The encoding of an argument. *)
Lemma encode_effect st p o :
  store_ok st -> room st -> heap st !! p = Some o -> light (val o) ->
  (forall i, 0 <= i < REDIS_SHARED_INTEGERS -> exists q, getb (integers st) i = Some q /\ (q = p -> 1 < refcount o)) ->
  exists q st' o', tryObjectEncoding st p = Some (q, st') /\ effect st st' (Some p) (Some q) /\
    heap st' !! q = Some o' /\ value (val o') = value (val o) /\ light (val o').
Proof.
  intros Hst Hroom Hp Hl Hint. destruct (tryObjectEncoding_correct st p o Hst Hroom Hp) as [(q & st' & o' & Hrun & Hok & Hq & Hval & Hm & _ & Hmany) _].
  assert (integers st' = integers st /\ (forall x ox, heap st !! x = Some ox -> x <> p -> exists o2, heap st' !! x = Some o2 /\ val o2 = val ox) /\ light (val o'))
    as (Hi & Hkeep & Hlo).
  { clear Hok Hm Hval. unfold tryObjectEncoding in Hrun. rewrite Hp in Hrun. cbn [mbind option_bind] in Hrun.
    assert (forall x ox, heap st !! x = Some ox -> x <> p -> exists o2, heap st !! x = Some o2 /\ val o2 = val ox) as Hid by eauto.
    assert (forall w x ox, heap st !! x = Some ox -> x <> p -> exists o2, <[p := mk_robj (refcount o) w]> (heap st) !! x = Some o2 /\ val o2 = val ox) as Hins
      by (intros w x ox Hx Hne; exists ox; by rewrite lookup_insert_ne).
    destruct (negb (sdsEncodedObject (val o))) eqn:Henc; [injection Hrun as <- <-; rewrite Hp in Hq; injection Hq as <-; done|].
    destruct (refcount o >? 1) eqn:Hrc; [injection Hrun as <- <-; rewrite Hp in Hq; injection Hq as <-; done|].
    match type of Hrun with (match ?x with _ => _ end = _) => destruct x as [v|] end.
    - destruct (_ && _) eqn:Hb.
      + apply bind_Some in Hrun as (st1 & Hd & Hrun). apply bind_Some in Hrun as (q1 & Hg & Hrun). apply bind_Some in Hrun as (st2 & Hinc & [= <- <-]).
        pose proof (ints_decr _ _ _ Hd) as Hd1. pose proof (ints_incr _ _ _ Hinc) as Hi1. split; [congruence|].
        assert (forall x, x <> p -> heap st1 !! x = heap st !! x) as Hsame.
        { intros x Hne. unfold decrRefCount in Hd. rewrite Hp in Hd. cbn [mbind option_bind] in Hd. repeat case_match; simplify_eq; cbn;
            by rewrite ?lookup_delete_ne, ?lookup_insert_ne by done. }
        unfold incrRefCount in Hinc. apply bind_Some in Hinc as (oq & Hoq & Hinc). case_match; simplify_eq. cbn in *. split.
        * intros x ox Hx Hne. destruct (decide (q1 = x)) as [<-|Hqx].
          -- rewrite lookup_insert_eq. eexists. split; [done|]. cbn. rewrite Hsame in Hoq by done. congruence.
          -- rewrite lookup_insert_ne, Hsame by done. by exists ox.
        * rewrite lookup_insert_eq in Hq. injection Hq as <-. cbn. apply andb_true_iff in Hb as [Hb Hb2]. apply andb_true_iff in Hb as [_ Hb1]. zbool.
          rewrite Hd1 in Hg. destruct (ok_int st Hst v) as (q2 & o2 & Hg2 & Hq2 & Hv2); [lia|]. rewrite Hg in Hg2. injection Hg2 as <-.
          destruct (decide (q1 = p)) as [->|Hne].
          -- exfalso. destruct (Hint v) as (q3 & Hg3 & Hq3); [lia|]. rewrite Hg in Hg3. injection Hg3 as <-. specialize (Hq3 eq_refl). lia.
          -- rewrite Hsame, Hq2 in Hoq by done. injection Hoq as <-. by rewrite Hv2.
      + injection Hrun as <- <-. cbn in *. rewrite lookup_insert_eq in Hq. injection Hq as <-. split; [done|]. split; [apply Hins|done].
    - destruct (_ <=? _).
      + destruct (val o) as [s f|s|v] eqn:Hvo; try (injection Hrun as <- <-; rewrite Hp in Hq; injection Hq as <-; rewrite Hvo; done); [|discriminate Henc].
        destruct (createEmbeddedStringObject st _) as [e st1] eqn:Hc. apply bind_Some in Hrun as (st2 & Hd & [= <- <-]).
        pose proof (ints_decr _ _ _ Hd) as Hd1. unfold createEmbeddedStringObject, createObject in Hc. injection Hc as He Hst1.
        assert (heap st !! e = None) as Hfe by (subst e; apply not_elem_of_dom, is_fresh).
        assert (forall x, x <> p -> heap st2 !! x = heap st1 !! x) as Hsame.
        { intros x Hne. unfold decrRefCount in Hd. apply bind_Some in Hd as (o2 & Ho2 & Hd). repeat case_match; simplify_eq; cbn;
            by rewrite ?lookup_delete_ne, ?lookup_insert_ne by done. }
        split; [by rewrite Hd1, <- Hst1|]. split.
        * intros x ox Hx Hne. rewrite Hsame by done. rewrite <- Hst1. cbn. rewrite He, lookup_insert_ne by congruence. by exists ox.
        * rewrite Hsame in Hq by congruence. rewrite <- Hst1 in Hq. cbn in Hq. rewrite He, lookup_insert_eq in Hq. by injection Hq as <-.
      + destruct (val o) as [s f|s|v] eqn:Hvo.
        * destruct (f >? _); injection Hrun as <- <-; cbn in *.
          -- rewrite lookup_insert_eq in Hq. injection Hq as <-. split; [done|]. split; [apply Hins|]. cbn. lia.
          -- rewrite Hp in Hq. injection Hq as <-. by rewrite Hvo.
        * injection Hrun as <- <-. rewrite Hp in Hq. injection Hq as <-. by rewrite Hvo.
        * injection Hrun as <- <-. rewrite Hp in Hq. injection Hq as <-. by rewrite Hvo. }
  exists q, st', o'. split; [done|]. split; [|done]. split; [done|]. split; [done|]. split; [apply Hm|].
  intros x ox Hx Hd. destruct (decide (x = p)) as [->|Hne]; [|by apply Hkeep]. destruct Hd as [?|Hd]; [done|].
  rewrite (refs_lookup st p o Hp) in Hd. destruct (Hmany Hd) as [_ ->]. by exists ox.
Qed.

Section Facts.
Context `{E : Env} (rest : loc -> Z) (c : cid).
Hypothesis zmalloc_bound : forall n, 0 <= n -> 0 <= zmalloc_size n <= 2 * n + 4096.

Abbreviation J := (J rest c).
Abbreviation sim := (simulates abs).
Implicit Types (args own : list (loc * strval)) (known : list (nat * bytes * option dbval * strval)).

(** ** Lemmas: the references of the program *)

(** A change of the store with the matching change of [own]. *)
Lemma inv_effect n m ci args own own' known s st' drop add :
  J n ci args own known s -> (m < n)%nat \/ m = n /\ (add = None \/ add = drop) ->
  effect (objs s) st' drop add -> (forall p, drop = Some p -> p ∈ own.*1) ->
  (forall x, occs own'.*1 x = occs own.*1 x - count drop x + count add x) ->
  Forall (val_at st') own' -> Forall (fun x => light x.2) own' ->
  J m ci args own' known (set_objs s st') /\ abs (set_objs s st') = abs s.
Proof.
  intros Hi Hmn (Hok & Hint & Hrefs & Hkeep) Hdrop Hocc Hval Hlight. unfold ServerFacts.J in *.
  pose proof (inv_k _ _ _ _ _ _ _ _ Hi) as Hk. pose proof (inv_margin _ _ _ _ _ _ _ _ Hi) as Hm.
  apply (inv_set_objs rest (6 * Z.of_nat n) c ci args own known s st'); try done.
  - intros x o Ho Hx. apply Hkeep; [done|]. destruct (decide (drop = Some x)) as [Hd|Hd]; [right|by left].
    rewrite (inv_refs _ _ _ _ _ _ _ _ Hi). pose proof (occs_elem own.*1 x (Hdrop x Hd)). lia.
  - intros p o Hp. pose proof (refs_lookup st' p o Hp) as Hr. rewrite Hrefs in Hr. pose proof (count_range drop p). pose proof (count_range add p).
    assert (add = None \/ add = drop -> count add p <= count drop p) as Hadd by (intros [-> | ->]; [rewrite count_none; lia|lia]).
    unfold refs in Hr. destruct (heap (objs s) !! p) as [o0|] eqn:Ho; [specialize (Hm p o0 Ho); destruct Hmn as [?|[-> Hn]]; [lia|specialize (Hadd Hn); lia]|].
    unfold INT32_MAX. lia.
  - destruct Hmn as [?|[-> _]]; lia.
  - intros p. rewrite Hrefs, (inv_refs _ _ _ _ _ _ _ _ Hi). specialize (Hocc p). lia.
Qed.

Lemma set_objs_id s : set_objs s (objs s) = s.
Proof. by destruct s. Qed.

Lemma occs_cons p (v : strval) (l : list (loc * strval)) x : occs ((p, v) :: l).*1 x = count (Some p) x + occs l.*1 x.
Proof. done. Qed.

Lemma own_vals n ci args own known s : J n ci args own known s -> Forall (val_at (objs s)) own /\ Forall (fun x => light x.2) own.
Proof.
  intros Hi. pose proof (inv_vals _ _ _ _ _ _ _ _ Hi) as Hv. apply Forall_app in Hv as [_ Hv]. split; [done|].
  rewrite Forall_forall in *. intros x Hx. destruct (Hv x Hx) as (o & Ho & Hvo). rewrite <- Hvo. apply (inv_light _ _ _ _ _ _ _ _ Hi x.1 o); [|done].
  pose proof (hold_nonneg s x.1). pose proof (occs_elem own.*1 x.1 ltac:(apply list_elem_of_fmap; eauto)). lia.
Qed.

Lemma args_vals n ci args own known s x : J n ci args own known s -> x ∈ args -> val_at (objs s) x.
Proof. intros Hi Hx. pose proof (inv_vals _ _ _ _ _ _ _ _ Hi) as Hv. rewrite Forall_forall in Hv. apply Hv, elem_of_app. by left. Qed.

Lemma args_light n ci args own known s x : J n ci args own known s -> x ∈ args -> light x.2.
Proof.
  intros Hi Hx. destruct (args_vals _ _ _ _ _ _ _ Hi Hx) as (o & Ho & <-). apply (inv_light _ _ _ _ _ _ _ _ Hi x.1 o); [|done].
  destruct (inv_cur _ _ _ _ _ _ _ _ Hi) as (cl & Hc & Ha & _). pose proof (hold_argv s c cl x.1 Hc) as Hh. rewrite Ha in Hh.
  specialize (Hh ltac:(apply list_elem_of_fmap; eauto)). pose proof (occs_nonneg own.*1 x.1). lia.
Qed.

(** The values that are kept stay the same under an effect that does not drop them. *)
Lemma effect_own st st' drop add (l : list (loc * strval)) :
  effect st st' drop add -> Forall (val_at st) l -> (forall x, x ∈ l -> drop <> Some x.1 \/ 1 < refs st x.1) -> Forall (val_at st') l.
Proof.
  intros (_ & _ & _ & Hkeep) Hl Hd. rewrite Forall_forall in *. intros x Hx. destruct (Hl x Hx) as (o & Ho & Hv).
  destruct (Hkeep x.1 o Ho (Hd x Hx)) as (o' & Ho' & Hv'). exists o'. by rewrite Hv'.
Qed.

Lemma run_incr n ci args own known s p v :
  J (Datatypes.S n) ci args own known s -> val_at (objs s) (p, v) -> light v ->
  exists s', incr p s = Some (tt, s') /\ abs s' = abs s /\ J n ci args ((p, v) :: own) known s' /\ val_at (objs s') (p, v).
Proof.
  intros Hi (o & Ho & Hv) Hl. cbn in *. pose proof (inv_margin _ _ _ _ _ _ _ _ Hi p o Ho) as Hm.
  destruct (incr_effect (objs s) p o) as (st' & Hrun & He & Hp); [apply Hi|done|lia|].
  destruct (own_vals _ _ _ _ _ _ Hi) as [Hov Hol].
  assert (val_at st' (p, v)) as Hpv by (eexists; split; [done|]; by cbn).
  destruct (inv_effect (Datatypes.S n) n ci args own ((p, v) :: own) known s st' None (Some p) Hi) as [Hi' Ha]; [lia|done|done| | | |].
  - intros x. rewrite occs_cons, count_none. lia.
  - constructor; [done|]. apply (effect_own (objs s) st' None (Some p)); [done|done|by left].
  - by constructor.
  - exists (set_objs s st'). split; [|done]. unfold incr, on_store. by rewrite Hrun.
Qed.

Lemma run_decr n ci args own known s p v :
  J n ci args ((p, v) :: own) known s ->
  exists s', decr p s = Some (tt, s') /\ abs s' = abs s /\ J n ci args own known s'.
Proof.
  intros Hi. destruct (own_vals _ _ _ _ _ _ Hi) as [Hov Hol]. apply Forall_cons in Hov as [(o & Ho & Hv) Hov]. apply Forall_cons in Hol as [_ Hol]. cbn in *.
  pose proof (inv_refs _ _ _ _ _ _ _ _ Hi) as Hr. pose proof (hold_nonneg s) as Hh. pose proof (rhold_nonneg s) as Hrh.
  pose proof (inv_rest _ _ _ _ _ _ _ _ Hi) as Hrest.
  destruct (decr_effect (objs s) p o) as (st' & Hrun & He); [apply Hi|done| |].
  { intros Hone i Hb Hg. destruct (inv_shared _ _ _ _ _ _ _ _ Hi) as (_ & _ & S3). specialize (S3 i p Hb Hg). specialize (Hr p).
    rewrite (refs_lookup _ _ _ Ho), Hone, occs_cons, count_same in Hr. pose proof (occs_nonneg own.*1 p). specialize (Hh p). specialize (Hrh p). lia. }
  destruct (inv_effect n n ci args ((p, v) :: own) own known s st' (Some p) None Hi) as [Hi' Ha]; [by right; split; [|left]|done| | | |done|].
  - intros q [= <-]. by left.
  - intros x. rewrite occs_cons, count_none. lia.
  - apply (effect_own (objs s) st' (Some p) None); [done|done|]. intros x Hx. destruct (decide (p = x.1)) as [->|Hne]; [right|left; congruence].
    rewrite Hr, occs_cons, count_same. pose proof (occs_elem own.*1 x.1 ltac:(apply list_elem_of_fmap; eauto)). specialize (Hh x.1). specialize (Hrh x.1).
    specialize (Hrest x.1). lia.
  - exists (set_objs s st'). split; [|done]. unfold decr, on_store. by rewrite Hrun.
Qed.

Lemma run_create n ci args own known s v (f : store -> loc * store) :
  J (Datatypes.S n) ci args own known s -> (forall st, f st = createObject st v) -> wf_val v -> light v ->
  exists p s', on_store (fun st => Some (f st)) s = Some (p, s') /\ abs s' = abs s /\ J n ci args ((p, v) :: own) known s'.
Proof.
  intros Hi Hf Hv Hl. destruct (createObject (objs s) v) as [p st'] eqn:Hc. destruct (create_effect _ _ _ _ Hc) as [He Hp]; [apply Hi|done|].
  destruct (own_vals _ _ _ _ _ _ Hi) as [Hov Hol].
  destruct (inv_effect (Datatypes.S n) n ci args own ((p, v) :: own) known s st' None (Some p) Hi) as [Hi' Ha]; [lia|done|done| | | |].
  - intros x. rewrite occs_cons, count_none. lia.
  - constructor; [by eexists|]. apply (effect_own (objs s) st' None (Some p)); [done|done|by left].
  - by constructor.
  - exists p, (set_objs s st'). split; [|done]. unfold on_store. by rewrite Hf, Hc.
Qed.

Lemma run_create_string n ci args own known s str :
  J (Datatypes.S n) ci args own known s -> zlen str <= 536870912 ->
  exists p v s', on_store (fun st => Some (createStringObject st str)) s = Some (p, s') /\ abs s' = abs s /\
    J n ci args ((p, v) :: own) known s' /\ value v = str /\ sds_of v = Some str.
Proof.
  intros Hi Hs. destruct (createStringObject (objs s) str) as [p st'] eqn:Hc.
  destruct (string_effect _ _ _ _ Hc) as (v & He & Hp & Hv & Hsd & Hl); [apply Hi|done|].
  destruct (own_vals _ _ _ _ _ _ Hi) as [Hov Hol].
  destruct (inv_effect (Datatypes.S n) n ci args own ((p, v) :: own) known s st' None (Some p) Hi) as [Hi' Ha]; [lia|done|done| | | |].
  - intros x. rewrite occs_cons, count_none. lia.
  - constructor; [by eexists|]. apply (effect_own (objs s) st' None (Some p)); [done|done|by left].
  - by constructor.
  - exists p, v, (set_objs s st'). split; [|done]. unfold on_store. by rewrite Hc.
Qed.

(** ** Lemmas: reading *)

(** The object at [key] has the string [k]. *)
Definition is_key args own (key : loc) (k : bytes) : Prop := exists v, (key, v) ∈ args ++ own /\ sds_of v = Some k.

Lemma sds_value v k : sds_of v = Some k -> value v = k.
Proof. destruct v; cbn; by intros [= ->]. Qed.

Lemma run_val n ci args own known s p v : J n ci args own known s -> (p, v) ∈ args ++ own -> val_of p s = Some (v, s).
Proof.
  intros Hi Hp. pose proof (inv_vals _ _ _ _ _ _ _ _ Hi) as Hv. rewrite Forall_forall in Hv. destruct (Hv _ Hp) as (o & Ho & Hvo). cbn in *.
  unfold val_of, on_store. rewrite Ho. cbn. by rewrite Hvo, set_objs_id.
Qed.

Lemma run_ptr n ci args own known s key k : J n ci args own known s -> is_key args own key k -> ptr key s = Some (k, s).
Proof.
  intros Hi (v & Hin & Hk). unfold ptr, mbind, prog_bind. rewrite (run_val _ _ _ _ _ _ _ _ Hi Hin). unfold opt. by rewrite Hk.
Qed.

Lemma sval_key n ci args own known s key k : J n ci args own known s -> is_key args own key k -> sval (objs s) key = k.
Proof.
  intros Hi (v & Hin & Hk). pose proof (inv_vals _ _ _ _ _ _ _ _ Hi) as Hv. rewrite Forall_forall in Hv. destruct (Hv _ Hin) as (o & Ho & Hvo).
  cbn in *. unfold sval. rewrite Ho, Hvo. by apply sds_value.
Qed.

Lemma is_key_cons args own key k x : is_key args own key k -> is_key args (x :: own) key k.
Proof. intros (v & Hin & Hk). exists v. split; [|done]. apply elem_of_app in Hin as [Hin|Hin]; apply elem_of_app; [by left|right; by right]. Qed.

Lemma abs_db s i : adbs (abs s) !! i = adb_of (objs s) <$> dbs s !! i.
Proof. cbn. by rewrite list_lookup_fmap. Qed.

(** A step that only reads. *)
Lemma sim_read {A B C} P (m : M A) a (f : A -> M B) (am : S C) Q :
  (forall s, P s -> m s = Some (a, s)) -> sim P (f a) am Q -> sim P (m ≫= f) am Q.
Proof.
  intros Hm Hf. apply (sim_left _ _ _ (fun x s => x = a /\ P s)); [|intros x s [-> Hs]; by apply Hf].
  intros s Hs. exists a, s. by rewrite (Hm s Hs).
Qed.

Lemma sim_ptr {B C} n ci args own known key k (f : bytes -> M B) (am : S C) Q :
  is_key args own key k -> sim (J n ci args own known) (f k) am Q -> sim (J n ci args own known) (ptr key ≫= f) am Q.
Proof. intros Hk. apply sim_read. intros s Hs. by apply (run_ptr n ci args own known). Qed.

Lemma sim_val {B C} n ci args own known p v (f : strval -> M B) (am : S C) Q :
  (p, v) ∈ args ++ own -> sim (J n ci args own known) (f v) am Q -> sim (J n ci args own known) (val_of p ≫= f) am Q.
Proof. intros Hk. apply sim_read. intros s Hs. by apply (run_val n ci args own known). Qed.

Lemma run_client n ci args own known s :
  J n ci args own known s -> exists cl, the_client c s = Some (cl, s) /\ clients s !! c = Some cl /\ argv cl = args.*1 /\ cdb cl = ci.
Proof. intros Hi. destruct (inv_cur _ _ _ _ _ _ _ _ Hi) as (cl & Hc & Ha & Hcd). exists cl. unfold the_client. by rewrite Hc. Qed.

Lemma sim_c_db {B C} n ci args own known (f : nat -> M B) (am : S C) Q :
  sim (J n ci args own known) (f ci) am Q -> sim (J n ci args own known) (c_db c ≫= f) am Q.
Proof.
  apply sim_read. intros s Hs. destruct (run_client _ _ _ _ _ _ Hs) as (cl & Hc & _ & _ & <-).
  unfold c_db, mbind, prog_bind. by rewrite Hc.
Qed.

Lemma sim_arg {B C} n ci args own known j p v (f : loc -> M B) (am : S C) Q :
  args !! j = Some (p, v) -> sim (J n ci args own known) (f p) am Q -> sim (J n ci args own known) (arg c j ≫= f) am Q.
Proof.
  intros Hj. apply sim_read. intros s Hs. destruct (run_client _ _ _ _ _ _ Hs) as (cl & Hc & _ & Ha & _).
  unfold arg, mbind, prog_bind, opt. by rewrite Hc, Ha, list_lookup_fmap, Hj.
Qed.

Lemma sim_argc {B C} n ci args own known (f : Z -> M B) (am : S C) Q :
  sim (J n ci args own known) (f (zlen args)) am Q -> sim (J n ci args own known) (argc c ≫= f) am Q.
Proof.
  apply sim_read. intros s Hs. destruct (run_client _ _ _ _ _ _ Hs) as (cl & Hc & _ & Ha & _).
  unfold argc, mbind, prog_bind. rewrite Hc, Ha. unfold zlen. by rewrite length_fmap.
Qed.

(** The specification reads the client. *)
Lemma sim_s_client_and {A B} (P : server -> Prop) n ci args own known (m : M A) (af : aclient -> S B) Q :
  (forall s, P s -> J n ci args own known s) ->
  (forall cl, in_db cl = ci -> sim (fun s => P s /\ aclients (abs s) !! c = Some cl) m (af cl) Q) ->
  sim P m (s_client c ≫= af) Q.
Proof.
  intros HP Hm. apply (sim_right _ _ _ _ (fun cl s => in_db cl = ci /\ P s /\ aclients (abs s) !! c = Some cl)).
  - intros s cl y Hs. destruct (run_client _ _ _ _ _ _ (HP s Hs)) as (cl' & _ & Hc & _ & Hcd). unfold s_client. rewrite (abs_client s c cl' Hc).
    by intros [= <- <-].
  - intros cl s (Hcd & Hs). by apply (Hm cl Hcd).
Qed.

Lemma sim_s_client {A B} n ci args own known (m : M A) (af : aclient -> S B) Q :
  (forall cl, in_db cl = ci -> sim (fun s => J n ci args own known s /\ aclients (abs s) !! c = Some cl) m (af cl) Q) ->
  sim (J n ci args own known) m (s_client c ≫= af) Q.
Proof. by apply (sim_s_client_and _ n ci args own known). Qed.

Lemma sim_drop {A B} (P P' : server -> Prop) (m : M A) (am : S B) Q : sim P m am Q -> sim (fun s => P s /\ P' s) m am Q.
Proof. intros Hm s [Hs _]. by apply Hm. Qed.

Lemma sim_exists {A B X} (P : X -> server -> Prop) (m : M A) (am : S B) Q :
  (forall x, sim (P x) m am Q) -> sim (fun s => exists x, P x s) m am Q.
Proof. intros Hm s [x Hs]. by apply (Hm x). Qed.

Lemma sim_and {A B} (F : Prop) P (m : M A) (am : S B) Q : (F -> sim P m am Q) -> sim (fun s => F /\ P s) m am Q.
Proof. intros Hm s [HF Hs]. by apply Hm. Qed.

(** ** Lemmas: the other fields *)

(** A step that changes none of the store, the databases and the clients. *)
Lemma sim_other {A} n ci args own known (m : M A) (am : S A) :
  (forall s, exists a s', m s = Some (a, s') /\ objs s' = objs s /\ dbs s' = dbs s /\ clients s' = clients s /\ am (abs s) = Some (a, abs s')) ->
  sim (J n ci args own known) m am (fun a b s => a = b /\ J n ci args own known s).
Proof.
  intros Hm s Hs b y Hy. destruct (Hm s) as (a & s' & Hrun & Ho & Hd & Hc & Ha). rewrite Ha in Hy. injection Hy as <- <-.
  exists a, s'. split; [done|]. split; [done|]. split; [done|]. by apply (inv_fields _ _ _ _ _ _ _ s).
Qed.

Lemma sim_other_unit n ci args own known (m : M unit) (am : S unit) :
  (forall s, exists a s', m s = Some (a, s') /\ objs s' = objs s /\ dbs s' = dbs s /\ clients s' = clients s /\ am (abs s) = Some (a, abs s')) ->
  sim (J n ci args own known) m am (fun _ _ => J n ci args own known).
Proof. intros Hm. apply (sim_weaken _ _ (J n ci args own known) _ _ _ (fun a b s => a = b /\ J n ci args own known s)); [done|by intros a b s [_ ?]|by apply sim_other]. Qed.

Lemma sim_tell n ci args own known e : sim (J n ci args own known) (tell e) (s_tell e) (fun _ _ => J n ci args own known).
Proof. apply sim_other_unit. intros s. by do 2 eexists. Qed.

Lemma sim_dirty n ci args own known z : sim (J n ci args own known) (add_dirty z) (s_dirty z) (fun _ _ => J n ci args own known).
Proof. apply sim_other_unit. intros s. by do 2 eexists. Qed.

Lemma sim_mstime n ci args own known : sim (J n ci args own known) mstime s_mstime (fun a b s => a = b /\ J n ci args own known s).
Proof. apply sim_other. intros s. by do 2 eexists. Qed.

Lemma sim_get_dirty n ci args own known : sim (J n ci args own known) get_dirty s_get_dirty (fun a b s => a = b /\ J n ci args own known s).
Proof. apply sim_other. intros s. by do 2 eexists. Qed.

Lemma sim_notify n ci args own known type ev key k db :
  is_key args own key k ->
  sim (J n ci args own known) (notifyKeyspaceEvent type ev key db) (s_tell (ENotify type ev k db)) (fun _ _ => J n ci args own known).
Proof. intros Hk. unfold notifyKeyspaceEvent. apply (sim_ptr _ _ _ _ _ _ k); [done|]. apply sim_tell. Qed.

(** A step of the program alone, of the statistics. *)
Lemma sim_stats {A B} n ci args own known (m : M unit) (f : unit -> M A) (am : S B) Q :
  (forall s, exists s', m s = Some (tt, s') /\ objs s' = objs s /\ dbs s' = dbs s /\ clients s' = clients s /\ abs s' = abs s) ->
  sim (J n ci args own known) (f tt) am Q -> sim (J n ci args own known) (m ≫= f) am Q.
Proof.
  intros Hm Hf. apply (sim_left _ _ _ (fun _ => J n ci args own known)); [|by intros []].
  intros s Hs. destruct (Hm s) as (s' & Hrun & Ho & Hd & Hc & Ha). exists tt, s'. split; [done|]. split; [done|]. by apply (inv_fields _ _ _ _ _ _ _ s).
Qed.

(** ** Lemmas: entries of a database *)

(** The references of an entry and what the specification has for it. *)
Definition held (v : option dbval) (sv : strval) : list (loc * strval) := match v with Some (VString p) => [(p, sv)] | _ => [] end.
Definition ent (v : option dbval) (sv : strval) : option aval :=
  match v with Some (VString _) => Some (AString (value sv)) | Some (VOther t) => Some (AOther t) | None => None end.
(** What is known of the other keys. *)
Definition others (i : nat) (k : bytes) known := filter (fun x : nat * bytes * option dbval * strval => x.1.1 <> (i, k)) known.

Lemma others_sub i k known : others i k known ⊆ known.
Proof. intros x. unfold others. rewrite list_elem_of_filter. tauto. Qed.

Lemma others_elem i k known x : x.1.1 <> (i, k) -> x ∈ known -> x ∈ others i k known.
Proof. intros Hx Hk. unfold others. rewrite list_elem_of_filter. done. Qed.

Lemma inv_perm n ci args own own' known s : own ≡ₚ own' -> J n ci args own known s -> J n ci args own' known s.
Proof.
  intros Hp [A1 A2 A3 A4 A5 A6 A7 A8 A9 A10 A11 A12 A13 A14]. assert (forall p, occs own'.*1 p = occs own.*1 p) as Ho.
  { intros p. apply lsum_perm. by rewrite Hp. }
  split; try done.
  - intros p. by rewrite Ho.
  - intros p o. rewrite Ho. apply A7.
  - by rewrite <- Hp.
Qed.

Lemma entry_known n ci args own known s i d k :
  J n ci args own known s -> dbs s !! i = Some d -> exists sv, known_at s (i, k, dict d !! k, sv).
Proof.
  intros Hi Hd. destruct (dict d !! k) as [[p|t]|] eqn:Hk.
  - destruct (hold_exists _ _ _ _ _ _ _ _ p Hi (hold_dict s i d k p Hd Hk)) as (o & Ho). exists (val o), d. split; [done|]. split; [done|]. by exists o.
  - exists (INT 0), d. by rewrite Hk.
  - exists (INT 0), d. by rewrite Hk.
Qed.

Lemma known_ent s i k v sv d : known_at s (i, k, v, sv) -> dbs s !! i = Some d -> dict d !! k = v /\ adict (adb_of (objs s) d) !! k = ent v sv.
Proof.
  intros (d' & Hd' & Hv & Hval) Hd. rewrite Hd in Hd'. injection Hd' as <-. split; [done|]. cbn. rewrite lookup_fmap, Hv.
  destruct v as [[p|t]|]; [|done..]. cbn. destruct Hval as (o & Ho & Hsv). cbn in *. unfold sval. by rewrite Ho, Hsv.
Qed.

Lemma inv_learn n ci args own known s x : known_at s x -> J n ci args own known s -> J n ci args own (x :: known) s.
Proof. intros Hx [A1 A2 A3 A4 A5 A6 A7 A8 A9 A10 A11 A12 A13 A14]. split; try done. by constructor. Qed.

Lemma known_other s i d d' k known :
  Forall (known_at s) known -> dbs s !! i = Some d -> (forall k', k' <> k -> dict d' !! k' = dict d !! k') ->
  Forall (known_at (set_dbs s (<[i := d']> (dbs s)))) (others i k known).
Proof.
  intros Hkn Hd Hsame. rewrite Forall_forall in *. intros [[[j k'] v] sv] Hx. unfold others in Hx. rewrite list_elem_of_filter in Hx.
  destruct Hx as [Hne Hx]. destruct (Hkn _ Hx) as (dj & Hdj & Hv & Hval). cbn in Hne. destruct (decide (i = j)) as [<-|Hij].
  - rewrite Hd in Hdj. injection Hdj as <-. exists d'. cbn. rewrite list_lookup_insert_eq by (by eapply lookup_lt_Some). split; [done|].
    rewrite Hsame by congruence. done.
  - exists dj. cbn. by rewrite list_lookup_insert_ne.
Qed.

(** The entry of [k] becomes [v']; the references change hands. *)
Lemma inv_swap n ci args own known s i d k v sv v' sv' ex e' :
  J n ci args (held v' sv' ++ own) known s -> known_at s (i, k, v, sv) -> dbs s !! i = Some d ->
  (forall key, is_Some (ex !! key) -> is_Some (partial_alter (fun _ => v') k (dict d) !! key)) ->
  ent v' sv' = e' ->
  let d' := mk_db (partial_alter (fun _ => v') k (dict d)) ex (watched_keys d) in
  let s' := set_dbs s (<[i := d']> (dbs s)) in
  J n ci args (held v sv ++ own) ((i, k, v', sv') :: others i k known) s' /\
  abs s' = set_adbs (abs s) (<[i := mk_adb (partial_alter (fun _ => e') k (adict (adb_of (objs s) d))) ex]> (adbs (abs s))).
Proof.
  intros Hi Hkn Hd Hex <- d' s'. destruct (known_ent s i k v sv d Hkn Hd) as [Hv _].
  assert (Forall (val_at (objs s)) (held v' sv' ++ own)) as Hvo.
  { pose proof (inv_vals _ _ _ _ _ _ _ _ Hi) as Hva. by apply Forall_app in Hva as [_ Hva]. }
  assert (Forall (val_at (objs s)) (held v sv)) as Hvh.
  { destruct Hkn as (d0 & _ & _ & Hval). destruct v as [[p|t]|]; cbn; [by constructor|constructor..]. }
  assert (known_at s' (i, k, v', sv')) as Hkn'.
  { exists d'. cbn. rewrite list_lookup_insert_eq by (by eapply lookup_lt_Some). split; [done|]. split; [by rewrite lookup_partial_alter_eq|].
    destruct v' as [[p|t]|]; [|done..]. apply Forall_app in Hvo as [Hh _]. by inversion Hh. }
  split.
  - apply (inv_put_db rest _ c ci args (held v' sv' ++ own) known s i d); try done.
    + intros p. cbn. rewrite !fmap_app, !occs_app. assert (forall w sw, occs (held w sw).*1 p = match w with Some w => count (loc_of w) p | None => 0 end) as Hh.
      { intros w sw. destruct w as [[q|t]|]; cbn; [unfold occs; cbn; lia|by rewrite count_none|done]. }
      rewrite !Hh. set (f := fun w => count (loc_of w) p).
      assert (forall w, msum f (partial_alter (fun _ => w) k (dict d)) = match w with Some w => f w | None => 0 end + msum f (delete k (dict d))) as Hm.
      { intros [w|]; [|done]. change (partial_alter _ k _) with (<[k := w]> (dict d)). rewrite <- insert_delete_eq, msum_insert by apply lookup_delete_eq. done. }
      rewrite Hm. destruct v as [w|]; cbn.
      * rewrite (msum_delete f (dict d) k w Hv). change (count (loc_of w) p) with (f w). destruct v'; cbn; subst f; cbn; lia.
      * rewrite (delete_id _ _ Hv). destruct v'; cbn; subst f; cbn; lia.
    + apply Forall_app. split; [done|]. by apply Forall_app in Hvo as [_ ?].
    + constructor; [done|]. apply (known_other s i d); [apply Hi|done|]. intros k' Hne. cbn. by rewrite lookup_partial_alter_ne.
  - unfold s'. rewrite abs_put_db. f_equal. f_equal. unfold adb_of, d'. cbn. f_equal.
    destruct (known_ent s' i k v' sv' d' Hkn') as [_ He]; [cbn; rewrite list_lookup_insert_eq by (by eapply lookup_lt_Some); done|].
    cbn in He. rewrite lookup_fmap, lookup_partial_alter_eq in He.
    apply map_eq. intros k'. rewrite lookup_fmap. destruct (decide (k' = k)) as [->|Hne].
    + rewrite !lookup_partial_alter_eq. exact He.
    + by rewrite !lookup_partial_alter_ne, lookup_fmap by done.
Qed.

(** The expires alone. *)
Lemma inv_set_expires n ci args own known s i d ex :
  J n ci args own known s -> dbs s !! i = Some d -> (forall key, is_Some (ex !! key) -> is_Some (dict d !! key)) ->
  let s' := set_dbs s (<[i := set_expires d ex]> (dbs s)) in
  J n ci args own known s' /\ abs s' = set_adbs (abs s) (<[i := mk_adb (adict (adb_of (objs s) d)) ex]> (adbs (abs s))).
Proof.
  intros Hi Hd Hex s'. split; [|unfold s'; by rewrite abs_put_db].
  apply (inv_put_db rest _ c ci args own known s i d); try done.
  - pose proof (inv_vals _ _ _ _ _ _ _ _ Hi) as Hva. by apply Forall_app in Hva as [_ Hva].
  - pose proof (inv_known _ _ _ _ _ _ _ _ Hi) as Hkn. rewrite Forall_forall in *. intros [[[j k'] v] sv] Hx. destruct (Hkn _ Hx) as (dj & Hdj & Hv & Hval).
    destruct (decide (i = j)) as [<-|Hij].
    + rewrite Hd in Hdj. injection Hdj as <-. exists (set_expires d ex). cbn. by rewrite list_lookup_insert_eq by (by eapply lookup_lt_Some).
    + exists dj. cbn. by rewrite list_lookup_insert_ne.
Qed.

(** ** Lemmas: expires *)

Lemma run_removeExpire n ci args own known s i d key k :
  J n ci args own known s -> is_key args own key k -> dbs s !! i = Some d -> is_Some (dict d !! k) ->
  removeExpire i key s = Some (bool_decide (is_Some (expires d !! k)), set_dbs s (<[i := set_expires d (delete k (expires d))]> (dbs s))).
Proof.
  intros Hi Hk Hd Hin. unfold removeExpire, the_db, mbind, prog_bind. rewrite Hd, (run_ptr _ _ _ _ _ _ _ _ Hi Hk), (bool_decide_eq_true_2 _ Hin). done.
Qed.

Lemma run_setExpire n ci args own known s i d key k w :
  J n ci args own known s -> is_key args own key k -> dbs s !! i = Some d -> is_Some (dict d !! k) ->
  setExpire i key w s = Some (tt, set_dbs s (<[i := set_expires d (<[k := w]> (expires d))]> (dbs s))).
Proof.
  intros Hi Hk Hd Hin. unfold setExpire, the_db, mbind, prog_bind. rewrite Hd, (run_ptr _ _ _ _ _ _ _ _ Hi Hk), (bool_decide_eq_true_2 _ Hin). done.
Qed.

Lemma known_dict n ci args own known s i k v sv :
  J n ci args own known s -> (i, k, v, sv) ∈ known -> exists d, dbs s !! i = Some d /\ dict d !! k = v.
Proof.
  intros Hi Hin. pose proof (inv_known _ _ _ _ _ _ _ _ Hi) as Hkn. rewrite Forall_forall in Hkn. destruct (Hkn _ Hin) as (d & Hd & Hv & _). by exists d.
Qed.

(** The specification of a database that is there. *)
Lemma run_s_db s i d : dbs s !! i = Some d -> s_db i (abs s) = Some (adb_of (objs s) d, abs s).
Proof. intros Hd. unfold s_db. by rewrite abs_db, Hd. Qed.

Lemma s_db_inv s i d y : s_db i (abs s) = Some (d, y) -> y = abs s /\ exists d0, dbs s !! i = Some d0 /\ d = adb_of (objs s) d0.
Proof. unfold s_db. rewrite abs_db. destruct (dbs s !! i) as [d0|] eqn:Hd; [|done]. cbn. intros [= <- <-]. split; [done|]. by exists d0. Qed.

Lemma sim_set_expire n ci args own known i key k v sv w :
  is_key args own key k -> (i, k, Some v, sv) ∈ known ->
  sim (J n ci args own known) (match w with Some w => setExpire i key w | None => removeExpire i key;; mret tt end) (s_set_expire i k w)
    (fun _ _ => J n ci args own known).
Proof.
  intros Hk Hin s Hi b y Hy. destruct (known_dict _ _ _ _ _ _ _ _ _ _ Hi Hin) as (d & Hd & Hv).
  unfold s_set_expire, mbind, prog_bind in Hy. rewrite (run_s_db s i d Hd) in Hy. cbn -[adb_of abs] in Hy.
  destruct (inv_set_expires n ci args own known s i d (match w with Some w => <[k := w]> (expires d) | None => delete k (expires d) end) Hi Hd) as [Hi' Ha].
  { intros key' Hkey. destruct w as [w|].
    - apply lookup_insert_is_Some in Hkey as [<-|[_ Hkey]]; [by rewrite Hv|]. by apply (inv_exp _ _ _ _ _ _ _ _ Hi i d).
    - apply lookup_delete_is_Some in Hkey as [_ Hkey]. by apply (inv_exp _ _ _ _ _ _ _ _ Hi i d). }
  exists tt. eexists. split; [|split; [|exact Hi']].
  - destruct w as [w|]; [|unfold mbind, prog_bind].
    + apply (run_setExpire n ci args own known s i d key k w Hi Hk Hd). by rewrite Hv.
    + rewrite (run_removeExpire n ci args own known s i d key k Hi Hk Hd); [done|by rewrite Hv].
  - rewrite Ha. unfold s_put_db in Hy. by injection Hy as _ <-.
Qed.

Lemma run_getExpire n ci args own known s i d key k :
  J n ci args own known s -> is_key args own key k -> dbs s !! i = Some d -> getExpire i key s = Some (default (-1) (expires d !! k), s).
Proof.
  intros Hi Hk Hd. unfold getExpire, the_db, mbind, prog_bind. rewrite Hd, (run_ptr _ _ _ _ _ _ _ _ Hi Hk).
  destruct (expires d !! k) as [w|] eqn:He; [|done]. rewrite bool_decide_eq_true_2; [done|].
  apply (inv_exp _ _ _ _ _ _ _ _ Hi i d); [done|by rewrite He].
Qed.

(** A read of an expire, next to a read of the database. *)
Lemma sim_getExpire {A B} n ci args own known i key k (f : Z -> M A) (af : adb -> S B) Q :
  is_key args own key k ->
  (forall d, sim (fun s => J n ci args own known s /\ adbs (abs s) !! i = Some d) (f (default (-1) (aexpires d !! k))) (af d) Q) ->
  sim (J n ci args own known) (getExpire i key ≫= f) (s_db i ≫= af) Q.
Proof.
  intros Hk Hf s Hi b y Hy. unfold mbind, prog_bind in *. destruct (s_db i (abs s)) as [[d y1]|] eqn:Hd; [|done].
  apply s_db_inv in Hd as (-> & d0 & Hd & ->). rewrite (run_getExpire _ _ _ _ _ _ _ _ _ _ Hi Hk Hd).
  apply (Hf (adb_of (objs s) d0) s); [|done]. split; [done|]. by rewrite abs_db, Hd.
Qed.

Lemma run_arg_strings n ci args own known s (l : list (loc * strval)) :
  J n ci args own known s -> (forall x, x ∈ l -> val_at (objs s) x) -> arg_strings l.*1 s = Some ((fun x => value x.2) <$> l, s).
Proof.
  intros Hi Hl. unfold arg_strings, on_store. assert (strings_of (objs s) l.*1 = Some ((fun x => value x.2) <$> l)) as ->; [|cbn; by rewrite set_objs_id].
  unfold strings_of. induction l as [|x l IH]; [done|]. cbn. destruct (Hl x) as (o & Ho & Hv); [by left|]. rewrite Ho. cbn. rewrite Hv.
  change (mapM _ l.*1) with (mapM (fun p => o ← heap (objs s) !! p; Some (value (val o))) l.*1).
  rewrite IH; [done|]. intros y Hy. apply Hl. by right.
Qed.

(** The references of values. *)
Lemma run_decr_val n ci args own known s v sv :
  J n ci args (held (Some v) sv ++ own) known s ->
  exists s', decr_val v s = Some (tt, s') /\ abs s' = abs s /\ J n ci args own known s'.
Proof. destruct v as [p|t]; cbn; [apply run_decr|]. intros Hi. by exists s. Qed.

Lemma known_val n ci args own known s i k p sv :
  J n ci args own known s -> (i, k, Some (VString p), sv) ∈ known -> val_at (objs s) (p, sv) /\ light sv.
Proof.
  intros Hi Hin. pose proof (inv_known _ _ _ _ _ _ _ _ Hi) as Hkn. rewrite Forall_forall in Hkn. destruct (Hkn _ Hin) as (d & Hd & Hv & Hval).
  split; [done|]. destruct Hval as (o & Ho & Hvo). cbn in Ho, Hvo. subst sv. apply (inv_light _ _ _ _ _ _ _ _ Hi p o); [|done].
  pose proof (hold_dict s i d k p Hd Hv). pose proof (occs_nonneg own.*1 p). lia.
Qed.

Lemma run_incr_val n ci args own known s i k v sv :
  J (Datatypes.S n) ci args own known s -> (i, k, Some v, sv) ∈ known ->
  exists s', incr_val v s = Some (tt, s') /\ abs s' = abs s /\ J n ci args (held (Some v) sv ++ own) known s'.
Proof.
  intros Hi Hin. destruct v as [p|t]; cbn.
  - destruct (known_val _ _ _ _ _ _ _ _ _ _ Hi Hin) as [Hv Hl]. destruct (run_incr n ci args own known s p sv Hi Hv Hl) as (s' & ? & ? & ? & _). eauto.
  - exists s. split; [done|]. split; [done|]. by apply J_spend.
Qed.

Lemma set_dbs_twice s l l' : set_dbs (set_dbs s l) l' = set_dbs s l'.
Proof. done. Qed.

Lemma ent_some v sv : exists a, ent (Some v) sv = Some a.
Proof. destruct v; by eexists. Qed.

(** An event when a condition holds. *)
Lemma sim_tell_if n ci args own known (b : bool) e :
  sim (J n ci args own known) (if b then tell e else mret tt) (if b then s_tell e else mret tt) (fun _ _ => J n ci args own known).
Proof. destruct b; [apply sim_tell|]. by apply sim_ret. Qed.

(** A deletion: the entry with its reference, and its expire. *)
Lemma sim_dbDelete n ci args own known i key k :
  is_key args own key k ->
  sim (J n ci args own known) (dbDelete i key) (s_delete i k) (fun a b s => a = b /\ J n ci args own ((i, k, None, INT 0) :: others i k known) s).
Proof.
  intros Hk s Hi b y Hy. unfold s_delete, mbind, prog_bind in Hy. destruct (s_db i (abs s)) as [[d0 y1]|] eqn:Hsd; [|done].
  apply s_db_inv in Hsd as (-> & d & Hd & ->). cbn -[abs adb_of] in Hy.
  destruct (entry_known n ci args own known s i d k Hi Hd) as (sv & Hkn).
  destruct (inv_swap n ci args own known s i d k (dict d !! k) sv None (INT 0) (delete k (expires d)) None Hi Hkn Hd) as [Hi' Ha]; [|done|].
  { intros key' [Hne Hkey]%lookup_delete_is_Some. change (partial_alter _ k (dict d)) with (delete k (dict d)).
    apply lookup_delete_is_Some. split; [done|]. by apply (inv_exp _ _ _ _ _ _ _ _ Hi i d). }
  destruct (known_ent s i k _ sv d Hkn Hd) as [_ Hent]. rewrite Hent in Hy. clear Hent.
  unfold dbDelete, the_db, put_db, mbind, prog_bind. rewrite Hd, (run_ptr _ _ _ _ _ _ _ _ Hi Hk).
  change (dict (set_expires d _)) with (dict d). destruct (dict d !! k) as [v|] eqn:Hv.
  - cbn -[abs adb_of decr_val held]. rewrite list_insert_insert_eq, set_dbs_twice.
    destruct (run_decr_val n ci args own _ _ v sv Hi') as (s1 & Hdec & Ha1 & Hi1).
    change (set_dict (set_expires d _) _) with (mk_db (delete k (dict d)) (delete k (expires d)) (watched_keys d)).
    change (partial_alter _ k (dict d)) with (delete k (dict d)) in *. rewrite Hdec.
    destruct (ent_some v sv) as (av & Hav). rewrite Hav in Hy. cbn -[abs adb_of] in Hy. rewrite Ha in Ha1.
    change (partial_alter _ k (adict _)) with (delete k (adict (adb_of (objs s) d))) in Ha1. change (aexpires (adb_of _ d)) with (expires d) in Hy. rewrite <- Ha1 in Hy.
    destruct ((if cluster_enabled then s_tell (ESlotDel k) else mret tt) (abs s1)) as [[u y2]|] eqn:Ht; [|done].
    destruct (sim_tell_if n ci args own _ cluster_enabled (ESlotDel k) s1 Hi1 _ _ Ht) as (u' & s2 & Hrun & Ha2 & Hi2).
    rewrite Hrun. injection Hy as <- <-. by exists true, s2.
  - injection Hy as <- <-. cbn -[abs adb_of]. eexists false, _. split; [done|]. split; [|split; [done|]].
    + change (partial_alter _ k (dict d)) with (delete k (dict d)) in Ha. rewrite (delete_id _ _ Hv) in Ha. exact Ha.
    + change (partial_alter _ k (dict d)) with (delete k (dict d)) in Hi'. rewrite (delete_id _ _ Hv) in Hi'. exact Hi'.
Qed.

(** References that the program takes and gives back. *)
Lemma member_val n ci args own known s p v : J n ci args own known s -> (p, v) ∈ args ++ own -> val_at (objs s) (p, v) /\ light v.
Proof.
  intros Hi [Hin|Hin]%elem_of_app.
  - split; [by apply (args_vals _ _ _ _ _ _ _ Hi)|exact (args_light _ _ _ _ _ _ _ Hi Hin)].
  - destruct (own_vals _ _ _ _ _ _ Hi) as [Ho Hl]. rewrite Forall_forall in Ho, Hl. split; [by apply Ho|exact (Hl _ Hin)].
Qed.

Lemma sim_incr {A B} (P : server -> Prop) n ci args own known p v (f : unit -> M A) (am : S B) Q :
  (forall s, P s -> J (Datatypes.S n) ci args own known s /\ val_at (objs s) (p, v) /\ light v) ->
  sim (J n ci args ((p, v) :: own) known) (f tt) am Q -> sim P (incr p ≫= f) am Q.
Proof.
  intros Hp Hf. apply (sim_left _ _ _ (fun _ => J n ci args ((p, v) :: own) known)); [|by intros []].
  intros s Hs. destruct (Hp s Hs) as (Hi & Hv & Hl). destruct (run_incr n ci args own known s p v Hi Hv Hl) as (s' & ? & ? & ? & _). by exists tt, s'.
Qed.

Lemma sim_decr {A B} n ci args own known p v (f : unit -> M A) (am : S B) Q :
  sim (J n ci args own known) (f tt) am Q -> sim (J n ci args ((p, v) :: own) known) (decr p ≫= f) am Q.
Proof.
  intros Hf. apply (sim_left _ _ _ (fun _ => J n ci args own known)); [|by intros []].
  intros s Hs. destruct (run_decr n ci args own known s p v Hs) as (s' & ? & ? & ?). by exists tt, s'.
Qed.

Lemma sim_decr_end {B} n ci args own known p v (b : B) (Q : unit -> B -> server -> Prop) :
  (forall s, J n ci args own known s -> Q tt b s) -> sim (J n ci args ((p, v) :: own) known) (decr p) (mret b) Q.
Proof.
  intros HQ s Hs b' y [= <- <-]. destruct (run_decr n ci args own known s p v Hs) as (s' & Hrun & Ha & Hi). exists tt, s'. eauto.
Qed.

(** Steps of the program after the last one of the specification. *)
Lemma sim_tail {A B C} P (m : M A) (am : S B) R (f : A -> M C) Q :
  sim P m am R -> (forall a b, sim (R a b) (f a) (mret b) Q) -> sim P (m ≫= f) am Q.
Proof.
  intros Hm Hf s Hs b y Hy. destruct (Hm s Hs b y Hy) as (a & s1 & Hrun & Ha & Hr). unfold mbind, prog_bind. rewrite Hrun, <- Ha.
  by apply (Hf a b s1 Hr).
Qed.

Lemma shared_val n ci args own known s p bs :
  J n ci args own known s -> (p, bs) ∈ shared_texts -> exists v, value v = bs /\ val_at (objs s) (p, v) /\ light v.
Proof.
  intros Hi Hin. destruct (inv_shared _ _ _ _ _ _ _ _ Hi) as (S1 & _). destruct (S1 p bs Hin) as (_ & o & Ho & Hv & Hl).
  exists (val o). split; [done|]. split; [by exists o|done].
Qed.

Lemma sim_strings {A B} n ci args own known (l : list (loc * strval)) ls (f : list bytes -> M A) (am : S B) Q :
  ls = l.*1 -> (forall x, x ∈ l -> x ∈ args ++ own) -> sim (J n ci args own known) (f ((fun x => value x.2) <$> l)) am Q ->
  sim (J n ci args own known) (arg_strings ls ≫= f) am Q.
Proof.
  intros -> Hl. apply sim_read. intros s Hs. apply (run_arg_strings n ci args own known); [done|]. intros [p v] Hx.
  by apply (member_val n ci args own known), Hl.
Qed.

Lemma sim_propagateExpire n ci args own known i key k :
  is_key args own key k ->
  sim (J (Datatypes.S (Datatypes.S n)) ci args own known) (propagateExpire i key) (s_feed i [bytes_of_string "DEL"; k]) (fun _ _ => J n ci args own known).
Proof.
  intros (v & Hin & Hk). unfold propagateExpire, s_feed.
  apply (sim_weaken _ _ (fun s => exists dv, value dv = bytes_of_string "DEL" /\ J (Datatypes.S (Datatypes.S n)) ci args own known s /\ val_at (objs s) (del shared, dv) /\ light dv) _ _ _
    (fun _ _ => J n ci args own known)); [|done|].
  { intros s Hs. destruct (shared_val _ _ _ _ _ _ (del shared) (bytes_of_string "DEL") Hs) as (dv & ? & ? & ?);
      [unfold shared_texts; repeat (apply list_elem_of_here || apply list_elem_of_further)|by exists dv]. }
  apply sim_exists. intros dv. apply sim_and. intros Hdv. eapply sim_incr; [intros s Hs; exact Hs|].
  assert ((key, v) ∈ args ++ (del shared, dv) :: own) as Hin1.
  { apply elem_of_app in Hin as [Hin|Hin]; apply elem_of_app; [by left|right; by right]. }
  eapply sim_incr; [intros s Hs; split; [exact Hs|by apply (member_val _ _ _ _ _ _ _ _ Hs)]|].
  eapply (sim_strings _ _ _ _ _ [(del shared, dv); (key, v)]); [done| |].
  { intros x [->|[->|[]%elem_of_nil]%elem_of_cons]%elem_of_cons; apply elem_of_app; right; [right; by left|by left]. }
  cbn. rewrite Hdv, (sds_value _ _ Hk). eapply sim_bind; [apply sim_tell_if|]. intros [] []. eapply sim_tail; [apply sim_tell|]. intros [] [].
  eapply (sim_weaken _ _ _ _ _ _ (fun _ _ => J n ci args own known)); [intros s Hs|done|].
  { eapply inv_perm; [|exact Hs]. apply perm_swap. }
  apply sim_decr, sim_decr_end. done.
Qed.

Lemma sim_expireIfNeeded n ci args own known i key k :
  is_key args own key k ->
  sim (J (Datatypes.S (Datatypes.S n)) ci args own known) (expireIfNeeded i key) (s_expire i k) (fun _ _ => J n ci args own (others i k known)).
Proof.
  intros Hk.
  assert (forall s, J (Datatypes.S (Datatypes.S n)) ci args own known s -> J n ci args own (others i k known) s) as Hidle.
  { intros s Hs. by apply (J_forget rest c n ci args own known); [apply others_sub|apply J_spend, J_spend]. }
  unfold expireIfNeeded, s_expire. apply (sim_getExpire _ _ _ _ _ _ _ k); [done|]. intros d. apply sim_drop.
  destruct (aexpires d !! k) as [w|]; cbn [from_option]; [|by apply sim_ret]. change (id w) with w.
  destruct (w <? 0); cbn; [by apply sim_ret|]. destruct loading; [by apply sim_ret|].
  eapply sim_bind; [apply sim_mstime|]. intros now now'. apply sim_and. intros <-.
  destruct masterhost; cbn; [by apply sim_ret|]. destruct (now <=? w); [by apply sim_ret|].
  apply sim_stats; [intros s; by eexists|].
  eapply sim_bind; [by apply sim_propagateExpire|]. intros [] [].
  eapply sim_bind; [by apply sim_notify|]. intros [] [].
  apply (sim_eq _ _ _ (dbDelete i key ≫= mret) _ (s_delete i k ≫= (fun _ => mret tt))).
  { intros s _. unfold mbind, prog_bind. by destruct (dbDelete i key s) as [[? ?]|]. }
  { done. }
  eapply sim_bind; [by apply sim_dbDelete|]. intros a b. apply sim_and. intros <-. apply sim_ret. intros s Hs.
  eapply J_forget; [|exact Hs]. intros x Hx. by right.
Qed.

(** What a lookup finds: the entry and its value in the specification. *)
Definition found n ci args own known i k (o : option dbval) (ao : option aval) : server -> Prop :=
  fun s => exists sv, ao = ent o sv /\ J n ci args own ((i, k, o, sv) :: others i k known) s.

Lemma run_the_db s i d : dbs s !! i = Some d -> the_db i s = Some (d, s).
Proof. intros Hd. unfold the_db. by rewrite Hd. Qed.

Lemma sim_lookupKey n ci args own known i key k :
  is_key args own key k ->
  sim (J n ci args own (others i k known)) (lookupKey i key) (d ← s_db i; mret (adict d !! k)) (found n ci args own known i k).
Proof.
  intros Hk s Hi b y Hy. unfold mbind, prog_bind in Hy. destruct (s_db i (abs s)) as [[d0 y1]|] eqn:Hsd; [|done].
  apply s_db_inv in Hsd as (-> & d & Hd & ->). injection Hy as <- <-. destruct (entry_known _ _ _ _ _ s i d k Hi Hd) as (sv & Hkn).
  exists (dict d !! k), s. split; [|split; [done|]].
  - unfold lookupKey, mbind, prog_bind. by rewrite (run_the_db s i d Hd), (run_ptr _ _ _ _ _ _ _ _ Hi Hk).
  - exists sv. split; [by apply (known_ent s i k)|]. by apply inv_learn.
Qed.

Lemma sim_lookupKeyWrite n ci args own known i key k :
  is_key args own key k ->
  sim (J (Datatypes.S (Datatypes.S n)) ci args own known) (lookupKeyWrite i key) (s_lookup i k) (found n ci args own known i k).
Proof.
  intros Hk. unfold lookupKeyWrite, s_lookup. eapply sim_bind; [by apply sim_expireIfNeeded|]. intros ? ?. by apply sim_lookupKey.
Qed.

Lemma sim_lookupKeyRead n ci args own known i key k :
  is_key args own key k ->
  sim (J (Datatypes.S (Datatypes.S n)) ci args own known) (lookupKeyRead i key) (s_lookup i k) (found n ci args own known i k).
Proof.
  intros Hk. unfold lookupKeyRead, s_lookup. eapply sim_bind; [by apply sim_expireIfNeeded|]. intros ? ?.
  eapply sim_tail; [by apply sim_lookupKey|]. intros o ao. apply sim_exists. intros sv. apply sim_and. intros ->.
  apply sim_stats; [intros s; eexists; split; [done|]; by destruct (bool_decide _)|]. apply sim_ret. intros s Hs. by exists sv.
Qed.

(** ** Lemmas: flags *)

Lemma acl_flags st cl f :
  same_reply_flags (rc cl) f ->
  acl_of st (set_rc cl (set_flags (rc cl) f)) =
    set_marks (acl_of st cl) (has (set_flags (rc cl) f) REDIS_MULTI) (has (set_flags (rc cl) f) REDIS_DIRTY_CAS)
      (has (set_flags (rc cl) f) REDIS_DIRTY_EXEC).
Proof. intros Hf. unfold acl_of, set_marks, wset. cbn. by rewrite (accepts_flags ae_ok _ _ Hf). Qed.

Lemma inv_flags n ci args own known s d cl f :
  J n ci args own known s -> clients s !! d = Some cl -> same_reply_flags (rc cl) f ->
  has (set_flags (rc cl) f) REDIS_FORCE_AOF = false -> has (set_flags (rc cl) f) REDIS_FORCE_REPL = false ->
  J n ci args own known (set_clients s (<[d := set_rc cl (set_flags (rc cl) f)]> (clients s))).
Proof.
  intros Hi Hd Hf H1 H2. destruct (inv_clients _ _ _ _ _ _ _ _ Hi d cl Hd) as (B1 & B2 & B3 & B4 & B5 & B6).
  apply (inv_put_client rest _ c ci args own known s d cl _ ci args own); try done.
  - case_decide as Hdc; [|done]. subst d. destruct (inv_cur _ _ _ _ _ _ _ _ Hi) as (cl' & Hc & Ha & Hcd). rewrite Hd in Hc. by injection Hc as <-.
  - apply (inv_vals _ _ _ _ _ _ _ _ Hi).
Qed.

(** The flags of transactions are not among those that replies depend on. *)
Lemma or_reply_flags r f :
  Z.land f (Z.lor REDIS_LUA_CLIENT (Z.lor REDIS_MASTER (Z.lor REDIS_MASTER_FORCE_REPLY REDIS_CLOSE_AFTER_REPLY))) = 0 ->
  same_reply_flags r (Z.lor (flags r) f).
Proof.
  intros Hf g Hg. rewrite has_or. assert (Z.land f g = 0) as ->; [|by rewrite orb_false_r].
  rewrite !Z.land_lor_distr_r in Hf. apply Z.lor_eq_0_iff in Hf as [F1 Hf]. apply Z.lor_eq_0_iff in Hf as [F2 Hf]. apply Z.lor_eq_0_iff in Hf as [F3 F4].
  by repeat (apply elem_of_cons in Hg as [->|Hg]; [done|]); apply elem_of_nil in Hg.
Qed.

Lemma clear_reply_flags r f :
  Z.land f (Z.lor REDIS_LUA_CLIENT (Z.lor REDIS_MASTER (Z.lor REDIS_MASTER_FORCE_REPLY REDIS_CLOSE_AFTER_REPLY))) = 0 ->
  same_reply_flags r (Z.land (flags r) (Z.lnot f)).
Proof.
  intros Hf g Hg. apply has_clear_other. assert (Z.land f g = 0) as H0.
  { rewrite !Z.land_lor_distr_r in Hf. apply Z.lor_eq_0_iff in Hf as [F1 Hf]. apply Z.lor_eq_0_iff in Hf as [F2 Hf]. apply Z.lor_eq_0_iff in Hf as [F3 F4].
    by repeat (apply elem_of_cons in Hg as [->|Hg]; [done|]); apply elem_of_nil in Hg. }
  rewrite Z.land_comm. rewrite <- Z.ldiff_land.
  pose proof (Z.lor_ldiff_and g f) as H1. rewrite (Z.land_comm g f), H0, Z.lor_0_r in H1. exact H1.
Qed.

Lemma run_mark n ci args own known s d cl :
  J n ci args own known s -> clients s !! d = Some cl ->
  let s' := set_clients s (<[d := or_flags cl REDIS_DIRTY_CAS]> (clients s)) in
  let a := acl_of (objs s) cl in
  J n ci args own known s' /\ abs s' = set_aclients (abs s) (<[d := set_marks a (multi a) true (dirty_exec a)]> (aclients (abs s))).
Proof.
  intros Hi Hd s' a. assert (same_reply_flags (rc cl) (Z.lor (flags (rc cl)) REDIS_DIRTY_CAS)) as Hf by (by apply or_reply_flags).
  destruct (inv_clients _ _ _ _ _ _ _ _ Hi d cl Hd) as (_ & _ & (F1 & F2) & _). split.
  - apply (inv_flags n ci args own known s d cl); [done|done|done|by rewrite has_or, orb_false_r..].
  - unfold s'. rewrite abs_put_client. f_equal. f_equal. unfold or_flags. rewrite acl_flags by done. rewrite !has_or. cbn. rewrite !orb_false_r, orb_true_r. done.
Qed.

(** Several clients are marked. *)
Definition marks (P : cid -> Prop) `{forall d, Decision (P d)} (m : gmap cid aclient) : gmap cid aclient :=
  map_imap (fun d a => Some (if decide (P d) then set_marks a (multi a) true (dirty_exec a) else a)) m.

Lemma marks_lookup (P : cid -> Prop) `{forall d, Decision (P d)} m d :
  marks P m !! d = (fun a => if decide (P d) then set_marks a (multi a) true (dirty_exec a) else a) <$> m !! d.
Proof. unfold marks. rewrite map_lookup_imap. by destruct (m !! d). Qed.

Lemma run_marks n ci args own known (l : list cid) s :
  J n ci args own known s -> (forall d, d ∈ l -> is_Some (clients s !! d)) ->
  exists s', each l (fun c => cl ← the_client c; put_client c (or_flags cl REDIS_DIRTY_CAS)) s = Some (tt, s') /\
    J n ci args own known s' /\ abs s' = set_aclients (abs s) (marks (fun d => d ∈ l) (aclients (abs s))).
Proof.
  revert s. induction l as [|d l IH]; intros s Hi Hl; cbn [each].
  - exists s. split; [done|]. split; [done|]. destruct s. unfold abs, set_aclients. cbn. f_equal.
    apply map_eq. intros d. rewrite marks_lookup. destruct (_ !! d); [|done]. cbn. rewrite decide_False; [done|by intros ?%elem_of_nil].
  - destruct (Hl d) as [cl Hd]; [by left|]. destruct (run_mark n ci args own known s d cl Hi Hd) as [Hi1 Ha1]. cbn zeta in *.
    set (s1 := set_clients s (<[d := or_flags cl REDIS_DIRTY_CAS]> (clients s))) in *.
    destruct (IH s1 Hi1) as (s' & Hrun & Hi' & Ha').
    { intros e He. cbn. apply lookup_insert_is_Some. destruct (decide (d = e)); [by left|right]. split; [done|]. apply Hl. by right. }
    exists s'. split; [|split; [done|]].
    + unfold the_client, put_client, mbind, prog_bind. rewrite Hd. exact Hrun.
    + rewrite Ha', Ha1. unfold set_aclients. cbn [aclients adbs adirty aticks atrace]. f_equal. apply map_eq. intros e. rewrite !marks_lookup.
      destruct (decide (d = e)) as [<-|Hne].
      * rewrite lookup_insert_eq, (abs_client s d cl Hd). cbn. rewrite (decide_True (P := d ∈ d :: l)) by left. by case_decide.
      * rewrite lookup_insert_ne by done. destruct (_ !! e); [|done]. cbn. f_equal. destruct (decide (e ∈ l)) as [Hel|Hel].
        -- rewrite decide_True by (by right). done.
        -- rewrite decide_False; [done|]. intros [?|?]%elem_of_cons; congruence.
Qed.

Lemma sim_touch n ci args own known i key k :
  is_key args own key k -> (exists x sv, (i, k, x, sv) ∈ known) ->
  sim (J n ci args own known) (touchWatchedKey i key) (s_touch i k) (fun _ _ => J n ci args own known).
Proof.
  intros Hk (x & sv & Hin) s Hi b y [= <- <-]. destruct (known_dict _ _ _ _ _ _ _ _ _ _ Hi Hin) as (d & Hd & _).
  destruct (inv_watch _ _ _ _ _ _ _ _ Hi i d k Hd) as (_ & W2 & _).
  destruct (run_marks n ci args own known (watchers d k) s Hi) as (s' & Hrun & Hi' & Ha').
  { intros e He. apply W2 in He as (cl & Hcl & _). by rewrite Hcl. }
  exists tt, s'. split; [|split; [|done]].
  - unfold touchWatchedKey, mbind, prog_bind. rewrite (run_the_db s i d Hd), (run_ptr _ _ _ _ _ _ _ _ Hi Hk).
    unfold watchers in Hrun. by destruct (watched_keys d !! k) as [e|].
  - rewrite Ha'. f_equal. apply map_eq. intros e. change (aclients (abs s)) with (acl_of (objs s) <$> clients s). rewrite marks_lookup, !lookup_fmap. destruct (clients s !! e) as [cl|] eqn:He; [|done]. cbn. f_equal.
    unfold touch. cbn. assert (e ∈ watchers d k <-> (i, k) ∈ wset (objs s) cl) as Hiff.
    { rewrite W2. split; [|by exists cl]. intros (cl' & Hcl & Hw). rewrite He in Hcl. by injection Hcl as <-. }
    destruct (decide (e ∈ watchers d k)) as [Hw|Hw]; case_bool_decide; tauto || done.
Qed.

(** ** Lemmas: new values *)

Lemma is_key_app args own key k l : is_key args own key k -> is_key args (l ++ own) key k.
Proof. intros (v & Hin & Hk). exists v. split; [|done]. rewrite !elem_of_app in *. tauto. Qed.

Lemma type_list v sv av : ent (Some v) sv = Some av -> (type_of v =? REDIS_LIST) = match av with AOther t => type_num t =? REDIS_LIST | AString _ => false end.
Proof. destruct v; cbn; intros [= <-]; done. Qed.

Lemma insert_keys i d k v ex n ci args own known s :
  J n ci args own known s -> dbs s !! i = Some d -> ex = expires d ->
  forall key, is_Some (ex !! key) -> is_Some (partial_alter (fun _ => Some (v : dbval)) k (dict d) !! key).
Proof.
  intros Hi Hd -> key Hkey. change (partial_alter _ k (dict d)) with (<[k := v]> (dict d)). apply lookup_insert_is_Some.
  destruct (decide (k = key)) as [->|Hne]; [by left|right]. split; [done|]. by apply (inv_exp _ _ _ _ _ _ _ _ Hi i d).
Qed.

Lemma sim_dbAdd n ci args own known i key k v sv av sv0 :
  is_key args own key k -> (i, k, None, sv0) ∈ known -> ent (Some v) sv = Some av ->
  sim (J n ci args (held (Some v) sv ++ own) known) (dbAdd i key v) (s_store i k av)
    (fun _ _ => J n ci args own ((i, k, Some v, sv) :: others i k known)).
Proof.
  intros Hk Hin Hav s Hi b y Hy. destruct (known_dict _ _ _ _ _ _ _ _ _ _ Hi Hin) as (d & Hd & Hv).
  pose proof (inv_known _ _ _ _ _ _ _ _ Hi) as Hkn. rewrite Forall_forall in Hkn. specialize (Hkn _ Hin).
  destruct (inv_swap n ci args own known s i d k None sv0 (Some v) sv (expires d) (Some av) Hi Hkn Hd) as [Hi' Ha]; [|done|].
  { by apply (insert_keys i d k v _ n ci args (held (Some v) sv ++ own) known s). }
  destruct (known_ent s i k _ sv0 d Hkn Hd) as [_ Hent].
  unfold s_store, mbind, prog_bind in Hy. rewrite (run_s_db s i d Hd), Hent in Hy. cbn -[abs adb_of] in Hy.
  change (aexpires (adb_of _ d)) with (expires d) in Hy. change (partial_alter _ k (adict _)) with (<[k := av]> (adict (adb_of (objs s) d))) in Ha.
  rewrite <- Ha in Hy. assert (sim (J n ci args own ((i, k, Some v, sv) :: others i k known))
    ((if type_of v =? REDIS_LIST then tell (EListReady i k) else mret tt);; (if cluster_enabled then tell (ESlotAdd k) else mret tt))
    ((if match av with AOther t => type_num t =? REDIS_LIST | AString _ => false end then s_tell (EListReady i k) else mret tt);;
     (if cluster_enabled then s_tell (ESlotAdd k) else mret tt))
    (fun _ _ => J n ci args own ((i, k, Some v, sv) :: others i k known))) as Ht.
  { rewrite (type_list v sv av Hav). eapply sim_bind; [apply sim_tell_if|]. intros ? ?. apply sim_tell_if. }
  destruct (Ht _ Hi' b y Hy) as (a & s' & Hrun & Ha' & Hi2). exists a, s'. split; [|done]. rewrite <- Hrun.
  unfold dbAdd, mbind, prog_bind. rewrite (run_the_db s i d Hd), (run_ptr _ _ _ _ _ _ _ _ Hi (is_key_app _ _ _ _ _ Hk)), Hv. done.
Qed.

Lemma incr_run p s st : incrRefCount (objs s) p = Some st -> incr p s = Some (tt, set_objs s st).
Proof. intros H. unfold incr, on_store. by rewrite H. Qed.

Lemma incr_inv p s u s1 : incr p s = Some (u, s1) -> exists st, incrRefCount (objs s) p = Some st /\ s1 = set_objs s st.
Proof. unfold incr, on_store. destruct (incrRefCount (objs s) p) as [st|]; [|done]. cbn. intros [= _ <-]. by exists st. Qed.

Lemma decr_run p s st : decrRefCount (objs s) p = Some st -> decr p s = Some (tt, set_objs s st).
Proof. intros H. unfold decr, on_store. by rewrite H. Qed.

Lemma decr_inv p s u s1 : decr p s = Some (u, s1) -> exists st, decrRefCount (objs s) p = Some st /\ s1 = set_objs s st.
Proof. unfold decr, on_store. destruct (decrRefCount (objs s) p) as [st|]; [|done]. cbn. intros [= _ <-]. by exists st. Qed.

Lemma decr_refs st p st' : decrRefCount st p = Some st' -> forall x, refs st' x = refs st x - count (Some p) x.
Proof.
  unfold decrRefCount. intros H x. apply bind_Some in H as (o & Ho & H). destruct (refcount o <=? 0); [done|].
  destruct (Z.eqb_spec (refcount o) 1) as [Hone|Hone]; injection H as <-; unfold refs; cbn; (destruct (decide (p = x)) as [<-|Hne]; [rewrite Ho, count_same|rewrite count_other by done]).
  - rewrite lookup_delete_eq. lia.
  - rewrite lookup_delete_ne by done. lia.
  - by rewrite lookup_insert_eq.
  - rewrite lookup_insert_ne by done. lia.
Qed.

Lemma run_dbOverwrite n ci args own known s i key k v sv av old osv d :
  J n ci args (held (Some v) sv ++ own) known s ->
  is_key args own key k -> (i, k, Some old, osv) ∈ known -> ent (Some v) sv = Some av -> dbs s !! i = Some d ->
  exists s', dbOverwrite i key v s = Some (tt, s') /\ J n ci args own ((i, k, Some v, sv) :: others i k known) s' /\
    abs s' = set_adbs (abs s) (<[i := mk_adb (<[k := av]> (adict (adb_of (objs s) d))) (expires d)]> (adbs (abs s))) /\
    (forall x, refs (objs s') x = refs (objs s) x - count (loc_of old) x).
Proof.
  intros Hi Hk Hin Hav Hd. destruct (known_dict _ _ _ _ _ _ _ _ _ _ Hi Hin) as (d' & Hd' & Hv). rewrite Hd in Hd'. injection Hd' as <-.
  pose proof (inv_known _ _ _ _ _ _ _ _ Hi) as Hkn. rewrite Forall_forall in Hkn. specialize (Hkn _ Hin).
  destruct (inv_swap n ci args own known s i d k (Some old) osv (Some v) sv (expires d) (Some av) Hi Hkn Hd) as [Hi' Ha]; [|done|].
  { by apply (insert_keys i d k v _ n ci args (held (Some v) sv ++ own) known s). }
  change (partial_alter _ k (adict _)) with (<[k := av]> (adict (adb_of (objs s) d))) in Ha.
  destruct (run_decr_val n ci args own _ _ old osv Hi') as (s' & Hrun & Ha' & Hi2). exists s'. split; [|split; [done|split; [by rewrite Ha', Ha|]]].
  - unfold dbOverwrite, put_db, mbind, prog_bind. rewrite (run_the_db s i d Hd), (run_ptr _ _ _ _ _ _ _ _ Hi (is_key_app _ _ _ _ _ Hk)), Hv. exact Hrun.
  - intros x. destruct old as [q|t]; cbn in Hrun.
    + apply decr_inv in Hrun as (st & Hst & ->). by apply (decr_refs _ _ _ Hst x).
    + injection Hrun as <-. cbn. rewrite count_none. lia.
Qed.

Lemma sim_dbOverwrite n ci args own known i key k v sv av old osv :
  is_key args own key k -> (i, k, Some old, osv) ∈ known -> ent (Some v) sv = Some av ->
  sim (J n ci args (held (Some v) sv ++ own) known) (dbOverwrite i key v) (s_store i k av)
    (fun _ _ => J n ci args own ((i, k, Some v, sv) :: others i k known)).
Proof.
  intros Hk Hin Hav s Hi b y Hy. destruct (known_dict _ _ _ _ _ _ _ _ _ _ Hi Hin) as (d & Hd & Hv).
  pose proof (inv_known _ _ _ _ _ _ _ _ Hi) as Hkn. rewrite Forall_forall in Hkn. specialize (Hkn _ Hin).
  destruct (known_ent s i k _ osv d Hkn Hd) as [_ Hent]. destruct (ent_some old osv) as (oav & Hoav). rewrite Hoav in Hent.
  unfold s_store, mbind, prog_bind in Hy. rewrite (run_s_db s i d Hd), Hent in Hy. injection Hy as <- <-.
  destruct (run_dbOverwrite n ci args own known s i key k v sv av old osv d Hi Hk Hin Hav Hd) as (s' & Hrun & Hi' & Ha & _). by exists tt, s'.
Qed.

(** The code stores a value before it counts its reference: the order does not matter. *)
Lemma swap_refs st p q st1 st2 :
  incrRefCount st p = Some st1 -> decrRefCount st1 q = Some st2 -> (p = q -> forall o, heap st !! p = Some o -> 2 <= refcount o < INT32_MAX) ->
  exists st', decrRefCount st q = Some st' /\ incrRefCount st' p = Some st2.
Proof.
  unfold incrRefCount, decrRefCount. intros H1 H2 Hpq. apply bind_Some in H1 as (o & Ho & H1). apply bind_Some in H2 as (oq & Hoq & H2).
  destruct (refcount o =? INT32_MAX) eqn:Hmax; [done|]. injection H1 as <-. cbn in Hoq. destruct (decide (p = q)) as [<-|Hne].
  - rewrite lookup_insert_eq in Hoq. injection Hoq as <-. cbn in H2. specialize (Hpq eq_refl o Ho). zbool.
    rewrite (proj2 (Z.leb_gt _ _)) in H2 by lia. rewrite (proj2 (Z.eqb_neq _ _)) in H2 by lia. injection H2 as <-.
    rewrite Ho. cbn. rewrite (proj2 (Z.leb_gt _ _)), (proj2 (Z.eqb_neq _ _)) by lia. eexists. split; [done|]. cbn. rewrite lookup_insert_eq. cbn.
    rewrite (proj2 (Z.eqb_neq _ _)) by lia. unfold set_heap. cbn. f_equal. f_equal. rewrite !insert_insert_eq. f_equal. f_equal; lia.
  - rewrite lookup_insert_ne in Hoq by done. rewrite Hoq. cbn. destruct (refcount oq <=? 0); [done|]. destruct (refcount oq =? 1); injection H2 as <-.
    + eexists. split; [done|]. cbn. rewrite lookup_delete_ne, Ho by done. cbn. rewrite Hmax. unfold set_heap. cbn. by rewrite delete_insert_ne by done.
    + eexists. split; [done|]. cbn. rewrite lookup_insert_ne, Ho by done. cbn. rewrite Hmax. unfold set_heap. cbn. by rewrite (insert_insert_ne _ q p).
Qed.

Lemma run_add_incr n ci args own known s i key k p v sv0 :
  J (Datatypes.S n) ci args own known s -> is_key args own key k -> (i, k, None, sv0) ∈ known -> (p, v) ∈ args ++ own ->
  (dbAdd i key (VString p);; incr p) s = (incr p;; dbAdd i key (VString p)) s.
Proof.
  intros Hi Hk Hin Hp. destruct (known_dict _ _ _ _ _ _ _ _ _ _ Hi Hin) as (d & Hd & Hv). destruct (member_val _ _ _ _ _ _ _ _ Hi Hp) as [Hpv Hpl].
  destruct (run_incr n ci args own known s p v Hi Hpv Hpl) as (s1 & Hrun & _ & Hi1 & _). unfold mbind at 2, prog_bind at 2. rewrite Hrun.
  apply incr_inv in Hrun as (st1 & Hst & ->).
  unfold dbAdd, the_db, put_db, mbind, prog_bind. change (dbs (set_objs s st1)) with (dbs s). rewrite Hd.
  rewrite (run_ptr _ _ _ _ _ _ _ _ Hi Hk), (run_ptr _ _ _ _ _ _ _ _ Hi1 (is_key_cons _ _ _ _ _ Hk)), (bool_decide_eq_true_2 _ Hv). cbn -[incr].
  destruct cluster_enabled; cbn -[incr]; by erewrite incr_run by exact Hst.
Qed.

Lemma run_overwrite_incr n ci args own known s i key k p v old osv :
  J (Datatypes.S n) ci args own known s -> is_key args own key k -> (i, k, Some old, osv) ∈ known -> (p, v) ∈ args ->
  (dbOverwrite i key (VString p);; incr p) s = (incr p;; dbOverwrite i key (VString p)) s.
Proof.
  intros Hi Hk Hin Hp. destruct (known_dict _ _ _ _ _ _ _ _ _ _ Hi Hin) as (d & Hd & Hv).
  assert ((p, v) ∈ args ++ own) as Hp' by (apply elem_of_app; by left).
  destruct (member_val _ _ _ _ _ _ _ _ Hi Hp') as [Hpv Hpl].
  destruct (run_incr n ci args own known s p v Hi Hpv Hpl) as (s1 & Hrun & Ha & Hi1 & _). unfold mbind at 2, prog_bind at 2. rewrite Hrun.
  apply incr_inv in Hrun as (st1 & Hst & ->).
  assert (mk_db (<[k := VString p]> (dict d)) (expires d) (watched_keys d) = set_dict d (<[k := VString p]> (dict d))) as Hdb by done.
  unfold dbOverwrite, the_db, put_db, mbind, prog_bind. change (dbs (set_objs s st1)) with (dbs s). rewrite Hd.
  rewrite (run_ptr _ _ _ _ _ _ _ _ Hi Hk), (run_ptr _ _ _ _ _ _ _ _ Hi1 (is_key_cons _ _ _ _ _ Hk)), Hv. cbn -[incr decr_val].
  destruct old as [q|t]; cbn -[incr decr]; [|by erewrite incr_run by exact Hst].
  pose proof (hold_dict s i d k q Hd Hv) as Hq.
  assert (exists st2, decrRefCount st1 q = Some st2) as [st2 Hst2].
  { destruct (hold_exists _ _ _ _ _ _ _ (set_objs s st1) q Hi1) as (o & Ho); [exact Hq|]. cbn in Ho.
    destruct (decr_effect st1 q o) as (st2 & Hd2 & _); [apply Hi1|done| |by exists st2].
    intros Hone j Hj Hg. destruct (inv_shared _ _ _ _ _ _ _ _ Hi1) as (_ & _ & S3). specialize (S3 j q Hj Hg).
    pose proof (inv_refs _ _ _ _ _ _ _ _ Hi1 q) as Hr. change (objs (set_objs s st1)) with st1 in Hr. rewrite (refs_lookup _ _ _ Ho), Hone in Hr.
    change (hold (set_objs s st1) q) with (hold s q) in Hr. change (rhold (set_objs s st1) q) with (rhold s q) in Hr.
    pose proof (rhold_nonneg s q). pose proof (occs_nonneg ((p, v) :: own).*1 q). lia. }
  destruct (swap_refs (objs s) p q st1 st2 Hst Hst2) as (st' & Hd1 & Hi2).
  { intros -> o Ho. pose proof (inv_margin _ _ _ _ _ _ _ _ Hi q o Ho). split; [|lia]. rewrite <- (refs_lookup _ _ _ Ho), (inv_refs _ _ _ _ _ _ _ _ Hi).
    destruct (inv_cur _ _ _ _ _ _ _ _ Hi) as (cl & Hc & Hca & _). pose proof (hold_client s c cl q Hc) as Hcr.
    unfold hold. pose proof (lsum_ge (db_refs q) (dbs s) d (db_refs_nonneg q) (list_elem_of_lookup_2 _ _ _ Hd)) as Hl.
    assert (1 <= db_refs q d) as Hdq.
    { unfold db_refs. pose proof (msum_ge (fun v => count (loc_of v) q) (dict d) k _ ltac:(intros; apply count_range) Hv) as H1. cbn in H1. rewrite count_same in H1.
      pose proof (msum_nonneg (fun e : loc * list cid => count (Some e.1) q) (watched_keys d) ltac:(intros; apply count_range)). lia. }
    pose proof (msum_ge (cl_refs q) (clients s) c cl (cl_refs_nonneg q) Hc) as Hm.
    assert (1 <= cl_refs q cl) as Hcq.
    { unfold cl_refs. rewrite Hca. pose proof (occs_elem args.*1 q ltac:(apply list_elem_of_fmap; by exists (q, v))).
      pose proof (occs_nonneg (mstate cl ≫= mc_argv) q). pose proof (occs_nonneg (wkeys cl).*2 q). lia. }
    pose proof (rhold_nonneg s q). pose proof (occs_nonneg own.*1 q). pose proof (inv_rest _ _ _ _ _ _ _ _ Hi q). lia. }
  erewrite decr_run by exact Hd1. erewrite (decr_run q) by exact Hst2. erewrite incr_run by exact Hi2. done.
Qed.

Lemma others_again i k o sv known : others i k ((i, k, o, sv) :: others i k known) = others i k known.
Proof.
  unfold others. rewrite filter_cons_False by (intros H; by apply H). rewrite list_filter_filter. apply list_filter_iff. intros x. tauto.
Qed.

Lemma sim_put n ci args own known i key k val v o sv :
  is_key args own key k -> (val, v) ∈ args -> (i, k, o, sv) ∈ known ->
  sim (J (Datatypes.S n) ci args own known)
    ((match o with None => dbAdd i key (VString val) | Some _ => dbOverwrite i key (VString val) end);; incr val)
    (s_store i k (AString (value v))) (fun _ _ => J n ci args own ((i, k, Some (VString val), v) :: others i k known)).
Proof.
  intros Hk Hval Hin. assert ((val, v) ∈ args ++ own) as Hv by (apply elem_of_app; by left). destruct o as [old|].
  - eapply sim_eq; [intros s Hs; by apply (run_overwrite_incr n ci args own known s i key k val v old sv)|done|].
    eapply sim_incr; [intros s Hs; split; [exact Hs|by apply (member_val _ _ _ _ _ _ _ _ Hs)]|].
    by apply (sim_dbOverwrite n ci args own known i key k (VString val) v _ old sv).
  - eapply sim_eq; [intros s Hs; by apply (run_add_incr n ci args own known s i key k val v sv)|done|].
    eapply sim_incr; [intros s Hs; split; [exact Hs|by apply (member_val _ _ _ _ _ _ _ _ Hs)]|].
    by apply (sim_dbAdd n ci args own known i key k (VString val) v _ sv).
Qed.

Lemma sim_post {A B} P (m : M A) (am : S B) (Q Q' : A -> B -> server -> Prop) :
  sim P m am Q' -> (forall a b s, Q' a b s -> Q a b s) -> sim P m am Q.
Proof. intros Hm HQ. eapply sim_weaken; [|exact HQ|exact Hm]. done. Qed.

(** Associativity in a simulation. *)
Lemma sim_assoc {A B C D} P (m : M A) (f : A -> M B) (g : B -> M C) (am : S D) Q :
  sim P ((m ≫= f) ≫= g) am Q -> sim P (m ≫= (fun a => f a ≫= g)) am Q.
Proof. apply sim_eq; [|done]. intros s _. by rewrite prog_assoc. Qed.

Lemma sim_assoc_s {A B C D} P (m : M A) (am : S B) (f : B -> S C) (g : C -> S D) Q :
  sim P m (am ≫= (fun a => f a ≫= g)) Q -> sim P m ((am ≫= f) ≫= g) Q.
Proof. apply sim_eq; [done|]. intros s. by rewrite prog_assoc. Qed.

(** A last step of the program that gives nothing. *)
Lemma sim_unit {A B} P (m : M A) (am : S B) (Q : A -> B -> server -> Prop) (Q' : unit -> B -> server -> Prop) :
  sim P m am Q -> (forall a b s, Q a b s -> Q' tt b s) -> sim P (m;; mret tt) am Q'.
Proof. intros Hm HQ. eapply sim_tail; [exact Hm|]. intros a b. by apply sim_ret, HQ. Qed.

Lemma sim_removeExpire {A B} n ci args own known i key k v sv (f : bool -> M A) (af : unit -> S B) Q :
  is_key args own key k -> (i, k, Some v, sv) ∈ known ->
  (forall b, sim (J n ci args own known) (f b) (af tt) Q) ->
  sim (J n ci args own known) (removeExpire i key ≫= f) (s_set_expire i k None ≫= af) Q.
Proof.
  intros Hk Hin Hf. apply (sim_bind _ _ _ _ (fun _ _ => J n ci args own known)); [|intros b []; apply Hf].
  intros s Hs b y Hy. destruct (sim_set_expire n ci args own known i key k v sv None Hk Hin s Hs b y Hy) as (a & s' & Hrun & Ha & Hi).
  unfold mbind, prog_bind in Hrun. destruct (removeExpire i key s) as [[r s1]|]; [|done]. injection Hrun as _ ->. by exists r, s'.
Qed.

Lemma sim_setKey n ci args own known i key k val v :
  is_key args own key k -> (val, v) ∈ args ->
  sim (J (Datatypes.S (Datatypes.S (Datatypes.S n))) ci args own known) (setKey i key val) (s_set_key i k (value v))
    (fun _ _ => J n ci args own ((i, k, Some (VString val), v) :: others i k known)).
Proof.
  intros Hk Hval. unfold setKey, s_set_key. eapply sim_bind; [by apply sim_lookupKeyWrite|]. intros o ao.
  apply sim_exists. intros sv. apply sim_and. intros _. apply sim_assoc.
  eapply sim_bind; [eapply sim_put; [done|done|by left]|]. intros ? ?. cbn beta. rewrite others_again.
  eapply sim_removeExpire; [done|by left|]. intros _. apply sim_touch; [done|]. do 2 eexists. by left.
Qed.

(** ** Lemmas: the argument vector *)

Lemma occs_perm (l l' : list loc) p : l ≡ₚ l' -> occs l p = occs l' p.
Proof. apply lsum_perm. Qed.

Lemma abs_same_client s d cl cl' :
  clients s !! d = Some cl -> acl_of (objs s) cl' = acl_of (objs s) cl -> abs (set_clients s (<[d := cl']> (clients s))) = abs s.
Proof.
  intros Hd He. rewrite abs_put_client, He. unfold set_aclients. rewrite insert_id by (by apply abs_client). done.
Qed.

(** References move between the vector and the program; the command may change. *)
Lemma inv_argv n ci args own args' own' known s cl m :
  J n ci args own known s -> clients s !! c = Some cl -> args ++ own ≡ₚ args' ++ own' ->
  let s' := set_clients s (<[c := set_cmd (set_argv cl args'.*1) m]> (clients s)) in
  J n ci args' own' known s' /\ abs s' = abs s.
Proof.
  intros Hi Hc Hp s'. split; [|by apply (abs_same_client s c cl)].
  destruct (inv_clients _ _ _ _ _ _ _ _ Hi c cl Hc) as (B1 & B2 & (B3 & B3') & B4 & B5 & B6).
  destruct (inv_cur _ _ _ _ _ _ _ _ Hi) as (cl0 & Hc0 & Ha & Hcd). rewrite Hc in Hc0. injection Hc0 as <-.
  apply (inv_put_client rest _ c ci args own known s c cl _ ci args' own'); try done; [apply same_rc_refl|..].
  - intros p. unfold cl_refs. cbn [argv mstate wkeys set_cmd set_argv]. rewrite Ha.
    assert (occs args.*1 p + occs own.*1 p = occs args'.*1 p + occs own'.*1 p); [|lia].
    rewrite <- !occs_app, <- !fmap_app. apply occs_perm. by rewrite Hp.
  - by rewrite decide_True by done.
  - rewrite <- Hp. apply (inv_vals _ _ _ _ _ _ _ _ Hi).
Qed.

(** The command of the client. *)
Definition cmd_of (s : server) : option redisCommand := cl ← clients s !! c; cmd cl.

Lemma set_cmd_same cl : set_cmd cl (cmd cl) = cl.
Proof. by destruct cl. Qed.

Lemma delete_insert_list {A} (l : list A) j x : delete j (<[j := x]> l) = delete j l.
Proof. revert j. induction l as [|y l IH]; intros [|j]; [done..|]. cbn. f_equal. apply IH. Qed.

Lemma run_encode_arg n ci args own known s j p v :
  J (Datatypes.S n) ci args own known s -> args !! j = Some (p, v) ->
  exists q v' s', encode_arg c j s = Some (tt, s') /\ abs s' = abs s /\ value v' = value v /\ J n ci (<[j := (q, v')]> args) own known s' /\
    cmd_of s' = cmd_of s.
Proof.
  intros Hi Hj. destruct (inv_cur _ _ _ _ _ _ _ _ Hi) as (cl & Hc & Ha & Hcd).
  assert ((p, v) ∈ args) as Hin by (by apply list_elem_of_lookup_2 in Hj).
  destruct (args_vals _ _ _ _ _ _ _ Hi Hin) as (o & Ho & Hov). cbn in Ho, Hov. pose proof (args_light _ _ _ _ _ _ _ Hi Hin) as Hl. cbn in Hl.
  destruct (inv_argv (Datatypes.S n) ci args own (delete j args) ((p, v) :: own) known s cl (cmd cl) Hi Hc) as [Hi0 Ha0].
  { rewrite (delete_Permutation _ _ _ Hj) at 1. apply Permutation_middle. }
  cbn zeta in *. set (s0 := set_clients s _) in *. change (objs s) with (objs s0) in Ho.
  pose proof (inv_refs _ _ _ _ _ _ _ _ Hi0) as Hr. pose proof (hold_nonneg s0) as Hh. pose proof (rhold_nonneg s0) as Hrh.
  destruct (encode_effect (objs s0) p o) as (q & st' & o' & Hrun & He & Hq & Hval & Hlo); [apply Hi0| |done|by rewrite Hov| |].
  { intros x ox Hx. pose proof (inv_margin _ _ _ _ _ _ _ _ Hi0 x ox Hx). lia. }
  { intros i Hb. destruct (ok_int _ (inv_store _ _ _ _ _ _ _ _ Hi0) i Hb) as (x & ox & Hg & _). exists x. split; [done|]. intros ->.
    destruct (inv_shared _ _ _ _ _ _ _ _ Hi0) as (_ & _ & S3). specialize (S3 i p Hb Hg). specialize (Hr p). rewrite (refs_lookup _ _ _ Ho) in Hr.
    rewrite occs_cons, count_same in Hr. pose proof (occs_nonneg own.*1 p). specialize (Hh p). specialize (Hrh p). lia. }
  destruct (own_vals _ _ _ _ _ _ Hi0) as [Hov0 Hol0]. apply Forall_cons in Hov0 as [_ Hov0]. apply Forall_cons in Hol0 as [_ Hol0].
  destruct (inv_effect (Datatypes.S n) n ci (delete j args) ((p, v) :: own) ((q, val o') :: own) known s0 st' (Some p) (Some q) Hi0) as [Hi1 Ha1]; [lia|done| | | |by constructor|].
  { intros x [= <-]. by left. }
  { intros x. rewrite !occs_cons. lia. }
  { constructor; [by exists o'|]. apply (effect_own (objs s0) st' (Some p) (Some q)); [done|done|]. intros x Hx. destruct (decide (p = x.1)) as [->|Hne]; [right|left; congruence].
    rewrite Hr, occs_cons, count_same. pose proof (occs_elem own.*1 x.1 ltac:(apply list_elem_of_fmap; eauto)). specialize (Hh x.1). specialize (Hrh x.1).
    pose proof (inv_rest _ _ _ _ _ _ _ _ Hi0 x.1). lia. }
  assert (clients (set_objs s0 st') !! c = Some (set_cmd (set_argv cl (delete j args).*1) (cmd cl))) as Hc1 by (cbn; by rewrite lookup_insert_eq).
  destruct (inv_argv n ci (delete j args) ((q, val o') :: own) (<[j := (q, val o')]> args) own known (set_objs s0 st') _ (cmd cl) Hi1 Hc1) as [Hi2 Ha2].
  { rewrite (delete_Permutation (<[j := (q, val o')]> args) j (q, val o')) by (apply list_lookup_insert_eq; by eapply lookup_lt_Some).
    rewrite delete_insert_list. symmetry. apply Permutation_middle. }
  exists q, (val o'). eexists. split; [|split; [|split; [by rewrite Hval, Hov|split; [exact Hi2|]]]].
  - unfold encode_arg, arg, put_arg, the_client, put_client, on_store, opt, mbind, prog_bind. rewrite Hc, Ha, list_lookup_fmap, Hj. cbn -[tryObjectEncoding set_clients].
    change (objs s) with (objs s0). rewrite Hrun. cbn -[set_clients]. rewrite Hc, Ha, list_fmap_insert. cbn. f_equal. f_equal.
    unfold set_clients, set_objs. cbn. f_equal. rewrite insert_insert_eq. done.
  - by rewrite Ha2, Ha1, Ha0.
  - unfold cmd_of. cbn. by rewrite lookup_insert_eq, Hc.
Qed.

Lemma sim_encode_arg {A B} n ci args own known j p v m (f : unit -> M A) (am : S B) Q :
  args !! j = Some (p, v) ->
  (forall q v', value v' = value v -> sim (fun s => J n ci (<[j := (q, v')]> args) own known s /\ cmd_of s = m) (f tt) am Q) ->
  sim (fun s => J (Datatypes.S n) ci args own known s /\ cmd_of s = m) (encode_arg c j ≫= f) am Q.
Proof.
  intros Hj Hf. apply (sim_left _ _ _ (fun _ s => exists q v', value v' = value v /\ J n ci (<[j := (q, v')]> args) own known s /\ cmd_of s = m)).
  - intros s [Hs <-]. destruct (run_encode_arg n ci args own known s j p v Hs Hj) as (q & v' & s' & Hrun & Ha & Hv & Hi & Hm). exists tt, s'. eauto 8.
  - intros []. apply sim_exists. intros q. apply sim_exists. intros v'. apply sim_and. apply Hf.
Qed.

Lemma sim_encode {A B} n ci args own known j p v (f : unit -> M A) (am : S B) Q :
  args !! j = Some (p, v) ->
  (forall q v', value v' = value v -> sim (J n ci (<[j := (q, v')]> args) own known) (f tt) am Q) ->
  sim (J (Datatypes.S n) ci args own known) (encode_arg c j ≫= f) am Q.
Proof.
  intros Hj Hf s Hs. apply (sim_encode_arg n ci args own known j p v (cmd_of s) f am Q Hj); [|done]. intros q v' Hv. apply sim_drop. by apply Hf.
Qed.

(** ** Lemmas: values changed in place *)

Lemma set_adbs_twice a l l' : set_adbs (set_adbs a l) l' = set_adbs a l'.
Proof. done. Qed.

(** Nobody but the key space refers to the object. *)
Lemma run_set_val n ci args own known s i k p v w d :
  J n ci args own known s -> (i, k, Some (VString p), v) ∈ known -> dbs s !! i = Some d -> refs (objs s) p = 1 -> wf_val w -> light w ->
  exists s', set_val p w s = Some (tt, s') /\ J n ci args own ((i, k, Some (VString p), w) :: others i k known) s' /\
    abs s' = set_adbs (abs s) (<[i := mk_adb (<[k := AString (value w)]> (adict (adb_of (objs s) d))) (expires d)]> (adbs (abs s))).
Proof.
  intros Hi Hin Hd Hone Hw Hl. pose proof (inv_known _ _ _ _ _ _ _ _ Hi) as Hkn. rewrite Forall_forall in Hkn. specialize (Hkn _ Hin).
  destruct (known_ent s i k _ v d Hkn Hd) as [Hv _]. pose proof (hold_dict s i d k p Hd Hv) as Hh. pose proof (inv_refs _ _ _ _ _ _ _ _ Hi p) as Hr.
  pose proof (rhold_nonneg s p) as Hrh. pose proof (occs_nonneg own.*1 p) as Ho0. pose proof (inv_rest _ _ _ _ _ _ _ _ Hi p) as Hrest.
  destruct Hkn as (d' & _ & _ & o & Ho & Hov). cbn in Ho, Hov. clear d'.
  destruct (inv_swap n ci args own known s i d k (Some (VString p)) v None (INT 0) (delete k (expires d)) None) as [Hi0 Ha0]; [done| |done| |done|].
  { pose proof (inv_known _ _ _ _ _ _ _ _ Hi) as Hkn. rewrite Forall_forall in Hkn. by apply Hkn. }
  { intros key' [Hne Hkey]%lookup_delete_is_Some. change (partial_alter _ k (dict d)) with (delete k (dict d)).
    apply lookup_delete_is_Some. split; [done|]. by apply (inv_exp _ _ _ _ _ _ _ _ Hi i d). }
  cbn zeta in *. set (d0 := mk_db (partial_alter _ k (dict d)) _ _) in *. set (s0 := set_dbs s _) in *. cbn [held app] in Hi0.
  pose proof (set_effect (objs s0) p o w (inv_store _ _ _ _ _ _ _ _ Hi0) Ho Hw) as He. rewrite (refs_lookup _ _ _ Ho) in Hone.
  specialize (He ltac:(intros j Hj Hg; destruct (inv_shared _ _ _ _ _ _ _ _ Hi0) as (_ & _ & S3); specialize (S3 j p Hj Hg); rewrite (refs_lookup _ _ _ Ho) in Hr; lia) Hone).
  destruct (own_vals _ _ _ _ _ _ Hi0) as [Hov0 Hol0]. apply Forall_cons in Hov0 as [_ Hov0]. apply Forall_cons in Hol0 as [_ Hol0].
  destruct (inv_effect n n ci args ((p, v) :: own) ((p, w) :: own) _ s0 _ (Some p) (Some p) Hi0 ltac:(right; by split; [|right]) He) as [Hi1 Ha1]; [| | |by constructor|].
  { intros x [= <-]. by left. }
  { intros x. rewrite !occs_cons. lia. }
  { constructor; [eexists; cbn; rewrite lookup_insert_eq; by split|]. apply (effect_own (objs s0) _ (Some p) (Some p)); [done|done|].
    intros x Hx. left. intros [= Hpx]. rewrite (refs_lookup _ _ _ Ho) in Hr. pose proof (occs_elem own.*1 p ltac:(apply list_elem_of_fmap; eauto)). lia. }
  set (st' := set_heap (objs s0) _) in *. set (s1 := set_objs s0 st') in *.
  assert (dbs s1 !! i = Some d0) as Hd1 by (cbn; rewrite list_lookup_insert_eq; [done|by eapply lookup_lt_Some]).
  pose proof (inv_known _ _ _ _ _ _ _ _ Hi1) as Hkn1. apply Forall_cons in Hkn1 as [Hkn1 _].
  assert (forall (m : gmap bytes dbval) x, partial_alter (fun _ => x) k (partial_alter (fun _ => None) k m) = partial_alter (fun _ => x) k m) as Htwice
    by (intros m x; by rewrite partial_alter_partial_alter_eq).
  assert (partial_alter (fun _ => Some (VString p)) k (dict d0) = dict d) as Hback by (cbn; rewrite Htwice, <- Hv; apply partial_alter_self).
  destruct (inv_swap n ci args own _ s1 i d0 k None (INT 0) (Some (VString p)) w (expires d) (Some (AString (value w))) Hi1 Hkn1 Hd1) as [Hi2 Ha2]; [|done|].
  { intros key' Hkey. rewrite Hback. by apply (inv_exp _ _ _ _ _ _ _ _ Hi i d). }
  rewrite Hback in Hi2, Ha2. change (watched_keys d0) with (watched_keys d) in *. rewrite others_again in Hi2.
  assert (set_dbs s1 (<[i := mk_db (dict d) (expires d) (watched_keys d)]> (dbs s1)) = set_objs s st') as Hs.
  { unfold s1, s0, set_dbs, set_objs. cbn. f_equal. rewrite list_insert_insert_eq. destruct d. by apply list_insert_id. }
  rewrite Hs in Hi2, Ha2. exists (set_objs s st'). split; [|split; [exact Hi2|]].
  - unfold set_val, on_store. rewrite Ho. done.
  - assert (adb_of (objs s1) d0 = mk_adb (partial_alter (fun _ => None) k (adict (adb_of (objs s) d))) (delete k (expires d))) as Hadb.
    { assert (adbs (abs s1) !! i = adbs (abs s0) !! i) as Heq by (by rewrite Ha1). rewrite (abs_db s1), Hd1, Ha0 in Heq. cbn -[abs adb_of] in Heq.
      rewrite list_lookup_insert_eq in Heq; [by apply (inj Some) in Heq|]. cbn. rewrite length_fmap. by eapply lookup_lt_Some. }
    rewrite Ha2, Hadb, Ha1, Ha0, set_adbs_twice. cbn -[abs adb_of]. rewrite list_insert_insert_eq. f_equal. f_equal. f_equal.
    change (<[k := AString (value w)]> (adict (adb_of (objs s) d))) with (partial_alter (fun _ => Some (AString (value w))) k (adict (adb_of (objs s) d))).
    apply partial_alter_partial_alter_eq.
Qed.

(** Storing what is there already. *)
Lemma abs_store_same n ci args own known s i k p v d :
  J n ci args own known s -> (i, k, Some (VString p), v) ∈ known -> dbs s !! i = Some d ->
  set_adbs (abs s) (<[i := mk_adb (<[k := AString (value v)]> (adict (adb_of (objs s) d))) (expires d)]> (adbs (abs s))) = abs s.
Proof.
  intros Hi Hin Hd. pose proof (inv_known _ _ _ _ _ _ _ _ Hi) as Hkn. rewrite Forall_forall in Hkn. specialize (Hkn _ Hin).
  destruct (known_ent s i k _ v d Hkn Hd) as [_ He]. rewrite insert_id by done. unfold set_adbs. rewrite list_insert_id; [done|].
  by rewrite abs_db, Hd.
Qed.

(** A string encoded object for one of any encoding. *)
Lemma run_decoded n ci args own known s p v :
  J (Datatypes.S n) ci args own known s -> val_at (objs s) (p, v) -> light v ->
  exists q w s', on_store (fun st => getDecodedObject st p) s = Some (q, s') /\ abs s' = abs s /\
    J n ci args ((q, w) :: own) known s' /\ sds_of w = Some (value v).
Proof.
  intros Hi Hpv Hl. pose proof Hpv as (o & Ho & Hv). cbn in Ho, Hv. destruct v as [str f|str|z].
  1, 2: destruct (run_incr n ci args own known s p _ Hi Hpv Hl) as (s1 & Hrun & Ha & Hi1 & _); apply incr_inv in Hrun as (st1 & Hst & ->);
    exists p; eexists; exists (set_objs s st1); (split; [|split; [done|split; [exact Hi1|done]]]);
    unfold on_store, getDecodedObject; rewrite Ho; cbn -[incrRefCount]; rewrite Hv, Hst; done.
  assert (wf_val (INT z)) as Hz. { destruct (ok_obj _ (inv_store _ _ _ _ _ _ _ _ Hi) p o Ho) as [Hw _]. by rewrite Hv in Hw. }
  destruct (run_create n ci args own known s (EMBSTR (ll_repr z)) (fun st => createObject st (EMBSTR (ll_repr z))) Hi) as (q & s1 & Hrun & Ha & Hi1); [done| |done|].
  { cbn in *. pose proof (ll_repr_len z Hz). unfold REDIS_ENCODING_EMBSTR_SIZE_LIMIT. lia. }
  exists q, (EMBSTR (ll_repr z)), s1. split; [|done]. unfold on_store. by rewrite (getDecodedObject_int (objs s) p o z Ho Hv Hz).
Qed.

Lemma sim_unshare {A B} n ci args own known i key k p v (f : loc -> M A) (am : S B) Q :
  is_key args own key k -> (i, k, Some (VString p), v) ∈ known ->
  (forall q free, sim (fun s => J n ci args own ((i, k, Some (VString q), RAW (value v) free) :: others i k known) s /\ refs (objs s) q = 1)
     (f q) am Q) ->
  sim (J (Datatypes.S (Datatypes.S n)) ci args own known) (dbUnshareStringValue i key p ≫= f) am Q.
Proof.
  intros Hk Hin Hf. apply (sim_left _ _ _ (fun q s => exists free, J n ci args own ((i, k, Some (VString q), RAW (value v) free) :: others i k known) s /\ refs (objs s) q = 1)).
  2: { intros q. apply sim_exists. intros free. apply Hf. }
  intros s Hi. destruct (known_val _ _ _ _ _ _ _ _ _ _ Hi Hin) as [Hpv Hpl]. pose proof Hpv as (o & Ho & Hv). cbn in Ho, Hv.
  pose proof (inv_known _ _ _ _ _ _ _ _ Hi) as Hkn. rewrite Forall_forall in Hkn. specialize (Hkn _ Hin).
  unfold dbUnshareStringValue. unfold mbind at 1, prog_bind at 1. unfold on_store at 1. rewrite Ho. cbn [mbind option_bind]. rewrite set_objs_id.
  destruct (negb (refcount o =? 1) || _) eqn:Hsh.
  - destruct (run_decoded (Datatypes.S n) ci args own known s p v Hi Hpv Hpl) as (q & w & s1 & Hr1 & Ha1 & Hi1 & Hw).
    unfold mbind at 1, prog_bind at 1. rewrite Hr1. unfold mbind at 1, prog_bind at 1.
    rewrite (run_ptr _ _ _ _ _ s1 q (value v) Hi1) by (exists w; split; [apply elem_of_app; right; by left|done]).
    assert (zlen (value v) <= 536870912) as Hlen.
    { destruct (ok_obj _ (inv_store _ _ _ _ _ _ _ _ Hi) p o Ho) as [Hwf _]. rewrite Hv in Hwf. by apply value_len in Hwf as [_ ?]. }
    destruct (createRawStringObject (objs s1) (value v)) as [x st2] eqn:Hc.
    destruct (run_create n ci args _ known s1 (RAW (value v) 0) (fun st => createRawStringObject st (value v)) Hi1) as (x' & s2 & Hr2 & Ha2 & Hi2); [done|done|cbn; lia|].
    unfold mbind at 1, prog_bind at 1. rewrite Hr2. unfold on_store in Hr2. rewrite Hc in Hr2. injection Hr2 as <- <-.
    unfold createRawStringObject in Hc. destruct (create_effect _ _ _ _ Hc) as [_ Hx]; [apply Hi1|done|].
    assert (heap (objs s1) !! x = None) as Hfresh by (unfold createObject in Hc; injection Hc as <- _; by apply not_elem_of_dom, is_fresh).
    assert (forall y, 0 < refs (objs s1) y -> y <> x) as Hne by (intros y Hy ->; unfold refs in Hy; rewrite Hfresh in Hy; lia).
    apply (inv_perm _ _ _ _ ((q, w) :: (x, RAW (value v) 0) :: own)) in Hi2; [|apply perm_swap].
    destruct (run_decr _ _ _ _ _ _ q w Hi2) as (s3 & Hr3 & Ha3 & Hi3). unfold mbind at 1, prog_bind at 1. rewrite Hr3.
    destruct (known_dict _ _ _ _ _ _ _ _ _ _ Hi3 Hin) as (d & Hd & _).
    destruct (run_dbOverwrite n ci args own known s3 i key k (VString x) (RAW (value v) 0) (AString (value v)) (VString p) v d Hi3 Hk Hin) as (s4 & Hr4 & Hi4 & Ha4 & Href); [done|done|].
    exists x, s4. unfold mbind at 1, prog_bind at 1. rewrite Hr4. split; [done|]. split; [|exists 0; split; [done|]].
    + rewrite Ha4, (abs_store_same _ _ _ _ _ _ _ _ _ _ _ Hi3 Hin Hd). by rewrite Ha3, Ha2, Ha1.
    + apply decr_inv in Hr3 as (st3 & Hst3 & ->). rewrite Href. cbn -[loc_of]. rewrite (decr_refs _ _ _ Hst3). cbn. rewrite (refs_lookup _ _ _ Hx), !count_other; [done|..].
      * apply Hne. destruct (known_val _ _ _ _ _ _ _ _ _ _ Hi1 Hin) as [(op & Hop & _) _]. cbn in Hop.
        pose proof (refs_pos _ _ _ (inv_store _ _ _ _ _ _ _ _ Hi1) Hop). lia.
      * apply Hne. destruct (own_vals _ _ _ _ _ _ Hi1) as [Hov _]. apply Forall_cons in Hov as [(oq & Hoq & _) _]. cbn in Hoq.
        pose proof (refs_pos _ _ _ (inv_store _ _ _ _ _ _ _ _ Hi1) Hoq). lia.
  - apply orb_false_iff in Hsh as [H1 H2]. apply negb_false_iff, Z.eqb_eq in H1. apply negb_false_iff in H2. rewrite Hv in H2.
    destruct v as [str free|str|z]; [|done..]. exists p, s. split; [done|]. split; [done|]. exists free. split.
    + eapply J_forget; [|by apply J_spend, J_spend]. intros x [->|Hx]%elem_of_cons; [done|]. by apply others_sub in Hx.
    + by rewrite (refs_lookup _ _ _ Ho).
Qed.

(** ** Lemmas: integers *)

Lemma int_of_value v : wf_val v -> int_of (value v) = Object.getLongLongFromObject (Some v).
Proof.
  destruct v as [str free|str|z]; [done..|]. cbn. intros Hz. unfold int_of. cbn. apply getLongLong_string. split; [|done].
  destruct (ll_repr_shape z Hz) as (sg & ds & Hr & Hds & Hne & _ & Hsg). left. exists sg, ds, []. rewrite app_nil_r.
  split; [done|]. split; [done|]. split; [done|]. split; [|done]. unfold signed. intuition.
Qed.

Lemma int_of_range k z : int_of k = Some z -> in_ll z.
Proof. unfold int_of. cbn. intros H. by apply getLongLong_string in H as [_ ?]. Qed.

Lemma getLong_same v msg : wf_val v ->
  Object.getLongFromObjectOrReply (Some v) msg = match int_of (value v) with Some z => inl z | None => inr (default not_int msg) end.
Proof.
  intros Hv. unfold Object.getLongFromObjectOrReply, Object.getLongLongFromObjectOrReply. rewrite <- (int_of_value v Hv).
  destruct (int_of (value v)) as [z|] eqn:Hz; [|done]. apply int_of_range in Hz. unfold in_ll, LONG_MIN, LONG_MAX in *.
  rewrite (proj2 (Z.ltb_ge _ _)), Z.gtb_ltb, (proj2 (Z.ltb_ge _ _)) by lia. done.
Qed.

(** The conversion of an object, with an error reply. *)
Lemma sim_longlong {A B} (P : server -> Prop) p v msg (f : option Z -> M A) (am : S B) Q :
  (forall s, P s -> val_of p s = Some (v, s) /\ wf_val v) ->
  (int_of (value v) = None -> sim P (addReplyError c (bytes_of_string (default not_int msg));; f None) am Q) ->
  (forall z, int_of (value v) = Some z -> sim P (f (Some z)) am Q) ->
  sim P (getLongLongFromObjectOrReply c (Some p) msg ≫= f) am Q.
Proof.
  intros Hp Hnone Hsome s Hs. destruct (Hp s Hs) as [Hrun Hv]. pose proof (int_of_value v Hv) as Hi.
  assert ((getLongLongFromObjectOrReply c (Some p) msg ≫= f) s =
    match int_of (value v) with Some z => f (Some z) s | None => (addReplyError c (bytes_of_string (default not_int msg));; f None) s end) as Heq.
  { unfold getLongLongFromObjectOrReply, mbind, prog_bind. rewrite Hrun. unfold mret, prog_ret. unfold Object.getLongLongFromObjectOrReply. rewrite <- Hi.
    destruct (int_of (value v)); [done|]. unfold mbind, prog_bind. by destruct (addReplyError c _ s) as [[? ?]|]. }
  intros b y Hy. destruct (int_of (value v)) as [z|].
  - destruct (Hsome z eq_refl s Hs b y Hy) as (a & s' & Hr & Hrest). exists a, s'. by rewrite Heq.
  - destruct (Hnone eq_refl s Hs b y Hy) as (a & s' & Hr & Hrest). exists a, s'. by rewrite Heq.
Qed.

Lemma sim_long {A B} (P : server -> Prop) p v msg (f : option Z -> M A) (am : S B) Q :
  (forall s, P s -> val_of p s = Some (v, s) /\ wf_val v) ->
  (int_of (value v) = None -> sim P (addReplyError c (bytes_of_string (default not_int msg));; f None) am Q) ->
  (forall z, int_of (value v) = Some z -> sim P (f (Some z)) am Q) ->
  sim P (getLongFromObjectOrReply c (Some p) msg ≫= f) am Q.
Proof.
  intros Hp Hnone Hsome s Hs. destruct (Hp s Hs) as [Hrun Hv]. pose proof (getLong_same v msg Hv) as Hi.
  assert ((getLongFromObjectOrReply c (Some p) msg ≫= f) s =
    match int_of (value v) with Some z => f (Some z) s | None => (addReplyError c (bytes_of_string (default not_int msg));; f None) s end) as Heq.
  { unfold getLongFromObjectOrReply, mbind, prog_bind. rewrite Hrun. unfold mret, prog_ret. rewrite Hi.
    destruct (int_of (value v)); [done|]. unfold mbind, prog_bind. by destruct (addReplyError c _ s) as [[? ?]|]. }
  intros b y Hy. destruct (int_of (value v)) as [z|].
  - destruct (Hsome z eq_refl s Hs b y Hy) as (a & s' & Hr & Hrest). exists a, s'. by rewrite Heq.
  - destruct (Hnone eq_refl s Hs b y Hy) as (a & s' & Hr & Hrest). exists a, s'. by rewrite Heq.
Qed.

(** What is read of an argument, and of a value that has been looked up. *)
Lemma read_member n ci args own known s p v :
  J n ci args own known s -> (p, v) ∈ args ++ own -> val_of p s = Some (v, s) /\ wf_val v.
Proof.
  intros Hi Hin. split; [by apply (run_val n ci args own known)|]. destruct (member_val _ _ _ _ _ _ _ _ Hi Hin) as [(o & Ho & Hv) _].
  cbn in *. subst v. by destruct (ok_obj _ (inv_store _ _ _ _ _ _ _ _ Hi) p o Ho).
Qed.

Lemma read_known n ci args own known s i k p v :
  J n ci args own known s -> (i, k, Some (VString p), v) ∈ known -> val_of p s = Some (v, s) /\ wf_val v.
Proof.
  intros Hi Hin. destruct (known_val _ _ _ _ _ _ _ _ _ _ Hi Hin) as [(o & Ho & Hv) _]. cbn in *. subst v. split.
  - unfold val_of, on_store. rewrite Ho. cbn. by rewrite set_objs_id.
  - by destruct (ok_obj _ (inv_store _ _ _ _ _ _ _ _ Hi) p o Ho).
Qed.

Lemma stringLen_value st p o : heap st !! p = Some o -> wf_val (val o) -> stringObjectLen st p = Some (zlen (value (val o))).
Proof.
  intros Ho Hw. unfold stringObjectLen. rewrite Ho. cbn -[ll2string]. destruct (val o) as [str f|str|z]; [done..|].
  by rewrite (ll2string_local 32) by (done || lia).
Qed.

Lemma sim_len {A B} n ci args own known i k p v (f : Z -> M A) (am : S B) Q :
  (i, k, Some (VString p), v) ∈ known -> (0 <= zlen (value v) <= 536870912 -> sim (J n ci args own known) (f (zlen (value v))) am Q) ->
  sim (J n ci args own known) (on_store (fun st => n ← stringObjectLen st p; Some (n, st)) ≫= f) am Q.
Proof.
  intros Hin Hf. apply (sim_pre _ (0 <= zlen (value v) <= 536870912)).
  { intros s Hs. destruct (read_known _ _ _ _ _ _ _ _ _ _ Hs Hin) as [_ Hw]. by apply value_len. }
  intros Hl. eapply sim_read; [|by apply Hf]. intros s Hs. destruct (read_known _ _ _ _ _ _ _ _ _ _ Hs Hin) as [_ Hw].
  destruct (known_val _ _ _ _ _ _ _ _ _ _ Hs Hin) as [(o & Ho & Hv) _]. cbn in *. subst v. unfold on_store. rewrite (stringLen_value _ _ o) by done. cbn.
  by rewrite set_objs_id.
Qed.

Lemma run_create_ll n ci args own known s z :
  J (Datatypes.S n) ci args own known s -> in_ll z ->
  exists p s', on_store (fun st => createStringObjectFromLongLong st z) s = Some (p, s') /\ abs s' = abs s /\ J n ci args ((p, INT z) :: own) known s'.
Proof.
  intros Hi Hz. destruct ((z >=? 0) && (z <? REDIS_SHARED_INTEGERS)) eqn:Hsh.
  - zbool. destruct (ok_int _ (inv_store _ _ _ _ _ _ _ _ Hi) z) as (p & o & Hg & Hp & Ho); [lia|].
    destruct (run_incr n ci args own known s p (INT z) Hi) as (s' & Hrun & Ha & Hi' & _); [by exists o|done|]. apply incr_inv in Hrun as (st & Hst & ->).
    exists p, (set_objs s st). split; [|done]. unfold on_store, createStringObjectFromLongLong. rewrite Z.geb_leb, (proj2 (Z.leb_le _ _)), (proj2 (Z.ltb_lt _ _)) by lia.
    cbn -[incrRefCount]. rewrite Hg. cbn -[incrRefCount]. by rewrite Hst.
  - destruct (run_create n ci args own known s (INT z) (fun st => createObject st (INT z)) Hi) as (p & s' & Hrun & Ha & Hi'); [done|done|done|].
    exists p, s'. split; [|done]. rewrite <- Hrun. unfold on_store, createStringObjectFromLongLong. rewrite Hsh.
    unfold in_ll, LONG_MIN, LONG_MAX in *. rewrite Z.geb_leb, (proj2 (Z.leb_le _ _)), (proj2 (Z.leb_le _ _)) by lia. done.
Qed.

Lemma sim_create_ll {A B} n ci args own known z (f : loc -> M A) (am : S B) Q :
  in_ll z -> (forall p, sim (J n ci args ((p, INT z) :: own) known) (f p) am Q) ->
  sim (J (Datatypes.S n) ci args own known) (on_store (fun st => createStringObjectFromLongLong st z) ≫= f) am Q.
Proof.
  intros Hz Hf. apply (sim_left _ _ _ (fun p => J n ci args ((p, INT z) :: own) known)); [|done].
  intros s Hs. destruct (run_create_ll n ci args own known s z Hs Hz) as (p & s' & ? & ? & ?). eauto.
Qed.

Lemma sim_create {A B} n ci args own known v (g : store -> loc * store) (f : loc -> M A) (am : S B) Q :
  (forall st, g st = createObject st v) -> wf_val v -> light v -> (forall p, sim (J n ci args ((p, v) :: own) known) (f p) am Q) ->
  sim (J (Datatypes.S n) ci args own known) (on_store (fun st => Some (g st)) ≫= f) am Q.
Proof.
  intros Hg Hv Hl Hf. apply (sim_left _ _ _ (fun p => J n ci args ((p, v) :: own) known)); [|done].
  intros s Hs. destruct (run_create n ci args own known s v g Hs Hg Hv Hl) as (p & s' & ? & ? & ?). eauto.
Qed.

Lemma sim_create_string {A B} n ci args own known str (f : loc -> M A) (am : S B) Q :
  zlen str <= 536870912 ->
  (forall p v, sds_of v = Some str -> sim (J n ci args ((p, v) :: own) known) (f p) am Q) ->
  sim (J (Datatypes.S n) ci args own known) (on_store (fun st => Some (createStringObject st str)) ≫= f) am Q.
Proof.
  intros Hl Hf. apply (sim_left _ _ _ (fun p s => exists v, sds_of v = Some str /\ J n ci args ((p, v) :: own) known s)).
  - intros s Hs. destruct (run_create_string n ci args own known s str Hs Hl) as (p & v & s' & ? & ? & ? & _ & ?).
    exists p, s'. eauto 6.
  - intros p. apply sim_exists. intros v. apply sim_and. apply Hf.
Qed.

End Facts.
