(* ===== verification/StringFacts.v ===== *)
(** * The commands of t_string.c simulate those of the specification *)

From Stdlib Require Import ZArith Lia String.
From stdpp Require Import base numbers list gmap.
From S2P Require Import Prelude Util Object Reply ReplyFacts Server Watch Db Strings Multi KeySpec ServerFacts DbFacts.

Open Scope Z_scope.

(** The membership of a shared object. *)
Ltac shared := unfold shared_texts; repeat (apply list_elem_of_here || apply list_elem_of_further).

Section Facts.
Context `{E : Env} (rest : loc -> Z) (c : cid).
Hypothesis zmalloc_bound : forall n, 0 <= n -> 0 <= zmalloc_size n <= 2 * n + 4096.

Abbreviation J := (J rest c).
Abbreviation sim := (simulates abs).
Implicit Types (args own : list (loc * strval)) (known : list (nat * bytes * option dbval * strval)).

(** ** Lemmas *)

Lemma J_less n m ci args own known s : (m <= n)%nat -> J n ci args own known s -> J m ci args own known s.
Proof. intros Hm. unfold ServerFacts.J. apply inv_weaken. lia. Qed.

Definition values args : list bytes := (fun x => value x.2) <$> args.

(** After a command: the strings of the argument vector. *)
Definition after n own (vals : list bytes) (s : server) : Prop := exists ci args, J n ci args own [] s /\ values args = vals.

Lemma after_intro n m ci args own known s : (n <= m)%nat -> J m ci args own known s -> after n own (values args) s.
Proof. intros Hn Hi. exists ci, args. split; [|done]. apply (J_less m); [done|]. eapply J_forget; [|exact Hi]. apply list_subseteq_nil. Qed.

Lemma values_insert args j p v q v' : args !! j = Some (p, v) -> value v' = value v -> values (<[j := (q, v')]> args) = values args.
Proof. intros Hj Hv. unfold values. rewrite list_fmap_insert. apply list_insert_id. rewrite list_lookup_fmap, Hj. cbn. by rewrite Hv. Qed.

Lemma sim_found {A B} n ci args own known i k o ao (m : M A) (am : S B) Q :
  (forall sv, ao = ent o sv -> sim (J n ci args own ((i, k, o, sv) :: others i k known)) m am Q) ->
  sim (found rest c n ci args own known i k o ao) m am Q.
Proof. intros Hm. apply sim_exists. intros sv. apply sim_and. apply Hm. Qed.

(** The last reply of a command. *)
Lemma sim_end n m ci args own known (p : M unit) (ap : S unit) vals :
  (n <= m)%nat -> sim (J (Datatypes.S m) ci args own known) p ap (fun _ _ => J m ci args own known) -> values args = vals ->
  sim (J (Datatypes.S m) ci args own known) p ap (fun _ _ => after n own vals).
Proof. intros Hn Hp <-. eapply sim_weaken; [| |exact Hp]; [done|]. intros ? ? s Hs. by apply (after_intro n m ci args own known). Qed.

Lemma sim_stop {A B} n m ci args own known vals (a : A) (b : B) :
  (n <= m)%nat -> values args = vals -> sim (J m ci args own known) (mret a) (mret b) (fun _ _ => after n own vals).
Proof. intros Hn <-. apply sim_ret. intros s Hs. by apply (after_intro n m ci args own known). Qed.

Lemma sim_lookupReadOr {A B} n ci args own known key k p (f : option dbval -> M A) (af : option aval -> S B) Q :
  is_key args own key k ->
  (forall sv, sim (J n ci args own ((ci, k, None, sv) :: others ci k known)) (addReply c p;; f None) (af None) Q) ->
  (forall v sv av, ent (Some v) sv = Some av -> sim (J n ci args own ((ci, k, Some v, sv) :: others ci k known)) (f (Some v)) (af (Some av)) Q) ->
  sim (J (2 + n) ci args own known) (lookupKeyReadOrReply c key p ≫= f) (s_lookup ci k ≫= af) Q.
Proof.
  intros Hk Hnone Hsome. unfold lookupKeyReadOrReply.
  eapply sim_eq; [intros s _; rewrite prog_assoc; reflexivity|done|]. apply sim_c_db.
  eapply sim_eq; [intros s _; rewrite prog_assoc; reflexivity|done|]. eapply sim_bind; [by apply sim_lookupKeyRead|].
  intros o ao. apply sim_found. intros sv ->. eapply sim_eq; [intros s _; rewrite prog_assoc; reflexivity|done|]. destruct o as [v|].
  - destruct (ent_some v sv) as (av & Hav). rewrite Hav. by apply Hsome.
  - apply Hnone.
Qed.

Lemma sim_lookupWriteOr {A B} n ci args own known key k p (f : option dbval -> M A) (af : option aval -> S B) Q :
  is_key args own key k ->
  (forall sv, sim (J n ci args own ((ci, k, None, sv) :: others ci k known)) (addReply c p;; f None) (af None) Q) ->
  (forall v sv av, ent (Some v) sv = Some av -> sim (J n ci args own ((ci, k, Some v, sv) :: others ci k known)) (f (Some v)) (af (Some av)) Q) ->
  sim (J (2 + n) ci args own known) (lookupKeyWriteOrReply c key p ≫= f) (s_lookup ci k ≫= af) Q.
Proof.
  intros Hk Hnone Hsome. unfold lookupKeyWriteOrReply.
  eapply sim_eq; [intros s _; rewrite prog_assoc; reflexivity|done|]. apply sim_c_db.
  eapply sim_eq; [intros s _; rewrite prog_assoc; reflexivity|done|]. eapply sim_bind; [by apply sim_lookupKeyWrite|].
  intros o ao. apply sim_found. intros sv ->. eapply sim_eq; [intros s _; rewrite prog_assoc; reflexivity|done|]. destruct o as [v|].
  - destruct (ent_some v sv) as (av & Hav). rewrite Hav. by apply Hsome.
  - apply Hnone.
Qed.

(** The budget that is left is enough. *)
Ltac settle Hs := eapply after_intro; [|exact Hs]; cbn; lia.

(** ** GET, GETSET, STRLEN *)

Lemma sim_getGeneric n ci args own kp kv k :
  args !! 1%nat = Some (kp, kv) -> sds_of kv = Some k ->
  sim (J (3 + n) ci args own []) (getGenericCommand c) (s_get c k) (fun a b s => a = b /\ J n ci args own [] s).
Proof.
  intros H1 Hk. unfold getGenericCommand, s_get. apply sim_s_client. intros cl Hci. apply sim_drop. rewrite Hci.
  eapply sim_arg; [exact H1|]. assert (is_key args own kp k) as Hkey.
  { exists kv. split; [|done]. apply elem_of_app. left. by apply list_elem_of_lookup_2 in H1. }
  apply sim_lookupReadOr; [done|..].
  - intros sv. eapply sim_bind; [by apply sim_text; [done|shared]|]. intros [] []. apply sim_ret. intros s Hs. split; [done|].
    eapply J_forget; [|exact Hs]. apply list_subseteq_nil.
  - intros v sv av Hav. destruct v as [p|t]; cbn in Hav; injection Hav as <-.
    + eapply sim_bind; [by eapply sim_bulk; [done|by left]|]. intros [] []. apply sim_ret. intros s Hs. split; [done|].
      eapply J_forget; [|exact Hs]. apply list_subseteq_nil.
    + eapply sim_bind; [by apply sim_text; [done|shared]|]. intros [] []. apply sim_ret. intros s Hs. split; [done|].
      eapply J_forget; [|exact Hs]. apply list_subseteq_nil.
Qed.

Lemma sim_pure {A B C} P (x : A) (f : A -> M B) (am : S C) Q : sim P (f x) am Q -> sim P (mret x ≫= f) am Q.
Proof. done. Qed.

Lemma sim_pure_s {A B C} P (m : M A) (x : B) (af : B -> S C) Q : sim P m (af x) Q -> sim P m (mret x ≫= af) Q.
Proof. done. Qed.

(** A last step of the specification that gives nothing. *)
Lemma sim_keeping {A B} P (m : M A) (am : S unit) (b : B) (Q : A -> B -> server -> Prop) :
  sim P m am (fun a _ => Q a b) -> sim P m (am;; mret b) Q.
Proof.
  intros Hm s Hs b' y Hy. unfold mbind, prog_bind in Hy. destruct (am (abs s)) as [[[] y1]|] eqn:Ham; [|done]. injection Hy as <- <-. by apply (Hm s Hs tt y1).
Qed.

Lemma arg_key args own p v k : (p, v) ∈ args -> sds_of v = Some k -> is_key args own p k.
Proof. intros Hin Hk. exists v. split; [|done]. apply elem_of_app. by left. Qed.

Lemma sim_get n ci own x0 kp kv k :
  sds_of kv = Some k ->
  sim (J (3 + n) ci [x0; (kp, kv)] own []) (getCommand c) (s_get c k;; mret tt) (fun _ _ => after n own (values [x0; (kp, kv)])).
Proof.
  intros Hk. unfold getCommand. eapply sim_bind; [by apply (sim_getGeneric _ _ _ _ kp kv)|]. intros a b. apply sim_and. intros _.
  by apply (sim_stop n n).
Qed.

Lemma sim_getset n ci own x0 kp kv vp vv k :
  sds_of kv = Some k ->
  sim (J (7 + n) ci [x0; (kp, kv); (vp, vv)] own []) (getsetCommand c)
    (done ← s_get c k; cl ← s_client c;
     if (done : bool) then
       s_set_key (in_db cl) k (value vv);; s_tell (ENotify REDIS_NOTIFY_STRING "set" k (in_db cl));; s_dirty 1
     else mret tt)
    (fun _ _ => after n own (values [x0; (kp, kv); (vp, vv)])).
Proof.
  intros Hk. unfold getsetCommand. eapply sim_bind; [by apply (sim_getGeneric (4 + n) _ _ _ kp kv)|]. intros a b. apply sim_and. intros <-.
  apply sim_s_client. intros cl Hci. apply sim_drop. rewrite Hci. destruct a; [|apply sim_stop; [lia|done]].
  eapply sim_encode; [done|]. intros q v' Hv. rewrite <- Hv. apply sim_c_db. eapply sim_arg; [done|]. eapply sim_arg; [done|].
  change (<[_ := _]> _) with [x0; (kp, kv); (q, v')].
  assert (is_key [x0; (kp, kv); (q, v')] own kp k) as Hkey by (apply (arg_key _ _ _ kv); [right; by left|done]).
  eapply sim_bind; [apply sim_setKey; [done|right; right; by left]|]. intros ? ?. cbn beta.
  eapply sim_bind; [by apply sim_notify|]. intros ? ?. cbn beta.
  eapply sim_post; [apply sim_dirty|]. intros ? ? s Hs. replace (values [x0; (kp, kv); (vp, vv)]) with (values [x0; (kp, kv); (q, v')]).
  - settle Hs.
  - unfold values. cbn. by rewrite Hv.
Qed.

Lemma sim_strlen n ci own x0 kp kv k :
  sds_of kv = Some k ->
  sim (J (3 + n) ci [x0; (kp, kv)] own []) (strlenCommand c) (s_strlen c k) (fun _ _ => after n own (values [x0; (kp, kv)])).
Proof.
  intros Hk. unfold strlenCommand, s_strlen. eapply sim_arg; [done|]. apply sim_s_client. intros cl Hci. apply sim_drop. rewrite Hci.
  assert (is_key [x0; (kp, kv)] own kp k) as Hkey by (apply (arg_key _ _ _ kv); [right; by left|done]).
  apply sim_lookupReadOr; [done|..].
  - intros sv. eapply sim_unit; [by apply sim_text; [done|shared]|]. intros ? ? s Hs. settle Hs.
  - intros v sv av Hav. destruct v as [p|t]; cbn in Hav; injection Hav as <-.
    + unfold checkType. cbn [type_of]. rewrite Z.eqb_refl. apply sim_pure, sim_pure. eapply sim_len; [by left|]. intros Hl.
      apply (sim_end n n); [lia| |done]. apply sim_int; [done|]. unfold in_ll, LLONG_MIN, LLONG_MAX. lia.
    + unfold checkType. replace (negb (type_of (VOther t) =? REDIS_STRING)) with true by (by destruct t).
      eapply sim_eq; [intros s _; rewrite prog_assoc; reflexivity|done|]. eapply sim_unit; [by apply sim_text; [done|shared]|].
      intros ? ? s Hs. settle Hs.
Qed.

Lemma sim_flat {A B C D} P (m : M A) (f : A -> M B) (g : B -> M C) (am : S D) Q :
  sim P (m ≫= (fun a => f a ≫= g)) am Q -> sim P ((m ≫= f) ≫= g) am Q.
Proof. apply sim_eq; [|done]. intros s _. by rewrite prog_assoc. Qed.

Lemma sim_type_ok {A B} P p (f : bool -> M A) (am : S B) Q : sim P (f false) am Q -> sim P (checkType c (VString p) REDIS_STRING ≫= f) am Q.
Proof. done. Qed.

Lemma sim_type_wrong {A B} P t (f : bool -> M A) (am : S B) Q :
  sim P (addReply c (wrongtypeerr shared);; f true) am Q -> sim P (checkType c (VOther t) REDIS_STRING ≫= f) am Q.
Proof. unfold checkType. replace (negb (type_of (VOther t) =? REDIS_STRING)) with true by (by destruct t). intros Hs. by apply sim_flat. Qed.

(** ** SET, SETNX, SETEX, PSETEX *)

Lemma ent_there o sv : bool_decide (is_Some (ent o sv)) = bool_decide (is_Some o).
Proof. apply bool_decide_ext. destruct o as [[p|t]|]; cbn; rewrite ?is_Some_alt; done. Qed.

Lemma ent_absent o sv : bool_decide (ent o sv = None) = bool_decide (o = None).
Proof. apply bool_decide_ext. by destruct o as [[p|t]|]. Qed.

(** A lookup whose result is only compared with NULL. *)
Lemma sim_lookup_test n ci args own known i key k (b : bool) (g : option dbval -> bool) (ag : option aval -> bool) (d : bool) :
  is_key args own key k -> (forall o sv, ag (ent o sv) = g o) ->
  sim (J (2 + n) ci args own known) (if b then o ← lookupKeyWrite i key; mret (g o) else mret d) (if b then o ← s_lookup i k; mret (ag o) else mret d)
    (fun x y s => x = y /\ J n ci args own [] s).
Proof.
  intros Hk Hg. destruct b.
  - eapply sim_bind; [by apply sim_lookupKeyWrite|]. intros o ao. apply sim_found. intros sv ->.
    apply sim_ret. intros s Hs. split; [by rewrite Hg|]. eapply J_forget; [|exact Hs]. apply list_subseteq_nil.
  - apply sim_ret. intros s Hs. split; [done|]. eapply J_less; [|eapply J_forget; [|exact Hs]]; [lia|apply list_subseteq_nil].
Qed.

Lemma sim_opt_eq {A} (P : server -> Prop) (x : option A) : sim P (opt x) (opt x) (fun a b s => a = b /\ x = Some a /\ P s).
Proof. apply sim_opt. auto. Qed.

(** The time of an option, in the program and in the specification. *)
Definition time_is args (expire : option loc) (units : Z) (e : option (bytes * Z)) : Prop :=
  match expire, e with
  | None, None => True
  | Some p, Some (t, u) => u = units /\ exists v, (p, v) ∈ args /\ value v = t
  | _, _ => False
  end.

Lemma sim_cmd {A B C} (P : server -> Prop) m (f : redisCommand -> M A) (g : A -> M B) (am : S C) Q :
  (forall s, P s -> cmd_of c s = Some m) -> sim P (f m ≫= g) am Q -> sim P ((cl ← the_client c; m ← opt (cmd cl); f m) ≫= g) am Q.
Proof.
  intros Hm. apply sim_eq; [|done]. intros s Hs. specialize (Hm s Hs). unfold cmd_of in Hm. apply bind_Some in Hm as (cl & Hc & Hm).
  unfold the_client, opt, mbind, prog_bind. by rewrite Hc, Hm.
Qed.

(** The names of the commands are short and of one line. *)
Lemma table_name m : m ∈ redisCommandTable ->
  0 <= zlen (name m) <= 100 /\ ((fun b => if (b =? 13) || (b =? 10) then 32 else b) <$> name m) = name m.
Proof.
  intros Hm. assert (Forall (fun m => (zlen (name m) <=? 100) && bool_decide (((fun b => if (b =? 13) || (b =? 10) then 32 else b) <$> name m) = name m) = true)
    redisCommandTable) as Hall by (repeat constructor). rewrite Forall_forall in Hall. specialize (Hall m Hm). apply andb_true_iff in Hall as [H1 H2]. zbool.
  apply bool_decide_eq_true in H2. pose proof (zlen_nonneg (name m)). split; [lia|done].
Qed.

(** The steps of SET once the time is known. *)
Ltac set_body n Hk Hval Hok Hab :=
  apply sim_c_db; eapply sim_bind; [apply sim_lookup_test; [exact Hk|exact ent_there]|]; intros there ?; apply sim_and; intros <-;
  eapply (sim_bind _ _ _ _ (fun a b s => a = b /\ J (4 + n) _ _ _ [] s));
  [destruct there; [apply sim_ret; intros s Hs; split; [reflexivity|]; eapply J_less; [|exact Hs]; lia|apply sim_lookup_test; [exact Hk|exact ent_absent]]
  |intros stop ?; apply sim_and; intros <-; destruct stop;
   [eapply sim_end; [|apply sim_text; [exact zmalloc_bound|exact Hab]|reflexivity]; cbn; lia
   |eapply sim_bind; [apply sim_setKey; [exact Hk|exact Hval]|]; intros ? ?; cbn beta; eapply sim_bind; [apply sim_dirty|]; intros ? ?; cbn beta]].

Lemma sim_setGeneric n ci args own flags nx xx key k val v expire units e m okr okt abr abt :
  is_key args own key k -> (val, v) ∈ args -> time_is args expire units e -> m ∈ redisCommandTable ->
  negb (Z.land flags REDIS_SET_NX =? 0) = nx -> negb (Z.land flags REDIS_SET_XX =? 0) = xx ->
  (default (ok shared) okr, okt) ∈ shared_texts -> (default (nullbulk (shared_base shared)) abr, abt) ∈ shared_texts ->
  sim (fun s => J (8 + n) ci args own [] s /\ cmd_of c s = Some m) (setGenericCommand c flags key val expire units okr abr)
    (s_set c (name m) nx xx k (value v) e okt abt) (fun _ _ => after n own (values args)).
Proof.
  intros Hk Hval Htime Hm <- <- Hok Hab. unfold setGenericCommand, s_set.
  eapply sim_s_client_and; [by intros s [? _]|]. intros cl Hci. rewrite Hci. apply sim_drop.
  destruct expire as [ep|]; destruct e as [[t u]|]; cbn in Htime; try done.
  - destruct Htime as (-> & ev & Hev & <-). apply sim_flat. eapply (sim_longlong rest).
    + intros s [Hs _]. eapply read_member; [exact Hs|]. apply elem_of_app. by left.
    + intros ->. cbn [fmap option_fmap option_map]. apply sim_drop. eapply sim_unit; [by apply sim_error|].
      intros ? ? s Hs. settle Hs.
    + intros z Hz. rewrite Hz. cbn [fmap option_fmap option_map]. destruct (z <=? 0).
      * apply (sim_cmd _ m); [by intros s [_ ?]|]. apply sim_drop, sim_flat. destruct (table_name m Hm) as [Hlen Hmap].
        eapply sim_unit; [apply sim_error_format; [exact zmalloc_bound| |]|].
        -- rewrite zlen_app. change (zlen (bytes_of_string _)) with 23. lia.
        -- by rewrite fmap_app, Hmap.
        -- intros ? ? s Hs. settle Hs.
      * eapply sim_flat. eapply sim_assoc_s. eapply sim_bind; [apply sim_opt_eq|]. intros ms ?. apply sim_and. intros <-. apply sim_and. intros _. apply sim_pure, sim_pure_s.
        apply sim_drop. set_body n Hk Hval Hok Hab.
        apply sim_flat, sim_assoc_s. eapply sim_bind; [apply sim_mstime|]. intros now ?. apply sim_and. intros <-.
        apply sim_flat, sim_assoc_s. eapply sim_bind; [apply sim_opt_eq|]. intros when ?. apply sim_and. intros <-. apply sim_and. intros _.
        eapply sim_bind; [eapply (sim_set_expire _ _ _ _ _ _ _ _ _ _ _ _ (Some when)); [exact Hk|by left]|]. intros ? ?. cbn beta.
        eapply sim_bind; [by apply sim_notify|]. intros ? ?. cbn beta. eapply sim_bind; [by apply sim_notify|]. intros ? ?. cbn beta.
        eapply sim_end; [|by apply sim_text|done]. cbn. lia.
  - apply sim_drop, sim_pure, sim_pure_s. set_body n Hk Hval Hok Hab. apply sim_pure, sim_pure_s.
    eapply sim_bind; [by apply sim_notify|]. intros ? ?. cbn beta. apply sim_pure, sim_pure_s. eapply sim_end; [|by apply sim_text|done]. cbn. lia.
Qed.

(** The flags of the options, in the program and in the specification. *)
Definition options_are args (r : option (Z * option loc * Z)) (x : option (bool * bool * option (bytes * Z))) : Prop :=
  match r, x with
  | None, None => True
  | Some (flags, expire, units), Some (nx, xx, e) =>
      negb (Z.land flags REDIS_SET_NX =? 0) = nx /\ negb (Z.land flags REDIS_SET_XX =? 0) = xx /\ time_is args expire units e
  | _, _ => False
  end.

Lemma land_bit flags (b f g : Z) : Z.land b g = f -> negb (Z.land (Z.lor flags b) g =? 0) = negb (Z.land flags g =? 0) || negb (f =? 0).
Proof.
  intros <-. rewrite Z.land_lor_distr_l. destruct (Z.eqb_spec (Z.land flags g) 0) as [->|Hne]; [by rewrite Z.lor_0_l|].
  cbn. apply negb_true_iff, Z.eqb_neq. intros Hz. apply Z.lor_eq_0_iff in Hz as [? _]. done.
Qed.

Lemma run_options n ci args own known os len (l : list (loc * strval * bytes)) flags nx xx expire units e :
  os ⊆ args -> (length l <= len)%nat -> (forall x, x ∈ l -> x.1 ∈ os /\ sds_of x.1.2 = Some x.2) ->
  negb (Z.land flags REDIS_SET_NX =? 0) = nx -> negb (Z.land flags REDIS_SET_XX =? 0) = xx -> time_is os expire units e ->
  exists r, (forall s, J n ci args own known s -> set_options l.*1.*1 flags expire units s = Some (r, s)) /\
    options_are os r (s_options l.*2 nx xx e).
Proof.
  intros Hos. revert l flags nx xx expire units e. induction len as [|len IH]; intros l flags nx xx expire units e Hlen Hl Hnx Hxx Htime.
  { destruct l; [|cbn in Hlen; lia]. exists (Some (flags, expire, units)). by split. }
  destruct l as [|[[p v] a] l]; [exists (Some (flags, expire, units)); by split|]. cbn in Hlen.
  destruct (Hl ((p, v), a)) as [Hin Ha]; [by left|]. cbn in Hin, Ha.
  assert (forall s, J n ci args own known s -> ptr p s = Some (a, s)) as Hptr.
  { intros s Hs. eapply run_ptr; [exact Hs|]. apply (arg_key _ _ _ v); [by apply Hos|done]. }
  assert (forall x, x ∈ l -> x.1 ∈ os /\ sds_of x.1.2 = Some x.2) as Hl' by (intros x Hx; apply Hl; by right).
  cbn [fmap list_fmap fst snd set_options s_options].
  destruct (is_option a 110 78) eqn:O1; [|destruct (is_option a 120 88) eqn:O2].
  - destruct (IH l (Z.lor flags REDIS_SET_NX) true xx expire units e) as (r & Hr & Hspec); [lia|done|by rewrite (land_bit _ _ 1), orb_true_r|
      by rewrite (land_bit _ _ 0), orb_false_r|done|].
    exists r. split; [|done]. intros s Hs. unfold mbind, prog_bind. by rewrite (Hptr s Hs), O1, (Hr s Hs).
  - destruct (IH l (Z.lor flags REDIS_SET_XX) nx true expire units e) as (r & Hr & Hspec); [lia|done|by rewrite (land_bit _ _ 0), orb_false_r|
      by rewrite (land_bit _ _ 2), orb_true_r|done|].
    exists r. split; [|done]. intros s Hs. unfold mbind, prog_bind. by rewrite (Hptr s Hs), O1, O2, (Hr s Hs).
  - destruct l as [|[[p' v'] t] l].
    { exists None. split; [|done]. intros s Hs. unfold mbind, prog_bind. by rewrite (Hptr s Hs), O1, O2. }
    cbn [fmap list_fmap fst snd]. destruct (Hl' ((p', v'), t)) as [Hin' Ht]; [by left|]. cbn in Hin', Ht. cbn in Hlen.
    assert (forall x, x ∈ l -> x.1 ∈ os /\ sds_of x.1.2 = Some x.2) as Hl2 by (intros x Hx; apply Hl'; by right).
    destruct (is_option a 101 69) eqn:O3; [|destruct (is_option a 112 80) eqn:O4].
    + destruct (IH l flags nx xx (Some p') UNIT_SECONDS (Some (t, UNIT_SECONDS))) as (r & Hr & Hspec); [lia|done|done|done| |].
      { split; [done|]. exists v'. by rewrite (sds_value _ _ Ht). }
      exists r. split; [|done]. intros s Hs. unfold mbind, prog_bind. by rewrite (Hptr s Hs), O1, O2, O3, (Hr s Hs).
    + destruct (IH l flags nx xx (Some p') UNIT_MILLISECONDS (Some (t, UNIT_MILLISECONDS))) as (r & Hr & Hspec); [lia|done|done|done| |].
      { split; [done|]. exists v'. by rewrite (sds_value _ _ Ht). }
      exists r. split; [|done]. intros s Hs. unfold mbind, prog_bind. by rewrite (Hptr s Hs), O1, O2, O3, O4, (Hr s Hs).
    + exists None. split; [|done]. intros s Hs. unfold mbind, prog_bind. by rewrite (Hptr s Hs), O1, O2, O3, O4.
Qed.

Lemma sim_arg_and {A B} (P : server -> Prop) n ci args own known j p v (f : loc -> M A) (am : S B) Q :
  (forall s, P s -> J n ci args own known s) -> args !! j = Some (p, v) -> sim P (f p) am Q -> sim P (arg c j ≫= f) am Q.
Proof.
  intros HP Hj. apply sim_read. intros s Hs. destruct (run_client _ _ _ _ _ _ _ _ (HP s Hs)) as (cl & Hc & _ & Ha & _).
  unfold arg, mbind, prog_bind, opt. by rewrite Hc, Ha, list_lookup_fmap, Hj.
Qed.

(** The arguments are strings. *)
Definition texts args (vals : list bytes) : Prop := Forall2 (fun x k => sds_of x.2 = Some k) args vals.

Lemma texts_values args vals : texts args vals -> values args = vals.
Proof. induction 1 as [|x k args vals Hx _ IH]; [done|]. unfold values in *. cbn. f_equal; [by apply sds_value|done]. Qed.

Lemma texts_zip args vals : texts args vals -> exists l, l.*1 = args /\ l.*2 = vals /\ forall x, x ∈ l -> x.1 ∈ args /\ sds_of x.1.2 = Some x.2.
Proof.
  induction 1 as [|x k args vals Hx _ (l & <- & <- & Hl)]; [exists []; do 2 (split; [done|]); by intros x ?%elem_of_nil|].
  exists ((x, k) :: l). split; [done|]. split; [done|]. intros y [->|Hy]%elem_of_cons; [split; [by left|done]|].
  destruct (Hl y Hy). split; [by right|done].
Qed.

Lemma time_mono os args expire units e : os ⊆ args -> time_is os expire units e -> time_is args expire units e.
Proof.
  intros Hos. unfold time_is. destruct expire, e as [[t u]|]; try done. intros (-> & v & Hin & Hv). split; [done|]. exists v. split; [by apply Hos|done].
Qed.

Lemma sim_set n ci own args vals k v opts m :
  texts args (vals :: k :: v :: opts) -> m ∈ redisCommandTable ->
  sim (fun s => J (9 + n) ci args own [] s /\ cmd_of c s = Some m) (setCommand c)
    (match s_options opts false false None with
     | None => s_reply c (error (bytes_of_string "syntax error"))
     | Some (nx, xx, e) => s_set c (name m) nx xx k v e ok_text null_text
     end) (fun _ _ => after n own (vals :: k :: v :: opts)).
Proof.
  intros Ht Hm. pose proof (texts_values _ _ Ht) as Hvals. unfold texts in Ht. inversion Ht as [|x0 ? args1 ? H0 Ht1]; subst. inversion Ht1 as [|[kp kv] ? args2 ? Hk Ht2]; subst.
  inversion Ht2 as [|[vp vv] ? os ? Hv Hos]; subst. cbn in Hk, Hv.
  destruct (texts_zip _ _ Hos) as (l & Hl1 & <- & Hl).
  set (args := x0 :: (kp, kv) :: (vp, vv) :: os) in *.
  destruct (run_options (9 + n) ci args own [] os (length l) l REDIS_SET_NO_FLAGS false false None UNIT_SECONDS None) as (r & Hr & Hspec); [|done|done|done|done|done|].
  { intros x Hx. by do 3 right. }
  rewrite Hl1 in Hr. unfold setCommand. apply sim_assoc.
  apply (sim_read _ _ r).
  { intros s [Hs _]. destruct (run_client _ _ _ _ _ _ _ _ Hs) as (cl & Hcl & _ & Ha & _). unfold mbind, prog_bind. by rewrite Hcl, Ha, Hr. }
  destruct r as [[[flags expire] units]|]; destruct (s_options _ _ _ _) as [[[nx xx] e]|]; cbn in Hspec; try done.
  - destruct Hspec as (Hnx & Hxx & Htime). eapply sim_encode_arg; [done|]. intros q v' Hv'. change (<[_ := _]> args) with (x0 :: (kp, kv) :: (q, v') :: os).
    eapply (sim_arg_and _ (8 + n)); [by intros s [? _]|done|]. eapply (sim_arg_and _ (8 + n)); [by intros s [? _]|done|].
    assert (values (x0 :: (kp, kv) :: (q, v') :: os) = values args) as Hvals' by (unfold values; cbn; by rewrite Hv').
    rewrite <- Hvals, <- Hvals', <- (sds_value _ _ Hv). cbn [snd]. rewrite <- Hv'.
    apply sim_setGeneric; try done; [by apply (arg_key _ _ _ kv); [right; left|]|right; right; by left|eapply time_mono; [|exact Htime]; intros x Hx; by do 3 right|shared|shared].
  - apply sim_drop. rewrite <- Hvals. eapply sim_end; [|by apply sim_text; [done|shared]|done]. cbn. lia.
Qed.

Lemma texts_cons args x vals : texts args (x :: vals) -> exists p v args', args = (p, v) :: args' /\ sds_of v = Some x /\ texts args' vals.
Proof. intros ([p v] & args' & Hv & Ht & ->)%Forall2_cons_inv_r. by exists p, v, args'. Qed.

Lemma texts_nil args : texts args [] -> args = [].
Proof. apply Forall2_nil_inv_r. Qed.

Lemma sim_setnx n ci own args n0 k v m :
  texts args [n0; k; v] -> m ∈ redisCommandTable ->
  sim (fun s => J (9 + n) ci args own [] s /\ cmd_of c s = Some m) (setnxCommand c)
    (s_set c (name m) true false k v None (reply_line 58 1) (reply_line 58 0)) (fun _ _ => after n own [n0; k; v]).
Proof.
  intros Ht Hm. rewrite <- (texts_values _ _ Ht).
  apply texts_cons in Ht as (? & ? & ? & -> & H0 & Ht). apply texts_cons in Ht as (kp & kv & ? & -> & Hk & Ht).
  apply texts_cons in Ht as (vp & vv & ? & -> & Hv & ->%texts_nil).
  unfold setnxCommand. eapply sim_encode_arg; [done|]. intros q v' Hv'. cbn [list_insert insert].
  eapply (sim_arg_and _ (8 + n)); [by intros s [? _]|done|]. eapply (sim_arg_and _ (8 + n)); [by intros s [? _]|done|].
  rewrite <- (sds_value _ _ Hv), <- Hv'. eapply sim_post; [apply sim_setGeneric|]; try done;
    [by apply (arg_key _ _ _ kv); [right; left|]|right; right; by left|shared|shared|].
  intros ? ? s Hs. unfold values in *. cbn in *. by rewrite Hv' in Hs.
Qed.

Lemma sim_setex n ci own args n0 k e v m units :
  texts args [n0; k; e; v] -> m ∈ redisCommandTable ->
  sim (fun s => J (9 + n) ci args own [] s /\ cmd_of c s = Some m)
    (encode_arg c 3;; key ← arg c 1; expire ← arg c 2; val ← arg c 3; setGenericCommand c REDIS_SET_NO_FLAGS key val (Some expire) units None None)
    (s_set c (name m) false false k v (Some (e, units)) ok_text null_text) (fun _ _ => after n own [n0; k; e; v]).
Proof.
  intros Ht Hm. rewrite <- (texts_values _ _ Ht).
  apply texts_cons in Ht as (? & ? & ? & -> & H0 & Ht). apply texts_cons in Ht as (kp & kv & ? & -> & Hk & Ht).
  apply texts_cons in Ht as (ep & ev & ? & -> & He & Ht). apply texts_cons in Ht as (vp & vv & ? & -> & Hv & ->%texts_nil).
  eapply sim_encode_arg; [done|]. intros q v' Hv'. cbn [list_insert insert].
  do 3 (eapply (sim_arg_and _ (8 + n)); [by intros s [? _]|done|]).
  rewrite <- (sds_value _ _ Hv), <- Hv'. eapply sim_post; [apply sim_setGeneric|]; try done;
    [by apply (arg_key _ _ _ kv); [right; left|]|do 3 right; by left| |shared|shared|].
  - split; [done|]. exists ev. split; [right; right; by left|by apply sds_value].
  - intros ? ? s Hs. unfold values in *. cbn in *. by rewrite Hv' in Hs.
Qed.

(** ** Values in place *)

(** What a program keeps beside a simulation. *)
Lemma sim_keep {A B} (F F' : server -> Prop) P (m : M A) (am : S B) Q :
  sim P m am Q -> (forall s a s', P s -> F s -> m s = Some (a, s') -> F' s') ->
  sim (fun s => P s /\ F s) m am (fun a b s => Q a b s /\ F' s).
Proof.
  intros Hm HF s [Hs Hf] b y Hy. destruct (Hm s Hs b y Hy) as (a & s' & Hr & Ha & Hq). exists a, s'. split; [done|]. split; [done|].
  split; [done|]. by apply (HF s a s').
Qed.

(** Storing twice is storing the last value. *)
Lemma s_store_twice i k a1 v2 (a : aserver) : (s_store i k (AString a1);; s_store i k (AString v2)) a = s_store i k (AString v2) a.
Proof.
  unfold s_store, s_db, s_put_db, s_tell, mbind, prog_bind. destruct (adbs a !! i) as [d|] eqn:Hd; [|done]. cbn.
  assert (i < length (adbs a))%nat as Hlen by (by eapply lookup_lt_Some).
  assert (forall v w (l : list adb), l = <[i := mk_adb (<[k := AString v]> (adict d)) (aexpires d)]> (adbs a) ->
    <[i := mk_adb (<[k := AString w]> (<[k := AString v]> (adict d))) (aexpires d)]> l = <[i := mk_adb (<[k := AString w]> (adict d)) (aexpires d)]> (adbs a)) as Hins.
  { intros v w l ->. by rewrite list_insert_insert_eq, insert_insert_eq. }
  destruct (adict d !! k) as [x|] eqn:Hx; cbn.
  - rewrite list_lookup_insert_eq by done. cbn. rewrite lookup_insert_eq. cbn. unfold set_adbs. cbn. by rewrite (Hins a1 v2) by done.
  - destruct cluster_enabled; cbn; rewrite list_lookup_insert_eq by done; cbn; rewrite lookup_insert_eq; cbn; unfold set_adbs; cbn; by rewrite (Hins a1 v2) by done.
Qed.

Lemma sim_store_twice {A B} P (m : M A) i k a1 v2 (af : unit -> S B) Q :
  sim P m (s_store i k (AString a1);; (s_store i k (AString v2) ≫= af)) Q -> sim P m (s_store i k (AString v2) ≫= af) Q.
Proof.
  apply sim_eq; [done|]. intros a.
  assert (forall m : S unit, (m ≫= af) a = match m a with Some (x, y) => af x y | None => None end) as Hb by done.
  transitivity (((s_store i k (AString a1);; s_store i k (AString v2)) ≫= af) a); [|apply prog_assoc]. by rewrite !Hb, s_store_twice.
Qed.

Lemma sim_set_val n ci args own known i k p v w :
  (i, k, Some (VString p), v) ∈ known -> wf_val w -> light w ->
  sim (fun s => J n ci args own known s /\ refs (objs s) p = 1) (set_val p w) (s_store i k (AString (value w)))
    (fun _ _ => J n ci args own ((i, k, Some (VString p), w) :: others i k known)).
Proof.
  intros Hin Hw Hl s [Hs Hone] b y Hy. destruct (known_dict _ _ _ _ _ _ _ _ _ _ _ _ Hs Hin) as (d & Hd & Hv).
  destruct (run_set_val _ _ _ _ _ _ _ s i k p v w d Hs Hin Hd Hone Hw Hl) as (s' & Hrun & Hi & Ha). exists tt, s'. split; [done|]. split; [|done].
  pose proof (inv_known _ _ _ _ _ _ _ _ Hs) as Hkn. rewrite Forall_forall in Hkn. specialize (Hkn _ Hin). destruct (known_ent s i k _ v d Hkn Hd) as [_ He].
  unfold s_store, mbind, prog_bind in Hy. rewrite (run_s_db s i d Hd), He in Hy. injection Hy as <- <-. by rewrite Ha.
Qed.

(** A new empty string. *)
Lemma sim_new_value n ci args own known i key k sv0 :
  is_key args own key k -> (i, k, None, sv0) ∈ known ->
  sim (J (Datatypes.S n) ci args own known) (o ← on_store (fun st => Some (createObject st (RAW [] 0))); dbAdd i key (VString o);; mret (Some o))
    (s_store i k (AString []))
    (fun r _ s => exists o, r = Some o /\ J n ci args own ((i, k, Some (VString o), RAW [] 0) :: others i k known) s /\ refs (objs s) o = 1).
Proof.
  intros Hk Hin. apply (sim_left _ _ _ (fun o s => J n ci args ((o, RAW [] 0) :: own) known s /\ refs (objs s) o = 1)).
  - intros s Hs. destruct (run_create _ _ n ci args own known s (RAW [] 0) (fun st => createObject st (RAW [] 0)) Hs) as (p & s' & Hr & Ha & Hi); [done|by cbn|by cbn|].
    exists p, s'. split; [done|]. split; [done|]. split; [done|]. unfold on_store in Hr. destruct (createObject (objs s) (RAW [] 0)) as [q st'] eqn:Hc. injection Hr as -> <-.
    destruct (create_effect _ _ _ _ Hc (inv_store _ _ _ _ _ _ _ _ Hs)) as [_ Hp]; [by cbn|]. cbn. by rewrite (refs_lookup _ _ _ Hp).
  - intros o. eapply sim_tail.
    + eapply (sim_keep (fun s => refs (objs s) o = 1) (fun s => refs (objs s) o = 1)); [by apply (sim_dbAdd rest c n ci args own known i key k (VString o) (RAW [] 0) (AString []) sv0)|].
      intros s a s' Hs Ho Hrun. assert (objs s' = objs s) as ->; [|exact Ho]. revert Hrun.
      destruct (known_dict _ _ _ _ _ _ _ _ _ _ _ _ Hs Hin) as (d & Hd & Hv).
      assert (is_key args ((o, RAW [] 0) :: own) key k) as Hk' by (by apply is_key_cons).
      unfold dbAdd, mbind, prog_bind. rewrite (run_the_db s i d Hd), (run_ptr _ _ _ _ _ _ _ _ _ _ Hs Hk'), (bool_decide_eq_true_2 _ Hv).
      cbn. destruct cluster_enabled; by intros [= _ <-].
    + intros ? ?. apply sim_ret. intros s [Hs Ho]. eauto.
Qed.

(** ** SETRANGE, APPEND *)

Lemma sim_val_known {A B} (P : server -> Prop) n ci args own known i k p v (f : strval -> M A) (am : S B) Q :
  (forall s, P s -> J n ci args own known s) -> (i, k, Some (VString p), v) ∈ known -> (wf_val v -> sim P (f v) am Q) -> sim P (val_of p ≫= f) am Q.
Proof.
  intros HP Hin Hf. apply (sim_pre _ (wf_val v)); [intros s Hs; by apply (read_known _ _ _ _ _ _ _ _ _ _ _ _ (HP s Hs) Hin)|]. intros Hw.
  apply (sim_read _ _ v); [|by apply Hf]. intros s Hs. by apply (read_known _ _ _ _ _ _ _ _ _ _ _ _ (HP s Hs) Hin).
Qed.

Lemma sim_ptr_known {A B} n ci args own known i k p v str (f : bytes -> M A) (am : S B) Q :
  (i, k, Some (VString p), v) ∈ known -> sds_of v = Some str -> sim (J n ci args own known) (f str) am Q ->
  sim (J n ci args own known) (ptr p ≫= f) am Q.
Proof.
  intros Hin Hv. apply sim_read. intros s Hs. unfold ptr, mbind, prog_bind. destruct (read_known _ _ _ _ _ _ _ _ _ _ _ _ Hs Hin) as [-> _].
  unfold opt. by rewrite Hv.
Qed.

Lemma overlay_store s offset v :
  0 <= offset -> Prelude.store (s ++ replicate (Z.to_nat (offset + zlen v - zlen s)) 0) offset v = Some (overlay s offset v) /\
  zlen (overlay s offset v) = Z.max (zlen s) (offset + zlen v).
Proof.
  intros Ho. unfold Prelude.store, overlay. set (t := s ++ replicate _ 0).
  assert (zlen t = Z.max (zlen s) (offset + zlen v)) as Ht by (unfold t; rewrite zlen_app; unfold zlen; rewrite length_replicate; lia).
  rewrite (proj2 (Z.leb_le _ _)), (proj2 (Z.leb_le _ _)) by lia. cbn [andb]. split.
  - f_equal. f_equal. f_equal. f_equal. unfold zlen. lia.
  - rewrite !zlen_app. unfold zlen in *. rewrite length_take, length_drop. lia.
Qed.

(** The growth of a string, up to the limit of the commands. *)
Lemma grown s free t : 0 <= free <= 2 ^ 30 -> zlen s + zlen t <= 536870912 ->
  exists free', sdscatlen s free t = RAW (s ++ t) free' /\ wf_val (RAW (s ++ t) free') /\ light (RAW (s ++ t) free').
Proof.
  intros Hf Hl. unfold sdscatlen. pose proof (zlen_nonneg s). pose proof (zlen_nonneg t). rewrite Z.geb_leb.
  destruct (Z.leb_spec (zlen t) free); eexists; (split; [done|]); cbn [wf_val light]; rewrite zlen_app; [lia|].
  destruct (Z.ltb_spec (zlen s + zlen t) (1024 * 1024)); lia.
Qed.

Lemma grow_zero s free len :
  0 <= free <= 2 ^ 30 -> zlen s <= 536870912 -> len <= 536870912 ->
  exists free', sdsgrowzero s free len = Some (RAW (s ++ replicate (Z.to_nat (len - zlen s)) 0) free') /\ 0 <= free' <= 2 ^ 30.
Proof.
  intros Hf Hs Hl. unfold sdsgrowzero. destruct (Z.leb_spec len (zlen s)) as [Hle|Hle].
  - exists free. replace (Z.to_nat (len - zlen s)) with 0%nat by lia. by rewrite app_nil_r.
  - rewrite Z.gtb_ltb, (proj2 (Z.ltb_ge _ _)) by lia.
    destruct (grown s free (replicate (Z.to_nat (len - zlen s)) 0)) as (f' & -> & Hw & Hli); [done|unfold zlen in *; rewrite length_replicate; lia|].
    exists f'. split; [done|]. cbn in Hw, Hli. lia.
Qed.

Lemma sim_setrange_tail n ci args own known key k o str free offset v vals :
  is_key args own key k -> (ci, k, Some (VString o), RAW str free) ∈ known -> v <> [] -> 0 <= offset -> offset + zlen v <= max_string ->
  values args = vals ->
  sim (fun s => J (1 + n) ci args own known s /\ refs (objs s) o = 1)
    ((if zlen v >? 0 then
        r ← val_of o;
        w ← match r with RAW s free => opt (sdsgrowzero s free (u64 (offset + zlen v))) | _ => fail end;
        w ← match w with RAW s free => s ← opt (Prelude.store s offset v); mret (RAW s free) | _ => fail end;
        set_val o w;;
        signalModifiedKey ci key;;
        notifyKeyspaceEvent REDIS_NOTIFY_STRING "setrange" key ci;;
        add_dirty 1
      else mret tt);;
     s ← ptr o;
     addReplyLongLong c (zlen s))
    (s_store ci k (AString (overlay str offset v));;
     s_touch ci k;;
     s_tell (ENotify REDIS_NOTIFY_STRING "setrange" k ci);;
     s_dirty 1;;
     s_int c (zlen (overlay str offset v)))
    (fun _ _ => after n own vals).
Proof.
  intros Hk Hin Hne Ho Hmax Hvals. assert (0 < zlen v) as Hpos by (destruct v; [done|rewrite zlen_cons; pose proof (zlen_nonneg v); lia]).
  rewrite Z.gtb_ltb, (proj2 (Z.ltb_lt _ _)) by done. unfold max_string in *.
  apply sim_flat. eapply sim_val_known; [by intros s [Hs _]|done|]. intros Hw.
  eapply (sim_pre _ (0 <= free <= 2 ^ 30)).
  { intros s [Hs _]. destruct (known_val _ _ _ _ _ _ _ _ _ _ _ _ Hs Hin) as [_ Hl]. cbn in Hl, Hw. lia. }
  intros Hfree. rewrite u64_small by lia. cbn in Hw.
  destruct (grow_zero str free (offset + zlen v) Hfree ltac:(lia) ltac:(lia)) as (f' & -> & Hf').
  apply sim_flat. apply (sim_pure _ (RAW (str ++ replicate (Z.to_nat (offset + zlen v - zlen str)) 0) f')).
  destruct (overlay_store str offset v Ho) as [-> Hlen]. apply sim_flat. apply (sim_pure _ (RAW (overlay str offset v) f')).
  apply sim_flat. eapply sim_bind; [apply (sim_set_val _ _ _ _ _ _ _ _ _ (RAW (overlay str offset v) f') Hin); cbn; lia|].
  intros ? ?. cbn beta. apply sim_flat. eapply sim_bind; [apply sim_touch; [done|do 2 eexists; by left]|]. intros ? ?. cbn beta.
  apply sim_flat. eapply sim_bind; [by apply sim_notify|]. intros ? ?. cbn beta. eapply sim_bind; [apply sim_dirty|]. intros ? ?. cbn beta.
  eapply sim_ptr_known; [by left|done|]. eapply sim_end; [|apply sim_int; [done|]|done]; [cbn; lia|].
  rewrite Hlen. unfold in_ll, LLONG_MIN, LLONG_MAX. lia.
Qed.

Lemma s64_len offset (v : bytes) : 0 <= offset -> offset + zlen v <= LLONG_MAX -> s64 (u64 (offset + zlen v)) = offset + zlen v.
Proof. intros Ho Hm. pose proof (zlen_nonneg v). unfold LLONG_MAX in Hm. rewrite u64_small, s64_small by lia. done. Qed.

(** The check of the length, in the program and in the specification. *)
Lemma sim_check_length {A B} n ci args own known size (f : bool -> M A) (m1 am : S B) Q :
  (size > max_string -> sim (J n ci args own known) (addReplyError c too_long;; f false) m1 Q) ->
  (size <= max_string -> sim (J n ci args own known) (f true) am Q) ->
  sim (J n ci args own known) (checkStringLength c size ≫= f) (if size >? max_string then m1 else am) Q.
Proof.
  intros Hlong Hok. unfold checkStringLength, max_string in *. rewrite Z.gtb_ltb. destruct (Z.ltb_spec (512 * 1024 * 1024) size).
  - apply sim_flat. apply Hlong. lia.
  - apply sim_pure. apply Hok. lia.
Qed.

Lemma sim_setrange n ci own args n0 k off v :
  texts args [n0; k; off; v] ->
  sim (J (6 + n) ci args own []) (setrangeCommand c) (s_setrange c k off v) (fun _ _ => after n own [n0; k; off; v]).
Proof.
  intros Ht. pose proof (texts_values _ _ Ht) as Hvals.
  apply texts_cons in Ht as (? & ? & ? & -> & H0 & Ht). apply texts_cons in Ht as (kp & kv & ? & -> & Hk & Ht).
  apply texts_cons in Ht as (op & ov & ? & -> & Hov & Ht). apply texts_cons in Ht as (vp & vv & ? & -> & Hv & ->%texts_nil).
  set (args := [_; _; _; _]) in *. assert (is_key args own kp k) as Hkey by (by apply (arg_key _ _ _ kv); [right; left|]).
  assert (is_key args own vp v) as Hval by (by apply (arg_key _ _ _ vv); [do 3 right; left|]).
  unfold setrangeCommand, s_setrange. eapply sim_arg; [done|]. eapply sim_ptr; [exact Hval|]. eapply sim_arg; [done|].
  apply sim_s_client. intros cl Hci. apply sim_drop. rewrite Hci.
  eapply (sim_long rest _ _ _ ov); [intros s Hs; eapply read_member; [exact Hs|]; apply elem_of_app; left; right; right; by left|..]; rewrite (sds_value _ _ Hov).
  { intros ->. eapply sim_unit; [by apply sim_error|]. intros ? ? s Hs. rewrite <- Hvals. settle Hs. }
  intros offset ->. destruct (Z.ltb_spec offset 0) as [Hneg|Hneg].
  { rewrite <- Hvals. eapply sim_end; [|by apply sim_error|done]. cbn. lia. }
  apply sim_c_db. eapply sim_arg; [done|]. eapply sim_bind; [by apply sim_lookupKeyWrite|]. intros o ao. apply sim_found. intros sv ->.
  assert ((zlen v =? 0) = bool_decide (v = [])) as Hemp.
  { destruct v as [|b v]; [done|]. rewrite zlen_cons. pose proof (zlen_nonneg v). rewrite bool_decide_eq_false_2 by done. apply Z.eqb_neq. lia. }
  destruct o as [[p|t]|]; cbn [ent].
  - apply sim_flat, sim_type_ok. apply sim_flat. apply (sim_pure _ p). apply sim_flat. eapply sim_len; [by left|]. intros Hlen.
    rewrite Hemp. case_bool_decide as Hv0.
    { apply sim_flat. eapply sim_unit; [apply sim_int; [done|]|].
      - unfold in_ll, LLONG_MIN, LLONG_MAX. lia.
      - intros ? ? s Hs. rewrite <- Hvals. settle Hs. }
    destruct (offset + zlen v >? LLONG_MAX) eqn:Hbig; [apply sim_fail|]. rewrite Z.gtb_ltb in Hbig. zbool. rewrite s64_len by lia.
    apply sim_flat. apply sim_check_length; intros Hm.
    { eapply sim_unit; [by apply sim_error|]. intros ? ? s Hs. rewrite <- Hvals. settle Hs. }
    cbn [negb]. apply sim_flat. eapply sim_unshare; [exact Hkey|by left|]. intros q free. apply (sim_pure _ (Some q)).
    apply (sim_weaken _ _ (fun s => J (1 + n) ci args own ((ci, k, Some (VString q), RAW (value sv) free) :: []) s /\ refs (objs s) q = 1) _ _ _ (fun _ _ => after n own [n0; k; off; v])); [|done|].
    { intros s [Hs Hone]. split; [|done]. eapply J_less; [|eapply J_forget; [|exact Hs]]; [cbn; lia|]. intros y [->|[]%elem_of_nil]%elem_of_cons. by left. }
    eapply (sim_setrange_tail _ _ _ _ _ _ _ _ (value sv) free); try done. by left.
  - apply sim_flat, sim_type_wrong. eapply sim_unit; [by apply sim_text; [done|shared]|]. intros ? ? s Hs. rewrite <- Hvals. settle Hs.
  - rewrite Hemp. case_bool_decide as Hv0.
    { apply sim_flat. eapply sim_unit; [by apply (sim_text rest c zmalloc_bound _ _ _ _ _ (czero (shared_base shared)) (reply_line 58 0)); shared|].
      intros ? ? s Hs. rewrite <- Hvals. settle Hs. }
    destruct (offset + zlen v >? LLONG_MAX) eqn:Hbig; [apply sim_fail|]. rewrite Z.gtb_ltb in Hbig. zbool. rewrite s64_len by lia.
    apply sim_flat. apply sim_check_length; intros Hm.
    { eapply sim_unit; [by apply sim_error|]. intros ? ? s Hs. rewrite <- Hvals. settle Hs. }
    cbn [negb]. apply sim_store_twice with (a1 := []). eapply sim_bind; [by eapply sim_new_value; [done|left]|].
    intros r ?. apply sim_exists. intros o. apply sim_and. intros ->.
    eapply (sim_weaken _ _ (fun s => J (1 + n) ci args own ((ci, k, Some (VString o), RAW [] 0) :: []) s /\ refs (objs s) o = 1) _ _ _ (fun _ _ => after n own [n0; k; off; v])); [|done|].
    { intros s [Hs Hone]. split; [|done]. eapply J_less; [|eapply J_forget; [|exact Hs]]; [cbn; lia|]. intros y [->|[]%elem_of_nil]%elem_of_cons. by left. }
    eapply (sim_setrange_tail _ _ _ _ _ _ _ _ [] 0); try done. by left.
Qed.

Lemma sim_regroup {A B C D E'} P (m : M A) (m' : M B) (f : B -> M C) (g : C -> M D) (am : S E') Q :
  sim P ((m;; m') ≫= (fun x => f x ≫= g)) am Q -> sim P ((m;; (m' ≫= f)) ≫= g) am Q.
Proof.
  apply sim_eq; [|done]. intros s _. unfold mbind, prog_bind. destruct (m s) as [[a s1]|]; [|done]. by destruct (m' s1) as [[b s2]|].
Qed.

Lemma sim_append n ci own args n0 k v :
  texts args [n0; k; v] ->
  sim (J (6 + n) ci args own []) (appendCommand c) (s_append c k v) (fun _ _ => after n own [n0; k; v]).
Proof.
  intros Ht. pose proof (texts_values _ _ Ht) as Hvals.
  apply texts_cons in Ht as (? & ? & ? & -> & H0 & Ht). apply texts_cons in Ht as (kp & kv & ? & -> & Hk & Ht).
  apply texts_cons in Ht as (vp & vv & ? & -> & Hv & ->%texts_nil).
  set (args := [_; _; _]) in *. assert (is_key args own kp k) as Hkey by (by apply (arg_key _ _ _ kv); [right; left|]).
  assert (is_key args own vp v) as Hval by (by apply (arg_key _ _ _ vv); [right; right; left|]).
  unfold appendCommand, s_append. apply sim_s_client. intros cl Hci. apply sim_drop. rewrite Hci.
  apply sim_c_db. eapply sim_arg; [done|]. eapply sim_bind; [by apply sim_lookupKeyWrite|]. intros o ao. apply sim_found. intros sv ->.
  destruct o as [[p|t]|]; cbn [ent].
  - rewrite bool_decide_eq_true_2 by done. cbn [andb]. apply sim_flat, sim_type_ok. apply sim_flat. apply (sim_pure _ p). apply sim_flat. eapply sim_arg; [done|].
    apply sim_flat. eapply sim_ptr; [exact Hval|]. apply sim_flat. eapply sim_len; [by left|]. intros Hlen.
    rewrite zlen_app. apply sim_flat. apply sim_check_length; intros Hm.
    { eapply sim_unit; [by apply sim_error|]. intros ? ? s Hs. rewrite <- Hvals. settle Hs. }
    cbn [negb]. apply sim_flat. eapply sim_unshare; [exact Hkey|by left|]. intros q free. rewrite (others_again rest c). unfold max_string in Hm.
    apply sim_flat. eapply sim_val_known; [by intros s [Hs _]|by left|]. intros Hw.
    eapply (sim_pre _ (0 <= free <= 2 ^ 30)).
    { intros s [Hs _]. destruct (known_val rest c _ _ _ _ _ _ ci k q (RAW (value sv) free) Hs) as [_ Hl]; [by left|]. cbn in Hl, Hw. lia. }
    intros Hfree. destruct (grown (value sv) free v Hfree ltac:(lia)) as (f' & -> & Hwf & Hli).
    apply sim_flat. eapply sim_bind; [eapply (sim_set_val _ _ _ _ _ _ _ _ _ (RAW (value sv ++ v) f')); [by left|done|done]|]. intros ? ?. cbn beta.
    apply sim_flat. eapply sim_ptr_known; [by left|done|]. apply (sim_pure _ (Some _)).
    eapply sim_bind; [apply sim_touch; [done|do 2 eexists; by left]|]. intros ? ?. cbn beta. eapply sim_bind; [by apply sim_notify|]. intros ? ?. cbn beta.
    eapply sim_bind; [apply sim_dirty|]. intros ? ?. cbn beta. rewrite zlen_app. eapply sim_end; [|apply sim_int; [done|]|done]; [cbn; lia|].
    unfold in_ll, LLONG_MIN, LLONG_MAX. pose proof (zlen_nonneg v). lia.
  - apply sim_flat, sim_type_wrong. eapply sim_unit; [by apply sim_text; [done|shared]|]. intros ? ? s Hs. rewrite <- Hvals. settle Hs.
  - rewrite bool_decide_eq_false_2 by (intros H; by apply H). cbn [andb app]. apply sim_flat. eapply sim_encode; [done|]. intros q v' Hv'. cbn [list_insert insert].
    apply sim_flat. eapply sim_arg; [done|]. set (args' := <[2%nat := (q, v')]> args). change (list_insert _ _ _) with args'.
    assert (is_key args' own kp k) as Hkey' by (by apply (arg_key _ _ _ kv); [right; left|]).
    apply sim_regroup. rewrite <- (sds_value _ _ Hv), <- Hv'.
    eapply sim_bind; [eapply (sim_put rest c _ _ _ _ _ _ _ _ _ v' None); [done|right; right; by left|by left]|]. intros ? ?. cbn beta.
    apply sim_flat. eapply sim_len; [by left|]. intros Hlen. apply (sim_pure _ (Some _)).
    eapply sim_bind; [apply sim_touch; [done|do 2 eexists; by left]|]. intros ? ?. cbn beta. eapply sim_bind; [by apply sim_notify|]. intros ? ?. cbn beta.
    eapply sim_bind; [apply sim_dirty|]. intros ? ?. cbn beta. eapply sim_end; [|apply sim_int; [done|]|]; [cbn; lia| |].
    + unfold in_ll, LLONG_MIN, LLONG_MAX. lia.
    + unfold values. cbn. by rewrite (sds_value _ _ H0), (sds_value _ _ Hk).
Qed.

(** ** INCR, DECR, INCRBY, DECRBY *)

(** The reply in three parts. *)
Lemma s_reply_app a b (y : aserver) : (s_reply c a;; s_reply c b) y = s_reply c (a ++ b) y.
Proof.
  unfold s_reply, s_client, s_put, mbind, prog_bind. destruct (aclients y !! c) as [cl|] eqn:Hc; [|done]. cbn. rewrite lookup_insert_eq. unfold set_aclients. cbn.
  rewrite insert_insert_eq. f_equal. f_equal. f_equal. f_equal. unfold append_out. cbn. rewrite <- app_assoc. destruct (takes cl); [|done].
  by rewrite fmap_app.
Qed.

Lemma sim_read_object {A B} n ci args own known i k p v (f : robj -> M A) (am : S B) Q :
  (i, k, Some (VString p), v) ∈ known ->
  (forall r, val r = v -> sim (fun s => J n ci args own known s /\ refs (objs s) p = refcount r) (f r) am Q) ->
  sim (J n ci args own known) (on_store (fun st => x ← heap st !! p; Some (x, st)) ≫= f) am Q.
Proof.
  intros Hin Hf. apply (sim_left _ _ _ (fun r s => val r = v /\ J n ci args own known s /\ refs (objs s) p = refcount r)).
  - intros s Hs. destruct (known_val _ _ _ _ _ _ _ _ _ _ _ _ Hs Hin) as [(o & Ho & Hv) _]. cbn in Ho, Hv. exists o, s. unfold on_store. rewrite Ho. cbn.
    rewrite set_objs_id. split; [done|]. split; [done|]. split; [done|]. split; [done|]. by apply refs_lookup.
  - intros r. apply sim_and. apply Hf.
Qed.

Lemma overflow_check old n : in_ll old -> in_ll n ->
  (n <? 0) && (old <? 0) && (n <? LLONG_MIN - old) || (n >? 0) && (old >? 0) && (n >? LLONG_MAX - old) = negb (bool_decide (in_ll (old + n))).
Proof.
  unfold in_ll. intros Ho Hn. rewrite !Z.gtb_ltb. assert (LLONG_MIN < 0 < LLONG_MAX) as Hm by (by vm_compute).
  destruct (Z.ltb_spec n 0), (Z.ltb_spec old 0), (Z.ltb_spec 0 n), (Z.ltb_spec 0 old), (Z.ltb_spec n (LLONG_MIN - old)), (Z.ltb_spec (LLONG_MAX - old) n);
    cbn; case_bool_decide; cbn; (reflexivity || (exfalso; lia)).
Qed.

(** The three parts of the reply and what comes before them. *)
Lemma sim_incr_end n ci args own known key k p z vals :
  is_key args own key k -> (ci, k, Some (VString p), INT z) ∈ known -> values args = vals ->
  sim (J (3 + n) ci args own known)
    (signalModifiedKey ci key;;
     notifyKeyspaceEvent REDIS_NOTIFY_STRING "incrby" key ci;;
     add_dirty 1;;
     addReply c (colon shared);;
     addReply c p;;
     addReply c (crlf (shared_base shared)))
    (s_touch ci k;;
     s_tell (ENotify REDIS_NOTIFY_STRING "incrby" k ci);;
     s_dirty 1;;
     s_int c z)
    (fun _ _ => after n own vals).
Proof.
  intros Hk Hin Hvals. eapply sim_bind; [apply sim_touch; [done|by do 2 eexists]|]. intros ? ?. cbn beta.
  eapply sim_bind; [by apply sim_notify|]. intros ? ?. cbn beta. eapply sim_bind; [apply sim_dirty|]. intros ? ?. cbn beta.
  apply (sim_eq _ _ _ (addReply c (colon shared);; addReply c p;; addReply c (crlf (shared_base shared))) _ (s_reply c [58];; s_reply c (ll_repr z);; s_reply c crlf_)).
  { done. }
  { intros y. symmetry. rewrite <- prog_assoc. assert (forall m : S unit, (m;; s_reply c crlf_) y = match m y with Some (_, y) => s_reply c crlf_ y | None => None end) as Hb by done.
    rewrite Hb, s_reply_app, <- Hb, s_reply_app, <- app_assoc. done. }
  eapply sim_bind; [by apply sim_text; [done|shared]|]. intros ? ?. cbn beta.
  eapply sim_bind; [by eapply (sim_object rest c zmalloc_bound _ _ _ _ _ ci k p (INT z))|]. intros ? ?. cbn beta.
  eapply sim_end; [|by apply sim_text; [done|shared]|done]. cbn. lia.
Qed.

Lemma sim_none_ll {A B} P (f : option Z -> M A) (am : S B) Q :
  sim P (f (Some 0)) am Q -> sim P (getLongLongFromObjectOrReply c None None ≫= f) am Q.
Proof. done. Qed.

Lemma sim_less {A B} n m ci args own known (p : M A) (am : S B) Q :
  (m <= n)%nat -> sim (J m ci args own known) p am Q -> sim (J n ci args own known) p am Q.
Proof. intros Hm Hs s Hi. by apply Hs, (J_less n m). Qed.

Lemma sim_incrDecr n ci own args x0 kp kv l k z :
  args = x0 :: (kp, kv) :: l -> sds_of kv = Some k -> in_ll z ->
  sim (J (6 + n) ci args own []) (incrDecrCommand c z) (s_incr c k z) (fun _ _ => after n own (values args)).
Proof.
  intros -> Hk Hz. set (args := x0 :: _) in *. assert (is_key args own kp k) as Hkey by (by apply (arg_key _ _ _ kv); [right; left|]).
  unfold incrDecrCommand, s_incr. apply sim_s_client. intros cl Hci. apply sim_drop. rewrite Hci.
  apply sim_c_db. eapply sim_arg; [done|]. eapply sim_bind; [by apply sim_lookupKeyWrite|]. intros o ao. apply sim_found. intros sv ->.
  destruct o as [[p|t]|]; cbn [ent].
  - apply sim_type_ok. apply (sim_pure _ (Some p)). eapply (sim_longlong rest c); [intros s Hs; eapply read_known; [exact Hs|by left]|..].
    { intros ->. eapply sim_unit; [by apply sim_error|]. intros ? ? s Hs. settle Hs. }
    intros old Hold. rewrite Hold. assert (in_ll old) as Ho by (by apply int_of_range in Hold). rewrite (overflow_check old z Ho Hz).
    case_bool_decide as Hv; cbn [negb].
    2: { eapply sim_end; [|by apply sim_error|done]. cbn. lia. }
    eapply sim_flat, sim_read_object; [by left|]. intros r Hr. destruct (_ && _) eqn:Hin.
    + apply andb_true_iff in Hin as [Hin _]. apply andb_true_iff in Hin as [Hin _]. apply andb_true_iff in Hin as [Hin _].
      apply andb_true_iff in Hin as [Hone Hint]. zbool. rewrite Hone. apply sim_flat.
      change (ll_repr (old + z)) with (value (INT (old + z))).
      eapply sim_bind; [by eapply sim_set_val; [left|..]|]. intros ? ?. cbn beta. apply (sim_pure _ p).
      apply (sim_less _ (3 + n)); [cbn; lia|]. eapply (sim_incr_end n _ _ _ _ kp k p (old + z)); [done|by left|done].
    + apply sim_drop. apply sim_flat. eapply sim_create_ll; [done|]. intros q. apply sim_flat. change (ll_repr (old + z)) with (value (INT (old + z))).
      eapply sim_bind; [by eapply (sim_dbOverwrite rest c _ _ _ _ _ _ _ _ (VString q) (INT (old + z))); [|left|]|]. intros ? ?. cbn beta. apply (sim_pure _ q).
      apply (sim_less _ (3 + n)); [cbn; lia|]. eapply (sim_incr_end n _ _ _ _ kp k q (old + z)); [done|by left|done].
  - apply sim_type_wrong. eapply sim_unit; [by apply sim_text; [done|shared]|]. intros ? ? s Hs. settle Hs.
  - apply (sim_pure _ false). apply (sim_pure _ None). apply sim_none_ll. rewrite (overflow_check 0 z) by done.
    rewrite bool_decide_eq_true_2 by done. cbn [negb]. apply sim_flat. eapply sim_create_ll; [done|]. intros q. apply sim_flat.
    change (ll_repr (0 + z)) with (value (INT (0 + z))).
    eapply sim_bind; [by eapply (sim_dbAdd rest c _ _ _ _ _ _ _ _ (VString q) (INT (0 + z))); [|left|]|]. intros ? ?. cbn beta. apply (sim_pure _ q).
    apply (sim_less _ (3 + n)); [cbn; lia|]. eapply (sim_incr_end n _ _ _ _ kp k q (0 + z)); [done|by left|done].
Qed.

Lemma ll_result_range z y : ll_result z = Some y -> y = z /\ in_ll z.
Proof.
  unfold ll_result. destruct (_ || _) eqn:Hb; [done|]. intros [= <-]. apply orb_false_iff in Hb as [H1 H2]. zbool. split; [done|]. unfold in_ll. lia.
Qed.

(** The increment that is an argument. *)
Lemma sim_increment n ci own args n0 k m (f : Z -> option Z) :
  texts args [n0; k; m] -> (forall z y, in_ll z -> f z = Some y -> in_ll y) ->
  sim (J (6 + n) ci args own [])
    (a ← arg c 2; n ← getLongLongFromObjectOrReply c (Some a) None;
     match n with None => mret tt | Some n => n ← opt (f n); incrDecrCommand c n end)
    (match int_of m with
     | None => s_reply c (error (bytes_of_string not_int))
     | Some n => n ← opt (f n); s_incr c k n
     end) (fun _ _ => after n own [n0; k; m]).
Proof.
  intros Ht Hf. rewrite <- (texts_values _ _ Ht).
  apply texts_cons in Ht as (? & ? & ? & -> & H0 & Ht). apply texts_cons in Ht as (kp & kv & ? & -> & Hk & Ht).
  apply texts_cons in Ht as (mp & mv & ? & -> & Hm & ->%texts_nil).
  eapply sim_arg; [done|]. eapply (sim_longlong rest c _ _ mv); [intros s Hs; eapply read_member; [exact Hs|]; apply elem_of_app; left; right; right; by left|..];
    rewrite (sds_value _ _ Hm).
  - intros ->. eapply sim_unit; [by apply sim_error|]. intros ? ? s Hs. settle Hs.
  - intros z Hz. rewrite Hz. eapply sim_bind; [apply sim_opt_eq|]. intros y ?. apply sim_and. intros <-. apply sim_and. intros Hy.
    eapply sim_incrDecr; [done|done|]. eapply Hf; [|exact Hy]. by apply int_of_range in Hz.
Qed.

(** ** GETRANGE *)

Lemma sub_range_code s start end_ : in_ll start -> in_ll end_ -> zlen s <= 536870912 ->
  let strlen := zlen s in
  let b := if start <? 0 then s64 (u64 (strlen + start)) else start in
  let e := if end_ <? 0 then s64 (u64 (strlen + end_)) else end_ in
  let b := if b <? 0 then 0 else b in
  let e := if e <? 0 then 0 else e in
  let e := if u64 e >=? strlen then s64 (u64 (strlen - 1)) else e in
  if (b >? e) || (strlen =? 0) then sub_range s start end_ = []
  else load s b (e - b + 1) = Some (sub_range s start end_).
Proof.
  intros Hs He Hl strlen. pose proof (zlen_nonneg s) as Hn. fold strlen in Hl, Hn.
  assert (forall x, in_ll x -> (if x <? 0 then s64 (u64 (strlen + x)) else x) = (if x <? 0 then strlen + x else x)) as Hclip.
  { intros x Hx. destruct (Z.ltb_spec x 0); [|done]. rewrite swrap_uwrap by lia. apply s64_small. unfold in_ll, LLONG_MIN, LLONG_MAX in Hx. lia. }
  cbn zeta. rewrite !Hclip by done. unfold sub_range. fold strlen.
  assert (forall x, in_ll x -> (if (if x <? 0 then strlen + x else x) <? 0 then 0 else if x <? 0 then strlen + x else x) = (if x <? 0 then Z.max 0 (strlen + x) else x)) as Hmax.
  { intros x Hx. destruct (Z.ltb_spec x 0); [|by rewrite (proj2 (Z.ltb_ge _ _)) by lia]. destruct (Z.ltb_spec (strlen + x) 0); lia. }
  rewrite !Hmax by done. set (b := if start <? 0 then _ else _). set (e := if end_ <? 0 then _ else _).
  assert (0 <= b /\ 0 <= e <= LLONG_MAX) as [Hb Hee].
  { unfold in_ll in *. assert (536870912 <= LLONG_MAX) by (by vm_compute). subst b e. destruct (Z.ltb_spec start 0), (Z.ltb_spec end_ 0); lia. }
  clearbody b e. unfold LLONG_MAX in Hee. rewrite u64_small by lia. rewrite swrap_uwrap, s64_small by lia.
  assert ((if e >=? strlen then strlen - 1 else e) = Z.min e (strlen - 1)) as ->.
  { rewrite Z.geb_leb. destruct (Z.leb_spec strlen e); lia. }
  destruct (_ || _) eqn:Hemp.
  - apply orb_true_iff in Hemp as [Hemp|Hemp]; zbool.
    + by replace (Z.to_nat (Z.min e (strlen - 1) - b + 1)) with 0%nat by lia.
    + destruct s; [by rewrite drop_nil, take_nil|]. unfold strlen in Hemp. rewrite zlen_cons in Hemp. pose proof (zlen_nonneg s). lia.
  - apply orb_false_iff in Hemp as [H1 H2]. zbool. unfold load. fold strlen.
    rewrite (proj2 (Z.leb_le _ _)), (proj2 (Z.leb_le _ _)), (proj2 (Z.leb_le _ _)) by lia. done.
Qed.

Lemma sim_getrange n ci own args n0 k b e :
  texts args [n0; k; b; e] ->
  sim (J (3 + n) ci args own []) (getrangeCommand c) (s_getrange c k b e) (fun _ _ => after n own [n0; k; b; e]).
Proof.
  intros Ht. rewrite <- (texts_values _ _ Ht).
  apply texts_cons in Ht as (? & ? & ? & -> & H0 & Ht). apply texts_cons in Ht as (kp & kv & ? & -> & Hk & Ht).
  apply texts_cons in Ht as (bp & bv & ? & -> & Hb & Ht). apply texts_cons in Ht as (ep & ev & ? & -> & He & ->%texts_nil).
  set (args := [_; _; _; _]) in *. assert (is_key args own kp k) as Hkey by (by apply (arg_key _ _ _ kv); [right; left|]).
  unfold getrangeCommand, s_getrange. eapply sim_arg; [done|].
  eapply (sim_longlong rest c _ _ bv); [intros s Hs; eapply read_member; [exact Hs|]; apply elem_of_app; left; right; right; by left|..]; rewrite (sds_value _ _ Hb).
  { intros ->. eapply sim_unit; [by apply sim_error|]. intros ? ? s Hs. settle Hs. }
  intros start Hstart. rewrite Hstart. eapply sim_arg; [done|].
  eapply (sim_longlong rest c _ _ ev); [intros s Hs; eapply read_member; [exact Hs|]; apply elem_of_app; left; do 3 right; by left|..]; rewrite (sds_value _ _ He).
  { intros ->. eapply sim_unit; [by apply sim_error|]. intros ? ? s Hs. settle Hs. }
  intros end_ Hend. rewrite Hend. eapply sim_arg; [done|]. apply sim_s_client. intros cl Hci. apply sim_drop. rewrite Hci.
  apply int_of_range in Hstart, Hend. apply sim_lookupReadOr; [done|..].
  - intros sv. eapply sim_unit; [by apply sim_text; [done|shared]|]. intros ? ? s Hs. settle Hs.
  - intros v sv av Hav. destruct v as [p|t]; cbn in Hav; injection Hav as <-.
    + apply sim_type_ok. apply (sim_pure _ p). eapply (sim_val_known _ (1 + n)); [by intros s Hs|by left|]. intros Hw.
      assert ((match sv with INT n => ll_buf 32 n | RAW s _ | EMBSTR s => Some s end) = Some (value sv)) as ->.
      { destruct sv as [str f|str|z]; [done..|]. apply ll_buf_spec; [done|lia]. }
      apply (sim_pure _ (value sv)). pose proof (value_len sv Hw) as [_ Hlen].
      pose proof (sub_range_code (value sv) start end_ Hstart Hend Hlen) as Hsub. cbn zeta in Hsub |- *.
      destruct (_ || _).
      * rewrite Hsub. eapply sim_end; [|by apply (sim_text rest c zmalloc_bound _ _ _ _ _ (emptybulk shared) empty_text); shared|done]. cbn. lia.
      * rewrite Hsub. apply (sim_pure _ (sub_range (value sv) start end_)). eapply sim_end; [|apply sim_buffer; [done|]|done]; [cbn; lia|].
        unfold sub_range. unfold zlen in *. rewrite length_take, length_drop. lia.
    + apply sim_type_wrong. eapply sim_unit; [by apply sim_text; [done|shared]|]. intros ? ? s Hs. settle Hs.
Qed.

(** ** MGET, MSET, MSETNX *)

Lemma sim_argv {A B} n ci args own known (g : list loc -> M A) (am : S B) Q :
  sim (J n ci args own known) (g args.*1) am Q -> sim (J n ci args own known) (cl ← the_client c; g (argv cl)) am Q.
Proof.
  apply sim_eq; [|done]. intros s Hs. destruct (run_client _ _ _ _ _ _ _ _ Hs) as (cl & Hc & _ & Ha & _). unfold mbind, prog_bind. by rewrite Hc, Ha.
Qed.

Lemma is_key_elem args own (x : loc * strval * bytes) : x.1 ∈ args -> sds_of x.1.2 = Some x.2 -> is_key args own x.1.1 x.2.
Proof. destruct x as [[p v] k]. cbn. intros Hin Hk. by apply (arg_key _ _ _ v). Qed.

Lemma sim_mget_loop n ci args own (l : list (loc * strval * bytes)) :
  (forall x, x ∈ l -> x.1 ∈ args /\ sds_of x.1.2 = Some x.2) ->
  sim (J (3 * length l + n) ci args own []) (mget_loop c l.*1.*1) (s_mget c l.*2) (fun _ _ => J n ci args own []).
Proof.
  induction l as [|x l IH]; intros Hl; [by apply sim_ret|]. cbn [length fmap list_fmap mget_loop s_mget].
  destruct (Hl x) as [Hx Hk]; [by left|]. assert (is_key args own x.1.1 x.2) as Hkey by (by apply is_key_elem).
  replace (3 * Datatypes.S (length l) + n)%nat with (2 + (1 + (3 * length l + n)))%nat by lia.
  apply sim_c_db. apply sim_s_client. intros cl Hci. apply sim_drop. rewrite Hci. eapply sim_bind; [by apply sim_lookupKeyRead|].
  intros o ao. apply sim_found. intros sv ->.
  apply (sim_bind _ _ _ _ (fun _ _ => J (3 * length l + n) ci args own [])); [|intros ? ?; apply IH; intros y Hy; apply Hl; by right].
  destruct o as [[p|t]|]; cbn [ent]; eapply sim_post.
  - by eapply sim_bulk; [|left].
  - intros ? ? s Hs. eapply J_forget; [|exact Hs]. apply list_subseteq_nil.
  - apply sim_text; [done|shared].
  - intros ? ? s Hs. eapply J_forget; [|exact Hs]. apply list_subseteq_nil.
  - apply sim_text; [done|shared].
  - intros ? ? s Hs. eapply J_forget; [|exact Hs]. apply list_subseteq_nil.
Qed.

Lemma sim_mget n ci own args n0 keys :
  texts args (n0 :: keys) -> zlen keys <= LLONG_MAX ->
  sim (J (3 * length keys + (1 + n)) ci args own []) (mgetCommand c) (s_reply c (reply_line 42 (zlen keys));; s_mget c keys)
    (fun _ _ => after n own (n0 :: keys)).
Proof.
  intros Ht Hlen. rewrite <- (texts_values _ _ Ht). apply texts_cons in Ht as (p & v & os & -> & H0 & Ht).
  destruct (texts_zip _ _ Ht) as (l & Hl1 & <- & Hl). unfold mgetCommand.
  apply (sim_argv _ _ _ _ _ (fun argv => addReplyMultiBulkLen c (zlen argv - 1);; mget_loop c (drop 1 argv))).
  assert (zlen ((p, v) :: os).*1 - 1 = zlen l.*2) as ->.
  { rewrite <- Hl1. unfold zlen. cbn. rewrite !length_fmap. lia. }
  rewrite length_fmap. replace (3 * length l + (1 + n))%nat with (1 + (3 * length l + n))%nat by lia.
  pose proof (zlen_nonneg l.*2). eapply sim_bind; [apply sim_array; [done|done|]|].
  { unfold in_ll, LLONG_MIN. lia. }
  intros ? ?. cbn beta. change (drop 1 ((p, v) :: os).*1) with os.*1. rewrite <- Hl1. eapply sim_post; [apply sim_mget_loop|].
  - intros x Hx. destruct (Hl x Hx) as [Hin Hk]. split; [|done]. rewrite Hl1. by right.
  - intros ? ? s Hs. settle Hs.
Qed.

Lemma drop_cons_lookup {A} (l : list A) j x r : drop j l = x :: r -> l !! j = Some x /\ drop (j + 1) l = r.
Proof.
  intros H. split; [rewrite <- (Nat.add_0_r j), <- lookup_drop, H; done|]. by rewrite <- drop_drop, H.
Qed.

Lemma sim_busy n ci args own m j (l : list (loc * strval * bytes)) count b :
  drop j args = l.*1 -> length l = (2 * m)%nat -> (forall x, x ∈ l -> x.1 ∈ args /\ sds_of x.1.2 = Some x.2) ->
  0 <= count -> negb (count =? 0) = b ->
  sim (J (2 * m + n) ci args own []) (busy_loop c j m count) (s_busy ci l.*2 b) (fun a b s => negb (a =? 0) = b /\ J n ci args own [] s).
Proof.
  revert j l count b. induction m as [|m IH]; intros j l count b Hj Hlen Hl Hc Hb.
  { destruct l; [|cbn in Hlen; lia]. by apply sim_ret. }
  destruct l as [|[[p v] k] [|y l]]; [cbn in Hlen; lia..|]. cbn [length] in Hlen. cbn [busy_loop fmap list_fmap s_busy fst snd].
  destruct (Hl ((p, v), k)) as [Hx Hk]; [by left|]. assert (is_key args own p k) as Hkey by (by apply (is_key_elem args own ((p, v), k))).
  apply drop_cons_lookup in Hj as [Hj Hrest]. apply drop_cons_lookup in Hrest as [_ Hrest].
  replace (2 * Datatypes.S m + n)%nat with (2 + (2 * m + n))%nat by lia.
  apply sim_c_db. eapply sim_arg; [exact Hj|]. eapply sim_bind; [by apply sim_lookupKeyWrite|].
  intros o ao. apply sim_found. intros sv ->. rewrite ent_there.
  eapply sim_weaken; [| |apply (IH (j + 2)%nat l)]; [|done|..].
  - intros s Hs. eapply J_forget; [|exact Hs]. apply list_subseteq_nil.
  - by replace (j + 2)%nat with (j + 1 + 1)%nat by lia.
  - lia.
  - intros z Hz. apply Hl. by do 2 right.
  - destruct (bool_decide _); lia.
  - subst b. destruct (bool_decide _); [|by rewrite orb_false_r]. rewrite orb_true_r. apply negb_true_iff, Z.eqb_neq. lia.
Qed.

Lemma sim_mset_loop n ci own m : forall args j (l : list (loc * strval * bytes)),
  drop j args = l.*1 -> length l = (2 * m)%nat -> (forall x, x ∈ l -> sds_of x.1.2 = Some x.2) ->
  sim (J (4 * m + n) ci args own []) (mset_loop c j m) (s_mset ci l.*2) (fun _ _ s => exists args', J n ci args' own [] s /\ values args' = values args).
Proof.
  induction m as [|m IH]; intros args j l Hj Hlen Hl.
  { destruct l; [|cbn in Hlen; lia]. apply sim_ret. intros s Hs. by exists args. }
  destruct l as [|[[kp kv] k] [|[[vp vv] v] l]]; [cbn in Hlen; lia..|]. cbn [length] in Hlen. cbn [mset_loop fmap list_fmap s_mset fst snd].
  pose proof (Hl ((kp, kv), k) ltac:(by left)) as Hk. pose proof (Hl ((vp, vv), v) ltac:(right; by left)) as Hv. cbn in Hk, Hv.
  apply drop_cons_lookup in Hj as [Hj Hrest]. apply drop_cons_lookup in Hrest as [Hj1 Hrest]. cbn [fst snd] in Hj, Hj1.
  replace (4 * Datatypes.S m + n)%nat with (1 + (3 + (4 * m + n)))%nat by lia.
  eapply sim_encode; [exact Hj1|]. intros q v' Hv'. set (args1 := <[(j + 1)%nat := (q, v')]> args).
  assert (args1 !! j = Some (kp, kv)) as Hk1 by (unfold args1; rewrite list_lookup_insert_ne by lia; done).
  assert (args1 !! (j + 1)%nat = Some (q, v')) as Hv1 by (unfold args1; rewrite list_lookup_insert_eq; [done|by eapply lookup_lt_Some]).
  assert (is_key args1 own kp k) as Hkey by (apply (arg_key _ _ _ kv); [by eapply list_elem_of_lookup_2|done]).
  apply sim_c_db. eapply sim_arg; [exact Hk1|]. eapply sim_arg; [exact Hv1|]. rewrite <- (sds_value _ _ Hv), <- Hv'.
  eapply sim_bind; [apply sim_setKey; [done|by eapply list_elem_of_lookup_2]|]. intros ? ?. cbn beta.
  eapply sim_bind; [by apply sim_notify|]. intros ? ?. cbn beta.
  eapply sim_weaken; [| |apply (IH args1 (j + 2)%nat l)].
  - intros s Hs. eapply J_forget; [|exact Hs]. apply list_subseteq_nil.
  - intros ? ? s (args' & Hs & Hvals). exists args'. split; [done|]. rewrite Hvals. unfold args1. by eapply values_insert.
  - unfold args1. rewrite drop_insert_lt by lia. by replace (j + 2)%nat with (j + 1 + 1)%nat by lia.
  - lia.
  - intros z Hz. apply Hl. by do 2 right.
Qed.

Lemma sim_msets n ci own args n0 kvs nx :
  texts args (n0 :: kvs) ->
  sim (J (4 * length kvs + (1 + n)) ci args own []) (msetGenericCommand c nx) (s_msets c nx kvs) (fun _ _ => after n own (n0 :: kvs)).
Proof.
  intros Ht. rewrite <- (texts_values _ _ Ht). apply texts_cons in Ht as (p & v & os & -> & H0 & Ht).
  destruct (texts_zip _ _ Ht) as (l & Hl1 & <- & Hl). set (args := (p, v) :: os) in *. unfold msetGenericCommand, s_msets.
  assert (zlen args = zlen l.*2 + 1) as Hlen by (unfold args; rewrite zlen_cons, <- Hl1; unfold zlen; rewrite !length_fmap; lia).
  apply sim_argc. rewrite Hlen. apply sim_s_client. intros cl Hci. apply sim_drop. rewrite Hci. set (z := zlen l.*2). assert (0 <= z) as Hz by apply zlen_nonneg.
  assert ((Z.rem (z + 1) 2 =? 0) = bool_decide (Z.odd z)) as ->.
  { rewrite Z.rem_mod_nonneg by lia. destruct (Z.odd z) eqn:Ho.
    - apply Z.odd_spec in Ho as [y Hy]. rewrite bool_decide_eq_true_2 by done. apply Z.eqb_eq. rewrite Hy. replace (2 * y + 1 + 1) with ((y + 1) * 2) by lia. apply Z_mod_mult.
    - rewrite bool_decide_eq_false_2 by (intros []). rewrite <- Z.negb_even in Ho. apply negb_false_iff, Z.even_spec in Ho as [y Hy]. apply Z.eqb_neq. rewrite Hy.
      replace (2 * y + 1) with (1 + y * 2) by lia. rewrite Z_mod_plus_full. done. }
  case_bool_decide as Hodd; [apply (sim_less _ (1 + n)); [lia|]; eapply sim_end; [|by apply sim_error|done]; cbn; lia|].
  assert (exists m, length l = (2 * m)%nat /\ Z.to_nat (Z.quot (z + 1 - 1) 2) = m /\ Z.quot (z + 1 - 1) 2 = z `div` 2) as (m & Hm & -> & ->).
  { assert (Z.odd z = false) as Ho by (by destruct (Z.odd z)). rewrite <- Z.negb_even in Ho. apply negb_false_iff, Z.even_spec in Ho as [y Hy].
    exists (Z.to_nat y). unfold z, zlen in Hy. rewrite length_fmap in Hy. split; [lia|].
    assert (z = y * 2) as -> by (unfold z, zlen; rewrite length_fmap; lia). replace (y * 2 + 1 - 1) with (y * 2) by lia. rewrite Z.quot_mul, Z.div_mul by lia. done. }
  rewrite length_fmap, Hm. apply (sim_less _ (2 * m + (4 * m + (1 + n)))); [lia|].
  assert (drop 1 args = l.*1) as Hdrop by (by rewrite Hl1).
  apply (sim_bind _ _ _ _ (fun a b s => negb (a =? 0) = b /\ J (4 * m + (1 + n)) ci args own [] s)).
  { destruct nx; [|apply sim_ret; intros s Hs; split; [done|]; eapply J_less; [|exact Hs]; lia].
    apply sim_busy; [done|done| |done|done]. intros x Hx. destruct (Hl x Hx) as [Hin Hk]. split; [by right|done]. }
  intros a b. apply sim_and. intros <-. destruct (negb (a =? 0)).
  - apply (sim_less _ (1 + n)); [lia|]. eapply sim_end; [|by apply (sim_text rest c zmalloc_bound _ _ _ _ _ (czero (shared_base shared)) (reply_line 58 0)); shared|done]. cbn. lia.
  - eapply sim_bind; [apply (sim_mset_loop (1 + n) ci own m args 1 l); [done|done|by intros x Hx; apply Hl]|]. intros ? ?. cbn beta.
    apply sim_exists. intros args'. apply (sim_weaken _ _ (fun s => values args' = values args /\ J (1 + n) ci args' own [] s) _ _ _ (fun _ _ => after n own (values args))); [by intros s [? ?]|done|].
    apply sim_and. intros <-. eapply sim_bind; [apply sim_dirty|]. intros ? ?. cbn beta.
    destruct nx; (eapply sim_end; [|apply sim_text; [exact zmalloc_bound|shared]|done]; cbn; lia).
Qed.

End Facts.

(** The same for the other files. *)
Ltac settle Hs := eapply after_intro; [|exact Hs]; cbn; lia.
