(* ===== verification/KeyFacts.v ===== *)
(** * The commands of db.c simulate those of the specification *)

From Stdlib Require Import ZArith Lia String.
From stdpp Require Import base numbers list gmap.
From S2P Require Import Prelude Util Object Reply ReplyFacts Server Watch Db Strings Multi KeySpec ServerFacts DbFacts StringFacts.

Open Scope Z_scope.

Section Facts.
Context `{E : Env} (rest : loc -> Z) (c : cid).
Hypothesis zmalloc_bound : forall n, 0 <= n -> 0 <= zmalloc_size n <= 2 * n + 4096.

Abbreviation J := (J rest c).
Abbreviation sim := (simulates abs).
Abbreviation after := (after rest c).
Implicit Types (args own : list (loc * strval)) (known : list (nat * bytes * option dbval * strval)).

(** ** Lemmas *)

Lemma J_clear n m ci args own known s : (n <= m)%nat -> J m ci args own known s -> J n ci args own [] s.
Proof. intros Hn Hs. eapply (J_less rest c m); [done|]. eapply J_forget; [|exact Hs]. apply list_subseteq_nil. Qed.

Lemma units_bound n ci args own known s : J n ci args own known s -> Z.of_nat n <= 166666.
Proof. intros Hs. pose proof (inv_k _ _ _ _ _ _ _ _ Hs). lia. Qed.

Lemma sim_clear {A B} n m ci args own known (p : M A) (am : S B) Q :
  (m <= n)%nat -> sim (J m ci args own []) p am Q -> sim (J n ci args own known) p am Q.
Proof. intros Hm Hs s Hi. by apply Hs, (J_clear m n ci args own known). Qed.

Definition texts_in args (l : list (loc * strval * bytes)) : Prop := forall x, x ∈ l -> x.1 ∈ args /\ sds_of x.1.2 = Some x.2.

Lemma texts_in_cons args p v k l : texts_in args (((p, v), k) :: l) -> (forall own, is_key args own p k) /\ texts_in args l.
Proof.
  intros Hl. destruct (Hl ((p, v), k)) as [Hx Hk]; [by left|]. split; [|intros y Hy; apply Hl; by right].
  intros own. by apply (is_key_elem args own ((p, v), k)).
Qed.

(** ** DEL, EXISTS *)

Lemma sim_del_loop n ci args own (l : list (loc * strval * bytes)) z :
  texts_in args l ->
  sim (J (2 * length l + n) ci args own []) (del_loop c l.*1.*1 z) (s_del ci l.*2 z)
    (fun a b s => a = b /\ z <= a <= z + zlen l /\ J n ci args own [] s).
Proof.
  revert z. induction l as [|[[p v] k] l IH]; intros z Hl.
  { apply sim_ret. intros s Hs. split; [done|]. split; [unfold zlen; cbn; lia|done]. }
  apply texts_in_cons in Hl as [Hkey Hl]. cbn [length fmap list_fmap del_loop s_del fst snd].
  replace (2 * Datatypes.S (length l) + n)%nat with (2 + (2 * length l + n))%nat by lia. rewrite zlen_cons.
  apply sim_c_db. eapply sim_bind; [by apply sim_expireIfNeeded|]. intros ? ?. cbn beta. eapply sim_bind; [by apply sim_dbDelete|].
  intros gone ?. apply sim_and. intros <-. destruct gone.
  - eapply sim_assoc_s, sim_bind; [apply sim_touch; [done|do 2 eexists; by left]|]. intros ? ?. cbn beta.
    eapply sim_assoc_s, sim_bind; [by apply sim_notify|]. intros ? ?. cbn beta. eapply sim_bind; [apply sim_dirty|]. intros ? ?. cbn beta.
    eapply sim_clear; [|eapply sim_post; [by apply IH|]]; [done|]. intros x y s (<- & Hab & Hs). split; [done|]. split; [lia|done].
  - apply sim_pure_s. eapply sim_clear; [|eapply sim_post; [by apply IH|]]; [done|]. intros x y s (<- & Hab & Hs). split; [done|]. split; [lia|done].
Qed.

Lemma sim_del n ci own args n0 keys :
  texts args (n0 :: keys) ->
  sim (J (2 * length keys + (1 + n)) ci args own []) (delCommand c) (cl ← s_client c; n ← s_del (in_db cl) keys 0; s_int c n)
    (fun _ _ => after n own (n0 :: keys)).
Proof.
  intros Ht. rewrite <- (texts_values _ _ Ht). apply texts_cons in Ht as (p & v & os & -> & H0 & Ht).
  destruct (texts_zip _ _ Ht) as (l & <- & <- & Hl). unfold delCommand. set (args := (p, v) :: l.*1).
  apply (sim_argv rest c _ _ _ _ _ (fun argv => deleted ← del_loop c (drop 1 argv) 0; addReplyLongLong c deleted)).
  apply sim_s_client. intros cl Hci. apply sim_drop. rewrite Hci. rewrite length_fmap. change (drop 1 args.*1) with l.*1.*1.
  apply (sim_pre _ (Z.of_nat (length l) <= 166666)); [intros s Hs; apply units_bound in Hs; lia|]. intros Hlen.
  eapply sim_bind; [apply sim_del_loop|].
  - intros x Hx. destruct (Hl x Hx) as [Hin Hk]. split; [by right|done].
  - intros a b. apply sim_and. intros <-. apply sim_and. intros Hab. eapply sim_end; [|apply sim_int; [done|]|done]; [cbn; lia|].
    unfold in_ll, LLONG_MIN, LLONG_MAX. unfold zlen in Hab. lia.
Qed.

Lemma sim_dbExists n ci args own known i key k :
  is_key args own key k ->
  sim (J n ci args own known) (dbExists i key) (d ← s_db i; mret (adict d !! k)) (fun e ao s => e = bool_decide (is_Some ao) /\ J n ci args own known s).
Proof.
  intros Hk s Hi b y Hy. unfold mbind, prog_bind in Hy. destruct (s_db i (abs s)) as [[d0 y1]|] eqn:Hsd; [|done].
  apply s_db_inv in Hsd as (-> & d & Hd & ->). injection Hy as <- <-. exists (bool_decide (is_Some (dict d !! k))), s. split; [|split; [done|split; [|done]]].
  - unfold dbExists, mbind, prog_bind. by rewrite (run_the_db s i d Hd), (run_ptr _ _ _ _ _ _ _ _ _ _ Hi Hk).
  - cbn. rewrite lookup_fmap. apply bool_decide_ext. by rewrite fmap_is_Some.
Qed.

Lemma sim_exists_loop n ci args own (l : list (loc * strval * bytes)) z :
  texts_in args l ->
  sim (J (2 * length l + n) ci args own []) (exists_loop c l.*1.*1 z) (s_exists ci l.*2 z)
    (fun a b s => a = b /\ z <= a <= z + zlen l /\ J n ci args own [] s).
Proof.
  revert z. induction l as [|[[p v] k] l IH]; intros z Hl.
  { apply sim_ret. intros s Hs. split; [done|]. split; [unfold zlen; cbn; lia|done]. }
  apply texts_in_cons in Hl as [Hkey Hl]. cbn [length fmap list_fmap exists_loop s_exists fst snd].
  replace (2 * Datatypes.S (length l) + n)%nat with (2 + (2 * length l + n))%nat by lia. rewrite zlen_cons.
  apply sim_c_db. apply sim_assoc_s. eapply sim_bind; [by apply sim_expireIfNeeded|]. intros ? ?. cbn beta.
  eapply sim_bind; [by apply sim_dbExists|]. intros e ao. apply sim_and. intros ->.
  eapply sim_clear; [|eapply sim_post; [by apply IH|]]; [done|]. intros x y s (<- & Hab & Hs). split; [done|]. split; [|done].
  destruct (bool_decide _); lia.
Qed.

Lemma sim_exists_keys n ci own args n0 keys :
  texts args (n0 :: keys) ->
  sim (J (2 * length keys + (1 + n)) ci args own []) (existsCommand c) (cl ← s_client c; n ← s_exists (in_db cl) keys 0; s_int c n)
    (fun _ _ => after n own (n0 :: keys)).
Proof.
  intros Ht. rewrite <- (texts_values _ _ Ht). apply texts_cons in Ht as (p & v & os & -> & H0 & Ht).
  destruct (texts_zip _ _ Ht) as (l & <- & <- & Hl). unfold existsCommand. set (args := (p, v) :: l.*1).
  apply (sim_argv rest c _ _ _ _ _ (fun argv => count ← exists_loop c (drop 1 argv) 0; addReplyLongLong c count)).
  apply sim_s_client. intros cl Hci. apply sim_drop. rewrite Hci. rewrite length_fmap. change (drop 1 args.*1) with l.*1.*1.
  apply (sim_pre _ (Z.of_nat (length l) <= 166666)); [intros s Hs; apply units_bound in Hs; lia|]. intros Hlen.
  eapply sim_bind; [apply sim_exists_loop|].
  - intros x Hx. destruct (Hl x Hx) as [Hin Hk]. split; [by right|done].
  - intros a b. apply sim_and. intros <-. apply sim_and. intros Hab. eapply sim_end; [|apply sim_int; [done|]|done]; [cbn; lia|].
    unfold in_ll, LLONG_MIN, LLONG_MAX. unfold zlen in Hab. lia.
Qed.

(** ** SELECT, DBSIZE, TYPE *)

Lemma run_selectDb n ci args own known s id :
  J n ci args own known s -> 0 <= id < zlen (dbs s) ->
  exists cl s', clients s !! c = Some cl /\ selectDb c id s = Some (true, s') /\ J n (Z.to_nat id) args own known s' /\
    s' = set_clients s (<[c := set_cdb cl (Z.to_nat id)]> (clients s)) /\
    abs s' = set_aclients (abs s) (<[c := set_in_db (acl_of (objs s) cl) (Z.to_nat id)]> (aclients (abs s))).
Proof.
  intros Hi Hid. destruct (inv_cur _ _ _ _ _ _ _ _ Hi) as (cl & Hc & Ha & Hcd). exists cl. eexists. split; [done|]. split; [|split; [|split; [done|]]].
  - unfold selectDb. rewrite Z.geb_leb, (proj2 (Z.ltb_ge _ _)), (proj2 (Z.leb_gt _ _)) by lia. cbn [orb]. unfold the_client, mbind, prog_bind. rewrite Hc. done.
  - destruct (inv_clients _ _ _ _ _ _ _ _ Hi c cl Hc) as (B1 & B2 & (B3 & B3') & B4 & B5 & B6).
    apply (inv_put_client rest _ c ci args own known s c cl _ (Z.to_nat id) args own); try done; [apply same_rc_refl| | |].
    + unfold zlen in Hid. cbn. lia.
    + by rewrite decide_True by done.
    + apply (inv_vals _ _ _ _ _ _ _ _ Hi).
  - by rewrite abs_put_client.
Qed.

Lemma run_selectDb_bad s id : ~ 0 <= id < zlen (dbs s) -> selectDb c id s = Some (false, s).
Proof.
  intros Hid. unfold selectDb. rewrite Z.geb_leb. destruct (Z.ltb_spec id 0); [done|]. rewrite (proj2 (Z.leb_le _ _)) by lia. done.
Qed.

Lemma abs_dbnum s : zlen (adbs (abs s)) = zlen (dbs s).
Proof. unfold zlen. cbn. by rewrite length_fmap. Qed.

Lemma sim_select n ci own args n0 i :
  texts args [n0; i] ->
  sim (J (1 + n) ci args own []) (selectCommand c) (s_select c i) (fun _ _ => after n own [n0; i]).
Proof.
  intros Ht. rewrite <- (texts_values _ _ Ht). apply texts_cons in Ht as (p & v & ? & -> & H0 & Ht). apply texts_cons in Ht as (ip & iv & ? & -> & Hi & ->%texts_nil).
  unfold selectCommand, s_select. eapply sim_arg; [done|].
  eapply (sim_long rest c _ _ iv); [intros s Hs; eapply read_member; [exact Hs|]; apply elem_of_app; left; right; by left|..]; rewrite (sds_value _ _ Hi).
  { intros ->. eapply sim_unit; [by apply sim_error|]. intros ? ? s Hs. settle Hs. }
  intros id Hid. rewrite Hid. destruct (_ && _); [eapply sim_end; [|by apply sim_error|done]; cbn; lia|].
  intros s Hs. unfold s_dbnum, mbind, prog_bind. rewrite abs_dbnum. intros b y Hy.
  destruct (decide (0 <= s32 id < zlen (dbs s))) as [Hin|Hout].
  - rewrite (proj2 (Z.leb_le _ _)), (proj2 (Z.ltb_lt _ _)) in Hy by lia. cbn [andb] in Hy.
    destruct (run_selectDb _ _ _ _ _ _ _ Hs Hin) as (cl & s' & Hc & Hr & Hi' & _ & Ha). rewrite Hr. unfold s_client in Hy. rewrite (abs_client s c cl Hc) in Hy.
    unfold s_put in Hy. cbn -[abs s_reply acl_of] in Hy. rewrite <- Ha in Hy.
    assert (sim (J (1 + n) (Z.to_nat (s32 id)) [(p, v); (ip, iv)] own []) (addReply c (ok shared)) (s_reply c ok_text)
      (fun _ _ => after n own (values [(p, v); (ip, iv)]))) as Hok by (eapply sim_end; [|by apply sim_text; [done|shared]|done]; cbn; lia).
    exact (Hok s' Hi' b y Hy).
  - rewrite (run_selectDb_bad _ _ Hout). assert ((0 <=? s32 id) && (s32 id <? zlen (dbs s)) = false) as Hb.
    { apply andb_false_iff. destruct (Z.leb_spec 0 (s32 id)); [right|by left]. apply Z.ltb_ge. lia. }
    rewrite Hb in Hy.
    assert (sim (J (1 + n) ci [(p, v); (ip, iv)] own []) (addReplyError c (bytes_of_string "invalid DB index")) (s_reply c (error (bytes_of_string "invalid DB index")))
      (fun _ _ => after n own (values [(p, v); (ip, iv)]))) as Herr by (eapply sim_end; [|by apply sim_error|done]; cbn; lia).
    exact (Herr s Hs b y Hy).
Qed.

Lemma sim_dbsize n ci own args n0 :
  texts args [n0] ->
  sim (J (1 + n) ci args own []) (dbsizeCommand c)
    (cl ← s_client c; d ← s_db (in_db cl); z ← opt (ll_result (Z.of_nat (size (adict d)))); s_int c z) (fun _ _ => after n own [n0]).
Proof.
  intros Ht. rewrite <- (texts_values _ _ Ht). unfold dbsizeCommand. apply sim_c_db. apply sim_s_client. intros cl Hci. apply sim_drop. rewrite Hci.
  intros s Hs b y Hy. unfold mbind, prog_bind in Hy. destruct (s_db ci (abs s)) as [[d0 y1]|] eqn:Hsd; [|done].
  apply s_db_inv in Hsd as (-> & d & Hd & ->). change (adict (adb_of (objs s) d)) with (aval_of (objs s) <$> dict d) in Hy. rewrite map_size_fmap in Hy.
  unfold opt in Hy. destruct (ll_result _) as [z|] eqn:Hz; [|done]. apply ll_result_range in Hz as [-> Hz].
  unfold mbind, prog_bind. rewrite (run_the_db s ci d Hd).
  assert (sim (J (1 + n) ci args own []) (addReplyLongLong c (Z.of_nat (size (dict d)))) (s_int c (Z.of_nat (size (dict d)))) (fun _ _ => after n own (values args))) as Hint.
  { eapply sim_end; [|by apply sim_int|done]. cbn. lia. }
  exact (Hint s Hs b y Hy).
Qed.

Lemma sim_type n ci own args n0 k :
  texts args [n0; k] -> sim (J (3 + n) ci args own []) (typeCommand c) (s_type c k) (fun _ _ => after n own [n0; k]).
Proof.
  intros Ht. rewrite <- (texts_values _ _ Ht). apply texts_cons in Ht as (p & v & ? & -> & H0 & Ht). apply texts_cons in Ht as (kp & kv & ? & -> & Hk & ->%texts_nil).
  set (args := [_; _]) in *. assert (is_key args own kp k) as Hkey by (by apply (arg_key _ _ _ kv); [right; left|]).
  unfold typeCommand, s_type. apply sim_c_db. eapply sim_arg; [done|]. apply sim_s_client. intros cl Hci. apply sim_drop. rewrite Hci.
  eapply sim_bind; [by apply sim_lookupKeyRead|]. intros o ao. apply sim_found. intros sv ->.
  destruct o as [[q|t]|]; cbn [ent]; [| |]; (eapply sim_end; [|apply sim_status; [done|]|done]; [cbn; lia|]); [done| |done].
  by destruct t.
Qed.

(** ** TTL, PTTL, PERSIST *)

Lemma sim_ttl n ci own args n0 k (ms : bool) :
  texts args [n0; k] -> sim (J (3 + n) ci args own []) (ttlGenericCommand c ms) (s_ttl c ms k) (fun _ _ => after n own [n0; k]).
Proof.
  intros Ht. rewrite <- (texts_values _ _ Ht). apply texts_cons in Ht as (p & v & ? & -> & H0 & Ht). apply texts_cons in Ht as (kp & kv & ? & -> & Hk & ->%texts_nil).
  set (args := [_; _]) in *. assert (is_key args own kp k) as Hkey by (by apply (arg_key _ _ _ kv); [right; left|]).
  unfold ttlGenericCommand, s_ttl. apply sim_c_db. eapply sim_arg; [done|]. apply sim_s_client. intros cl Hci. apply sim_drop. rewrite Hci.
  eapply sim_bind; [by apply sim_lookupKeyRead|]. intros o ao. apply sim_found. intros sv ->.
  destruct o as [w|]; [destruct (ent_some w sv) as (aw & ->)|cbn [ent]; eapply sim_end; [|by apply sim_int|done]; cbn; lia].
  eapply sim_getExpire; [done|]. intros d. apply sim_drop.
  assert (forall m : nat, sim (J (1 + n) ci args own ((ci, k, Some w, sv) :: others ci k [])) (addReplyLongLong c (-1)) (s_int c (-1)) (fun _ _ => after n own (values args))) as Hnone.
  { intros _. eapply sim_end; [|by apply sim_int|done]. cbn. lia. }
  destruct (aexpires d !! k) as [e|]; cbn [default from_option id]; [|by apply sim_pure, (Hnone 0%nat)].
  destruct (Z.eqb_spec e (-1)) as [->|He]; cbn [negb]; [by apply sim_pure, (Hnone 0%nat)|].
  apply sim_flat. eapply sim_bind; [apply sim_mstime|]. intros now ?. apply sim_and. intros <-.
  apply sim_flat. eapply sim_bind; [apply sim_opt_eq|]. intros t ?. apply sim_and. intros <-. apply sim_and. intros Ht. apply ll_result_range in Ht as [-> Ht].
  replace (if e - now <? 0 then 0 else e - now) with (Z.max 0 (e - now)) by (destruct (Z.ltb_spec (e - now) 0); lia).
  set (t := Z.max 0 (e - now)). apply (sim_pure _ t). rewrite (proj2 (Z.eqb_neq t (-1))) by lia.
  eapply sim_bind; [apply sim_opt_eq|]. intros r ?. apply sim_and. intros <-. apply sim_and. intros Hr.
  eapply sim_end; [|apply sim_int; [done|]|done]; [cbn; lia|].
  unfold in_ll in *. assert (LLONG_MIN < 0 < LLONG_MAX) by (by vm_compute). destruct ms; [injection Hr as <-; lia|].
  apply bind_Some in Hr as (x & Hx & [= <-]). apply ll_result_range in Hx as [-> Hx]. unfold in_ll in Hx.
  rewrite Z.quot_div_nonneg by lia. pose proof (Z.div_pos (t + 500) 1000 ltac:(lia) ltac:(lia)). pose proof (Z.div_le_upper_bound (t + 500) 1000 (t + 500) ltac:(lia) ltac:(lia)). lia.
Qed.

Lemma sim_persist n ci own args n0 k :
  texts args [n0; k] -> sim (J (1 + n) ci args own []) (persistCommand c) (s_persist c k) (fun _ _ => after n own [n0; k]).
Proof.
  intros Ht. rewrite <- (texts_values _ _ Ht). apply texts_cons in Ht as (p & v & ? & -> & H0 & Ht). apply texts_cons in Ht as (kp & kv & ? & -> & Hk & ->%texts_nil).
  set (args := [_; _]) in *. assert (is_key args own kp k) as Hkey by (by apply (arg_key _ _ _ kv); [right; left|]).
  unfold persistCommand, s_persist. apply sim_c_db. eapply sim_arg; [done|]. apply sim_s_client. intros cl Hci. apply sim_drop. rewrite Hci.
  assert (sim (J (1 + n) ci args own []) (addReply c (czero (shared_base shared))) (s_int c 0) (fun _ _ => after n own (values args))) as Hzero.
  { eapply sim_end; [|by apply (sim_text rest c zmalloc_bound _ _ _ _ _ (czero (shared_base shared)) (reply_line 58 0)); shared|done]. cbn. lia. }
  intros s Hs b y Hy. unfold mbind, prog_bind in Hy |- *. destruct (s_db ci (abs s)) as [[d0 y1]|] eqn:Hsd; [|done].
  apply s_db_inv in Hsd as (-> & d & Hd & ->). cbn [adict aexpires adb_of] in Hy. rewrite lookup_fmap in Hy.
  unfold dbExists, mbind, prog_bind. rewrite (run_the_db s ci d Hd), (run_ptr _ _ _ _ _ _ _ _ _ _ Hs Hkey). unfold mret, prog_ret.
  destruct (dict d !! k) as [w|] eqn:Hw; cbn [fmap option_fmap option_map] in Hy; [|rewrite bool_decide_eq_false_2 by (by intros []); exact (Hzero s Hs b y Hy)].
  rewrite bool_decide_eq_true_2 by done. rewrite (run_removeExpire _ _ _ _ _ _ _ _ _ d _ k Hs Hkey Hd) by (by rewrite Hw).
  destruct (expires d !! k) as [e|] eqn:He.
  - rewrite bool_decide_eq_true_2 by done.
    destruct (inv_set_expires rest c (1 + n) ci args own [] s ci d (delete k (expires d)) Hs Hd) as [Hi Ha].
    { intros key [_ Hkey']%lookup_delete_is_Some. by apply (inv_exp _ _ _ _ _ _ _ _ Hs ci d). }
    unfold s_set_expire, mbind, prog_bind in Hy. rewrite (run_s_db s ci d Hd) in Hy. unfold s_put_db in Hy. cbn -[abs adb_of s_int s_dirty] in Hy.
    change (aexpires (adb_of (objs s) d)) with (expires d) in Hy. cbn zeta in Ha. rewrite <- Ha in Hy.
    assert (sim (J (1 + n) ci args own []) (addReply c (cone (shared_base shared));; add_dirty 1) (s_int c 1;; s_dirty 1) (fun _ _ => after n own (values args))) as Hone.
    { eapply sim_bind; [by apply (sim_text rest c zmalloc_bound _ _ _ _ _ (cone (shared_base shared)) (reply_line 58 1)); shared|]. intros ? ?. cbn beta.
      eapply sim_post; [apply sim_dirty|]. intros ? ? s' Hs'. settle Hs'. }
    exact (Hone _ Hi b y Hy).
  - rewrite bool_decide_eq_false_2 by (by intros []). rewrite (delete_id _ _ He).
    replace (set_dbs s (<[ci := set_expires d (expires d)]> (dbs s))) with s; [exact (Hzero s Hs b y Hy)|].
    unfold set_dbs, set_expires. destruct d. rewrite list_insert_id by done. by destruct s.
Qed.

(** ** RENAME, MOVE *)

Lemma sim_incr_val {A B} n ci args own known i k v sv (f : unit -> M A) (am : S B) Q :
  (i, k, Some v, sv) ∈ known -> sim (J n ci args (held (Some v) sv ++ own) known) (f tt) am Q ->
  sim (J (1 + n) ci args own known) (incr_val v ≫= f) am Q.
Proof.
  intros Hin Hf. apply (sim_left _ _ _ (fun _ => J n ci args (held (Some v) sv ++ own) known)); [|by intros []].
  intros s Hs. destruct (run_incr_val _ _ n ci args own known s i k v sv Hs Hin) as (s' & ? & ? & ?). by exists tt, s'.
Qed.

Lemma sim_decr_val {A B} n ci args own known v sv (f : unit -> M A) (am : S B) Q :
  sim (J n ci args own known) (f tt) am Q -> sim (J n ci args (held (Some v) sv ++ own) known) (decr_val v ≫= f) am Q.
Proof.
  intros Hf. apply (sim_left _ _ _ (fun _ => J n ci args own known)); [|by intros []].
  intros s Hs. destruct (run_decr_val _ _ n ci args own known s v sv Hs) as (s' & ? & ? & ?). by exists tt, s'.
Qed.

(** The expire that goes with a value. *)
Lemma sim_move_expire {A B} n ci args own known i key k v sv (x : option Z) (f : unit -> M A) (af : unit -> S B) Q :
  is_key args own key k -> (i, k, Some v, sv) ∈ known -> sim (J n ci args own known) (f tt) (af tt) Q ->
  sim (J n ci args own known) ((if negb (default (-1) x =? -1) then setExpire i key (default (-1) x) else mret tt) ≫= f)
    ((match x with Some w => if w =? -1 then mret tt else s_set_expire i k (Some w) | None => mret tt end) ≫= af) Q.
Proof.
  intros Hk Hin Hf. apply (sim_bind _ _ _ _ (fun _ _ => J n ci args own known)); [|by intros [] []].
  destruct x as [w|]; cbn [default from_option id]; [|by apply sim_ret]. destruct (Z.eqb_spec w (-1)) as [->|Hw]; cbn [negb]; [by apply sim_ret|].
  by apply (sim_set_expire rest c n ci args own known i key k v sv (Some w)).
Qed.

(** What RENAME does when the destination is free. *)
Lemma sim_rename_rest n ci args own known p1 k1 p2 k2 w sv av sv2 x (nx : bool) :
  (forall own, is_key args own p1 k1) -> (forall own, is_key args own p2 k2) -> k1 <> k2 -> (ci, k2, None, sv2) ∈ known -> ent (Some w) sv = Some av ->
  sim (J (1 + n) ci args (held (Some w) sv ++ own) known)
    (dbAdd ci p2 w;;
     (if negb (default (-1) x =? -1) then setExpire ci p2 (default (-1) x) else mret tt);;
     dbDelete ci p1;;
     signalModifiedKey ci p1;;
     signalModifiedKey ci p2;;
     notifyKeyspaceEvent REDIS_NOTIFY_GENERIC "rename_from" p1 ci;;
     notifyKeyspaceEvent REDIS_NOTIFY_GENERIC "rename_to" p2 ci;;
     add_dirty 1;;
     addReply c (if nx then cone (shared_base shared) else ok shared))
    (s_store ci k2 av;;
     (match x with Some w => if w =? -1 then mret tt else s_set_expire ci k2 (Some w) | None => mret tt end);;
     s_delete ci k1;;
     s_touch ci k1;;
     s_touch ci k2;;
     s_tell (ENotify REDIS_NOTIFY_GENERIC "rename_from" k1 ci);;
     s_tell (ENotify REDIS_NOTIFY_GENERIC "rename_to" k2 ci);;
     s_dirty 1;;
     s_reply c (if nx then reply_line 58 1 else ok_text))
    (fun _ _ => after n own (values args)).
Proof.
  intros Hk1 Hk2 Hne Hin Hav. eapply sim_bind; [by apply (sim_dbAdd _ _ _ _ _ _ _ _ _ _ w sv av sv2)|]. intros ? ?. cbn beta.
  eapply sim_move_expire; [apply Hk2|by left|]. eapply sim_bind; [by apply sim_dbDelete|]. intros gone ?. apply sim_and. intros _.
  eapply sim_bind; [apply sim_touch; [done|do 2 eexists; by left]|]. intros ? ?. cbn beta.
  eapply sim_bind; [apply sim_touch; [done|do 2 eexists; right; apply others_elem; [cbn; congruence|by left]]|]. intros ? ?. cbn beta.
  eapply sim_bind; [by apply sim_notify|]. intros ? ?. cbn beta. eapply sim_bind; [by apply sim_notify|]. intros ? ?. cbn beta.
  eapply sim_bind; [apply sim_dirty|]. intros ? ?. cbn beta.
  destruct nx; (eapply sim_end; [|apply sim_text; [exact zmalloc_bound|shared]|done]; cbn; lia).
Qed.

Lemma sim_rename n ci own args n0 k1 k2 (nx : bool) :
  texts args [n0; k1; k2] ->
  sim (J (8 + n) ci args own []) (renameGenericCommand c nx) (s_rename c nx k1 k2) (fun _ _ => after n own [n0; k1; k2]).
Proof.
  intros Ht. rewrite <- (texts_values _ _ Ht). apply texts_cons in Ht as (p & v & ? & -> & H0 & Ht). apply texts_cons in Ht as (p1 & v1 & ? & -> & H1 & Ht).
  apply texts_cons in Ht as (p2 & v2 & ? & -> & H2 & ->%texts_nil). set (args := [_; _; _]) in *.
  assert (forall own, is_key args own p1 k1) as Hk1 by (intros; by apply (arg_key _ _ _ v1); [right; left|]).
  assert (forall own, is_key args own p2 k2) as Hk2 by (intros; by apply (arg_key _ _ _ v2); [right; right; left|]).
  unfold renameGenericCommand, s_rename. eapply sim_arg; [done|]. eapply sim_arg; [done|]. eapply sim_ptr; [apply Hk1|]. eapply sim_ptr; [apply Hk2|].
  case_bool_decide as Hne; [eapply sim_end; [|by apply sim_text; [done|shared]|done]; cbn; lia|].
  apply sim_c_db. apply sim_s_client. intros cl Hci. apply sim_drop. rewrite Hci. eapply sim_lookupWriteOr; [apply Hk1|..].
  { intros sv. eapply sim_unit; [by apply sim_text; [done|shared]|]. intros ? ? s Hs. settle Hs. }
  intros w sv av Hav. eapply sim_incr_val; [by left|]. eapply sim_getExpire; [apply Hk1|]. intros d. apply sim_drop.
  eapply sim_bind; [by apply sim_lookupKeyWrite|]. intros old ao. apply sim_found. intros osv ->.
  rewrite ent_there.
  assert (forall known sv2, (ci, k2, None, sv2) ∈ known ->
    sim (J (1 + n) ci args (held (Some w) sv ++ own) known) _ _ (fun _ _ => after n own (values args))) as Hrest
    by (intros known sv2 Hin; exact (sim_rename_rest n ci args own known p1 k1 p2 k2 w sv av sv2 (aexpires d !! k1) nx Hk1 Hk2 Hne Hin Hav)).
  destruct old as [ov|]; destruct nx; cbn [andb bool_decide].
  - rewrite bool_decide_eq_true_2 by done. apply sim_decr_val.
    eapply sim_end; [|by apply (sim_text rest c zmalloc_bound _ _ _ _ _ (czero (shared_base shared)) (reply_line 58 0)); shared|done]. cbn. lia.
  - destruct (ent_some ov osv) as (oav & ->). eapply sim_flat, sim_assoc_s, sim_bind; [by apply sim_dbDelete, is_key_app, Hk2|].
    intros a ?. apply sim_and. intros <-. apply sim_pure, sim_pure_s. eapply sim_less; [|apply (Hrest _ (INT 0)); by left]. cbn. lia.
  - rewrite bool_decide_eq_false_2 by (by intros []). cbn [ent]. apply sim_pure, sim_pure_s. eapply sim_less; [|apply (Hrest _ osv); by left]. cbn. lia.
  - cbn [ent]. apply sim_pure, sim_pure_s. eapply sim_less; [|apply (Hrest _ osv); by left]. cbn. lia.
Qed.

Lemma ptr_objs p k s s' : ptr p s = Some (k, s) -> objs s' = objs s -> ptr p s' = Some (k, s').
Proof.
  unfold ptr, val_of, on_store, opt, mbind, prog_bind. intros Hp Ho. rewrite Ho. destruct (heap (objs s) !! p) as [o|]; [|done]. cbn in *.
  destruct (sds_of (val o)); [|done]. injection Hp as -> _. f_equal. f_equal. rewrite <- Ho. apply set_objs_id.
Qed.

(** MOVE counts the reference after it has stored the value. *)
Lemma run_move_store {A} n ci args own known s i j key k w sv sv2 (x : option Z) (f : unit -> M A) :
  J (1 + n) ci args own known s -> is_key args own key k -> (j, k, None, sv2) ∈ known -> (i, k, Some w, sv) ∈ known ->
  (dbAdd j key w;; (if negb (default (-1) x =? -1) then setExpire j key (default (-1) x) else mret tt);; (incr_val w ≫= f)) s =
  (incr_val w;; dbAdd j key w;; (if negb (default (-1) x =? -1) then setExpire j key (default (-1) x) else mret tt) ≫= f) s.
Proof.
  intros Hi Hk Hin Hw. destruct w as [p|t].
  2: { cbn [incr_val]. unfold mbind, prog_bind, mret, prog_ret. destruct (dbAdd j key _ s) as [[[] s']|]; [|done]. destruct (negb _); [|done]. by destruct (setExpire _ _ _ s') as [[[] ?]|]. }
  destruct (known_dict _ _ _ _ _ _ _ _ _ _ _ _ Hi Hin) as (d & Hd & Hv).
  destruct (known_val _ _ _ _ _ _ _ _ _ _ _ _ Hi Hw) as [Hpv Hpl].
  destruct (run_incr _ _ n ci args own known s p sv Hi Hpv Hpl) as (s1 & Hrun & _ & Hi1 & _). apply incr_inv in Hrun as (st1 & Hst & ->).
  pose proof (run_ptr _ _ _ _ _ _ _ _ _ _ Hi Hk) as Hp. assert (is_key args ((p, sv) :: own) key k) as Hk' by (by apply is_key_cons).
  pose proof (run_ptr _ _ _ _ _ _ _ _ _ _ Hi1 Hk') as Hp1. assert (j < length (dbs s))%nat as Hlen by (by eapply lookup_lt_Some).
  cbn [incr_val]. unfold mbind, prog_bind. rewrite (incr_run p s st1 Hst). unfold dbAdd, setExpire, the_db, put_db, mbind, prog_bind.
  change (dbs (set_objs s st1)) with (dbs s). rewrite Hd, Hp, Hp1, (bool_decide_eq_true_2 _ Hv). cbn -[incr ptr].
  assert (forall s', objs s' = objs s -> ptr key s' = Some (k, s')) as Hp2 by (intros; by apply (ptr_objs key k s)).
  assert (forall s', objs s' = st1 -> ptr key s' = Some (k, s')) as Hp3 by (intros; by apply (ptr_objs key k (set_objs s st1))).
  assert (is_Some (<[k := VString p]> (dict d) !! k)) as Hsome by (by rewrite lookup_insert_eq).
  destruct cluster_enabled; cbn -[incr ptr]; (destruct (negb (default (-1) x =? -1)); cbn -[incr ptr]; [|by erewrite incr_run by exact Hst]);
    rewrite list_lookup_insert_eq by done; rewrite Hp2, Hp3 by done; cbn -[incr]; rewrite (bool_decide_eq_true_2 _ Hsome); cbn -[incr]; by erewrite incr_run by exact Hst.
Qed.

(** Selecting a database and going back. *)
Lemma run_there_and_back {A} n ci args own known s id (f : nat -> M A) (g : M A) :
  J n ci args own known s ->
  ((done ← selectDb c id; if (done : bool) then dst ← c_db c; mret (Some dst) else mret None) ≫=
    (fun dst => match dst with None => g | Some dst => selectDb c (Z.of_nat ci);; f dst end)) s =
  if decide (0 <= id < zlen (dbs s)) then f (Z.to_nat id) s else g s.
Proof.
  intros Hi. unfold mbind, prog_bind. case_decide as Hid; [|by rewrite run_selectDb_bad by done].
  destruct (run_selectDb _ _ _ _ _ _ _ Hi Hid) as (cl & s1 & Hc & Hr & Hi1 & Hs1 & _). rewrite Hr.
  destruct (run_client _ _ _ _ _ _ _ _ Hi1) as (cl1 & Hcl1 & Hc1 & _ & Hcd1). unfold c_db, mbind, prog_bind. rewrite Hcl1, Hcd1. unfold mret, prog_ret.
  destruct (inv_cur _ _ _ _ _ _ _ _ Hi) as (cl0 & Hc0 & _ & Hcd0). rewrite Hc in Hc0. injection Hc0 as <-.
  assert (0 <= Z.of_nat ci < zlen (dbs s1)) as Hback.
  { destruct (inv_clients _ _ _ _ _ _ _ _ Hi c cl Hc) as (_ & Hlt & _). rewrite Hs1. unfold zlen. cbn. lia. }
  destruct (run_selectDb _ _ _ _ _ _ _ Hi1 Hback) as (cl2 & s2 & Hc2 & Hr2 & _ & Hs2 & _). rewrite Hr2.
  assert (s2 = s) as ->; [|done]. rewrite Hs2. rewrite Hs1 in Hc2. cbn in Hc2. rewrite lookup_insert_eq in Hc2. injection Hc2 as <-.
  rewrite Hs1, Nat2Z.id. unfold set_clients. cbn. rewrite insert_insert_eq.
  assert (set_cdb (set_cdb cl (Z.to_nat id)) ci = cl) as -> by (destruct cl; cbn in *; by subst). rewrite insert_id by done. by destruct s.
Qed.

Lemma sim_move n ci own args n0 k i :
  texts args [n0; k; i] -> sim (J (6 + n) ci args own []) (moveCommand c) (s_move c k i) (fun _ _ => after n own [n0; k; i]).
Proof.
  intros Ht. rewrite <- (texts_values _ _ Ht). apply texts_cons in Ht as (p & v & ? & -> & H0 & Ht). apply texts_cons in Ht as (kp & kv & ? & -> & Hk & Ht).
  apply texts_cons in Ht as (ip & iv & ? & -> & Hi & ->%texts_nil). set (args := [_; _; _]) in *.
  assert (forall own, is_key args own kp k) as Hkey by (intros; by apply (arg_key _ _ _ kv); [right; left|]).
  unfold moveCommand, s_move. destruct cluster_enabled; [eapply sim_end; [|by apply sim_error|done]; cbn; lia|].
  apply sim_c_db. eapply sim_arg; [done|]. assert ((ip, iv) ∈ args ++ own) as Hin by (apply elem_of_app; left; right; right; by left).
  apply (sim_pre _ (wf_val iv)); [intros s Hs; by apply (read_member _ _ _ _ _ _ _ _ _ _ Hs Hin)|]. intros Hw.
  eapply sim_val; [exact Hin|]. rewrite <- (int_of_value rest c iv Hw), (sds_value _ _ Hi). apply sim_s_client. intros cl Hci. apply sim_drop. rewrite Hci.
  apply (sim_right _ _ _ _ (fun m s => m = zlen (dbs s) /\ J (6 + n) ci args own [] s)).
  { intros s m y Hs. unfold s_dbnum. rewrite abs_dbnum. by intros [= <- <-]. }
  intros m. assert (sim (J (6 + n) ci args own []) (addReply c (outofrangeerr shared)) (s_reply c (error (bytes_of_string "index out of range"))) (fun _ _ => after n own (values args))) as Hout.
  { eapply sim_end; [|by apply sim_text; [done|shared]|done]. cbn. lia. }
  destruct (int_of i) as [id|]; [|eapply sim_weaken; [| |exact Hout]; [by intros s [_ ?]|done]].
  destruct ((id <? - 2 ^ 31) || (id >? 2 ^ 31 - 1)) eqn:Hbig.
  { assert ((0 <=? id) && (id <? m) && (id <=? 2 ^ 31 - 1) = false) as ->.
    { apply andb_false_iff. apply orb_true_iff in Hbig as [Hb|Hb]; zbool.
      - left. apply andb_false_iff. left. apply Z.leb_gt. lia.
      - right. apply Z.leb_gt. lia. }
    eapply sim_weaken; [| |exact Hout]; [by intros s [_ ?]|done]. }
  apply orb_false_iff in Hbig as [Hb1 Hb2]. zbool. rewrite (proj2 (Z.leb_le id _)), andb_true_r by lia.
  destruct (decide (0 <= id < m)) as [Hid|Hid].
  2: { assert ((0 <=? id) && (id <? m) = false) as ->.
    { apply andb_false_iff. destruct (Z.leb_spec 0 id); [right|by left]. apply Z.ltb_ge. lia. }
    eapply sim_eq; [intros s [Hm Hs]; etransitivity; [exact (run_there_and_back _ _ _ _ _ s id _ _ Hs)|]; rewrite decide_False by lia; reflexivity|done|].
    eapply sim_weaken; [| |exact Hout]; [by intros s [_ ?]|done]. }
  rewrite (proj2 (Z.leb_le _ _)), (proj2 (Z.ltb_lt _ _)) by lia. cbn [andb].
  eapply sim_eq; [intros s [Hm Hs]; etransitivity; [exact (run_there_and_back _ _ _ _ _ s id _ _ Hs)|]; rewrite decide_True by lia; reflexivity|done|].
  cbn beta. apply (sim_weaken _ _ (J (6 + n) ci args own []) _ _ _ (fun _ _ => after n own (values args))); [by intros s [_ ?]|done|]. set (j := Z.to_nat id).
  assert (forall n known, sim (J (1 + n) ci args own known) (addReply c (czero (shared_base shared))) (s_int c 0) (fun _ _ => after n own (values args))) as Hzero.
  { intros n' known. eapply sim_end; [|by apply (sim_text rest c zmalloc_bound _ _ _ _ _ (czero (shared_base shared)) (reply_line 58 0)); shared|done]. cbn. lia. }
  destruct (Nat.eqb_spec ci j) as [Hij|Hij]; [eapply sim_end; [|by apply sim_text; [done|shared]|done]; cbn; lia|].
  eapply sim_arg; [done|]. eapply sim_bind; [by apply sim_lookupKeyWrite|]. intros o ao. apply sim_found. intros sv ->.
  destruct o as [w|]; [destruct (ent_some w sv) as (aw & Haw); rewrite Haw|cbn [ent]; eapply sim_less; [|apply (Hzero n)]; cbn; lia].
  eapply sim_getExpire; [apply Hkey|]. intros d. apply sim_drop. eapply sim_bind; [by apply sim_lookupKeyWrite|]. intros there ao. apply sim_found. intros tsv ->.
  destruct there as [tv|]; [destruct (ent_some tv tsv) as (atv & ->); eapply sim_less; [|apply (Hzero n)]; cbn; lia|]. cbn [ent].
  assert ((ci, k, Some w, sv) ∈ (j, k, None, tsv) :: others j k ((ci, k, Some w, sv) :: others ci k [])) as Hold.
  { right. apply others_elem; [cbn; congruence|by left]. }
  eapply sim_eq; [intros s Hs; apply (run_move_store (1 + n) _ _ _ _ s ci j _ k w sv tsv (aexpires d !! k) _ Hs (Hkey own)); [by left|exact Hold]|done|].
  eapply sim_incr_val; [exact Hold|]. eapply sim_bind; [by eapply (sim_dbAdd rest c _ _ _ _ _ _ _ _ w sv aw tsv); [|left|]|]. intros ? ?. cbn beta.
  eapply sim_move_expire; [apply Hkey|by left|]. eapply sim_bind; [by apply sim_dbDelete|]. intros x ?. apply sim_and. intros _.
  eapply sim_bind; [apply sim_dirty|]. intros ? ?. cbn beta.
  eapply sim_end; [|by apply (sim_text rest c zmalloc_bound _ _ _ _ _ (cone (shared_base shared)) (reply_line 58 1)); shared|done]. cbn. lia.
Qed.

(** ** EXPIRE, PEXPIRE, EXPIREAT, PEXPIREAT *)

(** What the result of the specification tells. *)
Lemma sim_result {A B} (F : B -> Prop) P (m : M A) (am : S B) Q :
  (forall s b y, P s -> am (abs s) = Some (b, y) -> F b) -> sim P m am Q -> sim P m am (fun a b s => F b /\ Q a b s).
Proof. intros HF Hm s Hs b y Hy. destruct (Hm s Hs b y Hy) as (a & s' & ? & ? & ?). exists a, s'. eauto. Qed.

Lemma sim_dbDelete_there n ci args own known i key k v sv :
  is_key args own key k -> (i, k, Some v, sv) ∈ known ->
  sim (J n ci args own known) (dbDelete i key) (s_delete i k)
    (fun a _ s => a = true /\ J n ci args own ((i, k, None, INT 0) :: others i k known) s).
Proof.
  intros Hk Hin. eapply sim_post; [eapply (sim_result (fun b => b = true)); [|by apply sim_dbDelete]|].
  - intros s b y Hs Hy. destruct (known_dict _ _ _ _ _ _ _ _ _ _ _ _ Hs Hin) as (d & Hd & Hv).
    unfold s_delete, mbind, prog_bind in Hy. rewrite (run_s_db s i d Hd) in Hy. cbn -[abs] in Hy. rewrite lookup_fmap, Hv in Hy. cbn -[abs] in Hy.
    destruct cluster_enabled; by injection Hy as <- _.
  - by intros a b s (-> & -> & ?).
Qed.

(** References that are given up one after the other; the effect depends on the store
    only. *)
Lemma run_decrs n ci args own known (l : list (loc * strval)) s :
  J n ci args (l ++ own) known s ->
  exists st, (forall s', objs s' = objs s -> each l.*1 decr s' = Some (tt, set_objs s' st)) /\
    J n ci args own known (set_objs s st) /\ abs (set_objs s st) = abs s.
Proof.
  revert s. induction l as [|[p v] l IH]; intros s Hs.
  { exists (objs s). split; [intros s' <-; by rewrite set_objs_id|]. by rewrite set_objs_id. }
  destruct (run_decr _ _ _ _ _ _ _ _ _ _ Hs) as (s1 & Hrun & Ha & Hs1). apply decr_inv in Hrun as (st1 & Hst & ->).
  destruct (IH _ Hs1) as (st & Hrest & Hs2 & Ha2). exists st. split; [|split; [exact Hs2|exact (eq_trans Ha2 Ha)]].
  intros s' Ho. cbn [each fmap list_fmap fst]. unfold mbind, prog_bind. rewrite (decr_run p s' st1) by (by rewrite Ho). by rewrite Hrest.
Qed.

Lemma run_incrs n ci args own known (l : list (loc * strval)) s :
  J (length l + n) ci args own known s -> (forall x, x ∈ l -> x ∈ args ++ own) ->
  exists st, (forall s', objs s' = objs s -> each l.*1 incr s' = Some (tt, set_objs s' st)) /\
    J n ci args (l ++ own) known (set_objs s st) /\ abs (set_objs s st) = abs s.
Proof.
  revert n own s. induction l as [|[p v] l IH]; intros n own s Hs Hin.
  { exists (objs s). split; [intros s' <-; by rewrite set_objs_id|]. by rewrite set_objs_id. }
  destruct (member_val _ _ _ _ _ _ _ _ _ _ Hs (Hin (p, v) ltac:(by left))) as [Hv Hl].
  destruct (run_incr _ _ _ _ _ _ _ _ _ _ Hs Hv Hl) as (s1 & Hrun & Ha & Hs1 & _). apply incr_inv in Hrun as (st1 & Hst & ->).
  destruct (IH n ((p, v) :: own) _ Hs1) as (st & Hrest & Hs2 & Ha2).
  { intros x Hx. destruct (proj1 (elem_of_app _ _ _) (Hin x ltac:(by right))); apply elem_of_app; [by left|right; by right]. }
  exists st. split; [|split; [|exact (eq_trans Ha2 Ha)]].
  - intros s' Ho. cbn [each fmap list_fmap fst]. unfold mbind, prog_bind. rewrite (incr_run p s' st1) by (by rewrite Ho). by rewrite Hrest.
  - eapply inv_perm; [|exact Hs2]. cbn. symmetry. apply Permutation_middle.
Qed.

(** The new vector takes the place of the old one. *)
Lemma run_rewrite n ci args own known s (new : list (loc * strval)) a av m rest_ str :
  J (length new + n) ci args own known s -> (forall x, x ∈ new -> x ∈ args ++ own) ->
  new = (a, av) :: rest_ -> sds_of av = Some str -> lookupCommand str = Some m ->
  exists s', rewriteClientCommandVector lookupCommand c new.*1 s = Some (tt, s') /\ abs s' = abs s /\ J n ci new own known s'.
Proof.
  intros Hs Hin Hnew Hav Hm. destruct (run_incrs _ _ _ _ _ _ _ Hs Hin) as (st1 & Hr1 & Hs1 & Ha1). set (s1 := set_objs s st1) in *.
  destruct (inv_cur _ _ _ _ _ _ _ _ Hs1) as (cl & Hc & Hargs & Hcd).
  destruct (inv_argv rest c n ci args (new ++ own) new (args ++ own) known s1 cl (Some m) Hs1 Hc) as [Hs2 Ha2].
  { rewrite !app_assoc. apply Permutation_app_tail, Permutation_app_comm. }
  set (cl' := set_cmd (set_argv cl new.*1) (Some m)) in *. set (s2 := set_clients s1 (<[c := cl']> (clients s1))) in *.
  destruct (run_decrs _ _ _ _ _ _ _ Hs2) as (st3 & Hr3 & Hs3 & Ha3).
  exists (set_objs s2 st3). split; [|split; [exact (eq_trans Ha3 (eq_trans Ha2 Ha1))|exact Hs3]].
  unfold rewriteClientCommandVector, mbind, prog_bind. rewrite Hr1 by done. fold s1. unfold the_client at 1. rewrite Hc, Hargs, (Hr3 s1 eq_refl).
  assert (ptr a (set_objs s1 st3) = Some (str, set_objs s1 st3)) as Hp.
  { apply (ptr_objs a str (set_objs s2 st3)); [|done]. apply (run_ptr _ _ _ _ _ _ _ _ _ _ Hs3). exists av. split; [|done].
    rewrite Hnew. by left. }
  rewrite Hnew. cbn [fmap list_fmap fst]. rewrite Hp. unfold opt. rewrite Hm. unfold the_client. change (clients (set_objs s1 st3)) with (clients s1). rewrite Hc.
  unfold s2, cl'. by rewrite Hnew.
Qed.

Lemma sim_rewrite {A B} n ci args own known (new : list (loc * strval)) a av m rest_ str (f : unit -> M A) (am : S B) Q :
  new = (a, av) :: rest_ -> (forall x, x ∈ new -> x ∈ args ++ own) -> sds_of av = Some str -> lookupCommand str = Some m ->
  sim (J n ci new own known) (f tt) am Q ->
  sim (J (length new + n) ci args own known) (rewriteClientCommandVector lookupCommand c new.*1 ≫= f) am Q.
Proof.
  intros Hnew Hin Hav Hm Hf. apply (sim_left _ _ _ (fun _ => J n ci new own known)); [|by intros []].
  intros s Hs. destruct (run_rewrite _ _ _ _ _ _ _ _ _ _ _ _ Hs Hin Hnew Hav Hm) as (s' & ? & ? & ?). by exists tt, s'.
Qed.


Lemma lookup_del : exists m, lookupCommand (bytes_of_string "DEL") = Some m.
Proof. eexists. by vm_compute. Qed.

Lemma sim_expires n ci own args n0 k t base units :
  texts args [n0; k; t] ->
  sim (J (6 + n) ci args own []) (expireGenericCommand lookupCommand c base units) (s_expires c base units [n0; k; t] k t) (fun _ vals => after n own vals).
Proof.
  intros Ht. rewrite <- (texts_values _ _ Ht). apply texts_cons in Ht as (p & v & ? & -> & H0 & Ht). apply texts_cons in Ht as (kp & kv & ? & -> & Hk & Ht).
  apply texts_cons in Ht as (tp & tv & ? & -> & Ht & ->%texts_nil). set (args := [_; _; _]) in *.
  assert (forall own, is_key args own kp k) as Hkey by (intros; by apply (arg_key _ _ _ kv); [right; left|]).
  unfold expireGenericCommand, s_expires. apply sim_s_client. intros cl Hci. apply sim_drop. rewrite Hci.
  eapply sim_arg; [done|]. eapply sim_arg; [done|].
  eapply (sim_longlong rest c _ _ tv); [intros s Hs; eapply read_member; [exact Hs|]; apply elem_of_app; left; right; right; by left|..]; rewrite (sds_value _ _ Ht).
  { intros ->. apply sim_keeping. eapply sim_unit; [by apply sim_error|]. intros ? ? s Hs. settle Hs. }
  intros z ->. eapply sim_bind; [apply sim_opt_eq|]. intros w1 ?. apply sim_and. intros <-. apply sim_and. intros _.
  eapply sim_bind; [apply sim_opt_eq|]. intros w ?. apply sim_and. intros <-. apply sim_and. intros _. apply sim_c_db.
  eapply sim_bind; [by apply sim_lookupKeyRead|]. intros o ao. apply sim_found. intros sv ->.
  destruct o as [e|]; [destruct (ent_some e sv) as (ae & ->)|cbn [ent]; apply sim_keeping;
    eapply sim_end; [|by apply (sim_text rest c zmalloc_bound _ _ _ _ _ (czero (shared_base shared)) (reply_line 58 0)); shared|done]; cbn; lia].
  eapply sim_bind; [apply sim_mstime|]. intros now ?. apply sim_and. intros <-. destruct (_ && _).
  - eapply sim_bind; [eapply sim_dbDelete_there; [apply Hkey|by left]|]. intros gone ?. apply sim_and. intros ->. apply sim_pure.
    eapply sim_bind; [apply sim_dirty|]. intros ? ?. cbn beta. eapply sim_create_string; [by vm_compute|]. intros q qv Hq.
    destruct lookup_del as [m Hm]. eapply (sim_rewrite (1 + n) _ _ _ _ [(q, qv); (kp, kv)] q qv m [(kp, kv)]); [done| |exact Hq|exact Hm|].
    { intros x [-> | [-> | []%not_elem_of_nil]%elem_of_cons]%elem_of_cons; apply elem_of_app; [right; by left|left; right; by left]. }
    apply sim_decr. assert (is_key [(q, qv); (kp, kv)] own kp k) as Hkey' by (apply (arg_key _ _ _ kv); [right; by left|done]).
    eapply sim_bind; [apply sim_touch; [done|do 2 eexists; by left]|]. intros ? ?. cbn beta. eapply sim_bind; [by apply sim_notify|]. intros ? ?. cbn beta.
    replace [bytes_of_string "DEL"; k] with (values [(q, qv); (kp, kv)]) by (unfold values; cbn; by rewrite (sds_value _ _ Hq), (sds_value _ _ Hk)).
    apply sim_keeping. eapply sim_end; [|by apply (sim_text rest c zmalloc_bound _ _ _ _ _ (cone (shared_base shared)) (reply_line 58 1)); shared|done]. lia.
  - eapply sim_bind; [by eapply (sim_set_expire rest c _ _ _ _ _ _ _ _ e sv (Some w)); [|left]|]. intros ? ?. cbn beta.
    eapply sim_bind; [by apply (sim_text rest c zmalloc_bound _ _ _ _ _ (cone (shared_base shared)) (reply_line 58 1)); shared|]. intros ? ?. cbn beta.
    eapply sim_bind; [apply sim_touch; [done|do 2 eexists; by left]|]. intros ? ?. cbn beta. eapply sim_bind; [by apply sim_notify|]. intros ? ?. cbn beta.
    apply sim_keeping. eapply sim_post; [apply sim_dirty|]. intros ? ? s Hs. settle Hs.
Qed.


(** ** FLUSHDB *)

Lemma each_app {A} (l l' : list A) (f : A -> M unit) s : each (l ++ l') f s = (each l f;; each l' f) s.
Proof.
  revert s. induction l as [|x l IH]; intros s; [done|]. cbn [app each]. unfold mbind, prog_bind. destruct (f x s) as [[[] s1]|]; [|done].
  apply IH.
Qed.

(** A loop in a loop. *)
Lemma each_bind {A B} (l : list A) (g : A -> list B) (f : B -> M unit) s : each l (fun x => each (g x) f) s = each (l ≫= g) f s.
Proof.
  revert s. induction l as [|x l IH]; intros s; [done|]. cbn [each]. change ((x :: l) ≫= g) with (g x ++ (l ≫= g)). rewrite each_app.
  unfold mbind, prog_bind. destruct (each (g x) f s) as [[[] s1]|]; [|done]. apply IH.
Qed.

(** Two loops whose bodies are the same in the states that they meet. *)
Lemma each_same {A} (K : server -> Prop) (l : list A) (f g : A -> M unit) s :
  (forall x s, x ∈ l -> K s -> f x s = g x s /\ forall u s', g x s = Some (u, s') -> K s') -> K s ->
  each l f s = each l g s /\ forall u s', each l g s = Some (u, s') -> K s'.
Proof.
  revert s. induction l as [|x l IH]; intros s Hfg Hs; cbn [each]; [by split; [|intros ? ? [= _ <-]]|].
  destruct (Hfg x s ltac:(by left) Hs) as [Hx HK]. unfold mbind, prog_bind. rewrite Hx. destruct (g x s) as [[u s1]|]; [|done].
  apply IH; [|by apply (HK u)]. intros y s2 Hy. apply Hfg. by right.
Qed.

Lemma ptr_sds p s : sds_at (objs s) p -> ptr p s = Some (sval (objs s) p, s).
Proof.
  intros (o & Ho & Hs). unfold ptr, val_of, on_store, opt, sval, mbind, prog_bind. rewrite Ho. cbn [mbind option_bind].
  rewrite set_objs_id. by destruct (val o).
Qed.

Definition mark (e : cid) : M unit := cl ← the_client e; put_client e (or_flags cl REDIS_DIRTY_CAS).

(** The objects, the databases and the watched keys stay as they are. *)
Definition unmoved n ci args own known (s0 s : server) : Prop :=
  J n ci args own known s /\ objs s = objs s0 /\ dbs s = dbs s0 /\ forall e, wkeys <$> clients s !! e = wkeys <$> clients s0 !! e.

Lemma mark_unmoved n ci args own known s0 s e u s' : unmoved n ci args own known s0 s -> mark e s = Some (u, s') -> unmoved n ci args own known s0 s'.
Proof.
  intros (Hi & Ho & Hd & Hw). unfold mark, the_client, put_client, mbind, prog_bind. destruct (clients s !! e) as [cl|] eqn:He; [|done]. intros [= _ <-].
  destruct (run_mark rest c n ci args own known s e cl Hi He) as [Hi' _]. split; [exact Hi'|]. split; [done|]. split; [done|].
  intros e'. rewrite <- Hw. cbn. destruct (decide (e = e')) as [<-|Hne]; [by rewrite lookup_insert_eq, He|by rewrite lookup_insert_ne].
Qed.

(** What [touchWatchedKeysOnFlush] does for a client. *)
Definition flush_client (i : nat) (e : cid) : M unit :=
  cl ← the_client e;
  each (wkeys cl) (fun wk =>
    if (Z.of_nat i =? -1) || (Z.of_nat wk.1 =? Z.of_nat i) then
      d ← the_db wk.1;
      k ← ptr wk.2;
      match dict d !! k with Some _ => mark e | None => mret tt end
    else mret tt).

(** The marks that one client gets. *)
Definition flush_marks (s0 : server) (i : nat) (d : redisDb) (e : cid) : list cid :=
  match clients s0 !! e with
  | Some cl => omap (fun w => if (w.1 =? i)%nat && bool_decide (is_Some (dict d !! sval (objs s0) w.2)) then Some e else None) (wkeys cl)
  | None => []
  end.

Lemma run_flush_client n ci args own known s0 s i d e cl :
  unmoved n ci args own known s0 s -> dbs s0 !! i = Some d -> clients s !! e = Some cl ->
  flush_client i e s = each (flush_marks s0 i d e) mark s.
Proof.
  intros Hs Hd He. unfold flush_client, the_client at 1, mbind at 1, prog_bind at 1. rewrite He. unfold flush_marks.
  destruct Hs as (Hi & Ho & Hdb & Hw). pose proof (Hw e) as Hwe. rewrite He in Hwe. destruct (clients s0 !! e) as [cl0|]; [|done]. injection Hwe as Hwe. rewrite <- Hwe.
  destruct (inv_clients _ _ _ _ _ _ _ _ Hi e cl He) as (_ & _ & _ & _ & Hsds & _).
  assert (forall l s, (forall w, w ∈ l -> sds_at (objs s0) w.2) -> unmoved n ci args own known s0 s ->
    each l (fun wk => if (Z.of_nat i =? -1) || (Z.of_nat wk.1 =? Z.of_nat i) then d ← the_db wk.1; k ← ptr wk.2;
      match dict d !! k with Some _ => mark e | None => mret tt end else mret tt) s =
    each (omap (fun w => if (w.1 =? i)%nat && bool_decide (is_Some (dict d !! sval (objs s0) w.2)) then Some e else None) l) mark s) as Hall.
  2: { apply Hall; [intros w Hwin; rewrite <- Ho; by apply Hsds|by split]. }
  clear s Hi Ho Hdb Hw He Hsds Hwe. rewrite (proj2 (Z.eqb_neq (Z.of_nat i) (-1))) by lia. cbn [orb]. intros l. induction l as [|[w p] l IH]; intros s Hsds Hs; [done|]. cbn [each omap list_omap fst snd].
  pose proof Hs as (Hi & Ho & Hdb & Hw).
  assert (forall w, w ∈ l -> sds_at (objs s0) w.2) as Hl by (intros x Hx; apply Hsds; by right).
  destruct (Nat.eqb_spec w i) as [->|Hne]; [|rewrite (proj2 (Z.eqb_neq _ _)) by lia; cbn [andb]; exact (IH s Hl Hs)].
  rewrite Z.eqb_refl. unfold mbind, prog_bind in IH |- *. unfold the_db at 1. rewrite Hdb, Hd. rewrite (ptr_sds p) by (rewrite Ho; apply (Hsds (i, p)); by left).
  rewrite Ho. cbn [andb].
  destruct (dict d !! sval (objs s0) p) as [v|]; [|rewrite bool_decide_eq_false_2 by (by intros []); exact (IH s Hl Hs)].
  rewrite bool_decide_eq_true_2 by done. cbn [each]. unfold mbind, prog_bind. destruct (mark e s) as [[[] s1]|] eqn:Hm; [|done].
  apply (IH s1 Hl). by apply (mark_unmoved _ _ _ _ _ s0 s e tt s1).
Qed.


Lemma has_key st d k : bool_decide (is_Some (adict (adb_of st d) !! k)) = bool_decide (is_Some (dict d !! k)).
Proof. apply bool_decide_ext. cbn. by rewrite lookup_fmap, fmap_is_Some. Qed.

Lemma run_flush_touch n ci args own known s i d :
  J n ci args own known s -> dbs s !! i = Some d ->
  exists s', touchWatchedKeysOnFlush (Z.of_nat i) s = Some (tt, s') /\ J n ci args own known s' /\ dbs s' = dbs s /\ objs s' = objs s /\
    abs s' = set_aclients (abs s) (flush_touch i (adb_of (objs s) d) <$> aclients (abs s)).
Proof.
  intros Hi Hd. set (all := (map_to_list (clients s)).*1).
  assert (unmoved n ci args own known s s) as Hs by done.
  destruct (each_same (unmoved n ci args own known s) all (flush_client i) (fun e => each (flush_marks s i d e) mark) s) with (2 := Hs) as [Heq HK].
  { intros e s1 He Hs1. split.
    - apply list_elem_of_fmap in He as ([e' cl0] & -> & He). apply elem_of_map_to_list in He. cbn [fst].
      pose proof Hs1 as (_ & _ & _ & Hw). specialize (Hw e'). rewrite He in Hw. destruct (clients s1 !! e') as [cl|] eqn:Hcl; [|done].
      exact (run_flush_client n ci args own known s s1 i d e' cl Hs1 Hd Hcl).
    - intros u s2 Hrun. revert s1 Hs1 Hrun. generalize (flush_marks s i d e) as l. induction l as [|x l IH]; intros s1 Hs1; cbn [each].
      + by intros [= _ <-].
      + unfold mbind, prog_bind. destruct (mark x s1) as [[[] s3]|] eqn:Hm; [|done]. apply IH. by apply (mark_unmoved _ _ _ _ _ s s1 x tt). }
  rewrite each_bind in Heq.
  destruct (run_marks rest c n ci args own known (all ≫= flush_marks s i d) s Hi) as (s' & Hrun & Hi' & Ha').
  { intros e He. apply list_elem_of_bind in He as (e' & He & Hin). apply list_elem_of_fmap in Hin as ([e2 cl] & -> & Hin). apply elem_of_map_to_list in Hin.
    unfold flush_marks in He. cbn [fst] in He. rewrite Hin in He. apply list_elem_of_omap in He as (w & _ & Hw). destruct (_ && _); [|done]. injection Hw as ->. by rewrite Hin. }
  exists s'. change (fun e => cl ← the_client e; put_client e (or_flags cl REDIS_DIRTY_CAS)) with mark in Hrun.
  rewrite each_bind in HK. destruct (HK tt s' Hrun) as (_ & Ho & Hdb & _).
  split; [exact (eq_trans Heq Hrun)|]. split; [done|]. split; [done|]. split; [done|]. rewrite Ha'. f_equal. apply map_eq. intros e.
  change (aclients (abs s)) with (acl_of (objs s) <$> clients s). rewrite marks_lookup, !lookup_fmap. destruct (clients s !! e) as [cl|] eqn:He; [|done]. cbn. f_equal.
  unfold flush_touch. set (b := existsb _ _). assert (e ∈ all ≫= flush_marks s i d <-> b = true) as Hb.
  { rewrite list_elem_of_bind. unfold b. rewrite existsb_exists. cbn [watched acl_of]. split.
    - intros (e' & Hin & Hall). unfold flush_marks in Hin. destruct (clients s !! e') as [cl'|] eqn:He'; [|by apply elem_of_nil in Hin].
      apply list_elem_of_omap in Hin as (w & Hw & Ht). destruct (_ && _) eqn:Htest; [|done]. injection Ht as ->. rewrite He in He'. injection He' as <-.
      exists (w.1, sval (objs s) w.2). split; [apply list_elem_of_In, list_elem_of_fmap; by exists w|]. cbn [fst snd]. by rewrite has_key.
    - intros (w & Hw & Ht). apply list_elem_of_In, list_elem_of_fmap in Hw as (x & -> & Hx). exists e. split.
      + unfold flush_marks. rewrite He. apply list_elem_of_omap. exists x. split; [done|]. cbn [fst snd] in Ht. rewrite has_key in Ht. by rewrite Ht.
      + apply list_elem_of_fmap. exists (e, cl). split; [done|]. by apply elem_of_map_to_list. }
  destruct (decide _) as [Hin|Hin]; destruct b; try done; [by apply Hb in Hin|]; exfalso; by apply Hin, Hb.
Qed.


(** The values of a database, with what their objects have. *)
Definition vals_of (st : store) (d : redisDb) : list (loc * strval) :=
  (map_to_list (dict d)).*2 ≫= (fun v => match v with VString p => match heap st !! p with Some o => [(p, val o)] | None => [] end | VOther _ => [] end).

Lemma vals_refs st d p :
  (forall k q, dict d !! k = Some (VString q) -> exists o, heap st !! q = Some o) ->
  occs (vals_of st d).*1 p = msum (fun v => count (loc_of v) p) (dict d).
Proof.
  intros Hall. unfold vals_of, msum. assert (forall x, x ∈ map_to_list (dict d) -> dict d !! x.1 = Some x.2) as Hin by (intros [k v] Hx; by apply elem_of_map_to_list in Hx).
  revert Hin. generalize (map_to_list (dict d)) as l. induction l as [|[k v] l IH]; intros Hin; [done|].
  cbn [fmap list_fmap mbind list_bind lsum snd]. rewrite fmap_app, occs_app, IH by (intros; apply Hin; by right). f_equal.
  destruct v as [q|t]; [|done]. destruct (Hall k q (Hin (k, VString q) ltac:(by left))) as [o ->]. unfold occs. cbn. lia.
Qed.

Lemma each_decr_val st d :
  (forall k q, dict d !! k = Some (VString q) -> exists o, heap st !! q = Some o) ->
  forall s, each (map_to_list (dict d)).*2 decr_val s = each (vals_of st d).*1 decr s.
Proof.
  intros Hall. unfold vals_of. assert (forall x, x ∈ map_to_list (dict d) -> dict d !! x.1 = Some x.2) as Hin by (intros [k v] Hx; by apply elem_of_map_to_list in Hx).
  revert Hin. generalize (map_to_list (dict d)) as l. induction l as [|[k v] l IH]; intros Hin s; [done|].
  cbn [fmap list_fmap mbind list_bind each snd]. rewrite fmap_app, each_app. unfold mbind, prog_bind. destruct v as [q|t].
  - destruct (Hall k q (Hin (k, VString q) ltac:(by left))) as [o ->]. cbn [decr_val fmap list_fmap each fst]. unfold mbind, prog_bind.
    destruct (decr q s) as [[[] s1]|]; [|done]. apply IH. intros; apply Hin; by right.
  - cbn [decr_val fmap list_fmap each]. apply IH. intros; apply Hin; by right.
Qed.

(** The entries go first, then the values, and the expires last. *)
Lemma run_clear_db n ci args own s i d :
  J n ci args own [] s -> dbs s !! i = Some d ->
  exists s', (put_db i (mk_db ∅ (expires d) (watched_keys d));;
              each (map_to_list (dict d)).*2 decr_val;;
              d ← the_db i;
              put_db i (set_expires d ∅)) s = Some (tt, s') /\ J n ci args own [] s' /\
    abs s' = set_adbs (abs s) (<[i := mk_adb ∅ ∅]> (adbs (abs s))).
Proof.
  intros Hi Hd. assert (i < length (dbs s))%nat as Hlen by (by eapply lookup_lt_Some).
  assert (forall k q, dict d !! k = Some (VString q) -> exists o, heap (objs s) !! q = Some o) as Hall.
  { intros k q Hk. eapply hold_exists; [exact Hi|]. by eapply hold_dict. }
  set (d' := mk_db ∅ ∅ (watched_keys d)). set (s1 := set_dbs s (<[i := d']> (dbs s))).
  assert (J n ci args (vals_of (objs s) d ++ own) [] s1) as Hi1.
  { apply (inv_put_db rest _ c ci args own [] s i d d' _ [] Hi Hd); try done.
    - intros key [x Hx]. cbn in Hx. by rewrite lookup_empty in Hx.
    - intros p. rewrite fmap_app, occs_app, (vals_refs _ _ _ Hall). cbn. rewrite msum_empty. lia.
    - apply Forall_app. split; [|by destruct (own_vals _ _ _ _ _ _ _ _ Hi)].
      apply Forall_forall. intros x Hx. unfold vals_of in Hx. apply list_elem_of_bind in Hx as (v & Hx & _). destruct v as [q|t]; [|by apply elem_of_nil in Hx].
      destruct (heap (objs s) !! q) as [o|] eqn:Ho; [|by apply elem_of_nil in Hx]. apply list_elem_of_singleton in Hx as ->. by exists o. }
  destruct (run_decrs _ _ _ _ _ _ _ Hi1) as (st & Hrun & Hi2 & Ha2). exists (set_objs s1 st). split; [|split; [exact Hi2|rewrite Ha2; apply abs_put_db]].
  unfold put_db, mbind, prog_bind. rewrite (each_decr_val (objs s) d Hall), Hrun by done.
  unfold the_db. cbn [dbs set_objs set_dbs]. rewrite list_lookup_insert_eq by done. unfold put_db, set_objs, set_dbs, set_expires. cbn. by rewrite list_insert_insert_eq.
Qed.

Lemma sim_flushdb n ci own args n0 :
  texts args [n0] -> sim (J (1 + n) ci args own []) (flushdbCommand c) (s_flushdb c) (fun _ _ => after n own [n0]).
Proof.
  intros Ht. rewrite <- (texts_values _ _ Ht). unfold flushdbCommand, s_flushdb. apply sim_c_db. apply sim_s_client. intros cl Hci. apply sim_drop. rewrite Hci.
  intros s Hs b y Hy. unfold mbind, prog_bind in Hy. destruct (s_db ci (abs s)) as [[d0 y1]|] eqn:Hsd; [|done].
  apply s_db_inv in Hsd as (-> & d & Hd & ->). change (adict (adb_of (objs s) d)) with (aval_of (objs s) <$> dict d) in Hy. rewrite map_size_fmap in Hy.
  set (sz := Z.of_nat (size (dict d))) in *. set (s1 := set_dirty s (dirty s + sz)).
  assert (J (1 + n) ci args own [] s1) as Hs1 by (by apply (inv_fields _ _ _ _ _ _ _ s)).
  destruct (run_flush_touch _ _ _ _ _ s1 ci d Hs1 Hd) as (s2 & Hr2 & Hs2 & Hd2 & Ho2 & Ha2).
  destruct (run_clear_db _ _ _ _ s2 ci d Hs2) as (s3 & Hr3 & Hs3 & Ha3); [by rewrite Hd2|].
  assert (sim (J (1 + n) ci args own []) ((if cluster_enabled then tell ESlotFlush else mret tt);; addReply c (ok shared))
    ((if cluster_enabled then s_tell ESlotFlush else mret tt);; s_reply c ok_text) (fun _ _ => after n own (values args))) as Hend.
  { eapply sim_bind; [apply sim_tell_if|]. intros ? ?. cbn beta. eapply sim_end; [|by apply sim_text; [done|shared]|done]. cbn. lia. }
  assert (((if cluster_enabled then s_tell ESlotFlush else mret tt);; s_reply c ok_text) (abs s3) = Some (b, y)) as Hy3.
  { rewrite Ha3, Ha2. exact Hy. }
  destruct (Hend s3 Hs3 b y Hy3) as (r & s4 & Hr4 & Ha4 & Hq). exists r, s4. split; [|done].
  unfold mbind, prog_bind in Hr3, Hr4 |- *. rewrite (run_the_db s ci d Hd). unfold add_dirty. fold sz. change (set_dirty s (dirty s + sz)) with s1. unfold signalFlushedDb. rewrite Hr2.
  rewrite (run_the_db s2 ci d) by (by rewrite Hd2). destruct (put_db ci _ s2) as [[[] s21]|]; [|done]. destruct (each _ decr_val s21) as [[[] s22]|]; [|done].
  destruct (the_db ci s22) as [[d2 s23]|]; [|done]. rewrite Hr3. exact Hr4.
Qed.

End Facts.
