(* ===== verification/WatchFacts.v ===== *)
(** * WATCH and UNWATCH simulate the specification

    The two sides of the watched keys change together, with the references to the
    objects of the keys. *)

From Stdlib Require Import ZArith Lia String.
From stdpp Require Import base numbers list gmap.
From S2P Require Import Prelude Util Object Reply ReplyFacts Server Watch Db Strings Multi KeySpec ServerFacts DbFacts StringFacts KeyFacts.

Open Scope Z_scope.

Section Facts.
Context `{E : Env} (rest : loc -> Z) (c : cid).
Hypothesis zmalloc_bound : forall n, 0 <= n -> 0 <= zmalloc_size n <= 2 * n + 4096.

Abbreviation J := (J rest c).
Abbreviation sim := (simulates abs).
Abbreviation after := (after rest c).
Implicit Types (args own : list (loc * strval)) (known : list (nat * bytes * option dbval * strval)).

(** ** Lemmas: the watched keys *)

(** The watchers of [k] and the keys of the client change. *)
Lemma inv_watch_change (n ci : nat) args own own' known (s : server) (cl : client) (i : nat) (d : redisDb) (k : bytes) (W : gmap (list Z) (loc * list cid)) (w : list (nat * loc)) :
  J n ci args own known s -> clients s !! c = Some cl -> dbs s !! i = Some d ->
  let d' := set_watched d W in
  let cl' := set_wkeys cl w in
  let s' := set_clients (set_dbs s (<[i := d']> (dbs s))) (<[c := cl']> (clients s)) in
  (forall p, msum (fun e => count (Some e.1) p) W + occs w.*2 p + occs own'.*1 p =
    msum (fun e => count (Some e.1) p) (watched_keys d) + occs (wkeys cl).*2 p + occs own.*1 p) ->
  (forall x, x ∈ w -> (x.1 < length (dbs s))%nat /\ sds_at (objs s) x.2) -> NoDup (wset (objs s) cl') ->
  (forall k', k' <> k -> W !! k' = watched_keys d !! k') ->
  NoDup (watchers d' k) -> (forall x, x <> c -> x ∈ watchers d' k <-> x ∈ watchers d k) ->
  (c ∈ watchers d' k <-> (i, k) ∈ wset (objs s) cl') ->
  (forall e, W !! k = Some e -> e.2 <> [] /\ sval (objs s) e.1 = k /\ sds_at (objs s) e.1) ->
  (forall x, x <> (i, k) -> x ∈ wset (objs s) cl' <-> x ∈ wset (objs s) cl) ->
  Forall (val_at (objs s)) own' ->
  J n ci args own' known s' /\
  abs s' = set_aclients (abs s) (<[c := set_awatched (acl_of (objs s) cl) (wset (objs s) cl')]> (aclients (abs s))).
Proof.
  intros Hi Hc Hd d' cl' s' Hrefs Hw Hnd HW Hnk Hother Hme Hentry Hwset Hvals. set (s1 := set_dbs s (<[i := d']> (dbs s))).
  pose proof (lookup_lt_Some _ _ _ Hd) as Hlt. assert (clients s1 !! c = Some cl) as Hc1 by done.
  assert (forall p, hold s' p + occs own'.*1 p = hold s p + occs own.*1 p) as Hh.
  { intros p. change (hold s' p) with (hold (set_clients s1 (<[c := cl']> (clients s1))) p). rewrite (hold_put_client s1 c cl cl' p Hc1).
    change (hold s1 p) with (hold (set_dbs s (<[i := d']> (dbs s))) p). rewrite (hold_put_db s i d d' p Hd). unfold db_refs, cl_refs. cbn [dict watched_keys set_watched d' argv mstate wkeys set_wkeys cl'].
    specialize (Hrefs p). lia. }
  assert (forall p, rhold s' p = rhold s p) as Hr.
  { intros p. change (rhold s' p) with (rhold (set_clients s1 (<[c := cl']> (clients s1))) p). rewrite (rhold_put_client s1 c cl cl' p Hc1). cbn. change (rhold s1 p) with (rhold s p). lia. }
  split.
  - destruct Hi as [A1 A2 A3 A4 A5 A6 A7 A8 A9 A10 A11 A12 A13 A14]. split; try done.
    + intros p. rewrite Hr. cbn [objs s' set_clients set_dbs]. rewrite A5. specialize (Hh p). lia.
    + intros p o. rewrite Hh. apply A7.
    + intros e cle He. cbn in He. unfold client_ok. cbn [dbs objs s' set_clients set_dbs]. rewrite length_insert. destruct (decide (c = e)) as [<-|Hne].
      * rewrite lookup_insert_eq in He. injection He as <-. destruct (A8 c cl Hc) as (B1 & B2 & B3 & B4 & B5 & B6). done.
      * rewrite lookup_insert_ne in He by done. exact (A8 e cle He).
    + intros j dj key Hj. cbn in Hj. destruct (decide (i = j)) as [<-|Hne].
      * rewrite list_lookup_insert_eq in Hj by done. injection Hj as <-. by apply (A9 i d).
      * rewrite list_lookup_insert_ne in Hj by done. by apply (A9 j).
    + intros j dj k' Hj. cbn in Hj.
      assert (forall e, (exists x, clients s' !! e = Some x /\ (j, k') ∈ wset (objs s') x) <->
        if decide (e = c) then (j, k') ∈ wset (objs s) cl' else exists x, clients s !! e = Some x /\ (j, k') ∈ wset (objs s) x) as Hcl.
      { intros e. cbn. case_decide as He; [subst e; rewrite lookup_insert_eq|by rewrite lookup_insert_ne by congruence].
        split; [by intros (x & [= <-] & ?)|by exists cl']. }
      destruct (decide (i = j)) as [<-|Hne]; [rewrite list_lookup_insert_eq in Hj by done; injection Hj as <-; destruct (A10 i d k' Hd) as (W1 & W2 & W3)
        |rewrite list_lookup_insert_ne in Hj by done; destruct (A10 j dj k' Hj) as (W1 & W2 & W3)].
      * destruct (decide (k' = k)) as [->|Hk].
        -- split; [done|]. split; [|done]. intros e. rewrite Hcl. case_decide as He; [by subst e|]. rewrite Hother by done. apply W2.
        -- unfold watchers in *. cbn [watched_keys d' set_watched]. rewrite (HW k' Hk). split; [done|]. split; [|exact W3]. intros e. rewrite Hcl, W2.
           case_decide as He; [|done]. subst e. rewrite Hwset by congruence. split; [intros (x & Hx & ?); congruence|by exists cl].
      * split; [done|]. split; [|exact W3]. intros e. rewrite Hcl, W2. case_decide as He; [|done]. subst e. rewrite Hwset by congruence.
        split; [intros (x & Hx & ?); congruence|by exists cl].
    + destruct A11 as (clc & Hclc & Ha & Hcd). exists cl'. cbn. rewrite lookup_insert_eq. rewrite Hc in Hclc. injection Hclc as <-. done.
    + apply Forall_app in A12 as [A12 _]. by apply Forall_app.
    + eapply Forall_impl; [exact A13|]. intros [[[j key] v] sv] (dj & Hj & Hv & Hsv). destruct (decide (i = j)) as [<-|Hne].
      * exists d'. cbn. rewrite list_lookup_insert_eq by done. rewrite Hd in Hj. injection Hj as <-. done.
      * exists dj. cbn. by rewrite list_lookup_insert_ne.
    + intros e cle He Hne. cbn in He. rewrite lookup_insert_ne in He by done. by apply (A14 e).
  - change (abs s') with (abs (set_clients s1 (<[c := cl']> (clients s1)))). rewrite abs_put_client. unfold s1. rewrite abs_put_db.
    assert (set_adbs (abs s) (<[i := adb_of (objs s) d']> (adbs (abs s))) = abs s) as ->; [|done].
    unfold set_adbs, abs. cbn. f_equal. change (adb_of (objs s) d') with (adb_of (objs s) d). rewrite <- list_fmap_insert. by rewrite list_insert_id.
Qed.


Lemma watch_key_count n ci args own known s i d k :
  J n ci args own known s -> dbs s !! i = Some d -> forall cl, clients s !! c = Some cl -> c ∈ watchers d k <-> (i, k) ∈ wset (objs s) cl.
Proof.
  intros Hi Hd cl Hc. destruct (inv_watch _ _ _ _ _ _ _ _ Hi i d k Hd) as (_ & -> & _). split; [|by exists cl].
  intros (x & Hx & ?). rewrite Hc in Hx. by injection Hx as <-.
Qed.

(** A key that is not watched yet; [w0] is the reference of a new entry. *)
Lemma inv_watch_add (n ci : nat) args own w0 known s cl d key v k :
  J n ci args ((key, v) :: w0 ++ own) known s -> clients s !! c = Some cl -> dbs s !! ci = Some d ->
  sds_of v = Some k -> (ci, k) ∉ wset (objs s) cl ->
  w0 = (match watched_keys d !! k with Some _ => [] | None => [(key, v)] end) ->
  let e := default (key, []) (watched_keys d !! k) in
  let cl' := set_wkeys cl (wkeys cl ++ [(ci, key)]) in
  let s' := set_clients (set_dbs s (<[ci := set_watched d (<[k := (e.1, e.2 ++ [c])]> (watched_keys d))]> (dbs s))) (<[c := cl']> (clients s)) in
  J n ci args own known s' /\
  abs s' = set_aclients (abs s) (<[c := set_awatched (acl_of (objs s) cl) (wset (objs s) cl ++ [(ci, k)])]> (aclients (abs s))).
Proof.
  intros Hi Hc Hd Hk Hnew Hw0 e cl' s'. destruct (inv_watch _ _ _ _ _ _ _ _ Hi ci d k Hd) as (W1 & W2 & W3).
  destruct (inv_clients _ _ _ _ _ _ _ _ Hi c cl Hc) as (B1 & B2 & B3 & B4 & B5 & B6).
  pose proof (lookup_lt_Some _ _ _ Hd) as Hlt.
  assert (val_at (objs s) (key, v)) as Hv by (by destruct (own_vals _ _ _ _ _ _ _ _ Hi) as [[? _]%Forall_cons _]).
  assert (sval (objs s) key = k /\ sds_at (objs s) key) as [Hsv Hsd].
  { destruct Hv as (o & Ho & Hvo). cbn in Ho, Hvo. unfold sval, sds_at. rewrite Ho. split; [by rewrite Hvo, (sds_value _ _ Hk)|].
    exists o. split; [done|]. rewrite Hvo. by destruct v. }
  assert (wset (objs s) (set_wkeys cl (wkeys cl ++ [(ci, key)])) = wset (objs s) cl ++ [(ci, k)]) as Hws.
  { unfold wset. cbn. rewrite fmap_app. cbn. by rewrite Hsv. }
  rewrite <- Hws. apply (inv_watch_change n ci args ((key, v) :: w0 ++ own) own known s cl ci d k); try done.
  - intros p. rewrite fmap_app, occs_app, occs_cons, fmap_app, occs_app. cbn. unfold e. rewrite Hw0. destruct (watched_keys d !! k) as [x|] eqn:Hx; cbn.
    + rewrite (msum_update _ _ _ x) by done. cbn. unfold occs. cbn. lia.
    + rewrite msum_insert by done. cbn. unfold occs. cbn. lia.
  - intros x [Hx|Hx]%elem_of_app; [by apply B5|]. apply list_elem_of_singleton in Hx as ->. done.
  - rewrite Hws. apply NoDup_app. split; [done|]. split; [|by repeat constructor; apply not_elem_of_nil].
    intros x Hx Hin. apply list_elem_of_singleton in Hin as ->. done.
  - intros k' Hne. by rewrite lookup_insert_ne.
  - unfold watchers. cbn. rewrite lookup_insert_eq. cbn. assert (e.2 = watchers d k) as He by (unfold e, watchers; by destruct (watched_keys d !! k)).
    rewrite He. apply NoDup_app. split; [done|]. split; [|by repeat constructor; apply not_elem_of_nil].
    intros x Hx Hin. apply list_elem_of_singleton in Hin as ->. apply Hnew. by apply (watch_key_count _ _ _ _ _ _ _ _ _ Hi Hd).
  - intros x Hx. unfold watchers at 1. cbn. rewrite lookup_insert_eq. cbn. assert (e.2 = watchers d k) as -> by (unfold e, watchers; by destruct (watched_keys d !! k)).
    rewrite elem_of_app, list_elem_of_singleton. tauto.
  - rewrite Hws. unfold watchers. cbn. rewrite lookup_insert_eq. cbn. rewrite !elem_of_app, !list_elem_of_singleton. tauto.
  - intros x. rewrite lookup_insert_eq. intros [= <-]. cbn. split; [by destruct e.2|]. unfold e. destruct (watched_keys d !! k) as [y|] eqn:Hy; [|done].
    destruct (W3 y eq_refl) as (_ & ? & ?). done.
  - intros x Hx. rewrite Hws, elem_of_app, list_elem_of_singleton. tauto.
  - apply Forall_forall. intros x Hx. destruct (own_vals _ _ _ _ _ _ _ _ Hi) as [Hall _]. rewrite Forall_forall in Hall. apply Hall. right. apply elem_of_app. by right.
Qed.

(** The first key of the client is not watched any more; the references that are given
    up are those of the client and of an entry that has no other client. *)
Lemma inv_unwatch (n ci : nat) args own known s cl i d key r l :
  J n ci args own known s -> clients s !! c = Some cl -> wkeys cl = (i, key) :: r -> dbs s !! i = Some d ->
  let k := sval (objs s) key in
  forall e, watched_keys d !! k = Some e -> del_client e.2 c = Some l ->
  exists v ve,
  let W := match l with [] => delete k (watched_keys d) | _ => <[k := (e.1, l)]> (watched_keys d) end in
  let cl' := set_wkeys cl r in
  let s' := set_clients (set_dbs s (<[i := set_watched d W]> (dbs s))) (<[c := cl']> (clients s)) in
  J n ci args ((match l with [] => [(e.1, ve)] | _ => [] end) ++ (key, v) :: own) known s' /\
  abs s' = set_aclients (abs s) (<[c := set_awatched (acl_of (objs s) cl) (wset (objs s) cl')]> (aclients (abs s))).
Proof.
  intros Hi Hc Hwk Hd k e He Hl. destruct (inv_watch _ _ _ _ _ _ _ _ Hi i d k Hd) as (W1 & W2 & W3).
  destruct (inv_clients _ _ _ _ _ _ _ _ Hi c cl Hc) as (B1 & B2 & B3 & B4 & B5 & B6).
  destruct (W3 e He) as (Hne & Hse & Hsde). assert (e.2 = watchers d k) as Hew by (unfold watchers; by rewrite He).
  assert (exists v, val_at (objs s) (key, v)) as [v Hv] by (destruct (B5 (i, key) ltac:(rewrite Hwk; by left)) as [_ (o & Ho & _)]; by exists (val o), o).
  assert (exists ve, val_at (objs s) (e.1, ve)) as [ve Hve] by (destruct Hsde as (o & Ho & _); by exists (val o), o).
  assert (e.2 ≡ₚ c :: l) as Hperm.
  { clear -Hl. revert l Hl. induction e.2 as [|x m IH]; intros l Hl; [done|]. cbn in Hl. case_bool_decide as Hx.
    - injection Hl as <-. by subst.
    - apply bind_Some in Hl as (l' & Hl' & [= <-]). rewrite (IH l' Hl'). apply perm_swap. }
  rewrite <- Hew in W1, W2. assert (NoDup (c :: l)) as Hnd by (by rewrite <- Hperm). apply NoDup_cons in Hnd as [Hcl Hnd].
  assert (wset (objs s) cl = (i, k) :: wset (objs s) (set_wkeys cl r)) as Hws by (unfold wset; cbn; by rewrite Hwk).
  rewrite Hws in B6. apply NoDup_cons in B6 as [Hout B6].
  exists v, ve. intros W cl' s'. assert (watchers (set_watched d W) k = l) as Hwl.
  { unfold watchers, W. cbn. destruct l; [by rewrite lookup_delete_eq|by rewrite lookup_insert_eq]. }
  apply (inv_watch_change n ci args own _ known s cl i d k); try done.
  - intros p. rewrite Hwk. unfold W. destruct l as [|x l].
    + rewrite (msum_delete _ (watched_keys d) k e He). unfold occs. cbn. lia.
    + rewrite (msum_update _ _ _ e) by done. unfold occs. cbn. lia.
  - intros x Hx. apply B5. rewrite Hwk. by right.
  - intros k' Hk'. unfold W. destruct l; [by rewrite lookup_delete_ne|by rewrite lookup_insert_ne].
  - by rewrite Hwl.
  - intros x Hx. rewrite Hwl, <- Hew, Hperm, elem_of_cons. tauto.
  - rewrite Hwl. tauto.
  - intros x. unfold W. destruct l as [|y l]; [by rewrite lookup_delete_eq|]. rewrite lookup_insert_eq. by intros [= <-].
  - intros x Hx. rewrite Hws, elem_of_cons. tauto.
  - apply Forall_app. split; [destruct l; by repeat constructor|]. constructor; [done|]. by destruct (own_vals _ _ _ _ _ _ _ _ Hi).
Qed.


(** ** WATCH *)

Lemma run_equal n ci args own known s p q :
  J n ci args own known s -> sds_at (objs s) p -> sds_at (objs s) q ->
  equal_objects p q s = Some (bool_decide (sval (objs s) p = sval (objs s) q), s).
Proof.
  intros Hi (o & Ho & _) (o' & Ho' & _). unfold equal_objects, on_store.
  rewrite (equalStringObjects_spec strcoll (objs s) p q o o' (inv_store _ _ _ _ _ _ _ _ Hi) Ho Ho'). cbn [mbind option_bind].
  rewrite set_objs_id. unfold sval. by rewrite Ho, Ho'.
Qed.

Lemma run_already n ci args own known s p db l :
  J n ci args own known s -> sds_at (objs s) p -> (forall w, w ∈ l -> sds_at (objs s) w.2) ->
  already_watched p db l s = Some (bool_decide ((db, sval (objs s) p) ∈ (fun w : nat * loc => (w.1, sval (objs s) w.2)) <$> l), s).
Proof.
  intros Hi Hp. induction l as [|[i q] l IH]; intros Hl; cbn [already_watched].
  { by rewrite bool_decide_eq_false_2 by apply not_elem_of_nil. }
  specialize (IH (fun w Hw => Hl w ltac:(by right))). cbn [fmap list_fmap fst snd].
  destruct (Nat.eqb_spec i db) as [->|Hne].
  - unfold mbind, prog_bind. rewrite (run_equal _ _ _ _ _ _ p q Hi Hp (Hl (db, q) ltac:(by left))). destruct (decide (sval (objs s) p = sval (objs s) q)) as [Hpq|Hpq].
    + rewrite (bool_decide_eq_true_2 _ Hpq), bool_decide_eq_true_2; [done|]. rewrite Hpq. by left.
    + rewrite (bool_decide_eq_false_2 _ Hpq), IH. do 2 f_equal. apply bool_decide_ext. rewrite elem_of_cons. split; [by right|]. intros [[=]|?]; [congruence|done].
  - rewrite IH. do 2 f_equal. apply bool_decide_ext. rewrite elem_of_cons. split; [by right|]. intros [[=]|?]; [congruence|done].
Qed.

Lemma arg_sds n ci args own known s p v k :
  J n ci args own known s -> (p, v) ∈ args -> sds_of v = Some k -> sval (objs s) p = k /\ sds_at (objs s) p /\ val_at (objs s) (p, v) /\ light v.
Proof.
  intros Hi Hin Hk. pose proof (args_vals _ _ _ _ _ _ _ _ _ Hi Hin) as Hv. pose proof (args_light _ _ _ _ _ _ _ _ _ Hi Hin) as Hl.
  destruct Hv as (o & Ho & Hvo). cbn in Ho, Hvo. split; [unfold sval; by rewrite Ho, Hvo, (sds_value _ _ Hk)|].
  split; [exists o; split; [done|]; rewrite Hvo; by destruct v|]. split; [by exists o|done].
Qed.

Lemma run_watch n ci args own known s p v k cl :
  J (2 + n) ci args own known s -> (p, v) ∈ args -> sds_of v = Some k -> clients s !! c = Some cl ->
  exists s' cl', watchForKey c p s = Some (tt, s') /\ J n ci args own known s' /\ clients s' !! c = Some cl' /\
    acl_of (objs s') cl' = set_awatched (acl_of (objs s) cl) (watch_key ci (wset (objs s) cl) k) /\
    abs s' = set_aclients (abs s) (<[c := acl_of (objs s') cl']> (aclients (abs s))).
Proof.
  intros Hi Hin Hk Hc. destruct (arg_sds _ _ _ _ _ _ _ _ _ Hi Hin Hk) as (Hsv & Hsd & Hv & Hlt).
  destruct (inv_cur _ _ _ _ _ _ _ _ Hi) as (cl0 & Hc0 & Hargs & Hcd). rewrite Hc in Hc0. injection Hc0 as <-.
  destruct (inv_clients _ _ _ _ _ _ _ _ Hi c cl Hc) as (_ & Hci & _ & _ & Hsds & _). rewrite Hcd in Hci.
  destruct (lookup_lt_is_Some_2 _ _ Hci) as [d Hd].
  unfold watch_key. case_bool_decide as Hw.
  { exists s, cl. split; [|split; [|split; [done|split; [done|]]]].
    - unfold watchForKey. unfold mbind, prog_bind, the_client. rewrite Hc, Hcd, (run_already _ _ _ _ _ _ _ _ _ Hi Hsd) by (intros w Hw'; by apply Hsds).
      rewrite Hsv. change ((fun w : nat * loc => (w.1, sval (objs s) w.2)) <$> wkeys cl) with (wset (objs s) cl). by rewrite bool_decide_eq_true_2.
    - by apply (J_less rest c (2 + n) n); [lia|].
    - rewrite insert_id; [by destruct (abs s)|]. by apply abs_client. }
  destruct (run_incr _ _ _ _ _ _ _ _ _ _ Hi Hv Hlt) as (s1 & Hr1 & Ha1 & Hi1 & Hv1). apply incr_inv in Hr1 as (st1 & Hst1 & ->).
  assert (exists st2, (match watched_keys d !! k with Some e => mret e | None => incr p;; mret (p, []) end) s =
      Some (default (p, []) (watched_keys d !! k), set_objs s (match watched_keys d !! k with Some _ => objs s | None => st1 end)) /\
    (forall s', objs s' = match watched_keys d !! k with Some _ => objs s | None => st1 end -> incr p s' = Some (tt, set_objs s' st2)) /\
    J n ci args ((p, v) :: (match watched_keys d !! k with Some _ => [] | None => [(p, v)] end) ++ own) known (set_objs s st2) /\ abs (set_objs s st2) = abs s)
    as (st2 & Hentry & Hr2 & Hi2 & Ha2).
  { destruct (watched_keys d !! k) as [e|].
    - exists st1. cbn. rewrite set_objs_id. split; [done|]. split; [intros s' Ho; apply incr_run; by rewrite Ho|]. split; [by apply J_spend|done].
    - destruct (run_incr _ _ _ _ _ _ _ _ _ _ Hi1 Hv1 Hlt) as (s2 & Hr2 & Ha2 & Hi2 & _). apply incr_inv in Hr2 as (st2 & Hst2 & ->). exists st2.
      split; [unfold mbind, prog_bind; by rewrite (incr_run p s st1 Hst1)|]. split; [intros s' Ho; apply incr_run; by rewrite Ho|]. split; [exact Hi2|].
      exact (eq_trans Ha2 Ha1). }
  assert (wset st2 cl = wset (objs s) cl) as Hws.
  { pose proof (f_equal (fun a => watched <$> aclients a !! c) Ha2) as Hx. cbn in Hx. rewrite !lookup_fmap, Hc in Hx. by injection Hx. }
  assert (acl_of st2 cl = acl_of (objs s) cl) as Hacl.
  { pose proof (f_equal (fun a => aclients a !! c) Ha2) as Hx. cbn beta in Hx. rewrite (abs_client s c cl Hc), (abs_client (set_objs s st2) c cl Hc) in Hx. exact (inj Some _ _ Hx). }
  destruct (inv_watch_add n ci args own _ known (set_objs s st2) cl d p v k Hi2 Hc Hd Hk) as [Hi3 Ha3]; [cbn; by rewrite Hws|done|].
  cbn zeta in Hi3, Ha3. change (dbs (set_objs s st2)) with (dbs s) in *. change (clients (set_objs s st2)) with (clients s) in *. change (objs (set_objs s st2)) with st2 in *.
  set (cl' := set_wkeys cl (wkeys cl ++ [(ci, p)])) in *. set (s3 := set_clients _ _) in Hi3, Ha3.
  exists s3, cl'. split; [|split; [exact Hi3|split; [by cbn; rewrite lookup_insert_eq|]]].
  - unfold watchForKey. unfold mbind, prog_bind, the_client. rewrite Hc, Hcd, (run_already _ _ _ _ _ _ _ _ _ Hi Hsd) by (intros w Hw'; by apply Hsds).
    rewrite Hsv. change ((fun w : nat * loc => (w.1, sval (objs s) w.2)) <$> wkeys cl) with (wset (objs s) cl). rewrite bool_decide_eq_false_2 by done.
    rewrite (run_the_db s ci d Hd), (ptr_sds p s Hsd), Hsv. unfold mbind, prog_bind in Hentry. rewrite Hentry. unfold put_db.
    rewrite Hr2 by done. unfold put_client. done.
  - assert (acl_of (objs s3) cl' = set_awatched (acl_of (objs s) cl) (wset (objs s) cl ++ [(ci, k)])) as Hnew.
    { pose proof (f_equal (fun a => aclients a !! c) Ha3) as Hx. cbn beta in Hx. assert (clients s3 !! c = Some cl') as Hc3 by (by cbn; rewrite lookup_insert_eq).
      rewrite (abs_client s3 c cl' Hc3) in Hx. cbn [aclients set_aclients] in Hx. rewrite lookup_insert_eq, Hacl, Hws in Hx. exact (inj Some _ _ Hx). }
    split; [exact Hnew|]. rewrite Hnew, Ha3, Ha2. by rewrite Hacl, Hws.
Qed.


Lemma set_aclients_twice a m m' : set_aclients (set_aclients a m) m' = set_aclients a m'.
Proof. done. Qed.

(** What a state stands for, at the client. *)
Lemma abs_at s s' cl' x : clients s' !! c = Some cl' -> abs s' = set_aclients (abs s) (<[c := x]> (aclients (abs s))) -> acl_of (objs s') cl' = x.
Proof.
  intros Hc Ha. pose proof (f_equal (fun a => aclients a !! c) Ha) as Hx. cbn beta in Hx. rewrite (abs_client s' c cl' Hc) in Hx.
  cbn [aclients set_aclients] in Hx. rewrite lookup_insert_eq in Hx. exact (inj Some _ _ Hx).
Qed.

Lemma run_watches n ci args own known (l : list (loc * strval * bytes)) : texts_in args l -> forall s cl,
  J (2 * length l + n) ci args own known s -> clients s !! c = Some cl ->
  exists s' cl', each l.*1.*1 (watchForKey c) s = Some (tt, s') /\ J n ci args own known s' /\ clients s' !! c = Some cl' /\
    abs s' = set_aclients (abs s) (<[c := set_awatched (acl_of (objs s) cl) (foldl (watch_key ci) (wset (objs s) cl) l.*2)]> (aclients (abs s))).
Proof.
  induction l as [|[[p v] k] l IH]; intros Hl s cl Hi Hc.
  { exists s, cl. cbn [each fmap list_fmap foldl]. split; [done|]. split; [done|]. split; [done|]. rewrite insert_id; [by destruct (abs s)|by apply abs_client]. }
  destruct (Hl ((p, v), k) ltac:(by left)) as [Hin Hk]. cbn in Hin, Hk.
  destruct (run_watch (2 * length l + n) ci args own known s p v k cl) as (s1 & cl1 & Hr1 & Hi1 & Hc1 & Hac1 & Ha1); [|done..|].
  { eapply (J_less rest c); [|exact Hi]. cbn. lia. }
  destruct (IH (fun x Hx => Hl x ltac:(by right)) s1 cl1 Hi1 Hc1) as (s' & cl' & Hr & Hi' & Hc' & Ha'). exists s', cl'.
  split; [|split; [exact Hi'|split; [exact Hc'|]]].
  - cbn [each fmap list_fmap fst]. unfold mbind, prog_bind. by rewrite Hr1.
  - rewrite Ha', Ha1, set_aclients_twice. cbn [aclients set_aclients]. rewrite insert_insert_eq, Hac1. do 3 f_equal.
    change (wset (objs s1) cl1) with (watched (acl_of (objs s1) cl1)). by rewrite Hac1.
Qed.

Lemma sim_watch n ci own args n0 keys :
  texts args (n0 :: keys) ->
  sim (J (2 * length keys + (1 + n)) ci args own []) (watchCommand c) (s_watch c keys) (fun _ _ => after n own (n0 :: keys)).
Proof.
  intros Ht. rewrite <- (texts_values _ _ Ht). apply texts_cons in Ht as (p & v & os & -> & H0 & Ht).
  destruct (texts_zip _ _ Ht) as (l & <- & <- & Hl). rewrite length_fmap. set (args := (p, v) :: l.*1).
  intros s Hs b y Hy. destruct (inv_cur _ _ _ _ _ _ _ _ Hs) as (cl & Hc & Hargs & Hcd).
  unfold watchCommand, s_watch, the_client, s_client, mbind, prog_bind in Hy |- *. rewrite Hc. rewrite (abs_client s c cl Hc) in Hy. cbn [multi acl_of] in Hy.
  destruct (cl_has cl REDIS_MULTI).
  - assert (sim (J (2 * length l + (1 + n)) ci args own []) (addReplyError c (bytes_of_string "WATCH inside MULTI is not allowed"))
      (s_reply c (error (bytes_of_string "WATCH inside MULTI is not allowed"))) (fun _ _ => after n own (values args))) as Herr.
    { replace (2 * length l + (1 + n))%nat with (Datatypes.S (2 * length l + n)) by lia. eapply sim_end; [|by apply sim_error|done]. lia. }
    exact (Herr s Hs b y Hy).
  - destruct (run_watches (1 + n) ci args own [] l) with (s := s) (cl := cl) as (s1 & cl1 & Hr1 & Hi1 & Hc1 & Ha1); [|done..|].
    { intros x Hx. destruct (Hl x Hx) as [Hin Hk]. split; [by right|done]. }
    rewrite Hargs. change (drop 1 args.*1) with l.*1.*1. rewrite Hr1.
    assert (sim (J (1 + n) ci args own []) (addReply c (ok shared)) (s_reply c ok_text) (fun _ _ => after n own (values args))) as Hok.
    { eapply sim_end; [|by apply sim_text; [done|shared]|done]. lia. }
    apply (Hok s1 Hi1 b y). rewrite Ha1. rewrite <- Hy. cbn [in_db acl_of watched]. by rewrite Hcd.
Qed.

(** ** UNWATCH *)

Lemma del_client_elem l : c ∈ l -> exists l', del_client l c = Some l'.
Proof.
  induction l as [|x l IH]; [by intros ?%not_elem_of_nil|]. intros Hc. cbn. case_bool_decide as Hx; [by eexists|].
  apply elem_of_cons in Hc as [->|Hc]; [done|]. destruct (IH Hc) as [l' ->]. by eexists.
Qed.

Lemma run_unwatch_key n ci args own known s cl w r :
  J n ci args own known s -> clients s !! c = Some cl -> wkeys cl = w :: r ->
  exists s', unwatch_key c w s = Some (tt, s') /\ J n ci args own known s' /\ clients s' = <[c := set_wkeys cl r]> (clients s) /\
    abs s' = set_aclients (abs s) (<[c := set_awatched (acl_of (objs s) cl) (wset (objs s) (set_wkeys cl r))]> (aclients (abs s))).
Proof.
  destruct w as [i key]. intros Hi Hc Hwk. destruct (inv_clients _ _ _ _ _ _ _ _ Hi c cl Hc) as (_ & _ & _ & _ & Hsds & _).
  destruct (Hsds (i, key)) as [Hlt Hsd]; [rewrite Hwk; by left|]. cbn in Hlt, Hsd. destruct (lookup_lt_is_Some_2 _ _ Hlt) as [d Hd].
  set (k := sval (objs s) key). assert (c ∈ watchers d k) as Hin.
  { apply (watch_key_count _ _ _ _ _ _ _ _ _ Hi Hd cl Hc). unfold wset. rewrite Hwk. by left. }
  unfold watchers in Hin. destruct (watched_keys d !! k) as [e|] eqn:He; [|by apply not_elem_of_nil in Hin].
  destruct (del_client_elem _ Hin) as [l Hl]. destruct (inv_unwatch _ _ _ _ _ _ _ _ _ _ _ _ Hi Hc Hwk Hd e He Hl) as (v & ve & Hg). cbn zeta in Hg.
  fold k in Hg. destruct Hg as [Hi1 Ha1].
  lazymatch type of Hi1 with _ ?x => set (s1 := x) in * end.
  assert (exists st, J n ci args own known (set_objs s1 st) /\ unwatch_key c (i, key) s = Some (tt, set_objs s1 st) /\ abs (set_objs s1 st) = abs s1)
    as (st & Hi' & Hrun & Ha').
  2: { exists (set_objs s1 st). split; [exact Hrun|]. split; [exact Hi'|]. split; [done|exact (eq_trans Ha' Ha1)]. }
  destruct l as [|x l].
  - destruct (run_decr _ _ _ _ _ _ _ _ _ _ Hi1) as (s2 & Hr2 & Ha2 & Hi2). apply decr_inv in Hr2 as (st2 & Hst2 & ->).
    destruct (run_decr _ _ _ _ _ _ _ _ _ _ Hi2) as (s3 & Hr3 & Ha3 & Hi3). apply decr_inv in Hr3 as (st3 & Hst3 & ->).
    exists st3. split; [exact Hi3|]. split; [|exact (eq_trans Ha3 Ha2)].
    unfold unwatch_key, mbind, prog_bind. cbn [fst snd]. rewrite (run_the_db s i d Hd), (ptr_sds key s Hsd). fold k. unfold opt. rewrite He, Hl. unfold put_db.
    rewrite (decr_run _ _ st2) by done. unfold the_client. cbn [clients set_objs set_dbs]. rewrite Hc, Hwk. unfold put_client. by rewrite (decr_run _ _ st3).
  - destruct (run_decr _ _ _ _ _ _ _ _ _ _ Hi1) as (s2 & Hr2 & Ha2 & Hi2). apply decr_inv in Hr2 as (st2 & Hst2 & ->).
    exists st2. split; [exact Hi2|]. split; [|exact Ha2].
    unfold unwatch_key, mbind, prog_bind. cbn [fst snd]. rewrite (run_the_db s i d Hd), (ptr_sds key s Hsd). fold k. unfold opt. rewrite He, Hl. unfold put_db.
    unfold the_client. cbn [clients set_objs set_dbs]. rewrite Hc, Hwk. unfold put_client. by rewrite (decr_run _ _ st2).
Qed.


Lemma set_wkeys_twice cl w w' : set_wkeys (set_wkeys cl w) w' = set_wkeys cl w'.
Proof. done. Qed.

Lemma run_unwatchAll n ci args own known s cl :
  J n ci args own known s -> clients s !! c = Some cl ->
  exists s', unwatchAllKeys c s = Some (tt, s') /\ J n ci args own known s' /\ clients s' = <[c := set_wkeys cl []]> (clients s) /\
    abs s' = set_aclients (abs s) (<[c := set_awatched (acl_of (objs s) cl) []]> (aclients (abs s))).
Proof.
  intros Hi Hc. unfold unwatchAllKeys, the_client, mbind, prog_bind. rewrite Hc.
  assert (forall l s cl, J n ci args own known s -> clients s !! c = Some cl -> wkeys cl = l ->
    exists s', each l (unwatch_key c) s = Some (tt, s') /\ J n ci args own known s' /\ clients s' = <[c := set_wkeys cl []]> (clients s) /\
      abs s' = set_aclients (abs s) (<[c := set_awatched (acl_of (objs s) cl) []]> (aclients (abs s)))) as Hloop; [|by apply Hloop].
  clear s cl Hi Hc. induction l as [|w l IH]; intros s cl Hi Hc Hw; cbn [each].
  - exists s. split; [done|]. split; [done|]. assert (set_wkeys cl [] = cl) as -> by (destruct cl; cbn in *; by subst).
    assert (set_awatched (acl_of (objs s) cl) [] = acl_of (objs s) cl) as -> by (unfold acl_of, set_awatched, wset; cbn; by rewrite Hw).
    rewrite !insert_id; [by destruct (abs s)|by apply abs_client|done].
  - destruct (run_unwatch_key _ _ _ _ _ _ _ _ _ Hi Hc Hw) as (s1 & Hr1 & Hi1 & Hc1 & Ha1). unfold mbind, prog_bind. rewrite Hr1.
    assert (clients s1 !! c = Some (set_wkeys cl l)) as Hcl1 by (by rewrite Hc1, lookup_insert_eq).
    destruct (IH s1 (set_wkeys cl l) Hi1 Hcl1 eq_refl) as (s' & Hr & Hi' & Hc' & Ha'). exists s'. split; [exact Hr|]. split; [done|].
    split; [by rewrite Hc', Hc1, insert_insert_eq, set_wkeys_twice|].
    rewrite Ha', (abs_at _ _ _ _ Hcl1 Ha1), Ha1, set_aclients_twice. cbn [aclients set_aclients]. by rewrite insert_insert_eq.
Qed.

(** The flags of the current client. *)
Lemma run_flags n ci args own known s cl f (m dc de : bool) :
  J n ci args own known s -> clients s !! c = Some cl -> same_reply_flags (rc cl) f ->
  (forall g, g ∈ [REDIS_FORCE_AOF; REDIS_FORCE_REPL] -> has (set_flags (rc cl) f) g = has (rc cl) g) ->
  has (set_flags (rc cl) f) REDIS_MULTI = m -> has (set_flags (rc cl) f) REDIS_DIRTY_CAS = dc -> has (set_flags (rc cl) f) REDIS_DIRTY_EXEC = de ->
  let s' := set_clients s (<[c := set_rc cl (set_flags (rc cl) f)]> (clients s)) in
  J n ci args own known s' /\ abs s' = set_aclients (abs s) (<[c := set_marks (acl_of (objs s) cl) m dc de]> (aclients (abs s))).
Proof.
  intros Hi Hc Hf Hforce <- <- <- s'. destruct (inv_clients _ _ _ _ _ _ _ _ Hi c cl Hc) as (_ & _ & [F1 F2] & _).
  split; [|unfold s'; by rewrite abs_put_client, acl_flags].
  apply (inv_flags rest c); [done|done|done|..]; (rewrite Hforce; [done|]).
  - by left.
  - right. by left.
Qed.

Lemma sim_unwatch n ci own args n0 :
  texts args [n0] -> sim (J (1 + n) ci args own []) (unwatchCommand c) (s_unwatch c) (fun _ _ => after n own [n0]).
Proof.
  intros Ht. rewrite <- (texts_values _ _ Ht). intros s Hs b y Hy. destruct (inv_cur _ _ _ _ _ _ _ _ Hs) as (cl & Hc & Hargs & Hcd).
  destruct (run_unwatchAll _ _ _ _ _ _ _ Hs Hc) as (s1 & Hr1 & Hs1 & Hc1 & Ha1).
  assert (clients s1 !! c = Some (set_wkeys cl [])) as Hcl1 by (by rewrite Hc1, lookup_insert_eq). set (cl1 := set_wkeys cl []) in *.
  destruct (run_flags _ _ _ _ _ s1 cl1 (Z.land (flags (rc cl1)) (Z.lnot REDIS_DIRTY_CAS)) (cl_has cl REDIS_MULTI) false (cl_has cl REDIS_DIRTY_EXEC) Hs1 Hcl1) as [Hs2 Ha2].
  { by apply clear_reply_flags. }
  { intros g [-> | [-> | []%not_elem_of_nil]%elem_of_cons]%elem_of_cons; by apply has_clear_other. }
  { by apply has_clear_other. }
  { by apply has_clear_same. }
  { by apply has_clear_other. }
  cbn zeta in Hs2, Ha2. set (s2 := set_clients _ _) in Hs2, Ha2.
  assert (sim (J (1 + n) ci args own []) (addReply c (ok shared)) (s_reply c ok_text) (fun _ _ => after n own (values args))) as Hok.
  { eapply sim_end; [|by apply sim_text; [done|shared]|done]. lia. }
  unfold s_unwatch, s_client, mbind, prog_bind in Hy. rewrite (abs_client s c cl Hc) in Hy.
  destruct (Hok s2 Hs2 b y) as (r & s3 & Hr3 & Ha3 & Hq).
  { rewrite Ha2, (abs_at _ _ _ _ Hcl1 Ha1), Ha1, set_aclients_twice. cbn [aclients set_aclients]. rewrite insert_insert_eq. exact Hy. }
  exists r, s3. split; [|done]. unfold unwatchCommand, mbind, prog_bind. rewrite Hr1. unfold the_client. rewrite Hcl1. exact Hr3.
Qed.

End Facts.
