(* ===== verification/MultiFacts.v ===== *)
(** * The transactions and the execution of commands simulate the specification *)

From Stdlib Require Import ZArith Lia String.
From stdpp Require Import base numbers list gmap.
From S2P Require Import Prelude Util Object Reply ReplyFacts Server Watch Db Strings Multi KeySpec ServerFacts DbFacts StringFacts KeyFacts WatchFacts.

Open Scope Z_scope.

Section Facts.
Context `{E : Env} (rest : loc -> Z) (c : cid).
Hypothesis zmalloc_bound : forall n, 0 <= n -> 0 <= zmalloc_size n <= 2 * n + 4096.

Abbreviation J := (J rest c).
Abbreviation sim := (simulates abs).
Abbreviation after := (after rest c).
Implicit Types (args own : list (loc * strval)) (known : list (nat * bytes * option dbval * strval)).

(** ** MULTI, DISCARD *)

(** What the transaction flags are after [f] is set or cleared. *)
Lemma run_or n ci args own known s cl f :
  J n ci args own known s -> clients s !! c = Some cl -> f ∈ [REDIS_MULTI; REDIS_DIRTY_CAS; REDIS_DIRTY_EXEC] ->
  let s' := set_clients s (<[c := or_flags cl f]> (clients s)) in
  let a := acl_of (objs s) cl in
  J n ci args own known s' /\ abs s' = set_aclients (abs s) (<[c := set_marks a (multi a || bool_decide (f = REDIS_MULTI))
    (dirty_cas a || bool_decide (f = REDIS_DIRTY_CAS)) (dirty_exec a || bool_decide (f = REDIS_DIRTY_EXEC))]> (aclients (abs s))).
Proof.
  intros Hi Hc Hf s' a. unfold s', or_flags. apply (run_flags rest c); [done|done|..].
  - apply or_reply_flags. by repeat (apply elem_of_cons in Hf as [->|Hf]); [..|by apply not_elem_of_nil in Hf].
  - intros g Hg. rewrite has_or. repeat (apply elem_of_cons in Hg as [->|Hg]); [..|by apply not_elem_of_nil in Hg];
      (repeat (apply elem_of_cons in Hf as [->|Hf]); [..|by apply not_elem_of_nil in Hf]); by rewrite orb_false_r.
  - rewrite has_or. f_equal. repeat (apply elem_of_cons in Hf as [->|Hf]); [..|by apply not_elem_of_nil in Hf]; done.
  - rewrite has_or. f_equal. repeat (apply elem_of_cons in Hf as [->|Hf]); [..|by apply not_elem_of_nil in Hf]; done.
  - rewrite has_or. f_equal. repeat (apply elem_of_cons in Hf as [->|Hf]); [..|by apply not_elem_of_nil in Hf]; done.
Qed.

Lemma sim_multi n ci own args n0 :
  texts args [n0] -> sim (J (1 + n) ci args own []) (multiCommand c) (s_multi c) (fun _ _ => after n own [n0]).
Proof.
  intros Ht. rewrite <- (texts_values _ _ Ht). intros s Hs b y Hy. destruct (inv_cur _ _ _ _ _ _ _ _ Hs) as (cl & Hc & Hargs & Hcd).
  unfold multiCommand, s_multi, the_client, s_client, mbind, prog_bind in Hy |- *. rewrite Hc. rewrite (abs_client s c cl Hc) in Hy. cbn [multi acl_of] in Hy.
  destruct (cl_has cl REDIS_MULTI) eqn:Hm.
  - assert (sim (J (1 + n) ci args own []) (addReplyError c (bytes_of_string "MULTI calls can not be nested"))
      (s_reply c (error (bytes_of_string "MULTI calls can not be nested"))) (fun _ _ => after n own (values args))) as Herr.
    { eapply sim_end; [|by apply sim_error|done]. lia. }
    exact (Herr s Hs b y Hy).
  - destruct (run_or _ _ _ _ _ s cl REDIS_MULTI Hs Hc) as [Hs1 Ha1]; [by left|]. cbn zeta in Hs1, Ha1.
    assert (sim (J (1 + n) ci args own []) (addReply c (ok shared)) (s_reply c ok_text) (fun _ _ => after n own (values args))) as Hok.
    { eapply sim_end; [|by apply sim_text; [done|shared]|done]. lia. }
    apply (Hok _ Hs1 b y). rewrite Ha1. cbn [multi dirty_cas dirty_exec acl_of]. rewrite Hm, !orb_false_r. exact Hy.
Qed.

(** The strings of objects in use. *)
Lemma list_vals st (ps : list loc) : (forall p, p ∈ ps -> sds_at st p) ->
  exists l, l.*1 = ps /\ Forall (val_at st) l /\ texts l (sval st <$> ps).
Proof.
  induction ps as [|p ps IH]; intros Hps; [exists []; by repeat constructor|]. destruct IH as (l & <- & Hl & Hk); [intros q Hq; apply Hps; by right|].
  destruct (Hps p ltac:(by left)) as (o & Ho & Hs). exists ((p, val o) :: l). split; [done|]. split; [by constructor; [exists o|]|].
  constructor; [|done]. cbn. unfold sval. rewrite Ho. by destruct (val o).
Qed.

(** A queued command: its line of the table, its arguments and their strings. *)
Abbreviation queued_cmd := (option redisCommand * list (loc * strval) * list bytes)%type.
Definition to_multi (q : queued_cmd) : multiCmd := mk_multi q.1.1 q.1.2.*1.
Definition to_queue (q : queued_cmd) : option redisCommand * list bytes := (q.1.1, q.2).
Definition queue_refs (qs : list queued_cmd) : list (loc * strval) := qs ≫= (fun q => q.1.2).

Lemma queue_refs_argv qs : (queue_refs qs).*1 = (to_multi <$> qs) ≫= mc_argv.
Proof. induction qs as [|q qs IH]; [done|]. change (queue_refs (q :: qs)) with (q.1.2 ++ queue_refs qs). rewrite fmap_app, IH. done. Qed.

Lemma queue_vals st (ms : list multiCmd) : (forall mc p, mc ∈ ms -> p ∈ mc_argv mc -> sds_at st p) ->
  exists qs, ms = to_multi <$> qs /\ (fun mc => (mc_cmd mc, sval st <$> mc_argv mc)) <$> ms = to_queue <$> qs /\
    Forall (val_at st) (queue_refs qs) /\ Forall (fun q => texts q.1.2 q.2) qs.
Proof.
  induction ms as [|mc ms IH]; intros Hms; [exists []; by repeat constructor|].
  destruct IH as (qs & Hqs & Hq & Hv & Ht); [intros mc' p Hmc; apply Hms; by right|].
  destruct (list_vals st (mc_argv mc)) as (l & Hl & Hlv & Hlt); [intros p; apply Hms; by left|].
  exists ((mc_cmd mc, l, sval st <$> mc_argv mc) :: qs). cbn [fmap list_fmap]. split; [|split; [|split]].
  - rewrite <- Hqs. unfold to_multi. cbn. rewrite Hl. by destruct mc.
  - by f_equal.
  - apply Forall_app. by split.
  - by constructor.
Qed.

(** [discardTransaction] when the references of the queue are held by the program. *)
Lemma run_discard n ci args own s cl ex (l : list (loc * strval)) :
  J n ci args (l ++ own) [] s -> clients s !! c = Some cl -> mstate cl = [] -> ex ≫= mc_argv = l.*1 ->
  exists s', discardTransaction c (set_clients s (<[c := set_mstate cl ex]> (clients s))) = Some (tt, s') /\ J n ci args own [] s' /\
    abs s' = set_aclients (abs s) (<[c := set_awatched (set_marks (acl_of (objs s) cl) false false false) []]> (aclients (abs s))).
Proof.
  intros Hi Hc Hm Hex. set (s0 := set_clients s (<[c := set_mstate cl ex]> (clients s))).
  destruct (run_decrs _ _ _ _ _ _ _ _ _ Hi) as (st & Hr1 & Hi1 & Ha1). set (s1 := set_objs s st) in *.
  assert (clients s1 !! c = Some cl) as Hc1 by done.
  assert (acl_of st cl = acl_of (objs s) cl) as Hac.
  { pose proof (f_equal (fun a => aclients a !! c) Ha1) as Hx. cbn beta in Hx. rewrite (abs_client s c cl Hc), (abs_client s1 c cl Hc1) in Hx. exact (inj Some _ _ Hx). }
  set (all := Z.lor REDIS_MULTI (Z.lor REDIS_DIRTY_CAS REDIS_DIRTY_EXEC)).
  destruct (run_flags rest c _ _ _ _ _ s1 cl (Z.land (flags (rc cl)) (Z.lnot all)) false false false Hi1 Hc1) as [Hi2 Ha2].
  { by apply clear_reply_flags. }
  { intros g [-> | [-> | []%not_elem_of_nil]%elem_of_cons]%elem_of_cons; by apply has_clear_other. }
  { by apply has_clear_same. }
  { by apply has_clear_same. }
  { by apply has_clear_same. }
  cbn zeta in Hi2, Ha2. set (cl2 := set_rc cl _) in Hi2, Ha2. set (s2 := set_clients s1 (<[c := cl2]> (clients s1))) in *.
  assert (clients s2 !! c = Some cl2) as Hc2 by (cbn; by rewrite lookup_insert_eq).
  destruct (run_unwatchAll rest c _ _ _ _ _ _ _ Hi2 Hc2) as (s3 & Hr3 & Hi3 & _ & Ha3). exists s3. split; [|split; [exact Hi3|]].
  - assert (clients s0 !! c = Some (set_mstate cl ex)) as Hc0 by (cbn; by rewrite lookup_insert_eq).
    unfold discardTransaction, freeClientMultiState, initClientMultiState, mbind, prog_bind. unfold the_client at 1. rewrite Hc0. cbn [mstate set_mstate].
    rewrite each_bind, Hex, Hr1 by done. unfold the_client at 1. cbn [clients set_objs s0 set_clients]. rewrite lookup_insert_eq. unfold put_client.
    assert (set_mstate (set_mstate cl ex) [] = cl) as -> by (destruct cl; cbn in *; by subst).
    unfold the_client. cbn [clients set_clients set_objs]. rewrite !lookup_insert_eq. rewrite <- Hr3. f_equal. unfold s2, s1, s0, set_clients, set_objs. cbn.
    by rewrite !insert_insert_eq.
  - rewrite Ha3, (abs_at c s1 s2 cl2 _ Hc2 Ha2), Ha2, set_aclients_twice, Ha1. cbn [aclients set_aclients]. rewrite insert_insert_eq.
    change (objs s1) with st. by rewrite Hac.
Qed.


(** The queue goes from the client to the program. *)
Lemma run_take_queue n ci args own s cl :
  J n ci args own [] s -> clients s !! c = Some cl ->
  exists qs, mstate cl = to_multi <$> qs /\ queue (acl_of (objs s) cl) = to_queue <$> qs /\ Forall (fun q => texts q.1.2 q.2) qs /\
  let s' := set_clients s (<[c := set_mstate cl []]> (clients s)) in
  J n ci args (queue_refs qs ++ own) [] s' /\ abs s' = set_aclients (abs s) (<[c := set_queue (acl_of (objs s) cl) []]> (aclients (abs s))).
Proof.
  intros Hi Hc. destruct (inv_clients _ _ _ _ _ _ _ _ Hi c cl Hc) as (B1 & B2 & [B3 B3'] & B4 & B5 & B6).
  destruct (queue_vals (objs s) (mstate cl) B4) as (qs & Hqs & Hq & Hv & Ht).
  exists qs. split; [done|]. split; [done|]. split; [done|]. intros s'. split; [|unfold s'; by rewrite abs_put_client].
  destruct (inv_cur _ _ _ _ _ _ _ _ Hi) as (cl0 & Hc0 & Hargs & Hcd). rewrite Hc in Hc0. injection Hc0 as <-.
  apply (inv_put_client rest _ c ci args own [] s c cl _ ci args (queue_refs qs ++ own)); try done.
  - by apply same_rc_refl.
  - intros mc p Hmc. cbn in Hmc. by apply not_elem_of_nil in Hmc.
  - intros p. unfold cl_refs. cbn [argv mstate wkeys set_mstate mbind list_bind]. rewrite fmap_app, occs_app, queue_refs_argv, <- Hqs.
    change (occs [] p) with 0. lia.
  - by rewrite decide_True by done.
  - pose proof (inv_vals _ _ _ _ _ _ _ _ Hi) as Hva. apply Forall_app in Hva as [? ?]. apply Forall_app. split; [done|]. by apply Forall_app.
Qed.

Lemma run_discardTransaction n ci args own s :
  J n ci args own [] s ->
  exists s', discardTransaction c s = Some (tt, s') /\ J n ci args own [] s' /\ s_discard c (abs s) = Some (tt, abs s').
Proof.
  intros Hs. destruct (inv_cur _ _ _ _ _ _ _ _ Hs) as (cl & Hc & Hargs & Hcd).
  destruct (run_take_queue _ _ _ _ s cl Hs Hc) as (qs & Hqs & _ & _ & Hs0 & Ha0). pose proof (queue_refs_argv qs) as Hl. rewrite <- Hqs in Hl.
  cbn zeta in Hs0, Ha0. set (cl0 := set_mstate cl []) in *.
  set (s0 := set_clients s (<[c := cl0]> (clients s))) in *. assert (clients s0 !! c = Some cl0) as Hc0 by (cbn; by rewrite lookup_insert_eq).
  destruct (run_discard _ _ _ _ s0 cl0 (mstate cl) (queue_refs qs) Hs0 Hc0 eq_refl (eq_sym Hl)) as (s1 & Hr1 & Hs1 & Ha1).
  assert (set_clients s0 (<[c := set_mstate cl0 (mstate cl)]> (clients s0)) = s) as Hback.
  { unfold s0, set_clients. cbn. rewrite insert_insert_eq. assert (set_mstate cl0 (mstate cl) = cl) as -> by (by destruct cl). rewrite insert_id by done. by destruct s. }
  rewrite Hback in Hr1. exists s1. split; [done|]. split; [done|]. rewrite Ha1, Ha0, set_aclients_twice. cbn [aclients set_aclients]. rewrite insert_insert_eq.
  unfold s_discard, s_client, s_put, mbind, prog_bind. by rewrite (abs_client s c cl Hc).
Qed.

Lemma sim_discards n ci own args n0 :
  texts args [n0] -> sim (J (1 + n) ci args own []) (discardCommand c) (s_discards c) (fun _ _ => after n own [n0]).
Proof.
  intros Ht. rewrite <- (texts_values _ _ Ht). intros s Hs b y Hy. destruct (inv_cur _ _ _ _ _ _ _ _ Hs) as (cl & Hc & Hargs & Hcd).
  unfold discardCommand, s_discards, the_client, s_client, mbind, prog_bind in Hy |- *. rewrite Hc. rewrite (abs_client s c cl Hc) in Hy. cbn [multi acl_of] in Hy.
  destruct (cl_has cl REDIS_MULTI) eqn:Hm; cbn [negb].
  - destruct (run_discardTransaction _ _ _ _ s Hs) as (s1 & -> & Hs1 & Ha1). rewrite Ha1 in Hy.
    assert (sim (J (1 + n) ci args own []) (addReply c (ok shared)) (s_reply c ok_text) (fun _ _ => after n own (values args))) as Hok.
    { eapply sim_end; [|by apply sim_text; [done|shared]|done]. lia. }
    by apply (Hok _ Hs1 b y).
  - assert (sim (J (1 + n) ci args own []) (addReplyError c (bytes_of_string "DISCARD without MULTI"))
      (s_reply c (error (bytes_of_string "DISCARD without MULTI"))) (fun _ _ => after n own (values args))) as Herr.
    { eapply sim_end; [|by apply sim_error|done]. lia. }
    exact (Herr s Hs b y Hy).
Qed.

Lemma run_flagTransaction n ci args own known s :
  J n ci args own known s ->
  exists s', flagTransaction c s = Some (tt, s') /\ J n ci args own known s' /\ s_flag c (abs s) = Some (tt, abs s').
Proof.
  intros Hi. destruct (inv_cur _ _ _ _ _ _ _ _ Hi) as (cl & Hc & Hargs & Hcd).
  unfold flagTransaction, s_flag, the_client, s_client, s_put, mbind, prog_bind. rewrite Hc, (abs_client s c cl Hc). cbn [multi acl_of].
  destruct (cl_has cl REDIS_MULTI) eqn:Hm.
  - destruct (run_or _ _ _ _ _ s cl REDIS_DIRTY_EXEC Hi Hc) as [Hs1 Ha1]; [right; right; by left|]. cbn zeta in Hs1, Ha1.
    eexists. split; [done|]. split; [exact Hs1|]. rewrite Ha1. cbn [multi dirty_cas dirty_exec acl_of]. rewrite Hm. change (bool_decide (REDIS_DIRTY_EXEC = REDIS_DIRTY_CAS)) with false. change (bool_decide (REDIS_DIRTY_EXEC = REDIS_DIRTY_EXEC)) with true.
    by rewrite !orb_false_r, orb_true_r.
  - exists s. split; [done|]. split; [done|]. rewrite insert_id by (by apply abs_client). by destruct (abs s).
Qed.

(** A command is queued. *)
Lemma run_queue n ci args own s vals m :
  J (length args + n) ci args own [] s -> texts args vals -> cmd_of c s = Some m ->
  exists s', queueMultiCommand c s = Some (tt, s') /\ J n ci args own [] s' /\
    exists a, aclients (abs s) !! c = Some a /\ abs s' = set_aclients (abs s) (<[c := set_queue a (queue a ++ [(Some m, vals)])]> (aclients (abs s))).
Proof.
  intros Hi Ht Hm. destruct (run_incrs _ _ _ _ _ _ _ args s Hi) as (st & Hr1 & Hi1 & Ha1); [intros x Hx; apply elem_of_app; by left|].
  destruct (inv_cur _ _ _ _ _ _ _ _ Hi) as (cl & Hc & Hargs & Hcd). set (s1 := set_objs s st) in *. assert (clients s1 !! c = Some cl) as Hc1 by done.
  assert (cmd cl = Some m) as Hcmd by (unfold cmd_of in Hm; by rewrite Hc in Hm).
  destruct (inv_clients _ _ _ _ _ _ _ _ Hi1 c cl Hc1) as (B1 & B2 & [B3 B3'] & B4 & B5 & B6).
  set (cl' := set_mstate cl (mstate cl ++ [mk_multi (cmd cl) (argv cl)])).
  assert (forall p, p ∈ argv cl -> sds_at st p) as Hsds.
  { intros p Hp. rewrite Hargs in Hp. apply list_elem_of_fmap in Hp as ([q v] & -> & Hin). cbn.
    assert (exists k, sds_of v = Some k) as [k Hk].
    { apply list_elem_of_lookup in Hin as [j Hj]. destruct (Forall2_lookup_l _ _ _ _ _ Ht Hj) as (k & _ & Hk). by exists k. }
    by destruct (arg_sds _ _ _ _ _ _ _ _ _ _ _ Hi1 Hin Hk) as (_ & ? & _). }
  exists (set_clients s1 (<[c := cl']> (clients s1))). split; [|split].
  - unfold queueMultiCommand, the_client, put_client, mbind, prog_bind. rewrite Hc. rewrite Hargs, Hr1 by done. unfold cl'. by rewrite Hargs.
  - apply (inv_put_client rest _ c ci args (args ++ own) [] s1 c cl cl' ci args own); try done.
    + by apply same_rc_refl.
    + intros mc p [Hmc|Hmc]%elem_of_app Hp; [by apply (B4 mc)|]. apply list_elem_of_singleton in Hmc as ->. by apply Hsds.
    + intros p. unfold cl_refs, cl'. cbn [argv mstate wkeys set_mstate]. rewrite bind_app, fmap_app, !occs_app. cbn [mbind list_bind mc_argv]. rewrite app_nil_r, Hargs. lia.
    + by rewrite decide_True by done.
    + pose proof (inv_vals _ _ _ _ _ _ _ _ Hi1) as Hva. apply Forall_app in Hva as [? Hva]. apply Forall_app in Hva as [? ?]. by apply Forall_app.
  - exists (acl_of (objs s) cl). split; [by apply abs_client|]. rewrite abs_put_client, Ha1. do 2 f_equal.
    assert (acl_of st cl = acl_of (objs s) cl) as Hac.
    { pose proof (f_equal (fun a => aclients a !! c) Ha1) as Hx. cbn beta in Hx. rewrite (abs_client s c cl Hc), (abs_client s1 c cl Hc1) in Hx. exact (inj Some _ _ Hx). }
    rewrite <- Hac. change (objs s1) with st. unfold cl', acl_of, set_queue. cbn. rewrite fmap_app. cbn. rewrite Hcmd. do 5 f_equal.
    rewrite Hargs, <- (texts_values _ _ Ht). unfold values. rewrite <- list_fmap_compose. apply list_fmap_ext. intros j x Hj. cbn.
    destruct (Forall2_lookup_l _ _ _ _ _ Ht Hj) as (k & _ & Hk). assert (x ∈ args) as Hin by (by apply list_elem_of_lookup_2 in Hj). destruct x as [q v].
    destruct (arg_sds _ _ _ _ _ _ _ _ _ _ _ Hi1 Hin Hk) as (Hsv & _). cbn in *. by rewrite Hsv, (sds_value _ _ Hk).
Qed.


(** ** The commands but EXEC *)

(** A bound of what a command costs. *)
Definition cost {A} (l : list A) : nat := 4 * length l + 9.

Lemma sim_use k n x ci args own (p : M unit) (am : S unit) m vals :
  sim (J (k + n) ci args own []) p am (fun _ _ => after n own vals) -> (k <= x)%nat ->
  sim (fun s => J (x + n) ci args own [] s /\ cmd_of c s = Some m) p (am;; mret vals) (fun _ vals => after n own vals).
Proof. intros Hs Hk. apply sim_keeping, sim_drop. eapply sim_less; [|exact Hs]. lia. Qed.

Lemma sim_use_cmd k n x ci args own (p : M unit) (am : S unit) m vals :
  sim (fun s => J (k + n) ci args own [] s /\ cmd_of c s = Some m) p am (fun _ _ => after n own vals) -> (k <= x)%nat ->
  sim (fun s => J (x + n) ci args own [] s /\ cmd_of c s = Some m) p (am;; mret vals) (fun _ vals => after n own vals).
Proof.
  intros Hs Hk. apply sim_keeping. eapply sim_weaken; [| |exact Hs]; [|done]. intros s [Hi Hm]. split; [|done]. eapply (J_less rest c); [|exact Hi]. lia.
Qed.

Lemma sim_use_time k n x ci args own (p : M unit) (am : S (list bytes)) m :
  sim (J (k + n) ci args own []) p am (fun _ vals => after n own vals) -> (k <= x)%nat ->
  sim (fun s => J (x + n) ci args own [] s /\ cmd_of c s = Some m) p am (fun _ vals => after n own vals).
Proof. intros Hs Hk. apply sim_drop. eapply sim_less; [|exact Hs]. lia. Qed.

Lemma texts_two args a b : texts args [a; b] -> exists x kp kv, args = [x; (kp, kv)] /\ sds_of kv = Some b /\ [a; b] = values [x; (kp, kv)].
Proof.
  intros Ht. pose proof (texts_values _ _ Ht) as Hv. apply texts_cons in Ht as (p & v & ? & -> & _ & Ht).
  apply texts_cons in Ht as (kp & kv & ? & -> & Hk & ->%texts_nil). by exists (p, v), kp, kv.
Qed.

Lemma texts_three args a b d : texts args [a; b; d] -> exists x kp kv vp vv,
  args = [x; (kp, kv); (vp, vv)] /\ sds_of kv = Some b /\ value vv = d /\ [a; b; d] = values [x; (kp, kv); (vp, vv)].
Proof.
  intros Ht. pose proof (texts_values _ _ Ht) as Hv. apply texts_cons in Ht as (p & v & ? & -> & _ & Ht).
  apply texts_cons in Ht as (kp & kv & ? & -> & Hk & Ht). apply texts_cons in Ht as (vp & vv & ? & -> & Hvv & ->%texts_nil).
  exists (p, v), kp, kv, vp, vv. split; [done|]. split; [done|]. split; [by apply sds_value|done].
Qed.

(** A command with the number of arguments that it has. *)
Ltac args0 vals := destruct vals as [|? ?]; [|by apply sim_fail].
Ltac args1 vals := destruct vals as [|? [|? ?]]; [by apply sim_fail| |by apply sim_fail].
Ltac args2 vals := destruct vals as [|? [|? [|? ?]]]; [by apply sim_fail|by apply sim_fail| |by apply sim_fail].
Ltac args3 vals := destruct vals as [|? [|? [|? [|? ?]]]]; [by apply sim_fail|by apply sim_fail|by apply sim_fail| |by apply sim_fail].
Ltac budget := unfold cost; cbn [length]; lia.

Lemma sim_queued n ci args own m n0 vals :
  texts args (n0 :: vals) -> m ∈ redisCommandTable ->
  sim (fun s => J (cost (n0 :: vals) + n) ci args own [] s /\ cmd_of c s = Some m) (run_queued (cmd_proc m) c)
    (s_queued m c (n0 :: vals)) (fun _ vals => after n own vals).
Proof.
  intros Ht Hm. unfold s_queued. cbn [drop]. destruct (cmd_proc m); cbn [run_queued].
  - args1 vals. apply texts_two in Ht as (x & kp & kv & -> & Hk & ->). eapply (sim_use 3); [by apply sim_get|budget].
  - destruct vals as [|k [|v opts]]; [by apply sim_fail|by apply sim_fail|]. eapply (sim_use_cmd 9); [by apply sim_set|budget].
  - args2 vals. eapply (sim_use_cmd 9); [by apply sim_setnx|budget].
  - args3 vals. eapply (sim_use_cmd 9); [by apply sim_setex|budget].
  - args3 vals. eapply (sim_use_cmd 9); [by apply sim_setex|budget].
  - args2 vals. eapply (sim_use 6); [by apply sim_append|budget].
  - args1 vals. apply texts_two in Ht as (x & kp & kv & -> & Hk & ->). eapply (sim_use 3); [by apply sim_strlen|budget].
  - eapply (sim_use (2 * length vals + 1)); [rewrite <- Nat.add_assoc; by apply sim_del|budget].
  - eapply (sim_use (2 * length vals + 1)); [rewrite <- Nat.add_assoc; by apply sim_exists_keys|budget].
  - args3 vals. eapply (sim_use 6); [by apply sim_setrange|budget].
  - args3 vals. eapply (sim_use 3); [by apply sim_getrange|budget].
  - args1 vals. apply texts_two in Ht as (x & kp & kv & -> & Hk & ->). eapply (sim_use 6); [by eapply sim_incrDecr|budget].
  - args1 vals. apply texts_two in Ht as (x & kp & kv & -> & Hk & ->). eapply (sim_use 6); [by eapply sim_incrDecr|budget].
  - eapply sim_pre; [intros s [Hi _]; exact (units_bound rest c _ _ _ _ _ _ Hi)|]. intros Hb.
    eapply (sim_use (3 * length vals + 1)); [rewrite <- Nat.add_assoc; apply sim_mget; [done|exact Ht|]|budget].
    unfold cost in Hb. cbn [length] in Hb. unfold zlen, LLONG_MAX. lia.
  - args2 vals. eapply (sim_use 6); [by apply (sim_increment rest c zmalloc_bound n ci own args n0 _ _ Some); [|intros z y Hz [= <-]]|budget].
  - args2 vals. eapply (sim_use 6); [apply (sim_increment rest c zmalloc_bound n ci own args n0 _ _ (fun z => ll_result (- z))); [done|]|budget].
    by intros z y _ [-> ?]%ll_result_range.
  - args2 vals. apply texts_three in Ht as (x & kp & kv & vp & vv & -> & Hk & <- & ->). eapply (sim_use 7); [by apply sim_getset|budget].
  - eapply (sim_use (4 * length vals + 1)); [rewrite <- Nat.add_assoc; by apply sim_msets|budget].
  - eapply (sim_use (4 * length vals + 1)); [rewrite <- Nat.add_assoc; by apply sim_msets|budget].
  - args1 vals. eapply (sim_use 1); [by apply sim_select|budget].
  - args2 vals. eapply (sim_use 6); [by apply sim_move|budget].
  - args2 vals. eapply (sim_use 8); [by apply sim_rename|budget].
  - args2 vals. eapply (sim_use 8); [by apply sim_rename|budget].
  - args2 vals. eapply (sim_use_time 6); [|budget]. eapply sim_bind; [apply sim_mstime|]. intros now ?. apply sim_and. intros <-. by apply sim_expires.
  - args2 vals. eapply (sim_use_time 6); [by apply sim_expires|budget].
  - args2 vals. eapply (sim_use_time 6); [|budget]. eapply sim_bind; [apply sim_mstime|]. intros now ?. apply sim_and. intros <-. by apply sim_expires.
  - args2 vals. eapply (sim_use_time 6); [by apply sim_expires|budget].
  - args0 vals. eapply (sim_use 1); [by apply sim_dbsize|budget].
  - args1 vals. eapply (sim_use 3); [by apply sim_type|budget].
  - args0 vals. eapply (sim_use 1); [by apply sim_multi|budget].
  - by apply sim_fail.
  - args0 vals. eapply (sim_use 1); [by apply sim_discards|budget].
  - args0 vals. eapply (sim_use 1); [by apply sim_flushdb|budget].
  - args1 vals. eapply (sim_use 3); [by apply sim_ttl|budget].
  - args1 vals. eapply (sim_use 3); [by apply sim_ttl|budget].
  - args1 vals. eapply (sim_use 1); [by apply sim_persist|budget].
  - eapply (sim_use (2 * length vals + 1)); [rewrite <- Nat.add_assoc; by apply sim_watch|budget].
  - args0 vals. eapply (sim_use 1); [by apply sim_unwatch|budget].
Qed.


(** ** Calls *)

(** The flags that force the propagation are clear. *)
Lemma force_none n ci args own known s cl :
  J n ci args own known s -> clients s !! c = Some cl -> Z.land (flags (rc cl)) force_flags = 0 /\ clear_flags cl force_flags = cl.
Proof.
  intros Hi Hc. destruct (inv_clients _ _ _ _ _ _ _ _ Hi c cl Hc) as (_ & _ & [F1 F2] & _).
  assert (Z.land (flags (rc cl)) force_flags = 0) as H0.
  { unfold cl_has, has in F1, F2. apply negb_false_iff, Z.eqb_eq in F1. apply negb_false_iff, Z.eqb_eq in F2.
    unfold force_flags. by rewrite Z.land_lor_distr_r, F1, F2. }
  split; [done|]. unfold clear_flags. rewrite <- Z.ldiff_land.
  pose proof (Z.lor_ldiff_and (flags (rc cl)) force_flags) as Hl. rewrite H0, Z.lor_0_r in Hl. rewrite Hl.
  destruct cl as [r ? ? ? ? ?]. by destruct r.
Qed.

Lemma put_same s cl : clients s !! c = Some cl -> put_client c cl s = Some (tt, s).
Proof. intros Hc. unfold put_client, set_clients. rewrite insert_id by done. by destruct s. Qed.

Lemma or_none cl : or_flags cl 0 = cl.
Proof. unfold or_flags. rewrite Z.lor_0_r. destruct cl as [r ? ? ? ? ?]. by destruct r. Qed.

Lemma run_feed n ci args own known s (b : bool) (e : list bytes -> event) :
  J n ci args own known s ->
  exists s', (if b then a ← arg_strings args.*1; tell (e a) else mret tt) s = Some (tt, s') /\ J n ci args own known s' /\ clients s' = clients s /\
    dirty s' = dirty s /\ (if b then s_tell (e (values args)) else mret tt) (abs s) = Some (tt, abs s').
Proof.
  intros Hi. destruct b; [|by exists s]. exists (set_trace s (trace s ++ [e (values args)])). split; [|split; [|done]].
  - unfold mbind, prog_bind. rewrite (run_arg_strings _ _ _ _ _ _ _ _ args Hi); [done|]. intros x Hx. by apply (args_vals _ _ _ _ _ _ _ _ _ Hi).
  - by apply (inv_fields _ _ _ _ _ _ _ s).
Qed.

Lemma run_propagate n ci args own known s i :
  J n ci args own known s ->
  exists s', propagate i args.*1 (Z.lor REDIS_PROPAGATE_REPL REDIS_PROPAGATE_AOF) s = Some (tt, s') /\ J n ci args own known s' /\
    clients s' = clients s /\ s_feed i (values args) (abs s) = Some (tt, abs s').
Proof.
  intros Hi. unfold propagate, s_feed, mbind, prog_bind. rewrite (run_arg_strings _ _ _ _ _ _ _ _ args Hi).
  2: { intros x Hx. by apply (args_vals _ _ _ _ _ _ _ _ _ Hi). }
  rewrite andb_true_r. destruct aof_on; (eexists; split; [done|]; split; [|done]); by apply (inv_fields _ _ _ _ _ _ _ s).
Qed.

(** [F] is what the command needs to know of the clients. *)
Lemma sim_call (F : gmap cid aclient -> Prop) run arun n x ci args own m vals :
  sim (fun s => J (x + n) ci args own [] s /\ cmd_of c s = Some m /\ F (aclients (abs s))) (run (cmd_proc m) c) (arun m c vals)
    (fun _ vals => after n own vals) ->
  values args = vals ->
  sim (fun s => J (x + n) ci args own [] s /\ cmd_of c s = Some m /\ F (aclients (abs s))) (call_with run c) (s_call arun c m vals)
    (fun _ _ s => exists ci' args', J n ci' args' own [] s).
Proof.
  intros Hrun <- s (Hs & Hm & HF) b y Hy. destruct (inv_cur _ _ _ _ _ _ _ _ Hs) as (cl & Hc & Hargs & Hcd).
  assert (cmd cl = Some m) as Hcmd by (unfold cmd_of in Hm; by rewrite Hc in Hm).
  destruct (force_none _ _ _ _ _ _ _ Hs Hc) as [H0 Hclear].
  set (mon := has_monitors && negb loading && (Z.land (cmd_flags m) (Z.lor REDIS_CMD_SKIP_MONITOR REDIS_CMD_ADMIN) =? 0)).
  destruct (run_feed _ _ _ _ _ _ mon (EFeedMonitors ci) Hs) as (s1 & Hr1 & Hs1 & Hc1 & Hd1 & Ha1).
  unfold s_call in Hy. unfold mbind at 1, prog_bind at 1 in Hy. unfold s_client at 1 in Hy. rewrite (abs_client s c cl Hc) in Hy.
  unfold mbind in Hy. unfold prog_bind at 1 in Hy. fold mon in Hy. cbn [in_db acl_of] in Hy. rewrite Hcd, Ha1 in Hy.
  unfold prog_bind, s_get_dirty in Hy. destruct (arun m c (values args) (abs s1)) as [[vals y2]|] eqn:Har; [|done].
  assert (cmd_of c s1 = Some m) as Hm1 by (unfold cmd_of; by rewrite Hc1).
  assert (F (aclients (abs s1))) as HF1.
  { pose proof (f_equal (fun r => match r with Some (_, a) => aclients a | None => ∅ end) Ha1) as Hac. cbn beta iota in Hac. rewrite <- Hac. by destruct mon. }
  destruct (Hrun s1 (conj Hs1 (conj Hm1 HF1)) vals y2 Har) as ([] & s2 & Hr2 & <- & (ci2 & args2 & Hs2 & <-)).
  destruct (inv_cur _ _ _ _ _ _ _ _ Hs2) as (cl2 & Hc2 & Hargs2 & Hcd2). destruct (force_none _ _ _ _ _ _ _ Hs2 Hc2) as [H2 Hclear2].
  unfold s_client in Hy. rewrite (abs_client s2 c cl2 Hc2) in Hy. cbn [in_db acl_of adirty abs] in Hy. rewrite Hcd2 in Hy.
  destruct (inv_clients _ _ _ _ _ _ _ _ Hs2 c cl2 Hc2) as (_ & _ & [F1 F2] & _).
  assert (exists s3, (if negb ((if negb ((if dirty s2 - dirty s1 <? 0 then 0 else dirty s2 - dirty s1) =? 0) then Z.lor 0 (Z.lor REDIS_PROPAGATE_REPL REDIS_PROPAGATE_AOF) else 0) =? 0)
      then propagate ci2 args2.*1 (if negb ((if dirty s2 - dirty s1 <? 0 then 0 else dirty s2 - dirty s1) =? 0) then Z.lor 0 (Z.lor REDIS_PROPAGATE_REPL REDIS_PROPAGATE_AOF) else 0) else mret tt) s2 = Some (tt, s3) /\
      J n ci2 args2 own [] s3 /\ clients s3 = clients s2 /\ b = tt /\ y = abs s3) as (s3 & Hr3 & Hs3 & Hc3 & -> & ->).
  { destruct (Z.ltb_spec (dirty s1) (dirty s2)).
    - rewrite (proj2 (Z.ltb_ge _ 0)) by lia. rewrite (proj2 (Z.eqb_neq (dirty s2 - dirty s1) 0)) by lia. cbn [negb].
      destruct (run_propagate _ _ _ _ _ _ ci2 Hs2) as (s3 & Hr3 & Hs3 & Hc3 & Ha3). exists s3. cbn -[propagate]. rewrite Ha3 in Hy. by injection Hy as <- <-.
    - exists s2. destruct (Z.ltb_spec (dirty s2 - dirty s1) 0); [|rewrite (proj2 (Z.eqb_eq (dirty s2 - dirty s1) 0)) by lia]; cbn; by injection Hy as <- <-. }
  exists tt, s3. split; [|split; [done|by exists ci2, args2]].
  unfold call_with, the_client, mbind, prog_bind. rewrite Hc, Hcmd. unfold opt. fold mon. rewrite Hargs, Hcd. unfold mbind, prog_bind in Hr1. rewrite Hr1.
  rewrite Hclear, put_same by (by rewrite Hc1). unfold get_dirty. rewrite Hr2, Hc2, F1, F2, Hargs2, Hcd2, Hr3, Hc3, Hc2, Hclear2, H0, or_none.
  apply put_same. by rewrite Hc3.
Qed.


Lemma sim_call_queued n ci args own m n0 vals :
  texts args (n0 :: vals) -> m ∈ redisCommandTable ->
  sim (fun s => J (cost (n0 :: vals) + n) ci args own [] s /\ cmd_of c s = Some m) (call_with run_queued c) (s_call s_queued c m (n0 :: vals))
    (fun _ _ s => exists ci' args', J n ci' args' own [] s).
Proof.
  intros Ht Hm. eapply sim_weaken; [| |apply (sim_call (fun _ => True) run_queued s_queued n (cost (n0 :: vals)) ci args own m (n0 :: vals)); [|by apply texts_values]].
  - intros s [Hs Hcm]. done.
  - done.
  - eapply sim_weaken; [| |apply (sim_queued n ci args own m n0 vals Ht Hm)]; [|done]. by intros s (Hs & Hcm & _).
Qed.

(** ** EXEC *)

Lemma cost_same {A B} (l : list A) (l' : list B) : length l = length l' -> cost l = cost l'.
Proof. unfold cost. lia. Qed.

(** A command that is in the queue. *)
Definition queued_ok (q : option redisCommand * list bytes) : Prop :=
  exists m, q.1 = Some m /\ m ∈ redisCommandTable /\ immediate (cmd_proc m) = false /\ q.2 <> [].

Definition queue_cost (l : list (option redisCommand * list bytes)) : nat := foldr (fun q n => cost q.2 + 1 + n)%nat 0%nat l.

Lemma queue_cost_cons q l : queue_cost (q :: l) = (cost q.2 + 1 + queue_cost l)%nat.
Proof. done. Qed.

Lemma sim_propagateMulti n ci args own known :
  sim (J (1 + n) ci args own known) (execCommandPropagateMulti c) (cl ← s_client c; s_feed (in_db cl) [bytes_of_string "MULTI"])
    (fun _ _ => J n ci args own known).
Proof.
  unfold execCommandPropagateMulti. eapply sim_create_string; [by vm_compute|]. intros p v Hv. apply sim_c_db. apply sim_s_client. intros cl ->. apply sim_drop.
  intros s Hs b y Hy. destruct (own_vals _ _ _ _ _ _ _ _ Hs) as [Hown _]. apply Forall_cons in Hown as [Hpv _].
  assert (exists s', propagate ci [p] (Z.lor REDIS_PROPAGATE_AOF REDIS_PROPAGATE_REPL) s = Some (tt, s') /\ J n ci args ((p, v) :: own) known s' /\
    s_feed ci [bytes_of_string "MULTI"] (abs s) = Some (tt, abs s')) as (s1 & Hr1 & Hs1 & Ha1).
  { unfold propagate, s_feed, mbind, prog_bind. change [p] with [(p, v)].*1. rewrite (run_arg_strings _ _ _ _ _ _ _ _ [(p, v)] Hs).
    2: { intros x Hx. apply list_elem_of_singleton in Hx as ->. done. }
    cbn [fmap list_fmap snd]. rewrite (sds_value _ _ Hv), andb_true_r. destruct aof_on; (eexists; split; [done|]; split; [|done]); by apply (inv_fields _ _ _ _ _ _ _ s). }
  rewrite Ha1 in Hy. injection Hy as <- <-. destruct (run_decr _ _ _ _ _ _ _ _ _ _ Hs1) as (s2 & Hr2 & Ha2 & Hs2).
  exists tt, s2. unfold mbind, prog_bind. by rewrite Hr1, Hr2.
Qed.

(** A program that does not change the clients. *)
Definition keeps {A} (m : M A) : Prop := forall s a s', m s = Some (a, s') -> clients s' = clients s.

Lemma keeps_bind {A B} (m : M A) (f : A -> M B) : keeps m -> (forall a, keeps (f a)) -> keeps (m ≫= f).
Proof.
  intros Hm Hf s b s'. unfold mbind, prog_bind. destruct (m s) as [[a s1]|] eqn:Hr; [|done]. intros Hfa. by rewrite (Hf _ _ _ _ Hfa), (Hm _ _ _ Hr).
Qed.

Lemma keeps_store {A} (f : store -> option (A * store)) : keeps (on_store f).
Proof. intros s a s'. unfold on_store. by destruct (f (objs s)) as [[? ?]|]; [intros [= _ <-]|]. Qed.

Lemma keeps_ret {A} (a : A) : keeps (mret a).
Proof. by intros s b s' [= _ <-]. Qed.

Lemma keeps_tell e : keeps (tell e).
Proof. by intros s b s' [= _ <-]. Qed.

Lemma keeps_client : keeps (the_client c).
Proof. intros s a s'. unfold the_client. by destruct (clients s !! c); [intros [= _ <-]|]. Qed.

Lemma multi_keeps : keeps (execCommandPropagateMulti c).
Proof.
  apply keeps_bind; [apply keeps_store|]. intros p. apply keeps_bind; [apply keeps_bind; [apply keeps_client|intros; apply keeps_ret]|]. intros i.
  apply keeps_bind; [|intros; apply keeps_store]. apply keeps_bind; [apply keeps_store|]. intros a.
  apply keeps_bind; [|intros]; (case_match; [apply keeps_tell|apply keeps_ret]).
Qed.

(** [orig] are the arguments of EXEC, [lx] those of the commands that are executed. *)
Lemma sim_exec_loop n orig own (qs : list queued_cmd) : Forall (fun q => texts q.1.2 q.2) qs -> Forall (fun q => queued_ok (to_queue q)) qs ->
  forall ci cur own' lx executed must, cur ++ own' ≡ₚ queue_refs qs ++ lx ++ orig ++ own -> lx.*1 = executed ≫= mc_argv ->
  sim (J (queue_cost (to_queue <$> qs) + n) ci cur own' []) (exec_loop c (to_multi <$> qs) executed must) (s_exec_loop c (to_queue <$> qs) must)
    (fun r b s => r.2 = b /\ exists ci' cur' own'' lx', J n ci' cur' own'' [] s /\ cur' ++ own'' ≡ₚ lx' ++ orig ++ own /\ lx'.*1 = r.1 ≫= mc_argv).
Proof.
  induction qs as [|[[om l] vals] qs IH]; intros Hts Hok ci cur own' lx executed must Hperm Hlx.
  { apply sim_ret. intros s Hs. split; [done|]. exists ci, cur, own', lx. by split. }
  apply Forall_cons in Hts as [Ht Hts]. apply Forall_cons in Hok as [(m & Hm & Htab & Him & Hne) Hok]. cbn in Ht, Hm, Hne. subst om.
  destruct vals as [|v0 vals]; [done|]. cbn [fmap list_fmap exec_loop s_exec_loop to_multi to_queue fst snd].
  set (own1 := queue_refs qs ++ lx ++ orig ++ own).
  assert (cur ++ own' ≡ₚ l ++ own1) as Hperm1 by (rewrite Hperm; unfold own1; change (queue_refs ((Some m, l, v0 :: vals) :: qs)) with (l ++ queue_refs qs); by rewrite <- app_assoc).
  set (k := (cost (v0 :: vals) + (1 + (queue_cost (to_queue <$> qs) + n)))%nat).
  apply (sim_left _ _ _ (fun cl s => clients s !! c = Some cl /\ J k ci cur own' [] s)).
  { intros s Hs. destruct (run_client _ _ _ _ _ _ _ _ Hs) as (cl & Hr & Hc & _). exists cl, s. split; [done|]. split; [done|]. split; [done|].
    eapply (J_less rest c); [|exact Hs]. unfold k. rewrite queue_cost_cons. cbn [snd fst to_queue]. lia. }
  intros cl. apply (sim_left _ _ _ (fun _ s => J k ci l own1 [] s /\ cmd_of c s = Some m)).
  { intros s [Hc Hs]. destruct (inv_argv rest c k ci cur own' l own1 [] s cl (Some m) Hs Hc Hperm1) as [Hs1 Ha1].
    eexists tt, _. split; [done|]. split; [exact Ha1|]. split; [exact Hs1|]. unfold cmd_of. cbn. by rewrite lookup_insert_eq. }
  intros _. apply sim_pure. cbv zeta.
  eapply (sim_bind _ _ _ _ (fun _ _ s => J (cost (v0 :: vals) + (queue_cost (to_queue <$> qs) + n)) ci l own1 [] s /\ cmd_of c s = Some m)).
  { destruct (negb must && _).
    - eapply (sim_keep (fun s => cmd_of c s = Some m) (fun s => cmd_of c s = Some m)); [|].
      + eapply sim_less; [|apply sim_propagateMulti]. unfold k. lia.
      + intros s u s' Hs Hcm Hrun. unfold cmd_of in *. by rewrite (multi_keeps _ _ _ Hrun).
    - apply sim_ret. intros s [Hs Hcm]. split; [|done]. eapply (J_less rest c); [|exact Hs]. unfold k. lia. }
  intros ? ?. cbn beta. eapply sim_bind; [eapply sim_call_queued; [exact Ht|done]|]. intros ? ?. cbn beta.
  apply sim_exists. intros ci'. apply sim_exists. intros cur'.
  apply (sim_left _ _ _ (fun cl s => argv cl = cur'.*1 /\ J (queue_cost (to_queue <$> qs) + n) ci' cur' own1 [] s)).
  { intros s Hs. destruct (run_client _ _ _ _ _ _ _ _ Hs) as (cl1 & Hr & Hc & Ha & _). by exists cl1, s. }
  intros cl1. apply sim_and. intros Ha. apply (IH Hts Hok ci' cur' own1 (lx ++ cur')).
  - unfold own1. rewrite <- !app_assoc. rewrite (Permutation_app_comm cur'), <- !app_assoc. apply Permutation_app_head, Permutation_app_head.
    rewrite app_assoc. apply Permutation_app_comm.
  - rewrite fmap_app, bind_app, Hlx. cbn [mbind list_bind mc_argv]. by rewrite app_nil_r, Ha.
Qed.

End Facts.
