(* ===== verification/ExecFacts.v ===== *)
(** * EXEC and the requests simulate the specification *)

From Stdlib Require Import ZArith Lia String.
From stdpp Require Import base numbers list gmap.
From S2P Require Import Prelude Util Object Reply ReplyFacts Server Watch Db Strings Multi KeySpec SpecFacts ServerFacts DbFacts StringFacts KeyFacts WatchFacts MultiFacts.

Open Scope Z_scope.

(** ** The cost of the queues *)

(** What the execution of the queues will cost. *)
Definition pot (a : aserver) : Z := msum (fun x => Z.of_nat (queue_cost (queue x))) (aclients a).

Definition queues_ok (a : aserver) : Prop := forall d x, aclients a !! d = Some x -> Forall queued_ok (queue x).

Lemma msum_below {A} (f : A -> Z) (m m' : gmap cid A) :
  (forall x, 0 <= f x) -> (forall d x', m' !! d = Some x' -> exists x, m !! d = Some x /\ f x' <= f x) -> msum f m' <= msum f m.
Proof.
  intros Hf. revert m. induction m' as [|d x' m' Hd IH] using map_ind; intros m Hm; [rewrite msum_empty; by apply msum_nonneg|].
  rewrite msum_insert by done. destruct (Hm d x') as (x & Hx & Hle); [by rewrite lookup_insert_eq|]. rewrite (msum_delete f m d x Hx).
  assert (msum f m' <= msum f (delete d m)); [|lia]. apply IH. intros e y He. assert (d <> e) as Hne by congruence.
  rewrite lookup_delete_ne by done. apply Hm. by rewrite lookup_insert_ne.
Qed.

Lemma queue_cost_kept x x' : queue x' = queue x \/ queue x' = [] -> Z.of_nat (queue_cost (queue x')) <= Z.of_nat (queue_cost (queue x)).
Proof. intros [-> | ->]; cbn; lia. Qed.

Lemma pot_kept a a' : queues_kept a a' -> pot a' <= pot a.
Proof.
  intros Hk. apply msum_below; [lia|]. intros d x' Hx'. destruct (Hk d x' Hx') as (x & Hx & Hq). exists x. split; [done|]. by apply queue_cost_kept.
Qed.

Lemma queues_ok_kept a a' : queues_kept a a' -> queues_ok a -> queues_ok a'.
Proof. intros Hk Hok d x' Hx'. destruct (Hk d x' Hx') as (x & Hx & [-> | ->]); [by apply (Hok d x)|constructor]. Qed.

Lemma pot_client a c x : aclients a !! c = Some x -> Z.of_nat (queue_cost (queue x)) <= pot a.
Proof. intros Hc. unfold pot. apply (msum_ge (fun x => Z.of_nat (queue_cost (queue x))) (aclients a) c x); [lia|done]. Qed.

Definition no_queue (c : cid) (a : aserver) : Prop := forall x, aclients a !! c = Some x -> queue x = [].

Lemma no_queue_kept c a a' : queues_kept a a' -> no_queue c a -> no_queue c a'.
Proof. intros Hk Hn x' Hx'. destruct (Hk c x' Hx') as (x & Hx & [-> | ->]); [by apply Hn|done]. Qed.

Lemma keeps_no_queue {A} (m : S A) c a b a' : keeps_queues m -> no_queue c a -> m a = Some (b, a') -> no_queue c a'.
Proof. intros Hm Hn Hr. by eapply no_queue_kept; [eapply Hm|]. Qed.

Lemma bind_prog {A B} (m : S A) (f : A -> S B) a b a' : (m ≫= f) a = Some (b, a') -> exists x a1, m a = Some (x, a1) /\ f x a1 = Some (b, a').
Proof. unfold mbind, prog_bind. destruct (m a) as [[x a1]|]; [|done]. eauto. Qed.

Lemma bind_run {X A B} (m : prog X A) (f : A -> prog X B) s a s' : m s = Some (a, s') -> (m ≫= f) s = f a s'.
Proof. intros Hm. unfold mbind, prog_bind. by rewrite Hm. Qed.

(** The queue of one client is gone. *)
Lemma pot_emptied a a' c x : queues_kept a a' -> no_queue c a' -> aclients a !! c = Some x -> pot a' + Z.of_nat (queue_cost (queue x)) <= pot a.
Proof.
  intros Hk Hn Hc. unfold pot. set (f := fun x => Z.of_nat (queue_cost (queue x))). rewrite (msum_delete f _ c x Hc). fold (f x).
  assert (msum f (aclients a') <= msum f (<[c := set_queue x []]> (delete c (aclients a)))) as H1.
  { apply msum_below; [unfold f; lia|]. intros d x' Hx'. destruct (Hk d x' Hx') as (y & Hy & Hq). destruct (decide (c = d)) as [<-|Hne].
    - exists (set_queue x []). rewrite lookup_insert_eq. split; [done|]. unfold f. rewrite (Hn x' Hx'). cbn. lia.
    - exists y. rewrite lookup_insert_ne, lookup_delete_ne by done. split; [done|]. by apply queue_cost_kept. }
  rewrite msum_insert in H1 by apply lookup_delete_eq. change (f (set_queue x [])) with 0 in H1. unfold f in *. lia.
Qed.

(** A longer queue. *)
Lemma pot_queued a c x q : aclients a !! c = Some x ->
  pot (set_aclients a (<[c := set_queue x (queue x ++ [q])]> (aclients a))) = pot a + Z.of_nat (cost q.2 + 1).
Proof.
  intros Hc. unfold pot. cbn [aclients set_aclients]. rewrite (msum_update _ _ c x _ Hc). cbn [queue set_queue].
  assert (forall l, queue_cost (l ++ [q]) = queue_cost l + (cost q.2 + 1))%nat as ->; [|lia].
  induction l as [|r l IH]; [cbn; lia|]. cbn [app]. rewrite !queue_cost_cons. lia.
Qed.

Section Spec.
Context `{Env}.

Lemma s_reply_at c bs a x : aclients a !! c = Some x -> s_reply c bs a = Some (tt, set_aclients a (<[c := append_out bs x]> (aclients a))).
Proof. intros Hc. unfold s_reply, s_client, s_put, mbind, prog_bind. by rewrite Hc. Qed.

Lemma no_queue_put c x' a : queue x' = [] -> no_queue c (set_aclients a (<[c := x']> (aclients a))).
Proof. intros Hq y. cbn. rewrite lookup_insert_eq. by intros [= <-]. Qed.

(** A client that is in a transaction has no queue after EXEC. *)
Lemma exec_empties c l a u a' x : aclients a !! c = Some x -> multi x = true -> s_exec c l a = Some (u, a') -> no_queue c a'.
Proof.
  intros Hc Hm Hr. unfold s_exec in Hr. unfold mbind at 1, prog_bind at 1, s_client at 1 in Hr. rewrite Hc, Hm in Hr. cbn [negb] in Hr.
  apply bind_prog in Hr as ([] & a1 & H1 & H2). assert (no_queue c a1) as Hn1; [|revert H2; apply keeps_no_queue; [queues|done]].
  destruct (dirty_cas x || dirty_exec x).
  - apply bind_prog in H1 as ([] & a2 & _ & H1). unfold s_discard, mbind, prog_bind, s_client in H1. destruct (aclients a2 !! c) as [y|]; [|done].
    injection H1 as <-. by apply no_queue_put.
  - apply bind_prog in H1 as ([] & a2 & Hp & H1). injection Hp as <-. revert H1. apply keeps_no_queue; [queues|by apply no_queue_put].
Qed.

Lemma call_exec_empties c m l a u a' x :
  aclients a !! c = Some x -> multi x = true -> cmd_proc m = PExec -> s_call s_run c m l a = Some (u, a') -> no_queue c a'.
Proof.
  intros Hc Hm Hp Hr. unfold s_call in Hr. apply bind_prog in Hr as (x' & a1 & Hcl & Hr). unfold s_client in Hcl. rewrite Hc in Hcl. injection Hcl as <- <-.
  apply bind_prog in Hr as ([] & a2 & Hf & Hr). assert (aclients a2 !! c = Some x) as Hc2 by (destruct (_ && _ && _); by injection Hf as <-).
  apply bind_prog in Hr as (b & a3 & Hd & Hr). injection Hd as <- <-. apply bind_prog in Hr as (l' & a4 & Hrun & Hr).
  unfold s_run in Hrun. rewrite Hp in Hrun. apply bind_prog in Hrun as ([] & a5 & He & [= <- <-]).
  pose proof (exec_empties c l a2 tt a5 x Hc2 Hm He) as Hn. revert Hr. apply keeps_no_queue; [queues|done].
Qed.

End Spec.

Section Facts.
Context `{E : Env} (rest : loc -> Z) (c : cid).
Hypothesis zmalloc_bound : forall n, 0 <= n -> 0 <= zmalloc_size n <= 2 * n + 4096.

Abbreviation J := (J rest c).
Abbreviation sim := (simulates abs).
Abbreviation after := (after rest c).
Implicit Types (args own : list (loc * strval)) (known : list (nat * bytes * option dbval * strval)).

(** ** EXEC *)

Lemma sim_discard n ci args own : sim (J n ci args own []) (discardTransaction c) (s_discard c) (fun _ _ => J n ci args own []).
Proof. intros s Hs b y Hy. destruct (run_discardTransaction rest c _ _ _ _ s Hs) as (s' & Hr & Hs' & Ha). rewrite Ha in Hy. injection Hy as <- <-. by exists tt, s'. Qed.

Lemma sim_monitor n ci args own :
  sim (J n ci args own [])
    (if has_monitors && negb loading then cl ← the_client c; a ← arg_strings (argv cl); tell (EFeedMonitors (cdb cl) a) else mret tt)
    (if has_monitors && negb loading then cl ← s_client c; s_tell (EFeedMonitors (in_db cl) (values args)) else mret tt)
    (fun _ _ => after n own (values args)).
Proof.
  destruct (has_monitors && negb loading); [|by apply sim_stop].
  eapply (sim_left _ _ _ (fun cl s => J n ci args own [] s /\ clients s !! c = Some cl /\ argv cl = args.*1 /\ cdb cl = ci)).
  { intros s Hs. destruct (run_client rest c _ _ _ _ _ _ Hs) as (cl & Hr & Hc & Ha & Hcd). by exists cl, s. }
  intros cl s (Hs & Hc & Ha & Hcd) b y Hy.
  destruct (run_feed rest c _ _ _ _ _ s true (EFeedMonitors ci) Hs) as (s' & Hr & Hs' & _ & _ & Ht). rewrite Ha, Hcd. exists tt, s'. split; [exact Hr|].
  unfold s_client, mbind, prog_bind in Hy. rewrite (abs_client s c cl Hc) in Hy. cbn [in_db acl_of] in Hy. rewrite Hcd, Ht in Hy.
  injection Hy as <- <-. split; [done|]. by exists ci, args.
Qed.

(** What EXEC needs to know of its client: the cost is that of the queue. *)
Definition exec_needs (k : nat) (m : gmap cid aclient) : Prop :=
  exists x, m !! c = Some x /\ if multi x then Forall queued_ok (queue x) /\ (queue_cost (queue x) + 1)%nat = k else k = 1%nat.

(** The queue is executed, and its references are given up. *)
Lemma run_exec_queue n k ci args own s x :
  J (k + n) ci args own [] s -> aclients (abs s) !! c = Some x -> Forall queued_ok (queue x) -> (queue_cost (queue x) + 1)%nat = k ->
  forall b y, (s_put c (set_queue (set_awatched x []) []);; s_reply c (reply_line 42 (zlen (queue x)));;
    write ← s_exec_loop c (queue x) false; s_discard c;; if (write : bool) then s_dirty 1 else mret tt) (abs s) = Some (b, y) ->
  exists s', (unwatchAllKeys c;;
      cl ← the_client c;
      let orig_argv := argv cl in
      let orig_cmd := cmd cl in
      addReplyMultiBulkLen c (zlen (mstate cl));;
      cl ← the_client c;
      put_client c (set_mstate cl []);;
      r ← exec_loop c (mstate cl) [] false;
      cl ← the_client c;
      put_client c (set_mstate (set_cmd (set_argv cl orig_argv) orig_cmd) r.1);;
      discardTransaction c;;
      if r.2 : bool then add_dirty 1 else mret tt) s = Some (b, s') /\ abs s' = y /\ exists ci', J n ci' args own [] s'.
Proof.
  intros Hs Hx Hok Hk b y Hy. destruct (inv_cur _ _ _ _ _ _ _ _ Hs) as (cl & Hc & Hargs & Hcd). rewrite (abs_client s c cl Hc) in Hx. injection Hx as Hx.
  destruct (run_unwatchAll rest c _ _ _ _ _ _ _ Hs Hc) as (s1 & Hr1 & Hs1 & Hc1 & Ha1). rewrite Hx in Ha1. set (cl1 := set_wkeys cl []) in *.
  assert (clients s1 !! c = Some cl1) as Hcl1 by (by rewrite Hc1, lookup_insert_eq).
  assert (zlen (mstate cl1) = zlen (queue x)) as Hlen by (rewrite <- Hx; unfold zlen; cbn; by rewrite length_fmap).
  assert (zlen (queue x) <= 166666) as Hbound.
  { pose proof (units_bound rest c _ _ _ _ _ _ Hs). assert (length (queue x) <= queue_cost (queue x))%nat; [|unfold zlen; lia].
    clear. induction (queue x) as [|q l IH]; [done|]. rewrite queue_cost_cons. cbn. lia. }
  apply bind_prog in Hy as ([] & a1 & Hp & Hy). injection Hp as <-. apply bind_prog in Hy as ([] & a2 & Hrep & Hy).
  unfold s_reply, s_client, s_put, mbind, prog_bind in Hrep. cbn [aclients set_aclients] in Hrep. rewrite lookup_insert_eq in Hrep. injection Hrep as He2.
  assert (sim (J (1 + (queue_cost (queue x) + n)) ci args own []) (addReplyMultiBulkLen c (zlen (queue x))) (s_reply c (reply_line 42 (zlen (queue x))))
    (fun _ _ => J (queue_cost (queue x) + n) ci args own [])) as Hrep.
  { apply sim_array; [done|apply zlen_nonneg|]. pose proof (zlen_nonneg (queue x)). unfold in_ll, LLONG_MIN, LLONG_MAX. lia. }
  destruct (Hrep s1 ltac:(eapply (J_less rest c); [|exact Hs1]; lia) tt _ (s_reply_at c (reply_line 42 (zlen (queue x))) (abs s1) (set_awatched x []) ltac:(rewrite Ha1; cbn; by rewrite lookup_insert_eq)))
    as ([] & s2 & Hr2 & Ha2 & Hs2).
  destruct (inv_cur _ _ _ _ _ _ _ _ Hs2) as (cl2 & Hc2 & Hargs2 & _). destruct (run_take_queue rest c _ _ _ _ s2 cl2 Hs2 Hc2) as (qs & Hm2 & Hq2 & Ht2 & Hs3 & Ha3).
  cbn zeta in Hs3, Ha3. set (s3 := set_clients s2 _) in Hs3, Ha3. rewrite (abs_at c s1 s2 cl2 _ Hc2 Ha2) in Hq2, Ha3. cbn [queue append_out set_awatched] in Hq2.
  assert (a2 = abs s3) as ->.
  { rewrite <- He2, Ha3, Ha2, Ha1, !set_aclients_twice. cbn [aclients set_aclients]. by rewrite !insert_insert_eq. }
  assert (no_queue c (abs s3)) as Hn3 by (rewrite <- He2; by apply no_queue_put).
  rewrite Hq2 in Hy, Hok. apply bind_prog in Hy as (w & a4 & Hloop & Hy).
  assert (no_queue c a4) as Hn4.
  { revert Hloop. apply keeps_no_queue; [auto with queues|done]. }
  destruct (sim_exec_loop rest c zmalloc_bound n args own qs Ht2 ltac:(by rewrite Forall_fmap in Hok) ci args (queue_refs qs ++ own) [] [] false
    ltac:(cbn; rewrite !app_assoc; apply Permutation_app_tail, Permutation_app_comm) eq_refl s3 ltac:(by rewrite <- Hq2) w a4 Hloop)
    as ([ex w'] & s4 & Hr4 & Ha4 & Hw & ci4 & cur & own4 & lx & Hs4 & Hperm & Hex). cbn [fst snd] in Hw, Hex. subst w' a4.
  destruct (inv_cur _ _ _ _ _ _ _ _ Hs4) as (cl4 & Hc4 & _). assert (mstate cl4 = []) as Hm4.
  { pose proof (Hn4 _ (abs_client s4 c cl4 Hc4)) as Hq. cbn in Hq. by apply fmap_nil_inv in Hq. }
  destruct (inv_argv rest c n ci4 cur own4 args (lx ++ own) [] s4 cl4 (cmd cl) Hs4 Hc4) as [Hs5 Ha5].
  { rewrite Hperm, !app_assoc. apply Permutation_app_tail, Permutation_app_comm. }
  cbn zeta in Hs5, Ha5. set (cl5 := set_cmd (set_argv cl4 args.*1) (cmd cl)) in *. set (s5 := set_clients s4 (<[c := cl5]> (clients s4))) in *.
  assert (clients s5 !! c = Some cl5) as Hc5 by (cbn; by rewrite lookup_insert_eq).
  destruct (run_discard rest c n ci4 args own s5 cl5 ex lx Hs5 Hc5 Hm4 (eq_sym Hex)) as (s6 & Hr6 & Hs6 & Ha6).
  assert (s_discard c (abs s4) = Some (tt, abs s6)) as Hd.
  { rewrite Ha6, Ha5. unfold s_discard, s_client, s_put, mbind, prog_bind. rewrite (abs_client s4 c cl4 Hc4). do 4 f_equal.
    unfold acl_of, cl5, set_queue, set_awatched, set_marks. cbn. by rewrite Hm4. }
  apply bind_prog in Hy as ([] & a6 & Hd' & Hy). rewrite Hd in Hd'. injection Hd' as <-.
  assert (exists s7, (if w then add_dirty 1 else mret tt) s6 = Some (b, s7) /\ abs s7 = y /\ J n ci4 args own [] s7) as (s7 & Hr7 & Ha7 & Hs7).
  { destruct w; injection Hy as <- <-; (eexists; split; [done|]; split; [done|]); [by apply (inv_fields _ _ _ _ _ _ _ s6)|done]. }
  exists s7. split; [|split; [done|by exists ci4]].
  unfold mbind, prog_bind. rewrite Hr1. unfold the_client at 1. rewrite Hcl1. cbn zeta. rewrite Hlen, Hr2. unfold the_client at 1. rewrite Hc2. unfold put_client at 1.
  rewrite Hm2. change (set_clients s2 _) with s3. rewrite Hr4. unfold the_client at 1. rewrite Hc4. unfold put_client. cbn [fst snd].
  change (argv cl1) with (argv cl). rewrite Hargs.
  assert (set_clients s4 (<[c := set_mstate (set_cmd (set_argv cl4 args.*1) (cmd cl1)) ex]> (clients s4)) =
    set_clients s5 (<[c := set_mstate cl5 ex]> (clients s5))) as ->.
  { unfold s5, set_clients. cbn. by rewrite insert_insert_eq. }
  by rewrite Hr6.
Qed.

Lemma sim_exec n k ci args own :
  sim (fun s => J (k + n) ci args own [] s /\ exec_needs k (aclients (abs s))) (execCommand c) (s_exec c (values args)) (fun _ _ => after n own (values args)).
Proof.
  intros s [Hs (x & Hx & Hk)] b y Hy. destruct (inv_cur _ _ _ _ _ _ _ _ Hs) as (cl & Hc & Hargs & Hcd).
  unfold s_exec in Hy. apply bind_prog in Hy as (x' & a1 & Hcl & Hy). unfold s_client in Hcl. rewrite Hx in Hcl. injection Hcl as <- <-.
  rewrite (abs_client s c cl Hc) in Hx. injection Hx as Hx. assert (multi x = cl_has cl REDIS_MULTI /\ dirty_cas x = cl_has cl REDIS_DIRTY_CAS /\
    dirty_exec x = cl_has cl REDIS_DIRTY_EXEC) as (Hm & Hdc & Hde) by (by rewrite <- Hx). rewrite Hm, Hdc, Hde in Hy. rewrite Hm in Hk.
  unfold execCommand. unfold mbind at 1, prog_bind at 1, the_client at 1. rewrite Hc. destruct (cl_has cl REDIS_MULTI) eqn:Hmul; cbn [negb] in Hy |- *.
  2: { subst k. revert b y Hy. assert (sim (J (1 + n) ci args own []) (addReplyError c (bytes_of_string "EXEC without MULTI"))
         (s_reply c (error (bytes_of_string "EXEC without MULTI"))) (fun _ _ => after n own (values args))) as Hsim; [|exact (Hsim s Hs)].
       by eapply sim_end; [|by apply sim_error|]. }
  destruct Hk as [Hok Hk]. apply bind_prog in Hy as ([] & a1 & Hbody & Hmon). destruct (cl_has cl REDIS_DIRTY_CAS || cl_has cl REDIS_DIRTY_EXEC) eqn:Hdirty.
  - assert (sim (J (1 + (k - 1 + n)) ci args own []) (addReply c (if cl_has cl REDIS_DIRTY_EXEC then execaborterr shared else nullmultibulk shared);; discardTransaction c)
      (s_reply c (if cl_has cl REDIS_DIRTY_EXEC then execabort_text else null_array);; s_discard c) (fun _ _ => J (k - 1 + n) ci args own [])) as Hsim.
    { eapply sim_bind; [|intros ? ?; apply sim_discard]. destruct (cl_has cl REDIS_DIRTY_EXEC); (apply sim_text; [done|shared]). }
    destruct (Hsim s ltac:(eapply (J_less rest c); [|exact Hs]; lia) tt a1 Hbody) as ([] & s1 & Hr1 & Ha1 & Hs1). rewrite <- Ha1 in Hmon.
    destruct (sim_monitor n ci args own s1 ltac:(eapply (J_less rest c); [|exact Hs1]; lia) b y Hmon) as (u & s2 & Hr2 & Ha2 & Hs2).
    exists u, s2. split; [|done]. exact (eq_trans (bind_run _ _ _ _ _ Hr1) Hr2).
  - destruct (run_exec_queue n k ci args own s x Hs ltac:(by rewrite (abs_client s c cl Hc), Hx) Hok Hk tt a1 Hbody) as (s1 & Hr1 & Ha1 & ci1 & Hs1).
    rewrite <- Ha1 in Hmon. destruct (sim_monitor n ci1 args own s1 Hs1 b y Hmon) as (u & s2 & Hr2 & Ha2 & Hs2).
    exists u, s2. split; [|done]. exact (eq_trans (bind_run _ _ _ _ _ Hr1) Hr2).
Qed.

(** ** The execution of a request *)

(** What a command costs, EXEC or another. *)
Definition run_needs (m : redisCommand) (vals : list bytes) (k : nat) (acl : gmap cid aclient) : Prop :=
  match cmd_proc m with PExec => exec_needs k acl | _ => k = cost vals end.

Lemma sim_call_run n k ci args own m n0 vals :
  texts args (n0 :: vals) -> m ∈ redisCommandTable ->
  sim (fun s => J (k + n) ci args own [] s /\ cmd_of c s = Some m /\ run_needs m (n0 :: vals) k (aclients (abs s)))
    (call c) (s_call s_run c m (n0 :: vals)) (fun _ _ s => exists ci' args', J n ci' args' own [] s).
Proof.
  intros Ht Hm. apply sim_call; [|by apply texts_values]. destruct (decide (cmd_proc m = PExec)) as [He|He].
  - unfold s_run, run_needs. rewrite He. cbn [run_proc]. rewrite <- (texts_values _ _ Ht). apply sim_keeping.
    eapply sim_weaken; [| |apply (sim_exec n k ci args own)]; [|done]. by intros s (Hs & _ & Hk).
  - assert (s_run m c (n0 :: vals) = s_queued m c (n0 :: vals)) as -> by (unfold s_run; by destruct (cmd_proc m)).
    assert (run_proc (cmd_proc m) c = run_queued (cmd_proc m) c) as -> by (unfold run_proc; by destruct (cmd_proc m)).
    eapply sim_weaken; [| |apply (sim_queued rest c zmalloc_bound n ci args own m n0 vals Ht Hm)]; [|done].
    intros s (Hs & Hcm & Hk). split; [|done]. assert (k = cost (n0 :: vals)) as <-; [|done]. unfold run_needs in Hk. by destruct (cmd_proc m).
Qed.

(** There is a budget for the queues and for [r] more. *)
Definition funded (r : nat) (s : server) : Prop :=
  queues_ok (abs s) /\ exists n ci args, J n ci args [] [] s /\ pot (abs s) + Z.of_nat r <= Z.of_nat n.

Definition process_cost (vals : list bytes) : nat := 5 * length vals + 11.

Lemma lookup_table n m : lookupCommand n = Some m -> m ∈ redisCommandTable.
Proof.
  unfold lookupCommand. intros Hm. apply head_Some in Hm as [l Hl]. assert (m ∈ filter (fun m => name m = tolower <$> n) redisCommandTable) as Hin by (rewrite Hl; by left).
  by apply list_elem_of_filter in Hin as [_ ?].
Qed.

Lemma arity_check m n : ((arity m >? 0) && negb (arity m =? n)) || (n <? - arity m) = negb (arity_ok m n).
Proof. unfold arity_ok. rewrite negb_andb, negb_orb, negb_involutive, Z.leb_antisym, negb_involutive. done. Qed.

Lemma funded_kept r (a : aserver) n ci args s :
  queues_kept a (abs s) -> queues_ok a -> J n ci args [] [] s -> pot a + Z.of_nat r <= Z.of_nat n -> funded r s.
Proof. intros Hk Hok Hs Hp. split; [by eapply queues_ok_kept|]. exists n, ci, args. split; [done|]. pose proof (pot_kept _ _ Hk). lia. Qed.

Lemma sim_refused n ci args own (m : M unit) (am : S unit) :
  sim (J (1 + n) ci args own []) m am (fun _ _ => J n ci args own []) ->
  sim (J (1 + n) ci args own []) (flagTransaction c;; m) (s_flag c;; am) (fun _ _ => J n ci args own []).
Proof.
  intros Hm. eapply (sim_bind _ _ _ _ (fun _ _ => J (1 + n) ci args own [])); [|by intros].
  intros s Hs b y Hy. destruct (run_flagTransaction rest c _ _ _ _ _ s Hs) as (s' & Hr & Hs' & Ha). rewrite Ha in Hy. injection Hy as <- <-. by exists tt, s'.
Qed.

Lemma run_queued n ci args s vals m x u a' :
  J (length args + (1 + n)) ci args [] [] s -> texts args vals -> cmd_of c s = Some m -> aclients (abs s) !! c = Some x ->
  (s_put c (set_queue x (queue x ++ [(Some m, vals)]));; s_reply c (bytes_of_string "+QUEUED" ++ crlf_)) (abs s) = Some (u, a') ->
  exists s', (queueMultiCommand c;; addReply c (queued shared)) s = Some (u, s') /\ abs s' = a' /\ J n ci args [] [] s'.
Proof.
  intros Hs Ht Hm Hx Hy. destruct (run_queue rest c _ _ _ _ s vals m Hs Ht Hm) as (s1 & Hr1 & Hs1 & x' & Hx' & Ha1). rewrite Hx in Hx'. injection Hx' as <-.
  apply bind_prog in Hy as ([] & a1 & Hp & Hy). injection Hp as <-.
  assert (sim (J (1 + n) ci args [] []) (addReply c (queued shared)) (s_reply c (bytes_of_string "+QUEUED" ++ crlf_)) (fun _ _ => J n ci args [] [])) as Hsim
    by (apply sim_text; [done|shared]).
  change (set_aclients (abs s) _) with (set_aclients (abs s) (<[c := set_queue x (queue x ++ [(Some m, vals)])]> (aclients (abs s)))) in Hy.
  rewrite <- Ha1 in Hy. destruct (Hsim s1 Hs1 u a' Hy) as (v & s2 & Hr2 & Ha2 & Hs2). exists s2. split; [|done].
  rewrite (bind_run _ _ _ _ _ Hr1), Hr2. by destruct u, v.
Qed.

(** A command that is executed at once. *)
Lemma run_call r n ci args s vals m u a' :
  J n ci args [] [] s -> texts args vals -> vals <> [] -> m ∈ redisCommandTable -> cmd_of c s = Some m -> queues_ok (abs s) ->
  pot (abs s) + Z.of_nat (process_cost vals) + Z.of_nat r <= Z.of_nat n -> s_call s_run c m vals (abs s) = Some (u, a') ->
  exists s', call c s = Some (u, s') /\ abs s' = a' /\ funded r s'.
Proof.
  intros Hs Ht Hv Hm Hcm Hok Hn Hy. destruct vals as [|n0 vals]; [done|]. destruct (run_client rest c _ _ _ _ _ _ Hs) as (cl & _ & Hc & _ & _).
  pose proof (abs_client s c cl Hc) as Hx. set (x := acl_of (objs s) cl) in *.
  assert (keeps_queues (s_call s_run c m (n0 :: vals))) as Hkeep by (apply keeps_queues_call; intros; apply keeps_queues_run). specialize (Hkeep _ _ _ Hy).
  assert (exists k k', run_needs m (n0 :: vals) k (aclients (abs s)) /\ pot a' + Z.of_nat k' <= pot (abs s) /\ (k <= k' + process_cost (n0 :: vals))%nat) as (k & k' & Hk & Hp & Hkk).
  { destruct (decide (cmd_proc m = PExec)) as [He|He]; unfold run_needs.
    - rewrite He. destruct (multi x) eqn:Hmul.
      + exists (queue_cost (queue x) + 1)%nat, (queue_cost (queue x)). split; [|split; [|unfold process_cost; lia]].
        * exists x. rewrite Hmul. split; [done|]. split; [by apply (Hok c)|done].
        * apply (pot_emptied _ _ c); [done| |done]. by apply (call_exec_empties c m (n0 :: vals) (abs s) u a' x).
      + exists 1%nat, 0%nat. split; [|split; [pose proof (pot_kept _ _ Hkeep); lia|unfold process_cost; lia]]. exists x. by rewrite Hmul.
    - exists (cost (n0 :: vals)), 0%nat. split; [by destruct (cmd_proc m)|]. split; [pose proof (pot_kept _ _ Hkeep); lia|]. unfold cost, process_cost. lia. }
  destruct (sim_call_run (n - k) k ci args [] m n0 vals Ht Hm s) with (b := u) (y := a') as (v & s' & Hr & Ha & ci' & args' & Hs'); [|done|].
  { split; [|done]. eapply (J_less rest c); [|exact Hs]. pose proof (pot_client _ _ _ Hx) as Hpc. assert (0 <= pot a') by (apply msum_nonneg; lia). lia. }
  exists s'. split; [by destruct u, v|]. split; [done|]. split; [rewrite Ha; by eapply queues_ok_kept|]. exists (n - k)%nat, ci', args'. split; [done|]. rewrite Ha.
  assert (0 <= pot a') by (apply msum_nonneg; lia). lia.
Qed.

Lemma run_refused r n ci args s (m : M unit) bs u a' :
  J (1 + n) ci args [] [] s -> queues_ok (abs s) -> pot (abs s) + Z.of_nat r <= Z.of_nat n ->
  sim (J (1 + n) ci args [] []) m (s_reply c bs) (fun _ _ => J n ci args [] []) -> (s_flag c;; s_reply c bs) (abs s) = Some (u, a') ->
  exists s', (flagTransaction c;; m) s = Some (u, s') /\ abs s' = a' /\ funded r s'.
Proof.
  intros Hs Hok Hn Hm Hy. destruct (sim_refused n ci args [] m _ Hm s Hs u a' Hy) as (v & s' & Hr & Ha & Hs').
  exists s'. split; [by destruct u, v|]. split; [done|]. eapply (funded_kept r (abs s)); [|done|exact Hs'|done]. rewrite Ha.
  assert (keeps_queues (s_flag c;; s_reply c bs)) as Hk by queues. exact (Hk _ _ _ Hy).
Qed.

Lemma zlen_span (P : Z -> bool) l : zlen (span P l).1 <= zlen l.
Proof.
  induction l as [|x l IH]; [done|]. cbn [span]. destruct (P x); [|cbn; unfold zlen; cbn [length]; lia]. destruct (span P l) as [a b]. cbn in *. unfold zlen in *. cbn [length]. lia.
Qed.

(** The name is looked up, and the command is put in the client. *)
Lemma process_head n ci args s cl p v args' n0 :
  J n ci args [] [] s -> clients s !! c = Some cl -> args = (p, v) :: args' -> sds_of v = Some n0 -> is_other n0 = false ->
  let s1 := set_clients s (<[c := set_cmd cl (lookupCommand n0)]> (clients s)) in
  processCommand c s = match lookupCommand n0 with
    | None => (flagTransaction c;;
        addReplyErrorFormat c (bytes_of_string "unknown command '" ++ (span (fun b => negb (b =? 0)) n0).1 ++ [39])) s1
    | Some m => (if negb (arity_ok m (zlen args)) then
        flagTransaction c;;
        addReplyErrorFormat c (bytes_of_string "wrong number of arguments for '" ++ name m ++ bytes_of_string "' command")
      else if cl_has cl REDIS_MULTI && negb (immediate (cmd_proc m)) then queueMultiCommand c;; addReply c (queued shared)
      else call c) s1
    end.
Proof.
  intros Hs Hc Hargs Hv Hother s1. destruct (inv_cur _ _ _ _ _ _ _ _ Hs) as (cl' & Hc' & Ha & _). rewrite Hc in Hc'. injection Hc' as <-.
  unfold processCommand, arg, the_client. rewrite (bind_run _ _ s p s).
  2: { unfold mbind, prog_bind, opt. by rewrite Hc, Ha, Hargs. }
  rewrite (bind_run _ _ s n0 s) by (apply (run_ptr rest c _ _ _ _ _ _ p n0 Hs), (arg_key _ _ _ v); [rewrite Hargs; left|done]).
  rewrite Hother. rewrite (bind_run _ _ s tt s) by done. rewrite (bind_run _ _ s cl s) by (by rewrite Hc). rewrite (bind_run _ _ s tt s1) by done.
  destruct (lookupCommand n0) as [m|]; [|done]. rewrite <- arity_check. rewrite Ha. unfold zlen. by rewrite !length_fmap.
Qed.

Lemma run_process r n ci args s vals u a' :
  J n ci args [] [] s -> texts args vals -> queues_ok (abs s) ->
  pot (abs s) + Z.of_nat (process_cost vals) + Z.of_nat r <= Z.of_nat n -> s_process c vals (abs s) = Some (u, a') ->
  exists s', processCommand c s = Some (u, s') /\ abs s' = a' /\ funded r s'.
Proof.
  intros Hs Ht Hok Hn Hy. unfold s_process in Hy. destruct vals as [|n0 vals]; [done|]. apply bind_prog in Hy as (x & a1 & Hcl & Hy).
  destruct (run_client rest c _ _ _ _ _ _ Hs) as (cl & Hrc & Hc & Hargs & Hcd). unfold s_client in Hcl. rewrite (abs_client s c cl Hc) in Hcl. injection Hcl as <- <-.
  destruct (is_other n0 || (zlen n0 >? 1000000)) eqn:Hother; [done|]. apply orb_false_iff in Hother as [Hother Hlen]. zbool.
  pose proof (Forall2_length _ _ _ Ht) as Hlength. pose proof Ht as Ht'. apply texts_cons in Ht' as (p & v & args' & Heq & Hv & _).
  rewrite (process_head _ _ _ _ _ _ _ _ _ Hs Hc Heq Hv Hother). destruct (inv_argv rest c n ci args [] args [] [] s cl (lookupCommand n0) Hs Hc ltac:(done)) as [Hs1 Ha1].
  assert (set_cmd (set_argv cl args.*1) (lookupCommand n0) = set_cmd cl (lookupCommand n0)) as He by (rewrite <- Hargs; by destruct cl).
  rewrite He in Hs1, Ha1. cbn zeta in Hs1, Ha1. set (s1 := set_clients s _) in *.
  assert (0 <= pot (abs s)) as Hpos by (apply msum_nonneg; lia). unfold process_cost in Hn. cbn [length] in Hn, Hlength.
  assert (J (1 + (n - 1)) ci args [] [] s1) as Hs1' by (eapply (J_less rest c); [|exact Hs1]; lia).
  assert (cmd_of c s1 = lookupCommand n0) as Hcm by (unfold cmd_of; cbn; by rewrite lookup_insert_eq).
  rewrite <- Ha1 in Hy, Hn, Hok, Hpos. destruct (lookupCommand n0) as [m|] eqn:Hlook.
  - pose proof (lookup_table _ _ Hlook) as Hm. assert (zlen args = zlen (n0 :: vals)) as -> by (unfold zlen; cbn [length]; lia).
    destruct (arity_ok m (zlen (n0 :: vals))) eqn:Har; cbn [negb] in Hy |- *.
    + assert (multi (acl_of (objs s) cl) = cl_has cl REDIS_MULTI) as Hmul by done. rewrite Hmul in Hy. destruct (cl_has cl REDIS_MULTI && negb (immediate (cmd_proc m))) eqn:Hq.
      * assert (aclients (abs s1) !! c = Some (acl_of (objs s) cl)) as Hx by (rewrite Ha1; by apply abs_client).
        destruct (run_queued (n - 1 - length args) ci args s1 (n0 :: vals) m (acl_of (objs s) cl) u a') as (s2 & Hr2 & Ha2 & Hs2); [|done..|].
        { eapply (J_less rest c); [|exact Hs1]. lia. }
        exists s2. split; [done|]. split; [done|]. rewrite <- Ha2 in Hy. apply bind_prog in Hy as ([] & a2 & Hp & Hy).
        assert (a2 = set_aclients (abs s1) (<[c := set_queue (acl_of (objs s) cl) (queue (acl_of (objs s) cl) ++ [(Some m, n0 :: vals)])]> (aclients (abs s1)))) as Ha2e
          by (by injection Hp).
        eapply (funded_kept r a2); [eapply keeps_queues_reply; exact Hy| |exact Hs2|].
        -- rewrite Ha2e. intros d y. cbn [aclients set_aclients]. intros [[<- <-]|[_ Hd]]%lookup_insert_Some; [|by apply (Hok d)].
           apply Forall_app. split; [by apply (Hok c)|]. repeat constructor. exists m. do 2 (split; [done|]). split; [|done].
           apply andb_true_iff in Hq as [_ Hq]. by apply negb_true_iff in Hq.
        -- rewrite Ha2e, pot_queued by done. unfold cost. cbn [snd length]. lia.
      * by apply (run_call r n ci args s1 (n0 :: vals) m).
    + eapply (run_refused r (n - 1) ci args s1); [done|done|lia| |exact Hy]. apply sim_error_format; [done|..].
      * destruct (table_name m Hm) as [Hname _]. rewrite !zlen_app. change (zlen (bytes_of_string "wrong number of arguments for '")) with 31.
        change (zlen (bytes_of_string "' command")) with 9. lia.
      * destruct (table_name m Hm) as [_ Hline]. rewrite !fmap_app, Hline. done.
  - eapply (run_refused r (n - 1) ci args s1); [done|done|lia| |exact Hy]. apply sim_error_format; [done| |done].
    assert (zlen (span (fun b => negb (b =? 0)) n0).1 <= zlen n0) as Hspan by (apply zlen_span).
    rewrite !zlen_app. change (zlen (bytes_of_string "unknown command '")) with 17. change (zlen [39]) with 1. lia.
Qed.

(** The arguments are made, and given up in the end. *)
Lemma run_make_args n ci (vals : list bytes) : Forall (fun s => zlen s <= max_string) vals -> forall args own s,
  J (length vals + n) ci args own [] s ->
  exists new s', make_args c vals s = Some (tt, s') /\ abs s' = abs s /\ texts new vals /\ J n ci (args ++ new) own [] s'.
Proof.
  induction 1 as [|str vals Hstr _ IH]; intros args own s Hs; [exists [], s; rewrite app_nil_r; split; [done|]; split; [done|]; split; [constructor|exact Hs]|].
  destruct (run_create_string rest c _ _ _ _ _ _ str Hs) as (p & v & s1 & Hr1 & Ha1 & Hs1 & _ & Hv); [done|].
  destruct (inv_cur _ _ _ _ _ _ _ _ Hs1) as (cl & Hc & Hargs & _).
  destruct (inv_argv rest c _ ci args ((p, v) :: own) (args ++ [(p, v)]) own [] s1 cl (cmd cl) Hs1 Hc) as [Hs2 Ha2]; [by rewrite <- app_assoc|].
  rewrite fmap_app, <- Hargs in Hs2, Ha2. assert (set_cmd (set_argv cl (argv cl ++ [(p, v)].*1)) (cmd cl) = set_argv cl (argv cl ++ [p])) as He by (by destruct cl).
  rewrite He in Hs2, Ha2. destruct (IH _ _ _ Hs2) as (new & s3 & Hr3 & Ha3 & Ht & Hs3). exists ((p, v) :: new), s3. split; [|split; [by rewrite Ha3, Ha2|]].
  - cbn [make_args]. rewrite (bind_run _ _ _ _ _ Hr1). unfold the_client. rewrite (bind_run _ _ s1 cl s1) by (by rewrite Hc). by rewrite (bind_run _ _ s1 tt _ eq_refl).
  - split; [by constructor|]. by rewrite <- app_assoc in Hs3.
Qed.

Lemma run_freeClientArgv n ci args s :
  J n ci args [] [] s -> exists s', freeClientArgv c s = Some (tt, s') /\ abs s' = abs s /\ J n ci [] [] [] s'.
Proof.
  intros Hs. destruct (inv_cur _ _ _ _ _ _ _ _ Hs) as (cl & Hc & Hargs & _).
  destruct (inv_argv rest c n ci args [] [] args [] s cl None Hs Hc) as [Hs1 Ha1]; [by rewrite app_nil_r|]. cbn zeta in Hs1, Ha1. cbn [fmap list_fmap] in Hs1, Ha1.
  rewrite <- (app_nil_r args) in Hs1. destruct (run_decrs rest c _ _ _ _ _ _ _ Hs1) as (st & Hr & Hs2 & Ha2).
  eexists. split; [|split; [exact (eq_trans Ha2 Ha1)|exact Hs2]].
  unfold freeClientArgv, the_client. rewrite (bind_run _ _ s cl s) by (by rewrite Hc). rewrite Hargs, (bind_run _ _ _ _ _ (Hr s eq_refl)).
  by rewrite (bind_run _ _ _ cl (set_objs s st)) by (cbn [clients set_objs]; by rewrite Hc).
Qed.

End Facts.

(** ** Several clients *)

Section Requests.
Context `{E : Env} (rest : loc -> Z).
Hypothesis zmalloc_bound : forall n, 0 <= n -> 0 <= zmalloc_size n <= 2 * n + 4096.

(** Between two requests no client is the current one. *)
Lemma J_switch c d n ci s cl : J rest c n ci [] [] [] s -> clients s !! d = Some cl -> J rest d n (cdb cl) [] [] [] s.
Proof.
  unfold J. intros [A1 A2 A3 A4 A5 A6 A7 A8 A9 A10 A11 A12 A13 A14] Hd.
  assert (forall e cle, clients s !! e = Some cle -> argv cle = []) as Hidle.
  { intros e cle He. destruct (decide (e = c)) as [->|Hne]; [|by apply (A14 e)]. destruct A11 as (clc & Hc & Ha & _). rewrite He in Hc. by injection Hc as <-. }
  split; try done.
  - exists cl. split; [done|]. split; [by apply (Hidle d)|done].
  - intros e cle He _. by apply (Hidle e).
Qed.

(** The server between two requests, with a budget of [r]: there are clients, and any of
    them may be the next one. *)
Definition idle (r : nat) (s : server) : Prop :=
  queues_ok (abs s) /\ (exists d cl, clients s !! d = Some cl) /\
  exists n, pot (abs s) + Z.of_nat r <= Z.of_nat n /\ forall d cl, clients s !! d = Some cl -> J rest d n (cdb cl) [] [] [] s.

Definition demand (vals : list bytes) : nat := length vals + process_cost vals.

Lemma run_request r c vals s u a' :
  idle (demand vals + r) s -> s_request c vals (abs s) = Some (u, a') -> exists s', request c vals s = Some (u, s') /\ abs s' = a' /\ idle r s'.
Proof.
  intros (Hok & _ & n & Hn & Hs) Hy. unfold s_request in Hy. destruct (forallb _ vals) eqn:Hlen; [|done].
  assert (exists cl, clients s !! c = Some cl) as [cl Hc].
  { unfold s_process in Hy. destruct vals; [done|]. apply bind_prog in Hy as (x & a1 & Hx & _). unfold s_client in Hx. cbn in Hx. rewrite lookup_fmap in Hx.
    destruct (clients s !! c) as [cl|]; [by exists cl|done]. }
  assert (0 <= pot (abs s)) as Hpos by (apply msum_nonneg; lia). unfold demand in Hn.
  destruct (run_make_args rest c (n - length vals) (cdb cl) vals) with (args := @nil (loc * strval)) (own := @nil (loc * strval)) (s := s) as (args & s1 & Hr1 & Ha1 & Ht & Hs1).
  { apply Forall_forall. intros x Hx. rewrite forallb_forall in Hlen. apply list_elem_of_In in Hx. specialize (Hlen x Hx). by zbool. }
  { eapply (J_less rest c); [|by apply (Hs c)]. lia. }
  rewrite <- Ha1 in Hy, Hok, Hn, Hpos. destruct (run_process rest c zmalloc_bound r _ _ _ _ _ _ _ Hs1 Ht Hok ltac:(lia) Hy) as (s2 & Hr2 & Ha2 & Hok2 & n2 & ci2 & args2 & Hs2 & Hn2).
  destruct (run_freeClientArgv rest c _ _ _ _ Hs2) as (s3 & Hr3 & Ha3 & Hs3). exists s3. split; [|split; [by rewrite Ha3|]].
  - unfold request. rewrite (bind_run _ _ _ _ _ Hr1), (bind_run _ _ _ _ _ Hr2), Hr3. by destruct u.
  - split; [by rewrite Ha3|]. split; [destruct (inv_cur _ _ _ _ _ _ _ _ Hs3) as (cl3 & Hc3 & _); by exists c, cl3|].
    exists n2. rewrite Ha3. split; [done|]. intros d cld Hd. by apply (J_switch c d _ ci2).
Qed.

Definition demands (l : list (cid * list bytes)) : nat := foldr (fun r n => demand r.2 + n)%nat 0%nat l.

Lemma run_requests r l s u a' :
  idle (demands l + r) s -> s_requests l (abs s) = Some (u, a') -> exists s', requests l s = Some (u, s') /\ abs s' = a' /\ idle r s'.
Proof.
  revert s. induction l as [|[c vals] l IH]; intros s Hs Hy; [injection Hy as <- <-; by exists s|].
  cbn [s_requests fst snd] in Hy. apply bind_prog in Hy as ([] & a1 & Hy1 & Hy). cbn [demands foldr fst snd] in Hs.
  destruct (run_request (demands l + r) c vals s tt a1) as (s1 & Hr1 & <- & Hs1); [by rewrite Nat.add_assoc|done|].
  destruct (IH s1 Hs1 Hy) as (s2 & Hr2 & Ha2 & Hs2). exists s2. split; [|done]. cbn [requests fst snd]. by rewrite (bind_run _ _ _ _ _ Hr1).
Qed.

(** C0 (refinement): The requests of several clients, from the parsing of their arguments
    to the release of them, do to the server what the specification of the commands does
    to the key spaces, the watched keys, the queues of the transactions, the output of the
    clients and what is told to the other parts: from a state that is ready for the
    requests, whenever the specification is defined the code does not crash, and ends in a
    state that stands for the result of the specification and is ready for more.  In it
    the count of every object is that of the references to it: from the key spaces and
    the clients, from the output buffers, and from the rest of the server. *)
Theorem requests_refine r l s a' :
  idle (demands l + r) s -> s_requests l (abs s) = Some (tt, a') ->
  exists s', requests l s = Some (tt, s') /\ abs s' = a' /\ idle r s' /\
    forall p, match heap (objs s') !! p with
      | Some o => refcount o = hold s' p + rhold s' p + rest p
      | None => hold s' p + rhold s' p + rest p = 0
      end.
Proof.
  intros Hs Hy. destruct (run_requests r l s tt a' Hs Hy) as (s' & Hrun & Ha & Hi). exists s'. split; [done|]. split; [done|]. split; [done|].
  destruct Hi as (_ & (d & cl & Hd) & n & _ & HJ). intros p. pose proof (inv_refs _ _ _ _ _ _ _ _ (HJ d cl Hd) p) as Hr. unfold refs in Hr.
  change (occs [].*1 p) with 0 in Hr. destruct (heap (objs s') !! p); lia.
Qed.

End Requests.

(** ** Examples *)

Definition server_objects : list (loc * robj) :=
  (fun x => (x.1, mk_robj 5 (RAW x.2 0))) <$> [
    (20200%positive, ok_text); (20201%positive, empty_text); (20202%positive, null_array); (20203%positive, bytes_of_string "+QUEUED" ++ crlf_);
    (20204%positive, [58]); (20205%positive, wrongtype_text); (20206%positive, error (bytes_of_string "no such key"));
    (20207%positive, error (bytes_of_string "syntax error")); (20208%positive, error (bytes_of_string "source and destination objects are the same"));
    (20209%positive, error (bytes_of_string "index out of range")); (20210%positive, execabort_text); (20211%positive, bytes_of_string "DEL")].

Definition server_store : store := mk_store (heap reply_store ∪ list_to_map server_objects) (integers reply_store) false.

#[local] Instance sample_env : Env := {|
  zmalloc_size := plain_zmalloc; client_obuf_limits := no_limits; unixtime := 0; ae_ok := true; strcoll := fun _ _ => 0;
  shared := mk_shared_replies reply_shared 20200%positive 20201%positive 20202%positive 20203%positive 20204%positive 20205%positive 20206%positive
    20207%positive 20208%positive 20209%positive 20210%positive 20211%positive;
  mstime_at := fun n => 1000 + Z.of_nat n; loading := false; masterhost := false; cluster_enabled := false; aof_on := true; has_monitors := false |}.

Definition sample_client : client := mk_cl idle_client 0 [] None [] [].
Definition sample_server : server :=
  mk_server server_store [mk_db ∅ ∅ ∅; mk_db ∅ ∅ ∅] {[1%positive := sample_client; 2%positive := sample_client]} 0 0 0 0 0 [].

#[local] Opaque sample_store reply_store.

Lemma server_heap : heap server_store = heap reply_store ∪ list_to_map server_objects.
Proof. unfold server_store. apply heap_mk. Qed.

Lemma server_integers : integers server_store = integers reply_store.
Proof. unfold server_store. apply integers_mk. Qed.

#[local] Opaque server_store.

Lemma server_objects_spec p o :
  (list_to_map server_objects : gmap loc robj) !! p = Some o ->
  (20200 <= p)%positive /\ wf_val (val o) /\ refcount o = 5 /\ sdsEncodedObject (val o) = true /\ light (val o).
Proof.
  intros Hp%elem_of_list_to_map_2%list_elem_of_In.
  assert (forallb (fun po => match val po.2 with RAW s 0 => zlen s <=? 536870912 | _ => false end && (refcount po.2 =? 5) && (20200 <=? po.1)%positive)
    server_objects = true) as Hall by (by vm_compute).
  rewrite forallb_forall in Hall. specialize (Hall _ Hp). destruct o as [rc v]. cbn [fst snd val refcount] in *.
  apply andb_true_iff in Hall as [Hall Hle]. apply andb_true_iff in Hall as [Hv Hrc]. apply Pos.leb_le in Hle. split; [done|].
  destruct v as [s [|f|f]| |]; zbool; by cbn.
Qed.

Lemma reply_below p o : heap reply_store !! p = Some o -> (p < 20200)%positive.
Proof.
  intros [Hp|Hp]%reply_store_lookup.
  - apply sample_lookup in Hp as [[-> _]|[[-> _]|(i & Hi & -> & _)]]; unfold REDIS_SHARED_INTEGERS in *; lia.
  - assert (forallb (fun po => (po.1 <? 20200)%positive) reply_objects = true) as Hall by (by vm_compute). rewrite forallb_forall in Hall.
    apply elem_of_list_to_map_2, list_elem_of_In in Hp. apply Hall in Hp. cbn in Hp. by apply Pos.ltb_lt in Hp.
Qed.

Lemma server_lookup p o : heap reply_store !! p = Some o \/ (list_to_map server_objects : gmap loc robj) !! p = Some o -> heap server_store !! p = Some o.
Proof.
  rewrite server_heap. intros [Hp|Hp]; [by apply lookup_union_Some_l|]. rewrite lookup_union_r; [exact Hp|].
  destruct (heap reply_store !! p) as [x|] eqn:Hx; [|reflexivity]. apply reply_below in Hx. destruct (server_objects_spec p o Hp) as [Hle _]. lia.
Qed.

Lemma server_store_ok : store_ok server_store /\ margin 1000 server_store.
Proof.
  destruct reply_store_ok as [Hok Hm]. split; [split|].
  - rewrite server_heap. intros p o [Hp|[_ Hp]]%lookup_union_Some_raw; [exact (ok_obj _ Hok p o Hp)|].
    destruct (server_objects_spec p o Hp) as (_ & Hv & -> & _). unfold INT32_MAX. split; [exact Hv|lia].
  - intros i Hi. destruct (ok_int _ Hok i Hi) as (p & o & Hi' & Hp & Hv). exists p, o. rewrite server_integers.
    split; [exact Hi'|]. split; [|exact Hv]. apply server_lookup. by left.
  - intros p o. rewrite server_heap. intros [Hp|[_ Hp]]%lookup_union_Some_raw; [exact (Hm p o Hp)|].
    destruct (server_objects_spec p o Hp) as (_ & _ & -> & _). unfold INT32_MAX. lia.
Qed.

(** A shared object with its text. *)
Lemma server_text p bs :
  (list_to_map (reply_objects ++ server_objects) : gmap loc robj) !! p = Some (mk_robj 5 (RAW bs 0)) -> (20000 <= p)%positive ->
  0 < refs server_store p /\ text_at server_store p bs.
Proof.
  intros Ho Hp. assert (heap server_store !! p = Some (mk_robj 5 (RAW bs 0))) as Hl.
  { apply server_lookup. rewrite list_to_map_app in Ho. apply lookup_union_Some_raw in Ho as [Ho|[_ Ho]]; [left; by apply reply_lookup|by right]. }
  rewrite (refs_lookup _ _ _ Hl). split; [cbn; lia|]. eexists. split; [exact Hl|]. split; [done|]. cbn. lia.
Qed.

Lemma server_shared : shared_texts_ok (refs server_store) server_store.
Proof.
  split; [|split].
  - intros p bs Hin. assert (forallb (fun x => bool_decide ((list_to_map (reply_objects ++ server_objects) : gmap loc robj) !! x.1 = Some (mk_robj 5 (RAW x.2 0))) && (20000 <=? x.1)%positive)
      shared_texts = true) as Hall by (by vm_compute). rewrite forallb_forall in Hall. apply list_elem_of_In in Hin. apply Hall in Hin. cbn [fst snd] in Hin.
    apply andb_true_iff in Hin as [Ho%bool_decide_eq_true Hp%Pos.leb_le]. by apply server_text.
  - intros i Hi. assert (forall p bs, (list_to_map reply_objects : gmap loc robj) !! p = Some (mk_robj 5 (RAW bs 0)) -> (20000 <= p)%positive ->
      0 < refs server_store p /\ text_at server_store p bs) as Htext.
    { intros p bs Ho. apply server_text. rewrite list_to_map_app. by apply lookup_union_Some_l. }
    destruct (reply_headers 20010 42 (mbulkhdr reply_shared) i ltac:(by vm_compute) Hi) as [H1 H2].
    destruct (reply_headers 20050 36 (bulkhdr reply_shared) i ltac:(by vm_compute) Hi) as [H3 H4].
    split; eexists; (split; [done|]); (apply Htext; [done|lia]).
  - intros i p Hi Hp. destruct server_store_ok as [Hok _]. destruct (ok_int _ Hok i Hi) as (q & o & Hq & Ho & _). rewrite Hp in Hq. injection Hq as <-.
    rewrite (refs_lookup _ _ _ Ho). destruct (ok_obj _ Hok p o Ho) as [_ ?]. lia.
Qed.

Lemma sample_aclient d x : aclients (abs sample_server) !! d = Some x -> queue x = [].
Proof.
  cbn [aclients abs]. rewrite lookup_fmap. intros (cl & Hd & ->)%fmap_Some.
  cbn [clients sample_server] in Hd. by apply lookup_insert_Some in Hd as [[_ <-]|[_ [_ <-]%lookup_singleton_Some]].
Qed.

Lemma sample_idle : idle (refs server_store) 166 sample_server.
Proof.
  destruct server_store_ok as [Hok Hm].
  assert (forall d cl, clients sample_server !! d = Some cl -> cl = sample_client) as Hcl.
  { intros d cl. cbn [clients sample_server]. intros [[_ <-]|[_ [_ <-]%lookup_singleton_Some]]%lookup_insert_Some; done. }
  assert (forall i d, dbs sample_server !! i = Some d -> d = mk_db ∅ ∅ ∅) as Hdb.
  { intros [|[|i]] d Hd; cbn in Hd; [by injection Hd as <-|by injection Hd as <-|done]. }
  assert (forall p, hold sample_server p = 0) as Hhold.
  { intros p. unfold hold. rewrite (msum_zero (cl_refs p)) by (by intros d cl ->%Hcl). cbn [dbs sample_server lsum]. unfold db_refs. cbn [dict watched_keys].
    by rewrite !msum_empty. }
  assert (forall p, rhold sample_server p = 0) as Hrhold by (intros p; unfold rhold; apply msum_zero; by intros d cl ->%Hcl).
  split; [|split].
  - intros d x ->%sample_aclient. constructor.
  - by exists 1%positive, sample_client.
  - exists 166%nat. split.
    { unfold pot. rewrite msum_zero; [done|]. by intros d x ->%sample_aclient. }
    intros c cl Hc. pose proof (Hcl c cl Hc) as ->. split.
    + exact Hok.
    + intros p o Hp. specialize (Hm p o Hp). lia.
    + lia.
    + intros p. cbn beta. unfold refs. destruct (heap server_store !! p) as [o|] eqn:Ho; [|lia]. destruct (ok_obj _ Hok p o Ho) as [_ Hr]. lia.
    + intros p. rewrite Hhold, Hrhold. change (refs server_store p = 0 + 0 + 0 + refs server_store p). generalize (refs server_store p). lia.
    + exact server_shared.
    + intros p o Hp. rewrite Hhold in Hp. unfold occs in Hp. cbn in Hp. lia.
    + intros d cld ->%Hcl. split; [apply idle_ready_in; [done|done|lia]|]. split; [cbn; lia|]. split; [done|]. split; [by intros mc p ?%elem_of_nil|].
      split; [by intros w ?%elem_of_nil|]. apply NoDup_nil_2.
    + intros i d k Hd. rewrite (Hdb i d Hd). cbn. intros [x Hx]. by rewrite lookup_empty in Hx.
    + intros i d k Hd. rewrite (Hdb i d Hd). unfold watchers. cbn [watched_keys]. rewrite lookup_empty. split; [apply NoDup_nil_2|]. split; [|done].
      intros x. split; [by intros ?%elem_of_nil|]. intros (clx & ->%Hcl & Hin). by apply elem_of_nil in Hin.
    + exists sample_client. done.
    + constructor.
    + constructor.
    + by intros d cld ->%Hcl.
Qed.

(** A transaction that a change of a watched key aborts. *)
Definition sample_requests : list (cid * list bytes) := [
  (1%positive, bytes_of_string <$> ["watch"; "k"]%string);
  (2%positive, bytes_of_string <$> ["SET"; "k"; "5"]%string);
  (1%positive, bytes_of_string <$> ["multi"]%string);
  (1%positive, bytes_of_string <$> ["incr"; "k"]%string);
  (1%positive, bytes_of_string <$> ["EXEC"]%string);
  (2%positive, bytes_of_string <$> ["incr"; "k"]%string)].

Lemma sample_abs : abs sample_server = mk_as [mk_adb ∅ ∅; mk_adb ∅ ∅]
  {[1%positive := mk_acl true 0 false false false [] [] []; 2%positive := mk_acl true 0 false false false [] [] []]} 0 0 [].
Proof. reflexivity. Qed.

Lemma requests_refine_witness :
  exists s', requests sample_requests sample_server = Some (tt, s') /\ idle (refs server_store) 34 s' /\
    out <$> aclients (abs s') !! 1%positive = Some (inl <$> ok_text ++ ok_text ++ (bytes_of_string "+QUEUED" ++ crlf_) ++ null_array) /\
    out <$> aclients (abs s') !! 2%positive = Some (inl <$> ok_text ++ reply_line 58 6) /\
    (fun d => adict d !! bytes_of_string "k") <$> adbs (abs s') = [Some (AString (bytes_of_string "6")); None].
Proof.
  assert (exists a', s_requests sample_requests (abs sample_server) = Some (tt, a') /\
    out <$> aclients a' !! 1%positive = Some (inl <$> ok_text ++ ok_text ++ (bytes_of_string "+QUEUED" ++ crlf_) ++ null_array) /\
    out <$> aclients a' !! 2%positive = Some (inl <$> ok_text ++ reply_line 58 6) /\
    (fun d => adict d !! bytes_of_string "k") <$> adbs a' = [Some (AString (bytes_of_string "6")); None]) as (a' & Hspec & Hout).
  { rewrite sample_abs. eexists. split; [vm_compute; reflexivity|]. by vm_compute. }
  destruct (requests_refine (E := sample_env) (refs server_store) plain_zmalloc_bound 34 sample_requests sample_server a') as (s' & Hrun & <- & Hi & _).
  - exact sample_idle.
  - exact Hspec.
  - exists s'. split; [exact Hrun|]. split; [exact Hi|exact Hout].
Defined.
