(* ===== verification/SafetyFacts.v ===== *)
(** * A watched key that changes aborts the transaction

    Of the specification: every command but MOVE marks the clients that watch a key whose
    value it changes, unless the key has expired.  With the refinement of ExecFacts.v this
    holds of the code. *)

From Stdlib Require Import ZArith Lia String.
From stdpp Require Import base numbers list gmap.
From S2P Require Import Prelude Util Object Reply ReplyFacts Server Watch Db Strings Multi KeySpec SpecFacts ServerFacts MultiFacts ExecFacts.

Open Scope Z_scope.

Abbreviation key := (nat * bytes)%type.

#[export] Instance valtype_eq_dec : EqDecision valtype.
Proof. solve_decision. Defined.
#[export] Instance aval_eq_dec : EqDecision aval.
Proof. solve_decision. Defined.

Definition value_of (a : aserver) (x : key) : option aval := d ← adbs a !! x.1; adict d !! x.2.

Definition expired_event (x : key) : event := ENotify REDIS_NOTIFY_EXPIRED "expired" x.2 x.1.

(** From [a0] to [a] the clients have not been given keys to watch, and the keys whose
    values have changed, but those of [P], have expired or all their clients are marked. *)
Record marks_changes (P : key -> Prop) (a0 a : aserver) : Prop := {
  mc_clients : forall d y, aclients a !! d = Some y -> exists x, aclients a0 !! d = Some x /\ watched y ⊆ watched x;
  mc_trace : exists new, atrace a = atrace a0 ++ new;
  mc_values : forall x, ~ P x -> value_of a x <> value_of a0 x ->
    (exists new, atrace a = atrace a0 ++ new /\ expired_event x ∈ new) \/
    forall d y, aclients a !! d = Some y -> x ∈ watched y -> dirty_cas y = true;
}.

(** [m] changes, of what has not been marked, [P] to [Q]. *)
Definition touching {A} (P Q : key -> Prop) (m : S A) : Prop :=
  forall a0 a b a', marks_changes P a0 a -> m a = Some (b, a') -> marks_changes Q a0 a'.

Lemma marks_weaken (P Q : key -> Prop) a0 a : (forall x, P x -> Q x) -> marks_changes P a0 a -> marks_changes Q a0 a.
Proof. intros HPQ [H1 H2 H3]. split; [done|done|]. intros x HQ. apply H3. auto. Qed.

Lemma touching_bind {A B} P Q R (m : S A) (f : A -> S B) : touching P Q m -> (forall b, touching Q R (f b)) -> touching P R (m ≫= f).
Proof. intros Hm Hf a0 a b a' Ha Hr. apply bind_prog in Hr as (x & a1 & Hr1 & Hr2). eapply Hf; [|exact Hr2]. by eapply Hm. Qed.

Lemma touching_weaken {A} P P' Q Q' (m : S A) : (forall x, P x -> P' x) -> (forall x, Q' x -> Q x) -> touching P' Q' m -> touching P Q m.
Proof. intros HP HQ Hm a0 a b a' Ha Hr. eapply marks_weaken; [exact HQ|]. eapply Hm; [|exact Hr]. by eapply marks_weaken. Qed.

(** Steps that change neither the values nor what the clients watch and their marks. *)
Definition quiet (a a' : aserver) : Prop :=
  (forall x, value_of a' x = value_of a x) /\ (exists new, atrace a' = atrace a ++ new) /\
  forall d y, aclients a' !! d = Some y -> exists x, aclients a !! d = Some x /\ watched y ⊆ watched x /\
    (dirty_cas x = true -> dirty_cas y = true \/ watched y = []).

Lemma quiet_marks P a0 a a' : quiet a a' -> marks_changes P a0 a -> marks_changes P a0 a'.
Proof.
  intros (Hv & [new Ht] & Hc) [H1 [new0 H2] H3]. split.
  - intros d y Hy. destruct (Hc d y Hy) as (x & Hx & Hw & _). destruct (H1 d x Hx) as (z & Hz & Hwz). exists z. split; [done|]. by etrans.
  - exists (new0 ++ new). by rewrite Ht, H2, app_assoc.
  - intros x HP Hne. rewrite Hv in Hne. destruct (H3 x HP Hne) as [(l & Hl & Hin)|Hm]; [left|right].
    + exists (l ++ new). rewrite Ht, Hl, app_assoc. split; [done|]. apply elem_of_app. by left.
    + intros d y Hy Hin. destruct (Hc d y Hy) as (z & Hz & Hw & Hd). specialize (Hm d z Hz (Hw _ Hin)). destruct (Hd Hm) as [?|He]; [done|].
      rewrite He in Hin. by apply elem_of_nil in Hin.
Qed.

Definition quietly {A} (m : S A) : Prop := forall a b a', m a = Some (b, a') -> quiet a a'.

Lemma touching_quiet {A} P (m : S A) : quietly m -> touching P P m.
Proof. intros Hm a0 a b a' Ha Hr. eapply quiet_marks; [by eapply Hm|done]. Qed.

Lemma quiet_same a a' : adbs a' = adbs a -> aclients a' = aclients a -> (exists new, atrace a' = atrace a ++ new) -> quiet a a'.
Proof.
  intros Hd Hc Ht. split; [unfold value_of; by rewrite Hd|]. split; [done|]. rewrite Hc. intros d y Hy. exists y. auto.
Qed.

Lemma quiet_trace a a' : adbs a' = adbs a -> aclients a' = aclients a -> atrace a' = atrace a -> quiet a a'.
Proof. intros ? ? Ht. apply quiet_same; [done|done|]. exists []. by rewrite app_nil_r. Qed.

(** A client is put back with the same marks, or without its keys. *)
Lemma quiet_put a c x y : aclients a !! c = Some x -> watched y ⊆ watched x -> (dirty_cas x = true -> dirty_cas y = true \/ watched y = []) ->
  quiet a (set_aclients a (<[c := y]> (aclients a))).
Proof.
  intros Hc Hw Hd. split; [done|]. split; [exists []; by rewrite app_nil_r|]. cbn. intros d z [[<- <-]|[_ Hz]]%lookup_insert_Some; [by exists x|exists z; auto].
Qed.

(** ** The steps *)

Lemma value_put_db a i d d' x : adbs a !! i = Some d ->
  value_of (set_adbs a (<[i := d']> (adbs a))) x = if decide (x.1 = i) then adict d' !! x.2 else value_of a x.
Proof.
  intros Hd. unfold value_of. cbn [adbs set_adbs]. case_decide as Hx.
  - rewrite Hx, list_lookup_insert_eq by (by eapply lookup_lt_Some). done.
  - by rewrite list_lookup_insert_ne.
Qed.

Lemma quietly_ret {A} (x : A) : quietly (mret x).
Proof. intros a b a' [= _ <-]. by apply quiet_trace. Qed.
Lemma quietly_fail {A} : quietly (fail : S A).
Proof. by intros a b a'. Qed.
Lemma quietly_opt {A} (x : option A) : quietly (opt x).
Proof. intros a b a'. unfold opt. case_match; intros; simplify_eq. by apply quiet_trace. Qed.
Lemma quietly_client c : quietly (s_client c).
Proof. intros a b a'. unfold s_client. case_match; intros; simplify_eq. by apply quiet_trace. Qed.
Lemma quietly_db i : quietly (s_db i).
Proof. intros a b a'. unfold s_db. case_match; intros; simplify_eq. by apply quiet_trace. Qed.
Lemma quietly_dirty n : quietly (s_dirty n).
Proof. intros a b a' [= _ <-]. by apply quiet_trace. Qed.
Lemma quietly_get_dirty : quietly s_get_dirty.
Proof. intros a b a' [= _ <-]. by apply quiet_trace. Qed.
Lemma quietly_dbnum : quietly s_dbnum.
Proof. intros a b a' [= _ <-]. by apply quiet_trace. Qed.
Lemma quietly_mstime `{Env} : quietly s_mstime.
Proof. intros a b a' [= _ <-]. by apply quiet_trace. Qed.
Lemma quietly_tell e : quietly (s_tell e).
Proof. intros a b a' [= _ <-]. apply quiet_same; [done|done|by exists [e]]. Qed.

(** A client is read, and put back. *)
Lemma quietly_update c (f : aclient -> aclient) :
  (forall x, watched (f x) ⊆ watched x /\ (dirty_cas x = true -> dirty_cas (f x) = true \/ watched (f x) = [])) -> quietly (x ← s_client c; s_put c (f x)).
Proof.
  intros Hf a b a'. unfold s_client, s_put, mbind, prog_bind. destruct (aclients a !! c) as [x|] eqn:Hc; [|done]. intros [= _ <-].
  destruct (Hf x). by apply (quiet_put a c x).
Qed.

Lemma quietly_bind {A B} (m : S A) (f : A -> S B) : quietly m -> (forall a, quietly (f a)) -> quietly (m ≫= f).
Proof.
  intros Hm Hf a b a' Hr. apply bind_prog in Hr as (x & a1 & Hr1 & Hr2). destruct (Hm _ _ _ Hr1) as (V1 & [n1 T1] & C1). destruct (Hf _ _ _ _ Hr2) as (V2 & [n2 T2] & C2).
  split; [intros y; by rewrite V2|]. split; [exists (n1 ++ n2); by rewrite T2, T1, app_assoc|]. intros d y Hy.
  destruct (C2 d y Hy) as (z & Hz & Hwz & Hdz). destruct (C1 d z Hz) as (w & Hw & Hww & Hdw). exists w. split; [done|]. split; [by etrans|].
  intros Hd. destruct (Hdw Hd) as [?|He]; [by apply Hdz|]. right. destruct (watched y) as [|k l]; [done|]. assert (k ∈ watched z) as Hin by (apply Hwz; by left).
  rewrite He in Hin. by apply elem_of_nil in Hin.
Qed.

Lemma quietly_reply c bs : quietly (s_reply c bs).
Proof. apply quietly_update. intros x. split; [done|by left]. Qed.

Lemma quietly_set_expire i k w : quietly (s_set_expire i k w).
Proof.
  intros a b a'. unfold s_set_expire, s_db, s_put_db, mbind, prog_bind. destruct (adbs a !! i) as [d|] eqn:Hd; [|done]. intros [= _ <-].
  split; [|split; [exists []; by rewrite app_nil_r|intros e y Hy; exists y; auto]].
  intros x. rewrite (value_put_db _ _ _ _ _ Hd). case_decide as Hx; [|done]. unfold value_of. rewrite Hx, Hd. done.
Qed.

Create HintDb quiet.
#[export] Hint Resolve quietly_ret quietly_fail quietly_opt quietly_client quietly_db quietly_dirty quietly_get_dirty quietly_dbnum quietly_mstime
  quietly_tell quietly_reply quietly_set_expire : quiet.

(** A value is put, or taken away. *)
Lemma marks_put_db (P : key -> Prop) a0 a i k d d' :
  adbs a !! i = Some d -> (forall k', k' <> k -> adict d' !! k' = adict d !! k') -> marks_changes P a0 a ->
  marks_changes (fun x => P x \/ x = (i, k)) a0 (set_adbs a (<[i := d']> (adbs a))).
Proof.
  intros Hd Hk [H1 H2 H3]. split; [done|done|]. intros [j k'] HP Hne. rewrite (value_put_db _ _ _ _ _ Hd) in Hne. apply (H3 (j, k')); [by intros ?; apply HP; left|].
  case_decide as Hj; [|done]. cbn in Hj, Hne. subst j. intros Heq. apply Hne. rewrite <- Heq, Hk; [unfold value_of; cbn; by rewrite Hd|].
  intros ->. apply HP. by right.
Qed.

Lemma touching_put_db P i k d d' : (forall k', k' <> k -> adict d' !! k' = adict d !! k') ->
  forall a0 a b a', adbs a !! i = Some d -> marks_changes P a0 a -> s_put_db i d' a = Some (b, a') -> marks_changes (fun x => P x \/ x = (i, k)) a0 a'.
Proof. intros Hk a0 a b a' Hd Ha [= _ <-]. by apply (marks_put_db P a0 a i k d). Qed.

Section Commands.
Context `{Env}.

Lemma quietly_feed i l : quietly (s_feed i l).
Proof.
  intros a b a'. unfold s_feed, mbind, prog_bind. destruct aof_on; cbn; intros [= _ <-]; (apply quiet_same; [done|done|]); cbn.
  - exists [EFeedAof i l; EFeedSlaves i l]. by rewrite <- app_assoc.
  - by exists [EFeedSlaves i l].
Qed.
#[local] Hint Resolve quietly_feed : quiet.

Lemma touching_store P i k v : touching P (fun x => P x \/ x = (i, k)) (s_store i k v).
Proof.
  intros a0 a b a' Ha Hr. unfold s_store in Hr. apply bind_prog in Hr as (d & a1 & Hd & Hr). unfold s_db in Hd. destruct (adbs a !! i) as [d0|] eqn:Hd0; [|done].
  injection Hd as <- <-. apply bind_prog in Hr as (u & a1 & Hp & Hr).
  assert (marks_changes (fun x => P x \/ x = (i, k)) a0 a1) as Ha1.
  { eapply (touching_put_db P i k d0); [|exact Hd0|exact Ha|exact Hp]. intros k' Hne. cbn. by rewrite lookup_insert_ne. }
  revert Ha1 Hr. clear. generalize (fun x => P x \/ x = (i, k)). intros Q Ha1 Hr. revert Ha1 Hr.
  assert (touching Q Q (match adict d0 !! k with Some _ => mret tt | None =>
    (if match v with AOther t => type_num t =? REDIS_LIST | AString _ => false end then s_tell (EListReady i k) else mret tt);;
    (if cluster_enabled then s_tell (ESlotAdd k) else mret tt) end)) as Ht; [|intros; by eapply Ht].
  destruct (adict d0 !! k); [apply touching_quiet; auto with quiet|]. eapply touching_bind; [|intros]; apply touching_quiet; case_match; auto with quiet.
Qed.

Lemma touching_delete P i k : touching P (fun x => P x \/ x = (i, k)) (s_delete i k).
Proof.
  intros a0 a b a' Ha Hr. unfold s_delete in Hr. apply bind_prog in Hr as (d & a1 & Hd & Hr). unfold s_db in Hd. destruct (adbs a !! i) as [d0|] eqn:Hd0; [|done].
  injection Hd as <- <-. apply bind_prog in Hr as (u & a1 & Hp & Hr).
  assert (marks_changes (fun x => P x \/ x = (i, k)) a0 a1) as Ha1.
  { eapply (touching_put_db P i k d0); [|exact Hd0|exact Ha|exact Hp]. intros k' Hne. cbn. by rewrite lookup_delete_ne. }
  revert Ha1 Hr. generalize (fun x => P x \/ x = (i, k)). intros Q Ha1 Hr. revert Ha1 Hr.
  assert (touching Q Q (match adict d0 !! k with Some _ => (if cluster_enabled then s_tell (ESlotDel k) else mret tt);; mret true | None => mret false end)) as Ht;
    [|intros; by eapply Ht].
  destruct (adict d0 !! k); [|apply touching_quiet; auto with quiet]. eapply touching_bind; [|intros]; apply touching_quiet; [case_match|]; auto with quiet.
Qed.

Lemma touching_touch P i k : touching P (fun x => P x /\ x <> (i, k)) (s_touch i k).
Proof.
  intros a0 a b a' [H1 H2 H3] [= _ <-]. split; [|done|].
  - cbn. intros d y. rewrite lookup_fmap. intros (z & Hz & ->)%fmap_Some. destruct (H1 d z Hz) as (x & Hx & Hw). exists x. split; [done|].
    unfold touch. by case_bool_decide.
  - intros x HP Hne. change (value_of (set_aclients a (touch i k <$> aclients a)) x) with (value_of a x) in Hne. destruct (decide (x = (i, k))) as [->|Hx].
    + right. cbn. intros d y. rewrite lookup_fmap. intros (z & Hz & ->)%fmap_Some. unfold touch. case_bool_decide; done.
    + destruct (H3 x) as [He|Hm]; [by intros ?; apply HP|done|by left|]. right. cbn. intros d y. rewrite lookup_fmap. intros (z & Hz & ->)%fmap_Some Hin.
      unfold touch in *. case_bool_decide; [done|]. by apply (Hm d z).
Qed.

(** ** The commands *)

(** Nothing is left unmarked. *)
Definition stable {A} (m : S A) : Prop := forall P, touching P P m.

Lemma stable_quiet {A} (m : S A) : quietly m -> stable m.
Proof. intros Hm P. by apply touching_quiet. Qed.

Lemma stable_bind {A B} (m : S A) (f : A -> S B) : stable m -> (forall a, stable (f a)) -> stable (m ≫= f).
Proof. intros Hm Hf P. eapply touching_bind; [apply Hm|intros; apply Hf]. Qed.

(** A client [x] that has been read is put back. *)
Definition stable_from {A} (c : cid) (x : aclient) (m : S A) : Prop :=
  forall P a0 a b a', aclients a !! c = Some x -> marks_changes P a0 a -> m a = Some (b, a') -> marks_changes P a0 a'.

Lemma stable_with {A} c (f : aclient -> S A) : (forall x, stable_from c x (f x)) -> stable (x ← s_client c; f x).
Proof.
  intros Hf P a0 a b a' Ha Hr. apply bind_prog in Hr as (x & a1 & Hx & Hr). unfold s_client in Hx. destruct (aclients a !! c) as [y|] eqn:Hc; [|done].
  injection Hx as <- <-. by eapply Hf.
Qed.

Lemma stable_from_put c x y : watched y ⊆ watched x -> (dirty_cas x = true -> dirty_cas y = true \/ watched y = []) -> stable_from c x (s_put c y).
Proof. intros Hw Hd P a0 a b a' Hc Ha [= _ <-]. eapply quiet_marks; [|exact Ha]. by apply (quiet_put a c x y). Qed.

Lemma stable_from_bind {A B} c x (m : S A) (f : A -> S B) : stable_from c x m -> (forall a, stable (f a)) -> stable_from c x (m ≫= f).
Proof. intros Hm Hf P a0 a b a' Hc Ha Hr. apply bind_prog in Hr as (y & a1 & Hr1 & Hr2). eapply Hf; [|exact Hr2]. by eapply Hm. Qed.

Lemma stable_from_any {A} c x (m : S A) : stable m -> stable_from c x m.
Proof. intros Hm P a0 a b a' _. apply Hm. Qed.

Lemma stable_store {A} i k v (m : S A) : stable m -> stable (s_store i k v;; s_touch i k;; m).
Proof.
  intros Hm P. eapply touching_bind; [apply touching_store|intros]. eapply touching_bind; [apply touching_touch|intros].
  eapply touching_weaken; [| |apply Hm]; [intros x Hx; exact Hx|]. intros x [[?|?] ?]; [done|by exfalso].
Qed.

(** A key that is not there is not taken away. *)
Lemma touching_gone {A} P Q i k (f : bool -> S A) :
  touching (fun x => P x \/ x = (i, k)) Q (f true) -> touching P Q (f false) -> touching P Q (gone ← s_delete i k; f gone).
Proof.
  intros Ht Hf a0 a b a' Ha Hr. apply bind_prog in Hr as (gone & a1 & Hd & Hr). destruct gone; [eapply Ht; [|exact Hr]; by eapply touching_delete|].
  eapply Hf; [|exact Hr]. clear Hr. unfold s_delete in Hd. apply bind_prog in Hd as (d & a2 & Hdb & Hd). unfold s_db in Hdb. destruct (adbs a !! i) as [d0|] eqn:Hd0; [|done].
  injection Hdb as <- <-. apply bind_prog in Hd as ([] & a2 & Hp & Hd). injection Hp as <-. destruct (adict d0 !! k) as [v|] eqn:Hv.
  { apply bind_prog in Hd as ([] & a2 & _ & Hd). done. }
  injection Hd as <-. eapply quiet_marks; [|exact Ha]. split; [|split; [exists []; by rewrite app_nil_r|intros e y Hy; exists y; auto]].
  intros x. rewrite (value_put_db _ _ _ _ _ Hd0). case_decide as Hx; [|done]. unfold value_of. rewrite Hx, Hd0. cbn.
  destruct (decide (x.2 = k)) as [->|Hne]; [by rewrite lookup_delete_eq|by rewrite lookup_delete_ne].
Qed.

Lemma marks_refl P a : marks_changes P a a.
Proof. split; [intros d y Hy; by exists y|exists []; by rewrite app_nil_r|done]. Qed.

Lemma stable_expire i k : stable (s_expire i k).
Proof.
  unfold s_expire. apply stable_bind; [apply stable_quiet; auto with quiet|]. intros d. destruct (aexpires d !! k) as [w|]; [|apply stable_quiet; auto with quiet].
  destruct ((w <? 0) || loading); [apply stable_quiet; auto with quiet|]. apply stable_bind; [apply stable_quiet; auto with quiet|]. intros now.
  destruct (masterhost || (now <=? w)); [apply stable_quiet; auto with quiet|]. apply stable_bind; [apply stable_quiet; auto with quiet|]. intros _ P a0 a b a' Ha Hr.
  apply bind_prog in Hr as ([] & a1 & Ht & Hr). injection Ht as Ht. apply bind_prog in Hr as (g & a2 & Hd & [= <- <-]).
  set (a1' := mk_as _ _ _ _ _) in Ht. assert (marks_changes P a0 a1) as Ha1.
  { rewrite <- Ht. eapply quiet_marks; [|exact Ha]. apply (quietly_tell (expired_event (i, k)) a tt). done. }
  destruct (touching_delete P i k a0 a1 g a2 Ha1 Hd) as [H1 H2 H3].
  destruct (mc_trace _ _ _ (touching_delete (fun _ => False) i k a1 a1 g a2 (marks_refl _ _) Hd)) as [new Hnew].
  split; [done|done|]. intros x HP Hne. destruct (decide (x = (i, k))) as [->|Hx]; [left|apply H3; [by intros [?|?]|done]].
  destruct (mc_trace _ _ _ Ha) as [new0 Hnew0]. exists (new0 ++ expired_event (i, k) :: new). split.
  - rewrite Hnew, <- Ht. cbn. rewrite Hnew0, <- !app_assoc. done.
  - apply elem_of_app. right. by left.
Qed.

Lemma stable_touch i k : stable (s_touch i k).
Proof. intros P. eapply touching_weaken; [| |apply touching_touch]; [intros x Hx; exact Hx|]. by intros x [? _]. Qed.

Lemma stable_lookup i k : stable (s_lookup i k).
Proof. apply stable_bind; [apply stable_expire|intros _]. apply stable_bind; [|intros]; apply stable_quiet; auto with quiet. Qed.

Lemma stable_set_key i k v : stable (s_set_key i k v).
Proof.
  apply stable_bind; [apply stable_lookup|intros _]. intros P. eapply touching_bind; [apply touching_store|intros].
  eapply touching_bind; [apply touching_quiet; auto with quiet|intros]. eapply touching_weaken; [| |apply touching_touch]; [intros x Hx; exact Hx|].
  by intros x [[?|?] ?].
Qed.

End Commands.

Create HintDb stable.
#[export] Hint Resolve quietly_feed : quiet.
#[export] Hint Resolve stable_quiet stable_touch stable_expire stable_lookup stable_set_key : stable.

(** A program made of such steps. *)
Ltac stables := repeat first [solve [auto with stable quiet] | apply stable_store | apply stable_bind; [|intros] | case_match].

Section Stable.
Context `{Env}.

Lemma quietly_int c n : quietly (s_int c n).
Proof. unfold s_int. auto with quiet. Qed.
Lemma quietly_bulk c s : quietly (s_bulk c s).
Proof. unfold s_bulk. case_match; auto with quiet. Qed.
#[local] Hint Resolve quietly_int quietly_bulk : quiet.

Lemma stable_set c n nx xx k v e o r : stable (s_set c n nx xx k v e o r).
Proof. unfold s_set. stables. Qed.
Lemma stable_get c k : stable (s_get c k).
Proof. unfold s_get. stables. Qed.
Lemma stable_setrange c k o v : stable (s_setrange c k o v).
Proof. unfold s_setrange. stables. Qed.
Lemma stable_getrange c k b e : stable (s_getrange c k b e).
Proof. unfold s_getrange. stables. Qed.
Lemma stable_mget c l : stable (s_mget c l).
Proof. induction l; cbn [s_mget]; stables. Qed.
Lemma stable_busy i : forall l b, stable (s_busy i l b).
Proof. fix IH 1. intros [|k [|v l]] b; cbn [s_busy]; stables. Qed.
Lemma stable_mset i : forall l, stable (s_mset i l).
Proof. fix IH 1. intros [|k [|v l]]; cbn [s_mset]; stables. Qed.
#[local] Hint Resolve stable_get stable_set stable_setrange stable_getrange stable_mget stable_busy stable_mset : stable.
Lemma stable_msets c nx l : stable (s_msets c nx l).
Proof. unfold s_msets. stables. Qed.
Lemma stable_incr c k n : stable (s_incr c k n).
Proof. unfold s_incr. stables. Qed.
Lemma stable_append c k v : stable (s_append c k v).
Proof. unfold s_append. stables. Qed.
Lemma stable_strlen c k : stable (s_strlen c k).
Proof. unfold s_strlen. stables. Qed.

Lemma stable_del i : forall l n, stable (s_del i l n).
Proof.
  induction l as [|k l IH]; intros n; cbn [s_del]; [stables|]. apply stable_bind; [stables|]. intros _ P. apply touching_gone.
  - eapply touching_bind; [eapply touching_bind; [apply touching_touch|intros]; apply touching_quiet; apply quietly_bind; [|intros]; auto with quiet|intros].
    eapply touching_weaken; [| |apply IH]; [intros x Hx; exact Hx|]. by intros x [[?|?] ?].
  - eapply touching_bind; [apply touching_quiet; auto with quiet|intros; apply IH].
Qed.
Lemma stable_exists i : forall l n, stable (s_exists i l n).
Proof. induction l; intros n; cbn [s_exists]; stables. Qed.

#[local] Hint Resolve stable_msets stable_incr stable_append stable_strlen stable_del stable_exists : stable.

(** A change that is marked at once, or after other steps. *)
Lemma stable_changed {A B C} i k (m : S A) (mid : S B) (rest : S C) :
  (forall P, touching P (fun x => P x \/ x = (i, k)) m) -> quietly mid -> stable rest -> stable (m;; mid;; s_touch i k;; rest).
Proof.
  intros Hm Hmid Hrest P. eapply touching_bind; [apply Hm|intros]. eapply touching_bind; [by apply touching_quiet|intros].
  eapply touching_bind; [apply touching_touch|intros]. eapply touching_weaken; [| |apply Hrest]; [intros x Hx; exact Hx|]. by intros x [[?|?] ?].
Qed.

Lemma stable_rename_rest c i src dst v (old : option aval) w (nx : bool) :
  stable ((match old with Some _ => s_delete i dst;; mret tt | None => mret tt end);;
    s_store i dst v;;
    (match w with Some w => if w =? -1 then mret tt else s_set_expire i dst (Some w) | None => mret tt end);;
    s_delete i src;;
    s_touch i src;;
    s_touch i dst;;
    s_tell (ENotify REDIS_NOTIFY_GENERIC "rename_from" src i);;
    s_tell (ENotify REDIS_NOTIFY_GENERIC "rename_to" dst i);;
    s_dirty 1;;
    s_reply c (if nx then reply_line 58 1 else ok_text)).
Proof.
  intros P. apply (touching_bind _ (fun x => P x \/ x = (i, dst))).
  { destruct old; [eapply touching_bind; [apply touching_delete|intros; apply touching_quiet; auto with quiet]|].
    eapply touching_weaken; [| |apply touching_quiet; auto with quiet]; [intros x Hx; exact Hx|by left]. }
  intros _. eapply touching_bind; [apply touching_store|intros _]. eapply touching_bind; [apply touching_quiet; repeat case_match; auto with quiet|intros _].
  eapply touching_bind; [apply touching_delete|intros _]. eapply touching_bind; [apply touching_touch|intros _]. eapply touching_bind; [apply touching_touch|intros _].
  eapply touching_weaken; [intros x Hx; exact Hx| |apply touching_quiet; repeat (apply quietly_bind; [|intros _]); auto with quiet]. intros x. cbn. tauto.
Qed.
#[local] Hint Resolve stable_rename_rest : stable.

Lemma stable_rename c nx k k' : stable (s_rename c nx k k').
Proof. unfold s_rename. stables. Qed.

Lemma stable_expires c b u l k t : stable (s_expires c b u l k t).
Proof.
  assert (forall {A} i (m : S A), stable m -> stable (s_delete i k;; s_dirty 1;; s_touch i k;; m)) as Hd.
  { intros A i m Hm. apply stable_changed; [intros P; apply touching_delete|auto with quiet|done]. }
  unfold s_expires. repeat first [solve [auto with stable quiet] | apply Hd | apply stable_bind; [|intros] | case_match].
Qed.

Lemma stable_flushdb c : stable (s_flushdb c).
Proof.
  unfold s_flushdb. apply stable_bind; [stables|]. intros cl. set (i := in_db cl). intros P a0 a b a' Ha Hr. apply bind_prog in Hr as (d & a1 & Hd & Hr).
  unfold s_db in Hd. destruct (adbs a !! i) as [d0|] eqn:Hd0; [|done]. injection Hd as <- <-.
  apply bind_prog in Hr as ([] & a1 & Hz & Hr). assert (marks_changes P a0 a1 /\ adbs a1 = adbs a) as [Ha1 He1].
  { split; [|by injection Hz as <-]. eapply quiet_marks; [|exact Ha]. by eapply quietly_dirty. }
  clear Hz. apply bind_prog in Hr as ([] & a2 & Ht & Hr). injection Ht as <-. apply bind_prog in Hr as ([] & a3 & Hp & Hr). injection Hp as <-.
  rewrite <- He1 in Hd0. revert Hr. set (a2 := set_adbs _ _). assert (marks_changes P a0 a2) as Ha2.
  { destruct Ha1 as [H1 H2 H3]. assert (forall e y, aclients a2 !! e = Some y -> exists z, aclients a1 !! e = Some z /\ y = flush_touch i d0 z) as Hcl.
    { intros e y. cbn. rewrite lookup_fmap. intros (z & Hz & ->)%fmap_Some. by exists z. }
    assert (forall z, watched (flush_touch i d0 z) = watched z /\ (dirty_cas z = true -> dirty_cas (flush_touch i d0 z) = true)) as Hflush.
    { intros z. unfold flush_touch. by case_match. }
    split.
    - intros e y Hy. destruct (Hcl e y Hy) as (z & Hz & ->). destruct (H1 e z Hz) as (x & Hx & Hw). exists x. split; [done|]. by rewrite (proj1 (Hflush z)).
    - done.
    - intros x HP Hne. unfold a2 in Hne. rewrite (value_put_db (set_aclients a1 _) i d0) in Hne by done.
      change (value_of (set_aclients a1 _) x) with (value_of a1 x) in Hne. destruct (decide (value_of a1 x = value_of a0 x)) as [Heq|Hne1].
      + case_decide as Hx; [|done]. cbn [adict] in Hne. rewrite lookup_empty in Hne. right. intros e y Hy. destruct (Hcl e y Hy) as (z & Hz & ->). rewrite (proj1 (Hflush z)).
        intros Hin. unfold flush_touch. rewrite (proj2 (existsb_exists _ _)); [done|]. exists x. split; [by apply list_elem_of_In|].
        apply andb_true_iff. split; [by apply Nat.eqb_eq|]. apply bool_decide_eq_true. rewrite <- Heq in Hne. unfold value_of in Hne. rewrite Hx, Hd0 in Hne. cbn in Hne.
        destruct (adict d0 !! x.2); [done|by exfalso].
      + destruct (H3 x HP Hne1) as [He|Hm]; [by left|]. right. intros e y Hy. destruct (Hcl e y Hy) as (z & Hz & ->). rewrite (proj1 (Hflush z)). intros Hin.
        apply (proj2 (Hflush z)). by apply (Hm e z). }
  clearbody a2. intros Hr. assert (stable ((if cluster_enabled then s_tell ESlotFlush else mret tt);; s_reply c ok_text)) as Hs by stables. by eapply Hs.
Qed.

Lemma stable_select c i : stable (s_select c i).
Proof.
  unfold s_select. case_match; [|stables]. case_match; [stables|]. apply stable_bind; [stables|]. intros n. case_match; [|stables].
  apply stable_with. intros x. apply stable_from_bind; [apply stable_from_put; [done|by left]|intros; stables].
Qed.

Lemma stable_type c k : stable (s_type c k).
Proof. unfold s_type. stables. Qed.
Lemma stable_ttl c ms k : stable (s_ttl c ms k).
Proof. unfold s_ttl. stables. Qed.
Lemma stable_persist c k : stable (s_persist c k).
Proof. unfold s_persist. stables. Qed.

Lemma stable_discard c : stable (s_discard c).
Proof. apply stable_with. intros x. apply stable_from_put; [apply list_subseteq_nil|by right]. Qed.
#[local] Hint Resolve stable_discard : stable.

Lemma stable_flag c : stable (s_flag c).
Proof. apply stable_with. intros x. case_match; (apply stable_from_put; [done|by left]). Qed.
Lemma stable_multi c : stable (s_multi c).
Proof.
  apply stable_with. intros x. case_match; [apply stable_from_any; stables|]. apply stable_from_bind; [apply stable_from_put; [done|by left]|intros; stables].
Qed.
Lemma stable_discards c : stable (s_discards c).
Proof. unfold s_discards. stables. Qed.
Lemma stable_unwatch c : stable (s_unwatch c).
Proof. apply stable_with. intros x. apply stable_from_bind; [apply stable_from_put; [apply list_subseteq_nil|by right]|intros; stables]. Qed.
#[local] Hint Resolve stable_rename stable_expires stable_flushdb stable_select stable_type stable_ttl stable_persist stable_flag stable_multi
  stable_discards stable_unwatch : stable.

(** MOVE does not mark the clients, and WATCH changes what they watch. *)
Definition marking (p : proc) : bool := match p with PMove | PWatch => false | _ => true end.

Lemma stable_queued m c l : marking (cmd_proc m) = true -> stable (s_queued m c l).
Proof. unfold s_queued. destruct (cmd_proc m); intros Hm; try discriminate Hm; clear Hm; stables. Qed.

#[local] Hint Resolve stable_queued : stable.

Lemma stable_call run c m l : stable (run m c l) -> stable (s_call run c m l).
Proof. intros Hr. unfold s_call. stables. Qed.

(** The command is MOVE, at once or in the queue that EXEC executes. *)
Definition is_move (m : option redisCommand) : bool := match m with Some m => bool_decide (cmd_proc m = PMove) | None => false end.
Definition moves (x : aclient) (args : list bytes) : bool :=
  let m := lookupCommand (default [] (head args)) in
  is_move m || match m with Some m => bool_decide (cmd_proc m = PExec) | None => false end && existsb (fun q => is_move q.1) (queue x).

Lemma stable_exec_loop c l : Forall queued_ok l -> existsb (fun q => is_move q.1) l = false -> forall b, stable (s_exec_loop c l b).
Proof.
  induction 1 as [|[om args] l (m & Hm & _ & Him & _) _ IH]; intros Hmv b; cbn [s_exec_loop]; [stables|]. cbn [fst] in Hm. subst om. cbn [existsb fst] in Hmv.
  apply orb_false_iff in Hmv as [Hm Hmv]. assert (marking (cmd_proc m) = true) as Hk.
  { unfold is_move in Hm. apply bool_decide_eq_false in Hm. by destruct (cmd_proc m). }
  apply stable_bind; [case_match; stables|]. intros _. apply stable_bind; [apply stable_call; stables|]. intros _. by apply IH.
Qed.

Lemma exec_marks c l x : Forall queued_ok (queue x) -> existsb (fun q => is_move q.1) (queue x) = false ->
  forall P a0 a b a', aclients a !! c = Some x -> marks_changes P a0 a -> s_exec c l a = Some (b, a') -> marks_changes P a0 a'.
Proof.
  intros Hok Hmv P a0 a b a' Hc Ha Hr. unfold s_exec in Hr. apply bind_prog in Hr as (y & a1 & Hy & Hr). unfold s_client in Hy. rewrite Hc in Hy. injection Hy as <- <-.
  revert Hc Ha Hr. match goal with |- _ -> _ -> ?m a = _ -> _ => assert (stable_from c x m) as Hs; [|intros; by eapply Hs] end.
  case_match; [apply stable_from_any; stables|]. apply stable_from_bind; [|intros; stables]. case_match; [apply stable_from_any; stables|].
  apply stable_from_bind; [apply stable_from_put; [apply list_subseteq_nil|by right]|]. intros _. apply stable_bind; [stables|]. intros _.
  apply stable_bind; [by apply stable_exec_loop|]. intros; stables.
Qed.

Lemma s_client_inv c a x a1 : s_client c a = Some (x, a1) -> a1 = a /\ aclients a !! c = Some x.
Proof. unfold s_client. destruct (aclients a !! c) as [y|]; [|done]. by intros [= -> <-]. Qed.

(** WATCH changes no value. *)
Lemma watch_values c m l a u a' : cmd_proc m = PWatch -> s_call s_run c m l a = Some (u, a') -> adbs a' = adbs a.
Proof.
  intros Hm Hr. unfold s_call in Hr. apply bind_prog in Hr as (x & a1 & Hx & Hr). apply s_client_inv in Hx as [-> _].
  apply bind_prog in Hr as ([] & a1 & Hf & Hr). assert (adbs a1 = adbs a) as <- by (destruct (_ && _ && _); by injection Hf as <-). clear Hf.
  apply bind_prog in Hr as (b & a2 & Hb & Hr). injection Hb as <- <-. apply bind_prog in Hr as (l' & a2 & Hrun & Hr).
  assert (adbs a2 = adbs a1) as <-.
  { unfold s_run, s_queued in Hrun. rewrite Hm in Hrun. apply bind_prog in Hrun as ([] & a3 & Hw & [= <- <-]). unfold s_watch, s_reply, s_client, s_put, mbind, prog_bind in Hw.
    destruct (aclients a1 !! c) as [y|] eqn:Hc; [|done]. destruct (multi y); [rewrite Hc in Hw; by injection Hw as <-|].
    cbn [aclients set_aclients] in Hw. rewrite lookup_insert_eq in Hw. by injection Hw as <-. }
  apply bind_prog in Hr as (b' & a3 & Hb & Hr). injection Hb as <- <-. apply bind_prog in Hr as (y & a3 & Hy & Hr).
  apply s_client_inv in Hy as [-> _].
  destruct (_ <? _); [|by injection Hr as _ <-]. unfold s_feed in Hr. destruct aof_on; by injection Hr as _ <-.
Qed.

(** What a request does to the keys that are watched. *)
Lemma request_marks c args a u a' x :
  aclients a !! c = Some x -> Forall queued_ok (queue x) -> moves x args = false -> s_request c args a = Some (u, a') ->
  (forall k, value_of a' k = value_of a k) \/ marks_changes (fun _ => False) a a'.
Proof.
  intros Hc Hok Hmv Hr. unfold s_request in Hr. destruct (forallb _ args); [|done]. unfold s_process in Hr. destruct args as [|n args]; [done|].
  apply bind_prog in Hr as (y & a1 & Hy & Hr). unfold s_client in Hy. rewrite Hc in Hy. injection Hy as <- <-. destruct (_ || _); [done|].
  unfold moves in Hmv. cbn [head] in Hmv. change (default [] (Some n)) with n in Hmv.
  pose proof (marks_refl (fun _ => False) a) as Ha. destruct (lookupCommand n) as [m|].
  2: { right. revert Ha Hr. match goal with |- _ -> ?m a = _ -> _ => assert (stable m) as Hs by stables; intros; by eapply Hs end. }
  apply orb_false_iff in Hmv as [Hm Hq]. cbn beta iota in Hq. destruct (negb (arity_ok _ _)).
  { right. revert Ha Hr. match goal with |- _ -> ?m a = _ -> _ => assert (stable m) as Hs by stables; intros; by eapply Hs end. }
  destruct (multi x && negb (immediate (cmd_proc m))).
  { right. revert Hc Ha Hr. match goal with |- _ -> _ -> ?m a = _ -> _ => assert (stable_from c x m) as Hs; [|intros; by eapply Hs] end.
    apply stable_from_bind; [apply stable_from_put; [done|by left]|intros; stables]. }
  destruct (decide (cmd_proc m = PWatch)) as [Hw|Hw].
  { left. intros k. unfold value_of. by rewrite (watch_values _ _ _ _ _ _ Hw Hr). }
  right. destruct (decide (cmd_proc m = PExec)) as [He|He].
  - rewrite bool_decide_eq_true_2 in Hq by done. cbn [andb] in Hq.
    unfold s_call in Hr. apply bind_prog in Hr as (y & a1 & Hy & Hr). unfold s_client in Hy. rewrite Hc in Hy. injection Hy as <- <-.
    apply bind_prog in Hr as ([] & a1 & Hf & Hr). assert (aclients a1 !! c = Some x) as Hc1 by (destruct (_ && _ && _); by injection Hf as <-).
    assert (marks_changes (fun _ => False) a a1) as Ha1.
    { revert Ha Hf. match goal with |- _ -> ?m a = _ -> _ => assert (stable m) as Hs by stables; intros; by eapply Hs end. }
    apply bind_prog in Hr as (b & a2 & Hb & Hr). injection Hb as <- <-. apply bind_prog in Hr as (l' & a2 & Hrun & Hr).
    unfold s_run in Hrun. rewrite He in Hrun. apply bind_prog in Hrun as ([] & a3 & Hex & [= <- <-]).
    pose proof (exec_marks c (n :: args) x Hok Hq _ _ _ _ _ Hc1 Ha1 Hex) as Ha3.
    revert Ha3 Hr. match goal with |- _ -> ?m _ = _ -> _ => assert (stable m) as Hs by stables; intros; by eapply Hs end.
  - assert (stable (s_call s_run c m (n :: args))) as Hs; [|by eapply Hs]. apply stable_call. unfold s_run.
    assert (marking (cmd_proc m) = true) as Hk by (unfold is_move in Hm; apply bool_decide_eq_false in Hm; by destruct (cmd_proc m)).
    pose proof (stable_queued m c (n :: args) Hk) as Hs. by destruct (cmd_proc m).
Qed.

End Stable.

(** ** The code *)

Section Safety.
Context `{E : Env} (rest : loc -> Z).
Hypothesis zmalloc_bound : forall n, 0 <= n -> 0 <= zmalloc_size n <= 2 * n + 4096.

(** C0 (safety): A request other than MOVE, and other than an EXEC of a queue that has a
    MOVE, marks with REDIS_DIRTY_CAS every client that watches a key whose value it has
    changed, in whatever database; the one exception is a key whose time has come, which
    the server takes away with an "expired" event. *)
Theorem watched_change_marked r c args s u a' cl :
  idle rest (demand args + r) s -> clients s !! c = Some cl -> moves (acl_of (objs s) cl) args = false ->
  s_request c args (abs s) = Some (u, a') ->
  exists s', request c args s = Some (u, s') /\ abs s' = a' /\ forall d cld k,
    clients s' !! d = Some cld -> k ∈ wset (objs s') cld -> value_of (abs s') k <> value_of (abs s) k ->
    cl_has cld REDIS_DIRTY_CAS = true \/ exists new, trace s' = trace s ++ new /\ expired_event k ∈ new.
Proof.
  intros Hi Hc Hm Hr. destruct (run_request rest zmalloc_bound r c args s u a' Hi Hr) as (s' & Hrun & Ha & _). exists s'. split; [done|]. split; [done|].
  intros d cld k Hd Hk Hne. pose proof (abs_client s c cl Hc) as Hx. pose proof (proj1 Hi c _ Hx) as Hok. rewrite <- Ha in Hr.
  destruct (request_marks c args (abs s) u (abs s') _ Hx Hok Hm Hr) as [Hv|Hmarks]; [by destruct (Hne (Hv k))|].
  destruct (mc_values _ _ _ Hmarks k (fun F => F) Hne) as [He|Hd']; [by right|left]. exact (Hd' d _ (abs_client s' d cld Hd) Hk).
Qed.

Lemma lookup_exec n : tolower <$> n = bytes_of_string "exec" -> lookupCommand n = Some (row "exec" PExec 1 "sM") /\ is_other n = false /\ zlen n = 4.
Proof.
  intros Hn. unfold lookupCommand, is_other. rewrite Hn. split; [by vm_compute|]. split; [by vm_compute|].
  pose proof (f_equal length Hn) as Hl. rewrite length_fmap in Hl. unfold zlen. by rewrite Hl.
Qed.

Lemma exec_aborts c n a x : aclients a !! c = Some x -> multi x = true -> dirty_cas x || dirty_exec x = true ->
  s_exec c [n] a = Some (tt, mk_as (adbs a)
    (<[c := set_awatched (set_queue (set_marks (append_out (if dirty_exec x then execabort_text else null_array) x) false false false) []) []]> (aclients a))
    (adirty a) (aticks a) (atrace a ++ if has_monitors && negb loading then [EFeedMonitors (in_db x) [n]] else [])).
Proof.
  intros Hc Hm Hd. unfold s_exec. rewrite (bind_run _ _ a x a) by (unfold s_client; by rewrite Hc). rewrite Hm, Hd. cbn [negb].
  set (y := append_out _ x). set (a1 := set_aclients a (<[c := y]> (aclients a))).
  set (a2 := set_aclients a1 (<[c := set_awatched (set_queue (set_marks y false false false) []) []]> (aclients a1))).
  rewrite (bind_run _ _ a tt a2).
  2: { rewrite (bind_run _ _ a tt a1) by (by apply s_reply_at). unfold s_discard, s_client, s_put, mbind, prog_bind. unfold a1. cbn [aclients set_aclients].
       by rewrite lookup_insert_eq. }
  unfold a2, a1. cbn [aclients set_aclients]. rewrite insert_insert_eq. destruct (has_monitors && negb loading); [|by rewrite app_nil_r].
  unfold s_client, s_tell, mbind, prog_bind. cbn [aclients set_aclients]. by rewrite lookup_insert_eq.
Qed.

(** C0 (safety): EXEC (in either case) by a client in a transaction that a watched key, or an
    error while queueing, has marked executes nothing: the key spaces, the counter of
    changes and the other clients stay as they are, nothing goes to the append only file or
    to the slaves, the client gets the null array (or EXECABORT), and its transaction, its
    queue, its marks and its watched keys are gone. *)
Theorem marked_exec_aborts r c n s cl :
  idle rest (demand [n] + r) s -> tolower <$> n = bytes_of_string "exec" -> clients s !! c = Some cl ->
  cl_has cl REDIS_MULTI = true -> cl_has cl REDIS_DIRTY_CAS || cl_has cl REDIS_DIRTY_EXEC = true ->
  exists s', request c [n] s = Some (tt, s') /\ idle rest r s' /\ adbs (abs s') = adbs (abs s) /\ dirty s' = dirty s /\
    trace s' = trace s ++ (if has_monitors && negb loading then [EFeedMonitors (cdb cl) [n]] else []) /\
    aclients (abs s') = <[c := set_awatched (set_queue (set_marks
      (append_out (if cl_has cl REDIS_DIRTY_EXEC then execabort_text else null_array) (acl_of (objs s) cl)) false false false) []) []]> (aclients (abs s)).
Proof.
  intros Hi Hn Hc Hm Hd. destruct (lookup_exec n Hn) as (Hlook & Hother & Hlen). pose proof (abs_client s c cl Hc) as Hx.
  set (x := acl_of (objs s) cl) in *. set (y := append_out (if cl_has cl REDIS_DIRTY_EXEC then execabort_text else null_array) x).
  set (z := set_awatched (set_queue (set_marks y false false false) []) []).
  set (a' := mk_as (adbs (abs s)) (<[c := z]> (aclients (abs s))) (adirty (abs s)) (aticks (abs s))
    (atrace (abs s) ++ if has_monitors && negb loading then [EFeedMonitors (cdb cl) [n]] else [])).
  assert (s_request c [n] (abs s) = Some (tt, a')) as Hr.
  { unfold s_request. cbn [forallb]. rewrite Hlen. change (4 <=? max_string) with true. cbn [andb]. unfold s_process.
    rewrite (bind_run _ _ (abs s) x (abs s)) by (unfold s_client; by rewrite Hx). rewrite Hother, Hlook, Hlen. change (false || (4 >? 1000000)) with false.
    set (m := row "exec" PExec 1 "sM"). change (arity_ok m (zlen [n])) with true. change (immediate (cmd_proc m)) with true. rewrite andb_false_r. cbn [negb].
    unfold s_call. rewrite (bind_run _ _ (abs s) x (abs s)) by (unfold s_client; by rewrite Hx). change (_ =? 0) with false. rewrite andb_false_r.
    rewrite (bind_run _ _ (abs s) tt (abs s)) by done. rewrite (bind_run _ _ (abs s) (adirty (abs s)) (abs s)) by done.
    rewrite (bind_run _ _ (abs s) [n] a') by (unfold s_run; cbn [cmd_proc row m]; rewrite (bind_run _ _ (abs s) tt a') by (by apply exec_aborts); done).
    rewrite (bind_run _ _ a' (adirty a') a') by done. rewrite (bind_run _ _ a' z a') by (unfold s_client, a'; cbn [aclients]; by rewrite lookup_insert_eq).
    change (adirty a') with (adirty (abs s)). by rewrite Z.ltb_irrefl. }
  destruct (run_request rest zmalloc_bound r c [n] s tt a' Hi Hr) as (s' & Hrun & Ha & Hi'). exists s'. split; [done|]. split; [done|]. rewrite Ha.
  split; [done|]. split; [exact (f_equal adirty Ha)|]. split; [exact (f_equal atrace Ha)|done].
Qed.

End Safety.

(** ** Examples *)

#[local] Existing Instance sample_env.

Definition req (c : cid) (l : list string) : cid * list bytes := (c, bytes_of_string <$> l).

(** After the requests, from the sample. *)
Lemma sample_after r l a' : s_requests l (abs sample_server) = Some (tt, a') -> (demands l + r <= 166)%nat ->
  exists s', abs s' = a' /\ idle (refs server_store) r s'.
Proof.
  intros Hl Hr. destruct (run_requests (E := sample_env) (refs server_store) plain_zmalloc_bound r l sample_server tt a') as (s' & _ & Ha & Hi); [|done|by exists s'].
  destruct sample_idle as (Hok & Hc & n & Hn & HJ). split; [done|]. split; [done|]. exists n. split; [lia|done].
Qed.

(** The client 1 watches a key that the client 2 changes. *)
Lemma watched_change_marked_witness :
  exists s s' cl', request 2 (req 2 ["SET"; "k"; "5"]%string).2 s = Some (tt, s') /\
    clients s' !! 1%positive = Some cl' /\ wset (objs s') cl' = [(0%nat, bytes_of_string "k")] /\ cl_has cl' REDIS_DIRTY_CAS = true.
Proof.
  assert (exists a, s_requests [req 1 ["WATCH"; "k"]%string] (abs sample_server) = Some (tt, a) /\
    exists a' x, s_request 2 (req 2 ["SET"; "k"; "5"]%string).2 a = Some (tt, a') /\ aclients a !! 2%positive = Some x /\
      moves x (req 2 ["SET"; "k"; "5"]%string).2 = false /\ watched <$> aclients a' !! 1%positive = Some [(0%nat, bytes_of_string "k")] /\
      value_of a' (0%nat, bytes_of_string "k") <> value_of a (0%nat, bytes_of_string "k") /\ atrace a = [] /\
      atrace a' = [ENotify REDIS_NOTIFY_STRING "set" (bytes_of_string "k") 0; EFeedAof 0 (req 2 ["SET"; "k"; "5"]%string).2; EFeedSlaves 0 (req 2 ["SET"; "k"; "5"]%string).2])
    as (a & Ha & a' & x & Hr & Hx & Hm & Hw & Hv & Ht & Ht').
  { rewrite sample_abs. eexists. split; [vm_compute; reflexivity|]. eexists _, _. split; [vm_compute; reflexivity|]. split; [vm_compute; reflexivity|].
    split; [vm_compute; reflexivity|]. split; [vm_compute; reflexivity|]. split; [vm_compute; discriminate|]. by split; vm_compute. }
  destruct (sample_after 100 _ a Ha) as (s & Hs & Hi); [by vm_compute; lia|]. subst a.
  destruct (clients s !! 2%positive) as [cl|] eqn:Hc; [|cbn in Hx; rewrite lookup_fmap, Hc in Hx; discriminate Hx].
  rewrite (abs_client s 2 cl Hc) in Hx. injection Hx as Hx. rewrite <- Hx in Hm.
  destruct (watched_change_marked (E := sample_env) (refs server_store) plain_zmalloc_bound 71 2 (req 2 ["SET"; "k"; "5"]%string).2 s tt a' cl) as (s' & Hrun & Ha' & Hmark); [exact Hi|exact Hc|exact Hm|exact Hr|].
  subst a'. destruct (clients s' !! 1%positive) as [cl'|] eqn:Hc'; [|cbn in Hw; rewrite lookup_fmap, Hc' in Hw; discriminate Hw].
  rewrite (abs_client s' 1 cl' Hc') in Hw. injection Hw as Hw. exists s, s', cl'. split; [exact Hrun|]. split; [exact Hc'|]. split; [exact Hw|].
  destruct (Hmark 1%positive cl' (0%nat, bytes_of_string "k") Hc') as [Hd|(new & Hnew & Hin)]; [rewrite Hw; by left|exact Hv|exact Hd|exfalso].
  change (atrace (abs s')) with (trace s') in Ht'. change (atrace (abs s)) with (trace s) in Ht. rewrite Ht', Ht in Hnew. cbn [app] in Hnew. subst new.
  repeat (apply elem_of_cons in Hin as [Hin|Hin]; [discriminate Hin|]). by apply elem_of_nil in Hin.
Defined.

(** The client 1 has watched a key, and begun a transaction; the client 2 has changed the
    key. *)
Lemma marked_exec_aborts_witness :
  exists s s' cl, clients s !! 1%positive = Some cl /\ length (mstate cl) = 1%nat /\ request 1 [bytes_of_string "Exec"] s = Some (tt, s') /\
    adbs (abs s') = adbs (abs s) /\ trace s' = trace s /\
    out <$> aclients (abs s') !! 1%positive = Some (inl <$> ok_text ++ ok_text ++ (bytes_of_string "+QUEUED" ++ crlf_) ++ null_array).
Proof.
  assert (exists a, s_requests [req 1 ["WATCH"; "k"]%string; req 2 ["SET"; "k"; "5"]%string; req 1 ["MULTI"]%string; req 1 ["INCR"; "k"]%string] (abs sample_server) = Some (tt, a) /\
    exists x, aclients a !! 1%positive = Some x /\ length (queue x) = 1%nat /\ multi x = true /\ dirty_cas x = true /\ dirty_exec x = false /\ takes x = true /\
      out x = inl <$> ok_text ++ ok_text ++ (bytes_of_string "+QUEUED" ++ crlf_))
    as (a & Ha & x & Hx & Hq & Hm & Hd & He & Ht & Ho).
  { rewrite sample_abs. eexists. split; [vm_compute; reflexivity|]. eexists. split; [vm_compute; reflexivity|]. by repeat split; vm_compute. }
  destruct (sample_after 17 _ a Ha) as (s & Hs & Hi); [by vm_compute; lia|]. subst a.
  destruct (clients s !! 1%positive) as [cl|] eqn:Hc; [|cbn in Hx; rewrite lookup_fmap, Hc in Hx; discriminate Hx].
  rewrite (abs_client s 1 cl Hc) in Hx. injection Hx as Hx.
  destruct (marked_exec_aborts (E := sample_env) (refs server_store) plain_zmalloc_bound 0 1 (bytes_of_string "Exec") s cl) as (s' & Hrun & _ & Hdbs & _ & Htr & Hcl).
  - exact Hi.
  - reflexivity.
  - exact Hc.
  - rewrite <- Hm, <- Hx. reflexivity.
  - assert (cl_has cl REDIS_DIRTY_CAS = true) as -> by (rewrite <- Hd, <- Hx; reflexivity). reflexivity.
  - exists s, s', cl. split; [exact Hc|]. split; [|split; [exact Hrun|split; [exact Hdbs|split]]].
    + rewrite <- Hq, <- Hx. cbn. by rewrite length_fmap.
    + rewrite Htr. apply app_nil_r.
    + rewrite Hcl, lookup_insert_eq. assert (cl_has cl REDIS_DIRTY_EXEC = false) as -> by (rewrite <- He, <- Hx; reflexivity).
      rewrite Hx. cbn [fmap option_fmap option_map out set_awatched set_queue set_marks append_out]. rewrite Ht, Ho, <- fmap_app, <- !app_assoc. reflexivity.
Defined.

(** MOVE changes a watched key, and the transaction is executed: the client 1 is not
    marked. *)
Lemma move_unmarked :
  exists s, requests [req 2 ["SET"; "k"; "5"]%string; req 1 ["WATCH"; "k"]%string; req 2 ["MOVE"; "k"; "1"]%string;
      req 1 ["MULTI"]%string; req 1 ["GET"; "k"]%string; req 1 ["EXEC"]%string] sample_server = Some (tt, s) /\
    value_of (abs s) (0%nat, bytes_of_string "k") = None /\
    out <$> aclients (abs s) !! 1%positive = Some (inl <$> ok_text ++ ok_text ++ (bytes_of_string "+QUEUED" ++ crlf_) ++ reply_line 42 1 ++ null_text).
Proof.
  set (l := [_; _; _; _; _; _]). assert (exists a, s_requests l (abs sample_server) = Some (tt, a) /\ value_of a (0%nat, bytes_of_string "k") = None /\
    out <$> aclients a !! 1%positive = Some (inl <$> ok_text ++ ok_text ++ (bytes_of_string "+QUEUED" ++ crlf_) ++ reply_line 42 1 ++ null_text)) as (a & Ha & Hv & Ho).
  { rewrite sample_abs. eexists. split; [vm_compute; reflexivity|]. by split; vm_compute. }
  destruct (run_requests (E := sample_env) (refs server_store) plain_zmalloc_bound 28 l sample_server tt a) as (s & Hrun & <- & _); [exact sample_idle|exact Ha|].
  exists s. split; [exact Hrun|]. split; [exact Hv|exact Ho].
Qed.
